(* ===== verification/_CoqProject ===== *)
-Q . S2P
Prelude.v
MachineInt.v
Records.v
Clock.v
Scheduler.v
Ps1Irq.v
Ps1Timers.v
Ps1TimerBank.v
Buffer.v
R3000.v
R3000Exec.v
R3000Wf.v
R3000Facts.v
R3000Pipeline.v
R3000Arith.v
Slices.v
PsfText.v
PsfDuration.v
PsfTags.v
PsfContainer.v
PsfMetadata.v
PsfLoad.v
PsfLoadFacts.v
PsxExe.v
Vfs.v
Irx.v
IrxFacts.v
IrxLoadFacts.v
VfsFacts.v
Ps1Memory.v
Ps1MemoryFacts.v
Ps1Dma.v
Ps1DmaFacts.v
SpuCommon.v
SpuCommonFacts.v
Ps1Ports.v
Ps1Reverb.v
Ps1Spu.v
Ps1ReverbFacts.v
Ps1SpuFacts.v
Ps1Bus.v
Ps1BusFacts.v
Ps1Bios.v
Ps1BiosLibc.v
Ps1BiosFacts.v
Ps1BiosSafety.v
Ps1BiosSpec.v
Ps1BiosSort.v
Ps1Machine.v
IopBase.v
IopDispatch.v
IopAllocator.v
IopAllocatorFacts.v
IopKernel.v
IopKernelInv.v
IopKernelFacts.v
IopKernelQueues.v
IopKernelSpec.v
IopModules.v
IopModulesSpec.v
IopLoadSpec.v
Ps2Irq.v
Ps2Ssbus.v
Ps2Memory.v
Ps2MemoryFacts.v
Ps2Timers.v
Ps2TimersFacts.v
Ps2Dma.v
Ps2DmaFacts.v
Ps2Bus.v
Ps2BusFacts.v
Ps2Machine.v
Ps2MachineFacts.v
Ps2Effects.v
Ps2Spu.v
Ps2VoiceFacts.v
Ps2SpuFacts.v
Ps2SpuPorts.v
