(* ===== verification/Prelude.v ===== *)
(** * A verification library for the UPSE-NG player core

    UPSE-NG plays PSF music files: archives that hold a program for a console, the
    libraries it depends on and descriptive tags.  The player parses and links the
    archive, loads the image into an emulated machine (processor, memory, interrupt
    controller, timers, DMA and sound processor, with a re-implemented firmware) and
    collects the samples the machine renders.  This library models those parts as pure
    functions on explicit states and proves what makes them correct.  Paths below are
    relative to [src/crates].

    ** Conventions

    A Rust function becomes a function; a [&mut self] method takes the state last and
    returns it with its result on every path, because mutations made before an early
    return remain.  A fallible result is an [outcome]: [Ok], [Err] with the source's
    error value, or [Panic] for everything that would unwind (an array index or a slice
    out of range, a division by zero, a failed [expect], an overflow in a checked build);
    freedom from panics is therefore a theorem.  Integers are values of [Z] with their
    width written out where it matters ([MachineInt]); wrapping, checked and saturating
    operations are separate functions.  Loops that are not structural carry fuel and
    running out of fuel is a [Panic], so a theorem that excludes panics includes
    termination.  Records are updated with [r <| field := v |>] ([Records]).  Byte arrays
    that change in place are [Buffer.Buffer], byte strings that are parsed are lists with
    the slices of [Slices].

    ** Files

    Foundations: [Prelude] (this file: outcomes, sequencing notation, the [succeeds],
    [yields] and [safely] predicates with their bind lemmas, list lemmas), [MachineInt],
    [Records], [Buffer] (RAM, and the words a DMA transfer of either console moves),
    [Slices] (the slice expression that panics, the [get] that does not, little-endian
    reads).

    Time (support/clock, support/scheduler): [Clock] has ticks, deadlines and the
    remainder-carrying rate converter; [Scheduler] the deadline queue, its contract
    [ArrivalQueue], the refinement between them, and the interface [EventQueue] with its
    laws, against which the devices are verified.

    R3000 processor (hw/shared/r3000): [R3000] is the state, the decoder, the [Bus]
    interface and the operations that can panic (register access, shifts, divisions);
    [R3000Exec] the instructions and the step with delay slots and interrupts; [R3000Wf]
    the state invariant, the bus laws and, inside the invariant, the total values of the
    panicking operations; [R3000Facts], [R3000Pipeline] and [R3000Arith] the theorems on
    steps, on the pipeline and on data.

    PS1 devices: [Ps1Irq] (hw/ps1/irq, with the interface [InterruptSink]), [Ps1Timers]
    and [Ps1TimerBank] (hw/ps1/timers), [Ps1Memory] and [Ps1MemoryFacts]
    (hw/ps1/memory), [Ps1Dma] and [Ps1DmaFacts] (hw/ps1/dma), [Ps1Ports] (hw/ps1/cdrom,
    hw/ps1/gpu and hw/ps1/mdec), [SpuCommon] and [SpuCommonFacts] (hw/shared/spu-common,
    with the lemmas on sound RAM both sound units use), [Ps1Reverb], [Ps1Spu],
    [Ps1ReverbFacts] and [Ps1SpuFacts] (hw/ps1/spu).

    PS1 firmware (hle/ps1/bios): [Ps1Bios] is the firmware's state, its events, heaps,
    callbacks and hooks; [Ps1BiosLibc] the C library, the suspended sorting and searching,
    and the three call tables.  [Ps1BiosFacts] has the invariant, the predicate [safe] and
    the heaps, [Ps1BiosSafety] one lemma per service and all sessions of calls,
    [Ps1BiosSpec] what services compute, [Ps1BiosSort] the sorting.

    PS1 machine (machine/ps1): [Ps1Bus] is the bus that joins memory and devices, an
    instance of the processor's [Bus]; [Ps1BusFacts] shows it meets the bus laws, so the
    processor's theorems hold of the machine.  [Ps1Machine] is the machine over it: loading
    a plan, device time, firmware calls, interrupts and callbacks, the step and the two
    ways to ask for frames.  It is definitions only: what is proved of it is what is
    proved of its parts.

    PSF files (formats/shared/psf, formats/ps1/psx-exe): [PsfText] is the byte-string
    part of the standard library, [PsfDuration], [PsfTags], [PsfContainer] and
    [PsfMetadata] the parsers and the fixture builder, [PsfLoad] and [PsfLoadFacts] the
    dependency planner, [PsxExe] the executable parser and the overlay of a plan.

    PSF2 files (formats/ps2/vfs, formats/ps2/irx): [Vfs] is the parser of the directory
    tables and the overlay of the layers, [VfsFacts] its contract; [Irx] the parser of
    relocatable modules, the relocations and the staged load, [IrxFacts] what parsing and
    [IrxLoadFacts] what loading guarantees.

    PS2 I/O processor kernel (hle/ps2/bios): [IopBase] has result codes, guest memory and
    the handle table; [IopDispatch] the saved contexts, trampolines and handlers;
    [IopAllocator] and [IopAllocatorFacts] the system-memory allocator; [IopKernel] the
    threads, the scheduler and the objects they wait on.  [IopKernelInv] is the kernel's
    invariant, with the facts about pools; [IopKernelFacts] and [IopKernelQueues] prove
    that every operation keeps it; [IopKernelSpec] adds the passing of time and states the
    invariant of all sequences of calls.  [IopModules] is the module registry and the
    bundle of all parts, [IopModulesSpec] its invariant and the life cycle of a module,
    [IopLoadSpec] the contracts of loading and unloading.

    PS2 devices: [Ps2Irq] (hw/ps2/irq, with its own [InterruptSink]) is the interrupt
    controller, [Ps2Ssbus] (hw/ps2/ssbus) the bus-timing registers, [Ps2Memory] and
    [Ps2MemoryFacts] (hw/ps2/iop-memory) the address decoder and the memory behind it,
    [Ps2Timers] and [Ps2TimersFacts] (hw/ps2/timers) the six counters and the vertical
    refresh, [Ps2Dma] and [Ps2DmaFacts] (hw/ps2/dma) the register file, the two sound
    channels and the standalone endpoint.  The sound unit (hw/ps2/spu2) is [Ps2Effects]
    (one effect unit) and [Ps2Spu] (voices, registers, ports, mixer), with [Ps2VoiceFacts]
    (voices and effect units), [Ps2SpuFacts] (registers and rendering) and [Ps2SpuPorts]
    (transfers, and the laws DMA and bus rely on).

    PS2 I/O processor machine (machine/ps2/iop): [Ps2Bus] and [Ps2BusFacts] are the bus
    and its laws, [Ps2Machine] and [Ps2MachineFacts] the machine and its step, for every
    sound unit that keeps the laws of its two interfaces.

    ** What the theorems show

    - Whole components: one instruction of the composed PS1 and PS2 machines never panics
      and keeps every device well formed (over any bus that keeps the laws, and over the
      machines' buses in particular); the one panic a guest can cause, a descending sound
      transfer from above RAM, is stated exactly.  No session of firmware calls panics or
      loops for ever.  Rendering sound never fails whatever the registers and the sound RAM
      hold.  Parsing untrusted archives and modules never panics and respects its limits;
      the dependency planner returns for every input.  No sequence of kernel calls panics,
      loses a wake-up or hands out a memory block twice, and the kernel always resumes the
      first thread of the best priority.
    - Contracts: an assembled filesystem shows in every path the topmost layer that names
      it, and lookups find a node under every spelling of its path; loading a module is
      complete or undone, and unloading takes away what loading published.  [registry_ok]
      is the registry's full invariant; the theorem on unloading needs only its part
      [registry_core], which survives releasing and registering single exports.  Sorting
      sorts with any comparator, reallocation keeps contents, an event is delivered once.
    - Refinement and equivalence: the scheduler is the arrival queue of its contract;
      the event-skipping timer loops, the DMA transfers, wide memory accesses and the load
      plan equal their plain reference definitions; memory is an array of cells behind an
      address map stated without the decoder; advancing a clock or a timer in two steps
      equals one step.
    - Exactness: duration text, rate conversion, vertical-blank counts, ADPCM decoding,
      multiplication and division, HI16/LO16 relocation, the allocator's placement and
      free totals.
    - Round trips: container, tags, exception entry and return, setjmp and longjmp, the
      words of sound RAM.
    - Errors: the register files of the sound units reject exactly the invalid accesses
      and change nothing; the allocator refuses exactly when nothing fits.

    ** Bounds and fuel

    Timer loops: every iteration passes an event, and a tick is given one unit per
    elapsed input clock.  The dispatch loops of the scheduler, the kernel and the I/O
    processor machine: one unit per pending event, as each iteration removes one and adds
    none.  Dependency traversal: one unit per level of the depth limit; directory trees
    likewise.  Tables and chains of a module: one unit per entry or per word of the image.
    [gcd]: twice the logarithm of its argument.  Semaphore, message and pool queues: one
    unit per queued thread.  The largest free block of the allocator: one unit per possible
    block.  The firmware's loops run under a binary fuel of 2^32 rounds, more than the
    32-bit counters they run on allow; a suspended sort of [n] elements ends within
    [n(n-1)/2] answers.  In each case the theorems show that the fuel is never exhausted.
    [Ps1Machine] allows [FRAME_STEPS] steps per frame asked for, more than the
    cycles a frame lasts.

    Sequence numbers of the scheduler and of the ready queue have 64 bits and their
    exhaustion is an error of the code: the refinement theorem bounds the number of
    commands, and [IopKernelSpec.reachable] stops at an exhausted counter.

    ** Interfaces

    [R3000.Bus] and [BusLaws] (processor to machine); [EventQueue] (devices to scheduler);
    [InterruptSink] of each console (devices to interrupt controller); [SoundDmaEndpoint],
    [Spu2DmaEndpoint] with their [EndpointLaws], [Spu2MmioEndpoint] with [RegisterLaws]
    (DMA and bus to sound unit), [MdecDmaEndpoint]; the observers of [Ps2Timers] and
    [Ps2Dma].  [Codec] stands for the zlib and CRC-32 packages: a decoder never reports
    more input than it was given ([total_in_bounded], without which the parser would
    panic), and [CodecLaws] has what the round trip needs; an instance with stored blocks
    shows they can be met.  [Resolver] (planner to file access); [Ps1Bios.GuestMemory] with
    [GuestSafe] and [GuestCells] (firmware to RAM); [IopBase.GuestMemory] with [GuestLaws]
    (kernel and registry to RAM); [TargetMemory] with [TargetLaws] (module loader to RAM).
    Each law class has an instance in the library.

    ** Not modelled

    The Gaussian interpolation table is computed with the platform's sine and cosine and
    is a parameter of the mixers.  The PS2 import services that move data between guest
    registers and the kernel, the PSF2 session over the I/O processor machine, sample
    conversion and the player's interface remain to be modelled; the C adapter is
    foreign-function glue.  The filesystem resolver and tracing are host input and
    output. *)

From stdpp Require Export base tactics numbers list gmap sets option.
From stdpp Require Export strings sorting.
From Stdlib Require Export ZArith Lia.

#[global] Open Scope Z_scope.

(** ** Outcomes of fallible Rust code

    A Rust function returning [Result<A, E>] yields [Ok] or [Err]; [Panic]
    stands for a panic (an out-of-range index, a failed [expect], an arithmetic
    overflow in a checked build).  Freedom from panics is then a theorem and
    not an artefact of the model. *)

Inductive outcome (E A : Type) : Type :=
| Ok (a : A)
| Err (e : E)
| Panic.
Arguments Ok {E A} a.
Arguments Err {E A} e.
Arguments Panic {E A}.

Declare Scope rust_scope.
Delimit Scope rust_scope with rust.
#[global] Open Scope rust_scope.

(** Sequencing with Rust's [?]: an error or a panic is propagated. *)
Definition obind {E A B : Type} (m : outcome E A) (k : A -> outcome E B)
  : outcome E B :=
  match m with
  | Ok a => k a
  | Err e => Err e
  | Panic => Panic
  end.

(** [opt.ok_or(e)] *)
Definition ok_or {E A : Type} (o : option A) (e : E) : outcome E A :=
  match o with
  | Some a => Ok a
  | None => Err e
  end.

(** [opt.expect(..)], [opt.unwrap()] and checked indexing. *)
Definition expect {E A : Type} (o : option A) : outcome E A :=
  match o with
  | Some a => Ok a
  | None => Panic
  end.

(** [res.map_err(f)] *)
Definition map_err {E E' A : Type} (f : E -> E') (m : outcome E A)
  : outcome E' A :=
  match m with
  | Ok a => Ok a
  | Err e => Err (f e)
  | Panic => Panic
  end.

(** [res.map(f)] *)
Definition omapok {E A B : Type} (f : A -> B) (m : outcome E A) : outcome E B :=
  obind m (fun a => Ok (f a)).

Notation "'let?' x ':=' c1 'in' c2" := (obind c1 (fun x => c2))
  (at level 10, x pattern, c1 at level 100, c2 at level 200,
   format "'[v' 'let?'  x  ':='  c1  'in' '/' c2 ']'") : rust_scope.

(** A [&mut self] method that can fail: the state is returned on every path,
    because Rust keeps the mutations made before an early return. *)
Notation "'let!' ( x , s ) ':=' c1 'in' c2" :=
  (match c1 with
   | (Ok x, s) => c2
   | (Err e, s) => (Err e, s)
   | (Panic, s) => (Panic, s)
   end)
  (at level 10, x name, s name, c1 at level 100, c2 at level 200) : rust_scope.

Definition is_ok {E A : Type} (m : outcome E A) : bool :=
  match m with Ok _ => true | _ => false end.

Definition no_panic {E A : Type} (m : outcome E A) : Prop := m <> Panic.

(** ** Generic lemmas *)

Lemma obind_ok {E A B} (m : outcome E A) (k : A -> outcome E B) b :
  obind m k = Ok b <-> exists a, m = Ok a /\ k a = Ok b.
Proof. destruct m; naive_solver. Qed.

Lemma obind_no_panic {E A B} (m : outcome E A) (k : A -> outcome E B) :
  no_panic m -> (forall a, m = Ok a -> no_panic (k a)) -> no_panic (obind m k).
Proof. unfold no_panic. destruct m; naive_solver. Qed.

Lemma obind_assoc {E A B C} (m : outcome E A) (k : A -> outcome E B)
    (k' : B -> outcome E C) :
  obind (obind m k) k' = obind m (fun a => obind (k a) k').
Proof. by destruct m. Qed.

Lemma ok_or_ok {E A} (o : option A) (e : E) a :
  ok_or o e = Ok a <-> o = Some a.
Proof. destruct o; naive_solver. Qed.

Lemma ok_or_no_panic {E A} (o : option A) (e : E) : no_panic (ok_or o e).
Proof. by destruct o. Qed.

Create HintDb rust discriminated.
#[export] Hint Resolve ok_or_no_panic : rust.

(** ** Success

    [succeeds Q m]: a fallible computation returns a value that satisfies [Q], so
    it neither fails nor panics; [yields Q r] the same of a [&mut self] method,
    with its final state.  The bind lemmas follow [let?] and [let!]. *)

Definition succeeds {E A : Type} (Q : A -> Prop) (m : outcome E A) : Prop :=
  exists a, m = Ok a /\ Q a.

Definition yields {E A S : Type} (Q : A -> S -> Prop) (r : outcome E A * S) : Prop :=
  exists a s, r = (Ok a, s) /\ Q a s.

Lemma succeeds_ok {E A} (Q : A -> Prop) a : Q a -> succeeds Q (Ok a : outcome E A).
Proof. by exists a. Qed.

Lemma succeeds_bind {E A B} (Q : A -> Prop) (R : B -> Prop) (m : outcome E A)
    (k : A -> outcome E B) :
  succeeds Q m -> (forall a, Q a -> succeeds R (k a)) -> succeeds R (obind m k).
Proof. intros (a & -> & Ha) Hk. by apply Hk. Qed.

Lemma succeeds_mono {E A} (Q R : A -> Prop) (m : outcome E A) :
  succeeds Q m -> (forall a, Q a -> R a) -> succeeds R m.
Proof. intros (a & -> & Ha) Hk. exists a. auto. Qed.

Lemma succeeds_expect {E A} (Q : A -> Prop) (o : option A) a :
  o = Some a -> Q a -> succeeds Q (expect o : outcome E A).
Proof. intros -> Ha. by exists a. Qed.

Lemma succeeds_omapok {E A B} (Q : B -> Prop) (f : A -> B) (m : outcome E A) :
  succeeds (fun a => Q (f a)) m -> succeeds Q (omapok f m).
Proof. intros (a & -> & Ha). by exists (f a). Qed.

Lemma succeeds_no_panic {E A} (Q : A -> Prop) (m : outcome E A) :
  succeeds Q m -> no_panic m.
Proof. by intros (a & -> & _). Qed.

Lemma yields_ok {E A S} (Q : A -> S -> Prop) a s :
  Q a s -> yields Q ((Ok a, s) : outcome E A * S).
Proof. by exists a, s. Qed.

Lemma yields_bind {E A B S T} (Q : A -> S -> Prop) (R : B -> T -> Prop)
    (r : outcome E A * S) (k : A -> S -> outcome E B * T) (e : S -> E -> outcome E B * T)
    (p : S -> outcome E B * T) :
  yields Q r -> (forall a s, Q a s -> yields R (k a s)) ->
  yields R (match r with
            | (Ok a, s) => k a s
            | (Err x, s) => e s x
            | (Panic, s) => p s
            end).
Proof. intros (a & s & -> & Ha) Hk. by apply Hk. Qed.

Lemma yields_mono {E A S} (Q R : A -> S -> Prop) (r : outcome E A * S) :
  yields Q r -> (forall a s, Q a s -> R a s) -> yields R r.
Proof. intros (a & s & -> & Ha) Hk. exists a, s. auto. Qed.

Lemma yields_pure {E A S} (Q : A -> S -> Prop) (m : outcome E A) s :
  succeeds (fun a => Q a s) m -> yields Q (m, s).
Proof. intros (a & -> & Ha). by exists a, s. Qed.

(** [safely Q m]: it may fail, but never panics, and a value it returns satisfies [Q]. *)
Definition safely {E A : Type} (Q : A -> Prop) (m : outcome E A) : Prop :=
  match m with Ok a => Q a | Err _ => True | Panic => False end.

Lemma safely_bind {E A B} (Q : A -> Prop) (R : B -> Prop) (m : outcome E A)
    (k : A -> outcome E B) :
  safely Q m -> (forall a, Q a -> safely R (k a)) -> safely R (obind m k).
Proof. destruct m; cbn; auto. Qed.

Lemma safely_mono {E A} (Q R : A -> Prop) (m : outcome E A) :
  safely Q m -> (forall a, Q a -> R a) -> safely R m.
Proof. destruct m; cbn; auto. Qed.

Lemma safely_ok_or {E A} (Q : A -> Prop) (o : option A) (e : E) :
  (forall a, o = Some a -> Q a) -> safely Q (ok_or o e).
Proof. destruct o; cbn; auto. Qed.

Lemma safely_map_err {E E' A} (Q : A -> Prop) (f : E -> E') (m : outcome E A) :
  safely Q m -> safely Q (map_err f m).
Proof. by destruct m. Qed.

Lemma safely_ok {E A} (Q : A -> Prop) (m : outcome E A) a : safely Q m -> m = Ok a -> Q a.
Proof. by intros H ->. Qed.

Lemma safely_no_panic {E A} (Q : A -> Prop) (m : outcome E A) : safely Q m -> no_panic m.
Proof. by destruct m. Qed.

(** ** Iteration

    [iterate n f] is the reference for a routine that repeats a step. *)

Fixpoint iterate {A : Type} (n : nat) (f : A -> A) (a : A) : A :=
  match n with
  | O => a
  | S n => iterate n f (f a)
  end.

Lemma iterate_add {A} (m n : nat) (f : A -> A) a :
  iterate (m + n) f a = iterate n f (iterate m f a).
Proof. revert a; induction m as [|m IH]; intros a; simpl; auto. Qed.

Lemma iterate_S_r {A} (n : nat) (f : A -> A) a :
  iterate (S n) f a = f (iterate n f a).
Proof. replace (S n) with (n + 1)%nat by lia. by rewrite iterate_add. Qed.

Lemma iterate_invariant {A} (P : A -> Prop) (f : A -> A) n a :
  (forall x, P x -> P (f x)) -> P a -> P (iterate n f a).
Proof. intros Hf. revert a; induction n; simpl; auto. Qed.

(** ** Lists *)

Lemma filter_all {A} (P : A -> Prop) `{forall x, Decision (P x)} l :
  Forall P l -> filter P l = l.
Proof.
  induction 1 as [|x l Hx Hl IH]; [done|].
  rewrite filter_cons_True by done. by f_equal.
Qed.

Lemma filter_none {A} (P : A -> Prop) `{forall x, Decision (P x)} l :
  Forall (fun x => ~ P x) l -> filter P l = [].
Proof.
  induction 1 as [|x l Hx Hl IH]; [done|]. by rewrite filter_cons_False.
Qed.

Lemma StronglySorted_filter {A} (R : relation A) (P : A -> Prop)
    `{forall x, Decision (P x)} l :
  StronglySorted R l -> StronglySorted R (filter P l).
Proof.
  induction 1 as [|x l Hl IH Hx]; [constructor|].
  rewrite filter_cons. case_decide; [|done]. constructor; [done|].
  apply Forall_forall. intros y [_ Hy]%list_elem_of_filter.
  rewrite Forall_forall in Hx. auto.
Qed.

Lemma StronglySorted_snoc {A} (R : relation A) l x :
  StronglySorted R l -> Forall (fun y => R y x) l -> StronglySorted R (l ++ [x]).
Proof.
  induction 1 as [|y l Hl IH Hy]; intros Hx; simpl; [by repeat constructor|].
  inversion_clear Hx. constructor; [auto|].
  apply Forall_app. split; [done|]. by repeat constructor.
Qed.

Lemma StronglySorted_NoDup {A} (R : relation A) l :
  (forall x, ~ R x x) -> StronglySorted R l -> NoDup l.
Proof.
  intros Hirr. induction 1 as [|x l Hl IH Hx]; constructor; [|done].
  intros Hin. rewrite Forall_forall in Hx. by apply (Hirr x), Hx.
Qed.

(** ** Proof automation *)

(** Case analysis on the scrutinee of a match or of a boolean test, in the
    goal or in a hypothesis, keeping the equation. *)
Ltac case_goal :=
  match goal with
  | |- context [if ?b then _ else _] =>
      lazymatch b with context [if _ then _ else _] => fail | _ => idtac end;
      let E := fresh "E" in destruct b eqn:E
  | |- context [match ?x with _ => _ end] =>
      lazymatch x with context [match _ with _ => _ end] => fail | _ => idtac end;
      let E := fresh "E" in destruct x eqn:E
  end.

Ltac case_hyp H :=
  match type of H with
  | context [if ?b then _ else _] =>
      lazymatch b with context [if _ then _ else _] => fail | _ => idtac end;
      let E := fresh "E" in destruct b eqn:E
  | context [match ?x with _ => _ end] =>
      lazymatch x with context [match _ with _ => _ end] => fail | _ => idtac end;
      let E := fresh "E" in destruct x eqn:E
  end.

(** Turn boolean integer tests into propositions. *)
Ltac zbool :=
  repeat match goal with
  | H : (_ && _)%bool = true |- _ => apply andb_true_iff in H; destruct H
  | H : (_ || _)%bool = false |- _ => apply orb_false_iff in H; destruct H
  | H : negb _ = true |- _ => apply negb_true_iff in H
  | H : negb _ = false |- _ => apply negb_false_iff in H
  | H : (_ =? _)%Z = true |- _ => apply Z.eqb_eq in H
  | H : (_ =? _)%Z = false |- _ => apply Z.eqb_neq in H
  | H : (_ <? _)%Z = true |- _ => apply Z.ltb_lt in H
  | H : (_ <? _)%Z = false |- _ => apply Z.ltb_ge in H
  | H : (_ <=? _)%Z = true |- _ => apply Z.leb_le in H
  | H : (_ <=? _)%Z = false |- _ => apply Z.leb_gt in H
  end.

(** [Forall] over an explicit list. *)
Ltac forall_list :=
  repeat (apply List.Forall_cons; [solve [done | simpl; lia]|]); apply List.Forall_nil.
