(* ===== verification/MachineInt.v ===== *)
(** * Machine integers

    Rust's [uN] and [iN] values are integers of [Z] with the width written
    out: [in_u w x] and [in_s w x] are the ranges, [wrap] the truncation of the
    [as] casts and of the wrapping operations, [to_i] and [of_i] the bit-for-bit
    reinterpretations ([iN::from_ne_bytes(x.to_ne_bytes())]), and the
    [checked_*] and [saturating_*] operations those of the standard library.
    The database [u_range] proves the range of a bit-level expression. *)

From S2P Require Export Prelude.


Definition in_u (w x : Z) : Prop := 0 <= x < 2 ^ w.
Definition in_s (w x : Z) : Prop := - 2 ^ (w - 1) <= x < 2 ^ (w - 1).

(** [x as uW] *)
Definition wrap (w x : Z) : Z := x mod 2 ^ w.
(** The signed reading of a [w]-bit pattern, and back. *)
Definition to_i (w x : Z) : Z := if x <? 2 ^ (w - 1) then x else x - 2 ^ w.
Definition of_i (w x : Z) : Z := wrap w x.
(** [!x] on [uW] *)
Definition bnot (w x : Z) : Z := Z.lxor x (Z.ones w).
(** [x << n] on [uW], for [n < W] *)
Definition shl (w x n : Z) : Z := wrap w (Z.shiftl x n).

Infix ".&" := Z.land (at level 40, left associativity) : rust_scope.
Infix ".|" := Z.lor (at level 50, left associativity) : rust_scope.
Infix ".^" := Z.lxor (at level 45, left associativity) : rust_scope.

(** [x & mask != 0] *)
Definition has_bits (x mask : Z) : bool := negb (x .& mask =? 0).

Definition checked_add_u (w a b : Z) : option Z :=
  if a + b <? 2 ^ w then Some (a + b) else None.
Definition checked_sub_u (a b : Z) : option Z :=
  if b <=? a then Some (a - b) else None.
Definition checked_mul_u (w a b : Z) : option Z :=
  if a * b <? 2 ^ w then Some (a * b) else None.
(** [uW::try_from(x)] for a nonnegative [x] *)
Definition try_from_u (w x : Z) : option Z :=
  if x <? 2 ^ w then Some x else None.
(** [iW::checked_add] and [iW::checked_sub], given the exact result *)
Definition checked_s (w x : Z) : option Z :=
  if (- 2 ^ (w - 1) <=? x) && (x <? 2 ^ (w - 1)) then Some x else None.
Definition saturating_u (w x : Z) : Z := Z.max 0 (Z.min (2 ^ w - 1) x).
Definition saturating_s (w x : Z) : Z :=
  Z.max (- 2 ^ (w - 1)) (Z.min (2 ^ (w - 1) - 1) x).

(** ** Powers of two *)

Lemma pow2_pos w : 0 <= w -> 0 < 2 ^ w.
Proof. intros. by apply Z.pow_pos_nonneg. Qed.

Lemma pow2_split w n : 0 <= n <= w -> 2 ^ w = 2 ^ n * 2 ^ (w - n).
Proof. intros. rewrite <- Z.pow_add_r by lia. f_equal; lia. Qed.

Lemma pow2_half w : 1 <= w -> 2 ^ w = 2 * 2 ^ (w - 1).
Proof. intros. rewrite <- Z.pow_succ_r by lia. f_equal; lia. Qed.

(** ** Ranges *)

Lemma in_u_wrap w x : 0 <= w -> in_u w (wrap w x).
Proof. intros. apply Z.mod_pos_bound, pow2_pos; lia. Qed.

Lemma wrap_id w x : in_u w x -> wrap w x = x.
Proof. apply Z.mod_small. Qed.

Lemma in_u_testbit w x :
  0 <= w -> 0 <= x -> (forall i, w <= i -> Z.testbit x i = false) -> in_u w x.
Proof.
  intros Hw Hx Hi. split; [done|].
  destruct (decide (x = 0)) as [->|Hne]; [by apply pow2_pos|].
  apply Z.log2_lt_pow2; [lia|].
  destruct (Z.lt_ge_cases (Z.log2 x) w) as [|Hge]; [done|].
  specialize (Hi _ Hge). rewrite Z.bit_log2 in Hi by lia. done.
Qed.

Lemma testbit_high w x i : in_u w x -> w <= i -> Z.testbit x i = false.
Proof.
  intros [H0 H1] Hi. destruct (Z.lt_ge_cases w 0) as [Hw|Hw].
  { rewrite Z.pow_neg_r in H1 by lia. lia. }
  rewrite <- (Z.mod_small x (2 ^ w)) by lia.
  by apply Z.mod_pow2_bits_high.
Qed.

Lemma in_u_land_l w x y : 0 <= y -> in_u w x -> in_u w (x .& y).
Proof.
  intros Hy [H0 H1]. split; [apply Z.land_nonneg; lia|].
  eapply Z.le_lt_trans; [|exact H1].
  destruct (decide (x = 0)) as [->|]; [by rewrite Z.land_0_l|].
  apply Z.ldiff_le; [lia|].
  apply Z.bits_inj'. intros i Hi.
  rewrite Z.ldiff_spec, Z.land_spec, Z.bits_0.
  by destruct (Z.testbit x i), (Z.testbit y i).
Qed.

Lemma in_u_land_r w x y : 0 <= x -> in_u w y -> in_u w (x .& y).
Proof. intros. rewrite Z.land_comm. by apply in_u_land_l. Qed.

Lemma in_u_lor w x y : 0 <= w -> in_u w x -> in_u w y -> in_u w (x .| y).
Proof.
  intros Hw Hx Hy. apply in_u_testbit; [done| |].
  - apply Z.lor_nonneg. split; [apply Hx|apply Hy].
  - intros i Hi. by rewrite Z.lor_spec, !(testbit_high w) by done.
Qed.

Lemma in_u_lxor w x y : 0 <= w -> in_u w x -> in_u w y -> in_u w (x .^ y).
Proof.
  intros Hw Hx Hy. apply in_u_testbit; [done| |].
  - apply Z.lxor_nonneg. destruct Hx, Hy; lia.
  - intros i Hi. by rewrite Z.lxor_spec, !(testbit_high w) by done.
Qed.

Lemma in_u_ones w : 0 <= w -> in_u w (Z.ones w).
Proof.
  intros. rewrite Z.ones_equiv. pose proof (pow2_pos w).
  unfold in_u. lia.
Qed.

Lemma in_u_bnot w x : 0 <= w -> in_u w x -> in_u w (bnot w x).
Proof. intros. apply in_u_lxor; auto using in_u_ones. Qed.

Lemma in_u_shiftr w x n : 0 <= n -> in_u w x -> in_u w (Z.shiftr x n).
Proof.
  intros Hn [H0 H1]. split; [by apply Z.shiftr_nonneg|].
  eapply Z.le_lt_trans; [|exact H1]. rewrite Z.shiftr_div_pow2 by lia.
  apply Z.div_le_upper_bound; [by apply pow2_pos|].
  pose proof (pow2_pos n Hn). nia.
Qed.

Lemma in_u_shiftr_narrow w x n :
  0 <= n <= w -> in_u w x -> in_u (w - n) (Z.shiftr x n).
Proof.
  intros Hn [H0 H1]. split; [by apply Z.shiftr_nonneg|].
  rewrite Z.shiftr_div_pow2 by lia. apply Z.div_lt_upper_bound.
  - apply pow2_pos; lia.
  - by rewrite <- pow2_split.
Qed.

Lemma in_u_shl w x n : 0 <= w -> in_u w (shl w x n).
Proof. apply in_u_wrap. Qed.

Lemma in_u_of_i w x : 0 <= w -> in_u w (of_i w x).
Proof. apply in_u_wrap. Qed.

Lemma in_u_mono w w' x : w <= w' -> in_u w x -> in_u w' x.
Proof.
  intros Hw [H0 H1]. split; [done|]. eapply Z.lt_le_trans; [done|].
  by apply Z.pow_le_mono_r.
Qed.

Lemma in_u_bool w (b : bool) : 1 <= w -> in_u w (if b then 1 else 0).
Proof.
  intros. pose proof (pow2_half w ltac:(lia)).
  pose proof (pow2_pos (w - 1) ltac:(lia)). unfold in_u. destruct b; lia.
Qed.

Lemma in_u_nonneg w x : in_u w x -> 0 <= x.
Proof. by intros []. Qed.

Lemma in_u_land_bnot w x m :
  0 <= w -> in_u w x -> in_u w m -> in_u w (x .& bnot w m).
Proof.
  intros Hw Hx Hm. apply in_u_land_l; [|done].
  eapply in_u_nonneg, in_u_bnot; done.
Qed.

Create HintDb u_range discriminated.
#[export] Hint Resolve in_u_wrap in_u_land_bnot in_u_land_l in_u_land_r in_u_lor in_u_lxor
  in_u_bnot in_u_shiftr in_u_shl in_u_of_i in_u_bool : u_range.
#[export] Hint Resolve in_u_nonneg : u_range.

(** Closed ranges are decided by evaluation, the rest by the database. *)
Ltac range_lit :=
  lazymatch goal with
  | |- in_u ?w ?x => split; [vm_compute; congruence | vm_compute; reflexivity]
  | |- Z.le _ _ => lia
  | |- Z.lt _ _ => lia
  end.
#[export] Hint Extern 1 (in_u _ (Zpos _)) => range_lit : u_range.
#[export] Hint Extern 1 (in_u _ 0) => range_lit : u_range.
#[export] Hint Extern 1 (0 <= _) => lia : u_range.
#[export] Hint Extern 1 (1 <= _) => lia : u_range.

(** ** Signed readings *)

Lemma to_i_range w x : 1 <= w -> in_u w x -> in_s w (to_i w x).
Proof.
  intros Hw [H0 H1]. unfold in_s, to_i. pose proof (pow2_half w Hw).
  destruct (Z.ltb_spec x (2 ^ (w - 1))); lia.
Qed.

Lemma of_i_to_i w x : 1 <= w -> in_u w x -> of_i w (to_i w x) = x.
Proof.
  intros Hw Hx. unfold of_i, to_i, wrap.
  destruct (Z.ltb_spec x (2 ^ (w - 1))); [by apply Z.mod_small|].
  rewrite <- (Z.mod_small x (2 ^ w)) at 2 by apply Hx.
  rewrite <- (Z_mod_plus_full (x - 2 ^ w) 1). f_equal. lia.
Qed.

Lemma to_i_of_i w x : 1 <= w -> in_s w x -> to_i w (of_i w x) = x.
Proof.
  intros Hw Hx. unfold in_s in Hx. unfold to_i, of_i, wrap.
  pose proof (pow2_half w Hw). pose proof (pow2_pos (w - 1) ltac:(lia)).
  destruct (Z.lt_ge_cases x 0).
  - replace (x mod 2 ^ w) with (x + 2 ^ w).
    + destruct (Z.ltb_spec (x + 2 ^ w) (2 ^ (w - 1))); lia.
    + symmetry. rewrite <- (Z_mod_plus_full x 1), Z.mod_small; lia.
  - rewrite Z.mod_small by lia. destruct (Z.ltb_spec x (2 ^ (w - 1))); lia.
Qed.

Lemma to_i_mod w x : 1 <= w -> in_u w x -> to_i w x mod 2 ^ w = x.
Proof. apply of_i_to_i. Qed.

Lemma to_i_inj w x y :
  1 <= w -> in_u w x -> in_u w y -> to_i w x = to_i w y -> x = y.
Proof.
  intros Hw Hx Hy E. rewrite <- (of_i_to_i w x), <- (of_i_to_i w y) by done.
  by rewrite E.
Qed.

(** ** Masks *)

Lemma testbit_bnot w x i :
  0 <= i -> 0 <= w -> Z.testbit (bnot w x) i = xorb (Z.testbit x i) (i <? w).
Proof.
  intros. unfold bnot. rewrite Z.lxor_spec. f_equal.
  destruct (Z.ltb_spec i w).
  - by rewrite Z.ones_spec_low by lia.
  - by rewrite Z.ones_spec_high by lia.
Qed.

Lemma land_bnot w x m : 0 <= w -> in_u w x -> x .& bnot w m = Z.ldiff x m.
Proof.
  intros Hw Hx. apply Z.bits_inj'. intros i Hi.
  rewrite Z.land_spec, testbit_bnot, Z.ldiff_spec by lia.
  destruct (Z.ltb_spec i w).
  - by rewrite xorb_true_r.
  - by rewrite (testbit_high w x) by done.
Qed.

Lemma land_pow2 x n :
  0 <= n -> x .& 2 ^ n = if Z.testbit x n then 2 ^ n else 0.
Proof.
  intros Hn. apply Z.bits_inj'. intros i Hi. rewrite Z.land_spec.
  rewrite Z.pow2_bits_eqb by lia.
  destruct (Z.eqb_spec n i) as [->|].
  - destruct (Z.testbit x i); [by rewrite Z.pow2_bits_true by lia|].
    by rewrite Z.bits_0.
  - rewrite andb_false_r. destruct (Z.testbit x n); [|by rewrite Z.bits_0].
    by rewrite Z.pow2_bits_false by lia.
Qed.

Lemma has_bits_pow2 x n : 0 <= n -> has_bits x (2 ^ n) = Z.testbit x n.
Proof.
  intros Hn. unfold has_bits. rewrite land_pow2 by done.
  pose proof (pow2_pos n Hn).
  destruct (Z.testbit x n); [|done].
  by destruct (Z.eqb_spec (2 ^ n) 0); [lia|].
Qed.

(** [has_bits x m] holds exactly when some bit is set in both. *)
Lemma has_bits_true x m :
  0 <= x -> has_bits x m = true <->
  exists i, 0 <= i /\ Z.testbit x i = true /\ Z.testbit m i = true.
Proof.
  intros Hx. unfold has_bits. rewrite negb_true_iff, Z.eqb_neq. split.
  - intros Hne. destruct (decide (0 <= Z.log2 (x .& m))) as [Hl|Hl];
      [|pose proof (Z.log2_nonneg (x .& m)); lia].
    assert (0 < x .& m) as Hp.
    { assert (0 <= x .& m) by (apply Z.land_nonneg; lia). lia. }
    pose proof (Z.bit_log2 _ Hp) as Hb.
    rewrite Z.land_spec in Hb. apply andb_true_iff in Hb. eauto.
  - intros (i & Hi & H1 & H2) E0.
    assert (Z.testbit (x .& m) i = true) as Hb
      by (by rewrite Z.land_spec, H1, H2).
    by rewrite E0, Z.bits_0 in Hb.
Qed.

Lemma has_bits_false x m :
  has_bits x m = false <-> x .& m = 0.
Proof. unfold has_bits. by rewrite negb_false_iff, Z.eqb_eq. Qed.

Lemma land_ones_wrap w x : 0 <= w -> x .& Z.ones w = wrap w x.
Proof. intros. by rewrite Z.land_ones. Qed.

(** Fields that do not overlap are joined by addition. *)
Lemma lor_shiftl_add x y k :
  0 <= k -> in_u k y -> Z.shiftl x k .| y = x * 2 ^ k + y.
Proof.
  intros Hk Hy. rewrite <- Z.shiftl_mul_pow2 by lia.
  assert (Z.shiftl x k .& y = 0) as E.
  { apply Z.bits_inj'. intros i Hi. rewrite Z.land_spec, Z.bits_0.
    destruct (Z.lt_ge_cases i k).
    - by rewrite Z.shiftl_spec_low by lia.
    - rewrite (testbit_high k y) by done. apply andb_false_r. }
  rewrite Z.add_nocarry_lxor by done. symmetry. by apply Z.lxor_lor.
Qed.

(** ** Checked operations *)

Lemma checked_add_u_Some w a b c :
  checked_add_u w a b = Some c <-> c = a + b /\ a + b < 2 ^ w.
Proof.
  unfold checked_add_u. destruct (Z.ltb_spec (a + b) (2 ^ w)); naive_solver lia.
Qed.

Lemma checked_add_u_None w a b :
  checked_add_u w a b = None <-> 2 ^ w <= a + b.
Proof.
  unfold checked_add_u. destruct (Z.ltb_spec (a + b) (2 ^ w)); naive_solver lia.
Qed.

Lemma checked_sub_u_Some a b c :
  checked_sub_u a b = Some c <-> c = a - b /\ b <= a.
Proof. unfold checked_sub_u. destruct (Z.leb_spec b a); naive_solver lia. Qed.

Lemma checked_mul_u_Some w a b c :
  checked_mul_u w a b = Some c <-> c = a * b /\ a * b < 2 ^ w.
Proof.
  unfold checked_mul_u. destruct (Z.ltb_spec (a * b) (2 ^ w)); naive_solver lia.
Qed.

Lemma try_from_u_Some w x y : try_from_u w x = Some y <-> y = x /\ x < 2 ^ w.
Proof.
  unfold try_from_u. destruct (Z.ltb_spec x (2 ^ w)); naive_solver lia.
Qed.

Lemma try_from_u_in w x : x < 2 ^ w -> try_from_u w x = Some x.
Proof. intros. by apply try_from_u_Some. Qed.

Lemma checked_s_Some w x y :
  checked_s w x = Some y <-> y = x /\ in_s w x.
Proof.
  unfold checked_s, in_s.
  destruct (Z.leb_spec (- 2 ^ (w - 1)) x), (Z.ltb_spec x (2 ^ (w - 1)));
    simpl; naive_solver lia.
Qed.

Lemma in_u_lt w x c : in_u w x -> 2 ^ w <= c -> 0 <= x < c.
Proof. unfold in_u. lia. Qed.

(** ** Powers of two *)

(** [x.is_power_of_two()] *)
Definition is_power_of_two (x : Z) : bool := (0 <? x) && (x .& (x - 1) =? 0).

Lemma power_of_two_log x : is_power_of_two x = true -> x = 2 ^ Z.log2 x /\ 0 <= Z.log2 x.
Proof.
  unfold is_power_of_two. intros [H0%Z.ltb_lt H1%Z.eqb_eq]%andb_true_iff.
  pose proof (Z.log2_nonneg x). split; [|done].
  destruct (Z.log2_spec x H0) as [Hl Hu]. set (k := Z.log2 x) in *.
  destruct (Z.le_gt_cases x (2 ^ k)) as [|Hgt]; [lia|exfalso].
  rewrite Z.pow_succ_r in Hu by lia.
  assert (Z.log2 (x - 1) = k) as Hk by (apply Z.log2_unique; rewrite ?Z.pow_succ_r; lia).
  assert (Z.testbit (x .& (x - 1)) k = true) as Hb.
  { rewrite Z.land_spec, andb_true_iff. split; [by apply Z.bit_log2|].
    rewrite <- Hk. apply Z.bit_log2. lia. }
  by rewrite H1, Z.bits_0 in Hb.
Qed.

Lemma power_of_two_divide x y :
  is_power_of_two x = true -> is_power_of_two y = true -> x <= y -> (x | y).
Proof.
  intros Hx Hy Hle. destruct (power_of_two_log x Hx) as [Ex H1], (power_of_two_log y Hy) as [Ey H2].
  pose proof (Z.log2_le_mono x y Hle).
  rewrite Ex, Ey. exists (2 ^ (Z.log2 y - Z.log2 x)). rewrite <- Z.pow_add_r by lia. f_equal. lia.
Qed.
