(* ===== verification/Records.v ===== *)
(** * Record updates and textual display

    [r <| field := v |>] replaces one field of a record.  A record becomes
    updatable by an instance of [Fields] that lists its fields once; the updater
    of each field is then derived from it.  [Display] is Rust's [to_string]. *)

From S2P Require Export Prelude.

Class Fields (R : Type) := fields : R -> R.

Class Updatable {R E : Type} (field : R -> E) := modify : (E -> E) -> R -> R.
Arguments modify {R E} field {_} f r.

(** Abstract the occurrence of the field in the list of fields. *)
Ltac derive_update field :=
  lazymatch type of field with
  | ?R -> _ =>
      let i := constr:(_ : Fields R) in
      let e := eval cbv delta [fields] beta in (@fields R i) in
      let e := lazymatch e with
        | ?h ?a => eval cbv beta delta [h] in (h a)
        | ?h => eval cbv delta [h] in h
        end in
      let p := eval pattern field in e in
      lazymatch p with
      | ?k _ =>
          let u := eval cbv beta in (fun f => k (fun r => f (field r))) in exact u
      end
  end.
#[export] Hint Extern 0 (Updatable ?field) => derive_update field : typeclass_instances.

Notation "r <| field := v |>" := (modify field (fun _ => v) r)
  (at level 8, left associativity, v at level 99, format "r <| field := v |>") : rust_scope.

(** ** Text *)

(** [error.to_string()] *)
Class Display (E : Type) := to_string : E -> string.

Definition hex_digit (d : Z) : Ascii.ascii :=
  Ascii.ascii_of_N (Z.to_N (if d <? 10 then 48 + d else 87 + d)).

(** The [n] low hexadecimal digits of [x] before [tail]. *)
Fixpoint hex_digits (n : nat) (x : Z) (tail : string) : string :=
  match n with
  | O => tail
  | S n => hex_digits n (Z.shiftr x 4) (String (hex_digit (x mod 16)) tail)
  end.

(** [{x:#010x}] for a 32-bit [x] *)
Definition hex8 (x : Z) : string := String.append "0x" (hex_digits 8 x "").

(** [{x:#x}]: without leading zeros *)
Definition hex (x : Z) : string :=
  String.append "0x" (hex_digits (S (Z.to_nat (Z.log2 x / 4))) x "").

(** [{n}] *)
Definition decimal (n : Z) : string := pretty.pretty n.

Example hex8_sample : hex8 0x1f8010f0 = "0x1f8010f0".
Proof. reflexivity. Qed.
Example hex_sample : hex 0x80000 = "0x80000" /\ hex 0 = "0x0".
Proof. split; reflexivity. Qed.
Example decimal_sample : decimal 1024 = "1024".
Proof. reflexivity. Qed.
