(* ===== verification/Clock.v ===== *)
(** * Clock domains: crates/support/clock/src/lib.rs

    [Ticks] and [Deadline] are newtypes over [u64] and are integers here.  The
    rate converter carries the division remainder from call to call. *)

From S2P Require Export MachineInt.

Inductive ClockError : Set := ZeroRate | Overflow.

#[export] Instance ClockError_eq_dec : EqDecision ClockError.
Proof. solve_decision. Defined.

Module Ticks.

Definition checked_add (self other : Z) : outcome ClockError Z :=
  ok_or (checked_add_u 64 self other) Overflow.

End Ticks.

Module Deadline.

Definition checked_advance (self ticks : Z) : outcome ClockError Z :=
  ok_or (checked_add_u 64 self ticks) Overflow.

Definition elapsed_since (self earlier : Z) : option Z :=
  checked_sub_u self earlier.

Lemma checked_advance_ok d t d' :
  checked_advance d t = Ok d' <-> d' = d + t /\ d + t < 2 ^ 64.
Proof. unfold checked_advance. by rewrite ok_or_ok, checked_add_u_Some. Qed.

Lemma elapsed_since_checked_advance d t d' :
  0 <= t -> checked_advance d t = Ok d' -> elapsed_since d' d = Some t.
Proof.
  intros Ht [-> _]%checked_advance_ok. apply checked_sub_u_Some. lia.
Qed.

End Deadline.

Record RateConverter : Set := mkRateConverter {
  source_hz : Z;
  target_hz : Z;
  remainder : Z;
}.

Module RateConverter.

Definition new (source_hz target_hz : Z) : outcome ClockError RateConverter :=
  if (source_hz =? 0) || (target_hz =? 0) then Err ZeroRate
  else Ok (mkRateConverter source_hz target_hz 0).

Definition set_remainder (c : RateConverter) (r : Z) : RateConverter :=
  mkRateConverter (source_hz c) (target_hz c) r.

(** The [u128] intermediate, the division and the two narrowing casts in the
    order of the source: the remainder is stored before the quotient is
    narrowed. *)
Definition advance (c : RateConverter) (source_ticks : Z)
  : outcome ClockError Z * RateConverter :=
  match (t ← checked_mul_u 128 source_ticks (target_hz c);
         checked_add_u 128 t (remainder c)) with
  | None => (Err Overflow, c)
  | Some total =>
      if source_hz c =? 0 then (Panic, c) else
      let whole := total / source_hz c in
      match try_from_u 64 (total mod source_hz c) with
      | None => (Err Overflow, c)
      | Some r => (ok_or (try_from_u 64 whole) Overflow, set_remainder c r)
      end
  end.

Definition reset (c : RateConverter) : RateConverter := set_remainder c 0.

Definition convert_floor (source_ticks source_hz target_hz : Z)
  : outcome ClockError Z :=
  if (source_hz =? 0) || (target_hz =? 0) then Err ZeroRate
  else
    let? product := ok_or (checked_mul_u 128 source_ticks target_hz) Overflow in
    ok_or (try_from_u 64 (product / source_hz)) Overflow.

(** A client that converts successive intervals and adds up the results. *)
Fixpoint advance_all (c : RateConverter) (ts : list Z)
  : outcome ClockError Z * RateConverter :=
  match ts with
  | [] => (Ok 0, c)
  | t :: ts =>
      let! (out, c1) := advance c t in
      let! (rest, c2) := advance_all c1 ts in
      (Ok (out + rest), c2)
  end.

(** ** Theorems *)

Record wf (c : RateConverter) : Prop := {
  wf_source : 0 < source_hz c < 2 ^ 64;
  wf_target : 0 < target_hz c < 2 ^ 64;
  wf_remainder : 0 <= remainder c < source_hz c;
}.

Lemma converter_new_wf s t c : in_u 64 s -> in_u 64 t -> new s t = Ok c -> wf c.
Proof.
  unfold new, in_u. intros Hs Ht H. case_hyp H; [done|].
  simplify_eq. zbool. constructor; simpl; lia.
Qed.

Lemma total_u128 c t :
  wf c -> in_u 64 t ->
  (x ← checked_mul_u 128 t (target_hz c); checked_add_u 128 x (remainder c))
  = Some (t * target_hz c + remainder c).
Proof.
  intros [[? ?] [? ?] ?] [? ?].
  assert (t * target_hz c <= (2 ^ 64 - 1) * (2 ^ 64 - 1)).
  { apply Z.mul_le_mono_nonneg; lia. }
  rewrite (proj2 (checked_mul_u_Some _ _ _ _)) by (split; [done|lia]).
  simpl. apply checked_add_u_Some. split; [done|lia].
Qed.

(** A conversion in closed form. *)
Lemma advance_value c t :
  wf c -> in_u 64 t ->
  let total := t * target_hz c + remainder c in
  let q := total / source_hz c in
  advance c t =
    (if q <? 2 ^ 64 then Ok q else Err Overflow,
     mkRateConverter (source_hz c) (target_hz c) (total mod source_hz c))
  /\ wf (advance c t).2.
Proof.
  intros Hwf Ht total q. unfold advance. rewrite total_u128 by done.
  fold total. destruct Hwf as [Hs Htg Hr].
  destruct (Z.eqb_spec (source_hz c) 0); [lia|]. cbv zeta. fold q.
  pose proof (Z.mod_pos_bound total (source_hz c) ltac:(lia)).
  rewrite try_from_u_in by lia. unfold try_from_u.
  split; [by destruct (q <? 2 ^ 64)|]. constructor; simpl; lia.
Qed.

(** C37: [RateConverter::advance] computes the exact quotient and remainder of
    [ticks * target + remainder] by the source rate: the 128-bit intermediate
    never overflows, the division never panics, and the only error is a
    quotient that does not fit [u64]. *)
Theorem advance_exact c t :
  wf c -> in_u 64 t ->
  let total := t * target_hz c + remainder c in
  let q := total / source_hz c in
  advance c t =
    (if q <? 2 ^ 64 then Ok q else Err Overflow,
     mkRateConverter (source_hz c) (target_hz c) (total mod source_hz c))
  /\ wf (advance c t).2.
Proof. apply advance_value. Qed.

Lemma wf_set_remainder c r :
  wf c -> 0 <= r < source_hz c -> wf (set_remainder c r).
Proof. intros [] ?. by constructor. Qed.

Lemma div_mod_step a b d :
  0 < d -> a / d + (b + a mod d) / d = (b + a) / d /\
           (b + a mod d) mod d = (b + a) mod d.
Proof.
  intros Hd. pose proof (Z.div_mod a d ltac:(lia)) as E.
  assert (b + a = (b + a mod d) + (a / d) * d) as -> by lia.
  rewrite Z.div_add, Z.mod_add by lia. lia.
Qed.

Lemma advance_ok c t :
  wf c -> in_u 64 t ->
  let total := t * target_hz c + remainder c in
  forall out c1, advance c t = (Ok out, c1) ->
  out = total / source_hz c /\ c1 = set_remainder c (total mod source_hz c) /\
  wf c1.
Proof.
  intros Hwf Ht total out c1 E.
  pose proof (advance_value c t Hwf Ht) as [E' Hwf'].
  rewrite E in E', Hwf'. fold total in E'. simpl in Hwf'.
  destruct (_ <? _) in E'; simplify_eq. done.
Qed.

Lemma convert_floor_exact c t :
  wf c -> in_u 64 t -> t * target_hz c / source_hz c < 2 ^ 64 ->
  convert_floor t (source_hz c) (target_hz c) =
  Ok (t * target_hz c / source_hz c).
Proof.
  intros Hwf Ht Hlt. unfold convert_floor.
  pose proof (total_u128 c t Hwf Ht) as E. destruct Hwf as [Hs Htg Hr].
  destruct (Z.eqb_spec (source_hz c) 0), (Z.eqb_spec (target_hz c) 0);
    [lia..|simpl].
  destruct (checked_mul_u 128 t (target_hz c)) as [x|] eqn:Ex; [|done].
  apply checked_mul_u_Some in Ex as [-> _]. simpl. by rewrite try_from_u_in.
Qed.

(** partitioning an interval never changes the total: when every part
    converts, the parts add up to the conversion of the whole interval, and
    the remainder left behind is that of the whole interval. *)
Theorem advance_partition ts : forall c total c',
  wf c -> Forall (in_u 64) ts ->
  advance_all c ts = (Ok total, c') ->
  let whole := foldr Z.add 0 ts * target_hz c + remainder c in
  total = whole / source_hz c /\ remainder c' = whole mod source_hz c /\
  (remainder c = 0 -> in_u 64 (foldr Z.add 0 ts) -> total < 2 ^ 64 ->
   convert_floor (foldr Z.add 0 ts) (source_hz c) (target_hz c) = Ok total).
Proof.
  induction ts as [|t ts IH]; intros c total c' Hwf Hts E; simpl in E.
  - simplify_eq. destruct Hwf as [Hs Htg Hr]. cbn [foldr].
    rewrite Z.mul_0_l, Z.add_0_l, Z.div_small, Z.mod_small by done.
    split_and!; [done..|]. intros _ Hu Hlt.
    rewrite (convert_floor_exact _ 0) by (done || by constructor).
    by rewrite Z.mul_0_l, Z.div_0_l by lia.
  - inversion_clear Hts as [|? ? Ht Hts'].
    destruct (advance c t) as [[out| |] c1] eqn:E1; [|done..].
    destruct (advance_all c1 ts) as [[rest| |] c2] eqn:E2; simplify_eq.
    destruct (advance_ok c t Hwf Ht _ _ E1) as (-> & -> & Hwf1).
    destruct (IH _ _ _ Hwf1 Hts' E2) as (-> & Hr & _). simpl in Hr |- *.
    destruct (div_mod_step (t * target_hz c + remainder c)
      (foldr Z.add 0 ts * target_hz c) (source_hz c)) as [Hq Hm].
    { destruct Hwf; lia. }
    replace ((t + foldr Z.add 0 ts) * target_hz c + remainder c) with
      (foldr Z.add 0 ts * target_hz c + (t * target_hz c + remainder c)) by lia.
    rewrite Hq, Hr, Hm. split_and!; [done..|]. intros H0 Hsum Htot.
    replace (foldr Z.add 0 ts * target_hz c + (t * target_hz c + remainder c))
      with ((t + foldr Z.add 0 ts) * target_hz c) in * by lia.
    by apply convert_floor_exact.
Qed.

(** The 33.8688 MHz CPU clock converted to the 44.1 kHz sample clock. *)
Definition cpu_to_audio : RateConverter := mkRateConverter 33868800 44100 0.

Lemma cpu_to_audio_wf : wf cpu_to_audio.
Proof. constructor; vm_compute; split; congruence. Qed.

Lemma advance_exact_witness :
  advance cpu_to_audio 1535 =
    (Ok 1, mkRateConverter 33868800 44100 33824700) /\
  wf (advance cpu_to_audio 1535).2.
Proof.
  apply (advance_exact cpu_to_audio 1535); [apply cpu_to_audio_wf|].
  vm_compute; split; congruence.
Defined.

Lemma advance_partition_witness :
  let total := 1 in
  total = (1000 + (535 + 0)) * 44100 / 33868800 /\
  33824700 = ((1000 + (535 + 0)) * 44100 + 0) mod 33868800 /\
  convert_floor 1535 33868800 44100 = Ok total.
Proof.
  destruct (advance_partition [1000; 535] cpu_to_audio 1
    (mkRateConverter 33868800 44100 33824700)) as (H1 & H2 & H3).
  - apply cpu_to_audio_wf.
  - repeat constructor; vm_compute; congruence.
  - vm_compute. reflexivity.
  - split_and!; [exact H1|exact H2|].
    apply H3; [reflexivity|split; vm_compute; congruence|reflexivity].
Defined.

End RateConverter.
