(* ===== verification/Scheduler.v ===== *)
(** * Event scheduling: crates/support/scheduler/src/lib.rs

    The queue is a [BTreeSet] of triples (deadline, sequence, id) in
    lexicographic order, here the strictly sorted list of its elements; the
    index of active events is a finite map.  [ArrivalQueue] is the contract: a
    list of events in arrival order from which the earliest deadline, and the
    earliest arrival among equals, is taken.  [EventQueue] is the part of the
    contract the device models rely on. *)

From S2P Require Export Clock.

(** ** [std::collections::BTreeSet<(Deadline, u64, EventId)>] *)
Module BTree.

Notation key := (Z * Z * Z)%type.

Definition key_ltb (x y : key) : bool :=
  let '(d1, s1, i1) := x in
  let '(d2, s2, i2) := y in
  (d1 <? d2) || ((d1 =? d2) && ((s1 <? s2) || ((s1 =? s2) && (i1 <? i2)))).

Definition key_lt (x y : key) : Prop := key_ltb x y = true.

Fixpoint insert (x : key) (l : list key) : list key :=
  match l with
  | [] => [x]
  | y :: l' =>
      if key_ltb x y then x :: l
      else if key_ltb y x then y :: insert x l' else l
  end.

Definition remove (x : key) (l : list key) : list key :=
  filter (fun y => y <> x) l.

Definition first (l : list key) : option key := head l.

Lemma key_lt_iff x y :
  key_lt x y <->
  x.1.1 < y.1.1 \/ (x.1.1 = y.1.1 /\ (x.1.2 < y.1.2 \/
    (x.1.2 = y.1.2 /\ x.2 < y.2))).
Proof.
  destruct x as [[d1 s1] i1], y as [[d2 s2] i2]; unfold key_lt; simpl.
  rewrite !orb_true_iff, !andb_true_iff, !orb_true_iff, !andb_true_iff.
  rewrite !Z.ltb_lt, !Z.eqb_eq. lia.
Qed.

#[export] Instance key_lt_trans : Transitive key_lt.
Proof. intros x y z. rewrite !key_lt_iff. lia. Qed.

Lemma key_lt_irrefl x : ~ key_lt x x.
Proof. rewrite key_lt_iff. lia. Qed.

Lemma key_lt_trichotomy x y : key_lt x y \/ x = y \/ key_lt y x.
Proof.
  rewrite !key_lt_iff. destruct x as [[d1 s1] i1], y as [[d2 s2] i2]; simpl.
  destruct (Z.lt_trichotomy d1 d2) as [?|[->|?]]; [lia| |lia].
  destruct (Z.lt_trichotomy s1 s2) as [?|[->|?]]; [lia| |lia].
  destruct (Z.lt_trichotomy i1 i2) as [?|[->|?]]; [lia| |lia]. auto.
Qed.

Lemma elem_of_insert x y l : y ∈ insert x l <-> y = x \/ y ∈ l.
Proof.
  induction l as [|z l IH]; simpl; [set_solver|].
  destruct (key_ltb x z) eqn:E1; [set_solver|].
  destruct (key_ltb z x) eqn:E2; [set_solver|].
  assert (x = z) as ->; [|set_solver].
  destruct (key_lt_trichotomy x z) as [H|[H|H]]; unfold key_lt in H; congruence.
Qed.

Lemma elem_of_remove x y l : y ∈ remove x l <-> y <> x /\ y ∈ l.
Proof. unfold remove. by rewrite list_elem_of_filter. Qed.

Lemma sorted_insert x l :
  StronglySorted key_lt l -> StronglySorted key_lt (insert x l).
Proof.
  induction 1 as [|z l Hl IH Hz]; simpl; [by repeat constructor|].
  destruct (key_ltb x z) eqn:E1.
  { constructor; [by constructor|]. constructor; [done|].
    eapply Forall_impl; [done|]. intros; by transitivity z. }
  destruct (key_ltb z x) eqn:E2; constructor; try done.
  apply Forall_forall. intros y [->|Hy]%elem_of_insert; [done|].
  by rewrite Forall_forall in Hz; auto.
Qed.

Lemma sorted_remove x l :
  StronglySorted key_lt l -> StronglySorted key_lt (remove x l).
Proof.
  induction 1 as [|z l Hl IH Hz]; unfold remove; [constructor|].
  rewrite filter_cons. case_decide; [|done]. constructor; [done|].
  apply Forall_forall. intros y Hy%list_elem_of_filter.
  rewrite Forall_forall in Hz. naive_solver.
Qed.

Lemma first_least l x :
  StronglySorted key_lt l -> first l = Some x ->
  x ∈ l /\ forall y, y ∈ l -> y = x \/ key_lt x y.
Proof.
  intros Hs Hf. destruct l as [|z l]; [done|]. simpl in Hf. simplify_eq.
  split; [constructor|]. intros y [->|Hy]%elem_of_cons; [by left|right].
  apply StronglySorted_inv in Hs as [_ Hz]. by rewrite Forall_forall in Hz; auto.
Qed.

Lemma remove_head x l : StronglySorted key_lt (x :: l) -> remove x (x :: l) = l.
Proof.
  intros [Hs Hx]%StronglySorted_inv. unfold remove.
  rewrite filter_cons_False by naive_solver. clear Hs.
  induction Hx as [|y l Hy Hx IH]; [done|].
  rewrite filter_cons_True; [by f_equal|].
  intros ->. by apply (key_lt_irrefl x).
Qed.

End BTree.

(** ** The scheduler *)

Record DueEvent : Set := mkDueEvent { ev_id : Z; ev_deadline : Z }.

Inductive SchedulerError : Set := SequenceExhausted.

Record Scheduler : Type := mkScheduler {
  queue : list (Z * Z * Z);
  active : gmap Z (Z * Z);
  next_sequence : Z;
}.

Module Scheduler.

Definition new : Scheduler := mkScheduler [] ∅ 0.

Definition len (s : Scheduler) : nat := size (active s).
Definition is_empty (s : Scheduler) : bool := bool_decide (active s = ∅).

Definition schedule (s : Scheduler) (id deadline : Z)
  : outcome SchedulerError unit * Scheduler :=
  let sequence := next_sequence s in
  match checked_add_u 64 (next_sequence s) 1 with
  | None => (Err SequenceExhausted, s)
  | Some next =>
      let '(queue1, active1) :=
        match active s !! id with
        | Some (old_deadline, old_sequence) =>
            (BTree.remove (old_deadline, old_sequence, id) (queue s),
             delete id (active s))
        | None => (queue s, active s)
        end in
      (Ok tt,
       mkScheduler (BTree.insert (deadline, sequence, id) queue1)
         (<[id := (deadline, sequence)]> active1) next)
  end.

Definition cancel (s : Scheduler) (id : Z) : bool * Scheduler :=
  match active s !! id with
  | None => (false, s)
  | Some (deadline, sequence) =>
      let present := bool_decide ((deadline, sequence, id) ∈ queue s) in
      (present,
       mkScheduler (BTree.remove (deadline, sequence, id) (queue s))
         (delete id (active s)) (next_sequence s))
  end.

Definition next_deadline (s : Scheduler) : option Z :=
  (fun entry => entry.1.1) <$> BTree.first (queue s).

Definition pop_due (s : Scheduler) (now : Z) : option DueEvent * Scheduler :=
  match BTree.first (queue s) with
  | None => (None, s)
  | Some (deadline, sequence, id) =>
      if now <? deadline then (None, s)
      else
        (Some (mkDueEvent id deadline),
         mkScheduler (BTree.remove (deadline, sequence, id) (queue s))
           (delete id (active s)) (next_sequence s))
  end.

Definition clear (s : Scheduler) : Scheduler :=
  mkScheduler [] ∅ (next_sequence s).

(** A dispatch loop: pop every event that is due at [now]. *)
Fixpoint drain (fuel : nat) (s : Scheduler) (now : Z)
  : list DueEvent * Scheduler :=
  match fuel with
  | O => ([], s)
  | S fuel =>
      match pop_due s now with
      | (None, s') => ([], s')
      | (Some e, s') => let '(es, s'') := drain fuel s' now in (e :: es, s'')
      end
  end.

End Scheduler.

(** ** The contract *)

Module ArrivalQueue.

(** Pending events (id, deadline) in order of arrival. *)
Local Notation t := (list (Z * Z)).

Definition drop (l : t) (id : Z) : t := filter (fun e => e.1 <> id) l.

Definition schedule (l : t) (id deadline : Z) : t :=
  drop l id ++ [(id, deadline)].

Definition cancel (l : t) (id : Z) : bool * t :=
  (bool_decide (id ∈ l.*1), drop l id).

(** The earliest deadline; the earliest arrival among equal deadlines. *)
Fixpoint earliest (l : t) : option (Z * Z) :=
  match l with
  | [] => None
  | e :: l =>
      match earliest l with
      | Some e' => if e'.2 <? e.2 then Some e' else Some e
      | None => Some e
      end
  end.

Definition pop_due (l : t) (now : Z) : option DueEvent * t :=
  match earliest l with
  | Some (id, deadline) =>
      if now <? deadline then (None, l)
      else (Some (mkDueEvent id deadline), drop l id)
  | None => (None, l)
  end.

(** [due l now out]: [out] lists exactly the events of [l] due at [now], by
    increasing deadline and first-in first-out at equal deadlines. *)
Definition due (l : t) (now : Z) (out : list DueEvent) : Prop :=
  StronglySorted (fun a b => ev_deadline a <= ev_deadline b) out /\
  forall d,
    filter (fun e => ev_deadline e = d) out =
    (fun e => mkDueEvent e.1 e.2) <$> filter (fun e => e.2 = d /\ d <= now) l.

Lemma earliest_split l1 e l2 :
  Forall (fun x => e.2 < x.2) l1 -> Forall (fun x => e.2 <= x.2) l2 ->
  earliest (l1 ++ e :: l2) = Some e.
Proof.
  intros H1 H2. induction H1 as [|x l1 Hx H1 IH]; simpl.
  - assert (earliest l2 = None \/ exists e', earliest l2 = Some e' /\ e.2 <= e'.2)
      as [->|(e' & -> & He')]; [|done|].
    + induction H2 as [|y l2 Hy H2 IH]; simpl; [by left|right].
      destruct IH as [->|(e' & -> & He')]; [eauto|].
      destruct (e'.2 <? y.2); eauto.
    + by destruct (Z.ltb_spec e'.2 e.2); [lia|].
  - rewrite IH. by destruct (Z.ltb_spec e.2 x.2); [|lia].
Qed.

End ArrivalQueue.

(** ** Refinement *)

(** The entries of a scheduler in arrival order, as keys. *)
Record represents (s : Scheduler) (es : list (Z * Z * Z)) : Prop := {
  rep_sorted : StronglySorted BTree.key_lt (queue s);
  rep_queue : forall k, k ∈ queue s <-> k ∈ es;
  rep_active : forall id d q, active s !! id = Some (d, q) <-> (d, q, id) ∈ es;
  rep_arrival : StronglySorted (fun a b => a.1.2 < b.1.2) es;
  rep_bound : Forall (fun k => k.1.2 < next_sequence s) es;
  rep_next : 0 <= next_sequence s < 2 ^ 64;
}.

Definition entry_of (k : Z * Z * Z) : Z * Z := (k.2, k.1.1).

Definition refines (s : Scheduler) (l : list (Z * Z)) : Prop :=
  exists es, represents s es /\ l = entry_of <$> es.

Lemma drop_entries es id :
  ArrivalQueue.drop (entry_of <$> es) id =
  entry_of <$> filter (fun k : Z * Z * Z => k.2 <> id) es.
Proof.
  unfold ArrivalQueue.drop. induction es as [|k es IH]; [done|].
  rewrite fmap_cons, !filter_cons. simpl.
  case_decide; [rewrite fmap_cons; by f_equal|done].
Qed.

Section represents.
Context (s : Scheduler) (es : list (Z * Z * Z)) (Hrep : represents s es).

Lemma rep_id_unique k k' : k ∈ es -> k' ∈ es -> k.2 = k'.2 -> k = k'.
Proof.
  destruct k as [[d q] i], k' as [[d' q'] i']; simpl.
  intros H1%(rep_active _ _ Hrep) H2%(rep_active _ _ Hrep) ->. congruence.
Qed.

Lemma rep_inactive id :
  active s !! id = None -> filter (fun k : Z * Z * Z => k.2 <> id) es = es.
Proof.
  intros Hn. apply filter_all, Forall_forall. intros [[d q] i] Hk. simpl. intros ->.
  apply (rep_active _ _ Hrep) in Hk. congruence.
Qed.

Lemma rep_remove id d q next :
  active s !! id = Some (d, q) -> next = next_sequence s ->
  represents (mkScheduler (BTree.remove (d, q, id) (queue s))
                (delete id (active s)) next)
             (filter (fun k : Z * Z * Z => k.2 <> id) es).
Proof.
  intros Ha ->. assert ((d, q, id) ∈ es) as Hin by by apply (rep_active _ _ Hrep).
  constructor; simpl.
  - apply BTree.sorted_remove, Hrep.
  - intros k. rewrite BTree.elem_of_remove, list_elem_of_filter.
    rewrite (rep_queue _ _ Hrep). split; [|naive_solver].
    intros [Hne Hk]. split; [|done]. intros He. apply Hne.
    by apply rep_id_unique.
  - intros id' d' q'. rewrite list_elem_of_filter. simpl.
    rewrite lookup_delete_Some, (rep_active _ _ Hrep). naive_solver.
  - apply StronglySorted_filter, Hrep.
  - apply Forall_forall. intros k [_ Hk]%list_elem_of_filter.
    pose proof (rep_bound _ _ Hrep) as Hb. rewrite Forall_forall in Hb. auto.
  - apply Hrep.
Qed.

Lemma rep_insert id d :
  active s !! id = None -> next_sequence s + 1 < 2 ^ 64 ->
  represents
    (mkScheduler (BTree.insert (d, next_sequence s, id) (queue s))
       (<[id := (d, next_sequence s)]> (active s)) (next_sequence s + 1))
    (es ++ [(d, next_sequence s, id)]).
Proof.
  intros Ha Hn. constructor; simpl.
  - apply BTree.sorted_insert, Hrep.
  - intros k. rewrite BTree.elem_of_insert, (rep_queue _ _ Hrep). set_solver.
  - intros id' d' q'. rewrite elem_of_app, list_elem_of_singleton.
    rewrite lookup_insert_Some, <- (rep_active _ _ Hrep). naive_solver.
  - apply StronglySorted_snoc; [apply Hrep|].
    eapply Forall_impl; [apply Hrep|done].
  - apply Forall_app. split; [|repeat constructor; simpl; lia].
    eapply Forall_impl; [apply Hrep|]. simpl. lia.
  - destruct (rep_next _ _ Hrep). lia.
Qed.

Lemma rep_earliest :
  match BTree.first (queue s) with
  | Some k => ArrivalQueue.earliest (entry_of <$> es) = Some (entry_of k)
  | None => es = []
  end.
Proof.
  destruct (BTree.first (queue s)) as [k|] eqn:Hf.
  - destruct (BTree.first_least _ _ (rep_sorted _ _ Hrep) Hf) as [Hk Hmin].
    apply (rep_queue _ _ Hrep) in Hk.
    apply list_elem_of_split in Hk as (es1 & es2 & ->).
    assert (forall x, x ∈ es1 ++ k :: es2 -> x = k \/ BTree.key_lt k x) as Hmin'.
    { intros x Hx. apply Hmin. by apply (rep_queue _ _ Hrep). }
    pose proof (rep_arrival _ _ Hrep) as Hs.
    rewrite fmap_app, fmap_cons. apply ArrivalQueue.earliest_split.
    + apply Forall_fmap, Forall_forall. intros x Hx. simpl.
      apply StronglySorted_app in Hs as (Hlt & _).
      specialize (Hlt x k Hx (list_elem_of_here _ _)). simpl in Hlt.
      destruct (Hmin' x) as [->|Hkey]; [set_solver|lia|].
      rewrite BTree.key_lt_iff in Hkey. lia.
    + apply Forall_fmap, Forall_forall. intros x Hx. simpl.
      destruct (Hmin' x) as [->|Hkey]; [set_solver|lia|].
      rewrite BTree.key_lt_iff in Hkey. lia.
  - destruct (queue s) as [|y l] eqn:Hq; [|done].
    destruct es as [|k es']; [done|].
    assert (k ∈ queue s) as Hk by (apply (rep_queue _ _ Hrep); constructor).
    rewrite Hq in Hk. by apply not_elem_of_nil in Hk.
Qed.
End represents.

(** ** Properties *)

Lemma new_refines : refines Scheduler.new [].
Proof.
  exists []. split; [|done]. constructor; simpl; try constructor.
  - intros H. by apply not_elem_of_nil in H.
  - intros H. by apply not_elem_of_nil in H.
  - intros H. by rewrite lookup_empty in H.
  - intros H. by apply not_elem_of_nil in H.
  - done.
  - done.
Qed.

Lemma schedule_refines s l id d :
  refines s l ->
  match Scheduler.schedule s id d with
  | (Ok _, s') => refines s' (ArrivalQueue.schedule l id d)
  | (Err _, s') => s' = s /\ next_sequence s = 2 ^ 64 - 1
  | (Panic, _) => False
  end.
Proof.
  intros (es & Hrep & ->). unfold Scheduler.schedule.
  destruct (checked_add_u 64 (next_sequence s) 1) as [n|] eqn:Hn.
  - apply checked_add_u_Some in Hn as [-> Hn]. unfold ArrivalQueue.schedule.
    rewrite drop_entries. destruct (active s !! id) as [[d0 q0]|] eqn:Ha.
    + exists (filter (fun k : Z * Z * Z => k.2 <> id) es ++
              [(d, next_sequence s, id)]). split; [|by rewrite fmap_app].
      pose proof (rep_remove s es Hrep id d0 q0 _ Ha eq_refl) as Hrep'.
      by apply (rep_insert _ _ Hrep' id d); [apply lookup_delete_eq|].
    + exists (es ++ [(d, next_sequence s, id)]).
      rewrite (rep_inactive s es Hrep id Ha), fmap_app.
      split; [by apply rep_insert|done].
  - apply checked_add_u_None in Hn. destruct (rep_next _ _ Hrep).
    split; [done|lia].
Qed.

Lemma cancel_refines s l id :
  refines s l ->
  (Scheduler.cancel s id).1 = (ArrivalQueue.cancel l id).1 /\
  refines (Scheduler.cancel s id).2 (ArrivalQueue.cancel l id).2.
Proof.
  intros (es & Hrep & ->). unfold Scheduler.cancel, ArrivalQueue.cancel.
  rewrite drop_entries. destruct (active s !! id) as [[d q]|] eqn:Ha; simpl.
  - apply (rep_active _ _ Hrep) in Ha as Hk. split.
    + rewrite !bool_decide_eq_true_2; [done| |by apply (rep_queue _ _ Hrep)].
      apply list_elem_of_fmap. exists (id, d). split; [done|].
      apply list_elem_of_fmap. by exists (d, q, id).
    + exists (filter (fun k : Z * Z * Z => k.2 <> id) es).
      split; [by apply rep_remove|done].
  - split.
    + rewrite bool_decide_eq_false_2; [done|].
      intros ([? d] & -> & ([[d' q] i] & He & Hk)%list_elem_of_fmap)%list_elem_of_fmap.
      unfold entry_of in He. simplify_eq/=.
      apply (rep_active _ _ Hrep) in Hk. congruence.
    + exists es. split; [done|]. by rewrite (rep_inactive s es Hrep).
Qed.

Lemma pop_due_refines s l now :
  refines s l ->
  (Scheduler.pop_due s now).1 = (ArrivalQueue.pop_due l now).1 /\
  refines (Scheduler.pop_due s now).2 (ArrivalQueue.pop_due l now).2.
Proof.
  intros (es & Hrep & ->). unfold Scheduler.pop_due, ArrivalQueue.pop_due.
  pose proof (rep_earliest s es Hrep) as He.
  destruct (BTree.first (queue s)) as [[[d q] id]|] eqn:Hf.
  - rewrite He. simpl. destruct (now <? d); [split; [done|by exists es]|].
    split; [done|]. simpl. rewrite drop_entries.
    eexists. split; [|done]. apply rep_remove; [done| |done].
    apply (rep_active _ _ Hrep), (rep_queue _ _ Hrep).
    by apply head_Some_elem_of.
  - subst es. split; [done|by exists []].
Qed.

Lemma clear_refines s l : refines s l -> refines (Scheduler.clear s) [].
Proof.
  intros (es & Hrep & ->). exists []. split; [|done]. constructor; simpl.
  - constructor.
  - done.
  - intros. by rewrite lookup_empty, elem_of_nil.
  - constructor.
  - constructor.
  - apply Hrep.
Qed.

Lemma len_refines s l : refines s l -> Scheduler.len s = length l.
Proof.
  intros (es & Hrep & ->). unfold Scheduler.len. rewrite length_fmap.
  assert (NoDup es) as Hnd.
  { eapply StronglySorted_NoDup; [|apply Hrep]. intros x. simpl. lia. }
  rewrite <- length_map_to_list, <- (length_fmap (fun '(id, (d, q)) => (d, q, id))).
  apply Permutation_length, NoDup_Permutation; [|done|].
  - apply NoDup_fmap_2_strong; [|apply NoDup_map_to_list].
    intros [? [? ?]] [? [? ?]] _ _. naive_solver.
  - intros [[d q] id]. rewrite list_elem_of_fmap, <- (rep_active _ _ Hrep).
    split; [intros ([? [? ?]] & ? & ?%elem_of_map_to_list); naive_solver|].
    intros Ha. exists (id, (d, q)). by rewrite elem_of_map_to_list.
Qed.

(** *** Observational refinement *)

Inductive command : Set :=
| CSchedule (id deadline : Z)
| CCancel (id : Z)
| CPopDue (now : Z)
| CNextDeadline
| CLen
| CClear.

Inductive reply : Type :=
| RDone
| RFailed
| RCancelled (existed : bool)
| RPopped (event : option DueEvent)
| RNext (deadline : option Z)
| RLen (n : nat).

Definition exec (s : Scheduler) (c : command) : reply * Scheduler :=
  match c with
  | CSchedule id d =>
      match Scheduler.schedule s id d with
      | (Ok _, s') => (RDone, s')
      | (_, s') => (RFailed, s')
      end
  | CCancel id => let '(b, s') := Scheduler.cancel s id in (RCancelled b, s')
  | CPopDue now => let '(e, s') := Scheduler.pop_due s now in (RPopped e, s')
  | CNextDeadline => (RNext (Scheduler.next_deadline s), s)
  | CLen => (RLen (Scheduler.len s), s)
  | CClear => (RDone, Scheduler.clear s)
  end.

Definition spec_exec (l : list (Z * Z)) (c : command) : reply * list (Z * Z) :=
  match c with
  | CSchedule id d => (RDone, ArrivalQueue.schedule l id d)
  | CCancel id => let '(b, l') := ArrivalQueue.cancel l id in (RCancelled b, l')
  | CPopDue now => let '(e, l') := ArrivalQueue.pop_due l now in (RPopped e, l')
  | CNextDeadline => (RNext (snd <$> ArrivalQueue.earliest l), l)
  | CLen => (RLen (length l), l)
  | CClear => (RDone, [])
  end.

Fixpoint run {S : Type} (step : S -> command -> reply * S) (s : S)
    (cs : list command) : list reply :=
  match cs with
  | [] => []
  | c :: cs => let '(r, s') := step s c in r :: run step s' cs
  end.

Lemma next_deadline_refines s l :
  refines s l -> Scheduler.next_deadline s = snd <$> ArrivalQueue.earliest l.
Proof.
  intros (es & Hrep & ->). unfold Scheduler.next_deadline.
  pose proof (rep_earliest s es Hrep) as He.
  destruct (BTree.first (queue s)); [by rewrite He|by subst es].
Qed.

Lemma schedule_next s id d r s' :
  Scheduler.schedule s id d = (r, s') ->
  next_sequence s <= next_sequence s' <= next_sequence s + 1.
Proof.
  unfold Scheduler.schedule. intros H.
  destruct (checked_add_u 64 (next_sequence s) 1) as [n|] eqn:Hn.
  - apply checked_add_u_Some in Hn as [-> _].
    destruct (active s !! id) as [[? ?]|]; simplify_eq/=; lia.
  - simplify_eq. lia.
Qed.

Lemma exec_refines s l c :
  refines s l -> next_sequence s + 1 < 2 ^ 64 ->
  (exec s c).1 = (spec_exec l c).1 /\
  refines (exec s c).2 (spec_exec l c).2 /\
  next_sequence (exec s c).2 <= next_sequence s + 1.
Proof.
  intros Hr Hn. destruct c as [id d|id|now| | |]; simpl.
  - pose proof (schedule_refines s l id d Hr) as H.
    destruct (Scheduler.schedule s id d) as [[[]| |] s'] eqn:E; simpl; [|lia|done].
    split_and!; [done..|]. apply schedule_next in E. lia.
  - pose proof (cancel_refines s l id Hr) as [H1 H2].
    destruct (Scheduler.cancel s id) as [b s'] eqn:E; simpl in *.
    unfold Scheduler.cancel in E.
    split_and!; [by f_equal|done|].
    destruct (active s !! id) as [[? ?]|]; simplify_eq/=; lia.
  - pose proof (pop_due_refines s l now Hr) as [H1 H2].
    destruct (ArrivalQueue.pop_due l now), (Scheduler.pop_due s now) eqn:E.
    simpl in *. split_and!; [by f_equal|done|].
    unfold Scheduler.pop_due in E.
    destruct (BTree.first (queue s)) as [[[? ?] ?]|]; [|simplify_eq; lia].
    case_match; simplify_eq/=; lia.
  - rewrite (next_deadline_refines s l Hr). split_and!; [done..|lia].
  - rewrite (len_refines s l Hr). split_and!; [done..|lia].
  - split_and!; [done|by apply (clear_refines s l)|lia].
Qed.

(** C2: the scheduler is observationally a list of events in arrival order: on
    every sequence of schedule, cancel, pop, query and clear operations that
    does not exhaust the 64-bit sequence counter it answers exactly as the
    arrival queue does - replacement moves an event behind its equals, equal
    deadlines leave first-in first-out, nothing is lost or duplicated. *)
Theorem scheduler_refines_arrival_queue cs :
  Z.of_nat (length cs) < 2 ^ 64 ->
  run exec Scheduler.new cs = run spec_exec [] cs.
Proof.
  intros Hlen.
  enough (forall s l, refines s l ->
            next_sequence s + Z.of_nat (length cs) < 2 ^ 64 ->
            run exec s cs = run spec_exec l cs) as H.
  { apply H; [apply new_refines|done]. }
  clear Hlen. induction cs as [|c cs IH]; intros s l Hr Hn; [done|].
  simpl in Hn |- *.
  destruct (exec_refines s l c Hr ltac:(lia)) as (H1 & H2 & H3).
  destruct (exec s c) as [r s'], (spec_exec l c) as [r' l']. simpl in *.
  rewrite H1. f_equal. apply IH; [done|lia].
Qed.

Lemma scheduler_refines_arrival_queue_witness :
  run exec Scheduler.new
    [CSchedule 1 3; CSchedule 2 3; CSchedule 1 3; CPopDue 3; CPopDue 2; CPopDue 9]
  = [RDone; RDone; RDone; RPopped (Some (mkDueEvent 2 3)); RPopped None;
     RPopped (Some (mkDueEvent 1 3))].
Proof.
  etransitivity.
  - apply scheduler_refines_arrival_queue. vm_compute. reflexivity.
  - vm_compute. reflexivity.
Defined.

(** *** Dispatch order *)

Lemma earliest_inv l e :
  NoDup (l.*1) -> ArrivalQueue.earliest l = Some e ->
  exists l1 l2, l = l1 ++ e :: l2 /\
    Forall (fun x => e.2 < x.2) l1 /\ Forall (fun x => e.2 <= x.2) l2 /\
    ArrivalQueue.drop l e.1 = l1 ++ l2.
Proof.
  revert e. induction l as [|x l IH]; intros e Hnd He; [done|]. simpl in He.
  apply NoDup_cons in Hnd as [Hx Hnd].
  assert (forall y, y ∈ l -> y.1 <> x.1) as Hfresh.
  { intros y Hy Heq. apply Hx. rewrite <- Heq. by apply list_elem_of_fmap_2. }
  unfold ArrivalQueue.drop in *.
  destruct (ArrivalQueue.earliest l) as [e'|] eqn:Hl.
  - destruct (IH e' Hnd eq_refl) as (l1 & l2 & -> & H1 & H2 & H3).
    destruct (Z.ltb_spec e'.2 x.2); simplify_eq.
    + exists (x :: l1), l2. split_and!; [done|by constructor|done|].
      rewrite filter_cons_True; [by rewrite H3|].
      intros Heq. apply (Hfresh e); [set_solver|done].
    + exists [], (l1 ++ e' :: l2). split_and!; [done|constructor| |].
      * apply Forall_app. split; [eapply Forall_impl; [exact H1|simpl; lia]|].
        constructor; [done|]. eapply Forall_impl; [exact H2|simpl; lia].
      * rewrite filter_cons_False by tauto. apply filter_all, Forall_forall.
        intros y Hy. by apply Hfresh.
  - simplify_eq. exists [], l.
    destruct l as [|y l]; [|simpl in Hl; repeat case_match; done].
    split_and!; try constructor. rewrite filter_cons_False by tauto. done.
Qed.

Lemma due_cons l1 id d l2 now out :
  Forall (fun x => d < x.2) l1 -> Forall (fun x => d <= x.2) l2 -> d <= now ->
  ArrivalQueue.due (l1 ++ l2) now out ->
  ArrivalQueue.due (l1 ++ (id, d) :: l2) now (mkDueEvent id d :: out).
Proof.
  intros H1 H2 Hd [Hs Hf]. split.
  - constructor; [done|]. apply Forall_forall. intros e He. simpl.
    assert (e ∈ filter (fun e' => ev_deadline e' = ev_deadline e) out) as Hin
      by by apply list_elem_of_filter.
    rewrite Hf in Hin.
    apply list_elem_of_fmap in Hin as (x & -> & [_ Hx]%list_elem_of_filter).
    apply elem_of_app in Hx as [Hx|Hx]; simpl.
    + rewrite Forall_forall in H1. specialize (H1 _ Hx). simpl in H1. lia.
    + rewrite Forall_forall in H2. by apply H2.
  - intros d'. rewrite filter_app. destruct (decide (d = d')) as [<-|Hne].
    + rewrite !filter_cons_True by done. rewrite Hf, filter_app.
      rewrite (filter_none _ l1); [done|].
      eapply Forall_impl; [exact H1|]. simpl. lia.
    + rewrite !filter_cons_False by (simpl; lia). by rewrite Hf, filter_app.
Qed.

Lemma refines_NoDup s l : refines s l -> NoDup (l.*1).
Proof.
  intros (es & Hrep & ->). rewrite <- list_fmap_compose.
  apply NoDup_fmap_2_strong.
  - intros k k' Hk Hk' He. by apply (rep_id_unique s es Hrep).
  - eapply StronglySorted_NoDup; [|apply Hrep]. intros x. simpl. lia.
Qed.

(** C36: a dispatch loop that pops until nothing is due terminates within one
    pop per pending event, delivers exactly the events due at [now] by
    increasing deadline and in arrival order among equal deadlines, and leaves
    the later events pending in their order. *)
Theorem drain_dispatches_due s l now fuel :
  refines s l -> (length l < fuel)%nat ->
  let '(out, s') := Scheduler.drain fuel s now in
  ArrivalQueue.due l now out /\
  refines s' (filter (fun e => now < e.2) l) /\
  (Scheduler.pop_due s' now).1 = None.
Proof.
  revert s l. induction fuel as [|fuel IH]; intros s l Hr Hf; [lia|].
  simpl. pose proof (pop_due_refines s l now Hr) as [H1 H2].
  pose proof (refines_NoDup s l Hr) as Hnd.
  destruct (Scheduler.pop_due s now) as [r s1] eqn:Hpop. simpl in H1, H2.
  unfold ArrivalQueue.pop_due in H1, H2.
  destruct (ArrivalQueue.earliest l) as [[id d]|] eqn:He.
  - destruct (earliest_inv l _ Hnd He) as (l1 & l2 & -> & Hl1 & Hl2 & Hdrop).
    simpl in Hl1, Hl2. destruct (Z.ltb_spec now d); simpl in H1, H2; subst r.
    + assert (Forall (fun e => now < e.2) (l1 ++ (id, d) :: l2)) as Hlate.
      { apply Forall_app. split; [eapply Forall_impl; [exact Hl1|simpl; lia]|].
        constructor; [done|]. eapply Forall_impl; [exact Hl2|simpl; lia]. }
      assert (s1 = s) as ->.
      { unfold Scheduler.pop_due in Hpop. repeat case_match; by simplify_eq. }
      split_and!; [|by rewrite filter_all|by rewrite Hpop].
      split; [constructor|]. intros d'. rewrite (filter_none _ (l1 ++ _)); [done|].
      eapply Forall_impl; [exact Hlate|]. simpl. lia.
    + simpl in Hdrop. rewrite Hdrop in H2.
      rewrite length_app in Hf. simpl in Hf.
      specialize (IH s1 (l1 ++ l2) H2 ltac:(rewrite length_app; lia)).
      destruct (Scheduler.drain fuel s1 now) as [out s2].
      destruct IH as (Hdue & Href & Hend).
      split_and!; [by apply due_cons| |done].
      rewrite filter_app in Href |- *. by rewrite filter_cons_False by (simpl; lia).
  - simpl in H1, H2. subst r. destruct l as [|x l]; [|simpl in He; repeat case_match; done].
    assert (s1 = s) as ->.
    { unfold Scheduler.pop_due in Hpop. repeat case_match; by simplify_eq. }
    split_and!; [by split; [constructor|]|done|by rewrite Hpop].
Qed.

Lemma drain_dispatches_due_witness :
  let s := (Scheduler.schedule (Scheduler.schedule Scheduler.new 3 10).2 1 10).2 in
  ArrivalQueue.due [(3, 10); (1, 10)] 10 [mkDueEvent 3 10; mkDueEvent 1 10] /\
  refines (Scheduler.drain 3 s 10).2 [].
Proof.
  assert (refines (Scheduler.schedule (Scheduler.schedule Scheduler.new 3 10).2 1 10).2
            [(3, 10); (1, 10)]) as Hr.
  { exact (schedule_refines _ _ 1 10 (schedule_refines _ _ 3 10 new_refines)). }
  exact (conj (proj1 (drain_dispatches_due _ _ 10 3 Hr (le_n 3)))
              (proj1 (proj2 (drain_dispatches_due _ _ 10 3 Hr (le_n 3))))).
Defined.

(** ** The interface the device models use *)

Class EventQueue (Q : Type) : Type := {
  eq_schedule : Q -> Z -> Z -> outcome SchedulerError unit * Q;
  eq_cancel : Q -> Z -> bool * Q;
  (** the deadline an event is pending at *)
  eq_deadline : Q -> Z -> option Z;
}.

Class EventQueueLaws (Q : Type) `{EventQueue Q} : Prop := {
  eq_cancel_deadline q id id' :
    eq_deadline (eq_cancel q id).2 id' =
    if decide (id = id') then None else eq_deadline q id';
  eq_schedule_ok q id d q' id' :
    eq_schedule q id d = (Ok tt, q') ->
    eq_deadline q' id' = if decide (id = id') then Some d else eq_deadline q id';
  eq_schedule_err q id d e q' : eq_schedule q id d = (Err e, q') -> q' = q;
  eq_schedule_no_panic q id d : no_panic (eq_schedule q id d).1;
}.

#[export] Instance scheduler_event_queue : EventQueue Scheduler := {
  eq_schedule := Scheduler.schedule;
  eq_cancel := Scheduler.cancel;
  eq_deadline s id := fst <$> active s !! id;
}.

#[export] Instance scheduler_event_queue_laws : EventQueueLaws Scheduler.
Proof.
  constructor; simpl.
  - intros s id id'. unfold Scheduler.cancel.
    destruct (active s !! id) as [[d q]|] eqn:Ha; simpl.
    + case_decide as Hid; [subst; by rewrite lookup_delete_eq|].
      by rewrite lookup_delete_ne.
    + case_decide as Hid; [subst; by rewrite Ha|done].
  - intros s id d s' id'. unfold Scheduler.schedule.
    destruct (checked_add_u 64 (next_sequence s) 1); [|done].
    destruct (active s !! id) as [[d0 q0]|]; intros [= <-]; simpl;
      (case_decide as Hid; [subst; by rewrite lookup_insert_eq|]);
      rewrite lookup_insert_ne by done; [by rewrite lookup_delete_ne|done].
  - intros s id d [] s'. unfold Scheduler.schedule.
    destruct (checked_add_u 64 (next_sequence s) 1); [|naive_solver].
    by destruct (active s !! id) as [[d0 q0]|].
  - intros s id d. unfold Scheduler.schedule, no_panic.
    destruct (checked_add_u 64 (next_sequence s) 1); [|done].
    by destruct (active s !! id) as [[d0 q0]|].
Qed.

(** ** The event queue as its machine uses it

    A queue that represents some list of arrivals stays one under every operation, and
    popping delivers an event at the deadline it is pending at. *)

Definition orderly (s : Scheduler) : Prop := exists l, refines s l.

Lemma orderly_new : orderly Scheduler.new.
Proof. exists []. apply new_refines. Qed.

Lemma orderly_schedule s id d : orderly s -> orderly (eq_schedule s id d).2.
Proof.
  intros [l Hl]. pose proof (schedule_refines s l id d Hl) as H.
  change (eq_schedule s id d) with (Scheduler.schedule s id d).
  destruct (Scheduler.schedule s id d) as [[u|e|] s']; [by eexists| |done].
  destruct H as [-> _]. by exists l.
Qed.

Lemma orderly_cancel s id : orderly s -> orderly (eq_cancel s id).2.
Proof. intros [l Hl]. eexists. by apply cancel_refines. Qed.

(** What a successful pop tells. *)
Record popped (now : Z) (s : Scheduler) (e : DueEvent) (s' : Scheduler) : Prop := {
  popped_deadline : eq_deadline s (ev_id e) = Some (ev_deadline e);
  popped_due : ev_deadline e <= now;
  popped_rest : forall id,
    eq_deadline s' id = if decide (id = ev_id e) then None else eq_deadline s id;
  popped_orderly : orderly s';
  popped_len : Scheduler.len s = S (Scheduler.len s');
}.

Lemma pop_due_popped now s e s' :
  orderly s -> Scheduler.pop_due s now = (Some e, s') -> popped now s e s'.
Proof.
  intros [l Hl]. pose proof (pop_due_refines s l now Hl) as [_ Hr].
  destruct Hl as (es & Hrep & ->). unfold Scheduler.pop_due in *.
  destruct (BTree.first (queue s)) as [[[d q] id]|] eqn:Hf; [|done].
  destruct (Z.ltb_spec now d); [done|]. intros [= <- <-]. cbn [fst snd] in Hr.
  assert (active s !! id = Some (d, q)) as Ha.
  { apply (rep_active _ _ Hrep), (rep_queue _ _ Hrep). by apply head_Some_elem_of. }
  constructor; cbn.
  - by rewrite Ha.
  - done.
  - intros id'. case_decide as E; [subst; by rewrite lookup_delete_eq|].
    by rewrite lookup_delete_ne.
  - by eexists.
  - unfold Scheduler.len. cbn. rewrite map_size_delete, Ha.
    assert (size (active s) <> 0%nat); [|lia].
    intros E%map_size_empty_inv. by rewrite E in Ha.
Qed.

(** An event is due exactly when the pop succeeds. *)
Lemma pop_due_none now s : (Scheduler.pop_due s now).1 = None <->
  match Scheduler.next_deadline s with Some d => now < d | None => True end.
Proof.
  unfold Scheduler.pop_due, Scheduler.next_deadline.
  destruct (BTree.first (queue s)) as [[[d q] id]|]; [|done]. cbn.
  destruct (Z.ltb_spec now d); cbn; [done|]. split; [done|lia].
Qed.
