(* ===== verification/Ps1Irq.v ===== *)
(** * PS1 interrupt controller: crates/hw/ps1/irq/src/lib.rs

    Status, mask and producer levels are [u16] registers.  [InterruptSink] is
    the trait through which the timers and the DMA controller raise
    interrupts; the controller itself and a log of requests implement it. *)

From S2P Require Export MachineInt.

Definition I_STAT : Z := 0x1f801070.
Definition I_MASK : Z := 0x1f801074.
Definition VALID_BITS : Z := 0x07ff.

Inductive InterruptSource : Set :=
| VBlank | Gpu | CdRom | Dma | Timer0 | Timer1 | Timer2 | Controller | Sio
| Spu | LightPen.

#[export] Instance InterruptSource_eq_dec : EqDecision InterruptSource.
Proof. solve_decision. Defined.

Module InterruptSource.

(** The discriminant, [#[repr(u8)]]. *)
Definition index (s : InterruptSource) : Z :=
  match s with
  | VBlank => 0 | Gpu => 1 | CdRom => 2 | Dma => 3 | Timer0 => 4 | Timer1 => 5
  | Timer2 => 6 | Controller => 7 | Sio => 8 | Spu => 9 | LightPen => 10
  end.

Definition bit (s : InterruptSource) : Z :=
  match s with
  | VBlank => Z.shiftl 1 0
  | Gpu => Z.shiftl 1 1
  | CdRom => Z.shiftl 1 2
  | Dma => Z.shiftl 1 3
  | Timer0 => Z.shiftl 1 4
  | Timer1 => Z.shiftl 1 5
  | Timer2 => Z.shiftl 1 6
  | Controller => Z.shiftl 1 7
  | Sio => Z.shiftl 1 8
  | Spu => Z.shiftl 1 9
  | LightPen => Z.shiftl 1 10
  end.

Lemma bit_pow2 s : bit s = 2 ^ index s.
Proof. by destruct s. Qed.

Lemma index_range s : 0 <= index s < 11.
Proof. destruct s; simpl; lia. Qed.

Lemma index_surj i : 0 <= i < 11 -> exists s, index s = i.
Proof.
  intros Hi. assert (i = 0 \/ i = 1 \/ i = 2 \/ i = 3 \/ i = 4 \/ i = 5 \/ i = 6 \/
    i = 7 \/ i = 8 \/ i = 9 \/ i = 10) as H by lia.
  destruct H as [->|[->|[->|[->|[->|[->|[->|[->|[->|[->| ->]]]]]]]]]];
    [by exists VBlank|by exists Gpu|by exists CdRom|by exists Dma|by exists Timer0
    |by exists Timer1|by exists Timer2|by exists Controller|by exists Sio
    |by exists Spu|by exists LightPen].
Qed.

Lemma index_inj s s' : index s = index s' -> s = s'.
Proof. by destruct s, s'. Qed.

End InterruptSource.

(** The [InterruptSink] trait of the timer and DMA crates. *)
Class InterruptSink (S : Type) : Type :=
  request : S -> InterruptSource -> S.

#[export] Instance log_sink : InterruptSink (list InterruptSource) :=
  fun log source => log ++ [source].

Inductive IrqError : Set := InvalidRegister (address : Z).

Record InterruptController : Set := mkInterruptController {
  status : Z;
  mask : Z;
  levels : Z;
}.

Module InterruptController.

Definition new : InterruptController := mkInterruptController 0 0 0.

Definition request (c : InterruptController) (source : InterruptSource)
  : InterruptController :=
  mkInterruptController (status c .| InterruptSource.bit source) (mask c) (levels c).

Definition set_level (c : InterruptController) (source : InterruptSource)
    (asserted : bool) : InterruptController :=
  let bit := InterruptSource.bit source in
  if asserted then
    mkInterruptController (status c .| bit) (mask c) (levels c .| bit)
  else
    mkInterruptController (status c) (mask c) (levels c .& bnot 16 bit).

Definition pending (c : InterruptController) : bool := has_bits (status c) (mask c).

Definition acknowledge (c : InterruptController) (value : Z)
  : InterruptController :=
  let status1 := status c .& (value .& VALID_BITS) in
  mkInterruptController (status1 .| levels c) (mask c) (levels c).

Definition set_mask (c : InterruptController) (value : Z) : InterruptController :=
  mkInterruptController (status c) (value .& VALID_BITS) (levels c).

Definition read (c : InterruptController) (address : Z) : outcome IrqError Z :=
  if address =? I_STAT then Ok (status c)
  else if address =? I_MASK then Ok (mask c)
  else Err (InvalidRegister address).

(** The low halfword of the written word is the register value. *)
Definition write (c : InterruptController) (address value : Z)
  : outcome IrqError unit * InterruptController :=
  let value := wrap 16 value in
  if address =? I_STAT then (Ok tt, acknowledge c value)
  else if address =? I_MASK then (Ok tt, set_mask c value)
  else (Err (InvalidRegister address), c).

(** ** Reachable controllers *)

Inductive step : InterruptController -> InterruptController -> Prop :=
| step_request c s : step c (request c s)
| step_level c s b : step c (set_level c s b)
| step_write c a v : in_u 32 v -> step c (write c a v).2.

Inductive reachable : InterruptController -> Prop :=
| reachable_new : reachable new
| reachable_step c c' : reachable c -> step c c' -> reachable c'.

(** ** Per-source view of the registers *)

Definition latched (c : InterruptController) (s : InterruptSource) : bool :=
  Z.testbit (status c) (InterruptSource.index s).
Definition enabled (c : InterruptController) (s : InterruptSource) : bool :=
  Z.testbit (mask c) (InterruptSource.index s).
Definition asserted (c : InterruptController) (s : InterruptSource) : bool :=
  Z.testbit (levels c) (InterruptSource.index s).

End InterruptController.

#[export] Instance controller_sink : InterruptSink InterruptController :=
  InterruptController.request.

(** ** Theorems *)

Module IrqFacts.
Import InterruptController.

Record wf (c : InterruptController) : Prop := {
  wf_status : in_u 11 (status c);
  wf_mask : in_u 11 (mask c);
  wf_levels : in_u 11 (levels c);
  wf_latched : forall s, asserted c s = true -> latched c s = true;
}.

Lemma bit_in_u s : in_u 11 (InterruptSource.bit s).
Proof. by destruct s. Qed.
#[local] Hint Resolve bit_in_u : u_range.

Lemma testbit_bit s s' :
  Z.testbit (InterruptSource.bit s) (InterruptSource.index s') =
  bool_decide (s = s').
Proof. by destruct s, s'. Qed.

Lemma valid_ones : VALID_BITS = Z.ones 11.
Proof. done. Qed.

Lemma testbit_valid s : Z.testbit VALID_BITS (InterruptSource.index s) = true.
Proof. by destruct s. Qed.

Lemma latched_request c s s' :
  latched (request c s) s' = latched c s' || bool_decide (s = s').
Proof. unfold latched. simpl. by rewrite Z.lor_spec, testbit_bit. Qed.

Lemma latched_acknowledge c v s :
  latched (acknowledge c v) s =
  (latched c s && Z.testbit v (InterruptSource.index s)) || asserted c s.
Proof.
  unfold latched, asserted. simpl.
  by rewrite Z.lor_spec, !Z.land_spec, testbit_valid, andb_true_r.
Qed.

Lemma asserted_set_level c s b s' :
  asserted (set_level c s b) s' =
  if bool_decide (s = s') then b else asserted c s'.
Proof.
  pose proof (InterruptSource.index_range s'). unfold asserted, set_level.
  destruct b; simpl.
  - rewrite Z.lor_spec, testbit_bit.
    by destruct (bool_decide (s = s')); [rewrite orb_true_r|rewrite orb_false_r].
  - rewrite Z.land_spec, testbit_bnot, testbit_bit by lia.
    destruct (Z.ltb_spec (InterruptSource.index s') 16); [|lia].
    rewrite xorb_true_r.
    by destruct (bool_decide (s = s')); [rewrite andb_false_r|rewrite andb_true_r].
Qed.

Lemma enabled_set_mask c v s :
  enabled (set_mask c v) s = Z.testbit v (InterruptSource.index s).
Proof. unfold enabled. simpl. by rewrite Z.land_spec, testbit_valid, andb_true_r. Qed.

Lemma testbit_wrap16 v s :
  Z.testbit (wrap 16 v) (InterruptSource.index s) =
  Z.testbit v (InterruptSource.index s).
Proof.
  pose proof (InterruptSource.index_range s). apply Z.mod_pow2_bits_low. lia.
Qed.

Lemma irq_new_wf : wf new.
Proof. constructor; [done..|]. intros s. unfold asserted. by rewrite Z.testbit_0_l. Qed.

Lemma land_valid_in_u v : 0 <= v -> in_u 11 (v .& VALID_BITS).
Proof. intros. rewrite valid_ones, land_ones_wrap by lia. by apply in_u_wrap. Qed.
#[local] Hint Resolve land_valid_in_u : u_range.

Lemma irq_step_wf c c' : wf c -> step c c' -> wf c'.
Proof.
  intros [Hs Hm Hl Hlat] Hstep. destruct Hstep as [c s|c s b|c a v Hv].
  - constructor; simpl; [eauto with u_range..|]. intros s' Ha.
    rewrite latched_request. by rewrite (Hlat s' Ha).
  - constructor.
    1-3: unfold set_level; destruct b; simpl; eauto with u_range.
    + apply in_u_land_l; [|done]. apply (in_u_nonneg 16).
      apply in_u_bnot, (in_u_mono 11); [lia..|apply bit_in_u].
    + intros s'. rewrite asserted_set_level. case_bool_decide as Heq.
      * intros ->. subst. unfold latched. simpl.
        by rewrite Z.lor_spec, testbit_bit, bool_decide_eq_true_2, orb_true_r.
      * intros Ha%Hlat. unfold latched, set_level in *. destruct b; simpl; [|done].
        by rewrite Z.lor_spec, Ha.
  - unfold write. assert (0 <= wrap 16 v) by (apply in_u_wrap; lia).
    destruct (a =? I_STAT); [|destruct (a =? I_MASK)]; simpl.
    + constructor; simpl; [eauto with u_range..|].
      intros s Ha. rewrite latched_acknowledge. unfold asserted in *. simpl in Ha.
      by rewrite Ha, orb_true_r.
    + constructor; simpl; eauto with u_range.
    + by constructor.
Qed.

(** in every reachable controller the registers hold only the eleven
    hardware sources, and every source whose level is high is latched: software
    cannot acknowledge away an interrupt whose producer still asserts it. *)
Theorem reachable_wf c : reachable c -> wf c.
Proof.
  induction 1 as [|c c' Hr IH Hstep]; [apply irq_new_wf|by eapply irq_step_wf].
Qed.

Lemma reachable_wf_witness :
  wf (write (set_level new Spu true) I_STAT 0).2 /\
  latched (write (set_level new Spu true) I_STAT 0).2 Spu = true.
Proof.
  split; [|reflexivity]. apply reachable_wf.
  eapply reachable_step; [eapply reachable_step; [apply reachable_new|]|].
  - apply step_level.
  - apply step_write. split; vm_compute; congruence.
Defined.

Lemma pending_iff c :
  wf c ->
  pending c = true <-> exists s, latched c s = true /\ enabled c s = true.
Proof.
  intros [Hs Hm _ _]. unfold pending. rewrite has_bits_true by apply Hs.
  split.
  - intros (i & Hi & H1 & H2). destruct (Z.lt_ge_cases i 11) as [Hlt|Hge].
    + destruct (InterruptSource.index_surj i ltac:(lia)) as [s <-]. by exists s.
    + rewrite (testbit_high 11) in H1 by done. done.
  - intros (s & H1 & H2). exists (InterruptSource.index s).
    pose proof (InterruptSource.index_range s). split_and!; [lia|done..].
Qed.

(** A guest write has exactly the documented effect on every source: writing
    [I_STAT] clears the zero bits and keeps the one bits except where a level is
    still asserted, writing [I_MASK] replaces the enables and keeps the latched
    status, any other address is refused without effect - and the CPU line is
    then asserted exactly when an enabled source is latched. *)
Theorem write_effect c a v :
  wf c -> in_u 32 v ->
  let c' := (write c a v).2 in
  (forall s, latched c' s =
     if a =? I_STAT then
       (latched c s && Z.testbit v (InterruptSource.index s)) || asserted c s
     else latched c s) /\
  (forall s, enabled c' s =
     if a =? I_STAT then enabled c s
     else if a =? I_MASK then Z.testbit v (InterruptSource.index s)
     else enabled c s) /\
  (forall s, asserted c' s = asserted c s) /\
  ((write c a v).1 = Err (InvalidRegister a) <-> a <> I_STAT /\ a <> I_MASK) /\
  (pending c' = true <-> exists s, latched c' s = true /\ enabled c' s = true).
Proof.
  intros Hwf Hv c'. pose proof (irq_step_wf c c' Hwf (step_write c a v Hv)) as Hwf'.
  split_and!; [..|by apply pending_iff]; unfold c', write.
  - intros s. destruct (a =? I_STAT); simpl.
    + by rewrite latched_acknowledge, testbit_wrap16.
    + by destruct (a =? I_MASK).
  - intros s. destruct (a =? I_STAT); [done|]. destruct (a =? I_MASK); [|done].
    simpl. by rewrite enabled_set_mask, testbit_wrap16.
  - intros s. destruct (a =? I_STAT); [done|]. by destruct (a =? I_MASK).
  - destruct (Z.eqb_spec a I_STAT), (Z.eqb_spec a I_MASK); naive_solver.
Qed.

Lemma write_effect_witness :
  let c := request (request new Timer0) Spu in
  latched (write c I_STAT 0x10).2 Spu = false /\
  latched (write c I_STAT 0x10).2 Timer0 = true.
Proof.
  assert (wf (request (request new Timer0) Spu)) as Hwf.
  { apply (irq_step_wf (request new Timer0)); [|apply step_request].
    apply (irq_step_wf new); [apply irq_new_wf|apply step_request]. }
  assert (in_u 32 0x10) as Hv by (split; vm_compute; congruence).
  pose proof (write_effect _ I_STAT 0x10 Hwf Hv) as [H _].
  split; [exact (H Spu)|exact (H Timer0)].
Defined.

End IrqFacts.
