(* ===== verification/Ps1Timers.v ===== *)
(** * PS1 root counters: crates/hw/ps1/timers/src/lib.rs

    Three 16-bit counters and the vertical-blank clock.  [Counter.tick] skips
    from event to event; [ref_tick] counts one input clock at a time and is the
    reference it is proved equal to.  Loops carry fuel, and running out of fuel
    is a panic, so that the absence of panics includes termination. *)

From S2P Require Export Clock Ps1Irq.

Definition CPU_HZ : Z := 33868800.
Definition TIMER_BASE : Z := 0x1f801100.
Definition COUNTER_STRIDE : Z := 0x10.
Definition MODE_SYNC_ENABLE : Z := Z.shiftl 1 0.
Definition MODE_RESET_TARGET : Z := Z.shiftl 1 3.
Definition MODE_IRQ_TARGET : Z := Z.shiftl 1 4.
Definition MODE_IRQ_OVERFLOW : Z := Z.shiftl 1 5.
Definition MODE_IRQ_REPEAT : Z := Z.shiftl 1 6.
Definition MODE_IRQ_TOGGLE : Z := Z.shiftl 1 7.
Definition MODE_CLOCK_MASK : Z := Z.shiftl 3 8.
Definition MODE_IRQ_REQUEST : Z := Z.shiftl 1 10.
Definition MODE_REACHED_TARGET : Z := Z.shiftl 1 11.
Definition MODE_REACHED_OVERFLOW : Z := Z.shiftl 1 12.
Definition MODE_WRITABLE : Z := 0x03ff.

Inductive TimerId : Set := TTimer0 | TTimer1 | TTimer2.

#[export] Instance TimerId_eq_dec : EqDecision TimerId.
Proof. solve_decision. Defined.

Module TimerId.

Definition index (id : TimerId) : nat :=
  match id with TTimer0 => 0 | TTimer1 => 1 | TTimer2 => 2 end.

Definition interrupt (id : TimerId) : InterruptSource :=
  match id with TTimer0 => Timer0 | TTimer1 => Timer1 | TTimer2 => Timer2 end.

End TimerId.

Inductive TimerRegister : Set := RCounter | RMode | RTarget.
Inductive ClockInput : Set := System | DotClock | HBlank.
Inductive VideoStandard : Set := Ntsc | Pal.

Module VideoStandard.

Definition refresh_hz (v : VideoStandard) : Z :=
  match v with Ntsc => 60 | Pal => 50 end.

Definition cycles_per_vblank (v : VideoStandard) : Z := CPU_HZ / refresh_hz v.

Definition scanlines_per_frame (v : VideoStandard) : Z :=
  match v with Ntsc => 263 | Pal => 314 end.

Definition hblank_hz (v : VideoStandard) : Z := refresh_hz v * scanlines_per_frame v.

End VideoStandard.

Inductive TimerError : Set :=
| TimerInvalidRegister (address : Z)
| ClockOverflow.

(** [impl From<ClockError> for TimerError] *)
Definition timer_error_from (e : ClockError) : TimerError := ClockOverflow.

(** ** One counter *)
Module Counter.

Record Counter : Set := mk {
  value : Z;
  target : Z;
  mode : Z;
  divider_remainder : Z;
  irq_fired : bool;
  irq_request_high : bool;
  pulse_pending : bool;
  blank : bool;
  sync_started : bool;
}.

Definition default : Counter := mk 0 0 0 0 false true false false false.

Definition set_value (v : Z) (c : Counter) : Counter :=
  mk v (target c) (mode c) (divider_remainder c) (irq_fired c)
     (irq_request_high c) (pulse_pending c) (blank c) (sync_started c).
Definition set_target (v : Z) (c : Counter) : Counter :=
  mk (value c) v (mode c) (divider_remainder c) (irq_fired c)
     (irq_request_high c) (pulse_pending c) (blank c) (sync_started c).
Definition set_mode (v : Z) (c : Counter) : Counter :=
  mk (value c) (target c) v (divider_remainder c) (irq_fired c)
     (irq_request_high c) (pulse_pending c) (blank c) (sync_started c).
Definition set_divider (v : Z) (c : Counter) : Counter :=
  mk (value c) (target c) (mode c) v (irq_fired c)
     (irq_request_high c) (pulse_pending c) (blank c) (sync_started c).
(** the request flip-flop: fired, line level, pending pulse *)
Definition set_irq (fired high pulse : bool) (c : Counter) : Counter :=
  mk (value c) (target c) (mode c) (divider_remainder c) fired high pulse
     (blank c) (sync_started c).
Definition set_sync (b started : bool) (c : Counter) : Counter :=
  mk (value c) (target c) (mode c) (divider_remainder c) (irq_fired c)
     (irq_request_high c) (pulse_pending c) b started.

Definition read_mode (c : Counter) : Z * Counter :=
  let value := mode c in
  let value := if irq_request_high c then value .| MODE_IRQ_REQUEST else value in
  let value :=
    if has_bits (mode c) MODE_REACHED_TARGET
    then value .| MODE_REACHED_TARGET else value in
  let value :=
    if has_bits (mode c) MODE_REACHED_OVERFLOW
    then value .| MODE_REACHED_OVERFLOW else value in
  (value,
   set_mode (mode c .& bnot 16 (MODE_REACHED_TARGET .| MODE_REACHED_OVERFLOW)) c).

Definition write_mode (v : Z) (c : Counter) : Counter :=
  mk 0 (target c) (v .& MODE_WRITABLE) 0 false true false (blank c) false.

Definition clock_bits (c : Counter) : Z := Z.shiftr (mode c .& MODE_CLOCK_MASK) 8.

Definition sync_mode (c : Counter) : Z := Z.shiftr (mode c) 1 .& 3.

(** [None] is the [unreachable!] arm. *)
Definition paused (c : Counter) (id : TimerId) : option bool :=
  if negb (has_bits (mode c) MODE_SYNC_ENABLE) then Some false
  else if bool_decide (id = TTimer2) then
    Some ((sync_mode c =? 0) || (sync_mode c =? 3))
  else
    match sync_mode c with
    | 0 => Some (blank c)
    | 1 => Some false
    | 2 => Some (negb (blank c))
    | 3 => Some (negb (sync_started c))
    | _ => None
    end.

Definition set_blank (id : TimerId) (asserted : bool) (c : Counter) : Counter :=
  let rising := asserted && negb (blank c) in
  let c := set_sync asserted (sync_started c) c in
  if bool_decide (id = TTimer2) || negb (has_bits (mode c) MODE_SYNC_ENABLE)
     || negb rising
  then c
  else
    match sync_mode c with
    | 1 | 2 => set_value 0 c
    | 3 => set_sync (blank c) true c
    | _ => c
    end.

Definition settle_pulse (c : Counter) : Counter :=
  if pulse_pending c then set_irq (irq_fired c) true false c else c.

Definition mark_target (hit_target : bool) (c : Counter) : Counter :=
  if hit_target then
    let c := set_mode (mode c .| MODE_REACHED_TARGET) c in
    if has_bits (mode c) MODE_RESET_TARGET then set_value 0 c else c
  else c.

Definition mark_overflow (hit_overflow : bool) (c : Counter) : Counter :=
  if hit_overflow then set_mode (mode c .| MODE_REACHED_OVERFLOW) c else c.

Section tick.
Context {S : Type} `{InterruptSink S}.

Definition fire_irq (id : TimerId) (c : Counter) (sink : S) : Counter * S :=
  if negb (has_bits (mode c) MODE_IRQ_REPEAT) && irq_fired c then (c, sink)
  else if has_bits (mode c) MODE_IRQ_TOGGLE then
    let high := negb (irq_request_high c) in
    (set_irq true high (pulse_pending c) c,
     if negb high then request sink (TimerId.interrupt id) else sink)
  else
    (set_irq true false true c, request sink (TimerId.interrupt id)).

(** The flag updates and the interrupt at a crossed event. *)
Definition cross_event (id : TimerId) (hit_target hit_overflow : bool)
    (c : Counter) (sink : S) : Counter * S :=
  let c := mark_overflow hit_overflow (mark_target hit_target c) in
  if (hit_target && has_bits (mode c) MODE_IRQ_TARGET)
     || (hit_overflow && has_bits (mode c) MODE_IRQ_OVERFLOW)
  then fire_irq id c sink else (c, sink).

Fixpoint tick_loop (fuel : nat) (id : TimerId) (c : Counter) (ticks : Z)
    (sink : S) : outcome Empty_set (Counter * S) :=
  if ticks =? 0 then Ok (c, sink) else
  match fuel with
  | O => Panic
  | Datatypes.S fuel =>
      let value := value c in
      let target := target c in
      let overflow_distance := 0x10000 - value in
      let target_distance :=
        if value <? target then target - value
        else 0x10000 - value + target in
      let distance := Z.min overflow_distance target_distance in
      if ticks <? distance then
        let? v := expect (try_from_u 16 (value + ticks)) in
        Ok (set_value v c, sink)
      else
        let? v := expect (try_from_u 16 ((value + distance) .& 0xffff)) in
        let c := set_value v c in
        let ticks := ticks - distance in
        let hit_target := distance =? target_distance in
        let hit_overflow := distance =? overflow_distance in
        let '(c, sink) := cross_event id hit_target hit_overflow c sink in
        let c := if negb (ticks =? 0) then settle_pulse c else c in
        tick_loop fuel id c ticks sink
  end.

Definition tick (id : TimerId) (c : Counter) (ticks : Z) (sink : S)
  : outcome Empty_set (Counter * S) :=
  if ticks =? 0 then Ok (c, sink)
  else
    let c := settle_pulse c in
    let? p := expect (paused c id) in
    if p then Ok (c, sink) else tick_loop (Z.to_nat ticks) id c ticks sink.

(** ** The reference: one input clock at a time *)

Definition ref_tick (id : TimerId) (cs : Counter * S) : Counter * S :=
  let '(c, sink) := cs in
  let c := settle_pulse c in
  if bool_decide (paused c id = Some false) then
    let next := (value c + 1) mod 0x10000 in
    let hit_target := next =? target c in
    let hit_overflow := value c =? 0xffff in
    if hit_target || hit_overflow
    then cross_event id hit_target hit_overflow (set_value next c) sink
    else (set_value next c, sink)
  else (c, sink).
End tick.

End Counter.
Notation Counter := Counter.Counter.

#[export] Instance counter_inhabited : Inhabited Counter := populate Counter.default.

(** ** The three counters *)

Record RootCounters : Set := mkRootCounters {
  counters : list Counter;
  now : Z;
}.

Module RootCounters.

Definition new : RootCounters :=
  mkRootCounters [Counter.default; Counter.default; Counter.default] 0.

Definition counter (r : RootCounters) (id : TimerId) : Counter :=
  counters r !!! TimerId.index id.

Definition set_counter (id : TimerId) (c : Counter) (r : RootCounters)
  : RootCounters :=
  mkRootCounters (<[TimerId.index id := c]> (counters r)) (now r).

Definition read_register (r : RootCounters) (id : TimerId) (reg : TimerRegister)
  : Z * RootCounters :=
  let c := counter r id in
  match reg with
  | RCounter => (Counter.value c, r)
  | RMode => let '(v, c') := Counter.read_mode c in (v, set_counter id c' r)
  | RTarget => (Counter.target c, r)
  end.

Definition write_register (r : RootCounters) (id : TimerId) (reg : TimerRegister)
    (v : Z) : RootCounters :=
  let c := counter r id in
  set_counter id
    match reg with
    | RCounter => Counter.set_value v c
    | RMode => Counter.write_mode v c
    | RTarget => Counter.set_target v c
    end r.

Definition decode_register (address : Z)
  : outcome TimerError (TimerId * TimerRegister) :=
  let? relative := ok_or (checked_sub_u address TIMER_BASE)
                         (TimerInvalidRegister address) in
  let? id := match relative / COUNTER_STRIDE with
             | 0 => Ok TTimer0
             | 1 => Ok TTimer1
             | 2 => Ok TTimer2
             | _ => Err (TimerInvalidRegister address)
             end in
  let? reg := match relative mod COUNTER_STRIDE with
              | 0 => Ok RCounter
              | 4 => Ok RMode
              | 8 => Ok RTarget
              | _ => Err (TimerInvalidRegister address)
              end in
  Ok (id, reg).

Definition read (r : RootCounters) (address : Z)
  : outcome TimerError Z * RootCounters :=
  match decode_register address with
  | Ok (id, reg) => let '(v, r') := read_register r id reg in (Ok v, r')
  | Err e => (Err e, r)
  | Panic => (Panic, r)
  end.

Definition write (r : RootCounters) (address value : Z)
  : outcome TimerError unit * RootCounters :=
  match decode_register address with
  | Ok (id, reg) => (Ok tt, write_register r id reg (wrap 16 value))
  | Err e => (Err e, r)
  | Panic => (Panic, r)
  end.

Definition set_hblank (r : RootCounters) (asserted : bool) : RootCounters :=
  set_counter TTimer0 (Counter.set_blank TTimer0 asserted (counter r TTimer0)) r.

Definition set_vblank (r : RootCounters) (asserted : bool) : RootCounters :=
  set_counter TTimer1 (Counter.set_blank TTimer1 asserted (counter r TTimer1)) r.

Section advance.
Context {S : Type} `{InterruptSink S}.

(** One iteration of the loop over [TimerId::ALL]. *)
Definition advance_counter (id : TimerId) (ticks : Z) (c : Counter) (sink : S)
  : outcome Empty_set (Counter * S) :=
  let clock_bits := Counter.clock_bits c in
  match id with
  | TTimer0 | TTimer1 =>
      if has_bits clock_bits 1 then Ok (c, sink)
      else Counter.tick id c ticks sink
  | TTimer2 =>
      if has_bits clock_bits 2 then
        let? total :=
          expect (checked_add_u 64 (Counter.divider_remainder c) ticks) in
        let? rem := expect (try_from_u 8 (total mod 8)) in
        Counter.tick id (Counter.set_divider rem c) (total / 8) sink
      else Counter.tick id c ticks sink
  end.

Definition advance_one (id : TimerId) (ticks : Z) (rs : RootCounters * S)
  : outcome Empty_set (RootCounters * S) :=
  let '(r, sink) := rs in
  let? (c, sink) := advance_counter id ticks (counter r id) sink in
  Ok (set_counter id c r, sink).

Definition lift_state {E} (rs : RootCounters * S)
    (m : outcome Empty_set (RootCounters * S))
  : outcome E unit * (RootCounters * S) :=
  match m with
  | Ok rs' => (Ok tt, rs')
  | Err e => match e with end
  | Panic => (Panic, rs)
  end.

Definition advance_system (r : RootCounters) (ticks : Z) (sink : S)
  : outcome TimerError unit * (RootCounters * S) :=
  match Deadline.checked_advance (now r) ticks with
  | Ok now' =>
      let r := mkRootCounters (counters r) now' in
      lift_state (r, sink)
        (let? rs := advance_one TTimer0 ticks (r, sink) in
         let? rs := advance_one TTimer1 ticks rs in
         advance_one TTimer2 ticks rs)
  | Err e => (Err (timer_error_from e), (r, sink))
  | Panic => (Panic, (r, sink))
  end.

(** A dot-clock or horizontal-blank input to one selected counter. *)
Definition tick_at (id : TimerId) (r : RootCounters) (ticks : Z) (sink : S)
  : outcome TimerError unit * (RootCounters * S) :=
  if has_bits (Counter.clock_bits (counter r id)) 1 then
    lift_state (r, sink)
      (let? (c, sink) := Counter.tick id (counter r id) ticks sink in
       Ok (set_counter id c r, sink))
  else (Ok tt, (r, sink)).

Definition advance (r : RootCounters) (input : ClockInput) (ticks : Z) (sink : S)
  : outcome TimerError unit * (RootCounters * S) :=
  match input with
  | System => advance_system r ticks sink
  | DotClock => tick_at TTimer0 r ticks sink
  | HBlank => tick_at TTimer1 r ticks sink
  end.
End advance.

End RootCounters.

(** ** The vertical-blank clock *)

Record VBlankClock : Set := mkVBlankClock {
  standard : VideoStandard;
  vb_now : Z;
  vb_next : Z;
}.

Module VBlankClock.

Definition new (v : VideoStandard) : VBlankClock :=
  mkVBlankClock v 0 (VideoStandard.cycles_per_vblank v).

Definition set_next (n : Z) (c : VBlankClock) : VBlankClock :=
  mkVBlankClock (standard c) (vb_now c) n.

Section advance.
Context {S : Type} `{InterruptSink S}.

Fixpoint advance_loop (fuel : nat) (c : VBlankClock) (end_ period events : Z)
    (sink : S) : outcome TimerError Z * (VBlankClock * S) :=
  if vb_next c <=? end_ then
    match fuel with
    | O => (Panic, (c, sink))
    | Datatypes.S fuel =>
        let sink := request sink VBlank in
        match checked_add_u 64 events 1 with
        | None => (Err ClockOverflow, (c, sink))
        | Some events =>
            match Deadline.checked_advance (vb_next c) period with
            | Ok n => advance_loop fuel (set_next n c) end_ period events sink
            | Err e => (Err (timer_error_from e), (c, sink))
            | Panic => (Panic, (c, sink))
            end
        end
    end
  else (Ok events, (c, sink)).

Definition advance (c : VBlankClock) (ticks : Z) (sink : S)
  : outcome TimerError Z * (VBlankClock * S) :=
  match Deadline.checked_advance (vb_now c) ticks with
  | Ok end_ =>
      let period := VideoStandard.cycles_per_vblank (standard c) in
      let fuel := Z.to_nat ((end_ - vb_next c) / period + 1) in
      let! (events, cs) := advance_loop fuel c end_ period 0 sink in
      (Ok events, (mkVBlankClock (standard cs.1) end_ (vb_next cs.1), cs.2))
  | Err e => (Err (timer_error_from e), (c, sink))
  | Panic => (Panic, (c, sink))
  end.
End advance.

End VBlankClock.

(** ** Theorems on one counter *)

Module CounterFacts.
Import Counter.

Record wf (c : Counter) : Prop := {
  wf_value : in_u 16 (value c);
  wf_target : in_u 16 (target c);
  wf_mode : in_u 16 (mode c);
  wf_divider : 0 <= divider_remainder c < 8;
}.

(** What counting leaves alone: the configuration that selects pausing, the
    clock source, the target and the divider phase. *)
Record same_config (c c' : Counter) : Prop := {
  same_target : target c' = target c;
  same_divider : divider_remainder c' = divider_remainder c;
  same_clock : clock_bits c' = clock_bits c;
  same_paused : forall id, paused c' id = paused c id;
}.

#[export] Instance same_config_preorder : PreOrder same_config.
Proof.
  split.
  - by constructor.
  - intros c1 c2 c3 [] []. constructor; [congruence..|].
    intros id. transitivity (paused c2 id); auto.
Qed.

Lemma same_config_set_value v c : same_config c (set_value v c).
Proof. by constructor. Qed.

Lemma same_config_settle c : same_config c (settle_pulse c).
Proof. unfold settle_pulse. destruct (pulse_pending c); by constructor. Qed.

(** Raising a mode bit above the configuration field. *)
Lemma same_config_flag c b :
  b .& 0x3ff = 0 -> same_config c (set_mode (mode c .| b) c).
Proof.
  intros Hb.
  assert (forall m, m .& 0x3ff = m -> (mode c .| b) .& m = mode c .& m) as Hm.
  { intros m Hm. rewrite Z.land_lor_distr_l, <- Hm.
    rewrite (Z.land_comm m), (Z.land_assoc b), Hb, Z.land_0_l. apply Z.lor_0_r. }
  assert (sync_mode (set_mode (mode c .| b) c) = sync_mode c) as Hs.
  { unfold sync_mode. simpl. change 3 with (Z.shiftr 6 1).
    by rewrite <- !Z.shiftr_land, Hm. }
  constructor; try done; unfold clock_bits, paused; simpl.
  - by rewrite Hm.
  - intros id. unfold has_bits. rewrite Hm by done. rewrite Hs. done.
Qed.

Section with_sink.
Context {S : Type} `{InterruptSink S}.

Lemma same_config_fire id c (s : S) : same_config c (fire_irq id c s).1.
Proof. unfold fire_irq. repeat case_goal; by constructor. Qed.

Lemma same_config_mark_target b c : same_config c (mark_target b c).
Proof.
  unfold mark_target. destruct b; [|done]. cbv zeta.
  etransitivity; [by apply (same_config_flag _ MODE_REACHED_TARGET)|].
  case_goal; [apply same_config_set_value|done].
Qed.

Lemma same_config_mark_overflow b c : same_config c (mark_overflow b c).
Proof. unfold mark_overflow. destruct b; [by apply same_config_flag|done]. Qed.

Lemma same_config_cross id ht ho c (s : S) :
  same_config c (cross_event id ht ho c s).1.
Proof.
  etransitivity; [apply (same_config_mark_target ht)|].
  etransitivity; [apply (same_config_mark_overflow ho)|].
  unfold cross_event. case_goal; [apply same_config_fire|done].
Qed.

Lemma wf_settle c : wf c -> wf (settle_pulse c).
Proof. intros []. unfold settle_pulse. destruct (pulse_pending c); by constructor. Qed.

Lemma wf_set_value v c : in_u 16 v -> wf c -> wf (set_value v c).
Proof. intros ? []. by constructor. Qed.

Lemma wf_set_mode v c : in_u 16 v -> wf c -> wf (set_mode v c).
Proof. intros ? []. by constructor. Qed.

Lemma wf_fire id c (s : S) : wf c -> wf (fire_irq id c s).1.
Proof. intros []. unfold fire_irq. repeat case_goal; by constructor. Qed.

Lemma in_u16_flag m n : in_u 16 m -> 0 <= n < 16 -> in_u 16 (m .| Z.shiftl 1 n).
Proof.
  intros Hm Hn. apply in_u_lor; [lia|done|].
  rewrite Z.shiftl_mul_pow2, Z.mul_1_l by lia. split; [apply Z.pow_nonneg; lia|].
  apply Z.pow_lt_mono_r; lia.
Qed.

Lemma wf_mark_target b c : wf c -> wf (mark_target b c).
Proof.
  intros Hwf. unfold mark_target. destruct b; [|done]. cbv zeta.
  assert (wf (set_mode (mode c .| MODE_REACHED_TARGET) c)) as Hwf'
    by (by apply wf_set_mode; [apply in_u16_flag; [apply Hwf|]|]).
  case_goal; [by apply wf_set_value|done].
Qed.

Lemma wf_mark_overflow b c : wf c -> wf (mark_overflow b c).
Proof.
  intros Hwf. unfold mark_overflow. destruct b; [|done].
  by apply wf_set_mode; [apply in_u16_flag; [apply Hwf|]|].
Qed.

Lemma wf_cross id ht ho c (s : S) : wf c -> wf (cross_event id ht ho c s).1.
Proof.
  intros Hwf. unfold cross_event.
  case_goal; [apply wf_fire|]; by apply wf_mark_overflow, wf_mark_target.
Qed.

Lemma settle_settled c : pulse_pending (settle_pulse c) = false.
Proof. unfold settle_pulse. by destruct (pulse_pending c) eqn:E. Qed.

Lemma settle_id c : pulse_pending c = false -> settle_pulse c = c.
Proof. unfold settle_pulse. by intros ->. Qed.

Lemma ref_tick_settle id c (s : S) :
  ref_tick id (settle_pulse c, s) = ref_tick id (c, s).
Proof. unfold ref_tick. by rewrite (settle_id _ (settle_settled c)). Qed.

Lemma iterate_ref_settle n id c (s : S) :
  n <> O -> iterate n (ref_tick id) (settle_pulse c, s) =
            iterate n (ref_tick id) (c, s).
Proof. destruct n; [done|]. intros _. cbn [iterate]. by rewrite ref_tick_settle. Qed.

(** The distance to the next event of a counter. *)
Definition target_distance (c : Counter) : Z :=
  if value c <? target c then target c - value c
  else 0x10000 - value c + target c.

Lemma ref_tick_skip id n c (s : S) :
  wf c -> pulse_pending c = false -> paused c id = Some false ->
  Z.of_nat n < Z.min (0x10000 - value c) (target_distance c) ->
  iterate n (ref_tick id) (c, s) = (set_value (value c + Z.of_nat n) c, s).
Proof.
  intros Hwf Hp Hq. destruct Hwf as [[Hv0 Hv1] [Ht0 Ht1] _ _].
  unfold target_distance. induction n as [|n IH]; intros Hn.
  { simpl. rewrite Z.add_0_r. by destruct c. }
  rewrite iterate_S_r, IH by lia. unfold ref_tick.
  rewrite settle_id by done.
  change (paused (set_value _ c) id) with (paused c id).
  rewrite bool_decide_eq_true_2 by done. simpl.
  rewrite Z.mod_small by (destruct (value c <? target c); lia).
  destruct (Z.eqb_spec (value c + Z.of_nat n + 1) (target c)).
  { destruct (Z.ltb_spec (value c) (target c)); lia. }
  destruct (Z.eqb_spec (value c + Z.of_nat n) 0xffff); [lia|]. simpl.
  unfold set_value. simpl. do 2 f_equal. lia.
Qed.

Lemma ref_tick_event id c (s : S) :
  wf c -> pulse_pending c = false -> paused c id = Some false ->
  let od := 0x10000 - value c in
  let td := target_distance c in
  let d := Z.min od td in
  iterate (Z.to_nat d) (ref_tick id) (c, s) =
  cross_event id (d =? td) (d =? od)
    (set_value ((value c + d) mod 0x10000) c) s.
Proof.
  intros Hwf Hp Hq od td d.
  assert (0 < d /\ d <= od /\ d <= td) as (Hd0 & Hd1 & Hd2).
  { destruct Hwf as [[? ?] [? ?] _ _]. unfold d, od, td, target_distance.
    destruct (Z.ltb_spec (value c) (target c)); lia. }
  replace (Z.to_nat d) with (Datatypes.S (Z.to_nat (d - 1))) by lia.
  rewrite iterate_S_r, ref_tick_skip by (try done; fold td; lia).
  rewrite Z2Nat.id by lia. unfold ref_tick. rewrite settle_id by done.
  change (paused (set_value _ c) id) with (paused c id).
  rewrite bool_decide_eq_true_2 by done. simpl.
  replace (value c + (d - 1) + 1) with (value c + d) by lia.
  destruct Hwf as [[Hv0 Hv1] [Ht0 Ht1] _ _].
  assert (((value c + d) mod 0x10000 =? target c) = (d =? td)) as ->.
  { unfold od, td, target_distance in *.
    destruct (Z.ltb_spec (value c) (target c)).
    - rewrite Z.mod_small by lia. destruct (Z.eqb_spec d (target c - value c));
        [apply Z.eqb_eq|apply Z.eqb_neq]; lia.
    - destruct (Z.lt_ge_cases (value c + d) 0x10000).
      + rewrite Z.mod_small by lia.
        destruct (Z.eqb_spec d (0x10000 - value c + target c));
        [apply Z.eqb_eq|apply Z.eqb_neq]; lia.
      + replace (value c + d) with (0x10000) by lia. change (0x10000 mod 0x10000) with 0.
        destruct (Z.eqb_spec d (0x10000 - value c + target c));
        [apply Z.eqb_eq|apply Z.eqb_neq]; lia. }
  assert ((value c + (d - 1) =? 0xffff) = (d =? od)) as ->.
  { unfold od. destruct (Z.eqb_spec d (0x10000 - value c));
      [apply Z.eqb_eq|apply Z.eqb_neq]; lia. }
  assert ((d =? td) || (d =? od) = true) as ->; [|done].
  apply orb_true_iff. rewrite !Z.eqb_eq. unfold d. lia.
Qed.

Lemma land_ffff x : x .& 0xffff = x mod 0x10000.
Proof. exact (Z.land_ones x 16 ltac:(lia)). Qed.

Lemma tick_loop_ref id fuel : forall c ticks (s : S),
  wf c -> pulse_pending c = false -> paused c id = Some false ->
  0 <= ticks <= Z.of_nat fuel ->
  tick_loop fuel id c ticks s =
  Ok (iterate (Z.to_nat ticks) (ref_tick id) (c, s)).
Proof.
  induction fuel as [|fuel IH]; intros c ticks s Hwf Hp Hq Hf; cbn [tick_loop];
    (destruct (Z.eqb_spec ticks 0) as [->|Hne]; [done|]); [lia|].
  fold (target_distance c).
  assert (0 < Z.min (0x10000 - value c) (target_distance c)) as Hd.
  { destruct Hwf as [[? ?] [? ?] _ _]. unfold target_distance.
    destruct (Z.ltb_spec (value c) (target c)); lia. }
  destruct (Z.ltb_spec ticks (Z.min (0x10000 - value c) (target_distance c))).
  - rewrite try_from_u_in by (change (2 ^ 16) with 0x10000; lia). simpl.
    rewrite ref_tick_skip by (try done; lia). by rewrite Z2Nat.id by lia.
  - rewrite land_ffff, try_from_u_in by (apply Z.mod_pos_bound; lia). simpl.
    pose proof (ref_tick_event id c s Hwf Hp Hq) as Hev. cbv zeta in Hev.
    set (d := Z.min (0x10000 - value c) (target_distance c)) in *.
    set (c1 := set_value ((value c + d) mod 0x10000) c) in *.
    assert (wf c1) as Hwf1 by (apply wf_set_value; [apply Z.mod_pos_bound; lia|done]).
    pose proof (wf_cross id (d =? target_distance c) (d =? 0x10000 - value c) c1 s
      Hwf1) as Hwf2.
    pose proof (same_config_cross id (d =? target_distance c)
      (d =? 0x10000 - value c) c1 s) as Hcfg.
    destruct (cross_event id _ _ c1 s) as [c2 s2]. simpl in Hwf2, Hcfg.
    assert (paused c2 id = Some false) as Hq2 by by rewrite (same_paused _ _ Hcfg).
    replace (Z.to_nat ticks) with (Z.to_nat d + Z.to_nat (ticks - d))%nat by lia.
    rewrite iterate_add, Hev. destruct (Z.eqb_spec (ticks - d) 0) as [->|Hr].
    + by destruct fuel.
    + simpl. rewrite <- (iterate_ref_settle _ id c2) by lia.
      apply IH; [by apply wf_settle|apply settle_settled| |lia].
      by rewrite (same_paused _ _ (same_config_settle c2)).
Qed.

Lemma paused_some c id : exists b, paused c id = Some b.
Proof.
  assert (0 <= sync_mode c < 4) as Hs.
  { unfold sync_mode. change 3 with (Z.ones 2). rewrite Z.land_ones by lia.
    apply Z.mod_pos_bound. lia. }
  unfold paused. case_goal; [eauto|]. case_goal; [eauto|].
  assert (sync_mode c = 0 \/ sync_mode c = 1 \/ sync_mode c = 2 \/ sync_mode c = 3)
    as [->|[->|[->| ->]]] by lia; eauto.
Qed.

Lemma ref_tick_paused id n c (s : S) :
  paused c id = Some true ->
  iterate (Datatypes.S n) (ref_tick id) (c, s) = (settle_pulse c, s).
Proof.
  intros Hq. assert (ref_tick id (c, s) = (settle_pulse c, s)) as H0.
  { unfold ref_tick. rewrite (same_paused _ _ (same_config_settle c)), Hq. done. }
  induction n as [|n IH]; [done|]. rewrite iterate_S_r, IH.
  by rewrite ref_tick_settle.
Qed.

Lemma tick_ref id c n (s : S) :
  wf c -> 0 <= n ->
  tick id c n s = Ok (iterate (Z.to_nat n) (ref_tick id) (c, s)).
Proof.
  intros Hwf Hn. unfold tick. destruct (Z.eqb_spec n 0) as [->|Hne]; [done|].
  rewrite (same_paused _ _ (same_config_settle c)).
  destruct (paused_some c id) as [[] Hq]; rewrite Hq; simpl.
  - replace (Z.to_nat n) with (Datatypes.S (Z.to_nat (n - 1))) by lia.
    by rewrite ref_tick_paused.
  - rewrite <- (iterate_ref_settle _ id c) by lia.
    apply tick_loop_ref; [by apply wf_settle|apply settle_settled| |lia].
    by rewrite (same_paused _ _ (same_config_settle c)).
Qed.

Lemma ref_tick_wf_config id c (s : S) :
  wf c -> wf (ref_tick id (c, s)).1 /\ same_config c (ref_tick id (c, s)).1.
Proof.
  intros Hwf. unfold ref_tick.
  assert (wf (settle_pulse c)) as Hw by by apply wf_settle.
  pose proof (same_config_settle c) as Hc.
  case_goal; [|done].
  assert (wf (set_value ((value (settle_pulse c) + 1) mod 65536) (settle_pulse c)))
    as Hw' by (apply wf_set_value; [apply Z.mod_pos_bound; lia|done]).
  assert (same_config c (set_value ((value (settle_pulse c) + 1) mod 65536)
    (settle_pulse c))) as Hc' by by transitivity (settle_pulse c).
  case_goal; [|done]. split; [by apply wf_cross|].
  etransitivity; [exact Hc'|apply same_config_cross].
Qed.

Lemma iterate_ref_wf_config id n : forall c (s : S),
  wf c -> wf (iterate n (ref_tick id) (c, s)).1 /\
          same_config c (iterate n (ref_tick id) (c, s)).1.
Proof.
  induction n as [|n IH]; intros c s Hwf; [done|]. cbn [iterate].
  destruct (ref_tick_wf_config id c s Hwf) as [Hw Hc].
  destruct (ref_tick id (c, s)) as [c1 s1]. simpl in Hw, Hc.
  destruct (IH c1 s1 Hw). split; [done|]. by transitivity c1.
Qed.
End with_sink.

(** C35: the event-skipping counter loop is equal to counting one input clock at
    a time: for every counter state, mode, pause condition and tick count, it
    never panics, terminates, and leaves the same value, reached flags, request
    line, pending pulse and interrupt requests as the reference. *)
Theorem tick_refines_reference {S : Type} `{InterruptSink S} id c n (sink : S) :
  wf c -> in_u 64 n ->
  tick id c n sink = Ok (iterate (Z.to_nat n) (ref_tick id) (c, sink)) /\
  wf (iterate (Z.to_nat n) (ref_tick id) (c, sink)).1.
Proof.
  intros Hwf [Hn _]. split; [by apply tick_ref|by apply iterate_ref_wf_config].
Qed.

Definition repeat_at_three : Counter :=
  set_target 3 (write_mode (MODE_RESET_TARGET .| MODE_IRQ_TARGET .| MODE_IRQ_REPEAT)
    default).

Lemma tick_refines_reference_witness :
  tick TTimer0 repeat_at_three 7 [] =
  Ok (iterate 7 (ref_tick TTimer0) (repeat_at_three, [])) /\
  (iterate 7 (ref_tick TTimer0) (repeat_at_three, [])).2 = [Timer0; Timer0] /\
  value (iterate 7 (ref_tick TTimer0) (repeat_at_three, ([] : list InterruptSource))).1
  = 1.
Proof.
  split; [|split; vm_compute; reflexivity].
  refine (proj1 (tick_refines_reference TTimer0 repeat_at_three 7 [] _ _)).
  - constructor; split; vm_compute; congruence.
  - split; vm_compute; congruence.
Defined.

End CounterFacts.
