(* ===== verification/Ps1TimerBank.v ===== *)
(** * The PS1 counter bank and the vertical-blank clock: theorems

    The three root counters of [Ps1Timers] under the system clock: a sink only
    receives requests, the advance of the bank is three independent runs, and
    it can be partitioned.  [VBlankFacts] is the frame clock. *)

From S2P Require Export Ps1Timers.

(** ** Theorems on the three counters *)

(** A sink on which the order of requests does not matter. *)
Class CommutingSink (S : Type) `{InterruptSink S} : Prop :=
  request_comm : forall (s : S) a b,
    request (request s a) b = request (request s b) a.

#[export] Instance controller_commuting : CommutingSink InterruptController.
Proof.
  intros [st mk lv] a b. unfold request, controller_sink, InterruptController.request.
  simpl. f_equal. rewrite <- !Z.lor_assoc. f_equal. apply Z.lor_comm.
Qed.

Module RootCounterFacts.
Import RootCounters CounterFacts.

Definition requests {S : Type} `{InterruptSink S} (s : S)
    (l : list InterruptSource) : S :=
  foldl request s l.

Lemma requests_app {S : Type} `{InterruptSink S} (s : S) l1 l2 :
  requests s (l1 ++ l2) = requests (requests s l1) l2.
Proof. apply foldl_app. Qed.

Lemma requests_permutation {S : Type} `{CommutingSink S} (s : S) l1 l2 :
  l1 ≡ₚ l2 -> requests s l1 = requests s l2.
Proof.
  intros Hp. revert s. induction Hp as [|x l1 l2 Hp IH|x y l|l1 l2 l3 H1 IH1 H2 IH2];
    intros s; simpl; [done|apply IH| |by rewrite IH1].
  unfold requests. simpl. by rewrite request_comm.
Qed.

(** A sink only ever receives requests: the counter and the list of requests it
    makes do not depend on the sink. *)
Definition run_counter (id : TimerId) (n : Z) (c : Counter)
  : Counter * list InterruptSource :=
  iterate (Z.to_nat n) (Counter.ref_tick id) (c, []).

Lemma requests_log (log l : list InterruptSource) : requests log l = log ++ l.
Proof.
  unfold requests, request, log_sink. revert log.
  induction l as [|x l IH]; intros log; simpl; [by rewrite app_nil_r|].
  by rewrite IH, <- app_assoc.
Qed.

Lemma fire_irq_requests id c :
  exists c' l, forall (S : Type) (H : InterruptSink S) (s : S),
    Counter.fire_irq id c s = (c', requests s l).
Proof.
  unfold Counter.fire_irq. case_goal; [by exists c, []|].
  case_goal; [|by eexists _, [TimerId.interrupt id]].
  case_goal; [by eexists _, [TimerId.interrupt id]|by eexists _, []].
Qed.

Lemma ref_tick_requests id c :
  exists c' l, forall (S : Type) (H : InterruptSink S) (s : S),
    Counter.ref_tick id (c, s) = (c', requests s l).
Proof.
  unfold Counter.ref_tick, Counter.cross_event.
  repeat case_goal; try (by eexists _, []); apply fire_irq_requests.
Qed.

Lemma iterate_ref_requests id n : forall c,
  exists c' l, forall (S : Type) (H : InterruptSink S) (s : S),
    iterate n (Counter.ref_tick id) (c, s) = (c', requests s l).
Proof.
  induction n as [|n IH]; intros c; [by exists c, []|].
  destruct (ref_tick_requests id c) as (c1 & l1 & H1).
  destruct (IH c1) as (c2 & l2 & H2). exists c2, (l1 ++ l2). intros S H s.
  cbn [iterate]. by rewrite H1, H2, requests_app.
Qed.

Lemma iterate_ref_run {S : Type} `{InterruptSink S} id n c (s : S) :
  0 <= n ->
  iterate (Z.to_nat n) (Counter.ref_tick id) (c, s) =
  ((run_counter id n c).1, requests s (run_counter id n c).2).
Proof.
  intros Hn. unfold run_counter.
  destruct (iterate_ref_requests id (Z.to_nat n) c) as (c' & l & Hl).
  by rewrite !Hl, requests_log.
Qed.

Lemma tick_run {S : Type} `{InterruptSink S} id c n (s : S) :
  CounterFacts.wf c -> 0 <= n ->
  Counter.tick id c n s =
  Ok ((run_counter id n c).1, requests s (run_counter id n c).2).
Proof. intros. by rewrite tick_ref, iterate_ref_run. Qed.

Lemma run_counter_wf id n c :
  CounterFacts.wf c ->
  CounterFacts.wf (run_counter id n c).1 /\ same_config c (run_counter id n c).1.
Proof. apply iterate_ref_wf_config. Qed.

(** Two runs in a row. *)
Definition then_run (f g : Counter -> Counter * list InterruptSource) (c : Counter)
  : Counter * list InterruptSource :=
  let '(c1, l1) := f c in let '(c2, l2) := g c1 in (c2, l1 ++ l2).

Lemma run_counter_add id m n c :
  0 <= m -> 0 <= n ->
  run_counter id (m + n) c = then_run (run_counter id m) (run_counter id n) c.
Proof.
  intros Hm Hn. unfold then_run, run_counter.
  rewrite Z2Nat.inj_add, iterate_add by done.
  destruct (iterate (Z.to_nat m) _ _) as [c1 l1].
  rewrite iterate_ref_run by done. rewrite requests_log. unfold run_counter.
  by destruct (iterate (Z.to_nat n) _ _).
Qed.

(** ** System-clock advance of one counter *)

Definition run_system (id : TimerId) (t : Z) (c : Counter)
  : Counter * list InterruptSource :=
  match id with
  | TTimer0 | TTimer1 =>
      if has_bits (Counter.clock_bits c) 1 then (c, []) else run_counter id t c
  | TTimer2 =>
      if has_bits (Counter.clock_bits c) 2 then
        run_counter id ((Counter.divider_remainder c + t) / 8)
          (Counter.set_divider ((Counter.divider_remainder c + t) mod 8) c)
      else run_counter id t c
  end.

Lemma wf_set_divider d c :
  0 <= d < 8 -> CounterFacts.wf c -> CounterFacts.wf (Counter.set_divider d c).
Proof. intros ? []. by constructor. Qed.

Lemma advance_counter_run {S : Type} `{InterruptSink S} id t c (s : S) :
  CounterFacts.wf c -> 0 <= t -> Counter.divider_remainder c + t < 2 ^ 64 ->
  advance_counter id t c s =
  Ok ((run_system id t c).1, requests s (run_system id t c).2).
Proof.
  intros Hwf Ht Hb. pose proof (wf_divider c Hwf) as Hd.
  unfold advance_counter, run_system.
  destruct id; [case_goal; [done|by apply tick_run]..|].
  case_goal; [|by apply tick_run].
  rewrite (proj2 (checked_add_u_Some _ _ _ _)) by (split; [done|lia]). simpl.
  pose proof (Z.mod_pos_bound (Counter.divider_remainder c + t) 8 ltac:(lia)).
  rewrite try_from_u_in by (change (2 ^ 8) with 256; lia). simpl.
  apply tick_run; [by apply wf_set_divider|]. apply Z.div_pos; lia.
Qed.

Lemma run_system_wf id t c :
  CounterFacts.wf c -> 0 <= t ->
  CounterFacts.wf (run_system id t c).1 /\
  Counter.clock_bits (run_system id t c).1 = Counter.clock_bits c /\
  Counter.divider_remainder (run_system id t c).1 <=
    Counter.divider_remainder c + t.
Proof.
  intros Hwf Ht. pose proof (wf_divider c Hwf) as Hd.
  assert (forall n, CounterFacts.wf (run_counter id n c).1 /\
    Counter.clock_bits (run_counter id n c).1 = Counter.clock_bits c /\
    Counter.divider_remainder (run_counter id n c).1 <=
      Counter.divider_remainder c + t) as Hrun.
  { intros n. destruct (run_counter_wf id n c Hwf) as [? []].
    split_and!; [done..|lia]. }
  unfold run_system. destruct id; [case_goal; [split_and!; [done..|simpl; lia]|apply Hrun]..|].
  case_goal; [|apply Hrun].
  set (c0 := Counter.set_divider _ c).
  assert (0 <= (Counter.divider_remainder c + t) mod 8 < 8) as Hm
    by (apply Z.mod_pos_bound; lia).
  destruct (run_counter_wf TTimer2 ((Counter.divider_remainder c + t) / 8) c0)
    as [Hw [_ Hdiv Hclk _]]; [by apply wf_set_divider|].
  split_and!; [done|by rewrite Hclk|]. rewrite Hdiv. simpl.
  apply Z.mod_le; lia.
Qed.

Lemma div8_step r a b :
  ((r + a) / 8 + ((r + a) mod 8 + b) / 8) = (r + (a + b)) / 8 /\
  ((r + a) mod 8 + b) mod 8 = (r + (a + b)) mod 8.
Proof.
  pose proof (Z.div_mod (r + a) 8 ltac:(lia)) as E.
  assert (r + (a + b) = ((r + a) mod 8 + b) + ((r + a) / 8) * 8) as -> by lia.
  rewrite Z.div_add, Z.mod_add by lia. lia.
Qed.

Lemma iterate_commute {A} (f g : A -> A) n a :
  (forall x, f (g x) = g (f x)) -> iterate n f (g a) = g (iterate n f a).
Proof.
  intros Hfg. revert a. induction n as [|n IH]; intros a; [done|].
  cbn [iterate]. by rewrite Hfg, IH.
Qed.

(** Counting does not look at the divider phase. *)
Lemma fire_irq_divider id d c (l : list InterruptSource) :
  Counter.fire_irq id (Counter.set_divider d c) l =
  (Counter.set_divider d (Counter.fire_irq id c l).1, (Counter.fire_irq id c l).2).
Proof.
  unfold Counter.fire_irq.
  change (Counter.mode (Counter.set_divider d c)) with (Counter.mode c).
  change (Counter.irq_fired (Counter.set_divider d c)) with (Counter.irq_fired c).
  case_goal; [done|]. by case_goal.
Qed.

Lemma mark_divider d ht ho c :
  Counter.mark_overflow ho (Counter.mark_target ht (Counter.set_divider d c)) =
  Counter.set_divider d (Counter.mark_overflow ho (Counter.mark_target ht c)).
Proof.
  assert (Counter.mark_target ht (Counter.set_divider d c) =
          Counter.set_divider d (Counter.mark_target ht c)) as ->.
  { unfold Counter.mark_target. destruct ht; [|done].
    change (Counter.mode (Counter.set_divider d c)) with (Counter.mode c).
    cbn [Counter.mode Counter.set_mode]. by case_goal. }
  unfold Counter.mark_overflow. by destruct ho.
Qed.

Lemma cross_event_divider id d ht ho c (l : list InterruptSource) :
  Counter.cross_event id ht ho (Counter.set_divider d c) l =
  (Counter.set_divider d (Counter.cross_event id ht ho c l).1,
   (Counter.cross_event id ht ho c l).2).
Proof.
  unfold Counter.cross_event. rewrite mark_divider.
  set (c' := Counter.mark_overflow ho _).
  change (Counter.mode (Counter.set_divider d c')) with (Counter.mode c').
  case_goal; [apply fire_irq_divider|done].
Qed.

Lemma ref_tick_divider id d c (l : list InterruptSource) :
  Counter.ref_tick id (Counter.set_divider d c, l) =
  (Counter.set_divider d (Counter.ref_tick id (c, l)).1,
   (Counter.ref_tick id (c, l)).2).
Proof.
  unfold Counter.ref_tick.
  assert (Counter.settle_pulse (Counter.set_divider d c) =
          Counter.set_divider d (Counter.settle_pulse c)) as ->.
  { unfold Counter.settle_pulse. by destruct (Counter.pulse_pending c) eqn:E; simpl; rewrite E. }
  generalize (Counter.settle_pulse c). clear c. intros c.
  change (Counter.paused (Counter.set_divider d c) id) with (Counter.paused c id).
  case_goal; [|done].
  change (Counter.value (Counter.set_divider d c)) with (Counter.value c).
  change (Counter.target (Counter.set_divider d c)) with (Counter.target c).
  change (Counter.set_value ?v (Counter.set_divider d c)) with
    (Counter.set_divider d (Counter.set_value v c)).
  cbv zeta. case_goal; [|done].
  exact (cross_event_divider id d _ _ (Counter.set_value _ c) l).
Qed.

Lemma run_counter_divider id n d c :
  run_counter id n (Counter.set_divider d c) =
  (Counter.set_divider d (run_counter id n c).1, (run_counter id n c).2).
Proof.
  exact (iterate_commute (Counter.ref_tick id)
    (fun cs : Counter * list InterruptSource => (Counter.set_divider d cs.1, cs.2))
    (Z.to_nat n) (c, []) (fun '(c', l) => ref_tick_divider id d c' l)).
Qed.

Lemma run_system_add id a b c :
  CounterFacts.wf c -> 0 <= a -> 0 <= b ->
  run_system id (a + b) c = then_run (run_system id a) (run_system id b) c.
Proof.
  intros Hwf Ha Hb. destruct (run_system_wf id a c Hwf Ha) as (_ & Hclk & _).
  pose proof (wf_divider c Hwf) as Hd.
  unfold then_run. destruct (run_system id a c) as [c1 l1] eqn:E1. simpl in Hclk.
  destruct id; unfold run_system in E1 |- *; rewrite Hclk.
  1-2: case_goal; [by simplify_eq|]; rewrite run_counter_add by done;
       unfold then_run; by rewrite E1.
  case_goal.
  - destruct (div8_step (Counter.divider_remainder c) a b) as [Hq Hm].
    pose proof (Z.mod_pos_bound (Counter.divider_remainder c + a) 8 ltac:(lia)).
    assert (0 <= (Counter.divider_remainder c + a) / 8) by (apply Z.div_pos; lia).
    assert (0 <= ((Counter.divider_remainder c + a) mod 8 + b) / 8)
      by (apply Z.div_pos; lia).
    rewrite run_counter_divider in E1 |- *. simplify_eq. simpl.
    destruct (run_counter_wf TTimer2 ((Counter.divider_remainder c + a) / 8) c Hwf)
      as [_ [_ Hdiv _ _]].
    rewrite !run_counter_divider. simpl. rewrite Hm, <- Hq.
    rewrite run_counter_add by done.
    unfold then_run. by do 2 destruct (run_counter TTimer2 _ _).
  - rewrite run_counter_add by done. unfold then_run. by rewrite E1.
Qed.

(** ** The counter bank *)

Record wf (r : RootCounters) : Prop := {
  wf_length : length (counters r) = 3%nat;
  wf_counters : Forall CounterFacts.wf (counters r);
  wf_now : in_u 64 (now r);
  (** the divider phase is made of elapsed time *)
  wf_phase : Forall (fun c => Counter.divider_remainder c <= now r) (counters r);
}.

Lemma wf_counter r id :
  wf r -> CounterFacts.wf (counter r id) /\
          Counter.divider_remainder (counter r id) <= now r.
Proof.
  intros [Hl Hc _ Hp]. unfold counter.
  destruct (counters r) as [|c0 [|c1 [|c2 [|]]]]; try done.
  inversion_clear Hc as [|? ? H0 H1]. inversion_clear H1 as [|? ? H1' H2].
  inversion_clear H2 as [|? ? H2' _].
  inversion_clear Hp as [|? ? P0 P1]. inversion_clear P1 as [|? ? P1' P2].
  inversion_clear P2 as [|? ? P2' _]. by destruct id.
Qed.

Lemma set_counter_wf r id c :
  wf r -> CounterFacts.wf c -> Counter.divider_remainder c <= now r ->
  wf (set_counter id c r).
Proof.
  intros [Hl Hc Hn Hp] Hw Hd. constructor; simpl.
  - by rewrite length_insert.
  - by apply Forall_insert.
  - done.
  - by apply Forall_insert.
Qed.

Lemma bank_new_wf : wf new.
Proof.
  assert (CounterFacts.wf Counter.default) by (constructor; split; vm_compute; congruence).
  constructor; [done|forall_list|done|forall_list].
Qed.

Definition bank (c0 c1 c2 : Counter) (t : Z) : RootCounters :=
  mkRootCounters [c0; c1; c2] t.

Lemma wf_bank r : wf r -> exists c0 c1 c2, r = bank c0 c1 c2 (now r).
Proof.
  intros [Hl _ _ _]. destruct r as [cs t]. simpl in *.
  destruct cs as [|c0 [|c1 [|c2 [|]]]]; try done. by exists c0, c1, c2.
Qed.

(** [advance_system] as three independent runs. *)
Definition run_bank (t : Z) (r : RootCounters)
  : RootCounters * list InterruptSource :=
  let '(c0, l0) := run_system TTimer0 t (counter r TTimer0) in
  let '(c1, l1) := run_system TTimer1 t (counter r TTimer1) in
  let '(c2, l2) := run_system TTimer2 t (counter r TTimer2) in
  (bank c0 c1 c2 (now r + t), l0 ++ l1 ++ l2).

Lemma advance_one_run {S : Type} `{InterruptSink S} id r t (s : S) :
  CounterFacts.wf (counter r id) -> 0 <= t ->
  Counter.divider_remainder (counter r id) + t < 2 ^ 64 ->
  advance_one id t (r, s) =
  Ok (set_counter id (run_system id t (counter r id)).1 r,
      requests s (run_system id t (counter r id)).2).
Proof. intros. unfold advance_one. by rewrite advance_counter_run. Qed.

Lemma advance_system_run {S : Type} `{InterruptSink S} r t (s : S) :
  wf r -> in_u 64 t ->
  advance_system r t s =
    if now r + t <? 2 ^ 64
    then (Ok tt, ((run_bank t r).1, requests s (run_bank t r).2))
    else (Err ClockOverflow, (r, s)).
Proof.
  intros Hwf [Ht _]. unfold advance_system, Deadline.checked_advance, checked_add_u.
  destruct (Z.ltb_spec (now r + t) (2 ^ 64)) as [Hlt|]; [|done]. cbn [ok_or].
  pose proof (fun id => wf_counter r id Hwf) as Hc.
  destruct (wf_bank r Hwf) as (c0 & c1 & c2 & Hr).
  destruct r as [cs t0]. unfold bank in Hr. cbn [now] in Hr. injection Hr as ->.
  destruct (Hc TTimer0) as [W0 D0], (Hc TTimer1) as [W1 D1], (Hc TTimer2) as [W2 D2].
  cbn [now counters] in *.
  change (counter _ TTimer0) with c0 in W0, D0.
  change (counter _ TTimer1) with c1 in W1, D1.
  change (counter _ TTimer2) with c2 in W2, D2.
  rewrite (advance_one_run TTimer0) by (done || (cbn; lia)). cbn [obind].
  rewrite (advance_one_run TTimer1) by (done || (cbn; lia)). cbn [obind].
  rewrite (advance_one_run TTimer2) by (done || (cbn; lia)).
  unfold run_bank, counter, set_counter. cbn -[run_system requests].
  destruct (run_system _ t c0), (run_system _ t c1), (run_system _ t c2).
  cbn -[requests]. by rewrite !requests_app.
Qed.

Lemma run_bank_wf t r :
  wf r -> 0 <= t -> now r + t < 2 ^ 64 -> wf (run_bank t r).1.
Proof.
  intros Hwf Ht Hn. pose proof (fun id => wf_counter r id Hwf) as Hc.
  assert (forall id, CounterFacts.wf (run_system id t (counter r id)).1 /\
    Counter.divider_remainder (run_system id t (counter r id)).1 <= now r + t) as Hs.
  { intros id. destruct (Hc id) as [Hw Hd].
    destruct (run_system_wf id t _ Hw Ht) as (? & _ & ?). split; [done|lia]. }
  unfold run_bank. pose proof (Hs TTimer0). pose proof (Hs TTimer1).
  pose proof (Hs TTimer2). repeat (destruct (run_system _ _ _)). simpl in *.
  destruct_and!. pose proof (wf_now r Hwf). unfold in_u in *.
  constructor; simpl; [done|forall_list|unfold in_u; lia|forall_list].
Qed.

Lemma run_bank_add a b r :
  wf r -> 0 <= a -> 0 <= b -> now r + a < 2 ^ 64 ->
  (run_bank (a + b) r).1 = (run_bank b (run_bank a r).1).1 /\
  (run_bank (a + b) r).2 ≡ₚ
    (run_bank a r).2 ++ (run_bank b (run_bank a r).1).2.
Proof.
  intros Hwf Ha Hb Hn. pose proof (fun id => wf_counter r id Hwf) as Hc.
  unfold run_bank. rewrite !run_system_add by (done || apply Hc).
  unfold then_run. destruct (run_system TTimer0 a _) as [c0 l0].
  destruct (run_system TTimer1 a _) as [c1 l1].
  destruct (run_system TTimer2 a _) as [c2 l2].
  change (counter (bank c0 c1 c2 (now r + a), l0 ++ l1 ++ l2).1 TTimer0) with c0.
  change (counter (bank c0 c1 c2 (now r + a), l0 ++ l1 ++ l2).1 TTimer1) with c1.
  change (counter (bank c0 c1 c2 (now r + a), l0 ++ l1 ++ l2).1 TTimer2) with c2.
  destruct (run_system TTimer0 b c0) as [c0' l0'].
  destruct (run_system TTimer1 b c1) as [c1' l1'].
  destruct (run_system TTimer2 b c2) as [c2' l2']. cbn [fst snd bank now].
  rewrite Z.add_assoc. split; [done|]. solve_Permutation.
Qed.

(** advancing the system clock in two parts is the same as advancing it at
    once: every counter, mode flag, divider phase and the elapsed time agree,
    and an interrupt controller (any sink insensitive to the order of
    simultaneous requests) ends in the same state; the two-part run fails on
    timestamp overflow exactly when the one-part run does. *)
Theorem advance_system_partition {S : Type} `{CommutingSink S} r a b (s : S) :
  wf r -> in_u 64 a -> in_u 64 b -> now r + a + b < 2 ^ 64 ->
  exists r1 s1, advance_system r a s = (Ok tt, (r1, s1)) /\
    advance_system r1 b s1 = advance_system r (a + b) s /\
    (advance_system r (a + b) s).1 = Ok tt.
Proof.
  intros Hwf Ha Hb Hn. destruct Ha as [Ha0 Ha1], Hb as [Hb0 Hb1].
  pose proof (wf_now r Hwf) as [Hn0 _].
  destruct (run_bank_add a b r Hwf Ha0 Hb0 ltac:(lia)) as [Hr Hl].
  exists (run_bank a r).1, (requests s (run_bank a r).2).
  assert (now (run_bank a r).1 = now r + a) as Hnow.
  { unfold run_bank. by repeat destruct (run_system _ _ _). }
  rewrite !advance_system_run by (done || (split; lia) || (apply run_bank_wf; done || lia)).
  rewrite Hnow. repeat (rewrite (proj2 (Z.ltb_lt _ _)) by lia).
  split_and!; [done| |done]. rewrite Hr, (requests_permutation _ _ _ Hl).
  by rewrite requests_app.
Qed.

Definition repeating : RootCounters :=
  write_register (write_register new TTimer0 RTarget 3) TTimer0 RMode
    (MODE_RESET_TARGET .| MODE_IRQ_TARGET .| MODE_IRQ_REPEAT).

Lemma advance_system_partition_witness :
  exists r1 s1,
    advance_system repeating 5 InterruptController.new = (Ok tt, (r1, s1)) /\
    advance_system r1 7 s1 = advance_system repeating 12 InterruptController.new /\
    (advance_system repeating 12 InterruptController.new).1 = Ok tt.
Proof.
  apply (advance_system_partition repeating 5 7 InterruptController.new).
  - constructor; [reflexivity|repeat constructor; vm_compute; congruence
      |split; vm_compute; congruence|repeat constructor; vm_compute; congruence].
  - split; vm_compute; congruence.
  - split; vm_compute; congruence.
  - vm_compute. reflexivity.
Defined.

(** ** Reachable counter banks *)

Inductive step : RootCounters -> RootCounters -> Prop :=
| step_read r id reg : step r (read_register r id reg).2
| step_write r a v : in_u 32 v -> step r (write r a v).2
| step_hblank r b : step r (set_hblank r b)
| step_vblank r b : step r (set_vblank r b)
| step_advance {S : Type} `{InterruptSink S} r input t (s : S) :
    in_u 64 t -> step r (advance r input t s).2.1.

Inductive reachable : RootCounters -> Prop :=
| reachable_new : reachable new
| reachable_step r r' : reachable r -> step r r' -> reachable r'.

Lemma tick_at_total {S : Type} `{InterruptSink S} id r t (s : S) :
  wf r -> 0 <= t -> (tick_at id r t s).1 = Ok tt /\ wf (tick_at id r t s).2.1.
Proof.
  intros Hwf Ht. destruct (wf_counter r id Hwf) as [Hw Hd]. unfold tick_at.
  case_goal; [|done]. rewrite tick_run by done. cbn [obind lift_state fst snd].
  destruct (run_counter_wf id t _ Hw) as [Hw' [_ Hdiv _ _]].
  split; [done|]. apply set_counter_wf; [done|done|by rewrite Hdiv].
Qed.

Lemma advance_total {S : Type} `{InterruptSink S} r input t (s : S) :
  wf r -> in_u 64 t ->
  no_panic (advance r input t s).1 /\
  ((advance r input t s).1 <> Ok tt <-> input = System /\ 2 ^ 64 <= now r + t) /\
  wf (advance r input t s).2.1.
Proof.
  intros Hwf Ht. destruct input; unfold advance, no_panic.
  - rewrite advance_system_run by done.
    destruct (Z.ltb_spec (now r + t) (2 ^ 64)); cbn [fst snd].
    + split_and!; [done| |apply run_bank_wf; [done|apply Ht|done]].
      split; [done|]. lia.
    + by split_and!; [done|split|].
  - destruct (tick_at_total TTimer0 r t s Hwf (proj1 Ht)) as [-> ?].
    by split_and!; [done|split; [|intros []]|].
  - destruct (tick_at_total TTimer1 r t s Hwf (proj1 Ht)) as [-> ?].
    by split_and!; [done|split; [|intros []]|].
Qed.

Lemma write_mode_wf v c :
  in_u 16 v -> CounterFacts.wf c -> CounterFacts.wf (Counter.write_mode v c).
Proof.
  intros [Hv _] []. constructor; simpl; [done|done| |done].
  unfold MODE_WRITABLE. change 0x3ff with (Z.ones 10). rewrite land_ones_wrap by lia.
  apply (in_u_mono 10); [lia|]. by apply in_u_wrap.
Qed.

Lemma counter_write_wf r id reg v :
  wf r -> in_u 16 v -> wf (write_register r id reg v).
Proof.
  intros Hwf Hv. destruct (wf_counter r id Hwf) as [Hw Hd].
  pose proof (wf_now r Hwf) as [Hn _].
  apply set_counter_wf; [done| |by destruct reg].
  destruct reg; [by apply wf_set_value|by apply write_mode_wf|].
  destruct Hw. by constructor.
Qed.

Lemma decode_register_no_panic a : no_panic (decode_register a).
Proof. unfold decode_register, no_panic. destruct (checked_sub_u a TIMER_BASE); [|done].
  simpl. repeat case_goal; done. Qed.

Lemma set_blank_wf id b c :
  CounterFacts.wf c -> CounterFacts.wf (Counter.set_blank id b c) /\
  Counter.divider_remainder (Counter.set_blank id b c) = Counter.divider_remainder c.
Proof.
  intros Hw. assert (forall x y, CounterFacts.wf (Counter.set_sync x y c)) as Hs
    by (intros; destruct Hw; by constructor).
  unfold Counter.set_blank. case_goal; [done|].
  repeat case_goal; try done; split; try done; try by apply wf_set_value.
  destruct Hw; by constructor.
Qed.

Lemma bank_step_wf r r' : wf r -> step r r' -> wf r'.
Proof.
  intros Hwf Hstep. destruct Hstep as [r id reg|r a v Hv|r b|r b|S H r input t s Ht].
  - destruct (wf_counter r id Hwf) as [[Hv Htg Hm Hd] Hp].
    destruct reg; [done| |done]. apply set_counter_wf; [done|constructor; simpl|done];
      [done|done| |done].
    apply in_u_land_l; [|done]. apply (in_u_nonneg 16), in_u_bnot; [lia|done].
  - unfold write. destruct (decode_register a) as [[id reg]| |]; [|done..].
    apply counter_write_wf; [done|]. by apply in_u_wrap.
  - destruct (wf_counter r TTimer0 Hwf) as [Hw Hp].
    destruct (set_blank_wf TTimer0 b _ Hw) as [? E].
    apply set_counter_wf; [done|done|by rewrite E].
  - destruct (wf_counter r TTimer1 Hwf) as [Hw Hp].
    destruct (set_blank_wf TTimer1 b _ Hw) as [? E].
    apply set_counter_wf; [done|done|by rewrite E].
  - by apply advance_total.
Qed.

(** on every counter bank reachable through register reads and writes,
    blanking edges and clock input, advancing any clock domain by any number of
    ticks terminates without panicking - in particular the divider sum of
    counter 2 never overflows - and fails only when the system timestamp would
    exceed 64 bits. *)
Theorem advance_never_panics {S : Type} `{InterruptSink S} r input t (s : S) :
  reachable r -> in_u 64 t ->
  no_panic (advance r input t s).1 /\
  ((advance r input t s).1 <> Ok tt <-> input = System /\ 2 ^ 64 <= now r + t).
Proof.
  intros Hr Ht. assert (wf r) as Hwf.
  { induction Hr as [|r r' Hr IH Hs]; [apply bank_new_wf|by eapply bank_step_wf]. }
  destruct (advance_total r input t s Hwf Ht) as (? & ? & _). done.
Qed.

Lemma advance_never_panics_witness :
  no_panic (advance (set_hblank new true) System (2 ^ 64 - 1) []).1.
Proof.
  refine (proj1 (advance_never_panics (set_hblank new true) System (2 ^ 64 - 1) [] _ _)).
  - eapply reachable_step; [apply reachable_new|apply step_hblank].
  - split; vm_compute; congruence.
Defined.

End RootCounterFacts.

(** ** The vertical-blank clock *)

Module VBlankFacts.
Import VBlankClock.

Definition period (c : VBlankClock) : Z :=
  VideoStandard.cycles_per_vblank (standard c).

(** The next event is the first frame boundary after the present. *)
Record wf (c : VBlankClock) : Prop := {
  wf_now : in_u 64 (vb_now c);
  wf_next : vb_next c = (vb_now c / period c + 1) * period c;
}.

Lemma period_pos c : 0 < period c.
Proof. unfold period. by destruct (standard c). Qed.

Lemma vblank_new_wf v : wf (new v).
Proof. constructor; [done|]. by destruct v. Qed.

Section with_sink.
Context {S : Type} `{InterruptSink S}.

Lemma advance_loop_count fuel : forall c end_ events (s : S) n,
  0 <= n -> n <= Z.of_nat fuel -> 0 <= events -> events + n < 2 ^ 64 ->
  vb_next c + n * period c < 2 ^ 64 ->
  vb_next c + (n - 1) * period c <= end_ < vb_next c + n * period c ->
  advance_loop fuel c end_ (period c) events s =
  (Ok (events + n),
   (set_next (vb_next c + n * period c) c,
    iterate (Z.to_nat n) (fun s => request s VBlank) s)).
Proof.
  pose proof period_pos as Hp.
  induction fuel as [|fuel IH]; intros c end_ events s n Hn0 Hf He Hev Hmax Hend;
    specialize (Hp c); cbn [advance_loop].
  - assert (n = 0) as -> by lia. destruct (Z.leb_spec (vb_next c) end_); [lia|].
    rewrite Z.mul_0_l, !Z.add_0_r. by destruct c.
  - destruct (Z.leb_spec (vb_next c) end_) as [Hle|Hgt].
    + assert (0 < n) by nia.
      rewrite (proj2 (checked_add_u_Some _ _ _ _)) by (split; [done|lia]).
      rewrite (proj2 (Deadline.checked_advance_ok _ _ _)) by (split; [done|nia]).
      change (period c) with (period (set_next (vb_next c + period c) c)) at 2.
      rewrite (IH _ _ _ _ (n - 1)) by (cbn; unfold period in *; cbn; nia).
      change (period (set_next _ c)) with (period c).
      replace (Z.to_nat n) with (Datatypes.S (Z.to_nat (n - 1))) by lia.
      cbn [iterate set_next vb_next]. unfold set_next. cbn.
      do 2 f_equal; [lia|]. f_equal. lia.
    + assert (n = 0) as -> by nia. rewrite Z.mul_0_l, !Z.add_0_r. by destruct c.
Qed.
End with_sink.

(** vertical blanks do not drift: advancing to time [e] requests exactly one
    interrupt for each multiple of the frame period in (now, e], returns that
    count and leaves the clock at [e] with the next boundary pending, however
    the interval is cut; the loop terminates without overflow while one more
    period fits the timestamp. *)
Theorem vblank_advance_exact {S : Type} `{InterruptSink S} c t (s : S) :
  wf c -> in_u 64 t -> vb_now c + t + period c < 2 ^ 64 ->
  let e := vb_now c + t in
  let n := e / period c - vb_now c / period c in
  exists c',
    advance c t s =
      (Ok n, (c', iterate (Z.to_nat n) (fun s => request s VBlank) s)) /\
    wf c' /\ vb_now c' = e /\ standard c' = standard c.
Proof.
  intros [[Hn0 Hn1] Hnext] [Ht0 Ht1] Hmax e n. pose proof (period_pos c) as Hp.
  unfold advance. rewrite (proj2 (Deadline.checked_advance_ok _ _ _))
    by (split; [done|lia]). fold e. cbv zeta. fold (period c).
  pose proof (Z.div_mod e (period c) ltac:(lia)) as Ee.
  pose proof (Z.mod_pos_bound e (period c) Hp) as Em.
  assert (0 <= n) as Hn.
  { unfold n. pose proof (Z.div_le_mono (vb_now c) e (period c) Hp). lia. }
  assert (0 <= vb_now c / period c) by (apply Z.div_pos; lia).
  assert (vb_next c + n * period c = (e / period c + 1) * period c) as Hlast.
  { rewrite Hnext. unfold n. lia. }
  assert ((e - vb_next c) / period c + 1 = n) as Hfuel.
  { rewrite Hnext. unfold n.
    replace (e - (vb_now c / period c + 1) * period c) with
      (e + (- (vb_now c / period c + 1)) * period c) by lia.
    rewrite Z.div_add by lia. lia. }
  rewrite Hfuel.
  rewrite (advance_loop_count (Z.to_nat n) c e 0 s n); [|nia..].
  eexists. split; [done|]. cbn. split_and!; [|done..].
  constructor; cbn; [split; lia|]. exact Hlast.
Qed.

Lemma vblank_advance_exact_witness :
  exists c', advance (new Ntsc) CPU_HZ [] =
      (Ok 60, (c', repeat VBlank 60)) /\ wf c' /\ vb_now c' = CPU_HZ /\
    standard c' = Ntsc.
Proof.
  assert (wf (new Ntsc)) as Hw by apply vblank_new_wf.
  assert (in_u 64 CPU_HZ) as Ht by (split; vm_compute; congruence).
  assert (vb_now (new Ntsc) + CPU_HZ + period (new Ntsc) < 2 ^ 64) as Hm
    by (vm_compute; reflexivity).
  destruct (vblank_advance_exact (new Ntsc) CPU_HZ ([] : list InterruptSource)
              Hw Ht Hm) as (c' & E & W & N & St).
  exists c'. split_and!; [|done|rewrite N; by vm_compute|by rewrite St].
  rewrite E. repeat f_equal.
Defined.

End VBlankFacts.
