(* ===== verification/Buffer.v ===== *)
(** * Byte buffers

    A [Vec<u8>] or [[u8; N]] of fixed length that starts zeroed is a length and
    a finite map from index to byte.  Indexing and slicing outside the length
    give [None], which the callers turn into a panic or an error as the source
    does.  Two buffers are equivalent when they have the same length and agree
    at every index: the representation may or may not store a zero. *)

From S2P Require Import Prelude MachineInt.

Record Buffer := mkBuffer { buf_len : Z; cells : gmap Z Z }.

Module Buffer.

(** [vec![0; n]] *)
Definition zeroed (n : Z) : Buffer := mkBuffer n ∅.

Definition cell (b : Buffer) (i : Z) : Z := default 0 (cells b !! i).

Definition in_range (b : Buffer) (i : Z) : bool := (0 <=? i) && (i <? buf_len b).

(** [buf.get(i)] *)
Definition get (b : Buffer) (i : Z) : option Z :=
  if in_range b i then Some (cell b i) else None.

(** [buf[i] = v] *)
Definition set (b : Buffer) (i v : Z) : option Buffer :=
  if in_range b i then Some (mkBuffer (buf_len b) (<[i := v]> (cells b))) else None.

(** The bytes from index [i], [n] of them. *)
Fixpoint read_cells (b : Buffer) (i : Z) (n : nat) : list Z :=
  match n with
  | O => []
  | S n => cell b i :: read_cells b (i + 1) n
  end.

Fixpoint write_cells (b : Buffer) (i : Z) (bytes : list Z) : Buffer :=
  match bytes with
  | [] => b
  | v :: bytes =>
      write_cells (mkBuffer (buf_len b) (<[i := v]> (cells b))) (i + 1) bytes
  end.

(** [buf.get(start..start + n)] *)
Definition slice (b : Buffer) (start n : Z) : option (list Z) :=
  if (0 <=? start) && (start + n <=? buf_len b)
  then Some (read_cells b start (Z.to_nat n)) else None.

(** [buf.get_mut(start..start + bytes.len()).copy_from_slice(bytes)] *)
Definition copy_from (b : Buffer) (start : Z) (bytes : list Z) : option Buffer :=
  if (0 <=? start) && (start + Z.of_nat (length bytes) <=? buf_len b)
  then Some (write_cells b start bytes) else None.

Definition bytes_ok (b : Buffer) : Prop := map_Forall (fun _ v => in_u 8 v) (cells b).

#[global] Instance equiv : Equiv Buffer := fun b b' =>
  buf_len b = buf_len b' /\ forall i, get b i = get b' i.

#[global] Instance equivalence : Equivalence equiv.
Proof.
  split.
  - by intros b.
  - by intros b b' [Hl Hg].
  - intros b b' b'' [Hl Hg] [Hl' Hg']. split; [congruence|].
    intros i. by rewrite Hg.
Qed.

Lemma get_some b i v :
  get b i = Some v <-> 0 <= i < buf_len b /\ v = cell b i.
Proof.
  unfold get, in_range.
  destruct (Z.leb_spec 0 i), (Z.ltb_spec i (buf_len b)); simpl; naive_solver lia.
Qed.

Lemma get_in b i : 0 <= i < buf_len b -> get b i = Some (cell b i).
Proof. intros. by apply get_some. Qed.

Lemma set_in b i v :
  0 <= i < buf_len b ->
  set b i v = Some (mkBuffer (buf_len b) (<[i := v]> (cells b))).
Proof.
  intros. unfold set, in_range.
  rewrite (proj2 (Z.leb_le _ _)), (proj2 (Z.ltb_lt _ _)) by lia. done.
Qed.

Lemma set_some b i v b' :
  set b i v = Some b' ->
  0 <= i < buf_len b /\ b' = mkBuffer (buf_len b) (<[i := v]> (cells b)).
Proof.
  unfold set, in_range.
  destruct (Z.leb_spec 0 i), (Z.ltb_spec i (buf_len b)); simpl; naive_solver lia.
Qed.

Lemma cell_insert b i v j :
  cell (mkBuffer (buf_len b) (<[i := v]> (cells b))) j =
  if decide (i = j) then v else cell b j.
Proof.
  unfold cell. simpl. case_decide as E; [subst; by rewrite lookup_insert_eq|].
  by rewrite lookup_insert_ne.
Qed.

Lemma get_set b i v b' j :
  set b i v = Some b' ->
  get b' j = if decide (i = j) then Some v else get b j.
Proof.
  intros [Hi ->]%set_some. unfold get, in_range. rewrite cell_insert. cbn [buf_len].
  case_decide as E; [subst|done].
  rewrite (proj2 (Z.leb_le _ _)), (proj2 (Z.ltb_lt _ _)) by lia. done.
Qed.

Lemma set_len b i v b' : set b i v = Some b' -> buf_len b' = buf_len b.
Proof. by intros [_ ->]%set_some. Qed.

#[global] Instance get_proper : Proper (equiv ==> eq ==> eq) get.
Proof. by intros b b' [_ Hg] i ? <-. Qed.

#[global] Instance set_proper i v : Proper (equiv ==> option_Forall2 equiv) (fun b => set b i v).
Proof.
  intros b b' [Hl Hg].
  destruct (set b i v) as [c|] eqn:E.
  - pose proof (set_some _ _ _ _ E) as [Hi _].
    rewrite set_in by lia. constructor. split.
    + cbn. rewrite (set_len _ _ _ _ E). done.
    + intros j. rewrite (get_set _ _ _ _ j E).
      rewrite (get_set b' i v _ j (set_in b' i v ltac:(lia))). by rewrite Hg.
  - unfold set, in_range in *. rewrite <- Hl.
    destruct (_ && _); [done|]. constructor.
Qed.

Lemma cell_u8 b i : bytes_ok b -> in_u 8 (cell b i).
Proof.
  intros Hb. unfold cell. destruct (cells b !! i) eqn:E; [by eapply Hb|by split].
Qed.

Lemma set_ok b i v b' : bytes_ok b -> in_u 8 v -> set b i v = Some b' -> bytes_ok b'.
Proof. intros Hb Hv [_ ->]%set_some. by apply map_Forall_insert_2. Qed.

Lemma zeroed_ok n : bytes_ok (zeroed n).
Proof. apply map_Forall_empty. Qed.

(** ** Runs of bytes *)

Lemma length_read_cells b i n : length (read_cells b i n) = n.
Proof. revert i; induction n; intros; simpl; auto. Qed.

Lemma read_cells_u8 b i n : bytes_ok b -> Forall (in_u 8) (read_cells b i n).
Proof.
  intros Hb. revert i; induction n; intros i; simpl; constructor; auto using cell_u8.
Qed.

Lemma write_cells_len b i bytes : buf_len (write_cells b i bytes) = buf_len b.
Proof. revert b i; induction bytes; intros; simpl; [done|]. by rewrite IHbytes. Qed.

Lemma write_cells_ok b i bytes :
  bytes_ok b -> Forall (in_u 8) bytes -> bytes_ok (write_cells b i bytes).
Proof.
  intros Hb H. revert b i Hb; induction H; intros; simpl; [done|].
  apply IHForall. by apply map_Forall_insert_2.
Qed.

Lemma cell_write_cells b i bytes j :
  cell (write_cells b i bytes) j =
  if decide (i <= j < i + Z.of_nat (length bytes))
  then nth (Z.to_nat (j - i)) bytes 0 else cell b j.
Proof.
  revert b i. induction bytes as [|v bytes IH]; intros b i; simpl.
  - by rewrite decide_False by lia.
  - rewrite IH, cell_insert. destruct (decide (i = j)) as [->|Hne].
    + rewrite decide_False, decide_True by lia.
      by replace (Z.to_nat (j - j)) with 0%nat by lia.
    + destruct (decide (i + 1 <= j < _)).
      * rewrite decide_True by lia.
        by replace (Z.to_nat (j - i)) with (S (Z.to_nat (j - (i + 1)))) by lia.
      * by rewrite decide_False by lia.
Qed.

Lemma read_cells_lookup b i n k :
  (k < n)%nat -> nth k (read_cells b i n) 0 = cell b (i + Z.of_nat k).
Proof.
  revert i k; induction n as [|n IH]; intros i k Hk; [lia|].
  destruct k; simpl; [f_equal; lia|]. rewrite IH by lia. f_equal; lia.
Qed.

Lemma read_cells_ext b b' i n :
  (forall j, i <= j < i + Z.of_nat n -> cell b j = cell b' j) ->
  read_cells b i n = read_cells b' i n.
Proof.
  revert i; induction n as [|n IH]; intros i He; simpl; [done|].
  rewrite He by lia. f_equal. apply IH. intros j Hj. apply He. lia.
Qed.

Lemma read_write_cells b i bytes :
  read_cells (write_cells b i bytes) i (length bytes) = bytes.
Proof.
  revert b i; induction bytes as [|v bytes IH]; intros b i; simpl; [done|].
  f_equal; [|apply IH].
  rewrite cell_write_cells, decide_False by lia. by rewrite cell_insert, decide_True.
Qed.

End Buffer.

(** ** Little-endian values *)

Fixpoint le_bytes (n : nat) (v : Z) : list Z :=
  match n with
  | O => []
  | S n => v mod 256 :: le_bytes n (v / 256)
  end.

Fixpoint from_le (l : list Z) : Z :=
  match l with
  | [] => 0
  | b :: l => b + 256 * from_le l
  end.

Lemma length_le_bytes n v : length (le_bytes n v) = n.
Proof. revert v; induction n; intros; simpl; auto. Qed.

Lemma le_bytes_u8 n v : Forall (in_u 8) (le_bytes n v).
Proof.
  revert v; induction n; intros; simpl; constructor; [|auto].
  apply Z.mod_pos_bound. lia.
Qed.

Lemma from_le_range l :
  Forall (in_u 8) l -> 0 <= from_le l < 256 ^ Z.of_nat (length l).
Proof.
  induction 1 as [|b l Hb Hl IH]; simpl from_le; simpl length; [by split|].
  unfold in_u in Hb. change (2 ^ 8) with 256 in Hb.
  rewrite Nat2Z.inj_succ, Z.pow_succ_r by lia. lia.
Qed.

Lemma le_from_le_bytes n v :
  0 <= v < 256 ^ Z.of_nat n -> from_le (le_bytes n v) = v.
Proof.
  revert v; induction n as [|n IH]; intros v Hv; simpl from_le; simpl le_bytes.
  - simpl in Hv. lia.
  - rewrite Nat2Z.inj_succ, Z.pow_succ_r in Hv by lia. simpl from_le.
    rewrite IH by (split; [apply Z.div_pos; lia|apply Z.div_lt_upper_bound; lia]).
    pose proof (Z.div_mod v 256). lia.
Qed.

Lemma from_le_bytes_le l :
  Forall (in_u 8) l -> le_bytes (length l) (from_le l) = l.
Proof.
  induction 1 as [|b l Hb Hl IH]; simpl; [done|].
  unfold in_u in Hb. change (2 ^ 8) with 256 in Hb.
  rewrite (Z.mul_comm 256), Z_mod_plus_full, Z.mod_small by lia.
  rewrite Z.div_add, Z.div_small, Z.add_0_l by lia. by rewrite IH.
Qed.

Lemma from_le_2 a b : from_le [a; b] = a + b * 2 ^ 8.
Proof. simpl. lia. Qed.
Lemma from_le_4 a b c d :
  from_le [a; b; c; d] = a + b * 2 ^ 8 + c * 2 ^ 16 + d * 2 ^ 24.
Proof. simpl. lia. Qed.

(** The [|]-and-shift assembly the sources write. *)
Lemma or_bytes_2 a b :
  in_u 8 a -> in_u 8 b -> a .| Z.shiftl b 8 = from_le [a; b].
Proof.
  intros Ha Hb. rewrite Z.lor_comm, lor_shiftl_add by (lia || done).
  rewrite from_le_2. lia.
Qed.

Lemma or_bytes_4 a b c d :
  in_u 8 a -> in_u 8 b -> in_u 8 c -> in_u 8 d ->
  a .| Z.shiftl b 8 .| Z.shiftl c 16 .| Z.shiftl d 24 = from_le [a; b; c; d].
Proof.
  intros Ha Hb Hc Hd. rewrite from_le_4.
  rewrite or_bytes_2 by done. rewrite from_le_2.
  unfold in_u in *. change (2 ^ 8) with 256 in *.
  rewrite (Z.lor_comm _ (Z.shiftl c 16)).
  rewrite (lor_shiftl_add c) by (unfold in_u; lia).
  rewrite Z.lor_comm, (lor_shiftl_add d) by (unfold in_u; lia). lia.
Qed.

(** ** Words of RAM

    What the DMA controllers of both machines move: the little-endian words of a
    buffer at ascending or descending addresses, and the transfers of a run of words to
    and from a device. *)

(** ** Masked addresses *)

(** The address mask of the controllers: a word address modulo 16 MiB. *)
Definition WORD_MASK : Z := 0x00fffffc.

Definition masked (a : Z) : Prop := 0 <= a <= WORD_MASK /\ a mod 4 = 0.

Lemma land_word_mask v : v .& WORD_MASK = 4 * ((v / 4) mod 2 ^ 22).
Proof.
  change WORD_MASK with (Z.shiftl (Z.ones 22) 2).
  rewrite <- Z.land_ones, (Z.mul_comm 4) by lia.
  change 4 with (2 ^ 2) at 2. rewrite <- Z.shiftl_mul_pow2 by lia.
  change 4 with (2 ^ 2). rewrite <- Z.shiftr_div_pow2 by lia.
  apply Z.bits_inj'. intros i Hi. rewrite Z.land_spec.
  destruct (decide (i < 2)).
  - rewrite !Z.shiftl_spec_low by done. apply andb_false_r.
  - rewrite !Z.shiftl_spec, Z.land_spec, Z.shiftr_spec by lia.
    by replace (i - 2 + 2) with i by lia.
Qed.

Lemma land_masked v : masked (v .& WORD_MASK).
Proof.
  rewrite land_word_mask. pose proof (Z.mod_pos_bound (v / 4) (2 ^ 22) eq_refl).
  unfold masked, WORD_MASK. split; [lia|].
  by rewrite Z.mul_comm, Z_mod_mult.
Qed.

Lemma wrap_word_mask y : wrap 32 (4 * y) .& WORD_MASK = (4 * y) mod 2 ^ 24.
Proof.
  rewrite land_word_mask. unfold wrap.
  change (2 ^ 32) with (4 * 2 ^ 30). change (2 ^ 24) with (4 * 2 ^ 22).
  rewrite !Z.mul_mod_distr_l by lia. f_equal.
  rewrite (Z.mul_comm 4), Z.div_mul by lia.
  apply Z.mod_mod_divide. by exists (2 ^ 8).
Qed.

(** ** Words and their addresses *)

(** The address of a word of a transfer. *)
Definition word_address (base : Z) (decrement : bool) (index : Z) : Z :=
  if decrement then base - 4 * index else base + 4 * index.

(** The little-endian word at an offset. *)
Definition word_at (b : Buffer) (o : Z) : Z := from_le (Buffer.read_cells b o 4).

Lemma slice_inside b o n :
  0 <= o -> o + n <= buf_len b -> 0 <= n ->
  Buffer.slice b o n = Some (Buffer.read_cells b o (Z.to_nat n)).
Proof.
  intros. unfold Buffer.slice.
  destruct (_ && _) eqn:E; [done|]. exfalso. apply andb_false_iff in E.
  rewrite !Z.leb_gt in E. rewrite ?andb_false_iff, ?Z.leb_gt in E. lia.
Qed.

Lemma word_at_write_same b o v :
  in_u 32 v -> word_at (Buffer.write_cells b o (le_bytes 4 v)) o = v.
Proof.
  intros Hv. unfold word_at.
  replace 4%nat with (length (le_bytes 4 v)) at 2 by apply length_le_bytes.
  rewrite Buffer.read_write_cells. by apply le_from_le_bytes.
Qed.

Lemma word_at_write_other b o o' v :
  o' + 4 <= o \/ o + 4 <= o' ->
  word_at (Buffer.write_cells b o (le_bytes 4 v)) o' = word_at b o'.
Proof.
  intros Hd. unfold word_at. f_equal. apply Buffer.read_cells_ext. intros j Hj.
  rewrite Buffer.cell_write_cells, decide_False; [done|]. rewrite length_le_bytes. lia.
Qed.

Lemma copy_word_in b o v :
  0 <= o -> o + 4 <= buf_len b ->
  Buffer.copy_from b o (le_bytes 4 v) = Some (Buffer.write_cells b o (le_bytes 4 v)).
Proof.
  intros. unfold Buffer.copy_from.
  destruct (_ && _) eqn:E; [done|]. exfalso. apply andb_false_iff in E.
  rewrite length_le_bytes in E. rewrite ?andb_false_iff, ?Z.leb_gt in E. lia.
Qed.

(** ** Reference transfers

    [send] offers words to a device in order and [receive] takes words from it;
    both stop at the first refusal. *)

Fixpoint send {X E} (put : Z -> E -> outcome X unit * E) (ws : list Z) (e : E)
    : outcome X unit * E :=
  match ws with
  | [] => (Ok tt, e)
  | w :: ws => let! (_, e) := put w e in send put ws e
  end.

Fixpoint receive {X E} (take : E -> outcome X Z * E) (n : nat) (e : E)
    : list Z * (outcome X unit * E) :=
  match n with
  | O => ([], (Ok tt, e))
  | Datatypes.S n =>
      match take e with
      | (Ok w, e) => let (ws, re) := receive take n e in (w :: ws, re)
      | (Err x, e) => ([], (Err x, e))
      | (Panic, e) => ([], (Panic, e))
      end
  end.

(** The words of a transfer, in transfer order. *)
Definition ram_words (b : Buffer) (base : Z) (decrement : bool) (index n : Z) : list Z :=
  (fun k => word_at b (word_address base decrement k)) <$> seqZ index n.

(** [b'] is [b] with [ws] stored at the words of the transfer. *)
Definition stored (b b' : Buffer) (base : Z) (decrement : bool) (index : Z)
    (ws : list Z) : Prop :=
  buf_len b' = buf_len b /\
  ram_words b' base decrement index (Z.of_nat (length ws)) = ws /\
  forall j, (forall k, index <= k < index + Z.of_nat (length ws) ->
    ~ word_address base decrement k <= j < word_address base decrement k + 4) ->
    Buffer.cell b' j = Buffer.cell b j.

Lemma word_at_u32 b o : Buffer.bytes_ok b -> in_u 32 (word_at b o).
Proof.
  intros Hb. unfold word_at.
  pose proof (from_le_range _ (Buffer.read_cells_u8 b o 4 Hb)) as Hr.
  by rewrite Buffer.length_read_cells in Hr.
Qed.

Lemma ram_words_u32 b base decrement index n :
  Buffer.bytes_ok b -> Forall (in_u 32) (ram_words b base decrement index n).
Proof. intros Hb. apply Forall_fmap, Forall_forall. intros k _. by apply word_at_u32. Qed.

Lemma send_ok {X E} (good : E -> Prop) (put : Z -> E -> outcome X unit * E) ws e :
  (forall w e, good e -> in_u 32 w -> no_panic (put w e).1 /\ good (put w e).2) ->
  Forall (in_u 32) ws -> good e -> no_panic (send put ws e).1 /\ good (send put ws e).2.
Proof.
  intros Hput Hws. revert e. induction Hws as [|w ws Hw Hws IH]; intros e He; cbn [send]; [done|].
  destruct (Hput w e He Hw) as [Hn Hg]. destruct (put w e) as [[[]|x|] e']; [|done..].
  by apply IH.
Qed.

Lemma ram_words_cons b base decrement index n :
  0 < n -> ram_words b base decrement index n =
  word_at b (word_address base decrement index) ::
  ram_words b base decrement (index + 1) (n - 1).
Proof.
  intros Hn. unfold ram_words. rewrite seqZ_cons by done. cbn [fmap list_fmap].
  by replace (Z.pred n) with (n - 1) by lia; replace (Z.succ index) with (index + 1) by lia.
Qed.

Lemma word_disjoint base decrement i k :
  i <> k -> word_address base decrement i + 4 <= word_address base decrement k \/
  word_address base decrement k + 4 <= word_address base decrement i.
Proof. unfold word_address. destruct decrement; lia. Qed.

(** Storing the remaining words leaves the first one in place. *)
Lemma stored_cons b b' base decrement index w ws :
  in_u 32 w ->
  stored (Buffer.write_cells b (word_address base decrement index) (le_bytes 4 w)) b'
    base decrement (index + 1) ws ->
  stored b b' base decrement index (w :: ws).
Proof.
  intros Hw (Hl & Hws & Hc). split_and!.
  - by rewrite Hl, Buffer.write_cells_len.
  - cbn [length]. rewrite ram_words_cons by lia.
    replace (Z.of_nat (Datatypes.S (length ws)) - 1) with (Z.of_nat (length ws)) by lia.
    rewrite Hws. f_equal.
    etrans; [|apply (word_at_write_same b (word_address base decrement index) w Hw)].
    unfold word_at. f_equal. apply Buffer.read_cells_ext. intros j Hj. apply Hc.
    intros k Hk. pose proof (word_disjoint base decrement index k). lia.
  - intros j Hj. cbn [length] in Hj. rewrite Hc.
    + rewrite Buffer.cell_write_cells, decide_False; [done|].
      rewrite length_le_bytes. apply (Hj index). lia.
    + intros k Hk. apply Hj. lia.
Qed.
