(* ===== verification/R3000.v ===== *)
(** * The R3000 interpreter ([crates/hw/shared/r3000])

    The complete processor state of [Cpu], the machine-supplied [Bus] as a type
    class whose operations thread the bus state, the decoder and every
    instruction of [execute], and [step_inner] with its pipeline bookkeeping:
    the branch slot, the load-delay slot, exception entry and the interrupt
    line.  Register indices are [Z] values below 32, as the decoder masks them;
    the facts are in [R3000Facts.v]. *)

From S2P Require Import Prelude MachineInt.

Definition CAUSE_BD : Z := 2 ^ 31.
Definition CAUSE_IP2 : Z := 2 ^ 10.
Definition STATUS_BEV : Z := 2 ^ 22.

Inductive AccessType := Instruction_access | Load | Store.

Record BusFault := mkBusFault { message : string }.

(** Consumer-owned memory and interrupt interface: every access may change the
    bus, also one that fails. *)
Class Bus (B : Type) := {
  read_u8 : Z -> B -> outcome BusFault Z * B;
  read_u16 : Z -> B -> outcome BusFault Z * B;
  read_u32 : Z -> B -> outcome BusFault Z * B;
  write_u8 : Z -> Z -> B -> outcome BusFault unit * B;
  write_u16 : Z -> Z -> B -> outcome BusFault unit * B;
  write_u32 : Z -> Z -> B -> outcome BusFault unit * B;
  interrupt_pending : B -> bool;
}.

Record ResetProfile := mkResetProfile {
  rp_pc : Z;
  exception_vector : Z;
  bootstrap_exception_vector : Z;
  rp_status : Z;
  rp_processor_id : Z;
}.

Definition default_profile : ResetProfile :=
  mkResetProfile 0xbfc00000 0x80000080 0xbfc00180 STATUS_BEV 2.

Inductive LoadDelayMode := LD_Architectural | Interlocked.
Inductive WordAlignmentMode := WA_Architectural | AlignDown.
Inductive Coprocessor2Mode := Disabled | Stub.
Inductive DelaySlotBranchMode := Preserve | SuppressWhenOuterTaken.

#[global] Instance WordAlignmentMode_eq : EqDecision WordAlignmentMode.
Proof. solve_decision. Defined.
#[global] Instance Coprocessor2Mode_eq : EqDecision Coprocessor2Mode.
Proof. solve_decision. Defined.
#[global] Instance DelaySlotBranchMode_eq : EqDecision DelaySlotBranchMode.
Proof. solve_decision. Defined.

Record DelaySlotState := mkDelaySlot { branch_pc : Z; branch_taken : bool }.

Inductive Exception :=
| Interrupt | AddressLoad | AddressStore | Syscall | Break
| ReservedInstruction | CoprocessorUnusable | Overflow.

Definition code (e : Exception) : Z :=
  match e with
  | Interrupt => 0 | AddressLoad => 4 | AddressStore => 5 | Syscall => 8
  | Break => 9 | ReservedInstruction => 10 | CoprocessorUnusable => 11
  | Overflow => 12
  end.

Record Cop0 := mkCop0 {
  bad_vaddr : Z;
  status : Z;
  cause : Z;
  epc : Z;
  processor_id : Z;
}.

Module Cop0.
Definition read (index : Z) (c : Cop0) : option Z :=
  match index with
  | 8 => Some (bad_vaddr c)
  | 12 => Some (status c)
  | 13 => Some (cause c)
  | 14 => Some (epc c)
  | 15 => Some (processor_id c)
  | _ => None
  end.

Definition set_status (s : Z) (c : Cop0) : Cop0 :=
  mkCop0 (bad_vaddr c) s (cause c) (epc c) (processor_id c).
Definition set_cause (x : Z) (c : Cop0) : Cop0 :=
  mkCop0 (bad_vaddr c) (status c) x (epc c) (processor_id c).
Definition set_epc (x : Z) (c : Cop0) : Cop0 :=
  mkCop0 (bad_vaddr c) (status c) (cause c) x (processor_id c).
Definition set_bad_vaddr (x : Z) (c : Cop0) : Cop0 :=
  mkCop0 x (status c) (cause c) (epc c) (processor_id c).

(** The flag says whether the register is writable. *)
Definition write (index value : Z) (c : Cop0) : bool * Cop0 :=
  match index with
  | 8 => (true, set_bad_vaddr value c)
  | 12 => (true, set_status value c)
  | 13 => (true, set_cause ((cause c .& bnot 32 0x300) .| (value .& 0x300)) c)
  | 14 => (true, set_epc value c)
  | _ => (false, c)
  end.
End Cop0.

Inductive StepEvent := Instruction | Exception_event (e : Exception).

Record StepOutcome := mkStepOutcome {
  so_pc : Z;
  so_instruction : option Z;
  so_cycles : Z;
  so_event : StepEvent;
}.

Record CpuError := mkCpuError {
  err_pc : Z;
  err_address : Z;
  err_access : AccessType;
  err_source : BusFault;
}.

Record Cpu := mkCpu {
  registers : list Z;
  hi : Z;
  lo : Z;
  pc : Z;
  next_pc : Z;
  delay_slot : option DelaySlotState;
  pending_load : option (Z * Z);
  cop0 : Cop0;
  cop2_data : list Z;
  cop2_control : list Z;
  profile : ResetProfile;
  load_delay_mode : LoadDelayMode;
  word_alignment_mode : WordAlignmentMode;
  coprocessor2_mode : Coprocessor2Mode;
  delay_slot_branch_mode : DelaySlotBranchMode;
}.

(** ** Field updates *)

Definition set_registers r c := mkCpu r (hi c) (lo c) (pc c) (next_pc c)
  (delay_slot c) (pending_load c) (cop0 c) (cop2_data c) (cop2_control c)
  (profile c) (load_delay_mode c) (word_alignment_mode c) (coprocessor2_mode c)
  (delay_slot_branch_mode c).
Definition set_hi_lo h l c := mkCpu (registers c) h l (pc c) (next_pc c)
  (delay_slot c) (pending_load c) (cop0 c) (cop2_data c) (cop2_control c)
  (profile c) (load_delay_mode c) (word_alignment_mode c) (coprocessor2_mode c)
  (delay_slot_branch_mode c).
(** The program counters, the delay slot and the pending load together. *)
Definition set_pipeline p n d l c := mkCpu (registers c) (hi c) (lo c) p n d l
  (cop0 c) (cop2_data c) (cop2_control c)
  (profile c) (load_delay_mode c) (word_alignment_mode c) (coprocessor2_mode c)
  (delay_slot_branch_mode c).
Definition set_pending_load l c :=
  set_pipeline (pc c) (next_pc c) (delay_slot c) l c.
Definition set_cop0 x c := mkCpu (registers c) (hi c) (lo c) (pc c) (next_pc c)
  (delay_slot c) (pending_load c) x (cop2_data c) (cop2_control c)
  (profile c) (load_delay_mode c) (word_alignment_mode c) (coprocessor2_mode c)
  (delay_slot_branch_mode c).
Definition set_cop2 d k c := mkCpu (registers c) (hi c) (lo c) (pc c) (next_pc c)
  (delay_slot c) (pending_load c) (cop0 c) d k
  (profile c) (load_delay_mode c) (word_alignment_mode c) (coprocessor2_mode c)
  (delay_slot_branch_mode c).
Definition set_modes w p2 d c := mkCpu (registers c) (hi c) (lo c) (pc c)
  (next_pc c) (delay_slot c) (pending_load c) (cop0 c) (cop2_data c)
  (cop2_control c) (profile c) (load_delay_mode c) w p2 d.

(** ** Operations that panic

    Rust's array accesses panic out of range, its divisions on a zero divisor and on the
    one quotient that overflows, and its shifts when the amount is not below the width. *)
Definition read_array {E} (l : list Z) (index : Z) : outcome E Z :=
  expect (l !! Z.to_nat index).

Definition write_array {E} (l : list Z) (index value : Z) : outcome E (list Z) :=
  if index <? Z.of_nat (length l) then Ok (<[Z.to_nat index := value]> l) else Panic.

(** The pair of quotient and remainder, [/] and [%]. *)
Definition div_u32 {E} (n d : Z) : outcome E (Z * Z) :=
  if d =? 0 then Panic else Ok (n / d, n mod d).

Definition div_i32 {E} (n d : Z) : outcome E (Z * Z) :=
  if (d =? 0) || ((n =? - 2 ^ 31) && (d =? -1)) then Panic
  else Ok (Z.quot n d, Z.rem n d).

Definition shl_u32 {E} (x n : Z) : outcome E Z := if n <? 32 then Ok (shl 32 x n) else Panic.
(** For [u32] and [i32] alike. *)
Definition shr_32 {E} (x n : Z) : outcome E Z := if n <? 32 then Ok (Z.shiftr x n) else Panic.

Module Cpu.

Definition with_load_delay_mode (p : ResetProfile) (m : LoadDelayMode) : Cpu := {|
  registers := replicate 32 0;
  hi := 0;
  lo := 0;
  pc := rp_pc p;
  next_pc := wrap 32 (rp_pc p + 4);
  delay_slot := None;
  pending_load := None;
  cop0 := mkCop0 0 (rp_status p) 0 0 (rp_processor_id p);
  cop2_data := replicate 32 0;
  cop2_control := replicate 32 0;
  profile := p;
  load_delay_mode := m;
  word_alignment_mode := WA_Architectural;
  coprocessor2_mode := Disabled;
  delay_slot_branch_mode := Preserve;
|}.

Definition new (p : ResetProfile) : Cpu := with_load_delay_mode p LD_Architectural.

Definition reset (c : Cpu) : Cpu :=
  set_modes (word_alignment_mode c) (coprocessor2_mode c)
    (delay_slot_branch_mode c)
    (with_load_delay_mode (profile c) (load_delay_mode c)).

Definition set_word_alignment_mode (m : WordAlignmentMode) (c : Cpu) : Cpu :=
  set_modes m (coprocessor2_mode c) (delay_slot_branch_mode c) c.
Definition set_coprocessor2_mode (m : Coprocessor2Mode) (c : Cpu) : Cpu :=
  set_modes (word_alignment_mode c) m (delay_slot_branch_mode c) c.
Definition set_delay_slot_branch_mode (m : DelaySlotBranchMode) (c : Cpu) : Cpu :=
  set_modes (word_alignment_mode c) (coprocessor2_mode c) m c.

Definition register (index : Z) (c : Cpu) : option Z :=
  registers c !! Z.to_nat index.

Definition write_register {E} (index value : Z) (c : Cpu) : outcome E Cpu :=
  if index =? 0 then Ok c
  else let? l := write_array (registers c) index value in Ok (set_registers l c).

Definition set_register {E} (index value : Z) (c : Cpu) : outcome E (bool * Cpu) :=
  if Z.of_nat (length (registers c)) <=? index then Ok (false, c)
  else let? c := write_register index value c in Ok (true, c).

Definition set_pc (p : Z) (c : Cpu) : Cpu :=
  set_pipeline p (wrap 32 (p + 4)) None None c.

Definition merge_base {E} (register : Z) (c : Cpu) : outcome E Z :=
  match pending_load c with
  | Some (pending, value) =>
      if pending =? register then Ok value else read_array (registers c) register
  | None => read_array (registers c) register
  end.

(** [if let Some((register, value)) = write { self.write_register(register, value) }] *)
Definition commit_write {E} (w : option (Z * Z)) (c : Cpu) : outcome E Cpu :=
  match w with
  | Some (register, value) => write_register register value c
  | None => Ok c
  end.

Definition commit_old_load {E} (current_write : option (Z * Z)) (c : Cpu) : outcome E Cpu :=
  let? c := commit_write (pending_load c) (set_pending_load None c) in
  commit_write current_write c.

Definition update_interrupt_line (pending : bool) (c : Cpu) : Cpu :=
  set_cop0 (Cop0.set_cause
    (if pending then cause (cop0 c) .| CAUSE_IP2
     else cause (cop0 c) .& bnot 32 CAUSE_IP2) (cop0 c)) c.

Definition interrupt_enabled (c : Cpu) : bool :=
  has_bits (status (cop0 c)) 1 &&
  has_bits (status (cop0 c) .& cause (cop0 c)) 0xff00.

Definition enter_exception (e : Exception) (p : Z) (delay_branch_pc : option Z)
    (bad : option Z) (c : Cpu) : Cpu :=
  let x := cop0 c in
  let x := Cop0.set_cause
    ((cause x .& bnot 32 (0x7c .| CAUSE_BD)) .| shl 32 (code e) 2) x in
  let x := match delay_branch_pc with
    | Some b => Cop0.set_epc b (Cop0.set_cause (cause x .| CAUSE_BD) x)
    | None => Cop0.set_epc p x
    end in
  let x := match bad with
    | Some a => Cop0.set_bad_vaddr a x
    | None => x
    end in
  let x := Cop0.set_status
    ((status x .& bnot 32 0x3f) .| (shl 32 (status x) 2 .& 0x3f)) x in
  let vector :=
    if has_bits (status x) STATUS_BEV
    then bootstrap_exception_vector (profile c)
    else exception_vector (profile c) in
  set_pipeline vector (wrap 32 (vector + 4)) None None (set_cop0 x c).

End Cpu.

(** ** The result of one instruction *)

Record Execution := mkExecution {
  register_write : option (Z * Z);
  delayed_write : option (Z * Z);
  branch_target : option Z;
  is_branch : bool;
  ex_exception : option Exception;
  ex_bad_vaddr : option Z;
  cycles : Z;
}.

Definition default_execution : Execution :=
  mkExecution None None None false None None 1.

Module Execution.
Definition write (register value : Z) (x : Execution) : Execution :=
  mkExecution (Some (register, value)) (delayed_write x) (branch_target x)
    (is_branch x) (ex_exception x) (ex_bad_vaddr x) (cycles x).
Definition load (register value : Z) (x : Execution) : Execution :=
  mkExecution (register_write x) (Some (register, value)) (branch_target x)
    (is_branch x) (ex_exception x) (ex_bad_vaddr x) 2.
Definition branch (target : Z) (x : Execution) : Execution :=
  mkExecution (register_write x) (delayed_write x) (Some target) true
    (ex_exception x) (ex_bad_vaddr x) (cycles x).
Definition conditional_branch (condition : bool) (p immediate : Z)
    (x : Execution) : Execution :=
  mkExecution (register_write x) (delayed_write x)
    (if condition
     then Some (wrap 32 (wrap 32 (p + 4) + Z.shiftl immediate 2))
     else branch_target x)
    true (ex_exception x) (ex_bad_vaddr x) (cycles x).
Definition raise (e : Exception) (x : Execution) : Execution :=
  mkExecution (register_write x) (delayed_write x) (branch_target x)
    (is_branch x) (Some e) (ex_bad_vaddr x) (cycles x).
Definition address_exception (e : Exception) (address : Z) (x : Execution)
    : Execution :=
  mkExecution (register_write x) (delayed_write x) (branch_target x)
    (is_branch x) (Some e) (Some address) (cycles x).
Definition set_cycles (n : Z) (x : Execution) : Execution :=
  mkExecution (register_write x) (delayed_write x) (branch_target x)
    (is_branch x) (ex_exception x) (ex_bad_vaddr x) n.
End Execution.

Definition jump_target (p instruction : Z) : Z :=
  (wrap 32 (p + 4) .& 0xf0000000) .| shl 32 (instruction .& 0x03ffffff) 2.

(** [sign_extend] takes the signed 16-bit value. *)
Definition sign_extend (value : Z) : Z := of_i 32 value.
Definition to_i32 (value : Z) : Z := to_i 32 value.
Definition from_i32 (value : Z) : Z := of_i 32 value.

(** The pair ([hi], [lo]) after a signed division. *)
Definition signed_divide {E} (numerator denominator : Z) : outcome E (Z * Z) :=
  let numerator := to_i32 numerator in
  let denominator := to_i32 denominator in
  if denominator =? 0 then
    Ok (from_i32 numerator, if 0 <=? numerator then 2 ^ 32 - 1 else 1)
  else if (numerator =? - 2 ^ 31) && (denominator =? -1) then
    Ok (0, from_i32 (- 2 ^ 31))
  else
    let? (q, r) := div_i32 numerator denominator in
    Ok (from_i32 r, from_i32 q).

(** [signed_immediate] and the fields of an instruction word. *)
Definition opcode_of (instruction : Z) : Z := Z.shiftr instruction 26.
Definition rs_of (instruction : Z) : Z := Z.shiftr instruction 21 .& 31.
Definition rt_of (instruction : Z) : Z := Z.shiftr instruction 16 .& 31.
Definition rd_of (instruction : Z) : Z := Z.shiftr instruction 11 .& 31.
Definition shift_of (instruction : Z) : Z := Z.shiftr instruction 6 .& 31.
Definition function_of (instruction : Z) : Z := instruction .& 63.
Definition immediate_of (instruction : Z) : Z := wrap 16 instruction.
Definition signed_immediate_of (instruction : Z) : Z :=
  to_i 16 (immediate_of instruction).
