(* ===== verification/R3000Exec.v ===== *)
(** * Instruction execution of the R3000 interpreter

    [execute] of [crates/hw/shared/r3000/src/lib.rs], one definition per opcode
    group, and [step_inner] with the two public entry points.  A pair
    [(cpu, bus)] is threaded, so a failing access returns the state it left. *)

From S2P Require Import Prelude MachineInt R3000.
Import R3000.Cpu R3000.Execution.

(** Opcode 0x00. *)
Definition execute_special {E} (p rd shift function left right : Z) (c : Cpu)
    : outcome E (Cpu * Execution) :=
  let result := default_execution in
  let written (m : outcome E Z) : outcome E (Cpu * Execution) :=
    let? value := m in Ok (c, write rd value result) in
  match function with
  | 0x00 => written (shl_u32 right shift)
  | 0x02 => written (shr_32 right shift)
  | 0x03 => written (omapok from_i32 (shr_32 (to_i32 right) shift))
  | 0x04 => written (shl_u32 right (left .& 31))
  | 0x06 => written (shr_32 right (left .& 31))
  | 0x07 => written (omapok from_i32 (shr_32 (to_i32 right) (left .& 31)))
  | 0x08 => Ok (c, branch left result)
  | 0x09 => Ok (c, branch left (write rd (wrap 32 (p + 8)) result))
  | 0x0c => Ok (c, raise Syscall result)
  | 0x0d => Ok (c, raise Break result)
  | 0x10 => Ok (c, write rd (hi c) result)
  | 0x11 => Ok (set_hi_lo left (lo c) c, result)
  | 0x12 => Ok (c, write rd (lo c) result)
  | 0x13 => Ok (set_hi_lo (hi c) left c, result)
  | 0x18 =>
      let? product := expect (checked_s 64 (to_i32 left * to_i32 right)) in
      Ok (set_hi_lo (wrap 32 (Z.shiftr product 32)) (wrap 32 product) c,
          set_cycles 6 result)
  | 0x19 =>
      let? product := expect (checked_mul_u 64 left right) in
      Ok (set_hi_lo (wrap 32 (Z.shiftr product 32)) (wrap 32 product) c,
          set_cycles 6 result)
  | 0x1a =>
      let? (h, l) := signed_divide left right in
      Ok (set_hi_lo h l c, set_cycles 10 result)
  | 0x1b =>
      if right =? 0 then Ok (set_hi_lo left (2 ^ 32 - 1) c, set_cycles 10 result)
      else
        let? (q, r) := div_u32 left right in
        Ok (set_hi_lo r q c, set_cycles 10 result)
  | 0x20 =>
      Ok (c, match checked_s 32 (to_i32 left + to_i32 right) with
             | Some value => write rd (from_i32 value) result
             | None => raise Overflow result
             end)
  | 0x21 => Ok (c, write rd (wrap 32 (left + right)) result)
  | 0x22 =>
      Ok (c, match checked_s 32 (to_i32 left - to_i32 right) with
             | Some value => write rd (from_i32 value) result
             | None => raise Overflow result
             end)
  | 0x23 => Ok (c, write rd (wrap 32 (left - right)) result)
  | 0x24 => Ok (c, write rd (left .& right) result)
  | 0x25 => Ok (c, write rd (left .| right) result)
  | 0x26 => Ok (c, write rd (left .^ right) result)
  | 0x27 => Ok (c, write rd (bnot 32 (left .| right)) result)
  | 0x2a => Ok (c, write rd (if to_i32 left <? to_i32 right then 1 else 0) result)
  | 0x2b => Ok (c, write rd (if left <? right then 1 else 0) result)
  | _ => Ok (c, raise ReservedInstruction result)
  end.

(** Opcode 0x01: the branches selected by [rt]. *)
Definition execute_regimm (p rt left signed_immediate : Z) : Execution :=
  let link := write 31 (wrap 32 (p + 8)) default_execution in
  let taken (condition : bool) (x : Execution) :=
    conditional_branch condition p signed_immediate x in
  match rt with
  | 0x00 => taken (to_i32 left <? 0) default_execution
  | 0x01 => taken (0 <=? to_i32 left) default_execution
  | 0x10 => taken (to_i32 left <? 0) link
  | 0x11 => taken (0 <=? to_i32 left) link
  | _ => raise ReservedInstruction default_execution
  end.

(** Opcodes 0x02 to 0x0f: jumps, branches and immediate arithmetic. *)
Definition execute_immediate
    (opcode p instruction rt left right immediate signed_immediate : Z)
    : Execution :=
  let result := default_execution in
  match opcode with
  | 0x02 => branch (jump_target p instruction) result
  | 0x03 =>
      branch (jump_target p instruction) (write 31 (wrap 32 (p + 8)) result)
  | 0x04 => conditional_branch (left =? right) p signed_immediate result
  | 0x05 => conditional_branch (negb (left =? right)) p signed_immediate result
  | 0x06 => conditional_branch (to_i32 left <=? 0) p signed_immediate result
  | 0x07 => conditional_branch (0 <? to_i32 left) p signed_immediate result
  | 0x08 =>
      match checked_s 32 (to_i32 left + signed_immediate) with
      | Some value => write rt (from_i32 value) result
      | None => raise Overflow result
      end
  | 0x09 => write rt (wrap 32 (left + signed_immediate)) result
  | 0x0a => write rt (if to_i32 left <? signed_immediate then 1 else 0) result
  | 0x0b =>
      write rt (if left <? sign_extend signed_immediate then 1 else 0) result
  | 0x0c => write rt (left .& immediate) result
  | 0x0d => write rt (left .| immediate) result
  | 0x0e => write rt (left .^ immediate) result
  | 0x0f => write rt (shl 32 immediate 16) result
  | _ => raise ReservedInstruction result
  end.

Definition execute_cop0 {E} (rs rt rd function : Z) (c : Cpu)
    : outcome E (Cpu * Execution) :=
  let result := default_execution in
  match rs with
  | 0x00 =>
      match Cop0.read rd (cop0 c) with
      | Some value => Ok (c, load rt value result)
      | None => Ok (c, raise ReservedInstruction result)
      end
  | 0x04 =>
      let? value := read_array (registers c) rt in
      let (writable, x) := Cop0.write rd value (cop0 c) in
      Ok (set_cop0 x c, if writable then result else raise ReservedInstruction result)
  | 0x10 =>
      if function =? 0x10 then
        let s := status (cop0 c) in
        Ok (set_cop0 (Cop0.set_status
              ((s .& bnot 32 0x0f) .| (Z.shiftr s 2 .& 0x0f)) (cop0 c)) c, result)
      else Ok (c, raise ReservedInstruction result)
  | _ => Ok (c, raise ReservedInstruction result)
  end.

Definition execute_cop2 {E} (rs rt rd : Z) (c : Cpu) : outcome E (Cpu * Execution) :=
  let result := default_execution in
  match rs with
  | 0x00 => let? value := read_array (cop2_data c) rd in Ok (c, load rt value result)
  | 0x02 => let? value := read_array (cop2_control c) rd in Ok (c, load rt value result)
  | 0x04 =>
      let? value := read_array (registers c) rt in
      let? l := write_array (cop2_data c) rd value in
      Ok (set_cop2 l (cop2_control c) c, result)
  | 0x06 =>
      let? value := read_array (registers c) rt in
      let? l := write_array (cop2_control c) rd value in
      Ok (set_cop2 (cop2_data c) l c, result)
  | _ =>
      if (0x10 <=? rs) && (rs <=? 0x1f) then Ok (c, result)
      else Ok (c, raise ReservedInstruction result)
  end.

(** The values merged by the unaligned loads and stores. *)
Definition lwl_value (address base word : Z) : Z :=
  match address .& 3 with
  | 0 => (base .& 0x00ffffff) .| shl 32 word 24
  | 1 => (base .& 0x0000ffff) .| shl 32 word 16
  | 2 => (base .& 0x000000ff) .| shl 32 word 8
  | _ => word
  end.
Definition lwr_value (address base word : Z) : Z :=
  match address .& 3 with
  | 0 => word
  | 1 => (base .& 0xff000000) .| Z.shiftr word 8
  | 2 => (base .& 0xffff0000) .| Z.shiftr word 16
  | _ => (base .& 0xffffff00) .| Z.shiftr word 24
  end.
Definition swl_value (address old right : Z) : Z :=
  match address .& 3 with
  | 0 => (old .& 0xffffff00) .| Z.shiftr right 24
  | 1 => (old .& 0xffff0000) .| Z.shiftr right 16
  | 2 => (old .& 0xff000000) .| Z.shiftr right 8
  | _ => right
  end.
Definition swr_value (address old right : Z) : Z :=
  match address .& 3 with
  | 0 => right
  | 1 => (old .& 0x000000ff) .| shl 32 right 8
  | 2 => (old .& 0x0000ffff) .| shl 32 right 16
  | _ => (old .& 0x00ffffff) .| shl 32 right 24
  end.

(** [x.map_err(|source| CpuError { pc, address, access, source })] on a bus
    access run on the pair of states. *)
Definition on_bus {B A : Type} (p address : Z) (access : AccessType)
    (m : B -> outcome BusFault A * B) (s : Cpu * B)
    : outcome CpuError A * (Cpu * B) :=
  let (r, b) := m s.2 in (map_err (mkCpuError p address access) r, (s.1, b)).

Section with_bus.
Context {B : Type} `{Bus B}.

Notation M A := (Cpu * B -> outcome CpuError A * (Cpu * B))%type.

Definition load_u8 (p address : Z) : M Z :=
  on_bus p address Load (read_u8 address).
Definition load_u16 (p address : Z) : M Z :=
  on_bus p address Load (read_u16 address).
Definition load_u32 (p address : Z) : M Z :=
  on_bus p address Load (read_u32 address).
Definition store_u8 (p address value : Z) : M unit :=
  on_bus p address Store (write_u8 address value).
Definition store_u16 (p address value : Z) : M unit :=
  on_bus p address Store (write_u16 address value).
Definition store_u32 (p address value : Z) : M unit :=
  on_bus p address Store (write_u32 address value).

(** [address & 3 != 0 && word_alignment_mode == Architectural] *)
Definition traps_word (address : Z) (c : Cpu) : bool :=
  has_bits address 3 && bool_decide (word_alignment_mode c = WA_Architectural).

Definition align_word (address : Z) : Z := address .& bnot 32 3.

(** Opcodes 0x20 to 0x26: loads. *)
Definition execute_load (opcode p rt address : Z) : M Execution := fun s =>
  let result := default_execution in
  match opcode with
  | 0x20 =>
      let! (value, s) := load_u8 p address s in
      (Ok (load rt (sign_extend (to_i 8 value)) result), s)
  | 0x21 =>
      if has_bits address 1 then
        (Ok (address_exception AddressLoad address result), s)
      else
        let! (value, s) := load_u16 p address s in
        (Ok (load rt (sign_extend (to_i 16 value)) result), s)
  | 0x22 =>
      let! (word, s) := load_u32 p (align_word address) s in
      let! (base, s) := (merge_base rt s.1, s) in
      (Ok (load rt (lwl_value address base word) result), s)
  | 0x23 =>
      if traps_word address s.1 then
        (Ok (address_exception AddressLoad address result), s)
      else
        let! (value, s) := load_u32 p (align_word address) s in
        (Ok (load rt value result), s)
  | 0x24 =>
      let! (value, s) := load_u8 p address s in
      (Ok (load rt value result), s)
  | 0x25 =>
      if has_bits address 1 then
        (Ok (address_exception AddressLoad address result), s)
      else
        let! (value, s) := load_u16 p address s in
        (Ok (load rt value result), s)
  | 0x26 =>
      let! (word, s) := load_u32 p (align_word address) s in
      let! (base, s) := (merge_base rt s.1, s) in
      (Ok (load rt (lwr_value address base word) result), s)
  | _ => (Ok (raise ReservedInstruction result), s)
  end.

(** Opcodes 0x28 to 0x2e: stores. *)
Definition execute_store (opcode p address right : Z) : M Execution := fun s =>
  let result := default_execution in
  match opcode with
  | 0x28 =>
      let! (_, s) := store_u8 p address (wrap 8 right) s in
      (Ok (set_cycles 2 result), s)
  | 0x29 =>
      if has_bits address 1 then
        (Ok (address_exception AddressStore address result), s)
      else
        let! (_, s) := store_u16 p address (wrap 16 right) s in
        (Ok (set_cycles 2 result), s)
  | 0x2a =>
      let aligned := align_word address in
      let! (old, s) := load_u32 p aligned s in
      let! (_, s) := store_u32 p aligned (swl_value address old right) s in
      (Ok (set_cycles 2 result), s)
  | 0x2b =>
      if traps_word address s.1 then
        (Ok (address_exception AddressStore address result), s)
      else
        let! (_, s) := store_u32 p (align_word address) right s in
        (Ok (set_cycles 2 result), s)
  | 0x2e =>
      let aligned := align_word address in
      let! (old, s) := load_u32 p aligned s in
      let! (_, s) := store_u32 p aligned (swr_value address old right) s in
      (Ok (set_cycles 2 result), s)
  | _ => (Ok (raise ReservedInstruction result), s)
  end.

(** Opcodes 0x32 and 0x3a when the COP2 stub is present. *)
Definition execute_cop2_memory (opcode p rt address : Z) : M Execution := fun s =>
  let result := default_execution in
  if opcode =? 0x32 then
    if traps_word address s.1 then
      (Ok (address_exception AddressLoad address result), s)
    else
      let! (value, s) := load_u32 p (align_word address) s in
      let! (l, s) := (write_array (cop2_data s.1) rt value, s) in
      (Ok (set_cycles 2 result), (set_cop2 l (cop2_control s.1) s.1, s.2))
  else
    if traps_word address s.1 then
      (Ok (address_exception AddressStore address result), s)
    else
      let! (value, s) := (read_array (cop2_data s.1) rt, s) in
      let! (_, s) := store_u32 p (align_word address) value s in
      (Ok (set_cycles 2 result), s).

(** An instruction that does not use the bus. *)
Definition pure (r : outcome CpuError (Cpu * Execution)) (s : Cpu * B)
    : outcome CpuError Execution * (Cpu * B) :=
  let! (cx, s) := (r, s) in (Ok cx.2, (cx.1, s.2)).

(** The instruction with its two source registers read. *)
Definition execute_decoded (p instruction left right : Z) : M Execution := fun s =>
  let opcode := opcode_of instruction in
  let rs := rs_of instruction in
  let rt := rt_of instruction in
  let rd := rd_of instruction in
  let shift := shift_of instruction in
  let function := function_of instruction in
  let immediate := immediate_of instruction in
  let signed_immediate := signed_immediate_of instruction in
  let address := wrap 32 (left + signed_immediate) in
  let stub := bool_decide (coprocessor2_mode s.1 = Stub) in
  let raises e := pure (Ok (s.1, raise e default_execution)) s in
  match opcode with
  | 0x00 => pure (execute_special p rd shift function left right s.1) s
  | 0x01 => pure (Ok (s.1, execute_regimm p rt left signed_immediate)) s
  | 0x02 | 0x03 | 0x04 | 0x05 | 0x06 | 0x07 | 0x08 | 0x09
  | 0x0a | 0x0b | 0x0c | 0x0d | 0x0e | 0x0f =>
      pure (Ok (s.1, execute_immediate opcode p instruction rt left right
                       immediate signed_immediate)) s
  | 0x10 => pure (execute_cop0 rs rt rd function s.1) s
  | 0x12 =>
      if stub then pure (execute_cop2 rs rt rd s.1) s else raises CoprocessorUnusable
  | 0x11 | 0x13 => raises CoprocessorUnusable
  | 0x20 | 0x21 | 0x22 | 0x23 | 0x24 | 0x25 | 0x26 =>
      execute_load opcode p rt address s
  | 0x28 | 0x29 | 0x2a | 0x2b | 0x2e => execute_store opcode p address right s
  | 0x32 | 0x3a =>
      if stub then execute_cop2_memory opcode p rt address s else raises CoprocessorUnusable
  | 0x30 | 0x31 | 0x33 | 0x38 | 0x39 | 0x3b => raises CoprocessorUnusable
  | _ => raises ReservedInstruction
  end.

Definition execute (p instruction : Z) : M Execution := fun s =>
  let! (left, s) := (read_array (registers s.1) (rs_of instruction), s) in
  let! (right, s) := (read_array (registers s.1) (rt_of instruction), s) in
  execute_decoded p instruction left right s.

(** The policy of the load-delay slot for the load an instruction completes. *)
Definition settle_load {E} (w : option (Z * Z)) (c : Cpu) : outcome E Cpu :=
  match load_delay_mode c with
  | LD_Architectural => Ok (set_pending_load w c)
  | Interlocked => let? c := commit_write w c in Ok (set_pending_load None c)
  end.

(** The pipeline update after an instruction that raised no exception. *)
Definition retire {E} (current_pc : Z) (x : Execution) (c : Cpu) : outcome E Cpu :=
  let slot := delay_slot c in
  let? c := commit_old_load (register_write x) c in
  let? c := settle_load (delayed_write x) c in
  let suppress :=
    is_branch x && from_option branch_taken false slot &&
    bool_decide (delay_slot_branch_mode c = SuppressWhenOuterTaken) in
  let target := if suppress then None else branch_target x in
  let branches := is_branch x && negb suppress in
  let sequential := next_pc c in
  let c := set_pipeline sequential
    (default (wrap 32 (sequential + 4)) target)
    (if branches then
       Some (mkDelaySlot current_pc (bool_decide (is_Some target)))
     else None)
    (pending_load c) c in
  let? l := write_array (registers c) 0 0 in
  Ok (set_registers l c).

(** Committing the load in flight and entering an exception vector. *)
Definition trap {E} (e : Exception) (current_pc : Z) (bad : option Z) (c : Cpu)
    : outcome E Cpu :=
  let branch := branch_pc <$> delay_slot c in
  let? c := commit_old_load None c in
  Ok (enter_exception e current_pc branch bad c).

(** An outcome with the processor it leaves. *)
Definition finish_step (o : StepOutcome) (r : outcome CpuError Cpu) (s : Cpu * B)
    : outcome CpuError StepOutcome * (Cpu * B) :=
  let! (c, s) := (r, s) in (Ok o, (c, s.2)).

Definition step_inner (sample_external_interrupt : bool) (s : Cpu * B)
    : outcome CpuError StepOutcome * (Cpu * B) :=
  let c := if sample_external_interrupt
    then update_interrupt_line (interrupt_pending s.2) s.1 else s.1 in
  let b := s.2 in
  let current_pc := pc c in
  if sample_external_interrupt && interrupt_enabled c then
    finish_step (mkStepOutcome current_pc None 1 (Exception_event Interrupt))
      (trap Interrupt current_pc None c) (c, b)
  else if has_bits current_pc 3 then
    finish_step (mkStepOutcome current_pc None 1 (Exception_event AddressLoad))
      (trap AddressLoad current_pc (Some current_pc) c) (c, b)
  else
    let! (instruction, s) :=
      on_bus current_pc current_pc Instruction_access (read_u32 current_pc)
        (c, b) in
    let! (x, s) := execute current_pc instruction s in
    match ex_exception x with
    | Some e =>
        finish_step (mkStepOutcome current_pc (Some instruction) (cycles x)
               (Exception_event e))
          (trap e current_pc (ex_bad_vaddr x) s.1) s
    | None =>
        finish_step (mkStepOutcome current_pc (Some instruction) (cycles x) Instruction)
          (retire current_pc x s.1) s
    end.

Definition step : Cpu * B -> outcome CpuError StepOutcome * (Cpu * B) :=
  step_inner true.
Definition step_without_external_interrupts
  : Cpu * B -> outcome CpuError StepOutcome * (Cpu * B) := step_inner false.

End with_bus.
