(* ===== verification/R3000Wf.v ===== *)
(** * The state invariant of the R3000 interpreter

    [wf] is the type invariant of [Cpu] that Rust's array and integer types
    carry together with the hard-wired register zero; every entry point keeps
    it, on the paths that fail as well, over any bus that keeps its laws. *)

From S2P Require Import Prelude MachineInt R3000 R3000Exec.
Import R3000.Cpu R3000.Execution.

Notation u32 := (in_u 32).

Definition wf_array (l : list Z) : Prop := length l = 32%nat /\ Forall u32 l.

Definition wf_write (w : option (Z * Z)) : Prop :=
  from_option (fun rv => 0 <= rv.1 < 32 /\ u32 rv.2) True w.

Record wf_cop0 (x : Cop0) : Prop := {
  wf_bad_vaddr : u32 (bad_vaddr x);
  wf_status : u32 (status x);
  wf_cause : u32 (cause x);
  wf_epc : u32 (epc x);
  wf_processor_id : u32 (processor_id x);
}.

Record wf_profile (p : ResetProfile) : Prop := {
  wf_rp_pc : u32 (rp_pc p);
  wf_vector : u32 (exception_vector p);
  wf_bootstrap : u32 (bootstrap_exception_vector p);
  wf_rp_status : u32 (rp_status p);
  wf_rp_id : u32 (rp_processor_id p);
}.

Record wf (c : Cpu) : Prop := {
  wf_registers : wf_array (registers c);
  wf_zero : registers c !! 0%nat = Some 0;
  wf_hi : u32 (hi c);
  wf_lo : u32 (lo c);
  wf_pc : u32 (pc c);
  wf_next_pc : u32 (next_pc c);
  wf_slot : from_option (fun d => u32 (branch_pc d)) True (delay_slot c);
  wf_pending : wf_write (pending_load c);
  wf_cop0_of : wf_cop0 (cop0 c);
  wf_cop2_data : wf_array (cop2_data c);
  wf_cop2_control : wf_array (cop2_control c);
  wf_profile_of : wf_profile (profile c);
}.

(** What the interpreter relies on: from a good bus, an access does not panic,
    leaves a good bus, and a value it returns fits the access width. *)
Definition access_ok {B} (good : B -> Prop) (w : Z)
    (r : outcome BusFault Z * B) : Prop :=
  good r.2 /\ no_panic r.1 /\ forall v, r.1 = Ok v -> in_u w v.

Definition write_ok {B} (good : B -> Prop) (r : outcome BusFault unit * B)
    : Prop := good r.2 /\ no_panic r.1.

Class BusLaws (B : Type) `{Bus B} (good : B -> Prop) := {
  read_u8_ok : forall a b, u32 a -> good b -> access_ok good 8 (read_u8 a b);
  read_u16_ok : forall a b, u32 a -> good b -> access_ok good 16 (read_u16 a b);
  read_u32_ok : forall a b, u32 a -> good b -> access_ok good 32 (read_u32 a b);
  write_u8_ok : forall a v b, u32 a -> in_u 8 v -> good b ->
    write_ok good (write_u8 a v b);
  write_u16_ok : forall a v b, u32 a -> in_u 16 v -> good b ->
    write_ok good (write_u16 a v b);
  write_u32_ok : forall a v b, u32 a -> u32 v -> good b ->
    write_ok good (write_u32 a v b);
}.

Record wf_execution (x : Execution) : Prop := {
  wf_register_write : wf_write (register_write x);
  wf_delayed_write : wf_write (delayed_write x);
  wf_target : from_option u32 True (branch_target x);
  wf_bad : from_option u32 True (ex_bad_vaddr x);
  wf_cycles : cycles x ∈ [1; 2; 6; 10];
  wf_branch : is_branch x = false -> branch_target x = None;
  wf_raised : ex_exception x <> Some Interrupt;
}.

(** ** Arrays and registers

    Within the bounds that [wf] and the decoder guarantee, the operations that may panic
    return a value.  [at_index], [put_register] and the updates built from it are those
    values, with which the later theorems are stated. *)

Definition at_index (l : list Z) (index : Z) : Z := default 0 (l !! Z.to_nat index).

Lemma read_array_ok {E} l i : 0 <= i < Z.of_nat (length l) -> read_array l i = (Ok (at_index l i) : outcome E Z).
Proof.
  intros Hi. unfold read_array, at_index.
  destruct (lookup_lt_is_Some_2 l (Z.to_nat i) ltac:(lia)) as [x ->]. done.
Qed.

Lemma read_array_at {E} l i v : read_array l i = (Ok v : outcome E Z) -> at_index l i = v.
Proof. unfold read_array, at_index. destruct (l !! _); [by intros [= ->]|done]. Qed.

Lemma write_array_ok {E} l i v :
  i < Z.of_nat (length l) -> write_array l i v = (Ok (<[Z.to_nat i := v]> l) : outcome E (list Z)).
Proof. intros Hi. unfold write_array. by destruct (Z.ltb_spec i (Z.of_nat (length l))); [|lia]. Qed.

Lemma write_array_at {E} l i v l' :
  write_array l i v = (Ok l' : outcome E (list Z)) -> l' = <[Z.to_nat i := v]> l.
Proof. unfold write_array. destruct (_ <? _); [by intros [= <-]|done]. Qed.

Lemma shl_u32_ok {E} x n : n < 32 -> shl_u32 x n = (Ok (shl 32 x n) : outcome E Z).
Proof. intros Hn. unfold shl_u32. by destruct (Z.ltb_spec n 32); [|lia]. Qed.

Lemma shr_32_ok {E} x n : n < 32 -> shr_32 x n = (Ok (Z.shiftr x n) : outcome E Z).
Proof. intros Hn. unfold shr_32. by destruct (Z.ltb_spec n 32); [|lia]. Qed.

Definition put_register (index value : Z) (c : Cpu) : Cpu :=
  if index =? 0 then c else set_registers (<[Z.to_nat index := value]> (registers c)) c.

Definition put_write (w : option (Z * Z)) (c : Cpu) : Cpu :=
  from_option (fun rv => put_register rv.1 rv.2 c) c w.

Definition put_old_load (w : option (Z * Z)) (c : Cpu) : Cpu :=
  put_write w (put_write (pending_load c) (set_pending_load None c)).

Definition merge_value (register : Z) (c : Cpu) : Z :=
  match pending_load c with
  | Some (pending, value) => if pending =? register then value else at_index (registers c) register
  | None => at_index (registers c) register
  end.

Lemma at_index_u32 l i : Forall u32 l -> u32 (at_index l i).
Proof.
  intros Hl. unfold at_index. destruct (l !! Z.to_nat i) eqn:E.
  - simpl. by eapply Forall_lookup_1.
  - by split.
Qed.

Lemma wf_array_insert l i v : wf_array l -> u32 v -> wf_array (<[i := v]> l).
Proof.
  intros [L F] Hv. split; [by rewrite length_insert|]. by apply Forall_insert.
Qed.

#[export] Hint Resolve at_index_u32 : u_range.

Lemma put_register_wf i v c : wf c -> u32 v -> 0 <= i -> wf (put_register i v c).
Proof.
  intros [] Hv Hi. unfold put_register.
  destruct (Z.eqb_spec i 0) as [->|Hne]; [by constructor|].
  constructor; try done; cbn.
  - by apply wf_array_insert.
  - rewrite list_lookup_insert_ne by lia. done.
Qed.

Lemma put_write_wf w c : wf c -> wf_write w -> wf (put_write w c).
Proof.
  destruct w as [[r v]|]; [|done]. intros Hc [Hr Hv]; cbn in *.
  apply put_register_wf; [done..|lia].
Qed.

Lemma set_pending_wf l c : wf c -> wf_write l -> wf (set_pending_load l c).
Proof. intros [] Hl. by constructor. Qed.

Lemma put_old_load_wf w c : wf c -> wf_write w -> wf (put_old_load w c).
Proof.
  intros Hc Hw. apply put_write_wf; [|done]. apply put_write_wf.
  - by apply set_pending_wf.
  - apply Hc.
Qed.

Lemma write_register_ok {E} i v c :
  length (registers c) = 32%nat -> i < 32 -> write_register i v c = (Ok (put_register i v c) : outcome E Cpu).
Proof.
  intros Hl Hi. unfold write_register, put_register. destruct (i =? 0); [done|].
  by rewrite write_array_ok by lia.
Qed.

Lemma commit_write_ok {E} w c :
  length (registers c) = 32%nat -> wf_write w -> commit_write w c = (Ok (put_write w c) : outcome E Cpu).
Proof. intros Hl Hw. destruct w as [[r v]|]; [|done]. destruct Hw as [Hr _]. apply write_register_ok; [done|apply Hr]. Qed.

Lemma length_put_write w c : length (registers (put_write w c)) = length (registers c).
Proof.
  destruct w as [[r v]|]; [|done]. cbn. unfold put_register.
  destruct (r =? 0); [done|]. apply length_insert.
Qed.

Lemma commit_old_load_ok {E} w c :
  wf c -> wf_write w -> commit_old_load w c = (Ok (put_old_load w c) : outcome E Cpu).
Proof.
  intros Hc Hw. pose proof (proj1 (wf_registers _ Hc)) as Hl. unfold commit_old_load.
  rewrite commit_write_ok by (done || apply Hc). cbn [obind].
  by rewrite commit_write_ok by (done || by rewrite length_put_write).
Qed.

Lemma merge_base_ok {E} r c :
  wf c -> 0 <= r < 32 -> merge_base r c = (Ok (merge_value r c) : outcome E Z).
Proof.
  intros Hc Hr. pose proof (proj1 (wf_registers _ Hc)) as Hl. unfold merge_base, merge_value.
  destruct (pending_load c) as [[p v]|]; [destruct (p =? r); [done|]|]; apply read_array_ok; lia.
Qed.

Lemma merge_value_u32 r c : wf c -> u32 (merge_value r c).
Proof.
  intros Hc. unfold merge_value. pose proof (wf_pending _ Hc) as Hp.
  destruct (pending_load c) as [[p v]|].
  - destruct Hp as [_ Hv]. case_goal; [done|]. apply at_index_u32, Hc.
  - apply at_index_u32, Hc.
Qed.

Lemma set_cop0_wf x c : wf c -> wf_cop0 x -> wf (set_cop0 x c).
Proof. intros [] Hx. by constructor. Qed.

Lemma set_hi_lo_wf h l c : wf c -> u32 h -> u32 l -> wf (set_hi_lo h l c).
Proof. intros [] Hh Hl. by constructor. Qed.

Lemma set_cop2_wf d k c :
  wf c -> wf_array d -> wf_array k -> wf (set_cop2 d k c).
Proof. intros [] Hd Hk. by constructor. Qed.

Lemma set_pipeline_wf p n d l c :
  wf c -> u32 p -> u32 n ->
  from_option (fun d => u32 (branch_pc d)) True d -> wf_write l ->
  wf (set_pipeline p n d l c).
Proof. intros [] Hp Hn Hd Hl. by constructor. Qed.

Lemma set_modes_wf w p2 d c : wf c -> wf (set_modes w p2 d c).
Proof. intros []. by constructor. Qed.

(** ** Decoder *)

Lemma field_range x n : 0 <= x -> 0 <= n -> 0 <= Z.shiftr x n .& 31 < 32.
Proof.
  intros Hx Hn. change 32 with (2 ^ 5). change (in_u 5 (Z.shiftr x n .& 31)).
  apply in_u_land_r; [by apply Z.shiftr_nonneg|]. by split.
Qed.

Lemma land31_range x : 0 <= x -> 0 <= x .& 31 < 32.
Proof. intros. by apply (field_range x 0). Qed.

Lemma shift_range x n : 0 <= n -> u32 x -> u32 (Z.shiftr x n).
Proof. auto with u_range. Qed.

Lemma div_u32_range x y : u32 x -> u32 y -> y <> 0 -> u32 (x / y) /\ u32 (x mod y).
Proof.
  intros [Hx Hx'] [Hy Hy'] Hne. pose proof (Z.mod_pos_bound x y ltac:(lia)).
  split; split; try lia.
  - apply Z.div_pos; lia.
  - apply Z.div_lt_upper_bound; nia.
Qed.

(** Neither division panics: the two excluded quotients are handled before it. *)
Lemma signed_divide_ok {E} x y :
  succeeds (fun hl => u32 hl.1 /\ u32 hl.2) (signed_divide x y : outcome E (Z * Z)).
Proof.
  unfold signed_divide, div_i32, from_i32.
  destruct (to_i32 y =? 0); [|destruct (_ && _)].
  all: apply succeeds_ok; cbn [fst snd]; split; auto with u_range.
  all: try case_goal; by split.
Qed.

Lemma div_u32_ok {E} x y :
  u32 x -> u32 y -> y <> 0 ->
  div_u32 x y = (Ok (x / y, x mod y) : outcome E (Z * Z)) /\ u32 (x / y) /\ u32 (x mod y).
Proof.
  intros Hx Hy Hne. split; [|by apply div_u32_range].
  unfold div_u32. by rewrite (proj2 (Z.eqb_neq y 0)).
Qed.

(** The two 64-bit products fit. *)
Lemma product_s64 x y : u32 x -> u32 y -> checked_s 64 (to_i32 x * to_i32 y) = Some (to_i32 x * to_i32 y).
Proof.
  intros Hx Hy. pose proof (to_i_range 32 x ltac:(lia) Hx) as Bx. pose proof (to_i_range 32 y ltac:(lia) Hy) as By.
  apply checked_s_Some. split; [done|]. unfold in_s in *. unfold to_i32.
  change (2 ^ (32 - 1)) with (2 ^ 31) in *. change (2 ^ (64 - 1)) with (2 ^ 32 * 2 ^ 31). nia.
Qed.

Lemma product_u64 x y : u32 x -> u32 y -> checked_mul_u 64 x y = Some (x * y).
Proof.
  unfold in_u. intros Hx Hy. apply checked_mul_u_Some. split; [done|].
  change (2 ^ 64) with (2 ^ 32 * 2 ^ 32). nia.
Qed.

(** ** Instruction results *)

Lemma default_execution_wf : wf_execution default_execution.
Proof. by repeat constructor. Qed.

Lemma ex_write_wf r v x :
  wf_execution x -> 0 <= r < 32 -> u32 v -> wf_execution (write r v x).
Proof. intros []. by constructor. Qed.

Lemma ex_load_wf r v x :
  wf_execution x -> 0 <= r < 32 -> u32 v -> wf_execution (load r v x).
Proof. intros []. constructor; try done. cbn. set_solver. Qed.

Lemma ex_branch_wf t x : wf_execution x -> u32 t -> wf_execution (branch t x).
Proof. intros []. by constructor. Qed.

Lemma ex_conditional_wf b p i x :
  wf_execution x -> wf_execution (conditional_branch b p i x).
Proof.
  intros []. constructor; try done. cbn. destruct b; cbn; auto with u_range.
Qed.

Lemma ex_raise_wf e x :
  wf_execution x -> e <> Interrupt -> wf_execution (raise e x).
Proof. intros []. constructor; try done. by intros [= ->]. Qed.

Lemma ex_address_wf e a x :
  wf_execution x -> u32 a -> e <> Interrupt ->
  wf_execution (address_exception e a x).
Proof. intros []. constructor; try done. by intros [= ->]. Qed.

Lemma ex_cycles_wf n x :
  wf_execution x -> n ∈ [1; 2; 6; 10] -> wf_execution (set_cycles n x).
Proof. intros []. by constructor. Qed.

Create HintDb r3000 discriminated.
#[export] Hint Resolve default_execution_wf ex_write_wf ex_load_wf ex_branch_wf
  ex_conditional_wf ex_raise_wf ex_address_wf ex_cycles_wf put_register_wf
  put_write_wf set_pending_wf put_old_load_wf set_cop0_wf set_hi_lo_wf
  set_cop2_wf wf_array_insert merge_value_u32 shift_range field_range
  land31_range : r3000.
#[export] Hint Resolve wf_registers wf_hi wf_lo wf_pc wf_next_pc wf_cop0_of
  wf_cop2_data wf_cop2_control wf_status wf_cause wf_epc wf_bad_vaddr
  wf_processor_id : r3000.
#[export] Hint Extern 1 (_ ∈ [1; 2; 6; 10]) => set_solver : r3000.
#[export] Hint Extern 2 (0 <= _ < 32) => lia : r3000.
#[export] Hint Extern 1 (_ <> Interrupt) => discriminate : r3000.
#[export] Hint Extern 1 (in_u 32 (from_i32 _)) => apply in_u_of_i : u_range.
#[export] Hint Extern 1 (in_u 32 (sign_extend _)) => apply in_u_of_i : u_range.

Ltac r3k := eauto with r3000 u_range.

(** An instruction group that returns, with a well-formed processor and result. *)
Definition wf_result {E} (m : outcome E (Cpu * Execution)) : Prop :=
  succeeds (fun r => wf r.1 /\ wf_execution r.2) m.

Lemma execute_special_wf {E} p rd shift function left right c :
  wf c -> 0 <= rd < 32 -> 0 <= shift < 32 -> u32 left -> u32 right ->
  wf_result (execute_special p rd shift function left right c : outcome E _).
Proof.
  intros Hc Hrd Hs Hl Hr.
  pose proof (land31_range left ltac:(apply Hl)) as Hl31.
  unfold execute_special, wf_result. cbv zeta.
  rewrite !shl_u32_ok, !shr_32_ok, product_s64, product_u64 by (done || lia).
  destruct (signed_divide_ok (E := E) left right) as ([h l] & -> & Hh & Hlo). cbn [fst snd] in *.
  assert (wf_result (if right =? 0
    then Ok (set_hi_lo left (2 ^ 32 - 1) c, set_cycles 10 default_execution)
    else let? (q, r) := div_u32 left right in
         Ok (set_hi_lo r q c, set_cycles 10 default_execution) : outcome E _)) as Hdiv.
  { unfold wf_result. destruct (Z.eqb_spec right 0).
    - apply succeeds_ok. split; [|r3k]. apply set_hi_lo_wf; [done..|by split].
    - destruct (div_u32_ok (E := E) left right) as (-> & Hq & Hm); [done..|].
      apply succeeds_ok. split; [|r3k]. by apply set_hi_lo_wf. }
  unfold wf_result in Hdiv. cbn [obind omapok expect].
  generalize dependent (if right =? 0
    then Ok (set_hi_lo left (2 ^ 32 - 1) c, set_cycles 10 default_execution)
    else let? (q, r) := div_u32 left right in
         Ok (set_hi_lo r q c, set_cycles 10 default_execution) : outcome E _).
  intros divided Hdiv.
  repeat case_goal; first [exact Hdiv | apply succeeds_ok; cbn [fst snd] in *; split; r3k].
Qed.

Lemma execute_regimm_wf p rt left imm : wf_execution (execute_regimm p rt left imm).
Proof. unfold execute_regimm. repeat case_goal; r3k. Qed.

Lemma jump_target_u32 p i : u32 (jump_target p i).
Proof. unfold jump_target. r3k. Qed.

Lemma execute_immediate_wf o p i rt left right imm simm :
  0 <= rt < 32 -> u32 left -> u32 imm ->
  wf_execution (execute_immediate o p i rt left right imm simm).
Proof.
  intros Hrt Hl Hi. pose proof (jump_target_u32 p i) as Hj.
  unfold execute_immediate. repeat case_goal; r3k.
Qed.

Lemma cop0_read_u32 i x v : wf_cop0 x -> Cop0.read i x = Some v -> u32 v.
Proof.
  intros [] H. unfold Cop0.read in H. repeat case_hyp H; naive_solver.
Qed.

Lemma cop0_write_wf i v x : wf_cop0 x -> u32 v -> wf_cop0 (Cop0.write i v x).2.
Proof.
  intros [] Hv. unfold Cop0.write.
  repeat case_goal; cbn [snd]; constructor; cbn; auto with u_range.
Qed.

Lemma execute_cop0_wf {E} rs rt rd f c :
  wf c -> 0 <= rt < 32 -> wf_result (execute_cop0 rs rt rd f c : outcome E _).
Proof.
  intros Hc Hrt. pose proof (proj1 (wf_registers _ Hc)) as Hlen.
  assert (u32 (at_index (registers c) rt)) as Hv by apply at_index_u32, Hc.
  pose proof (cop0_write_wf rd _ _ (wf_cop0_of _ Hc) Hv) as Hw.
  pose proof (wf_cop0_of _ Hc) as [].
  unfold execute_cop0, wf_result. rewrite read_array_ok by lia. cbn [obind].
  destruct (Cop0.read rd (cop0 c)) as [v|] eqn:Er;
    [assert (u32 v) by (eapply cop0_read_u32; [apply Hc|done])|];
    destruct (Cop0.write rd _ (cop0 c)) as [[] x];
    repeat case_goal; apply succeeds_ok; cbn [fst snd] in *; split; r3k.
  all: apply set_cop0_wf; [done|].
  all: constructor; cbn; auto with u_range.
Qed.

Lemma execute_cop2_wf {E} rs rt rd c :
  wf c -> 0 <= rt < 32 -> 0 <= rd < 32 -> wf_result (execute_cop2 rs rt rd c : outcome E _).
Proof.
  intros Hc Hrt Hrd. pose proof (proj1 (wf_registers _ Hc)) as Hlen.
  pose proof (proj1 (wf_cop2_data _ Hc)) as Hd. pose proof (proj1 (wf_cop2_control _ Hc)) as Hk.
  assert (u32 (at_index (registers c) rt)) by apply at_index_u32, Hc.
  assert (u32 (at_index (cop2_data c) rd)) by apply at_index_u32, Hc.
  assert (u32 (at_index (cop2_control c) rd)) by apply at_index_u32, Hc.
  unfold execute_cop2, wf_result. rewrite !read_array_ok by lia.
  cbn [obind]. rewrite !write_array_ok by lia. cbn [obind].
  repeat case_goal; apply succeeds_ok; cbn [fst snd]; split; r3k.
Qed.

Lemma unaligned_values_u32 a x y :
  u32 x -> u32 y ->
  u32 (lwl_value a x y) /\ u32 (lwr_value a x y) /\
  u32 (swl_value a x y) /\ u32 (swr_value a x y).
Proof.
  intros Hx Hy. unfold lwl_value, lwr_value, swl_value, swr_value.
  generalize (a .& 3). intros k.
  split_and!; repeat case_goal; auto 6 with u_range.
Qed.

Lemma align_word_u32 a : u32 a -> u32 (align_word a).
Proof. intros. unfold align_word. auto with u_range. Qed.
#[export] Hint Resolve align_word_u32 : r3000.

(** ** Bus accesses *)

Section with_laws.
Context {B : Type} `{Bus B} (good : B -> Prop) `{!BusLaws B good}.

Definition wf_state (s : Cpu * B) : Prop := wf s.1 /\ good s.2.

(** A threaded operation: a well-formed state on every path, no panic, and a
    result that satisfies [Q]. *)
Definition runs {A} (Q : A -> Prop) (r : outcome CpuError A * (Cpu * B)) : Prop :=
  wf_state r.2 /\ no_panic r.1 /\ forall a, r.1 = Ok a -> Q a.

Lemma runs_ok {A} (Q : A -> Prop) a s : wf_state s -> Q a -> runs Q (Ok a, s).
Proof. intros Hs Ha. split_and!; [done..|]. by intros a' [= <-]. Qed.

Lemma on_bus_runs w p a k m s :
  wf_state s -> access_ok good w (m s.2) -> runs (in_u w) (on_bus p a k m s).
Proof.
  intros [Hc Hb] (Hg & Hn & Hv). unfold on_bus.
  destruct (m s.2) as [r b]; cbn in *.
  split_and!; [done| |]; destruct r; try done; naive_solver.
Qed.

Lemma on_bus_write_runs p a k m s :
  wf_state s -> write_ok good (m s.2) -> runs (fun _ => True) (on_bus p a k m s).
Proof.
  intros [Hc Hb] [Hg Hn]. unfold on_bus. destruct (m s.2) as [r b]; cbn in *.
  split_and!; [done| |done]. by destruct r.
Qed.

Lemma runs_bind {A C} (P : A -> Prop) (Q : C -> Prop)
    (r : outcome CpuError A * (Cpu * B)) k :
  runs P r -> (forall a s, P a -> wf_state s -> runs Q (k a s)) ->
  runs Q (let! (a, s) := r in k a s).
Proof.
  destruct r as [[a|e|] s]; intros (Hs & Hn & Ha) Hk; cbn in *.
  - auto.
  - split_and!; [done..|]. by intros ? [=].
  - done.
Qed.

Lemma runs_load_u8 p a s : wf_state s -> u32 a -> runs (in_u 8) (load_u8 p a s).
Proof. intros Hs Ha. apply on_bus_runs; [done|]. apply read_u8_ok; [done|apply Hs]. Qed.
Lemma runs_load_u16 p a s :
  wf_state s -> u32 a -> runs (in_u 16) (load_u16 p a s).
Proof. intros Hs Ha. apply on_bus_runs; [done|]. apply read_u16_ok; [done|apply Hs]. Qed.
Lemma runs_load_u32 p a s : wf_state s -> u32 a -> runs u32 (load_u32 p a s).
Proof. intros Hs Ha. apply on_bus_runs; [done|]. apply read_u32_ok; [done|apply Hs]. Qed.
Lemma runs_store_u8 p a v s :
  wf_state s -> u32 a -> in_u 8 v -> runs (fun _ => True) (store_u8 p a v s).
Proof.
  intros Hs Ha Hv. apply on_bus_write_runs; [done|].
  apply write_u8_ok; [done..|apply Hs].
Qed.
Lemma runs_store_u16 p a v s :
  wf_state s -> u32 a -> in_u 16 v -> runs (fun _ => True) (store_u16 p a v s).
Proof.
  intros Hs Ha Hv. apply on_bus_write_runs; [done|].
  apply write_u16_ok; [done..|apply Hs].
Qed.
Lemma runs_store_u32 p a v s :
  wf_state s -> u32 a -> u32 v -> runs (fun _ => True) (store_u32 p a v s).
Proof.
  intros Hs Ha Hv. apply on_bus_write_runs; [done|].
  apply write_u32_ok; [done..|apply Hs].
Qed.

#[local] Hint Resolve runs_load_u8 runs_load_u16 runs_load_u32 runs_store_u8
  runs_store_u16 runs_store_u32 : r3000.

(** Execute the next access, or return. *)
Ltac run_step :=
  match goal with
  | |- runs _ (match load_u8 _ _ _ with _ => _ end) => eapply runs_bind
  | |- runs _ (match load_u16 _ _ _ with _ => _ end) => eapply runs_bind
  | |- runs _ (match load_u32 _ _ _ with _ => _ end) => eapply runs_bind
  | Hs : wf_state ?s |- runs _ (match merge_base _ (fst ?s) with _ => _ end) =>
      rewrite merge_base_ok by (done || apply Hs); cbv iota beta
  | Hs : wf_state ?s |- runs _ (match write_array (cop2_data (fst ?s)) _ _ with _ => _ end) =>
      rewrite write_array_ok by (rewrite (proj1 (wf_cop2_data _ (proj1 Hs))); lia); cbv iota beta
  | |- runs _ (match store_u8 _ _ _ _ with _ => _ end) => eapply runs_bind
  | |- runs _ (match store_u16 _ _ _ _ with _ => _ end) => eapply runs_bind
  | |- runs _ (match store_u32 _ _ _ _ with _ => _ end) => eapply runs_bind
  | |- runs _ (Ok _, _) => apply runs_ok
  | |- forall _, _ => intros
  end.

Lemma in_u_8_32 v : in_u 8 v -> u32 v.
Proof. by apply in_u_mono. Qed.
Lemma in_u_16_32 v : in_u 16 v -> u32 v.
Proof. by apply in_u_mono. Qed.
#[local] Hint Resolve in_u_8_32 in_u_16_32 : r3000.

Lemma wf_state_wf s : wf_state s -> wf s.1.
Proof. by intros []. Qed.
#[local] Hint Resolve wf_state_wf : r3000.

Lemma merge_u32 rt a s v :
  wf_state s -> u32 v ->
  u32 (lwl_value a (merge_value rt s.1) v) /\ u32 (lwr_value a (merge_value rt s.1) v).
Proof.
  intros Hs Hv. pose proof (merge_value_u32 rt s.1 (wf_state_wf _ Hs)) as Hm.
  by pose proof (unaligned_values_u32 a _ _ Hm Hv) as (? & ? & _).
Qed.

Lemma swap_u32 a x y :
  u32 x -> u32 y -> u32 (swl_value a x y) /\ u32 (swr_value a x y).
Proof. intros Hx Hy. by pose proof (unaligned_values_u32 a _ _ Hx Hy) as (_ & _ & ?). Qed.

#[local] Hint Extern 1 (u32 (lwl_value _ _ _)) => apply merge_u32 : r3000.
#[local] Hint Extern 1 (u32 (lwr_value _ _ _)) => apply merge_u32 : r3000.
#[local] Hint Extern 1 (u32 (swl_value _ _ _)) => apply swap_u32 : r3000.
#[local] Hint Extern 1 (u32 (swr_value _ _ _)) => apply swap_u32 : r3000.

Lemma execute_load_runs o p rt a s :
  wf_state s -> 0 <= rt < 32 -> u32 a ->
  runs wf_execution (execute_load o p rt a s).
Proof.
  intros Hs Hrt Ha. unfold execute_load.
  repeat first [run_step | case_goal]; r3k.
Qed.

Lemma execute_store_runs o p a right s :
  wf_state s -> u32 a -> u32 right ->
  runs wf_execution (execute_store o p a right s).
Proof.
  intros Hs Ha Hr. unfold execute_store. cbv zeta.
  repeat first [run_step | case_goal]; r3k.
Qed.

Lemma execute_cop2_memory_runs o p rt a s :
  wf_state s -> 0 <= rt < 32 -> u32 a ->
  runs wf_execution (execute_cop2_memory o p rt a s).
Proof.
  intros Hs Hrt Ha. unfold execute_cop2_memory. cbv zeta.
  assert (u32 (at_index (cop2_data s.1) rt)) by apply at_index_u32, Hs.
  rewrite read_array_ok by (rewrite (proj1 (wf_cop2_data _ (proj1 Hs))); lia).
  repeat first [run_step | case_goal]; r3k.
  all: match goal with Hs : wf_state ?s |- wf_state (_, ?s.2) =>
         destruct Hs as [Hcs Hgs] end.
  split; [|done]. apply set_cop2_wf; cbn [fst]; r3k.
Qed.

Lemma pure_runs r s : wf_result r -> good s.2 -> runs wf_execution (pure r s).
Proof. intros ([c x] & -> & Hc & Hx) Hb. by apply runs_ok. Qed.

Lemma execute_decoded_runs p i left right s :
  wf_state s -> u32 i -> u32 left -> u32 right ->
  runs wf_execution (execute_decoded p i left right s).
Proof.
  intros Hs Hi Hl Hr. destruct Hs as [Hc Hb].
  pose proof (field_range i 16 ltac:(apply Hi) ltac:(lia)) as Hrt.
  pose proof (field_range i 11 ltac:(apply Hi) ltac:(lia)) as Hrd.
  pose proof (field_range i 6 ltac:(apply Hi) ltac:(lia)) as Hsh.
  fold (rt_of i) in Hrt. fold (rd_of i) in Hrd. fold (shift_of i) in Hsh.
  assert (u32 (immediate_of i)) as Him by (apply in_u_16_32, in_u_wrap; lia).
  set (address := wrap 32 (left + signed_immediate_of i)).
  assert (u32 address) as Ha by (apply in_u_wrap; lia).
  assert (wf_state s) as Hs by done.
  assert (forall x, wf_execution x -> runs wf_execution (pure (Ok (s.1, x)) s)) as Hpure.
  { intros x Hx. apply pure_runs; [|done]. by apply succeeds_ok. }
  pose proof (fun e He => Hpure _ (ex_raise_wf e _ default_execution_wf He)) as Hraise.
  pose proof (fun o => execute_load_runs o p _ _ _ Hs Hrt Ha) as Hload.
  pose proof (fun o => execute_store_runs o p _ _ _ Hs Ha Hr) as Hstore.
  pose proof (fun o => execute_cop2_memory_runs o p _ _ _ Hs Hrt Ha) as Hmem.
  pose proof (pure_runs _ s (execute_special_wf p _ _ (function_of i) _ _ _
    Hc Hrd Hsh Hl Hr) Hb) as Hspecial.
  pose proof (Hpure _ (execute_regimm_wf p (rt_of i) left (signed_immediate_of i))) as Hregimm.
  pose proof (fun o => Hpure _ (execute_immediate_wf o p i
    _ _ right _ (signed_immediate_of i) Hrt Hl Him)) as Himm.
  pose proof (pure_runs _ s (execute_cop0_wf (rs_of i) _ (rd_of i)
    (function_of i) _ Hc Hrt) Hb) as Hcop0.
  pose proof (pure_runs _ s (execute_cop2_wf (rs_of i) _ (rd_of i) _ Hc Hrt Hrd) Hb)
    as Hcop2.
  unfold execute_decoded. cbv zeta. fold address. clearbody address.
  generalize dependent (opcode_of i). intros o.
  destruct (bool_decide _); repeat case_goal; first [by apply Hraise | auto].
Qed.

(** The source registers are read within the array. *)
Lemma execute_reads p i s :
  wf s.1 -> u32 i ->
  execute p i s = execute_decoded p i (at_index (registers s.1) (rs_of i))
    (at_index (registers s.1) (rt_of i)) s.
Proof.
  intros Hc Hi. pose proof (proj1 (wf_registers _ Hc)) as Hl.
  pose proof (field_range i 21 ltac:(apply Hi) ltac:(lia)) as Hrs.
  pose proof (field_range i 16 ltac:(apply Hi) ltac:(lia)) as Hrt.
  fold (rs_of i) in Hrs. fold (rt_of i) in Hrt.
  unfold execute. by rewrite !read_array_ok by lia.
Qed.

Theorem execute_runs p i s :
  wf_state s -> u32 i -> runs wf_execution (execute p i s).
Proof.
  intros Hs Hi. rewrite execute_reads by (done || apply Hs).
  apply execute_decoded_runs; [done..|apply at_index_u32, Hs|apply at_index_u32, Hs].
Qed.

End with_laws.

(** ** Composing bus accesses

    The rules by which a machine's bus is shown to keep the laws of the processor's [Bus]:
    how reads and writes of a good bus are sequenced, mapped and refused, and the widths
    of the halves and bytes a bus selects. *)

Lemma map_err_no_panic {E F A} (f : E -> F) (m : outcome E A) : no_panic m -> no_panic (map_err f m).
Proof. by destruct m. Qed.

Lemma map_err_ok {E F A} (f : E -> F) (m : outcome E A) v : map_err f m = Ok v -> m = Ok v.
Proof. destruct m; [by intros [= ->]|done..]. Qed.

Section rules.
Context {B : Type} {good : B -> Prop}.

Notation reads w r := (access_ok good w r).
Notation writes r := (R3000Wf.write_ok good r).

Lemma read_bind w w' (r : outcome BusFault Z * B) (k : Z -> B -> outcome BusFault Z * B) :
  reads w r -> (forall v b, in_u w v -> good b -> reads w' (k v b)) ->
  reads w' (let! (v, b) := r in k v b).
Proof. destruct r as [[v|e|] b]; intros (Hb & Hn & Hv) Hk; [apply Hk; auto|done|done]. Qed.

Lemma read_write_bind w (r : outcome BusFault Z * B) (k : Z -> B -> outcome BusFault unit * B) :
  reads w r -> (forall v b, in_u w v -> good b -> writes (k v b)) ->
  writes (let! (v, b) := r in k v b).
Proof. destruct r as [[v|e|] b]; intros (Hb & Hn & Hv) Hk; [apply Hk; auto|done|done]. Qed.

Lemma write_bind (r : outcome BusFault unit * B) (k : B -> outcome BusFault unit * B) :
  writes r -> (forall b, good b -> writes (k b)) -> writes (let! (_u, b) := r in k b).
Proof. destruct r as [[v|e|] b]; intros (Hb & Hn) Hk; [apply Hk; auto|done|done]. Qed.

Lemma reads_mono w w' r : w <= w' -> reads w r -> reads w' r.
Proof.
  intros Hw (Hb & Hn & Hv). split_and!; [done..|]. intros v Ev. eapply in_u_mono; [done|auto].
Qed.

(** A device read that changes nothing, its error turned into a fault. *)
Lemma pure_read {E} w (f : E -> BusFault) (m : outcome E Z) b :
  good b -> (no_panic m /\ forall v, m = Ok v -> in_u w v) -> reads w (map_err f m, b).
Proof.
  intros Hb [Hn Hv]. destruct m; cbn; try done. split_and!; [done..|]. intros v [= <-]. auto.
Qed.

Lemma map_read {E} w w' (f : E -> BusFault) (g : Z -> Z) (m : outcome E Z) b :
  good b -> (no_panic m /\ forall v, m = Ok v -> in_u w v) ->
  (forall v, in_u w v -> in_u w' (g v)) -> reads w' (omapok g (map_err f m), b).
Proof.
  intros Hb [Hn Hv] Hf. split; [done|]. destruct m; cbn; try done.
  split; [done|]. intros v [= <-]. auto.
Qed.

Lemma fault_bind {E A} w (f : E -> BusFault) (m : outcome E Z) b
    (k : Z -> outcome BusFault A * B) (P : outcome BusFault A * B -> Prop) :
  (forall r, no_panic r -> (forall v, r <> Ok v) -> P (r, b)) ->
  no_panic m /\ (forall v, m = Ok v -> in_u w v) -> (forall v, in_u w v -> P (k v)) ->
  P (match map_err f m with
     | Ok v => k v
     | Err e => (Err e, b)
     | Panic => (Panic, b)
     end).
Proof. intros Hp [Hn Hv] Hk. destruct m; cbn; [apply Hk; auto|by apply Hp|done]. Qed.

(** A device write, with the state it leaves. *)
Lemma device_write {E} (f : E -> BusFault) (m : outcome E unit) b :
  good b -> no_panic m -> writes (map_err f m, b).
Proof. intros Hb Hm. by destruct m. Qed.
End rules.

(** ** Halves and bytes *)

Lemma u8_bounds x : in_u 8 x <-> 0 <= x <= 255.
Proof. unfold in_u. change (2 ^ 8) with 256. lia. Qed.

Lemma land_u16 v : in_u 16 (v .& 0xffff).
Proof.
  change 0xffff with (Z.ones 16). rewrite Z.land_ones by lia. by apply Z.mod_pos_bound.
Qed.

Lemma land_u8 v : in_u 8 (v .& 0xff).
Proof.
  change 0xff with (Z.ones 8). rewrite Z.land_ones by lia. by apply Z.mod_pos_bound.
Qed.

Lemma u32_or a b : in_u 32 a -> in_u 32 b -> in_u 32 (a .| b).
Proof. apply in_u_lor. lia. Qed.

Lemma u32_lit x : 0 <= x < 2 ^ 32 -> in_u 32 x.
Proof. done. Qed.

Ltac lit := apply u32_lit; vm_compute; split; [discriminate|reflexivity].

(** A word with its low or high half replaced. *)
Lemma merge_low_u32 old v m : in_u 32 old -> in_u 32 m -> in_u 16 v -> in_u 32 ((old .& m) .| v).
Proof.
  intros Ho Hm Hv. apply u32_or; [apply in_u_land_l; [by apply Hm|done]|]. eapply in_u_mono; [|done]. lia.
Qed.

Lemma merge_high_u32 old v m : in_u 32 old -> in_u 32 m -> in_u 32 ((old .& m) .| shl 32 v 16).
Proof.
  intros Ho Hm. apply u32_or; [apply in_u_land_l; [by apply Hm|done]|by apply in_u_shl].
Qed.
