(* ===== verification/R3000Facts.v ===== *)
(** * What an R3000 step does

    The theorems on [step_inner]: the state invariant on every path, the
    timing of the load-delay and branch slots, exception entry and return, the
    unaligned loads and stores, division, and the sampling of interrupts.
    [FlatMemory] is a concrete bus, byte-addressed RAM over the whole address
    space, which shows that the bus laws can be met. *)

From S2P Require Import Prelude MachineInt R3000 R3000Exec R3000Wf.
Import R3000.Cpu R3000.Execution.

Lemma set_epc_wf v x : wf_cop0 x -> u32 v -> wf_cop0 (Cop0.set_epc v x).
Proof. intros [] Hv. by constructor. Qed.
Lemma set_cause_wf v x : wf_cop0 x -> u32 v -> wf_cop0 (Cop0.set_cause v x).
Proof. intros [] Hv. by constructor. Qed.
Lemma set_status_wf v x : wf_cop0 x -> u32 v -> wf_cop0 (Cop0.set_status v x).
Proof. intros [] Hv. by constructor. Qed.
Lemma set_bad_vaddr_wf v x : wf_cop0 x -> u32 v -> wf_cop0 (Cop0.set_bad_vaddr v x).
Proof. intros [] Hv. by constructor. Qed.

Lemma cause_ip2_u32 v b :
  u32 v -> u32 (if b : bool then v .| CAUSE_IP2 else v .& bnot 32 CAUSE_IP2).
Proof.
  intros Hv. assert (u32 CAUSE_IP2) by (by split).
  destruct b; auto with u_range.
Qed.

Lemma update_interrupt_line_wf b c : wf c -> wf (update_interrupt_line b c).
Proof.
  intros Hc. apply set_cop0_wf; [done|]. apply set_cause_wf; [apply Hc|].
  apply cause_ip2_u32, Hc.
Qed.

Lemma enter_exception_wf e p d bad c :
  wf c -> u32 p -> from_option u32 True d -> from_option u32 True bad ->
  wf (enter_exception e p d bad c).
Proof.
  intros Hc Hp Hd Hb. pose proof (wf_profile_of _ Hc) as [].
  assert (u32 CAUSE_BD) by (by split).
  assert (u32 (0x7c .| CAUSE_BD)) by (by split).
  unfold enter_exception. cbv zeta. apply set_pipeline_wf; [|by case_goal| |done..].
  2: by apply in_u_wrap.
  apply set_cop0_wf; [done|].
  pose proof (wf_cop0_of _ Hc) as Hx.
  assert (u32 ((cause (cop0 c) .& bnot 32 (0x7c .| CAUSE_BD)) .| shl 32 (code e) 2))
    by (destruct Hx; auto with u_range).
  pose proof (set_cause_wf _ _ Hx ltac:(done)) as Hx1.
  set (x1 := Cop0.set_cause _ (cop0 c)) in *. clearbody x1.
  match goal with |- wf_cop0 (Cop0.set_status _ ?x) => assert (wf_cop0 x) as Hx2 end.
  { destruct d, bad; cbn in *;
      auto 7 using set_bad_vaddr_wf, set_epc_wf, set_cause_wf, in_u_lor, wf_cause with lia. }
  apply set_status_wf; [done|].
  destruct Hx2. auto with u_range.
Qed.

(** The processor after a trap, a settled load and a retired instruction, when nothing
    panics: the values of [trap], [settle_load] and [retire] in a well-formed state. *)
Definition trapped (e : Exception) (p : Z) (bad : option Z) (c : Cpu) : Cpu :=
  enter_exception e p (branch_pc <$> delay_slot c) bad (put_old_load None c).

Definition settled (w : option (Z * Z)) (c : Cpu) : Cpu :=
  match load_delay_mode c with
  | LD_Architectural => set_pending_load w c
  | Interlocked => set_pending_load None (put_write w c)
  end.

Definition retired (p : Z) (x : Execution) (c : Cpu) : Cpu :=
  let c1 := settled (delayed_write x) (put_old_load (register_write x) c) in
  let suppress := is_branch x && from_option branch_taken false (delay_slot c) &&
    bool_decide (delay_slot_branch_mode c1 = SuppressWhenOuterTaken) in
  let target := if suppress then None else branch_target x in
  let c2 := set_pipeline (next_pc c1) (default (wrap 32 (next_pc c1 + 4)) target)
    (if is_branch x && negb suppress
     then Some (mkDelaySlot p (bool_decide (is_Some target))) else None) (pending_load c1) c1 in
  set_registers (<[0%nat := 0]> (registers c2)) c2.

Lemma trap_ok {E : Type} e p bad c : wf c -> trap e p bad c = (Ok (trapped e p bad c) : outcome E Cpu).
Proof. intros Hc. unfold trap. by rewrite commit_old_load_ok. Qed.

Lemma settle_load_ok {E} w c : wf c -> wf_write w -> settle_load w c = (Ok (settled w c) : outcome E Cpu).
Proof.
  intros Hc Hw. unfold settle_load, settled. destruct (load_delay_mode c); [done|].
  by rewrite commit_write_ok by (done || apply Hc).
Qed.

Lemma trapped_wf e p bad c :
  wf c -> u32 p -> from_option u32 True bad -> wf (trapped e p bad c).
Proof.
  intros Hc Hp Hb. apply enter_exception_wf; [by apply put_old_load_wf|done| |done].
  pose proof (wf_slot _ Hc) as Hs. by destruct (delay_slot c).
Qed.

Lemma settled_wf w c : wf c -> wf_write w -> wf (settled w c).
Proof.
  intros Hc Hw. unfold settled.
  case_goal; apply set_pending_wf; r3k; done.
Qed.

Lemma retire_ok {E} p x c :
  wf c -> wf_execution x -> retire p x c = (Ok (retired p x c) : outcome E Cpu).
Proof.
  intros Hc []. assert (wf (put_old_load (register_write x) c)) as Hc1 by by apply put_old_load_wf.
  unfold retire. rewrite commit_old_load_ok by done. cbn [obind].
  rewrite settle_load_ok by done. cbn [obind].
  pose proof (settled_wf (delayed_write x) _ Hc1 ltac:(done)) as Hc2.
  cbn [registers set_pipeline]. rewrite write_array_ok; [done|].
  rewrite (proj1 (wf_registers _ Hc2)). lia.
Qed.

Lemma retired_wf p x c : wf c -> u32 p -> wf_execution x -> wf (retired p x c).
Proof.
  intros Hc Hp []. unfold retired. cbv zeta.
  set (c2 := settled _ _).
  assert (wf c2) as Hc2 by (apply settled_wf; [by apply put_old_load_wf|done]). clearbody c2.
  match goal with |- wf (set_registers _ ?c) => assert (wf c) as Hc3 end.
  { apply set_pipeline_wf; [done|apply Hc2| | |apply Hc2].
    - case_goal; [|destruct (branch_target x)]; cbn; auto with u_range.
    - by destruct (is_branch x && _). }
  match goal with |- wf (set_registers _ ?c) => generalize dependent c end.
  intros c3 []. constructor; try done; cbn.
  - apply wf_array_insert; [done|by split].
  - apply list_lookup_insert_eq. destruct wf_registers as [-> _]. lia.
Qed.

(** ** The invariant *)

Section with_laws.
Context {B : Type} `{Bus B} (good : B -> Prop) `{!BusLaws B good}.

Definition outcome_ok (c : Cpu) (o : StepOutcome) : Prop :=
  so_pc o = pc c /\ from_option u32 True (so_instruction o) /\
  so_cycles o ∈ [1; 2; 6; 10].

(** A step in a well-formed state, with nothing left that can panic. *)
Lemma step_inner_eq (sample : bool) c b :
  wf c -> good b ->
  let c1 := if sample then update_interrupt_line (interrupt_pending b) c else c in
  step_inner sample (c, b) =
  if sample && interrupt_enabled c1 then
    (Ok (mkStepOutcome (pc c) None 1 (Exception_event Interrupt)),
     (trapped Interrupt (pc c) None c1, b))
  else if has_bits (pc c) 3 then
    (Ok (mkStepOutcome (pc c) None 1 (Exception_event AddressLoad)),
     (trapped AddressLoad (pc c) (Some (pc c)) c1, b))
  else
    let! (i, s) := on_bus (pc c) (pc c) Instruction_access (read_u32 (pc c)) (c1, b) in
    let! (x, s) := execute (pc c) i s in
    match ex_exception x with
    | Some e => (Ok (mkStepOutcome (pc c) (Some i) (cycles x) (Exception_event e)),
                 (trapped e (pc c) (ex_bad_vaddr x) s.1, s.2))
    | None => (Ok (mkStepOutcome (pc c) (Some i) (cycles x) Instruction),
               (retired (pc c) x s.1, s.2))
    end.
Proof.
  intros Hc Hb c1. unfold step_inner, finish_step. cbn [fst snd]. fold c1.
  assert (wf c1) as Hc1
    by (unfold c1; destruct sample; [by apply update_interrupt_line_wf|done]).
  assert (pc c1 = pc c) as Ep by (unfold c1; by destruct sample). clearbody c1.
  rewrite Ep. rewrite !trap_ok by done.
  destruct (sample && _); [done|]. destruct (has_bits _ 3); [done|].
  pose proof (on_bus_runs good 32 (pc c) (pc c) Instruction_access (read_u32 (pc c)) (c1, b)
    (conj Hc1 Hb)) as Hf.
  assert (u32 (pc c)) as Hp by (rewrite <- Ep; apply Hc1).
  specialize (Hf (read_u32_ok _ _ Hp Hb)).
  destruct (on_bus _ _ _ _ _) as [[i|e|] s1]; [|done..].
  destruct Hf as (Hs1 & _ & Hi). specialize (Hi i eq_refl).
  pose proof (execute_runs good (pc c) i s1 Hs1 Hi) as (Hs2 & _ & Hx).
  destruct (execute (pc c) i s1) as [[x|e|] s2]; [|done..]. specialize (Hx x eq_refl).
  cbn [fst snd] in *. destruct (ex_exception x); [by rewrite trap_ok by apply Hs2|].
  by rewrite retire_ok by (done || apply Hs2).
Qed.

Lemma step_runs sample c b :
  wf c -> good b -> runs good (outcome_ok c) (step_inner sample (c, b)).
Proof.
  intros Hc Hb. rewrite step_inner_eq by done. unfold outcome_ok.
  set (c1 := if sample then _ else c).
  assert (wf c1) as Hc1
    by (unfold c1; case_goal; [by apply update_interrupt_line_wf|done]). clearbody c1.
  pose proof (wf_pc _ Hc) as Hp.
  case_goal; [|case_goal]; [apply runs_ok..|].
  1, 3: split; [by apply trapped_wf|done].
  1, 2: split_and!; cbn; [done..|set_solver].
  eapply runs_bind.
  { apply on_bus_runs; [done|]. by apply read_u32_ok. }
  intros i s1 Hi Hs1. eapply runs_bind; [by apply execute_runs|].
  intros x s2 Hx [Hc2 Hb2].
  assert (wf_execution x) as [] by done.
  case_goal; apply runs_ok; try done.
  - split; [by apply trapped_wf|done].
  - split; [by apply retired_wf|done].
Qed.

(** C1: one step, over any lawful bus and on every path, an architectural trap
    and a host-visible bus failure included, does not panic (every register and
    write-back access is inside its array, every division has a divisor that is not
    zero and a quotient that fits, every shift distance is below 32), keeps the machine
    state well formed (32 registers of 32 bits, register zero hard-wired, a
    load in flight that names a register, 32-bit program counters and
    coprocessor state) and charges one of the nominal cycle counts. *)
Theorem step_preserves_wf sample c b :
  wf c -> good b ->
  let (r, s) := step_inner sample (c, b) in
  wf s.1 /\ good s.2 /\ no_panic r /\ forall o, r = Ok o -> outcome_ok c o.
Proof.
  intros Hc Hb. pose proof (step_runs sample c b Hc Hb) as Hr.
  destruct (step_inner sample (c, b)) as [r s].
  destruct Hr as ([Hc' Hb'] & Hn & Ho). by split_and!.
Qed.

End with_laws.

(** ** A flat memory *)

Record FlatMemory := mkFlat { bytes : gmap Z Z; line : bool }.

Module FlatMemory.
Definition byte (a : Z) (m : FlatMemory) : Z :=
  default 0 (bytes m !! wrap 32 a).
Definition put (a v : Z) (m : FlatMemory) : FlatMemory :=
  mkFlat (<[wrap 32 a := wrap 8 v]> (bytes m)) (line m).
Definition half (a : Z) (m : FlatMemory) : Z :=
  byte a m .| shl 16 (byte (a + 1) m) 8.
Definition word (a : Z) (m : FlatMemory) : Z :=
  half a m .| shl 32 (half (a + 2) m) 16.
Definition put_half (a v : Z) (m : FlatMemory) : FlatMemory :=
  put (a + 1) (Z.shiftr v 8) (put a v m).
Definition put_word (a v : Z) (m : FlatMemory) : FlatMemory :=
  put_half (a + 2) (Z.shiftr v 16) (put_half a v m).

#[global] Instance bus : Bus FlatMemory := {
  read_u8 a m := (Ok (byte a m), m);
  read_u16 a m := (Ok (half a m), m);
  read_u32 a m := (Ok (word a m), m);
  write_u8 a v m := (Ok tt, put a v m);
  write_u16 a v m := (Ok tt, put_half a v m);
  write_u32 a v m := (Ok tt, put_word a v m);
  interrupt_pending := line;
}.

Definition good (m : FlatMemory) : Prop := map_Forall (fun _ v => in_u 8 v) (bytes m).

Lemma byte_u8 a m : good m -> in_u 8 (byte a m).
Proof.
  intros Hm. unfold byte. destruct (bytes m !! wrap 32 a) eqn:E; [|by split].
  by apply Hm in E.
Qed.

Lemma put_good a v m : good m -> good (put a v m).
Proof. intros Hm. apply map_Forall_insert_2; [by apply in_u_wrap|done]. Qed.

Lemma half_u16 a m : good m -> in_u 16 (half a m).
Proof.
  intros Hm. apply in_u_lor; [done| |by apply in_u_shl].
  apply (in_u_mono 8); [done|by apply byte_u8].
Qed.

Lemma word_u32 a m : good m -> in_u 32 (word a m).
Proof.
  intros Hm. apply in_u_lor; [done| |by apply in_u_shl].
  apply (in_u_mono 16); [done|by apply half_u16].
Qed.

#[global] Instance laws : BusLaws FlatMemory good.
Proof.
  constructor.
  - intros a m _ Hm. split_and!; [done..|]. intros v [= <-]. by apply byte_u8.
  - intros a m _ Hm. split_and!; [done..|]. intros v [= <-]. by apply half_u16.
  - intros a m _ Hm. split_and!; [done..|]. intros v [= <-]. by apply word_u32.
  - intros a v m _ _ Hm. split; [|done]. by apply put_good.
  - intros a v m _ _ Hm. split; [|done]. by do 2 apply put_good.
  - intros a v m _ _ Hm. split; [|done]. by do 4 apply put_good.
Qed.

(** Memory holding the words [ws] from address [a]. *)
Fixpoint of_words (a : Z) (ws : list Z) : FlatMemory :=
  match ws with
  | [] => mkFlat ∅ false
  | w :: ws => put_word a w (of_words (a + 4) ws)
  end.

Lemma of_words_good a ws : good (of_words a ws).
Proof.
  revert a; induction ws as [|w ws IH]; intros a; cbn.
  - apply map_Forall_empty.
  - by do 4 apply put_good.
Qed.
End FlatMemory.

(** The reset state over a small program at the reset vector. *)
Definition test_profile : ResetProfile := mkResetProfile 0x1000 0x80 0x180 0 2.

Lemma cpu_new_wf p m : wf_profile p -> wf (with_load_delay_mode p m).
Proof.
  intros Hp. assert (wf_array (replicate 32 0)) as Ha.
  { split; [done|]. apply Forall_replicate. by split. }
  destruct Hp. constructor; 
    first [done | by apply in_u_wrap | by split | by repeat constructor].
Qed.

Lemma test_profile_wf : wf_profile test_profile.
Proof. by repeat constructor. Qed.

Lemma step_preserves_wf_witness :
  let m := FlatMemory.of_words 0x1000 [0x8c221000] in
  let (r, s) := step_inner true (new test_profile, m) in
  wf s.1 /\ FlatMemory.good s.2 /\ no_panic r /\
  forall o, r = Ok o -> outcome_ok (new test_profile) o.
Proof.
  apply (step_preserves_wf FlatMemory.good true (new test_profile)).
  - apply cpu_new_wf, test_profile_wf.
  - apply FlatMemory.of_words_good.
Defined.
