(* ===== verification/R3000Pipeline.v ===== *)
(** * Pipeline behaviour of the R3000 interpreter

    The load-delay slot, the branch slot, exception entry and return, and the
    sampling of interrupts, as theorems on whole steps. *)

From S2P Require Import Prelude MachineInt R3000 R3000Exec R3000Wf R3000Facts.
Import R3000.Cpu R3000.Execution.

(** ** The load in flight is invisible to the instruction in its slot *)

Definition with_pending {R B : Type} (l : option (Z * Z)) (x : R * (Cpu * B))
    : R * (Cpu * B) := (x.1, (set_pending_load l x.2.1, x.2.2)).

Definition reads_pending (instruction : Z) : bool :=
  (opcode_of instruction =? 0x22) || (opcode_of instruction =? 0x26).

(** Apply a change of the processor to the result of a group. *)
Definition on_cpu {E} (f : Cpu -> Cpu) : outcome E (Cpu * Execution) -> outcome E (Cpu * Execution) :=
  omapok (fun r => (f r.1, r.2)).

Ltac group_cases :=
  repeat first [progress case_goal | match goal with
    | |- context [obind ?m _] => let v := fresh in set (v := m); destruct v; cbn [obind] end].

Lemma execute_special_pending {E} p rd sh f x y l c :
  (execute_special p rd sh f x y (set_pending_load l c) : outcome E _) =
  on_cpu (set_pending_load l) (execute_special p rd sh f x y c).
Proof. unfold execute_special. cbv zeta. by group_cases. Qed.

Lemma execute_cop0_pending {E} rs rt rd f l c :
  (execute_cop0 rs rt rd f (set_pending_load l c) : outcome E _) =
  on_cpu (set_pending_load l) (execute_cop0 rs rt rd f c).
Proof.
  unfold execute_cop0. cbn [cop0 registers set_pending_load set_pipeline].
  destruct (Cop0.read rd (cop0 c)), (read_array (E := E) (registers c) rt) as [v|e|]; cbn [obind];
    try destruct (Cop0.write rd v (cop0 c)); by repeat case_goal.
Qed.

Lemma execute_cop2_pending {E} rs rt rd l c :
  (execute_cop2 rs rt rd (set_pending_load l c) : outcome E _) =
  on_cpu (set_pending_load l) (execute_cop2 rs rt rd c).
Proof.
  unfold execute_cop2. cbn [cop2_data cop2_control registers set_pending_load set_pipeline]. by group_cases.
Qed.

Section with_bus.
Context {B : Type} `{Bus B}.

Definition pend (l : option (Z * Z)) (s : Cpu * B) : Cpu * B :=
  (set_pending_load l s.1, s.2).

Lemma on_bus_pending {A} p a k (m : B -> outcome BusFault A * B) l s :
  on_bus p a k m (pend l s) = with_pending l (on_bus p a k m s).
Proof. unfold on_bus, pend. cbn [fst snd]. by destruct (m s.2). Qed.

Lemma bind_pending {A C} (m : Cpu * B -> outcome CpuError A * (Cpu * B))
    (k : A -> Cpu * B -> outcome CpuError C * (Cpu * B)) l s :
  m (pend l s) = with_pending l (m s) ->
  (forall a s, k a (pend l s) = with_pending l (k a s)) ->
  (let! (a, s) := m (pend l s) in k a s) =
  with_pending l (let! (a, s) := m s in k a s).
Proof. intros -> Hk. destruct (m s) as [[a|e|] s']; cbn; [apply Hk|done..]. Qed.

(** Match the two sides access by access. *)
Ltac pend_step :=
  lazymatch goal with
  | |- forall _, _ => intros
  | |- (Ok _, _) = with_pending _ (Ok _, _) => exact eq_refl
  | |- on_bus _ _ _ _ (pend _ _) = _ => apply on_bus_pending
  | |- (match on_bus ?p ?a ?k ?m (pend ?l ?s) with _ => _ end) = _ =>
      apply (bind_pending (on_bus p a k m))
  | |- (if ?b then _ else _) = _ => destruct b
  | |- (match write_array (cop2_data (pend ?l ?s).1) ?i ?v with _ => _ end) = _ =>
      change (cop2_data (pend l s).1) with (cop2_data s.1);
      destruct (write_array (E := CpuError) (cop2_data s.1) i v); try exact eq_refl
  end.

Lemma execute_load_pending o p rt a l s :
  o <> 0x22 -> o <> 0x26 ->
  execute_load o p rt a (pend l s) = with_pending l (execute_load o p rt a s).
Proof.
  intros H1 H2. unfold execute_load.
  change (traps_word a (pend l s).1) with (traps_word a s.1).
  unfold load_u8, load_u16, load_u32.
  destruct o as [|o|o]; try exact eq_refl.
  repeat (destruct o as [o|o|]; try exact eq_refl); try done; repeat pend_step.
Qed.

Lemma execute_store_pending o p a right l s :
  execute_store o p a right (pend l s) = with_pending l (execute_store o p a right s).
Proof.
  unfold execute_store. cbv zeta.
  change (traps_word a (pend l s).1) with (traps_word a s.1).
  unfold load_u32, store_u8, store_u16, store_u32.
  destruct o as [|o|o]; try exact eq_refl.
  repeat (destruct o as [o|o|]; try exact eq_refl); repeat pend_step.
Qed.

Lemma execute_cop2_memory_pending o p rt a l s :
  execute_cop2_memory o p rt a (pend l s) =
  with_pending l (execute_cop2_memory o p rt a s).
Proof.
  unfold execute_cop2_memory. cbv zeta.
  change (traps_word a (pend l s).1) with (traps_word a s.1).
  change (cop2_data (pend l s).1) with (cop2_data s.1).
  unfold load_u32, store_u32. destruct (read_array (E := CpuError) (cop2_data s.1) rt); repeat pend_step.
  all: destruct (traps_word a s.1); repeat pend_step; exact eq_refl.
Qed.

Lemma pure_pending l r r' s :
  r' = on_cpu (set_pending_load l) r -> pure r' (pend l s) = with_pending l (pure r s).
Proof. intros ->. by destruct r as [[c x]|e|]. Qed.

Lemma execute_decoded_pending p i left right l s :
  reads_pending i = false ->
  execute_decoded p i left right (pend l s) = with_pending l (execute_decoded p i left right s).
Proof.
  unfold reads_pending. intros H'. zbool.
  unfold execute_decoded. cbv zeta.
  change (coprocessor2_mode (pend l s).1) with (coprocessor2_mode s.1).
  rewrite execute_store_pending, execute_cop2_memory_pending.
  destruct (opcode_of i) as [|o|o].
  - apply pure_pending, execute_special_pending.
  - rewrite execute_load_pending by done.
    repeat (destruct o as [o|o|]; try exact eq_refl).
    1, 2: by destruct (bool_decide _).
    + destruct (bool_decide _); [|exact eq_refl].
      apply pure_pending, execute_cop2_pending.
    + apply pure_pending, execute_cop0_pending.
  - exact eq_refl.
Qed.

Lemma execute_pending p i l s :
  reads_pending i = false ->
  execute p i (pend l s) = with_pending l (execute p i s).
Proof.
  intros Hi. unfold execute. change (registers (pend l s).1) with (registers s.1).
  destruct (read_array (registers s.1) (rs_of i)); [|done..].
  change (registers (pend l s).1) with (registers s.1).
  destruct (read_array (registers s.1) (rt_of i)); [|done..].
  by apply execute_decoded_pending.
Qed.

(** ** The register an instruction writes at once

    Loads write later, through the load in flight. *)

Definition destination (instruction : Z) : option Z :=
  match opcode_of instruction with
  | 0x00 =>
      match function_of instruction with
      | 0x08 | 0x0c | 0x0d | 0x11 | 0x13 | 0x18 | 0x19 | 0x1a | 0x1b => None
      | _ => Some (rd_of instruction)
      end
  | 0x01 =>
      match rt_of instruction with
      | 0x10 | 0x11 => Some 31
      | _ => None
      end
  | 0x03 => Some 31
  | 0x08 | 0x09 | 0x0a | 0x0b | 0x0c | 0x0d | 0x0e | 0x0f =>
      Some (rt_of instruction)
  | _ => None
  end.

Definition all_ok (P : Execution -> Prop)
    (r : outcome CpuError Execution * (Cpu * B)) : Prop :=
  forall x, r.1 = Ok x -> P x.

(** No immediate register write and no control transfer. *)
Definition quiet (x : Execution) : Prop :=
  register_write x = None /\ branch_target x = None.

Lemma all_ok_ret (P : Execution -> Prop) x s : P x -> all_ok P (Ok x, s).
Proof. by intros Hx x' [= <-]. Qed.

Lemma all_ok_bind {A} P (m : outcome CpuError A * (Cpu * B)) k :
  (forall a s, all_ok P (k a s)) -> all_ok P (let! (a, s) := m in k a s).
Proof. intros Hk. destruct m as [[a|e|] s]; [apply Hk|by intros ? [=]..]. Qed.

Lemma all_ok_mono (P Q : Execution -> Prop) r :
  all_ok P r -> (forall x, P x -> Q x) -> all_ok Q r.
Proof. unfold all_ok. naive_solver. Qed.

Ltac quiet_step :=
  lazymatch goal with
  | |- forall _, _ => intros
  | |- all_ok _ (Ok _, _) => apply all_ok_ret; exact (conj eq_refl eq_refl)
  | |- all_ok _ (if ?b then _ else _) => destruct b
  | |- all_ok _ (match on_bus ?p ?a ?k ?m ?s with _ => _ end) =>
      apply (all_ok_bind _ (on_bus p a k m s))
  | |- all_ok _ (match ?m with Ok _ => _ | Err _ => _ | Panic => _ end) =>
      destruct m; [|by intros ? [=]..]
  end.

Lemma execute_load_quiet o p rt a s : all_ok quiet (execute_load o p rt a s).
Proof.
  unfold execute_load, load_u8, load_u16, load_u32.
  destruct o as [|o|o]; try quiet_step.
  repeat (destruct o as [o|o|]; try (quiet_step; fail)); repeat quiet_step.
Qed.

Lemma execute_store_quiet o p a right s :
  all_ok quiet (execute_store o p a right s).
Proof.
  unfold execute_store, load_u32, store_u8, store_u16, store_u32. cbv zeta.
  destruct o as [|o|o]; try quiet_step.
  repeat (destruct o as [o|o|]; try (quiet_step; fail)); repeat quiet_step.
Qed.

Lemma execute_cop2_memory_quiet o p rt a s :
  all_ok quiet (execute_cop2_memory o p rt a s).
Proof.
  unfold execute_cop2_memory, load_u32, store_u32. cbv zeta. repeat quiet_step.
Qed.

(** What a group's result satisfies when it returns. *)
Definition result_ok {E} (P : Execution -> Prop) (m : outcome E (Cpu * Execution)) : Prop :=
  forall r, m = Ok r -> P r.2.

Lemma result_ok_ret {E} (P : Execution -> Prop) c x : P x -> result_ok P (Ok (c, x) : outcome E _).
Proof. by intros Hx r [= <-]. Qed.

Lemma result_ok_bind {E A} (P : Execution -> Prop) (m : outcome E A) k :
  (forall a, result_ok P (k a)) -> result_ok P (obind m k).
Proof. intros Hk. destruct m; [apply Hk|by intros ? [=]..]. Qed.

Lemma pure_all_ok (P : Execution -> Prop) m (s : Cpu * B) : result_ok P m -> all_ok P (pure m s).
Proof. intros Hm x. destruct m as [[c y]|e|]; [|done..]. intros [= <-]. exact (Hm _ eq_refl). Qed.

Lemma execute_cop0_quiet {E} rs rt rd f c : result_ok quiet (execute_cop0 rs rt rd f c : outcome E _).
Proof.
  unfold execute_cop0. repeat case_match; try (apply result_ok_ret; exact (conj eq_refl eq_refl)).
  apply result_ok_bind. intros v. destruct (Cop0.write rd v _) as [[] ?];
    apply result_ok_ret; exact (conj eq_refl eq_refl).
Qed.

Lemma execute_cop2_quiet {E} rs rt rd c : result_ok quiet (execute_cop2 rs rt rd c : outcome E _).
Proof.
  unfold execute_cop2. repeat case_match; repeat (apply result_ok_bind; intros ?);
    apply result_ok_ret; exact (conj eq_refl eq_refl).
Qed.

(** A claim on the result of [execute] is a claim on each group. *)
Lemma execute_all_ok (P : Execution -> Prop) p i left right s :
  (opcode_of i < 0 \/ 16 <= opcode_of i -> forall x, quiet x -> P x) ->
  (opcode_of i = 0 -> result_ok P (execute_special p (rd_of i) (shift_of i)
     (function_of i) left right s.1 : outcome CpuError _)) ->
  (opcode_of i = 1 -> P (execute_regimm p (rt_of i) left (signed_immediate_of i))) ->
  (2 <= opcode_of i < 16 -> P (execute_immediate (opcode_of i) p i (rt_of i) left right
     (immediate_of i) (signed_immediate_of i))) ->
  all_ok P (execute_decoded p i left right s).
Proof.
  intros Hq Hs Hr Hi.
  pose proof (fun Hc o a => all_ok_mono _ P _ (execute_load_quiet o p (rt_of i) a s) (Hq Hc))
    as Hload.
  pose proof (fun Hc o a r => all_ok_mono _ P _ (execute_store_quiet o p a r s) (Hq Hc))
    as Hstore.
  pose proof (fun Hc o a => all_ok_mono _ P _
    (execute_cop2_memory_quiet o p (rt_of i) a s) (Hq Hc)) as Hmem.
  assert (opcode_of i < 0 \/ 16 <= opcode_of i ->
    forall m, result_ok quiet m -> all_ok P (pure m s)) as Hgroup.
  { intros Hc m Hm. apply pure_all_ok. intros r E. by apply Hq, Hm. }
  assert (forall x, P x -> all_ok P (pure (Ok (s.1, x)) s)) as Hpure
    by (intros; by apply pure_all_ok, result_ok_ret).
  pose proof (fun Hc x y z => Hgroup Hc _ (execute_cop0_quiet x (rt_of i) y z s.1)) as H0.
  pose proof (fun Hc x y => Hgroup Hc _ (execute_cop2_quiet x (rt_of i) y s.1)) as H2.
  assert (opcode_of i < 0 \/ 16 <= opcode_of i ->
    forall e, all_ok P (pure (Ok (s.1, raise e default_execution)) s)) as He
    by (intros Hc e; by apply Hpure, Hq).
  unfold execute_decoded. cbv zeta. clear Hq Hgroup.
  destruct (opcode_of i) as [|o|o]; [by apply pure_all_ok, Hs| |exact (He ltac:(lia) _)].
  repeat (destruct o as [o|o|]; try exact (He ltac:(lia) _)).
  all: try (destruct (bool_decide _)).
  all: first [exact (He ltac:(lia) _) | exact (Hload ltac:(lia) _ _) | exact (Hstore ltac:(lia) _ _ _)
    | exact (Hmem ltac:(lia) _ _) | exact (H0 ltac:(lia) _ _ _) | exact (H2 ltac:(lia) _ _)
    | apply Hpure; apply Hi; lia | apply Hpure; exact (Hr eq_refl) ].
Qed.

(** An instruction that completes writes its destination and no other register. *)
Definition wrote (d : option Z) (x : Execution) : Prop :=
  ex_exception x = None -> fst <$> register_write x = d.

Ltac wrote_tac := first [by intros [=] | intros _; exact eq_refl].

Lemma execute_special_writes {E} p rd sh f x y c i :
  opcode_of i = 0 -> f = function_of i -> rd = rd_of i ->
  result_ok (wrote (destination i)) (execute_special p rd sh f x y c : outcome E _).
Proof.
  intros Eo -> ->. unfold destination. rewrite Eo.
  unfold execute_special. cbv zeta. destruct (function_of i) as [|f|f].
  all: repeat (destruct f as [f|f|]; try (apply result_ok_ret; wrote_tac)).
  all: try (case_match; [apply result_ok_ret; wrote_tac|]).
  all: repeat (apply result_ok_bind; intros ?).
  all: repeat case_match; apply result_ok_ret; repeat case_match; wrote_tac.
Qed.

Lemma execute_regimm_writes p i x imm :
  opcode_of i = 1 -> wrote (destination i) (execute_regimm p (rt_of i) x imm).
Proof. intros Eo. unfold destination, execute_regimm. rewrite Eo. repeat case_match; wrote_tac. Qed.

Lemma execute_immediate_writes o p i rt x y imm simm :
  opcode_of i = o -> rt = rt_of i -> 2 <= o < 16 ->
  wrote (destination i) (execute_immediate o p i rt x y imm simm).
Proof.
  intros Eo -> Ho. unfold destination. rewrite Eo.
  unfold execute_immediate. destruct o as [|o|o]; [lia| |lia].
  repeat (destruct o as [o|o|]; try wrote_tac; try lia).
  all: repeat case_match; wrote_tac.
Qed.

Lemma execute_decoded_destination p i left right s :
  all_ok (wrote (destination i)) (execute_decoded p i left right s).
Proof.
  apply execute_all_ok.
  - intros Ho x [Hx _] _. rewrite Hx. unfold destination.
    destruct (opcode_of i) as [|o|o]; [lia| |done].
    repeat (destruct o as [o|o|]; try done; try lia).
  - intros Eo. by apply execute_special_writes.
  - intros Eo. by apply execute_regimm_writes.
  - intros Ho. by apply execute_immediate_writes.
Qed.

(** A claim on an instruction, whatever its operands, is a claim on its execution. *)
Lemma execute_all (P : Execution -> Prop) p i s :
  (forall left right, at_index (registers s.1) (rs_of i) = left ->
    at_index (registers s.1) (rt_of i) = right -> all_ok P (execute_decoded p i left right s)) ->
  all_ok P (execute p i s).
Proof.
  intros Hk. unfold execute.
  destruct (read_array (registers s.1) (rs_of i)) as [left|e|] eqn:El; [|by intros ? [=]..].
  destruct (read_array (registers s.1) (rt_of i)) as [right|e|] eqn:Er; [|by intros ? [=]..].
  apply Hk; by eapply read_array_at.
Qed.

Lemma execute_destination p i s : all_ok (wrote (destination i)) (execute p i s).
Proof. apply execute_all. intros left right _ _. apply execute_decoded_destination. Qed.

(** ** Executing leaves the register file and the pipeline alone

    [execute] itself only moves HI/LO and the coprocessors: everything else is
    committed by [retire] or [trap]. *)

Definition frame (c c' : Cpu) : Prop :=
  c' = set_cop2 (cop2_data c') (cop2_control c')
         (set_cop0 (cop0 c') (set_hi_lo (hi c') (lo c') c)).

Lemma frame_refl c : frame c c.
Proof. by destruct c. Qed.

Definition framed {E} (c : Cpu) (m : outcome E (Cpu * Execution)) : Prop :=
  forall r, m = Ok r -> frame c r.1.

Lemma framed_ret {E} c c' x : frame c c' -> framed c (Ok (c', x) : outcome E _).
Proof. by intros Hf r [= <-]. Qed.

Lemma framed_bind {E A} c (m : outcome E A) k : (forall a, framed c (k a)) -> framed c (obind m k).
Proof. intros Hk. destruct m; [apply Hk|by intros ? [=]..]. Qed.

Ltac framed_step :=
  first [ apply framed_bind; intros ? | apply framed_ret; first [apply frame_refl | exact eq_refl]
        | progress case_match ].

Lemma execute_special_frame {E} p rd sh f x y c :
  framed c (execute_special p rd sh f x y c : outcome E _).
Proof. unfold execute_special. cbv zeta. repeat framed_step. Qed.

Lemma execute_cop0_frame {E} rs rt rd f c : framed c (execute_cop0 rs rt rd f c : outcome E _).
Proof. unfold execute_cop0. repeat framed_step. Qed.

Lemma execute_cop2_frame {E} rs rt rd c : framed c (execute_cop2 rs rt rd c : outcome E _).
Proof. unfold execute_cop2. repeat framed_step. Qed.

Lemma pure_frame m (s : Cpu * B) : framed s.1 m -> frame s.1 (pure m s).2.1.
Proof. intros Hm. destruct m as [[c x]|e|]; [exact (Hm _ eq_refl)|apply frame_refl..]. Qed.

Lemma frame_bind {A C} c (m : outcome CpuError A * (Cpu * B)) k
    (Hm : m.2.1 = c) :
  (forall a s, s.1 = c -> frame c (k a s : outcome CpuError C * _).2.1) ->
  frame c (let! (a, s) := m in k a s).2.1.
Proof.
  intros Hk. destruct m as [[a|e|] s]; cbn in *; [by apply Hk|subst; apply frame_refl..].
Qed.

Lemma on_bus_cpu {A} p a k (m : B -> outcome BusFault A * B) s :
  (on_bus p a k m s).2.1 = s.1.
Proof. unfold on_bus. by destruct (m s.2). Qed.

Ltac frame_step :=
  lazymatch goal with
  | |- forall _, _ => intros
  | H : ?s.1 = ?c |- frame ?c (match on_bus ?p ?a ?k ?m ?s with _ => _ end).2.1 =>
      apply (frame_bind _ (on_bus p a k m s));
        [rewrite <- H; apply on_bus_cpu|clear H]
  | H : ?s.1 = ?c |- frame ?c (if ?b then _ else _).2.1 => destruct b
  | H : ?s.1 = ?c |- frame ?c (match ?m with Ok _ => _ | Err _ => _ | Panic => _ end).2.1 =>
      destruct m; [|cbn [fst snd]; rewrite H; apply frame_refl..]
  | H : ?s.1 = ?c |- frame ?c _ =>
      cbn [fst snd]; rewrite H; first [apply frame_refl | exact eq_refl]
  end.

Lemma execute_load_frame o p rt a s : frame s.1 (execute_load o p rt a s).2.1.
Proof.
  assert (s.1 = s.1) as Hs by done. revert Hs. generalize s.1 at 2 3. intros c Hs.
  unfold execute_load, load_u8, load_u16, load_u32.
  destruct o as [|o|o]; [frame_step| |frame_step].
  repeat (destruct o as [o|o|]; try (cbn [snd fst]; rewrite Hs; apply frame_refl));
    repeat frame_step.
Qed.

Lemma execute_store_frame o p a right s :
  frame s.1 (execute_store o p a right s).2.1.
Proof.
  assert (s.1 = s.1) as Hs by done. revert Hs. generalize s.1 at 2 3. intros c Hs.
  unfold execute_store, load_u32, store_u8, store_u16, store_u32. cbv zeta.
  destruct o as [|o|o]; [frame_step| |frame_step].
  repeat (destruct o as [o|o|]; try (cbn [snd fst]; rewrite Hs; apply frame_refl));
    repeat frame_step.
Qed.

Lemma execute_cop2_memory_frame o p rt a s :
  frame s.1 (execute_cop2_memory o p rt a s).2.1.
Proof.
  assert (s.1 = s.1) as Hs by done. revert Hs. generalize s.1 at 2 3. intros c Hs.
  unfold execute_cop2_memory, load_u32, store_u32. cbv zeta. repeat frame_step.
Qed.

Lemma execute_decoded_frame p i left right s : frame s.1 (execute_decoded p i left right s).2.1.
Proof.
  pose proof (fun o a => execute_load_frame o p (rt_of i) a s) as Hl.
  pose proof (fun o a r => execute_store_frame o p a r s) as Hs.
  pose proof (fun o a => execute_cop2_memory_frame o p (rt_of i) a s) as Hm.
  pose proof (fun x y z => pure_frame _ s (execute_cop0_frame x (rt_of i) y z s.1)) as H0.
  pose proof (fun x y => pure_frame _ s (execute_cop2_frame x (rt_of i) y s.1)) as H2.
  pose proof (frame_refl s.1) as Hr.
  unfold execute_decoded. cbv zeta.
  destruct (opcode_of i) as [|o|o]; [apply pure_frame, execute_special_frame| |exact Hr].
  repeat (destruct o as [o|o|]; try exact Hr; auto).
  all: first [exact (H0 _ _ _) | destruct (bool_decide _)];
    first [exact (H2 _ _) | exact Hr | auto].
Qed.

Lemma execute_frame p i s : frame s.1 (execute p i s).2.1.
Proof.
  unfold execute. destruct (read_array _ (rs_of i)); [|apply frame_refl..].
  destruct (read_array _ (rt_of i)); [|apply frame_refl..]. apply execute_decoded_frame.
Qed.

(** ** The load-delay slot *)

Lemma put_pending r v c :
  0 < r -> pending_load c = Some (r, v) ->
  put_old_load None c =
  set_registers (<[Z.to_nat r := v]> (registers c)) (set_pending_load None c).
Proof.
  intros Hr E. unfold put_old_load. rewrite E. cbn.
  unfold put_register. by destruct (Z.eqb_spec r 0); [lia|].
Qed.

Lemma trapped_pending e p bad r v c :
  0 < r -> pending_load c = Some (r, v) ->
  let c0 := trapped e p bad (set_pending_load None c) in
  trapped e p bad c = set_registers (<[Z.to_nat r := v]> (registers c0)) c0.
Proof. intros Hr E. unfold trapped. by rewrite (put_pending r v) by done. Qed.

Lemma insert_below (l : list Z) i j v w :
  <[i := v]> (<[j := w]> l) =
  if decide (i = j) then <[i := v]> l else <[j := w]> (<[i := v]> l).
Proof.
  case_decide as E; [subst; apply list_insert_insert_eq|].
  by apply list_insert_insert_ne.
Qed.

(** [retire] in closed form under the architectural load-delay mode. *)
Definition reg_write (w : option (Z * Z)) (l : list Z) : list Z :=
  match w with
  | Some (r, v) => if r =? 0 then l else <[Z.to_nat r := v]> l
  | None => l
  end.

Definition suppressed (x : Execution) (c : Cpu) : bool :=
  is_branch x && from_option branch_taken false (delay_slot c) &&
  bool_decide (delay_slot_branch_mode c = SuppressWhenOuterTaken).

Definition next_target (x : Execution) (c : Cpu) : option Z :=
  if suppressed x c then None else branch_target x.

Lemma put_write_eq w c :
  put_write w c = set_registers (reg_write w (registers c)) c.
Proof.
  destruct c, w as [[r v]|]; [|done]. cbn. unfold put_register.
  by case_match.
Qed.

Lemma retired_arch p x c :
  load_delay_mode c = LD_Architectural ->
  retired p x c =
  set_registers
    (<[0%nat := 0]> (reg_write (register_write x)
       (reg_write (pending_load c) (registers c))))
    (set_pipeline (next_pc c)
       (default (wrap 32 (next_pc c + 4)) (next_target x c))
       (if is_branch x && negb (suppressed x c)
        then Some (mkDelaySlot p (bool_decide (is_Some (next_target x c))))
        else None) (delayed_write x) c).
Proof.
  intros E. unfold retired, settled, put_old_load.
  rewrite !put_write_eq. destruct c; cbn in *. by rewrite E.
Qed.

(** Retiring over a load in flight: the loaded value lands, unless the
    instruction itself writes the register. *)
Lemma retired_pending p x r v c :
  0 < r -> pending_load c = Some (r, v) -> load_delay_mode c = LD_Architectural ->
  wf_execution x ->
  let c0 := retired p x (set_pending_load None c) in
  retired p x c =
    if decide (fst <$> register_write x = Some r) then c0
    else set_registers (<[Z.to_nat r := v]> (registers c0)) c0.
Proof.
  intros Hr E Hm [Hw _ _ _ _ _ _] c0. subst c0.
  rewrite !retired_arch by done.
  rewrite E. cbn [registers set_registers pending_load set_pending_load
                  set_pipeline reg_write].
  rewrite (proj2 (Z.eqb_neq r 0)) by lia.
  destruct (register_write x) as [[k w]|] eqn:Ew; cbn [reg_write fmap option_fmap option_map fst].
  2: { rewrite (insert_below _ (Z.to_nat r)). by rewrite !decide_False by (lia || done). }
  destruct Hw as [Hk _]; cbn in Hk.
  destruct (Z.eqb_spec k 0) as [->|Hk0].
  { rewrite (insert_below _ (Z.to_nat r)). by rewrite !decide_False by (lia || (intros [= <-]; lia)). }
  destruct (decide (k = r)) as [->|Hne].
  - rewrite decide_True by done. by rewrite list_insert_insert_eq.
  - rewrite decide_False by congruence.
    rewrite (insert_below _ (Z.to_nat r)), decide_False by lia.
    rewrite (insert_below _ (Z.to_nat r)), decide_False by lia. done.
Qed.

End with_bus.

Lemma frame_pending c c' l :
  frame c c' -> pending_load c = l -> set_pending_load l c' = c'.
Proof. unfold frame. intros -> <-. by destruct c. Qed.

(** The processor [c] is [c0], the one an instruction leaves with no load in flight,
    except that register [r] holds the loaded value [v]; when the instruction completed
    and [r] is the register it writes, that write is the later one and [c] is [c0]. *)
Definition landed (r v : Z) (o : StepOutcome) (c c0 : Cpu) : Prop :=
  c = match so_event o with
      | Instruction =>
          if decide (so_instruction o ≫= destination = Some r) then c0
          else set_registers (<[Z.to_nat r := v]> (registers c0)) c0
      | Exception_event _ => set_registers (<[Z.to_nat r := v]> (registers c0)) c0
      end.

(** C31: the load-delay slot: the instruction that follows a load runs exactly
    as if no load were in flight (same outcome, same bus traffic, same flow of
    control), so it cannot see the loaded value.  When it has trapped, or has
    completed without writing the load's register, that register holds the loaded
    value and nothing else differs; when it has completed and the register is its own
    destination, its write prevails and the loaded value is lost.  Only LWL and LWR,
    which merge into the load in flight, are excluded. *)
Theorem load_delay_slot {B} `{BusLaws B good} sample c b r v o s :
  wf c -> good b -> load_delay_mode c = LD_Architectural ->
  pending_load c = Some (r, v) -> 0 < r ->
  step_inner sample (c, b) = (Ok o, s) ->
  (forall i, so_instruction o = Some i -> reads_pending i = false) ->
  exists s0, step_inner sample (set_pending_load None c, b) = (Ok o, s0) /\
    s.2 = s0.2 /\ landed r v o s.1 s0.1.
Proof.
  intros Hc Hb Hm Hp Hr.
  rewrite !(step_inner_eq good) by (done || by apply set_pending_wf). cbv zeta.
  set (line := interrupt_pending b). clearbody line.
  set (c1 := if sample then update_interrupt_line line c else c).
  assert ((if sample then update_interrupt_line line (set_pending_load None c)
           else set_pending_load None c) = set_pending_load None c1) as ->
    by (unfold c1; by destruct sample).
  assert (pending_load c1 = Some (r, v)) as Hp1 by (unfold c1; by destruct sample).
  assert (load_delay_mode c1 = LD_Architectural) as Hm1
    by (unfold c1; by destruct sample).
  assert (wf c1) as Hc1
    by (unfold c1; destruct sample; [by apply update_interrupt_line_wf|done]).
  assert (pc c1 = pc c) as Ep by (unfold c1; by destruct sample).
  clearbody c1.
  change (interrupt_enabled (set_pending_load None c1)) with (interrupt_enabled c1).
  change (pc (set_pending_load None c)) with (pc c). rewrite <- Ep. clear c Hc Hm Hp Ep.
  destruct (sample && interrupt_enabled c1).
  { intros [= <- <-] _. eexists. split_and!; [done..|]. by apply trapped_pending. }
  destruct (has_bits (pc c1) 3).
  { intros [= <- <-] _. eexists. split_and!; [done..|]. by apply trapped_pending. }
  pose proof (read_u32_ok (pc c1) b (wf_pc _ Hc1) Hb) as (Hg & _ & Hi).
  unfold on_bus. cbn [fst snd].
  destruct (read_u32 (pc c1) b) as [[i|e|] b']; cbn [map_err]; [|done..].
  cbn [fst snd] in *. specialize (Hi i eq_refl).
  set (s0 := (set_pending_load None c1, b')).
  assert ((c1, b') = pend (Some (r, v)) s0) as ->
    by (unfold pend, s0; cbn; rewrite <- Hp1; by destruct c1).
  pose proof (execute_runs good (pc c1) i s0) as Hx.
  specialize (Hx (conj (set_pending_wf None _ Hc1 I) Hg) Hi) as (_ & _ & Hx).
  pose proof (execute_frame (pc c1) i s0) as Hf.
  pose proof (execute_destination (pc c1) i s0) as Hd.
  intros Hrun Hread.
  assert (reads_pending i = false) as Hni.
  { apply Hread. revert Hrun.
    destruct (execute _ _ (pend _ _)) as [[x|?|] ?]; [|done..].
    by destruct (ex_exception x); intros [= <- _]. }
  revert Hrun. rewrite (execute_pending _ _ _ s0 Hni). unfold with_pending.
  destruct (execute (pc c1) i s0) as [[x|e|] [c2 b2]]; cbn [fst snd] in *; [|done..].
  specialize (Hx x eq_refl). specialize (Hd x eq_refl).
  pose proof (frame_pending _ _ None Hf eq_refl) as E0.
  change (set_pending_load (Some (r, v)) (set_pending_load None c1)) with
    (set_pending_load (Some (r, v)) c1) in *.
  destruct (ex_exception x) as [e|] eqn:Ex.
  - intros [= <- <-]. eexists. split_and!; [done..|]. cbn [fst snd].
    pose proof (trapped_pending e (pc c1) (ex_bad_vaddr x) r v
      (set_pending_load (Some (r, v)) c2) Hr eq_refl) as Ht.
    change (set_pending_load None (set_pending_load (Some (r, v)) c2))
      with (set_pending_load None c2) in Ht.
    rewrite E0 in Ht. exact Ht.
  - intros [= <- <-]. eexists. split_and!; [done..|]. unfold landed.
    cbn [fst snd so_instruction so_event mbind option_bind].
    assert (load_delay_mode c2 = LD_Architectural) as Hm2 by (by rewrite Hf).
    rewrite (retired_pending (pc c1) x r v (set_pending_load (Some (r, v)) c2)) by done.
    rewrite (Hd Ex). change (set_pending_load None (set_pending_load (Some (r, v)) c2))
      with (set_pending_load None c2). by rewrite E0.
Qed.

(** [lw $2, 0x1000($0); addu $3, $2, $0] from the reset vector. *)
Definition load_program : FlatMemory :=
  FlatMemory.of_words 0x1000 [0x8c021000; 0x00401821].

Definition after_load : Cpu * FlatMemory :=
  (step_inner false (new test_profile, load_program)).2.

Lemma after_load_ok : wf after_load.1 /\ FlatMemory.good after_load.2.
Proof.
  destruct (step_runs FlatMemory.good false (new test_profile) load_program)
    as [H _]; [apply cpu_new_wf, test_profile_wf|apply FlatMemory.of_words_good|done].
Qed.

Lemma load_delay_slot_witness :
  exists s0, step_inner false (set_pending_load None after_load.1, after_load.2) =
      (Ok (mkStepOutcome 0x1004 (Some 0x00401821) 1 Instruction), s0) /\
    (step_inner false after_load).2.2 = s0.2 /\
    landed 2 0x8c021000 (mkStepOutcome 0x1004 (Some 0x00401821) 1 Instruction) (step_inner false after_load).2.1 s0.1.
Proof.
  destruct after_load_ok as [Hc Hb].
  assert (pending_load after_load.1 = Some (2, 0x8c021000)) as Hp by by vm_compute.
  assert (step_inner false (after_load.1, after_load.2) =
    (Ok (mkStepOutcome 0x1004 (Some 0x00401821) 1 Instruction),
     (step_inner false after_load).2)) as Hs by by vm_compute.
  apply (load_delay_slot false after_load.1 after_load.2 2 0x8c021000 _ _
           Hc Hb eq_refl Hp eq_refl Hs).
  by intros i [= <-].
Defined.

(** ** The branch slot *)

(** Where a control transfer goes when it is taken. *)
Definition taken_target (p instruction left : Z) : Z :=
  match opcode_of instruction with
  | 0x00 => left
  | 0x02 | 0x03 =>
      (wrap 32 (p + 4) / 2 ^ 28) * 2 ^ 28 + (instruction mod 2 ^ 26) * 4
  | _ => wrap 32 (p + 4 + 4 * signed_immediate_of instruction)
  end.

Lemma jump_target_spec p i :
  0 <= i -> jump_target p i =
  (wrap 32 (p + 4) / 2 ^ 28) * 2 ^ 28 + (i mod 2 ^ 26) * 4.
Proof.
  intros Hi. unfold jump_target, shl.
  pose proof (in_u_wrap 32 (p + 4) ltac:(lia)) as Hq.
  set (q := wrap 32 (p + 4)) in *. clearbody q.
  change 0x03ffffff with (Z.ones 26). rewrite Z.land_ones by lia.
  pose proof (Z.mod_pos_bound i (2 ^ 26) ltac:(lia)) as Hm.
  set (m := i mod 2 ^ 26) in *. clearbody m.
  assert (q .& 0xf0000000 = Z.shiftl (Z.shiftr q 28) 28) as ->.
  { apply Z.bits_inj'. intros k Hk. rewrite Z.land_spec, Z.shiftl_spec by lia.
    destruct (Z.lt_ge_cases k 28) as [Hlt|Hge].
    - rewrite (Z.testbit_neg_r _ (k - 28)) by lia.
      change 0xf0000000 with (Z.shiftl 15 28). rewrite Z.shiftl_spec_low by lia.
      apply andb_false_r.
    - rewrite Z.shiftr_spec by lia. replace (k - 28 + 28) with k by lia.
      change 0xf0000000 with (Z.shiftl (Z.ones 4) 28).
      rewrite Z.shiftl_spec by lia.
      destruct (Z.lt_ge_cases k 32).
      + rewrite Z.ones_spec_low by lia. apply andb_true_r.
      + by rewrite (testbit_high 32 q) by done. }
  rewrite (Z.shiftl_mul_pow2 m) by lia.
  rewrite wrap_id by (unfold in_u; lia).
  rewrite lor_shiftl_add by (unfold in_u; lia).
  by rewrite Z.shiftr_div_pow2 by lia.
Qed.

Lemma branch_target_spec p i :
  wrap 32 (wrap 32 (p + 4) + Z.shiftl (signed_immediate_of i) 2) =
  wrap 32 (p + 4 + 4 * signed_immediate_of i).
Proof.
  unfold wrap. rewrite Z.shiftl_mul_pow2 by lia.
  rewrite Zplus_mod_idemp_l. f_equal. lia.
Qed.

Definition targets (p i left : Z) (x : Execution) : Prop :=
  forall t, branch_target x = Some t -> t = taken_target p i left.

Lemma targets_none p i left x : branch_target x = None -> targets p i left x.
Proof. intros E t. by rewrite E. Qed.

Lemma targets_conditional p i left (b : bool) x :
  opcode_of i <> 0 -> opcode_of i <> 2 -> opcode_of i <> 3 ->
  branch_target x = None ->
  targets p i left (conditional_branch b p (signed_immediate_of i) x).
Proof.
  intros H0 H2 H3 Hx t. cbn. destruct b; [|by rewrite Hx].
  intros [= <-]. rewrite branch_target_spec. unfold taken_target.
  destruct (opcode_of i) as [|[[]|[]|]|]; done.
Qed.

Lemma execute_targets {B} `{Bus B} p i s :
  0 <= i ->
  all_ok (targets p i (at_index (registers s.1) (rs_of i))) (execute p i s).
Proof.
  intros Hi. apply execute_all. intros left right -> _. apply execute_all_ok.
  - intros _ x [_ Hx]. by apply targets_none.
  - intros Eo. unfold execute_special. cbv zeta. generalize (function_of i). intros f.
    assert (left = taken_target p i left) as El by (unfold taken_target; by rewrite Eo).
    destruct f as [|f|f]; [..|apply result_ok_ret, targets_none; exact eq_refl].
    2: repeat (destruct f as [f|f|]; try (apply result_ok_ret, targets_none; exact eq_refl)).
    all: try (apply result_ok_ret; by intros ? [= <-]).
    all: try (apply result_ok_bind; intros ?).
    all: repeat case_match; try (apply result_ok_bind; intros [? ?]).
    all: apply result_ok_ret, targets_none; by repeat case_match.
  - intros Eo. unfold execute_regimm.
    repeat case_match; first [apply targets_none; exact eq_refl |
      apply targets_conditional; [lia..|done]].
  - intros Ho. pose proof (jump_target_spec p i Hi) as Ej.
    unfold execute_immediate. destruct (opcode_of i) as [|o|o] eqn:Eo; [lia| |lia].
    repeat (destruct o as [o|o|]; try (apply targets_none; exact eq_refl)).
    all: first [ apply targets_conditional; [lia..|done]
      | intros ? [= <-]; unfold taken_target; rewrite Eo; exact Ej
      | apply targets_none; by repeat case_match ].
Qed.

(** What one successful step did, on either event. *)
Inductive stepped {B} `{Bus B} (sample : bool) (c : Cpu) (b : B)
    : StepOutcome -> Cpu * B -> Prop :=
| stepped_trap e i n bad c' b' :
    delay_slot c' = delay_slot c -> profile c' = profile c ->
    stepped sample c b (mkStepOutcome (pc c) i n (Exception_event e))
      (trapped e (pc c) bad c', b')
| stepped_instruction i x c1 b1 c' b' :
    c1 = (if sample then update_interrupt_line (interrupt_pending b) c else c) ->
    u32 i -> execute (pc c) i (c1, b1) = (Ok x, (c', b')) ->
    wf_execution x -> ex_exception x = None -> frame c1 c' ->
    stepped sample c b (mkStepOutcome (pc c) (Some i) (cycles x) Instruction)
      (retired (pc c) x c', b').

Lemma step_stepped {B} `{BusLaws B good} sample c b o s :
  wf c -> good b -> step_inner sample (c, b) = (Ok o, s) ->
  stepped sample c b o s.
Proof.
  intros Hc Hb. rewrite (step_inner_eq good) by done. cbv zeta.
  set (c1 := if sample then _ else c).
  assert (wf c1) as Hc1
    by (unfold c1; destruct sample; [by apply update_interrupt_line_wf|done]).
  assert (delay_slot c1 = delay_slot c) as Ed by (unfold c1; by destruct sample).
  assert (profile c1 = profile c) as Epr by (unfold c1; by destruct sample).
  assert (c1 = if sample then update_interrupt_line (interrupt_pending b) c else c)
    as E1 by done. clearbody c1.
  destruct (sample && _).
  { intros [= <- <-]. by constructor. }
  destruct (has_bits (pc c) 3).
  { intros [= <- <-]. by constructor. }
  pose proof (wf_pc _ Hc) as Hp.
  pose proof (read_u32_ok (pc c) b Hp Hb) as (Hg & _ & Hi).
  unfold on_bus. cbn [fst snd].
  destruct (read_u32 (pc c) b) as [[i|e|] b']; cbn [map_err]; [|done..].
  cbn [fst snd] in *. specialize (Hi i eq_refl).
  pose proof (execute_runs good (pc c) i (c1, b') (conj Hc1 Hg) Hi) as (_ & _ & Hx).
  pose proof (execute_frame (pc c) i (c1, b')) as Hf.
  destruct (execute (pc c) i (c1, b')) as [[x|e|] [c2 b2]] eqn:Ex; [|done..].
  cbn [fst snd] in *. destruct (ex_exception x) as [e|] eqn:Ee.
  - intros [= <- <-]. constructor; rewrite Hf; cbn; congruence.
  - intros [= <- <-]. by econstructor; eauto.
Qed.

Lemma retired_pipeline p x c :
  let c' := retired p x c in
  pc c' = next_pc c /\
  next_pc c' = default (wrap 32 (next_pc c + 4)) (next_target x c) /\
  delay_slot c' =
    (if is_branch x && negb (suppressed x c)
     then Some (mkDelaySlot p (bool_decide (is_Some (next_target x c)))) else None) /\
  delay_slot_branch_mode c' = delay_slot_branch_mode c.
Proof.
  unfold retired, settled, put_old_load. rewrite !put_write_eq.
  destruct c as [? ? ? ? ? ? ? ? ? ? ? []]; cbn;
    rewrite ?put_write_eq; done.
Qed.

Lemma cause_bit31 y e (b : bool) :
  Z.testbit (((y .& bnot 32 (0x7c .| CAUSE_BD)) .| shl 32 (code e) 2)
    .| (if b then CAUSE_BD else 0)) 31 = b.
Proof.
  rewrite !Z.lor_spec, Z.land_spec.
  change (Z.testbit (bnot 32 (0x7c .| CAUSE_BD)) 31) with false.
  rewrite andb_false_r. by destruct e, b.
Qed.

Lemma trapped_state e p bad c :
  let c' := trapped e p bad c in
  epc (cop0 c') = default p (branch_pc <$> delay_slot c) /\
  Z.testbit (cause (cop0 c')) 31 = bool_decide (is_Some (delay_slot c)) /\
  delay_slot c' = None /\ pending_load c' = None /\
  pc c' ∈ [exception_vector (profile c); bootstrap_exception_vector (profile c)].
Proof.
  unfold trapped, put_old_load. rewrite !put_write_eq.
  unfold enter_exception. cbv zeta.
  match goal with |- context [has_bits ?x STATUS_BEV] =>
    generalize (has_bits x STATUS_BEV) end. intros bev.
  pose proof (fun y => cause_bit31 y e true) as Hbd.
  pose proof (fun y => cause_bit31 y e false) as Hno.
  destruct c as [? ? ? ? ? ds ? ? ? ? ? ? ? ? ?]; cbn -[Z.testbit].
  destruct ds as [d|], bad, bev; cbn -[Z.testbit];
    (split_and!; [done| |done|done|set_solver]).
  all: first [apply Hbd | rewrite <- (Z.lor_0_r (_ .| _)); apply Hno].
Qed.

(** C33: the branch slot: after a control transfer outside another branch's
    slot, exactly one more instruction is fetched, from the sequential address;
    if it completes, control is at the target of the branch (at the fall-through
    when it is not taken), and a control transfer in the slot of a taken branch
    is dropped under [SuppressWhenOuterTaken]; if it traps, EPC names the branch
    and the BD bit is set, so that returning re-executes the branch. *)
Theorem branch_delay_slot {B} `{BusLaws B good} sample c b o s d sample' o' s' :
  wf c -> good b -> delay_slot c = None ->
  step_inner sample (c, b) = (Ok o, s) -> delay_slot s.1 = Some d ->
  step_inner sample' s = (Ok o', s') ->
  branch_pc d = pc c /\
  (exists i, so_instruction o = Some i /\
    next_pc s.1 =
      if branch_taken d then taken_target (pc c) i (at_index (registers c) (rs_of i))
      else wrap 32 (next_pc c + 4)) /\
  so_pc o' = next_pc c /\
  match so_event o' with
  | Instruction =>
      pc s'.1 = next_pc s.1 /\
      (branch_taken d = true ->
       delay_slot_branch_mode c = SuppressWhenOuterTaken ->
       next_pc s'.1 = wrap 32 (next_pc s.1 + 4) /\ delay_slot s'.1 = None)
  | Exception_event _ =>
      epc (cop0 s'.1) = pc c /\ Z.testbit (cause (cop0 s'.1)) 31 = true /\
      delay_slot s'.1 = None
  end.
Proof.
  intros Hc Hb Hds Hstep Hd Hstep'.
  pose proof (step_runs good sample c b Hc Hb) as ([Hc1 Hb1] & _ & _).
  rewrite Hstep in Hc1, Hb1. cbn [fst snd] in *.
  destruct s as [c1 b1]; cbn [fst snd] in *.
  apply (step_stepped sample c b) in Hstep; [|done..].
  apply (step_stepped sample' c1 b1) in Hstep'; [|done..].
  inversion Hstep as [e i n bad c0 b0 E1 E2|i x c0 b0 c2 b2 E1 Hi Ex Hx He Hf]; subst.
  { pose proof (trapped_state e (pc c) bad c0) as (_ & _ & E & _). congruence. }
  set (c0 := if sample then _ else c) in *.
  assert (next_pc c2 = next_pc c /\ delay_slot c2 = None /\
    registers c0 = registers c /\
    delay_slot_branch_mode c2 = delay_slot_branch_mode c) as (En & Ed2 & Er & Em).
  { rewrite Hf. unfold c0. by destruct sample. }
  pose proof (retired_pipeline (pc c) x c2) as (R1 & R2 & R3 & R4).
  assert (suppressed x c2 = false) as Es
    by (unfold suppressed; rewrite Ed2; by rewrite andb_false_r).
  unfold next_target in R2, R3. rewrite Es in R2, R3. rewrite En in R2.
  rewrite R3 in Hd.
  pose proof (execute_targets (pc c) i (c0, b0) (proj1 Hi)) as Ht.
  rewrite Ex in Ht. specialize (Ht x eq_refl). cbn [fst] in Ht. rewrite Er in Ht.
  assert (is_branch x = true /\
    d = mkDelaySlot (pc c) (bool_decide (is_Some (branch_target x)))) as [Eb ->].
  { destruct (is_branch x); cbn in Hd; by simplify_eq. }
  cbn [branch_pc branch_taken]. split_and!.
  - done.
  - exists i. split; [done|]. rewrite R2.
    unfold targets in Ht. destruct (branch_target x) as [t|]; cbn; [|done].
    by apply Ht.
  - rewrite <- En, <- R1. by inversion Hstep'.
  - inversion Hstep' as [e' i' n' bad' c3 b3 E1 E2|i' x' c3 b3 c4 b4 E1 Hi' Ex' Hx' He' Hf'];
      subst; cbn [so_event fst].
    + pose proof (trapped_state e' (pc (retired (pc c) x c2)) bad' c3) as (T1 & T2 & T3 & _).
      rewrite E1, R3, Hd in T1, T2. done.
    + set (c3 := if sample' then _ else _) in *.
      assert (delay_slot c4 = Some (mkDelaySlot (pc c) (bool_decide (is_Some (branch_target x))))
        /\ next_pc c4 = next_pc (retired (pc c) x c2) /\
        delay_slot_branch_mode c4 = delay_slot_branch_mode c) as (Ed4 & En4 & Em4).
      { rewrite Hf'. cbn [set_cop2 set_cop0 set_hi_lo delay_slot next_pc
          delay_slot_branch_mode].
        rewrite <- Hd, <- R3, <- Em, <- R4. unfold c3. by destruct sample'. }
      pose proof (retired_pipeline (pc (retired (pc c) x c2)) x' c4) as (Q1 & Q2 & Q3 & _).
      rewrite Q1, Q2, Q3, En4. split; [done|]. intros Etk Esup.
      unfold next_target, suppressed. rewrite Ed4, Em4, Esup. cbn [from_option branch_taken].
      rewrite Etk, bool_decide_true by done. rewrite !andb_true_r.
      destruct (is_branch x') eqn:Eb'; [done|]. by rewrite (wf_branch _ Hx' Eb').
Qed.

(** [beq $0, $0, +4; nop]: the second step traps when the slot word is a
    [syscall]. *)
Definition branch_program : FlatMemory :=
  FlatMemory.of_words 0x1000 [0x10000004; 0x0000000c].

Definition after_branch : Cpu * FlatMemory :=
  (step_inner false (new test_profile, branch_program)).2.
Definition after_slot : Cpu * FlatMemory := (step_inner false after_branch).2.

Lemma branch_delay_slot_witness :
  epc (cop0 after_slot.1) = 0x1000 /\
  Z.testbit (cause (cop0 after_slot.1)) 31 = true /\
  delay_slot after_slot.1 = None.
Proof.
  assert (wf (new test_profile)) as Hc by apply cpu_new_wf, test_profile_wf.
  assert (FlatMemory.good branch_program) as Hb by apply FlatMemory.of_words_good.
  assert (step_inner false (new test_profile, branch_program) =
    (Ok (mkStepOutcome 0x1000 (Some 0x10000004) 1 Instruction), after_branch))
    as H1 by by vm_compute.
  assert (delay_slot after_branch.1 = Some (mkDelaySlot 0x1000 true)) as Hd
    by by vm_compute.
  assert (step_inner false after_branch =
    (Ok (mkStepOutcome 0x1004 (Some 12) 1 (Exception_event Syscall)), after_slot))
    as H2 by by vm_compute.
  exact (proj2 (proj2 (proj2 (branch_delay_slot false (new test_profile)
    branch_program (mkStepOutcome 0x1000 (Some 0x10000004) 1 Instruction)
    after_branch (mkDelaySlot 0x1000 true) false
    (mkStepOutcome 0x1004 (Some 12) 1 (Exception_event Syscall)) after_slot
    Hc Hb eq_refl H1 Hd H2)))).
Defined.

(** ** Exception entry and return *)

(** RFE, from the handler: the instruction returns for every processor. *)
Definition rfe (c : Cpu) : Cpu :=
  match (execute_cop0 0x10 0 0 0x10 c : outcome CpuError _) with Ok r => r.1 | _ => c end.

Lemma testbit_low6 k : 0 <= k < 6 ->
  k = 0 \/ k = 1 \/ k = 2 \/ k = 3 \/ k = 4 \/ k = 5.
Proof. lia. Qed.

Lemma testbit_enter s k :
  0 <= k ->
  Z.testbit ((s .& bnot 32 0x3f) .| (shl 32 s 2 .& 0x3f)) k =
  if k <? 2 then false
  else if k <? 6 then Z.testbit s (k - 2)
  else Z.testbit s k && (k <? 32).
Proof.
  intros Hk. rewrite Z.lor_spec, !Z.land_spec.
  unfold shl, wrap. rewrite testbit_bnot by lia.
  destruct (Z.ltb_spec k 6).
  - rewrite Z.mod_pow2_bits_low, Z.shiftl_spec by lia.
    destruct (testbit_low6 k) as [->|[->|[->|[->|[->| ->]]]]]; [lia|..];
      rewrite ?andb_false_r, ?andb_true_r; try done; by destruct (Z.testbit s _).
  - rewrite (testbit_high 6 0x3f) by (split || lia; lia).
    rewrite andb_false_r, orb_false_r. destruct (Z.ltb_spec k 2); [lia|].
    by destruct (k <? 32).
Qed.

Lemma testbit_rfe s k :
  0 <= k ->
  Z.testbit ((s .& bnot 32 0x0f) .| (Z.shiftr s 2 .& 0x0f)) k =
  if k <? 4 then Z.testbit s (k + 2)
  else Z.testbit s k && (k <? 32).
Proof.
  intros Hk. rewrite Z.lor_spec, !Z.land_spec, testbit_bnot by lia.
  rewrite Z.shiftr_spec by lia.
  destruct (Z.ltb_spec k 4).
  - destruct (testbit_low6 k) as [->|[->|[->|[->|[->| ->]]]]]; [lia|..];
      rewrite ?andb_false_r, ?andb_true_r; try done; lia.
  - rewrite (testbit_high 4 0x0f) by (split || lia; lia).
    rewrite andb_false_r, orb_false_r. by destruct (k <? 32).
Qed.

(** The fields [enter_exception] leaves. *)
Lemma enter_exception_eq e p d bad c :
  let s' := (status (cop0 c) .& bnot 32 0x3f) .| (shl 32 (status (cop0 c)) 2 .& 0x3f) in
  let base := (cause (cop0 c) .& bnot 32 (0x7c .| CAUSE_BD)) .| shl 32 (code e) 2 in
  let vector := if has_bits s' STATUS_BEV then bootstrap_exception_vector (profile c)
                else exception_vector (profile c) in
  enter_exception e p d bad c =
  set_pipeline vector (wrap 32 (vector + 4)) None None
    (set_cop0 (mkCop0 (default (bad_vaddr (cop0 c)) bad) s'
      (if d then base .| CAUSE_BD else base) (default p d)
      (processor_id (cop0 c))) c).
Proof. by destruct c, d, bad. Qed.

Lemma cause_code y e b :
  Z.shiftr (((y .& bnot 32 (0x7c .| CAUSE_BD)) .| shl 32 (code e) 2)
    .| (if b : bool then CAUSE_BD else 0)) 2 .& 31 = code e.
Proof.
  change 31 with (Z.ones 5).
  apply Z.bits_inj'. intros k Hk.
  rewrite Z.land_spec, Z.shiftr_spec, !Z.lor_spec, Z.land_spec by lia.
  destruct (Z.lt_ge_cases k 5) as [Hlt|Hge].
  - rewrite Z.ones_spec_low, andb_true_r by lia.
    assert (k = 0 \/ k = 1 \/ k = 2 \/ k = 3 \/ k = 4)
      as [->|[->|[->|[->| ->]]]] by lia;
      destruct b, e; cbn -[Z.testbit];
      match goal with |- context [Z.testbit y ?n && ?b] =>
        change b with false; rewrite andb_false_r; reflexivity end.
  - rewrite Z.ones_spec_high, andb_false_r by lia. symmetry.
    apply (testbit_high 5); [by destruct e|done].
Qed.

(** C34: exception entry and RFE are inverse on the interrupt-enable/user stack:
    entering pushes a disabled kernel-mode entry (interrupts cannot be taken in
    the handler), records the exception code, the restart address and the
    branch-delay bit and vectors by BEV; RFE then restores the current and
    previous entries, leaving every other status bit alone. *)
Theorem exception_return e p d bad c :
  wf c ->
  let c1 := enter_exception e p d bad c in
  interrupt_enabled c1 = false /\
  Z.shiftr (cause (cop0 c1)) 2 .& 31 = code e /\
  Z.testbit (cause (cop0 c1)) 31 = bool_decide (is_Some d) /\
  epc (cop0 c1) = default p d /\
  bad_vaddr (cop0 c1) = default (bad_vaddr (cop0 c)) bad /\
  pc c1 = (if Z.testbit (status (cop0 c)) 22
           then bootstrap_exception_vector (profile c)
           else exception_vector (profile c)) /\
  pc (rfe c1) = pc c1 /\
  forall k, 0 <= k < 32 ->
    Z.testbit (status (cop0 (rfe c1))) k =
    if (4 <=? k) && (k <? 6) then Z.testbit (status (cop0 c)) (k - 2)
    else Z.testbit (status (cop0 c)) k.
Proof.
  intros Hc c1. unfold c1. rewrite enter_exception_eq. cbv zeta. clear c1.
  pose proof (wf_status _ (wf_cop0_of _ Hc)) as Hs.
  set (s := status (cop0 c)) in *.
  pose proof (testbit_enter s) as Hen.
  set (s' := (s .& bnot 32 0x3f) .| (shl 32 s 2 .& 0x3f)) in *.
  change STATUS_BEV with (2 ^ 22). rewrite (has_bits_pow2 s' 22), Hen by lia.
  change (22 <? 2) with false. change (22 <? 6) with false.
  change (22 <? 32) with true. rewrite andb_true_r.
  cbn [cop0 set_pipeline set_cop0 status cause epc bad_vaddr pc].
  split_and!; try done.
  - unfold interrupt_enabled. cbn [cop0 set_pipeline set_cop0 status].
    change (has_bits s' 1) with (has_bits s' (2 ^ 0)).
    by rewrite (has_bits_pow2 s' 0), Hen by lia.
  - pose proof (cause_code (cause (cop0 c)) e) as Hcode.
    destruct d; [apply (Hcode true)|]. specialize (Hcode false).
    by rewrite Z.lor_0_r in Hcode.
  - rewrite <- (cause_bit31 (cause (cop0 c)) e (bool_decide (is_Some d))).
    destruct d; [done|]. by rewrite Z.lor_0_r.
  - intros k Hk. unfold rfe, execute_cop0. cbn -[Z.testbit Z.land Z.lor].
    rewrite testbit_rfe, !Hen by lia.
    repeat match goal with |- context [?a <? ?b] => destruct (Z.ltb_spec a b) end;
      repeat match goal with |- context [?a <=? ?b] => destruct (Z.leb_spec a b) end;
      try lia; cbn [andb]; rewrite ?andb_true_r; try done; f_equal; lia.
Qed.

Lemma exception_return_witness :
  let c := Cpu.set_pc 0x2000 (new test_profile) in
  status (cop0 (rfe (enter_exception Syscall 0x2000 None None c))) .& 0xf =
  status (cop0 c) .& 0xf.
Proof.
  intros c. assert (wf c) as Hc.
  { apply set_pipeline_wf; [apply cpu_new_wf, test_profile_wf|by split..|done|done]. }
  pose proof (proj2 (proj2 (proj2 (proj2 (proj2 (proj2 (proj2
    (exception_return Syscall 0x2000 None None c Hc)))))))) as Hk.
  change 0xf with (Z.ones 4). apply Z.bits_inj'. intros k Hk0.
  rewrite !Z.land_spec. destruct (Z.lt_ge_cases k 4) as [Hlt|Hge].
  - rewrite Hk by lia. destruct (Z.leb_spec 4 k); [lia|]. done.
  - rewrite Z.ones_spec_high by lia. by rewrite !andb_false_r.
Defined.

(** ** Interrupts *)

(** An interrupt is taken exactly when the entry point samples the line and
    the processor, with IP2 set to the line, has it enabled; it precedes the
    fetch, so no instruction is lost.  In particular the entry point that does
    not sample the external line takes no interrupt at all, also not a pending
    and enabled software interrupt, although its documentation says that software
    interrupts remain architectural there. *)
Theorem interrupt_sampling {B} `{BusLaws B good} sample c b o s :
  wf c -> good b -> step_inner sample (c, b) = (Ok o, s) ->
  (so_event o = Exception_event Interrupt <->
   sample = true /\
   interrupt_enabled (update_interrupt_line (interrupt_pending b) c) = true) /\
  (so_event o = Exception_event Interrupt ->
   so_instruction o = None /\ s.2 = b /\ Z.shiftr (cause (cop0 s.1)) 2 .& 31 = 0 /\
   epc (cop0 s.1) = default (pc c) (branch_pc <$> delay_slot c)).
Proof.
  intros Hc Hb. rewrite (step_inner_eq good) by done. cbv zeta.
  set (c1 := if sample then _ else c).
  assert (wf c1) as Hc1
    by (unfold c1; destruct sample; [by apply update_interrupt_line_wf|done]).
  assert (delay_slot c1 = delay_slot c) as Ed by (unfold c1; by destruct sample).
  destruct (sample && interrupt_enabled c1) eqn:Et.
  { intros [= <- <-]. apply andb_true_iff in Et as [-> Et].
    split; [done|]. intros _. split_and!; [done..| |].
    - unfold trapped. rewrite enter_exception_eq. cbn [cop0 set_pipeline set_cop0 cause].
      pose proof (cause_code (cause (cop0 (put_old_load None c1))) Interrupt) as Hk.
      destruct (branch_pc <$> _); [apply (Hk true)|].
      specialize (Hk false). by rewrite Z.lor_0_r in Hk.
    - pose proof (trapped_state Interrupt (pc c) None c1) as (E & _).
      rewrite Ed in E. exact E. }
  assert (~ (sample = true /\
    interrupt_enabled (update_interrupt_line (interrupt_pending b) c) = true)) as Hno.
  { intros [-> E]. change (true && interrupt_enabled (update_interrupt_line
      (interrupt_pending b) c) = false) in Et. by rewrite E in Et. }
  intros Hrun. cut (so_event o <> Exception_event Interrupt); [tauto|]. revert Hrun.
  destruct (has_bits (pc c) 3); [by intros [= <- _]|].
  pose proof (wf_pc _ Hc) as Hp.
  pose proof (read_u32_ok (pc c) b Hp Hb) as (Hg & _ & Hi).
  unfold on_bus. cbn [fst snd].
  destruct (read_u32 (pc c) b) as [[i|e|] b']; cbn [map_err]; [|done..].
  cbn [fst snd] in *. specialize (Hi i eq_refl).
  pose proof (execute_runs good (pc c) i (c1, b') (conj Hc1 Hg) Hi) as (_ & _ & Hx).
  destruct (execute (pc c) i (c1, b')) as [[x|e|] [c2 b2]]; [|done..].
  pose proof (wf_raised _ (Hx x eq_refl)) as Hr.
  destruct (ex_exception x) as [e|]; intros [= <- _]; [|done]. cbn. congruence.
Qed.

(** Software interrupt 0 pending and enabled, over a memory of no-operations. *)
Definition software_pending : Cpu :=
  set_cop0 (mkCop0 0 0x101 0x100 0 2) (new test_profile).

Lemma interrupt_sampling_witness :
  (exists s, step_inner true (software_pending, FlatMemory.of_words 0 []) =
     (Ok (mkStepOutcome 0x1000 None 1 (Exception_event Interrupt)), s)) /\
  so_event (mkStepOutcome 0x1000 (Some 0) 1 Instruction) <> Exception_event Interrupt /\
  (exists s, step_inner false (software_pending, FlatMemory.of_words 0 []) =
     (Ok (mkStepOutcome 0x1000 (Some 0) 1 Instruction), s)).
Proof.
  assert (wf software_pending) as Hc.
  { apply set_cop0_wf; [apply cpu_new_wf, test_profile_wf|]. by repeat constructor. }
  assert (exists s, step_inner false (software_pending, FlatMemory.of_words 0 []) =
     (Ok (mkStepOutcome 0x1000 (Some 0) 1 Instruction), s)) as [s Hs]
    by (eexists; by vm_compute).
  split; [eexists; by vm_compute|split; [|by exists s]].
  intros E. apply (interrupt_sampling (good := FlatMemory.good) false software_pending
    (FlatMemory.of_words 0 []) _ s Hc (FlatMemory.of_words_good 0 []) Hs) in E as [E _].
  done.
Defined.
