(* ===== verification/R3000Arith.v ===== *)
(** * Data operations of the R3000 interpreter

    Multiplication and division against their mathematical specification, and
    the unaligned word load that LWR and LWL make together. *)

From S2P Require Import Prelude MachineInt R3000 R3000Exec R3000Wf R3000Facts.
From S2P Require Import R3000Pipeline.
Import R3000.Cpu R3000.Execution.

Lemma split64 x : 0 <= x < 2 ^ 64 ->
  wrap 32 (Z.shiftr x 32) * 2 ^ 32 + wrap 32 x = x.
Proof.
  intros Hx. rewrite Z.shiftr_div_pow2 by lia. unfold wrap.
  rewrite (Z.mod_small (x / 2 ^ 32)).
  - pose proof (Z.div_mod x (2 ^ 32)). lia.
  - split; [apply Z.div_pos; lia|]. apply Z.div_lt_upper_bound; lia.
Qed.

Lemma wrap_split64 x :
  wrap 32 (Z.shiftr x 32) * 2 ^ 32 + wrap 32 x = wrap 64 x.
Proof.
  rewrite Z.shiftr_div_pow2 by lia. unfold wrap.
  change (2 ^ 64) with (2 ^ 32 * 2 ^ 32). rewrite Z.rem_mul_r by lia. lia.
Qed.

Lemma to_i_u32_bounds x : u32 x -> - 2 ^ 31 <= to_i32 x < 2 ^ 31.
Proof. intros Hx. apply (to_i_range 32); [lia|done]. Qed.

Lemma to_i32_zero x : u32 x -> to_i32 x = 0 <-> x = 0.
Proof.
  unfold in_u, to_i32, to_i. intros Hx. change (2 ^ (32 - 1)) with (2 ^ 31).
  destruct (Z.ltb_spec x (2 ^ 31)); lia.
Qed.

Lemma to_i32_mod x : u32 x -> to_i32 x mod 2 ^ 32 = x.
Proof. intros Hx. by apply (of_i_to_i 32). Qed.

(** The special case of [i32::MIN / -1] is the wrapped quotient. *)
Lemma signed_divide_eq {E} n d :
  u32 n -> u32 d -> d <> 0 ->
  signed_divide n d =
  (Ok (from_i32 (Z.rem (to_i32 n) (to_i32 d)), from_i32 (Z.quot (to_i32 n) (to_i32 d))) : outcome E _).
Proof.
  intros Hn Hd Hne. unfold signed_divide.
  destruct (Z.eqb_spec (to_i32 d) 0) as [E0|E0]; [by rewrite to_i32_zero in E0|].
  unfold div_i32. rewrite (proj2 (Z.eqb_neq (to_i32 d) 0)) by done. cbn [orb].
  destruct (_ && _) eqn:Es; [|done]. apply andb_true_iff in Es as [E1 E2].
  zbool. by rewrite E1, E2.
Qed.

(** The processor after one of the four instructions. *)
Definition executed (p rd shift f left right : Z) (c : Cpu) : Cpu :=
  match (execute_special p rd shift f left right c : outcome CpuError _) with Ok r => r.1 | _ => c end.

(** MULT, MULTU, DIV and DIVU compute the product and the truncated quotient
    and remainder of the operands read as two's-complement or unsigned words:
    HI:LO is the 64-bit product, LO * divisor + HI is the dividend (modulo 2^32
    when signed, where the quotient of -2^31 by -1 wraps) and the remainder is
    smaller than the divisor. *)
Theorem muldiv_spec p rd shift n d c :
  u32 n -> u32 d ->
  let run f := executed p rd shift f n d c in
  to_i 64 (hi (run 0x18) * 2 ^ 32 + lo (run 0x18)) = to_i32 n * to_i32 d /\
  hi (run 0x19) * 2 ^ 32 + lo (run 0x19) = n * d /\
  (d <> 0 ->
   wrap 32 (lo (run 0x1a) * d + hi (run 0x1a)) = n /\
   Z.abs (to_i32 (hi (run 0x1a))) < Z.abs (to_i32 d) /\
   0 <= to_i32 (hi (run 0x1a)) * to_i32 n) /\
  (d <> 0 -> n = lo (run 0x1b) * d + hi (run 0x1b) /\ 0 <= hi (run 0x1b) < d).
Proof.
  intros Hn Hd run. pose proof (to_i_u32_bounds n Hn) as Bn.
  pose proof (to_i_u32_bounds d Hd) as Bd.
  split_and!.
  - unfold run, executed. cbn [execute_special]. rewrite product_s64 by done.
    cbn [expect obind fst hi lo set_hi_lo]. rewrite wrap_split64. apply (to_i_of_i 64); [lia|]. unfold in_s.
    change (2 ^ (64 - 1)) with (2 ^ 31 * 2 ^ 32). nia.
  - unfold run, executed. cbn [execute_special]. rewrite product_u64 by done.
    cbn [expect obind fst hi lo set_hi_lo]. apply split64. unfold in_u in *. nia.
  - intros Hne. unfold run, executed. cbn [execute_special].
    rewrite signed_divide_eq by done. cbn [obind fst hi lo set_hi_lo].
    assert (to_i32 d <> 0) as Hne' by (by rewrite to_i32_zero).
    set (N := to_i32 n) in *. set (D := to_i32 d) in *.
    pose proof (Z.rem_bound_abs N D Hne') as Hr.
    assert (to_i32 (from_i32 (Z.rem N D)) = Z.rem N D) as Er.
    { apply (to_i_of_i 32); [lia|]. unfold in_s. change (2 ^ (32 - 1)) with (2 ^ 31).
      lia. }
    rewrite Er. split_and!; [|done|].
    + rewrite <- (to_i32_mod n Hn) at 1. fold N. unfold wrap.
      pose proof (Z.quot_rem N D Hne') as Eq.
      rewrite <- (to_i32_mod d Hd). fold D. unfold from_i32, of_i, wrap.
      rewrite Zplus_mod_idemp_r, <- Zplus_mod_idemp_l, <- Zmult_mod,
        Zplus_mod_idemp_l. f_equal. lia.
    + apply Z.rem_sign_mul. done.
  - intros Hne. unfold run, executed. cbn [execute_special]. unfold div_u32.
    rewrite (proj2 (Z.eqb_neq d 0)) by done. cbn [obind fst hi lo set_hi_lo].
    unfold in_u in *. pose proof (Z.div_mod n d Hne).
    pose proof (Z.mod_pos_bound n d ltac:(lia)). lia.
Qed.

Lemma muldiv_spec_witness :
  let run f := executed 0 0 0 f 0x80000000 0xffffffff (new test_profile) in
  wrap 32 (lo (run 0x1a) * 0xffffffff + hi (run 0x1a)) = 0x80000000.
Proof.
  intros run.
  assert (u32 0x80000000) as Hn by (by split).
  assert (u32 0xffffffff) as Hd by (by split).
  destruct (muldiv_spec 0 0 0 _ _ (new test_profile) Hn Hd) as (_ & _ & Hs & _).
  exact (proj1 (Hs ltac:(lia))).
Defined.

(** ** Unaligned words *)

(** The word at byte offset [k] of the doubleword [w1]:[w0]. *)
Definition funnel (w1 w0 k : Z) : Z := wrap 32 ((w1 * 2 ^ 32 + w0) / 2 ^ (8 * k)).

Lemma funnel_merge base w0 w1 n :
  0 < n < 32 -> u32 w0 -> 0 <= w1 ->
  (((base .& Z.shiftl (Z.ones n) (32 - n)) .| Z.shiftr w0 n) .& Z.ones (32 - n))
    .| shl 32 w1 (32 - n) =
  wrap 32 ((w1 * 2 ^ 32 + w0) / 2 ^ n).
Proof.
  intros Hn Hw0 Hw1.
  assert (in_u (32 - n) (Z.shiftr w0 n)) as Hs by (apply in_u_shiftr_narrow; [lia|done]).
  rewrite Z.land_lor_distr_l. rewrite <- Z.land_assoc.
  assert (Z.shiftl (Z.ones n) (32 - n) .& Z.ones (32 - n) = 0) as ->.
  { rewrite Z.land_ones, Z.shiftl_mul_pow2 by lia. by apply Z_mod_mult. }
  rewrite Z.land_0_r, Z.lor_0_l, Z.land_ones by lia.
  rewrite Z.mod_small by apply Hs.
  unfold shl, wrap. rewrite Z.shiftl_mul_pow2 by lia.
  replace (2 ^ 32) with (2 ^ n * 2 ^ (32 - n)) by (by rewrite <- pow2_split by lia).
  pose proof (pow2_pos n ltac:(lia)). pose proof (pow2_pos (32 - n) ltac:(lia)).
  rewrite Z.mul_mod_distr_r by lia.
  rewrite Z.lor_comm, <- Z.shiftl_mul_pow2, lor_shiftl_add by (lia || done).
  rewrite Z.shiftr_div_pow2 in * by lia. unfold in_u in Hs.
  set (A := 2 ^ n) in *. set (C := 2 ^ (32 - n)) in *. set (y := w0 / A) in *.
  replace (w1 * (A * C) + w0) with (w0 + (w1 * C) * A) by lia.
  rewrite Z.div_add by lia. fold y.
  pose proof (Z.div_mod w1 A ltac:(lia)) as E.
  pose proof (Z.mod_pos_bound w1 A ltac:(lia)) as Hr.
  set (r := w1 mod A) in *. set (q := w1 / A) in *.
  replace (y + w1 * C) with (r * C + y + q * (A * C)) by (rewrite E; lia).
  rewrite Z_mod_plus_full, Z.mod_small; [done|]. nia.
Qed.

Lemma address_offset a k :
  0 <= k < 4 -> a mod 4 = k -> a .& 3 = k.
Proof. intros Hk E. change 3 with (Z.ones 2). by rewrite Z.land_ones by lia. Qed.

Lemma align_word_spec a : u32 a -> align_word a = a - a mod 4.
Proof.
  intros Ha. unfold align_word.
  rewrite land_bnot by done. change 3 with (Z.ones 2).
  rewrite Z.ldiff_ones_r by lia. rewrite Z.shiftl_mul_pow2, Z.shiftr_div_pow2 by lia.
  pose proof (Z.div_mod a 4). change (2 ^ 2) with 4. lia.
Qed.

(** The two halves of an unaligned load assemble the word. *)
Lemma lwl_lwr a base word :
  u32 a -> a + 3 < 2 ^ 32 ->
  (forall x, u32 (word x)) ->
  lwl_value (a + 3) (lwr_value a base (word (align_word a))) (word (align_word (a + 3))) =
  funnel (word (a - a mod 4 + 4)) (word (a - a mod 4)) (a mod 4).
Proof.
  intros Ha Ha3 Hw. assert (u32 (a + 3)) as Ha' by (unfold in_u in *; lia).
  rewrite !align_word_spec by done.
  pose proof (Z.mod_pos_bound a 4 ltac:(lia)) as Hm.
  pose proof (Z.div_mod a 4 ltac:(lia)) as Ed.
  assert (a mod 4 = 0 \/ a mod 4 = 1 \/ a mod 4 = 2 \/ a mod 4 = 3) as
    [E|[E|[E|E]]] by lia.
  - assert ((a + 3) mod 4 = 3) as E3 by (rewrite Z.add_mod, E by lia; done).
    unfold lwl_value, lwr_value.
    rewrite (address_offset _ 3 ltac:(lia) E3), E3, E.
    unfold funnel. change (2 ^ (8 * 0)) with 1. rewrite Z.div_1_r.
    unfold wrap. rewrite (Z.add_comm (_ * _)), Z_mod_plus_full.
    replace (a + 3 - 3) with (a - 0) by lia. symmetry. apply Z.mod_small, Hw.
  - assert ((a + 3) mod 4 = 0) as E3 by (rewrite Z.add_mod, E by lia; done).
    unfold lwl_value, lwr_value.
    rewrite (address_offset _ 0 ltac:(lia) E3), E3, (address_offset a 1 ltac:(lia) E), E.
    replace (a + 3 - 0) with (a - 1 + 4) by lia.
    exact (funnel_merge base _ _ 8 ltac:(lia) (Hw _) (proj1 (Hw _))).
  - assert ((a + 3) mod 4 = 1) as E3 by (rewrite Z.add_mod, E by lia; done).
    unfold lwl_value, lwr_value.
    rewrite (address_offset _ 1 ltac:(lia) E3), E3, (address_offset a 2 ltac:(lia) E), E.
    replace (a + 3 - 1) with (a - 2 + 4) by lia.
    exact (funnel_merge base _ _ 16 ltac:(lia) (Hw _) (proj1 (Hw _))).
  - assert ((a + 3) mod 4 = 2) as E3 by (rewrite Z.add_mod, E by lia; done).
    unfold lwl_value, lwr_value.
    rewrite (address_offset _ 2 ltac:(lia) E3), E3, (address_offset a 3 ltac:(lia) E), E.
    replace (a + 3 - 2) with (a - 3 + 4) by lia.
    exact (funnel_merge base _ _ 24 ltac:(lia) (Hw _) (proj1 (Hw _))).
Qed.

Section unaligned.
Context {B : Type} `{Bus B} (b : B) (word : Z -> Z).
Hypothesis word_range : forall x, u32 (word x).
(** In the bus state [b], aligned words read as [word] and leave [b] alone. *)
Hypothesis reads_word : forall x, u32 x -> x mod 4 = 0 -> read_u32 x b = (Ok (word x), b).

Definition effective_address (i : Z) (c : Cpu) : Z :=
  wrap 32 (at_index (registers c) (rs_of i) + signed_immediate_of i).

Lemma align_word_aligned a : u32 a -> u32 (align_word a) /\ align_word a mod 4 = 0.
Proof.
  intros Ha. rewrite align_word_spec by done. unfold in_u in *.
  pose proof (Z.mod_pos_bound a 4 ltac:(lia)). pose proof (Z.div_mod a 4 ltac:(lia)).
  split; [lia|]. replace (a - a mod 4) with (a / 4 * 4) by lia. by apply Z_mod_mult.
Qed.

Lemma load_word p a c :
  u32 a -> load_u32 p (align_word a) (c, b) = (Ok (word (align_word a)), (c, b)).
Proof.
  intros Ha. pose proof (align_word_aligned a Ha) as [Hu Hm].
  unfold load_u32, on_bus. cbn [fst snd]. by rewrite reads_word.
Qed.

Lemma execute_lwr p i c :
  wf c -> u32 i -> opcode_of i = 0x26 ->
  let a := effective_address i c in
  execute p i (c, b) =
  (Ok (load (rt_of i)
     (lwr_value a (merge_value (rt_of i) c) (word (align_word a))) default_execution),
   (c, b)).
Proof.
  intros Hc Hi Eo a. rewrite execute_reads by done.
  unfold execute_decoded. cbv zeta. rewrite Eo. unfold execute_load.
  cbn [fst snd]. fold (effective_address i c). fold a.
  rewrite load_word by (by apply in_u_wrap). cbn [fst snd].
  by rewrite merge_base_ok by (done || (apply field_range; [apply Hi|lia])).
Qed.

Lemma execute_lwl p i c :
  wf c -> u32 i -> opcode_of i = 0x22 ->
  let a := effective_address i c in
  execute p i (c, b) =
  (Ok (load (rt_of i)
     (lwl_value a (merge_value (rt_of i) c) (word (align_word a))) default_execution),
   (c, b)).
Proof.
  intros Hc Hi Eo a. rewrite execute_reads by done.
  unfold execute_decoded. cbv zeta. rewrite Eo. unfold execute_load.
  cbn [fst snd]. fold (effective_address i c). fold a.
  rewrite load_word by (by apply in_u_wrap). cbn [fst snd].
  by rewrite merge_base_ok by (done || (apply field_range; [apply Hi|lia])).
Qed.

Lemma aligned_no_bits a : a mod 4 = 0 -> has_bits a 3 = false.
Proof.
  intros E. apply has_bits_false. change 3 with (Z.ones 2).
  by rewrite Z.land_ones by lia.
Qed.

Lemma step_load c x :
  wf c -> wf_execution x -> pc c mod 4 = 0 ->
  execute (pc c) (word (pc c)) (c, b) = (Ok x, (c, b)) ->
  ex_exception x = None ->
  step_inner false (c, b) =
  (Ok (mkStepOutcome (pc c) (Some (word (pc c))) (cycles x) Instruction),
   (retired (pc c) x c, b)).
Proof.
  intros Hc Hw Ha Ex Hx. pose proof (wf_pc _ Hc) as Hp. unfold step_inner. cbn [fst snd andb].
  rewrite aligned_no_bits by done. unfold on_bus at 1. cbn [fst snd].
  rewrite reads_word by done. cbn [map_err].
  rewrite Ex, Hx. unfold finish_step. cbn [fst snd]. by rewrite retire_ok.
Qed.

Lemma load_wf rt v : 0 <= rt < 32 -> u32 v -> wf_execution (load rt v default_execution).
Proof. intros. by apply ex_load_wf; [apply default_execution_wf|..]. Qed.

(** LWR at an address followed by LWL three bytes above it loads the word at
    any byte alignment: the pair leaves in flight, for the same register, the
    four bytes from that address, although the second instruction finds the
    first one's result still in its load-delay slot. *)
Theorem unaligned_load c :
  wf c -> load_delay_mode c = LD_Architectural -> pending_load c = None ->
  pc c mod 4 = 0 -> next_pc c mod 4 = 0 ->
  let i := word (pc c) in
  let j := word (next_pc c) in
  opcode_of i = 0x26 -> opcode_of j = 0x22 -> rs_of j = rs_of i ->
  rt_of j = rt_of i -> signed_immediate_of j = signed_immediate_of i + 3 ->
  let a := effective_address i c in
  a + 3 < 2 ^ 32 ->
  exists o1 c1 o2 c2,
    step_inner false (c, b) = (Ok o1, (c1, b)) /\
    step_inner false (c1, b) = (Ok o2, (c2, b)) /\
    so_event o1 = Instruction /\ so_event o2 = Instruction /\
    pending_load c2 =
      Some (rt_of i, funnel (word (a - a mod 4 + 4)) (word (a - a mod 4)) (a mod 4)).
Proof.
  intros Hc Hm Hp Ha1 Ha2 i j Ei Ej Ers Ert Eimm a Hmax.
  pose proof (wf_pc _ Hc) as Hpc. pose proof (wf_next_pc _ Hc) as Hnpc.
  assert (u32 a) as Hau by (by apply in_u_wrap).
  assert (0 <= rt_of i < 32) as Hrt by (apply field_range; [apply word_range|lia]).
  pose proof (fun x => proj1 (proj2 (unaligned_values_u32 x _ _ (merge_value_u32 (rt_of i) c Hc)
    (word_range (align_word a))))) as Hlwr.
  pose proof (execute_lwr (pc c) i c Hc (word_range _) Ei) as Ex1. cbv zeta in Ex1. fold a in Ex1.
  pose proof (load_wf (rt_of i) _ Hrt (Hlwr a)) as Hx1.
  pose proof (step_load c _ Hc Hx1 Ha1 Ex1 eq_refl) as S1.
  pose proof (retired_wf _ _ _ Hc Hpc Hx1) as Hc1.
  rewrite retired_arch in S1, Hc1 by done.
  match type of S1 with _ = (_, (?c', _)) => set (c1 := c') in S1, Hc1 end.
  assert (pc c1 = next_pc c) as Epc by done.
  assert (registers c1 = registers c) as Er.
  { unfold c1. cbn [registers set_registers register_write load default_execution
      set_pipeline reg_write]. rewrite Hp. cbn [reg_write].
    apply list_insert_id, (wf_zero _ Hc). }
  assert (effective_address j c1 = a + 3) as Ea2.
  { unfold effective_address. rewrite Er, Ers, Eimm, Z.add_assoc.
    unfold wrap. rewrite <- Zplus_mod_idemp_l. fold (wrap 32 (at_index (registers c)
      (rs_of i) + signed_immediate_of i)).
    change (wrap 32 _) with a. apply wrap_id. unfold in_u in *. lia. }
  assert (merge_value (rt_of j) c1 =
    lwr_value a (merge_value (rt_of i) c) (word (align_word a))) as Emb.
  { unfold merge_value at 1, c1. cbn [pending_load set_registers set_pipeline
      delayed_write load default_execution]. by rewrite Ert, Z.eqb_refl. }
  pose proof (execute_lwl (pc c1) j c1 Hc1 (word_range _) Ej) as Ex2. cbv zeta in Ex2.
  rewrite Ea2, Emb in Ex2. rewrite lwl_lwr in Ex2 by done.
  rewrite <- Epc in Hnpc, Ha2.
  assert (0 <= rt_of j < 32) as Hrt2 by (by rewrite Ert).
  pose proof (load_wf (rt_of j) (funnel (word (a - a mod 4 + 4)) (word (a - a mod 4)) (a mod 4))
    Hrt2 ltac:(by apply in_u_wrap)) as Hx2.
  pose proof (step_load c1 _ Hc1 Hx2 Ha2 Ex2 eq_refl) as S2.
  do 4 eexists. split_and!; [exact S1|exact S2|done..|].
  rewrite retired_arch by done. cbn [pending_load set_registers set_pipeline
    delayed_write load]. by rewrite Ert.
Qed.

End unaligned.

(** [lwr $2, 0($1); lwl $2, 3($1)] with [$1] one past an aligned word. *)
Definition unaligned_words (x : Z) : Z :=
  if x =? 0x1000 then 0x98220000 else
  if x =? 0x1004 then 0x88220003 else
  if x =? 0x2000 then 0x44332211 else
  if x =? 0x2004 then 0x88776655 else 0.

(** A read-only memory given by a function. *)
Definition rom (word : Z -> Z) : Bus unit := {|
  read_u8 _ b := (Ok 0, b);
  read_u16 _ b := (Ok 0, b);
  read_u32 a b := (Ok (word a), b);
  write_u8 _ _ b := (Ok tt, b);
  write_u16 _ _ b := (Ok tt, b);
  write_u32 _ _ b := (Ok tt, b);
  interrupt_pending _ := false;
|}.

Lemma unaligned_load_witness :
  let bus := rom unaligned_words in
  let c := put_register 1 0x2001 (new test_profile) in
  exists o1 c1 o2 c2,
    step_inner false (c, tt) = (Ok o1, (c1, tt)) /\
    step_inner false (c1, tt) = (Ok o2, (c2, tt)) /\
    so_event o1 = Instruction /\ so_event o2 = Instruction /\
    pending_load c2 = Some (2, 0x55443322).
Proof.
  intros bus c. assert (wf c) as Hc.
  { apply put_register_wf; [apply cpu_new_wf, test_profile_wf|by split|lia]. }
  assert (forall x, u32 (unaligned_words x)) as Hw.
  { intros x. unfold unaligned_words. repeat case_match; by split. }
  exact (unaligned_load (B := unit) tt unaligned_words Hw (fun _ _ _ => eq_refl) c Hc
    eq_refl eq_refl eq_refl eq_refl eq_refl eq_refl eq_refl eq_refl eq_refl eq_refl).
Defined.
