(* ===== verification/Slices.v ===== *)
(** * Slices of byte lists

    [len] and the slice [sub] of a byte list with their equations, the checked forms a
    Rust slice expression and [get] have, overwriting a run, and the little-endian reads
    at an offset that the binary formats share.  [usize] has 64 bits. *)

From S2P Require Import Prelude MachineInt Buffer.

Definition len (l : list Z) : Z := Z.of_nat (length l).

(** The bytes from [start] to [end_]; [slice] is the Rust expression, with its check. *)
Definition sub (l : list Z) (start end_ : Z) : list Z :=
  take (Z.to_nat (end_ - start)) (drop (Z.to_nat start) l).

(** [input.get(start..end)] *)
Definition get_range (l : list Z) (start end_ : Z) : option (list Z) :=
  if (start <=? end_) && (end_ <=? len l) then Some (sub l start end_) else None.

(** The slice expression [&input[start..end]]: it panics when the range is not inside. *)
Definition slice {E} (l : list Z) (start end_ : Z) : outcome E (list Z) :=
  expect (get_range l start end_).

(** [output[start..start + bytes.len()].copy_from_slice(bytes)] *)
Definition splice (l : list Z) (start : Z) (bytes : list Z) : option (list Z) :=
  if (0 <=? start) && (start + len bytes <=? len l)
  then Some (take (Z.to_nat start) l ++ bytes ++ drop (Z.to_nat (start + len bytes)) l) else None.

(** The little-endian value of the [n] bytes at [offset], when they exist. *)
Definition read_le (n : Z) (l : list Z) (offset : Z) : option Z :=
  end_ ← checked_add_u 64 offset n;
  from_le <$> get_range l offset end_.

Lemma len_nonneg l : 0 <= len l.
Proof. unfold len. lia. Qed.

Lemma len_app l1 l2 : len (l1 ++ l2) = len l1 + len l2.
Proof. unfold len. rewrite length_app. lia. Qed.

Lemma len_sub l a b : 0 <= a <= b -> b <= len l -> len (sub l a b) = b - a.
Proof.
  intros Ha Hb. unfold sub, len in *. rewrite length_take, length_drop. lia.
Qed.

Lemma sub_split l a b c :
  0 <= a <= b -> b <= c -> sub l a c = sub l a b ++ sub l b c.
Proof.
  intros Ha Hb. unfold sub.
  replace (Z.to_nat (c - a)) with (Z.to_nat (b - a) + Z.to_nat (c - b))%nat by lia.
  rewrite <- take_take_drop, drop_drop.
  by replace (Z.to_nat a + Z.to_nat (b - a))%nat with (Z.to_nat b) by lia.
Qed.

Lemma sub_all l : sub l 0 (len l) = l.
Proof.
  unfold sub, len. rewrite drop_0. apply take_ge. lia.
Qed.

Lemma sub_drop l a : sub l a (len l) = drop (Z.to_nat a) l.
Proof. unfold sub, len. apply take_ge. rewrite length_drop. lia. Qed.

Lemma sub_app_l l1 l2 a b : 0 <= a -> b <= len l1 -> sub (l1 ++ l2) a b = sub l1 a b.
Proof.
  intros Ha Hb. unfold sub, len in *.
  destruct (decide (b <= a)) as [Hle|].
  - by replace (Z.to_nat (b - a)) with 0%nat by lia.
  - rewrite drop_app_le by lia. apply take_app_le. rewrite length_drop. lia.
Qed.

Lemma sub_app_r l1 l2 a b :
  len l1 <= a -> sub (l1 ++ l2) a b = sub l2 (a - len l1) (b - len l1).
Proof.
  intros Ha. unfold sub, len in *. rewrite drop_app_ge by lia.
  f_equal; [lia|]. f_equal. lia.
Qed.

Lemma sub_exact l1 l2 : sub (l1 ++ l2) 0 (len l1) = l1.
Proof. rewrite sub_app_l by lia. apply sub_all. Qed.

Lemma Forall_sub (P : Z -> Prop) l a b : Forall P l -> Forall P (sub l a b).
Proof. intros H. unfold sub. by apply Forall_take, Forall_drop. Qed.


Lemma get_range_some l a b r :
  get_range l a b = Some r <-> a <= b /\ b <= len l /\ r = sub l a b.
Proof.
  unfold get_range. destruct (Z.leb_spec a b), (Z.leb_spec b (len l)); cbn [andb];
    split; try done; intros; naive_solver lia.
Qed.

Lemma get_range_in l a b : a <= b <= len l -> get_range l a b = Some (sub l a b).
Proof. intros H. apply get_range_some. tauto. Qed.

Lemma slice_in {E} l a b : a <= b <= len l -> slice (E := E) l a b = Ok (sub l a b).
Proof. intros H. unfold slice. by rewrite get_range_in. Qed.

Lemma slice_ok {E} l a b r :
  slice (E := E) l a b = Ok r <-> a <= b /\ b <= len l /\ r = sub l a b.
Proof.
  rewrite <- get_range_some. unfold slice. destruct (get_range l a b); cbn; naive_solver.
Qed.

Lemma slice_no_panic {E} l a b : a <= b <= len l -> no_panic (slice (E := E) l a b).
Proof. intros H. by rewrite slice_in. Qed.

Lemma len_get_range l a b r : 0 <= a -> get_range l a b = Some r -> len r = b - a.
Proof. intros Ha (H1 & H2 & ->)%get_range_some. by apply len_sub. Qed.

Lemma len_replicate n x : 0 <= n -> len (replicate (Z.to_nat n) x) = n.
Proof. intros H. unfold len. rewrite length_replicate. lia. Qed.

Lemma lookup_sub l a b i :
  0 <= a -> 0 <= i < b - a -> sub l a b !! Z.to_nat i = l !! Z.to_nat (a + i).
Proof.
  intros Ha Hi. unfold sub. rewrite lookup_take_lt by lia. rewrite lookup_drop. f_equal. lia.
Qed.

Lemma lookup_len l i : 0 <= i < len l -> is_Some (l !! Z.to_nat i).
Proof. unfold len. intros H. apply lookup_lt_is_Some_2. lia. Qed.

Lemma splice_some l start bytes l' :
  splice l start bytes = Some l' ->
  0 <= start /\ start + len bytes <= len l /\ len l' = len l /\
  forall i, 0 <= i -> l' !! Z.to_nat i =
    if decide (start <= i < start + len bytes) then bytes !! Z.to_nat (i - start)
    else l !! Z.to_nat i.
Proof.
  unfold splice. destruct (Z.leb_spec 0 start) as [H0|], (Z.leb_spec (start + len bytes) (len l)) as [H1|];
    try done. cbn [andb]. intros [= <-].
  split_and!; [done|done| |].
  - unfold len in *. rewrite !length_app, length_take, length_drop. lia.
  - intros i Hi. unfold len in *. case_decide as Hd.
    + rewrite lookup_app_r by (rewrite length_take; lia). rewrite length_take.
      rewrite lookup_app_l by lia. f_equal. lia.
    + destruct (decide (i < start)).
      * rewrite lookup_app_l by (rewrite length_take; lia). apply lookup_take_lt. lia.
      * rewrite lookup_app_r by (rewrite length_take; lia). rewrite length_take.
        rewrite lookup_app_r by lia. rewrite lookup_drop. f_equal. lia.
Qed.

Lemma splice_in l start bytes :
  0 <= start -> start + len bytes <= len l -> exists l', splice l start bytes = Some l'.
Proof.
  intros H0 H1. unfold splice. rewrite (proj2 (Z.leb_le _ _) H0), (proj2 (Z.leb_le _ _) H1). by eexists.
Qed.

Lemma splice_bytes l start bytes l' :
  Forall (in_u 8) l -> Forall (in_u 8) bytes -> splice l start bytes = Some l' -> Forall (in_u 8) l'.
Proof.
  intros Hl Hb. unfold splice. case_match; [|done]. intros [= <-].
  apply Forall_app; split; [by apply Forall_take|]. apply Forall_app; split; [done|by apply Forall_drop].
Qed.

Lemma read_le_some n l o v :
  read_le n l o = Some v -> o + n < 2 ^ 64 /\ 0 <= n /\ o + n <= len l /\ v = from_le (sub l o (o + n)).
Proof.
  unfold read_le. intros (e & [-> He]%checked_add_u_Some & Hr)%bind_Some.
  apply fmap_Some in Hr as (r & (Ha & Hb & ->)%get_range_some & ->). split_and!; [done|lia|done|done].
Qed.

Lemma read_le_range n l o v :
  Forall (in_u 8) l -> 0 <= o -> read_le n l o = Some v -> in_u (8 * n) v.
Proof.
  intros Hb Ho (H1 & Hn & H2 & ->)%read_le_some.
  pose proof (from_le_range _ (Forall_sub _ _ o (o + n) Hb)) as Hr.
  fold (len (sub l o (o + n))) in Hr. rewrite len_sub in Hr by lia.
  unfold in_u. rewrite Z.pow_mul_r by lia. change (2 ^ 8) with 256.
  by replace (o + n - o) with n in Hr by lia.
Qed.

Lemma read_le_in n l o :
  0 <= n -> o + n <= len l -> len l < 2 ^ 64 -> read_le n l o = Some (from_le (sub l o (o + n))).
Proof.
  intros Hn Hle Hlt. unfold read_le.
  assert (checked_add_u 64 o n = Some (o + n)) as -> by (apply checked_add_u_Some; split; [done|lia]).
  cbn [mbind option_bind]. by rewrite get_range_in by lia.
Qed.

Lemma list_eq_at (l k : list Z) :
  len l = len k -> (forall i, 0 <= i < len l -> l !! Z.to_nat i = k !! Z.to_nat i) -> l = k.
Proof.
  intros Hlen H. apply list_eq_same_length with (n := length l); [|done|].
  - unfold len in Hlen. lia.
  - intros i x y Hi Ex Ey. specialize (H (Z.of_nat i)). rewrite Nat2Z.id in H.
    unfold len in H. rewrite H in Ex by lia. congruence.
Qed.

(** Reads depend on their bytes alone, and a spliced value is read back. *)
Lemma read_le_ext n l l' o :
  0 <= o -> len l = len l' -> len l < 2 ^ 64 ->
  (forall i, o <= i < o + n -> l !! Z.to_nat i = l' !! Z.to_nat i) ->
  read_le n l o = read_le n l' o.
Proof.
  intros Ho Hlen Hlt H. unfold read_le. destruct (checked_add_u 64 o n) as [e|] eqn:E; [|done].
  apply checked_add_u_Some in E as [-> E]. cbn [mbind option_bind]. unfold get_range. rewrite Hlen.
  destruct (_ && _) eqn:Er; [|done]. apply andb_true_iff in Er as [E1 E2]. zbool.
  do 2 f_equal. apply list_eq_at; rewrite !len_sub by lia; [done|].
  intros i Hi. rewrite !lookup_sub by lia. apply H. lia.
Qed.

Lemma read_le_splice n l o v l' :
  in_u (8 * Z.of_nat n) v -> len l < 2 ^ 64 -> splice l o (le_bytes n v) = Some l' ->
  read_le (Z.of_nat n) l' o = Some v.
Proof.
  intros Hv Hlt (H0 & H1 & Hlen & Hl)%splice_some.
  assert (len (le_bytes n v) = Z.of_nat n) as En by (unfold len; by rewrite length_le_bytes).
  rewrite En in *. rewrite read_le_in by lia. f_equal.
  replace (sub l' o (o + Z.of_nat n)) with (le_bytes n v).
  - apply le_from_le_bytes. unfold in_u in Hv. rewrite Z.pow_mul_r in Hv by lia. exact Hv.
  - apply list_eq_at; rewrite En; [rewrite len_sub by lia; lia|].
    intros i Hi. rewrite lookup_sub, Hl, decide_True by lia. f_equal. lia.
Qed.

Lemma read_le_splice_other n l o o' bytes l' :
  0 <= o' -> len l < 2 ^ 64 -> splice l o bytes = Some l' ->
  o' + n <= o \/ o + len bytes <= o' -> read_le n l' o' = read_le n l o'.
Proof.
  intros Ho Hlt (H0 & H1 & Hlen & Hl)%splice_some Hd. symmetry. apply read_le_ext; [done|done|done|].
  intros i Hi. rewrite Hl, decide_False by lia. done.
Qed.
