(* ===== verification/PsfText.v ===== *)
(** * Text as bytes

    A Rust [&str] or [String] is the list of its UTF-8 bytes.  This file models
    what the PSF crate uses of the standard library on byte strings: splitting,
    searching, ASCII case folding, trimming and lossy decoding. *)

From S2P Require Import Prelude MachineInt.
From Stdlib Require Import Ascii.

Notation text := (list Z) (only parsing).

(** The bytes of an ASCII literal. *)
Fixpoint str (s : string) : text :=
  match s with
  | EmptyString => []
  | String a s => Z.of_nat (nat_of_ascii a) :: str s
  end.

Definition is_digit (b : Z) : bool := (0x30 <=? b) && (b <=? 0x39).
Definition is_upper (b : Z) : bool := (0x41 <=? b) && (b <=? 0x5a).
Definition is_lower (b : Z) : bool := (0x61 <=? b) && (b <=? 0x7a).
Definition is_ascii_alphabetic (b : Z) : bool := is_upper b || is_lower b.
Definition is_ascii_alphanumeric (b : Z) : bool := is_ascii_alphabetic b || is_digit b.

Definition to_ascii_lowercase (b : Z) : Z := if is_upper b then b + 0x20 else b.

Definition eq_ignore_ascii_case (x y : text) : bool :=
  bool_decide (map to_ascii_lowercase x = map to_ascii_lowercase y).

(** [iter().position(p)] *)
Fixpoint position (p : Z -> bool) (l : text) : option nat :=
  match l with
  | [] => None
  | b :: l => if p b then Some 0%nat else S <$> position p l
  end.

(** [split(|byte| *byte == sep)]: never empty. *)
Fixpoint split_on (sep : Z) (l : text) : list text :=
  match l with
  | [] => [[]]
  | b :: l =>
      if b =? sep then [] :: split_on sep l
      else match split_on sep l with
           | [] => [[b]]
           | x :: rest => (b :: x) :: rest
           end
  end.

(** [replace(from, to)] for one-byte patterns. *)
Definition replace_byte (from to : Z) (l : text) : text :=
  map (fun b => if b =? from then to else b) l.

(** Dropping bytes at either end while a predicate holds. *)
Fixpoint drop_while (p : Z -> bool) (l : text) : text :=
  match l with
  | [] => []
  | b :: l' => if p b then drop_while p l' else l
  end.

Definition trim_both (p : Z -> bool) (l : text) : text :=
  reverse (drop_while p (reverse (drop_while p l))).

Fixpoint starts_with (prefix l : text) : bool :=
  match prefix, l with
  | [], _ => true
  | p :: prefix, b :: l => (p =? b) && starts_with prefix l
  | _, _ => false
  end.

(** ** [str::trim]: the Unicode [White_Space] code points *)

Definition ascii_space (b : Z) : bool := ((9 <=? b) && (b <=? 13)) || (b =? 32).

Definition space2 (a b : Z) : bool := (a =? 0xc2) && ((b =? 0x85) || (b =? 0xa0)).

Definition space3 (a b c : Z) : bool :=
  ((a =? 0xe1) && (b =? 0x9a) && (c =? 0x80)) ||
  ((a =? 0xe2) && (b =? 0x80) &&
     (((0x80 <=? c) && (c <=? 0x8a)) || (c =? 0xa8) || (c =? 0xa9) || (c =? 0xaf))) ||
  ((a =? 0xe2) && (b =? 0x81) && (c =? 0x9f)) ||
  ((a =? 0xe3) && (b =? 0x80) && (c =? 0x80)).

Fixpoint trim_start (l : text) : text :=
  match l with
  | [] => []
  | a :: l1 =>
      if ascii_space a then trim_start l1
      else match l1 with
           | b :: l2 =>
               if space2 a b then trim_start l2
               else match l2 with
                    | c :: l3 => if space3 a b c then trim_start l3 else l
                    | [] => l
                    end
           | [] => l
           end
  end.

(** The same over the reversed bytes. *)
Fixpoint trim_start_rev (l : text) : text :=
  match l with
  | [] => []
  | c :: l1 =>
      if ascii_space c then trim_start_rev l1
      else match l1 with
           | b :: l2 =>
               if space2 b c then trim_start_rev l2
               else match l2 with
                    | a :: l3 => if space3 a b c then trim_start_rev l3 else l
                    | [] => l
                    end
           | [] => l
           end
  end.

Definition str_trim (l : text) : text :=
  reverse (trim_start_rev (reverse (trim_start l))).

(** ** [String::from_utf8_lossy] *)

Definition continuation (b : Z) : bool := (0x80 <=? b) && (b <=? 0xbf).

(** U+FFFD *)
Definition replacement : text := [0xef; 0xbf; 0xbd].

(** The second bytes a three- or four-byte lead admits. *)
Definition second3 (a b : Z) : bool :=
  if a =? 0xe0 then (0xa0 <=? b) && (b <=? 0xbf)
  else if a =? 0xed then (0x80 <=? b) && (b <=? 0x9f)
  else continuation b.
Definition second4 (a b : Z) : bool :=
  if a =? 0xf0 then (0x90 <=? b) && (b <=? 0xbf)
  else if a =? 0xf4 then (0x80 <=? b) && (b <=? 0x8f)
  else continuation b.

(** Each maximal ill-formed prefix becomes one replacement character. *)
Fixpoint from_utf8_lossy (l : text) : text :=
  match l with
  | [] => []
  | a :: l1 =>
      if a <? 0x80 then a :: from_utf8_lossy l1
      else if (0xc2 <=? a) && (a <=? 0xdf) then
        match l1 with
        | b :: l2 =>
            if continuation b then a :: b :: from_utf8_lossy l2
            else replacement ++ from_utf8_lossy l1
        | [] => replacement
        end
      else if (0xe0 <=? a) && (a <=? 0xef) then
        match l1 with
        | b :: l2 =>
            if second3 a b then
              match l2 with
              | c :: l3 =>
                  if continuation c then a :: b :: c :: from_utf8_lossy l3
                  else replacement ++ from_utf8_lossy l2
              | [] => replacement
              end
            else replacement ++ from_utf8_lossy l1
        | [] => replacement
        end
      else if (0xf0 <=? a) && (a <=? 0xf4) then
        match l1 with
        | b :: l2 =>
            if second4 a b then
              match l2 with
              | c :: l3 =>
                  if continuation c then
                    match l3 with
                    | d :: l4 =>
                        if continuation d then a :: b :: c :: d :: from_utf8_lossy l4
                        else replacement ++ from_utf8_lossy l3
                    | [] => replacement
                    end
                  else replacement ++ from_utf8_lossy l2
              | [] => replacement
              end
            else replacement ++ from_utf8_lossy l1
        | [] => replacement
        end
      else replacement ++ from_utf8_lossy l1
  end.

Lemma lossy_ascii l : Forall (fun b => b < 0x80) l -> from_utf8_lossy l = l.
Proof.
  induction 1 as [|b l Hb Hl IH]; [done|]. cbn [from_utf8_lossy].
  rewrite (proj2 (Z.ltb_lt b 0x80)) by done. by rewrite IH.
Qed.

(** ** Numbers *)

(** The value of a run of digits, and [str::parse::<u64>] on one. *)
Definition digit_value (b : Z) : Z := b - 0x30.
Definition digits_value (l : text) : Z :=
  fold_left (fun acc b => 10 * acc + digit_value b) l 0.
Definition parse_u64 (l : text) : option Z :=
  if forallb is_digit l && negb (bool_decide (l = []))
  then try_from_u 64 (digits_value l) else None.

Lemma digits_value_app l1 l2 :
  digits_value (l1 ++ l2) = digits_value l1 * 10 ^ Z.of_nat (length l2) + digits_value l2.
Proof.
  assert (forall l acc, fold_left (fun acc b => 10 * acc + digit_value b) l acc =
    acc * 10 ^ Z.of_nat (length l) + digits_value l) as Hf.
  { unfold digits_value. induction l as [|b l IH]; intros acc; [simpl; lia|].
    cbn [fold_left length]. rewrite (IH (10 * acc + _)), (IH (10 * 0 + _)).
    rewrite Nat2Z.inj_succ, Z.pow_succ_r by lia. lia. }
  unfold digits_value at 1. rewrite fold_left_app. apply Hf.
Qed.

Lemma digits_value_nonneg l : forallb is_digit l = true -> 0 <= digits_value l.
Proof.
  unfold digits_value. cut (forall acc, 0 <= acc -> forallb is_digit l = true ->
    0 <= fold_left (fun acc b => 10 * acc + digit_value b) l acc); [intros H; by apply H|].
  induction l as [|b l IH]; intros acc Ha; simpl; [done|].
  intros [Hb Hl]%andb_true_iff. apply IH; [|done].
  unfold is_digit, digit_value in *. zbool. lia.
Qed.

Lemma split_on_none sep l :
  Forall (fun b => b <> sep) l -> split_on sep l = [l].
Proof.
  induction 1 as [|b l Hb Hl IH]; [done|]. simpl.
  rewrite (proj2 (Z.eqb_neq _ _)) by done. by rewrite IH.
Qed.

Lemma split_on_app sep l rest :
  Forall (fun b => b <> sep) l ->
  split_on sep (l ++ sep :: rest) = l :: split_on sep rest.
Proof.
  induction 1 as [|b l Hb Hl IH]; simpl; [by rewrite Z.eqb_refl|].
  rewrite (proj2 (Z.eqb_neq _ _)) by done. by rewrite IH.
Qed.
