(* ===== verification/PsfDuration.v ===== *)
(** * Exact durations: crates/formats/shared/psf/src/duration.rs

    [Duration] is a reduced fraction of seconds.  The parser is the code's, on
    bytes; the theorem states that it accepts the grammar exactly and computes
    the exact rational. *)

From S2P Require Import Prelude MachineInt PsfText.

Record Duration := mkDuration { numerator : Z; denominator : Z }.

Inductive DurationError := InvalidSyntax | OutOfRange | Overflow | ZeroDenominator.

(** [gcd]: [right] at least halves every two iterations, so twice the logarithm
    of [right] iterations reach zero. *)
Fixpoint gcd_loop (fuel : nat) (left right : Z) : Z :=
  match fuel with
  | O => left
  | S fuel => if right =? 0 then left else gcd_loop fuel right (left mod right)
  end.

Definition gcd (left right : Z) : Z :=
  let g := gcd_loop (Z.to_nat (2 * Z.log2_up (right + 1) + 1)) left right in
  if g =? 0 then 1 else g.

Definition integer (l : list Z) : outcome DurationError Z :=
  if bool_decide (l = []) || negb (forallb is_digit l) then Err InvalidSyntax
  else ok_or (parse_u64 l) Overflow.

Module Duration.

Definition ZERO : Duration := mkDuration 0 1.

(** The whole part, and the fraction with its scale: [1.25] is 1, 25 and 100. *)
Definition parse_fraction (fraction_text : option (list Z))
    : outcome DurationError (Z * Z) :=
  match fraction_text with
  | None => Ok (0, 1)
  | Some [] => Err InvalidSyntax
  | Some text =>
      if (18 <? Z.of_nat (length text)) || negb (forallb is_digit text)
      then Err InvalidSyntax
      else
        let? scale := ok_or (try_from_u 64 (10 ^ Z.of_nat (length text))) Overflow in
        let? fraction := integer text in
        Ok (fraction, scale)
  end.

(** [split_once('.')] *)
Definition split_once (l : list Z) : list Z * option (list Z) :=
  match position (fun b => b =? 0x2e) l with
  | None => (l, None)
  | Some i => (take i l, Some (drop (S i) l))
  end.

Definition count_byte (x : Z) (l : list Z) : nat :=
  length (filter (fun b => b = x) l).

Definition from_parts (hours minutes seconds fraction scale : Z)
    : outcome DurationError Duration :=
  let? whole := ok_or
    (v ← checked_mul_u 64 hours 3600;
     m ← checked_mul_u 64 minutes 60;
     v ← checked_add_u 64 v m;
     checked_add_u 64 v seconds) Overflow in
  let? numerator := ok_or
    (v ← checked_mul_u 64 whole scale; checked_add_u 64 v fraction) Overflow in
  let divisor := gcd numerator scale in
  Ok (mkDuration (numerator / divisor) (scale / divisor)).

Definition parse (input : list Z) : outcome DurationError Duration :=
  let input := str_trim input in
  if bool_decide (input = []) || starts_with (str "-") input ||
     starts_with (str "+") input
  then Err InvalidSyntax
  else
    let components := split_on 0x3a input in
    let? (hours, minutes, seconds_text) :=
      match components with
      | [seconds] => Ok (0, 0, seconds)
      | [minutes; seconds] => let? m := integer minutes in Ok (0, m, seconds)
      | [hours; minutes; seconds] =>
          let? h := integer hours in
          let? m := integer minutes in
          Ok (h, m, seconds)
      | _ => Err InvalidSyntax
      end in
    if (Z.of_nat (length components) =? 3) && (60 <=? minutes) then Err OutOfRange
    else
      let normalized := replace_byte 0x2c 0x2e seconds_text in
      if (1 <? count_byte 0x2e normalized)%nat then Err InvalidSyntax
      else
        let (seconds_whole_text, fraction_text) := split_once normalized in
        let? seconds := integer seconds_whole_text in
        if (1 <? Z.of_nat (length components)) && (60 <=? seconds) then Err OutOfRange
        else
          let? (fraction, scale) := parse_fraction fraction_text in
          from_parts hours minutes seconds fraction scale.

Definition from_ratio (numerator denominator : Z) : outcome DurationError Duration :=
  if denominator =? 0 then Err ZeroDenominator
  else
    let divisor := gcd numerator denominator in
    Ok (mkDuration (numerator / divisor) (denominator / divisor)).

Definition to_frames_floor (d : Duration) (sample_rate : Z)
    : outcome DurationError Z :=
  let? product := ok_or (checked_mul_u 128 (numerator d) sample_rate) Overflow in
  (* a zero denominator would be a division panic *)
  if denominator d =? 0 then Panic
  else ok_or (try_from_u 64 (product / denominator d)) Overflow.

End Duration.

(** [#[derive(Default)]] *)
Definition Duration_default : Duration := mkDuration 0 0.

(** ** The greatest common divisor *)

Lemma gcd_loop_spec n l r :
  0 <= l -> 0 <= r < 2 ^ Z.of_nat n ->
  gcd_loop (2 * n + 1) l r = Z.gcd l r.
Proof.
  revert l r. induction n as [|n IH]; intros l r Hl Hr.
  - change (2 ^ Z.of_nat 0) with 1 in Hr. assert (r = 0) as -> by lia.
    cbn. rewrite Z.gcd_0_r_nonneg; lia.
  - replace (2 * S n + 1)%nat with (S (S (2 * n + 1))) by lia.
    cbn [gcd_loop]. destruct (Z.eqb_spec r 0) as [->|Hr0].
    { rewrite Z.gcd_0_r_nonneg; lia. }
    pose proof (Z.mod_pos_bound l r ltac:(lia)) as Hm.
    destruct (Z.eqb_spec (l mod r) 0) as [E|Hm0].
    { rewrite (Z.gcd_comm l r), <- (Z.gcd_mod l r), E by done.
      by rewrite Z.gcd_0_l_nonneg by lia. }
    pose proof (Z.mod_pos_bound r (l mod r) ltac:(lia)) as Hm'.
    rewrite IH; [|lia|].
    + rewrite (Z.gcd_comm (l mod r)), (Z.gcd_mod r) by done.
      by rewrite (Z.gcd_mod l), Z.gcd_comm by done.
    + rewrite Nat2Z.inj_succ, Z.pow_succ_r in Hr by lia.
      assert (1 <= r / (l mod r)) by (apply Z.div_le_lower_bound; lia).
      pose proof (Z.div_mod r (l mod r) ltac:(lia)). nia.
Qed.

Lemma gcd_spec l r :
  0 <= l -> 0 <= r -> 0 < l \/ 0 < r -> gcd l r = Z.gcd l r.
Proof.
  intros Hl Hr Hpos. unfold gcd.
  set (n := Z.to_nat (Z.log2_up (r + 1))).
  replace (Z.to_nat (2 * Z.log2_up (r + 1) + 1)) with (2 * n + 1)%nat.
  2: { unfold n. pose proof (Z.log2_up_nonneg (r + 1)). lia. }
  rewrite gcd_loop_spec; [|done|].
  - destruct (Z.eqb_spec (Z.gcd l r) 0) as [E|]; [|done].
    apply Z.gcd_eq_0 in E. lia.
  - split; [done|]. unfold n. pose proof (Z.log2_up_nonneg (r + 1)).
    rewrite Z2Nat.id by done.
    destruct (decide (r = 0)) as [->|]; [done|].
    pose proof (Z.log2_log2_up_spec (r + 1) ltac:(lia)). lia.
Qed.

(** [d] is the fraction [n / s] in lowest terms. *)
Definition exactly (d : Duration) (n s : Z) : Prop :=
  numerator d * s = n * denominator d /\ Z.gcd (numerator d) (denominator d) = 1 /\
  0 < denominator d /\ 0 <= numerator d.

Lemma reduced n s :
  0 <= n -> 0 < s -> exactly (mkDuration (n / gcd n s) (s / gcd n s)) n s.
Proof.
  intros Hn Hs. rewrite gcd_spec by lia.
  destruct (Z.gcd_divide_l n s) as [a Ha]. destruct (Z.gcd_divide_r n s) as [b Hb].
  assert (0 < Z.gcd n s) as Hg.
  { pose proof (Z.gcd_nonneg n s). destruct (decide (Z.gcd n s = 0)) as [E|]; [|lia].
    apply Z.gcd_eq_0 in E. lia. }
  set (g := Z.gcd n s) in *.
  assert (n / g = a) as En by (rewrite Ha; by rewrite Z.div_mul by lia).
  assert (s / g = b) as Es by (rewrite Hb; by rewrite Z.div_mul by lia).
  unfold exactly. cbn [numerator denominator]. rewrite En, Es. split_and!.
  - rewrite Hb, Ha at 1. nia.
  - rewrite <- En, <- Es. apply Z.gcd_div_gcd; [lia|done].
  - nia.
  - nia.
Qed.

(** ** Components *)

Lemma integer_spec l :
  l <> [] -> forallb is_digit l = true ->
  integer l = if digits_value l <? 2 ^ 64 then Ok (digits_value l) else Err Overflow.
Proof.
  intros Hne Hd. unfold integer. rewrite bool_decide_false, Hd by done. cbn [orb negb].
  unfold parse_u64. rewrite Hd, bool_decide_false by done. cbn [andb negb].
  unfold try_from_u. by destruct (digits_value l <? 2 ^ 64).
Qed.

Lemma from_parts_spec h m s f scale :
  0 <= h -> 0 <= m -> 0 <= s -> 0 <= f -> 1 <= scale ->
  let n := (3600 * h + 60 * m + s) * scale + f in
  Duration.from_parts h m s f scale =
  if n <? 2 ^ 64 then Ok (mkDuration (n / gcd n scale) (scale / gcd n scale))
  else Err Overflow.
Proof.
  intros Hh Hm Hs Hf Hsc n. unfold Duration.from_parts.
  assert (h * 3600 + m * 60 + s <= n) as Hle by (unfold n; nia).
  unfold checked_mul_u, checked_add_u.
  replace n with ((h * 3600 + m * 60 + s) * scale + f) in * by (unfold n; lia).
  assert ((h * 3600 + m * 60 + s) * 1 <= (h * 3600 + m * 60 + s) * scale)
    by (apply Z.mul_le_mono_nonneg_l; lia).
  destruct (Z.ltb_spec ((h * 3600 + m * 60 + s) * scale + f) (2 ^ 64)).
  - do 6 (rewrite (proj2 (Z.ltb_lt _ (2 ^ 64))) by lia;
      cbn [mbind option_bind ok_or obind]). done.
  - repeat (case_match; cbn [mbind option_bind ok_or obind] in *; simplify_eq/=;
      try done).
    zbool. lia.
Qed.

(** ** The grammar *)

Definition digits (l : list Z) : Prop := l <> [] /\ forallb is_digit l = true.

Inductive prefix := Bare | Minutes (m : list Z) | Hours (h m : list Z).

Definition seconds_text (s : list Z) (f : option (Z * list Z)) : list Z :=
  s ++ match f with None => [] | Some (sep, f) => sep :: f end.

Definition render (p : prefix) (s : list Z) (f : option (Z * list Z)) : list Z :=
  match p with
  | Bare => seconds_text s f
  | Minutes m => m ++ 0x3a :: seconds_text s f
  | Hours h m => h ++ 0x3a :: m ++ 0x3a :: seconds_text s f
  end.

Definition fraction_ok (f : option (Z * list Z)) : Prop :=
  match f with
  | None => True
  | Some (sep, f) => (sep = 0x2e \/ sep = 0x2c) /\ digits f /\ (length f <= 18)%nat
  end.

Definition prefix_ok (p : prefix) : Prop :=
  match p with
  | Bare => True
  | Minutes m => digits m /\ digits_value m < 2 ^ 64
  | Hours h m => digits h /\ digits_value h < 2 ^ 64 /\ digits m /\ digits_value m < 2 ^ 64
  end.

Definition hours_of (p : prefix) : Z :=
  match p with Hours h _ => digits_value h | _ => 0 end.
Definition minutes_of (p : prefix) : Z :=
  match p with Bare => 0 | Minutes m => digits_value m | Hours _ m => digits_value m end.
Definition fraction_of (f : option (Z * list Z)) : Z :=
  match f with None => 0 | Some (_, f) => digits_value f end.
Definition scale_of (f : option (Z * list Z)) : Z :=
  match f with None => 1 | Some (_, f) => 10 ^ Z.of_nat (length f) end.

Definition in_range (p : prefix) (s : list Z) : bool :=
  match p with
  | Bare => true
  | Minutes _ => digits_value s <? 60
  | Hours _ m => (digits_value m <? 60) && (digits_value s <? 60)
  end.

Lemma digit_range l : forallb is_digit l = true -> Forall (fun b => 0x30 <= b <= 0x39) l.
Proof.
  intros H. apply Forall_forall. intros b Hb.
  rewrite forallb_forall in H. apply list_elem_of_In in Hb. specialize (H b Hb).
  unfold is_digit in H. zbool. lia.
Qed.

Lemma digits_no b l : forallb is_digit l = true -> b < 0x30 \/ 0x39 < b ->
  Forall (fun x => x <> b) l.
Proof. intros H Hb. eapply Forall_impl; [by apply digit_range|]. simpl. lia. Qed.

Lemma seconds_no_colon s f :
  digits s -> fraction_ok f -> Forall (fun x => x <> 0x3a) (seconds_text s f).
Proof.
  intros [_ Hs] Hf. unfold seconds_text. apply Forall_app. split.
  - apply digits_no; [done|lia].
  - destruct f as [[sep f]|]; [|constructor]. destruct Hf as (Hsep & [_ Hd] & _).
    constructor; [lia|]. apply digits_no; [done|lia].
Qed.

(** Text that starts and ends with a digit is not trimmed. *)
Lemma trim_digits l a b :
  head l = Some a -> last l = Some b -> 0x30 <= a <= 0x39 -> 0x30 <= b <= 0x39 ->
  str_trim l = l.
Proof.
  intros Ha Hb Ra Rb. unfold str_trim.
  assert (forall x, 0x30 <= x <= 0x39 -> ascii_space x = false) as Hsp.
  { intros x Hx. unfold ascii_space.
    lia. }
  assert (trim_start l = l) as ->.
  { destruct l as [|x l]; [done|]. injection Ha as ->. cbn [trim_start].
    rewrite Hsp by done. destruct l as [|y l]; [done|].
    unfold space2. rewrite (proj2 (Z.eqb_neq a 0xc2)) by lia. cbn [andb].
    destruct l as [|z l]; [done|]. unfold space3.
    rewrite (proj2 (Z.eqb_neq a 0xe1)), (proj2 (Z.eqb_neq a 0xe2)),
      (proj2 (Z.eqb_neq a 0xe3)) by lia. done. }
  assert (head (reverse l) = Some b) as Hr by (by rewrite <- Hb, head_reverse).
  assert (trim_start_rev (reverse l) = reverse l) as ->.
  { destruct (reverse l) as [|c l']; [done|]. injection Hr as ->. cbn [trim_start_rev].
    rewrite Hsp by done. destruct l' as [|y l']; [done|].
    unfold space2. rewrite (proj2 (Z.eqb_neq b 0x85)), (proj2 (Z.eqb_neq b 0xa0)) by lia.
    rewrite andb_false_r. destruct l' as [|z l']; [done|]. unfold space3.
    rewrite (proj2 (Z.eqb_neq b 0x80)), (proj2 (Z.eqb_neq b 0xa8)),
      (proj2 (Z.eqb_neq b 0xa9)), (proj2 (Z.eqb_neq b 0xaf)),
      (proj2 (Z.eqb_neq b 0x9f)) by lia.
    rewrite (proj2 (Z.leb_gt 0x80 b)) by lia.
    by rewrite !andb_false_r. }
  apply reverse_involutive.
Qed.

Lemma head_app_cons {A} (l1 l2 : list A) : l1 <> [] -> head (l1 ++ l2) = head l1.
Proof. by destruct l1. Qed.

Lemma last_app_cons {A} (l1 l2 : list A) : l2 <> [] -> last (l1 ++ l2) = last l2.
Proof.
  intros H. rewrite last_app. destruct (last l2) eqn:E; [done|].
  by apply last_None in E.
Qed.

Lemma digits_ends l : digits l ->
  exists a b, head l = Some a /\ last l = Some b /\
    0x30 <= a <= 0x39 /\ 0x30 <= b <= 0x39.
Proof.
  intros [Hne Hd%digit_range]. destruct (head l) as [a|] eqn:Ea; [|by destruct l].
  destruct (last l) as [b|] eqn:Eb; [|by apply last_None in Eb].
  exists a, b. rewrite Forall_forall in Hd. split_and!; try done.
  all: apply Hd; first [destruct l; [done|]; injection Ea as ->; left
    | apply last_Some in Eb as [l' ->]; apply elem_of_app; right; left].
Qed.

Lemma render_head p s f :
  prefix_ok p -> digits s ->
  exists a l, render p s f = a :: l /\ 0x30 <= a <= 0x39.
Proof.
  intros Hp Hs.
  assert (forall l l', digits l -> exists a r, l ++ l' = a :: r /\ 0x30 <= a <= 0x39) as Hh.
  { intros l l' Hl. destruct (digits_ends l Hl) as (a & _ & Ea & _ & Ra & _).
    destruct l as [|x l]; [done|]. injection Ea as ->. by exists a, (l ++ l'). }
  destruct p; cbn [render]; apply Hh; [done|apply Hp..].
Qed.

Lemma render_trim p s f :
  prefix_ok p -> digits s -> fraction_ok f -> str_trim (render p s f) = render p s f.
Proof.
  intros Hp Hs Hf.
  assert (exists b, last (seconds_text s f) = Some b /\ 0x30 <= b <= 0x39 /\
    seconds_text s f <> []) as (b & Hb & Rb & Hne).
  { unfold seconds_text. destruct (digits_ends s Hs) as (_ & b & _ & Eb & _ & Rb).
    destruct f as [[sep f]|].
    - destruct Hf as (_ & Hd & _).
      destruct (digits_ends f Hd) as (_ & b' & _ & Eb' & _ & Rb').
      exists b'. split_and!; [|lia..|by destruct s].
      rewrite last_app_cons by done. change (sep :: f) with ([sep] ++ f).
      by rewrite last_app_cons by apply Hd.
    - exists b. rewrite app_nil_r. split_and!; [done|lia..|apply Hs]. }
  destruct (render_head p s f Hp Hs) as (a & r & Er & Ra).
  apply (trim_digits _ a b); [by rewrite Er| |done..].
  destruct p; cbn [render]; [done|by rewrite last_app_cons, last_cons, Hb by done|].
  rewrite last_app_cons, last_cons, last_app_cons, last_cons, Hb by done. done.
Qed.

(** ** The fraction *)

Lemma replace_digits l : forallb is_digit l = true -> replace_byte 0x2c 0x2e l = l.
Proof.
  intros H%digit_range. unfold replace_byte. induction H as [|b l Hb Hl IH]; [done|].
  cbn. rewrite IH. by rewrite (proj2 (Z.eqb_neq b 0x2c)) by lia.
Qed.

Lemma position_none p l : Forall (fun b => p b = false) l -> position p l = None.
Proof. induction 1 as [|b l Hb Hl IH]; [done|]. cbn. by rewrite Hb, IH. Qed.

Lemma position_app p l b rest :
  Forall (fun b => p b = false) l -> p b = true ->
  position p (l ++ b :: rest) = Some (length l).
Proof.
  induction 1 as [|x l Hx Hl IH]; intros Hb; cbn; [by rewrite Hb|].
  by rewrite Hx, IH.
Qed.

Lemma digits_not_dot l :
  forallb is_digit l = true -> Forall (fun b => (b =? 0x2e) = false) l.
Proof.
  intros H. eapply Forall_impl; [by apply digit_range|].
  intros x Hx. apply Z.eqb_neq. simpl in Hx. lia.
Qed.

Lemma count_digits l : forallb is_digit l = true -> Duration.count_byte 0x2e l = 0%nat.
Proof.
  intros H. unfold Duration.count_byte. rewrite filter_none; [done|].
  apply digits_no; [done|lia].
Qed.

Lemma seconds_split s f :
  digits s -> fraction_ok f ->
  let n := replace_byte 0x2c 0x2e (seconds_text s f) in
  (Duration.count_byte 0x2e n <= 1)%nat /\ Duration.split_once n = (s, snd <$> f).
Proof.
  intros [_ Hs] Hf. cbv zeta. unfold seconds_text.
  destruct f as [[sep f]|].
  - destruct Hf as (Hsep & [_ Hd] & _).
    assert (replace_byte 0x2c 0x2e (s ++ sep :: f) = s ++ 0x2e :: f) as ->.
    { unfold replace_byte. rewrite map_app. cbn [map].
      fold (replace_byte 0x2c 0x2e s). fold (replace_byte 0x2c 0x2e f).
      rewrite !replace_digits by done. f_equal. f_equal. by destruct Hsep as [->| ->]. }
    split.
    + unfold Duration.count_byte. rewrite filter_app, filter_cons_True by done.
      rewrite length_app. cbn [length].
      pose proof (count_digits s Hs) as E1. pose proof (count_digits f Hd) as E2.
      unfold Duration.count_byte in *. lia.
    + unfold Duration.split_once.
      rewrite position_app; [|by apply digits_not_dot|done].
      cbn. rewrite take_app_length. do 2 f_equal.
      rewrite <- (take_drop (length s) (s ++ 46 :: f)) at 1.
      change (46 :: f) with ([46] ++ f). rewrite (app_assoc s).
      replace (S (length s)) with (length (s ++ [46])) by (rewrite length_app; cbn; lia).
      rewrite take_drop. by rewrite drop_app_length.
  - rewrite app_nil_r, replace_digits, count_digits by done. split; [lia|].
    unfold Duration.split_once.
    by rewrite position_none by (by apply digits_not_dot).
Qed.

Lemma digits_bound l :
  forallb is_digit l = true -> 0 <= digits_value l < 10 ^ Z.of_nat (length l).
Proof.
  intros H. split; [by apply digits_value_nonneg|].
  induction l as [|b l IH] using rev_ind; [done|].
  rewrite forallb_app in H. apply andb_true_iff in H as [Hl Hb].
  rewrite digits_value_app, length_app. cbn [length].
  specialize (IH Hl). cbn in Hb. rewrite andb_true_r in Hb.
  unfold is_digit in Hb. zbool.
  replace (Z.of_nat (length l + 1)) with (Z.succ (Z.of_nat (length l))) by lia.
  rewrite Z.pow_succ_r by lia. change (10 ^ Z.of_nat 1) with 10.
  unfold digits_value at 2. cbn. unfold digit_value. lia.
Qed.

Lemma parse_fraction_spec f :
  fraction_ok f ->
  Duration.parse_fraction (snd <$> f) = Ok (fraction_of f, scale_of f).
Proof.
  destruct f as [[sep f]|]; [|done]. intros (_ & Hd & Hl). pose proof Hd as [Hne Hf].
  cbn [fmap option_fmap option_map snd]. unfold Duration.parse_fraction.
  destruct f as [|b f]; [done|]. set (l := b :: f) in *.
  rewrite (proj2 (Z.ltb_ge 18 _)), Hf by lia. cbn [orb negb].
  assert (10 ^ Z.of_nat (length l) <= 10 ^ 18) as Hp
    by (apply Z.pow_le_mono_r; lia).
  rewrite try_from_u_in by lia. cbn [ok_or obind].
  pose proof (digits_bound l Hf).
  rewrite integer_spec, (proj2 (Z.ltb_lt _ _)) by (done || lia). done.
Qed.

Lemma scale_pos f : 1 <= scale_of f.
Proof.
  destruct f as [[sep f]|]; cbn; [|done].
  pose proof (Z.pow_pos_nonneg 10 (Z.of_nat (length f))). lia.
Qed.

(** duration tags are read exactly: for text of the grammar [[h:]m:]s[.f]
    (period or comma, at most 18 fractional digits) the parser returns the
    fraction of seconds the text denotes, in lowest terms; a colon component of
    60 or more is out of range, and a value whose numerator over the decimal
    scale exceeds 64 bits is an overflow, never a wrong value. *)
Theorem duration_parse_exact p s f :
  prefix_ok p -> digits s -> digits_value s < 2 ^ 64 -> fraction_ok f ->
  let n := (3600 * hours_of p + 60 * minutes_of p + digits_value s) * scale_of f
           + fraction_of f in
  if negb (in_range p s) then Duration.parse (render p s f) = Err OutOfRange
  else if n <? 2 ^ 64 then
    exists d, Duration.parse (render p s f) = Ok d /\ exactly d n (scale_of f)
  else Duration.parse (render p s f) = Err Overflow.
Proof.
  intros Hp Hs Hs64 Hf n. pose proof (scale_pos f) as Hsc.
  assert (0 <= hours_of p /\ 0 <= minutes_of p) as [Hh0 Hm0].
  { destruct p; cbn; split; try done; apply digits_value_nonneg, Hp. }
  pose proof (digits_value_nonneg s (proj2 Hs)) as Hs0.
  assert (0 <= fraction_of f) as Hf0.
  { destruct f as [[? f]|]; cbn; [|done]. apply digits_value_nonneg, Hf. }
  assert (0 <= n) as Hn by (unfold n; nia).
  assert (Duration.parse (render p s f) =
    if negb (in_range p s) then Err OutOfRange
    else Duration.from_parts (hours_of p) (minutes_of p) (digits_value s)
           (fraction_of f) (scale_of f)) as ->.
  2: { destruct (negb (in_range p s)); [done|].
       rewrite from_parts_spec by done. fold n. destruct (n <? 2 ^ 64); [|done].
       eexists. split; [done|]. apply reduced; lia. }
  unfold Duration.parse. rewrite render_trim by done.
  destruct (render_head p s f Hp Hs) as (a & r & Er & Ra).
  rewrite bool_decide_false by (by rewrite Er). rewrite Er at 1 2.
  change (str "-") with [0x2d]. change (str "+") with [0x2b]. cbn [starts_with].
  rewrite (proj2 (Z.eqb_neq 0x2d a)), (proj2 (Z.eqb_neq 0x2b a)) by lia.
  cbn [andb orb]. clear Er Ra a r.
  pose proof (seconds_no_colon s f Hs Hf) as Hnc.
  pose proof (seconds_split s f Hs Hf) as [Hcount Hsplit].
  assert (forall l, digits l -> Forall (fun x => x <> 0x3a) l) as Hdc.
  { intros l [_ Hl]. apply digits_no; [done|lia]. }
  assert (integer s = Ok (digits_value s)) as Is.
  { rewrite integer_spec by apply Hs. by rewrite (proj2 (Z.ltb_lt _ _)) by lia. }
  assert (forall l, digits l /\ digits_value l < 2 ^ 64 -> integer l = Ok (digits_value l))
    as Iother.
  { intros l [Hl Hl64]. rewrite integer_spec by apply Hl.
    by rewrite (proj2 (Z.ltb_lt _ _)) by lia. }
  pose proof (parse_fraction_spec f Hf) as Hfr.
  destruct p as [|m|h m]; cbn [render prefix_ok in_range hours_of minutes_of] in *.
  - rewrite split_on_none by done.
    cbn [obind length andb]. change (Z.of_nat 1) with 1. cbn [Z.eqb Z.ltb Z.compare andb].
    rewrite (proj2 (Nat.ltb_ge _ _)) by lia. rewrite Hsplit, Is. cbn [obind].
    by rewrite Hfr.
  - rewrite split_on_app, split_on_none by (first [exact Hnc | apply Hdc; naive_solver]).
    rewrite (Iother m Hp). cbn [obind length andb].
    change (Z.of_nat 2) with 2. cbn [Z.eqb Z.ltb Z.compare Pos.eqb andb].
    rewrite (proj2 (Nat.ltb_ge _ _)) by lia. rewrite Hsplit, Is. cbn [obind].
    rewrite Hfr, Z.leb_antisym. by destruct (digits_value s <? 60).
  - destruct Hp as (Hh & Hh64 & Hm & Hm64).
    rewrite split_on_app, split_on_app, split_on_none by (first [exact Hnc | apply Hdc; naive_solver]).
    rewrite (Iother h), (Iother m) by done. cbn [obind length andb].
    change (Z.of_nat 3) with 3. cbn [Z.eqb Z.ltb Z.compare Pos.eqb andb].
    rewrite (Z.leb_antisym (digits_value m) 60).
    destruct (digits_value m <? 60); [|done]. cbn [negb].
    rewrite (proj2 (Nat.ltb_ge _ _)) by lia. rewrite Hsplit, Is. cbn [obind].
    rewrite Hfr, Z.leb_antisym. by destruct (digits_value s <? 60).
Qed.

(** 1:02:03.125, and one minute too many. *)
Lemma duration_parse_exact_witness :
  exists d, Duration.parse (str "1:02:03.125") = Ok d /\ exactly d 3723125 1000.
Proof.
  pose proof (duration_parse_exact (Hours (str "1") (str "02")) (str "03")
    (Some (0x2e, str "125"))) as H.
  apply H; [by repeat split|by repeat split|done|].
  split; [by left|split; [by split|cbn; lia]].
Defined.

Lemma reduced_bounds n s d :
  0 <= n < 2 ^ 64 -> 0 < s ->
  d = mkDuration (n / gcd n s) (s / gcd n s) ->
  0 < denominator d /\ 0 <= numerator d < 2 ^ 64.
Proof.
  intros Hn Hs ->. destruct (reduced n s (proj1 Hn) Hs) as (_ & _ & Hd & Hnum).
  cbn in *. split_and!; [done..|]. rewrite gcd_spec by lia.
  assert (1 <= Z.gcd n s) as Hg.
  { pose proof (Z.gcd_nonneg n s). destruct (decide (Z.gcd n s = 0)) as [E|]; [|lia].
    apply Z.gcd_eq_0 in E. lia. }
  apply Z.div_lt_upper_bound; [lia|nia].
Qed.

Lemma integer_nonneg l v : integer l = Ok v -> 0 <= v < 2 ^ 64.
Proof.
  unfold integer. destruct (_ || _); [done|].
  intros Ev%ok_or_ok. unfold parse_u64 in Ev.
  destruct (forallb is_digit l) eqn:Ed; [|done]. cbn in Ev.
  destruct (negb _); [|done]. apply try_from_u_Some in Ev as [-> Hv].
  split; [by apply digits_value_nonneg|done].
Qed.

Lemma parse_fraction_pos ft fr sc :
  Duration.parse_fraction ft = Ok (fr, sc) -> 1 <= sc /\ 0 <= fr.
Proof.
  unfold Duration.parse_fraction. destruct ft as [[|b l]|]; [done| |].
  - destruct (_ || _); [done|].
    intros (sc' & E1%ok_or_ok & H3)%obind_ok.
    apply obind_ok in H3 as (fr' & E2 & [= <- <-]).
    apply try_from_u_Some in E1 as [-> _]. split; [|apply integer_nonneg in E2; lia].
    pose proof (Z.pow_pos_nonneg 10 (Z.of_nat (length (b :: l)))). lia.
  - by intros [= <- <-].
Qed.

Lemma parse_ok_bounds l d :
  Duration.parse l = Ok d -> 0 < denominator d /\ 0 <= numerator d < 2 ^ 64.
Proof.
  unfold Duration.parse. destruct (_ || _); [done|]. intros H.
  apply obind_ok in H as ([[h m] st] & H1 & H).
  assert (0 <= h /\ 0 <= m) as [Hh Hm].
  { destruct (split_on _ _) as [|x [|y [|z []]]]; try done; [by simplify_eq|..];
      repeat match goal with
      | H : obind _ _ = Ok _ |- _ => apply obind_ok in H as (? & ?%integer_nonneg & H)
      end; simplify_eq; lia. }
  destruct (_ && _); [done|]. destruct (1 <? _)%nat; [done|].
  destruct (Duration.split_once _) as [sw ft].
  apply obind_ok in H as (sec & H2%integer_nonneg & H). destruct (_ && _); [done|].
  apply obind_ok in H as ([fr sc] & H3%parse_fraction_pos & H).
  rewrite from_parts_spec in H by lia.
  set (n := (3600 * h + 60 * m + sec) * sc + fr) in *.
  destruct (Z.ltb_spec n (2 ^ 64)); [|done].
  assert (0 <= n) by (unfold n; nia).
  injection H as Hd. by eapply (reduced_bounds n sc); [|lia|].
Qed.

(** a duration read from a tag maps to native frames without panicking, and
    to the exact floor of seconds times rate: [k] frames end no later than the
    duration and [k + 1] frames end after it; only a count beyond 64 bits is
    refused. *)
Theorem duration_frames_floor l d rate :
  Duration.parse l = Ok d -> in_u 32 rate ->
  let r := Duration.to_frames_floor d rate in
  r = Err Overflow /\ 2 ^ 64 * denominator d <= numerator d * rate \/
  exists k, r = Ok k /\ 0 <= k < 2 ^ 64 /\
    k * denominator d <= numerator d * rate < (k + 1) * denominator d.
Proof.
  intros H Hr. apply parse_ok_bounds in H as [Hd Hn]. unfold in_u in Hr.
  unfold Duration.to_frames_floor.
  assert (numerator d * rate < 2 ^ 128) as Hm.
  { change (2 ^ 128) with (2 ^ 64 * 2 ^ 64). nia. }
  unfold checked_mul_u. rewrite (proj2 (Z.ltb_lt _ _)) by done. cbn [ok_or obind].
  rewrite (proj2 (Z.eqb_neq _ _)) by lia.
  pose proof (Z.div_mod (numerator d * rate) (denominator d) ltac:(lia)) as E.
  pose proof (Z.mod_pos_bound (numerator d * rate) (denominator d) Hd) as Hb.
  set (k := numerator d * rate / denominator d) in *.
  assert (0 <= k) by (apply Z.div_pos; nia).
  unfold try_from_u. destruct (Z.ltb_spec k (2 ^ 64)); cbn [ok_or].
  - right. exists k. split_and!; [done..|nia|nia].
  - left. split; [done|]. nia.
Qed.

Lemma duration_frames_floor_witness :
  exists d, Duration.parse (str "0.0001") = Ok d /\
    exists k, Duration.to_frames_floor d 44100 = Ok k /\
      k * denominator d <= numerator d * 44100 < (k + 1) * denominator d.
Proof.
  assert (Duration.parse (str "0.0001") = Ok (mkDuration 1 10000)) as H by by vm_compute.
  assert (in_u 32 44100) as Hr by (split; vm_compute; congruence).
  eexists. split; [exact H|].
  destruct (duration_frames_floor _ _ 44100 H Hr) as [[_ E]|(k & E & _ & Hk)].
  - cbn [numerator denominator] in E. lia.
  - exists k. exact (conj E Hk).
Defined.

(** The derived default is not a fraction: converting it divides by zero. *)
Lemma default_duration_panics rate :
  in_u 32 rate -> Duration.to_frames_floor Duration_default rate = Panic.
Proof. by intros _. Qed.
