(* ===== verification/PsfTags.v ===== *)
(** * Parse errors and tags: crates/formats/shared/psf/src/tags.rs

    The structured parse error of the container crate and the ordered tag
    parser.  Tags keep the raw bytes and their lossy decoding. *)

From S2P Require Import Prelude MachineInt Slices PsfText.

Inductive ParseStage := Header | Reserved | CompressedProgram | Decompression | TagsStage.

Inductive ParseErrorKind :=
| Truncated
| InvalidSignature
| UnsupportedVersion (v : Z)
| OffsetOverflow
| LimitExceeded (what : string)
| CrcMismatch (expected actual : Z)
| InvalidZlib (detail : list Z)
| InvalidTagMarker
| TagNull
| MalformedTagLine
| InvalidTagKey.

Record ParseError := mkParseError {
  pe_origin : list Z;
  pe_stage : ParseStage;
  pe_offset : Z;
  pe_kind : ParseErrorKind;
}.

Record Tag := mkTag {
  key_raw : list Z;
  value_raw : list Z;
  tag_key : list Z;
  tag_value : list Z;
}.

(** Tag whitespace is every byte from 1 to 0x20. *)
Definition is_tag_space (b : Z) : bool := (1 <=? b) && (b <=? 0x20).

Definition trim_whitespace (l : list Z) : list Z := trim_both is_tag_space l.

Definition valid_identifier (l : list Z) : bool :=
  match l with
  | [] => false
  | first :: rest =>
      (is_ascii_alphabetic first || (first =? 0x5f)) &&
      forallb (fun b => is_ascii_alphanumeric b || (b =? 0x5f)) rest
  end.

Module Tags.

(** One [key=value] line: it continues the previous entry when the key repeats. *)
Definition push (entries : list Tag) (key value : list Z) : list Tag :=
  let key_string := from_utf8_lossy key in
  match last entries with
  | Some previous =>
      if eq_ignore_ascii_case (tag_key previous) key_string then
        let raw := value_raw previous ++ [0x0a] ++ value in
        removelast entries ++
          [mkTag (key_raw previous) raw (tag_key previous) (from_utf8_lossy raw)]
      else entries ++ [mkTag key value key_string (from_utf8_lossy value)]
  | None => [mkTag key value key_string (from_utf8_lossy value)]
  end.

Fixpoint parse_lines (origin : list Z) (base line_start : Z) (entries : list Tag)
    (lines : list (list Z)) : outcome ParseError (list Tag) :=
  match lines with
  | [] => Ok entries
  | line :: lines =>
      let next := saturating_u 64 (line_start + (Z.of_nat (length line) + 1)) in
      let trimmed := trim_whitespace line in
      if bool_decide (trimmed = []) then parse_lines origin base next entries lines
      else
        match position (fun b => b =? 0x3d) trimmed with
        | None =>
            Err (mkParseError origin TagsStage (base + line_start) MalformedTagLine)
        | Some equals =>
            let? before := slice trimmed 0 (Z.of_nat equals) in
            let? after := slice trimmed (Z.of_nat equals + 1) (len trimmed) in
            let key := trim_whitespace before in
            let value := trim_whitespace after in
            if valid_identifier key
            then parse_lines origin base next (push entries key value) lines
            else Err (mkParseError origin TagsStage (base + line_start) InvalidTagKey)
        end
  end.

Definition parse (origin raw : list Z) (base : Z) : outcome ParseError (list Tag) :=
  match position (fun b => b =? 0) raw with
  | Some p => Err (mkParseError origin TagsStage (base + Z.of_nat p) TagNull)
  | None => parse_lines origin base 0 [] (split_on 0x0a raw)
  end.

Definition get (entries : list Tag) (key : list Z) : option (list Z) :=
  tag_value <$> head (filter (fun t => eq_ignore_ascii_case (tag_key t) key = true) entries).

Definition contains_key (entries : list Tag) (key : list Z) : bool :=
  bool_decide (is_Some (get entries key)).

End Tags.

(** ** What a tag block means

    The specification groups adjacent lines whose keys agree up to ASCII case,
    from the right; the code joins each line to the entry on its left. *)

Fixpoint group (lines : list (list Z * list Z)) : list (list Z * list (list Z)) :=
  match lines with
  | [] => []
  | (k, v) :: lines =>
      match group lines with
      | (k', vs) :: rest =>
          if eq_ignore_ascii_case k k' then (k, v :: vs) :: rest
          else (k, [v]) :: (k', vs) :: rest
      | [] => [(k, [v])]
      end
  end.

Fixpoint join (vs : list (list Z)) : list Z :=
  match vs with
  | [] => []
  | [v] => v
  | v :: vs => v ++ [0x0a] ++ join vs
  end.

Definition tag_of (kv : list Z * list (list Z)) : Tag :=
  mkTag kv.1 (join kv.2) kv.1 (from_utf8_lossy (join kv.2)).

Definition render_line (kv : list Z * list Z) : list Z := kv.1 ++ [0x3d] ++ kv.2 ++ [0x0a].
Definition render (lines : list (list Z * list Z)) : list Z := concat (map render_line lines).

(** A key is an identifier; a value has no NUL or newline and no whitespace at
    its ends. *)
Definition value_ok (v : list Z) : Prop :=
  Forall (fun b => b <> 0 /\ b <> 0x0a) v /\
  (forall b, head v = Some b -> is_tag_space b = false) /\
  (forall b, last v = Some b -> is_tag_space b = false).
Definition line_ok (kv : list Z * list Z) : Prop :=
  valid_identifier kv.1 = true /\ value_ok kv.2.

Lemma position_lt p l i : position p l = Some i -> (i < length l)%nat.
Proof.
  revert i. induction l as [|b l IH]; cbn; [done|]. intros i. destruct (p b).
  - intros [= <-]. lia.
  - destruct (position p l) as [j|]; cbn; [|done]. intros [= <-]. specialize (IH j eq_refl). lia.
Qed.

Lemma parse_lines_no_panic origin base s e lines :
  no_panic (Tags.parse_lines origin base s e lines).
Proof.
  revert s e. induction lines as [|l lines IH]; intros s e; cbn; [done|].
  case_bool_decide; [apply IH|]. destruct (position _ _) as [i|] eqn:Ei; [|done].
  apply position_lt in Ei. unfold len. rewrite !slice_in by (unfold len; lia). cbn [obind].
  case_match; [apply IH|done].
Qed.

Lemma parse_tag_text_no_panic origin raw base : no_panic (Tags.parse origin raw base).
Proof. unfold Tags.parse. case_match; [done|apply parse_lines_no_panic]. Qed.

Lemma drop_while_id p l :
  (forall b, head l = Some b -> p b = false) -> drop_while p l = l.
Proof. destruct l as [|b l]; [done|]. intros H. cbn. by rewrite H. Qed.

Lemma trim_both_id p l :
  (forall b, head l = Some b -> p b = false) ->
  (forall b, last l = Some b -> p b = false) -> trim_both p l = l.
Proof.
  intros H1 H2. unfold trim_both. rewrite (drop_while_id p l) by done.
  rewrite drop_while_id; [apply reverse_involutive|].
  intros b. rewrite head_reverse. apply H2.
Qed.

Lemma trim_value v : value_ok v -> trim_whitespace v = v.
Proof. intros (_ & H1 & H2). by apply trim_both_id. Qed.

Lemma identifier_bytes k : valid_identifier k = true ->
  Forall (fun b => is_ascii_alphanumeric b || (b =? 0x5f) = true) k.
Proof.
  destruct k as [|b k]; [done|]. cbn. intros [Hb Hk]%andb_true_iff.
  constructor.
  - unfold is_ascii_alphanumeric. apply orb_true_iff in Hb as [-> | ->]; [done|].
    apply orb_true_r.
  - apply Forall_forall. intros x Hx. rewrite forallb_forall in Hk.
    apply Hk. by apply list_elem_of_In.
Qed.

Lemma identifier_range b :
  is_ascii_alphanumeric b || (b =? 0x5f) = true -> 0x30 <= b <= 0x7a /\ b <> 0x3d.
Proof.
  unfold is_ascii_alphanumeric, is_ascii_alphabetic, is_upper, is_lower, is_digit. lia.
Qed.

Lemma identifier_ok k :
  valid_identifier k = true -> k <> [] /\ value_ok k /\ Forall (fun b => b <> 0x3d) k /\
  from_utf8_lossy k = k.
Proof.
  intros Hk. pose proof (identifier_bytes k Hk) as Hb. rewrite Forall_forall in Hb.
  assert (forall b, b ∈ k -> 0x30 <= b <= 0x7a /\ b <> 0x3d) as Hr.
  { intros b Hin. apply identifier_range. by apply Hb. }
  assert (forall b, 0x30 <= b -> is_tag_space b = false) as Hs.
  { intros b Hx. unfold is_tag_space. lia. }
  split_and!.
  - by destruct k.
  - split_and!.
    + apply Forall_forall. intros b Hin. pose proof (Hr b Hin). lia.
    + intros b E. apply Hs. apply Hr. destruct k; [done|]. injection E as ->. left.
    + intros b E. apply Hs. apply Hr. apply last_Some in E as [l' ->].
      apply elem_of_app. right. left.
  - apply Forall_forall. intros b Hin. by apply Hr.
  - apply lossy_ascii, Forall_forall. intros b Hin. pose proof (Hr b Hin). lia.
Qed.

Definition merge (kv : list Z * list (list Z)) (g : list (list Z * list (list Z))) :=
  match g with
  | (k', vs') :: rest =>
      if eq_ignore_ascii_case kv.1 k' then (kv.1, kv.2 ++ vs') :: rest
      else kv :: (k', vs') :: rest
  | [] => [kv]
  end.

Lemma group_cons kv lines : group (kv :: lines) = merge (kv.1, [kv.2]) (group lines).
Proof. destruct kv as [k v]. cbn. by destruct (group lines) as [|[k' vs] rest]. Qed.

Lemma eq_case_trans x y z :
  eq_ignore_ascii_case x y = true ->
  eq_ignore_ascii_case x z = eq_ignore_ascii_case y z.
Proof.
  unfold eq_ignore_ascii_case. rewrite bool_decide_eq_true. by intros ->.
Qed.

Lemma join_snoc vs v : vs <> [] -> join (vs ++ [v]) = join vs ++ [0x0a] ++ v.
Proof.
  intros H. induction vs as [|x vs IH]; [done|].
  destruct vs as [|y vs]; [done|].
  change ((x :: y :: vs) ++ [v]) with (x :: (y :: vs) ++ [v]).
  change (join (x :: y :: vs)) with (x ++ [0x0a] ++ join (y :: vs)).
  assert (join (x :: (y :: vs) ++ [v]) = x ++ [0x0a] ++ join ((y :: vs) ++ [v])) as ->
    by done.
  rewrite IH by done. by rewrite <- !app_assoc.
Qed.

(** One line joins the entry on its left, or starts a new one. *)
Lemma push_tag acc k vs k' v :
  vs <> [] -> valid_identifier k = true -> valid_identifier k' = true ->
  Tags.push (acc ++ [tag_of (k, vs)]) k' v =
  if eq_ignore_ascii_case k k' then acc ++ [tag_of (k, vs ++ [v])]
  else (acc ++ [tag_of (k, vs)]) ++ [tag_of (k', [v])].
Proof.
  intros Hvs Hk Hk'. destruct (identifier_ok k' Hk') as (_ & _ & _ & El').
  unfold Tags.push. rewrite last_snoc, El'. cbn [tag_of tag_key fst snd value_raw key_raw].
  destruct (eq_ignore_ascii_case k k'); [|done].
  rewrite removelast_last, <- join_snoc by done. done.
Qed.

Lemma push_all acc k vs lines :
  vs <> [] -> valid_identifier k = true ->
  Forall (fun kv => valid_identifier kv.1 = true) lines ->
  fold_left (fun e kv => Tags.push e kv.1 kv.2) lines (acc ++ [tag_of (k, vs)]) =
  acc ++ map tag_of (merge (k, vs) (group lines)).
Proof.
  intros Hvs Hk Hl. revert acc k vs Hvs Hk.
  induction Hl as [|[k' v] lines Hk' Hl IH]; intros acc k vs Hvs Hk; [done|].
  cbn [fst snd] in Hk'. cbn [fold_left fst snd].
  rewrite group_cons, push_tag by done. cbn [fst snd].
  destruct (eq_ignore_ascii_case k k') eqn:E.
  - rewrite IH by (done || by destruct vs). f_equal. f_equal.
    unfold merge. cbn [fst snd]. destruct (group lines) as [|[k2 vs2] rest].
    + by rewrite E.
    + rewrite (eq_case_trans k k' k2 E). destruct (eq_ignore_ascii_case k' k2).
      * by rewrite E, <- app_assoc.
      * by rewrite E.
  - rewrite IH by done. rewrite <- app_assoc. f_equal. cbn [app].
    unfold merge at 2. cbn [fst snd].
    assert (exists vs2 rest, merge (k', [v]) (group lines) = (k', vs2) :: rest)
      as (vs2 & rest & ->).
    { unfold merge. cbn [fst snd]. destruct (group lines) as [|[k2 vs2] rest]; [eauto|].
      destruct (eq_ignore_ascii_case k' k2); eauto. }
    by rewrite E.
Qed.

Lemma push_first lines :
  Forall (fun kv => valid_identifier kv.1 = true) lines ->
  fold_left (fun e kv => Tags.push e kv.1 kv.2) lines [] = map tag_of (group lines).
Proof.
  intros Hl. destruct Hl as [|[k v] lines Hk Hl]; [done|].
  cbn [fst] in Hk. cbn [fold_left fst snd]. rewrite group_cons.
  destruct (identifier_ok k Hk) as (_ & _ & _ & El).
  assert (Tags.push [] k v = [] ++ [tag_of (k, [v])]) as ->.
  { unfold Tags.push. cbn. by rewrite El. }
  by rewrite push_all.
Qed.

Lemma line_bytes kv :
  line_ok kv -> Forall (fun b => b <> 0 /\ b <> 0x0a) (kv.1 ++ [0x3d] ++ kv.2).
Proof.
  intros [Hk Hv]. destruct (identifier_ok _ Hk) as (_ & (Hb & _) & _ & _).
  apply Forall_app. split; [done|]. constructor; [done|]. apply Hv.
Qed.

Lemma split_render lines :
  Forall line_ok lines ->
  split_on 0x0a (render lines) = map (fun kv => kv.1 ++ [0x3d] ++ kv.2) lines ++ [[]].
Proof.
  induction 1 as [|kv lines Hkv Hl IH]; [done|].
  assert (render (kv :: lines) = (kv.1 ++ [0x3d] ++ kv.2) ++ 0x0a :: render lines) as ->.
  { change (render (kv :: lines)) with (render_line kv ++ render lines).
    unfold render_line. by rewrite <- !app_assoc. }
  rewrite split_on_app, IH; [done|].
  eapply Forall_impl; [by apply line_bytes|]. naive_solver.
Qed.

Lemma parse_line origin base start entries kv lines :
  line_ok kv -> exists next,
  Tags.parse_lines origin base start entries ((kv.1 ++ [0x3d] ++ kv.2) :: lines) =
  Tags.parse_lines origin base next (Tags.push entries kv.1 kv.2) lines.
Proof.
  intros [Hk Hv]. destruct kv as [k v]. cbn [fst snd] in *.
  destruct (identifier_ok k Hk) as (Hne & Hkv & Heq & _).
  eexists. cbn [Tags.parse_lines].
  assert (trim_whitespace (k ++ [0x3d] ++ v) = k ++ [0x3d] ++ v) as ->.
  { apply trim_both_id.
    - intros b. destruct k as [|x k]; [done|]. cbn. intros [= ->]. by apply (proj1 (proj2 Hkv)).
    - intros b. destruct v as [|y v] using rev_ind.
      + rewrite app_nil_r, last_snoc. by intros [= <-].
      + rewrite !app_assoc, last_snoc. intros [= <-].
        apply (proj2 (proj2 Hv)). by rewrite last_snoc. }
  rewrite bool_decide_false by (by destruct k).
  assert (position (fun b => b =? 0x3d) (k ++ [0x3d] ++ v) = Some (length k)) as ->.
  { clear -Heq. induction Heq as [|b k Hb Hk IH]; [done|]. cbn.
    rewrite (proj2 (Z.eqb_neq _ _)) by done. cbn in IH. by rewrite IH. }
  change (Z.of_nat (length k)) with (len k). pose proof (len_nonneg k). pose proof (len_nonneg v).
  assert (len (k ++ [0x3d] ++ v) = len k + (1 + len v)) as El by (rewrite !len_app; done).
  rewrite !slice_in by lia. cbn [obind].
  rewrite sub_exact, trim_value by done.
  rewrite El, sub_app_r, Z.add_simpl_l, Z.add_simpl_l by lia.
  rewrite sub_app_r by (unfold len; cbn; lia). change (len [0x3d]) with 1.
  replace (1 + len v - 1) with (len v) by lia. rewrite Z.sub_diag, sub_all.
  rewrite trim_value, Hk by done. reflexivity.
Qed.

Lemma parse_rendered origin base start entries lines :
  Forall line_ok lines ->
  Tags.parse_lines origin base start entries
    (map (fun kv => kv.1 ++ [0x3d] ++ kv.2) lines ++ [[]]) =
  Ok (fold_left (fun e kv => Tags.push e kv.1 kv.2) lines entries).
Proof.
  intros H. revert start entries.
  induction H as [|kv lines Hkv Hl IH]; intros start entries; [done|].
  destruct (parse_line origin base start entries kv
    (map (fun kv => kv.1 ++ [61] ++ kv.2) lines ++ [[]]) Hkv) as [next E].
  cbn [map app fold_left]. cbn [app] in E. rewrite E. apply IH.
Qed.

Lemma tags_roundtrip_parse origin base lines :
  Forall line_ok lines ->
  Tags.parse origin (render lines) base = Ok (map tag_of (group lines)).
Proof.
  intros H. unfold Tags.parse.
  assert (Forall (fun b => (b =? 0) = false) (render lines)) as Hz.
  { apply Forall_concat, Forall_map. eapply Forall_impl; [exact H|].
    intros kv Hkv. unfold render_line.
    replace (kv.1 ++ [61] ++ kv.2 ++ [10]) with ((kv.1 ++ [61] ++ kv.2) ++ [10])
      by (by rewrite <- !app_assoc).
    apply Forall_app. split; [|by repeat constructor].
    eapply Forall_impl; [by apply line_bytes|]. intros b [Hb _]. by apply Z.eqb_neq. }
  assert (position (fun b => b =? 0) (render lines) = None) as ->.
  { clear -Hz. induction Hz as [|b l Hb Hl IH]; [done|]. cbn. by rewrite Hb, IH. }
  rewrite split_render, parse_rendered, push_first by
    (first [done | eapply Forall_impl; [exact H|]; by intros kv []]).
  done.
Qed.

(** tags round trip: a block of [key=value] lines parses, without error, to
    one entry per maximal run of adjacent lines whose keys agree up to ASCII
    case; each entry keeps the first spelling of its key and the run's raw
    values joined by newlines, whatever the bytes of the values; lookup finds the
    first such run. *)
Theorem tags_roundtrip origin base lines :
  Forall line_ok lines ->
  Tags.parse origin (render lines) base = Ok (map tag_of (group lines)) /\
  forall key, Tags.get (map tag_of (group lines)) key =
    (fun kv => from_utf8_lossy (join kv.2)) <$>
      head (filter (fun kv => eq_ignore_ascii_case kv.1 key = true) (group lines)).
Proof.
  intros H. split; [by apply tags_roundtrip_parse|]. intros key. unfold Tags.get.
  induction (group lines) as [|kv g IH]; [done|]. cbn [map].
  rewrite !filter_cons. cbn [tag_of tag_key fst]. by case_decide.
Qed.

Lemma tags_roundtrip_witness :
  let lines := [(str "TITLE", str "One"); (str "Title", str "Two");
                (str "custom", [0xff])] in
  Tags.parse [] (render lines) 20 = Ok (map tag_of (group lines)) /\
  Tags.get (map tag_of (group lines)) (str "title") =
    Some (str "One" ++ [0x0a] ++ str "Two") /\
  Tags.get (map tag_of (group lines)) (str "Custom") = Some replacement.
Proof.
  intros lines. assert (Forall line_ok lines) as Hl.
  { repeat constructor; cbn; try done; try lia. all: intros b [= <-]; done. }
  destruct (tags_roundtrip [] 20 lines Hl) as [Hp Hg].
  split; [exact Hp|]. rewrite !Hg. by vm_compute.
Defined.
