(* ===== verification/PsfContainer.v ===== *)
(** * The PSF container: crates/formats/shared/psf/src/container.rs

    The bounded parser and the fixture builder (fixture.rs).  The CRC-32 and
    zlib implementations are third-party crates and are a [Codec], with what
    the round trip needs of them in [CodecLaws]. *)

From S2P Require Import Prelude MachineInt Buffer PsfText PsfTags.
From S2P Require Export Slices.

(** What a [ZlibDecoder] yields: [read] returns a positive count with its bytes,
    an error, or zero at the end, when [total_in] bytes were consumed. *)
Inductive Reads :=
| Chunk (data : list Z) (rest : Reads)
| ReadError (message : list Z)
| EndOfStream (total_in : Z).

Fixpoint all_data (r : Reads) : option (list Z * Z) :=
  match r with
  | Chunk d r => '(l, n) ← all_data r; Some (d ++ l, n)
  | ReadError _ => None
  | EndOfStream n => Some ([], n)
  end.

(** The decoder reads from the slice it was given, so it consumes at most its length. *)
Class Codec := {
  hash : list Z -> Z;
  inflate : list Z -> Reads;
  deflate : list Z -> list Z;
  total_in_bounded : forall l p n, all_data (inflate l) = Some (p, n) -> 0 <= n <= len l;
}.

(** CRC-32 is a [u32], and decoding a complete zlib stream restores the data and
    consumes the stream. *)
Class CodecLaws `{Codec} := {
  hash_u32 : forall l, in_u 32 (hash l);
  inflate_deflate : forall p,
    all_data (inflate (deflate p)) = Some (p, Z.of_nat (length (deflate p)));
  deflate_nonempty : forall p, deflate p <> [];
}.

Definition HEADER_SIZE : Z := 16.
Definition TAG_MARKER : list Z := str "[TAG]".
Definition PSF1_MAX_PROGRAM : Z := 2033664.

Inductive PsfVersion := Psf1 | Psf2.

#[global] Instance PsfVersion_eq : EqDecision PsfVersion.
Proof. solve_decision. Defined.

Module PsfVersion.
Definition from_byte (v : Z) : outcome ParseErrorKind PsfVersion :=
  match v with
  | 1 => Ok Psf1
  | 2 => Ok Psf2
  | other => Err (UnsupportedVersion other)
  end.
Definition byte (v : PsfVersion) : Z := match v with Psf1 => 1 | Psf2 => 2 end.
End PsfVersion.

Record ByteRange := mkByteRange { start : Z; end_ : Z }.

Module ByteRange.
Definition len (r : ByteRange) : Z := end_ r - start r.
Definition is_empty (r : ByteRange) : bool := start r =? end_ r.
End ByteRange.

Record ParseLimits := mkParseLimits {
  max_input_bytes : Z;
  max_reserved_bytes : Z;
  max_decompressed_bytes : Z;
  max_tag_bytes : Z;
}.

Definition default_limits : ParseLimits :=
  mkParseLimits (64 * 1024 * 1024) (32 * 1024 * 1024) (16 * 1024 * 1024) 50000.

Record PsfContainer := mkContainer {
  version : PsfVersion;
  reserved : list Z;
  compressed_program : list Z;
  program : list Z;
  tags : list Tag;
  reserved_range : ByteRange;
  compressed_range : ByteRange;
  tag_range : option ByteRange;
}.

(** [u32::from_le_bytes(input[offset..offset + 4])] *)
Definition read_u32 {E} (input : list Z) (offset : Z) : outcome E Z :=
  let? field := slice input offset (offset + 4) in
  Ok (wrap 32 (from_le field)).

Definition parse_error (origin : list Z) (stage : ParseStage) (offset : Z)
    (kind : ParseErrorKind) : ParseError := mkParseError origin stage offset kind.

(** The read loop of [decompress]. *)
Fixpoint inflate_loop (origin : list Z) (offset limit : Z) (output : list Z)
    (r : Reads) : outcome ParseError (list Z * Z) :=
  match r with
  | ReadError message =>
      Err (parse_error origin Decompression offset (InvalidZlib message))
  | EndOfStream total_in => Ok (output, total_in)
  | Chunk data r =>
      match checked_add_u 64 (len output) (len data) with
      | Some size =>
          if limit <? size then
            Err (parse_error origin Decompression offset
                   (LimitExceeded "decompressed program bytes"))
          else inflate_loop origin offset limit (output ++ data) r
      | None =>
          Err (parse_error origin Decompression offset
                 (LimitExceeded "decompressed program bytes"))
      end
  end.

Section codec.
Context `{Codec}.

Definition decompress (origin compressed : list Z) (offset limit : Z)
    : outcome ParseError (list Z) :=
  if bool_decide (compressed = []) then Ok []
  else
    let? (output, total_in) := inflate_loop origin offset limit [] (inflate compressed) in
    if negb (total_in =? len compressed) then
      let? at_ := expect (checked_add_u 64 offset total_in) in
      Err (parse_error origin Decompression at_
             (InvalidZlib (str "trailing compressed data")))
    else Ok output.

(** The optional tag section after the program. *)
Definition parse_tags (origin input : list Z) (program_end : Z) (limits : ParseLimits)
    : outcome ParseError (list Tag * option ByteRange) :=
  if program_end =? len input then Ok ([], None)
  else
    let? marker_end := ok_or (checked_add_u 64 program_end (len TAG_MARKER))
      (parse_error origin TagsStage program_end OffsetOverflow) in
    let? invalid :=
      if len input <? marker_end then Ok true
      else
        let? marker := slice input program_end marker_end in
        Ok (negb (bool_decide (marker = TAG_MARKER))) in
    if invalid then
      Err (parse_error origin TagsStage program_end InvalidTagMarker)
    else
      let? raw := slice input marker_end (len input) in
      if max_tag_bytes limits <? len raw then
        Err (parse_error origin TagsStage marker_end (LimitExceeded "tag bytes"))
      else
        let? tags := Tags.parse origin raw marker_end in
        Ok (tags, Some (mkByteRange marker_end (len input))).

Definition parse_with_limits (origin input : list Z) (limits : ParseLimits)
    : outcome ParseError PsfContainer :=
  if max_input_bytes limits <? len input then
    Err (parse_error origin Header 0 (LimitExceeded "input bytes"))
  else if len input <? HEADER_SIZE then
    Err (parse_error origin Header (len input) Truncated)
  else
  let? signature := slice input 0 3 in
  if negb (bool_decide (signature = str "PSF")) then
    Err (parse_error origin Header 0 InvalidSignature)
  else
    let? version_byte := expect (input !! 3%nat) in
    let? version :=
      map_err (parse_error origin Header 3) (PsfVersion.from_byte version_byte) in
    let? reserved_len := read_u32 input 4 in
    let? compressed_len := read_u32 input 8 in
    let? expected_crc := read_u32 input 12 in
    if max_reserved_bytes limits <? reserved_len then
      Err (parse_error origin Reserved HEADER_SIZE (LimitExceeded "reserved bytes"))
    else
      let? reserved_end := ok_or (checked_add_u 64 HEADER_SIZE reserved_len)
        (parse_error origin Reserved HEADER_SIZE OffsetOverflow) in
      let? program_end := ok_or (checked_add_u 64 reserved_end compressed_len)
        (parse_error origin CompressedProgram reserved_end OffsetOverflow) in
      if len input <? program_end then
        Err (parse_error origin CompressedProgram (len input) Truncated)
      else
        let reserved_range := mkByteRange HEADER_SIZE reserved_end in
        let compressed_range := mkByteRange reserved_end program_end in
        let? compressed := slice input reserved_end program_end in
        let actual_crc := hash compressed in
        if negb (actual_crc =? expected_crc) then
          Err (parse_error origin CompressedProgram reserved_end
                 (CrcMismatch expected_crc actual_crc))
        else
          let effective_program_limit :=
            if bool_decide (version = Psf1)
            then Z.min (max_decompressed_bytes limits) PSF1_MAX_PROGRAM
            else max_decompressed_bytes limits in
          let? program :=
            decompress origin compressed reserved_end effective_program_limit in
          let? (tags, tag_range) := parse_tags origin input program_end limits in
          let? reserved := slice input HEADER_SIZE reserved_end in
          Ok (mkContainer version reserved compressed
                program tags reserved_range compressed_range tag_range).

Definition parse (origin input : list Z) : outcome ParseError PsfContainer :=
  parse_with_limits origin input default_limits.

(** ** fixture.rs *)

Record PsfBuilder := mkPsfBuilder {
  b_version : PsfVersion;
  b_reserved : list Z;
  b_program : list Z;
  b_tags : list (list Z * list Z);
}.

(** [PsfBuilder::build] *)
Definition build (b : PsfBuilder) : outcome ParseError (list Z) :=
  let compressed :=
    if bool_decide (b_program b = []) then [] else deflate (b_program b) in
  let? reserved_len := expect (try_from_u 32 (len (b_reserved b))) in
  let? compressed_len := expect (try_from_u 32 (len compressed)) in
  Ok (str "PSF" ++ [PsfVersion.byte (b_version b)] ++ le_bytes 4 reserved_len ++
      le_bytes 4 compressed_len ++ le_bytes 4 (hash compressed) ++
      b_reserved b ++ compressed ++
      (if bool_decide (b_tags b = []) then [] else TAG_MARKER ++ render (b_tags b))).

End codec.

(** The 32-bit little-endian field at [o]. *)
Definition u32_at (l : list Z) (o : Z) : Z := from_le (sub l o (o + 4)).

Lemma u32_at_range l o : Forall (in_u 8) l -> in_u 32 (u32_at l o).
Proof.
  intros H. unfold u32_at. pose proof (from_le_range _ (Forall_sub _ l o (o + 4) H)) as Hr.
  unfold in_u. split; [lia|]. eapply Z.lt_le_trans; [apply Hr|].
  change (2 ^ 32) with (256 ^ 4). apply Z.pow_le_mono_r; [lia|].
  unfold sub. rewrite length_take. lia.
Qed.

Lemma read_u32_in {E} l o : o + 4 <= len l -> read_u32 (E := E) l o = Ok (wrap 32 (u32_at l o)).
Proof. intros H. unfold read_u32. by rewrite slice_in by lia. Qed.

Lemma read_u32_at {E} l o :
  Forall (in_u 8) l -> o + 4 <= len l -> read_u32 (E := E) l o = Ok (u32_at l o).
Proof. intros Hl H. by rewrite read_u32_in, wrap_id by (done || by apply u32_at_range). Qed.

Section facts.
Context `{Codec}.

Lemma inflate_loop_bound origin o limit out r p n :
  len out <= limit -> inflate_loop origin o limit out r = Ok (p, n) ->
  len p <= limit /\ exists d, all_data r = Some (d, n) /\ p = out ++ d.
Proof.
  revert out. induction r as [d r IH|m|t]; intros out Hout; cbn; [|done|].
  - destruct (checked_add_u _ _ _) as [size|] eqn:Ea; [|done].
    apply checked_add_u_Some in Ea as [-> _].
    destruct (Z.ltb_spec limit (len out + len d)); [done|].
    intros Hr. apply IH in Hr as (Hp & d' & Ed & ->); [|rewrite len_app; lia].
    split; [done|]. exists (d ++ d'). rewrite Ed. by rewrite <- app_assoc.
  - intros [= <- <-]. split; [done|]. exists []. by rewrite app_nil_r.
Qed.

Lemma inflate_loop_no_panic origin o limit out r :
  no_panic (inflate_loop origin o limit out r).
Proof.
  revert out. induction r; intros out; cbn; try done.
  destruct (checked_add_u _ _ _); [|done]. by destruct (limit <? _).
Qed.

Lemma inflate_loop_consumed origin o limit out r p n :
  inflate_loop origin o limit out r = Ok (p, n) -> exists d, all_data r = Some (d, n).
Proof.
  revert out. induction r as [d r IH|m|t]; intros out; cbn; [|done|].
  - destruct (checked_add_u _ _ _) as [size|]; [|done]. destruct (limit <? size); [done|].
    intros (d' & ->)%IH. by eexists.
  - intros [= <- <-]. by eexists.
Qed.

Lemma decompress_bound origin l o limit p :
  0 <= limit -> decompress origin l o limit = Ok p ->
  len p <= limit /\
  (l = [] /\ p = [] \/ l <> [] /\ all_data (inflate l) = Some (p, len l)).
Proof.
  intros Hl. unfold decompress. case_bool_decide as El; [intros [= <-]; auto|].
  intros ([out n] & E & Hr)%obind_ok.
  apply inflate_loop_bound in E as (Hp & d & Ed & ->); [|done].
  destruct (Z.eqb_spec n (len l)) as [->|]; [injection Hr as <-; auto|].
  apply obind_ok in Hr as (a & _ & ?). done.
Qed.

Lemma decompress_no_panic origin l o limit :
  o + len l < 2 ^ 64 -> no_panic (decompress origin l o limit).
Proof.
  intros Ho. unfold decompress. case_bool_decide; [done|].
  apply obind_no_panic; [apply inflate_loop_no_panic|]. intros [out n] E.
  apply inflate_loop_consumed in E as [d Ed]. apply total_in_bounded in Ed.
  case_match; [|done]. unfold checked_add_u. by rewrite (proj2 (Z.ltb_lt _ _)) by lia.
Qed.

(** What the parser guarantees of the sections it returns. *)
Record sections (origin input : list Z) (limits : ParseLimits) (c : PsfContainer)
    : Prop := {
  sec_input : len input <= max_input_bytes limits;
  sec_header : sub input 0 3 = str "PSF" /\
    input !! 3%nat = Some (PsfVersion.byte (version c));
  sec_split : exists tail, input =
    sub input 0 16 ++ reserved c ++ compressed_program c ++ tail /\
    (tail = [] /\ tags c = [] /\ tag_range c = None \/
     exists raw, tail = TAG_MARKER ++ raw /\ len raw <= max_tag_bytes limits /\
       tag_range c = Some (mkByteRange (len input - len raw) (len input)) /\
       Tags.parse origin raw (len input - len raw) = Ok (tags c));
  sec_reserved : len (reserved c) = u32_at input 4 /\
    len (reserved c) <= max_reserved_bytes limits /\
    reserved_range c = mkByteRange 16 (16 + len (reserved c));
  sec_compressed : len (compressed_program c) = u32_at input 8 /\
    compressed_range c = mkByteRange (16 + len (reserved c))
      (16 + len (reserved c) + len (compressed_program c));
  sec_crc : hash (compressed_program c) = u32_at input 12;
  sec_program : len (program c) <= max_decompressed_bytes limits /\
    (version c = Psf1 -> len (program c) <= PSF1_MAX_PROGRAM) /\
    (compressed_program c = [] /\ program c = [] \/
     compressed_program c <> [] /\
     all_data (inflate (compressed_program c)) =
       Some (program c, len (compressed_program c)));
}.

Lemma len_marker : len TAG_MARKER = 5.
Proof. reflexivity. Qed.

Lemma parse_tags_ok origin input pe limits t r :
  0 <= pe <= len input -> parse_tags origin input pe limits = Ok (t, r) ->
  let tail := sub input pe (len input) in
  tail = [] /\ t = [] /\ r = None \/
  exists raw, tail = TAG_MARKER ++ raw /\ len raw <= max_tag_bytes limits /\
    r = Some (mkByteRange (len input - len raw) (len input)) /\
    Tags.parse origin raw (len input - len raw) = Ok t.
Proof.
  intros Hpe. unfold parse_tags. cbv zeta. destruct (Z.eqb_spec pe (len input)) as [E|Hne].
  { intros [= <- <-]. left. split; [|done]. unfold sub. rewrite E.
    by rewrite Z.sub_diag. }
  intros (me & Eme%ok_or_ok & Hr)%obind_ok. apply checked_add_u_Some in Eme as [-> _].
  destruct (Z.ltb_spec (len input) (pe + len TAG_MARKER)); [done|].
  rewrite (slice_in _ pe) in Hr by (pose proof len_marker; lia). cbn [obind] in Hr.
  case_bool_decide as Em; [|done]. cbn [negb] in Hr.
  rewrite slice_in in Hr by (pose proof len_marker; lia). cbn [obind] in Hr.
  set (raw := sub input (pe + len TAG_MARKER) (len input)) in *.
  destruct (Z.ltb_spec (max_tag_bytes limits) (len raw)); [done|].
  apply obind_ok in Hr as (t' & Et & [= <- <-]). right. exists raw.
  assert (0 <= len TAG_MARKER) by apply len_nonneg.
  assert (len raw = len input - (pe + len TAG_MARKER)) as El by (apply len_sub; lia).
  replace (len input - len raw) with (pe + len TAG_MARKER) by lia.
  split_and!; try done. rewrite (sub_split _ pe (pe + len TAG_MARKER)) by lia.
  by rewrite Em.
Qed.

Lemma parse_tags_no_panic origin input pe limits :
  no_panic (parse_tags origin input pe limits).
Proof.
  unfold parse_tags. cbv zeta. case_match; [done|].
  apply obind_no_panic; [auto with rust|].
  intros me (-> & _)%ok_or_ok%checked_add_u_Some.
  destruct (Z.ltb_spec (len input) (pe + len TAG_MARKER)); [done|].
  rewrite slice_in by (pose proof len_marker; lia). cbn [obind]. case_match; [done|].
  rewrite slice_in by lia. cbn [obind]. case_match; [done|].
  apply obind_no_panic; [apply parse_tag_text_no_panic|done].
Qed.

Lemma from_byte_no_panic v : no_panic (PsfVersion.from_byte v).
Proof. unfold PsfVersion.from_byte. by repeat case_match. Qed.

Lemma from_byte_ok v ver : PsfVersion.from_byte v = Ok ver -> v = PsfVersion.byte ver.
Proof. unfold PsfVersion.from_byte. repeat case_match; by intros [= <-]. Qed.

Lemma parse_no_panic origin input limits : no_panic (parse_with_limits origin input limits).
Proof.
  unfold parse_with_limits. case_match; [done|]. case_match eqn:Elen; [done|].
  zbool. unfold HEADER_SIZE in *. rewrite (slice_in _ 0) by lia. cbn [obind].
  case_match; [done|]. destruct (lookup_len input 3 ltac:(lia)) as [v Ev].
  change (Z.to_nat 3) with 3%nat in Ev. rewrite Ev. cbn [expect obind].
  apply obind_no_panic.
  { unfold no_panic. pose proof (from_byte_no_panic v). by destruct (PsfVersion.from_byte v). }
  intros ver _. rewrite !read_u32_in by lia. cbn [obind].
  pose proof (in_u_wrap 32 (u32_at input 4) ltac:(lia)) as R4.
  pose proof (in_u_wrap 32 (u32_at input 8) ltac:(lia)) as R8. unfold in_u in R4, R8.
  case_match; [done|].
  apply obind_no_panic; [auto with rust|]. intros re (-> & _)%ok_or_ok%checked_add_u_Some.
  apply obind_no_panic; [auto with rust|]. intros pe (-> & _)%ok_or_ok%checked_add_u_Some.
  case_match; [done|]. zbool. rewrite slice_in by lia. cbn [obind]. case_match; [done|].
  apply obind_no_panic; [apply decompress_no_panic; rewrite len_sub; lia|]. intros p _.
  apply obind_no_panic; [apply parse_tags_no_panic|]. intros [] _. by rewrite slice_in by lia.
Qed.

Lemma parse_sections origin input limits c :
  Forall (in_u 8) input -> 0 <= max_decompressed_bytes limits ->
  parse_with_limits origin input limits = Ok c -> sections origin input limits c.
Proof.
  intros Hu Hmax. unfold parse_with_limits, HEADER_SIZE.
  destruct (Z.ltb_spec (max_input_bytes limits) (len input)); [done|].
  destruct (Z.ltb_spec (len input) 16); [done|].
  rewrite (slice_in _ 0) by lia. cbn [obind].
  case_bool_decide as Emagic; [|done]. cbn [negb].
  intros (vb & Evb & (ver & Ever & Hr)%obind_ok)%obind_ok.
  assert (input !! 3%nat = Some (PsfVersion.byte ver)) as Hv.
  { destruct (input !! 3%nat) as [x|]; [|done]. injection Evb as <-.
    destruct (PsfVersion.from_byte x) eqn:E; try done. injection Ever as <-.
    by rewrite (from_byte_ok _ _ E). }
  clear Evb Ever vb.
  pose proof (u32_at_range input 4 Hu) as R4. pose proof (u32_at_range input 8 Hu) as R8.
  unfold in_u in R4, R8. rewrite !read_u32_at in Hr by (done || lia). cbn [obind] in Hr.
  set (rl := u32_at input 4) in *. set (cl := u32_at input 8) in *.
  destruct (Z.ltb_spec (max_reserved_bytes limits) rl); [done|].
  apply obind_ok in Hr as (re & Ere%ok_or_ok & Hr).
  apply checked_add_u_Some in Ere as [-> _].
  apply obind_ok in Hr as (pe & Epe%ok_or_ok & Hr).
  apply checked_add_u_Some in Epe as [-> _].
  destruct (Z.ltb_spec (len input) (16 + rl + cl)); [done|].
  rewrite (slice_in _ (16 + rl)) in Hr by lia. cbn [obind] in Hr.
  destruct (Z.eqb_spec (hash (sub input (16 + rl) (16 + rl + cl))) (u32_at input 12))
    as [Ecrc|]; [|done]. cbn [negb] in Hr.
  apply obind_ok in Hr as (p & Ep & Hr). apply obind_ok in Hr as ([t tr] & Et & Hr).
  rewrite slice_in in Hr by lia. injection Hr as <-.
  apply decompress_bound in Ep as [Hp Hdata];
    [|unfold PSF1_MAX_PROGRAM; case_bool_decide; lia].
  apply parse_tags_ok in Et; [|lia].
  assert (len (sub input 16 (16 + rl)) = rl) as E1 by (rewrite len_sub; lia).
  assert (len (sub input (16 + rl) (16 + rl + cl)) = cl) as E2 by (rewrite len_sub; lia).
  constructor; cbn [version reserved compressed_program program tags reserved_range
    compressed_range tag_range]; rewrite ?E1, ?E2.
  - done.
  - done.
  - exists (sub input (16 + rl + cl) (len input)). split; [|exact Et].
    rewrite <- (sub_split input (16 + rl)), <- (sub_split input 16), <- (sub_split input 0)
      by lia. by rewrite sub_all.
  - done.
  - done.
  - done.
  - split_and!.
    + case_bool_decide; lia.
    + intros ->. rewrite bool_decide_true in Hp by done. lia.
    + rewrite E2 in Hdata. destruct Hdata as [?|[? E]]; [by left|right].
      done.
Qed.

(** C13: parsing untrusted input is safe: for every byte string the parser returns
    without panicking (every slice expression is inside its slice), and a container it accepts is its input cut, without gap
    or overlap, into header, reserved area, compressed program and optional tag
    section, at the sizes the header declares; the checksum was verified over
    exactly the compressed bytes, the program is their complete decompression,
    and every configured bound and the fixed PSF1 program bound hold. *)
Theorem container_safe origin input limits :
  Forall (in_u 8) input -> 0 <= max_decompressed_bytes limits ->
  let r := parse_with_limits origin input limits in
  no_panic r /\ forall c, r = Ok c -> sections origin input limits c.
Proof. intros Hu Hm. split; [apply parse_no_panic|]. intros c. by apply parse_sections. Qed.

End facts.

(** ** The builder's output *)

Section roundtrip.
Context `{CodecLaws}.

Lemma inflate_loop_complete origin o limit out r d n :
  all_data r = Some (d, n) -> len out + len d <= limit -> limit < 2 ^ 64 ->
  inflate_loop origin o limit out r = Ok (out ++ d, n).
Proof.
  revert out d. induction r as [x r IH|m|t]; intros out d; cbn; [|done|].
  - destruct (all_data r) as [[d' n']|] eqn:Er; [|done]. cbn. intros [= <- <-] Hl Hm.
    rewrite len_app in Hl. pose proof (len_nonneg d').
    unfold checked_add_u. rewrite (proj2 (Z.ltb_lt _ _)), (proj2 (Z.ltb_ge _ _)) by lia.
    rewrite (IH (out ++ x) d'); [by rewrite <- app_assoc|done|rewrite len_app; lia|done].
  - intros [= <- <-]. by rewrite app_nil_r.
Qed.

Definition packed (p : list Z) : list Z := if bool_decide (p = []) then [] else deflate p.

Lemma decompress_packed origin p o limit :
  len p <= limit -> limit < 2 ^ 64 -> decompress origin (packed p) o limit = Ok p.
Proof.
  intros Hp Hl. unfold decompress, packed.
  destruct (decide (p = [])) as [->|E]; [done|].
  rewrite (bool_decide_false (p = [])) by done.
  rewrite bool_decide_false by apply deflate_nonempty.
  rewrite (inflate_loop_complete _ _ _ _ _ p _ (inflate_deflate p)) by (unfold len in *; cbn; lia).
  cbn [obind app]. unfold len. by rewrite Z.eqb_refl.
Qed.

Definition tag_section (t : list (list Z * list Z)) : list Z :=
  if bool_decide (t = []) then [] else TAG_MARKER ++ render t.

Lemma parse_tag_section origin pre t limits :
  Forall line_ok t -> len (pre ++ tag_section t) < 2 ^ 64 ->
  len (render t) <= max_tag_bytes limits ->
  exists r, parse_tags origin (pre ++ tag_section t) (len pre) limits =
    Ok (map tag_of (group t), r).
Proof.
  intros Ht Hl Hm. unfold tag_section in *. case_bool_decide as Et.
  { subst. rewrite app_nil_r. unfold parse_tags. rewrite Z.eqb_refl. by eexists. }
  unfold parse_tags. cbv zeta. rewrite !len_app in *.
  assert (len TAG_MARKER = 5) as Em by done.
  pose proof (len_nonneg (render t)). pose proof (len_nonneg pre).
  rewrite (proj2 (Z.eqb_neq _ _)) by lia.
  unfold checked_add_u. rewrite (proj2 (Z.ltb_lt _ (2 ^ 64))) by lia. cbn [ok_or obind].
  rewrite (proj2 (Z.ltb_ge _ _)) by lia.
  rewrite slice_in by (rewrite !len_app; lia). cbn [obind].
  rewrite sub_app_r by lia.
  rewrite !Z.sub_diag, Z.add_simpl_l, sub_exact.
  rewrite bool_decide_true by done. cbn [negb].
  rewrite slice_in by (rewrite !len_app; lia). cbn [obind].
  rewrite sub_app_r by lia. rewrite sub_app_r by lia.
  replace (len pre + len TAG_MARKER - len pre - len TAG_MARKER) with 0 by lia.
  replace (len pre + (len TAG_MARKER + len (render t)) - len pre - len TAG_MARKER)
    with (len (render t)) by lia.
  rewrite sub_all. rewrite (proj2 (Z.ltb_ge _ _)) by lia.
  rewrite tags_roundtrip_parse by done. cbn [obind]. by eexists.
Qed.

Lemma read_field pre v post :
  in_u 32 v -> wrap 32 (u32_at (pre ++ le_bytes 4 v ++ post) (len pre)) = v.
Proof.
  intros Hv. unfold u32_at. rewrite sub_app_r by lia.
  rewrite Z.sub_diag, Z.add_simpl_l.
  assert (len (le_bytes 4 v) = 4) as E by (unfold len; by rewrite length_le_bytes).
  rewrite <- E, sub_exact. rewrite le_from_le_bytes by done. by apply wrap_id.
Qed.

(** containers round trip: what the builder writes for a version, reserved
    area, program and tag lines is accepted by the parser, under limits that
    admit the sizes, and read back as the same version, reserved bytes and
    program and as the grouped tags. *)
Theorem container_roundtrip origin b limits bytes :
  build b = Ok bytes -> Forall line_ok (b_tags b) ->
  len bytes <= max_input_bytes limits < 2 ^ 64 ->
  len (b_reserved b) <= max_reserved_bytes limits ->
  len (b_program b) <= max_decompressed_bytes limits < 2 ^ 64 ->
  (b_version b = Psf1 -> len (b_program b) <= PSF1_MAX_PROGRAM) ->
  len (render (b_tags b)) <= max_tag_bytes limits ->
  exists c, parse_with_limits origin bytes limits = Ok c /\
    version c = b_version b /\ reserved c = b_reserved b /\
    program c = b_program b /\ tags c = map tag_of (group (b_tags b)).
Proof.
  intros Hb Ht Hin Hres Hprog Hpsf1 Htag. unfold build in Hb.
  fold (packed (b_program b)) in Hb. fold (tag_section (b_tags b)) in Hb.
  apply obind_ok in Hb as (rl & Erl & Hb). apply obind_ok in Hb as (cl & Ecl & Hb).
  destruct (try_from_u 32 (len (b_reserved b))) as [x|] eqn:Ex; [|done].
  injection Erl as <-. apply try_from_u_Some in Ex as [-> Hrl].
  destruct (try_from_u 32 (len (packed (b_program b)))) as [x|] eqn:Ex; [|done].
  injection Ecl as <-. apply try_from_u_Some in Ex as [-> Hcl].
  injection Hb as Hb.
  set (R := b_reserved b) in *. set (C := packed (b_program b)) in *.
  set (T := tag_section (b_tags b)) in *.
  set (rl := len R) in *. set (cl := len C) in *.
  set (magic := str "PSF" ++ [PsfVersion.byte (b_version b)]).
  set (header := magic ++ le_bytes 4 rl ++ le_bytes 4 cl ++ le_bytes 4 (hash C)).
  assert (bytes = header ++ R ++ C ++ T) as Eb.
  { rewrite <- Hb. unfold header, magic. by rewrite <- !app_assoc. }
  assert (len header = 16) as Eh.
  { unfold header, magic. rewrite !len_app. unfold len. by rewrite !length_le_bytes. }
  assert (0 <= rl /\ 0 <= cl) as [Hrl0 Hcl0] by (split; apply len_nonneg).
  assert (wrap 32 (u32_at bytes 4) = rl) as R4.
  { rewrite Eb. unfold header. rewrite <- !app_assoc.
    apply (read_field magic). by split. }
  assert (wrap 32 (u32_at bytes 8) = cl) as R8.
  { rewrite Eb. unfold header. rewrite <- !app_assoc, (app_assoc magic).
    apply (read_field (magic ++ le_bytes 4 rl)). by split. }
  assert (wrap 32 (u32_at bytes 12) = hash C) as R12.
  { rewrite Eb. unfold header. rewrite <- !app_assoc, (app_assoc magic), (app_assoc (magic ++ _)).
    apply (read_field ((magic ++ le_bytes 4 rl) ++ le_bytes 4 cl)). apply hash_u32. }
  assert (len bytes = 16 + rl + cl + len T) as El.
  { rewrite Eb, !len_app, Eh. unfold rl, cl. lia. }
  assert (0 <= len T) as HT by apply len_nonneg.
  assert (sub bytes 16 (16 + rl) = R) as SR.
  { rewrite Eb, sub_app_r, Eh by lia. rewrite Z.sub_diag, Z.add_simpl_l.
    apply sub_exact. }
  assert (sub bytes (16 + rl) (16 + rl + cl) = C) as SC.
  { rewrite Eb, app_assoc, sub_app_r by (rewrite len_app; lia).
    rewrite len_app, Eh. fold rl. rewrite Z.sub_diag, Z.add_simpl_l. apply sub_exact. }
  unfold parse_with_limits, HEADER_SIZE.
  rewrite (proj2 (Z.ltb_ge _ (len bytes))), (proj2 (Z.ltb_ge (len bytes) 16)) by lia.
  rewrite (slice_in _ 0) by lia. cbn [obind].
  assert (sub bytes 0 3 = str "PSF") as -> by (by rewrite <- Hb).
  rewrite bool_decide_true by done. cbn [negb].
  assert (bytes !! 3%nat = Some (PsfVersion.byte (b_version b))) as ->
    by (by rewrite <- Hb).
  cbn [expect obind].
  assert (PsfVersion.from_byte (PsfVersion.byte (b_version b)) = Ok (b_version b)) as ->
    by (by destruct (b_version b)).
  cbn [map_err obind]. rewrite !read_u32_in by lia. rewrite R4, R8, R12. cbn [obind].
  rewrite (proj2 (Z.ltb_ge _ rl)) by lia.
  unfold checked_add_u.
  rewrite (proj2 (Z.ltb_lt (16 + rl) _)) by lia. cbn [ok_or obind].
  rewrite (proj2 (Z.ltb_lt (16 + rl + cl) _)) by lia. cbn [ok_or obind].
  rewrite (proj2 (Z.ltb_ge _ (16 + rl + cl))) by lia.
  rewrite !slice_in by lia. cbn [obind]. rewrite SC, SR, Z.eqb_refl. cbn [negb].
  unfold C at 1. rewrite decompress_packed.
  2, 3: unfold PSF1_MAX_PROGRAM in *; case_bool_decide; naive_solver lia.
  cbn [obind].
  destruct (parse_tag_section origin (header ++ R ++ C) (b_tags b) limits Ht)
    as [tr Etr]; [|done|].
  { rewrite <- !app_assoc. fold T. rewrite <- Eb. lia. }
  rewrite <- !app_assoc in Etr. fold T in Etr. rewrite <- Eb in Etr.
  rewrite !len_app, Eh in Etr. fold rl cl in Etr.
  rewrite Z.add_assoc in Etr. rewrite Etr. cbn [obind].
  eexists. split; [done|]. by cbn.
Qed.

End roundtrip.

(** A codec that stores: the identity with a length check, and a byte sum. *)
#[global, program] Instance stored_codec : Codec := {
  hash l := wrap 32 (fold_right Z.add 0 l);
  inflate l :=
    match l with
    | [] => ReadError (str "empty")
    | _ :: d => Chunk d (EndOfStream (len l))
    end;
  deflate p := 0x78 :: p;
}.
Next Obligation.
  intros [|b l] p n; cbn; [done|]. intros [= _ <-]. pose proof (len_nonneg (b :: l)). lia.
Qed.

#[global] Instance stored_laws : CodecLaws.
Proof.
  split.
  - intros l. by apply in_u_wrap.
  - intros p. cbn. by rewrite app_nil_r.
  - done.
Qed.

Definition sample_builder : PsfBuilder :=
  mkPsfBuilder Psf1 [1; 2; 3] [4; 5; 6; 7] [(str "title", str "Synthetic")].

Definition sample_bytes : list Z :=
  match build sample_builder with Ok l => l | _ => [] end.

Lemma sample_lines_ok : Forall line_ok (b_tags sample_builder).
Proof. repeat constructor; cbn; try done; try lia. all: intros b [= <-]; done. Qed.

Lemma container_roundtrip_witness :
  exists c, parse (str "sample") sample_bytes = Ok c /\ version c = Psf1 /\
    reserved c = [1; 2; 3] /\ program c = [4; 5; 6; 7] /\
    Tags.get (tags c) (str "TITLE") = Some (str "Synthetic").
Proof.
  assert (build sample_builder = Ok sample_bytes) as Hb by by vm_compute.
  destruct (container_roundtrip (str "sample") sample_builder default_limits sample_bytes
    Hb sample_lines_ok) as (c & Hc & Hv & Hr & Hp & Ht).
  - split; vm_compute; congruence.
  - vm_compute. congruence.
  - split; vm_compute; congruence.
  - intros _. vm_compute. congruence.
  - vm_compute. congruence.
  - exists c. split; [exact Hc|]. split; [exact Hv|]. split; [exact Hr|].
    split; [exact Hp|]. rewrite Ht. by vm_compute.
Defined.

Lemma container_safe_witness :
  exists c, parse (str "sample") sample_bytes = Ok c /\
    sections (str "sample") sample_bytes default_limits c.
Proof.
  assert (Forall (in_u 8) sample_bytes) as Hu.
  { apply Forall_forall. intros x Hx.
    assert (forallb (fun x => (0 <=? x) && (x <? 2 ^ 8)) sample_bytes = true) as Hf
      by by vm_compute.
    rewrite forallb_forall in Hf. apply list_elem_of_In in Hx. specialize (Hf x Hx).
    zbool. by split. }
  destruct (container_safe (str "sample") sample_bytes default_limits Hu) as [Hn Hs].
  - vm_compute. congruence.
  - assert (exists c, parse (str "sample") sample_bytes = Ok c) as [c Ec]
      by (eexists; by vm_compute).
    exists c. split; [exact Ec|]. by apply Hs.
Defined.
