(* ===== verification/PsfMetadata.v ===== *)
(** * Playback metadata: crates/formats/shared/psf/src/metadata.rs

    The known tags, with [str::parse::<f64>] of the standard library for the
    volume: decimal text is rounded to the nearest binary64 value, ties to even,
    by the Standard Library's [SpecFloat]. *)

From S2P Require Import Prelude MachineInt PsfText PsfTags PsfDuration.
From Stdlib Require Import SpecFloat.

(** ** [str::parse::<f64>] *)

Notation f64 := spec_float (only parsing).

Definition prec64 : Z := 53.
Definition emax64 : Z := 1024.

(** The nearest binary64 value of [(-1)^sign * m * 10^e]. *)
Definition decimal_f64 (sign : bool) (m e : Z) : f64 :=
  match m with
  | Zpos p =>
      if 0 <=? e then
        match Zpos p * 10 ^ e with
        | Zpos q => binary_round prec64 emax64 sign q 0
        | _ => S754_nan
        end
      else
        match 10 ^ (- e) with
        | Zpos d =>
            let '(q, e', loc) := SFdiv_core_binary prec64 emax64 (Zpos p) 0 (Zpos d) 0 in
            binary_round_aux prec64 emax64 sign q e' loc
        | _ => S754_nan
        end
  | _ => S754_zero sign
  end.

Definition is_finite (x : f64) : bool :=
  match x with
  | S754_zero _ | S754_finite _ _ _ => true
  | S754_infinity _ | S754_nan => false
  end.

(** A leading sign and the rest. *)
Definition parse_sign (l : list Z) : bool * list Z :=
  match l with
  | b :: l' => if b =? 0x2d then (true, l') else if b =? 0x2b then (false, l') else (false, l)
  | [] => (false, [])
  end.

Fixpoint span_digits (l : list Z) : list Z * list Z :=
  match l with
  | b :: l' => if is_digit b then let (d, r) := span_digits l' in (b :: d, r) else ([], l)
  | [] => ([], [])
  end.

(** [e] or [E], an optional sign and at least one digit; [None] on bad syntax. *)
Definition parse_exponent (l : list Z) : option Z :=
  match l with
  | [] => Some 0
  | b :: l' =>
      if (b =? 0x65) || (b =? 0x45) then
        let (neg, digits) := parse_sign l' in
        if forallb is_digit digits && negb (bool_decide (digits = []))
        then Some (if neg then - digits_value digits else digits_value digits)
        else None
      else None
  end.

Definition parse_f64 (l : list Z) : option f64 :=
  let (sign, body) := parse_sign l in
  if eq_ignore_ascii_case body (str "inf") || eq_ignore_ascii_case body (str "infinity")
  then Some (S754_infinity sign)
  else if eq_ignore_ascii_case body (str "nan") then Some S754_nan
  else
    let (whole, rest) := span_digits body in
    let (fraction, rest) :=
      match rest with
      | b :: rest' => if b =? 0x2e then span_digits rest' else ([], rest)
      | [] => ([], [])
      end in
    if bool_decide (whole ++ fraction = []) then None
    else
      match parse_exponent rest with
      | Some e =>
          Some (decimal_f64 sign (digits_value (whole ++ fraction))
                  (e - Z.of_nat (length fraction)))
      | None => None
      end.

(** ** metadata.rs *)

Inductive RefreshRate := Hz50 | Hz60.

#[global] Instance RefreshRate_eq : EqDecision RefreshRate.
Proof. solve_decision. Defined.

Definition hz (r : RefreshRate) : Z := match r with Hz50 => 50 | Hz60 => 60 end.

Inductive MetadataError :=
| InvalidVolume
| InvalidDuration (e : DurationError)
| InvalidRefresh.

Record PlaybackMetadata := mkMetadata {
  title : option (list Z);
  artist : option (list Z);
  game : option (list Z);
  year : option (list Z);
  genre : option (list Z);
  comment : option (list Z);
  copyright : option (list Z);
  psfby : option (list Z);
  volume : f64;
  length_ : option Duration;
  fade : Duration;
  refresh : option RefreshRate;
  raw_tags : list Tag;
}.

(** [tags.get(key).map(f).transpose()] *)
Definition optional {E A} (f : list Z -> outcome E A) (o : option (list Z))
    : outcome E (option A) :=
  match o with
  | None => Ok None
  | Some l => omapok Some (f l)
  end.

Module PlaybackMetadata.
Definition parse_volume (value : option (list Z)) : outcome MetadataError f64 :=
  match value with
  | None => Ok (decimal_f64 false 1 0)
  | Some value =>
      match parse_f64 (replace_byte 0x2c 0x2e value) with
      | None => Err InvalidVolume
      | Some parsed => if negb (is_finite parsed) then Err InvalidVolume else Ok parsed
      end
  end.

Definition parse_refresh (value : option (list Z))
    : outcome MetadataError (option RefreshRate) :=
  match value with
  | None => Ok None
  | Some value =>
      if bool_decide (value = str "50") then Ok (Some Hz50)
      else if bool_decide (value = str "60") then Ok (Some Hz60)
      else Err InvalidRefresh
  end.

Definition parse (tags : list Tag) : outcome MetadataError PlaybackMetadata :=
  let get key := Tags.get tags (str key) in
  let? volume := parse_volume (get "volume") in
  let? length_ := map_err InvalidDuration (optional Duration.parse (get "length")) in
  let? fade := map_err InvalidDuration (optional Duration.parse (get "fade")) in
  let? refresh := parse_refresh (get "_refresh") in
  Ok (mkMetadata (get "title") (get "artist") (get "game") (get "year") (get "genre")
        (get "comment") (get "copyright") (get "psfby") volume length_
        (default Duration.ZERO fade) refresh tags).
End PlaybackMetadata.

(** The volume text of the crate's own test, [-1.25], and a tie. *)
Example volume_exact :
  parse_f64 (str "-1.25") = Some (S754_finite true 5629499534213120 (-52)) /\
  parse_f64 (str "9007199254740993") = Some (S754_finite false 4503599627370496 1) /\
  parse_f64 (str "1e400") = Some (S754_infinity false) /\
  parse_f64 (str ".") = None.
Proof. by vm_compute. Qed.
