(* ===== verification/PsfLoad.v ===== *)
(** * Dependency plans: crates/formats/shared/psf/src/load.rs

    The recursive traversal of [_lib*] references.  The recursion is not
    structural in the code; it is bounded by [max_depth], so the model runs with
    one unit of fuel per level and [PsfLoadFacts] shows the fuel is never
    exhausted.  The resolver is an interface with its own state. *)

From S2P Require Import Prelude MachineInt PsfText PsfTags PsfContainer PsfMetadata.

Record DependencyLimits := mkDependencyLimits {
  max_depth : Z;
  max_files : Z;
  max_aggregate_bytes : Z;
}.

Definition default_dependency_limits : DependencyLimits :=
  mkDependencyLimits 10 256 (128 * 1024 * 1024).

Record ResolverError := mkResolverError { re_message : list Z }.

(** A resolved file; the release action of the C adapter is not modelled. *)
Record ResolvedFile := mkResolvedFile { rf_origin : list Z; rf_bytes : list Z }.

(** Source of [_lib*] dependencies. *)
Class Resolver (R : Type) :=
  resolve_file : list Z -> list Z -> R -> outcome ResolverError ResolvedFile * R.

(** ** The in-memory resolver *)

(** [Path::components] of a Unix path: the names between slashes, without empty
    and current-directory components. *)
Definition is_name (part : list Z) : bool :=
  negb (bool_decide (part = [])) && negb (bool_decide (part = str ".")).

Fixpoint normalize_parts (components parts : list (list Z))
    : outcome ResolverError (list (list Z)) :=
  match components with
  | [] => Ok parts
  | part :: components =>
      if negb (is_name part) then normalize_parts components parts
      else if bool_decide (part = str "..") then
        match parts with
        | [] => Err (mkResolverError (str "logical path escapes resolver root"))
        | _ => normalize_parts components (removelast parts)
        end
      else normalize_parts components (parts ++ [part])
  end.

(** [parts.join("/")] *)
Fixpoint join_parts (parts : list (list Z)) : list Z :=
  match parts with
  | [] => []
  | [p] => p
  | p :: parts => p ++ [0x2f] ++ join_parts parts
  end.

Definition normalize_logical (input : list Z) : outcome ResolverError (list Z) :=
  let normalized := replace_byte 0x5c 0x2f input in
  let? parts := normalize_parts (split_on 0x2f normalized) [] in
  if bool_decide (parts = []) then Err (mkResolverError (str "empty logical origin"))
  else Ok (join_parts parts).

(** [PathBuf::pop] on a normalized path, then [PathBuf::push]. *)
Definition path_pop (path : list Z) : list Z := join_parts (removelast (split_on 0x2f path)).
Definition path_push (base path : list Z) : list Z :=
  if starts_with (str "/") path then path
  else if bool_decide (base = []) then path
  else if bool_decide (last base = Some 0x2f) then base ++ path
  else base ++ [0x2f] ++ path.

Definition resolve_logical (containing_origin reference : list Z)
    : outcome ResolverError (list Z) :=
  let? containing := normalize_logical containing_origin in
  normalize_logical (path_push (path_pop containing) (replace_byte 0x5c 0x2f reference)).

Module MemoryResolver.
Definition insert (origin bytes : list Z) (files : gmap (list Z) (list Z))
    : outcome ResolverError (gmap (list Z) (list Z)) :=
  let? origin := normalize_logical origin in Ok (<[origin := bytes]> files).

Definition resolve (containing_origin reference : list Z) (files : gmap (list Z) (list Z))
    : outcome ResolverError ResolvedFile * gmap (list Z) (list Z) :=
  (let? origin := resolve_logical containing_origin reference in
   let? bytes := ok_or (files !! origin)
     (mkResolverError (str "missing logical file " ++ origin)) in
   Ok (mkResolvedFile origin bytes), files).
End MemoryResolver.

#[global] Instance memory_resolver : Resolver (gmap (list Z) (list Z)) :=
  MemoryResolver.resolve.

(** ** Plans *)

Record PlanLayer := mkPlanLayer { layer_origin : list Z; layer_container : PsfContainer }.

Record Psf1LoadPlan := mkPsf1LoadPlan {
  p1_root_origin : list Z;
  p1_layers : list PlanLayer;
  p1_initial_state_origin : list Z;
  p1_refresh_override : option RefreshRate;
  p1_metadata : PlaybackMetadata;
}.

Record Psf2LoadPlan := mkPsf2LoadPlan {
  p2_root_origin : list Z;
  p2_layers : list PlanLayer;
  p2_refresh_override : option RefreshRate;
  p2_metadata : PlaybackMetadata;
}.

Inductive LoadPlan := LoadPsf1 (p : Psf1LoadPlan) | LoadPsf2 (p : Psf2LoadPlan).

Inductive LoadError :=
| LoadParse (e : ParseError)
| LoadMetadata (origin : list Z) (e : MetadataError)
| LoadResolve (origin reference : list Z) (e : ResolverError)
| VersionMismatch (origin : list Z) (expected actual : PsfVersion)
| Cycle (chain : list (list Z))
| LimitExceeded (what : string).

Definition metadata (origin : list Z) (container : PsfContainer)
    : outcome LoadError PlaybackMetadata :=
  map_err (LoadMetadata origin) (PlaybackMetadata.parse (tags container)).

(** [format!("_lib{index}")]: a [u32] has at most ten digits. *)
Fixpoint decimal_loop (fuel : nat) (n : Z) (acc : list Z) : list Z :=
  match fuel with
  | O => acc
  | S fuel =>
      let acc := (0x30 + n mod 10) :: acc in
      if n <? 10 then acc else decimal_loop fuel (n / 10) acc
  end.
Definition decimal (n : Z) : list Z := decimal_loop 10 n [].
Definition lib_key (index : Z) : list Z := str "_lib" ++ decimal index.

(** The counting loop stops at the first missing index; each index it passes is
    a different tag, so one more step than there are tags is enough. *)
Fixpoint numbered_loop (fuel : nat) (t : list Tag) (index : Z) : list (list Z) :=
  match fuel with
  | O => []
  | S fuel =>
      match Tags.get t (lib_key index) with
      | None => []
      | Some value => value :: numbered_loop fuel t (index + 1)
      end
  end.
Definition numbered_libraries (container : PsfContainer) : list (list Z) :=
  numbered_loop (S (length (tags container))) (tags container) 2.

Record Psf1Node := mkPsf1Node {
  node_layers : list PlanLayer;
  node_initial_state_origin : list Z;
}.

Record LoadState (R : Type) := mkLoadState {
  resolver : R;
  parse_limits : ParseLimits;
  limits : DependencyLimits;
  file_count : Z;
  aggregate_bytes : Z;
  active : list (list Z);
  refresh_override : option RefreshRate;
  ls_version : PsfVersion;
}.
Arguments mkLoadState {R}.
Arguments resolver {R}. Arguments parse_limits {R}. Arguments limits {R}.
Arguments file_count {R}. Arguments aggregate_bytes {R}. Arguments active {R}.
Arguments refresh_override {R}. Arguments ls_version {R}.

Section load.
Context `{Codec} {R : Type} `{Resolver R}.

Notation M A := (LoadState R -> outcome LoadError A * LoadState R)%type.

Definition set_resolver (r : R) (s : LoadState R) : LoadState R :=
  mkLoadState r (parse_limits s) (limits s) (file_count s) (aggregate_bytes s)
    (active s) (refresh_override s) (ls_version s).
Definition set_counts (f a : Z) (s : LoadState R) : LoadState R :=
  mkLoadState (resolver s) (parse_limits s) (limits s) f a
    (active s) (refresh_override s) (ls_version s).
Definition set_active (a : list (list Z)) (s : LoadState R) : LoadState R :=
  mkLoadState (resolver s) (parse_limits s) (limits s) (file_count s)
    (aggregate_bytes s) a (refresh_override s) (ls_version s).
Definition set_refresh (r : option RefreshRate) (s : LoadState R) : LoadState R :=
  mkLoadState (resolver s) (parse_limits s) (limits s) (file_count s)
    (aggregate_bytes s) (active s) r (ls_version s).

Definition account (bytes : Z) : M unit := fun s =>
  match checked_add_u 64 (file_count s) 1 with
  | None => (Err (LimitExceeded "file count"), s)
  | Some f =>
      let s := set_counts f (aggregate_bytes s) s in
      if max_files (limits s) <? f then (Err (LimitExceeded "file count"), s)
      else
        match checked_add_u 64 (aggregate_bytes s) bytes with
        | None => (Err (LimitExceeded "aggregate source bytes"), s)
        | Some a =>
            let s := set_counts f a s in
            if max_aggregate_bytes (limits s) <? a
            then (Err (LimitExceeded "aggregate source bytes"), s)
            else (Ok tt, s)
        end
  end.

Definition observe_metadata (origin : list Z) (container : PsfContainer) : M unit := fun s =>
  match metadata origin container with
  | Ok parsed =>
      (Ok tt, match refresh_override s with
              | None => set_refresh (refresh parsed) s
              | Some _ => s
              end)
  | Err e => (Err e, s)
  | Panic => (Panic, s)
  end.

Definition resolve (containing_origin reference : list Z) (depth : Z)
    : M (list Z * PsfContainer) := fun s =>
  if max_depth (limits s) <? depth then (Err (LimitExceeded "dependency depth"), s)
  else
    let (file, r) := resolve_file containing_origin reference (resolver s) in
    let s := set_resolver r s in
    match map_err (LoadResolve containing_origin reference) file with
    | Err e => (Err e, s)
    | Panic => (Panic, s)
    | Ok file =>
        let! (_, s) := account (len (rf_bytes file)) s in
        let origin := rf_origin file in
        match list_find (fun a => a = origin) (active s) with
        | Some (position, _) => (Err (Cycle (drop position (active s) ++ [origin])), s)
        | None =>
            match map_err LoadParse
                    (parse_with_limits origin (rf_bytes file) (parse_limits s)) with
            | Err e => (Err e, s)
            | Panic => (Panic, s)
            | Ok container =>
                if negb (bool_decide (version container = ls_version s)) then
                  (Err (VersionMismatch origin (ls_version s) (version container)), s)
                else (Ok (origin, container), s)
            end
        end
    end.

(** [psf?_dependency], for the node function of one format: the active stack is
    popped on every path. *)
Definition dependency {A} (node : list Z -> PsfContainer -> Z -> M A)
    (containing_origin reference : list Z) (depth : Z) : M A := fun s =>
  let! (oc, s) := resolve containing_origin reference depth s in
  let s := set_active (active s ++ [oc.1]) s in
  let (result, s) := node oc.1 oc.2 depth s in
  (result, set_active (removelast (active s)) s).

(** [for reference in references { layers.extend(dependency(reference)?) }] *)
Fixpoint extend_all {A} (dep : list Z -> M A) (layers_of : A -> list PlanLayer)
    (references : list (list Z)) (layers : list PlanLayer) : M (list PlanLayer) := fun s =>
  match references with
  | [] => (Ok layers, s)
  | reference :: references =>
      let! (child, s) := dep reference s in
      extend_all dep layers_of references (layers ++ layers_of child) s
  end.

Fixpoint psf1_node (fuel : nat) (origin : list Z) (container : PsfContainer)
    (depth : Z) : M Psf1Node := fun s =>
  match fuel with
  | O => (Panic, s)
  | S fuel =>
      let dep reference s :=
        dependency (psf1_node fuel) origin reference (depth + 1) s in
      let! (_, s) := observe_metadata origin container s in
      let current := mkPlanLayer origin container in
      let! (start, s) :=
        match Tags.get (tags container) (str "_lib") with
        | Some reference => dep reference s
        | None => (Ok (mkPsf1Node [] origin), s)
        end in
      let! (layers, s) :=
        extend_all dep node_layers (numbered_libraries container)
          (node_layers start ++ [current]) s in
      (Ok (mkPsf1Node layers (node_initial_state_origin start)), s)
  end.

Fixpoint psf2_node (fuel : nat) (origin : list Z) (container : PsfContainer)
    (depth : Z) : M (list PlanLayer) := fun s =>
  match fuel with
  | O => (Panic, s)
  | S fuel =>
      let! (_, s) := observe_metadata origin container s in
      let references :=
        match Tags.get (tags container) (str "_lib") with
        | Some primary => [primary]
        | None => []
        end ++ numbered_libraries container in
      let! (layers, s) :=
        extend_all (fun reference s =>
            dependency (psf2_node fuel) origin reference (depth + 1) s)
          id references [] s in
      (Ok (layers ++ [mkPlanLayer origin container]), s)
  end.

(** One unit of fuel for each level the depth limit admits, the root included. *)
Definition load_fuel (l : DependencyLimits) : nat := S (Z.to_nat (max_depth l)).

Definition load_plan (root_origin root_bytes : list Z) (r : R)
    (pl : ParseLimits) (dl : DependencyLimits) : outcome LoadError LoadPlan * R :=
  match map_err LoadParse (parse_with_limits root_origin root_bytes pl) with
  | Err e => (Err e, r)
  | Panic => (Panic, r)
  | Ok root =>
      match metadata root_origin root with
      | Err e => (Err e, r)
      | Panic => (Panic, r)
      | Ok root_metadata =>
          let s := mkLoadState r pl dl 0 0 [] None (version root) in
          let (result, s) :=
            let! (_, s) := account (len root_bytes) s in
            let s := set_active (active s ++ [root_origin]) s in
            match version root with
            | Psf1 =>
                let! (node, s) := psf1_node (load_fuel dl) root_origin root 0 s in
                (Ok (LoadPsf1 (mkPsf1LoadPlan root_origin (node_layers node)
                   (node_initial_state_origin node) (refresh_override s) root_metadata)), s)
            | Psf2 =>
                let! (layers, s) := psf2_node (load_fuel dl) root_origin root 0 s in
                (Ok (LoadPsf2 (mkPsf2LoadPlan root_origin layers
                   (refresh_override s) root_metadata)), s)
            end in
          (result, resolver s)
      end
  end.

End load.
