(* ===== verification/PsfLoadFacts.v ===== *)
(** * What a dependency plan promises

    A plan is read off the tree of files the [_lib*] references span: PSF1
    overlays the primary library first, then the file, then its numbered
    libraries; PSF2 overlays all libraries before the file.  The traversal never
    panics and stays inside the limits. *)

From S2P Require Import Prelude MachineInt PsfText PsfTags PsfDuration PsfContainer.
From S2P Require Import PsfMetadata PsfLoad.

(** ** Dependency trees *)

Inductive tree :=
| Node (origin bytes : list Z) (container : PsfContainer) (primary : option tree)
    (libs : list tree).

Definition t_origin (t : tree) : list Z := let '(Node o _ _ _ _) := t in o.
Definition t_bytes (t : tree) : list Z := let '(Node _ b _ _ _) := t in b.
Definition t_container (t : tree) : PsfContainer := let '(Node _ _ c _ _) := t in c.

Definition sum (l : list Z) : Z := foldr Z.add 0 l.

Fixpoint size (t : tree) : Z :=
  let '(Node _ _ _ p ls) := t in
  1 + match p with Some t => size t | None => 0 end + sum (map size ls).

(** Source bytes of all files, counted once per reference. *)
Fixpoint total (t : tree) : Z :=
  let '(Node _ b _ p ls) := t in
  len b + match p with Some t => total t | None => 0 end + sum (map total ls).

(** Overlay order of a PSF1 plan. *)
Fixpoint layers1 (t : tree) : list PlanLayer :=
  let '(Node o _ c p ls) := t in
  match p with Some t => layers1 t | None => [] end ++
  [mkPlanLayer o c] ++ concat (map layers1 ls).

(** Overlay order of a PSF2 plan. *)
Fixpoint layers2 (t : tree) : list PlanLayer :=
  let '(Node o _ c p ls) := t in
  match p with Some t => layers2 t | None => [] end ++
  concat (map layers2 ls) ++ [mkPlanLayer o c].

(** The file the chain of primary libraries ends in. *)
Fixpoint initial (t : tree) : list Z :=
  let '(Node o _ _ p _) := t in
  match p with Some t => initial t | None => o end.

Definition node_refresh (c : PsfContainer) : option RefreshRate :=
  match PlaybackMetadata.parse (tags c) with Ok m => refresh m | _ => None end.

(** The [_refresh] tags in traversal order. *)
Fixpoint refreshes (t : tree) : list (option RefreshRate) :=
  let '(Node _ _ c p ls) := t in
  node_refresh c :: match p with Some t => refreshes t | None => [] end ++
  concat (map refreshes ls).

Fixpoint first_some {A} (l : list (option A)) : option A :=
  match l with
  | [] => None
  | Some a :: _ => Some a
  | None :: l => first_some l
  end.

Lemma first_some_app {A} (l1 l2 : list (option A)) :
  first_some (l1 ++ l2) = match first_some l1 with Some a => Some a | None => first_some l2 end.
Proof. induction l1 as [|[a|] l1 IH]; cbn; [done|done|apply IH]. Qed.

Lemma sum_app l1 l2 : sum (l1 ++ l2) = sum l1 + sum l2.
Proof. induction l1; cbn; [done|]. unfold sum in *. lia. Qed.

(** ** Numbered libraries *)

Lemma decimal_loop_app fuel n acc : decimal_loop fuel n acc = decimal_loop fuel n [] ++ acc.
Proof.
  revert n acc. induction fuel as [|fuel IH]; intros n acc; [done|]. cbn [decimal_loop].
  destruct (n <? 10); [done|]. rewrite (IH (n / 10) (_ :: acc)), (IH (n / 10) [_]).
  by rewrite <- app_assoc.
Qed.

Lemma decimal_digits fuel n : 0 <= n -> Forall (fun b => is_digit b = true) (decimal_loop fuel n []).
Proof.
  revert n. induction fuel as [|fuel IH]; intros n Hn; [constructor|]. cbn [decimal_loop].
  pose proof (Z.mod_pos_bound n 10 ltac:(lia)).
  assert (is_digit (0x30 + n mod 10) = true) as Hd.
  { unfold is_digit. apply andb_true_iff. rewrite !Z.leb_le. lia. }
  destruct (n <? 10); [by repeat constructor|].
  rewrite decimal_loop_app. apply Forall_app. split; [apply IH, Z.div_pos; lia|].
  by repeat constructor.
Qed.

Lemma decimal_inj fuel m n :
  0 <= m < 10 ^ Z.of_nat fuel -> 0 <= n < 10 ^ Z.of_nat fuel ->
  decimal_loop fuel m [] = decimal_loop fuel n [] -> m = n.
Proof.
  revert m n. induction fuel as [|fuel IH]; intros m n Hm Hn; [cbn in *; lia|].
  rewrite Nat2Z.inj_succ, Z.pow_succ_r in Hm, Hn by lia. cbn [decimal_loop].
  pose proof (Z.div_mod m 10). pose proof (Z.div_mod n 10).
  rewrite (decimal_loop_app fuel (m / 10)), (decimal_loop_app fuel (n / 10)).
  destruct (Z.ltb_spec m 10), (Z.ltb_spec n 10); intros E.
  - injection E as E. rewrite !Z.mod_small in E by lia. lia.
  - destruct fuel as [|fuel]; [cbn in Hn; lia|].
    cbn [decimal_loop] in E. destruct (n / 10 <? 10); [discriminate|].
    rewrite decimal_loop_app in E. apply (f_equal length) in E.
    rewrite !length_app in E. cbn in E. lia.
  - destruct fuel as [|fuel]; [cbn in Hm; lia|].
    cbn [decimal_loop] in E. destruct (m / 10 <? 10); [discriminate|].
    rewrite decimal_loop_app in E. apply (f_equal length) in E.
    rewrite !length_app in E. cbn in E. lia.
  - apply app_inj_tail in E as [E E'].
    apply IH in E; [lia|split; [apply Z.div_pos; lia|apply Z.div_lt_upper_bound; lia]..].
Qed.

Lemma lower_digits l :
  Forall (fun b => is_digit b = true) l -> map to_ascii_lowercase l = l.
Proof.
  induction 1 as [|b l Hb Hl IH]; cbn [map]; [done|]. rewrite IH. f_equal.
  unfold to_ascii_lowercase, is_upper, is_digit in *. zbool.
  rewrite (proj2 (Z.leb_gt 0x41 b)) by lia. done.
Qed.

Lemma lower_lib_key i : 0 <= i -> map to_ascii_lowercase (lib_key i) = lib_key i.
Proof.
  intros Hi. unfold lib_key, decimal. rewrite map_app, (lower_digits (decimal_loop 10 i [])); [done|].
  by apply decimal_digits.
Qed.

Lemma lib_key_inj i j :
  0 <= i < 10 ^ 10 -> 0 <= j < 10 ^ 10 -> lib_key i = lib_key j -> i = j.
Proof. intros Hi Hj E%app_inv_head. by apply (decimal_inj 10) in E. Qed.

Lemma get_key t k v :
  Tags.get t k = Some v ->
  map to_ascii_lowercase k ∈ map (fun e => map to_ascii_lowercase (tag_key e)) t.
Proof.
  unfold Tags.get. destruct (filter _ t) as [|e l] eqn:Ef; [done|]. intros _.
  assert (e ∈ filter (fun t => eq_ignore_ascii_case (tag_key t) k = true) t) as He
    by (rewrite Ef; left).
  apply list_elem_of_filter in He as [Hk He]. unfold eq_ignore_ascii_case in Hk.
  apply bool_decide_eq_true in Hk. rewrite <- Hk.
  apply (list_elem_of_fmap_2 (fun e => map to_ascii_lowercase (tag_key e)) t e He).
Qed.

Lemma numbered_loop_spec fuel t index :
  let vs := numbered_loop fuel t index in
  (forall i v, vs !! i = Some v -> Tags.get t (lib_key (index + Z.of_nat i)) = Some v) /\
  (Tags.get t (lib_key (index + Z.of_nat (length vs))) = None \/ length vs = fuel).
Proof.
  revert index. induction fuel as [|fuel IH]; intros index; cbn [numbered_loop]; cbn zeta.
  { split; [done|by right]. }
  destruct (Tags.get t (lib_key index)) as [v|] eqn:Ev.
  2:{ split; [done|]. left. cbn. by rewrite Z.add_0_r. }
  destruct (IH (index + 1)) as [H1 H2]. split.
  - intros [|i] w; cbn [lookup list_lookup].
    + intros [= <-]. by rewrite Z.add_0_r.
    + intros Hw%H1. by replace (index + Z.of_nat (S i)) with (index + 1 + Z.of_nat i) by lia.
  - cbn [length].
    replace (index + Z.of_nat (S (length (numbered_loop fuel t (index + 1)))))
      with (index + 1 + Z.of_nat (length (numbered_loop fuel t (index + 1)))) by lia.
    destruct H2; [by left|right; lia].
Qed.

(** Distinct indices are distinct tags, so a run of found indices is no longer than
    the tag list. *)
Lemma found_run t index n :
  0 <= index -> index + Z.of_nat n <= 10 ^ 10 ->
  (forall i, (i < n)%nat -> Tags.get t (lib_key (index + Z.of_nat i)) <> None) ->
  (n <= length t)%nat.
Proof.
  intros H0 Hn Hget.
  rewrite <- (length_map (fun e => map to_ascii_lowercase (tag_key e)) t).
  replace n with (length (map lib_key (seqZ index (Z.of_nat n)))) at 1
    by (rewrite length_map, length_seqZ; lia).
  apply submseteq_length, NoDup_submseteq.
  - apply NoDup_fmap_2_strong; [|apply NoDup_seqZ].
    intros x y Hx%elem_of_seqZ Hy%elem_of_seqZ. apply lib_key_inj; lia.
  - intros k Hk. apply list_elem_of_fmap in Hk as (i & -> & Hi%elem_of_seqZ).
    specialize (Hget (Z.to_nat (i - index)) ltac:(lia)).
    replace (index + Z.of_nat (Z.to_nat (i - index))) with i in Hget by lia.
    destruct (Tags.get t (lib_key i)) as [v|] eqn:Ev; [|done].
    apply get_key in Ev. by rewrite lower_lib_key in Ev by lia.
Qed.

(** [numbered_libraries] returns the values of [_lib2], [_lib3], ... up to the
    first missing index, however many there are: the loop's bound by the number of
    tags is never what stops it. *)
Theorem numbered_libraries_complete c :
  Z.of_nat (length (tags c)) < 2 ^ 32 ->
  let vs := numbered_libraries c in
  (forall i v, vs !! i = Some v ->
     Tags.get (tags c) (lib_key (2 + Z.of_nat i)) = Some v) /\
  Tags.get (tags c) (lib_key (2 + Z.of_nat (length vs))) = None.
Proof.
  intros Hl vs. subst vs. unfold numbered_libraries.
  destruct (numbered_loop_spec (S (length (tags c))) (tags c) 2) as [H1 H2].
  split; [done|]. destruct H2 as [H2|H2]; [done|]. exfalso.
  assert (S (length (tags c)) <= length (tags c))%nat; [|lia].
  apply (found_run (tags c) 2); [lia|lia|]. intros i Hi.
  rewrite <- H2 in Hi. apply lookup_lt_is_Some_2 in Hi as [v Hv].
  by rewrite (H1 i v Hv).
Qed.

(** ** The traversal builds a tree *)

Section plan.
Context `{Codec} {R : Type} `{Resolver R}.

(** Some state of the resolver answers [reference] from [origin] with this file. *)
Definition resolves (origin reference : list Z) (t : tree) : Prop :=
  exists r r', resolve_file origin reference r =
    (Ok (mkResolvedFile (t_origin t) (t_bytes t)), r').

(** A tree is valid below the active files [above] at [depth]: every file parses,
    has the plan's version and valid metadata, repeats none of the files above it,
    and its children are the files its [_lib*] tags name. *)
Inductive valid (pl : ParseLimits) (v : PsfVersion) (max : Z)
  : list (list Z) -> Z -> tree -> Prop :=
| valid_node above depth o b c p ls :
    depth <= max ->
    parse_with_limits o b pl = Ok c ->
    version c = v ->
    is_ok (PlaybackMetadata.parse (tags c)) = true ->
    option_Forall2 (fun ref t => resolves o ref t /\ t_origin t ∉ above ++ [o] /\
      valid pl v max (above ++ [o]) (depth + 1) t) (Tags.get (tags c) (str "_lib")) p ->
    Forall2 (fun ref t => resolves o ref t /\ t_origin t ∉ above ++ [o] /\
      valid pl v max (above ++ [o]) (depth + 1) t) (numbered_libraries c) ls ->
    valid pl v max above depth (Node o b c p ls).

Definition counted (s : LoadState R) : Prop :=
  file_count s <= max_files (limits s) /\ aggregate_bytes s <= max_aggregate_bytes (limits s).

(** [s'] follows [s] after visiting [n] files of [b] bytes with refresh tags [rs]. *)
Record visited (n b : Z) (rs : list (option RefreshRate)) (s s' : LoadState R) : Prop := {
  vis_active : active s' = active s;
  vis_limits : limits s' = limits s;
  vis_parse : parse_limits s' = parse_limits s;
  vis_version : ls_version s' = ls_version s;
  vis_files : file_count s' = file_count s + n;
  vis_bytes : aggregate_bytes s' = aggregate_bytes s + b;
  vis_refresh : refresh_override s' = first_some (refresh_override s :: rs);
  vis_counted : counted s -> counted s';
}.

Lemma visited_refl s : visited 0 0 [] s s.
Proof. constructor; try done; try lia. cbn. by destruct (refresh_override s). Qed.

Lemma visited_trans n b rs n' b' rs' s1 s2 s3 :
  visited n b rs s1 s2 -> visited n' b' rs' s2 s3 ->
  visited (n + n') (b + b') (rs ++ rs') s1 s3.
Proof.
  intros [] []. constructor; try congruence; try lia; [|auto].
  rewrite vis_refresh1, vis_refresh0. cbn.
  destruct (refresh_override s1); [done|]. rewrite first_some_app. by destruct (first_some rs).
Qed.

Lemma visited_eq n b rs n' b' rs' s s' :
  visited n b rs s s' -> n = n' -> b = b' -> rs = rs' -> visited n' b' rs' s s'.
Proof. by intros ? -> -> ->. Qed.

Lemma account_visited bytes s s' :
  account bytes s = (Ok tt, s') -> visited 1 bytes [] s s' /\ counted s'.
Proof.
  unfold account. destruct (checked_add_u 64 (file_count s) 1) as [f|] eqn:Ef; [|done].
  cbn [set_counts aggregate_bytes limits].
  destruct (Z.ltb_spec (max_files (limits s)) f); [done|].
  destruct (checked_add_u 64 (aggregate_bytes s) bytes) as [a|] eqn:Ea; [|done].
  destruct (Z.ltb_spec (max_aggregate_bytes (limits s)) a); [done|]. intros [= <-].
  apply checked_add_u_Some in Ef as [-> _], Ea as [-> _].
  assert (counted (set_counts (file_count s + 1) (aggregate_bytes s + bytes)
    (set_counts (file_count s + 1) (aggregate_bytes s) s))) as Hc by done.
  split; [|done]. constructor; try done. cbn. by destruct (refresh_override s).
Qed.

Lemma observe_visited o c s s' :
  observe_metadata o c s = (Ok tt, s') ->
  is_ok (PlaybackMetadata.parse (tags c)) = true /\ visited 0 0 [node_refresh c] s s'.
Proof.
  unfold observe_metadata, metadata, node_refresh.
  destruct (PlaybackMetadata.parse (tags c)) as [m|e|]; [|done..]. cbn.
  intros [= <-]. split; [done|].
  destruct (refresh_override s) eqn:E; constructor; cbn; try done; try lia.
  - by rewrite E.
  - rewrite E. by destruct (refresh m).
Qed.

Lemma resolve_visited o ref depth s oc s' :
  resolve o ref depth s = (Ok oc, s') ->
  exists bytes, visited 1 (len bytes) [] s s' /\ counted s' /\
    depth <= max_depth (limits s) /\ oc.1 ∉ active s /\
    parse_with_limits oc.1 bytes (parse_limits s) = Ok oc.2 /\
    version oc.2 = ls_version s /\
    exists r r', resolve_file o ref r = (Ok (mkResolvedFile oc.1 bytes), r').
Proof.
  unfold resolve. destruct (Z.ltb_spec (max_depth (limits s)) depth); [done|].
  destruct (resolve_file o ref (resolver s)) as [[[ro bytes]|e|] r] eqn:Er; [|done..].
  cbn [map_err rf_origin rf_bytes].
  destruct (account (len bytes) (set_resolver r s)) as [[[]|e|] s1] eqn:Ea; [|done..].
  apply account_visited in Ea as [Hv Hc]. destruct (list_find _ _) as [[i a]|] eqn:Ef; [done|].
  destruct Hv. cbn in *.
  destruct (parse_with_limits ro bytes (parse_limits s1)) as [c|e|] eqn:Ep; [|done..].
  cbn [map_err]. case_bool_decide as Hver; [|done]. intros [= <- <-]. cbn [fst snd].
  exists bytes. split; [by constructor|]. split_and!; try done.
  - intros Hin. rewrite <- vis_active0 in Hin.
    apply list_find_None in Ef. rewrite Forall_forall in Ef. by apply (Ef ro Hin).
  - by rewrite <- vis_parse0.
  - by rewrite <- vis_version0.
  - by exists (resolver s), r.
Qed.

(** What a node function of a format promises of a file already accounted for:
    it visits the rest of a valid tree and returns the reading [spec] of it. *)
Definition builds {A} (spec : tree -> A)
    (node : list Z -> PsfContainer -> Z -> LoadState R -> outcome LoadError A * LoadState R)
    : Prop :=
  forall above o b c depth s a s',
    active s = above ++ [o] ->
    parse_with_limits o b (parse_limits s) = Ok c -> version c = ls_version s ->
    depth <= max_depth (limits s) ->
    node o c depth s = (Ok a, s') ->
    exists t, t_origin t = o /\ t_bytes t = b /\ a = spec t /\
      valid (parse_limits s) (ls_version s) (max_depth (limits s)) above depth t /\
      visited (size t - 1) (total t - len b) (refreshes t) s s'.

(** A dependency below the file whose stack is [above]. *)
Definition child (pl : ParseLimits) (v : PsfVersion) (max : Z) (above : list (list Z))
    (o : list Z) (depth : Z) (ref : list Z) (t : tree) : Prop :=
  resolves o ref t /\ t_origin t ∉ above /\ valid pl v max above depth t.

Lemma dependency_builds {A} (spec : tree -> A) node above o ref depth s a s' :
  builds spec node -> active s = above ->
  dependency node o ref depth s = (Ok a, s') ->
  exists t, a = spec t /\
    child (parse_limits s) (ls_version s) (max_depth (limits s)) above o depth ref t /\
    visited (size t) (total t) (refreshes t) s s'.
Proof.
  intros Hn Habove. unfold dependency.
  destruct (resolve o ref depth s) as [[[o' c]|e|] s1] eqn:Er; [|done..].
  apply resolve_visited in Er as (b & Hv & _ & Hd & Hin & Hp & Hver & Hres).
  cbn [fst snd] in *. destruct (node o' c depth _) as [r s2] eqn:En. intros [= -> <-].
  pose proof Hv as [].
  edestruct (Hn above o' b c depth (set_active (active s1 ++ [o']) s1) a s2)
    as (t & Ho & Hb & -> & Hval & Hv2); cbn;
    [by rewrite vis_active0, Habove|by rewrite vis_parse0|by rewrite vis_version0
    |by rewrite vis_limits0|done|].
  cbn in Hval.
  exists t. rewrite vis_parse0, vis_version0, vis_limits0 in Hval.
  split; [done|]. split.
  - split_and!; [|by rewrite Ho, <- Habove|done].
    unfold resolves. by rewrite Ho, Hb.
  - destruct Hv2. cbn in *. constructor; cbn; try congruence; try lia.
    + rewrite vis_active1. by rewrite removelast_last.
    + rewrite vis_refresh1, vis_refresh0. cbn. by destruct (refresh_override s).
    + auto.
Qed.

(** The children a node visits one after the other. *)
Definition all_visited (ts : list tree) (s s' : LoadState R) : Prop :=
  visited (sum (map size ts)) (sum (map total ts)) (concat (map refreshes ts)) s s'.

Lemma all_visited_cons t ts s1 s2 s3 :
  visited (size t) (total t) (refreshes t) s1 s2 -> all_visited ts s2 s3 ->
  all_visited (t :: ts) s1 s3.
Proof. intros H1 H2. exact (visited_trans _ _ _ _ _ _ _ _ _ H1 H2). Qed.

Lemma child_after pl v max above o depth n b rs s s' ref t :
  visited n b rs s s' ->
  child (parse_limits s') (ls_version s') (max_depth (limits s')) above o depth ref t ->
  pl = parse_limits s -> v = ls_version s -> max = max_depth (limits s) ->
  child pl v max above o depth ref t.
Proof. intros [] Hc -> -> ->. by rewrite vis_parse0, vis_version0, vis_limits0 in Hc. Qed.

Lemma extend_all_builds {A} (spec : tree -> A) node layers_of above o depth refs :
  builds spec node ->
  forall layers s ls s', active s = above ->
  extend_all (fun ref s => dependency node o ref depth s) layers_of refs layers s = (Ok ls, s') ->
  exists ts, ls = layers ++ concat (map (fun t => layers_of (spec t)) ts) /\
    Forall2 (child (parse_limits s) (ls_version s) (max_depth (limits s)) above o depth) refs ts /\
    all_visited ts s s'.
Proof.
  intros Hn. induction refs as [|ref refs IH]; intros layers s ls s' Habove; cbn [extend_all].
  { intros [= <- <-]. exists []. cbn. rewrite app_nil_r.
    split_and!; [done|constructor|apply visited_refl]. }
  destruct (dependency node o ref depth s) as [[a|e|] s1] eqn:Ed; [|done..].
  apply (dependency_builds spec) with (above := above) in Ed as (t & -> & Hc & Hv); [|done..].
  intros Er. apply IH in Er as (ts & -> & Hall & Hvs); [|by destruct Hv; congruence].
  exists (t :: ts). cbn. rewrite <- app_assoc. split_and!; [done| |by eapply all_visited_cons].
  constructor; [done|]. eapply Forall2_impl; [apply Hall|]. intros ref' t' Hc'.
  exact (child_after _ _ _ _ _ _ _ _ _ _ _ _ _ Hv Hc' eq_refl eq_refl eq_refl).
Qed.

Lemma valid_children pl v max above depth o b c p ls :
  depth <= max -> parse_with_limits o b pl = Ok c -> version c = v ->
  is_ok (PlaybackMetadata.parse (tags c)) = true ->
  option_Forall2 (child pl v max (above ++ [o]) o (depth + 1))
    (Tags.get (tags c) (str "_lib")) p ->
  Forall2 (child pl v max (above ++ [o]) o (depth + 1)) (numbered_libraries c) ls ->
  valid pl v max above depth (Node o b c p ls).
Proof. intros. by apply valid_node. Qed.

Definition spec1 (t : tree) : Psf1Node := mkPsf1Node (layers1 t) (initial t).

Lemma psf1_builds fuel : builds spec1 (psf1_node fuel).
Proof.
  induction fuel as [|fuel IH]; intros above o b c depth s a s' Hact Hp Hver Hd;
    cbn [psf1_node]; [done|].
  destruct (observe_metadata o c s) as [[[]|e|] s1] eqn:Eo; [|done..].
  apply observe_visited in Eo as [Hmeta Hv1]. pose proof Hv1 as [].
  destruct (Tags.get (tags c) (str "_lib")) as [ref|] eqn:Eg.
  - destruct (dependency _ o ref _ s1) as [[start|e|] s2] eqn:Ed; [|done..].
    apply (dependency_builds spec1) with (above := above ++ [o]) in Ed
      as (t & -> & Hc & Hv2); [|done|congruence].
    destruct (extend_all _ _ _ _ s2) as [[layers|e|] s3] eqn:Ee; [|done..].
    apply (extend_all_builds spec1) with (above := above ++ [o]) in Ee
      as (ts & -> & Hts & Hv3); [|done|by destruct Hv2; congruence].
    intros [= <- <-]. exists (Node o b c (Some t) ts).
    pose proof (visited_trans _ _ _ _ _ _ _ _ _ Hv1 Hv2) as Hv12.
    split_and!; [done|done| | |].
    + unfold spec1. cbn. by rewrite <- app_assoc.
    + apply valid_children; try done.
      * rewrite Eg. constructor.
        exact (child_after _ _ _ _ _ _ _ _ _ _ _ _ _ Hv1 Hc eq_refl eq_refl eq_refl).
      * eapply Forall2_impl; [apply Hts|]. intros ref' t' Hc'.
        exact (child_after _ _ _ _ _ _ _ _ _ _ _ _ _ Hv12 Hc' eq_refl eq_refl eq_refl).
    + eapply visited_eq; [exact (visited_trans _ _ _ _ _ _ _ _ _ Hv12 Hv3)|..];
        cbn; [lia|lia|done].
  - destruct (extend_all _ _ _ _ s1) as [[layers|e|] s3] eqn:Ee; [|done..].
    apply (extend_all_builds spec1) with (above := above ++ [o]) in Ee
      as (ts & -> & Hts & Hv3); [|done|congruence].
    intros [= <- <-]. exists (Node o b c None ts).
    split_and!; [done|done|done| |].
    + apply valid_children; try done; [by rewrite Eg; constructor|].
      eapply Forall2_impl; [apply Hts|]. intros ref' t' Hc'.
      exact (child_after _ _ _ _ _ _ _ _ _ _ _ _ _ Hv1 Hc' eq_refl eq_refl eq_refl).
    + eapply visited_eq; [exact (visited_trans _ _ _ _ _ _ _ _ _ Hv1 Hv3)|..];
        cbn; [lia|lia|done].
Qed.

Lemma Forall2_option {A B} (P : A -> B -> Prop) (o : option A) (l : list B) :
  Forall2 P match o with Some a => [a] | None => [] end l ->
  exists p, l = match p with Some b => [b] | None => [] end /\ option_Forall2 P o p.
Proof.
  destruct o as [a|]; intros Hf.
  - apply Forall2_cons_inv_l in Hf as (b & l' & Hb & ->%Forall2_nil_inv_l & ->).
    exists (Some b). by repeat constructor.
  - apply Forall2_nil_inv_l in Hf as ->. exists None. by repeat constructor.
Qed.

Lemma psf2_builds fuel : builds layers2 (psf2_node fuel).
Proof.
  induction fuel as [|fuel IH]; intros above o b c depth s a s' Hact Hp Hver Hd;
    cbn [psf2_node]; [done|].
  destruct (observe_metadata o c s) as [[[]|e|] s1] eqn:Eo; [|done..].
  apply observe_visited in Eo as [Hmeta Hv1]. pose proof Hv1 as [].
  destruct (extend_all _ _ _ _ s1) as [[layers|e|] s3] eqn:Ee; [|done..].
  apply (extend_all_builds layers2) with (above := above ++ [o]) in Ee
    as (ts & -> & Hts & Hv3); [|done|congruence].
  apply Forall2_app_inv_l in Hts as (ps & ls & Hps & Hls & ->).
  apply Forall2_option in Hps as (p & -> & Hps).
  intros [= <- <-]. exists (Node o b c p ls). split_and!; [done|done| | |].
  - destruct p as [t|]; cbn; by rewrite <- ?app_assoc.
  - apply valid_children; try done.
    + destruct Hps as [ref t Hc|]; constructor.
      exact (child_after _ _ _ _ _ _ _ _ _ _ _ _ _ Hv1 Hc eq_refl eq_refl eq_refl).
    + eapply Forall2_impl; [apply Hls|]. intros ref' t' Hc'.
      exact (child_after _ _ _ _ _ _ _ _ _ _ _ _ _ Hv1 Hc' eq_refl eq_refl eq_refl).
  - eapply visited_eq; [exact (visited_trans _ _ _ _ _ _ _ _ _ Hv1 Hv3)|..];
      destruct p as [t|]; cbn; unfold sum; cbn; try lia; done.
Qed.

(** Running a node function on an accounted root. *)
Lemma root_builds {A} (spec : tree -> A) node o b c s a s' :
  builds spec node -> active s = [o] ->
  parse_with_limits o b (parse_limits s) = Ok c -> version c = ls_version s ->
  0 <= max_depth (limits s) -> counted s ->
  file_count s = 1 -> aggregate_bytes s = len b -> refresh_override s = None ->
  node o c 0 s = (Ok a, s') ->
  exists t, t_origin t = o /\ t_bytes t = b /\ t_container t = c /\ a = spec t /\
    valid (parse_limits s) (ls_version s) (max_depth (limits s)) [] 0 t /\
    size t <= max_files (limits s) /\ total t <= max_aggregate_bytes (limits s) /\
    refresh_override s' = first_some (refreshes t).
Proof.
  intros Hn Hact Hp Hver Hd Hc Hf Hb Hr En.
  destruct (Hn [] o b c 0 s a s' Hact Hp Hver Hd En) as (t & Ho & Htb & -> & Hval & []).
  destruct (vis_counted0 Hc) as [Hf' Hb']. rewrite vis_limits0 in Hf', Hb'.
  exists t. split_and!; try done; [|lia|lia|].
  - inversion Hval; subst. cbn in *. congruence.
  - rewrite vis_refresh0, Hr. done.
Qed.

(** The plan the tree below a root spells out. *)
Definition plan_of (root : list Z) (m : PlaybackMetadata) (v : PsfVersion) (t : tree)
    : LoadPlan :=
  match v with
  | Psf1 => LoadPsf1 (mkPsf1LoadPlan root (layers1 t) (initial t) (first_some (refreshes t)) m)
  | Psf2 => LoadPsf2 (mkPsf2LoadPlan root (layers2 t) (first_some (refreshes t)) m)
  end.

(** C16: A successful load plan is the reading of a valid dependency tree rooted at
    the given file: layers in the format's overlay order, the initial state of the
    last primary library, the first [_refresh] in traversal order and the root's
    metadata.  Every file of the tree parses, has the root's version and repeats no
    file above it; the tree is no deeper, has no more files and no more bytes than
    the limits. *)
Theorem load_plan_overlay_order root_origin root_bytes (r r' : R) pl dl plan :
  0 <= max_depth dl ->
  load_plan root_origin root_bytes r pl dl = (Ok plan, r') ->
  exists t m, t_origin t = root_origin /\ t_bytes t = root_bytes /\
    PlaybackMetadata.parse (tags (t_container t)) = Ok m /\
    valid pl (version (t_container t)) (max_depth dl) [] 0 t /\
    size t <= max_files dl /\ total t <= max_aggregate_bytes dl /\
    plan = plan_of root_origin m (version (t_container t)) t.
Proof.
  intros Hdepth. unfold load_plan.
  destruct (parse_with_limits root_origin root_bytes pl) as [root|e|] eqn:Ep; [|done..].
  cbn [map_err]. unfold metadata.
  destruct (PlaybackMetadata.parse (tags root)) as [m|e|] eqn:Em; [|done..]. cbn [map_err].
  destruct (account _ _) as [[[]|e|] s1] eqn:Ea; [|done..].
  apply account_visited in Ea as [Hv1 Hc1]. pose proof Hv1 as [].
  cbn in vis_active0, vis_limits0, vis_parse0, vis_version0, vis_files0, vis_bytes0, vis_refresh0.
  destruct (version root) eqn:Ever.
  - destruct (psf1_node _ _ _ _ _) as [[node|e|] s2] eqn:En; [|done..]. intros [= <- <-].
    apply (root_builds spec1 _ _ root_bytes) in En
      as (t & Ho & Hb & Hroot & -> & Hval & Hf & Hby & Hr);
      [|apply psf1_builds|try exact Hc1; cbn;
       rewrite ?vis_active0, ?vis_limits0, ?vis_parse0, ?vis_version0, ?vis_files0, ?vis_bytes0;
       try done; try congruence..].
    exists t, m. rewrite Hroot, Ever. cbn in Hval, Hf, Hby, Hr. rewrite vis_parse0, vis_version0 in Hval.
    rewrite vis_limits0 in Hval, Hf, Hby. split_and!; try done. cbn. by rewrite Hr.
  - destruct (psf2_node _ _ _ _ _) as [[node|e|] s2] eqn:En; [|done..]. intros [= <- <-].
    apply (root_builds layers2 _ _ root_bytes) in En
      as (t & Ho & Hb & Hroot & -> & Hval & Hf & Hby & Hr);
      [|apply psf2_builds|try exact Hc1; cbn;
       rewrite ?vis_active0, ?vis_limits0, ?vis_parse0, ?vis_version0, ?vis_files0, ?vis_bytes0;
       try done; try congruence..].
    exists t, m. rewrite Hroot, Ever. cbn in Hval, Hf, Hby, Hr. rewrite vis_parse0, vis_version0 in Hval.
    rewrite vis_limits0 in Hval, Hf, Hby. split_and!; try done. cbn. by rewrite Hr.
Qed.

(** ** Termination *)

Class ResolverLaws : Prop :=
  resolve_file_no_panic o ref (r : R) : no_panic (resolve_file o ref r).1.
Context `{!ResolverLaws}.

(** A step that neither panics nor changes the limits. *)
Definition steady {A} (m : LoadState R -> outcome LoadError A * LoadState R)
    (s : LoadState R) : Prop :=
  no_panic (m s).1 /\ limits (m s).2 = limits s.

Lemma account_steady bytes s : steady (account bytes) s.
Proof.
  unfold steady, account. destruct (checked_add_u 64 _ 1); [|done].
  destruct (_ <? z); [done|]. destruct (checked_add_u 64 _ bytes) as [a|]; [|done].
  by destruct (_ <? a).
Qed.

Lemma integer_no_panic l : no_panic (integer l).
Proof. unfold integer. case_match; [done|apply ok_or_no_panic]. Qed.

Lemma fraction_no_panic f : no_panic (Duration.parse_fraction f).
Proof.
  unfold Duration.parse_fraction. destruct f as [[|x l]|]; [done| |done].
  case_match; [done|]. apply obind_no_panic; [apply ok_or_no_panic|]. intros scale _.
  apply obind_no_panic; [apply integer_no_panic|done].
Qed.

Lemma from_parts_no_panic h m s f scale : no_panic (Duration.from_parts h m s f scale).
Proof.
  unfold Duration.from_parts. apply obind_no_panic; [apply ok_or_no_panic|]. intros w _.
  apply obind_no_panic; [apply ok_or_no_panic|done].
Qed.

Lemma duration_no_panic l : no_panic (Duration.parse l).
Proof.
  unfold Duration.parse. cbv zeta. case_match; [done|]. apply obind_no_panic.
  - destruct (split_on _ _) as [|a [|b [|c [|d l']]]]; try done.
    + apply obind_no_panic; [apply integer_no_panic|done].
    + apply obind_no_panic; [apply integer_no_panic|]. intros h _.
      apply obind_no_panic; [apply integer_no_panic|done].
  - intros [[h m] st] _. case_match; [done|]. case_match; [done|].
    destruct (Duration.split_once _) as [w f].
    apply obind_no_panic; [apply integer_no_panic|]. intros s _. case_match; [done|].
    apply obind_no_panic; [apply fraction_no_panic|]. intros [fr sc] _.
    apply from_parts_no_panic.
Qed.

Lemma plan_map_err_no_panic {E E' A} (f : E -> E') (m : outcome E A) :
  no_panic m -> no_panic (map_err f m).
Proof. by destruct m. Qed.

Lemma optional_no_panic {E A} (f : list Z -> outcome E A) o :
  (forall l, no_panic (f l)) -> no_panic (optional f o).
Proof. intros Hf. destruct o as [l|]; [|done]. by apply obind_no_panic. Qed.

Lemma metadata_no_panic o c : no_panic (metadata o c).
Proof.
  unfold metadata, PlaybackMetadata.parse. apply plan_map_err_no_panic. cbv zeta.
  apply obind_no_panic.
  { unfold PlaybackMetadata.parse_volume. repeat case_match; done. }
  intros v _. apply obind_no_panic.
  { apply plan_map_err_no_panic, optional_no_panic, duration_no_panic. }
  intros d _. apply obind_no_panic.
  { apply plan_map_err_no_panic, optional_no_panic, duration_no_panic. }
  intros f _. apply obind_no_panic; [|done].
  unfold PlaybackMetadata.parse_refresh. repeat case_match; done.
Qed.

Lemma observe_steady o c s : steady (observe_metadata o c) s.
Proof.
  unfold steady, observe_metadata. pose proof (metadata_no_panic o c).
  destruct (metadata o c); [|done..]. by destruct (refresh_override s).
Qed.

Lemma resolve_steady o ref depth s : steady (resolve o ref depth) s.
Proof.
  unfold steady, resolve. destruct (_ <? depth); [done|].
  pose proof (resolve_file_no_panic o ref (resolver s)) as Hr.
  destruct (resolve_file o ref (resolver s)) as [[file|e|] r]; [|done..]. cbn [map_err].
  destruct (account_steady (len (rf_bytes file)) (set_resolver r s)) as [Hn Hl].
  destruct (account _ _) as [[u|e|] s1]; [|done..]. cbn [fst snd] in *.
  destruct (list_find _ _) as [[i a]|]; [done|].
  pose proof (parse_no_panic (rf_origin file) (rf_bytes file) (parse_limits s1)) as Hp.
  destruct (parse_with_limits _ _ _); [|done..]. cbn [map_err]. by case_bool_decide.
Qed.

(** A node function with fuel for every level the limit still admits. *)
Definition node_steady {A}
    (node : list Z -> PsfContainer -> Z -> LoadState R -> outcome LoadError A * LoadState R)
    (fuel : nat) : Prop :=
  forall o c depth s, depth <= max_depth (limits s) < depth + Z.of_nat fuel ->
    steady (node o c depth) s.

Lemma dependency_steady {A} node fuel o ref depth s :
  node_steady (A := A) node fuel ->
  max_depth (limits s) < depth + Z.of_nat fuel ->
  steady (dependency node o ref depth) s.
Proof.
  intros Hn Hd. unfold steady, dependency.
  destruct (resolve_steady o ref depth s) as [Hr Hl].
  assert (depth <= max_depth (limits s) \/ is_ok (resolve o ref depth s).1 = false) as Hle.
  { unfold resolve. destruct (Z.ltb_spec (max_depth (limits s)) depth); [by right|by left]. }
  destruct (resolve o ref depth s) as [[[o' c]|e|] s1]; [|done..]. cbn [fst snd] in *.
  destruct Hle as [Hle|]; [|done].
  destruct (Hn o' c depth (set_active (active s1 ++ [o']) s1)) as [Hp Hl2].
  { cbn. by rewrite Hl. }
  destruct (node o' c depth _) as [a s2]. cbn in *. split; [done|]. by rewrite Hl2.
Qed.

Lemma extend_all_steady {A} node layers_of fuel o depth refs :
  node_steady (A := A) node fuel ->
  forall layers s, max_depth (limits s) < depth + Z.of_nat fuel ->
  steady (extend_all (fun ref s => dependency node o ref depth s) layers_of refs layers) s.
Proof.
  intros Hn. induction refs as [|ref refs IH]; intros layers s Hd; [done|].
  unfold steady. cbn [extend_all].
  destruct (dependency_steady node fuel o ref depth s Hn Hd) as [Hp Hl].
  destruct (dependency _ _ _ _ _) as [[a|e|] s1]; [|done..]. cbn [fst snd] in *.
  destruct (IH (layers ++ layers_of a) s1) as [Hp' Hl']; [by rewrite Hl|].
  split; [done|]. by rewrite Hl'.
Qed.

Lemma psf1_steady fuel : node_steady (psf1_node fuel) fuel.
Proof.
  induction fuel as [|fuel IH]; intros o c depth s Hd; [lia|].
  unfold steady. cbn [psf1_node].
  destruct (observe_steady o c s) as [Hn Hl].
  destruct (observe_metadata o c s) as [[u|e|] s1]; [|done..]. cbn [fst snd] in *.
  assert (forall start s2, limits s2 = limits s1 ->
    steady (fun s => let! (layers, s) :=
        extend_all (fun reference s => dependency (psf1_node fuel) o reference (depth + 1) s)
          node_layers (numbered_libraries c) (node_layers start ++ [mkPlanLayer o c]) s in
      (Ok (mkPsf1Node layers (node_initial_state_origin start)), s)) s2) as Hrest.
  { intros start s2 Hl2. unfold steady.
    destruct (extend_all_steady (psf1_node fuel) node_layers fuel o (depth + 1)
      (numbered_libraries c) IH (node_layers start ++ [mkPlanLayer o c]) s2) as [Hp Hl3].
    { rewrite Hl2, Hl. lia. }
    by destruct (extend_all _ _ _ _ s2) as [[ls|e|] s3]. }
  destruct (Tags.get (tags c) (str "_lib")) as [ref|].
  - destruct (dependency_steady (psf1_node fuel) fuel o ref (depth + 1) s1 IH) as [Hp2 Hl2].
    { rewrite Hl. lia. }
    destruct (dependency _ _ _ _ s1) as [[start|e|] s2]; cbn [fst snd] in *; [|by split; congruence..].
    destruct (Hrest start s2 Hl2) as [Hr1 Hr2]. split; [done|congruence].
  - destruct (Hrest (mkPsf1Node [] o) s1 eq_refl) as [Hr1 Hr2]. split; [done|congruence].
Qed.

Lemma psf2_steady fuel : node_steady (psf2_node fuel) fuel.
Proof.
  induction fuel as [|fuel IH]; intros o c depth s Hd; [lia|].
  unfold steady. cbn [psf2_node].
  destruct (observe_steady o c s) as [Hn Hl].
  destruct (observe_metadata o c s) as [[u|e|] s1]; [|done..]. cbn [fst snd] in *.
  match goal with |- context [extend_all _ _ ?refs _ _] =>
    destruct (extend_all_steady (psf2_node fuel) id fuel o (depth + 1) refs IH [] s1)
      as [Hp2 Hl2]; [rewrite Hl; lia|]
  end.
  destruct (extend_all _ _ _ _ s1) as [[ls|e|] s2]; cbn [fst snd] in *; split; congruence || done.
Qed.

(** C17: Planning always returns: whatever the root bytes, the resolver's answers and
    the tags they hold, the recursion ends within the depth limit and no case
    panics; in particular a cycle of references is an error and not a loop. *)
Theorem load_plan_total root_origin root_bytes (r : R) pl dl :
  0 <= max_depth dl -> no_panic (load_plan root_origin root_bytes r pl dl).1.
Proof.
  intros Hd. unfold load_plan.
  pose proof (parse_no_panic root_origin root_bytes pl) as Hp.
  destruct (parse_with_limits root_origin root_bytes pl) as [root|e|]; [|done..].
  cbn [map_err]. pose proof (metadata_no_panic root_origin root) as Hm.
  destruct (metadata root_origin root) as [m|e|]; [|done..].
  set (s0 := mkLoadState _ _ _ _ _ _ _ _).
  destruct (account_steady (len root_bytes) s0) as [Ha Hl].
  destruct (account (len root_bytes) s0) as [[u|e|] s1]; [|done..]. cbn [fst snd] in *.
  assert (0 <= max_depth (limits (set_active (active s1 ++ [root_origin]) s1))
    < 0 + Z.of_nat (load_fuel dl)) as Hf.
  { cbn [set_active limits]. rewrite Hl. unfold load_fuel, s0. cbn [limits]. lia. }
  destruct (version root).
  - destruct (psf1_steady (load_fuel dl) root_origin root 0 _ Hf) as [Hn _].
    by destruct (psf1_node _ _ _ _ _) as [[a|e|] s2].
  - destruct (psf2_steady (load_fuel dl) root_origin root 0 _ Hf) as [Hn _].
    by destruct (psf2_node _ _ _ _ _) as [[a|e|] s2].
Qed.
End plan.

(** ** The in-memory resolver *)

Lemma normalize_parts_no_panic cs ps : no_panic (normalize_parts cs ps).
Proof.
  revert ps. induction cs as [|c cs IH]; intros ps; cbn; [done|].
  case_match; [done|]. case_match; [|done]. by destruct ps.
Qed.

Lemma normalize_logical_no_panic l : no_panic (normalize_logical l).
Proof.
  apply obind_no_panic; [apply normalize_parts_no_panic|]. intros ps _. by case_match.
Qed.

#[export] Instance memory_resolver_laws : ResolverLaws (R := gmap (list Z) (list Z)).
Proof.
  intros o ref files. cbn. apply obind_no_panic.
  - apply obind_no_panic; [apply normalize_logical_no_panic|]. intros p _.
    apply normalize_logical_no_panic.
  - intros p _. apply obind_no_panic; [apply ok_or_no_panic|done].
Qed.

(** A file whose program is its name, with the given tags. *)
Definition sample_file (name : string) (tags : list (string * string)) : list Z :=
  match build (mkPsfBuilder Psf1 [] (str name)
    (map (fun kv => (str kv.1, str kv.2)) tags)) with
  | Ok bytes => bytes
  | _ => []
  end.

Definition sample_root : list Z :=
  sample_file "root" [("_lib", "lib/a.psf"); ("_lib2", "b.psf"); ("title", "Sample")].

Definition sample_files : gmap (list Z) (list Z) :=
  <[str "lib/a.psf" := sample_file "a" [("_lib", "./c.psf"); ("_refresh", "50")]]>
  (<[str "lib/c.psf" := sample_file "c" []]>
  (<[str "b.psf" := sample_file "b" [("_refresh", "60")]]> ∅)).

Definition sample_result : outcome LoadError LoadPlan :=
  (load_plan (str "root.psf") sample_root sample_files default_limits
    default_dependency_limits).1.

Example sample_order :
  match sample_result with
  | Ok (LoadPsf1 p) =>
      map layer_origin (p1_layers p) =
        [str "lib/c.psf"; str "lib/a.psf"; str "root.psf"; str "b.psf"] /\
      p1_initial_state_origin p = str "lib/c.psf" /\ p1_refresh_override p = Some Hz50
  | _ => False
  end.
Proof. vm_compute. done. Qed.

(** A file that names itself is reported as a cycle. *)
Example sample_cycle :
  (load_plan (str "x.psf") (sample_file "x" [("_lib", "x.psf")])
    (<[str "x.psf" := sample_file "x" [("_lib", "x.psf")]]> ∅)
    default_limits default_dependency_limits).1 =
  Err (Cycle [str "x.psf"; str "x.psf"]).
Proof. vm_compute. reflexivity. Qed.

Definition sample_plan : LoadPlan :=
  match sample_result with
  | Ok p => p
  | _ => LoadPsf2 (mkPsf2LoadPlan [] [] None (mkMetadata None None None None None None None
           None (decimal_f64 false 1 0) None Duration.ZERO None []))
  end.

Lemma load_plan_overlay_order_witness :
  exists t m, size t <= 256 /\ sample_plan = plan_of (str "root.psf") m Psf1 t.
Proof.
  assert (load_plan (str "root.psf") sample_root sample_files default_limits
    default_dependency_limits = (Ok sample_plan, sample_files)) as Hp
    by (vm_compute; reflexivity).
  assert (0 <= max_depth default_dependency_limits) as Hd by (cbn; lia).
  destruct (load_plan_overlay_order _ _ _ _ _ _ _ Hd Hp)
    as (t & m & Ho & Hb & Hm & Hv & Hs & Ht & He).
  exists t, m. split; [exact Hs|]. rewrite He.
  destruct (version (t_container t)) eqn:Ev; [reflexivity|].
  exfalso. assert (match sample_plan with LoadPsf1 _ => True | LoadPsf2 _ => False end) as Hc
    by (vm_compute; exact I).
  rewrite He in Hc. exact Hc.
Defined.

Lemma load_plan_total_witness :
  no_panic (load_plan (str "root.psf") sample_root sample_files default_limits
    default_dependency_limits).1.
Proof.
  assert (0 <= max_depth default_dependency_limits) as Hd by (cbn; lia).
  exact (load_plan_total (str "root.psf") sample_root sample_files default_limits
    default_dependency_limits Hd).
Defined.

Definition sample_container : PsfContainer :=
  match parse (str "root.psf") sample_root with
  | Ok c => c
  | _ => mkContainer Psf1 [] [] [] [] (mkByteRange 0 0) (mkByteRange 0 0) None
  end.

Lemma numbered_libraries_complete_witness :
  Tags.get (tags sample_container) (lib_key 3) = None.
Proof.
  assert (Z.of_nat (length (tags sample_container)) < 2 ^ 32) as Hl by (vm_compute; reflexivity).
  pose proof (proj2 (numbered_libraries_complete sample_container Hl)) as H.
  assert (length (numbered_libraries sample_container) = 1%nat) as E by (vm_compute; reflexivity).
  rewrite E in H. exact H.
Defined.
