(* ===== verification/PsxExe.v ===== *)
(** * PS-X EXE overlays: crates/formats/ps1/psx-exe/src/lib.rs

    The executable parser and the construction of the two-megabyte RAM image
    from a load plan.  [usize] has 64 bits. *)

From S2P Require Import Prelude MachineInt Buffer PsfText PsfTags PsfContainer.
From S2P Require Import PsfMetadata PsfLoad.

Definition HEADER_SIZE : Z := 0x800.
Definition RAM_SIZE : Z := 2 * 1024 * 1024.

Inductive Region := Japan | NorthAmerica | Europe | Unknown.

Module Region.
Definition refresh (r : Region) : option RefreshRate :=
  match r with
  | Japan | NorthAmerica => Some Hz60
  | Europe => Some Hz50
  | Unknown => None
  end.
End Region.

Inductive ExeError :=
| TruncatedHeader
| InvalidSignature
| TruncatedText (declared available : Z)
| AddressOverflow
| TextOutsideRam (address size : Z).

Inductive ImageError :=
| Executable (origin : list Z) (source : ExeError)
| MissingInitialLayer
| UnknownRootRegion.

Record PsxExe := mkPsxExe {
  exe_pc : Z;
  text_address : Z;
  exe_sp : Z;
  region : Region;
  physical_text_offset : Z;
  text : list Z;
}.

(** The start of the checked range. *)
Definition checked_ram_range (address size : Z) : outcome ExeError Z :=
  let? physical := ok_or (try_from_u 64 (address .& 0x1fffffff)) AddressOverflow in
  let? end_ := ok_or (checked_add_u 64 physical size) AddressOverflow in
  if (RAM_SIZE <=? physical) || (RAM_SIZE <? end_) then Err (TextOutsideRam address size)
  else Ok physical.

(** [haystack.windows(needle.len()).any(|c| c == needle)] for a nonempty needle. *)
Fixpoint contains (haystack needle : list Z) : bool :=
  starts_with needle haystack ||
  match haystack with
  | [] => false
  | _ :: haystack => contains haystack needle
  end.

Definition marker_region (marker : list Z) : Region :=
  if contains marker (str "North America") then NorthAmerica
  else if contains marker (str "Japan") then Japan
  else if contains marker (str "Europe") then Europe
  else Unknown.

Module PsxExe.
Definition parse (bytes : list Z) : outcome ExeError PsxExe :=
  if len bytes <? HEADER_SIZE then Err TruncatedHeader
  else
  let? signature := slice bytes 0 8 in
  if negb (bool_decide (signature = str "PS-X EXE")) then Err InvalidSignature
  else
    let? pc := read_u32 bytes 0x10 in
    let? text_address := read_u32 bytes 0x18 in
    let? declared := read_u32 bytes 0x1c in
    let? text_size := ok_or (try_from_u 64 declared) AddressOverflow in
    let? sp := read_u32 bytes 0x30 in
    let? text_end := ok_or (checked_add_u 64 HEADER_SIZE text_size) AddressOverflow in
    if len bytes <? text_end then
      Err (TruncatedText text_size (len bytes - HEADER_SIZE))
    else
      let? offset := checked_ram_range text_address text_size in
      let? marker := slice bytes 0x4c HEADER_SIZE in
      let? text := slice bytes HEADER_SIZE text_end in
      Ok (mkPsxExe pc text_address sp (marker_region marker) offset text).
End PsxExe.

Record ExecutableImage := mkImage {
  ram : Buffer;
  pc : Z;
  sp : Z;
  refresh : RefreshRate;
}.

Module ExecutableImage.

(** The accumulators of the loop over the layers. *)
Record Overlay := mkOverlay {
  o_ram : Buffer;
  initial : option (Z * Z);
  root_region : option Region;
}.

Definition apply_layer (plan : Psf1LoadPlan) (layer : PlanLayer) (o : Overlay)
    : outcome ImageError Overlay :=
  let? exe := map_err (Executable (layer_origin layer))
    (PsxExe.parse (program (layer_container layer))) in
  let initial' :=
    if bool_decide (layer_origin layer = p1_initial_state_origin plan)
    then Some (exe_pc exe, exe_sp exe) else initial o in
  let root_region' :=
    if bool_decide (layer_origin layer = p1_root_origin plan)
    then Some (region exe) else root_region o in
  let? ram := expect (Buffer.copy_from (o_ram o) (physical_text_offset exe) (text exe)) in
  Ok (mkOverlay ram initial' root_region').

Fixpoint apply_layers (plan : Psf1LoadPlan) (layers : list PlanLayer) (o : Overlay)
    : outcome ImageError Overlay :=
  match layers with
  | [] => Ok o
  | layer :: layers =>
      let? o := apply_layer plan layer o in
      apply_layers plan layers o
  end.

Definition from_plan (plan : Psf1LoadPlan) : outcome ImageError ExecutableImage :=
  let? o := apply_layers plan (p1_layers plan)
    (mkOverlay (Buffer.zeroed RAM_SIZE) None None) in
  let? ps := ok_or (initial o) MissingInitialLayer in
  let? refresh := ok_or
    (match p1_refresh_override plan with
     | Some r => Some r
     | None => root_region o ≫= Region.refresh
     end) UnknownRootRegion in
  Ok (mkImage (o_ram o) ps.1 ps.2 refresh).

End ExecutableImage.

(** ** What an image contains *)

(** The byte of RAM an executable supplies at [i], if any. *)
Definition covers (exe : PsxExe) (i : Z) : option Z :=
  if decide (physical_text_offset exe <= i < physical_text_offset exe + len (text exe))
  then text exe !! Z.to_nat (i - physical_text_offset exe) else None.

(** The specification: the last executable that covers an address supplies it,
    and an uncovered byte is zero. *)
Definition last_cover (exes : list PsxExe) (i : Z) : Z :=
  default 0 (last (omap (fun e => covers e i) exes)).

Lemma nonneg_land x y : 0 <= x -> 0 <= x .& y.
Proof. intros. apply Z.land_nonneg. by left. Qed.

(** An accepted executable's text lies inside RAM at its translated address. *)
Lemma parse_fits bytes exe :
  Forall (in_u 8) bytes -> PsxExe.parse bytes = Ok exe ->
  0 <= physical_text_offset exe /\ physical_text_offset exe + len (text exe) <= RAM_SIZE /\
  physical_text_offset exe = text_address exe mod 2 ^ 29 /\
  len (text exe) = u32_at bytes 0x1c.
Proof.
  intros Hu. unfold PsxExe.parse, HEADER_SIZE.
  destruct (Z.ltb_spec (len bytes) 0x800); [done|].
  rewrite slice_in by lia. cbn [obind]. destruct (negb _); [done|].
  rewrite !read_u32_at by (done || lia). cbn [obind].
  intros (size & Es%ok_or_ok & (te & Et%ok_or_ok & Hr)%obind_ok)%obind_ok.
  apply try_from_u_Some in Es as [-> Hs]. apply checked_add_u_Some in Et as [-> Hte].
  pose proof (u32_at_range bytes 0x1c Hu) as R. unfold in_u in R.
  set (size := u32_at bytes 0x1c) in *.
  destruct (Z.ltb_spec (len bytes) (0x800 + size)); [done|].
  apply obind_ok in Hr as (off & Eo & Hr). rewrite !slice_in in Hr by lia.
  injection Hr as <-. cbn [physical_text_offset text text_address].
  unfold checked_ram_range in Eo.
  apply obind_ok in Eo as (ph & Ep%ok_or_ok & Eo). apply try_from_u_Some in Ep as [-> _].
  apply obind_ok in Eo as (en & Ee%ok_or_ok & Eo). apply checked_add_u_Some in Ee as [-> _].
  destruct (_ || _) eqn:Er; [done|]. apply orb_false_iff in Er as [E1 E2]. zbool.
  injection Eo as <-. rewrite len_sub by lia.
  change 0x1fffffff with (Z.ones 29) in *. rewrite Z.land_ones in * by lia.
  split_and!; [apply Z.mod_pos_bound; lia|lia|done|lia].
Qed.

Lemma parse_exe_no_panic bytes : no_panic (PsxExe.parse bytes).
Proof.
  unfold PsxExe.parse, checked_ram_range, HEADER_SIZE.
  destruct (Z.ltb_spec (len bytes) 0x800); [done|].
  rewrite slice_in by lia. cbn [obind]. case_match; [done|].
  rewrite !read_u32_in by lia. cbn [obind].
  pose proof (in_u_wrap 32 (u32_at bytes 0x1c) ltac:(lia)) as R. unfold in_u in R.
  apply obind_no_panic; [auto with rust|]. intros size (-> & _)%ok_or_ok%try_from_u_Some.
  apply obind_no_panic; [auto with rust|]. intros te (-> & _)%ok_or_ok%checked_add_u_Some.
  case_match; [done|]. zbool. apply obind_no_panic.
  - apply obind_no_panic; [auto with rust|]. intros ph _.
    apply obind_no_panic; [auto with rust|]. intros en _. by case_match.
  - intros off _. by rewrite !slice_in by lia.
Qed.

Lemma cell_copy b off l b' i :
  0 <= off -> Buffer.copy_from b off l = Some b' ->
  buf_len b' = buf_len b /\
  Buffer.cell b' i = default (Buffer.cell b i)
    (if decide (off <= i < off + len l) then l !! Z.to_nat (i - off) else None).
Proof.
  unfold Buffer.copy_from. intros Hoff. destruct (_ && _) eqn:E; [|done]. intros [= <-].
  split; [apply Buffer.write_cells_len|]. rewrite Buffer.cell_write_cells.
  unfold len. case_decide as Ei; [|done].
  destruct (lookup_lt_is_Some_2 l (Z.to_nat (i - off)) ltac:(lia)) as [x Hx].
  rewrite Hx. cbn. by apply nth_lookup_Some.
Qed.

(** The last image of a list under a partial function, with a fallback. *)
Definition last_of {A B} (f : A -> option B) (d : option B) (l : list A) : option B :=
  match last (omap f l) with Some x => Some x | None => d end.

Lemma last_of_cons {A B} (f : A -> option B) d x l :
  last_of f d (x :: l) = last_of f (match f x with Some y => Some y | None => d end) l.
Proof.
  unfold last_of. cbn. destruct (f x) as [y|]; [|done].
  rewrite last_cons. by destruct (last (omap f l)).
Qed.

Definition starts_at (plan : Psf1LoadPlan) (le : PlanLayer * PsxExe) : option (Z * Z) :=
  if bool_decide (layer_origin le.1 = p1_initial_state_origin plan)
  then Some (exe_pc le.2, exe_sp le.2) else None.

Definition root_of (plan : Psf1LoadPlan) (le : PlanLayer * PsxExe) : option Region :=
  if bool_decide (layer_origin le.1 = p1_root_origin plan) then Some (region le.2) else None.

Definition parsed (layer : PlanLayer) (exe : PsxExe) : Prop :=
  PsxExe.parse (program (layer_container layer)) = Ok exe.

Definition programs_ok (layers : list PlanLayer) : Prop :=
  Forall (fun l => Forall (in_u 8) (program (layer_container l))) layers.

Import ExecutableImage.

Lemma apply_layer_no_panic plan layer o :
  Forall (in_u 8) (program (layer_container layer)) -> buf_len (o_ram o) = RAM_SIZE ->
  no_panic (apply_layer plan layer o).
Proof.
  intros Hu Hl. unfold apply_layer. apply obind_no_panic.
  - pose proof (parse_exe_no_panic (program (layer_container layer))).
    unfold no_panic in *. by destruct (PsxExe.parse _).
  - intros exe He. destruct (PsxExe.parse _) as [exe'| |] eqn:Ep; try done.
    injection He as ->. apply parse_fits in Ep as (H1 & H2 & _); [|done].
    unfold Buffer.copy_from. rewrite Hl. unfold len in H2.
    rewrite (proj2 (Z.leb_le _ _)), (proj2 (Z.leb_le _ _)) by lia. done.
Qed.

Lemma apply_layer_ok plan layer o o' :
  Forall (in_u 8) (program (layer_container layer)) ->
  apply_layer plan layer o = Ok o' ->
  exists exe, parsed layer exe /\ buf_len (o_ram o') = buf_len (o_ram o) /\
    (forall i, Buffer.cell (o_ram o') i = default (Buffer.cell (o_ram o) i) (covers exe i)) /\
    initial o' = (match starts_at plan (layer, exe) with Some x => Some x | None => initial o end) /\
    root_region o' = (match root_of plan (layer, exe) with Some x => Some x | None => root_region o end).
Proof.
  intros Hu. unfold apply_layer. intros (exe & He & Hr)%obind_ok.
  destruct (PsxExe.parse _) as [exe'| |] eqn:Ep; try done. injection He as ->.
  pose proof (parse_fits _ _ Hu Ep) as (H1 & _).
  apply obind_ok in Hr as (ram' & Ec & [= <-]).
  destruct (Buffer.copy_from _ _ _) as [b|] eqn:Eb; [|done]. injection Ec as ->.
  exists exe. split_and!; cbn [o_ram initial root_region].
  - done.
  - by destruct (cell_copy _ _ _ _ 0 H1 Eb).
  - intros i. by destruct (cell_copy _ _ _ _ i H1 Eb).
  - unfold starts_at. cbn. by case_bool_decide.
  - unfold root_of. cbn. by case_bool_decide.
Qed.

Lemma apply_layers_ok plan layers o o' :
  programs_ok layers -> apply_layers plan layers o = Ok o' ->
  exists exes, Forall2 parsed layers exes /\ buf_len (o_ram o') = buf_len (o_ram o) /\
    (forall i, Some (Buffer.cell (o_ram o') i) =
      last_of (fun e => covers e i) (Some (Buffer.cell (o_ram o) i)) exes) /\
    initial o' = last_of (starts_at plan) (initial o) (zip layers exes) /\
    root_region o' = last_of (root_of plan) (root_region o) (zip layers exes).
Proof.
  intros Hu. revert o. induction Hu as [|layer layers Hl Hu IH]; intros o; cbn.
  - intros [= <-]. exists []. split_and!; done.
  - intros (o1 & E1 & Hr)%obind_ok.
    apply apply_layer_ok in E1 as (exe & Hp & Hlen & Hc & Hi & Hroot); [|done].
    apply IH in Hr as (exes & Hps & Hlen' & Hc' & Hi' & Hroot').
    exists (exe :: exes). split_and!.
    + by constructor.
    + congruence.
    + intros i. rewrite Hc', last_of_cons, Hc. by destruct (covers exe i).
    + cbn [zip]. by rewrite Hi', Hi, last_of_cons.
    + cbn [zip]. by rewrite Hroot', Hroot, last_of_cons.
Qed.

Lemma apply_layers_no_panic plan layers o :
  programs_ok layers -> buf_len (o_ram o) = RAM_SIZE -> no_panic (apply_layers plan layers o).
Proof.
  intros Hu. revert o. induction Hu as [|layer layers Hl Hu IH]; intros o Hlen; cbn; [done|].
  apply obind_no_panic; [by apply apply_layer_no_panic|].
  intros o1 E1. apply IH. apply apply_layer_ok in E1 as (exe & _ & Hl' & _); [|done].
  congruence.
Qed.

(** the executable image: applying a load plan never panics, whatever the
    payloads; when it succeeds every layer was a valid executable inside RAM,
    each RAM byte is the one the last layer covering it supplies (zero where no
    layer does), PC and SP come from the last layer of the initial-state origin,
    and the refresh rate is the override or the root executable's region. *)
Theorem image_last_overlay_wins plan :
  programs_ok (p1_layers plan) ->
  no_panic (from_plan plan) /\
  forall img, from_plan plan = Ok img ->
    exists exes, Forall2 parsed (p1_layers plan) exes /\
      buf_len (ram img) = RAM_SIZE /\
      (forall i, Buffer.cell (ram img) i = last_cover exes i) /\
      last_of (starts_at plan) None (zip (p1_layers plan) exes) = Some (pc img, sp img) /\
      Some (refresh img) =
        match p1_refresh_override plan with
        | Some r => Some r
        | None => last_of (root_of plan) None (zip (p1_layers plan) exes) ≫= Region.refresh
        end.
Proof.
  intros Hu. split.
  - unfold from_plan. apply obind_no_panic; [by apply apply_layers_no_panic|].
    intros o _. apply obind_no_panic; [auto with rust|]. intros ps _.
    apply obind_no_panic; [auto with rust|]. done.
  - intros img. unfold from_plan.
    intros (o & Eo & ([p s] & Ei%ok_or_ok & (r & Er%ok_or_ok & [= <-])%obind_ok)%obind_ok)%obind_ok.
    apply apply_layers_ok in Eo as (exes & Hp & Hl & Hc & Hi & Hr); [|done].
    cbn [o_ram initial root_region] in *.
    exists exes. cbn [ram pc sp refresh fst snd]. split_and!; [done|done| |by rewrite <- Hi|].
    + intros i. specialize (Hc i). unfold last_of in Hc. unfold last_cover.
      by destruct (last _); injection Hc as ->.
    + rewrite <- Er. destruct (p1_refresh_override plan); [done|]. by rewrite Hr.
Qed.

(** An executable file with the given header fields. *)
Definition exe_file (pc address sp : Z) (marker text : list Z) : list Z :=
  str "PS-X EXE" ++ replicate 8 0 ++ le_bytes 4 pc ++ replicate 4 0 ++
  le_bytes 4 address ++ le_bytes 4 (len text) ++ replicate 16 0 ++ le_bytes 4 sp ++
  replicate 24 0 ++ marker ++ replicate (1972 - length marker) 0 ++ text.

Definition layer_with (origin program : list Z) : PlanLayer :=
  mkPlanLayer origin (mkContainer Psf1 [] [] program [] (mkByteRange 16 16)
    (mkByteRange 16 16) None).

(** A library at 0x80010000 and a root that overwrites its second byte. *)
Definition overlay_plan : Psf1LoadPlan :=
  match PlaybackMetadata.parse [] with
  | Ok m =>
      mkPsf1LoadPlan (str "root")
        [layer_with (str "lib") (exe_file 0x80010000 0x80010000 0x801fff00
           (str "Sony Computer Entertainment Inc. for Europe area") [1; 2; 3]);
         layer_with (str "root") (exe_file 0x80020000 0x80010001 0x801ffff0
           (str "Sony Computer Entertainment Inc. for Japan area") [9])]
        (str "lib") None m
  | _ => mkPsf1LoadPlan [] [] [] None
           (mkMetadata None None None None None None None None (decimal_f64 false 1 0)
              None (PsfDuration.mkDuration 0 1) None [])
  end.

Lemma u8_by_test l :
  forallb (fun x => (0 <=? x) && (x <? 2 ^ 8)) l = true -> Forall (in_u 8) l.
Proof.
  intros H. apply Forall_forall. intros x Hx. rewrite forallb_forall in H.
  apply list_elem_of_In in Hx. specialize (H x Hx). zbool. by split.
Qed.

Lemma image_last_overlay_wins_witness :
  exists img, from_plan overlay_plan = Ok img /\
    map (Buffer.cell (ram img)) [0x10000; 0x10001; 0x10002; 0x10003] = [1; 9; 3; 0] /\
    pc img = 0x80010000 /\ refresh img = Hz60 /\ buf_len (ram img) = RAM_SIZE.
Proof.
  assert (programs_ok (p1_layers overlay_plan)) as Hu.
  { constructor; [|constructor; [|constructor]]; apply u8_by_test; by vm_compute. }
  assert (exists img, from_plan overlay_plan = Ok img /\
    map (Buffer.cell (ram img)) [0x10000; 0x10001; 0x10002; 0x10003] = [1; 9; 3; 0] /\
    pc img = 0x80010000 /\ refresh img = Hz60) as (img & E & Hb & Hp & Hr)
    by (eexists; split; [by vm_compute|by vm_compute]).
  destruct (image_last_overlay_wins overlay_plan Hu) as [_ Hi].
  destruct (Hi img E) as (exes & _ & Hl & _).
  exists img. exact (conj E (conj Hb (conj Hp (conj Hr Hl)))).
Defined.
