(* ===== verification/Vfs.v ===== *)
(** * The PSF2 virtual filesystem: crates/formats/ps2/vfs/src/lib.rs

    Parsing the reserved section of every layer of a PSF2 plan into files and
    directories, decompressing all data, and laying the layers over each other.  Paths
    are byte strings; the zlib decoder is the [Codec] of the container.  A
    [BTreeMap<String, _>] is a finite map that is walked in the order of its keys.
    [usize] has 64 bits. *)

From S2P Require Import Prelude MachineInt Records Buffer PsfText PsfTags PsfContainer PsfLoad.

Definition NAME_BYTES : Z := 36.
Definition ENTRY_BYTES : Z := 48.
Definition SPEC_MAX_PATH_BYTES : Z := 255.

Record VfsLimits := mkVfsLimits {
  max_depth : Z;
  max_entries : Z;
  max_path_bytes : Z;
  max_blocks : Z;
  max_file_bytes : Z;
  max_block_bytes : Z;
  max_aggregate_bytes : Z;
}.

Definition default_vfs_limits : VfsLimits :=
  mkVfsLimits 32 65536 SPEC_MAX_PATH_BYTES 262144 (64 * 1024 * 1024) (1024 * 1024)
    (256 * 1024 * 1024).

Inductive VfsErrorKind :=
| WrongVersion
| Truncated
| InvalidName
| InvalidEntry
| OffsetOrder
| OffsetOverflow
| LimitExceeded (resource : string)
| InvalidZlib (message : list Z)
| BlockSizeMismatch (expected actual : Z)
| InvalidPath
| NotFound
| IsDirectory.

Record VfsError := mkVfsError {
  ve_origin : list Z;
  ve_offset : Z;
  ve_path : list Z;
  ve_kind : VfsErrorKind;
}.

Definition SLASH : Z := 0x2f.
Definition BACKSLASH : Z := 0x5c.
Definition COLON : Z := 0x3a.

Definition display_path (path : list Z) : list Z :=
  if bool_decide (path = []) then [SLASH] else SLASH :: path.

Module VfsError.
Definition layer (origin : list Z) (offset : Z) (path : list Z) (kind : VfsErrorKind) : VfsError :=
  mkVfsError origin offset (display_path path) kind.
Definition lookup (path : list Z) (kind : VfsErrorKind) : VfsError :=
  mkVfsError (str "lookup") 0 path kind.
End VfsError.

Inductive NodeKind := Directory | File.

(** ** Ordered containers *)

(** The order of [str]: lexicographic on bytes. *)
Fixpoint text_leb (x y : list Z) : bool :=
  match x, y with
  | [], _ => true
  | _, [] => false
  | a :: x, b :: y => (a <? b) || ((a =? b) && text_leb x y)
  end.

Definition text_le (x y : list Z) : Prop := text_leb x y = true.
Definition key_le {A} (a b : list Z * A) : Prop := text_le a.1 b.1.

#[export] Instance text_le_dec x y : Decision (text_le x y).
Proof. unfold text_le. apply _. Defined.
#[export] Instance key_le_dec {A} (a b : list Z * A) : Decision (key_le a b).
Proof. unfold key_le. apply _. Defined.

Definition map_walk {A} (m : gmap (list Z) A) : list (list Z * A) := merge_sort key_le (map_to_list m).
Definition set_walk (s : gset (list Z)) : list (list Z) := merge_sort text_le (elements s).

(** Files and directories: of a finished filesystem, of one layer, of the builder. *)
Record Psf2Vfs := mkPsf2Vfs {
  files : gmap (list Z) (list Z);
  directories : gset (list Z);
}.
#[export] Instance Psf2Vfs_fields : Fields Psf2Vfs := fun v => mkPsf2Vfs (files v) (directories v).

Definition empty_layer : Psf2Vfs := mkPsf2Vfs ∅ ∅.

Record Builder := mkBuilder {
  limits : VfsLimits;
  entries : Z;
  blocks : Z;
  aggregate_bytes : Z;
  built : Psf2Vfs;
}.
#[export] Instance Builder_fields : Fields Builder := fun b =>
  mkBuilder (limits b) (entries b) (blocks b) (aggregate_bytes b) (built b).

(** ** Paths and names *)

Definition join_path (parent name : list Z) : list Z :=
  if bool_decide (parent = []) then name else parent ++ SLASH :: name.

Definition printable (b : Z) : bool := (32 <=? b) && (b <=? 126).

Definition parse_name (raw : list Z) : outcome VfsErrorKind (list Z) :=
  let length := default (Datatypes.length raw) (position (fun b => b =? 0) raw) in
  if (length =? 0)%nat || existsb (fun b => negb (b =? 0)) (drop length raw) then Err InvalidName
  else
    let name := take length raw in
    if existsb (fun b => negb (printable b) || (b =? SLASH) || (b =? BACKSLASH) || (b =? COLON)) name
    then Err InvalidName
    else Ok (map to_ascii_lowercase name).

Fixpoint lookup_components (components : list (list Z))
    : outcome VfsErrorKind (list (list Z)) :=
  match components with
  | [] => Ok []
  | component :: components =>
      if bool_decide (component = []) then lookup_components components
      else if bool_decide (component = str ".") || bool_decide (component = str "..")
              || (NAME_BYTES <? len component)
              || existsb (fun b => negb (printable b) || (b =? COLON)) component
      then Err InvalidPath
      else
        let? rest := lookup_components components in
        Ok (map to_ascii_lowercase component :: rest)
  end.

Definition normalize_lookup (path : list Z) (max_path_bytes : Z)
    : outcome VfsErrorKind (list Z) :=
  if existsb (fun b => 128 <=? b) path || (max_path_bytes <? len path) then Err InvalidPath
  else
    let? components := lookup_components (split_on SLASH (replace_byte BACKSLASH SLASH path)) in
    let normalized := join_parts components in
    if max_path_bytes <? len normalized then Err InvalidPath else Ok normalized.

Definition retained (path candidate : list Z) : bool :=
  negb (bool_decide (candidate = path)) && negb (starts_with (path ++ [SLASH]) candidate).

Definition remove_subtree (path : list Z) (v : Psf2Vfs) : Psf2Vfs :=
  mkPsf2Vfs (filter (fun e => retained path e.1 = true) (files v))
    (filter (fun d => retained path d = true) (directories v)).

Definition read_u32 (input : list Z) (offset : Z) : option Z :=
  end_ ← checked_add_u 64 offset 4;
  if end_ <=? len input then Some (from_le (sub input offset end_)) else None.

(** Plain arithmetic on [usize]. *)
Definition plus {E} (a b : Z) : outcome E Z := expect (checked_add_u 64 a b).
Definition times {E} (a b : Z) : outcome E Z := expect (checked_mul_u 64 a b).
Definition minus {E} (a b : Z) : outcome E Z := expect (checked_sub_u a b).
Definition div_ceil {E} (a b : Z) : outcome E Z :=
  if b =? 0 then Panic else Ok ((a + b - 1) / b).

(** ** Blocks *)

(** The read loop of [decompress_block]. *)
Fixpoint block_loop (origin : list Z) (offset : Z) (path : list Z) (expected : Z)
    (block : list Z) (r : Reads) : outcome VfsError (list Z * Z) :=
  match r with
  | ReadError message => Err (VfsError.layer origin offset path (InvalidZlib message))
  | EndOfStream total_in => Ok (block, total_in)
  | Chunk data r =>
      if from_option (fun n => expected <? n) true (checked_add_u 64 (len block) (len data))
      then Err (VfsError.layer origin offset path
                  (BlockSizeMismatch expected (Z.min (len block + len data) (2 ^ 64 - 1))))
      else block_loop origin offset path expected (block ++ data) r
  end.

Section decoder.
Context `{Codec}.

Definition decompress_block (origin : list Z) (offset : Z) (path compressed : list Z)
    (expected : Z) (output : list Z) : outcome VfsError (list Z) :=
  let? (block, total_in) := block_loop origin offset path expected [] (inflate compressed) in
  if negb (total_in =? len compressed) then
    let? at_ := plus offset (default (2 ^ 64 - 1) (try_from_u 64 total_in)) in
    Err (VfsError.layer origin at_ path (InvalidZlib (str "trailing compressed data")))
  else if negb (len block =? expected) then
    Err (VfsError.layer origin offset path (BlockSizeMismatch expected (len block)))
  else Ok (output ++ block).

(** The blocks [block ..] of a file; [n] of them are left. *)
Fixpoint parse_blocks (origin input : list Z) (offset size block_size : Z) (path : list Z)
    (n : nat) (block compressed_offset : Z) (output : list Z) : outcome VfsError (list Z) :=
  match n with
  | O => Ok output
  | S n =>
      let? row := times block 4 in
      let? size_offset := plus offset row in
      let? compressed_size := ok_or (read_u32 input size_offset)
        (VfsError.layer origin size_offset path Truncated) in
      let? compressed_end := ok_or (checked_add_u 64 compressed_offset compressed_size)
        (VfsError.layer origin compressed_offset path OffsetOverflow) in
      if negb (compressed_end <=? len input) then
        Err (VfsError.layer origin (len input) path Truncated)
      else
        let? remaining := minus size (len output) in
        let? output := decompress_block origin compressed_offset path
          (sub input compressed_offset compressed_end) (Z.min block_size remaining) output in
        parse_blocks origin input offset size block_size path n (block + 1) compressed_end output
  end.

End decoder.

(** ** The builder *)

Module Builder.
Section parser.
Context `{Codec}.

Notation result A := (outcome VfsError A * Builder)%type.

Definition new (l : VfsLimits) : Builder := mkBuilder l 0 0 0 (mkPsf2Vfs ∅ {[ [] ]}).

Definition parse_file (origin input : list Z) (offset size block_size : Z) (path : list Z)
    (b : Builder) : result (list Z) :=
  let fail offset kind := VfsError.layer origin offset path kind in
  if max_file_bytes (limits b) <? size then
    (Err (fail offset (LimitExceeded "file bytes")), b)
  else if max_block_bytes (limits b) <? block_size then
    (Err (fail offset (LimitExceeded "block bytes")), b)
  else
    let! (aggregate, b) :=
      (ok_or (checked_add_u 64 (aggregate_bytes b) size) (fail offset OffsetOverflow), b) in
    let b := b <| aggregate_bytes := aggregate |> in
    if max_aggregate_bytes (limits b) <? aggregate then
      (Err (fail offset (LimitExceeded "aggregate file bytes")), b)
    else
      let! (block_count, b) := (div_ceil size block_size, b) in
      let! (total, b) :=
        (ok_or (checked_add_u 64 (blocks b) block_count) (fail offset OffsetOverflow), b) in
      let b := b <| blocks := total |> in
      if max_blocks (limits b) <? total then
        (Err (fail offset (LimitExceeded "block count")), b)
      else
        (let? table_bytes := ok_or (checked_mul_u 64 block_count 4) (fail offset OffsetOverflow) in
         let? compressed_offset :=
           ok_or (checked_add_u 64 offset table_bytes) (fail offset OffsetOverflow) in
         if len input <? compressed_offset then Err (fail (len input) Truncated)
         else
           let? output := parse_blocks origin input offset size block_size path
             (Z.to_nat block_count) 0 compressed_offset [] in
           if len output =? size then Ok output else Panic, b).

Definition charge_entries (origin : list Z) (offset : Z) (path : list Z) (count : Z)
    (b : Builder) : result unit :=
  let! (total, b) := (ok_or (checked_add_u 64 (entries b) count)
                        (VfsError.layer origin offset path OffsetOverflow), b) in
  let b := b <| entries := total |> in
  if max_entries (limits b) <? total then
    (Err (VfsError.layer origin offset path (LimitExceeded "entry count")), b)
  else (Ok tt, b).

Definition insert_file (layer : Psf2Vfs) (path data : list Z) : Psf2Vfs :=
  let layer := remove_subtree path layer in
  layer <| files := <[path := data]> (files layer) |>.

Definition insert_directory (layer : Psf2Vfs) (path : list Z) : Psf2Vfs :=
  mkPsf2Vfs (delete path (files layer)) ({[path]} ∪ directories layer).

(** The parser's state: the builder and the layer being parsed. *)
Notation parsing A := (outcome VfsError A * (Builder * Psf2Vfs))%type.

(** The fields of one entry: its name's path, its offset, size and block size. *)
Definition parse_entry (origin input : list Z) (parent : list Z) (entry_offset : Z)
    (l : VfsLimits) : outcome VfsError (list Z * (Z * Z * Z)) :=
  let? name_end := plus entry_offset NAME_BYTES in
  if len input <? name_end then Panic
  else
    let? name := map_err (VfsError.layer origin entry_offset parent)
                   (parse_name (sub input entry_offset name_end)) in
    let path := join_path parent name in
    if Z.min (max_path_bytes l) SPEC_MAX_PATH_BYTES <? len path then
      Err (VfsError.layer origin entry_offset path (LimitExceeded "path bytes"))
    else
      let? child_offset := expect (read_u32 input (entry_offset + 36)) in
      let? size := expect (read_u32 input (entry_offset + 40)) in
      let? block_size := expect (read_u32 input (entry_offset + 44)) in
      Ok (path, (child_offset, size, block_size)).

(** One entry; [recurse] parses a subdirectory. *)
Definition add_entry (recurse : Z -> list Z -> Builder * Psf2Vfs -> parsing unit)
    (origin input : list Z) (entry_offset : Z) (path : list Z) (child_offset size block_size : Z)
    (s : Builder * Psf2Vfs) : parsing unit :=
  let fail kind := VfsError.layer origin (entry_offset + 36) path kind in
  if (child_offset =? 0) && (size =? 0) && (block_size =? 0) then
    (Ok tt, (s.1, insert_file s.2 path []))
  else if (size =? 0) && (block_size =? 0) then
    if child_offset <=? entry_offset then (Err (fail OffsetOrder), s)
    else recurse child_offset path (s.1, insert_directory s.2 path)
  else if negb (child_offset =? 0) && negb (size =? 0) && negb (block_size =? 0) then
    if child_offset <=? entry_offset then (Err (fail OffsetOrder), s)
    else
      let (r, b) := parse_file origin input child_offset size block_size path s.1 in
      match r with
      | Ok data => (Ok tt, (b, insert_file s.2 path data))
      | Err e => (Err e, (b, s.2))
      | Panic => (Panic, (b, s.2))
      end
  else (Err (fail InvalidEntry), s).

(** The entries [index ..] of a table; [n] of them are left. *)
Fixpoint parse_entries (recurse : Z -> list Z -> Builder * Psf2Vfs -> parsing unit)
    (origin input : list Z) (table_start : Z) (parent : list Z) (n : nat) (index : Z)
    (s : Builder * Psf2Vfs) : parsing unit :=
  match n with
  | O => (Ok tt, s)
  | S n =>
      match (let? row := times index ENTRY_BYTES in
             let? entry_offset := plus table_start row in
             let? e := parse_entry origin input parent entry_offset (limits s.1) in
             Ok (entry_offset, e)) with
      | Err e => (Err e, s)
      | Panic => (Panic, s)
      | Ok (entry_offset, (path, (child_offset, size, block_size))) =>
          let! (_u, s) :=
            add_entry recurse origin input entry_offset path child_offset size block_size s in
          parse_entries recurse origin input table_start parent n (index + 1) s
      end
  end.

(** The number of entries of the directory at an offset, and where its table starts. *)
Definition parse_table (origin input : list Z) (offset : Z) (parent : list Z) (count : Z)
    : outcome VfsError Z :=
  let overflow := VfsError.layer origin offset parent OffsetOverflow in
  let? table_start := ok_or (checked_add_u 64 offset 4) overflow in
  let? table_bytes := ok_or (checked_mul_u 64 count ENTRY_BYTES) overflow in
  let? table_end := ok_or (checked_add_u 64 table_start table_bytes) overflow in
  if len input <? table_end then
    Err (VfsError.layer origin (len input) parent Truncated)
  else Ok table_start.

Fixpoint parse_directory (fuel : nat) (origin input : list Z) (offset : Z) (parent : list Z)
    (depth : Z) (s : Builder * Psf2Vfs) : parsing unit :=
  match fuel with
  | O => (Panic, s)
  | S fuel =>
      let (b, layer) := s in
      if max_depth (limits b) <? depth then
        (Err (VfsError.layer origin offset parent (LimitExceeded "directory depth")), s)
      else
        let! (count, s) :=
          (ok_or (read_u32 input offset) (VfsError.layer origin offset parent Truncated), s) in
        let (r, b) := charge_entries origin offset parent count b in
        let s := (b, layer) in
        let! (_u, s) := (r, s) in
        let! (table_start, s) := (parse_table origin input offset parent count, s) in
        let s := (b, layer <| directories := {[parent]} ∪ directories layer |>) in
        let recurse offset path s :=
          let! (next, s) := (plus depth 1, s) in
          parse_directory fuel origin input offset path next s in
        parse_entries recurse origin input table_start parent (Z.to_nat count) 0 s
  end.

Definition apply_directory (v : Psf2Vfs) (directory : list Z) : Psf2Vfs :=
  if bool_decide (directory = []) then v else insert_directory v directory.

Definition apply_file (v : Psf2Vfs) (e : list Z * list Z) : Psf2Vfs :=
  insert_file v e.1 e.2.

(** Lay a parsed layer over what was built before. *)
Definition apply (layer v : Psf2Vfs) : Psf2Vfs :=
  foldl apply_file (foldl apply_directory v (set_walk (directories layer))) (map_walk (files layer)).

(** A child lies behind its entry, so the depth is less than the input's length. *)
Definition parse_layer (origin input : list Z) (b : Builder) : parsing unit :=
  parse_directory (S (length input)) origin input 0 [] 0 (b, empty_layer).

Fixpoint build_layers (layers : list PlanLayer) (b : Builder) : result unit :=
  match layers with
  | [] => (Ok tt, b)
  | layer :: layers =>
      if negb (bool_decide (version (layer_container layer) = Psf2)) then
        (Err (VfsError.layer (layer_origin layer) 0 (str "/") WrongVersion), b)
      else
        let (r, s) := parse_layer (layer_origin layer) (reserved (layer_container layer)) b in
        let! (_u, b) := (r, s.1) in
        build_layers layers (b <| built := apply s.2 (built b) |>)
  end.
End parser.
End Builder.

(** ** The filesystem *)

Module Psf2Vfs.
Section filesystem.
Context `{Codec}.
Definition from_load_plan (plan : Psf2LoadPlan) (l : VfsLimits) : outcome VfsError Psf2Vfs :=
  let (r, b) := Builder.build_layers (p2_layers plan) (Builder.new l) in
  omapok (fun _ => built b) r.

Definition len (v : Psf2Vfs) : nat := size (files v).
Definition is_empty (v : Psf2Vfs) : bool := bool_decide (files v = ∅).

Definition node_kind (path : list Z) (v : Psf2Vfs) : outcome VfsError (option NodeKind) :=
  let? normalized := map_err (VfsError.lookup path) (normalize_lookup path SPEC_MAX_PATH_BYTES) in
  if bool_decide (is_Some (files v !! normalized)) then Ok (Some File)
  else if bool_decide (normalized ∈ directories v) then Ok (Some Directory)
  else Ok None.

Definition file (path : list Z) (v : Psf2Vfs) : outcome VfsError (list Z) :=
  let? normalized := map_err (VfsError.lookup path) (normalize_lookup path SPEC_MAX_PATH_BYTES) in
  match files v !! normalized with
  | Some data => Ok data
  | None =>
      Err (VfsError.lookup path
             (if bool_decide (normalized ∈ directories v) then IsDirectory else NotFound))
  end.

(** The count, and the output buffer after the copy. *)
Definition read (path : list Z) (offset : Z) (output : list Z) (v : Psf2Vfs)
    : outcome VfsError (Z * list Z) :=
  let? data := file path v in
  if Slices.len data <? offset then Ok (0, output)
  else
    let? remaining := slice data offset (Slices.len data) in
    let count := Nat.min (length remaining) (length output) in
    Ok (Z.of_nat count, take count remaining ++ drop count output).
End filesystem.
End Psf2Vfs.
