(* ===== verification/Irx.v ===== *)
(** * IOP modules: crates/formats/ps2/irx/src/lib.rs

    The parser of Sony's relocatable ELF modules, the relocations, the scan for import
    and export tables, and [load_into], which stages a whole image before the one write
    to the target.  A [&str] or [String] is the list of its bytes; an image is a list of
    bytes; [usize] has 64 bits, so that the sums of a 32-bit offset and a small constant
    cannot overflow and are written plainly.  The loops over an index carry a fuel that
    is the largest number of rounds; running out of it would be the outcome [Panic], which
    IrxFacts proves impossible. *)

From S2P Require Import Prelude MachineInt Records Buffer Slices PsfText.

Definition ELF_HEADER_SIZE : Z := 52.
Definition PROGRAM_HEADER_SIZE : Z := 32.
Definition SECTION_HEADER_SIZE : Z := 40.
Definition SYMBOL_SIZE : Z := 16.
Definition REL_SIZE : Z := 8.
Definition PT_LOAD : Z := 1.
Definition PT_SCE_IOPMOD : Z := 0x70000080.
Definition SHT_NOBITS : Z := 8.
Definition SHT_REL : Z := 9.
Definition SHT_SYMTAB : Z := 2.
Definition SHT_STRTAB : Z := 3.
Definition IMPORT_MAGIC : Z := 0x41e00000.
Definition EXPORT_MAGIC : Z := 0x41c00000.

Record IrxLimits := mkIrxLimits {
  max_input_bytes : Z;
  max_program_headers : Z;
  max_section_headers : Z;
  max_image_bytes : Z;
  max_relocations : Z;
  max_link_tables : Z;
  max_link_entries : Z;
  max_name_bytes : Z;
  max_alignment : Z;
}.

Definition default_irx_limits : IrxLimits :=
  mkIrxLimits (16 * 1024 * 1024) 32 4096 (2 * 1024 * 1024) 262144 4096 65536 127 4096.

Inductive IrxVariant := RelocatableV1 | RelocatableV2 | Executable.

Definition is_relocatable (v : IrxVariant) : bool :=
  match v with RelocatableV1 | RelocatableV2 => true | Executable => false end.

Inductive ResidentState := Unstarted | Resident | NotResident | Removable.

Record LoadRange := mkLoadRange {
  source_offset : Z;
  lr_virtual_address : Z;
  lr_file_size : Z;
  lr_memory_size : Z;
  lr_flags : Z;
  lr_alignment : Z;
}.

Record Allocation := mkAllocation {
  al_address : Z;
  al_size : Z;
  al_alignment : Z;
}.

Record ModuleDescription := mkDescription {
  md_name : list Z;
  md_version : Z;
  md_variant : IrxVariant;
  md_entry : Z;
  md_global_pointer : Z;
  text_size : Z;
  data_size : Z;
  bss_size : Z;
}.

Record ImportStub := mkImportStub { ordinal : Z; stub_address : Z }.

Record ImportLibrary := mkImportLibrary {
  im_name : list Z;
  im_version : Z;
  im_mode : Z;
  im_table_address : Z;
  stubs : list ImportStub;
}.

Record ExportLibrary := mkExportLibrary {
  ex_name : list Z;
  ex_version : Z;
  ex_mode : Z;
  ex_table_address : Z;
  functions : list Z;
}.

Record LoadedModule := mkLoadedModule {
  lm_description : ModuleDescription;
  lm_entry : Z;
  lm_global_pointer : Z;
  lm_module_id : option Z;
  allocation : Allocation;
  imports : list ImportLibrary;
  exports : list ExportLibrary;
  resident_state : ResidentState;
}.

(** ** The target *)

Record MemoryRange := mkMemoryRange { mr_start : Z; mr_end : Z }.

Module MemoryRange.
Definition contains (r : MemoryRange) (address size : Z) : bool :=
  match (size ← try_from_u 32 size; checked_add_u 32 address size) with
  | Some e => (mr_start r <=? address) && (e <=? mr_end r)
  | None => false
  end.
End MemoryRange.

Record TargetError := mkTargetError { target_message : list Z }.

Class TargetMemory (T : Type) := {
  target_range : T -> MemoryRange;
  write_image : Z -> list Z -> T -> outcome TargetError unit * T;
}.

Inductive IrxErrorKind :=
| Truncated
| InvalidIdentification
| UnsupportedType (ty : Z)
| UnsupportedMachine (machine : Z)
| InvalidEntrySize
| Overflow
| LimitExceeded (resource : string)
| InvalidProgramLayout
| OverlappingRanges
| OutOfRange
| InvalidSection
| InvalidSymbol
| UnsupportedRelocation (kind : Z)
| MalformedRelocationPair
| MalformedRelocationChain
| RelocationOverflow
| InvalidModuleMetadata
| InvalidLinkTable
| InvalidLoadAddress
| TargetRange
| Target (message : list Z).

Record IrxError := mkIrxError {
  ie_origin : list Z;
  ie_offset : Z;
  ie_kind : IrxErrorKind;
}.

Record ProgramHeader := mkProgramHeader {
  ph_kind : Z;
  ph_offset : Z;
  virtual_address : Z;
  file_size : Z;
  memory_size : Z;
  flags : Z;
  alignment : Z;
}.

Record SectionHeader := mkSectionHeader {
  sh_kind : Z;
  sh_offset : Z;
  sh_size : Z;
  sh_link : Z;
  sh_info : Z;
  sh_alignment : Z;
  entry_size : Z;
}.

Inductive RelocationKind :=
| Half | Word | Jump | High (low_offset : Z) | Low | SonyHigh (addend : Z).

Record Relocation := mkRelocation {
  r_offset : Z;
  r_kind : RelocationKind;
  r_source_offset : Z;
}.

Record RawMetadata := mkRawMetadata {
  rm_module_id : option Z;
  rm_entry : Z;
  rm_global_pointer : Z;
}.

Record IrxModule := mkIrxModule {
  m_origin : list Z;
  m_limits : IrxLimits;
  description : ModuleDescription;
  raw_metadata : RawMetadata;
  ranges : list LoadRange;
  preferred_address : Z;
  m_alignment : Z;
  image : list Z;
  relocations : list Relocation;
}.

(** ** Reading and names *)

Definition read_u16 (input : list Z) (offset : Z) : option Z := read_le 2 input offset.
Definition read_u32 (input : list Z) (offset : Z) : option Z := read_le 4 input offset.

Definition image_offset (address preferred_address image_size : Z) : option Z :=
  offset ← checked_sub_u address preferred_address;
  if offset <? image_size then Some offset else None.

(** An image offset at which an aligned word fits. *)
Definition word_offset (address preferred_address image_size : Z) : option Z :=
  offset ← image_offset address preferred_address image_size;
  if from_option (fun e => e <=? image_size) false (checked_add_u 64 offset 4)
     && (offset mod 4 =? 0)
  then Some offset else None.

(** Every accepted byte is ASCII, so that [String::from_utf8] succeeds. *)
Definition parse_c_name (bytes : list Z) (max : Z) (empty_allowed : bool)
    : outcome IrxErrorKind (option (list Z)) :=
  let? e := ok_or (position (fun b => b =? 0) (take (Z.to_nat (saturating_u 64 (max + 1))) bytes))
    InvalidModuleMetadata in
  if (e =? 0)%nat then
    if empty_allowed then Ok None else Err InvalidModuleMetadata
  else if existsb (fun b => negb ((32 <=? b) && (b <=? 126))) (take e bytes)
  then Err InvalidModuleMetadata
  else Ok (Some (take e bytes)).

Definition parse_fixed_name (bytes : list Z) : option (list Z) :=
  let e := default (length bytes) (position (fun b => b =? 0) bytes) in
  if (e =? 0)%nat || existsb (fun b => negb (b =? 0)) (drop e bytes)
     || existsb (fun b => negb ((33 <=? b) && (b <=? 126))) (take e bytes)
  then None else Some (take e bytes).

(** [rsplit(['/', '\\']).next()]: what follows the last separator. *)
Definition leaf_name (origin : list Z) : option (list Z) :=
  last (split_on 0x2f (replace_byte 0x5c 0x2f origin)).

(** [rsplit_once('.')]: what precedes the last dot, or everything. *)
Definition stem_name (leaf : list Z) : list Z :=
  match position (fun b => b =? 0x2e) (reverse leaf) with
  | Some i => take (length leaf - i - 1) leaf
  | None => leaf
  end.

Definition fallback_module_name (origin : list Z) (max : Z) : option (list Z) :=
  leaf ← leaf_name origin;
  let stem := stem_name leaf in
  if bool_decide (stem = []) || (max <? len stem)
     || negb (forallb (fun b => (33 <=? b) && (b <=? 126)) stem)
  then None else Some stem.

(** ** The parser *)

Record Parser := mkParser {
  p_origin : list Z;
  p_input : list Z;
  p_limits : IrxLimits;
}.

Module Parser.
Section parser.
Variable p : Parser.

Definition error (offset : Z) (kind : IrxErrorKind) : IrxError :=
  mkIrxError (p_origin p) offset kind.

Definition fail {A} (offset : Z) (kind : IrxErrorKind) : outcome IrxError A :=
  Err (error offset kind).

Definition u16 (offset : Z) : outcome IrxError Z :=
  ok_or (read_u16 (p_input p) offset) (error (len (p_input p)) Truncated).

Definition u32 (offset : Z) : outcome IrxError Z :=
  ok_or (read_u32 (p_input p) offset) (error (len (p_input p)) Truncated).

Definition slice (offset size : Z) : outcome IrxError (list Z) :=
  let? e := ok_or (checked_add_u 64 offset size) (error offset Overflow) in
  ok_or (get_range (p_input p) offset e) (error (len (p_input p)) Truncated).

Definition table (offset count size : Z) : outcome IrxError unit :=
  let? bytes := ok_or (checked_mul_u 64 count size) (error offset Overflow) in
  omapok (fun _ => tt) (slice offset bytes).

Definition section_is_complete (s : SectionHeader) : bool :=
  from_option (fun e => e <=? len (p_input p)) false (checked_add_u 64 (sh_offset s) (sh_size s)).

Fixpoint program_headers (at_ : Z) (n : nat) : outcome IrxError (list ProgramHeader) :=
  match n with
  | O => Ok []
  | S n =>
      let? kind := u32 at_ in
      let? offset := u32 (at_ + 4) in
      let? va := u32 (at_ + 8) in
      let? fsize := u32 (at_ + 16) in
      let? msize := u32 (at_ + 20) in
      let? fl := u32 (at_ + 24) in
      let? al := u32 (at_ + 28) in
      let? rest := program_headers (at_ + PROGRAM_HEADER_SIZE) n in
      Ok (mkProgramHeader kind offset va fsize msize fl al :: rest)
  end.

Fixpoint validate_loads (variant : IrxVariant) (prior_end : option Z) (loads : list ProgramHeader)
    : outcome IrxError unit :=
  match loads with
  | [] => Ok tt
  | h :: loads =>
      if memory_size h <? file_size h then fail (ph_offset h) OutOfRange
      else
        let? _ := slice (ph_offset h) (file_size h) in
        let? e := ok_or (checked_add_u 32 (virtual_address h) (memory_size h))
          (error (ph_offset h) Overflow) in
        if from_option (fun prior => virtual_address h <? prior) false prior_end then
          fail (ph_offset h) OverlappingRanges
        else if negb (alignment h =? 0) &&
                (negb (is_power_of_two (alignment h)) || (max_alignment (p_limits p) <? alignment h)
                 || negb (virtual_address h mod alignment h =? 0))
        then fail (ph_offset h) InvalidProgramLayout
        else if is_relocatable variant &&
                (wrap 32 (max_image_bytes (p_limits p)) <=? virtual_address h)
        then fail (ph_offset h) InvalidProgramLayout
        else validate_loads variant (Some e) loads
  end.

(** The copy of the loadable ranges into the zeroed image. *)
Fixpoint copy_loads (preferred : Z) (loads : list ProgramHeader) (img : list Z)
    : outcome IrxError (list Z) :=
  match loads with
  | [] => Ok img
  | h :: loads =>
      let? destination := expect (checked_sub_u (virtual_address h) preferred) in
      let? _ := expect (get_range img destination (destination + file_size h)) in
      let? bytes := slice (ph_offset h) (file_size h) in
      let? img := expect (splice img destination bytes) in
      copy_loads preferred loads img
  end.

Definition module_metadata (h : ProgramHeader) (img : list Z) (preferred : Z)
    (variant : IrxVariant) (elf_entry : Z) : outcome IrxError (RawMetadata * ModuleDescription) :=
  let offset := ph_offset h in
  let invalid {A} at_ : outcome IrxError A := fail at_ InvalidModuleMetadata in
  if file_size h <? 26 then invalid offset
  else
    let? bytes := slice offset (file_size h) in
    let? module_id_raw := expect (read_u32 bytes 0) in
    let? entry := expect (read_u32 bytes 4) in
    let? global_pointer := expect (read_u32 bytes 8) in
    let? text := expect (read_u32 bytes 12) in
    let? data := expect (read_u32 bytes 16) in
    let? bss := expect (read_u32 bytes 20) in
    let? header_version := expect (read_u16 bytes 24) in
    if negb (entry =? elf_entry) then invalid (offset + 4)
    else if from_option (fun o => negb (o mod 4 =? 0)) true
              (image_offset entry preferred (len img)) then invalid (offset + 4)
    else
      let? declared := ok_or (size ← checked_add_u 32 text data; checked_add_u 32 size bss)
        (error (offset + 12) Overflow) in
      if len img <? declared then invalid (offset + 12)
      else
        let? header_name := map_err (error (offset + 26))
          (parse_c_name (default [] (get_range bytes 26 (len bytes)))
             (max_name_bytes (p_limits p)) true) in
        let? named :=
          if module_id_raw =? 2 ^ 32 - 1 then
            let? name := ok_or
              (match header_name with
               | Some n => Some n
               | None => fallback_module_name (p_origin p) (max_name_bytes (p_limits p))
               end) (error (offset + 26) InvalidModuleMetadata) in
            Ok (None, name, header_version)
          else
            let missing := error offset InvalidModuleMetadata in
            let? module_offset := ok_or (image_offset module_id_raw preferred (len img)) missing in
            let? name_pointer := ok_or (read_u32 img module_offset) missing in
            let? id_version := ok_or (read_u16 img (module_offset + 4)) missing in
            let? name_offset := ok_or (image_offset name_pointer preferred (len img)) missing in
            let? tail := expect (get_range img name_offset (len img)) in
            let? found := map_err (fun _ => missing)
              (parse_c_name tail (max_name_bytes (p_limits p)) false) in
            let? name := ok_or found missing in
            if negb (header_version =? 0) && negb (header_version =? id_version)
            then invalid (offset + 24)
            else Ok (Some module_id_raw, name, id_version) in
        let '(module_id, name, version) := named in
        Ok (mkRawMetadata module_id entry global_pointer,
            mkDescription name version variant entry global_pointer text data bss).

Fixpoint section_headers (at_ : Z) (n : nat) : outcome IrxError (list SectionHeader) :=
  match n with
  | O => Ok []
  | S n =>
      let? kind := u32 (at_ + 4) in
      let? offset := u32 (at_ + 16) in
      let? size := u32 (at_ + 20) in
      let? link := u32 (at_ + 24) in
      let? info := u32 (at_ + 28) in
      let? al := u32 (at_ + 32) in
      let? esize := u32 (at_ + 36) in
      let h := mkSectionHeader kind offset size link info al esize in
      let? _ :=
        if (kind =? SHT_NOBITS) || (kind =? SHT_REL) || (kind =? SHT_SYMTAB) || (kind =? SHT_STRTAB)
        then Ok [] else slice offset size in
      if negb (al =? 0) && negb (is_power_of_two al) then fail (at_ + 32) InvalidSection
      else
        let? rest := section_headers (at_ + SECTION_HEADER_SIZE) n in
        Ok (h :: rest)
  end.

(** The symbols of [chunks_exact(SYMBOL_SIZE)], [n] of them from [at_]. *)
Fixpoint validate_symbol_entries (section_count at_offset : Z) (symbols strings : list Z) (at_ : Z)
    (n : nat) : outcome IrxError unit :=
  match n with
  | O => Ok tt
  | S n =>
      let? symbol := expect (get_range symbols at_ (at_ + SYMBOL_SIZE)) in
      let? name := expect (read_u32 symbol 0) in
      let? shndx := expect (read_u16 symbol 14) in
      let? bad_name :=
        if len strings <=? name then Ok true
        else if name =? 0 then Ok false
        else
          let? rest := Slices.slice strings name (len strings) in
          Ok (negb (existsb (fun b => b =? 0) rest)) in
      if bad_name || ((shndx <? 0xff00) && (section_count <=? shndx))
      then fail at_offset InvalidSection
      else validate_symbol_entries section_count at_offset symbols strings (at_ + SYMBOL_SIZE) n
  end.

Fixpoint validate_symbols_from (sections : list SectionHeader) (index : Z)
    (rest : list SectionHeader) : outcome IrxError unit :=
  match rest with
  | [] => Ok tt
  | s :: rest =>
      let next := validate_symbols_from sections (index + 1) rest in
      if negb (sh_kind s =? SHT_SYMTAB) then next
      else
        match sections !! Z.to_nat (sh_link s) with
        | Some strings =>
            if negb (entry_size s =? SYMBOL_SIZE) || negb (sh_size s mod SYMBOL_SIZE =? 0)
               || negb (sh_kind strings =? SHT_STRTAB)
            then fail (index * SECTION_HEADER_SIZE) InvalidSection
            else if negb (section_is_complete s) || negb (section_is_complete strings) then next
            else
              let? symbols := slice (sh_offset s) (sh_size s) in
              let? text := slice (sh_offset strings) (sh_size strings) in
              let? _ := validate_symbol_entries (Z.of_nat (length sections)) (sh_offset s)
                symbols text 0 (Z.to_nat (len symbols / SYMBOL_SIZE)) in
              next
        | None => fail (index * SECTION_HEADER_SIZE) InvalidSection
        end
  end.

Definition validate_symbols (sections : list SectionHeader) : outcome IrxError unit :=
  validate_symbols_from sections 0 sections.

Definition validate_relocation_symbol (sections : list SectionHeader) (s : SectionHeader)
    (symbol : Z) : outcome IrxError unit :=
  let? symtab := ok_or
    (t ← sections !! Z.to_nat (sh_link s); if sh_kind t =? SHT_SYMTAB then Some t else None)
    (error (sh_offset s) InvalidSymbol) in
  if negb (entry_size symtab =? SYMBOL_SIZE) || (sh_size symtab / SYMBOL_SIZE <=? symbol)
  then fail (sh_offset s) InvalidSymbol
  else Ok tt.

(** The offset word of the entry that pairs with the one at [at_], whose type must be
    [low]. *)
Definition paired_entry (s : SectionHeader) (data : list Z) (at_ low : Z) : outcome IrxError Z :=
  let malformed := error (sh_offset s + at_) MalformedRelocationPair in
  let? next := ok_or (get_range data (at_ + REL_SIZE) (at_ + 2 * REL_SIZE)) malformed in
  let? next_info := expect (read_u32 next 4) in
  if negb (next_info .& 0xff =? low) || negb (Z.shiftr next_info 8 =? 0) then Err malformed
  else expect (read_u32 next 0).

(** The kind of the entry at [at_], and whether it took its successor with it. *)
Definition relocation_kind (s : SectionHeader) (data : list Z) (image_size preferred at_ kind : Z)
    : outcome IrxError (RelocationKind * bool) :=
  match kind with
  | 1 => Ok (Half, false)
  | 2 => Ok (Word, false)
  | 4 => Ok (Jump, false)
  | 5 =>
      let? low_offset := paired_entry s data at_ 6 in
      let? _ := ok_or (word_offset low_offset preferred image_size)
        (error (sh_offset s + at_ + REL_SIZE) OutOfRange) in
      Ok (High low_offset, false)
  | 6 => Ok (Low, false)
  | 250 =>
      let? addend := paired_entry s data at_ 251 in
      Ok (SonyHigh addend, true)
  | 251 => fail (sh_offset s + at_) MalformedRelocationPair
  | other => fail (sh_offset s + at_ + 4) (UnsupportedRelocation other)
  end.

(** The entries [index ..] of one section. *)
Fixpoint relocation_entries (sections : list SectionHeader) (s : SectionHeader) (data : list Z)
    (image_size preferred count : Z) (fuel : nat) (index : Z) (output : list Relocation)
    : outcome IrxError (list Relocation) :=
  if count <=? index then Ok output
  else
    match fuel with
    | O => Panic
    | S fuel =>
        let at_ := index * REL_SIZE in
        let? offset := expect (read_u32 data at_) in
        let? info := expect (read_u32 data (at_ + 4)) in
        if negb (Z.shiftr info 8 =? 0) then
          let? _ := validate_relocation_symbol sections s (Z.shiftr info 8) in
          fail (sh_offset s + at_ + 4) InvalidSymbol
        else
          let kind := info .& 0xff in
          if kind =? 0 then
            relocation_entries sections s data image_size preferred count fuel (index + 1) output
          else
            let? _ := ok_or (word_offset offset preferred image_size)
              (error (sh_offset s + at_) OutOfRange) in
            let? (k, consumed) := relocation_kind s data image_size preferred at_ kind in
            relocation_entries sections s data image_size preferred count fuel
              (index + (if consumed then 1 else 0) + 1)
              (output ++ [mkRelocation offset k (sh_offset s + at_)])
    end.

(** The sections [rest], appending to [output]. *)
Fixpoint relocations_from (sections : list SectionHeader) (variant : IrxVariant)
    (image_size preferred : Z) (rest : list SectionHeader) (output : list Relocation)
    : outcome IrxError (list Relocation) :=
  match rest with
  | [] => Ok output
  | s :: rest =>
      if negb (sh_kind s =? SHT_REL) then
        relocations_from sections variant image_size preferred rest output
      else if negb (is_relocatable variant) then fail (sh_offset s) InvalidSection
      else if negb (entry_size s =? REL_SIZE) || negb (sh_size s mod REL_SIZE =? 0)
              || (Z.of_nat (length sections) <=? sh_info s)
      then fail (sh_offset s) InvalidSection
      else if max_relocations (p_limits p) <?
              saturating_u 64 (Z.of_nat (length output) + sh_size s / REL_SIZE)
      then fail (sh_offset s) (LimitExceeded "relocations")
      else
        let? remaining := ok_or (checked_sub_u (len (p_input p)) (sh_offset s))
          (error (len (p_input p)) Truncated) in
        let count := Z.min remaining (sh_size s) / REL_SIZE in
        let? data := slice (sh_offset s) (count * REL_SIZE) in
        let? output := relocation_entries sections s data image_size preferred count
          (Z.to_nat count) 0 output in
        relocations_from sections variant image_size preferred rest output
  end.

Definition parse_relocations (sections : list SectionHeader) (variant : IrxVariant)
    (image_size preferred : Z) : outcome IrxError (list Relocation) :=
  relocations_from sections variant image_size preferred sections [].

(** [sort_by_key], which is stable: equal addresses keep their order. *)
Fixpoint insert_header (h : ProgramHeader) (l : list ProgramHeader) : list ProgramHeader :=
  match l with
  | [] => [h]
  | x :: l => if virtual_address h <=? virtual_address x then h :: x :: l
              else x :: insert_header h l
  end.
Definition sort_headers (l : list ProgramHeader) : list ProgramHeader := foldr insert_header [] l.

(** The identification and the fixed fields up to the ELF version. *)
Definition identify : outcome IrxError IrxVariant :=
  if max_input_bytes (p_limits p) <? len (p_input p) then fail 0 (LimitExceeded "input bytes")
  else
    let? ident := ok_or (get_range (p_input p) 0 16) (error (len (p_input p)) Truncated) in
    let? magic := Slices.slice ident 0 7 in
    if negb (bool_decide (magic = 0x7f :: str "ELF" ++ [1; 1; 1]))
    then fail 0 InvalidIdentification
    else if len (p_input p) <? ELF_HEADER_SIZE then fail (len (p_input p)) Truncated
    else
      let? ty := u16 16 in
      let? variant :=
        match ty with
        | 0xff80 => Ok RelocatableV1
        | 0xff81 => Ok RelocatableV2
        | 2 => Ok Executable
        | other => fail 16 (UnsupportedType other)
        end in
      let? machine := u16 18 in
      if negb (machine =? 8) then fail 18 (UnsupportedMachine machine)
      else
        let? version := u32 20 in
        if negb (version =? 1) then fail 20 InvalidIdentification
        else
          let? ehsize := u16 40 in
          if negb (ehsize =? ELF_HEADER_SIZE) then fail 20 InvalidIdentification else Ok variant.

(** The image of the sorted loadable headers, with its preferred address. *)
Definition stage_image (phoff : Z) (variant : IrxVariant) (loads : list ProgramHeader)
    : outcome IrxError (Z * list Z) :=
  let? _ := validate_loads variant None loads in
  let? first := expect (head loads) in
  let preferred := virtual_address first in
  if is_relocatable variant && negb (preferred =? 0) then fail phoff InvalidProgramLayout
  else
    let? ends := expect
      (mapM (fun h => checked_add_u 32 (virtual_address h) (memory_size h)) loads) in
    let image_end := foldr Z.max 0 ends in
    let? image_size := ok_or (checked_sub_u image_end preferred) (error phoff Overflow) in
    if max_image_bytes (p_limits p) <? image_size then fail phoff (LimitExceeded "image bytes")
    else
      let? img := copy_loads preferred loads (replicate (Z.to_nat image_size) 0) in
      Ok (preferred, img).

Definition load_range (h : ProgramHeader) : LoadRange :=
  mkLoadRange (ph_offset h) (virtual_address h) (file_size h) (memory_size h) (flags h) (alignment h).

(** The counts and offsets of the header tables, checked against the input. *)
Definition tables : outcome IrxError (Z * Z * (Z * Z)) :=
  let? phoff := u32 28 in
  let? shoff := u32 32 in
  let? phentsize := u16 42 in
  let? phnum := u16 44 in
  let? shentsize := u16 46 in
  let? shnum := u16 48 in
  if (phnum =? 0) || (max_program_headers (p_limits p) <? phnum)
  then fail 44 (LimitExceeded "program headers")
  else if negb (phentsize =? PROGRAM_HEADER_SIZE) then fail 42 InvalidEntrySize
  else
    let? _ := table phoff phnum PROGRAM_HEADER_SIZE in
    if max_section_headers (p_limits p) <? shnum then fail 48 (LimitExceeded "section headers")
    else if shnum =? 0 then
      if negb (shoff =? 0) then fail 32 InvalidSection else Ok (phoff, phnum, (shoff, shnum))
    else if negb (shentsize =? SECTION_HEADER_SIZE) then fail 46 InvalidEntrySize
    else
      let? _ := table shoff shnum SECTION_HEADER_SIZE in
      Ok (phoff, phnum, (shoff, shnum)).

Definition parse : outcome IrxError IrxModule :=
  let? variant := identify in
  let? elf_entry := u32 24 in
  let? (phoff, phnum, (shoff, shnum)) := tables in
  let? headers := program_headers phoff (Z.to_nat phnum) in
  let metadata := List.filter (fun h => ph_kind h =? PT_SCE_IOPMOD) headers in
  let loads := sort_headers (List.filter (fun h => ph_kind h =? PT_LOAD) headers) in
  match metadata, loads with
  | [metadata], _ :: _ =>
      let? (preferred, img) := stage_image phoff variant loads in
      let al := foldr Z.max 1 (map alignment loads) in
      let? (raw, descr) := module_metadata metadata img preferred variant elf_entry in
      let? sections := section_headers shoff (Z.to_nat shnum) in
      let? _ := validate_symbols sections in
      let? relocs := parse_relocations sections variant (len img) preferred in
      Ok (mkIrxModule (p_origin p) (p_limits p) descr raw (map load_range loads) preferred al
            img relocs)
  | _, _ => fail phoff InvalidProgramLayout
  end.

End parser.
End Parser.

(** ** Relocation *)

Section relocation.
Variable origin : list Z.

(** [image[at..at + 4].copy_from_slice(&word.to_le_bytes())] *)
Definition put_word (img : list Z) (at_ word : Z) : outcome IrxError (list Z) :=
  expect (splice img at_ (le_bytes 4 word)).

(** The loop of [apply_sony_high]; [fuel] bounds the rounds. *)
Fixpoint sony_chain (source immediate : Z) (fuel : nat) (visited at_ : Z) (img : list Z)
    : outcome IrxError (list Z) :=
  match fuel with
  | O => Panic
  | S fuel =>
      let malformed := mkIrxError origin source MalformedRelocationChain in
      let? word := ok_or (read_u32 img at_) malformed in
      let step := to_i 16 (wrap 16 word) * 4 in
      let? img := put_word img at_ ((word .& 0xffff0000) .| (immediate .& 0xffff)) in
      let visited := visited + 1 in
      if len img / 4 + 1 <? visited then Err malformed
      else if step =? 0 then Ok img
      else
        let? next := ok_or
          (offset ← (if step <? 0 then checked_sub_u at_ (- step) else checked_add_u 64 at_ step);
           if (offset mod 4 =? 0)
              && from_option (fun e => e <=? len img) false (checked_add_u 64 offset 4)
           then Some offset else None) malformed in
        sony_chain source immediate fuel visited next img
  end.

Definition apply_sony_high (img : list Z) (start delta addend source : Z)
    : outcome IrxError (list Z) :=
  let? value := ok_or (checked_add_u 32 delta addend) (mkIrxError origin source RelocationOverflow) in
  let immediate := Z.shiftr (wrap 32 (value + 0x8000)) 16 in
  sony_chain source immediate (Z.to_nat (len img / 4 + 2)) 0 start img.

Definition apply_relocation (img : list Z) (preferred delta : Z) (r : Relocation)
    : outcome IrxError (list Z) :=
  let error kind := mkIrxError origin (r_source_offset r) kind in
  let? at_ := ok_or (image_offset (r_offset r) preferred (len img)) (error OutOfRange) in
  let? word := ok_or (read_u32 img at_) (error OutOfRange) in
  match r_kind r with
  | Half =>
      let value := delta + to_i 16 (wrap 16 word) in
      if negb ((-32768 <=? value) && (value <=? 65535)) then Err (error RelocationOverflow)
      else put_word img at_ ((word .& 0xffff0000) .| wrap 16 value)
  | Word =>
      let? patched := ok_or (checked_add_u 32 word delta) (error RelocationOverflow) in
      put_word img at_ patched
  | Jump =>
      let addend := shl 32 (word .& 0x03ffffff) 2 in
      let? target := ok_or (checked_add_u 32 delta addend) (error RelocationOverflow) in
      if negb (target .& 3 =? 0) then Err (error RelocationOverflow)
      else put_word img at_ ((word .& 0xfc000000) .| (Z.shiftr target 2 .& 0x03ffffff))
  | High low_offset =>
      let? low_at := ok_or (image_offset low_offset preferred (len img))
        (error MalformedRelocationPair) in
      let? next := ok_or (read_u32 img low_at) (error MalformedRelocationPair) in
      let addend := shl 32 (word .& 0xffff) 16 + to_i 16 (wrap 16 next) in
      let value := delta + addend in
      if negb ((0 <=? value) && (value <=? 2 ^ 32 - 1)) then Err (error RelocationOverflow)
      else put_word img at_
             ((word .& 0xffff0000) .| (Z.shiftr (wrap 32 (wrap 32 value + 0x8000)) 16 .& 0xffff))
  | Low => put_word img at_ ((word .& 0xffff0000) .| (wrap 32 (word + delta) .& 0xffff))
  | SonyHigh addend => apply_sony_high img at_ delta addend (r_source_offset r)
  end.

Fixpoint apply_relocations (preferred delta : Z) (rs : list Relocation) (img : list Z)
    : outcome IrxError (list Z) :=
  match rs with
  | [] => Ok img
  | r :: rs =>
      let? img := apply_relocation img preferred delta r in
      apply_relocations preferred delta rs img
  end.

(** ** Import and export tables *)

Variables (img : list Z) (address : Z) (limits : IrxLimits).

(** The stubs from [cursor]; [entries] counts the entries of all tables. *)
Fixpoint import_stubs (fuel : nat) (cursor entries : Z) (stubs : list ImportStub)
    : outcome IrxError (list ImportStub * Z) :=
  match fuel with
  | O => Panic
  | S fuel =>
      let? stub := ok_or (get_range img cursor (cursor + 8))
        (mkIrxError origin cursor InvalidLinkTable) in
      let? jump := expect (read_u32 stub 0) in
      let? ordinal_word := expect (read_u32 stub 4) in
      if (jump =? 0) && (ordinal_word =? 0) then Ok (stubs, entries)
      else if negb (jump =? 0x03e00008) || negb (ordinal_word .& 0xffff0000 =? 0x24000000)
      then Err (mkIrxError origin cursor InvalidLinkTable)
      else
        let? entries := ok_or (checked_add_u 64 entries 1) (mkIrxError origin cursor Overflow) in
        if max_link_entries limits <? entries
        then Err (mkIrxError origin cursor (LimitExceeded "link entries"))
        else
          let? stub_address := ok_or (checked_add_u 32 address (wrap 32 cursor))
            (mkIrxError origin cursor Overflow) in
          import_stubs fuel (cursor + 8) entries
            (stubs ++ [mkImportStub (wrap 16 ordinal_word) stub_address])
  end.

(** The function pointers from [cursor]. *)
Fixpoint export_functions (image_end : Z) (fuel : nat) (cursor entries : Z) (functions : list Z)
    : outcome IrxError (list Z * Z) :=
  match fuel with
  | O => Panic
  | S fuel =>
      let? function := ok_or (read_u32 img cursor) (mkIrxError origin cursor InvalidLinkTable) in
      if function =? 0 then Ok (functions, entries)
      else if negb (MemoryRange.contains (mkMemoryRange address image_end) function 4)
      then Err (mkIrxError origin cursor InvalidLinkTable)
      else
        let? entries := ok_or (checked_add_u 64 entries 1) (mkIrxError origin cursor Overflow) in
        if max_link_entries limits <? entries
        then Err (mkIrxError origin cursor (LimitExceeded "link entries"))
        else export_functions image_end fuel (cursor + 4) entries (functions ++ [function])
  end.

(** What the scan has found: imports, exports and the number of entries. *)
Record LinkTables := mkLinkTables {
  lt_imports : list ImportLibrary;
  lt_exports : list ExportLibrary;
  lt_entries : Z;
}.

(** One round of the scan, at the word [at_]. *)
Definition link_table_at (image_end at_ : Z) (t : LinkTables) : outcome IrxError LinkTables :=
  let? magic := expect (read_u32 img at_) in
  if negb (magic =? IMPORT_MAGIC) && negb (magic =? EXPORT_MAGIC) then Ok t
  else if max_link_tables limits <=? Z.of_nat (length (lt_imports t) + length (lt_exports t))
  then Err (mkIrxError origin at_ (LimitExceeded "link tables"))
  else
    let? header := ok_or (get_range img at_ (at_ + 20)) (mkIrxError origin at_ InvalidLinkTable) in
    if negb (bool_decide (read_u32 header 4 = Some 0))
    then Err (mkIrxError origin (at_ + 4) InvalidLinkTable)
    else
      let? version := expect (read_u16 header 8) in
      let? mode := expect (read_u16 header 10) in
      let? name_field := slice header 12 20 in
      let? name := ok_or (parse_fixed_name name_field)
        (mkIrxError origin (at_ + 12) InvalidLinkTable) in
      let? table_address := ok_or (checked_add_u 32 address (wrap 32 at_))
        (mkIrxError origin at_ Overflow) in
      if magic =? IMPORT_MAGIC then
        let? (stubs, entries) := import_stubs (S (length img)) (at_ + 20) (lt_entries t) [] in
        Ok (mkLinkTables (lt_imports t ++ [mkImportLibrary name version mode table_address stubs])
              (lt_exports t) entries)
      else
        let? (functions, entries) :=
          export_functions image_end (S (length img)) (at_ + 20) (lt_entries t) [] in
        Ok (mkLinkTables (lt_imports t)
              (lt_exports t ++ [mkExportLibrary name version mode table_address functions]) entries).

(** [(0..len.saturating_sub(3)).step_by(4)], [n] words from [at_]. *)
Fixpoint scan_words (image_end at_ : Z) (n : nat) (t : LinkTables) : outcome IrxError LinkTables :=
  match n with
  | O => Ok t
  | S n =>
      let? t := link_table_at image_end at_ t in
      scan_words image_end (at_ + 4) n t
  end.

Definition parse_link_tables : outcome IrxError (list ImportLibrary * list ExportLibrary) :=
  let? image_size := ok_or (try_from_u 32 (len img)) (mkIrxError origin 0 Overflow) in
  let? image_end := ok_or (checked_add_u 32 address image_size) (mkIrxError origin 0 Overflow) in
  let? t := scan_words image_end 0 (Z.to_nat (len img / 4)) (mkLinkTables [] [] 0) in
  Ok (lt_imports t, lt_exports t).

End relocation.

(** ** The module *)

Module IrxModule.

Definition parse_with_limits (origin input : list Z) (limits : IrxLimits)
    : outcome IrxError IrxModule := Parser.parse (mkParser origin input limits).

Definition parse (origin input : list Z) : outcome IrxError IrxModule :=
  parse_with_limits origin input default_irx_limits.

Definition allocation_size (m : IrxModule) : Z :=
  default (2 ^ 32 - 1) (try_from_u 32 (len (image m))).

(** Everything [load_into] does before the write: the staged image and the result. *)
Definition stage (m : IrxModule) (address : Z) (range : MemoryRange)
    : outcome IrxError (list Z * LoadedModule) :=
  let error kind := mkIrxError (m_origin m) 0 kind in
  let relocatable := is_relocatable (md_variant (description m)) in
  if m_alignment m =? 0 then Panic
  else if negb (address mod m_alignment m =? 0)
          || (negb relocatable && negb (address =? preferred_address m))
  then Err (error InvalidLoadAddress)
  else if negb (MemoryRange.contains range address (len (image m)))
  then Err (error TargetRange)
  else
    let delta := if relocatable then address else 0 in
    let? img := apply_relocations (m_origin m) (preferred_address m) delta (relocations m) (image m) in
    let? entry := ok_or (checked_add_u 32 (rm_entry (raw_metadata m)) delta) (error Overflow) in
    let? global_pointer := ok_or (checked_add_u 32 (rm_global_pointer (raw_metadata m)) delta)
      (error Overflow) in
    let? image_end := ok_or (checked_add_u 32 address (allocation_size m)) (error Overflow) in
    if negb (MemoryRange.contains (mkMemoryRange address image_end) entry 4)
    then Err (error TargetRange)
    else
      let? module_id :=
        match rm_module_id (raw_metadata m) with
        | Some value => omapok Some (ok_or (checked_add_u 32 value delta) (error Overflow))
        | None => Ok None
        end in
      let? (imports, exports) := parse_link_tables (m_origin m) img address (m_limits m) in
      Ok (img, mkLoadedModule (description m) entry global_pointer module_id
                 (mkAllocation address (allocation_size m) (m_alignment m)) imports exports Unstarted).

Definition load_into `{TargetMemory T} (m : IrxModule) (address : Z) (target : T)
    : outcome IrxError LoadedModule * T :=
  let! (staged, target) := (stage m address (target_range target), target) in
  let (r, target) := write_image address staged.1 target in
  (omapok (fun _ => staged.2)
     (map_err (fun e => mkIrxError (m_origin m) 0 (Target (target_message e))) r), target).

End IrxModule.
