(* ===== verification/IrxFacts.v ===== *)
(** * What parsing a module guarantees

    [Parser.parse] never panics on any bytes, and every module it accepts is
    [well_formed]: its image is the file's segments over zeroes, its relocations are
    aligned words of the image, its entry point lies in it. *)

From S2P Require Import Prelude MachineInt Records Buffer Slices PsfText Irx.

Notation bytes_ok := (Forall (in_u 8)).

(** ** Reads *)

Lemma safely_read {E} n l o (e : E) :
  bytes_ok l -> 0 <= o -> safely (in_u (8 * n)) (ok_or (read_le n l o) e).
Proof. intros Hl Ho. apply safely_ok_or. intros v Hv.
  exact (read_le_range n l o v Hl Ho Hv). Qed.

Lemma safely_expect_read {E} n l o :
  bytes_ok l -> 0 <= o -> 0 <= n -> o + n <= len l -> len l < 2 ^ 64 ->
  safely (fun v => in_u (8 * n) v /\ read_le n l o = Some v) (expect (read_le n l o) : outcome E Z).
Proof.
  intros Hl Ho Hn Hle Hlt. pose proof (read_le_in n l o Hn Hle Hlt) as Er. rewrite Er.
  unfold expect, safely. split; [|done].
  exact (read_le_range n l o _ Hl Ho Er).
Qed.

Lemma image_offset_some a pref size o :
  image_offset a pref size = Some o <-> o = a - pref /\ 0 <= o < size.
Proof.
  unfold image_offset. destruct (checked_sub_u a pref) as [x|] eqn:Ex.
  - apply checked_sub_u_Some in Ex as [-> Hp]. cbn [mbind option_bind].
    destruct (Z.ltb_spec (a - pref) size); split; try done; intros; naive_solver lia.
  - cbn. split; [done|]. intros [-> Ho]. unfold checked_sub_u in Ex. case_match; [done|].
    zbool. lia.
Qed.

Lemma word_offset_some a pref size o :
  size < 2 ^ 64 -> word_offset a pref size = Some o ->
  o = a - pref /\ 0 <= o /\ o + 4 <= size /\ o mod 4 = 0.
Proof.
  intros Hs (x & (-> & Hx)%image_offset_some & Hr)%bind_Some. case_match eqn:E; [|done].
  injection Hr as <-. apply andb_true_iff in E as [E1 E2%Z.eqb_eq].
  destruct (checked_add_u 64 _ 4) as [e|] eqn:Ee; [|done]. apply checked_add_u_Some in Ee as [-> _].
  cbn in E1. zbool. tauto.
Qed.

(** ** Names *)

Lemma position_inside p l n : position p l = Some n -> (n < length l)%nat.
Proof.
  revert n. induction l as [|b l IH]; intros n; cbn; [done|]. destruct (p b).
  - intros [= <-]. lia.
  - intros (m & Hm%IH & ->)%fmap_Some. lia.
Qed.

Lemma existsb_Forall {A} (f : A -> bool) l :
  existsb (fun x => negb (f x)) l = false -> Forall (fun x => f x = true) l.
Proof.
  induction l as [|x l IH]; cbn; [by constructor|]. intros [H1%negb_false_iff H2]%orb_false_iff.
  constructor; auto.
Qed.

(** A printable, nonempty name of at most [max] bytes. *)
Definition name_ok (max : Z) (name : list Z) : Prop :=
  name <> [] /\ len name <= max /\ Forall (fun b => (32 <=? b) && (b <=? 126) = true) name.

Lemma parse_c_name_ok bytes max b :
  0 <= max -> safely (fun n => from_option (name_ok max) (b = true) n) (parse_c_name bytes max b).
Proof.
  intros Hm. unfold parse_c_name. eapply safely_bind; [by apply safely_ok_or; intros e He; exact He|].
  intros e He%position_inside. destruct (Nat.eqb_spec e 0) as [|Hne]; [by destruct b|].
  destruct (existsb _ _) eqn:Ee; [done|]. apply existsb_Forall in Ee. cbn.
  rewrite length_take in He. unfold saturating_u in He.
  split_and!; [|unfold len; rewrite length_take; lia|done].
  destruct bytes; [cbn in He; lia|]. by destruct e.
Qed.

Lemma fallback_name_ok origin max n : fallback_module_name origin max = Some n -> name_ok max n.
Proof.
  unfold fallback_module_name. intros (leaf & _ & Hr)%bind_Some. case_match eqn:E; [done|].
  injection Hr as <-. apply orb_false_iff in E as [[E1 E2]%orb_false_iff E3%negb_false_iff].
  apply bool_decide_eq_false in E1. zbool. split_and!; [done|lia|].
  rewrite forallb_forall in E3. apply List.Forall_forall. intros x Hx%E3.
  apply andb_true_iff in Hx as [H1%Z.leb_le H2]. rewrite H2, (proj2 (Z.leb_le _ _)) by lia. done.
Qed.

(** ** Well-formed modules *)

(** The link-time interval of a range, and the file bytes at its start. *)
Definition before (a b : LoadRange) : Prop :=
  lr_virtual_address a + lr_memory_size a <= lr_virtual_address b.

Definition in_file_part (r : LoadRange) (a : Z) : Prop :=
  lr_virtual_address r <= a < lr_virtual_address r + lr_file_size r.

Definition aligned_at (al a : Z) : Prop := al = 0 \/ is_power_of_two al = true /\ a mod al = 0.

Record range_ok (input : list Z) (limits : IrxLimits) (r : LoadRange) : Prop := {
  range_source : 0 <= source_offset r /\ source_offset r + lr_file_size r <= len input;
  range_sizes : 0 <= lr_file_size r <= lr_memory_size r;
  range_address : 0 <= lr_virtual_address r /\ lr_virtual_address r + lr_memory_size r < 2 ^ 32;
  range_aligned : aligned_at (lr_alignment r) (lr_virtual_address r);
  range_alignment : 0 <= lr_alignment r /\ (lr_alignment r <> 0 -> lr_alignment r <= max_alignment limits);
}.

(** [img] is the ranges' file bytes over zeroes, from link address [pref]. *)
Record image_ok (input : list Z) (rs : list LoadRange) (pref : Z) (img : list Z) : Prop := {
  image_bytes : bytes_ok img;
  image_file : forall r, r ∈ rs -> forall k, 0 <= k < lr_file_size r ->
    img !! Z.to_nat (lr_virtual_address r - pref + k) = input !! Z.to_nat (source_offset r + k);
  image_zero : forall i, 0 <= i < len img -> (forall r, r ∈ rs -> ~ in_file_part r (pref + i)) ->
    img !! Z.to_nat i = Some 0;
}.

(** A word of an image of [size] bytes linked at [pref]. *)
Definition word_at (pref size a : Z) : Prop :=
  0 <= a - pref /\ a - pref + 4 <= size /\ (a - pref) mod 4 = 0.

Definition relocation_ok (pref size : Z) (r : Relocation) : Prop :=
  word_at pref size (r_offset r) /\
  match r_kind r with
  | High low => word_at pref size low
  | SonyHigh addend => in_u 32 addend
  | _ => True
  end.

Record well_formed (input : list Z) (m : IrxModule) : Prop := {
  wf_ranges : Forall (range_ok input (m_limits m)) (ranges m);
  wf_nonempty : ranges m <> [];
  wf_disjoint : StronglySorted before (ranges m);
  wf_inside : Forall (fun r => preferred_address m <= lr_virtual_address r /\
    lr_virtual_address r + lr_memory_size r <= preferred_address m + len (image m)) (ranges m);
  wf_image : image_ok input (ranges m) (preferred_address m) (image m);
  wf_size : len (image m) <= max_image_bytes (m_limits m);
  wf_address : 0 <= preferred_address m /\ preferred_address m + len (image m) < 2 ^ 32;
  wf_alignment_u32 : m_alignment m < 2 ^ 32;
  wf_alignment : is_power_of_two (m_alignment m) = true /\
    Forall (fun r => lr_alignment r <= m_alignment m) (ranges m);
  wf_fixed : if is_relocatable (md_variant (description m)) then preferred_address m = 0
             else relocations m = [];
  wf_relocations : Forall (relocation_ok (preferred_address m) (len (image m))) (relocations m);
  wf_entry : 0 <= rm_entry (raw_metadata m) - preferred_address m < len (image m) /\
    (rm_entry (raw_metadata m) - preferred_address m) mod 4 = 0;
  wf_global_pointer : in_u 32 (rm_global_pointer (raw_metadata m));
  wf_module_id : from_option (fun v => 0 <= v - preferred_address m < len (image m)) True
    (rm_module_id (raw_metadata m));
  wf_name : name_ok (max_name_bytes (m_limits m)) (md_name (description m));
}.

(** Every segment of a relocatable module lands on its own alignment, wherever an
    address that satisfies the module's alignment puts it. *)
Lemma segments_aligned input m r address :
  well_formed input m -> r ∈ ranges m -> address mod m_alignment m = 0 ->
  aligned_at (lr_alignment r) (address + lr_virtual_address r).
Proof.
  intros Hm Hr Ha. destruct (wf_alignment _ _ Hm) as [Hp Hle].
  rewrite Forall_forall in Hle. specialize (Hle r Hr).
  pose proof (wf_ranges _ _ Hm) as Hrs. rewrite Forall_forall in Hrs. specialize (Hrs r Hr).
  destruct (range_aligned _ _ _ Hrs) as [?|[Hpr Hmod]]; [by left|right].
  split; [done|]. pose proof (power_of_two_divide _ _ Hpr Hp Hle) as Hd.
  pose proof Hpr as [H0%Z.ltb_lt _]%andb_true_iff. pose proof Hp as [H1%Z.ltb_lt _]%andb_true_iff.
  apply Z.mod_divide; [lia|]. apply Z.divide_add_r; [|by apply Z.mod_divide; [lia|]].
  etransitivity; [exact Hd|]. apply Z.mod_divide; [lia|done].
Qed.

(** ** The parser *)

Definition limits_ok (l : IrxLimits) : Prop :=
  in_u 64 (max_name_bytes l) /\ in_u 64 (max_image_bytes l) /\ in_u 64 (max_link_tables l) /\
  in_u 64 (max_link_entries l).

Definition header_ok (h : ProgramHeader) : Prop :=
  0 <= ph_offset h < 2 ^ 32 /\ 0 <= virtual_address h < 2 ^ 32 /\ 0 <= file_size h < 2 ^ 32 /\
  0 <= memory_size h < 2 ^ 32 /\ 0 <= alignment h < 2 ^ 32.

Definition section_ok (s : SectionHeader) : Prop :=
  0 <= sh_offset s < 2 ^ 32 /\ 0 <= sh_size s < 2 ^ 32.

Section parser.
Context (p : Parser) (input_bytes : bytes_ok (p_input p)) (input_len : len (p_input p) < 2 ^ 63)
  (Hlimits : limits_ok (p_limits p)).

Lemma parser_u32_ok o : 0 <= o -> safely (fun v => 0 <= v < 2 ^ 32) (Parser.u32 p o).
Proof. intros Ho. apply (safely_read 4); [exact input_bytes|done]. Qed.

Lemma parser_u16_ok o : 0 <= o -> safely (fun v => 0 <= v < 2 ^ 16) (Parser.u16 p o).
Proof. intros Ho. apply (safely_read 2); [exact input_bytes|done]. Qed.

Lemma cut_ok o n :
  0 <= o -> 0 <= n ->
  safely (fun r => r = sub (p_input p) o (o + n) /\ o + n <= len (p_input p) /\ len r = n /\
                   bytes_ok r) (Parser.slice p o n).
Proof.
  intros Ho Hn. unfold Parser.slice. eapply safely_bind; [by apply safely_ok_or; intros e He; exact He|].
  intros e [-> _]%checked_add_u_Some. apply safely_ok_or. intros r (H1 & H2 & ->)%get_range_some.
  split_and!; [done|done|rewrite len_sub by lia; lia|by apply Forall_sub].
Qed.

Lemma table_ok o count size : 0 <= o -> 0 <= count * size -> safely (fun _ => True) (Parser.table p o count size).
Proof.
  intros Ho Hc. unfold Parser.table. eapply safely_bind; [by apply safely_ok_or; intros e He; exact He|].
  intros b [-> _]%checked_mul_u_Some. eapply safely_bind; [by apply cut_ok|done].
Qed.

Lemma program_headers_ok at_ n :
  0 <= at_ -> safely (Forall header_ok) (Parser.program_headers p at_ n).
Proof.
  revert at_. induction n as [|n IH]; intros at_ Ha; cbn [Parser.program_headers]; [by constructor|].
  do 7 (eapply safely_bind; [apply parser_u32_ok; lia|intros ? ?]).
  eapply safely_bind; [apply IH; unfold PROGRAM_HEADER_SIZE; lia|].
  intros rest Hr. constructor; [|done]. unfold header_ok.
  cbn [ph_offset virtual_address file_size memory_size alignment]. cbn beta in *. tauto.
Qed.

(** *** Loadable ranges *)

Definition load_ok (h : ProgramHeader) : Prop :=
  header_ok h /\ range_ok (p_input p) (p_limits p) (Parser.load_range h).

Definition loads_after (prior : option Z) (loads : list ProgramHeader) : Prop :=
  StronglySorted before (map Parser.load_range loads) /\
  from_option (fun e => Forall (fun h => e <= virtual_address h) loads) True prior.

Lemma validate_loads_ok variant prior loads :
  Forall header_ok loads ->
  safely (fun _ => Forall (load_ok) loads /\ loads_after prior loads)
    (Parser.validate_loads p variant prior loads).
Proof.
  intros Hh. revert prior. induction Hh as [|h loads Hok Hh IH]; intros prior; cbn [Parser.validate_loads].
  { split; [constructor|]. split; [constructor|]. by destruct prior; cbn. }
  pose proof Hok as (H1 & H2 & H3 & H4 & H5).
  destruct (Z.ltb_spec (memory_size h) (file_size h)); [done|].
  eapply safely_bind; [apply cut_ok; lia|]. intros r (_ & Hin & _ & _).
  eapply safely_bind; [by apply safely_ok_or; intros e He; exact He|].
  intros e [-> He]%checked_add_u_Some.
  destruct (from_option _ false prior) eqn:Ep; [done|].
  destruct (negb (alignment h =? 0) && _) eqn:Ea; [done|].
  destruct (is_relocatable variant && _) eqn:Ev; [done|].
  eapply safely_mono; [apply IH|]. intros [] (Hl & Hs & Hp). cbn in Hp. split; [|split].
  - constructor; [|done]. split; [done|].
    assert (aligned_at (alignment h) (virtual_address h) /\
      (alignment h <> 0 -> alignment h <= max_alignment (p_limits p))) as [Hal Hmax].
    { apply andb_false_iff in Ea as [E|E]; [zbool; split; [by left|done]|].
      apply orb_false_iff in E as [[E1 E2]%orb_false_iff E3]. zbool. split; [by right|done]. }
    split; cbn; [lia|lia|lia|done|split; [lia|done]].
  - cbn [map]. constructor; [done|]. apply Forall_map. eapply Forall_impl; [exact Hp|].
    intros x Hx. exact Hx.
  - destruct prior as [e|]; cbn in *; [|done]. zbool. constructor; [done|].
    eapply Forall_impl; [exact Hp|]. intros x Hx. cbn in Hx. lia.
Qed.

(** *** The staged image *)

Definition fits (pref size : Z) (h : ProgramHeader) : Prop :=
  pref <= virtual_address h /\ virtual_address h + memory_size h <= pref + size.

Lemma copy_loads_ok pref loads img :
  Forall (load_ok) loads -> StronglySorted before (map Parser.load_range loads) ->
  Forall (fits pref (len img)) loads -> bytes_ok img ->
  safely (fun img' => len img' = len img /\ bytes_ok img' /\
      (forall h, h ∈ loads -> forall k, 0 <= k < file_size h ->
         img' !! Z.to_nat (virtual_address h - pref + k) = p_input p !! Z.to_nat (ph_offset h + k)) /\
      (forall i, 0 <= i -> (forall h, h ∈ loads -> ~ in_file_part (Parser.load_range h) (pref + i)) ->
         img' !! Z.to_nat i = img !! Z.to_nat i))
    (Parser.copy_loads p pref loads img).
Proof.
  intros Hh. revert img. induction Hh as [|h loads [Hok Hr] Hh IH]; intros img Hs Hf Hi; cbn [Parser.copy_loads].
  { split_and!; [done|done| |done]. intros h Hin. by apply elem_of_nil in Hin. }
  destruct Hok as (H1 & H2 & H3 & H4 & H5). destruct Hr as [[S1 S2] [Z1 Z2] A _ _]. cbn in *.
  apply StronglySorted_inv in Hs as [Hs Hbefore]. apply Forall_cons in Hf as [[F1 F2] Hf].
  assert (checked_sub_u (virtual_address h) pref = Some (virtual_address h - pref)) as ->.
  { by apply checked_sub_u_Some. }
  cbn [expect obind]. rewrite get_range_in by lia. cbn [expect obind].
  eapply safely_bind; [apply cut_ok; lia|]. intros bytes (Eb & _ & El & Hb).
  destruct (splice_in img (virtual_address h - pref) bytes) as [img1 E1]; [lia|lia|].
  rewrite E1. cbn [expect obind].
  pose proof (splice_bytes _ _ _ _ Hi Hb E1) as Hi1. apply splice_some in E1 as (_ & _ & L1 & Hl1).
  eapply safely_mono; [apply IH; [done| |done]; by rewrite L1|].
  intros img' (L' & B' & File & Zero). split_and!; [lia|done| |].
  - intros x [->|Hx]%elem_of_cons k Hk; [|by apply File].
    rewrite Zero by (try lia; intros y Hy [Hy1 Hy2]; cbn in *; rewrite Forall_map, Forall_forall in Hbefore;
      specialize (Hbefore y Hy); unfold before in Hbefore; cbn in Hbefore; lia).
    rewrite Hl1, decide_True by lia. rewrite Eb.
    replace (virtual_address h - pref + k - (virtual_address h - pref)) with k by lia.
    apply lookup_sub; lia.
  - intros i Hi0 Hout. rewrite Zero; [|done|].
    + rewrite Hl1 by done. rewrite decide_False; [done|]. intros Hc. apply (Hout h); [apply elem_of_cons; by left|].
      unfold in_file_part. cbn. lia.
    + intros x Hx. apply Hout. apply elem_of_cons. by right.
Qed.

Lemma insert_header_perm h l : Parser.insert_header h l ≡ₚ h :: l.
Proof.
  induction l as [|x l IH]; cbn; [done|]. case_match; [done|].
  rewrite IH. apply Permutation_swap.
Qed.

Lemma sort_headers_perm l : Parser.sort_headers l ≡ₚ l.
Proof.
  induction l as [|x l IH]; cbn; [done|]. unfold Parser.sort_headers in IH.
  by rewrite insert_header_perm, IH.
Qed.

(** The largest element of a list of numbers. *)
Lemma foldr_max_spec d l : d <= foldr Z.max d l /\ Forall (fun x => x <= foldr Z.max d l) l /\
  (foldr Z.max d l = d \/ foldr Z.max d l ∈ l).
Proof.
  induction l as [|x l (H1 & H2 & H3)]; cbn [foldr]; [split_and!; [lia|done|by left]|].
  split_and!; [lia| |].
  - constructor; [lia|]. eapply Forall_impl; [exact H2|]. cbn. lia.
  - destruct (Z.max_spec x (foldr Z.max d l)) as [[_ ->]|[_ ->]].
    + destruct H3 as [->|H3]; [by left|right; apply elem_of_cons; by right].
    + right. apply elem_of_cons. by left.
Qed.

(** *** The staged image of sorted headers *)

Definition staged (variant : IrxVariant) (loads : list ProgramHeader) (pref : Z) (img : list Z) : Prop :=
  Forall (load_ok) loads /\ StronglySorted before (map Parser.load_range loads) /\
  Forall (fits pref (len img)) loads /\
  image_ok (p_input p) (map Parser.load_range loads) pref img /\
  len img <= max_image_bytes (p_limits p) /\ 0 <= pref /\ pref + len img < 2 ^ 32 /\
  (is_relocatable variant = true -> pref = 0).

Lemma stage_image_ok phoff variant loads :
  Forall header_ok loads -> loads <> [] ->
  safely (fun r => staged variant loads r.1 r.2) (Parser.stage_image p phoff variant loads).
Proof.
  intros Hh Hne. unfold Parser.stage_image.
  eapply safely_bind; [by apply validate_loads_ok|]. intros _ (Hl & Hs & _).
  destruct loads as [|first loads]; [done|]. cbn [head expect obind].
  set (pref := virtual_address first).
  destruct (is_relocatable variant && _) eqn:Ev; [done|].
  set (all := first :: loads) in *.
  assert (mapM (fun h => checked_add_u 32 (virtual_address h) (memory_size h)) all =
    Some (map (fun h => virtual_address h + memory_size h) all)) as ->.
  { apply mapM_Some_2. clear -Hl. induction Hl as [|h l [_ Hr] Hl IH]; cbn; constructor; [|done].
    apply checked_add_u_Some. split; [done|]. by destruct Hr as [_ _ [_ ?] _ _]. }
  cbn [expect obind]. destruct (foldr_max_spec 0 (map (fun h => virtual_address h + memory_size h) all))
    as (M1 & M2 & M3). set (image_end := foldr Z.max 0 _) in *. rewrite Forall_map in M2.
  assert (0 <= image_end < 2 ^ 32) as Hend.
  { split; [done|]. destruct M3 as [->|M3]; [done|]. apply list_elem_of_fmap in M3 as (h & -> & Hin).
    rewrite Forall_forall in Hl. by destruct (Hl h Hin) as [_ [_ _ [_ ?] _ _]]. }
  clearbody image_end.
  eapply safely_bind; [by apply safely_ok_or; intros e He; exact He|].
  intros size [-> Hsz]%checked_sub_u_Some.
  destruct (Z.ltb_spec (max_image_bytes (p_limits p)) (image_end - pref)); [done|].
  assert (0 <= pref) as Hpref.
  { destruct (Forall_cons_1 _ _ _ Hh) as [(_ & H0 & _) _]. by destruct H0. }
  pose proof (len_replicate (image_end - pref) 0 ltac:(lia)) as Elen.
  assert (Forall (fits pref (image_end - pref)) all) as Hfits.
  { rewrite Forall_forall in M2 |- *. intros h Hin. specialize (M2 h Hin). cbv beta in M2.
    split; [|lia].
    apply elem_of_cons in Hin as [->|Hin]; [done|].
    pose proof Hs as Hb. unfold all in Hb. cbn [map] in Hb. apply StronglySorted_inv in Hb as [_ Hb].
    rewrite Forall_map, Forall_forall in Hb.
    specialize (Hb h Hin). unfold before in Hb. cbn in Hb.
    destruct (Forall_cons_1 _ _ _ Hh) as [(_ & _ & _ & H0 & _) _]. unfold pref. lia. }
  eapply safely_bind.
  { apply copy_loads_ok; [exact Hl|done|by rewrite Elen|]. apply Forall_replicate. by split. }
  intros img (L & B & File & Zero). cbn. rewrite Elen in L. split_and!; try done.
  - by rewrite L.
  - split; [done| |].
    + intros r Hr k Hk. apply list_elem_of_fmap in Hr as (h & -> & Hin). cbn in *. by apply File.
    + intros i Hi Hout. rewrite Zero; [|lia|].
      * rewrite lookup_replicate_2 by lia. done.
      * intros h Hin. apply Hout. by apply list_elem_of_fmap_2.
  - lia.
  - rewrite L. lia.
  - intros E. rewrite E in Ev. cbn in Ev. by zbool.
Qed.

(** *** Metadata *)

Definition metadata_ok (pref : Z) (img : list Z) (variant : IrxVariant)
    (r : RawMetadata * ModuleDescription) : Prop :=
  (0 <= rm_entry r.1 - pref < len img /\ (rm_entry r.1 - pref) mod 4 = 0) /\
  in_u 32 (rm_global_pointer r.1) /\
  from_option (fun v => 0 <= v - pref < len img) True (rm_module_id r.1) /\
  name_ok (max_name_bytes (p_limits p)) (md_name r.2) /\ md_variant r.2 = variant.

Lemma map_err_c_name (f : IrxErrorKind -> IrxError) bytes b :
  safely (fun n => from_option (name_ok (max_name_bytes (p_limits p))) (b = true) n)
    (map_err f (parse_c_name bytes (max_name_bytes (p_limits p)) b)).
Proof. apply safely_map_err, parse_c_name_ok. by destruct Hlimits as [[? _] _]. Qed.

Lemma module_metadata_ok h img pref variant entry :
  header_ok h -> bytes_ok img -> len img < 2 ^ 32 ->
  safely (metadata_ok pref img variant) (Parser.module_metadata p h img pref variant entry).
Proof.
  intros (H1 & _ & H3 & _) Hi Hlen. unfold Parser.module_metadata.
  destruct (Z.ltb_spec (file_size h) 26); [done|].
  eapply safely_bind; [apply cut_ok; lia|]. intros bytes (_ & _ & El & Hb).
  do 7 (eapply safely_bind;
    [apply safely_expect_read; [exact Hb|lia|lia|rewrite El; lia|rewrite El; lia]|intros ? [? ?]]).
  case_match; [done|].
  destruct (image_offset a0 pref (len img)) as [o|] eqn:Eo; cbn [from_option]; [|done].
  destruct (negb (o mod 4 =? 0)) eqn:E4; [done|].
  apply image_offset_some in Eo as [-> Ho]. zbool.
  eapply safely_bind; [by apply safely_ok_or; intros x Hx; exact Hx|]. intros declared _.
  case_match; [done|]. eapply safely_bind; [apply map_err_c_name|]. intros header_name Hn.
  eapply (safely_bind (fun n => name_ok (max_name_bytes (p_limits p)) n.1.2 /\
    from_option (fun v => 0 <= v - pref < len img) True n.1.1)).
  - case_match.
    + eapply safely_bind; [by apply safely_ok_or; intros x Hx; exact Hx|]. intros name Hname.
      split; [|done]. cbn. destruct header_name as [n|]; [by injection Hname as <-|].
      by eapply fallback_name_ok.
    + eapply safely_bind; [by apply safely_ok_or; intros x Hx; exact Hx|].
      intros mo [-> Hmo]%image_offset_some.
      eapply safely_bind; [apply (safely_read 4); [exact Hi|lia]|]. intros np Hnp.
      eapply safely_bind; [apply (safely_read 2); [exact Hi|lia]|]. intros ver Hver.
      eapply safely_bind; [by apply safely_ok_or; intros x Hx; exact Hx|].
      intros no [-> Hno]%image_offset_some.
      rewrite get_range_in by lia. cbn [expect obind].
      eapply safely_bind; [apply map_err_c_name|]. intros found Hf.
      eapply safely_bind; [by apply safely_ok_or; intros x Hx; exact Hx|]. intros name ->.
      case_match; [done|]. by split.
  - intros [[mid name] version] [Hname Hmid]. unfold safely, metadata_ok.
    cbn [fst snd rm_entry rm_global_pointer rm_module_id md_name md_variant] in *.
    split_and!; try done; apply Ho.
Qed.

(** *** Sections and symbols *)

Lemma section_headers_ok at_ n :
  0 <= at_ -> safely (Forall section_ok) (Parser.section_headers p at_ n).
Proof.
  revert at_. induction n as [|n IH]; intros at_ Ha; cbn [Parser.section_headers]; [by constructor|].
  do 7 (eapply safely_bind; [apply parser_u32_ok; lia|intros ? ?]).
  cbv beta in *. eapply (safely_bind (fun _ => True)).
  { case_match; [done|]. eapply safely_mono; [apply cut_ok; lia|done]. }
  intros _ _. case_match; [done|].
  eapply safely_bind; [apply IH; unfold SECTION_HEADER_SIZE; lia|].
  intros rest Hr. constructor; [by split|done].
Qed.

Lemma symbol_entries_ok count o symbols strings at_ n :
  bytes_ok symbols -> len symbols < 2 ^ 64 -> 0 <= at_ -> at_ + 16 * Z.of_nat n <= len symbols ->
  safely (fun _ => True) (Parser.validate_symbol_entries p count o symbols strings at_ n).
Proof.
  intros Hs Hl. revert at_. induction n as [|n IH]; intros at_ Ha Hle; [done|].
  cbn [Parser.validate_symbol_entries]. unfold SYMBOL_SIZE.
  rewrite get_range_in by lia. cbn [expect obind].
  pose proof (len_sub symbols at_ (at_ + 16) ltac:(lia) ltac:(lia)) as El.
  do 2 (eapply safely_bind;
    [apply safely_expect_read; [by apply Forall_sub|lia|lia|rewrite El; lia|rewrite El; lia]|intros ? [? ?]]).
  eapply (safely_bind (fun _ => True)).
  { destruct (Z.leb_spec (len strings) a) as [|Hn]; [done|]. case_match; [done|].
    by rewrite slice_in by lia. }
  intros ? _. case_match; [done|]. apply IH; lia.
Qed.

Lemma validate_symbols_ok sections index rest :
  Forall section_ok sections -> Forall section_ok rest ->
  safely (fun _ => True) (Parser.validate_symbols_from p sections index rest).
Proof.
  intros Hs Hr. revert index. induction Hr as [|s rest [H1 H2] Hr IH]; intros index; [done|].
  cbn [Parser.validate_symbols_from]. case_match; [by apply IH|].
  destruct (sections !! _) as [strings|] eqn:Es; [|done].
  pose proof (Forall_lookup_1 _ _ _ _ Hs Es) as [H3 H4].
  case_match; [done|]. case_match; [by apply IH|].
  eapply safely_bind; [apply cut_ok; lia|]. intros symbols (_ & _ & El & Hb).
  eapply safely_bind; [apply cut_ok; lia|]. intros text _.
  eapply safely_bind; [|by intros _ _; apply IH].
  apply symbol_entries_ok; [done|rewrite El; lia|lia|].
  unfold SYMBOL_SIZE. pose proof (Z.div_pos (len symbols) 16 ltac:(lia) ltac:(lia)).
  pose proof (Z.mul_div_le (len symbols) 16). lia.
Qed.

(** *** Relocations *)

Lemma paired_entry_ok s data at_ low :
  bytes_ok data -> len data < 2 ^ 64 -> 0 <= at_ -> safely (in_u 32) (Parser.paired_entry p s data at_ low).
Proof.
  intros Hd Hl Ha. unfold Parser.paired_entry, REL_SIZE.
  eapply safely_bind; [by apply safely_ok_or; intros x Hx; exact Hx|].
  intros next Hn. pose proof (len_get_range data (at_ + 8) (at_ + 2 * 8) next ltac:(lia) Hn) as El.
  apply get_range_some in Hn as (_ & _ & En).
  assert (bytes_ok next) as Hb by (rewrite En; by apply Forall_sub).
  eapply safely_bind; [apply safely_expect_read; [exact Hb|lia|lia|lia|lia]|]. intros info _.
  case_match; [done|]. eapply safely_mono; [apply safely_expect_read; [exact Hb|lia|lia|lia|lia]|].
  by intros v [Hv _].
Qed.

Lemma relocation_kind_ok s data size pref at_ kind o :
  bytes_ok data -> len data < 2 ^ 64 -> 0 <= at_ -> size < 2 ^ 64 -> word_at pref size o ->
  safely (fun k => relocation_ok pref size (mkRelocation o k.1 (sh_offset s + at_)))
    (Parser.relocation_kind p s data size pref at_ kind).
Proof.
  intros Hd Hl Ha Hs Ho. unfold Parser.relocation_kind.
  repeat case_match; try done; cbn.
  all: eapply safely_bind; [by apply paired_entry_ok|]; intros v Hv.
  - eapply safely_bind; [apply safely_ok_or; intros x Hx; exact Hx|]. intros low Hlow.
    apply word_offset_some in Hlow as (-> & L0 & L1 & L2); [|done]. by split.
  - by split.
Qed.

Lemma relocation_entries_ok sections s data size pref count fuel index output :
  bytes_ok data -> len data < 2 ^ 64 -> len data = count * REL_SIZE -> 0 <= index -> size < 2 ^ 64 ->
  count <= index + Z.of_nat fuel -> Forall (relocation_ok pref size) output ->
  safely (Forall (relocation_ok pref size))
    (Parser.relocation_entries p sections s data size pref count fuel index output).
Proof.
  unfold REL_SIZE. intros Hd Hl Elen. revert index output.
  induction fuel as [|fuel IH]; intros index output Hi Hs Hf Ho; cbn [Parser.relocation_entries].
  { rewrite (proj2 (Z.leb_le _ _)) by lia. done. }
  destruct (Z.leb_spec count index); [done|]. unfold REL_SIZE.
  do 2 (eapply safely_bind; [apply safely_expect_read; [exact Hd|lia|lia|lia|lia]|intros ? [? ?]]).
  case_match.
  { unfold Parser.validate_relocation_symbol.
    eapply (safely_bind (fun _ => True)); [|done].
    eapply safely_bind; [by apply safely_ok_or; intros x Hx; exact Hx|]. intros t _. by case_match. }
  case_match; [apply IH; [lia|done|lia|done]|].
  eapply safely_bind; [by apply safely_ok_or; intros x Hx; exact Hx|]. intros w Hw.
  apply word_offset_some in Hw as (-> & W0 & W1 & W2); [|done].
  eapply safely_bind; [apply relocation_kind_ok; [done|done|lia|done|done]|].
  intros [k consumed] Hk. apply IH; [destruct consumed; lia|done|destruct consumed; lia|].
  apply Forall_app. split; [done|]. by apply Forall_singleton.
Qed.

Lemma relocations_from_ok sections variant size pref rest output :
  Forall section_ok rest -> size < 2 ^ 64 -> Forall (relocation_ok pref size) output ->
  safely (fun r => Forall (relocation_ok pref size) r /\
                   (is_relocatable variant = false -> r = output))
    (Parser.relocations_from p sections variant size pref rest output).
Proof.
  intros Hr Hs. revert output. induction Hr as [|s rest [H1 H2] Hr IH]; intros output Ho; [done|].
  cbn [Parser.relocations_from]. case_match; [by apply IH|].
  destruct (is_relocatable variant) eqn:Ev; cbn [negb]; [|done]. case_match; [done|]. case_match; [done|].
  eapply safely_bind; [by apply safely_ok_or; intros x Hx; exact Hx|].
  intros remaining [-> Hle]%checked_sub_u_Some.
  set (count := Z.min _ _ / REL_SIZE).
  assert (0 <= count /\ count * REL_SIZE <= len (p_input p)) as [Hc0 Hc1].
  { unfold count, REL_SIZE. pose proof (len_nonneg (p_input p)).
    split; [apply Z.div_pos; lia|].
    pose proof (Z.mul_div_le (Z.min (len (p_input p) - sh_offset s) (sh_size s)) 8). lia. }
  eapply safely_bind; [apply cut_ok; unfold REL_SIZE in *; lia|]. intros data (_ & _ & El & Hb).
  eapply safely_bind; [apply relocation_entries_ok; try done; lia|]. intros out Hout.
  eapply safely_mono; [by apply IH|]. intros r [Hr' _]. by split.
Qed.

(** ** The whole parser *)

Lemma identify_ok : safely (fun _ => 52 <= len (p_input p)) (Parser.identify p).
Proof.
  unfold Parser.identify. case_match; [done|].
  eapply safely_bind; [by apply safely_ok_or; intros x Hx; exact Hx|]. intros ident Hident.
  apply len_get_range in Hident; [|done]. rewrite slice_in by lia. cbn [obind].
  case_match; [done|]. destruct (Z.ltb_spec (len (p_input p)) ELF_HEADER_SIZE); [done|].
  eapply safely_bind; [by apply parser_u16_ok|]. intros ty _.
  eapply (safely_bind (fun _ => True)); [by repeat case_match|]. intros variant _.
  eapply safely_bind; [by apply parser_u16_ok|]. intros machine _. case_match; [done|].
  eapply safely_bind; [by apply parser_u32_ok|]. intros version _. case_match; [done|].
  eapply safely_bind; [by apply parser_u16_ok|]. intros ehsize _. by case_match.
Qed.

Lemma tables_ok : safely (fun '(phoff, _, (shoff, _)) => 0 <= phoff /\ 0 <= shoff) (Parser.tables p).
Proof.
  unfold Parser.tables.
  eapply safely_bind; [by apply parser_u32_ok|]. intros phoff [? ?].
  eapply safely_bind; [by apply parser_u32_ok|]. intros shoff [? ?].
  do 4 (eapply safely_bind; [by apply parser_u16_ok|]; intros ? ?).
  case_match; [done|]. case_match; [done|].
  unfold PROGRAM_HEADER_SIZE, SECTION_HEADER_SIZE. cbv beta in *.
  eapply safely_bind; [apply table_ok; lia|]. intros _ _. case_match; [done|].
  case_match; [by case_match|]. case_match; [done|].
  eapply safely_bind; [apply table_ok; lia|]. done.
Qed.

Lemma alignment_ok loads :
  Forall load_ok loads ->
  foldr Z.max 1 (map alignment loads) < 2 ^ 32 /\
  is_power_of_two (foldr Z.max 1 (map alignment loads)) = true /\
  Forall (fun r => lr_alignment r <= foldr Z.max 1 (map alignment loads)) (map Parser.load_range loads).
Proof.
  intros Hl. destruct (foldr_max_spec 1 (map alignment loads)) as (H1 & H2 & H3).
  split_and!; [| |by rewrite Forall_map in H2 |- *].
  all: destruct H3 as [->|H3]; [done|]; apply list_elem_of_fmap in H3 as (h & E & Hin).
  all: rewrite E in *; rewrite Forall_forall in Hl; destruct (Hl h Hin) as [Hh Hr].
  { apply Hh. }
  destruct (range_aligned _ _ _ Hr) as [E0|[Hp _]]; [|done].
  cbn in E0. lia.
Qed.

Lemma parse_ok :
  safely (fun m => well_formed (p_input p) m /\ m_limits m = p_limits p /\ m_origin m = p_origin p)
    (Parser.parse p).
Proof.
  unfold Parser.parse. eapply safely_bind; [apply identify_ok|]. intros variant _.
  eapply safely_bind; [by apply parser_u32_ok|]. intros elf_entry _.
  eapply safely_bind; [apply tables_ok|]. intros [[phoff phnum] [shoff shnum]] [Hp Hs].
  eapply safely_bind; [by apply program_headers_ok|]. intros headers Hh.
  destruct (List.filter (fun h => ph_kind h =? PT_SCE_IOPMOD) headers) as [|meta [|? ?]] eqn:Em; try done.
  set (loads := Parser.sort_headers _).
  assert (Forall header_ok loads) as Hl.
  { unfold loads. rewrite sort_headers_perm. rewrite !List.Forall_forall in *.
    intros x [Hx _]%filter_In. by apply Hh. }
  assert (header_ok meta) as Hm.
  { rewrite List.Forall_forall in Hh. apply Hh.
    eapply proj1, filter_In. rewrite Em. by left. }
  destruct loads as [|h0 loads0] eqn:El; [done|]. rewrite <- El in *.
  eapply safely_bind; [apply stage_image_ok; [done|by rewrite El]|].
  intros [pref img] (L & S & F & I & Hmax & H0 & Hend & Hrel). cbn [fst snd] in *.
  pose proof (len_nonneg img) as Himg.
  eapply safely_bind; [apply module_metadata_ok; [done|by destruct I|lia]|].
  intros [raw descr] (He & Hg & Hid & Hn & Hv). cbn [fst snd] in *.
  eapply safely_bind; [by apply section_headers_ok|]. intros sections Hsec.
  eapply safely_bind; [by apply validate_symbols_ok|]. intros _ _.
  eapply safely_bind; [apply relocations_from_ok; [done|lia|constructor]|].
  intros relocs [Hrel1 Hrel2]. pose proof (alignment_ok loads L) as (Hal0 & Hal1 & Hal2).
  split; [|done]. constructor; cbn; try done.
  - apply Forall_map. eapply Forall_impl; [exact L|]. by intros h [_ Hr].
  - by rewrite El.
  - by apply Forall_map.
  - rewrite Hv. destruct (is_relocatable variant); auto.
Qed.
End parser.

(** C20: Parsing an IOP module never panics, whatever its bytes, and what it accepts is
    well formed: the image is the file bytes of the loadable segments over zeroes; the
    segments are disjoint, ascending, inside the file and the image, and aligned; every
    relocation and its partner is an aligned word of the image; the entry point is an
    aligned address of it and the name is printable and short enough; and a module with a
    fixed address has no relocations. *)
Theorem irx_parse_safe origin input limits :
  bytes_ok input -> len input < 2 ^ 63 -> limits_ok limits ->
  safely (fun m => well_formed input m /\ m_limits m = limits /\ m_origin m = origin)
    (IrxModule.parse_with_limits origin input limits).
Proof. intros Hb Hl Hlim. by apply (parse_ok (mkParser origin input limits)). Qed.

(** ** A module with a relocated address pair, an export table and an import table *)

Definition words (l : list Z) : list Z := concat (map (le_bytes 4) l).

Definition sample_image : list Z :=
  words [0x3c020001; 0x24428000] ++
  words [EXPORT_MAGIC; 0; 0x0101] ++ str "mylib" ++ [0; 0; 0] ++ words [4; 0] ++
  words [IMPORT_MAGIC; 0; 0x0102] ++ str "stdio" ++ [0; 0; 0] ++
  words [0x03e00008; 0x24000004; 0; 0].

Definition sample_metadata : list Z :=
  words [2 ^ 32 - 1; 0; 0x10; 8; 64; 4] ++ le_bytes 2 0x0102 ++ str "demo" ++ [0; 0].

Definition sample_relocations : list Z := words [0; 5; 4; 6; 28; 2].

Definition sample_irx : list Z :=
  0x7f :: str "ELF" ++ [1; 1; 1] ++ replicate 9 0 ++
  le_bytes 2 0xff80 ++ le_bytes 2 8 ++ words [1; 0; 52; 116; 0] ++
  concat (map (le_bytes 2) [52; 32; 2; 40; 2; 0]) ++
  words [PT_SCE_IOPMOD; 196; 0; 0; 32; 32; 0; 0] ++
  words [PT_LOAD; 228; 0; 0; 72; 76; 7; 16] ++
  replicate 40 0 ++ words [0; SHT_REL; 0; 0; 300; 24; 0; 0; 4; 8] ++
  sample_metadata ++ sample_image ++ sample_relocations.

Lemma sample_bytes : bytes_ok sample_irx /\ len sample_irx < 2 ^ 63.
Proof.
  split; [|by vm_compute].
  assert (forallb (fun b => (0 <=? b) && (b <? 2 ^ 8)) sample_irx = true) as Ef by by vm_compute.
  rewrite forallb_forall in Ef. apply List.Forall_forall. intros x Hx%Ef.
  apply andb_true_iff in Hx as [H0%Z.leb_le H1%Z.ltb_lt]. by split.
Qed.

Lemma default_irx_limits_ok : limits_ok default_irx_limits.
Proof. by repeat split. Qed.

Definition sample_module : option IrxModule :=
  match IrxModule.parse (str "demo.irx") sample_irx with Ok m => Some m | _ => None end.

Lemma irx_parse_safe_witness :
  exists m, IrxModule.parse (str "demo.irx") sample_irx = Ok m /\ well_formed sample_irx m /\
    image m = sample_image ++ [0; 0; 0; 0] /\ md_name (description m) = str "demo" /\
    length (relocations m) = 3%nat.
Proof.
  destruct sample_bytes as [Hb Hl].
  pose proof (irx_parse_safe (str "demo.irx") sample_irx default_irx_limits Hb Hl
    default_irx_limits_ok) as H.
  unfold IrxModule.parse.
  assert (from_option (fun m => bool_decide (image m = sample_image ++ [0; 0; 0; 0] /\
      md_name (description m) = str "demo" /\ length (relocations m) = 3%nat)) false
    sample_module = true) as E by by vm_compute.
  unfold sample_module, IrxModule.parse in E.
  destruct (IrxModule.parse_with_limits _ _ _) as [m| |]; [|discriminate E|discriminate E].
  exists m. destruct H as [Hw _]. apply bool_decide_eq_true in E. split; [reflexivity|].
  split; [exact Hw|exact E].
Defined.
