(* ===== verification/IrxLoadFacts.v ===== *)
(** * What loading a module guarantees

    [load_into] never panics on a module the parser accepted: it relocates and scans a
    staged copy, and then makes one write of the whole image inside the target's range, or
    none.  A HI16/LO16 pair of instructions that spells an address spells it moved by
    [delta] afterwards. *)

From S2P Require Import Prelude MachineInt Records Buffer Slices PsfText Irx IrxFacts.

(** ** Words of an image *)

Lemma put_word_ok {Q} img a w :
  bytes_ok img -> 0 <= a -> a + 4 <= len img ->
  (forall img', splice img a (le_bytes 4 w) = Some img' -> len img' = len img -> bytes_ok img' -> Q img') ->
  safely Q (put_word img a w).
Proof.
  intros Hi H0 H1 HQ. unfold put_word.
  destruct (splice_in img a (le_bytes 4 w)) as [img' E]; [done|exact H1|].
  rewrite E. apply HQ; [done|by apply splice_some in E as (_ & _ & E & _)|].
  eapply splice_bytes; [exact Hi|apply le_bytes_u8|exact E].
Qed.

Lemma read_word img a :
  bytes_ok img -> len img < 2 ^ 64 -> 0 <= a -> a + 4 <= len img ->
  exists w, read_u32 img a = Some w /\ in_u 32 w.
Proof.
  intros Hi Hl H0 H1. eexists. split; [by apply (read_le_in 4)|].
  by eapply (read_le_range 4 img a); [|done|apply read_le_in].
Qed.

Lemma put_word_read img a w img' :
  in_u 32 w -> len img < 2 ^ 64 -> splice img a (le_bytes 4 w) = Some img' ->
  read_u32 img' a = Some w /\
  forall b, 0 <= b -> b + 4 <= a \/ a + 4 <= b -> read_u32 img' b = read_u32 img b.
Proof.
  intros Hw Hl E. split; [by apply (read_le_splice 4 img a)|].
  intros b Hb Hd. eapply read_le_splice_other; [done|done|exact E|exact Hd].
Qed.

(** Replacing the low half of an instruction. *)
Lemma replace_low w v :
  in_u 32 w -> in_u 16 v -> (w .& 0xffff0000) .| v = w / 2 ^ 16 * 2 ^ 16 + v.
Proof.
  intros Hw Hv. replace 0xffff0000 with (bnot 32 (Z.ones 16)) by reflexivity.
  rewrite land_bnot, Z.ldiff_ones_r by (done || lia).
  rewrite lor_shiftl_add by (done || lia).
  rewrite Z.shiftr_div_pow2 by lia. lia.
Qed.

Lemma half_fields h v : in_u 16 v -> (h * 2 ^ 16 + v) mod 2 ^ 16 = v /\ (h * 2 ^ 16 + v) / 2 ^ 16 = h.
Proof.
  unfold in_u. intros Hv. rewrite Z.add_comm, Z.mod_add, Z.div_add, Z.mod_small, Z.div_small by lia. lia.
Qed.

Lemma land_low_half x : x .& 0xffff = x mod 2 ^ 16.
Proof. change 0xffff with (Z.ones 16). apply Z.land_ones. lia. Qed.

(** ** Relocation *)

Definition same_shape (img img' : list Z) : Prop := len img' = len img /\ bytes_ok img'.

Section relocation.
Variable origin : list Z.

Lemma sony_chain_ok source immediate fuel visited a img :
  bytes_ok img -> len img < 2 ^ 64 -> 0 <= a -> a + 4 <= len img ->
  0 <= visited -> visited + Z.of_nat fuel = len img / 4 + 2 -> visited <= len img / 4 + 1 ->
  safely (same_shape img) (sony_chain origin source immediate fuel visited a img).
Proof.
  revert visited a img. induction fuel as [|fuel IH]; intros visited a img Hi Hl H0 H1 Hv Hf Hm; [lia|].
  cbn [sony_chain]. destruct (read_word img a) as (w & -> & Hw); [done..|]. cbn [ok_or obind].
  eapply (safely_bind (same_shape img)).
  { apply put_word_ok; [done|done|done|]. by intros. }
  intros img1 [L1 B1]. rewrite L1. case_match eqn:E1; [done|]. case_match; [done|].
  eapply safely_bind; [apply safely_ok_or; intros x Hx; exact Hx|]. intros next Hn.
  apply bind_Some in Hn as (o & Ho & Hn). case_match eqn:E2; [|done]. injection Hn as ->.
  apply andb_true_iff in E2 as [_ E2].
  destruct (checked_add_u 64 next 4) as [e|] eqn:Ee; [|done]. apply checked_add_u_Some in Ee as [-> _].
  cbn in E2. zbool.
  assert (0 <= next) as Hn.
  { case_match; [by apply checked_sub_u_Some in Ho as [-> ?]; zbool; lia|].
    apply checked_add_u_Some in Ho as [-> _]. zbool. lia. }
  eapply safely_mono; [apply IH; try done; rewrite ?L1; lia|].
  intros img2 [L2 B2]. split; [lia|done].
Qed.

Lemma apply_sony_high_ok img a delta addend source :
  bytes_ok img -> len img < 2 ^ 64 -> 0 <= a -> a + 4 <= len img ->
  safely (same_shape img) (apply_sony_high origin img a delta addend source).
Proof.
  intros Hi Hl H0 H1. unfold apply_sony_high.
  eapply safely_bind; [apply safely_ok_or; intros x Hx; exact Hx|]. intros value _.
  pose proof (Z.div_pos (len img) 4 ltac:(lia) ltac:(lia)).
  apply sony_chain_ok; [done|done|done|done|lia|lia|lia].
Qed.

Lemma apply_relocation_ok img pref delta r :
  bytes_ok img -> len img < 2 ^ 64 -> relocation_ok pref (len img) r ->
  safely (same_shape img) (apply_relocation origin img pref delta r).
Proof.
  intros Hi Hl [(H0 & H1 & _) Hk]. unfold apply_relocation.
  rewrite (proj2 (image_offset_some _ _ _ (r_offset r - pref))) by lia. cbn [ok_or obind].
  destruct (read_word img (r_offset r - pref)) as (w & -> & Hw); [done..|]. cbn [ok_or obind].
  assert (forall v, safely (same_shape img) (put_word img (r_offset r - pref) v)) as Hput.
  { intros v. apply put_word_ok; [done|done|done|]. by intros. }
  destruct (r_kind r) as [| | |low| |addend].
  - case_match; [done|apply Hput].
  - eapply safely_bind; [apply safely_ok_or; intros x Hx; exact Hx|]. intros x _. apply Hput.
  - eapply safely_bind; [apply safely_ok_or; intros x Hx; exact Hx|]. intros x _.
    case_match; [done|apply Hput].
  - destruct Hk as (L0 & L1 & _).
    rewrite (proj2 (image_offset_some _ _ _ (low - pref))) by lia. cbn [ok_or obind].
    destruct (read_word img (low - pref)) as (w' & -> & _); [done..|]. cbn [ok_or obind].
    case_match; [done|apply Hput].
  - apply Hput.
  - by apply apply_sony_high_ok.
Qed.

Lemma apply_relocations_ok pref delta rs img :
  bytes_ok img -> len img < 2 ^ 64 -> Forall (relocation_ok pref (len img)) rs ->
  safely (same_shape img) (apply_relocations origin pref delta rs img).
Proof.
  revert img. induction rs as [|r rs IH]; intros img Hi Hl Hrs; [by split|].
  apply Forall_cons in Hrs as [Hr Hrs]. cbn [apply_relocations].
  eapply safely_bind; [by apply apply_relocation_ok|]. intros img1 [L1 B1].
  eapply safely_mono; [apply IH; [done|by rewrite L1|by rewrite L1]|].
  intros img2 [L2 B2]. split; [lia|done].
Qed.
End relocation.

(** ** The HI16/LO16 pair *)

(** The 32-bit address a LUI/ADDIU pair at the image offsets [hi] and [lo] computes. *)
Definition pair_address (img : list Z) (hi lo : Z) : option Z :=
  h ← read_u32 img hi; l ← read_u32 img lo;
  Some (wrap 32 (h mod 2 ^ 16 * 2 ^ 16 + to_i 16 (l mod 2 ^ 16))).

(** The upper halves of both instructions and every other word. *)
Definition keeps_opcodes (img img' : list Z) (hi lo : Z) : Prop :=
  (forall o w w', o = hi \/ o = lo -> read_u32 img o = Some w -> read_u32 img' o = Some w' ->
     w' / 2 ^ 16 = w / 2 ^ 16) /\
  forall o, 0 <= o -> o + 4 <= hi \/ hi + 4 <= o -> o + 4 <= lo \/ lo + 4 <= o ->
    read_u32 img' o = read_u32 img o.

(** Splitting an address for an instruction pair that sign-extends the low half. *)
Lemma split_address v :
  in_u 32 v ->
  wrap 32 (Z.shiftr (wrap 32 (v + 0x8000)) 16 mod 2 ^ 16 * 2 ^ 16 + to_i 16 (v mod 2 ^ 16)) = v.
Proof.
  unfold in_u, wrap, to_i. intros Hv. rewrite Z.shiftr_div_pow2 by lia.
  change (2 ^ (16 - 1)) with 32768. change (2 ^ 32) with 4294967296 in *. change (2 ^ 16) with 65536.
  destruct (Z.ltb_spec (v mod 65536) 32768).
  - rewrite (Z.mod_small (v + 32768)) by (Z.to_euclidean_division_equations; lia).
    Z.to_euclidean_division_equations. lia.
  - Z.to_euclidean_division_equations. lia.
Qed.

Lemma low_sum w h delta :
  in_u 32 w ->
  wrap 32 (w + delta) .& 0xffff = (delta + (h * 2 ^ 16 + to_i 16 (w mod 2 ^ 16))) mod 2 ^ 16.
Proof.
  unfold in_u, wrap, to_i. intros Hw. rewrite land_low_half.
  rewrite Z.mod_mod_divide by (exists (2 ^ 16); reflexivity).
  change (2 ^ (16 - 1)) with 32768. change (2 ^ 16) with 65536.
  pose proof (Z.div_mod w 65536 ltac:(lia)) as E. destruct (_ <? _).
  - replace (delta + _) with (w + delta + (h - w / 65536) * 65536) by lia. by rewrite Z_mod_plus_full.
  - replace (delta + _) with (w + delta + (h - w / 65536 - 1) * 65536) by lia. by rewrite Z_mod_plus_full.
Qed.

Section pair.
Context (origin : list Z) (pref delta hi lo s1 s2 : Z).

Definition pair_relocations : list Relocation :=
  [mkRelocation hi (High lo) s1; mkRelocation lo Low s2].

(** C25: A HI16 relocation and the LO16 that follows it move an address: if two
    instructions of the image spell an address with a high and a sign-extended low half,
    then after the pair they spell that address plus the load base, with the opcodes and
    every other word untouched; the only refusal is a sum before zero or past thirty-two
    bits, and nothing panics. *)
Theorem hi_lo_pair_relocated img :
  bytes_ok img -> len img < 2 ^ 32 -> 0 <= delta < 2 ^ 32 ->
  word_at pref (len img) hi -> word_at pref (len img) lo -> hi <> lo ->
  exists h l,
    read_u32 img (hi - pref) = Some h /\ read_u32 img (lo - pref) = Some l /\
    let target := delta + (h mod 2 ^ 16 * 2 ^ 16 + to_i 16 (l mod 2 ^ 16)) in
    match apply_relocations origin pref delta pair_relocations img with
    | Ok img' => in_u 32 target /\ len img' = len img /\
        pair_address img' (hi - pref) (lo - pref) = Some target /\
        keeps_opcodes img img' (hi - pref) (lo - pref)
    | Err e => ~ in_u 32 target /\ ie_kind e = RelocationOverflow
    | Panic => False
    end.
Proof.
  intros Hi Hl Hd (A0 & A1 & A2) (B0 & B1 & B2) Hne.
  destruct (read_word img (hi - pref)) as (h & Eh & Hh); [done|lia|done|done|].
  destruct (read_word img (lo - pref)) as (l & El & Hlo); [done|lia|done|done|].
  exists h, l. split; [done|]. split; [done|]. intros target.
  unfold pair_relocations. cbn [apply_relocations].
  unfold apply_relocation at 1. cbn [r_offset r_kind r_source_offset].
  rewrite (proj2 (image_offset_some _ _ _ (hi - pref))) by lia. cbn [ok_or obind].
  rewrite Eh. cbn [ok_or obind].
  rewrite (proj2 (image_offset_some _ _ _ (lo - pref))) by lia. cbn [ok_or obind].
  rewrite El. cbn [ok_or obind].
  assert (delta + (shl 32 (h .& 0xffff) 16 + to_i 16 (wrap 16 l)) = target) as ->.
  { unfold target. rewrite land_low_half. unfold shl. rewrite Z.shiftl_mul_pow2 by lia.
    rewrite wrap_id; [done|]. pose proof (Z.mod_pos_bound h (2 ^ 16)).
    unfold in_u. change (2 ^ 32) with (2 ^ 16 * 2 ^ 16). nia. }
  destruct (negb _) eqn:Eo.
  { split; [|done]. unfold in_u. intros Hu. apply negb_true_iff, andb_false_iff in Eo as [?|?]; zbool; lia. }
  apply negb_false_iff in Eo. zbool. assert (in_u 32 target) as Ht by (unfold in_u; lia).
  rewrite (wrap_id 32 target Ht). set (imm := Z.shiftr _ 16).
  assert (in_u 16 (imm .& 0xffff)) as Himm by (rewrite land_low_half; apply Z.mod_pos_bound; lia).
  rewrite replace_low by done. set (h' := h / 2 ^ 16 * 2 ^ 16 + imm .& 0xffff).
  assert (in_u 32 h') as Hh'.
  { unfold h', in_u in *. change (2 ^ 32) with (2 ^ 16 * 2 ^ 16) in *.
    pose proof (Z.div_pos h (2 ^ 16)). pose proof (Z.div_lt_upper_bound h (2 ^ 16) (2 ^ 16)). nia. }
  unfold put_word. destruct (splice_in img (hi - pref) (le_bytes 4 h')) as [img1 E1]; [done|exact A1|].
  rewrite E1. cbn [expect obind].
  assert (len img1 = len img) as L1 by by apply splice_some in E1 as (_ & _ & ? & _).
  destruct (put_word_read img (hi - pref) h' img1) as [R1 O1]; [done|lia|done|].
  unfold apply_relocation. cbn [r_offset r_kind r_source_offset]. rewrite L1.
  rewrite (proj2 (image_offset_some _ _ _ (lo - pref))) by lia. cbn [ok_or obind].
  assert (lo - pref + 4 <= hi - pref \/ hi - pref + 4 <= lo - pref) as Hdis.
  { Z.to_euclidean_division_equations. lia. }
  rewrite O1, El by (lia || tauto). cbn [ok_or obind].
  rewrite (low_sum l (h mod 2 ^ 16) delta Hlo). fold target.
  rewrite replace_low by (done || apply Z.mod_pos_bound; lia).
  set (l' := l / 2 ^ 16 * 2 ^ 16 + target mod 2 ^ 16).
  assert (in_u 32 l') as Hl'.
  { unfold l', in_u in *. change (2 ^ 32) with (2 ^ 16 * 2 ^ 16) in *.
    pose proof (Z.mod_pos_bound target (2 ^ 16)).
    pose proof (Z.div_pos l (2 ^ 16)). pose proof (Z.div_lt_upper_bound l (2 ^ 16) (2 ^ 16)). nia. }
  unfold put_word. destruct (splice_in img1 (lo - pref) (le_bytes 4 l')) as [img2 E2];
    [done|rewrite L1; exact B1|].
  rewrite E2. cbn [expect obind].
  assert (len img2 = len img1) as L2 by by apply splice_some in E2 as (_ & _ & ? & _).
  destruct (put_word_read img1 (lo - pref) l' img2) as [R2 O2]; [done|lia|done|].
  assert (read_u32 img2 (hi - pref) = Some h') as R2h.
  { rewrite O2; [done|done|]. destruct Hdis; [right|left]; lia. }
  split; [done|]. split; [lia|]. split; [|split].
  - unfold pair_address. rewrite R2h. cbn [mbind option_bind]. rewrite R2. cbn [mbind option_bind].
    f_equal. unfold h', l'. destruct (half_fields (h / 2 ^ 16) (imm .& 0xffff)) as [-> _]; [done|].
    destruct (half_fields (l / 2 ^ 16) (target mod 2 ^ 16)) as [-> _]; [apply Z.mod_pos_bound; lia|].
    rewrite land_low_half. apply split_address. done.
  - intros o w w' [->| ->] Ew Ew'.
    + rewrite Eh in Ew. rewrite R2h in Ew'. injection Ew as <-. injection Ew' as <-.
      by apply half_fields.
    + rewrite El in Ew. rewrite R2 in Ew'. injection Ew as <-. injection Ew' as <-.
      apply half_fields. apply Z.mod_pos_bound. lia.
  - intros o Ho Dh Dl. rewrite O2, O1 by done. done.
Qed.
End pair.

(** ** Link tables *)

(** A stub the scan reports: a JR-RA and ordinal pair of the image, at its address. *)
Definition stub_in (img : list Z) (address : Z) (s : ImportStub) : Prop :=
  exists o w, 0 <= o /\ o + 8 <= len img /\ stub_address s = address + o /\
    read_u32 img o = Some 0x03e00008 /\ read_u32 img (o + 4) = Some w /\ ordinal s = w mod 2 ^ 16.

(** An exported function: a nonzero word of the image that points into the allocation. *)
Definition function_in (img : list Z) (address f : Z) : Prop :=
  address <= f /\ f + 4 <= address + len img /\ exists o, 0 <= o /\ read_u32 img o = Some f.

Definition table_in (img : list Z) (address a magic : Z) : Prop :=
  exists o, 0 <= o /\ o + 20 <= len img /\ a = address + o /\ read_u32 img o = Some magic.

Definition import_in (img : list Z) (address : Z) (t : ImportLibrary) : Prop :=
  table_in img address (im_table_address t) IMPORT_MAGIC /\ Forall (stub_in img address) (stubs t).

Definition export_in (img : list Z) (address : Z) (t : ExportLibrary) : Prop :=
  table_in img address (ex_table_address t) EXPORT_MAGIC /\
  Forall (function_in img address) (functions t).

(** The number of stubs and functions of all tables. *)
Definition link_entries (is_ : list ImportLibrary) (es : list ExportLibrary) : Z :=
  Z.of_nat (length (concat (map stubs is_)) + length (concat (map functions es))).

Lemma contains_spec r a n :
  MemoryRange.contains r a n = true -> 0 <= n -> mr_start r <= a /\ a + n <= mr_end r /\ a + n < 2 ^ 32.
Proof.
  unfold MemoryRange.contains. destruct (_ ≫= _) as [e|] eqn:E; [|done].
  apply bind_Some in E as (x & [-> _]%try_from_u_Some & [-> ?]%checked_add_u_Some).
  intros Hc Hn. zbool. done.
Qed.

Section links.
Context (origin img : list Z) (address : Z) (limits : IrxLimits)
  (img_bytes : bytes_ok img) (img_len : address + len img < 2 ^ 32) (Haddress : 0 <= address).

Let img_small : len img < 2 ^ 64.
Proof. lia. Qed.

Lemma import_stubs_ok fuel cursor entries stubs :
  0 <= cursor -> len img < cursor + Z.of_nat fuel -> (0 < fuel)%nat -> Forall (stub_in img address) stubs ->
  safely (fun r => Forall (stub_in img address) r.1 /\
      Z.of_nat (length r.1) - r.2 = Z.of_nat (length stubs) - entries /\
      (entries <= max_link_entries limits -> r.2 <= max_link_entries limits))
    (import_stubs origin img address limits fuel cursor entries stubs).
Proof using img_bytes img_len Haddress.
  pose proof img_small as Hs.
  revert cursor entries stubs. induction fuel as [|fuel IH]; intros cursor entries stubs Hc Hf Hp Hst; [lia|].
  cbn [import_stubs]. eapply safely_bind; [apply safely_ok_or; intros x Hx; exact Hx|].
  intros stub Hstub. pose proof (len_get_range _ _ _ _ Hc Hstub) as El.
  apply get_range_some in Hstub as (_ & Hle & Es).
  assert (bytes_ok stub) as Hb by (rewrite Es; by apply Forall_sub).
  eapply safely_bind; [apply safely_expect_read; [exact Hb|lia|lia|lia|lia]|]. intros jump [_ Ej].
  eapply safely_bind; [apply safely_expect_read; [exact Hb|lia|lia|lia|lia]|]. intros ow [How Eo].
  assert (forall k, 0 <= k -> k + 4 <= 8 -> read_le 4 stub k = read_u32 img (cursor + k)) as Hread.
  { intros k H0 H1. unfold read_u32. rewrite !read_le_in by lia. do 2 f_equal.
    apply list_eq_at; rewrite !len_sub by lia; [lia|]. intros i Hi. rewrite !lookup_sub by lia.
    rewrite Es, lookup_sub by lia. f_equal. lia. }
  rewrite Hread in Ej by lia. rewrite Hread in Eo by lia. rewrite Z.add_0_r in Ej.
  destruct ((jump =? 0) && _); [by split_and!|].
  destruct (negb (jump =? _) || _) eqn:E2; [done|]. zbool. subst jump.
  eapply safely_bind; [apply safely_ok_or; intros x Hx; exact Hx|]. intros n [-> _]%checked_add_u_Some.
  destruct (Z.ltb_spec (max_link_entries limits) (entries + 1)); [done|].
  eapply safely_bind; [apply safely_ok_or; intros x Hx; exact Hx|]. intros a [-> _]%checked_add_u_Some.
  rewrite (wrap_id 32 cursor) by (unfold in_u; lia).
  eapply safely_mono; [apply IH; [lia|lia|lia|]|].
  - apply Forall_app. split; [done|]. apply Forall_singleton. exists cursor, ow. split_and!; try done; lia.
  - intros r (R1 & R2 & R3). split_and!; [done|rewrite length_app in R2; cbn [length] in R2; lia|].
    intros _. apply R3. lia.
Qed.

Lemma export_functions_ok fuel cursor entries functions :
  0 <= cursor -> len img < cursor + Z.of_nat fuel -> (0 < fuel)%nat ->
  Forall (function_in img address) functions ->
  safely (fun r => Forall (function_in img address) r.1 /\
      Z.of_nat (length r.1) - r.2 = Z.of_nat (length functions) - entries /\
      (entries <= max_link_entries limits -> r.2 <= max_link_entries limits))
    (export_functions origin img address limits (address + len img) fuel cursor entries functions).
Proof using img_bytes img_len Haddress.
  pose proof img_small as Hs.
  revert cursor entries functions. induction fuel as [|fuel IH]; intros cursor entries fs Hc Hf Hp Hst; [lia|].
  cbn [export_functions]. eapply safely_bind; [apply safely_ok_or; intros x Hx; exact Hx|].
  intros f Ef. case_match; [by split_and!|].
  destruct (negb _) eqn:Ec; [done|]. apply negb_false_iff in Ec.
  apply contains_spec in Ec as (C1 & C2 & _); [|lia]. cbn in C1, C2.
  pose proof (read_le_some 4 img cursor f Ef) as (_ & _ & Hle & _).
  eapply safely_bind; [apply safely_ok_or; intros x Hx; exact Hx|]. intros n [-> _]%checked_add_u_Some.
  destruct (Z.ltb_spec (max_link_entries limits) (entries + 1)); [done|].
  eapply safely_mono; [apply IH; [lia|lia|lia|]|].
  - apply Forall_app. split; [done|]. apply Forall_singleton. split_and!; [done|done|by exists cursor].
  - intros r (R1 & R2 & R3). split_and!; [done|rewrite length_app in R2; cbn [length] in R2; lia|].
    intros _. apply R3. lia.
Qed.

(** The tables found so far. *)
Record tables_ok (t : LinkTables) : Prop := {
  tables_imports : Forall (import_in img address) (lt_imports t);
  tables_exports : Forall (export_in img address) (lt_exports t);
  tables_count : Z.of_nat (length (lt_imports t) + length (lt_exports t)) <= max_link_tables limits;
  tables_entries : lt_entries t = link_entries (lt_imports t) (lt_exports t);
  tables_limit : lt_entries t <= max_link_entries limits;
}.

Lemma link_entries_import is_ es t :
  link_entries (is_ ++ [t]) es = link_entries is_ es + Z.of_nat (length (stubs t)).
Proof. unfold link_entries. rewrite map_app, concat_app. cbn. rewrite app_nil_r, length_app. lia. Qed.

Lemma link_entries_export is_ es t :
  link_entries is_ (es ++ [t]) = link_entries is_ es + Z.of_nat (length (functions t)).
Proof. unfold link_entries. rewrite map_app, concat_app. cbn. rewrite app_nil_r, length_app. lia. Qed.

Lemma link_table_at_ok a t :
  0 <= a -> a + 4 <= len img -> tables_ok t ->
  safely tables_ok (link_table_at origin img address limits (address + len img) a t).
Proof using img_bytes img_len Haddress.
  intros H0 H1 [T1 T2 T3 T4 T5]. unfold link_table_at.
  destruct (read_word img a) as (magic & Em & _); [done|lia|done|done|]. rewrite Em. cbn [expect obind].
  destruct (negb (magic =? IMPORT_MAGIC) && _) eqn:E0; [done|].
  destruct (Z.leb_spec (max_link_tables limits) (Z.of_nat (length (lt_imports t) + length (lt_exports t))));
    [done|].
  eapply safely_bind; [apply safely_ok_or; intros x Hx; exact Hx|]. intros header Hh.
  pose proof (len_get_range _ _ _ _ H0 Hh) as El. apply get_range_some in Hh as (_ & Hle & Eh).
  assert (bytes_ok header) as Hb by (rewrite Eh; by apply Forall_sub).
  case_match; [done|].
  do 2 (eapply safely_bind; [apply safely_expect_read; [exact Hb|lia|lia|lia|lia]|intros ? _]).
  rewrite slice_in by lia. cbn [obind].
  eapply safely_bind; [apply safely_ok_or; intros x Hx; exact Hx|]. intros name _.
  eapply safely_bind; [apply safely_ok_or; intros x Hx; exact Hx|]. intros ta [-> _]%checked_add_u_Some.
  rewrite (wrap_id 32 a) by (unfold in_u; lia).
  assert (forall m, magic = m -> table_in img address (address + a) m) as Ht.
  { intros m <-. exists a. split_and!; [done|lia|lia|done]. }
  destruct (Z.eqb_spec magic IMPORT_MAGIC) as [Ei|Ei].
  - eapply safely_bind.
    { apply (import_stubs_ok _ (a + 20) (lt_entries t) []); [lia|unfold len; lia|lia|constructor]. }
    intros [ss n] (S1 & S2 & S3). cbn [fst snd length] in *.
    split; cbn [lt_imports lt_exports lt_entries].
    + apply Forall_app. split; [done|]. apply Forall_singleton. split; [by apply Ht|done].
    + done.
    + rewrite length_app. cbn [length]. lia.
    + rewrite link_entries_import, <- T4. cbn [stubs]. lia.
    + by apply S3.
  - cbn [negb andb] in E0. zbool.
    eapply safely_bind.
    { apply (export_functions_ok _ (a + 20) (lt_entries t) []); [lia|unfold len; lia|lia|constructor]. }
    intros [fs n] (S1 & S2 & S3). cbn [fst snd length] in *.
    split; cbn [lt_imports lt_exports lt_entries].
    + done.
    + apply Forall_app. split; [done|]. apply Forall_singleton. split; [by apply Ht|done].
    + rewrite length_app. cbn [length]. lia.
    + rewrite link_entries_export, <- T4. cbn [functions]. lia.
    + by apply S3.
Qed.

Lemma scan_words_ok a n t :
  0 <= a -> a + 4 * Z.of_nat n <= len img -> tables_ok t ->
  safely tables_ok (scan_words origin img address limits (address + len img) a n t).
Proof using img_bytes img_len Haddress.
  revert a t. induction n as [|n IH]; intros a t H0 H1 Ht; [done|]. cbn [scan_words].
  eapply safely_bind; [apply link_table_at_ok; [done|lia|done]|]. intros t' Ht'. apply IH; [lia|lia|done].
Qed.
End links.

(** ** Loading *)

(** What a staged image and its result promise at [address]. *)
Record loaded (m : IrxModule) (address : Z) (range : MemoryRange) (img : list Z) (lm : LoadedModule)
    : Prop := {
  ld_aligned : address mod m_alignment m = 0;
  ld_range : mr_start range <= address /\ address + len (image m) <= mr_end range /\
             address + len (image m) < 2 ^ 32;
  ld_image : let delta := if is_relocatable (md_variant (description m)) then address else 0 in
    apply_relocations (m_origin m) (preferred_address m) delta (relocations m) (image m) = Ok img;
  ld_shape : same_shape (image m) img;
  ld_fixed : is_relocatable (md_variant (description m)) = false ->
    img = image m /\ address = preferred_address m;
  ld_allocation : allocation lm = mkAllocation address (len (image m)) (m_alignment m);
  ld_entry : lm_entry lm - address = rm_entry (raw_metadata m) - preferred_address m /\
    0 <= lm_entry lm - address /\ lm_entry lm + 4 <= address + len (image m) /\
    (lm_entry lm - address) mod 4 = 0;
  ld_module_id : from_option (fun v => address <= v < address + len (image m)) True (lm_module_id lm);
  ld_imports : Forall (import_in img address) (imports lm);
  ld_exports : Forall (export_in img address) (exports lm);
  ld_tables : Z.of_nat (length (imports lm) + length (exports lm)) <= max_link_tables (m_limits m);
  ld_entries : link_entries (imports lm) (exports lm) <= max_link_entries (m_limits m);
  ld_state : resident_state lm = Unstarted;
}.

Section stage.
Context (input : list Z) (m : IrxModule) (Hm : well_formed input m) (Hlim : limits_ok (m_limits m)).

Lemma parse_link_tables_ok img address :
  same_shape (image m) img -> 0 <= address -> address + len img < 2 ^ 32 ->
  safely (fun r => Forall (import_in img address) r.1 /\ Forall (export_in img address) r.2 /\
      Z.of_nat (length r.1 + length r.2) <= max_link_tables (m_limits m) /\
      link_entries r.1 r.2 <= max_link_entries (m_limits m))
    (parse_link_tables (m_origin m) img address (m_limits m)).
Proof using Hlim.
  intros [Hl Hb] Ha He. destruct Hlim as (_ & _ & [? ?] & [? ?]). unfold parse_link_tables.
  eapply safely_bind; [apply safely_ok_or; intros x Hx; exact Hx|]. intros size [-> _]%try_from_u_Some.
  eapply safely_bind; [apply safely_ok_or; intros x Hx; exact Hx|]. intros e [-> _]%checked_add_u_Some.
  pose proof (len_nonneg img). pose proof (Z.div_pos (len img) 4 ltac:(lia) ltac:(lia)).
  pose proof (Z.mul_div_le (len img) 4 ltac:(lia)).
  eapply safely_bind; [apply scan_words_ok; [done|done|done|lia|lia|]|].
  { split; cbn; try done; lia. }
  intros t [T1 T2 T3 T4 T5]. cbn. rewrite <- T4. done.
Qed.

Lemma stage_ok address range :
  0 <= address < 2 ^ 32 ->
  safely (fun r => loaded m address range r.1 r.2) (IrxModule.stage m address range).
Proof using Hm Hlim.
  intros [Ha0 Ha1]. unfold IrxModule.stage.
  destruct (wf_alignment _ _ Hm) as [[Hal%Z.ltb_lt _]%andb_true_iff _].
  rewrite (proj2 (Z.eqb_neq _ _)) by lia.
  destruct (_ || _) eqn:E0; [done|]. apply orb_false_iff in E0 as [E0 E1]. zbool.
  destruct (negb (MemoryRange.contains _ _ _)) eqn:E2; [done|]. apply negb_false_iff in E2.
  apply contains_spec in E2 as (R0 & R1 & R2); [|apply len_nonneg].
  destruct (wf_address _ _ Hm) as [P0 P1].
  destruct (apply_relocations _ _ _ _ _) as [img|e|] eqn:Er;
    pose proof (apply_relocations_ok (m_origin m) (preferred_address m)
      (if is_relocatable (md_variant (description m)) then address else 0) (relocations m) (image m)
      (image_bytes _ _ _ _ (wf_image _ _ Hm)) ltac:(lia) (wf_relocations _ _ Hm)) as Hr;
    rewrite Er in Hr; [|done|done]. cbn in Hr. cbn [obind].
  eapply safely_bind; [apply safely_ok_or; intros x Hx; exact Hx|]. intros entry [-> _]%checked_add_u_Some.
  eapply safely_bind; [apply safely_ok_or; intros x Hx; exact Hx|]. intros gp _.
  assert (IrxModule.allocation_size m = len (image m)) as Hsz.
  { unfold IrxModule.allocation_size. by rewrite try_from_u_in by lia. }
  rewrite Hsz. eapply safely_bind; [apply safely_ok_or; intros x Hx; exact Hx|].
  intros e [-> _]%checked_add_u_Some.
  destruct (negb (MemoryRange.contains _ _ _)) eqn:E3; [done|]. apply negb_false_iff in E3.
  apply contains_spec in E3 as (N0 & N1 & _); [|lia]. cbn in N0, N1.
  set (delta := if is_relocatable _ then address else 0) in *.
  assert (delta = address - preferred_address m) as Hd.
  { unfold delta. pose proof (wf_fixed _ _ Hm) as Hf.
    destruct (is_relocatable _); [lia|]. cbn [negb andb] in E1. zbool. lia. }
  eapply (safely_bind (fun o => from_option (fun v => address <= v < address + len (image m)) True o)).
  { pose proof (wf_module_id _ _ Hm) as Hid. destruct (rm_module_id _) as [v|]; [|done]. cbn in Hid.
    eapply safely_bind; [apply safely_ok_or; intros x Hx; exact Hx|]. intros x [-> _]%checked_add_u_Some.
    cbn. lia. }
  intros id Hid. pose proof Hr as [Hl Hb].
  eapply safely_bind; [apply parse_link_tables_ok; [done|done|lia]|].
  intros [is_ es] (I & X & T & N). cbn [fst snd] in *.
  destruct (wf_entry _ _ Hm) as [En0 En1].
  constructor; cbn; try done.
  - pose proof (wf_fixed _ _ Hm) as Hf. intros Hv. rewrite Hv in Hf. rewrite Hf in Er. injection Er as <-.
    split; [done|]. rewrite Hv in E1. cbn in E1. by zbool.
  - replace (rm_entry (raw_metadata m) + delta - address)
      with (rm_entry (raw_metadata m) - preferred_address m) by lia. split_and!; [done|lia|lia|done].
Qed.
End stage.

(** A target that takes a write inside its range or refuses it, without a panic. *)
Class TargetLaws (T : Type) `{TargetMemory T} := {
  write_image_no_panic : forall address img (t : T),
    mr_start (target_range t) <= address -> address + len img <= mr_end (target_range t) ->
    (write_image address img t).1 <> Panic;
}.

(** C24: Loading a module the parser accepted never panics and is all or nothing: either
    the target is untouched and an error names the cause, or the target received exactly
    one write - of the whole relocated image, at the requested, aligned address, inside
    its range - and refused or accepted it.  On success the entry point is a word of the
    allocation, every import stub and exported function was read out of the relocated
    image, and the tables respect the limits; a fixed-address executable is written as it
    was parsed, at its own address. *)
Theorem load_into_all_or_nothing `{TargetLaws T} input m address (t : T) :
  well_formed input m -> limits_ok (m_limits m) -> 0 <= address < 2 ^ 32 ->
  match IrxModule.load_into m address t with
  | (Ok lm, t') => exists img, write_image address img t = (Ok tt, t') /\
      loaded m address (target_range t) img lm
  | (Err e, t') =>
      (t' = t /\ IrxModule.stage m address (target_range t) = Err e) \/
      exists img lm msg, write_image address img t = (Err msg, t') /\
        loaded m address (target_range t) img lm /\ ie_kind e = Target (target_message msg)
  | (Panic, _) => False
  end.
Proof.
  intros Hm Hlim Ha. unfold IrxModule.load_into.
  pose proof (stage_ok input m Hm Hlim address (target_range t) Ha) as Hs.
  destruct (IrxModule.stage _ _ _) as [[img lm]|e|]; [|by left|done]. cbn [fst snd safely] in *.
  destruct (ld_shape _ _ _ _ _ Hs) as [El _]. destruct (ld_range _ _ _ _ _ Hs) as (R0 & R1 & _).
  pose proof (write_image_no_panic address img t R0 ltac:(lia)) as Hp.
  destruct (write_image address img t) as [[[]|msg|] t'] eqn:Ew; cbn in *.
  - by exists img.
  - right. by exists img, lm, msg.
  - done.
Qed.

(** A target that records its writes. *)
Record FixtureTarget := mkFixtureTarget { ft_range : MemoryRange; ft_writes : list (Z * list Z) }.

#[export] Instance fixture_target : TargetMemory FixtureTarget := {
  target_range := ft_range;
  write_image address img t := (Ok tt, mkFixtureTarget (ft_range t) ((address, img) :: ft_writes t));
}.

#[export] Instance fixture_laws : TargetLaws FixtureTarget.
Proof. done. Qed.

(** The sample at 0x20000: its export points at the second instruction, and the address
    0x8000 that its first two instructions build has become 0x28000. *)
Lemma load_into_all_or_nothing_witness :
  exists m lm img, IrxModule.load_into m 0x20000 (mkFixtureTarget (mkMemoryRange 0 0x200000) []) =
      (Ok lm, mkFixtureTarget (mkMemoryRange 0 0x200000) [(0x20000, img)]) /\
    loaded m 0x20000 (mkMemoryRange 0 0x200000) img lm /\
    map functions (exports lm) = [[0x20004]] /\ pair_address img 0 4 = Some 0x28000.
Proof.
  destruct sample_bytes as [Hb Hl].
  pose proof (parse_ok (mkParser (str "demo.irx") sample_irx default_irx_limits) Hb Hl
    default_irx_limits_ok) as Hm.
  change (Parser.parse _) with (IrxModule.parse (str "demo.irx") sample_irx) in Hm.
  set (t := mkFixtureTarget (mkMemoryRange 0 0x200000) []).
  assert (match sample_module with
          | Some m => match IrxModule.load_into m 0x20000 t with
                      | (Ok lm, t') => bool_decide (map functions (exports lm) = [[0x20004]]) &&
                          match ft_writes t' with
                          | [(a, img)] => bool_decide (pair_address img 0 4 = Some 0x28000)
                          | _ => false
                          end
                      | _ => false
                      end
          | None => false
          end = true) as E by (vm_compute; reflexivity).
  unfold sample_module in E.
  destruct (IrxModule.parse _ _) as [m| |] eqn:Ep; [|discriminate E|discriminate E].
  destruct Hm as (Hw & Hlim & _). cbn [p_input p_limits] in Hw, Hlim.
  pose proof (load_into_all_or_nothing sample_irx m 0x20000 t Hw
    ltac:(rewrite Hlim; exact default_irx_limits_ok) ltac:(lia)) as H.
  destruct (IrxModule.load_into m 0x20000 t) as [[lm|e|] t'] eqn:El; [|discriminate E|discriminate E].
  destruct H as (img & Ew & Hld). apply andb_true_iff in E as [E1 E2].
  injection Ew as <-. cbn in E2. apply bool_decide_eq_true in E1, E2.
  exists m, lm, img. split; [exact El|]. split; [exact Hld|]. split; [exact E1|exact E2].
Defined.

(** The pair of the sample, on its own. *)
Lemma hi_lo_pair_relocated_witness :
  exists img', apply_relocations [] 0 0x20000 (pair_relocations 0 4 0 0) (firstn 8 sample_image) = Ok img' /\
    pair_address img' 0 4 = Some 0x28000.
Proof.
  set (img := firstn 8 sample_image).
  assert (bytes_ok img) as Hb.
  { assert (forallb (fun b => (0 <=? b) && (b <? 2 ^ 8)) img = true) as Ef by (vm_compute; reflexivity).
    rewrite forallb_forall in Ef. apply List.Forall_forall. intros x Hx%Ef.
    apply andb_true_iff in Hx as [H0%Z.leb_le H1%Z.ltb_lt]. split; assumption. }
  assert (len img = 8) as Hlen by (vm_compute; reflexivity).
  assert (read_u32 img 0 = Some 0x3c020001) as E1 by (vm_compute; reflexivity).
  assert (read_u32 img 4 = Some 0x24428000) as E2 by (vm_compute; reflexivity).
  assert (is_ok (apply_relocations [] 0 0x20000 (pair_relocations 0 4 0 0) img) = true)
    as Eok by (vm_compute; reflexivity).
  clearbody img.
  destruct (hi_lo_pair_relocated [] 0 0x20000 0 4 0 0 img Hb ltac:(lia) ltac:(lia)
    ltac:(rewrite Hlen; unfold word_at; split_and!; [lia|lia|reflexivity])
    ltac:(rewrite Hlen; unfold word_at; split_and!; [lia|lia|reflexivity]) ltac:(lia))
    as (h & l & Eh & El & H).
  change (0 - 0) with 0 in *. change (4 - 0) with 4 in *.
  rewrite E1 in Eh. rewrite E2 in El. injection Eh as <-. injection El as <-.
  destruct (apply_relocations _ _ _ _ _) as [img'| |]; [|discriminate Eok|discriminate Eok].
  exists img'. split; [reflexivity|]. destruct H as (_ & _ & Hp & _). exact Hp.
Defined.
