(* ===== verification/VfsFacts.v ===== *)
(** * What the PSF2 virtual filesystem promises

    A filesystem is a tree of paths; laying a layer over it replaces exactly what the
    layer names.  Parsing never panics on any bytes and keeps every limit, and a path of
    the tree is found again however a lookup spells it. *)

From S2P Require Import Prelude MachineInt Records Buffer PsfText PsfTags PsfContainer PsfLoad Vfs.
From S2P Require Import PsfDuration PsfMetadata.

(** ** Trees of paths *)

Inductive node := FileNode (data : list Z) | DirNode.

Definition node_at (v : Psf2Vfs) (p : list Z) : option node :=
  match files v !! p with
  | Some d => Some (FileNode d)
  | None => if decide (p ∈ directories v) then Some DirNode else None
  end.

Definition name_byte (b : Z) : Prop :=
  printable b = true /\ is_upper b = false /\ b <> SLASH /\ b <> BACKSLASH /\ b <> COLON.

(** A name as the parser leaves it: short, printable, lower case, no separator. *)
Definition name_ok (n : list Z) : Prop := 0 < len n <= NAME_BYTES /\ Forall name_byte n.

Definition below (p q : list Z) : Prop := exists s, q = p ++ SLASH :: s.

(** Every node but the root hangs in a directory under a proper name; no path is both a
    file and a directory. *)
Record tree (v : Psf2Vfs) : Prop := {
  tree_disjoint : forall p d, files v !! p = Some d -> p ∉ directories v;
  tree_parent : forall p, is_Some (node_at v p) ->
    p = [] \/ exists q n, p = join_path q n /\ name_ok n /\ q ∈ directories v;
}.

Lemma node_at_dir v p : tree v -> p ∈ directories v -> node_at v p = Some DirNode.
Proof.
  intros Hv Hp. unfold node_at. destruct (files v !! p) as [d|] eqn:E.
  - by destruct (tree_disjoint v Hv p d E).
  - by rewrite decide_True.
Qed.

Lemma node_at_DirNode v p : node_at v p = Some DirNode -> p ∈ directories v.
Proof. unfold node_at. destruct (files v !! p); [done|]. by case_decide. Qed.

Lemma node_at_FileNode v p d : node_at v p = Some (FileNode d) <-> files v !! p = Some d.
Proof. unfold node_at. destruct (files v !! p); [naive_solver|]. case_decide; naive_solver. Qed.

Lemma name_no_slash n : name_ok n -> SLASH ∉ n.
Proof. intros [_ Hn] Hin. rewrite Forall_forall in Hn. by destruct (Hn _ Hin) as (_ & _ & H & _). Qed.

Lemma name_nonempty n : name_ok n -> n <> [].
Proof. intros [[Hn _] _] ->. done. Qed.

Lemma join_nonempty q n : name_ok n -> join_path q n <> [].
Proof.
  intros Hn. unfold join_path. case_bool_decide; [by apply name_nonempty|]. by destruct q.
Qed.

(** Cutting a path at its last separator. *)
Lemma last_slash_unique p n q m :
  SLASH ∉ n -> SLASH ∉ m -> p ++ SLASH :: n = q ++ SLASH :: m -> p = q /\ n = m.
Proof.
  revert q. induction p as [|a p IH]; intros [|b q] Hn Hm E; cbn in E.
  - by injection E.
  - injection E as _ E2. subst n. destruct Hn. apply elem_of_app. right. by left.
  - injection E as _ E2. subst m. destruct Hm. apply elem_of_app. right. by left.
  - injection E as -> E2. destruct (IH q Hn Hm E2) as [-> ->]. done.
Qed.

(** A node hangs below each of its proper prefixes that end at a separator. *)
Lemma below_join p q n :
  name_ok n -> below p (join_path q n) -> q <> [] /\ (q = p \/ below p q).
Proof.
  intros Hn [s E]. pose proof (name_no_slash n Hn) as Hs. unfold join_path in E.
  case_bool_decide as Hq.
  { destruct Hs. rewrite E. apply elem_of_app. right. by left. }
  split; [done|]. destruct (decide (SLASH ∈ s)) as [Hin|Hin].
  - right. assert (exists s1 s2, s = s1 ++ SLASH :: s2 /\ SLASH ∉ s2) as (s1 & s2 & -> & Hs2).
    { clear -Hin. induction s as [|a s IH] using rev_ind; [by apply elem_of_nil in Hin|].
      destruct (decide (a = SLASH)) as [->|Ha].
      - exists s, []. split; [done|]. apply not_elem_of_nil.
      - apply elem_of_app in Hin as [Hin|Hin%list_elem_of_singleton]; [|congruence].
        destruct (IH Hin) as (s1 & s2 & -> & H2). exists s1, (s2 ++ [a]).
        split; [by rewrite <- app_assoc|]. apply not_elem_of_app. split; [done|].
        by rewrite list_elem_of_singleton. }
    change (p ++ SLASH :: s1 ++ SLASH :: s2) with (p ++ (SLASH :: s1) ++ SLASH :: s2) in E.
    rewrite app_assoc in E. apply last_slash_unique in E as [-> _]; [|done|done].
    by exists s1.
  - left. by apply last_slash_unique in E as [-> _].
Qed.

Lemma tree_ancestor v p q : tree v -> is_Some (node_at v q) -> below p q -> p ∈ directories v.
Proof.
  intros Hv. revert p. remember (length q) as k eqn:Ek. revert q Ek.
  induction (lt_wf k) as [k _ IH]. intros q -> p Hq Hb.
  destruct (tree_parent v Hv q Hq) as [->|(r & n & -> & Hn & Hr)].
  { destruct Hb as [s E]. by destruct p. }
  destruct (below_join p r n Hn Hb) as [Hne [->|Hb']]; [done|].
  apply (IH (length r)) with (q := r); [|done| |done].
  - unfold join_path. rewrite bool_decide_false by done. rewrite length_app. cbn. lia.
  - rewrite node_at_dir by done. by eexists.
Qed.

(** ** Writing a node *)

Lemma starts_with_spec pre l : starts_with pre l = true <-> exists s, l = pre ++ s.
Proof.
  revert l. induction pre as [|a pre IH]; intros l; cbn; [naive_solver|].
  destruct l as [|b l]; [naive_solver|]. rewrite andb_true_iff, Z.eqb_eq, IH. naive_solver.
Qed.

Lemma below_starts p q : below p q <-> starts_with (p ++ [SLASH]) q = true.
Proof. rewrite starts_with_spec. unfold below. by setoid_rewrite <- app_assoc. Qed.

Lemma retained_spec p q : retained p q = true <-> q <> p /\ ~ below p q.
Proof.
  unfold retained. rewrite andb_true_iff, !negb_true_iff, bool_decide_eq_false.
  by rewrite <- not_true_iff_false, <- below_starts.
Qed.

#[export] Instance below_dec p q : Decision (below p q).
Proof.
  refine (cast_if (decide (starts_with (p ++ [SLASH]) q = true))); by rewrite below_starts.
Defined.

Lemma remove_subtree_files v p q :
  files (remove_subtree p v) !! q = if decide (q = p \/ below p q) then None else files v !! q.
Proof.
  unfold remove_subtree. cbn. rewrite map_lookup_filter.
  destruct (files v !! q) as [d|]; cbn; [|by case_decide].
  destruct (decide (retained p q = true)) as [H|H]; rewrite retained_spec in H.
  - rewrite option_guard_True by (by apply retained_spec). rewrite decide_False; [done|tauto].
  - rewrite option_guard_False by (by rewrite retained_spec). rewrite decide_True; [done|].
    destruct (decide (q = p)), (decide (below p q)); tauto.
Qed.

Lemma remove_subtree_directories v p q :
  q ∈ directories (remove_subtree p v) <-> q ∈ directories v /\ q <> p /\ ~ below p q.
Proof.
  unfold remove_subtree. cbn. rewrite elem_of_filter, retained_spec. tauto.
Qed.

Lemma insert_file_at v p d q :
  node_at (Builder.insert_file v p d) q =
    if decide (q = p) then Some (FileNode d)
    else if decide (below p q) then None else node_at v q.
Proof.
  unfold Builder.insert_file, node_at. cbn [files directories modify].
  destruct (decide (q = p)) as [->|Hne]; [by rewrite lookup_insert_eq|].
  rewrite lookup_insert_ne, remove_subtree_files by done.
  destruct (decide (below p q)) as [Hb|Hb].
  - rewrite decide_True by auto. rewrite decide_False; [done|].
    rewrite remove_subtree_directories. tauto.
  - rewrite decide_False by tauto. destruct (files v !! q); [done|].
    apply decide_ext. rewrite remove_subtree_directories. tauto.
Qed.

Lemma insert_directory_at v p q :
  node_at (Builder.insert_directory v p) q = if decide (q = p) then Some DirNode else node_at v q.
Proof.
  unfold Builder.insert_directory, node_at. cbn [files directories].
  destruct (decide (q = p)) as [->|Hne].
  - rewrite lookup_delete_eq, decide_True by set_solver. done.
  - rewrite lookup_delete_ne by done. destruct (files v !! q); [done|].
    apply decide_ext. set_solver.
Qed.

(** No path is a file and a directory after a write either. *)
Definition disjoint_nodes (v : Psf2Vfs) : Prop := forall p d, files v !! p = Some d -> p ∉ directories v.

Lemma insert_file_disjoint v p d : disjoint_nodes v -> disjoint_nodes (Builder.insert_file v p d).
Proof.
  intros Hv q e. unfold Builder.insert_file. cbn [files directories modify].
  rewrite remove_subtree_directories. destruct (decide (q = p)) as [->|Hne]; [tauto|].
  rewrite lookup_insert_ne, remove_subtree_files by done. case_decide; [done|].
  intros Hd%Hv. tauto.
Qed.

Lemma insert_directory_disjoint v p :
  disjoint_nodes v -> disjoint_nodes (Builder.insert_directory v p).
Proof.
  intros Hv q e. unfold Builder.insert_directory. cbn.
  rewrite lookup_delete_Some. intros [Hne H%Hv]. set_solver.
Qed.

Lemma join_not_below q n : ~ below (join_path q n) q.
Proof.
  intros [s E]. apply (f_equal length) in E. revert E. unfold join_path.
  case_bool_decide; subst; cbn; rewrite !length_app; cbn; lia.
Qed.

Lemma insert_file_tree v q n d :
  tree v -> name_ok n -> q ∈ directories v -> tree (Builder.insert_file v (join_path q n) d).
Proof.
  intros Hv Hn Hq. set (p := join_path q n).
  assert (forall r, r ∈ directories v -> r <> p -> ~ below p r ->
    r ∈ directories (Builder.insert_file v p d)) as Hkeep.
  { intros r Hr H1 H2. by apply remove_subtree_directories. }
  split; [exact (insert_file_disjoint _ _ _ (tree_disjoint v Hv))|]. intros r. rewrite insert_file_at.
  destruct (decide (r = p)) as [->|Hne].
  { intros _. right. exists q, n. split_and!; [done|done|].
    apply Hkeep; [done| |apply join_not_below].
    unfold p, join_path. case_bool_decide; [by intros ->; apply (name_nonempty n)|].
    intros E. apply (f_equal length) in E. rewrite length_app in E. cbn in E. lia. }
  destruct (decide (below p r)) as [|Hb]; [by intros [? ?]|]. intros Hr.
  destruct (tree_parent v Hv r Hr) as [->|(r' & n' & -> & Hn' & Hr')]; [by left|right].
  exists r', n'. split_and!; [done|done|]. apply Hkeep; [done| |].
  - intros ->. apply Hb. exists n'. unfold join_path.
    rewrite bool_decide_false by (by apply join_nonempty). done.
  - intros [s ->]. apply Hb. exists (s ++ SLASH :: n'). unfold join_path at 1.
    rewrite bool_decide_false; [by rewrite <- app_assoc|]. by destruct p.
Qed.

Lemma insert_directory_tree v q n :
  tree v -> name_ok n -> q ∈ directories v -> tree (Builder.insert_directory v (join_path q n)).
Proof.
  intros Hv Hn Hq. split; [exact (insert_directory_disjoint _ _ (tree_disjoint v Hv))|]. intros r.
  rewrite insert_directory_at. destruct (decide (r = join_path q n)) as [->|Hne].
  - intros _. right. exists q, n. split_and!; [done|done|]. cbn. set_solver.
  - intros Hr. destruct (tree_parent v Hv r Hr) as [->|(r' & n' & -> & Hn' & Hr')]; [by left|right].
    exists r', n'. split_and!; [done|done|]. cbn. set_solver.
Qed.

(** ** Laying a layer over a filesystem *)

Lemma elem_of_set_walk s q : q ∈ set_walk s <-> q ∈ s.
Proof.
  unfold set_walk. rewrite (merge_sort_Permutation text_le). apply elem_of_elements.
Qed.

Lemma map_walk_perm {A} (m : gmap (list Z) A) : map_walk m ≡ₚ map_to_list m.
Proof. apply merge_sort_Permutation. Qed.

Lemma elem_of_map_walk {A} (m : gmap (list Z) A) q d : (q, d) ∈ map_walk m <-> m !! q = Some d.
Proof. rewrite map_walk_perm. apply elem_of_map_to_list. Qed.

Lemma map_walk_NoDup {A} (m : gmap (list Z) A) : NoDup (map_walk m).*1.
Proof. rewrite map_walk_perm. apply NoDup_fst_map_to_list. Qed.

Lemma apply_directories_at ds v q :
  node_at (foldl Builder.apply_directory v ds) q =
  if decide (q ∈ ds /\ q <> []) then Some DirNode else node_at v q.
Proof.
  revert v. induction ds as [|d ds IH]; intros v; cbn [foldl].
  { rewrite decide_False; [done|]. by intros [?%elem_of_nil _]. }
  rewrite IH. unfold Builder.apply_directory. case_bool_decide as Hd.
  - subst d. apply decide_ext. rewrite elem_of_cons. naive_solver.
  - rewrite insert_directory_at. destruct (decide (q = d)) as [->|Hne].
    + assert (d ∈ d :: ds) by by left. repeat case_decide; tauto.
    + apply decide_ext. rewrite elem_of_cons. naive_solver.
Qed.

Lemma apply_files_at fs v q :
  NoDup fs.*1 -> (forall a b, a ∈ fs.*1 -> b ∈ fs.*1 -> ~ below a b) ->
  (forall d, (q, d) ∈ fs -> node_at (foldl Builder.apply_file v fs) q = Some (FileNode d)) /\
  (q ∉ fs.*1 -> node_at (foldl Builder.apply_file v fs) q =
     if decide (Exists (fun p => below p q) fs.*1) then None else node_at v q).
Proof.
  revert v. induction fs as [|[p d] fs IH]; intros v Hnd Hun; cbn [foldl].
  { split; [by intros d ?%elem_of_nil|]. intros _. rewrite decide_False; [done|]. by intros ?%Exists_nil. }
  rewrite fmap_cons in Hnd. apply NoDup_cons in Hnd as [Hp Hnd]. cbn in Hp.
  change (Builder.apply_file v (p, d)) with (Builder.insert_file v p d).
  destruct (IH (Builder.insert_file v p d) Hnd) as [IH1 IH2].
  { intros a b Ha Hb. apply Hun; by right. }
  rewrite insert_file_at in IH2.
  assert (~ Exists (fun r => below r p) fs.*1) as Hnone.
  { intros (r & Hr & Hb)%list.Exists_exists. apply (Hun r p); [by right|by left|done]. }
  split.
  - intros e [E|Hin]%elem_of_cons; [|by apply IH1]. injection E as -> ->.
    rewrite IH2 by done. by rewrite decide_False, decide_True.
  - rewrite fmap_cons, not_elem_of_cons. intros [Hne Hq]. cbn in Hne. rewrite IH2 by done.
    rewrite (decide_False (P := q = p)) by done. cbn [fmap list_fmap fst].
    destruct (decide (Exists (fun r => below r q) fs.*1)) as [He|He].
    + rewrite decide_True; [done|]. by right.
    + destruct (decide (below p q)) as [Hb|Hb].
      * rewrite decide_True; [done|]. by left.
      * rewrite decide_False; [done|]. intros H. apply Exists_cons in H. tauto.
Qed.

(** What a path denotes when a layer lies over a filesystem: what the layer has there;
    nothing below a file of the layer; and what was there otherwise. *)
Definition over (layer : Psf2Vfs) (lower : list Z -> option node) (q : list Z) : option node :=
  match node_at layer q with
  | Some n => Some n
  | None => if decide (Exists (fun p => below p q) (map_walk (files layer)).*1) then None else lower q
  end.

Lemma elem_of_walk_keys {A} (m : gmap (list Z) A) q : q ∈ (map_walk m).*1 <-> is_Some (m !! q).
Proof.
  rewrite list_elem_of_fmap. split.
  - intros ([p d] & -> & H%elem_of_map_walk). by exists d.
  - intros [d H]. exists (q, d). split; [done|]. by apply elem_of_map_walk.
Qed.

Lemma files_unrelated v a b :
  tree v -> is_Some (files v !! a) -> is_Some (files v !! b) -> ~ below a b.
Proof.
  intros Hv [d Ha] [e Hb] Hab. apply (tree_disjoint v Hv a d Ha).
  apply (tree_ancestor v a b Hv); [|done]. unfold node_at. rewrite Hb. by eexists.
Qed.

Lemma foldl_disjoint {A} (f : Psf2Vfs -> A -> Psf2Vfs) l v :
  (forall v a, disjoint_nodes v -> disjoint_nodes (f v a)) ->
  disjoint_nodes v -> disjoint_nodes (foldl f v l).
Proof. intros Hf. revert v. induction l as [|a l IH]; intros v Hv; cbn; auto. Qed.

Lemma apply_at layer v q :
  tree layer -> tree v -> [] ∈ directories v ->
  node_at (Builder.apply layer v) q = over layer (node_at v) q.
Proof.
  intros Hl Hv Hroot. unfold Builder.apply, over.
  set (v1 := foldl Builder.apply_directory v (set_walk (directories layer))).
  assert (forall r, node_at v1 r = if decide (r ∈ directories layer) then Some DirNode
                                   else node_at v r) as H1.
  { intros r. unfold v1. rewrite apply_directories_at.
    destruct (decide (r ∈ directories layer)) as [Hr|Hr].
    - destruct (decide (r = [])) as [->|Hne].
      + rewrite decide_False by tauto. by apply node_at_dir.
      + rewrite decide_True; [done|]. by rewrite elem_of_set_walk.
    - rewrite decide_False; [done|]. rewrite elem_of_set_walk. tauto. }
  destruct (apply_files_at (map_walk (files layer)) v1 q) as [H2 H3].
  { apply map_walk_NoDup. }
  { intros a b Ha%elem_of_walk_keys Hb%elem_of_walk_keys. by apply (files_unrelated layer). }
  destruct (files layer !! q) as [d|] eqn:Ef.
  - rewrite (H2 d) by (by apply elem_of_map_walk). unfold node_at. by rewrite Ef.
  - rewrite H3, H1 by (rewrite elem_of_walk_keys, Ef; by intros [? ?]).
    assert (node_at layer q = if decide (q ∈ directories layer) then Some DirNode else None) as ->.
    { unfold node_at. by rewrite Ef. }
    destruct (decide (q ∈ directories layer)) as [Hd|Hd]; [|done].
    rewrite decide_False; [done|]. intros (p & [e Hp]%elem_of_walk_keys & Hb)%list.Exists_exists.
    apply (tree_disjoint layer Hl p e Hp). apply (tree_ancestor layer p q Hl); [|done].
    rewrite node_at_dir by done. by eexists.
Qed.

Lemma apply_tree layer v :
  tree layer -> [] ∈ directories layer -> tree v -> [] ∈ directories v ->
  tree (Builder.apply layer v) /\ [] ∈ directories (Builder.apply layer v).
Proof.
  intros Hl Hlr Hv Hroot.
  assert (forall q, q ∈ directories layer \/
    (q ∈ directories v /\ node_at layer q = None /\
     forall p, is_Some (files layer !! p) -> ~ below p q) ->
    q ∈ directories (Builder.apply layer v)) as Hdir.
  { intros q Hq. apply node_at_DirNode. rewrite apply_at by done. unfold over.
    destruct Hq as [Hq|(Hq & -> & Hn)]; [by rewrite node_at_dir|].
    rewrite decide_False; [by apply node_at_dir|].
    intros (p & Hp%elem_of_walk_keys & Hb)%list.Exists_exists. by apply (Hn p). }
  split; [split|].
  - apply foldl_disjoint; [intros; by apply insert_file_disjoint|].
    apply foldl_disjoint; [|exact (tree_disjoint v Hv)]. intros w a Hw. unfold Builder.apply_directory.
    case_bool_decide; [done|by apply insert_directory_disjoint].
  - intros q. rewrite apply_at by done. unfold over.
    destruct (node_at layer q) as [n|] eqn:En.
    + intros _. destruct (tree_parent layer Hl q) as [->|(r & m & -> & Hm & Hr)]; [by eexists|by left|].
      right. exists r, m. split_and!; [done|done|]. apply Hdir. by left.
    + case_decide as Hex; [by intros [? ?]|]. intros Hq.
      destruct (tree_parent v Hv q Hq) as [->|(r & m & -> & Hm & Hr)]; [by left|right].
      exists r, m. split_and!; [done|done|]. apply Hdir.
      assert (forall p, is_Some (files layer !! p) -> ~ below p (join_path r m)) as Hn.
      { intros p Hp Hb. apply Hex, list.Exists_exists. exists p. by rewrite elem_of_walk_keys. }
      destruct (node_at layer r) as [[d|]|] eqn:Er; [exfalso| |].
      * apply node_at_FileNode in Er. apply (Hn r); [by eexists|]. exists m.
        unfold join_path. case_bool_decide as E; [|done]. subst r.
        by destruct (tree_disjoint layer Hl [] d Er).
      * left. by apply node_at_DirNode.
      * right. split_and!; [done|done|]. intros p Hp [s ->]. apply (Hn p Hp).
        unfold join_path. rewrite bool_decide_false by (by destruct p).
        exists (s ++ SLASH :: m). by rewrite <- app_assoc.
  - apply Hdir. by left.
Qed.

(** ** Parsing *)

(** What the decoder reports at the end of a stream: the bytes it consumed. *)
Fixpoint final_count (r : Reads) : option Z :=
  match r with
  | Chunk _ r => final_count r
  | ReadError _ => None
  | EndOfStream n => Some n
  end.

Class DecoderLaws `{Codec} : Prop :=
  inflate_consumes : forall l n, final_count (inflate l) = Some n -> 0 <= n <= len l.

#[export] Instance stored_decoder : DecoderLaws.
Proof. intros [|b l] n; cbn; [done|]. intros [= <-]. unfold len. cbn. lia. Qed.

Notation bytes_ok := (Forall (in_u 8)).

Lemma vfs_read_u32_spec input o v :
  bytes_ok input -> 0 <= o -> read_u32 input o = Some v -> in_u 32 v /\ o + 4 <= len input.
Proof.
  intros Hb Ho. unfold read_u32.
  destruct (checked_add_u 64 o 4) as [e|] eqn:E; [|done]. cbn [mbind option_bind].
  apply checked_add_u_Some in E as [-> _].
  destruct (Z.leb_spec (o + 4) (len input)) as [Hle|]; [|done]. intros [= <-].
  split; [|done].
  assert (bytes_ok (sub input o (o + 4))) as Hs by by apply Forall_take, Forall_drop.
  pose proof (from_le_range _ Hs) as Hr. fold (len (sub input o (o + 4))) in Hr.
  rewrite len_sub in Hr by lia. by rewrite Z.add_simpl_l in Hr.
Qed.

Lemma read_u32_inside input o :
  0 <= o -> o + 4 <= len input -> len input < 2 ^ 64 -> is_Some (read_u32 input o).
Proof.
  intros Ho Hle Hlt. unfold read_u32.
  rewrite (proj2 (checked_add_u_Some 64 o 4 _)) by (split; [done|lia]). cbn [mbind option_bind].
  rewrite (proj2 (Z.leb_le _ _)) by done. by eexists.
Qed.

Lemma plus_ok {E} a b : a + b < 2 ^ 64 -> plus a b = (Ok (a + b) : outcome E Z).
Proof. intros H. unfold plus, checked_add_u. by rewrite (proj2 (Z.ltb_lt _ _)). Qed.
Lemma times_ok {E} a b : a * b < 2 ^ 64 -> times a b = (Ok (a * b) : outcome E Z).
Proof. intros H. unfold times, checked_mul_u. by rewrite (proj2 (Z.ltb_lt _ _)). Qed.

Lemma block_loop_spec origin o path expected block r :
  match block_loop origin o path expected block r with
  | Ok (_, n) => final_count r = Some n
  | Err _ => True
  | Panic => False
  end.
Proof.
  revert block. induction r as [d r IH|m|n]; intros block; cbn [block_loop]; [|done|done].
  destruct (from_option _ _ _); [done|]. apply IH.
Qed.

Section decoder_facts.
Context `{DecoderLaws}.

Lemma decompress_block_spec origin o path compressed expected output :
  0 <= o -> o + len compressed < 2 ^ 64 ->
  match decompress_block origin o path compressed expected output with
  | Ok out => len out = len output + expected
  | Err _ => True
  | Panic => False
  end.
Proof.
  intros Ho Hlt. unfold decompress_block.
  pose proof (block_loop_spec origin o path expected [] (inflate compressed)) as Hb.
  destruct (block_loop _ _ _ _ _ _) as [[block n]|e|]; cbn [obind]; [|done|done].
  apply inflate_consumes in Hb. destruct (Z.eqb_spec n (len compressed)) as [->|]; cbn [negb].
  - destruct (Z.eqb_spec (len block) expected) as [E|]; cbn [negb]; [|done].
    by rewrite len_app, E.
  - rewrite try_from_u_in by lia. change (default (2 ^ 64 - 1) (Some n)) with n. by rewrite plus_ok by lia.
Qed.

(** After [block] blocks the output holds as many full blocks. *)
Lemma parse_blocks_spec origin input o size bs path n block at_ output :
  bytes_ok input -> len input < 2 ^ 64 -> 0 < size -> 0 < bs -> 0 <= o -> 0 <= block ->
  0 <= at_ <= len input -> o + (block + Z.of_nat n) * 4 <= len input ->
  len output = Z.min size (block * bs) -> (block + Z.of_nat n - 1) * bs < size ->
  match parse_blocks origin input o size bs path n block at_ output with
  | Ok out => len out = Z.min size ((block + Z.of_nat n) * bs)
  | Err _ => True
  | Panic => False
  end.
Proof.
  intros Hb Hlt Hs Hbs Ho. revert block at_ output.
  induction n as [|n IH]; intros block at_ output Hk Hat Hle Hout Hmore; cbn [parse_blocks].
  { by rewrite Z.add_0_r. }
  rewrite Nat2Z.inj_succ in *. assert (0 <= Z.of_nat n * bs) by nia.
  rewrite times_ok by lia. cbn [obind]. rewrite plus_ok by lia. cbn [obind].
  destruct (read_u32 input (o + block * 4)) as [cs|] eqn:Er; cbn [ok_or obind]; [|done].
  apply vfs_read_u32_spec in Er as [Hcs _]; [|done|lia]. unfold in_u in Hcs.
  destruct (checked_add_u 64 at_ cs) as [e|] eqn:Ee; cbn [ok_or obind]; [|done].
  apply checked_add_u_Some in Ee as [-> Ee].
  destruct (Z.leb_spec (at_ + cs) (len input)) as [Hin|]; cbn [negb]; [|done].
  assert (len output = block * bs) as Hout' by nia.
  unfold minus. rewrite (proj2 (checked_sub_u_Some _ _ _)) by (split; [done|nia]).
  cbn [expect obind].
  pose proof (decompress_block_spec origin at_ path (sub input at_ (at_ + cs))
    (Z.min bs (size - len output)) output) as Hd.
  rewrite len_sub in Hd by lia.
  destruct (decompress_block _ _ _ _ _ _) as [out|e|]; cbn [obind]; [|done|apply Hd; lia].
  specialize (Hd ltac:(lia) ltac:(lia)).
  replace (block + Z.succ (Z.of_nat n)) with (block + 1 + Z.of_nat n) by lia.
  apply IH; [lia|lia|lia| |lia]. rewrite Hd, Hout'. nia.
Qed.

Lemma div_ceil_spec a b : 0 < a -> 0 < b ->
  exists n, div_ceil a b = (Ok n : outcome VfsError Z) /\ 0 < n /\ (n - 1) * b < a <= n * b.
Proof.
  intros Ha Hb. unfold div_ceil. rewrite (proj2 (Z.eqb_neq b 0)) by lia. eexists. split; [done|].
  pose proof (Z.div_mod (a + b - 1) b ltac:(lia)). pose proof (Z.mod_pos_bound (a + b - 1) b Hb).
  assert (1 <= (a + b - 1) / b) by (apply Z.div_le_lower_bound; lia). nia.
Qed.

Lemma parse_file_spec origin input o size bs path b :
  bytes_ok input -> len input < 2 ^ 64 -> 0 < size -> 0 < bs -> 0 <= o ->
  match Builder.parse_file origin input o size bs path b with
  | (Ok data, b') => len data = size /\ size <= max_file_bytes (limits b) /\
      limits b' = limits b /\ built b' = built b /\
      aggregate_bytes b' = aggregate_bytes b + size /\
      aggregate_bytes b' <= max_aggregate_bytes (limits b)
  | (Err _, _) => True
  | (Panic, _) => False
  end.
Proof.
  intros Hb Hlt Hs Hbs Ho. unfold Builder.parse_file.
  destruct (Z.ltb_spec (max_file_bytes (limits b)) size); [done|].
  destruct (_ <? bs); [done|].
  destruct (checked_add_u 64 (aggregate_bytes b) size) as [agg|] eqn:Ea; cbn [ok_or]; [|done].
  apply checked_add_u_Some in Ea as [-> Ea]. cbn [modify limits blocks aggregate_bytes built].
  destruct (Z.ltb_spec (max_aggregate_bytes (limits b)) (aggregate_bytes b + size)); [done|].
  destruct (div_ceil_spec size bs Hs Hbs) as (n & -> & Hn & Hnb).
  cbn [modify limits blocks aggregate_bytes built].
  destruct (checked_add_u 64 (blocks b) n) as [total|]; cbn [ok_or]; [|done].
  destruct (_ <? total); [done|].
  destruct (checked_mul_u 64 n 4) as [tb|] eqn:Et; cbn [ok_or obind]; [|done].
  apply checked_mul_u_Some in Et as [-> Et].
  destruct (checked_add_u 64 o (n * 4)) as [at_|] eqn:Eo; cbn [ok_or obind]; [|done].
  apply checked_add_u_Some in Eo as [-> Eo].
  destruct (Z.ltb_spec (len input) (o + n * 4)); [done|].
  pose proof (parse_blocks_spec origin input o size bs path (Z.to_nat n) 0 (o + n * 4) []) as Hp.
  rewrite Z2Nat.id, !Z.add_0_l in Hp by lia.
  destruct (parse_blocks _ _ _ _ _ _ _ _ _ _) as [out|e|]; cbn [obind]; [|done|].
  - rewrite Hp; try done; try lia; [|unfold len; cbn; lia].
    rewrite Z.min_l by lia. rewrite Z.eqb_refl. split_and!; try done.
    rewrite Hp; try done; try lia. unfold len. cbn. lia.
  - apply Hp; try done; try lia. unfold len. cbn. lia.
Qed.

Lemma lowercase_name_byte b :
  printable b = true -> b <> SLASH -> b <> BACKSLASH -> b <> COLON ->
  name_byte (to_ascii_lowercase b).
Proof.
  unfold name_byte, to_ascii_lowercase, printable, is_upper, SLASH, BACKSLASH, COLON.
  intros [H1%Z.leb_le H2%Z.leb_le]%andb_true_iff H3 H4 H5.
  destruct (Z.leb_spec 0x41 b), (Z.leb_spec b 0x5a); cbn [andb];
    rewrite andb_true_iff, andb_false_iff, !Z.leb_le, !Z.leb_gt; lia.
Qed.

Lemma parse_name_spec raw name : len raw = NAME_BYTES -> parse_name raw = Ok name -> name_ok name.
Proof.
  unfold parse_name, NAME_BYTES. intros Hraw.
  set (k := default (length raw) (position _ raw)).
  destruct (_ || _) eqn:E1; [done|]. apply orb_false_iff in E1 as [E1%Nat.eqb_neq _].
  destruct (existsb _ (take k raw)) eqn:E2; [done|]. intros [= <-].
  rewrite <- not_true_iff_false, existsb_exists in E2. split.
  - unfold len in *. rewrite length_map, length_take. unfold NAME_BYTES. lia.
  - apply Forall_map, Forall_forall. intros b Hb.
    assert (negb (printable b) || (b =? SLASH) || (b =? BACKSLASH) || (b =? COLON) = false) as E.
    { apply not_true_iff_false. intros E. apply E2. exists b. by rewrite <- list_elem_of_In. }
    rewrite !orb_false_iff, negb_false_iff, !Z.eqb_neq in E. destruct E as [[[E3 E4] E5] E6].
    by apply lowercase_name_byte.
Qed.

Lemma join_inj q n r m :
  name_ok n -> name_ok m -> join_path q n = join_path r m -> q = r /\ n = m.
Proof.
  intros Hn%name_no_slash Hm%name_no_slash. unfold join_path.
  repeat case_bool_decide; subst; intros E; [done| | |by apply last_slash_unique in E].
  - subst n. destruct Hn. apply elem_of_app. right. by left.
  - subst m. destruct Hm. apply elem_of_app. right. by left.
Qed.

(** ** Sizes *)

Definition total (m : gmap (list Z) (list Z)) : Z :=
  foldr (fun e n => len e.2 + n) 0 (map_to_list m).

Lemma foldr_len_perm (l k : list (list Z * list Z)) :
  l ≡ₚ k -> foldr (fun e n => len e.2 + n) 0 l = foldr (fun e n => len e.2 + n) 0 k.
Proof. induction 1; cbn; lia. Qed.

Lemma foldr_len_app (l k : list (list Z * list Z)) :
  foldr (fun e n => len e.2 + n) 0 (l ++ k)
  = foldr (fun e n => len e.2 + n) 0 l + foldr (fun e n => len e.2 + n) 0 k.
Proof. induction l as [|e l IH]; cbn; lia. Qed.

Lemma foldr_len_nonneg (l : list (list Z * list Z)) : 0 <= foldr (fun e n => len e.2 + n) 0 l.
Proof. induction l as [|e l IH]; cbn; [lia|]. pose proof (len_nonneg e.2). lia. Qed.

Lemma total_mono m1 m2 : m1 ⊆ m2 -> total m1 <= total m2.
Proof.
  intros [k Hk]%map_to_list_submseteq%submseteq_Permutation. unfold total.
  rewrite (foldr_len_perm _ _ Hk), foldr_len_app. pose proof (foldr_len_nonneg k). lia.
Qed.

Lemma total_insert m p d : total (<[p := d]> m) <= total m + len d.
Proof.
  transitivity (total (delete p m) + len d).
  - rewrite <- insert_delete_eq. unfold total at 1.
    rewrite (foldr_len_perm _ _ (map_to_list_insert (delete p m) p d (lookup_delete_eq _ _))).
    unfold total. cbn. lia.
  - pose proof (total_mono (delete p m) m (delete_subseteq _ _)). lia.
Qed.

(** ** Directories *)

(** The limits are [usize] values. *)
Record limits_ok (l : VfsLimits) : Prop := {
  lo_path : 0 <= max_path_bytes l;
  lo_file : 0 <= max_file_bytes l;
  lo_aggregate : 0 <= max_aggregate_bytes l;
}.

Definition path_limit (l : VfsLimits) : Z := Z.min (max_path_bytes l) SPEC_MAX_PATH_BYTES.

(** Nodes within the limits. *)
Record bounded (l : VfsLimits) (v : Psf2Vfs) : Prop := {
  bounded_paths : forall p, is_Some (node_at v p) -> len p <= path_limit l;
  bounded_files : forall p d, files v !! p = Some d -> len d <= max_file_bytes l;
}.

Section directory.
Context (l : VfsLimits) (Hlimits : limits_ok l) (start : Builder).

(** What parsing a layer keeps: [start] is the builder before the layer. *)
Record parsed_ok (s : Builder * Psf2Vfs) : Prop := {
  po_limits : limits s.1 = l;
  po_built : built s.1 = built start;
  po_tree : tree s.2;
  po_bounded : bounded l s.2;
  po_total : total (files s.2) <= aggregate_bytes s.1 - aggregate_bytes start;
  po_aggregate : aggregate_bytes start <= aggregate_bytes s.1 <= max_aggregate_bytes l;
}.

Definition parses (parent : list Z) (r : outcome VfsError unit * (Builder * Psf2Vfs)) : Prop :=
  match r with
  | (Ok _, s) => parsed_ok s /\ parent ∈ directories s.2
  | (Err _, _) => True
  | (Panic, _) => False
  end.

Lemma insert_file_parsed s b parent name data :
  parsed_ok s -> parent ∈ directories s.2 -> name_ok name ->
  len (join_path parent name) <= path_limit l -> len data <= max_file_bytes l ->
  limits b = l -> built b = built start ->
  aggregate_bytes b = aggregate_bytes s.1 + len data -> aggregate_bytes b <= max_aggregate_bytes l ->
  parses parent (Ok tt, (b, Builder.insert_file s.2 (join_path parent name) data)).
Proof using Hlimits.
  intros [H1 H2 H3 [H4 H5] H6 H7] Hp Hn Hlen Hd Hl Hb Ha Hm. set (p := join_path parent name).
  pose proof (insert_file_tree s.2 parent name data H3 Hn Hp) as Ht.
  pose proof (len_nonneg data).
  split; [split; try done|]; cbn [fst snd].
  - split.
    + intros q. rewrite insert_file_at. case_decide; [by subst|].
      case_decide; [by intros [? ?]|]. apply H4.
    + intros q e. unfold Builder.insert_file. cbn [files modify].
      destruct (decide (q = p)) as [->|Hne]; [rewrite lookup_insert_eq; by intros [= <-]|].
      rewrite lookup_insert_ne, remove_subtree_files by done. case_decide; [done|]. apply H5.
  - unfold Builder.insert_file. cbn [files modify].
    pose proof (total_insert (files (remove_subtree p s.2)) p data) as Hi.
    pose proof (total_mono (files (remove_subtree p s.2)) (files s.2) (map_filter_subseteq _ _)). lia.
  - lia.
  - destruct (tree_parent _ Ht p) as [E|(q & m & E & Hm' & Hq)].
    + rewrite insert_file_at, decide_True by done. by eexists.
    + by apply join_nonempty in E.
    + apply join_inj in E as [-> _]; done.
Qed.

Lemma insert_directory_parsed s parent name :
  parsed_ok s -> parent ∈ directories s.2 -> name_ok name ->
  len (join_path parent name) <= path_limit l ->
  parsed_ok (s.1, Builder.insert_directory s.2 (join_path parent name)).
Proof using Hlimits.
  intros [H1 H2 H3 [H4 H5] H6 H7] Hp Hn Hlen. set (p := join_path parent name).
  split; try done; cbn [fst snd].
  - by apply insert_directory_tree.
  - split.
    + intros q. rewrite insert_directory_at. case_decide; [by subst|]. apply H4.
    + intros q e. unfold Builder.insert_directory. cbn. intros [_ Hq]%lookup_delete_Some. by apply (H5 q).
  - unfold Builder.insert_directory. cbn [files].
    pose proof (total_mono (delete p (files s.2)) (files s.2) (delete_subseteq _ _)). lia.
Qed.

(** A directory still present at the end keeps its parent. *)
Lemma parses_parent parent name r :
  name_ok name -> parses (join_path parent name) r -> parses parent r.
Proof using Type.
  intros Hn. destruct r as [[[]|e|] s]; [|done..]. intros [Hs Hin]. split; [done|].
  destruct (tree_parent _ (po_tree s Hs) (join_path parent name)) as [E|(q & m & E & Hm & Hq)].
  - rewrite node_at_dir by (done || apply Hs). by eexists.
  - by apply join_nonempty in E.
  - by apply join_inj in E as [-> _].
Qed.

Lemma add_entry_spec recurse origin input entry_offset parent name co size bs s :
  bytes_ok input -> len input < 2 ^ 64 -> 0 <= entry_offset ->
  in_u 32 co -> in_u 32 size -> in_u 32 bs ->
  parsed_ok s -> parent ∈ directories s.2 -> name_ok name ->
  len (join_path parent name) <= path_limit l ->
  (forall o path s, parsed_ok s -> path ∈ directories s.2 -> entry_offset < o ->
    parses path (recurse o path s)) ->
  parses parent (Builder.add_entry recurse origin input entry_offset (join_path parent name)
    co size bs s).
Proof using H0 Hlimits.
  unfold in_u. intros Hb Hlt He Hco Hsize Hbs Hs Hp Hn Hlen Hrec. unfold Builder.add_entry.
  destruct (_ && _ && _).
  { apply insert_file_parsed; try done; try apply Hs; [apply Hlimits|unfold len; cbn; lia]. }
  destruct (_ && _).
  - destruct (Z.leb_spec co entry_offset); [done|].
    apply (parses_parent parent name); [done|]. apply Hrec; [|cbn; set_solver|lia].
    by apply insert_directory_parsed.
  - destruct (_ && _) eqn:E; [|done].
    rewrite !andb_true_iff, !negb_true_iff, !Z.eqb_neq in E. destruct E as [[E1 E2] E3].
    destruct (Z.leb_spec co entry_offset); [done|].
    pose proof (parse_file_spec origin input co size bs (join_path parent name) s.1) as Hf.
    destruct (Builder.parse_file _ _ _ _ _ _ _) as [[data|e|] b']; [|done|by apply Hf; lia || done].
    destruct Hf as (Hd & Hmax & Hl & Hbu & Ha & Hm); try done; try lia.
    rewrite (po_limits s Hs) in *.
    apply insert_file_parsed; try done; try lia. by rewrite Hbu, (po_built s Hs).
Qed.

Lemma parse_entry_spec origin input parent entry_offset :
  bytes_ok input -> len input < 2 ^ 64 -> 0 <= entry_offset ->
  entry_offset + ENTRY_BYTES <= len input ->
  match Builder.parse_entry origin input parent entry_offset l with
  | Ok (path, (co, size, bs)) => exists name, path = join_path parent name /\ name_ok name /\
      len path <= path_limit l /\ in_u 32 co /\ in_u 32 size /\ in_u 32 bs
  | Err _ => True
  | Panic => False
  end.
Proof using Type.
  unfold ENTRY_BYTES. intros Hb Hlt Ho Hle. unfold Builder.parse_entry.
  rewrite plus_ok by (unfold NAME_BYTES; lia). cbn [obind].
  destruct (Z.ltb_spec (len input) (entry_offset + NAME_BYTES)); [unfold NAME_BYTES in *; lia|].
  destruct (parse_name _) as [name|e|] eqn:En; cbn [map_err obind]; [|done|].
  2: { unfold parse_name in En. by repeat case_match. }
  apply parse_name_spec in En.
  2: { rewrite len_sub by (unfold NAME_BYTES in *; lia). lia. }
  fold (path_limit l). destruct (Z.ltb_spec (path_limit l) (len (join_path parent name))); [done|].
  destruct (read_u32_inside input (entry_offset + 36)) as [co E1]; [lia..|].
  destruct (read_u32_inside input (entry_offset + 40)) as [size E2]; [lia..|].
  destruct (read_u32_inside input (entry_offset + 44)) as [bs E3]; [lia..|].
  rewrite E1, E2, E3. cbn [expect obind]. exists name.
  apply vfs_read_u32_spec in E1 as [? _], E2 as [? _], E3 as [? _]; try done; lia.
Qed.

Lemma parse_entries_spec recurse origin input table_start parent n index s :
  bytes_ok input -> len input < 2 ^ 64 -> 0 <= table_start -> 0 <= index ->
  table_start + (index + Z.of_nat n) * ENTRY_BYTES <= len input ->
  parsed_ok s -> parent ∈ directories s.2 ->
  (forall o path s, parsed_ok s -> path ∈ directories s.2 -> table_start < o ->
    parses path (recurse o path s)) ->
  parses parent (Builder.parse_entries recurse origin input table_start parent n index s).
Proof using H0 Hlimits.
  unfold ENTRY_BYTES. intros Hb Hlt Ht Hi Hle Hs Hp Hrec. revert index s Hi Hle Hs Hp.
  induction n as [|n IH]; intros index s Hi Hle Hs Hp; cbn [Builder.parse_entries]; [done|].
  rewrite Nat2Z.inj_succ in Hle. rewrite times_ok by (unfold ENTRY_BYTES; lia). cbn [obind].
  rewrite plus_ok by (unfold ENTRY_BYTES; lia). cbn [obind].
  set (eo := table_start + index * ENTRY_BYTES).
  assert (table_start <= eo /\ eo + ENTRY_BYTES <= len input) as [He1 He2]
    by (unfold eo, ENTRY_BYTES; lia).
  rewrite (po_limits s Hs).
  pose proof (parse_entry_spec origin input parent eo Hb Hlt ltac:(lia) He2) as He.
  destruct (Builder.parse_entry _ _ _ _ _) as [[path [[co size] bs]]|e|]; cbn [obind]; [|done|done].
  destruct He as (name & -> & Hn & Hlen & Hco & Hsize & Hbs).
  pose proof (add_entry_spec recurse origin input eo parent name co size bs s) as Ha.
  destruct (Builder.add_entry _ _ _ _ _ _ _ _ _) as [[u|e|] s']; [|done|].
  - destruct Ha as [Hs' Hp']; try done; [lia| |apply IH; lia || done].
    intros o path s1 Hs1 Hp1 Ho. apply Hrec; [done|done|lia].
  - apply Ha; try done; [lia|]. intros o path s1 Hs1 Hp1 Ho. apply Hrec; [done|done|lia].
Qed.

Lemma parse_table_spec origin input o parent count :
  match Builder.parse_table origin input o parent count with
  | Ok table_start => table_start = o + 4 /\ table_start + count * ENTRY_BYTES <= len input
  | Err _ => True
  | Panic => False
  end.
Proof using Type.
  unfold Builder.parse_table.
  destruct (checked_add_u 64 o 4) as [a|] eqn:Ea; cbn [ok_or obind]; [|done].
  destruct (checked_mul_u 64 count ENTRY_BYTES) as [n|] eqn:En; cbn [ok_or obind]; [|done].
  destruct (checked_add_u 64 a n) as [e|] eqn:Ee; cbn [ok_or obind]; [|done].
  apply checked_add_u_Some in Ea as [-> _], Ee as [-> _].
  apply checked_mul_u_Some in En as [-> _].
  by destruct (Z.ltb_spec (len input) (o + 4 + count * ENTRY_BYTES)).
Qed.

(** The directory table of a parent that is already there, or the root of a new layer. *)
Definition ready (parent : list Z) (v : Psf2Vfs) : Prop :=
  parent ∈ directories v \/ parent = [] /\ v = empty_layer.

Lemma add_parent_parsed b v parent :
  parsed_ok (b, v) -> ready parent v ->
  parsed_ok (b, v <| directories := {[parent]} ∪ directories v |>).
Proof using H0 Hlimits.
  intros Hs [Hp|[-> ->]].
  - assert ({[parent]} ∪ directories v = directories v) as -> by set_solver. by destruct v.
  - destruct Hs as [H1 H2 _ _ H5 H6]. cbn in *.
    assert (forall p, node_at (mkPsf2Vfs ∅ ({[ [] ]} ∪ ∅)) p = Some DirNode \/
                      node_at (mkPsf2Vfs ∅ ({[ [] ]} ∪ ∅)) p = None) as Hn.
    { intros p. unfold node_at. cbn. rewrite lookup_empty. case_decide; auto. }
    assert (forall p, is_Some (node_at (mkPsf2Vfs ∅ ({[ [] ]} ∪ ∅)) p) -> p = []) as Hroot.
    { intros p. unfold node_at. cbn. rewrite lookup_empty. case_decide; [set_solver|by intros [? ?]]. }
    split; cbn; try done.
    + split; [intros p d; cbn; by rewrite lookup_empty|]. intros p Hp%Hroot. by left.
    + split; [|intros p d; cbn; by rewrite lookup_empty]. intros p ->%Hroot.
      pose proof (lo_path l Hlimits). unfold path_limit, len, SPEC_MAX_PATH_BYTES. cbn. lia.
Qed.

(** Every subdirectory lies behind its entry: the input's length bounds the depth. *)
Lemma parse_directory_spec fuel origin input o parent depth s :
  bytes_ok input -> len input < 2 ^ 64 -> 0 <= o -> 0 <= depth <= o ->
  (0 < fuel)%nat -> len input - o < Z.of_nat fuel ->
  parsed_ok s -> ready parent s.2 ->
  parses parent (Builder.parse_directory fuel origin input o parent depth s).
Proof using H0 Hlimits.
  intros Hb Hlt. revert o parent depth s.
  induction fuel as [|fuel IH]; intros o parent depth [b v] Ho Hd Hf0 Hf Hs Hp; [lia|].
  cbn [Builder.parse_directory]. destruct (_ <? depth); [done|].
  destruct (read_u32 input o) as [count|] eqn:Er; cbn [ok_or]; [|done].
  apply vfs_read_u32_spec in Er as [Hc Hlen]; [|done|done]. unfold in_u in Hc.
  unfold Builder.charge_entries.
  destruct (checked_add_u 64 (entries b) count) as [n|]; cbn [ok_or]; [|done].
  destruct (_ <? n); [done|].
  pose proof (parse_table_spec origin input o parent count) as Ht.
  destruct (Builder.parse_table _ _ _ _ _) as [start_|e|]; [|done|done]. destruct Ht as [-> Ht].
  apply parse_entries_spec; try done; try lia.
  - apply (add_parent_parsed (b <| entries := n |>) v parent); [|done]. by destruct Hs.
  - cbn. set_solver.
  - intros o' path s' Hs' Hp' Ho'. rewrite plus_ok by lia.
    destruct (Nat.eq_dec fuel 0) as [->|]; [lia|].
    apply IH; try done; try lia. by left.
Qed.

Lemma parse_layer_spec origin input :
  bytes_ok input -> len input < 2 ^ 64 ->
  limits start = l -> aggregate_bytes start <= max_aggregate_bytes l ->
  match Builder.parse_layer origin input start with
  | (Ok _, s) => parsed_ok s /\ [] ∈ directories s.2
  | (Err _, _) => True
  | (Panic, _) => False
  end.
Proof using H0 Hlimits.
  intros Hb Hlt Hl Ha. apply parse_directory_spec; try done; try lia.
  - unfold len. lia.
  - assert (forall p, node_at empty_layer p = None) as Hn by done.
    split; cbn; try done; try lia.
    + split; [done|]. intros p [n Hp]. by rewrite Hn in Hp.
    + split; [|done]. intros p [n Hp]. by rewrite Hn in Hp.
    + unfold total. rewrite map_to_list_empty. cbn. lia.
  - by right.
Qed.
End directory.

(** ** Whole plans *)

(** What a path denotes in a stack of layers, the topmost first. *)
Fixpoint stacked (layers : list Psf2Vfs) : list Z -> option node :=
  match layers with
  | [] => fun q => if decide (q = []) then Some DirNode else None
  | layer :: layers => over layer (stacked layers)
  end.

(** The layer that was parsed from a plan layer, by some builder. *)
Definition layer_of (p : PlanLayer) (v : Psf2Vfs) : Prop :=
  version (layer_container p) = Psf2 /\ tree v /\ [] ∈ directories v /\
  exists b b', Builder.parse_layer (layer_origin p) (reserved (layer_container p)) b = (Ok tt, (b', v)).

Definition plan_ok (layers : list PlanLayer) : Prop :=
  Forall (fun p => bytes_ok (reserved (layer_container p)) /\
                   len (reserved (layer_container p)) < 2 ^ 64) layers.

(** What has been built: the nodes of the layers so far, within the limits. *)
Record built_ok (l : VfsLimits) (layers : list Psf2Vfs) (b : Builder) : Prop := {
  bo_limits : limits b = l;
  bo_tree : tree (built b);
  bo_root : [] ∈ directories (built b);
  bo_nodes : forall q, node_at (built b) q = stacked layers q;
  bo_bounded : bounded l (built b);
  bo_total : total (files (built b)) <= aggregate_bytes b <= max_aggregate_bytes l;
}.

Lemma over_ext layer f g q : (forall q, f q = g q) -> over layer f q = over layer g q.
Proof using Type. intros E. unfold over. by rewrite E. Qed.

Lemma node_files v w :
  (forall q, node_at v q = node_at w q) -> files v = files w.
Proof using Type.
  intros E. apply map_eq. intros q. specialize (E q). unfold node_at in E.
  destruct (files v !! q), (files w !! q); try congruence; by case_decide.
Qed.

(** A layer's files and those of the filesystem below make at most their sum. *)
Lemma total_union (m1 m2 : gmap (list Z) (list Z)) : total (m1 ∪ m2) <= total m1 + total m2.
Proof using Type.
  induction m1 as [|q d m1 Hq IH] using map_ind.
  - rewrite (left_id_L ∅ (∪)). unfold total at 2. rewrite map_to_list_empty. cbn. lia.
  - rewrite <- insert_union_l. pose proof (total_insert (m1 ∪ m2) q d).
    enough (total (<[q := d]> m1) = total m1 + len d) by lia.
    unfold total. rewrite (foldr_len_perm _ _ (map_to_list_insert m1 q d Hq)). cbn. lia.
Qed.

Lemma apply_files_subset layer v :
  tree layer -> tree v -> [] ∈ directories v ->
  files (Builder.apply layer v) ⊆ files layer ∪ files v.
Proof using Type.
  intros Hl Hv Hr. apply map_subseteq_spec. intros q d Hq.
  apply node_at_FileNode in Hq. rewrite apply_at in Hq by done. unfold over in Hq.
  apply lookup_union_Some_raw. destruct (node_at layer q) as [n|] eqn:En.
  - left. simplify_eq. by apply node_at_FileNode.
  - right. case_decide; [done|]. apply node_at_FileNode in Hq. split; [|done].
    unfold node_at in En. by destruct (files layer !! q).
Qed.

Lemma apply_bounded l layer v :
  tree layer -> tree v -> [] ∈ directories v -> bounded l layer -> bounded l v ->
  bounded l (Builder.apply layer v).
Proof using Type.
  intros Hl Hv Hr [H1 H2] [H3 H4]. split.
  - intros p. rewrite apply_at by done. unfold over.
    destruct (node_at layer p) eqn:En; [intros _; apply H1; by eexists|].
    case_decide; [by intros [? ?]|]. apply H3.
  - intros p d Hp. pose proof (lookup_weaken _ _ _ _ Hp (apply_files_subset layer v Hl Hv Hr)) as Hu.
    apply lookup_union_Some_raw in Hu as [Hu|[_ Hu]]; eauto.
Qed.

Lemma new_built l : limits_ok l -> built_ok l [] (Builder.new l).
Proof using H0.
  intros Hl.
  assert (forall q, node_at (built (Builder.new l)) q = if decide (q = []) then Some DirNode else None)
    as Hn.
  { intros q. unfold node_at. cbn. rewrite lookup_empty. apply decide_ext. set_solver. }
  split; cbn [Builder.new limits built files directories aggregate_bytes]; try done.
  - split; [intros p d; cbn; by rewrite lookup_empty|]. intros p. rewrite Hn.
    case_decide; [by left|by intros [? ?]].
  - split; [|intros p d; cbn; by rewrite lookup_empty]. intros p. rewrite Hn.
    case_decide; [subst|by intros [? ?]]. intros _. pose proof (lo_path l Hl).
    unfold path_limit, len, SPEC_MAX_PATH_BYTES. cbn. lia.
  - unfold total. rewrite map_to_list_empty. cbn. pose proof (lo_aggregate l Hl). lia.
Qed.

Lemma build_layers_spec l plan layers b :
  limits_ok l -> plan_ok plan -> built_ok l layers b ->
  match Builder.build_layers plan b with
  | (Ok _, b') => exists parsed, Forall2 layer_of plan parsed /\ built_ok l (rev parsed ++ layers) b'
  | (Err _, _) => True
  | (Panic, _) => False
  end.
Proof using H0.
  intros Hl. revert layers b. induction plan as [|p plan IH]; intros layers b Hp Hb;
    cbn [Builder.build_layers]; [by exists []|].
  apply Forall_cons in Hp as [[Hbytes Hlen] Hp].
  case_bool_decide as Hv; cbn [negb]; [|done].
  destruct Hb as [H1 H2 H3 H4 H5 H6].
  pose proof (parse_layer_spec l Hl b (layer_origin p) (reserved (layer_container p)) Hbytes Hlen
    H1 (proj2 H6)) as Hparse.
  destruct (Builder.parse_layer _ _ b) as [[[]|e|] [b1 v]] eqn:Eparse; [|done|done].
  destruct Hparse as [[P1 P2 P3 P4 P5 P6] Hroot]. cbn [fst snd] in *.
  destruct (apply_tree v (built b1)) as [Ht Hr]; [done|done|by rewrite P2..|].
  set (next := b1 <| built := Builder.apply v (built b1) |>).
  assert (built_ok l (v :: layers) next) as Hnext.
  { unfold next. rewrite P2 in *. split; cbn; try done.
    - intros q. rewrite apply_at by done. by apply over_ext.
    - by apply apply_bounded.
    - split; [|lia].
      pose proof (total_mono _ _ (apply_files_subset v (built b) P3 H2 H3)).
      pose proof (total_union (files v) (files (built b))). lia. }
  specialize (IH (v :: layers) next Hp Hnext).
  destruct (Builder.build_layers plan next) as [[[]|e|] b']; [|done|done].
  destruct IH as (parsed & Hall & Hok). exists (v :: parsed). split.
  - constructor; [|done]. split_and!; try done. by exists b, b1.
  - cbn. by rewrite <- app_assoc.
Qed.

Lemma from_load_plan_spec plan l :
  limits_ok l -> plan_ok (p2_layers plan) ->
  match Psf2Vfs.from_load_plan plan l with
  | Ok v => exists parsed b, Forall2 layer_of (p2_layers plan) parsed /\ built_ok l (rev parsed) b /\
      v = built b
  | Err _ => True
  | Panic => False
  end.
Proof using H0.
  intros Hl Hp. unfold Psf2Vfs.from_load_plan.
  pose proof (build_layers_spec l (p2_layers plan) [] (Builder.new l) Hl Hp) as Hb.
  destruct (Builder.build_layers _ _) as [[[]|e|] b]; cbn [omapok obind].
  - destruct Hb as (parsed & Hall & Hb).
    + apply new_built; done.
    + rewrite app_nil_r in Hb. by exists parsed, b.
  - done.
  - apply Hb. by apply new_built.
Qed.
End decoder_facts.

(** ** Lookups *)

Definition canonical (b : Z) : Z := if b =? BACKSLASH then SLASH else to_ascii_lowercase b.

(** A component that lookups refuse although the parser accepts it as a name. *)
Definition is_dots (c : list Z) : Prop := c = str "." \/ c = str "..".

#[export] Instance is_dots_dec c : Decision (is_dots c).
Proof. unfold is_dots. apply _. Defined.

Lemma vfs_split_on_none sep n : sep ∉ n -> split_on sep n = [n].
Proof.
  induction n as [|b n IH]; cbn; [done|]. intros [Hb Hn]%not_elem_of_cons.
  rewrite (proj2 (Z.eqb_neq b sep)) by congruence. by rewrite IH.
Qed.

Lemma split_on_nonempty sep n : split_on sep n <> [].
Proof. destruct n as [|b n]; cbn; [done|]. case_match; [done|]. by case_match. Qed.

Lemma vfs_split_on_app sep a b : split_on sep (a ++ sep :: b) = split_on sep a ++ split_on sep b.
Proof.
  induction a as [|c a IH]; cbn; [by rewrite Z.eqb_refl|]. rewrite IH.
  destruct (c =? sep); [done|]. pose proof (split_on_nonempty sep a).
  by destruct (split_on sep a).
Qed.

Lemma split_on_map sep f n :
  (forall b, f b = sep <-> b = sep) -> split_on sep (map f n) = map (map f) (split_on sep n).
Proof.
  intros Hf. induction n as [|b n IH]; cbn; [done|]. rewrite IH.
  destruct (Z.eqb_spec b sep) as [->|Hb].
  - by rewrite (proj2 (Hf sep)), Z.eqb_refl.
  - rewrite (proj2 (Z.eqb_neq (f b) sep)) by (by rewrite Hf).
    by destruct (split_on sep n).
Qed.

Lemma join_split p : join_parts (split_on SLASH p) = p.
Proof.
  induction p as [|b p IH]; cbn; [done|]. pose proof (split_on_nonempty SLASH p).
  destruct (Z.eqb_spec b SLASH) as [->|Hb].
  - destruct (split_on SLASH p); [done|]. cbn in *. by rewrite IH.
  - destruct (split_on SLASH p) as [|c cs]; [done|]. cbn in *. destruct cs; cbn in *; by rewrite <- IH.
Qed.

(** The components of a node of a tree are names. *)
Lemma tree_components v p :
  tree v -> is_Some (node_at v p) -> p <> [] -> Forall name_ok (split_on SLASH p).
Proof.
  intros Hv. remember (length p) as k eqn:Ek. revert p Ek.
  induction (lt_wf k) as [k _ IH]. intros p -> Hp Hne.
  destruct (tree_parent v Hv p Hp) as [->|(q & n & -> & Hn & Hq)]; [done|].
  unfold join_path in *. case_bool_decide as Hq0.
  - rewrite vfs_split_on_none by by apply name_no_slash. by constructor.
  - rewrite vfs_split_on_app, (vfs_split_on_none SLASH n) by by apply name_no_slash.
    apply Forall_app. split; [|by constructor].
    apply (IH (length q)) with (p := q); try done.
    + rewrite length_app. cbn. lia.
    + rewrite node_at_dir by done. by eexists.
Qed.

Lemma lowercase_slash b : to_ascii_lowercase b = SLASH <-> b = SLASH.
Proof.
  unfold to_ascii_lowercase, is_upper, SLASH.
  destruct (Z.leb_spec 0x41 b), (Z.leb_spec b 0x5a); cbn [andb]; lia.
Qed.

Lemma lowercase_range b :
  printable (to_ascii_lowercase b) = true -> printable b = true.
Proof.
  unfold to_ascii_lowercase, is_upper, printable. rewrite !andb_true_iff, !Z.leb_le.
  destruct (Z.leb_spec 0x41 b), (Z.leb_spec b 0x5a); cbn [andb]; lia.
Qed.

Lemma lookup_components_ok cs ns :
  map (map to_ascii_lowercase) cs = ns -> Forall name_ok ns -> Forall (fun c => ~ is_dots c) ns ->
  lookup_components cs = Ok ns.
Proof.
  intros <-. induction cs as [|c cs IH]; cbn [map lookup_components]; [done|].
  intros [Hc Hcs]%Forall_cons [Hd Hds]%Forall_cons.
  pose proof (name_nonempty _ Hc) as Hne. rewrite bool_decide_false by (by intros ->).
  destruct Hc as [Hlen Hb]. rewrite Forall_map in Hb. rewrite Forall_forall in Hb.
  destruct (_ || _) eqn:E; [exfalso|by rewrite IH].
  rewrite !orb_true_iff, !bool_decide_eq_true, Z.ltb_lt, existsb_exists in E.
  destruct E as [[[-> | ->]|E]|(b & Hin & E)].
  - apply Hd. by left.
  - apply Hd. by right.
  - unfold len in *. rewrite length_map in Hlen. lia.
  - apply list_elem_of_In, Hb in Hin as (H1 & H2 & H3 & H4 & H5).
    rewrite (lowercase_range b H1) in E. cbn in E. apply Z.eqb_eq in E as ->. by apply H5.
Qed.

(** A component [.] or [..] is refused, wherever it stands. *)
Lemma lowercase_dots c : is_dots (map to_ascii_lowercase c) -> is_dots c.
Proof.
  assert (forall b, to_ascii_lowercase b = 0x2e -> b = 0x2e) as Hb.
  { intros b. unfold to_ascii_lowercase, is_upper.
    destruct (Z.leb_spec 0x41 b), (Z.leb_spec b 0x5a); cbn [andb]; lia. }
  intros [E|E]; destruct c as [|b [|b' [|]]]; try discriminate E.
  - injection E as E%Hb. left. by subst.
  - injection E as E%Hb E'%Hb. right. by subst.
Qed.

Lemma lookup_components_dots cs :
  Exists is_dots (map (map to_ascii_lowercase) cs) -> lookup_components cs = Err InvalidPath.
Proof.
  induction cs as [|c cs IH]; cbn [map lookup_components]; [by intros ?%Exists_nil|].
  intros [Hc%lowercase_dots|Hcs]%Exists_cons.
  - rewrite bool_decide_false by (by destruct Hc as [-> | ->]).
    destruct Hc as [-> | ->]; reflexivity.
  - specialize (IH Hcs). case_bool_decide; [done|]. case_match; [done|]. by rewrite IH.
Qed.

Lemma map_canonical s : map canonical s = map to_ascii_lowercase (replace_byte BACKSLASH SLASH s).
Proof.
  unfold replace_byte. rewrite map_map. apply map_ext. intros b. unfold canonical.
  by destruct (b =? BACKSLASH).
Qed.

(** Any spelling of a node's path is normalized to it. *)
Lemma normalize_spelling v p s :
  tree v -> is_Some (node_at v p) -> len p <= SPEC_MAX_PATH_BYTES ->
  Forall (fun c => ~ is_dots c) (split_on SLASH p) -> map canonical s = p ->
  normalize_lookup s SPEC_MAX_PATH_BYTES = Ok p.
Proof.
  intros Hv Hp Hlen Hd Hs. unfold normalize_lookup.
  assert (len s = len p) as Hls by (subst p; unfold len; by rewrite length_map).
  rewrite map_canonical in Hs.
  pose proof (split_on_map SLASH to_ascii_lowercase (replace_byte BACKSLASH SLASH s) lowercase_slash)
    as Hsplit. rewrite Hs in Hsplit.
  assert (p <> [] -> Forall name_ok (split_on SLASH p)) as Hn by by apply (tree_components v).
  assert (existsb (fun b => 128 <=? b) s = false) as ->.
  { apply not_true_iff_false. rewrite existsb_exists. intros (b & Hin & Hb%Z.leb_le).
    assert (b ∈ replace_byte BACKSLASH SLASH s) as Hin'.
    { unfold replace_byte. apply list_elem_of_fmap. exists b.
      rewrite (proj2 (Z.eqb_neq b BACKSLASH)) by (unfold BACKSLASH; lia).
      split; [done|]. by apply list_elem_of_In. }
    assert (to_ascii_lowercase b = b) as El.
    { unfold to_ascii_lowercase, is_upper. destruct (Z.leb_spec b 0x5a); [lia|].
      by rewrite andb_false_r. }
    assert (b ∈ p) as Hbp.
    { rewrite <- Hs. apply list_elem_of_fmap. by exists b. }
    assert (p <> []) as Hne by (intros ->; by apply elem_of_nil in Hbp).
    specialize (Hn Hne). clear -Hn Hbp Hb. rewrite <- (join_split p) in Hbp.
    induction Hn as [|c cs [_ Hc] Hcs IH]; cbn in Hbp; [by apply elem_of_nil in Hbp|].
    assert (b ∈ c -> False) as Hcase.
    { intros Hin. rewrite Forall_forall in Hc. destruct (Hc b Hin) as [Hpr _].
      unfold printable in Hpr. apply andb_true_iff in Hpr as [_ Hpr%Z.leb_le]. lia. }
    destruct cs as [|c' cs]; [by apply Hcase|].
    apply elem_of_app in Hbp as [Hin|Hin]; [by apply Hcase|].
    apply elem_of_cons in Hin as [->|Hin]; [unfold SLASH in Hb; lia|by apply IH]. }
  rewrite Hls, (proj2 (Z.ltb_ge _ _)) by done. cbn [orb].
  destruct (decide (p = [])) as [->|Hne].
  { apply map_eq_nil in Hs. rewrite Hs. done. }
  rewrite (lookup_components_ok _ (split_on SLASH p)) by (done || by apply Hn).
  cbn [obind]. rewrite join_split, (proj2 (Z.ltb_ge _ _)) by done. done.
Qed.

Lemma normalize_dots p s m :
  Exists is_dots (split_on SLASH p) -> map canonical s = p ->
  normalize_lookup s m = Err InvalidPath.
Proof.
  intros Hd <-. rewrite map_canonical, split_on_map in Hd by apply lowercase_slash.
  unfold normalize_lookup. case_match; [done|]. by rewrite lookup_components_dots.
Qed.

(** ** The contract *)

Definition sample_name (n : list Z) : list Z := n ++ replicate (36 - length n) 0.
Definition sample_entry (n : list Z) (offset size block_size : Z) : list Z :=
  sample_name n ++ le_bytes 4 offset ++ le_bytes 4 size ++ le_bytes 4 block_size.

(** A file of two stored blocks and a directory with an empty file. *)
Definition sample_lower : list Z :=
  le_bytes 4 2 ++ sample_entry (str "Song") 100 3 2 ++ sample_entry (str "D") 113 0 0 ++
  le_bytes 4 3 ++ le_bytes 4 2 ++ [0x78; 1; 2] ++ [0x78; 3] ++
  le_bytes 4 1 ++ sample_entry (str "x") 0 0 0.

(** An empty file in the place of the directory. *)
Definition sample_upper : list Z := le_bytes 4 1 ++ sample_entry (str "d") 0 0 0.

Definition sample_layer (bytes : list Z) : PlanLayer :=
  mkPlanLayer (str "sample")
    (mkContainer Psf2 bytes [] [] [] (mkByteRange 16 16) (mkByteRange 16 16) None).


Definition sample_plan (layers : list (list Z)) : Psf2LoadPlan :=
  mkPsf2LoadPlan (str "sample") (map sample_layer layers) None
    (mkMetadata None None None None None None None None (SpecFloat.S754_zero false) None
       (mkDuration 0 1) None []).

Lemma default_limits_ok : limits_ok default_vfs_limits.
Proof. by split. Qed.

Lemma sample_plan_ok : plan_ok (p2_layers (sample_plan [sample_lower; sample_upper])).
Proof.
  assert (forall i, bytes_ok i <-> forallb (fun b => (0 <=? b) && (b <? 256)) i = true) as Hb.
  { intros i. rewrite forallb_forall, Forall_forall. split; intros H b Hin.
    - apply andb_true_iff. rewrite Z.leb_le, Z.ltb_lt. by apply H, list_elem_of_In.
    - apply list_elem_of_In, H, andb_true_iff in Hin as [H1%Z.leb_le H2%Z.ltb_lt]. done. }
  constructor; [|constructor; [|constructor]];
    (split; [apply Hb; vm_compute; reflexivity|vm_compute; reflexivity]).
Qed.

(** C18: Assembling the filesystem of a plan never panics, whatever the bytes of its
    layers.  A filesystem that is built is a tree of valid names within the limits on
    path length, file size and total size, and every path denotes what the topmost layer
    that names it says: a later layer replaces the nodes it names, merges directories,
    and hides everything below one of its files. *)
Theorem vfs_assembly `{DecoderLaws} plan l :
  limits_ok l -> plan_ok (p2_layers plan) ->
  match Psf2Vfs.from_load_plan plan l with
  | Ok v => tree v /\ bounded l v /\ total (files v) <= max_aggregate_bytes l /\
      exists parsed, Forall2 layer_of (p2_layers plan) parsed /\
        forall q, node_at v q = stacked (rev parsed) q
  | Err _ => True
  | Panic => False
  end.
Proof.
  intros Hl Hp. pose proof (from_load_plan_spec plan l Hl Hp) as Hf.
  destruct (Psf2Vfs.from_load_plan plan l) as [v|e|]; [|done..].
  destruct Hf as (parsed & b & Hall & Hb & ->). destruct Hb as [_ H2 _ H4 H5 H6].
  split_and!; [done|done|lia|]. by exists parsed.
Qed.

(** The upper layer's file hides the directory and what was in it. *)
Lemma vfs_assembly_witness :
  exists v, Psf2Vfs.from_load_plan (sample_plan [sample_lower; sample_upper]) default_vfs_limits = Ok v /\
    map_to_list (files v) = [(str "song", [1; 2; 3]); (str "d", [])] /\ tree v.
Proof.
  pose proof (vfs_assembly (sample_plan [sample_lower; sample_upper]) default_vfs_limits
    default_limits_ok sample_plan_ok) as H.
  destruct (Psf2Vfs.from_load_plan _ _) as [v|e|] eqn:E;
    [|vm_compute in E; discriminate E|vm_compute in E; discriminate E].
  exists v. split; [reflexivity|]. split; [|exact (proj1 H)].
  vm_compute in E. injection E as <-. vm_compute. reflexivity.
Defined.

(** C19: A file or directory of a built filesystem is found under every spelling of its
    path, in either case and with either separator: a lookup tells its kind, [file] gives
    its whole contents and [read] copies the requested range and nothing more.  The
    exception is a path with a component [.] or [..], names the parser accepts: every
    lookup of such a node is refused as an invalid path. *)
Theorem vfs_lookup `{DecoderLaws} plan l v p s n :
  limits_ok l -> plan_ok (p2_layers plan) -> Psf2Vfs.from_load_plan plan l = Ok v ->
  node_at v p = Some n -> map canonical s = p ->
  if decide (Exists is_dots (split_on SLASH p)) then
    let refused := VfsError.lookup s InvalidPath in
    Psf2Vfs.node_kind s v = Err refused /\ Psf2Vfs.file s v = Err refused /\
    forall offset output, Psf2Vfs.read s offset output v = Err refused
  else
  match n with
  | DirNode => Psf2Vfs.node_kind s v = Ok (Some Directory) /\
      Psf2Vfs.file s v = Err (VfsError.lookup s IsDirectory)
  | FileNode d => Psf2Vfs.node_kind s v = Ok (Some File) /\ Psf2Vfs.file s v = Ok d /\
      forall offset output, 0 <= offset ->
        exists count rest, Psf2Vfs.read s offset output v = Ok (count, rest) /\
          count = Z.min (Z.max 0 (len d - offset)) (len output) /\ len rest = len output /\
          rest = sub d offset (offset + count) ++ drop (Z.to_nat count) output
  end.
Proof.
  intros Hl Hp Hv Hn Hs. case_decide as Hd.
  { pose proof (normalize_dots p s SPEC_MAX_PATH_BYTES Hd Hs) as E. cbv zeta.
    unfold Psf2Vfs.read, Psf2Vfs.node_kind, Psf2Vfs.file. rewrite E. by split_and!. }
  apply Forall_Exists_neg in Hd.
  pose proof (from_load_plan_spec plan l Hl Hp) as Hf. rewrite Hv in Hf.
  destruct Hf as (parsed & b & _ & [_ Ht _ _ Hb _] & ->).
  assert (len p <= SPEC_MAX_PATH_BYTES) as Hlen.
  { transitivity (path_limit l); [|unfold path_limit; lia]. apply (bounded_paths l _ Hb).
    rewrite Hn. by eexists. }
  assert (is_Some (node_at (built b) p)) as Hsome by (rewrite Hn; by eexists).
  pose proof (normalize_spelling (built b) p s Ht Hsome Hlen Hd Hs) as Hnorm.
  assert (forall d, n = FileNode d -> files (built b) !! p = Some d) as Hfile.
  { intros d ->. by apply node_at_FileNode. }
  destruct n as [d|].
  - specialize (Hfile d eq_refl).
    assert (Psf2Vfs.file s (built b) = Ok d) as Hfl.
    { unfold Psf2Vfs.file. rewrite Hnorm. cbn [map_err obind]. by rewrite Hfile. }
    split_and!; [|done|].
    + unfold Psf2Vfs.node_kind. rewrite Hnorm. cbn [map_err obind].
      rewrite bool_decide_true; [done|]. by rewrite Hfile.
    + intros offset output Ho. unfold Psf2Vfs.read. rewrite Hfl. cbn [obind].
      destruct (Z.ltb_spec (len d) offset) as [Hlt|Hge].
      * exists 0, output. pose proof (len_nonneg output). split_and!; [done|lia|done|].
        unfold sub. by rewrite Z.add_0_r, Z.sub_diag.
      * rewrite slice_in, sub_drop by lia. cbn [obind]. eexists _, _. split; [done|].
        assert (Z.of_nat (length (drop (Z.to_nat offset) d) `min` length output)
          = Z.min (Z.max 0 (len d - offset)) (len output)) as Ec.
        { rewrite length_drop. unfold len in *. lia. }
        split_and!; [done| |].
        -- unfold len in *. rewrite length_app, length_take, length_drop, length_drop. lia.
        -- unfold sub. rewrite Z.add_simpl_l, Nat2Z.id. done.
  - pose proof (node_at_DirNode _ _ Hn) as Hdir.
    assert (files (built b) !! p = None) as Hnone.
    { destruct (files (built b) !! p) as [d|] eqn:E; [|done].
      by destruct (tree_disjoint _ Ht p d E). }
    unfold Psf2Vfs.node_kind, Psf2Vfs.file. rewrite Hnorm. cbn [map_err obind].
    rewrite Hnone, (bool_decide_true (p ∈ directories (built b))) by done.
    rewrite bool_decide_false by (by intros [? ?]). done.
Qed.

Lemma vfs_lookup_witness :
  exists v, Psf2Vfs.from_load_plan (sample_plan [sample_lower]) default_vfs_limits = Ok v /\
    Psf2Vfs.file (str "D\X") v = Ok [].
Proof.
  assert (plan_ok (p2_layers (sample_plan [sample_lower]))) as Hp.
  { pose proof sample_plan_ok as H. apply Forall_cons in H as [H _]. by constructor. }
  destruct (Psf2Vfs.from_load_plan (sample_plan [sample_lower]) default_vfs_limits)
    as [v|e|] eqn:E; [|vm_compute in E; discriminate E|vm_compute in E; discriminate E].
  exists v. split; [reflexivity|].
  assert (node_at v (str "d/x") = Some (FileNode [])) as Hn.
  { vm_compute in E. injection E as <-. vm_compute. reflexivity. }
  pose proof (vfs_lookup (sample_plan [sample_lower]) default_vfs_limits v
    (str "d/x") (str "D\X") (FileNode []) default_limits_ok Hp E Hn eq_refl) as H.
  rewrite decide_False in H by (apply Forall_Exists_neg; repeat constructor;
    intros [Ed|Ed]; discriminate Ed).
  exact (proj1 (proj2 H)).
Defined.

(** The parser accepts the name [.], which no lookup can reach. *)
Example dot_name_accepted : parse_name (sample_name (str ".")) = Ok (str ".").
Proof. reflexivity. Qed.

Example dot_path_refused : normalize_lookup (str ".") SPEC_MAX_PATH_BYTES = Err InvalidPath.
Proof. reflexivity. Qed.
