(* ===== verification/Ps1Memory.v ===== *)
(** * PS1 memory: crates/hw/ps1/memory/src/lib.rs

    Address decoding, the mirrored main RAM, the scratchpad, the memory-control
    block and the open-bus policy.  [usize] has 64 bits.  Operations that can
    only read take the memory; writes return it on every path. *)

From S2P Require Import Prelude MachineInt Buffer PsxExe.

Definition RAM_MIRROR_END : Z := 0x00800000.
Definition SCRATCH_START : Z := 0x1f800000.
Definition SCRATCH_SIZE : Z := 1024.
Definition MMIO_START : Z := 0x1f801000.
Definition MMIO_END : Z := 0x1f803000.
Definition ROM_START : Z := 0x1fc00000.
Definition ROM_END : Z := 0x1fc80000.
Definition MEMORY_CONTROL_START : Z := 0x1f801000.
Definition MEMORY_CONTROL_END : Z := 0x1f801023.
Definition MEMORY_CONTROL_RESET : list Z :=
  [0x1f000000; 0x1f802000; 0x0013243f; 0x00003022; 0x0013243f; 0x200931e1;
   0x00020843; 0x00070777; 0x00031125].

Inductive OpenBusPolicy := Strict | Ones.

Inductive MemoryRegion :=
| Ram (offset : Z)
| Scratchpad (offset : Z)
| Mmio (physical : Z)
| HleRom (physical : Z)
| Unmapped (physical : Z).

Inductive MemoryError :=
| UnsupportedSegment (address : Z)
| UnsupportedAddressWidth (address : Z)
| Mmio_error (address : Z)
| HleRom_error (address : Z)
| Unmapped_error (address : Z)
| CrossesBoundary (address : Z)
| InvalidImageSize (actual : Z).

Record Ps1Memory := mkPs1Memory {
  ram : Buffer;
  scratchpad : Buffer;
  memory_control : list Z;
  open_bus : OpenBusPolicy;
}.

Definition translate (address : Z) : outcome MemoryError Z :=
  if Z.shiftr address 29 <=? 5 then Ok (address .& 0x1fffffff)
  else Err (UnsupportedSegment address).

Definition memory_control_index (address : Z) : outcome MemoryError Z :=
  if negb ((MEMORY_CONTROL_START <=? address) && (address <=? MEMORY_CONTROL_END)) ||
     has_bits address 3
  then Err (Mmio_error address)
  else ok_or (try_from_u 64 ((address - MEMORY_CONTROL_START) / 4))
         (UnsupportedAddressWidth address).

Definition same_region (left right : MemoryRegion) : bool :=
  match left, right with
  | Ram _, Ram _ | Scratchpad _, Scratchpad _ | Mmio _, Mmio _
  | HleRom _, HleRom _ | Unmapped _, Unmapped _ => true
  | _, _ => false
  end.

Module Ps1Memory.

Definition new (policy : OpenBusPolicy) : Ps1Memory :=
  mkPs1Memory (Buffer.zeroed RAM_SIZE) (Buffer.zeroed SCRATCH_SIZE)
    MEMORY_CONTROL_RESET policy.

Definition from_image (image : ExecutableImage) (policy : OpenBusPolicy)
    : outcome MemoryError Ps1Memory :=
  let bytes := PsxExe.ram image in
  if negb (buf_len bytes =? RAM_SIZE) then Err (InvalidImageSize (buf_len bytes))
  else Ok (mkPs1Memory bytes (Buffer.zeroed SCRATCH_SIZE) MEMORY_CONTROL_RESET policy).

Definition set_ram (b : Buffer) (m : Ps1Memory) : Ps1Memory :=
  mkPs1Memory b (scratchpad m) (memory_control m) (open_bus m).
Definition set_scratchpad (b : Buffer) (m : Ps1Memory) : Ps1Memory :=
  mkPs1Memory (ram m) b (memory_control m) (open_bus m).

Definition read_control (address : Z) (m : Ps1Memory) : outcome MemoryError Z :=
  let? index := memory_control_index address in
  expect (memory_control m !! Z.to_nat index).

Definition write_control (address value : Z) (m : Ps1Memory)
    : outcome MemoryError unit * Ps1Memory :=
  match memory_control_index address with
  | Ok index =>
      match memory_control m !! Z.to_nat index with
      | Some _ =>
          (Ok tt, mkPs1Memory (ram m) (scratchpad m)
                    (<[Z.to_nat index := value]> (memory_control m)) (open_bus m))
      | None => (Panic, m)
      end
  | Err e => (Err e, m)
  | Panic => (Panic, m)
  end.

Definition classify (address : Z) : outcome MemoryError MemoryRegion :=
  let? physical := translate address in
  if physical <? RAM_MIRROR_END then
    let? offset := ok_or (try_from_u 64 physical) (UnsupportedAddressWidth address) in
    Ok (Ram (offset mod RAM_SIZE))
  else if (SCRATCH_START <=? physical) && (physical <? SCRATCH_START + SCRATCH_SIZE) then
    let? offset := ok_or (try_from_u 64 (physical - SCRATCH_START))
      (UnsupportedAddressWidth address) in
    Ok (Scratchpad offset)
  else if (MMIO_START <=? physical) && (physical <? MMIO_END) then Ok (Mmio physical)
  else if (ROM_START <=? physical) && (physical <? ROM_END) then Ok (HleRom physical)
  else Ok (Unmapped physical).

(** The outcome of reading a region no memory backs. *)
Definition open_read (ones : Z) (m : Ps1Memory) (physical : Z) : outcome MemoryError Z :=
  match open_bus m with
  | Strict => Err (Unmapped_error physical)
  | Ones => Ok ones
  end.

(** [self.ram[index]] *)
Definition ram_at (m : Ps1Memory) (i : Z) : outcome MemoryError Z :=
  expect (Buffer.get (ram m) i).
Definition scratch_at (m : Ps1Memory) (i : Z) : outcome MemoryError Z :=
  expect (Buffer.get (scratchpad m) i).

Definition read_u8 (address : Z) (m : Ps1Memory) : outcome MemoryError Z :=
  let? region := classify address in
  match region with
  | Ram offset => ram_at m offset
  | Scratchpad offset => scratch_at m offset
  | Mmio physical => Err (Mmio_error physical)
  | HleRom physical => Err (HleRom_error physical)
  | Unmapped physical => open_read (2 ^ 8 - 1) m physical
  end.

(** [validate_decoded_access::<N>] *)
Definition validate_decoded_access (n address : Z) (region : MemoryRegion)
    : outcome MemoryError unit :=
  let? last := ok_or (checked_add_u 32 address (n - 1)) (CrossesBoundary address) in
  let? last_region := classify last in
  if negb (same_region region last_region) then Err (CrossesBoundary address) else Ok tt.

Definition read_decoded_u16 (address : Z) (region : MemoryRegion) (m : Ps1Memory)
    : outcome MemoryError Z :=
  let? _ := validate_decoded_access 2 address region in
  match region with
  | Ram offset =>
      let? b0 := ram_at m offset in
      let? b1 := ram_at m ((offset + 1) mod RAM_SIZE) in
      Ok (b0 .| Z.shiftl b1 8)
  | Scratchpad offset =>
      let? b0 := scratch_at m offset in
      let? b1 := scratch_at m (offset + 1) in
      Ok (b0 .| Z.shiftl b1 8)
  | Mmio physical => Err (Mmio_error physical)
  | HleRom physical => Err (HleRom_error physical)
  | Unmapped physical => open_read (2 ^ 16 - 1) m physical
  end.

Definition read_decoded_u32 (address : Z) (region : MemoryRegion) (m : Ps1Memory)
    : outcome MemoryError Z :=
  let? _ := validate_decoded_access 4 address region in
  match region with
  | Ram offset =>
      let? b0 := ram_at m offset in
      let? b1 := ram_at m ((offset + 1) mod RAM_SIZE) in
      let? b2 := ram_at m ((offset + 2) mod RAM_SIZE) in
      let? b3 := ram_at m ((offset + 3) mod RAM_SIZE) in
      Ok (b0 .| Z.shiftl b1 8 .| Z.shiftl b2 16 .| Z.shiftl b3 24)
  | Scratchpad offset =>
      let? b0 := scratch_at m offset in
      let? b1 := scratch_at m (offset + 1) in
      let? b2 := scratch_at m (offset + 2) in
      let? b3 := scratch_at m (offset + 3) in
      Ok (b0 .| Z.shiftl b1 8 .| Z.shiftl b2 16 .| Z.shiftl b3 24)
  | Mmio physical => Err (Mmio_error physical)
  | HleRom physical => Err (HleRom_error physical)
  | Unmapped physical => open_read (2 ^ 32 - 1) m physical
  end.

Definition read_u16 (address : Z) (m : Ps1Memory) : outcome MemoryError Z :=
  let? region := classify address in read_decoded_u16 address region m.
Definition read_u32 (address : Z) (m : Ps1Memory) : outcome MemoryError Z :=
  let? region := classify address in read_decoded_u32 address region m.

(** A write outside RAM and scratchpad. *)
Definition open_write (region : MemoryRegion) (m : Ps1Memory) : outcome MemoryError unit :=
  match region with
  | Mmio physical => Err (Mmio_error physical)
  | HleRom physical => Err (HleRom_error physical)
  | Unmapped physical =>
      match open_bus m with
      | Strict => Err (Unmapped_error physical)
      | Ones => Ok tt
      end
  | _ => Ok tt
  end.

Definition write_u8 (address value : Z) (m : Ps1Memory)
    : outcome MemoryError unit * Ps1Memory :=
  match classify address with
  | Err e => (Err e, m)
  | Panic => (Panic, m)
  | Ok (Ram offset) =>
      match Buffer.set (ram m) offset value with
      | Some b => (Ok tt, set_ram b m)
      | None => (Panic, m)
      end
  | Ok (Scratchpad offset) =>
      match Buffer.set (scratchpad m) offset value with
      | Some b => (Ok tt, set_scratchpad b m)
      | None => (Panic, m)
      end
  | Ok region => (open_write region m, m)
  end.

(** [for (index, value) in bytes.enumerate() { ram[(offset + index) % RAM_SIZE] = value }] *)
Fixpoint write_ring (b : Buffer) (offset index : Z) (bytes : list Z) : option Buffer :=
  match bytes with
  | [] => Some b
  | v :: bytes =>
      b ← Buffer.set b ((offset + index) mod RAM_SIZE) v;
      write_ring b offset (index + 1) bytes
  end.

Definition write_decoded_bytes (address : Z) (region : MemoryRegion) (bytes : list Z)
    (m : Ps1Memory) : outcome MemoryError unit * Ps1Memory :=
  match validate_decoded_access (Z.of_nat (length bytes)) address region with
  | Err e => (Err e, m)
  | Panic => (Panic, m)
  | Ok _ =>
      match region with
      | Ram offset =>
          match write_ring (ram m) offset 0 bytes with
          | Some b => (Ok tt, set_ram b m)
          | None => (Panic, m)
          end
      | Scratchpad offset =>
          match checked_add_u 64 offset (Z.of_nat (length bytes)) with
          | None => (Err (CrossesBoundary address), m)
          | Some _ =>
              match Buffer.copy_from (scratchpad m) offset bytes with
              | Some b => (Ok tt, set_scratchpad b m)
              | None => (Err (CrossesBoundary address), m)
              end
          end
      | _ => (open_write region m, m)
      end
  end.

Definition write_decoded_u16 (address : Z) (region : MemoryRegion) (value : Z)
    : Ps1Memory -> outcome MemoryError unit * Ps1Memory :=
  write_decoded_bytes address region (le_bytes 2 value).
Definition write_decoded_u32 (address : Z) (region : MemoryRegion) (value : Z)
    : Ps1Memory -> outcome MemoryError unit * Ps1Memory :=
  write_decoded_bytes address region (le_bytes 4 value).

Definition write_classified (n : nat) (address value : Z) (m : Ps1Memory)
    : outcome MemoryError unit * Ps1Memory :=
  match classify address with
  | Ok region => write_decoded_bytes address region (le_bytes n value) m
  | Err e => (Err e, m)
  | Panic => (Panic, m)
  end.
Definition write_u16 : Z -> Z -> Ps1Memory -> outcome MemoryError unit * Ps1Memory :=
  write_classified 2.
Definition write_u32 : Z -> Z -> Ps1Memory -> outcome MemoryError unit * Ps1Memory :=
  write_classified 4.

End Ps1Memory.
