(* ===== verification/Ps1MemoryFacts.v ===== *)
(** * What PS1 memory promises

    A memory is an array of bytes behind the address decoder: wide accesses are
    runs of byte accesses, and a byte written is read back at every address that
    decodes to the same location and nowhere else. *)

From S2P Require Import Prelude MachineInt Buffer PsxExe Ps1Memory.
Import Ps1Memory.Ps1Memory.

Record wf (m : Ps1Memory) : Prop := {
  wf_ram : buf_len (ram m) = RAM_SIZE;
  wf_ram_bytes : Buffer.bytes_ok (ram m);
  wf_scratch : buf_len (scratchpad m) = SCRATCH_SIZE;
  wf_scratch_bytes : Buffer.bytes_ok (scratchpad m);
  wf_control : length (memory_control m) = 9%nat;
}.

(** The decoder on physical addresses. *)
Definition decode (physical : Z) : MemoryRegion :=
  if physical <? RAM_MIRROR_END then Ram (physical mod RAM_SIZE)
  else if (SCRATCH_START <=? physical) && (physical <? SCRATCH_START + SCRATCH_SIZE)
  then Scratchpad (physical - SCRATCH_START)
  else if (MMIO_START <=? physical) && (physical <? MMIO_END) then Mmio physical
  else if (ROM_START <=? physical) && (physical <? ROM_END) then HleRom physical
  else Unmapped physical.

Lemma classify_decode a :
  in_u 32 a ->
  classify a = if a / 2 ^ 29 <=? 5 then Ok (decode (a mod 2 ^ 29))
               else Err (UnsupportedSegment a).
Proof.
  intros Ha. unfold classify, translate. rewrite Z.shiftr_div_pow2 by lia.
  destruct (a / 2 ^ 29 <=? 5); [|done]. cbn [obind].
  change 0x1fffffff with (Z.ones 29). rewrite Z.land_ones by lia.
  pose proof (Z.mod_pos_bound a (2 ^ 29) ltac:(lia)) as Hp.
  set (p := a mod 2 ^ 29) in *. clearbody p. unfold decode.
  destruct (Z.ltb_spec p RAM_MIRROR_END).
  { by rewrite try_from_u_in by (unfold RAM_MIRROR_END in *; lia). }
  destruct (_ && _) eqn:Es.
  { zbool. rewrite try_from_u_in by (unfold SCRATCH_START, SCRATCH_SIZE in *; lia).
    done. }
  by repeat case_match.
Qed.

Lemma classify_no_panic a : in_u 32 a -> no_panic (classify a).
Proof. intros Ha. rewrite classify_decode by done. by case_match. Qed.

Ltac unfold_map :=
  unfold RAM_MIRROR_END, SCRATCH_START, SCRATCH_SIZE, MMIO_START, MMIO_END, ROM_START,
    ROM_END in *.

Lemma decode_offset p :
  0 <= p -> match decode p with
  | Ram o => 0 <= o < RAM_SIZE
  | Scratchpad o => 0 <= o < SCRATCH_SIZE
  | _ => True
  end.
Proof.
  intros Hp. unfold decode. destruct (p <? RAM_MIRROR_END).
  - apply Z.mod_pos_bound. done.
  - destruct ((SCRATCH_START <=? p) && _) eqn:Es.
    + zbool. unfold_map. lia.
    + by repeat destruct (_ && _).
Qed.

Lemma decode_cases p :
  p < RAM_MIRROR_END /\ decode p = Ram (p mod RAM_SIZE) \/
  SCRATCH_START <= p < SCRATCH_START + SCRATCH_SIZE /\
    decode p = Scratchpad (p - SCRATCH_START) \/
  MMIO_START <= p < MMIO_END /\ decode p = Mmio p \/
  ROM_START <= p < ROM_END /\ decode p = HleRom p \/
  (RAM_MIRROR_END <= p < SCRATCH_START \/
   SCRATCH_START + SCRATCH_SIZE <= p < MMIO_START \/ MMIO_END <= p < ROM_START \/
   ROM_END <= p) /\ decode p = Unmapped p.
Proof.
  unfold decode. destruct (Z.ltb_spec p RAM_MIRROR_END); [auto|].
  destruct (Z.leb_spec SCRATCH_START p), (Z.ltb_spec p (SCRATCH_START + SCRATCH_SIZE));
    cbn [andb]; [auto|..].
  all: destruct (Z.leb_spec MMIO_START p), (Z.ltb_spec p MMIO_END); cbn [andb];
    try (right; right; left; split; [lia|done]).
  all: destruct (Z.leb_spec ROM_START p), (Z.ltb_spec p ROM_END); cbn [andb];
    try (right; right; right; left; split; [lia|done]).
  all: right; right; right; right; split; [unfold_map; lia|done].
Qed.

(** The bytes of an access whose ends lie in one region: each decodes in that
    region, at the next offset. *)
Definition advance_region (r : MemoryRegion) (k : Z) : MemoryRegion :=
  match r with
  | Ram o => Ram ((o + k) mod RAM_SIZE)
  | Scratchpad o => Scratchpad (o + k)
  | Mmio p => Mmio (p + k)
  | HleRom p => HleRom (p + k)
  | Unmapped p => Unmapped (p + k)
  end.

Lemma decode_run p n k :
  0 <= p -> 0 <= k < n -> n <= 4 -> p + n - 1 < 2 ^ 29 ->
  same_region (decode p) (decode (p + (n - 1))) = true ->
  decode (p + k) = advance_region (decode p) k.
Proof.
  intros Hp Hk Hn Hmax.
  pose proof (decode_cases (p + k)) as Hc. unfold_map.
  destruct (decode_cases p) as [[H E]|[[H E]|[[H E]|[[H E]|[H E]]]]]; rewrite E;
    destruct (decode_cases (p + (n - 1))) as [[H' E']|[[H' E']|[[H' E']|[[H' E']|[H' E']]]]];
    rewrite E'; try done; intros _; unfold_map; cbn [advance_region].
  - destruct Hc as [[_ ->]|Hc]; [by rewrite Z.add_mod_idemp_l|].
    exfalso. clear E E'. lia.
  - destruct Hc as [[Hc ->]|[[Hc ->]|Hc]]; [lia|f_equal; lia|]. exfalso; lia.
  - destruct Hc as [[Hc ->]|[[Hc ->]|[[Hc ->]|Hc]]]; try lia; done.
  - destruct Hc as [[Hc ->]|[[Hc ->]|[[Hc ->]|[[Hc ->]|Hc]]]]; try lia; done.
  - destruct Hc as [[Hc ->]|[[Hc ->]|[[Hc ->]|[[Hc ->]|[Hc ->]]]]]; try lia; done.
Qed.

(** Two ends in one region never straddle a segment. *)
Lemma run_segment a n r r' :
  in_u 32 a -> 1 <= n <= 4 -> a + n - 1 < 2 ^ 32 ->
  classify a = Ok r -> classify (a + (n - 1)) = Ok r' -> same_region r r' = true ->
  a mod 2 ^ 29 + (n - 1) < 2 ^ 29.
Proof.
  intros Ha Hn Hmax. rewrite !classify_decode by (unfold in_u in *; lia).
  pose proof (Z.mod_pos_bound a (2 ^ 29) ltac:(lia)) as Hp.
  pose proof (Z.div_mod a (2 ^ 29) ltac:(lia)) as Ed.
  destruct (Z.lt_ge_cases (a mod 2 ^ 29 + (n - 1)) (2 ^ 29)) as [|Hge]; [done|].
  destruct (a / 2 ^ 29 <=? 5); [|done]. intros [= <-].
  destruct (_ <=? 5); [|done]. intros [= <-].
  assert ((a + (n - 1)) mod 2 ^ 29 = a mod 2 ^ 29 + (n - 1) - 2 ^ 29) as ->.
  { symmetry. apply (Z.mod_unique_pos _ _ (a / 2 ^ 29 + 1)); lia. }
  destruct (decode_cases (a mod 2 ^ 29)) as [[H E]|[[H E]|[[H E]|[[H E]|[H E]]]]];
    unfold_map; try lia. rewrite E.
  destruct (decode_cases (a mod 2 ^ 29 + (n - 1) - 2 ^ 29))
    as [[H' ->]|[[H' ->]|[[H' ->]|[[H' ->]|[H' ->]]]]]; unfold_map; try done; lia.
Qed.

Lemma validate_spec n a r :
  validate_decoded_access n a r = Ok tt <->
  a + (n - 1) < 2 ^ 32 /\ exists r', classify (a + (n - 1)) = Ok r' /\ same_region r r' = true.
Proof.
  unfold validate_decoded_access. split.
  - intros (l & El%ok_or_ok & (r' & Er & Hs)%obind_ok)%obind_ok.
    apply checked_add_u_Some in El as [-> ?]. split; [done|]. exists r'.
    by destruct (same_region r r').
  - intros (Hl & r' & Er & Hs).
    rewrite (proj2 (checked_add_u_Some _ _ _ _) (conj eq_refl Hl)). cbn [ok_or obind].
    rewrite Er. cbn [obind]. by rewrite Hs.
Qed.

Lemma access_run a n r k :
  in_u 32 a -> 1 <= n <= 4 -> classify a = Ok r ->
  validate_decoded_access n a r = Ok tt -> 0 <= k < n ->
  in_u 32 (a + k) /\ classify (a + k) = Ok (advance_region r k).
Proof.
  intros Ha Hn Hr (Hl & r' & Hr' & Hs)%validate_spec Hk.
  pose proof (run_segment a n r r' Ha Hn ltac:(lia) Hr Hr' Hs) as Hseg.
  assert (in_u 32 (a + k)) as Hk32 by (unfold in_u in *; lia). split; [done|].
  pose proof (Z.div_mod a (2 ^ 29) ltac:(lia)) as Ed.
  pose proof (Z.mod_pos_bound a (2 ^ 29) ltac:(lia)) as Hp.
  assert (forall j, 0 <= j < n -> (a + j) / 2 ^ 29 = a / 2 ^ 29 /\
    (a + j) mod 2 ^ 29 = a mod 2 ^ 29 + j) as Hj.
  { intros j Hj. split; symmetry.
    - apply (Z.div_unique_pos _ _ _ (a mod 2 ^ 29 + j)); lia.
    - apply (Z.mod_unique_pos _ _ (a / 2 ^ 29)); lia. }
  rewrite classify_decode in Hr, Hr' by (unfold in_u in *; lia).
  rewrite classify_decode by done.
  destruct (Hj k Hk) as [-> ->]. destruct (Hj (n - 1) ltac:(lia)) as [E1 E2].
  rewrite E1, E2 in Hr'.
  destruct (a / 2 ^ 29 <=? 5); [|done]. injection Hr as <-. injection Hr' as <-.
  f_equal. apply (decode_run _ n); done || lia.
Qed.

(** ** Locations *)

Inductive location := RamAt (offset : Z) | ScratchAt (offset : Z).

#[global] Instance location_eq : EqDecision location.
Proof. solve_decision. Defined.

(** The byte of memory an address names, when one backs it. *)
Definition locate (a : Z) : option location :=
  match classify a with
  | Ok (Ram o) => Some (RamAt o)
  | Ok (Scratchpad o) => Some (ScratchAt o)
  | _ => None
  end.

Definition byte_at (m : Ps1Memory) (l : location) : Z :=
  match l with
  | RamAt o => Buffer.cell (ram m) o
  | ScratchAt o => Buffer.cell (scratchpad m) o
  end.

Lemma locate_range a : in_u 32 a ->
  match locate a with
  | Some (RamAt o) => 0 <= o < RAM_SIZE
  | Some (ScratchAt o) => 0 <= o < SCRATCH_SIZE
  | None => True
  end.
Proof.
  intros Ha. unfold locate. rewrite classify_decode by done.
  destruct (a / 2 ^ 29 <=? 5); [|done].
  pose proof (Z.mod_pos_bound a (2 ^ 29) ltac:(lia)) as Hp.
  pose proof (decode_offset (a mod 2 ^ 29) (proj1 Hp)) as Ho. by destruct (decode _).
Qed.

(** Reading one byte: the located byte, or the policy of the region. *)
Lemma read_u8_spec a m :
  wf m -> in_u 32 a ->
  match locate a with
  | Some l => read_u8 a m = Ok (byte_at m l)
  | None => no_panic (read_u8 a m) /\
      forall v, read_u8 a m = Ok v -> v = 0xff /\ open_bus m = Ones
  end.
Proof.
  intros [] Ha. pose proof (locate_range a Ha) as Hl. revert Hl.
  pose proof (classify_no_panic a Ha) as Hn.
  unfold locate, read_u8. destruct (classify a) as [[o|o|p|p|p]|e|]; cbn [obind]; try done.
  - intros Ho. unfold ram_at. by rewrite Buffer.get_in by lia.
  - intros Ho. unfold scratch_at. by rewrite Buffer.get_in by lia.
  - intros _. unfold open_read. destruct (open_bus m); [done|].
    split; [done|]. by intros v [= <-].
Qed.

Lemma memory_new_wf p : wf (new p).
Proof. constructor; try done; apply Buffer.zeroed_ok. Qed.

(** ** Byte writes *)

Lemma write_u8_spec a v m :
  wf m -> in_u 32 a -> in_u 8 v ->
  match locate a with
  | Some l => exists m', write_u8 a v m = (Ok tt, m') /\ wf m' /\
      open_bus m' = open_bus m /\ memory_control m' = memory_control m /\
      forall l', byte_at m' l' = if decide (l' = l) then v else byte_at m l'
  | None => no_panic (write_u8 a v m).1 /\ (write_u8 a v m).2 = m
  end.
Proof.
  intros [] Ha Hv. pose proof (locate_range a Ha) as Hl. revert Hl.
  pose proof (classify_no_panic a Ha) as Hn.
  unfold locate, write_u8. destruct (classify a) as [[o|o|p|p|p]|e|]; try done.
  - intros Ho. rewrite Buffer.set_in by lia. eexists. split_and!; [done| |done..|].
    + constructor; try done. cbn. by apply map_Forall_insert_2.
    + intros [o'|o']; cbn [byte_at set_ram ram scratchpad].
      * rewrite Buffer.cell_insert. repeat case_decide; simplify_eq; done.
      * by rewrite decide_False.
  - intros Ho. rewrite Buffer.set_in by lia. eexists. split_and!; [done| |done..|].
    + constructor; try done. cbn. by apply map_Forall_insert_2.
    + intros [o'|o']; cbn [byte_at set_scratchpad ram scratchpad].
      * by rewrite decide_False.
      * rewrite Buffer.cell_insert. repeat case_decide; simplify_eq; done.
  - intros _. cbn. by destruct (open_bus m).
Qed.

(** ** Wide accesses are runs of byte accesses *)

Fixpoint read_all (n : nat) (a : Z) (m : Ps1Memory) : outcome MemoryError (list Z) :=
  match n with
  | O => Ok []
  | S n =>
      let? b := read_u8 a m in
      let? bs := read_all n (a + 1) m in
      Ok (b :: bs)
  end.

Fixpoint write_all (bytes : list Z) (a : Z) (m : Ps1Memory)
    : outcome MemoryError unit * Ps1Memory :=
  match bytes with
  | [] => (Ok tt, m)
  | b :: bytes =>
      let! (_, m) := write_u8 a b m in write_all bytes (a + 1) m
  end.

(** The byte specification of an [n]-byte access: both ends decode in one
    region, then the bytes one by one, little-endian. *)
Definition read_spec (n : nat) (a : Z) (m : Ps1Memory) : outcome MemoryError Z :=
  let? region := classify a in
  let? _ := validate_decoded_access (Z.of_nat n) a region in
  let? bytes := read_all n a m in
  Ok (from_le bytes).

Definition write_spec (n : nat) (a v : Z) (m : Ps1Memory)
    : outcome MemoryError unit * Ps1Memory :=
  match (let? region := classify a in validate_decoded_access (Z.of_nat n) a region) with
  | Ok _ => write_all (le_bytes n v) a m
  | Err e => (Err e, m)
  | Panic => (Panic, m)
  end.

Definition read_region (r : MemoryRegion) (m : Ps1Memory) : outcome MemoryError Z :=
  match r with
  | Ram offset => ram_at m offset
  | Scratchpad offset => scratch_at m offset
  | Mmio physical => Err (Mmio_error physical)
  | HleRom physical => Err (HleRom_error physical)
  | Unmapped physical => open_read (2 ^ 8 - 1) m physical
  end.

Lemma read_u8_region a r m : classify a = Ok r -> read_u8 a m = read_region r m.
Proof. unfold read_u8. by intros ->. Qed.

Lemma ram_at_in m o : wf m -> 0 <= o < RAM_SIZE -> ram_at m o = Ok (Buffer.cell (ram m) o).
Proof. intros [] Ho. unfold ram_at. by rewrite Buffer.get_in by lia. Qed.

Lemma scratch_at_in m o :
  wf m -> 0 <= o < SCRATCH_SIZE -> scratch_at m o = Ok (Buffer.cell (scratchpad m) o).
Proof. intros [] Ho. unfold scratch_at. by rewrite Buffer.get_in by lia. Qed.

Lemma ram_mod o : 0 <= o mod RAM_SIZE < RAM_SIZE.
Proof. by apply Z.mod_pos_bound. Qed.

Lemma classify_offsets a r :
  in_u 32 a -> classify a = Ok r ->
  match r with
  | Ram o => 0 <= o < RAM_SIZE
  | Scratchpad o => 0 <= o < SCRATCH_SIZE
  | _ => True
  end.
Proof.
  intros Ha Hr. pose proof (locate_range a Ha) as Hl. unfold locate in Hl.
  rewrite Hr in Hl. by destruct r.
Qed.

Ltac next_byte H m k :=
  let Hk := fresh in
  pose proof (H k ltac:(lia)) as [_ Hk];
  rewrite (read_u8_region _ _ m Hk).

Lemma read_u16_spec a m : wf m -> in_u 32 a -> read_u16 a m = read_spec 2 a m.
Proof.
  intros Hm Ha. unfold read_u16, read_spec, read_decoded_u16.
  destruct (classify a) as [r|e|] eqn:Er; [|done..]. cbn [obind].
  change (Z.of_nat 2) with 2.
  destruct (validate_decoded_access 2 a r) as [[]|e|] eqn:Ev; [|done..]. cbn [obind].
  pose proof (fun k => access_run a 2 r k Ha ltac:(lia) Er Ev) as Hk.
  pose proof (classify_offsets a r Ha Er) as Ho. pose proof Hm as [].
  cbn [read_all]. rewrite (read_u8_region _ _ m Er). next_byte Hk m 1.
  destruct r as [o|o|p|p|p]; cbn [read_region advance_region obind]; [| |done..|].
  - rewrite !ram_at_in by (done || apply ram_mod). cbn [obind].
    rewrite or_bytes_2 by (by apply Buffer.cell_u8). done.
  - pose proof (classify_offsets (a + 1) _ (proj1 (Hk 1 ltac:(lia))) H).
    cbn [advance_region] in *.
    rewrite !scratch_at_in by done. cbn [obind].
    rewrite or_bytes_2 by (by apply Buffer.cell_u8). done.
  - unfold open_read. by destruct (open_bus m).
Qed.

Lemma read_u32_spec a m : wf m -> in_u 32 a -> read_u32 a m = read_spec 4 a m.
Proof.
  intros Hm Ha. unfold read_u32, read_spec, read_decoded_u32.
  destruct (classify a) as [r|e|] eqn:Er; [|done..]. cbn [obind].
  change (Z.of_nat 4) with 4.
  destruct (validate_decoded_access 4 a r) as [[]|e|] eqn:Ev; [|done..]. cbn [obind].
  pose proof (fun k => access_run a 4 r k Ha ltac:(lia) Er Ev) as Hk.
  pose proof (classify_offsets a r Ha Er) as Ho. pose proof Hm as [].
  cbn [read_all]. replace (a + 1 + 1) with (a + 2) by lia.
  replace (a + 2 + 1) with (a + 3) by lia.
  rewrite (read_u8_region _ _ m Er).
  next_byte Hk m 1. next_byte Hk m 2. next_byte Hk m 3.
  destruct r as [o|o|p|p|p]; cbn [read_region advance_region obind]; [| |done..|].
  - rewrite !ram_at_in by (done || apply ram_mod). cbn [obind].
    rewrite or_bytes_4 by (by apply Buffer.cell_u8). done.
  - pose proof (classify_offsets (a + 3) _ (proj1 (Hk 3 ltac:(lia))) H1).
    cbn [advance_region] in *.
    rewrite !scratch_at_in by (done || lia). cbn [obind].
    rewrite or_bytes_4 by (by apply Buffer.cell_u8). done.
  - unfold open_read. by destruct (open_bus m).
Qed.

(** Writing a run of RAM or scratchpad bytes. *)
Lemma write_all_ram bytes a o m i :
  wf m -> Forall (in_u 8) bytes ->
  (forall k, 0 <= k < Z.of_nat (length bytes) ->
    classify (a + k) = Ok (Ram ((o + (i + k)) mod RAM_SIZE))) ->
  exists b, write_ring (ram m) o i bytes = Some b /\
    write_all bytes a m = (Ok tt, set_ram b m).
Proof.
  intros Hm Hb. revert a i m Hm.
  induction Hb as [|v bytes Hv Hb IH]; intros a i m Hm Hk; cbn [write_ring write_all].
  { exists (ram m). split; [done|]. by destruct m. }
  cbn [length] in Hk.
  pose proof (Hk 0 ltac:(lia)) as H0. rewrite !Z.add_0_r in H0.
  unfold write_u8. rewrite H0. pose proof (ram_mod (o + i)).
  rewrite Buffer.set_in by (rewrite (wf_ram _ Hm); lia). cbn [mbind option_bind].
  destruct (IH (a + 1) (i + 1) (set_ram (mkBuffer (buf_len (ram m))
    (<[(o + i) mod RAM_SIZE := v]> (cells (ram m)))) m)) as (b & E1 & E2).
  - destruct Hm. constructor; try done. cbn. by apply map_Forall_insert_2.
  - intros k Hkk. rewrite <- Z.add_assoc, Hk by lia. do 3 f_equal. lia.
  - exists b. split; [done|]. rewrite E2. done.
Qed.

Lemma write_all_scratch bytes a o m :
  wf m -> Forall (in_u 8) bytes ->
  (forall k, 0 <= k < Z.of_nat (length bytes) ->
    classify (a + k) = Ok (Scratchpad (o + k))) ->
  0 <= o -> o + Z.of_nat (length bytes) <= SCRATCH_SIZE ->
  write_all bytes a m =
  (Ok tt, set_scratchpad (Buffer.write_cells (scratchpad m) o bytes) m).
Proof.
  intros Hm Hb. revert a o m Hm.
  induction Hb as [|v bytes Hv Hb IH]; intros a o m Hm Hk Ho Hmax; cbn [write_all].
  { by destruct m. }
  cbn [length] in Hk, Hmax.
  pose proof (Hk 0 ltac:(lia)) as H0. rewrite !Z.add_0_r in H0.
  unfold write_u8. rewrite H0.
  rewrite Buffer.set_in by (rewrite (wf_scratch _ Hm); lia).
  rewrite (IH (a + 1) (o + 1)); [done| | |lia|lia].
  - destruct Hm. constructor; try done. cbn. by apply map_Forall_insert_2.
  - intros k Hkk. rewrite <- Z.add_assoc, Hk by lia. do 2 f_equal. lia.
Qed.

Lemma write_all_open bytes a r m :
  bytes <> [] -> classify a = Ok r ->
  match r with Ram _ | Scratchpad _ => False | _ => True end ->
  (forall k, 0 <= k < Z.of_nat (length bytes) ->
    classify (a + k) = Ok (advance_region r k)) ->
  write_all bytes a m = (open_write r m, m).
Proof.
  intros Hne Hr Hopen Hk. destruct bytes as [|v bytes]; [done|]. cbn [write_all].
  unfold write_u8 at 1. rewrite Hr.
  destruct r as [o|o|p|p|p]; [done|done| | |]; cbn [open_write]; [done|done|].
  destruct (open_bus m) eqn:Ebus; [done|]. clear Hne Hr Hopen.
  cbn [length] in Hk.
  assert (forall k, 0 <= k < Z.of_nat (length bytes) ->
    classify (a + 1 + k) = Ok (Unmapped (p + 1 + k))) as Hk'.
  { intros k Hkk. rewrite <- Z.add_assoc, Hk by lia. cbn. do 2 f_equal. lia. }
  clear Hk. generalize dependent (p + 1). generalize dependent (a + 1).
  induction bytes as [|v' bytes IH]; intros a' p' Hk; [done|]. cbn [write_all].
  cbn [length] in Hk. pose proof (Hk 0 ltac:(lia)) as H0. rewrite !Z.add_0_r in H0.
  unfold write_u8 at 1. rewrite H0. cbn [open_write]. rewrite Ebus.
  apply (IH (a' + 1) (p' + 1)). intros k Hkk.
  rewrite <- Z.add_assoc, Hk by lia. do 2 f_equal. lia.
Qed.

Lemma write_classified_spec n a v m :
  (1 <= n <= 4)%nat -> wf m -> in_u 32 a ->
  write_classified n a v m = write_spec n a v m.
Proof.
  intros Hn Hm Ha. unfold write_classified, write_spec, write_decoded_bytes.
  rewrite length_le_bytes.
  destruct (classify a) as [r|e|] eqn:Er; [|done..]. cbn [obind].
  destruct (validate_decoded_access (Z.of_nat n) a r) as [[]|e|] eqn:Ev; [|done..].
  pose proof (fun k => access_run a (Z.of_nat n) r k Ha ltac:(lia) Er Ev) as Hk.
  pose proof (classify_offsets a r Ha Er) as Ho.
  pose proof (le_bytes_u8 n v) as Hb. pose proof (length_le_bytes n v) as Hl.
  set (bytes := le_bytes n v) in *. clearbody bytes.
  assert (bytes <> []) as Hne by (intros ->; cbn in Hl; lia).
  assert (forall k, 0 <= k < Z.of_nat (length bytes) ->
    classify (a + k) = Ok (advance_region r k)) as Hrun.
  { intros k Hkk. rewrite Hl in Hkk. by destruct (Hk k Hkk). }
  destruct r as [o|o|p|p|p].
  - by destruct (write_all_ram bytes a o m 0 Hm Hb Hrun) as (b & -> & ->).
  - assert (o + Z.of_nat n <= SCRATCH_SIZE) as Hend.
    { destruct (Hk (Z.of_nat n - 1) ltac:(lia)) as [H1 H2].
      pose proof (classify_offsets _ _ H1 H2) as H3. cbn in H3. lia. }
    unfold checked_add_u.
    rewrite (proj2 (Z.ltb_lt _ _)) by (unfold SCRATCH_SIZE in *; lia).
    unfold Buffer.copy_from. rewrite (wf_scratch _ Hm), Hl.
    rewrite (proj2 (Z.leb_le 0 o)), (proj2 (Z.leb_le _ SCRATCH_SIZE)) by lia. cbn [andb].
    by rewrite (write_all_scratch bytes a o m) by (done || lia).
  - by rewrite (write_all_open bytes a (Mmio p) m).
  - by rewrite (write_all_open bytes a (HleRom p) m).
  - by rewrite (write_all_open bytes a (Unmapped p) m).
Qed.

(** a halfword or word access whose ends decode in one region is the
    little-endian run of byte accesses at the successive addresses, mirrors and
    the wrap of main RAM included; otherwise it is refused and nothing is
    written.  This holds for loads and stores, on every region and policy. *)
Theorem wide_access_bytewise a v m :
  wf m -> in_u 32 a ->
  read_u16 a m = read_spec 2 a m /\ read_u32 a m = read_spec 4 a m /\
  write_u16 a v m = write_spec 2 a v m /\ write_u32 a v m = write_spec 4 a v m.
Proof.
  intros Hm Ha. split_and!.
  - by apply read_u16_spec.
  - by apply read_u32_spec.
  - by apply write_classified_spec; [lia|..].
  - by apply write_classified_spec; [lia|..].
Qed.

Lemma wide_access_bytewise_witness :
  write_u32 0x801ffffe 0x44332211 (new Strict) =
    write_spec 4 0x801ffffe 0x44332211 (new Strict) /\
  read_u16 0x0 (write_u32 0x801ffffe 0x44332211 (new Strict)).2 = Ok 0x4433 /\
  (write_u32 0x807ffffe 0 (new Strict)).1 = Err (CrossesBoundary 0x807ffffe).
Proof.
  split; [|by vm_compute].
  assert (in_u 32 0x801ffffe) as Ha by (by split).
  exact (proj2 (proj2 (proj2
    (wide_access_bytewise 0x801ffffe 0x44332211 (new Strict) (memory_new_wf Strict) Ha)))).
Defined.

(** memory is an array of bytes behind the decoder: no access panics; a byte
    store at a backed address succeeds, after which a byte load returns the
    stored value at exactly the addresses that decode to the same cell (all RAM
    mirrors and segments) and the old result at every other address; a store
    anywhere else changes nothing; the control block and policy are kept. *)
Theorem byte_store_load a v m a' :
  wf m -> in_u 32 a -> in_u 8 v -> in_u 32 a' ->
  let (r, m') := write_u8 a v m in
  no_panic r /\ no_panic (read_u8 a' m) /\ wf m' /\
  memory_control m' = memory_control m /\
  (if locate a then r = Ok tt else m' = m) /\
  read_u8 a' m' =
    if bool_decide (is_Some (locate a) /\ locate a' = locate a) then Ok v
    else read_u8 a' m.
Proof.
  intros Hm Ha Hv Ha'. pose proof (write_u8_spec a v m Hm Ha Hv) as Hw.
  pose proof (read_u8_spec a' m Hm Ha') as Hr.
  assert (no_panic (read_u8 a' m)) as Hnp.
  { destruct (locate a'); [rewrite Hr; discriminate|exact (proj1 Hr)]. }
  destruct (locate a) as [l|] eqn:El.
  - destruct Hw as (m' & -> & Hm' & Hbus & Hctl & Hbytes).
    split_and!; [discriminate|exact Hnp|exact Hm'|exact Hctl|exact eq_refl|].
    pose proof (read_u8_spec a' m' Hm' Ha') as Hr'.
    destruct (locate a') as [l'|] eqn:El'.
    + rewrite Hr', Hr, Hbytes. destruct (decide (l' = l)) as [->|Hne].
      * by rewrite bool_decide_true by (split; [by eexists|done]).
      * rewrite bool_decide_false; [done|]. by intros [_ [= ->]].
    + rewrite bool_decide_false by (by intros [_ ?]).
      unfold locate in El'. unfold read_u8. unfold open_read. rewrite Hbus.
      destruct (classify a') as [[]| |]; first [discriminate El' | exact eq_refl].
  - destruct (write_u8 a v m) as [r m']; cbn [fst snd] in Hw. destruct Hw as [Hn ->].
    split_and!; [exact Hn|exact Hnp|exact Hm|exact eq_refl|exact eq_refl|].
    rewrite bool_decide_false; [exact eq_refl|]. intros [[? ?] _]. discriminate.
Qed.

(** A store through KSEG0 is seen through a mirror in KSEG1. *)
Lemma byte_store_load_witness :
  read_u8 0xa0200010 (write_u8 0x80000010 0x5a (new Strict)).2 = Ok 0x5a.
Proof.
  assert (in_u 32 0x80000010) as Ha by (by split).
  assert (in_u 32 0xa0200010) as Ha' by (by split).
  assert (in_u 8 0x5a) as Hv by (by split).
  pose proof (byte_store_load 0x80000010 0x5a (new Strict) 0xa0200010
    (memory_new_wf Strict) Ha Hv Ha') as H.
  destruct (write_u8 0x80000010 0x5a (new Strict)) as [r m'].
  destruct H as (_ & _ & _ & _ & _ & H). cbn [snd]. rewrite H. by vm_compute.
Defined.
