(* ===== verification/Ps1Dma.v ===== *)
(** * PS1 DMA: crates/hw/ps1/dma/src/lib.rs

    Channel 4 (sound) is scheduled on an event queue and channel 0 (MDEC input)
    is serviced at once; the other channels are registers.  The controller is
    modelled against the [EventQueue] interface of the scheduler, an
    [InterruptSink] and the device endpoints, each with its own state. *)

From S2P Require Import Prelude MachineInt Clock Scheduler Ps1Irq.
From S2P Require Import Buffer PsxExe Ps1Memory.

Definition DMA_CHANNEL_START : Z := 0x1f801080.
Definition DMA_CHANNEL_END : Z := 0x1f8010e8.
Definition DMA_CHANNEL_HALFWORD_END : Z := DMA_CHANNEL_END + 2.
Definition DMA_CONTROL_END : Z := 0x1f8010f6.
Definition D0_MADR : Z := 0x1f801080.
Definition D0_BCR : Z := 0x1f801084.
Definition D0_CHCR : Z := 0x1f801088.
Definition D4_MADR : Z := 0x1f8010c0.
Definition D4_BCR : Z := 0x1f8010c4.
Definition D4_CHCR : Z := 0x1f8010c8.
Definition DPCR : Z := 0x1f8010f0.
Definition DICR : Z := 0x1f8010f4.
Definition CHANNEL4_EVENT : Z := 0x00040004.

Definition DPCR_RESET : Z := 0x07654321.
Definition CHANNEL0_ENABLE : Z := 2 ^ 3.
Definition CHANNEL4_ENABLE : Z := 2 ^ 19.
Definition CHCR_DIRECTION_FROM_RAM : Z := 2 ^ 0.
Definition CHCR_DECREMENT : Z := 2 ^ 1.
Definition CHCR_SYNC_MASK : Z := Z.shiftl 3 9.
Definition CHCR_START : Z := 2 ^ 24.
Definition CHCR_TRIGGER : Z := 2 ^ 28.
Definition CHCR_WRITABLE : Z :=
  CHCR_DIRECTION_FROM_RAM .| CHCR_DECREMENT .| CHCR_SYNC_MASK .| CHCR_START .| CHCR_TRIGGER.
Definition DICR_FORCE : Z := 2 ^ 15.
Definition DICR_CHANNEL_MASKS : Z := 0x007f0000.
Definition DICR_MASTER_ENABLE : Z := 2 ^ 23.
Definition DICR_CHANNEL_FLAGS : Z := 0x7f000000.
Definition DICR_MASTER_FLAG : Z := 2 ^ 31.
Definition DICR_WRITABLE_CONTROL : Z := 0x00ff803f.
Definition DICR_CHANNEL4_MASK : Z := 2 ^ 20.
Definition DICR_CHANNEL4_FLAG : Z := 2 ^ 28.
Definition DICR_CHANNEL0_FLAG : Z := 2 ^ 24.
Definition RAM_ADDRESS_MASK : Z := 0x00fffffc.
Definition CYCLES_PER_WORD : Z := 4.
Definition MAX_RAM_WORDS : Z := (2 * 1024 * 1024) / 4.
Definition CHANNEL_COUNT : Z := 7.
Definition CHANNEL_STRIDE : Z := 0x10.
Definition CHANNEL_REGISTER_COUNT : Z := 3.
Definition CHANNEL4 : Z := 4.
Definition CHANNEL0 : Z := 0.

Record EndpointError := mkEndpointError { ee_message : string }.

Class MdecDmaEndpoint (E : Type) :=
  mdec_write_word : Z -> E -> outcome EndpointError unit * E.

Class SoundDmaEndpoint (E : Type) := {
  write_word : Z -> E -> outcome EndpointError unit * E;
  read_word : E -> outcome EndpointError Z * E;
}.

Inductive DmaError :=
| InvalidRegister (address : Z)
| UnsupportedSync (mode : Z)
| TransferTooLarge (words : Z)
| RamRange (base words : Z) (decrement : bool)
| StaleEvent
| Endpoint (e : EndpointError)
| MdecDirection
| UnsupportedMdecSync (mode : Z)
| SchedulerFailure
| ClockOverflow.

Record PendingTransfer := mkPending { pt_deadline : Z; pt_words : Z }.

Record DmaController := mkDma {
  madr : Z;
  bcr : Z;
  chcr : Z;
  register_only_channels : list (list Z);
  dpcr : Z;
  dicr_control : Z;
  dicr_flags : Z;
  pending : option PendingTransfer;
}.

Definition set_madr (v : Z) (d : DmaController) := mkDma v (bcr d) (chcr d)
  (register_only_channels d) (dpcr d) (dicr_control d) (dicr_flags d) (pending d).
Definition set_bcr (v : Z) (d : DmaController) := mkDma (madr d) v (chcr d)
  (register_only_channels d) (dpcr d) (dicr_control d) (dicr_flags d) (pending d).
Definition set_chcr (v : Z) (d : DmaController) := mkDma (madr d) (bcr d) v
  (register_only_channels d) (dpcr d) (dicr_control d) (dicr_flags d) (pending d).
Definition set_channels (v : list (list Z)) (d : DmaController) := mkDma (madr d) (bcr d)
  (chcr d) v (dpcr d) (dicr_control d) (dicr_flags d) (pending d).
Definition set_dpcr (v : Z) (d : DmaController) := mkDma (madr d) (bcr d) (chcr d)
  (register_only_channels d) v (dicr_control d) (dicr_flags d) (pending d).
Definition set_dicr (c f : Z) (d : DmaController) := mkDma (madr d) (bcr d) (chcr d)
  (register_only_channels d) (dpcr d) c f (pending d).
Definition set_pending (v : option PendingTransfer) (d : DmaController) := mkDma (madr d)
  (bcr d) (chcr d) (register_only_channels d) (dpcr d) (dicr_control d) (dicr_flags d) v.

Definition channel_register (address : Z) : option (Z * Z) :=
  offset ← checked_sub_u address DMA_CHANNEL_START;
  let channel := offset / CHANNEL_STRIDE in
  if CHANNEL_COUNT <=? channel then None
  else
    let register := (offset mod CHANNEL_STRIDE) / 4 in
    if negb (offset mod 4 =? 0) || (CHANNEL_REGISTER_COUNT <=? register) then None
    else Some (channel, register).

Definition sync_mode (c : Z) : Z := Z.shiftr (c .& CHCR_SYNC_MASK) 9.

Definition transfer_words (b sync : Z) : outcome DmaError Z :=
  let low := b .& 0xffff in
  let low := if low =? 0 then 0x10000 else low in
  let? words :=
    if sync =? 0 then Ok low
    else
      let high := Z.shiftr b 16 in
      let high := if high =? 0 then 0x10000 else high in
      ok_or (checked_mul_u 64 low high) (TransferTooLarge (2 ^ 64 - 1)) in
  if MAX_RAM_WORDS <? words then Err (TransferTooLarge words) else Ok words.

Definition transfer_address (base index : Z) (decrement : bool) : outcome DmaError Z :=
  let? offset := ok_or (checked_mul_u 64 index 4) ClockOverflow in
  let? offset := ok_or (try_from_u 32 offset) ClockOverflow in
  ok_or (if decrement then checked_sub_u base offset else checked_add_u 32 base offset)
    (RamRange base (index + 1) decrement).

(** [first.checked_add(4).is_none_or(|end| end > ram_len)] *)
Definition past_end (offset ram_len : Z) : bool :=
  match checked_add_u 64 offset 4 with
  | Some end_ => ram_len <? end_
  | None => true
  end.

Definition validate_ram_range (base words : Z) (decrement : bool) (ram_len : Z)
    : outcome DmaError unit :=
  let? last := transfer_address base (words - 1) decrement in
  let? first := ok_or (try_from_u 64 base) (RamRange base words decrement) in
  let? last := ok_or (try_from_u 64 last) (RamRange base words decrement) in
  if past_end first ram_len || past_end last ram_len
  then Err (RamRange base words decrement) else Ok tt.

Definition read_ram_word (ram : Buffer) (offset : Z) : outcome DmaError Z :=
  let? bytes := expect (Buffer.slice ram offset 4) in Ok (from_le bytes).

Definition write_ram_word (ram : Buffer) (offset value : Z) : outcome DmaError Buffer :=
  expect (Buffer.copy_from ram offset (le_bytes 4 value)).

Module DmaController.

Definition new : DmaController :=
  mkDma 0 0 0 (replicate 7 [0; 0; 0]) DPCR_RESET 0 0 None.

Definition completion_deadline (d : DmaController) : option Z := pt_deadline <$> pending d.

Definition master_irq (d : DmaController) : bool :=
  has_bits (dicr_control d) DICR_FORCE ||
  (has_bits (dicr_control d) DICR_MASTER_ENABLE &&
   has_bits (shl 32 (dicr_control d .& DICR_CHANNEL_MASKS) 8) (dicr_flags d)).

Definition dicr (d : DmaController) : Z :=
  dicr_control d .| dicr_flags d .| (if master_irq d then DICR_MASTER_FLAG else 0).

(** [self.register_only_channels[channel][register]] *)
Definition channel_at (d : DmaController) (channel register : Z) : option Z :=
  row ← register_only_channels d !! Z.to_nat channel; row !! Z.to_nat register.

Definition set_channel_at (channel register v : Z) (d : DmaController) : DmaController :=
  set_channels
    (alter (fun row => <[Z.to_nat register := v]> row) (Z.to_nat channel)
       (register_only_channels d)) d.

Definition read (address : Z) (d : DmaController) : outcome DmaError Z :=
  match channel_register address with
  | Some (channel, register) =>
      if channel =? CHANNEL4
      then expect ([madr d; bcr d; chcr d] !! Z.to_nat register)
      else expect (channel_at d channel register)
  | None =>
      if address =? DPCR then Ok (dpcr d)
      else if address =? DICR then Ok (dicr d)
      else Err (InvalidRegister address)
  end.

(** The value a write leaves in a register of channels other than 4. *)
Definition register_only_value (channel register value : Z) : option Z :=
  match register with
  | 0 => Some (value .& RAM_ADDRESS_MASK)
  | 1 => Some value
  | 2 => Some (if channel =? CHANNEL0 then value .& CHCR_WRITABLE
               else value .& bnot 32 (CHCR_START .| CHCR_TRIGGER))
  | _ => None
  end.

Section queue.
Context {Q : Type} `{EventQueue Q}.

(** The transfer the registers describe, once the channel is enabled and started:
    [None] when a manual transfer is not triggered. *)
Definition plan_transfer (d : DmaController) (now : Z)
    : outcome DmaError (option PendingTransfer) :=
  let sync := sync_mode (chcr d) in
  let? active :=
    match sync with
    | 0 => Ok (has_bits (chcr d) CHCR_TRIGGER)
    | 1 => Ok true
    | mode => Err (UnsupportedSync mode)
    end in
  if negb active then Ok None
  else
    let? words := transfer_words (bcr d) sync in
    let? cycles := ok_or (checked_mul_u 64 words CYCLES_PER_WORD) ClockOverflow in
    let? deadline := map_err (fun _ => ClockOverflow) (Deadline.checked_advance now cycles) in
    Ok (Some (mkPending deadline words)).

Definition reschedule (now : Z) (d : DmaController) (q : Q)
    : outcome DmaError unit * (DmaController * Q) :=
  let q := (eq_cancel q CHANNEL4_EVENT).2 in
  let d := set_pending None d in
  if negb (has_bits (dpcr d) CHANNEL4_ENABLE) || negb (has_bits (chcr d) CHCR_START)
  then (Ok tt, (d, q))
  else
    match plan_transfer d now with
    | Err e => (Err e, (d, q))
    | Panic => (Panic, (d, q))
    | Ok None => (Ok tt, (d, q))
    | Ok (Some p) =>
        let (r, q) := eq_schedule q CHANNEL4_EVENT (pt_deadline p) in
        match r with
        | Ok _ => (Ok tt, (set_pending (Some p) d, q))
        | Err _ => (Err SchedulerFailure, (d, q))
        | Panic => (Panic, (d, q))
        end
    end.

Section sink.
Context {S : Type} `{InterruptSink S}.

(** [if !was_asserted && self.master_irq() { sink.request(Dma) }] *)
Definition signal (was_asserted : bool) (d : DmaController) (s : S) : S :=
  if negb was_asserted && master_irq d then request s Dma else s.

Definition write_dicr (value : Z) (d : DmaController) (s : S) : DmaController * S :=
  let was_asserted := master_irq d in
  let d := set_dicr (value .& DICR_WRITABLE_CONTROL)
    (dicr_flags d .& bnot 32 (value .& DICR_CHANNEL_FLAGS)) d in
  (d, signal was_asserted d s).

Definition finish_channel4 (d : DmaController) (s : S) : DmaController * S :=
  let was_asserted := master_irq d in
  let d := set_dicr (dicr_control d) (dicr_flags d .| DICR_CHANNEL4_FLAG) d in
  (d, signal was_asserted d s).

Definition finish_channel0 (d : DmaController) (s : S) : DmaController * S :=
  let was_asserted := master_irq d in
  let d := set_dicr (dicr_control d) (dicr_flags d .| DICR_CHANNEL0_FLAG) d in
  (d, signal was_asserted d s).

Definition write (address value now : Z) (d : DmaController) (q : Q) (s : S)
    : outcome DmaError unit * (DmaController * Q * S) :=
  match channel_register address with
  | Some (channel, register) =>
      if channel =? CHANNEL4 then
        match register with
        | 0 => (Ok tt, (set_madr (value .& RAM_ADDRESS_MASK) d, q, s))
        | 1 => (Ok tt, (set_bcr value d, q, s))
        | 2 =>
            let (r, dq) := reschedule now (set_chcr (value .& CHCR_WRITABLE) d) q in
            (r, (dq, s))
        | _ => (Panic, (d, q, s))
        end
      else
        match register_only_value channel register value with
        | Some v => (Ok tt, (set_channel_at channel register v d, q, s))
        | None => (Panic, (d, q, s))
        end
  | None =>
      if address =? DPCR then
        let (r, dq) := reschedule now (set_dpcr value d) q in (r, (dq, s))
      else if address =? DICR then
        let (d, s) := write_dicr value d s in (Ok tt, (d, q, s))
      else (Err (InvalidRegister address), (d, q, s))
  end.

(** The register updates shared by both completions. *)
Definition advance_address (base words : Z) (decrement : bool) : outcome DmaError Z :=
  let? byte_count := ok_or (checked_mul_u 64 words 4) ClockOverflow in
  let? byte_count := ok_or (try_from_u 32 byte_count) ClockOverflow in
  Ok (wrap 32 (if decrement then base - byte_count else base + byte_count)
        .& RAM_ADDRESS_MASK).

Section endpoint.
Context {E : Type}.

(** One word of [service_mdec_in]. *)
Fixpoint mdec_loop `{MdecDmaEndpoint E} (ram : Buffer) (base words : Z)
    (decrement : bool) (index : Z) (n : nat) (e : E) : outcome DmaError unit * E :=
  match n with
  | O => (Ok tt, e)
  | Datatypes.S n =>
      match (let? address := transfer_address base index decrement in
             let? offset := ok_or (try_from_u 64 address) (RamRange base words decrement) in
             read_ram_word ram offset) with
      | Err x => (Err x, e)
      | Panic => (Panic, e)
      | Ok value =>
          let (r, e) := mdec_write_word value e in
          match r with
          | Ok _ => mdec_loop ram base words decrement (index + 1) n e
          | Err x => (Err (Endpoint x), e)
          | Panic => (Panic, e)
          end
      end
  end.

(** One word of [complete], in either direction. *)
Fixpoint transfer_loop `{SoundDmaEndpoint E} (from_ram : bool) (base words : Z)
    (decrement : bool) (index : Z) (n : nat) (ram : Buffer) (e : E)
    : outcome DmaError unit * (Buffer * E) :=
  match n with
  | O => (Ok tt, (ram, e))
  | Datatypes.S n =>
      match (let? address := transfer_address base index decrement in
             ok_or (try_from_u 64 address) (RamRange base words decrement)) with
      | Err x => (Err x, (ram, e))
      | Panic => (Panic, (ram, e))
      | Ok offset =>
          if from_ram then
            match read_ram_word ram offset with
            | Err x => (Err x, (ram, e))
            | Panic => (Panic, (ram, e))
            | Ok value =>
                let (r, e) := write_word value e in
                match r with
                | Ok _ => transfer_loop from_ram base words decrement (index + 1) n ram e
                | Err x => (Err (Endpoint x), (ram, e))
                | Panic => (Panic, (ram, e))
                end
            end
          else
            let (r, e) := read_word e in
            match r with
            | Err x => (Err (Endpoint x), (ram, e))
            | Panic => (Panic, (ram, e))
            | Ok value =>
                match write_ram_word ram offset value with
                | Err x => (Err x, (ram, e))
                | Panic => (Panic, (ram, e))
                | Ok ram => transfer_loop from_ram base words decrement (index + 1) n ram e
                end
            end
      end
  end.

Definition service_mdec_in `{MdecDmaEndpoint E} (memory : Ps1Memory)
    (d : DmaController) (e : E) (s : S)
    : outcome DmaError bool * (DmaController * E * S) :=
  match register_only_channels d !! Z.to_nat CHANNEL0 with
  | Some [base; block; control] =>
      if negb (has_bits (dpcr d) CHANNEL0_ENABLE) || negb (has_bits control CHCR_START)
      then (Ok false, (d, e, s))
      else if negb (has_bits control CHCR_DIRECTION_FROM_RAM)
      then (Err MdecDirection, (d, e, s))
      else
        let sync := sync_mode control in
        match (match sync with
               | 0 => Ok (has_bits control CHCR_TRIGGER)
               | 1 => Ok true
               | mode => Err (UnsupportedMdecSync mode)
               end) with
        | Err x => (Err x, (d, e, s))
        | Panic => (Panic, (d, e, s))
        | Ok false => (Ok false, (d, e, s))
        | Ok true =>
            let decrement := has_bits control CHCR_DECREMENT in
            match (let? words := transfer_words block sync in
                   let? _ := validate_ram_range base words decrement
                     (buf_len (ram memory)) in Ok words) with
            | Err x => (Err x, (d, e, s))
            | Panic => (Panic, (d, e, s))
            | Ok words =>
                let (r, e) :=
                  mdec_loop (ram memory) base words decrement 0 (Z.to_nat words) e in
                match (let? _ := r in advance_address base words decrement) with
                | Err x => (Err x, (d, e, s))
                | Panic => (Panic, (d, e, s))
                | Ok base' =>
                    let d := set_channel_at CHANNEL0 0 base' d in
                    let d := set_channel_at CHANNEL0 2
                      (control .& bnot 32 (CHCR_START .| CHCR_TRIGGER)) d in
                    let (d, s) := finish_channel0 d s in
                    (Ok true, (d, e, s))
                end
            end
        end
  | _ => (Panic, (d, e, s))
  end.

Definition complete `{SoundDmaEndpoint E} (event : DueEvent) (d : DmaController)
    (memory : Ps1Memory) (e : E) (s : S)
    : outcome DmaError unit * (DmaController * Ps1Memory * E * S) :=
  match pending d with
  | None => (Err StaleEvent, (d, memory, e, s))
  | Some p =>
      if negb (ev_id event =? CHANNEL4_EVENT) || negb (ev_deadline event =? pt_deadline p)
      then (Err StaleEvent, (d, memory, e, s))
      else
        let d := set_pending None d in
        let decrement := has_bits (chcr d) CHCR_DECREMENT in
        let from_ram := has_bits (chcr d) CHCR_DIRECTION_FROM_RAM in
        match validate_ram_range (madr d) (pt_words p) decrement (buf_len (ram memory)) with
        | Err x => (Err x, (d, memory, e, s))
        | Panic => (Panic, (d, memory, e, s))
        | Ok _ =>
            let (r, be) := transfer_loop from_ram (madr d) (pt_words p) decrement 0
              (Z.to_nat (pt_words p)) (ram memory) e in
            let memory := Ps1Memory.set_ram be.1 memory in
            match (let? _ := r in advance_address (madr d) (pt_words p) decrement) with
            | Err x => (Err x, (d, memory, be.2, s))
            | Panic => (Panic, (d, memory, be.2, s))
            | Ok base' =>
                let d := set_madr base' d in
                let d := set_chcr (chcr d .& bnot 32 (CHCR_START .| CHCR_TRIGGER)) d in
                let (d, s) := finish_channel4 d s in
                (Ok tt, (d, memory, be.2, s))
            end
        end
  end.

End endpoint.
End sink.
End queue.
End DmaController.
