(* ===== verification/Ps1DmaFacts.v ===== *)
(** * What the PS1 DMA controller promises

    The controller's pending transfer and the scheduler agree after every
    register write, and a completion moves exactly the programmed words, in
    order, between main RAM and the sound device. *)

From S2P Require Import Prelude MachineInt Clock Scheduler Ps1Irq.
From S2P Require Import Buffer PsxExe Ps1Memory Ps1MemoryFacts Ps1Dma.
Import Ps1Dma.DmaController.

(** ** RAM addresses *)

Lemma madr_masked v : masked (v .& RAM_ADDRESS_MASK).
Proof. apply land_masked. Qed.

(** ** The state invariant *)

Definition pending_ok (p : PendingTransfer) : Prop :=
  1 <= pt_words p <= MAX_RAM_WORDS /\ in_u 64 (pt_deadline p).

(** The registers of a channel other than 4. *)
Definition row_ok (row : list Z) : Prop :=
  match row with
  | [base; block; control] => masked base /\ in_u 32 block /\ in_u 32 control
  | _ => False
  end.

Record wf (d : DmaController) : Prop := {
  wf_madr : masked (madr d);
  wf_bcr : in_u 32 (bcr d);
  wf_chcr : in_u 32 (chcr d);
  wf_dpcr : in_u 32 (dpcr d);
  wf_dicr_control : in_u 32 (dicr_control d);
  wf_dicr_flags : in_u 32 (dicr_flags d);
  wf_channels : length (register_only_channels d) = 7%nat;
  wf_rows : Forall row_ok (register_only_channels d);
  wf_pending : match pending d with Some p => pending_ok p | None => True end;
}.

Lemma dma_new_wf : wf new.
Proof.
  constructor; cbn; try done; try (unfold in_u; lia).
  by apply (Forall_replicate _ 7 [0; 0; 0]).
Qed.

(** The scheduler holds the completion the controller waits for, and only then. *)
Definition synced {Q} `{EventQueue Q} (d : DmaController) (q : Q) : Prop :=
  eq_deadline q CHANNEL4_EVENT = completion_deadline d.

Lemma channel_register_range a c r :
  in_u 32 a -> channel_register a = Some (c, r) -> 0 <= c < 7 /\ 0 <= r < 3.
Proof.
  intros Ha. unfold channel_register.
  destruct (checked_sub_u a DMA_CHANNEL_START) as [o|] eqn:Eo; [|done]. cbn.
  apply checked_sub_u_Some in Eo as [-> Hle].
  pose proof (Z.div_pos (a - DMA_CHANNEL_START) CHANNEL_STRIDE ltac:(lia) eq_refl).
  pose proof (Z.mod_pos_bound (a - DMA_CHANNEL_START) CHANNEL_STRIDE eq_refl).
  pose proof (Z.div_pos ((a - DMA_CHANNEL_START) mod CHANNEL_STRIDE) 4 ltac:(lia) eq_refl).
  destruct (Z.leb_spec CHANNEL_COUNT ((a - DMA_CHANNEL_START) / CHANNEL_STRIDE)); [done|].
  case_match; [done|]. intros [= <- <-]. zbool. by split.
Qed.

(** ** Sizing and scheduling a transfer *)

Lemma halfword_range v : 0 <= v -> 0 <= v .& 0xffff < 0x10000.
Proof.
  intros Hv. change 0xffff with (Z.ones 16). rewrite Z.land_ones by lia.
  by apply Z.mod_pos_bound.
Qed.

Lemma transfer_words_spec b sync :
  in_u 32 b ->
  no_panic (transfer_words b sync) /\
  forall words, transfer_words b sync = Ok words -> 1 <= words <= MAX_RAM_WORDS.
Proof.
  intros Hb. unfold transfer_words.
  pose proof (halfword_range b (proj1 Hb)) as Hl.
  set (low := if b .& 0xffff =? 0 then 0x10000 else b .& 0xffff).
  assert (1 <= low <= 0x10000) as Hlow by (subst low; destruct (Z.eqb_spec (b .& 0xffff) 0); lia).
  pose proof (in_u_shiftr_narrow 32 b 16 ltac:(lia) Hb) as Hs.
  set (high := if Z.shiftr b 16 =? 0 then 0x10000 else Z.shiftr b 16).
  assert (1 <= high <= 0x10000) as Hhigh.
  { subst high. unfold in_u in Hs. change (2 ^ (32 - 16)) with 0x10000 in Hs. destruct (Z.eqb_spec (Z.shiftr b 16) 0); lia. }
  set (words := if sync =? 0 then Ok low
    else ok_or (checked_mul_u 64 low high) (TransferTooLarge (2 ^ 64 - 1))).
  assert (exists w, words = Ok w /\ 1 <= w) as (w & -> & Hw).
  { subst words. destruct (sync =? 0); [exists low; by split; [|lia]|].
    exists (low * high). split; [|nia].
    apply ok_or_ok, checked_mul_u_Some. split; [done|]. nia. }
  cbn [obind]. destruct (Z.ltb_spec MAX_RAM_WORDS w); [done|].
  split; [done|]. intros ? [= <-]. lia.
Qed.

Lemma plan_transfer_spec d now :
  in_u 32 (bcr d) -> in_u 64 now ->
  no_panic (plan_transfer d now) /\
  (forall p, plan_transfer d now = Ok (Some p) ->
    pending_ok p /\ pt_deadline p = now + pt_words p * CYCLES_PER_WORD /\
    transfer_words (bcr d) (sync_mode (chcr d)) = Ok (pt_words p)) /\
  (plan_transfer d now = Ok None ->
    sync_mode (chcr d) = 0 /\ has_bits (chcr d) CHCR_TRIGGER = false).
Proof.
  intros Hb Hnow. unfold plan_transfer.
  destruct (transfer_words_spec (bcr d) (sync_mode (chcr d)) Hb) as [Hnp Hw].
  set (active := match sync_mode (chcr d) with 0 => _ | _ => _ end).
  destruct active as [a|e|] eqn:Ea; cbn [obind]; [|done|].
  2:{ exfalso. subst active. by repeat case_match. }
  assert (a = false -> sync_mode (chcr d) = 0 /\ has_bits (chcr d) CHCR_TRIGGER = false)
    as Ha.
  { intros ->. subst active. repeat case_match; try discriminate. by inversion Ea. }
  destruct a; cbn [negb]; [|by split_and!; auto]. clear Ha.
  destruct (transfer_words _ _) as [words|e|]; cbn [obind]; [|done|done].
  specialize (Hw words eq_refl).
  replace (checked_mul_u 64 words CYCLES_PER_WORD) with (Some (words * CYCLES_PER_WORD)).
  2:{ symmetry. apply checked_mul_u_Some. split; [done|].
      change MAX_RAM_WORDS with 524288 in Hw. unfold CYCLES_PER_WORD. lia. }
  cbn [obind ok_or]. unfold Deadline.checked_advance.
  destruct (checked_add_u 64 now (words * CYCLES_PER_WORD)) as [dl|] eqn:Ed;
    cbn [ok_or map_err obind]; [|done].
  apply checked_add_u_Some in Ed as [-> Hlt].
  split_and!; [done| |done]. intros ? [= <-]. cbn [pt_deadline pt_words].
  split; [|done]. split; [done|]. cbn. unfold CYCLES_PER_WORD, in_u in *. lia.
Qed.

Section queue.
Context {Q : Type} `{EventQueueLaws Q}.

(** The registers describe no transfer: the channel is disabled, not started, or
    waits for its manual trigger. *)
Definition idle (d : DmaController) : bool :=
  negb (has_bits (dpcr d) CHANNEL4_ENABLE) || negb (has_bits (chcr d) CHCR_START) ||
  ((sync_mode (chcr d) =? 0) && negb (has_bits (chcr d) CHCR_TRIGGER)).

(** What [reschedule] establishes, whatever state the queue was in. *)
Lemma reschedule_spec now d (q : Q) :
  wf d -> in_u 64 now ->
  let '(r, (d', q')) := reschedule now d q in
  no_panic r /\ synced d' q' /\
  (exists o, d' = set_pending o d /\
     match o with
     | Some p => pending_ok p /\ pt_deadline p = now + pt_words p * CYCLES_PER_WORD /\
         transfer_words (bcr d) (sync_mode (chcr d)) = Ok (pt_words p) /\ r = Ok tt
     | None => r = Ok tt -> idle d = true
     end) /\
  forall id, id <> CHANNEL4_EVENT -> eq_deadline q' id = eq_deadline q id.
Proof.
  intros Hd Hnow. unfold reschedule.
  set (q1 := (eq_cancel q CHANNEL4_EVENT).2).
  assert (forall id, eq_deadline q1 id =
    if decide (CHANNEL4_EVENT = id) then None else eq_deadline q id) as Hq1.
  { intros id. apply eq_cancel_deadline. }
  assert (forall id, id <> CHANNEL4_EVENT -> eq_deadline q1 id = eq_deadline q id) as Hne.
  { intros id Hid. by rewrite Hq1, decide_False by congruence. }
  assert (synced (set_pending None d) q1) as Hs0.
  { unfold synced. by rewrite Hq1, decide_True. }
  assert (forall r : outcome DmaError unit, no_panic r ->
    (r = Ok tt -> idle d = true) ->
    no_panic r /\ synced (set_pending None d) q1 /\
    (exists o, set_pending None d = set_pending o d /\
       match o with
       | Some p => pending_ok p /\ pt_deadline p = now + pt_words p * CYCLES_PER_WORD /\
         transfer_words (bcr d) (sync_mode (chcr d)) = Ok (pt_words p) /\ r = Ok tt
       | None => r = Ok tt -> idle d = true
       end) /\
    forall id, id <> CHANNEL4_EVENT -> eq_deadline q1 id = eq_deadline q id) as Hstop.
  { intros r Hr Hi. split_and!; try done. by exists None. }
  destruct (negb _ || negb _) eqn:Ei.
  { apply Hstop; [done|]. intros _. cbn in Ei. unfold idle. by rewrite Ei. }
  destruct (plan_transfer_spec (set_pending None d) now) as (Hnp & Hp & Hidle); [apply Hd|done|].
  destruct (plan_transfer _ now) as [[p|]|e|]; [| |by apply Hstop|done].
  2:{ apply Hstop; [done|]. intros _. destruct (Hidle eq_refl) as [E1 E2].
      cbn in E1, E2. unfold idle. rewrite E1, E2. apply orb_true_r. }
  destruct (Hp p eq_refl) as (Hok & Hdl & Hw).
  destruct (eq_schedule q1 CHANNEL4_EVENT (pt_deadline p)) as [r q2] eqn:Es.
  pose proof (eq_schedule_no_panic q1 CHANNEL4_EVENT (pt_deadline p)) as Hn.
  rewrite Es in Hn. destruct r as [[]|e|]; [| |done].
  - split_and!; [done| | |].
    + unfold synced. rewrite (eq_schedule_ok _ _ _ _ _ Es), decide_True by done. done.
    + exists (Some p). split; [done|]. by split_and!; try done; apply Hok.
    + intros id Hid. rewrite (eq_schedule_ok _ _ _ _ _ Es), decide_False by congruence.
      by apply Hne.
  - rewrite (eq_schedule_err _ _ _ _ _ Es). by apply Hstop.
Qed.
End queue.

(** ** Register writes *)

Lemma set_transfer_wf d o :
  wf d -> match o with Some p => pending_ok p | None => True end -> wf (set_pending o d).
Proof. by intros [] Ho. Qed.

Lemma set_channel_at_wf c r v d :
  wf d -> 0 <= r < 3 -> in_u 32 v -> (r = 0 -> masked v) -> wf (set_channel_at c r v d).
Proof.
  intros [] Hr Hv H0. constructor; try done; cbn.
  - by rewrite length_alter.
  - apply Forall_alter; [done|]. intros [|a [|b [|x [|]]]] _; try done. intros (Ha & Hb & Hx).
    assert (r = 0 \/ r = 1 \/ r = 2) as Hr' by lia.
    destruct Hr' as [-> | [-> | ->]]; cbn; split_and!; auto.
Qed.

Lemma register_only_value_ok c r value v :
  in_u 32 value -> register_only_value c r value = Some v ->
  in_u 32 v /\ (r = 0 -> masked v).
Proof.
  intros Hv. unfold register_only_value.
  destruct r as [|[[| |]|[| |]|]|]; try done; intros [= <-].
  - split; [by apply in_u_land_l|]. intros _. apply madr_masked.
  - split; [|done]. destruct (c =? CHANNEL0); [by apply in_u_land_l|by apply in_u_land_bnot].
  - by split.
Qed.

Lemma write_dicr_wf v d : in_u 32 v -> wf d ->
  wf (set_dicr (v .& DICR_WRITABLE_CONTROL)
       (dicr_flags d .& bnot 32 (v .& DICR_CHANNEL_FLAGS)) d).
Proof.
  intros Hv []. constructor; try done; cbn.
  - apply in_u_land_l; [done|done].
  - apply in_u_land_bnot; [lia|done|]. apply in_u_land_l; [done|done].
Qed.

Lemma write_dicr_eq {S} `{InterruptSink S} v d (s : S) :
  write_dicr v d s =
  let d' := set_dicr (v .& DICR_WRITABLE_CONTROL)
    (dicr_flags d .& bnot 32 (v .& DICR_CHANNEL_FLAGS)) d in
  (d', signal (master_irq d) d' s).
Proof. done. Qed.

(** A register update that leaves the interrupt registers alone raises nothing. *)
Lemma signal_same {S} `{InterruptSink S} d d' (s : S) :
  dicr_control d' = dicr_control d -> dicr_flags d' = dicr_flags d ->
  signal (master_irq d) d' s = s.
Proof.
  intros E1 E2. unfold signal, master_irq. rewrite E1, E2.
  by destruct (has_bits (dicr_control d) DICR_FORCE || _).
Qed.

Section write.
Context {Q S : Type} `{EventQueueLaws Q} `{InterruptSink S}.

(** Writes that recompute the schedule. *)
Definition rearms (address : Z) : bool := (address =? D4_CHCR) || (address =? DPCR).

(** What every register write promises. *)
Definition write_ok (address now : Z) (d : DmaController) (q : Q) (s : S)
    (res : outcome DmaError unit * (DmaController * Q * S)) : Prop :=
  let '(r, (d', q', s')) := res in
  no_panic r /\ wf d' /\ synced d' q' /\
  (forall id, id <> CHANNEL4_EVENT -> eq_deadline q' id = eq_deadline q id) /\
  s' = signal (master_irq d) d' s /\
  (pending d' <> pending d -> forall p, pending d' = Some p ->
     r = Ok tt /\ pt_deadline p = now + 4 * pt_words p /\
     transfer_words (bcr d') (sync_mode (chcr d')) = Ok (pt_words p)) /\
  (rearms address = true -> r = Ok tt -> pending d' = None -> idle d' = true).

Lemma write_ok_register address now d q s d' :
  wf d' -> synced d q -> pending d' = pending d ->
  dicr_control d' = dicr_control d -> dicr_flags d' = dicr_flags d ->
  rearms address = false ->
  write_ok address now d q s (Ok tt, (d', q, s)).
Proof.
  intros Hd Hs Hp E1 E2 Hr. split_and!; try done.
  - unfold synced, completion_deadline. by rewrite Hp.
  - by rewrite signal_same.
  - by rewrite Hr.
Qed.

Lemma write_ok_reschedule address now d q s d1 :
  in_u 64 now -> wf d1 ->
  dicr_control d1 = dicr_control d -> dicr_flags d1 = dicr_flags d ->
  write_ok address now d q s (let (r, dq) := reschedule now d1 q in (r, (dq, s))).
Proof.
  intros Hnow Hd1 E1 E2. pose proof (reschedule_spec now d1 q Hd1 Hnow) as Hr.
  destruct (reschedule now d1 q) as [r [d' q']].
  destruct Hr as (Hnp & Hs & (o & -> & Ho) & Hq). split_and!; try done.
  - apply set_transfer_wf; [done|]. destruct o; [apply Ho|done].
  - by rewrite signal_same.
  - intros _ p Hp. cbn in Hp. subst o. destruct Ho as (_ & Hdl & Hw & Hr).
    split_and!; [done| |done]. rewrite Hdl. unfold CYCLES_PER_WORD. lia.
  - intros _ Hok Hn. cbn in Hn. subst o. by apply Ho.
Qed.

Lemma dma_write_ok address value now d (q : Q) (s : S) :
  wf d -> synced d q -> in_u 32 address -> in_u 32 value -> in_u 64 now ->
  write_ok address now d q s (write address value now d q s).
Proof.
  intros Hd Hs Ha Hv Hnow. pose proof Hd as [].
  assert (in_u 32 (value .& CHCR_WRITABLE)) as Hc by (apply in_u_land_l; done).
  unfold write. destruct (channel_register address) as [[c r]|] eqn:Ec.
  - destruct (channel_register_range _ _ _ Ha Ec) as [Hcr Hrr].
    assert (r = 0 \/ r = 1 \/ r = 2) as Hr012 by lia.
    assert ((c, r) <> (CHANNEL4, 2) -> rearms address = false) as Hre.
    { intros Hne. unfold rearms. destruct (Z.eqb_spec address D4_CHCR) as [->|].
      { vm_compute in Ec. by injection Ec as <- <-. }
      destruct (Z.eqb_spec address DPCR) as [->|]; [|done]. by vm_compute in Ec. }
    destruct (Z.eqb_spec c CHANNEL4) as [->|Hc4].
    + destruct Hr012 as [->|[->| ->]].
      * apply write_ok_register; try done; [|by apply Hre].
        constructor; try done. apply madr_masked.
      * apply write_ok_register; try done. by apply Hre.
      * by apply write_ok_reschedule.
    + assert (exists v, register_only_value c r value = Some v) as (v & Ev).
      { destruct Hr012 as [->|[->| ->]]; by eexists. }
      rewrite Ev. destruct (register_only_value_ok _ _ _ _ Hv Ev) as [Hvu Hvm].
      apply write_ok_register; [by apply set_channel_at_wf|try done..].
      apply Hre. congruence.
  - assert (address =? D4_CHCR = false) as Hn.
    { by destruct (Z.eqb_spec address D4_CHCR) as [->|]. }
    destruct (address =? DPCR) eqn:Ed; [by apply write_ok_reschedule|].
    destruct (address =? DICR).
    + rewrite write_dicr_eq. cbn zeta. split_and!; try done; [by apply write_dicr_wf|].
      unfold rearms. by rewrite Hn, Ed.
    + split_and!; try done. by rewrite signal_same.
Qed.

(** Every DMA register write, at any address and with any value, keeps the
    registers well formed and the controller's pending transfer identical to the
    scheduler's channel-4 deadline; it never panics and never touches another
    event.  A newly pending transfer ends four cycles per programmed word after
    the write, and the CPU interrupt is requested exactly when the master
    interrupt flag of [DICR] rises.  After an accepted write of [CHCR] or [DPCR]
    a started, enabled and triggered channel has its transfer pending. *)
Theorem write_keeps_channel4_scheduled address value now d (q : Q) (s : S) :
  wf d -> synced d q -> in_u 32 address -> in_u 32 value -> in_u 64 now ->
  write_ok address now d q s (write address value now d q s).
Proof. apply dma_write_ok. Qed.
End write.

(** A 16-word sound transfer is scheduled 64 cycles after its start. *)
Definition programmed : DmaController :=
  mkDma 0x1000 0x10010 0 (register_only_channels new) (DPCR_RESET .| CHANNEL4_ENABLE) 0 0 None.

Lemma programmed_wf : wf programmed.
Proof.
  destruct dma_new_wf. constructor; try done; cbn; try (unfold in_u; lia).
Qed.

Example programmed_start :
  pending (write D4_CHCR 0x01000201 100 programmed (Scheduler.new) ([] : list InterruptSource)).2.1.1
  = Some (mkPending 164 16).
Proof. vm_compute. reflexivity. Qed.

Lemma write_keeps_channel4_scheduled_witness :
  synced
    (write D4_CHCR 0x01000201 100 programmed Scheduler.new ([] : list InterruptSource)).2.1.1
    (write D4_CHCR 0x01000201 100 programmed Scheduler.new ([] : list InterruptSource)).2.1.2.
Proof.
  assert (in_u 32 D4_CHCR) as H1 by (unfold in_u, D4_CHCR; lia).
  assert (in_u 32 0x01000201) as H2 by (unfold in_u; lia).
  assert (in_u 64 100) as H3 by (unfold in_u; lia).
  pose proof (write_keeps_channel4_scheduled D4_CHCR 0x01000201 100 programmed Scheduler.new
    ([] : list InterruptSource) programmed_wf eq_refl H1 H2 H3) as H.
  destruct (write _ _ _ _ _ _) as [r [[d' q'] s']]. apply H.
Defined.

(** ** Transfer addresses *)

(** Every word of the transfer lies in main RAM. *)
Definition in_ram (base words : Z) (decrement : bool) : bool :=
  (base + 4 <=? RAM_SIZE) && (0 <=? word_address base decrement (words - 1)) &&
  (word_address base decrement (words - 1) + 4 <=? RAM_SIZE).

Lemma transfer_address_spec base index decrement :
  masked base -> 0 <= index < MAX_RAM_WORDS ->
  transfer_address base index decrement =
  if 0 <=? word_address base decrement index
  then Ok (word_address base decrement index)
  else Err (RamRange base (index + 1) decrement).
Proof.
  unfold masked, WORD_MASK. change MAX_RAM_WORDS with 524288. intros [Hb _] Hi.
  unfold transfer_address, word_address.
  replace (checked_mul_u 64 index 4) with (Some (4 * index)).
  2:{ symmetry. apply checked_mul_u_Some. lia. }
  cbn [ok_or obind]. rewrite try_from_u_in by lia. cbn [ok_or obind]. destruct decrement.
  - unfold checked_sub_u. destruct (Z.leb_spec (4 * index) base), (Z.leb_spec 0 (base - 4 * index));
      done || lia.
  - unfold checked_add_u. destruct (Z.ltb_spec (base + 4 * index) (2 ^ 32)); [|lia].
    by destruct (Z.leb_spec 0 (base + 4 * index)); [|lia].
Qed.

Lemma word_address_range base words decrement index :
  in_ram base words decrement = true -> masked base -> 0 <= index < words ->
  0 <= word_address base decrement index /\ word_address base decrement index + 4 <= RAM_SIZE.
Proof.
  unfold in_ram, word_address, masked. intros Hin [Hb _] Hi. zbool.
  destruct decrement; lia.
Qed.

Lemma past_end_spec o n : 0 <= o < 2 ^ 32 -> past_end o n = (n <? o + 4).
Proof.
  intros Ho. unfold past_end, checked_add_u.
  by destruct (Z.ltb_spec (o + 4) (2 ^ 64)); [|lia].
Qed.

Lemma validate_ram_range_spec base words decrement :
  masked base -> 1 <= words <= MAX_RAM_WORDS ->
  validate_ram_range base words decrement RAM_SIZE =
  if in_ram base words decrement then Ok tt else Err (RamRange base words decrement).
Proof.
  intros Hb Hw. unfold validate_ram_range.
  rewrite transfer_address_spec by (done || lia).
  replace (words - 1 + 1) with words by lia.
  unfold in_ram. change MAX_RAM_WORDS with 524288 in Hw.
  assert (0 <= base < 2 ^ 32) as Hb32 by (destruct Hb; unfold WORD_MASK in *; lia).
  destruct (Z.leb_spec 0 (word_address base decrement (words - 1))) as [H0|H0];
    [|by rewrite andb_false_r].
  assert (word_address base decrement (words - 1) < 2 ^ 32) as Hl.
  { destruct Hb. unfold word_address, WORD_MASK in *. destruct decrement; lia. }
  cbn [obind]. rewrite !try_from_u_in by lia. cbn [obind ok_or].
  rewrite !past_end_spec, andb_true_r by lia.
  destruct (Z.ltb_spec RAM_SIZE (base + 4)), (Z.leb_spec (base + 4) RAM_SIZE); try lia; [done|].
  cbn [orb andb].
  by destruct (Z.ltb_spec RAM_SIZE (word_address base decrement (words - 1) + 4)),
    (Z.leb_spec (word_address base decrement (words - 1) + 4) RAM_SIZE); try lia.
Qed.

(** ** Single words *)

Lemma read_ram_word_in b o :
  0 <= o -> o + 4 <= buf_len b -> read_ram_word b o = Ok (word_at b o).
Proof. intros. unfold read_ram_word. by rewrite slice_inside by lia. Qed.

Lemma write_ram_word_in b o v :
  0 <= o -> o + 4 <= buf_len b ->
  write_ram_word b o v = Ok (Buffer.write_cells b o (le_bytes 4 v)).
Proof.
  intros. unfold write_ram_word. by rewrite copy_word_in.
Qed.

(** What a device promises the controller: in a good state it takes and supplies
    words without panicking and stays good. *)
Class EndpointLaws (E : Type) `{SoundDmaEndpoint E} (good : E -> Prop) : Prop := {
  write_word_ok w (e : E) :
    good e -> in_u 32 w -> no_panic (write_word w e).1 /\ good (write_word w e).2;
  read_word_ok (e : E) :
    good e -> no_panic (read_word e).1 /\ good (read_word e).2 /\
    forall w, (read_word e).1 = Ok w -> in_u 32 w;
}.

Section loops.
Context {E : Type} (base words : Z) (decrement : bool).
Context (Hbase : masked base) (Hwords : words <= MAX_RAM_WORDS).
Context (Hin : in_ram base words decrement = true).

Lemma address_in index :
  0 <= index < words ->
  transfer_address base index decrement = Ok (word_address base decrement index) /\
  0 <= word_address base decrement index /\
  word_address base decrement index + 4 <= RAM_SIZE.
Proof.
  intros Hi. pose proof (word_address_range base words decrement index Hin Hbase Hi).
  rewrite transfer_address_spec by (done || lia).
  by destruct (Z.leb_spec 0 (word_address base decrement index)); [|lia].
Qed.

Lemma mdec_loop_send `{MdecDmaEndpoint E} b index n e :
  buf_len b = RAM_SIZE -> 0 <= index -> index + Z.of_nat n <= words ->
  mdec_loop b base words decrement index n e =
  let (r, e') := send mdec_write_word (ram_words b base decrement index (Z.of_nat n)) e in
  (map_err Endpoint r, e').
Proof.
  intros Hb. revert index e. induction n as [|n IH]; intros index e H0 Hn; [done|].
  destruct (address_in index ltac:(lia)) as (Ha & Hlo & Hhi).
  cbn [mdec_loop]. rewrite Ha, ram_words_cons by lia. cbn [obind send].
  rewrite try_from_u_in by (unfold RAM_SIZE in *; lia). cbn [ok_or obind].
  rewrite read_ram_word_in by lia. destruct (mdec_write_word _ e) as [[[]|x|] e']; try done.
  rewrite IH by lia. by replace (Z.of_nat (S n) - 1) with (Z.of_nat n) by lia.
Qed.

Lemma transfer_loop_send `{SoundDmaEndpoint E} b index n e :
  buf_len b = RAM_SIZE -> 0 <= index -> index + Z.of_nat n <= words ->
  transfer_loop true base words decrement index n b e =
  let (r, e') := send write_word (ram_words b base decrement index (Z.of_nat n)) e in
  (map_err Endpoint r, (b, e')).
Proof.
  intros Hb. revert index e. induction n as [|n IH]; intros index e H0 Hn; [done|].
  destruct (address_in index ltac:(lia)) as (Ha & Hlo & Hhi).
  cbn [transfer_loop]. rewrite Ha, ram_words_cons by lia. cbn [obind send].
  rewrite try_from_u_in by (unfold RAM_SIZE in *; lia). cbn [ok_or].
  rewrite read_ram_word_in by lia. destruct (write_word _ e) as [[[]|x|] e']; try done.
  rewrite IH by lia. by replace (Z.of_nat (S n) - 1) with (Z.of_nat n) by lia.
Qed.

Lemma transfer_loop_receive `{EndpointLaws E good} b index n e :
  good e -> buf_len b = RAM_SIZE -> Buffer.bytes_ok b -> 0 <= index -> index + Z.of_nat n <= words ->
  let '(ws, (r, e')) := receive read_word n e in
  exists b', transfer_loop false base words decrement index n b e =
    (map_err Endpoint r, (b', e')) /\
  stored b b' base decrement index ws /\ Buffer.bytes_ok b' /\
  (length ws <= n)%nat /\ (r = Ok tt -> length ws = n) /\ no_panic r /\ good e'.
Proof.
  revert index b e. induction n as [|n IH]; intros index b e Hg Hb Hok H0' Hn.
  { exists b. by split_and!. }
  destruct (address_in index ltac:(lia)) as (Ha & Hlo & Hhi).
  cbn [receive transfer_loop]. rewrite Ha. cbn [obind].
  rewrite try_from_u_in by (unfold RAM_SIZE in *; lia). cbn [ok_or].
  destruct (read_word_ok e Hg) as (Hnp & Hg1 & Hu).
  destruct (read_word e) as [[w|x|] e1]; [| |done].
  2:{ exists b. split_and!; try done; cbn; lia. }
  rewrite write_ram_word_in by lia.
  specialize (IH (index + 1)
    (Buffer.write_cells b (word_address base decrement index) (le_bytes 4 w)) e1).
  destruct (receive read_word n e1) as [ws [r e2]].
  destruct IH as (b' & El & Hst & Hok' & Hlen & Hlen' & Hr & Hge).
  { done. } { by rewrite Buffer.write_cells_len. }
  { apply Buffer.write_cells_ok; [done|apply le_bytes_u8]. }
  { lia. } { lia. }
  exists b'. split_and!; [done| |done| | |done|done].
  - apply stored_cons; [by apply Hu|done].
  - cbn. lia.
  - intros ->. cbn. by rewrite Hlen'.
Qed.
End loops.

(** ** Completion *)

Lemma advance_address_spec base words decrement :
  masked base -> 1 <= words <= MAX_RAM_WORDS ->
  advance_address base words decrement = Ok (word_address base decrement words mod 2 ^ 24).
Proof.
  intros [_ Hm] Hw. change MAX_RAM_WORDS with 524288 in Hw. unfold advance_address.
  replace (checked_mul_u 64 words 4) with (Some (4 * words)).
  2:{ symmetry. apply checked_mul_u_Some. lia. }
  cbn [ok_or obind]. rewrite try_from_u_in by lia. cbn [ok_or obind].
  apply Z.mod_divide in Hm as [b ->]; [|lia]. unfold word_address. f_equal.
  destruct decrement.
  - replace (b * 4 - 4 * words) with (4 * (b - words)) by lia. apply wrap_word_mask.
  - replace (b * 4 + 4 * words) with (4 * (b + words)) by lia. apply wrap_word_mask.
Qed.

(** The registers a finished transfer of [words] words leaves. *)
Definition finished (d : DmaController) (words : Z) : DmaController :=
  mkDma (word_address (madr d) (has_bits (chcr d) CHCR_DECREMENT) words mod 2 ^ 24)
    (bcr d) (Z.ldiff (chcr d) (CHCR_START .| CHCR_TRIGGER))
    (register_only_channels d) (dpcr d) (dicr_control d)
    (dicr_flags d .| DICR_CHANNEL4_FLAG) None.

(** The state a completion ends in: [finished] when the device accepted every
    word, otherwise only the pending mark is gone. *)
Definition outcome_of {S} `{InterruptSink S} (d : DmaController) (words : Z) (s : S)
    (r : outcome EndpointError unit) : DmaController * S :=
  match r with
  | Ok _ => (finished d words, signal (master_irq d) (finished d words) s)
  | _ => (set_pending None d, s)
  end.

Section complete.
Context {E S : Type} `{EndpointLaws E good} `{InterruptSink S}.

(** What a completion event does when the transfer fits main RAM. *)
Definition completed (d : DmaController) (m : Ps1Memory) (e : E) (s : S) (words : Z)
    (res : outcome DmaError unit * (DmaController * Ps1Memory * E * S)) : Prop :=
  let decrement := has_bits (chcr d) CHCR_DECREMENT in
  if has_bits (chcr d) CHCR_DIRECTION_FROM_RAM then
    let (r, e') := send write_word (ram_words (ram m) (madr d) decrement 0 words) e in
    let (d', s') := outcome_of d words s r in
    res = (map_err Endpoint r, (d', m, e', s')) /\ no_panic r /\ good e'
  else
    let '(ws, (r, e')) := receive read_word (Z.to_nat words) e in
    let (d', s') := outcome_of d words s r in
    exists b, res = (map_err Endpoint r, (d', Ps1Memory.set_ram b m, e', s')) /\
      stored (ram m) b (madr d) decrement 0 ws /\
      (r = Ok tt -> Z.of_nat (length ws) = words) /\
      no_panic r /\ good e' /\ Ps1MemoryFacts.wf (Ps1Memory.set_ram b m).

Lemma finish_channel4_eq d words (s : S) :
  in_u 32 (chcr d) ->
  finish_channel4
    (set_chcr (chcr d .& bnot 32 (CHCR_START .| CHCR_TRIGGER))
      (set_madr (word_address (madr d) (has_bits (chcr d) CHCR_DECREMENT) words mod 2 ^ 24)
        (set_pending None d))) s =
  (finished d words, signal (master_irq d) (finished d words) s).
Proof. intros Hc. rewrite land_bnot by done. done. Qed.

(** The body of [complete] once the event matches the pending transfer. *)
Lemma complete_pending ev d m (e : E) (s : S) p :
  wf d -> Ps1MemoryFacts.wf m -> pending d = Some p ->
  ev_id ev = CHANNEL4_EVENT -> ev_deadline ev = pt_deadline p ->
  let decrement := has_bits (chcr d) CHCR_DECREMENT in
  complete ev d m e s =
  if in_ram (madr d) (pt_words p) decrement then
    let (r, be) := transfer_loop (has_bits (chcr d) CHCR_DIRECTION_FROM_RAM)
      (madr d) (pt_words p) decrement 0 (Z.to_nat (pt_words p)) (ram m) e in
    match r with
    | Ok _ => (Ok tt, (finished d (pt_words p), Ps1Memory.set_ram be.1 m, be.2,
                signal (master_irq d) (finished d (pt_words p)) s))
    | Err x => (Err x, (set_pending None d, Ps1Memory.set_ram be.1 m, be.2, s))
    | Panic => (Panic, (set_pending None d, Ps1Memory.set_ram be.1 m, be.2, s))
    end
  else (Err (RamRange (madr d) (pt_words p) decrement), (set_pending None d, m, e, s)).
Proof.
  intros Hd Hm Hp Hid Hdl decrement. pose proof (wf_pending d Hd) as Hpo.
  rewrite Hp in Hpo. destruct Hpo as [Hw _].
  unfold complete. rewrite Hp, Hid, Hdl, !Z.eqb_refl. cbn [negb orb].
  cbn [set_pending madr chcr]. rewrite (Ps1MemoryFacts.wf_ram m Hm).
  rewrite validate_ram_range_spec by (done || apply Hd). fold decrement.
  destruct (in_ram (madr d) (pt_words p) decrement); [|done].
  destruct (transfer_loop _ _ _ _ _ _ _ _) as [r be].
  rewrite advance_address_spec by (done || apply Hd).
  destruct r as [[]|x|]; [|done|done]. cbn [obind].
  match goal with |- context [finish_channel4 ?x s] =>
    replace (finish_channel4 x s) with
      (finished d (pt_words p), signal (master_irq d) (finished d (pt_words p)) s)
      by exact (eq_sym (finish_channel4_eq d (pt_words p) s (wf_chcr d Hd)))
  end.
  done.
Qed.

(** A completion, as the property below states it. *)
Lemma complete_completes ev d m (e : E) (s : S) p :
  wf d -> Ps1MemoryFacts.wf m -> good e -> pending d = Some p ->
  ev_id ev = CHANNEL4_EVENT -> ev_deadline ev = pt_deadline p ->
  if in_ram (madr d) (pt_words p) (has_bits (chcr d) CHCR_DECREMENT)
  then completed d m e s (pt_words p) (complete ev d m e s)
  else complete ev d m e s =
    (Err (RamRange (madr d) (pt_words p) (has_bits (chcr d) CHCR_DECREMENT)),
     (set_pending None d, m, e, s)).
Proof.
  intros Hd Hm Hge Hp Hid Hdl. rewrite (complete_pending ev d m e s p) by done. cbn zeta.
  pose proof (wf_pending d Hd) as Hpo. rewrite Hp in Hpo. destruct Hpo as [Hw _].
  destruct (in_ram _ _ _) eqn:Hin; [|done]. unfold completed.
  destruct (has_bits (chcr d) CHCR_DIRECTION_FROM_RAM).
  - rewrite transfer_loop_send by (apply Hm || apply Hd || done || lia).
    rewrite Z2Nat.id by lia.
    destruct (send_ok good write_word _ e write_word_ok (ram_words_u32 (ram m) (madr d)
      (has_bits (chcr d) CHCR_DECREMENT) 0 (pt_words p) (Ps1MemoryFacts.wf_ram_bytes m Hm)) Hge)
      as [Hnp Hg'].
    destruct (send _ _ e) as [r e']. cbn [fst snd] in *.
    replace (Ps1Memory.set_ram (ram m) m) with m by (by destruct m).
    by destruct r as [[]|x|].
  - pose proof (transfer_loop_receive (madr d) (pt_words p) _ (wf_madr d Hd) (proj2 Hw) Hin
      (ram m) 0 (Z.to_nat (pt_words p)) e Hge (Ps1MemoryFacts.wf_ram m Hm)
      (Ps1MemoryFacts.wf_ram_bytes m Hm) ltac:(lia) ltac:(lia)) as Hl.
    destruct (receive read_word _ e) as [ws [r e']].
    destruct Hl as (b & El & Hst & Hok & Hlen & Hfull & Hnp & Hg').
    rewrite El. destruct (outcome_of d (pt_words p) s r) as [d' s'] eqn:Eo.
    exists b. split_and!; [|done| |done|done|].
    + destruct r as [[]|x|]; cbn in Eo; injection Eo as <- <-; done.
    + intros Hr. rewrite (Hfull Hr). lia.
    + destruct Hm. constructor; try done. destruct Hst as [Hl _]. cbn. by rewrite Hl.
Qed.

(** C15: The completion event of a pending transfer moves exactly the programmed
    words.  In the from-RAM direction the device receives the words at the
    successive (or descending) addresses in order and memory is unchanged; in the
    other direction the words the device supplies are stored at those addresses
    and every other byte of RAM keeps its value.  On success the address register
    has advanced past the transfer, the start and trigger bits are clear, the
    channel's flag is set and an interrupt is requested exactly on a rise of the
    master flag; a refusal by the device keeps the words moved so far; a transfer
    that leaves RAM moves nothing.  No case panics and the device stays good. *)
Theorem complete_moves_words ev d m (e : E) (s : S) p :
  wf d -> Ps1MemoryFacts.wf m -> good e -> pending d = Some p ->
  ev_id ev = CHANNEL4_EVENT -> ev_deadline ev = pt_deadline p ->
  if in_ram (madr d) (pt_words p) (has_bits (chcr d) CHCR_DECREMENT)
  then completed d m e s (pt_words p) (complete ev d m e s)
  else complete ev d m e s =
    (Err (RamRange (madr d) (pt_words p) (has_bits (chcr d) CHCR_DECREMENT)),
     (set_pending None d, m, e, s)).
Proof. apply complete_completes. Qed.
End complete.

(** A device with a queue of words in each direction. *)
Record Fifo := mkFifo { fifo_in : list Z; fifo_out : list Z }.

#[export] Instance fifo_endpoint : SoundDmaEndpoint Fifo := {
  write_word w e := (Ok tt, mkFifo (fifo_in e ++ [w]) (fifo_out e));
  read_word e :=
    match fifo_out e with
    | w :: ws => (Ok (wrap 32 w), mkFifo (fifo_in e) ws)
    | [] => (Err (mkEndpointError "empty"), e)
    end;
}.

#[export] Instance fifo_laws : EndpointLaws Fifo (fun _ => True).
Proof.
  constructor; [done|]. intros [i [|w o]] _; cbn; [done|].
  split_and!; try done. intros v [= <-]. by apply in_u_wrap.
Qed.

Definition ready (control : Z) : DmaController :=
  mkDma 0x1000 0x10002 control (register_only_channels new)
    (DPCR_RESET .| CHANNEL4_ENABLE) 0 0 (Some (mkPending 108 2)).

Lemma ready_wf control : in_u 32 control -> wf (ready control).
Proof.
  intros Hc. destruct dma_new_wf. constructor; try done; cbn; try (unfold in_u; lia).
Qed.

Example ready_receive :
  let '(r, (d, m, e, s)) := complete (mkDueEvent CHANNEL4_EVENT 108)
    (ready 0x01000200) (Ps1Memory.new Strict) (mkFifo [] [0x11223344; 7; 9])
    ([] : list InterruptSource) in
  r = Ok tt /\ ram_words (ram m) 0x1000 false 0 2 = [0x11223344; 7] /\
  fifo_out e = [9] /\ madr d = 0x1008.
Proof. vm_compute. done. Qed.

Lemma complete_moves_words_witness :
  completed (good := fun _ => True) (ready 0x01000200) (Ps1Memory.new Strict)
    (mkFifo [] [0x11223344; 7; 9]) ([] : list InterruptSource) 2
    (complete (mkDueEvent CHANNEL4_EVENT 108) (ready 0x01000200) (Ps1Memory.new Strict)
      (mkFifo [] [0x11223344; 7; 9]) ([] : list InterruptSource)).
Proof.
  assert (in_u 32 0x01000200) as Hc by (unfold in_u; lia).
  exact (complete_moves_words (mkDueEvent CHANNEL4_EVENT 108) (ready 0x01000200)
    (Ps1Memory.new Strict) (mkFifo [] [0x11223344; 7; 9]) ([] : list InterruptSource)
    (mkPending 108 2) (ready_wf _ Hc) (Ps1MemoryFacts.memory_new_wf Strict) I eq_refl eq_refl eq_refl).
Defined.

(** An event that does not match the pending transfer changes nothing. *)
Lemma complete_stale {E S} `{SoundDmaEndpoint E} `{InterruptSink S} ev d m (e : E) (s : S) :
  match pending d with
  | Some p => ev_id ev <> CHANNEL4_EVENT \/ ev_deadline ev <> pt_deadline p
  | None => True
  end -> complete ev d m e s = (Err StaleEvent, (d, m, e, s)).
Proof.
  unfold complete. destruct (pending d) as [p|]; [|done]. intros Hne.
  destruct (Z.eqb_spec (ev_id ev) CHANNEL4_EVENT), (Z.eqb_spec (ev_deadline ev) (pt_deadline p));
    naive_solver.
Qed.

(** ** MDEC input *)

Section mdec.
Context {E S : Type} `{MdecDmaEndpoint E} `{InterruptSink S} (good : E -> Prop).
Context (put_ok : forall w e, good e -> in_u 32 w ->
  no_panic (mdec_write_word w e).1 /\ good (mdec_write_word w e).2).

Lemma finish_channel0_wf d (s : S) :
  wf d -> wf (finish_channel0 d s).1 /\ pending (finish_channel0 d s).1 = pending d /\
  ((finish_channel0 d s).2 = s \/ (finish_channel0 d s).2 = request s Dma).
Proof.
  intros []. unfold finish_channel0, signal. cbn [fst snd]. split; [|split; [done|]].
  - constructor; try done. cbn. apply in_u_lor; [lia|done|by vm_compute].
  - destruct (_ && _); auto.
Qed.

(** A branch that returns the state it was given. *)
Ltac stop := cbn [fst snd]; split_and!; [done|done|done|done|by left].

(** Servicing the MDEC channel never panics and keeps the controller well formed,
    whatever its registers hold; channel 4 is not concerned. *)
Lemma service_mdec_in_ok m d (e : E) (s : S) :
  wf d -> Ps1MemoryFacts.wf m -> good e ->
  let '(r, (d', e', s')) := service_mdec_in m d e s in
  no_panic r /\ wf d' /\ pending d' = pending d /\ good e' /\ (s' = s \/ s' = request s Dma).
Proof using put_ok.
  intros Hd Hm He. unfold service_mdec_in.
  destruct (register_only_channels d !! Z.to_nat CHANNEL0) as [row|] eqn:Erow.
  2:{ exfalso. apply lookup_ge_None_1 in Erow. rewrite (wf_channels d Hd) in Erow.
      vm_compute in Erow. lia. }
  assert (row_ok row) as Hrow.
  { eapply Forall_lookup_1; [apply (wf_rows d Hd)|done]. }
  destruct row as [|base [|block [|control [|]]]]; try done. destruct Hrow as (Hb & Hbl & Hc).
  destruct (_ || _); [by stop|]. destruct (negb _); [by stop|].
  set (active := match sync_mode control with 0 => _ | _ => _ end).
  assert (no_panic active) as Ha by (unfold active; by repeat case_match).
  destruct active as [[]|x|]; [|by stop|by stop|done].
  destruct (transfer_words_spec block (sync_mode control) Hbl) as [Hnp Hw].
  destruct (transfer_words block (sync_mode control)) as [words|x|] eqn:Ew; cbn [obind];
    [|by stop|done].
  specialize (Hw words eq_refl). rewrite (Ps1MemoryFacts.wf_ram m Hm).
  rewrite validate_ram_range_spec by done.
  destruct (in_ram base words _) eqn:Hin; cbn [obind]; [|by stop].
  rewrite (mdec_loop_send base words _ Hb (proj2 Hw) Hin) by (apply Hm || lia).
  destruct (send_ok good mdec_write_word (ram_words (ram m) base (has_bits control CHCR_DECREMENT)
    0 (Z.of_nat (Z.to_nat words))) e put_ok) as [Hn Hg]; [|done|].
  { apply ram_words_u32, (Ps1MemoryFacts.wf_ram_bytes m Hm). }
  destruct (send _ _ e) as [[[]|x|] e']; cbn [map_err obind fst snd] in *; [|by stop|done].
  rewrite advance_address_spec by done.
  set (d2 := set_channel_at CHANNEL0 2 _ _).
  assert (wf d2 /\ pending d2 = pending d) as [Hd2 Hp2].
  { split; [|done]. apply set_channel_at_wf; [|lia|by apply in_u_land_bnot|lia].
    assert (masked (word_address base (has_bits control CHCR_DECREMENT) words mod 2 ^ 24)) as Hma.
    { pose proof (advance_address_spec base words (has_bits control CHCR_DECREMENT) Hb Hw) as Hadv.
      unfold advance_address in Hadv.
      destruct (ok_or (checked_mul_u 64 words 4) ClockOverflow) as [bc| |]; try done.
      cbn [obind] in Hadv. destruct (ok_or (try_from_u 32 bc) ClockOverflow); try done.
      injection Hadv as <-. apply madr_masked. }
    apply set_channel_at_wf; [done|lia| |done].
    destruct Hma as [Hr _]. unfold WORD_MASK in Hr. unfold in_u. lia. }
  destruct (finish_channel0_wf d2 s Hd2) as (Hf & Hpf & Hs).
  destruct (finish_channel0 d2 s) as [d3 s3]. cbn [fst snd] in *.
  by split_and!.
Qed.
End mdec.
