(* ===== verification/SpuCommon.v ===== *)
(** * Shared SPU arithmetic: crates/hw/shared/spu-common/src

    Register-free integer primitives of the PS1 SPU and the PS2 SPU2: fixed-point
    operations, the noise generator, pitch stepping, Gaussian interpolation, ring
    addresses, ADPCM decoding and the ADSR envelope.  A signed sample is its
    integer value.  Plain arithmetic that could leave the type is checked and
    panics, as a checked build does. *)

From S2P Require Import Prelude MachineInt.

(** [i16::MIN] and [i16::MAX] *)
Definition I16_MIN : Z := - 2 ^ 15.
Definition I16_MAX : Z := 2 ^ 15 - 1.

(** ** fixed.rs *)

Definition clamp_i16 (value : Z) : Z :=
  if (I16_MIN <=? value) && (value <=? I16_MAX) then value
  else if value <? 0 then I16_MIN else I16_MAX.

Definition multiply_q15 (left right : Z) : Z := Z.shiftr (left * right) 15.

Definition mac_q15 (terms : list (Z * Z)) : Z :=
  let sum := fold_left (fun sum lr => saturating_s 64 (sum + lr.1 * lr.2)) terms 0 in
  let shifted := Z.shiftr sum 15 in
  if shifted <? I16_MIN then I16_MIN
  else if I16_MAX <? shifted then I16_MAX
  else shifted.

(** ** noise.rs *)

Record NoiseGenerator := mkNoise { state : Z }.

Module NoiseGenerator.
Definition new (seed : Z) : NoiseGenerator := mkNoise (if seed =? 0 then 1 else seed).
Definition default : NoiseGenerator := new 1.

Definition feedback (s : Z) : Z :=
  (s .^ Z.shiftr s 2 .^ Z.shiftr s 3 .^ Z.shiftr s 5) .& 1.

Definition next (s : Z) : Z := Z.shiftr s 1 .| shl 16 (feedback s) 15.

(** The sample returned is the new state read as a signed halfword. *)
Definition step (g : NoiseGenerator) : Z * NoiseGenerator :=
  let s := next (state g) in (to_i 16 s, mkNoise s).
End NoiseGenerator.

(** ** pitch.rs *)

Record PitchStep := mkPitchStep { whole_samples : Z; step_phase : Z }.
Record PitchCounter := mkPitch { phase : Z }.

Module PitchCounter.
Definition new : PitchCounter := mkPitch 0.

Definition advance (pitch : Z) (c : PitchCounter) : PitchStep * PitchCounter :=
  let pitch := Z.min pitch 0x3fff in
  let total := phase c + pitch in
  let phase := default 0 (try_from_u 16 (total .& 0x0fff)) in
  (mkPitchStep (Z.shiftr total 12) phase, mkPitch phase).

Definition reset (c : PitchCounter) : PitchCounter := mkPitch 0.
End PitchCounter.

(** ** interpolation.rs

    The coefficient table is computed once with the platform's [sin] and [cos]; it
    is an argument here, a row of four weights per phase. *)

Module GaussianInterpolator.
Definition interpolate (weights : Z -> list Z) (samples : list Z) (phase : Z)
    : outcome Empty_set Z :=
  let fix go (sum : Z) (terms : list (Z * Z)) :=
    match terms with
    | [] => Ok (clamp_i16 sum)
    | (sample, weight) :: terms =>
        let? sum := expect (checked_s 32 (sum + Z.shiftr (sample * weight) 15)) in
        go sum terms
    end in
  go 0 (zip samples (weights phase)).
End GaussianInterpolator.

(** ** reverb.rs *)

Record RingBufferAddress := mkRing { base : Z; length_ : Z; position : Z }.

Module RingBufferAddress.
Definition new (base length : Z) : option RingBufferAddress :=
  if length =? 0 then None else Some (mkRing base length 0).

Definition get (r : RingBufferAddress) : option Z := checked_add_u 64 (base r) (position r).

Definition advance (offset : Z) (r : RingBufferAddress) : RingBufferAddress :=
  let distance := Z.abs offset mod length_ r in
  let position' :=
    if 0 <=? offset then
      let remaining := length_ r - position r in
      if remaining <=? distance then distance - remaining else position r + distance
    else if position r <? distance then length_ r - (distance - position r)
    else position r - distance in
  mkRing (base r) (length_ r) position'.
End RingBufferAddress.

(** ** adpcm.rs *)

Definition FILTERS : list (Z * Z) := [(0, 0); (60, 0); (115, -52); (98, -55); (122, -60)].

Record AdpcmHistory := mkHistory { previous : Z; previous2 : Z }.
Definition default_history : AdpcmHistory := mkHistory 0 0.

Record AdpcmFlags := mkFlags { end_ : bool; repeat_ : bool; loop_start : bool }.
Record DecodedBlock := mkBlock { samples : list Z; flags : AdpcmFlags }.

Inductive AdpcmError := InvalidShift (shift : Z).

Definition effective_shift (header : Z) : Z :=
  let encoded := header .& 0x0f in if 12 <? encoded then 9 else encoded.

Definition filter_of (header : Z) : Z * Z :=
  default (0, 0) (FILTERS !! Z.to_nat (Z.shiftr header 4)).

Definition signed_nibble (nibble : Z) : Z := if has_bits nibble 8 then nibble - 16 else nibble.

(** [block[2 + index / 2]], low nibble first. *)
Definition nibble_at (block : list Z) (index : Z) : option Z :=
  packed ← block !! Z.to_nat (2 + index / 2);
  Some (if index .& 1 =? 0 then packed .& 0x0f else Z.shiftr packed 4).

(** One output sample. *)
Definition decode_sample (shift positive negative nibble : Z) (h : AdpcmHistory)
    : outcome AdpcmError (Z * AdpcmHistory) :=
  let source := Z.shiftr (Z.shiftl (signed_nibble nibble) 12) shift in
  let? l := expect (checked_s 32 (previous h * positive)) in
  let? r := expect (checked_s 32 (previous2 h * negative)) in
  let? predicted := expect (checked_s 32 (l + r)) in
  let? rounded := expect (checked_s 32 (predicted + 32)) in
  let sample := clamp_i16 (saturating_s 32 (source + Z.shiftr rounded 6)) in
  Ok (sample, mkHistory sample (previous h)).

Fixpoint decode_loop (block : list Z) (shift positive negative index : Z) (n : nat)
    (out : list Z) (h : AdpcmHistory) : outcome AdpcmError (list Z) * AdpcmHistory :=
  match n with
  | O => (Ok out, h)
  | S n =>
      match (let? nibble := expect (nibble_at block index) in
             decode_sample shift positive negative nibble h) with
      | Ok (sample, h) =>
          decode_loop block shift positive negative (index + 1) n (out ++ [sample]) h
      | Err e => (Err e, h)
      | Panic => (Panic, h)
      end
  end.

Definition decode_flags (b : Z) : AdpcmFlags :=
  mkFlags (has_bits b 1) (has_bits b 2) (has_bits b 4).

Definition decode_block (block : list Z) (h : AdpcmHistory)
    : outcome AdpcmError DecodedBlock * AdpcmHistory :=
  match block with
  | header :: flag_byte :: _ =>
      let (positive, negative) := filter_of header in
      let! (out, h) :=
        decode_loop block (effective_shift header) positive negative 0 28 [] h in
      (Ok (mkBlock out (decode_flags flag_byte)), h)
  | _ => (Panic, h)
  end.

(** ** adsr.rs *)

Record EnvelopeRate := mkRate { shift : Z; step : Z }.

Module EnvelopeRate.
Definition new (shift step : Z) : EnvelopeRate :=
  mkRate (if 31 <? shift then 31 else shift) step.

Definition interval (level : Z) (exponential_increase : bool) (r : EnvelopeRate)
    : outcome Empty_set Z :=
  let? interval :=
    if 11 <? shift r
    then (if 64 <=? shift r - 11 then Panic else Ok (Z.shiftl 1 (shift r - 11)))
    else Ok 1 in
  Ok (if exponential_increase && (0x6000 <? level)
      then saturating_u 64 (interval * 4) else interval).

Definition delta (level : Z) (exponential_decrease : bool) (r : EnvelopeRate)
    : outcome Empty_set Z :=
  let delta :=
    if shift r <? 11 then saturating_s 32 (step r * Z.shiftl 1 (11 - shift r)) else step r in
  if exponential_decrease then
    let? product := expect (checked_s 32 (delta * level)) in
    let delta := Z.shiftr product 15 in
    Ok (if (delta =? 0) && negb (level =? 0) && (step r <? 0) then -1 else delta)
  else Ok delta.
End EnvelopeRate.

Inductive EnvelopePhase := Off | Attack | Decay | Sustain | Release.

#[global] Instance EnvelopePhase_eq : EqDecision EnvelopePhase.
Proof. solve_decision. Defined.

Record EnvelopeConfig := mkConfig {
  attack : EnvelopeRate;
  attack_exponential : bool;
  decay : EnvelopeRate;
  sustain_level : Z;
  sustain : EnvelopeRate;
  sustain_decrease : bool;
  sustain_exponential : bool;
  release : EnvelopeRate;
  release_exponential : bool;
}.

(** [low.to_le_bytes()[0]] and [[1]] *)
Definition low_byte (v : Z) : Z := v .& 0xff.
Definition high_byte (v : Z) : Z := Z.shiftr v 8 .& 0xff.

Module EnvelopeConfig.
Definition from_registers (low high : Z) : EnvelopeConfig :=
  let attack_step := 7 - (high_byte low .& 3) in
  let sustain_decrease := has_bits high (2 ^ 14) in
  let sustain_index := Z.shiftr (low_byte high) 6 .& 3 in
  let sustain_step := if sustain_decrease then -8 + sustain_index else 7 - sustain_index in
  let sustain_level :=
    Z.min (saturating_u 16 (((low .& 0x0f) + 1) * 0x0800)) 0x7fff in
  mkConfig
    (EnvelopeRate.new (Z.shiftr (high_byte low) 2 .& 0x1f) attack_step)
    (has_bits low (2 ^ 15))
    (EnvelopeRate.new (Z.shiftr (low_byte low) 4 .& 0x0f) (-8))
    sustain_level
    (EnvelopeRate.new (high_byte high .& 0x1f) sustain_step)
    sustain_decrease
    (has_bits high (2 ^ 15))
    (EnvelopeRate.new (low_byte high .& 0x1f) (-8))
    (has_bits high (2 ^ 5)).
End EnvelopeConfig.

Record Envelope := mkEnvelope { level : Z; env_phase : EnvelopePhase; clocks_until_step : Z }.

Module Envelope.
Definition new : Envelope := mkEnvelope 0 Off 0.
Definition key_on (e : Envelope) : Envelope := mkEnvelope 0 Attack 0.
Definition key_off (e : Envelope) : Envelope :=
  if bool_decide (env_phase e = Off) then e else mkEnvelope (level e) Release 0.

Definition set_clocks (n : Z) (e : Envelope) : Envelope := mkEnvelope (level e) (env_phase e) n.

Definition current_interval (config : EnvelopeConfig) (e : Envelope) : outcome Empty_set Z :=
  match env_phase e with
  | Attack => EnvelopeRate.interval (level e) (attack_exponential config) (attack config)
  | Decay => EnvelopeRate.interval (level e) false (decay config)
  | Sustain =>
      EnvelopeRate.interval (level e)
        (sustain_exponential config && negb (sustain_decrease config)) (sustain config)
  | Release => EnvelopeRate.interval (level e) false (release config)
  | Off => Ok 1
  end.

Definition next_phase (config : EnvelopeConfig) (level : Z) (p : EnvelopePhase)
    : EnvelopePhase :=
  match p with
  | Attack => if level =? 0x7fff then Decay else Attack
  | Decay => if level <=? sustain_level config then Sustain else Decay
  | Release => if level =? 0 then Off else Release
  | p => p
  end.

Definition apply_step (config : EnvelopeConfig) (e : Envelope) : outcome Empty_set Envelope :=
  let? delta :=
    match env_phase e with
    | Attack => EnvelopeRate.delta (level e) false (attack config)
    | Decay => EnvelopeRate.delta (level e) true (decay config)
    | Sustain =>
        EnvelopeRate.delta (level e)
          (sustain_exponential config && sustain_decrease config) (sustain config)
    | Release => EnvelopeRate.delta (level e) (release_exponential config) (release config)
    | Off => Ok 0
    end in
  let next := Z.max 0 (Z.min 0x7fff (saturating_s 32 (level e + delta))) in
  Ok (mkEnvelope next (next_phase config next (env_phase e)) (clocks_until_step e)).

(** The loop of [advance]: every round uses up at least one clock. *)
Fixpoint advance_loop (fuel : nat) (config : EnvelopeConfig) (clocks : Z) (e : Envelope)
    : outcome Empty_set Envelope :=
  if (clocks =? 0) || bool_decide (env_phase e = Off) then Ok e
  else
    match fuel with
    | O => Panic
    | S fuel =>
        let? until :=
          if clocks_until_step e =? 0 then current_interval config e
          else Ok (clocks_until_step e) in
        let elapsed := Z.min clocks until in
        let e := set_clocks (until - elapsed) e in
        let? e := if until - elapsed =? 0 then apply_step config e else Ok e in
        advance_loop fuel config (clocks - elapsed) e
    end.

Definition advance (config : EnvelopeConfig) (clocks : Z) (e : Envelope)
    : outcome Empty_set Envelope := advance_loop (Z.to_nat clocks) config clocks e.
End Envelope.
