(* ===== verification/SpuCommonFacts.v ===== *)
(** * What the shared SPU arithmetic promises

    Samples stay in sixteen bits and no intermediate overflows; the noise
    generator has maximal period; pitch steps and ring addresses lose nothing; the
    ADSR envelope counted in runs equals the envelope counted clock by clock. *)

From S2P Require Import Prelude MachineInt SpuCommon.

(** ** Samples *)

Notation i16 := (in_s 16).

Lemma i16_bounds x : i16 x <-> -32768 <= x <= 32767.
Proof. unfold in_s. change (2 ^ (16 - 1)) with 32768. lia. Qed.

Lemma clamp_i16_range x : i16 (clamp_i16 x).
Proof.
  apply i16_bounds. unfold clamp_i16, I16_MIN, I16_MAX.
  destruct (_ && _) eqn:E; zbool; [lia|]. destruct (x <? 0); lia.
Qed.

Lemma clamp_i16_id x : i16 x -> clamp_i16 x = x.
Proof.
  intros Hx%i16_bounds. unfold clamp_i16, I16_MIN, I16_MAX.
  by rewrite (proj2 (Z.leb_le _ _)), (proj2 (Z.leb_le _ _)) by lia.
Qed.

Lemma clamp_i16_nearest x y : i16 y -> Z.abs (x - clamp_i16 x) <= Z.abs (x - y).
Proof.
  intros Hy%i16_bounds. unfold clamp_i16, I16_MIN, I16_MAX.
  destruct (_ && _) eqn:E; zbool; [lia|].
  apply andb_false_iff in E. rewrite !Z.leb_gt in E.
  destruct (Z.ltb_spec x 0); lia.
Qed.

Lemma shiftr_bounds x n a b :
  0 <= n -> a * 2 ^ n <= x < b * 2 ^ n -> a <= Z.shiftr x n < b.
Proof.
  intros Hn Hx. rewrite Z.shiftr_div_pow2 by done. pose proof (pow2_pos n Hn).
  split; [apply Z.div_le_lower_bound; lia|apply Z.div_lt_upper_bound; lia].
Qed.

Lemma checked_s_in w x : in_s w x -> checked_s w x = Some x.
Proof. intros. by apply checked_s_Some. Qed.

Lemma in_s32 x : -2147483648 <= x <= 2147483647 -> in_s 32 x.
Proof. unfold in_s. change (2 ^ (32 - 1)) with 2147483648. lia. Qed.

Lemma saturating_s_in w x : in_s w x -> saturating_s w x = x.
Proof. unfold in_s, saturating_s. lia. Qed.

(** ** Noise *)

Module Noise.
Import NoiseGenerator.

(** The inverse of [next]. *)
Definition prev (t : Z) : Z :=
  wrap 16 (Z.shiftl t 1) .|
  ((Z.shiftr t 15 .^ Z.shiftr t 1 .^ Z.shiftr t 2 .^ Z.shiftr t 4) .& 1).

Lemma testbit_land_1 x i : 0 <= i -> Z.testbit (x .& 1) i = (i =? 0) && Z.testbit x 0.
Proof.
  intros Hi. rewrite Z.land_spec. destruct (Z.eqb_spec i 0) as [->|Hne].
  - by rewrite andb_true_r.
  - change 1 with (Z.ones 1). rewrite Z.ones_spec_high by lia. apply andb_false_r.
Qed.

Lemma testbit_wrap_16 x i : 0 <= i -> Z.testbit (wrap 16 x) i = (i <? 16) && Z.testbit x i.
Proof.
  intros Hi. unfold wrap. destruct (Z.ltb_spec i 16).
  - by rewrite Z.mod_pow2_bits_low.
  - by rewrite Z.mod_pow2_bits_high by lia.
Qed.

Lemma testbit_next s i :
  in_u 16 s -> 0 <= i ->
  Z.testbit (next s) i =
  if i =? 15 then xorb (xorb (xorb (Z.testbit s 0) (Z.testbit s 2)) (Z.testbit s 3)) (Z.testbit s 5)
  else Z.testbit s (i + 1).
Proof.
  intros Hs Hi. unfold next, feedback, shl.
  rewrite Z.lor_spec, testbit_wrap_16, Z.shiftl_spec, Z.shiftr_spec by lia.
  destruct (Z.eqb_spec i 15) as [->|Hne].
  - rewrite (testbit_high 16 s) by (done || lia). rewrite testbit_land_1 by lia.
    by rewrite !Z.lxor_spec, !Z.shiftr_spec by lia.
  - assert ((i <? 16) && Z.testbit ((s .^ s ≫ 2 .^ s ≫ 3 .^ s ≫ 5) .& 1) (i - 15) = false) as ->;
      [|apply orb_false_r].
    destruct (decide (i < 15)); [by rewrite Z.testbit_neg_r, andb_false_r by lia|].
    by rewrite (proj2 (Z.ltb_ge _ _)) by lia.
Qed.

Lemma next_u16 s : in_u 16 s -> in_u 16 (next s).
Proof.
  intros Hs. unfold next. apply in_u_lor; [lia|by apply in_u_shiftr|by apply in_u_shl].
Qed.

Lemma prev_next s : in_u 16 s -> prev (next s) = s.
Proof.
  intros Hs. apply Z.bits_inj'. intros i Hi. unfold prev.
  rewrite Z.lor_spec, testbit_wrap_16, Z.shiftl_spec, testbit_land_1 by lia.
  destruct (Z.eqb_spec i 0) as [->|Hne].
  - rewrite Z.testbit_neg_r, !Z.lxor_spec, !Z.shiftr_spec, !testbit_next by (done || lia).
    rewrite !Z.add_0_l. cbn [Z.eqb Pos.eqb].
    change (1 + 1) with 2. change (2 + 1) with 3. change (4 + 1) with 5.
    by destruct (Z.testbit s 0), (Z.testbit s 2), (Z.testbit s 3), (Z.testbit s 5).
  - rewrite orb_false_r. destruct (Z.ltb_spec i 16); cbn [andb].
    + rewrite testbit_next by (done || lia).
      rewrite (proj2 (Z.eqb_neq _ _)) by lia. f_equal. lia.
    + by rewrite (testbit_high 16 s) by done.
Qed.

Lemma next_inj s t : in_u 16 s -> in_u 16 t -> next s = next t -> s = t.
Proof.
  intros Hs%prev_next Ht%prev_next E. rewrite <- Hs, <- Ht. by rewrite E.
Qed.

Lemma iterate_next_u16 n s : in_u 16 s -> in_u 16 (iterate n next s).
Proof. apply iterate_invariant. apply next_u16. Qed.

Lemma iterate_inj n s t :
  in_u 16 s -> in_u 16 t -> iterate n next s = iterate n next t -> s = t.
Proof.
  revert s t. induction n as [|n IH]; intros s t Hs Ht; [done|]. cbn [iterate].
  intros E%IH; [by apply next_inj|by apply next_u16..].
Qed.

(** The steps until [s] is 1 again, counted from 1. *)
Fixpoint return_time (fuel : nat) (s : Z) : nat :=
  match fuel with
  | O => 0
  | S fuel => if next s =? 1 then 1 else S (return_time fuel (next s))
  end.

Definition PERIOD : nat := Z.to_nat 65535.

Lemma return_time_spec fuel s n :
  return_time fuel s = n -> (0 < n <= fuel)%nat \/ fuel = 0%nat.
Proof.
  revert s n. induction fuel as [|fuel IH]; intros s n; cbn; [auto|]. intros <-.
  destruct (next s =? 1); [lia|]. destruct (IH (next s) _ eq_refl) as [| ->]; cbn; lia.
Qed.

Lemma return_time_first fuel s k :
  (0 < k < return_time fuel s)%nat -> iterate k next s <> 1.
Proof.
  revert s k. induction fuel as [|fuel IH]; intros s k; cbn [return_time]; [lia|].
  destruct (Z.eqb_spec (next s) 1) as [E|E]; [lia|]. intros Hk.
  destruct k as [|k]; [lia|]. cbn [iterate].
  destruct k as [|k]; [done|]. apply IH. lia.
Qed.

Lemma return_time_return fuel s :
  (return_time fuel s < fuel)%nat -> iterate (return_time fuel s) next s = 1.
Proof.
  revert s. induction fuel as [|fuel IH]; intros s; cbn [return_time]; [lia|].
  destruct (Z.eqb_spec (next s) 1) as [E|E]; [done|]. intros Hk. cbn [iterate].
  apply IH. lia.
Qed.

Lemma period_one : return_time (S PERIOD) 1 = PERIOD.
Proof. apply Nat.eqb_eq. vm_compute. reflexivity. Qed.

#[local] Opaque PERIOD.

(** Every nonzero state lies on the orbit of 1. *)
Lemma orbit_covers s : 0 < s < 2 ^ 16 -> exists j, s = iterate j next 1.
Proof.
  intros Hs. set (orbit := (fun j => iterate j next 1) <$> seq 0 PERIOD).
  assert (in_u 16 1) as H1 by (unfold in_u; lia).
  assert (forall k, (0 < k < PERIOD)%nat -> iterate k next 1 <> 1) as Hfirst.
  { intros k Hk. apply (return_time_first (S PERIOD)). by rewrite period_one. }
  assert (NoDup orbit) as Hnd.
  { apply NoDup_fmap_2_strong; [|apply NoDup_seq]. intros i j Hi%elem_of_seq Hj%elem_of_seq E.
    destruct (decide (i < j)%nat) as [Hlt|].
    - exfalso. apply (Hfirst (j - i)%nat); [lia|].
      replace j with ((j - i) + i)%nat in E by lia. rewrite iterate_add in E.
      symmetry. eapply (iterate_inj i); [done|by apply iterate_next_u16|done].
    - destruct (decide (j < i)%nat) as [Hlt|]; [|lia].
      exfalso. apply (Hfirst (i - j)%nat); [lia|].
      replace i with ((i - j) + j)%nat in E by lia. rewrite iterate_add in E.
      eapply (iterate_inj j); [by apply iterate_next_u16|done|done]. }
  assert (orbit ⊆ seqZ 1 65535) as Hsub.
  { intros x (j & -> & _)%list_elem_of_fmap. apply elem_of_seqZ.
    pose proof (iterate_next_u16 j 1 H1) as [Hlo Hhi].
    assert (iterate j next 1 <> 0) as H0; [|change (2 ^ 16) with 65536 in Hhi; lia].
    intros E. assert (iterate j next 0 = 0) as E0.
    { clear. induction j as [|j IH]; [done|]. by cbn [iterate]. }
    assert (1 = 0); [|lia]. apply (iterate_inj j); [done|unfold in_u; lia|congruence]. }
  assert (seqZ 1 65535 ≡ₚ orbit) as Hp.
  { symmetry. apply submseteq_length_Permutation.
    - by apply NoDup_submseteq.
    - unfold orbit. by rewrite length_fmap, length_seq, length_seqZ. }
  assert (s ∈ orbit) as (j & -> & _)%list_elem_of_fmap; [|by exists j].
  rewrite <- Hp. apply elem_of_seqZ. change (2 ^ 16) with 65536 in Hs. lia.
Qed.

Lemma period_return : iterate PERIOD next 1 = 1.
Proof.
  rewrite <- period_one. apply return_time_return. rewrite period_one. lia.
Qed.

(** The noise generator never reaches the stuck zero state and has maximal
    period: from every nonzero seed it returns to its state after exactly 65535
    steps and not before, so it visits every nonzero halfword. *)
Theorem noise_maximal_period s :
  0 < s < 2 ^ 16 ->
  iterate PERIOD next s = s /\ forall k, (0 < k < PERIOD)%nat -> iterate k next s <> s.
Proof.
  intros (j & ->)%orbit_covers. assert (in_u 16 1) as H1 by (unfold in_u; lia).
  assert (forall n, iterate n next (iterate j next 1) = iterate j next (iterate n next 1)) as Hc.
  { intros n. rewrite <- !iterate_add. f_equal. lia. }
  split; [by rewrite Hc, period_return|]. intros k Hk E. rewrite Hc in E.
  apply iterate_inj in E; [|by apply iterate_next_u16|done]. revert E.
  apply (return_time_first (S PERIOD)). by rewrite period_one.
Qed.

Lemma noise_maximal_period_witness : iterate PERIOD next 0xace1 = 0xace1.
Proof.
  assert (0 < 0xace1 < 2 ^ 16) as H by lia. exact (proj1 (noise_maximal_period 0xace1 H)).
Defined.
End Noise.

(** ** Pitch and ring addresses *)

Lemma land_fff x : 0 <= x -> x .& 0xfff = x mod 4096.
Proof. intros. change 0xfff with (Z.ones 12). by rewrite Z.land_ones. Qed.

(** A pitch step splits the accumulated phase without loss. *)
Lemma pitch_advance p c :
  0 <= p -> 0 <= phase c < 4096 ->
  let (s, c') := PitchCounter.advance p c in
  4096 * whole_samples s + phase c' = phase c + Z.min p 0x3fff /\
  0 <= phase c' < 4096 /\ step_phase s = phase c' /\ 0 <= whole_samples s <= 4.
Proof.
  intros Hp Hc. unfold PitchCounter.advance. set (total := phase c + Z.min p 0x3fff).
  assert (0 <= total < 20480) as Ht by lia. rewrite land_fff by lia.
  pose proof (Z.mod_pos_bound total 4096 eq_refl).
  rewrite try_from_u_in by (change (2 ^ 16) with 65536; lia).
  cbn [whole_samples phase step_phase from_option id]. rewrite Z.shiftr_div_pow2 by lia.
  change (2 ^ 12) with 4096. pose proof (Z.div_mod total 4096 ltac:(lia)).
  assert (0 <= total / 4096) by (apply Z.div_pos; lia).
  assert (total / 4096 < 5) by (apply Z.div_lt_upper_bound; lia).
  split; [lia|]. split; [lia|]. split; [done|]. lia.
Qed.

Definition ring_ok (r : RingBufferAddress) : Prop :=
  0 <= position r < length_ r /\ length_ r < 2 ^ 64.

Lemma mod_unique_near a n q r : 0 <= r < n -> a = n * q + r -> a mod n = r.
Proof. intros Hr ->. symmetry. apply (Z.mod_unique _ _ q); [by left|done]. Qed.

(** The two-sided conditional steps are arithmetic modulo the ring. *)
Lemma ring_advance r offset :
  ring_ok r -> ring_ok (RingBufferAddress.advance offset r) /\
  position (RingBufferAddress.advance offset r) = (position r + offset) mod length_ r.
Proof.
  intros [Hp Hl]. unfold ring_ok, RingBufferAddress.advance. cbn [position length_].
  pose proof (Z.mod_pos_bound (Z.abs offset) (length_ r) ltac:(lia)) as Hd.
  pose proof (Z.div_mod (Z.abs offset) (length_ r) ltac:(lia)) as Hm.
  set (d := Z.abs offset mod length_ r) in *. set (q := Z.abs offset / length_ r) in *.
  destruct (Z.leb_spec 0 offset).
  - destruct (Z.leb_spec (length_ r - position r) d); (split; [lia|]); symmetry.
    + apply (mod_unique_near _ _ (q + 1)); lia.
    + apply (mod_unique_near _ _ q); lia.
  - destruct (Z.ltb_spec (position r) d); (split; [lia|]); symmetry.
    + apply (mod_unique_near _ _ (- q - 1)); lia.
    + apply (mod_unique_near _ _ (- q)); lia.
Qed.

(** ** ADPCM *)

Module Adpcm.

Definition history_ok (h : AdpcmHistory) : Prop := i16 (previous h) /\ i16 (previous2 h).

(** The source term of one nibble and the rounded prediction from two samples. *)
Definition source_term (shift nibble : Z) : Z :=
  Z.shiftr (Z.shiftl (signed_nibble nibble) 12) shift.
Definition prediction (f : Z * Z) (s1 s2 : Z) : Z := Z.shiftr (s1 * f.1 + s2 * f.2 + 32) 6.

(** [out] continues the samples [s2], [s1] by the predictor recurrence. *)
Fixpoint follows (f : Z * Z) (shift : Z) (s2 s1 : Z) (nibbles out : list Z) : Prop :=
  match nibbles, out with
  | [], [] => True
  | n :: nibbles, s :: out =>
      s = clamp_i16 (source_term shift n + prediction f s1 s2) /\
      follows f shift s1 s nibbles out
  | _, _ => False
  end.

Definition filter_ok (f : Z * Z) : Prop := 0 <= f.1 <= 122 /\ -60 <= f.2 <= 0.

Lemma filter_of_ok header : filter_ok (filter_of header).
Proof.
  unfold filter_of, FILTERS, filter_ok. destruct (Z.to_nat _) as [|[|[|[|[|n]]]]]; vm_compute; split; split; discriminate.
Qed.

Lemma signed_nibble_range n : 0 <= n < 16 -> -16 <= signed_nibble n <= 15.
Proof. intros. unfold signed_nibble. destruct (has_bits n 8); lia. Qed.

Lemma source_range shift n :
  0 <= shift -> 0 <= n < 16 -> -65536 <= source_term shift n <= 65535.
Proof.
  intros Hs Hn%signed_nibble_range. unfold source_term.
  rewrite Z.shiftl_mul_pow2, Z.shiftr_div_pow2 by lia. change (2 ^ 12) with 4096.
  pose proof (pow2_pos shift Hs).
  split.
  - apply Z.div_le_lower_bound; [done|]. nia.
  - assert (signed_nibble n * 4096 / 2 ^ shift < 65536); [|lia].
    apply Z.div_lt_upper_bound; [done|]. nia.
Qed.

Lemma prediction_range f s1 s2 :
  filter_ok f -> i16 s1 -> i16 s2 ->
  -6000000 <= s1 * f.1 + s2 * f.2 <= 6000000 /\ -100000 <= prediction f s1 s2 <= 100000.
Proof.
  intros [Hp Hq] H1%i16_bounds H2%i16_bounds.
  assert (-6000000 <= s1 * f.1 + s2 * f.2 <= 6000000) as Hb by nia.
  split; [done|]. unfold prediction.
  pose proof (shiftr_bounds (s1 * f.1 + s2 * f.2 + 32) 6 (-100000) 100000 ltac:(lia) ltac:(lia)).
  lia.
Qed.

Lemma decode_sample_ok shift f nibble h :
  filter_ok f -> history_ok h -> 0 <= shift -> 0 <= nibble < 16 ->
  let s := clamp_i16 (source_term shift nibble + prediction f (previous h) (previous2 h)) in
  decode_sample shift f.1 f.2 nibble h = Ok (s, mkHistory s (previous h)).
Proof.
  intros Hf [H1 H2] Hs Hn s. unfold decode_sample.
  destruct (prediction_range f (previous h) (previous2 h) Hf H1 H2) as [Hb Hp].
  pose proof (source_range shift nibble Hs Hn) as Hsrc.
  apply i16_bounds in H1, H2. destruct Hf.
  repeat (rewrite (checked_s_in 32) by (apply in_s32; nia); cbn [expect obind]).
  unfold source_term, prediction in *. rewrite saturating_s_in by (apply in_s32; lia). done.
Qed.

(** The nibbles of a block in playback order. *)
Definition nibbles (block : list Z) (index : Z) (n : nat) : list Z :=
  (fun i => default 0 (nibble_at block i)) <$> seqZ index (Z.of_nat n).

Lemma nibble_at_range block i :
  length block = 16%nat -> Forall (in_u 8) block -> 0 <= i < 28 ->
  exists n, nibble_at block i = Some n /\ 0 <= n < 16.
Proof.
  intros Hl Hb Hi. unfold nibble_at.
  assert (0 <= i / 2 < 14) by (split; [apply Z.div_pos; lia|apply Z.div_lt_upper_bound; lia]).
  destruct (lookup_lt_is_Some_2 block (Z.to_nat (2 + i / 2)) ltac:(lia)) as [b Eb].
  rewrite Eb. cbn. rewrite Forall_forall in Hb.
  assert (in_u 8 b) as Hu by (apply Hb; by eapply list_elem_of_lookup_2).
  eexists. split; [done|]. destruct (i .& 1 =? 0).
  - change 0x0f with (Z.ones 4). rewrite Z.land_ones by lia. by apply Z.mod_pos_bound.
  - apply (in_u_shiftr_narrow 8 b 4); [lia|done].
Qed.

Lemma decode_loop_follows block shift f n : forall index out h,
  length block = 16%nat -> Forall (in_u 8) block -> filter_ok f -> 0 <= shift ->
  history_ok h -> 0 <= index -> index + Z.of_nat n <= 28 ->
  exists new h', decode_loop block shift f.1 f.2 index n out h = (Ok (out ++ new), h') /\
    follows f shift (previous2 h) (previous h) (nibbles block index n) new /\
    Forall i16 new /\ length new = n /\ history_ok h' /\
    (forall a b l, [previous2 h; previous h] ++ new = l ++ [a; b] -> h' = mkHistory b a).
Proof.
  induction n as [|n IH]; intros index out h Hl Hb Hf Hs Hh Hi Hn.
  { exists [], h. cbn. rewrite app_nil_r. split_and!; try done.
    intros a b l E. destruct l as [|x [|y l]]; [injection E as <- <-; by destruct h| |].
    - discriminate.
    - by destruct l. }
  destruct (nibble_at_range block index Hl Hb ltac:(lia)) as (nib & En & Hnib).
  cbn [decode_loop]. rewrite En. cbn [expect obind].
  rewrite (decode_sample_ok shift f nib h Hf Hh Hs Hnib). cbn zeta.
  set (s := clamp_i16 _). assert (i16 s) as Hsr by apply clamp_i16_range.
  destruct (IH (index + 1) (out ++ [s]) (mkHistory s (previous h)))
    as (new & h' & E & Hfol & Hall & Hlen & Hh' & Hlast); try done; try lia.
  { split; [done|apply Hh]. }
  exists (s :: new), h'. rewrite E, <- app_assoc. cbn [app].
  split_and!; try done; [|by constructor|cbn; lia|].
  - unfold nibbles. rewrite seqZ_cons by lia. cbn [fmap list_fmap follows]. rewrite En.
    replace (Z.succ index) with (index + 1) by lia.
    replace (Z.pred (Z.of_nat (S n))) with (Z.of_nat n) by lia. by split.
  - intros a b l El. destruct l as [|x l].
    + cbn in El. injection El as _ _ El. destruct new; discriminate.
    + injection El as _ El. by apply (Hlast a b l).
Qed.

Lemma default_history_ok : history_ok default_history.
Proof. by split; apply i16_bounds. Qed.

Definition block_ok (b : DecodedBlock) : Prop :=
  length (samples b) = 28%nat /\ Forall i16 (samples b).

Lemma effective_shift_nonneg header : 0 <= effective_shift header.
Proof.
  unfold effective_shift. destruct (Z.ltb_spec 12 (header .& 0x0f)); [lia|].
  apply Z.land_nonneg. lia.
Qed.

Lemma decode_block_total block h :
  length block = 16%nat -> Forall (in_u 8) block -> history_ok h ->
  yields (fun b h' => block_ok b /\ history_ok h') (decode_block block h).
Proof.
  intros Hl Hb Hh. destruct block as [|header [|flag_byte data]]; [done..|].
  unfold decode_block.
  destruct (decode_loop_follows (header :: flag_byte :: data) (effective_shift header)
    (filter_of header) 28 0 [] h) as (out & h' & E & _ & Hall & Hlen & Hh' & _);
    try done; [apply filter_of_ok|apply effective_shift_nonneg|].
  destruct (filter_of header) as [pos neg]. cbn [fst snd] in E. rewrite E.
  by apply yields_ok.
Qed.

(** Decoding a sixteen-byte ADPCM block cannot overflow and never fails: it
    yields 28 signed sixteen-bit samples, each the saturated sum of its shifted
    nibble and the rounded two-tap prediction from the two samples before it
    (reserved filters predict nothing, reserved shifts count as nine), the three
    flags of the second byte, and a history holding the last two samples. *)
Theorem decode_block_follows header flag_byte data h :
  length data = 14%nat -> Forall (in_u 8) (header :: flag_byte :: data) -> history_ok h ->
  exists out h', decode_block (header :: flag_byte :: data) h
      = (Ok (mkBlock out (decode_flags flag_byte)), h') /\
    length out = 28%nat /\ Forall i16 out /\
    follows (filter_of header) (effective_shift header) (previous2 h) (previous h)
      (nibbles (header :: flag_byte :: data) 0 28) out /\
    history_ok h' /\
    (forall a b l, out = l ++ [a; b] -> h' = mkHistory b a).
Proof.
  intros Hl Hb Hh. unfold decode_block.
  pose proof (effective_shift_nonneg header) as Hs.
  destruct (decode_loop_follows (header :: flag_byte :: data)
    (effective_shift header) (filter_of header) 28 0 [] h)
    as (out & h' & E & Hf & Hall & Hlen & Hh' & Hlast); try done.
  { cbn [length]. lia. } { apply filter_of_ok. }
  destruct (filter_of header) as [pos neg]. cbn [fst snd] in E. rewrite E.
  exists out, h'. split; [done|]. split_and!; try done.
  intros a b l ->. by apply (Hlast a b ([previous2 h; previous h] ++ l)).
Qed.

Lemma decode_block_follows_witness :
  exists out h', decode_block (0x1c :: 3 :: repeat 0x71 14) default_history
    = (Ok (mkBlock out (decode_flags 3)), h') /\ length out = 28%nat.
Proof.
  assert (Forall (in_u 8) (0x1c :: 3 :: repeat 0x71 14)) as Hb.
  { repeat (apply List.Forall_cons; [unfold in_u; lia|]). apply List.Forall_nil. }
  destruct (decode_block_follows 0x1c 3 (repeat 0x71 14) default_history eq_refl Hb
    default_history_ok) as (out & h' & E & Hl & _).
  exists out, h'. exact (conj E Hl).
Defined.
End Adpcm.

(** ** ADSR *)

Module Adsr.

Definition rate_ok (r : EnvelopeRate) : Prop := 0 <= shift r <= 31 /\ -8 <= step r <= 7.

Record config_ok (c : EnvelopeConfig) : Prop := {
  attack_ok : rate_ok (attack c);
  decay_ok : rate_ok (decay c);
  sustain_ok : rate_ok (sustain c);
  release_ok : rate_ok (release c);
}.

Definition env_ok (e : Envelope) : Prop :=
  0 <= level e <= 0x7fff /\ 0 <= clocks_until_step e <= 2 ^ 22.

Lemma rate_new_ok s st : 0 <= s -> -8 <= st <= 7 -> rate_ok (EnvelopeRate.new s st).
Proof.
  intros. unfold EnvelopeRate.new, rate_ok. cbn [shift step]. destruct (Z.ltb_spec 31 s); lia.
Qed.

Lemma land_field_range x k : 0 <= k -> 0 <= x .& Z.ones k < 2 ^ k.
Proof. intros. rewrite Z.land_ones by done. by apply Z.mod_pos_bound, pow2_pos. Qed.

(** Any pair of registers decodes to bounded rates. *)
Lemma from_registers_ok low high : config_ok (EnvelopeConfig.from_registers low high).
Proof.
  assert (forall x, 0 <= x .& 3 < 4) as H3 by (intros; apply (land_field_range x 2); lia).
  assert (forall x, 0 <= x .& 0x1f) as H5 by (intros; apply (land_field_range x 5); lia).
  assert (forall x, 0 <= x .& 0x0f) as H4 by (intros; apply (land_field_range x 4); lia).
  unfold EnvelopeConfig.from_registers.
  split; cbn [attack decay sustain release]; apply rate_new_ok; auto; try lia.
  - specialize (H3 (high_byte low)). lia.
  - specialize (H3 (Z.shiftr (low_byte high) 6)). destruct (has_bits high (2 ^ 14)); lia.
Qed.

(** The two rate functions without their impossible panics. *)
Definition interval_of (l : Z) (exp : bool) (r : EnvelopeRate) : Z :=
  let i := if 11 <? shift r then 2 ^ (shift r - 11) else 1 in
  if exp && (0x6000 <? l) then 4 * i else i.

Lemma pow2_le n m : 0 <= n <= m -> 1 <= 2 ^ n <= 2 ^ m.
Proof.
  intros. pose proof (pow2_pos n ltac:(lia)). split; [lia|]. apply Z.pow_le_mono_r; lia.
Qed.

Lemma interval_ok l exp r :
  rate_ok r -> EnvelopeRate.interval l exp r = Ok (interval_of l exp r) /\
  1 <= interval_of l exp r <= 2 ^ 22.
Proof.
  intros [Hs _]. unfold EnvelopeRate.interval, interval_of.
  change (2 ^ 22) with (4 * 2 ^ 20).
  destruct (Z.ltb_spec 11 (shift r)).
  - rewrite (proj2 (Z.leb_gt _ _)) by lia. cbn [obind].
    pose proof (pow2_le (shift r - 11) 20 ltac:(lia)) as Hp.
    change (2 ^ 20) with 1048576 in *.
    rewrite Z.shiftl_mul_pow2, Z.mul_1_l by lia.
    destruct (exp && _); [|split; [done|lia]].
    split; [|lia]. f_equal. unfold saturating_u. change (2 ^ 64) with 18446744073709551616. lia.
  - cbn [obind]. change (2 ^ 20) with 1048576. by destruct (exp && _).
Qed.

Lemma scaled_step_range r :
  rate_ok r ->
  let d := if shift r <? 11 then saturating_s 32 (step r * Z.shiftl 1 (11 - shift r)) else step r in
  -16384 <= d <= 14336 /\ (step r < 0 -> d < 0).
Proof.
  intros [Hs Ht]. cbn zeta. destruct (Z.ltb_spec (shift r) 11); [|lia].
  pose proof (pow2_le (11 - shift r) 11 ltac:(lia)) as Hp. change (2 ^ 11) with 2048 in Hp.
  rewrite Z.shiftl_mul_pow2, Z.mul_1_l by lia.
  rewrite saturating_s_in by (apply in_s32; nia). nia.
Qed.

Lemma delta_ok l exp r :
  rate_ok r -> 0 <= l <= 0x7fff ->
  exists d, EnvelopeRate.delta l exp r = Ok d /\ -16384 <= d <= 14336 /\
    (step r < 0 -> d <= 0 /\ (0 < l -> d < 0)).
Proof.
  intros Hr Hl. destruct (scaled_step_range r Hr) as [Hd Hneg]. unfold EnvelopeRate.delta.
  cbn zeta. set (d := if _ <? _ then _ else _) in *.
  destruct exp; [|exists d; split; [done|split; [lia|intros Hst; specialize (Hneg Hst); lia]]].
  rewrite checked_s_in by (apply in_s32; nia). cbn [expect obind].
  pose proof (shiftr_bounds (d * l) 15 (-16384) 14336 ltac:(lia)) as Hb.
  change (2 ^ 15) with 32768 in Hb.
  destruct ((Z.shiftr (d * l) 15 =? 0) && _ && _) eqn:E.
  - zbool. eexists. split; [done|]. lia.
  - eexists. split; [done|]. split; [specialize (Hb ltac:(nia)); lia|]. intros Hst.
    specialize (Hneg Hst). pose proof (shiftr_bounds (d * l) 15 (-16384) 0 ltac:(lia)) as Hb0.
    pose proof (shiftr_bounds (d * l) 15 (-16384) 1 ltac:(lia)) as Hb1.
    change (2 ^ 15) with 32768 in *. split; [|intros Hl0]; nia.
Qed.

Section Clocked.
Context (config : EnvelopeConfig) (Hc : config_ok config).

(** The rounds of [advance], one clock at a time. *)
Definition until_of (e : Envelope) : Z :=
  if clocks_until_step e =? 0
  then match Envelope.current_interval config e with Ok n => n | _ => 0 end
  else clocks_until_step e.

Definition applied (e : Envelope) : Envelope :=
  match Envelope.apply_step config e with Ok e' => e' | _ => e end.

Definition clock (e : Envelope) : Envelope :=
  if bool_decide (env_phase e = Off) then e
  else
    let e' := Envelope.set_clocks (until_of e - 1) e in
    if until_of e - 1 =? 0 then applied e' else e'.

Lemma current_interval_ok e :
  exists n, Envelope.current_interval config e = Ok n /\ 1 <= n <= 2 ^ 22.
Proof using Hc.
  destruct Hc. unfold Envelope.current_interval. change (2 ^ 22) with 4194304.
  destruct (env_phase e); [by exists 1| | | |]; eexists; by apply interval_ok.
Qed.

Lemma until_ok e :
  env_ok e -> 1 <= until_of e <= 2 ^ 22 /\
  (if clocks_until_step e =? 0 then Envelope.current_interval config e
   else Ok (clocks_until_step e)) = Ok (until_of e).
Proof using Hc.
  intros [_ He]. unfold until_of. destruct (Z.eqb_spec (clocks_until_step e) 0); [|split; [lia|done]].
  destruct (current_interval_ok e) as (n & -> & Hn). done.
Qed.

Lemma apply_ok e :
  env_ok e -> Envelope.apply_step config e = Ok (applied e) /\ env_ok (applied e) /\
  clocks_until_step (applied e) = clocks_until_step e /\
  (env_phase e = Release -> step (release config) < 0 ->
   env_phase (applied e) = (if level (applied e) =? 0 then Off else Release) /\
   (level (applied e) = 0 \/ level (applied e) < level e)).
Proof using Hc.
  intros [Hl He]. unfold applied, Envelope.apply_step.
  assert (exists d, match env_phase e with
    | Attack => EnvelopeRate.delta (level e) false (attack config)
    | Decay => EnvelopeRate.delta (level e) true (decay config)
    | Sustain => EnvelopeRate.delta (level e)
        (sustain_exponential config && sustain_decrease config) (sustain config)
    | Release => EnvelopeRate.delta (level e) (release_exponential config) (release config)
    | Off => Ok 0
    end = Ok d /\ -16384 <= d <= 14336 /\
    (env_phase e = Release -> step (release config) < 0 -> d <= 0 /\ (0 < level e -> d < 0)))
    as (d & -> & Hd & Hr).
  { destruct Hc as [Ha Hdc Hs Hre].
    destruct (env_phase e).
    1: by exists 0.
    all: edestruct delta_ok as (d & -> & Hd & Hneg); [..|exists d; split; [done|split; [done|]]]; done. }
  cbn [obind]. rewrite saturating_s_in by (apply in_s32; lia).
  split; [done|]. cbn [level env_phase clocks_until_step]. split; [|split].
  { unfold env_ok. cbn [level clocks_until_step]. lia. } { done. }
  intros Ep Hst. rewrite Ep. cbn [Envelope.next_phase]. split; [done|].
  specialize (Hr Ep Hst). lia.
Qed.

Lemma set_clocks_ok n e : 0 <= n <= 2 ^ 22 -> env_ok e -> env_ok (Envelope.set_clocks n e).
Proof. by intros Hn [Hl _]. Qed.

Lemma clock_ok e : env_ok e -> env_ok (clock e).
Proof using Hc.
  intros He. unfold clock. case_bool_decide; [done|]. destruct (until_ok e He) as [Hu _].
  assert (env_ok (Envelope.set_clocks (until_of e - 1) e)) as Hs by (apply set_clocks_ok; [lia|done]).
  destruct (_ =? 0); [by apply apply_ok|done].
Qed.

Lemma iterate_clock_ok n e : env_ok e -> env_ok (iterate n clock e).
Proof using Hc. apply iterate_invariant, clock_ok. Qed.

Lemma iterate_clock_off n e : env_phase e = Off -> iterate n clock e = e.
Proof.
  intros Ho. induction n as [|n IH]; [done|]. cbn [iterate].
  assert (clock e = e) as ->; [|done]. unfold clock. by rewrite bool_decide_true.
Qed.

(** A run of clocks within one interval only counts down. *)
Lemma iterate_clock_run e k :
  env_ok e -> env_phase e <> Off -> (1 <= k)%nat -> Z.of_nat k <= until_of e ->
  iterate k clock e =
    let e' := Envelope.set_clocks (until_of e - Z.of_nat k) e in
    if until_of e - Z.of_nat k =? 0 then applied e' else e'.
Proof using Hc.
  intros He Ho. revert e He Ho. induction k as [|k IH]; intros e He Ho; [lia|]. intros _ Hk.
  cbn [iterate].
  assert (clock e = let e' := Envelope.set_clocks (until_of e - 1) e in
    if until_of e - 1 =? 0 then applied e' else e') as ->.
  { unfold clock. by rewrite bool_decide_false. }
  destruct k as [|k]; [done|]. cbn zeta.
  rewrite (proj2 (Z.eqb_neq (until_of e - 1) 0)) by lia.
  destruct (until_ok e He) as [Hu _].
  set (e1 := Envelope.set_clocks (until_of e - 1) e).
  assert (until_of e1 = until_of e - 1) as Eu.
  { unfold until_of at 1, e1. cbn [clocks_until_step Envelope.set_clocks].
    by rewrite (proj2 (Z.eqb_neq (until_of e - 1) 0)) by lia. }
  rewrite IH; [|apply set_clocks_ok; [lia|done]|done|lia|lia]. cbn zeta. rewrite Eu.
  replace (until_of e - 1 - Z.of_nat (S k)) with (until_of e - Z.of_nat (S (S k))) by lia.
  done.
Qed.

Lemma iterate_clock_until e :
  env_ok e -> env_phase e <> Off ->
  iterate (Z.to_nat (until_of e)) clock e = applied (Envelope.set_clocks 0 e).
Proof using Hc.
  intros He Ho. destruct (until_ok e He) as [Hu _]. rewrite iterate_clock_run by (done || lia).
  cbn zeta. replace (until_of e - Z.of_nat (Z.to_nat (until_of e))) with 0 by lia. done.
Qed.

(** [advance] is the iteration of the single clock. *)
Lemma advance_loop_clock fuel : forall n e,
  env_ok e -> 0 <= n <= Z.of_nat fuel ->
  Envelope.advance_loop fuel config n e = Ok (iterate (Z.to_nat n) clock e).
Proof using Hc.
  induction fuel as [|fuel IH]; intros n e He Hn; cbn [Envelope.advance_loop].
  { by replace n with 0 by lia. }
  destruct (Z.eqb_spec n 0) as [->|Hn0]; [done|]. cbn [orb].
  case_bool_decide as Ho; [by rewrite iterate_clock_off|].
  destruct (until_ok e He) as [Hu ->]. cbn [obind]. set (k := Z.min n (until_of e)).
  assert (iterate (Z.to_nat n) clock e = iterate (Z.to_nat (n - k)) clock (iterate (Z.to_nat k) clock e))
    as ->.
  { rewrite <- iterate_add. f_equal. lia. }
  rewrite (iterate_clock_run e (Z.to_nat k)) by (done || lia). cbn zeta.
  rewrite !Z2Nat.id by lia.
  assert (env_ok (Envelope.set_clocks (until_of e - k) e)) as Hs by (apply set_clocks_ok; [lia|done]).
  destruct (until_of e - k =? 0).
  - destruct (apply_ok _ Hs) as (-> & Ha & _). cbn [obind]. apply IH; [done|lia].
  - cbn [obind]. apply IH; [done|lia].
Qed.

Lemma advance_clock n e :
  env_ok e -> 0 <= n -> Envelope.advance config n e = Ok (iterate (Z.to_nat n) clock e).
Proof using Hc. intros. apply advance_loop_clock; [done|lia]. Qed.

(** In release every interval lowers the level. *)
Lemma release_reaches_off (Hst : step (release config) < 0) fuel : forall e,
  env_ok e -> env_phase e = Release -> level e < Z.of_nat fuel ->
  exists k, (k <= fuel * Z.to_nat (2 ^ 22))%nat /\
    env_phase (iterate k clock e) = Off /\ level (iterate k clock e) = 0.
Proof using Hc.
  induction fuel as [|fuel IH]; intros e He Hr Hl; [destruct He; lia|].
  destruct (until_ok e He) as [Hu _].
  assert (env_ok (Envelope.set_clocks 0 e)) as Hs by (apply set_clocks_ok; [lia|done]).
  destruct (apply_ok _ Hs) as (_ & Ha & _ & Hp). destruct (Hp Hr Hst) as [Hph Hlt].
  pose proof (iterate_clock_until e He ltac:(congruence)) as Eu.
  set (e1 := applied (Envelope.set_clocks 0 e)) in *. cbn [level Envelope.set_clocks] in Hlt.
  destruct (Z.eqb_spec (level e1) 0) as [E0|E0].
  - exists (Z.to_nat (until_of e)). rewrite Eu. split; [lia|done].
  - destruct (IH e1 Ha Hph) as (k & Hk & Hoff & Hl0).
    { destruct He, Ha. lia. }
    exists (Z.to_nat (until_of e) + k)%nat. rewrite iterate_add, Eu. split; [lia|done].
Qed.
End Clocked.

(** For any decoded register pair the envelope never overflows, its level stays
    in fifteen bits, and how the elapsed clocks are divided does not matter: an
    advance by [a] clocks and then by [b] reaches the state of one advance by
    [a + b]. *)
Theorem adsr_partition low high e a b :
  env_ok e -> 0 <= a -> 0 <= b ->
  let config := EnvelopeConfig.from_registers low high in
  exists e1 e2, Envelope.advance config a e = Ok e1 /\ env_ok e1 /\
    Envelope.advance config b e1 = Ok e2 /\ env_ok e2 /\
    Envelope.advance config (a + b) e = Ok e2.
Proof.
  intros He Ha Hb config. pose proof (from_registers_ok low high) as Hc.
  exists (iterate (Z.to_nat a) (clock config) e),
    (iterate (Z.to_nat b) (clock config) (iterate (Z.to_nat a) (clock config) e)).
  assert (env_ok (iterate (Z.to_nat a) (clock config) e)) as H1 by by apply iterate_clock_ok.
  split_and!; try done; try (by apply advance_clock; (done || lia)).
  - by apply iterate_clock_ok.
  - rewrite advance_clock by (done || lia). rewrite <- iterate_add. do 2 f_equal. lia.
Qed.

Lemma new_ok : env_ok Envelope.new.
Proof. unfold env_ok. cbn [level clocks_until_step Envelope.new]. lia. Qed.

Lemma key_on_ok e : env_ok (Envelope.key_on e).
Proof. unfold env_ok. cbn [level clocks_until_step Envelope.key_on]. lia. Qed.

Lemma key_off_ok e : env_ok e -> env_ok (Envelope.key_off e).
Proof. intros He. unfold Envelope.key_off. case_bool_decide; [done|]. by destruct He. Qed.

Lemma adsr_partition_witness :
  exists e1 e2, Envelope.advance (EnvelopeConfig.from_registers 0x8f7a 0xc523) 100
      (Envelope.key_on Envelope.new) = Ok e1 /\
    Envelope.advance (EnvelopeConfig.from_registers 0x8f7a 0xc523) 50 e1 = Ok e2.
Proof.
  destruct (adsr_partition 0x8f7a 0xc523 (Envelope.key_on Envelope.new) 100 50
    (key_on_ok _) ltac:(lia) ltac:(lia)) as (e1 & e2 & E1 & _ & E2 & _).
  exists e1, e2. exact (conj E1 E2).
Defined.

(** C39: After key-off a sounding voice falls silent: with any decoded register
    pair, from any phase and level, the envelope is off at level zero once
    32768 of the longest intervals have passed, and stays off. *)
Theorem key_off_reaches_silence low high e n :
  env_ok e -> env_phase e <> Off -> 2 ^ 37 <= n ->
  exists e', Envelope.advance (EnvelopeConfig.from_registers low high) n (Envelope.key_off e) = Ok e' /\
    env_phase e' = Off /\ level e' = 0.
Proof.
  intros He Ho Hn. pose proof (from_registers_ok low high) as Hc.
  set (config := EnvelopeConfig.from_registers low high) in *.
  assert (env_phase (Envelope.key_off e) = Release) as Hr.
  { unfold Envelope.key_off. by rewrite bool_decide_false. }
  pose proof (key_off_ok e He) as Hk. set (e0 := Envelope.key_off e) in *.
  destruct (release_reaches_off config Hc ltac:(done) (Z.to_nat 32768) e0 Hk Hr) as (k & Hkn & Hoff & Hl).
  { destruct Hk. lia. }
  assert (Z.of_nat k <= n).
  { change (2 ^ 37) with (32768 * 2 ^ 22) in Hn. rewrite <- Z2Nat.inj_mul in Hkn by lia. lia. }
  exists (iterate (Z.to_nat n) (clock config) e0). rewrite advance_clock by (done || lia).
  split; [done|]. replace (Z.to_nat n) with (k + (Z.to_nat n - k))%nat by lia.
  rewrite iterate_add, iterate_clock_off by done. done.
Qed.

Lemma key_off_reaches_silence_witness :
  exists e', Envelope.advance (EnvelopeConfig.from_registers 0x8f7a 0xc523) (2 ^ 37)
      (Envelope.key_off (mkEnvelope 0x7fff Sustain 12)) = Ok e' /\ env_phase e' = Off.
Proof.
  assert (env_ok (mkEnvelope 0x7fff Sustain 12)) as He.
  { unfold env_ok. cbn [level clocks_until_step]. lia. }
  destruct (key_off_reaches_silence 0x8f7a 0xc523 _ (2 ^ 37) He ltac:(discriminate) ltac:(lia))
    as (e' & E & Hoff & _). exists e'. exact (conj E Hoff).
Defined.
End Adsr.

From S2P Require Import Buffer.

(** ** Sound RAM

    Bounds of the byte accesses both sound units make: a buffer of a fixed size whose
    cells are bytes, and the frame of a routine that writes inside an area only. *)

Lemma multiply_q15_range a b : i16 a -> i16 b -> -32768 <= multiply_q15 a b <= 32768.
Proof.
  rewrite !i16_bounds. intros Ha Hb. unfold multiply_q15.
  pose proof (shiftr_bounds (a * b) 15 (-32768) 32769 ltac:(lia)) as H.
  change (2 ^ 15) with 32768 in H. specialize (H ltac:(nia)). lia.
Qed.

Lemma mod_even_even a n : n mod 2 = 0 -> 0 < n -> a mod 2 = 0 -> (a mod n) mod 2 = 0.
Proof.
  intros Hn Hpos Ha. pose proof (Z.div_mod a n ltac:(lia)).
  apply Z.mod_divide; [lia|]. apply Z.mod_divide in Hn; [|lia]. apply Z.mod_divide in Ha; [|lia].
  replace (a mod n) with (a - n * (a / n)) by lia. apply Z.divide_sub_r; [done|].
  by apply Z.divide_mul_l.
Qed.

(** [x & !mask] for a mask of low bits. *)
Lemma clear_low_bits w n x : 0 <= n <= w -> in_u w x -> x .& bnot w (Z.ones n) = x - x mod 2 ^ n.
Proof.
  intros Hn Hx. assert (x .& bnot w (Z.ones n) = Z.shiftl (Z.shiftr x n) n) as ->.
  { apply Z.bits_inj'. intros i Hi. unfold bnot. rewrite Z.land_spec, Z.lxor_spec.
    rewrite Z.shiftl_spec, !Z.testbit_ones_nonneg by lia.
    destruct (Z.lt_ge_cases i n) as [Hlt|Hge].
    - rewrite (Z.testbit_neg_r (Z.shiftr x n) (i - n)) by lia.
      rewrite (proj2 (Z.ltb_lt i n) Hlt), (proj2 (Z.ltb_lt i w)) by lia. by rewrite andb_false_r.
    - rewrite Z.shiftr_spec by lia. replace (i - n + n) with i by lia.
      rewrite (proj2 (Z.ltb_ge i n) Hge). cbn [xorb].
      destruct (Z.ltb_spec i w); [by rewrite andb_true_r|].
      by rewrite (testbit_high w x i) by (done || lia). }
  rewrite Z.shiftl_mul_pow2, Z.shiftr_div_pow2 by lia.
  pose proof (pow2_pos n ltac:(lia)). pose proof (Z.div_mod x (2 ^ n) ltac:(lia)). lia.
Qed.

(** Two bytes are a halfword. *)
Lemma from_le_2_u16 a b : in_u 8 a -> in_u 8 b -> in_u 16 (from_le [a; b]).
Proof.
  unfold in_u. change (2 ^ 8) with 256. change (2 ^ 16) with 65536. rewrite from_le_2.
  change (2 ^ 8) with 256. lia.
Qed.

Lemma half_bytes v : in_u 16 v -> in_u 8 (v mod 256) /\ in_u 8 (v / 256).
Proof.
  unfold in_u. change (2 ^ 16) with 65536. change (2 ^ 8) with 256. intros Hv.
  pose proof (Z.mod_pos_bound v 256 ltac:(lia)). split; [done|].
  split; [apply Z.div_pos; lia|apply Z.div_lt_upper_bound; lia].
Qed.

(** An interpolated sample of four taps and four weights. *)
Lemma interpolate_ok (weights : Z -> list Z)
    (weights_ok : forall p, length (weights p) = 4%nat /\ Forall i16 (weights p)) w p :
  length w = 4%nat -> Forall i16 w ->
  succeeds i16 (GaussianInterpolator.interpolate weights w p).
Proof.
  intros Hl Hw. destruct (weights_ok p) as [Hl' Hw']. unfold GaussianInterpolator.interpolate.
  destruct w as [|s0 [|s1 [|s2 [|s3 [|]]]]]; try done.
  destruct (weights p) as [|w0 [|w1 [|w2 [|w3 [|]]]]]; try done.
  rewrite !Forall_cons in Hw, Hw'. destruct Hw as (A0 & A1 & A2 & A3 & _).
  destruct Hw' as (B0 & B1 & B2 & B3 & _).
  pose proof (multiply_q15_range s0 w0 A0 B0). pose proof (multiply_q15_range s1 w1 A1 B1).
  pose proof (multiply_q15_range s2 w2 A2 B2). pose proof (multiply_q15_range s3 w3 A3 B3).
  unfold multiply_q15 in *. cbn [zip zip_with].
  repeat (rewrite (checked_s_in 32) by (apply in_s32; lia); cbn [expect obind]).
  apply succeeds_ok, clamp_i16_range.
Qed.

(** A ring of even length at an even position stays even under even steps, and the byte
    after it is inside the ring too. *)
Lemma ring_step_even b n offset :
  0 < n < 2 ^ 64 -> n mod 2 = 0 -> offset mod 2 = 0 -> 0 <= b -> b + n < 2 ^ 64 ->
  exists a, RingBufferAddress.get (RingBufferAddress.advance offset (mkRing b n 0)) = Some a /\
    b <= a /\ a + 1 < b + n /\ (a - b) mod 2 = 0 /\ a = b + offset mod n.
Proof.
  intros Hn He Ho Hb Hs.
  destruct (ring_advance (mkRing b n 0) offset) as [[Hp _] Epos]; [by split; cbn; lia|].
  change (length_ _) with n in *. change (position (mkRing b n 0)) with 0 in Epos.
  rewrite Z.add_0_l in Epos. unfold RingBufferAddress.get.
  change (base _) with b. rewrite Epos in *. exists (b + offset mod n).
  pose proof (mod_even_even offset n He ltac:(lia) Ho).
  pose proof (Z.div_mod (offset mod n) 2 ltac:(lia)). pose proof (Z.div_mod n 2 ltac:(lia)).
  split; [apply checked_add_u_Some; split; [done|lia]|]. split_and!; try lia.
  by replace (b + offset mod n - b) with (offset mod n) by lia.
Qed.

(** [ram'] differs from [ram] only in [lo, hi). *)
Definition same_outside (lo hi : Z) (ram ram' : Buffer) : Prop :=
  forall i, ~ (lo <= i < hi) -> Buffer.cell ram' i = Buffer.cell ram i.

#[export] Instance same_outside_preorder lo hi : PreOrder (same_outside lo hi).
Proof. split; [done|]. intros r1 r2 r3 H1 H2 i Hi. by rewrite H2, H1. Qed.

Section sized.
Context (size : Z).

Definition sized (ram : Buffer) : Prop := buf_len ram = size /\ Buffer.bytes_ok ram.

Lemma sized_get {E} ram i :
  sized ram -> 0 <= i < size -> succeeds (in_u 8) (expect (Buffer.get ram i) : outcome E Z).
Proof.
  intros [Hl Hb] Hi. eapply succeeds_expect; [apply Buffer.get_in; lia|]. by apply Buffer.cell_u8.
Qed.

Lemma sized_set {E} ram i v lo hi :
  sized ram -> lo <= i < hi -> 0 <= lo -> hi <= size -> in_u 8 v ->
  succeeds (fun ram' => sized ram' /\ same_outside lo hi ram ram')
    (expect (Buffer.set ram i v) : outcome E Buffer).
Proof.
  intros [Hl Hb] Hi Hlo Hhi Hv. eapply succeeds_expect; [apply Buffer.set_in; lia|].
  split; [split; [done|by apply map_Forall_insert_2]|]. intros j Hj.
  rewrite Buffer.cell_insert. by rewrite decide_False by lia.
Qed.

(** A halfword stored as two bytes at [i] and [j]. *)
Lemma sized_set_half {E} ram i j v lo hi :
  sized ram -> lo <= i < hi -> lo <= j < hi -> 0 <= lo -> hi <= size -> in_u 16 v ->
  succeeds (fun ram' => sized ram' /\ same_outside lo hi ram ram')
    (obind (expect (Buffer.set ram i (v mod 256)))
       (fun ram => expect (Buffer.set ram j (v / 256))) : outcome E Buffer).
Proof.
  intros Hr Hi Hj Hlo Hhi Hv. destruct (half_bytes v Hv) as [Hv0 Hv1].
  eapply succeeds_bind; [by eapply (sized_set _ _ _ lo hi)|]. intros r1 [Hr1 Hs1].
  eapply succeeds_mono; [by eapply (sized_set _ _ _ lo hi)|]. intros r2 [Hr2 Hs2].
  split; [done|by etransitivity].
Qed.

Lemma sized_get_half {E} ram i j :
  sized ram -> 0 <= i < size -> 0 <= j < size ->
  succeeds (in_u 16) (obind (expect (Buffer.get ram i)) (fun low =>
    obind (expect (Buffer.get ram j)) (fun high => Ok (from_le [low; high]))) : outcome E Z).
Proof.
  intros Hr Hi Hj. eapply succeeds_bind; [by apply sized_get|]. intros low Hlow.
  eapply succeeds_bind; [by apply sized_get|]. intros high Hhigh.
  by apply succeeds_ok, from_le_2_u16.
Qed.
End sized.
