(* ===== verification/Ps1Ports.v ===== *)
(** * PS1 ports without media: crates/hw/ps1/{cdrom,gpu,mdec}/src/lib.rs

    The CD-ROM controller's banked byte registers, the GPU control plane and the
    MDEC command port, each with its whole register interface.  The order of the
    mutations before an error return is the code's. *)

From S2P Require Import Prelude Records MachineInt Scheduler Ps1Dma.

(** ** CD-ROM *)

Definition CDROM_BASE : Z := 0x1f801800.
Definition CDROM_END : Z := CDROM_BASE + 3.
Definition FIFO_CAPACITY : Z := 16.
Definition REG1 : Z := CDROM_BASE + 1.
Definition REG2 : Z := CDROM_BASE + 2.
Definition REG3 : Z := CDROM_BASE + 3.

Inductive CdRomError := CdRomInvalidRegister (address : Z).

Record CdRom := mkCdRom {
  cd_index : Z;
  parameters : list Z;
  parameter_count : Z;
  response : list Z;
  response_read : Z;
  response_count : Z;
  interrupt_enable : Z;
  interrupt_flags : Z;
  request : Z;
  audio_volume : list Z;
  applied_audio_volume : list Z;
}.

Module CdRom.
Definition new : CdRom :=
  mkCdRom 0 (replicate 16 0) 0 (replicate 16 0) 0 0 0 0 0 (replicate 4 0) (replicate 4 0).

Definition set_index (v : Z) (c : CdRom) := mkCdRom v (parameters c) (parameter_count c)
  (response c) (response_read c) (response_count c) (interrupt_enable c) (interrupt_flags c)
  (request c) (audio_volume c) (applied_audio_volume c).
Definition set_parameters (p : list Z) (n : Z) (c : CdRom) := mkCdRom (cd_index c) p n
  (response c) (response_read c) (response_count c) (interrupt_enable c) (interrupt_flags c)
  (request c) (audio_volume c) (applied_audio_volume c).
Definition set_response (rd n : Z) (c : CdRom) := mkCdRom (cd_index c) (parameters c)
  (parameter_count c) (response c) rd n (interrupt_enable c) (interrupt_flags c)
  (request c) (audio_volume c) (applied_audio_volume c).
Definition set_interrupts (e f : Z) (c : CdRom) := mkCdRom (cd_index c) (parameters c)
  (parameter_count c) (response c) (response_read c) (response_count c) e f
  (request c) (audio_volume c) (applied_audio_volume c).
Definition set_request (v : Z) (c : CdRom) := mkCdRom (cd_index c) (parameters c)
  (parameter_count c) (response c) (response_read c) (response_count c) (interrupt_enable c)
  (interrupt_flags c) v (audio_volume c) (applied_audio_volume c).
Definition set_volume (v applied : list Z) (c : CdRom) := mkCdRom (cd_index c) (parameters c)
  (parameter_count c) (response c) (response_read c) (response_count c) (interrupt_enable c)
  (interrupt_flags c) (request c) v applied.

Definition interrupt_pending (c : CdRom) : bool :=
  has_bits (interrupt_flags c .& interrupt_enable c) 0x1f.

Definition status (c : CdRom) : Z :=
  let s := cd_index c .| 0x10 in
  let s := if parameter_count c =? 0 then s .| 0x08 else s in
  let s := if parameter_count c =? FIFO_CAPACITY then s .& bnot 8 0x10 else s in
  if negb (response_count c =? 0) then s .| 0x20 else s.

Definition pop_response (c : CdRom) : outcome CdRomError Z * CdRom :=
  if response_count c =? 0 then (Ok 0, c)
  else
    match response c !! Z.to_nat (response_read c) with
    | None => (Panic, c)
    | Some value =>
        (Ok value, set_response ((response_read c + 1) mod FIFO_CAPACITY)
                     (response_count c - 1) c)
    end.

Definition read_register (address : Z) (c : CdRom) : outcome CdRomError Z * CdRom :=
  if address =? CDROM_BASE then (Ok (status c), c)
  else if address =? REG1 then pop_response c
  else if address =? REG2 then (Ok 0, c)
  else if address =? REG3 then
    (Ok (if (cd_index c =? 1) || (cd_index c =? 3) then 0xe0 .| interrupt_flags c
         else 0xe0 .| interrupt_enable c), c)
  else (Err (CdRomInvalidRegister address), c).

Definition accept_command (command : Z) (c : CdRom) : CdRom :=
  set_parameters (parameters c) 0 c.

Definition write_volume (i : nat) (value : Z) (c : CdRom) : CdRom :=
  set_volume (<[i := value]> (audio_volume c)) (applied_audio_volume c) c.

Definition push_parameter (value : Z) (c : CdRom) : outcome CdRomError unit * CdRom :=
  if parameter_count c <? FIFO_CAPACITY then
    match parameters c !! Z.to_nat (parameter_count c) with
    | None => (Panic, c)
    | Some _ =>
        (Ok tt, set_parameters (<[Z.to_nat (parameter_count c) := value]> (parameters c))
                  (parameter_count c + 1) c)
    end
  else (Ok tt, c).

(** [interrupt_flags &= !(value & 0x1f)], then the parameter reset bit. *)
Definition acknowledge (value : Z) (c : CdRom) : CdRom :=
  let c := set_interrupts (interrupt_enable c)
             (interrupt_flags c .& bnot 8 (value .& 0x1f)) c in
  if has_bits value 0x40 then set_parameters (parameters c) 0 c else c.

Definition write_register (address value : Z) (c : CdRom) : outcome CdRomError unit * CdRom :=
  let index := cd_index c in
  if address =? CDROM_BASE then (Ok tt, set_index (value .& 3) c)
  else if address =? REG1 then
    (Ok tt,
     if index =? 0 then accept_command value c
     else if index =? 3 then write_volume 2 value c
     else c)
  else if address =? REG2 then
    if index =? 0 then push_parameter value c
    else if index =? 1 then (Ok tt, set_interrupts (value .& 0x1f) (interrupt_flags c) c)
    else if index =? 2 then (Ok tt, write_volume 0 value c)
    else if index =? 3 then (Ok tt, write_volume 3 value c)
    else (Panic, c)
  else if address =? REG3 then
    if index =? 0 then (Ok tt, set_request value c)
    else if index =? 1 then (Ok tt, acknowledge value c)
    else if index =? 2 then (Ok tt, write_volume 1 value c)
    else if index =? 3 then
      (Ok tt, if has_bits value 0x20 then set_volume (audio_volume c) (audio_volume c) c else c)
    else (Panic, c)
  else (Err (CdRomInvalidRegister address), c).
End CdRom.

(** ** GPU *)

Definition GP0 : Z := 0x1f801810.
Definition GP1 : Z := 0x1f801814.
Definition GPU_RESET_STATUS : Z := 0x14802000.
Definition STATUS_IRQ : Z := 2 ^ 24.
Definition STATUS_DMA_REQUEST : Z := 2 ^ 25.
Definition STATUS_READY_COMMAND : Z := 2 ^ 26.
Definition STATUS_READY_VRAM_READ : Z := 2 ^ 27.
Definition STATUS_READY_DMA : Z := 2 ^ 28.
Definition STATUS_DMA_DIRECTION : Z := Z.shiftl 3 29.
Definition DISPLAY_BITS : Z := 2 ^ 14 .| 2 ^ 16 .| Z.shiftl 3 17 .| Z.shiftl 0xf 19.

Inductive GpuError := GpuInvalidRegister (address : Z).

Record Gpu := mkGpu {
  gpu_status : Z;
  read_latch : Z;
  texture_window : Z;
  draw_area_top_left : Z;
  draw_area_bottom_right : Z;
  draw_offset : Z;
}.

Module Gpu.
Definition new : Gpu := mkGpu GPU_RESET_STATUS 0 0 0 0 0.

Definition set_status (v : Z) (g : Gpu) := mkGpu v (read_latch g) (texture_window g)
  (draw_area_top_left g) (draw_area_bottom_right g) (draw_offset g).
Definition set_read_latch (v : Z) (g : Gpu) := mkGpu (gpu_status g) v (texture_window g)
  (draw_area_top_left g) (draw_area_bottom_right g) (draw_offset g).
Definition set_texture_window (v : Z) (g : Gpu) := mkGpu (gpu_status g) (read_latch g) v
  (draw_area_top_left g) (draw_area_bottom_right g) (draw_offset g).
Definition set_top_left (v : Z) (g : Gpu) := mkGpu (gpu_status g) (read_latch g)
  (texture_window g) v (draw_area_bottom_right g) (draw_offset g).
Definition set_bottom_right (v : Z) (g : Gpu) := mkGpu (gpu_status g) (read_latch g)
  (texture_window g) (draw_area_top_left g) v (draw_offset g).
Definition set_draw_offset (v : Z) (g : Gpu) := mkGpu (gpu_status g) (read_latch g)
  (texture_window g) (draw_area_top_left g) (draw_area_bottom_right g) v.

Definition read_register (address : Z) (g : Gpu) : outcome GpuError Z :=
  if address =? GP0 then Ok (read_latch g)
  else if address =? GP1 then Ok (gpu_status g)
  else Err (GpuInvalidRegister address).

Definition clear (mask : Z) (s : Z) : Z := s .& bnot 32 mask.

Definition set_dma_direction (direction : Z) (g : Gpu) : Gpu :=
  let s := clear (STATUS_DMA_DIRECTION .| STATUS_DMA_REQUEST) (gpu_status g)
           .| shl 32 direction 29 in
  let request :=
    if direction =? 1 then true
    else if direction =? 2 then has_bits s STATUS_READY_DMA
    else if direction =? 3 then has_bits s STATUS_READY_VRAM_READ
    else false in
  set_status (if request then s .| STATUS_DMA_REQUEST else s) g.

Definition set_display_mode (value : Z) (g : Gpu) : Gpu :=
  let s := clear DISPLAY_BITS (gpu_status g) in
  let s := s .| shl 32 (Z.shiftr value 6 .& 1) 16 in
  let s := s .| shl 32 (value .& 3) 17 in
  let s := s .| shl 32 (Z.shiftr value 2 .& 0x0f) 19 in
  let s := s .| shl 32 (Z.shiftr value 7 .& 1) 14 in
  set_status (if value .& 2 ^ 5 =? 0 then s .| 2 ^ 13 else s) g.

Definition info (index : Z) (g : Gpu) : Z :=
  if index =? 2 then texture_window g
  else if index =? 3 then draw_area_top_left g
  else if index =? 4 then draw_area_bottom_right g
  else if index =? 5 then draw_offset g
  else if index =? 7 then 2
  else read_latch g.

Definition write_gp0 (value : Z) (g : Gpu) : Gpu :=
  let command := Z.shiftr value 24 in
  let g :=
    if command =? 0x1f then set_status (gpu_status g .| STATUS_IRQ) g
    else if command =? 0xe1 then
      set_status (clear 0x87ff (gpu_status g) .| (value .& 0x7ff) .| shl 32 (value .& 0x800) 4) g
    else if command =? 0xe2 then set_texture_window (value .& 0xfffff) g
    else if command =? 0xe3 then set_top_left (value .& 0x7ffff) g
    else if command =? 0xe4 then set_bottom_right (value .& 0x7ffff) g
    else if command =? 0xe5 then set_draw_offset (value .& 0x3fffff) g
    else if command =? 0xe6 then
      set_status (clear (Z.shiftl 3 11) (gpu_status g) .| shl 32 (value .& 3) 11) g
    else g in
  set_status (gpu_status g .| (STATUS_READY_COMMAND .| STATUS_READY_DMA)) g.

Definition write_gp1 (value : Z) (g : Gpu) : Gpu :=
  let command := Z.shiftr value 24 in
  if command =? 0x00 then new
  else if command =? 0x01 then
    set_status (clear STATUS_READY_VRAM_READ
                 (gpu_status g .| (STATUS_READY_COMMAND .| STATUS_READY_DMA))) g
  else if command =? 0x02 then set_status (clear STATUS_IRQ (gpu_status g)) g
  else if command =? 0x03 then
    set_status (clear (2 ^ 23) (gpu_status g) .| shl 32 (value .& 1) 23) g
  else if command =? 0x04 then set_dma_direction (value .& 3) g
  else if command =? 0x08 then set_display_mode value g
  else if (0x10 <=? command) && (command <=? 0x1f) then
    set_read_latch (info (value .& 7) g) g
  else g.

Definition write_register (address value : Z) (g : Gpu) : outcome GpuError unit * Gpu :=
  if address =? GP0 then (Ok tt, write_gp0 value g)
  else if address =? GP1 then (Ok tt, write_gp1 value g)
  else (Err (GpuInvalidRegister address), g).

Definition synchronize (g : Gpu) : Z * Gpu :=
  (0, if has_bits (gpu_status g) STATUS_DMA_DIRECTION then set_dma_direction 0 g else g).
End Gpu.

(** ** MDEC *)

Definition MDEC_DATA : Z := 0x1f801820.
Definition MDEC_CONTROL_STATUS : Z := 0x1f801824.
Definition MDEC_BASE : Z := MDEC_DATA.
Definition MDEC_END : Z := MDEC_CONTROL_STATUS + 3.
Definition CONTROL_RESET : Z := 2 ^ 31.
Definition CONTROL_DMA_IN_ENABLE : Z := 2 ^ 30.
Definition CONTROL_DMA_OUT_ENABLE : Z := 2 ^ 29.
Definition STATUS_DATA_OUT_EMPTY : Z := 2 ^ 31.
Definition STATUS_COMMAND_BUSY : Z := 2 ^ 29.
Definition STATUS_DATA_IN_REQUEST : Z := 2 ^ 28.
Definition STATUS_RESET_BLOCK : Z := Z.shiftl 4 16.
Definition MDEC_RESET_STATUS : Z := STATUS_DATA_OUT_EMPTY .| STATUS_RESET_BLOCK .| 0xffff.

Inductive MdecError :=
| MdecInvalidRegister (address : Z)
| MacroblockOutputUnavailable
| MacroblockDecodeUnavailable (command : Z)
| UnsupportedCommand (command : Z).

Record Mdec := mkMdec {
  dma_in_enabled : bool;
  dma_out_enabled : bool;
  parameter_words_remaining : Z;
}.

Module Mdec.
Definition new : Mdec := mkMdec false false 0.

Definition set_words (n : Z) (m : Mdec) : Mdec :=
  mkMdec (dma_in_enabled m) (dma_out_enabled m) n.

Definition status (m : Mdec) : Z :=
  let base :=
    if parameter_words_remaining m =? 0 then MDEC_RESET_STATUS
    else STATUS_DATA_OUT_EMPTY .| STATUS_COMMAND_BUSY .| STATUS_RESET_BLOCK .|
         (parameter_words_remaining m - 1) in
  base .| (if dma_in_enabled m then STATUS_DATA_IN_REQUEST else 0).

Definition read_register (address : Z) (m : Mdec) : outcome MdecError Z :=
  if address =? MDEC_CONTROL_STATUS then Ok (status m)
  else if address =? MDEC_DATA then Err MacroblockOutputUnavailable
  else Err (MdecInvalidRegister address).

Definition write_data (value : Z) (m : Mdec) : outcome MdecError unit * Mdec :=
  if negb (parameter_words_remaining m =? 0)
  then (Ok tt, set_words (parameter_words_remaining m - 1) m)
  else
    let selector := Z.shiftr value 29 in
    if selector =? 1 then (Err (MacroblockDecodeUnavailable value), m)
    else if selector =? 2 then (Ok tt, set_words (if value .& 1 =? 0 then 16 else 32) m)
    else if selector =? 3 then (Ok tt, set_words 32 m)
    else (Err (UnsupportedCommand value), m).

Definition write_register (address value : Z) (m : Mdec) : outcome MdecError unit * Mdec :=
  if address =? MDEC_CONTROL_STATUS then
    let m := if has_bits value CONTROL_RESET then new else m in
    (Ok tt, mkMdec (has_bits value CONTROL_DMA_IN_ENABLE)
              (has_bits value CONTROL_DMA_OUT_ENABLE) (parameter_words_remaining m))
  else if address =? MDEC_DATA then write_data value m
  else (Err (MdecInvalidRegister address), m).
End Mdec.

#[export] Instance display_cdrom_error : Display CdRomError := fun e =>
  match e with
  | CdRomInvalidRegister address =>
      String.append "invalid PS1 CD-ROM register address " (hex8 address)
  end.

#[export] Instance display_gpu_error : Display GpuError := fun e =>
  match e with
  | GpuInvalidRegister address => String.append "invalid PS1 GPU register address " (hex8 address)
  end.

#[export] Instance display_mdec_error : Display MdecError := fun e =>
  match e with
  | MdecInvalidRegister address =>
      String.append "invalid PS1 MDEC register address " (hex8 address)
  | MacroblockOutputUnavailable => "PS1 MDEC macroblock output is unavailable"
  | MacroblockDecodeUnavailable command =>
      String.append "PS1 MDEC macroblock decode command "
        (String.append (hex8 command) " is unavailable")
  | UnsupportedCommand command =>
      String.append "unsupported PS1 MDEC command " (hex8 command)
  end.

#[export] Instance mdec_dma_endpoint : MdecDmaEndpoint Mdec := fun value m =>
  let (r, m) := Mdec.write_register MDEC_DATA value m in
  (map_err (fun e => mkEndpointError (to_string e)) r, m).
