(* ===== verification/Ps1Reverb.v ===== *)
(** * PS1 reverb: crates/hw/ps1/spu/src/reverb.rs

    The wet path: two resampling rings around an effect that reads and writes a
    circular work area of sound RAM every second sample.  The accumulators are
    64-bit sums of at most twenty-one products of sixteen-bit factors and are
    exact.  No operation returns an error; a panic is an index outside an array. *)

From S2P Require Import Prelude Records MachineInt Buffer SpuCommon.

Definition SOUND_RAM_SIZE : Z := 512 * 1024.

Definition D_APF1 : nat := 0.
Definition D_APF2 : nat := 1.
Definition V_IIR : nat := 2.
Definition V_COMB1 : nat := 3.
Definition V_COMB2 : nat := 4.
Definition V_COMB3 : nat := 5.
Definition V_COMB4 : nat := 6.
Definition V_WALL : nat := 7.
Definition V_APF1 : nat := 8.
Definition V_APF2 : nat := 9.
Definition M_LSAME : nat := 10.
Definition M_RSAME : nat := 11.
Definition M_LCOMB1 : nat := 12.
Definition M_RCOMB1 : nat := 13.
Definition M_LCOMB2 : nat := 14.
Definition M_RCOMB2 : nat := 15.
Definition D_LSAME : nat := 16.
Definition D_RSAME : nat := 17.
Definition M_LDIFF : nat := 18.
Definition M_RDIFF : nat := 19.
Definition M_LCOMB3 : nat := 20.
Definition M_RCOMB3 : nat := 21.
Definition M_LCOMB4 : nat := 22.
Definition M_RCOMB4 : nat := 23.
Definition D_LDIFF : nat := 24.
Definition D_RDIFF : nat := 25.
Definition M_LAPF1 : nat := 26.
Definition M_RAPF1 : nat := 27.
Definition M_LAPF2 : nat := 28.
Definition M_RAPF2 : nat := 29.
Definition V_LIN : nat := 30.
Definition V_RIN : nat := 31.

Definition RESAMPLE_RING_MASK : Z := 63.
Definition UPSAMPLE_RING_MASK : Z := 31.

Definition RESAMPLE_COEFFICIENTS : list Z :=
  [-0x0001; 0x0002; -0x000a; 0x0023; -0x0067; 0x010a; -0x0268; 0x0534; -0x0b90; 0x2806;
   0x2806; -0x0b90; 0x0534; -0x0268; 0x010a; -0x0067; 0x0023; -0x000a; 0x0002; -0x0001].

Record Reverb := mkReverb {
  rv_address : Z;
  resample_position : Z;
  downsample_history : list (list Z);
  upsample_history : list (list Z);
}.

#[export] Instance Reverb_fields : Fields Reverb := fun r =>
  mkReverb (rv_address r) (resample_position r) (downsample_history r) (upsample_history r).

Definition signed (value : Z) : Z := to_i 16 value.

Definition clamp_i64_to_i16 (value : Z) : Z :=
  if value <? I16_MIN then I16_MIN else if I16_MAX <? value then I16_MAX else value.

(** [history[channel][index]] and its assignment *)
Definition tap {E} (h : list (list Z)) (channel : nat) (index : Z) : outcome E Z :=
  let? ring := expect (h !! channel) in expect (ring !! Z.to_nat index).

Definition put {E} (h : list (list Z)) (channel : nat) (index v : Z)
    : outcome E (list (list Z)) :=
  let? ring := expect (h !! channel) in
  let? _ := expect (ring !! Z.to_nat index) in
  Ok (<[channel := <[Z.to_nat index := v]> ring]> h).

(** Both channels: [std::array::from_fn] over a two-element array. *)
Definition stereo {E} (f : nat -> outcome E Z) : outcome E (Z * Z) :=
  let? l := f 0%nat in let? r := f 1%nat in Ok (l, r).

(** The sum of [coefficient(tap) * history(index(tap))] from tap [t]. *)
Fixpoint fir {E} (h : list (list Z)) (channel : nat) (index : Z -> Z) (t : Z)
    (coefficients : list Z) (sum : Z) : outcome E Z :=
  match coefficients with
  | [] => Ok sum
  | c :: coefficients =>
      let? s := tap h channel (index t) in
      fir h channel index (t + 1) coefficients (sum + s * c)
  end.

Module Reverb.
Section error.
Context {E : Type}.

Definition new : Reverb :=
  mkReverb 0 0 (replicate 2 (replicate 64 0)) (replicate 2 (replicate 32 0)).

Definition set_base (base_register : Z) (r : Reverb) : Reverb :=
  r <| rv_address := base_register * 8 |>.

(** [a.wrapping_sub(b) & mask], for a mask that divides [2^64] *)
Definition ring_back (a b mask : Z) : Z := wrap 64 (a - b) .& mask.

Definition downsample (r : Reverb) : outcome E (Z * Z) :=
  let start := ring_back (resample_position r) 38 RESAMPLE_RING_MASK in
  stereo (fun channel =>
    let? sum := fir (downsample_history r) channel
                  (fun t => (start + t * 2) .& RESAMPLE_RING_MASK) 0
                  RESAMPLE_COEFFICIENTS 0 in
    let? centre := tap (downsample_history r) channel ((start + 19) .& RESAMPLE_RING_MASK) in
    Ok (clamp_i64_to_i16 (Z.shiftr (sum + centre * 0x4000) 15))).

Definition centre_upsample_phase (r : Reverb) : outcome E (Z * Z) :=
  let index := ring_back (Z.shiftr (resample_position r) 1) 10 UPSAMPLE_RING_MASK in
  stereo (fun channel => tap (upsample_history r) channel index).

Definition fir_upsample_phase (r : Reverb) : outcome E (Z * Z) :=
  let start := ring_back (Z.shiftr (resample_position r) 1) 19 UPSAMPLE_RING_MASK in
  stereo (fun channel =>
    let? sum := fir (upsample_history r) channel
                  (fun t => (start + t) .& UPSAMPLE_RING_MASK) 0 RESAMPLE_COEFFICIENTS 0 in
    Ok (clamp_i64_to_i16 (Z.shiftr sum 14))).

Definition memory_address (r : Reverb) (base_register offset extra : Z) : outcome E Z :=
  let base := base_register * 8 in
  let? length := expect (checked_sub_u SOUND_RAM_SIZE base) in
  let? address := expect (RingBufferAddress.new base length) in
  let current := Z.max 0 (rv_address r - base) in
  expect (RingBufferAddress.get
            (RingBufferAddress.advance (current + offset * 8 + extra) address)).

Definition read (r : Reverb) (ram : Buffer) (base_register offset extra : Z) : outcome E Z :=
  let? address := memory_address r base_register offset extra in
  let? low := expect (Buffer.get ram address) in
  let? high := expect (Buffer.get ram (address + 1)) in
  Ok (signed (from_le [low; high])).

Definition write (r : Reverb) (ram : Buffer) (base_register offset value : Z)
    : outcome E Buffer :=
  let? address := memory_address r base_register offset 0 in
  let? ram := expect (Buffer.set ram address (of_i 16 value mod 256)) in
  expect (Buffer.set ram (address + 1) (of_i 16 value / 256)).

Definition reflection (r : Reverb) (ram : Buffer)
    (base_register input source destination wall_volume iir_volume : Z) : outcome E Z :=
  let? s := read r ram base_register source 0 in
  let wall := multiply_q15 s wall_volume in
  let? old := read r ram base_register destination (-2) in
  let incident := clamp_i16 (saturating_s 32 (input + wall)) in
  let delta := clamp_i16 (incident - old) in
  Ok (clamp_i16 (saturating_s 32 (multiply_q15 delta iir_volume + old))).

Fixpoint comb_sum (r : Reverb) (ram : Buffer) (base_register : Z)
    (terms : list (Z * Z)) (sum : Z) : outcome E Z :=
  match terms with
  | [] => Ok (clamp_i64_to_i16 sum)
  | (source, volume) :: terms =>
      let? s := read r ram base_register source 0 in
      comb_sum r ram base_register terms (sum + multiply_q15 s volume)
  end.

Definition comb (r : Reverb) (ram : Buffer) (base_register : Z) (sources volumes : list Z)
    : outcome E Z := comb_sum r ram base_register (zip sources volumes) 0.

Definition all_pass (r : Reverb) (ram : Buffer)
    (base_register input destination feedback_source volume : Z) (writes_enabled : bool)
    : outcome E (Z * Buffer) :=
  let? feedback := read r ram base_register feedback_source 0 in
  let stored := clamp_i16 (input - multiply_q15 feedback volume) in
  let? ram :=
    if writes_enabled then write r ram base_register destination stored else Ok ram in
  Ok (clamp_i16 (saturating_s 32 (multiply_q15 stored volume + feedback)), ram).

(** The four reflections are computed before any of them is stored. *)
Definition reflections (r : Reverb) (ram : Buffer) (base_register : Z)
    (reg : nat -> outcome E Z) (left right : Z) : outcome E Buffer :=
  let? wall := omapok signed (reg V_WALL) in
  let? iir := omapok signed (reg V_IIR) in
  let reflect input source destination :=
    let? source := reg source in
    let? destination := reg destination in
    reflection r ram base_register input source destination wall iir in
  let? left_same := reflect left D_LSAME M_LSAME in
  let? right_same := reflect right D_RSAME M_RSAME in
  let? left_different := reflect left D_RDIFF M_LDIFF in
  let? right_different := reflect right D_LDIFF M_RDIFF in
  let store ram destination value :=
    let? destination := reg destination in
    write r ram base_register destination value in
  let? ram := store ram M_LSAME left_same in
  let? ram := store ram M_RSAME right_same in
  let? ram := store ram M_LDIFF left_different in
  store ram M_RDIFF right_different.

(** One all-pass stage of a channel: [apf - displacement] feeds back. *)
Definition all_pass_stage (r : Reverb) (ram : Buffer) (base_register : Z)
    (reg : nat -> outcome E Z) (input : Z) (apf displacement volume : nat)
    (writes_enabled : bool) : outcome E (Z * Buffer) :=
  let? destination := reg apf in
  let? displacement := reg displacement in
  let? volume := omapok signed (reg volume) in
  all_pass r ram base_register input destination (wrap 16 (destination - displacement))
    volume writes_enabled.

Definition effect_tick (ram : Buffer) (base_register : Z) (registers : list Z)
    (writes_enabled : bool) (input : Z * Z) (r : Reverb)
    : outcome E ((Z * Z) * Buffer * Reverb) :=
  let reg (i : nat) := expect (registers !! i) in
  let? lin := omapok signed (reg V_LIN) in
  let? rin := omapok signed (reg V_RIN) in
  let left := clamp_i16 (multiply_q15 input.1 lin) in
  let right := clamp_i16 (multiply_q15 input.2 rin) in
  let? ram := if writes_enabled then reflections r ram base_register reg left right
              else Ok ram in
  let? vc1 := omapok signed (reg V_COMB1) in
  let? vc2 := omapok signed (reg V_COMB2) in
  let? vc3 := omapok signed (reg V_COMB3) in
  let? vc4 := omapok signed (reg V_COMB4) in
  let volumes := [vc1; vc2; vc3; vc4] in
  let? l1 := reg M_LCOMB1 in let? l2 := reg M_LCOMB2 in
  let? l3 := reg M_LCOMB3 in let? l4 := reg M_LCOMB4 in
  let? left := comb r ram base_register [l1; l2; l3; l4] volumes in
  let? r1 := reg M_RCOMB1 in let? r2 := reg M_RCOMB2 in
  let? r3 := reg M_RCOMB3 in let? r4 := reg M_RCOMB4 in
  let? right := comb r ram base_register [r1; r2; r3; r4] volumes in
  let? (left, ram) := all_pass_stage r ram base_register reg left M_LAPF1 D_APF1 V_APF1 writes_enabled in
  let? (right, ram) := all_pass_stage r ram base_register reg right M_RAPF1 D_APF1 V_APF1 writes_enabled in
  let? (left, ram) := all_pass_stage r ram base_register reg left M_LAPF2 D_APF2 V_APF2 writes_enabled in
  let? (right, ram) := all_pass_stage r ram base_register reg right M_RAPF2 D_APF2 V_APF2 writes_enabled in
  let next := rv_address r + 2 in
  let next := if SOUND_RAM_SIZE <=? next then base_register * 8 else next in
  Ok ((left, right), ram, r <| rv_address := next |>).

Definition process (ram : Buffer) (base_register : Z) (registers : list Z)
    (writes_enabled : bool) (input : Z * Z) (r : Reverb)
    : outcome E ((Z * Z) * Buffer * Reverb) :=
  let p := resample_position r in
  let? down := put (downsample_history r) 0 p input.1 in
  let? down := put down 1 p input.2 in
  let r := r <| downsample_history := down |> in
  let? (output, ram, r) :=
    if p .& 1 =? 0 then
      let? output := centre_upsample_phase r in Ok (output, ram, r)
    else
      let? downsampled := downsample r in
      let? (effect, ram, r) :=
        effect_tick ram base_register registers writes_enabled downsampled r in
      let? up := put (upsample_history r) 0 (Z.shiftr p 1) effect.1 in
      let? up := put up 1 (Z.shiftr p 1) effect.2 in
      let r := r <| upsample_history := up |> in
      let? output := fir_upsample_phase r in
      Ok (output, ram, r) in
  Ok (output, ram, r <| resample_position := (p + 1) .& RESAMPLE_RING_MASK |>).
End error.
End Reverb.
