(* ===== verification/Ps1Spu.v ===== *)
(** * PS1 sound processing unit: crates/hw/ps1/spu/src/lib.rs

    Twenty-four ADPCM voices, the register file, sound-RAM transfers with address
    interrupts, and the mixer.  The interpolation weights are the table the shared
    SPU code computes with the platform's floating point; they are the parameter
    [weights].  The mixer's 64-bit accumulators add at most twenty-five samples of
    sixteen bits and are exact. *)

From S2P Require Import Prelude Records MachineInt Buffer Ps1Irq.
From S2P Require Import SpuCommon Ps1Dma Ps1Reverb.

Definition VOICE_COUNT : nat := 24.
Definition SAMPLE_RATE : Z := 44100.
Definition SPU_BASE : Z := 0x1f801c00.
Definition SPU_END : Z := 0x1f801dff.
Definition VOICE_STRIDE : Z := 0x10.
Definition VOICE_REGISTER_END : Z := SPU_BASE + 0x180.
Definition MAIN_VOLUME_LEFT : Z := 0x1f801d80.
Definition MAIN_VOLUME_RIGHT : Z := 0x1f801d82.
Definition REVERB_VOLUME_LEFT : Z := 0x1f801d84.
Definition REVERB_VOLUME_RIGHT : Z := 0x1f801d86.
Definition KEY_ON_LOW : Z := 0x1f801d88.
Definition KEY_ON_HIGH : Z := 0x1f801d8a.
Definition KEY_OFF_LOW : Z := 0x1f801d8c.
Definition KEY_OFF_HIGH : Z := 0x1f801d8e.
Definition PITCH_MOD_LOW : Z := 0x1f801d90.
Definition PITCH_MOD_HIGH : Z := 0x1f801d92.
Definition NOISE_LOW : Z := 0x1f801d94.
Definition NOISE_HIGH : Z := 0x1f801d96.
Definition REVERB_ON_LOW : Z := 0x1f801d98.
Definition REVERB_ON_HIGH : Z := 0x1f801d9a.
Definition ENDX_LOW : Z := 0x1f801d9c.
Definition ENDX_HIGH : Z := 0x1f801d9e.
Definition UNKNOWN_DA0 : Z := 0x1f801da0.
Definition REVERB_BASE : Z := 0x1f801da2.
Definition IRQ_ADDRESS : Z := 0x1f801da4.
Definition TRANSFER_ADDRESS : Z := 0x1f801da6.
Definition TRANSFER_FIFO : Z := 0x1f801da8.
Definition CONTROL : Z := 0x1f801daa.
Definition TRANSFER_CONTROL : Z := 0x1f801dac.
Definition STATUS : Z := 0x1f801dae.
Definition CD_VOLUME_LEFT : Z := 0x1f801db0.
Definition CD_VOLUME_RIGHT : Z := 0x1f801db2.
Definition EXTERNAL_VOLUME_LEFT : Z := 0x1f801db4.
Definition EXTERNAL_VOLUME_RIGHT : Z := 0x1f801db6.
Definition CURRENT_MAIN_VOLUME_LEFT : Z := 0x1f801db8.
Definition CURRENT_MAIN_VOLUME_RIGHT : Z := 0x1f801dba.
Definition UNKNOWN_DBC : Z := 0x1f801dbc.
Definition UNKNOWN_DBE : Z := 0x1f801dbe.
Definition REVERB_REGISTERS_START : Z := 0x1f801dc0.
Definition CONTROL_ENABLE : Z := 2 ^ 15.
Definition CONTROL_REVERB_ENABLE : Z := 2 ^ 7.
Definition CONTROL_IRQ_ENABLE : Z := 2 ^ 6.
Definition STATUS_IRQ : Z := 2 ^ 6.
Definition RAM_MASK : Z := SOUND_RAM_SIZE - 1.

Inductive SpuError :=
| InvalidRegister (address : Z)
| RamRange (offset size : Z)
| OutputSize (expected actual : Z)
| Adpcm (voice address : Z) (source : AdpcmError).

Record PreparedBlock := mkPrepared {
  pb_address : Z;
  pb_decoded : DecodedBlock;
  history_before : AdpcmHistory;
}.

Record Voice := mkVoice {
  volume_left : Z;
  volume_right : Z;
  pitch : Z;
  start_address : Z;
  adsr_low : Z;
  adsr_high : Z;
  repeat_address : Z;
  current_address : Z;
  current_block_address : Z;
  envelope : Envelope;
  history : AdpcmHistory;
  pitch_counter : PitchCounter;
  decoded : list Z;
  decoded_flags : AdpcmFlags;
  prepared : option PreparedBlock;
  sample_index : Z;
  decoded_valid : bool;
  active : bool;
}.

#[export] Instance Voice_fields : Fields Voice := fun v =>
  mkVoice (volume_left v) (volume_right v) (pitch v) (start_address v) (adsr_low v)
    (adsr_high v) (repeat_address v) (current_address v) (current_block_address v)
    (envelope v) (history v) (pitch_counter v) (decoded v) (decoded_flags v) (prepared v)
    (sample_index v) (decoded_valid v) (active v).

Definition default_voice : Voice :=
  mkVoice 0 0 0 0 0 0 0 0 0 Envelope.new default_history PitchCounter.new
    (replicate 28 0) (mkFlags false false false) None 0 false false.

Record VoiceOutput := mkOutput { dry : Z; fetched : option Z; loop_end : bool }.
Definition default_output : VoiceOutput := mkOutput 0 None false.

(** [(usize, AdpcmError)], the failure of a block *)
Notation block_error := (Z * AdpcmError)%type.

Fixpoint fetch_block (ram : Buffer) (address : Z) (n : nat) : outcome block_error (list Z) :=
  match n with
  | O => Ok []
  | S n =>
      let? b := expect (Buffer.get ram (address .& RAM_MASK)) in
      let? rest := fetch_block ram (address + 1) n in
      Ok (b :: rest)
  end.

Definition decode_block_at (ram : Buffer) (address : Z) (h : AdpcmHistory)
    : outcome block_error DecodedBlock * AdpcmHistory :=
  match fetch_block ram address 16 with
  | Ok block =>
      let (r, h) := decode_block block h in (map_err (fun e => (address, e)) r, h)
  | Err e => (Err e, h)
  | Panic => (Panic, h)
  end.

Module Voice.
Section weights.
Context (weights : Z -> list Z).

Definition key_on (v : Voice) : Voice :=
  let start := start_address v * 8 in
  v <| current_address := start |>
    <| current_block_address := start |>
    <| envelope := Envelope.key_on (envelope v) |>
    <| history := default_history |>
    <| pitch_counter := PitchCounter.reset (pitch_counter v) |>
    <| prepared := None |>
    <| sample_index := 0 |>
    <| decoded_valid := false |>
    <| active := true |>.

Definition key_off (v : Voice) : Voice := v <| envelope := Envelope.key_off (envelope v) |>.

Definition apply_envelope (sample : Z) (v : Voice) : outcome block_error Z * Voice :=
  let config := EnvelopeConfig.from_registers (adsr_low v) (adsr_high v) in
  match Envelope.advance config 1 (envelope v) with
  | Ok e =>
      let v := v <| envelope := e |> in
      let v := if bool_decide (env_phase e = Off) then v <| active := false |> else v in
      (Ok (clamp_i16 (Z.shiftr (sample * level e) 15)), v)
  | _ => (Panic, v)
  end.

Definition window_sample (v : Voice) (relative : Z) : outcome block_error Z :=
  let index := sample_index v + relative in
  let length := Z.of_nat (length (decoded v)) in
  match decoded v !! Z.to_nat index with
  | Some sample => Ok sample
  | None =>
      match (p ← prepared v; samples (pb_decoded p) !! Z.to_nat (index - length)) with
      | Some sample => Ok sample
      | None => expect (decoded v !! Z.to_nat (length - 1))
      end
  end.

Definition interpolation_window (v : Voice) : outcome block_error (list Z) :=
  let? s0 := window_sample v 0 in
  let? s1 := window_sample v 1 in
  let? s2 := window_sample v 2 in
  let? s3 := window_sample v 3 in
  Ok [s0; s1; s2; s3].

Definition next_block_address (v : Voice) : option Z :=
  if end_ (decoded_flags v) then
    if repeat_ (decoded_flags v) then Some (repeat_address v * 8) else None
  else Some ((current_block_address v + 16) .& RAM_MASK).

Definition install_block (address : Z) (block : DecodedBlock) (v : Voice)
    : outcome block_error unit * Voice :=
  let v := v <| decoded := samples block |>
             <| decoded_flags := flags block |>
             <| current_block_address := address |>
             <| current_address := address |> in
  let! (repeat, v) :=
    if loop_start (flags block)
    then (expect (try_from_u 16 (address / 8)), v)
    else (Ok (repeat_address v), v) in
  (Ok tt, v <| repeat_address := repeat |> <| sample_index := 0 |> <| decoded_valid := true |>).

Definition decode_current (ram : Buffer) (v : Voice) : outcome block_error Z * Voice :=
  let address := current_address v .& RAM_MASK in
  let (r, h) := decode_block_at ram address (history v) in
  let v := v <| history := h |> in
  let! (block, v) := (r, v) in
  let! (_u, v) := install_block address block v in
  (Ok address, v).

Definition prepare_next (ram : Buffer) (v : Voice) : outcome block_error (option Z) * Voice :=
  match prepared v with
  | Some _ => (Ok None, v)
  | None =>
      match next_block_address v with
      | None => (Ok None, v)
      | Some address =>
          let before := history v in
          let (r, h) := decode_block_at ram address (history v) in
          let v := v <| history := h |> in
          let! (block, v) := (r, v) in
          (Ok (Some address), v <| prepared := Some (mkPrepared address block before) |>)
      end
  end.

(** The next block of a voice that goes on. *)
Definition continue_at (next_address : Z) (v : Voice) : outcome block_error unit * Voice :=
  let v := v <| current_address := next_address |> in
  match prepared v with
  | None => (Ok tt, v)
  | Some p =>
      let v := v <| prepared := None |> in
      if pb_address p =? next_address then install_block (pb_address p) (pb_decoded p) v
      else (Ok tt, v <| history := history_before p |>)
  end.

Definition finish_block (v : Voice) : outcome block_error bool * Voice :=
  let f := decoded_flags v in
  let v := v <| decoded_valid := false |> <| sample_index := 0 |> in
  if end_ f && negb (repeat_ f) then
    (Ok true, v <| envelope := Envelope.new |> <| active := false |> <| prepared := None |>)
  else
    let next := if end_ f then repeat_address v * 8
                else (current_block_address v + 16) .& RAM_MASK in
    let! (_u, v) := continue_at next v in
    (Ok false, v).

(** The samples stepped over: the addresses fetched last, whether a loop end was
    passed and whether the voice stopped. *)
Fixpoint step_samples (n : nat) (ram : Buffer) (last : option Z) (ended : bool) (v : Voice)
    : outcome block_error (option Z * bool * bool) * Voice :=
  match n with
  | O => (Ok (last, ended, false), v)
  | S n =>
      let v := v <| sample_index := sample_index v + 1 |> in
      if sample_index v =? Z.of_nat (length (decoded v)) then
        let ended := ended || end_ (decoded_flags v) in
        let! (stopped, v) := finish_block v in
        if stopped : bool then (Ok (last, ended, true), v)
        else if decoded_valid v then step_samples n ram last ended v
        else
          let! (address, v) := decode_current ram v in
          step_samples n ram (Some address) ended v
      else step_samples n ram last ended v
  end.

(** The decoded source of one output sample. *)
Definition render_source (ram : Buffer) (effective_pitch : Z) (v : Voice)
    : outcome block_error (Z * option Z * bool) * Voice :=
  let! (last, v) :=
    if decoded_valid v then (Ok None, v)
    else let! (address, v) := decode_current ram v in (Ok (Some address), v) in
  let! (last, v) :=
    if Z.of_nat (length (decoded v)) <=? sample_index v + 3 then
      let! (next, v) := prepare_next ram v in
      (Ok (match next with Some address => Some address | None => last end), v)
    else (Ok last, v) in
  let phase := Z.shiftr (phase (pitch_counter v)) 4 .& 0xff in
  let! (window, v) := (interpolation_window v, v) in
  match GaussianInterpolator.interpolate weights window phase with
  | Ok sample =>
      let (advance, counter) := PitchCounter.advance effective_pitch (pitch_counter v) in
      let v := v <| pitch_counter := counter |> in
      let! (stepped, v) :=
        step_samples (Z.to_nat (whole_samples advance)) ram last false v in
      (Ok (sample, stepped.1.1, stepped.1.2), v)
  | _ => (Panic, v)
  end.

Definition render (ram : Buffer) (effective_pitch : Z) (noise : option Z) (v : Voice)
    : outcome block_error VoiceOutput * Voice :=
  if negb (active v) then (Ok default_output, v)
  else
    let! (source, v) :=
      match noise with
      | Some noise => (Ok (noise, None, false), v)
      | None => render_source ram effective_pitch v
      end in
    let! (out, v) := apply_envelope source.1.1 v in
    (Ok (mkOutput out source.1.2 source.2), v).
End weights.
End Voice.

Record Spu := mkSpu {
  spu_ram : Buffer;
  voices : list Voice;
  main_volume_left : Z;
  main_volume_right : Z;
  reverb_volume_left : Z;
  reverb_volume_right : Z;
  pitch_mod_mask : Z;
  noise_mask : Z;
  reverb_mask : Z;
  endx : Z;
  unknown_da0 : Z;
  reverb_base : Z;
  irq_address : Z;
  transfer_address_ : Z;
  control : Z;
  transfer_control : Z;
  spu_status : Z;
  cd_volume_left : Z;
  cd_volume_right : Z;
  external_volume_left : Z;
  external_volume_right : Z;
  unknown_dbc : Z;
  unknown_dbe : Z;
  reverb_registers : list Z;
  reverb : Reverb;
  irq_request : bool;
  noise : NoiseGenerator;
}.

#[export] Instance Spu_fields : Fields Spu := fun s =>
  mkSpu (spu_ram s) (voices s) (main_volume_left s) (main_volume_right s)
    (reverb_volume_left s) (reverb_volume_right s) (pitch_mod_mask s) (noise_mask s)
    (reverb_mask s) (endx s) (unknown_da0 s) (reverb_base s) (irq_address s)
    (transfer_address_ s) (control s) (transfer_control s) (spu_status s)
    (cd_volume_left s) (cd_volume_right s) (external_volume_left s)
    (external_volume_right s) (unknown_dbc s) (unknown_dbe s) (reverb_registers s)
    (reverb s) (irq_request s) (noise s).

Definition ensure_register (address : Z) : outcome SpuError unit :=
  if negb ((SPU_BASE <=? address) && (address <=? SPU_END)) || has_bits address 1
  then Err (InvalidRegister address) else Ok tt.

Definition decode_voice_register (address : Z) : Z * Z :=
  let relative := address - SPU_BASE in (relative / VOICE_STRIDE, relative mod VOICE_STRIDE).

Definition reverb_index (address : Z) : Z := (address - REVERB_REGISTERS_START) / 2.

Definition low_half (value : Z) : Z := value .& 0xffff.
Definition high_half (value : Z) : Z := Z.shiftr value 16 .& 0xffff.
Definition set_low_half (target value : Z) : Z := (target .& 0xffff0000) .| value.
Definition set_high_half (target value : Z) : Z := (target .& 0x0000ffff) .| shl 32 value 16.

Definition apply_volume (sample register : Z) : Z :=
  let direct := register .& 0x7fff in
  let signed := if has_bits direct 0x4000 then direct - 0x8000 else direct in
  clamp_i16 (Z.shiftr (sample * signed) 14).

Definition apply_signed_volume (sample register : Z) : Z :=
  clamp_i16 (Z.shiftr (sample * to_i 16 register) 15).

Definition modulated_pitch (base previous : Z) : Z :=
  let factor := previous + 0x8000 in
  let pitch := Z.shiftr (base * factor) 15 in
  default 0 (try_from_u 16 (Z.max 0 (Z.min 0x3fff pitch))).

(** The voice register at an offset. *)
Definition voice_register (register : Z) (v : Voice) : option Z :=
  if register =? 0 then Some (volume_left v)
  else if register =? 2 then Some (volume_right v)
  else if register =? 4 then Some (pitch v)
  else if register =? 6 then Some (start_address v)
  else if register =? 8 then Some (adsr_low v)
  else if register =? 10 then Some (adsr_high v)
  else if register =? 12 then Some (level (envelope v))
  else if register =? 14 then Some (repeat_address v)
  else None.

Definition set_voice_register (register value : Z) (v : Voice) : option Voice :=
  if register =? 0 then Some (v <| volume_left := value |>)
  else if register =? 2 then Some (v <| volume_right := value |>)
  else if register =? 4 then Some (v <| pitch := Z.min value 0x3fff |>)
  else if register =? 6 then Some (v <| start_address := value |>)
  else if register =? 8 then Some (v <| adsr_low := value |>)
  else if register =? 10 then Some (v <| adsr_high := value |>)
  else if register =? 12 then Some v
  else if register =? 14 then Some (v <| repeat_address := value |>)
  else None.

Module Spu.

Definition new : Spu :=
  mkSpu (Buffer.zeroed SOUND_RAM_SIZE) (replicate VOICE_COUNT default_voice)
    0 0 0 0 0 0 0 0 0 0 0 0 0 0 0 0 0 0 0 0 0 (replicate 32 0) Reverb.new false
    NoiseGenerator.default.

Definition load_ram (offset : Z) (bytes : list Z) (s : Spu) : outcome SpuError unit * Spu :=
  let size := Z.of_nat (length bytes) in
  match checked_add_u 64 offset size with
  | None => (Err (RamRange offset size), s)
  | Some _ =>
      match Buffer.copy_from (spu_ram s) offset bytes with
      | None => (Err (RamRange offset size), s)
      | Some ram => (Ok tt, s <| spu_ram := ram |>)
      end
  end.

Definition read_voice_register (address : Z) (s : Spu) : outcome SpuError Z :=
  let (voice, register) := decode_voice_register address in
  let? v := expect (voices s !! Z.to_nat voice) in
  ok_or (voice_register register v) (InvalidRegister address).

Definition read_global_register (address : Z) (s : Spu) : outcome SpuError Z :=
  if (address =? MAIN_VOLUME_LEFT) || (address =? CURRENT_MAIN_VOLUME_LEFT)
  then Ok (main_volume_left s)
  else if (address =? MAIN_VOLUME_RIGHT) || (address =? CURRENT_MAIN_VOLUME_RIGHT)
  then Ok (main_volume_right s)
  else if address =? REVERB_VOLUME_LEFT then Ok (reverb_volume_left s)
  else if address =? REVERB_VOLUME_RIGHT then Ok (reverb_volume_right s)
  else if (address =? KEY_ON_LOW) || (address =? KEY_ON_HIGH) ||
          (address =? KEY_OFF_LOW) || (address =? KEY_OFF_HIGH) then Ok 0
  else if address =? PITCH_MOD_LOW then Ok (low_half (pitch_mod_mask s))
  else if address =? PITCH_MOD_HIGH then Ok (high_half (pitch_mod_mask s))
  else if address =? NOISE_LOW then Ok (low_half (noise_mask s))
  else if address =? NOISE_HIGH then Ok (high_half (noise_mask s))
  else if address =? REVERB_ON_LOW then Ok (low_half (reverb_mask s))
  else if address =? REVERB_ON_HIGH then Ok (high_half (reverb_mask s))
  else if address =? ENDX_LOW then Ok (low_half (endx s))
  else if address =? ENDX_HIGH then Ok (high_half (endx s))
  else if address =? UNKNOWN_DA0 then Ok (unknown_da0 s)
  else if address =? REVERB_BASE then Ok (reverb_base s)
  else if address =? IRQ_ADDRESS then Ok (irq_address s)
  else if address =? TRANSFER_ADDRESS
  then Ok (default 0 (try_from_u 16 (transfer_address_ s / 8)))
  else if address =? CONTROL then Ok (control s)
  else if address =? TRANSFER_CONTROL then Ok (transfer_control s)
  else if address =? STATUS then Ok (spu_status s)
  else if address =? CD_VOLUME_LEFT then Ok (cd_volume_left s)
  else if address =? CD_VOLUME_RIGHT then Ok (cd_volume_right s)
  else if address =? EXTERNAL_VOLUME_LEFT then Ok (external_volume_left s)
  else if address =? EXTERNAL_VOLUME_RIGHT then Ok (external_volume_right s)
  else if address =? UNKNOWN_DBC then Ok (unknown_dbc s)
  else if address =? UNKNOWN_DBE then Ok (unknown_dbe s)
  else if (REVERB_REGISTERS_START <=? address) && (address <=? SPU_END)
  then expect (reverb_registers s !! Z.to_nat (reverb_index address))
  else Err (InvalidRegister address).

Definition read_register (address : Z) (s : Spu) : outcome SpuError Z :=
  let? _ := ensure_register address in
  if address <? VOICE_REGISTER_END then read_voice_register address s
  else read_global_register address s.

Definition check_irq_address (address : Z) (s : Spu) : Spu :=
  if has_bits (control s) CONTROL_IRQ_ENABLE &&
     (address .& bnot 64 7 =? (irq_address s * 8) .& RAM_MASK)
  then s <| spu_status := spu_status s .| STATUS_IRQ |> <| irq_request := true |>
  else s.

Definition check_irq_fetch (address : Z) (s : Spu) : Spu :=
  check_irq_address ((address + 8) .& RAM_MASK) (check_irq_address address s).

Definition write_transfer_halfword {E} (value : Z) (s : Spu) : outcome E unit * Spu :=
  let address := transfer_address_ s .& RAM_MASK in
  let s := check_irq_address address s in
  match Buffer.set (spu_ram s) address (value mod 256) with
  | None => (Panic, s)
  | Some ram =>
      match Buffer.set ram ((address + 1) .& RAM_MASK) (value / 256) with
      | None => (Panic, s <| spu_ram := ram |>)
      | Some ram =>
          (Ok tt, s <| spu_ram := ram |>
                    <| transfer_address_ := (address + 2) .& RAM_MASK |>)
      end
  end.

Definition read_transfer_halfword {E} (s : Spu) : outcome E Z * Spu :=
  let address := transfer_address_ s .& RAM_MASK in
  let s := check_irq_address address s in
  match (low ← Buffer.get (spu_ram s) address;
         high ← Buffer.get (spu_ram s) ((address + 1) .& RAM_MASK);
         Some (from_le [low; high])) with
  | None => (Panic, s)
  | Some value => (Ok value, s <| transfer_address_ := (address + 2) .& RAM_MASK |>)
  end.

(** The voices of a mask, [index] counting from the front. *)
Fixpoint key_on_from (index : Z) (mask : Z) (vs : list Voice) (endx : Z) : list Voice * Z :=
  match vs with
  | [] => ([], endx)
  | v :: vs =>
      let bit := Z.shiftl 1 index in
      let hit := has_bits mask bit in
      let (vs, endx) :=
        key_on_from (index + 1) mask vs (if hit then endx .& bnot 32 bit else endx) in
      ((if hit then Voice.key_on v else v) :: vs, endx)
  end.

Definition key_on (mask : Z) (s : Spu) : Spu :=
  let (vs, e) := key_on_from 0 mask (voices s) (endx s) in
  s <| voices := vs |> <| endx := e |>.

Definition key_off (mask : Z) (s : Spu) : Spu :=
  s <| voices := imap (fun i v => if has_bits mask (Z.shiftl 1 (Z.of_nat i))
                                  then Voice.key_off v else v) (voices s) |>.

Definition write_voice_register (address value : Z) (s : Spu) : outcome SpuError unit * Spu :=
  let (voice, register) := decode_voice_register address in
  match voices s !! Z.to_nat voice with
  | None => (Panic, s)
  | Some v =>
      match set_voice_register register value v with
      | None => (Err (InvalidRegister address), s)
      | Some v => (Ok tt, s <| voices := <[Z.to_nat voice := v]> (voices s) |>)
      end
  end.

Definition write_control (value : Z) (s : Spu) : Spu :=
  let s := s <| control := value |> in
  if has_bits value CONTROL_IRQ_ENABLE then s
  else s <| spu_status := spu_status s .& bnot 16 STATUS_IRQ |> <| irq_request := false |>.

Definition write_reverb_register (index value : Z) (s : Spu) : outcome SpuError unit * Spu :=
  match reverb_registers s !! Z.to_nat index with
  | None => (Panic, s)
  | Some _ =>
      (Ok tt, s <| reverb_registers := <[Z.to_nat index := value]> (reverb_registers s) |>)
  end.

Definition write_global_register (address value : Z) (s : Spu) : outcome SpuError unit * Spu :=
  if address =? MAIN_VOLUME_LEFT then (Ok tt, s <| main_volume_left := value |>)
  else if address =? MAIN_VOLUME_RIGHT then (Ok tt, s <| main_volume_right := value |>)
  else if address =? REVERB_VOLUME_LEFT then (Ok tt, s <| reverb_volume_left := value |>)
  else if address =? REVERB_VOLUME_RIGHT then (Ok tt, s <| reverb_volume_right := value |>)
  else if address =? KEY_ON_LOW then (Ok tt, key_on value s)
  else if address =? KEY_ON_HIGH then (Ok tt, key_on (shl 32 value 16) s)
  else if address =? KEY_OFF_LOW then (Ok tt, key_off value s)
  else if address =? KEY_OFF_HIGH then (Ok tt, key_off (shl 32 value 16) s)
  else if address =? PITCH_MOD_LOW
  then (Ok tt, s <| pitch_mod_mask := set_low_half (pitch_mod_mask s) value |>)
  else if address =? PITCH_MOD_HIGH
  then (Ok tt, s <| pitch_mod_mask := set_high_half (pitch_mod_mask s) value |>)
  else if address =? NOISE_LOW
  then (Ok tt, s <| noise_mask := set_low_half (noise_mask s) value |>)
  else if address =? NOISE_HIGH
  then (Ok tt, s <| noise_mask := set_high_half (noise_mask s) value |>)
  else if address =? REVERB_ON_LOW
  then (Ok tt, s <| reverb_mask := set_low_half (reverb_mask s) value |>)
  else if address =? REVERB_ON_HIGH
  then (Ok tt, s <| reverb_mask := set_high_half (reverb_mask s) value |>)
  else if address =? ENDX_LOW then (Ok tt, s <| endx := endx s .& bnot 32 value |>)
  else if address =? ENDX_HIGH
  then (Ok tt, s <| endx := endx s .& bnot 32 (shl 32 value 16) |>)
  else if address =? UNKNOWN_DA0 then (Ok tt, s <| unknown_da0 := value |>)
  else if address =? REVERB_BASE
  then (Ok tt, s <| reverb_base := value |> <| reverb := Reverb.set_base value (reverb s) |>)
  else if address =? IRQ_ADDRESS then (Ok tt, s <| irq_address := value |>)
  else if address =? TRANSFER_ADDRESS then (Ok tt, s <| transfer_address_ := value * 8 |>)
  else if address =? TRANSFER_FIFO then write_transfer_halfword value s
  else if address =? CONTROL then (Ok tt, write_control value s)
  else if address =? TRANSFER_CONTROL then (Ok tt, s <| transfer_control := value |>)
  else if (address =? STATUS) || (address =? CURRENT_MAIN_VOLUME_LEFT) ||
          (address =? CURRENT_MAIN_VOLUME_RIGHT) then (Ok tt, s)
  else if address =? CD_VOLUME_LEFT then (Ok tt, s <| cd_volume_left := value |>)
  else if address =? CD_VOLUME_RIGHT then (Ok tt, s <| cd_volume_right := value |>)
  else if address =? EXTERNAL_VOLUME_LEFT then (Ok tt, s <| external_volume_left := value |>)
  else if address =? EXTERNAL_VOLUME_RIGHT then (Ok tt, s <| external_volume_right := value |>)
  else if address =? UNKNOWN_DBC then (Ok tt, s <| unknown_dbc := value |>)
  else if address =? UNKNOWN_DBE then (Ok tt, s <| unknown_dbe := value |>)
  else if (REVERB_REGISTERS_START <=? address) && (address <=? SPU_END)
  then write_reverb_register (reverb_index address) value s
  else (Err (InvalidRegister address), s).

Definition write_register (address value : Z) (s : Spu) : outcome SpuError unit * Spu :=
  let! (_u, s) := (ensure_register address, s) in
  if address <? VOICE_REGISTER_END then write_voice_register address value s
  else write_global_register address value s.

Definition drain_irq {S} `{InterruptSink S} (sink : S) (s : Spu) : bool * S * Spu :=
  if negb (irq_request s) then (false, sink, s)
  else (true, request sink Ps1Irq.Spu, s <| irq_request := false |>).

(** ** Mixing *)

Record Mix := mkMix {
  mix_left : Z; mix_right : Z; wet_left : Z; wet_right : Z; mix_previous : Z;
}.

Definition mix_voice (out : Z) (wet : bool) (v : Voice) (m : Mix) : Mix :=
  let l := apply_volume out (volume_left v) in
  let r := apply_volume out (volume_right v) in
  mkMix (mix_left m + l) (mix_right m + r)
    (if wet then wet_left m + l else wet_left m)
    (if wet then wet_right m + r else wet_right m) out.

Section weights.
Context (weights : Z -> list Z).

(** One voice of the frame. *)
Definition render_voice (index : Z) (m : Mix) (s : Spu) : outcome SpuError Mix * Spu :=
  match voices s !! Z.to_nat index with
  | None => (Panic, s)
  | Some v =>
      let bit := shl 32 1 index in
      let effective :=
        if negb (index =? 0) && has_bits (pitch_mod_mask s) bit
        then modulated_pitch (pitch v) (mix_previous m) else pitch v in
      let (noise_sample, s) :=
        if has_bits (noise_mask s) bit then
          let (sample, g) := NoiseGenerator.step (noise s) in
          (Some sample, s <| noise := g |>)
        else (None, s) in
      let (r, v) := Voice.render weights (spu_ram s) effective noise_sample v in
      let s := s <| voices := <[Z.to_nat index := v]> (voices s) |> in
      let! (out, s) := (map_err (fun e => Adpcm index e.1 e.2) r, s) in
      let s := match fetched out with Some address => check_irq_fetch address s | None => s end in
      let s := if loop_end out then s <| endx := endx s .| bit |> else s in
      (Ok (mix_voice (dry out) (has_bits (reverb_mask s) bit) v m), s)
  end.

Fixpoint render_voices (index : Z) (n : nat) (m : Mix) (s : Spu)
    : outcome SpuError Mix * Spu :=
  match n with
  | O => (Ok m, s)
  | S n =>
      let! (m, s) := render_voice index m s in
      render_voices (index + 1) n m s
  end.

Definition render_frame (s : Spu) : outcome SpuError (Z * Z) * Spu :=
  if negb (has_bits (control s) CONTROL_ENABLE) then (Ok (0, 0), s)
  else
    let! (m, s) := render_voices 0 VOICE_COUNT (mkMix 0 0 0 0 0) s in
    match Reverb.process (spu_ram s) (reverb_base s) (reverb_registers s)
            (has_bits (control s) CONTROL_REVERB_ENABLE)
            (clamp_i64_to_i16 (wet_left m), clamp_i64_to_i16 (wet_right m)) (reverb s) with
    | Ok (wet, ram, rv) =>
        let s := s <| spu_ram := ram |> <| reverb := rv |> in
        let left := mix_left m + apply_signed_volume wet.1 (reverb_volume_left s) in
        let right := mix_right m + apply_signed_volume wet.2 (reverb_volume_right s) in
        (Ok (apply_volume (clamp_i64_to_i16 left) (main_volume_left s),
             apply_volume (clamp_i64_to_i16 right) (main_volume_right s)), s)
    | Err e => (Err e, s)
    | Panic => (Panic, s)
    end.

(** The frames of the output buffer, as interleaved samples. *)
Fixpoint render_frames (n : nat) (s : Spu) : outcome SpuError (list Z) * Spu :=
  match n with
  | O => (Ok [], s)
  | S n =>
      let! (frame, s) := render_frame s in
      let! (rest, s) := render_frames n s in
      (Ok (frame.1 :: frame.2 :: rest), s)
  end.

(** The buffer is described by its length; its new contents are returned. *)
Definition render (frames output_len : Z) (s : Spu) : outcome SpuError (list Z) * Spu :=
  match checked_mul_u 64 frames 2 with
  | None => (Err (OutputSize (2 ^ 64 - 1) output_len), s)
  | Some expected =>
      if negb (output_len =? expected) then (Err (OutputSize expected output_len), s)
      else render_frames (Z.to_nat frames) s
  end.
End weights.
End Spu.

#[export] Instance spu_sound_dma : SoundDmaEndpoint Spu := {
  write_word value s :=
    let! (_u, s) := Spu.write_transfer_halfword (value mod 2 ^ 16) s in
    Spu.write_transfer_halfword (value / 2 ^ 16) s;
  read_word s :=
    let! (low, s) := Spu.read_transfer_halfword s in
    let! (high, s) := Spu.read_transfer_halfword s in
    (Ok (low .| Z.shiftl high 16), s);
}.
