(* ===== verification/Ps1ReverbFacts.v ===== *)
(** * What the reverb promises

    Every access of the effect falls inside the work area at the end of sound RAM,
    no arithmetic overflows and no array index leaves its array: one sample of the
    wet path always succeeds, keeps the state well formed and leaves the sound RAM
    below the work area alone. *)

From S2P Require Import Prelude Records MachineInt Buffer SpuCommon SpuCommonFacts Ps1Reverb.

#[local] Opaque SOUND_RAM_SIZE.

Definition shaped (n : nat) (h : list (list Z)) : Prop :=
  length h = 2%nat /\ Forall (fun ring => length ring = n /\ Forall i16 ring) h.

Record reverb_ok (r : Reverb) : Prop := {
  rv_address_ok : 0 <= rv_address r < SOUND_RAM_SIZE /\ rv_address r mod 2 = 0;
  position_ok : 0 <= resample_position r < 64;
  down_ok : shaped 64 (downsample_history r);
  up_ok : shaped 32 (upsample_history r);
}.

Definition ram_ok (ram : Buffer) : Prop :=
  buf_len ram = SOUND_RAM_SIZE /\ Buffer.bytes_ok ram.

Definition registers_ok (registers : list Z) : Prop :=
  length registers = 32%nat /\ Forall (in_u 16) registers.

(** [ram'] differs from [ram] only at or above [base]. *)
Definition same_below (base : Z) (ram ram' : Buffer) : Prop :=
  forall i, i < base -> Buffer.cell ram' i = Buffer.cell ram i.

Lemma size_value : SOUND_RAM_SIZE = 524288.
Proof. reflexivity. Qed.

Lemma signed_i16 v : in_u 16 v -> i16 (signed v).
Proof. intros. by apply to_i_range. Qed.

Lemma clamp_i64_range x : i16 (clamp_i64_to_i16 x).
Proof.
  apply i16_bounds. unfold clamp_i64_to_i16, I16_MIN, I16_MAX.
  destruct (Z.ltb_spec x (- 2 ^ 15)); [lia|]. destruct (Z.ltb_spec (2 ^ 15 - 1) x); lia.
Qed.

(** ** Histories *)

Lemma shaped_ring n h channel :
  shaped n h -> (channel < 2)%nat ->
  exists ring, h !! channel = Some ring /\ length ring = n /\ Forall i16 ring.
Proof.
  intros [Hl Hall] Hc. destruct (lookup_lt_is_Some_2 h channel ltac:(lia)) as [ring E].
  exists ring. split; [done|]. rewrite Forall_forall in Hall. apply Hall.
  by eapply list_elem_of_lookup_2.
Qed.

Lemma tap_ok {E} n h channel index :
  shaped n h -> (channel < 2)%nat -> 0 <= index < Z.of_nat n ->
  succeeds i16 (tap h channel index : outcome E Z).
Proof.
  intros Hs Hc Hi. destruct (shaped_ring n h channel Hs Hc) as (ring & E1 & Hl & Hall).
  unfold tap. rewrite E1. cbn [expect obind].
  destruct (lookup_lt_is_Some_2 ring (Z.to_nat index) ltac:(lia)) as [v Ev].
  eapply succeeds_expect; [done|]. rewrite Forall_forall in Hall. apply Hall.
  by eapply list_elem_of_lookup_2.
Qed.

Lemma put_ok {E} n h channel index v :
  shaped n h -> (channel < 2)%nat -> 0 <= index < Z.of_nat n -> i16 v ->
  succeeds (shaped n) (put h channel index v : outcome E (list (list Z))).
Proof.
  intros Hs Hc Hi Hv. destruct (shaped_ring n h channel Hs Hc) as (ring & E1 & Hl & Hall).
  unfold put. rewrite E1. cbn [expect obind].
  destruct (lookup_lt_is_Some_2 ring (Z.to_nat index) ltac:(lia)) as [w Ew].
  rewrite Ew. cbn [expect obind]. apply succeeds_ok. destruct Hs as [Hlen Hrings].
  split; [by rewrite length_insert|]. apply Forall_insert; [done|].
  split; [by rewrite length_insert|]. by apply Forall_insert.
Qed.

Lemma stereo_ok {E} (f : nat -> outcome E Z) :
  (forall c, (c < 2)%nat -> succeeds i16 (f c)) ->
  succeeds (fun p => i16 p.1 /\ i16 p.2) (stereo f).
Proof.
  intros Hf. unfold stereo. eapply succeeds_bind; [by apply Hf; lia|]. intros l Hl.
  eapply succeeds_bind; [by apply Hf; lia|]. intros r Hr. by apply succeeds_ok.
Qed.

Lemma fir_ok {E} n h channel index coefficients : forall t sum,
  shaped n h -> (channel < 2)%nat -> (forall t, 0 <= index t < Z.of_nat n) ->
  succeeds (fun _ => True) (fir h channel index t coefficients sum : outcome E Z).
Proof.
  induction coefficients as [|c cs IH]; intros t sum Hs Hc Hi; cbn [fir].
  { by apply succeeds_ok. }
  eapply succeeds_bind; [by apply (tap_ok n)|]. intros s _. by apply IH.
Qed.

Lemma land_63 x : 0 <= x .& RESAMPLE_RING_MASK < 64.
Proof. unfold RESAMPLE_RING_MASK. change 63 with (Z.ones 6). rewrite Z.land_ones by lia. by apply Z.mod_pos_bound. Qed.

Lemma land_31 x : 0 <= x .& UPSAMPLE_RING_MASK < 32.
Proof. unfold UPSAMPLE_RING_MASK. change 31 with (Z.ones 5). rewrite Z.land_ones by lia. by apply Z.mod_pos_bound. Qed.

(** ** Sound RAM *)


Lemma memory_address_ok {E} r base_register offset extra :
  reverb_ok r -> in_u 16 base_register -> extra = 0 \/ extra = -2 ->
  succeeds (fun a => base_register * 8 <= a /\ a + 1 < SOUND_RAM_SIZE)
    (Reverb.memory_address r base_register offset extra : outcome E Z).
Proof.
  intros Hr Hb He. unfold in_u in Hb. change (2 ^ 16) with 65536 in Hb.
  destruct Hr as [[Ha Heven] _ _ _]. unfold Reverb.memory_address. rewrite size_value in *.
  rewrite (proj2 (checked_sub_u_Some 524288 (base_register * 8) _)) by (split; [done|lia]).
  cbn [expect obind]. unfold RingBufferAddress.new.
  rewrite (proj2 (Z.eqb_neq _ _)) by lia. cbn [expect obind].
  pose proof (Z.div_mod (rv_address r) 2 ltac:(lia)).
  destruct (ring_step_even (base_register * 8) (524288 - base_register * 8)
    (Z.max 0 (rv_address r - base_register * 8) + offset * 8 + extra)) as (a & -> & Ha1 & Ha2 & _);
    try lia.
  - apply Z.mod_divide; [lia|]. exists (262144 - base_register * 4). lia.
  - apply Z.mod_divide; [lia|].
    destruct (Z.max_spec 0 (rv_address r - base_register * 8)) as [[_ ->]|[_ ->]];
      destruct He as [-> | ->].
    + exists (rv_address r / 2 - base_register * 4 + offset * 4). lia.
    + exists (rv_address r / 2 - base_register * 4 + offset * 4 - 1). lia.
    + exists (offset * 4). lia.
    + exists (offset * 4 - 1). lia.
  - apply succeeds_ok. lia.
Qed.

Lemma get_ok {E} ram i :
  ram_ok ram -> 0 <= i < SOUND_RAM_SIZE ->
  succeeds (in_u 8) (expect (Buffer.get ram i) : outcome E Z).
Proof.
  intros [Hl Hb] Hi. eapply succeeds_expect; [apply Buffer.get_in; lia|]. by apply Buffer.cell_u8.
Qed.

Lemma ram_set_ok {E} ram i v b :
  ram_ok ram -> b <= i < SOUND_RAM_SIZE -> 0 <= b -> in_u 8 v ->
  succeeds (fun ram' => ram_ok ram' /\ same_below b ram ram')
    (expect (Buffer.set ram i v) : outcome E Buffer).
Proof.
  intros [Hl Hb] Hi Hb0 Hv. eapply succeeds_expect; [apply Buffer.set_in; lia|].
  split; [split; [done|by apply map_Forall_insert_2]|]. intros j Hj.
  rewrite Buffer.cell_insert. by rewrite decide_False by lia.
Qed.

Lemma read_ok {E} r ram base_register offset extra :
  reverb_ok r -> ram_ok ram -> in_u 16 base_register -> extra = 0 \/ extra = -2 ->
  succeeds i16 (Reverb.read r ram base_register offset extra : outcome E Z).
Proof.
  intros Hr Hram Hb He. unfold Reverb.read.
  eapply succeeds_bind; [by apply memory_address_ok|]. intros a [Hlo Hhi].
  assert (0 <= a) by (destruct Hb; lia).
  eapply succeeds_bind; [apply get_ok; [done|lia]|]. intros low Hlow.
  eapply succeeds_bind; [apply get_ok; [done|lia]|]. intros high Hhigh.
  apply succeeds_ok, signed_i16. by apply from_le_2_u16.
Qed.

Lemma same_below_trans b r1 r2 r3 :
  same_below b r1 r2 -> same_below b r2 r3 -> same_below b r1 r3.
Proof. intros H1 H2 i Hi. by rewrite H2, H1. Qed.

Lemma write_ok {E} r ram base_register offset v :
  reverb_ok r -> ram_ok ram -> in_u 16 base_register ->
  succeeds (fun ram' => ram_ok ram' /\ same_below (base_register * 8) ram ram')
    (Reverb.write r ram base_register offset v : outcome E Buffer).
Proof.
  intros Hr Hram Hb. unfold Reverb.write.
  eapply succeeds_bind; [apply memory_address_ok; auto|]. intros a [Hlo Hhi].
  assert (0 <= base_register * 8) by (destruct Hb; lia).
  assert (in_u 16 (of_i 16 v)) as Hv by (apply in_u_of_i; lia).
  unfold in_u in Hv. change (2 ^ 16) with 65536 in Hv.
  eapply succeeds_bind.
  { apply (ram_set_ok _ _ _ (base_register * 8)); [done|lia|done|]. by apply Z.mod_pos_bound. }
  intros ram1 [Hram1 Hs1]. eapply succeeds_mono.
  { apply (ram_set_ok _ _ _ (base_register * 8)); [done|lia|done|]. split.
    - apply Z.div_pos; lia.
    - apply Z.div_lt_upper_bound; [lia|]. change (2 ^ 8) with 256. lia. }
  intros ram2 [Hram2 Hs2]. split; [done|]. by eapply same_below_trans.
Qed.

(** ** The effect *)

Section effect.
Context {E : Type} (base_register : Z) (Hb : in_u 16 base_register).
Context (r : Reverb) (Hr : reverb_ok r).

Notation area := (same_below (base_register * 8)).

Lemma same_below_refl b ram : same_below b ram ram.
Proof. done. Qed.

Lemma reflection_ok ram input source destination wall iir :
  ram_ok ram ->
  succeeds i16 (Reverb.reflection r ram base_register input source destination wall iir
                : outcome E Z).
Proof using Hb Hr.
  intros Hram. unfold Reverb.reflection.
  eapply succeeds_bind; [apply read_ok; auto|]. intros s Hs.
  eapply succeeds_bind; [apply read_ok; auto|]. intros old Hold.
  apply succeeds_ok, clamp_i16_range.
Qed.

Lemma comb_sum_ok ram terms : forall sum,
  ram_ok ram -> succeeds i16 (Reverb.comb_sum r ram base_register terms sum : outcome E Z).
Proof using Hb Hr.
  induction terms as [|[source volume] terms IH]; intros sum Hram; cbn [Reverb.comb_sum].
  { apply succeeds_ok, clamp_i64_range. }
  eapply succeeds_bind; [apply read_ok; auto|]. intros s _. by apply IH.
Qed.

Lemma all_pass_ok ram input destination source volume enabled :
  ram_ok ram ->
  succeeds (fun p => i16 p.1 /\ ram_ok p.2 /\ area ram p.2)
    (Reverb.all_pass r ram base_register input destination source volume enabled
     : outcome E (Z * Buffer)).
Proof using Hb Hr.
  intros Hram. unfold Reverb.all_pass.
  eapply succeeds_bind; [apply read_ok; auto|]. intros f _. cbn zeta.
  eapply (succeeds_bind (fun ram' => ram_ok ram' /\ area ram ram')).
  - destruct enabled; [by apply write_ok|by apply succeeds_ok].
  - intros ram' [Hram' Ha]. apply succeeds_ok. split; [apply clamp_i16_range|done].
Qed.

Section registers.
Context (registers : list Z) (Hregs : registers_ok registers).

Notation reg := (fun i : nat => expect (registers !! i) : outcome E Z).

Lemma reg_ok i : (i < 32)%nat -> succeeds (in_u 16) (reg i).
Proof using Hregs.
  intros Hi. destruct Hregs as [Hl Hall].
  destruct (lookup_lt_is_Some_2 registers i ltac:(lia)) as [v Ev].
  eapply succeeds_expect; [done|]. rewrite Forall_forall in Hall. apply Hall.
  by eapply list_elem_of_lookup_2.
Qed.

Lemma signed_reg_ok i : (i < 32)%nat -> succeeds i16 (omapok signed (reg i)).
Proof using Hregs.
  intros Hi. apply succeeds_omapok. eapply succeeds_mono; [by apply reg_ok|]. apply signed_i16.
Qed.

Lemma all_pass_stage_ok ram input apf displacement volume enabled :
  ram_ok ram -> (apf < 32)%nat -> (displacement < 32)%nat -> (volume < 32)%nat ->
  succeeds (fun p => i16 p.1 /\ ram_ok p.2 /\ area ram p.2)
    (Reverb.all_pass_stage r ram base_register reg input apf displacement volume enabled).
Proof using Hb Hr Hregs.
  intros. unfold Reverb.all_pass_stage.
  eapply succeeds_bind; [by apply reg_ok|]. intros d _.
  eapply succeeds_bind; [by apply reg_ok|]. intros x _.
  eapply succeeds_bind; [by apply signed_reg_ok|]. intros v _. by apply all_pass_ok.
Qed.

(** Bind the registers, whose numbers are literals. *)
Ltac next_reg :=
  eapply succeeds_bind; [first [apply signed_reg_ok | apply reg_ok]; unfold lt; cbv; lia|];
  intros ? _.

Lemma reflections_ok ram left right :
  ram_ok ram ->
  succeeds (fun ram' => ram_ok ram' /\ area ram ram')
    (Reverb.reflections r ram base_register reg left right).
Proof using Hb Hr Hregs.
  intros Hram. unfold Reverb.reflections.
  eapply succeeds_bind; [apply signed_reg_ok; unfold lt; cbv; lia|]. intros wall _.
  eapply succeeds_bind; [apply signed_reg_ok; unfold lt; cbv; lia|]. intros iir _. cbn zeta.
  assert (forall a b c, (b < 32)%nat -> (c < 32)%nat -> succeeds i16
    (obind (reg b) (fun source => obind (reg c) (fun destination =>
      Reverb.reflection r ram base_register a source destination wall iir)))) as Href.
  { intros. eapply succeeds_bind; [by apply reg_ok|]. intros ? _.
    eapply succeeds_bind; [by apply reg_ok|]. intros ? _. by apply reflection_ok. }
  assert (forall ram' i v, ram_ok ram' -> area ram ram' -> (i < 32)%nat ->
    succeeds (fun ram' => ram_ok ram' /\ area ram ram')
      (obind (reg i) (fun d => Reverb.write r ram' base_register d v))) as Hst.
  { intros ram' i v Hram' Ha Hi. eapply succeeds_bind; [by apply reg_ok|]. intros d _.
    eapply succeeds_mono; [by apply write_ok|]. intros ? [? ?]. split; [done|].
    by eapply same_below_trans. }
  do 4 (eapply succeeds_bind; [apply Href; unfold lt; cbv; lia|]; intros ? _).
  do 3 (eapply succeeds_bind; [apply Hst; [done|done|unfold lt; cbv; lia]|]; intros ? [? ?]).
  apply Hst; [done|done|unfold lt; cbv; lia].
Qed.

Lemma effect_tick_ok ram enabled input :
  ram_ok ram ->
  succeeds (fun p => i16 p.1.1.1 /\ i16 p.1.1.2 /\ ram_ok p.1.2 /\ area ram p.1.2 /\ reverb_ok p.2)
    (Reverb.effect_tick ram base_register registers enabled input r
     : outcome E ((Z * Z) * Buffer * Reverb)).
Proof using Hb Hr Hregs.
  intros Hram. unfold Reverb.effect_tick. do 2 next_reg. cbn zeta.
  eapply (succeeds_bind (fun ram' => ram_ok ram' /\ area ram ram')).
  { destruct enabled; [by apply reflections_ok|by apply succeeds_ok]. }
  intros ram0 [Hram0 Ha0]. do 8 next_reg.
  eapply succeeds_bind; [by apply comb_sum_ok|]. intros left _. do 4 next_reg.
  eapply succeeds_bind; [by apply comb_sum_ok|]. intros right _.
  eapply succeeds_bind; [apply all_pass_stage_ok; [done|unfold lt; cbv; lia..]|].
  intros [left1 ram1] (_ & Hram1 & Ha1).
  eapply succeeds_bind; [apply all_pass_stage_ok; [done|unfold lt; cbv; lia..]|].
  intros [right1 ram2] (_ & Hram2 & Ha2).
  eapply succeeds_bind; [apply all_pass_stage_ok; [done|unfold lt; cbv; lia..]|].
  intros [left2 ram3] (Hl & Hram3 & Ha3).
  eapply succeeds_bind; [apply all_pass_stage_ok; [done|unfold lt; cbv; lia..]|].
  intros [right2 ram4] (Hrt & Hram4 & Ha4). cbn [fst snd] in *.
  apply succeeds_ok. cbn [fst snd]. split_and!; try done.
  { repeat (eapply same_below_trans; [eassumption|]). done. }
  destruct Hr as [[Hpos Heven] Hp Hd Hu]. split; cbn [modify rv_address resample_position
    downsample_history upsample_history]; try done.
  unfold in_u in Hb. change (2 ^ 16) with 65536 in Hb.
  pose proof (Z.div_mod (rv_address r) 2 ltac:(lia)).
  rewrite size_value in *. destruct (Z.leb_spec 524288 (rv_address r + 2)).
  - split; [lia|]. apply Z.mod_divide; [lia|]. exists (base_register * 4). lia.
  - split; [lia|]. by rewrite <- Z.add_mod_idemp_l, Heven.
Qed.
End registers.
End effect.

Lemma process_ok {E} ram base_register registers enabled input r :
  reverb_ok r -> ram_ok ram -> in_u 16 base_register -> registers_ok registers ->
  i16 input.1 -> i16 input.2 ->
  succeeds (fun p => i16 p.1.1.1 /\ i16 p.1.1.2 /\ ram_ok p.1.2 /\
      same_below (base_register * 8) ram p.1.2 /\ reverb_ok p.2)
    (Reverb.process ram base_register registers enabled input r
     : outcome E ((Z * Z) * Buffer * Reverb)).
Proof.
  intros Hr Hram Hb Hregs Hi1 Hi2. destruct Hr as [Ha Hp Hd Hu]. unfold Reverb.process.
  eapply succeeds_bind; [apply (put_ok 64); [done|lia|lia|done]|]. intros d1 Hd1.
  eapply succeeds_bind; [apply (put_ok 64); [done|lia|lia|done]|]. intros d2 Hd2.
  assert (reverb_ok (r <| downsample_history := d2 |>)) as Hr' by by split.
  set (r' := r <| downsample_history := d2 |>) in *. cbn zeta.
  assert (0 <= Z.shiftr (resample_position r) 1 < 32) as Hsh.
  { rewrite Z.shiftr_div_pow2 by lia. change (2 ^ 1) with 2.
    split; [apply Z.div_pos; lia|apply Z.div_lt_upper_bound; lia]. }
  eapply (succeeds_bind (fun p => i16 p.1.1.1 /\ i16 p.1.1.2 /\ ram_ok p.1.2 /\
    same_below (base_register * 8) ram p.1.2 /\ reverb_ok p.2)).
  - destruct (_ =? 0).
    + eapply succeeds_bind.
      { apply stereo_ok. intros c Hc. apply (tap_ok 32); [apply Hr'|done|apply land_31]. }
      intros out [Ho1 Ho2]. by apply succeeds_ok.
    + eapply succeeds_bind.
      { apply stereo_ok. intros c Hc. eapply succeeds_bind.
        - apply (fir_ok 64); [apply Hr'|done|]. intros t. apply land_63.
        - intros s _. eapply succeeds_bind.
          + apply (tap_ok 64); [apply Hr'|done|apply land_63].
          + intros x _. apply succeeds_ok, clamp_i64_range. }
      intros down _. eapply succeeds_bind; [by apply effect_tick_ok|].
      intros [[[o1 o2] ram'] r2] (Ho1 & Ho2 & Hram' & Harea & Hr2). cbn [fst snd] in *.
      destruct Hr2 as [Ha2 Hp2 Hdn2 Hup2].
      eapply succeeds_bind; [apply (put_ok 32); [done|lia|lia|done]|]. intros u1 Hu1.
      eapply succeeds_bind; [apply (put_ok 32); [done|lia|lia|done]|]. intros u2 Hu2.
      assert (reverb_ok (r2 <| upsample_history := u2 |>)) as Hr3 by by split.
      eapply succeeds_bind.
      { apply stereo_ok. intros c Hc. eapply succeeds_bind.
        - apply (fir_ok 32); [apply Hr3|done|]. intros t. apply land_31.
        - intros s _. apply succeeds_ok, clamp_i64_range. }
      intros out [Hout1 Hout2]. by apply succeeds_ok.
  - intros [[[o1 o2] ram'] r2] (Ho1 & Ho2 & Hram' & Harea & Hr2). cbn [fst snd] in *.
    apply succeeds_ok. cbn [fst snd]. split_and!; try done. destruct Hr2. split; try done.
    cbn [modify resample_position]. apply land_63.
Qed.

Lemma reverb_new_ok : reverb_ok Reverb.new.
Proof.
  assert (i16 0) as H0 by by apply i16_bounds.
  split; cbn [Reverb.new rv_address resample_position downsample_history upsample_history].
  - rewrite size_value. split; [lia|done].
  - lia.
  - split; [done|]. repeat constructor; by apply i16_bounds.
  - split; [done|]. repeat constructor; by apply i16_bounds.
Qed.

Lemma set_base_ok base_register r :
  in_u 16 base_register -> reverb_ok r -> reverb_ok (Reverb.set_base base_register r).
Proof.
  intros Hb [Ha Hp Hd Hu]. unfold in_u in Hb. change (2 ^ 16) with 65536 in Hb.
  split; try done. unfold Reverb.set_base. cbn [modify rv_address]. rewrite size_value.
  split; [lia|]. apply Z.mod_divide; [lia|]. exists (base_register * 4). lia.
Qed.
