(* ===== verification/Ps1SpuFacts.v ===== *)
(** * What the PS1 SPU promises

    The register file and the sound-RAM port never panic and keep every field at
    its width; rendering a buffer of the right size always succeeds, whatever the
    registers and the sound RAM hold. *)

From S2P Require Import Prelude Records MachineInt Buffer Ps1Irq.
From S2P Require Import SpuCommon SpuCommonFacts Ps1Dma Ps1Reverb Ps1ReverbFacts Ps1Spu.

#[local] Opaque SOUND_RAM_SIZE.

Notation u16 := (in_u 16).
Notation in_ram a := (0 <= a < SOUND_RAM_SIZE).

Record prepared_ok (p : PreparedBlock) : Prop := {
  pb_address_ok : in_ram (pb_address p);
  pb_decoded_ok : Adpcm.block_ok (pb_decoded p);
  before_ok : Adpcm.history_ok (history_before p);
}.

Record voice_ok (v : Voice) : Prop := {
  volume_left_ok : u16 (volume_left v);
  volume_right_ok : u16 (volume_right v);
  pitch_ok : 0 <= pitch v <= 0x3fff;
  start_ok : u16 (start_address v);
  adsr_low_ok : u16 (adsr_low v);
  adsr_high_ok : u16 (adsr_high v);
  repeat_ok : u16 (repeat_address v);
  current_ok : in_ram (current_address v);
  current_block_ok : in_ram (current_block_address v);
  envelope_ok : Adsr.env_ok (envelope v);
  history_ok : Adpcm.history_ok (history v);
  counter_ok : 0 <= phase (pitch_counter v) < 4096;
  decoded_length : length (decoded v) = 28%nat;
  decoded_range : Forall i16 (decoded v);
  prepared_field : from_option prepared_ok True (prepared v);
  index_ok : 0 <= sample_index v < 28;
}.

Lemma u16_bounds x : u16 x <-> 0 <= x <= 65535.
Proof. unfold in_u. change (2 ^ 16) with 65536. lia. Qed.

Lemma land_mask_range x : in_ram (x .& RAM_MASK).
Proof.
  unfold RAM_MASK. rewrite size_value. change (524288 - 1) with (Z.ones 19).
  rewrite Z.land_ones by lia. apply Z.mod_pos_bound. lia.
Qed.

Lemma times8_range x : u16 x -> in_ram (x * 8).
Proof. rewrite u16_bounds, size_value. lia. Qed.

Lemma default_voice_ok : voice_ok default_voice.
Proof.
  assert (u16 0) as H0 by by apply u16_bounds.
  split; cbn; try done; try (rewrite size_value; lia); try lia.
  - repeat constructor; by apply i16_bounds.
Qed.

(** ** Blocks *)

Lemma fetch_block_ok ram n : forall address,
  ram_ok ram ->
  succeeds (fun l => length l = n /\ Forall (in_u 8) l) (fetch_block ram address n).
Proof.
  induction n as [|n IH]; intros address Hram; cbn [fetch_block]; [by apply succeeds_ok|].
  eapply succeeds_bind; [apply get_ok; [done|apply land_mask_range]|]. intros b Hb.
  eapply succeeds_bind; [by apply IH|]. intros rest [Hl Hr].
  apply succeeds_ok. split; [by cbn; rewrite Hl|by constructor].
Qed.

Lemma decode_block_at_ok ram address h :
  ram_ok ram -> Adpcm.history_ok h ->
  yields (fun b h' => Adpcm.block_ok b /\ Adpcm.history_ok h') (decode_block_at ram address h).
Proof.
  intros Hram Hh. unfold decode_block_at.
  destruct (fetch_block_ok ram 16 address Hram) as (block & -> & Hl & Hb).
  destruct (Adpcm.decode_block_total block h Hl Hb Hh) as (b & h' & -> & Hok).
  by apply yields_ok.
Qed.

(** ** Voices *)

(** Rebuild a voice's invariant after some fields changed. *)
Ltac voice_fields :=
  lazymatch goal with
  | H : voice_ok _ |- voice_ok _ =>
      destruct H; split; cbn [modify volume_left volume_right pitch start_address adsr_low
        adsr_high repeat_address current_address current_block_address envelope history
        pitch_counter decoded decoded_flags prepared sample_index decoded_valid active
        from_option] in *; try done
  end.

Section weights.
Context (weights : Z -> list Z).
Context (weights_ok : forall p, length (weights p) = 4%nat /\ Forall i16 (weights p)).

Lemma voice_key_on_ok v : voice_ok v -> voice_ok (Voice.key_on v).
Proof.
  intros Hv. pose proof (times8_range _ (start_ok v Hv)) as Hs. unfold Voice.key_on.
  voice_fields; first [apply Adsr.key_on_ok|apply Adpcm.default_history_ok].
Qed.

Lemma voice_key_off_ok v : voice_ok v -> voice_ok (Voice.key_off v).
Proof. intros Hv. unfold Voice.key_off. voice_fields; by apply Adsr.key_off_ok. Qed.

Lemma apply_envelope_ok sample v :
  voice_ok v ->
  yields (fun out v' => i16 out /\ voice_ok v') (Voice.apply_envelope sample v).
Proof.
  intros Hv. pose proof (envelope_ok v Hv) as He. unfold Voice.apply_envelope.
  pose proof (Adsr.from_registers_ok (adsr_low v) (adsr_high v)) as Hc. cbn zeta.
  rewrite (Adsr.advance_clock _ Hc 1) by (done || lia).
  pose proof (Adsr.iterate_clock_ok _ Hc (Z.to_nat 1) (envelope v) He) as He'.
  set (e := iterate _ _ _) in *. cbn zeta. apply yields_ok. split; [apply clamp_i16_range|].
  assert (voice_ok (v <| envelope := e |>)) as Hv' by voice_fields.
  case_bool_decide; [|done]. set (v' := v <| envelope := e |>) in *. voice_fields.
Qed.

Lemma window_sample_ok v relative :
  voice_ok v -> 0 <= relative < 4 -> succeeds i16 (Voice.window_sample v relative).
Proof.
  intros Hv Hr. unfold Voice.window_sample. pose proof (decoded_range v Hv) as Hd.
  rewrite Forall_forall in Hd.
  destruct (decoded v !! Z.to_nat _) as [s|] eqn:E.
  { apply succeeds_ok, Hd. by eapply list_elem_of_lookup_2. }
  pose proof (prepared_field v Hv) as Hp.
  destruct (prepared v) as [p|]; cbn [mbind option_bind].
  - destruct (samples (pb_decoded p) !! _) as [s|] eqn:Es.
    + apply succeeds_ok. destruct Hp as [_ [_ Hall] _]. rewrite Forall_forall in Hall.
      apply Hall. by eapply list_elem_of_lookup_2.
    + destruct (lookup_lt_is_Some_2 (decoded v) (Z.to_nat (Z.of_nat (length (decoded v)) - 1)))
        as [x Ex]; [rewrite (decoded_length v Hv); lia|].
      eapply succeeds_expect; [done|]. apply Hd. by eapply list_elem_of_lookup_2.
  - destruct (lookup_lt_is_Some_2 (decoded v) (Z.to_nat (Z.of_nat (length (decoded v)) - 1)))
      as [x Ex]; [rewrite (decoded_length v Hv); lia|].
    eapply succeeds_expect; [done|]. apply Hd. by eapply list_elem_of_lookup_2.
Qed.

Lemma window_ok v :
  voice_ok v ->
  succeeds (fun w => length w = 4%nat /\ Forall i16 w) (Voice.interpolation_window v).
Proof.
  intros Hv. unfold Voice.interpolation_window.
  do 4 (eapply succeeds_bind; [apply window_sample_ok; [done|lia]|]; intros ? ?).
  apply succeeds_ok. split; [done|]. by rewrite !Forall_cons, Forall_nil.
Qed.

Lemma next_block_ok v address :
  voice_ok v -> Voice.next_block_address v = Some address -> in_ram address.
Proof.
  intros Hv. unfold Voice.next_block_address. destruct (end_ _).
  - destruct (repeat_ _); [|done]. intros [= <-]. by apply times8_range, repeat_ok.
  - intros [= <-]. apply land_mask_range.
Qed.

Lemma install_block_ok address block v :
  voice_ok v -> in_ram address -> Adpcm.block_ok block ->
  yields (fun _ v' => voice_ok v' /\ decoded_valid v' = true)
    (Voice.install_block address block v).
Proof.
  intros Hv Ha [Hl Hs]. unfold Voice.install_block. cbn zeta.
  assert (u16 (address / 8)) as H8.
  { rewrite u16_bounds. rewrite size_value in Ha.
    assert (address / 8 < 65536) by (apply Z.div_lt_upper_bound; lia).
    assert (0 <= address / 8) by (apply Z.div_pos; lia). lia. }
  set (v1 := v <| decoded := _ |> <| decoded_flags := _ |> <| current_block_address := _ |>
               <| current_address := _ |>).
  assert (voice_ok v1) as Hv1 by (unfold v1; voice_fields).
  eapply (yields_bind (fun repeat v' => u16 repeat /\ v' = v1)).
  - destruct (loop_start _).
    + rewrite try_from_u_in by apply H8. by apply yields_ok.
    + apply yields_ok. split; [by apply repeat_ok|done].
  - intros repeat v' [Hr ->]. apply yields_ok. split; [|done]. voice_fields; lia.
Qed.

Lemma decode_current_ok ram v :
  ram_ok ram -> voice_ok v ->
  yields (fun a v' => in_ram a /\ voice_ok v' /\ decoded_valid v' = true)
    (Voice.decode_current ram v).
Proof.
  intros Hram Hv. unfold Voice.decode_current. cbn zeta.
  destruct (decode_block_at_ok ram (current_address v .& RAM_MASK) (history v) Hram
    (history_ok v Hv)) as (b & h' & -> & Hb & Hh).
  assert (voice_ok (v <| history := h' |>)) as Hv1 by voice_fields.
  eapply yields_bind; [apply install_block_ok; [done|apply land_mask_range|done]|].
  intros ? v' Hv'. apply yields_ok. split; [apply land_mask_range|done].
Qed.

Lemma prepare_next_ok ram v :
  ram_ok ram -> voice_ok v ->
  yields (fun a v' => from_option (fun a => in_ram a) True a /\ voice_ok v' /\
      decoded_valid v' = decoded_valid v)
    (Voice.prepare_next ram v).
Proof.
  intros Hram Hv. unfold Voice.prepare_next.
  destruct (prepared v) eqn:Ep; [by apply yields_ok|].
  destruct (Voice.next_block_address v) as [address|] eqn:En; [|by apply yields_ok].
  pose proof (next_block_ok v address Hv En) as Ha.
  destruct (decode_block_at_ok ram address (history v) Hram (history_ok v Hv))
    as (b & h' & -> & Hb & Hh). cbn zeta.
  apply yields_ok. split; [done|]. split; [|done].
  pose proof (history_ok v Hv). voice_fields.
Qed.

Lemma continue_at_ok address v :
  voice_ok v -> in_ram address -> yields (fun _ v' => voice_ok v') (Voice.continue_at address v).
Proof.
  intros Hv Ha. unfold Voice.continue_at. cbn zeta.
  assert (voice_ok (v <| current_address := address |>)) as Hv1 by voice_fields.
  set (v1 := v <| current_address := address |>) in *.
  pose proof (prepared_field v1 Hv1) as Hp.
  destruct (prepared v1) as [p|] eqn:Ep; [|by apply yields_ok].
  destruct Hp as [Hpa Hpb Hph].
  assert (voice_ok (v1 <| prepared := None |>)) as Hv2 by voice_fields.
  destruct (_ =? _).
  - eapply yields_mono; [by apply install_block_ok|]. tauto.
  - apply yields_ok. set (v2 := v1 <| prepared := None |>) in *. voice_fields.
Qed.

(** The index has run to the end of the block. *)
Lemma finish_block_ok v :
  voice_ok (v <| sample_index := 0 |>) -> yields (fun _ v' => voice_ok v') (Voice.finish_block v).
Proof.
  intros Hv. unfold Voice.finish_block. cbn zeta.
  pose proof (times8_range _ (repeat_ok _ Hv)) as Hrep.
  assert (voice_ok (v <| decoded_valid := false |> <| sample_index := 0 |>)) as Hv1
    by voice_fields.
  set (v1 := v <| decoded_valid := false |> <| sample_index := 0 |>) in *.
  destruct (_ && _).
  - apply yields_ok. voice_fields; apply Adsr.new_ok.
  - eapply yields_bind; [apply continue_at_ok; [done|]|].
    + destruct (end_ _); [done|apply land_mask_range].
    + intros ? v' Hv'. by apply yields_ok.
Qed.

Lemma step_samples_ok ram n : forall last ended v,
  ram_ok ram -> voice_ok v -> from_option (fun a => in_ram a) True last ->
  yields (fun p v' => from_option (fun a => in_ram a) True p.1.1 /\ voice_ok v')
    (Voice.step_samples n ram last ended v).
Proof.
  induction n as [|n IH]; intros last ended v Hram Hv Hl; cbn [Voice.step_samples];
    [by apply yields_ok|].
  assert (voice_ok (v <| sample_index := 0 |>)) as Hv0 by (voice_fields; lia).
  change (length (decoded (v <| sample_index := sample_index v + 1 |>))) with (length (decoded v)).
  rewrite (decoded_length v Hv). cbn zeta.
  change (sample_index (v <| sample_index := sample_index v + 1 |>)) with (sample_index v + 1).
  destruct (Z.eqb_spec (sample_index v + 1) (Z.of_nat 28)) as [E|E].
  - eapply yields_bind; [by apply finish_block_ok|]. intros stopped v' Hv'.
    destruct stopped; [by apply yields_ok|].
    destruct (decoded_valid v'); [by apply IH|].
    eapply yields_bind; [by apply decode_current_ok|]. intros a v2 (Ha & Hv2 & _).
    by apply IH.
  - apply IH; [done| |done]. pose proof (index_ok v Hv). clear Hv0. voice_fields; lia.
Qed.

Notation fetched_ok o := (from_option (fun a => in_ram a) True o).

Lemma render_source_ok ram effective v :
  ram_ok ram -> voice_ok v -> 0 <= effective ->
  yields (fun p v' => i16 p.1.1 /\ fetched_ok p.1.2 /\ voice_ok v')
    (Voice.render_source weights ram effective v).
Proof using weights_ok.
  intros Hram Hv Hp. unfold Voice.render_source.
  eapply (yields_bind (fun last v' => fetched_ok last /\ voice_ok v')).
  { destruct (decoded_valid v); [by apply yields_ok|].
    eapply yields_bind; [by apply decode_current_ok|]. intros a v' (Ha & Hv' & _).
    by apply yields_ok. }
  intros last v1 [Hl1 Hv1].
  eapply (yields_bind (fun last v' => fetched_ok last /\ voice_ok v')).
  { destruct (_ <=? _); [|by apply yields_ok].
    eapply yields_bind; [by apply prepare_next_ok|]. intros a v' (Ha & Hv' & _).
    apply yields_ok. by destruct a. }
  intros last2 v2 [Hl2 Hv2]. cbn zeta.
  destruct (window_ok v2 Hv2) as (w & -> & Hwl & Hw).
  destruct (interpolate_ok weights weights_ok w (Z.shiftr (phase (pitch_counter v2)) 4 .& 0xff) Hwl Hw)
    as (sample & -> & Hs).
  pose proof (pitch_advance effective (pitch_counter v2) Hp (counter_ok v2 Hv2)) as Hadv.
  destruct (PitchCounter.advance effective (pitch_counter v2)) as [step counter].
  destruct Hadv as (_ & Hc & _ & _). cbn zeta.
  assert (voice_ok (v2 <| pitch_counter := counter |>)) as Hv4 by voice_fields.
  eapply yields_bind; [by apply step_samples_ok|]. intros p v5 [Hf Hv5].
  by apply yields_ok.
Qed.

Lemma voice_render_ok ram effective noise_sample v :
  ram_ok ram -> voice_ok v -> 0 <= effective -> from_option i16 True noise_sample ->
  yields (fun out v' => i16 (dry out) /\ fetched_ok (fetched out) /\ voice_ok v')
    (Voice.render weights ram effective noise_sample v).
Proof using weights_ok.
  intros Hram Hv Hp Hn. unfold Voice.render. destruct (negb _).
  { apply yields_ok. split; [by apply i16_bounds|done]. }
  eapply (yields_bind (fun p v' => i16 p.1.1 /\ fetched_ok p.1.2 /\ voice_ok v')).
  { destruct noise_sample; [by apply yields_ok|by apply render_source_ok]. }
  intros src v1 (Hs & Hf & Hv1).
  eapply yields_bind; [by apply apply_envelope_ok|]. intros out v2 [Ho Hv2].
  by apply yields_ok.
Qed.
End weights.

(** ** The unit *)

Record spu_ok (s : Spu) : Prop := {
  spu_ram_ok : ram_ok (spu_ram s);
  voices_ok : length (voices s) = VOICE_COUNT /\ Forall voice_ok (voices s);
  volumes_ok : Forall u16 [main_volume_left s; main_volume_right s; reverb_volume_left s;
    reverb_volume_right s; cd_volume_left s; cd_volume_right s; external_volume_left s;
    external_volume_right s];
  masks_ok : Forall (in_u 32) [pitch_mod_mask s; noise_mask s; reverb_mask s; endx s];
  halves_ok : Forall u16 [unknown_da0 s; reverb_base s; irq_address s; control s;
    transfer_control s; spu_status s; unknown_dbc s; unknown_dbe s];
  transfer_ok : in_ram (transfer_address_ s);
  reverb_registers_ok : registers_ok (reverb_registers s);
  reverb_field : reverb_ok (reverb s);
  noise_ok : u16 (state (noise s));
}.

Ltac spu_fields :=
  lazymatch goal with
  | H : spu_ok _ |- spu_ok _ =>
      destruct H as [? ? Hvol Hmask Hhalf ? ? ? ?]; split;
      first [assumption
            | rewrite !Forall_cons in Hvol; rewrite !Forall_cons in Hmask;
              rewrite !Forall_cons in Hhalf; rewrite ?Forall_cons; cbn [modify spu_ram voices
                main_volume_left main_volume_right
                reverb_volume_left reverb_volume_right pitch_mod_mask noise_mask reverb_mask endx
                unknown_da0 reverb_base irq_address transfer_address_ control transfer_control
                spu_status cd_volume_left cd_volume_right external_volume_left
                external_volume_right unknown_dbc unknown_dbe reverb_registers reverb irq_request
                noise]; try tauto]
  end.

Lemma spu_new_ok : spu_ok Spu.new.
Proof.
  assert (u16 0) as H0 by by apply u16_bounds.
  assert (in_u 32 0) as H1 by (unfold in_u; lia).
  split; cbn [Spu.new spu_ram voices main_volume_left main_volume_right
        reverb_volume_left reverb_volume_right pitch_mod_mask noise_mask reverb_mask endx
        unknown_da0 reverb_base irq_address transfer_address_ control transfer_control
        spu_status cd_volume_left cd_volume_right external_volume_left external_volume_right
        unknown_dbc unknown_dbe reverb_registers reverb irq_request noise];
    rewrite ?Forall_cons, ?Forall_nil; try done.
  - split; [done|apply Forall_replicate, default_voice_ok].
  - split; [done|by apply Forall_replicate].
  - apply reverb_new_ok.
Qed.

Section weights.
Context (weights : Z -> list Z).
Context (weights_ok : forall p, length (weights p) = 4%nat /\ Forall i16 (weights p)).

Lemma next_bounds s : u16 s -> u16 (NoiseGenerator.next s).
Proof. apply Noise.next_u16. Qed.

Lemma modulated_range base previous :
  0 <= modulated_pitch base previous.
Proof.
  unfold modulated_pitch. rewrite try_from_u_in; [cbn; lia|]. change (2 ^ 16) with 65536. lia.
Qed.

Lemma check_irq_ok address s : spu_ok s -> spu_ok (Spu.check_irq_address address s).
Proof.
  intros Hs. unfold Spu.check_irq_address. destruct (_ && _); [|done].
  assert (u16 (spu_status s .| STATUS_IRQ)) as Hst.
  { pose proof (halves_ok s Hs) as Hh. rewrite !Forall_cons in Hh.
    apply in_u_lor; [lia|tauto|by apply u16_bounds]. }
  spu_fields.
Qed.

Lemma check_irq_ram address s : spu_ram (Spu.check_irq_address address s) = spu_ram s.
Proof. unfold Spu.check_irq_address. by destruct (_ && _). Qed.

Lemma check_irq_base address s :
  reverb_base (Spu.check_irq_address address s) = reverb_base s.
Proof. unfold Spu.check_irq_address. by destruct (_ && _). Qed.

Lemma check_fetch_ok address s : spu_ok s -> spu_ok (Spu.check_irq_fetch address s).
Proof. intros. by do 2 apply check_irq_ok. Qed.

Lemma check_fetch_ram address s : spu_ram (Spu.check_irq_fetch address s) = spu_ram s.
Proof. unfold Spu.check_irq_fetch. by rewrite !check_irq_ram. Qed.

Lemma check_fetch_base address s :
  reverb_base (Spu.check_irq_fetch address s) = reverb_base s.
Proof. unfold Spu.check_irq_fetch. by rewrite !check_irq_base. Qed.

Lemma render_voice_ok index m s :
  spu_ok s -> 0 <= index < 24 ->
  yields (fun _ s' => spu_ok s' /\ spu_ram s' = spu_ram s /\ reverb_base s' = reverb_base s)
    (Spu.render_voice weights index m s).
Proof using weights_ok.
  intros Hs Hi. unfold Spu.render_voice. destruct (voices_ok s Hs) as [Hl Hv].
  destruct (lookup_lt_is_Some_2 (voices s) (Z.to_nat index)) as [v Ev].
  { rewrite Hl. unfold VOICE_COUNT. lia. }
  rewrite Ev. assert (voice_ok v) as Hvo.
  { rewrite Forall_forall in Hv. apply Hv. by eapply list_elem_of_lookup_2. }
  cbn zeta. set (effective := if _ && _ then _ else pitch v).
  assert (0 <= effective) as Heff.
  { unfold effective. destruct (_ && _); [apply modulated_range|by apply pitch_ok]. }
  clearbody effective. set (bit := shl 32 1 index).
  assert (exists ns g, (if has_bits (noise_mask s) bit then
      let (sample, g) := NoiseGenerator.step (noise s) in (Some sample, s <| noise := g |>)
      else (None, s)) = (ns, s <| noise := g |>) /\ from_option i16 True ns /\ u16 (state g))
    as (ns & g & -> & Hns & Hg).
  { pose proof (noise_ok s Hs) as Hn. destruct (has_bits _ _).
    - exists (Some (to_i 16 (NoiseGenerator.next (state (noise s))))),
        (mkNoise (NoiseGenerator.next (state (noise s)))). split; [done|].
      pose proof (next_bounds _ Hn). split; [|done]. by apply to_i_range.
    - exists None, (noise s). split; [by destruct s|done]. }
  assert (spu_ok (s <| noise := g |>)) as Hs1 by spu_fields.
  set (s1 := s <| noise := g |>) in *. change (spu_ram s) with (spu_ram s1).
  change (reverb_base s) with (reverb_base s1). change (reverb_mask s) with (reverb_mask s1).
  assert (voices s1 = voices s) as Evs by done. clearbody s1.
  destruct (voice_render_ok weights weights_ok (spu_ram s1) effective ns v (spu_ram_ok s1 Hs1)
    Hvo Heff Hns) as (out & v' & -> & Hd & Hf & Hv'). cbn [map_err].
  assert (spu_ok (s1 <| voices := <[Z.to_nat index := v']> (voices s1) |>)) as Hs2.
  { pose proof (voices_ok s1 Hs1) as [Hl1 Hv1].
    assert (length (<[Z.to_nat index := v']> (voices s1)) = VOICE_COUNT) by by rewrite length_insert.
    assert (Forall voice_ok (<[Z.to_nat index := v']> (voices s1))) by by apply Forall_insert.
    spu_fields. }
  set (s2 := s1 <| voices := _ |>) in *. change (spu_ram s1) with (spu_ram s2).
  change (reverb_base s1) with (reverb_base s2). clearbody s2.
  set (s3 := match fetched out with Some _ => _ | None => s2 end).
  assert (spu_ok s3 /\ spu_ram s3 = spu_ram s2 /\ reverb_base s3 = reverb_base s2) as (Hs3 & Er & Eb).
  { unfold s3. destruct (fetched out); [|done].
    split; [by apply check_fetch_ok|]. split; [apply check_fetch_ram|apply check_fetch_base]. }
  clearbody s3. apply yields_ok. rewrite <- Er, <- Eb. destruct (loop_end out); [|done].
  split; [|done]. assert (in_u 32 (endx s3 .| bit)).
  { pose proof (masks_ok s3 Hs3) as Hm. rewrite !Forall_cons in Hm.
    apply in_u_lor; [lia|tauto|by apply in_u_shl]. }
  spu_fields.
Qed.

Lemma render_voices_ok n : forall index m s,
  spu_ok s -> 0 <= index -> index + Z.of_nat n <= 24 ->
  yields (fun _ s' => spu_ok s' /\ spu_ram s' = spu_ram s /\ reverb_base s' = reverb_base s)
    (Spu.render_voices weights index n m s).
Proof using weights_ok.
  induction n as [|n IH]; intros index m s Hs Hi Hn; cbn [Spu.render_voices]; [by apply yields_ok|].
  eapply yields_bind; [apply render_voice_ok; [done|lia]|]. intros m' s' (Hs' & Er & Eb).
  rewrite <- Er, <- Eb. apply IH; [done|lia|lia].
Qed.

(** The work area starts at [reverb_base]; nothing below it is written. *)
Notation confined s s' := (same_below (reverb_base s * 8) (spu_ram s) (spu_ram s')).

Lemma render_frame_ok s :
  spu_ok s ->
  yields (fun p s' => i16 p.1 /\ i16 p.2 /\ spu_ok s' /\
      reverb_base s' = reverb_base s /\ confined s s')
    (Spu.render_frame weights s).
Proof using weights_ok.
  intros Hs. unfold Spu.render_frame. destruct (negb _).
  { apply yields_ok. cbn [fst snd]. by rewrite i16_bounds. }
  eapply yields_bind; [apply render_voices_ok; [done|lia|by vm_compute]|].
  intros m s1 (Hs1 & Er & Eb). rewrite <- Er, <- Eb. clear Er Eb Hs s.
  assert (u16 (reverb_base s1)) as Hb.
  { pose proof (halves_ok s1 Hs1) as Hh. rewrite !Forall_cons in Hh. tauto. }
  destruct (process_ok (E := SpuError) (spu_ram s1) (reverb_base s1) (reverb_registers s1)
    (has_bits (control s1) CONTROL_REVERB_ENABLE)
    (clamp_i64_to_i16 (Spu.wet_left m), clamp_i64_to_i16 (Spu.wet_right m)) (reverb s1))
    as ([[wet ram'] rv] & -> & Hw1 & Hw2 & Hram & Hsame & Hrv);
    [by apply reverb_field|by apply spu_ram_ok|done|by apply reverb_registers_ok
    |apply clamp_i64_range..|].
  cbn [fst snd] in *. cbn zeta. apply yields_ok. cbn [fst snd].
  split_and!; [apply clamp_i16_range..| |done|done]. spu_fields.
Qed.

Lemma render_frames_ok n : forall s,
  spu_ok s ->
  yields (fun out s' => length out = (2 * n)%nat /\ Forall i16 out /\ spu_ok s' /\
      reverb_base s' = reverb_base s /\ confined s s')
    (Spu.render_frames weights n s).
Proof using weights_ok.
  induction n as [|n IH]; intros s Hs; cbn [Spu.render_frames]; [by apply yields_ok|].
  eapply yields_bind; [by apply render_frame_ok|].
  intros [l r] s1 (Hl & Hr & Hs1 & Eb & Hc). cbn [fst snd] in *.
  eapply yields_bind; [by apply IH|]. intros rest s2 (Hlen & Hall & Hs2 & Eb2 & Hc2).
  apply yields_ok. split_and!; try done.
  - cbn [length]. lia.
  - by repeat (apply Forall_cons; split; [done|]).
  - congruence.
  - rewrite Eb in Hc2. by eapply same_below_trans.
Qed.

(** C10: Rendering always succeeds: whatever the registers, the voices and the sound
    RAM hold, a buffer of the right size is filled with signed sixteen-bit samples
    without an ADPCM failure, an overflow or an access outside an array, the
    unit stays well formed, and sound RAM below the reverb work area is not
    touched.  A buffer of another size is refused and nothing changes. *)
Theorem spu_render_total frames output_len s :
  spu_ok s -> 0 <= frames -> frames * 2 < 2 ^ 64 ->
  if output_len =? frames * 2 then
    yields (fun out s' => Z.of_nat (length out) = output_len /\ Forall i16 out /\
        spu_ok s' /\ confined s s')
      (Spu.render weights frames output_len s)
  else Spu.render weights frames output_len s
       = (Err (OutputSize (frames * 2) output_len), s).
Proof using weights_ok.
  intros Hs Hf Hm. unfold Spu.render.
  rewrite (proj2 (checked_mul_u_Some 64 frames 2 _)) by done.
  destruct (Z.eqb_spec output_len (frames * 2)) as [->|]; [|done]. cbn [negb].
  eapply yields_mono; [by apply render_frames_ok|].
  intros out s' (Hl & Ha & Hs' & _ & Hc). split_and!; try done. lia.
Qed.
End weights.

(** ** The register file *)

(** [s] answers with a halfword or refuses. *)
Definition reads_u16 (r : outcome SpuError Z) : Prop := no_panic r /\ forall v, r = Ok v -> u16 v.

Lemma reads_ok v : u16 v -> reads_u16 (Ok v).
Proof. intros Hv. split; [done|]. by intros ? [= <-]. Qed.

Lemma u16_land_ffff v : u16 (v .& 0xffff).
Proof. change 0xffff with (Z.ones 16). rewrite Z.land_ones by lia. by apply Z.mod_pos_bound. Qed.

Lemma u16_zero : u16 0.
Proof. by apply u16_bounds. Qed.

Lemma even_lookup {A} (l : list A) n i :
  length l = n -> 0 <= i < Z.of_nat n -> exists x, l !! Z.to_nat i = Some x.
Proof. intros Hl Hi. apply (lookup_lt_is_Some_2 l). lia. Qed.

Definition valid_register (address : Z) : Prop :=
  SPU_BASE <= address <= SPU_END /\ address mod 2 = 0.

#[export] Instance valid_register_dec address : Decision (valid_register address).
Proof. unfold valid_register. apply _. Defined.

Lemma ensure_register_spec address :
  0 <= address ->
  ensure_register address =
  if decide (valid_register address) then Ok tt else Err (InvalidRegister address).
Proof.
  intros Ha. unfold ensure_register, valid_register.
  assert (has_bits address 1 = negb (address mod 2 =? 0)) as ->.
  { unfold has_bits. change 1 with (Z.ones 1) at 1. by rewrite Z.land_ones by lia. }
  destruct (Z.leb_spec SPU_BASE address), (Z.leb_spec address SPU_END),
    (Z.eqb_spec (address mod 2) 0); cbn [negb andb orb]; case_decide; (done || lia).
Qed.

Lemma voice_address address :
  valid_register address -> address < VOICE_REGISTER_END ->
  0 <= (decode_voice_register address).1 < 24 /\
  exists k, 0 <= k < 8 /\ (decode_voice_register address).2 = 2 * k.
Proof.
  unfold valid_register, VOICE_REGISTER_END, decode_voice_register, SPU_BASE, SPU_END, VOICE_STRIDE.
  intros [Hr He] Hv. cbn [fst snd].
  pose proof (Z.div_mod (address - 0x1f801c00) 16 ltac:(lia)).
  pose proof (Z.mod_pos_bound (address - 0x1f801c00) 16 ltac:(lia)).
  pose proof (Z.div_mod address 2 ltac:(lia)).
  split; [lia|]. exists ((address - 0x1f801c00) mod 16 / 2).
  pose proof (Z.div_mod ((address - 0x1f801c00) mod 16) 2 ltac:(lia)).
  pose proof (Z.mod_pos_bound ((address - 0x1f801c00) mod 16) 2 ltac:(lia)).
  lia.
Qed.

Lemma reverb_address address :
  REVERB_REGISTERS_START <= address <= SPU_END -> 0 <= reverb_index address < 32.
Proof.
  unfold REVERB_REGISTERS_START, SPU_END, reverb_index. intros H.
  split; [apply Z.div_pos; unfold REVERB_REGISTERS_START; lia|].
  apply Z.div_lt_upper_bound; unfold REVERB_REGISTERS_START; lia.
Qed.

Lemma read_voice_ok address s :
  spu_ok s -> valid_register address -> address < VOICE_REGISTER_END ->
  succeeds u16 (Spu.read_voice_register address s).
Proof.
  intros Hs Ha Hv. destruct (voice_address address Ha Hv) as [Hi (k & Hk & Hr)].
  unfold Spu.read_voice_register. destruct (decode_voice_register address) as [i reg].
  cbn [fst snd] in *. destruct (voices_ok s Hs) as [Hl Hall].
  destruct (even_lookup _ _ i Hl Hi) as [v Ev]. rewrite Ev. cbn [expect obind].
  rewrite Forall_forall in Hall. specialize (Hall v ltac:(by eapply list_elem_of_lookup_2)).
  destruct Hall. destruct (envelope_ok0) as [Hlevel _].
  assert (k = 0 \/ k = 1 \/ k = 2 \/ k = 3 \/ k = 4 \/ k = 5 \/ k = 6 \/ k = 7) as Hk' by lia.
  destruct Hk' as [-> | [-> | [-> | [-> | [-> | [-> | [-> | ->]]]]]]]; subst reg;
    apply succeeds_ok; cbn; rewrite ?u16_bounds in *; lia.
Qed.

(** Walk down a chain of address tests; [tac] closes each branch. *)
Ltac register_chain tac :=
  repeat lazymatch goal with
  | |- context [if ?b then _ else _] => destruct b eqn:?; [solve [tac]|]
  end.

(** Every even address from the end of the voices to the reverb registers. *)
Lemma global_registers address :
  VOICE_REGISTER_END <= address < REVERB_REGISTERS_START -> address mod 2 = 0 ->
  exists k, address = VOICE_REGISTER_END + 2 * Z.of_nat k /\ (k < 32)%nat.
Proof.
  unfold VOICE_REGISTER_END, REVERB_REGISTERS_START, SPU_BASE. intros Hr He.
  pose proof (Z.div_mod address 2 ltac:(lia)).
  exists (Z.to_nat ((address - 0x1f801d80) / 2)).
  pose proof (Z.div_mod (address - 0x1f801d80) 2 ltac:(lia)).
  pose proof (Z.mod_pos_bound (address - 0x1f801d80) 2 ltac:(lia)). lia.
Qed.

Lemma read_global_ok address s :
  spu_ok s -> valid_register address -> VOICE_REGISTER_END <= address ->
  if address =? TRANSFER_FIFO then Spu.read_global_register address s = Err (InvalidRegister address)
  else succeeds u16 (Spu.read_global_register address s).
Proof.
  intros Hs [Ha He] Hv. destruct (Z.eqb_spec address TRANSFER_FIFO) as [->|Hne]; [done|].
  unfold Spu.read_global_register.
  pose proof (volumes_ok s Hs) as Hvol. rewrite !Forall_cons in Hvol.
  pose proof (halves_ok s Hs) as Hh. rewrite !Forall_cons in Hh.
  pose proof (transfer_ok s Hs) as Ht. rewrite size_value in Ht.
  assert (u16 (transfer_address_ s / 8)) as Hdiv.
  { rewrite u16_bounds. assert (transfer_address_ s / 8 < 65536) by (apply Z.div_lt_upper_bound; lia).
    assert (0 <= transfer_address_ s / 8) by (apply Z.div_pos; lia). lia. }
  destruct_and!.
  rewrite (try_from_u_in 16 (transfer_address_ s / 8)) by apply Hdiv. cbn [from_option id].
  register_chain ltac:(apply succeeds_ok;
      first [assumption | exact u16_zero | apply u16_land_ffff]).
  destruct (_ && _) eqn:Er.
  - apply andb_true_iff in Er as [Hlo%Z.leb_le Hhi%Z.leb_le].
    destruct (reverb_registers_ok s Hs) as [Hl Hall].
    destruct (even_lookup _ _ (reverb_index address) Hl (reverb_address address (conj Hlo Hhi)))
      as [x Ex].
    rewrite Ex. apply succeeds_ok. rewrite Forall_forall in Hall. apply Hall.
    by eapply list_elem_of_lookup_2.
  - exfalso. assert (VOICE_REGISTER_END <= address < REVERB_REGISTERS_START) as Hrange.
    { split; [done|]. apply andb_false_iff in Er as [Er%Z.leb_gt | Er%Z.leb_gt]; [done|].
      exfalso. apply (Z.lt_irrefl address). by eapply Z.le_lt_trans. }
    destruct (global_registers address Hrange He) as (k & -> & Hk).
    do 32 (destruct k as [|k];
      [first [by apply Hne | match goal with H : _ = false |- _ => discriminate H end]|]).
    clear -Hk. lia.
Qed.

(** ** Writes *)

Definition writes_ok (r : outcome SpuError unit * Spu) : Prop := yields (fun _ s => spu_ok s) r.

Lemma write_voice_ok address value s :
  spu_ok s -> u16 value -> valid_register address -> address < VOICE_REGISTER_END ->
  writes_ok (Spu.write_voice_register address value s).
Proof.
  intros Hs Hval Ha Hv. destruct (voice_address address Ha Hv) as [Hi (k & Hk & Hr)].
  unfold Spu.write_voice_register. destruct (decode_voice_register address) as [i reg].
  cbn [fst snd] in *. destruct (voices_ok s Hs) as [Hl Hall].
  destruct (even_lookup _ _ i Hl Hi) as [v Ev]. rewrite Ev.
  assert (voice_ok v) as Hvo.
  { rewrite Forall_forall in Hall. apply Hall. by eapply list_elem_of_lookup_2. }
  assert (exists v', set_voice_register reg value v = Some v' /\ voice_ok v') as (v' & -> & Hv').
  { assert (k = 0 \/ k = 1 \/ k = 2 \/ k = 3 \/ k = 4 \/ k = 5 \/ k = 6 \/ k = 7) as Hk' by lia.
    pose proof (proj1 (u16_bounds _) Hval).
    destruct Hk' as [-> | [-> | [-> | [-> | [-> | [-> | [-> | ->]]]]]]]; subst reg;
      (eexists; split; [reflexivity|]); [voice_fields; lia..|done|voice_fields; lia]. }
  assert (Forall voice_ok (<[Z.to_nat i := v']> (voices s))) by by apply Forall_insert.
  assert (length (<[Z.to_nat i := v']> (voices s)) = VOICE_COUNT) by by rewrite length_insert.
  apply yields_ok. spu_fields.
Qed.

Lemma bnot_nonneg x : 0 <= x -> 0 <= bnot 32 x.
Proof.
  intros Hx. unfold bnot. apply Z.lxor_nonneg. rewrite Z.ones_equiv.
  change (Z.pred (2 ^ 32)) with 4294967295. lia.
Qed.

Lemma key_on_from_ok vs : forall index mask e,
  Forall voice_ok vs -> in_u 32 e ->
  length (Spu.key_on_from index mask vs e).1 = length vs /\
  Forall voice_ok (Spu.key_on_from index mask vs e).1 /\
  in_u 32 (Spu.key_on_from index mask vs e).2.
Proof.
  induction vs as [|v vs IH]; intros index mask e Hv He; cbn [Spu.key_on_from]; [done|].
  apply Forall_cons in Hv as [Hv Hvs].
  set (hit := has_bits mask (Z.shiftl 1 index)).
  assert (in_u 32 (if hit then e .& bnot 32 (Z.shiftl 1 index) else e)) as He'.
  { destruct hit; [|done]. apply in_u_land_l; [|done]. apply bnot_nonneg, Z.shiftl_nonneg. lia. }
  specialize (IH (index + 1) mask _ Hvs He').
  destruct (Spu.key_on_from (index + 1) mask vs _) as [vs' e']. cbn [fst snd] in *.
  destruct IH as (Hl & Hall & Hu). split_and!; [by cbn; rewrite Hl| |done].
  apply Forall_cons. split; [|done]. destruct hit; [by apply voice_key_on_ok|done].
Qed.

Lemma spu_key_on_ok mask s : spu_ok s -> spu_ok (Spu.key_on mask s).
Proof.
  intros Hs. destruct (voices_ok s Hs) as [Hl Hv].
  pose proof (masks_ok s Hs) as Hm. rewrite !Forall_cons in Hm.
  destruct (key_on_from_ok (voices s) 0 mask (endx s) Hv ltac:(tauto)) as (Hl' & Hv' & He').
  unfold Spu.key_on. destruct (Spu.key_on_from 0 mask (voices s) (endx s)) as [vs e].
  cbn [fst snd] in *. rewrite Hl in Hl'. spu_fields.
Qed.

Lemma spu_key_off_ok mask s : spu_ok s -> spu_ok (Spu.key_off mask s).
Proof.
  intros Hs. destruct (voices_ok s Hs) as [Hl Hv]. unfold Spu.key_off.
  set (vs := imap _ _).
  assert (length vs = VOICE_COUNT) by by (unfold vs; rewrite length_imap).
  assert (Forall voice_ok vs).
  { apply Forall_lookup. intros i v. unfold vs. rewrite list_lookup_imap.
    destruct (voices s !! i) as [w|] eqn:E; [|done]. cbn. intros [= <-].
    rewrite Forall_lookup in Hv. specialize (Hv _ _ E).
    destruct (has_bits _ _); [by apply voice_key_off_ok|done]. }
  spu_fields.
Qed.

Lemma transfer_address_ok s address :
  spu_ok s -> in_ram address -> spu_ok (s <| transfer_address_ := address |>).
Proof. intros Hs Ha. spu_fields. Qed.

Lemma halfword_bytes value : u16 value -> in_u 8 (value mod 256) /\ in_u 8 (value / 256).
Proof.
  rewrite u16_bounds. intros Hv. unfold in_u. change (2 ^ 8) with 256. split.
  - apply Z.mod_pos_bound. lia.
  - split; [apply Z.div_pos; lia|apply Z.div_lt_upper_bound; lia].
Qed.

Lemma write_transfer_ok {E} value s :
  spu_ok s -> u16 value ->
  yields (fun _ s => spu_ok s) (Spu.write_transfer_halfword value s : outcome E unit * Spu).
Proof.
  intros Hs Hv. destruct (halfword_bytes value Hv) as [Hlow Hhigh].
  unfold Spu.write_transfer_halfword. cbn zeta.
  set (address := transfer_address_ s .& RAM_MASK).
  pose proof (check_irq_ok address s Hs) as Hs1. set (s1 := Spu.check_irq_address address s) in *.
  pose proof (spu_ram_ok s1 Hs1) as Hram.
  destruct (ram_set_ok (E := E) (spu_ram s1) address (value mod 256) 0 Hram)
    as (ram1 & E1 & Hram1 & _); [apply land_mask_range|lia|done|].
  destruct (Buffer.set (spu_ram s1) address (value mod 256)) as [ram1'|]; [|done].
  injection E1 as ->.
  destruct (ram_set_ok (E := E) ram1 ((address + 1) .& RAM_MASK) (value / 256) 0 Hram1)
    as (ram2 & E2 & Hram2 & _); [apply land_mask_range|lia|done|].
  destruct (Buffer.set ram1 ((address + 1) .& RAM_MASK) (value / 256)) as [ram2'|]; [|done].
  injection E2 as ->. apply yields_ok.
  pose proof (land_mask_range (address + 2)). spu_fields.
Qed.

Lemma read_transfer_ok {E} s :
  spu_ok s ->
  yields (fun v s => u16 v /\ spu_ok s) (Spu.read_transfer_halfword s : outcome E Z * Spu).
Proof.
  intros Hs. unfold Spu.read_transfer_halfword. cbn zeta.
  set (address := transfer_address_ s .& RAM_MASK).
  pose proof (check_irq_ok address s Hs) as Hs1. set (s1 := Spu.check_irq_address address s) in *.
  pose proof (spu_ram_ok s1 Hs1) as [Hl Hb]. pose proof (land_mask_range (transfer_address_ s)).
  pose proof (land_mask_range (address + 1)).
  rewrite !Buffer.get_in by (rewrite Hl; done). cbn [mbind option_bind].
  apply yields_ok. split; [apply from_le_2_u16; by apply Buffer.cell_u8|].
  apply transfer_address_ok; [done|apply land_mask_range].
Qed.

Lemma set_low_half_ok target value : in_u 32 target -> u16 value -> in_u 32 (set_low_half target value).
Proof.
  intros Ht Hv. unfold set_low_half. apply in_u_lor; [lia|apply in_u_land_l; [lia|done]|].
  eapply in_u_mono; [|done]. lia.
Qed.

Lemma set_high_half_ok target value : in_u 32 target -> in_u 32 (set_high_half target value).
Proof.
  intros Ht. unfold set_high_half.
  apply in_u_lor; [lia|apply in_u_land_l; [lia|done]|apply in_u_shl; lia].
Qed.

Lemma write_control_ok value s : spu_ok s -> u16 value -> spu_ok (Spu.write_control value s).
Proof.
  intros Hs Hv. unfold Spu.write_control. cbn zeta.
  assert (spu_ok (s <| control := value |>)) as Hs1 by spu_fields.
  set (s1 := s <| control := value |>) in *.
  destruct (has_bits _ _); [done|].
  assert (u16 (spu_status s1 .& bnot 16 STATUS_IRQ)) as Hst.
  { pose proof (halves_ok s1 Hs1) as Hh. rewrite !Forall_cons in Hh.
    apply in_u_land_bnot; [lia|tauto|by apply u16_bounds]. }
  spu_fields.
Qed.

Lemma write_reverb_ok address value s :
  spu_ok s -> u16 value -> REVERB_REGISTERS_START <= address <= SPU_END ->
  writes_ok (Spu.write_reverb_register (reverb_index address) value s).
Proof.
  intros Hs Hv Ha. unfold Spu.write_reverb_register.
  destruct (reverb_registers_ok s Hs) as [Hl Hall].
  destruct (even_lookup _ _ _ Hl (reverb_address address Ha)) as [x ->].
  assert (registers_ok (<[Z.to_nat (reverb_index address) := value]> (reverb_registers s))).
  { split; [by rewrite length_insert|by apply Forall_insert]. }
  apply yields_ok. spu_fields.
Qed.

Lemma write_global_ok address value s :
  spu_ok s -> u16 value -> valid_register address -> VOICE_REGISTER_END <= address ->
  writes_ok (Spu.write_global_register address value s).
Proof.
  intros Hs Hval [[Hlo Hhi] He] Hv. unfold Spu.write_global_register.
  pose proof (masks_ok s Hs) as Hm. rewrite !Forall_cons in Hm.
  destruct Hm as (Hm1 & Hm2 & Hm3 & Hm4 & _).
  pose proof (set_low_half_ok _ _ Hm1 Hval). pose proof (set_low_half_ok _ _ Hm2 Hval).
  pose proof (set_low_half_ok _ _ Hm3 Hval). pose proof (set_high_half_ok _ value Hm1).
  pose proof (set_high_half_ok _ value Hm2). pose proof (set_high_half_ok _ value Hm3).
  assert (in_u 32 (endx s .& bnot 32 value)).
  { apply in_u_land_l; [|done]. apply bnot_nonneg. by eapply in_u_nonneg. }
  assert (in_u 32 (endx s .& bnot 32 (shl 32 value 16))).
  { apply in_u_land_l; [|done]. apply bnot_nonneg. eapply in_u_nonneg, in_u_shl. lia. }
  pose proof (times8_range value Hval).
  pose proof (set_base_ok value (reverb s) Hval (reverb_field s Hs)).
  clear Hm1 Hm2 Hm3 Hm4. unfold writes_ok.
  register_chain ltac:(first
    [ apply yields_ok; first [exact Hs | apply spu_key_on_ok; exact Hs
        | apply spu_key_off_ok; exact Hs | apply write_control_ok; [exact Hs|exact Hval] | spu_fields]
    | apply write_transfer_ok; [exact Hs|exact Hval] ]).
  destruct (_ && _) eqn:Er.
  - apply andb_true_iff in Er as [Hl%Z.leb_le Hh%Z.leb_le]. by apply write_reverb_ok.
  - exfalso. assert (VOICE_REGISTER_END <= address < REVERB_REGISTERS_START) as Hrange.
    { split; [done|]. apply andb_false_iff in Er as [Er%Z.leb_gt | Er%Z.leb_gt]; [done|].
      exfalso. apply (Z.lt_irrefl address). by eapply Z.le_lt_trans. }
    destruct (global_registers address Hrange He) as (k & -> & Hk).
    do 32 (destruct k as [|k]; [match goal with H : _ = false |- _ => discriminate H end|]).
    clear -Hk. lia.
Qed.

Lemma register_access_ok address value s :
  spu_ok s -> 0 <= address -> u16 value ->
  (if decide (valid_register address /\ address <> TRANSFER_FIFO)
   then succeeds u16 (Spu.read_register address s)
   else Spu.read_register address s = Err (InvalidRegister address)) /\
  (if decide (valid_register address)
   then yields (fun _ s' => spu_ok s') (Spu.write_register address value s)
   else Spu.write_register address value s = (Err (InvalidRegister address), s)).
Proof.
  intros Hs Ha Hv. unfold Spu.read_register, Spu.write_register.
  rewrite (ensure_register_spec address Ha).
  destruct (decide (valid_register address)) as [Hr|Hr]; cbn [obind].
  - destruct (Z.ltb_spec address VOICE_REGISTER_END) as [Hlt|Hge].
    + rewrite decide_True.
      * split; [by apply read_voice_ok|by apply write_voice_ok].
      * split; [done|]. intros ->. by vm_compute in Hlt.
    + split; [|by apply write_global_ok].
      pose proof (read_global_ok address s Hs Hr Hge) as Hread.
      destruct (Z.eqb_spec address TRANSFER_FIFO) as [->|Hne].
      * rewrite decide_False by tauto. done.
      * by rewrite decide_True.
  - rewrite decide_False by tauto. done.
Qed.

(** Both accesses at any address. *)
Lemma spu_read_any address s :
  spu_ok s -> 0 <= address ->
  no_panic (Spu.read_register address s) /\
  forall v, Spu.read_register address s = Ok v -> u16 v.
Proof.
  intros Hs Ha. destruct (register_access_ok address 0 s Hs Ha u16_zero) as [Hr _].
  case_decide.
  - destruct Hr as (x & -> & Hx). split; [done|]. by intros ? [= <-].
  - by rewrite Hr.
Qed.

Lemma spu_write_any address value s :
  spu_ok s -> 0 <= address -> u16 value ->
  no_panic (Spu.write_register address value s).1 /\
  spu_ok (Spu.write_register address value s).2.
Proof.
  intros Hs Ha Hv. destruct (register_access_ok address value s Hs Ha Hv) as [_ Hw].
  case_decide.
  - by destruct Hw as (x & s' & -> & Hs').
  - by rewrite Hw.
Qed.

(** The SPU register file is typed and its errors are exact: on a well-formed
    unit every valid register (even, inside the window) except the write-only
    transfer FIFO reads as a halfword, every other read is refused with its address;
    a halfword written to a valid register leaves a well-formed unit, and any other
    write is refused and changes nothing. *)
Theorem spu_register_file address value s :
  spu_ok s -> 0 <= address -> u16 value ->
  (if decide (valid_register address /\ address <> TRANSFER_FIFO)
   then succeeds u16 (Spu.read_register address s)
   else Spu.read_register address s = Err (InvalidRegister address)) /\
  (if decide (valid_register address)
   then yields (fun _ s' => spu_ok s') (Spu.write_register address value s)
   else Spu.write_register address value s = (Err (InvalidRegister address), s)).
Proof. apply register_access_ok. Qed.

Lemma spu_register_file_witness :
  succeeds u16 (Spu.read_register CONTROL Spu.new) /\
  yields (fun _ s' => spu_ok s') (Spu.write_register KEY_ON_LOW 3 Spu.new).
Proof.
  assert (u16 3) as H3 by by apply u16_bounds.
  split.
  - exact (proj1 (spu_register_file CONTROL 3 Spu.new spu_new_ok ltac:(by vm_compute) H3)).
  - exact (proj2 (spu_register_file KEY_ON_LOW 3 Spu.new spu_new_ok ltac:(by vm_compute) H3)).
Defined.

(** A concrete weight table: the sample at the window's end. *)
Definition last_tap (p : Z) : list Z := [0; 0; 0; 0x7fff].

Lemma spu_render_total_witness :
  yields (fun out s' => Z.of_nat (length out) = 8) (Spu.render last_tap 4 8 Spu.new).
Proof.
  assert (forall p, length (last_tap p) = 4%nat /\ Forall i16 (last_tap p)) as Hw.
  { intros p. split; [done|]. unfold last_tap. rewrite !Forall_cons, Forall_nil, !i16_bounds. lia. }
  destruct (spu_render_total last_tap Hw 4 8 Spu.new spu_new_ok ltac:(lia) ltac:(by vm_compute))
    as (out & s' & E & Hl & _).
  exists out, s'. exact (conj E Hl).
Defined.
