(* ===== verification/Ps1Bus.v ===== *)
(** * The PS1 machine's bus: crates/machine/ps1/src/lib.rs

    [MachineBus] routes the processor's accesses by physical region to memory and to
    the devices, narrows and widens them, and merges partial writes of wide
    registers.  It is the [Bus] instance the interpreter runs on in the machine. *)

From S2P Require Import Prelude Records MachineInt Clock Scheduler Buffer.
From S2P Require Import Ps1Irq Ps1Timers PsxExe Ps1Memory Ps1Dma Ps1Ports SpuCommon Ps1Reverb Ps1Spu.
From S2P Require Import R3000.

Definition TIMER_END : Z := TIMER_BASE + 0x28.
Definition BIOS_KERNEL_PADDING_WORD : Z := 0x1fc000fc.
Definition BIOS_KERNEL_NAME_WORD : Z := 0x1fc0012c.
Definition BIOS_KERNEL_NAME_VALUE : Z := 0x2d584543.
Definition BIOS_KERNEL_CODE_WORD : Z := 0x1fc01000.
Definition BIOS_KERNEL_CODE_VALUE : Z := 0x26730004.
Definition BIOS_REGION_BYTE : Z := 0x1fc7ff52.

(** ** Diagnostics *)

Definition labelled (text : string) (address : Z) : string := String.append text (hex8 address).

#[export] Instance display_memory_error : Display MemoryError := fun e =>
  match e with
  | UnsupportedSegment a => labelled "unsupported virtual segment at " a
  | UnsupportedAddressWidth a => labelled "physical address does not fit host pointer width at " a
  | Mmio_error a => labelled "MMIO access at " a
  | HleRom_error a => labelled "unmodeled HLE-only ROM access at " a
  | Unmapped_error a => labelled "unmapped access at " a
  | CrossesBoundary a => labelled "access crosses a memory-region boundary at " a
  | InvalidImageSize actual =>
      String.append "invalid executable RAM image size " (decimal actual)
  end.

#[export] Instance display_irq_error : Display IrqError := fun e =>
  match e with
  | Ps1Irq.InvalidRegister a => labelled "invalid PS1 interrupt register address " a
  end.

#[export] Instance display_timer_error : Display TimerError := fun e =>
  match e with
  | TimerInvalidRegister a => labelled "invalid PS1 timer register address " a
  | Ps1Timers.ClockOverflow => "PS1 timer clock overflow"
  end.

#[export] Instance display_dma_error : Display DmaError := fun e =>
  match e with
  | Ps1Dma.InvalidRegister a => labelled "invalid PS1 DMA register address " a
  | UnsupportedSync mode =>
      String.append "unsupported DMA channel 4 synchronization mode " (decimal mode)
  | TransferTooLarge words =>
      String.append "DMA transfer of " (String.append (decimal words) " words exceeds emulated RAM")
  | Ps1Dma.RamRange base words decrement =>
      String.append "DMA transfer range leaves RAM: base " (String.append (hex8 base)
        (String.append ", " (String.append (decimal words) (String.append " words, decrement="
          (if decrement then "true" else "false")))))
  | StaleEvent => "stale DMA completion event"
  | Endpoint e => String.append "DMA endpoint failure: " (ee_message e)
  | MdecDirection => "MDEC input DMA direction is device-to-RAM"
  | UnsupportedMdecSync mode =>
      String.append "unsupported MDEC input DMA synchronization mode " (decimal mode)
  | SchedulerFailure => "DMA scheduler failure"
  | Ps1Dma.ClockOverflow => "DMA timing overflow"
  end.

(** The ADPCM diagnostic, which the SPU prefixes. *)
#[export] Instance display_adpcm_error : Display AdpcmError := fun e =>
  match e with
  | InvalidShift shift => String.append "invalid PlayStation ADPCM shift " (decimal shift)
  end.

#[export] Instance display_spu_error : Display SpuError := fun e =>
  match e with
  | Ps1Spu.InvalidRegister a => labelled "invalid PS1 SPU register address " a
  | Ps1Spu.RamRange offset size =>
      String.append "sound RAM range " (String.append (hex offset) (String.append "+"
        (String.append (hex size) " is outside 512 KiB")))
  | OutputSize expected actual =>
      String.append "output has " (String.append (decimal actual)
        (String.append " samples, expected " (decimal expected)))
  | Adpcm voice address source =>
      String.append "voice " (String.append (decimal voice)
        (String.append " ADPCM failure at sound RAM " (String.append (hex address)
          (String.append ": " (to_string source)))))
  end.

Definition bus_fault {E} `{Display E} (error : E) : BusFault := mkBusFault (to_string error).

Definition unmodeled_read (address : Z) : BusFault :=
  mkBusFault (labelled "unmodeled PS1 MMIO read at " address).
Definition unmodeled_write (address : Z) : BusFault :=
  mkBusFault (labelled "unmodeled PS1 MMIO write at " address).

(** ** The bus *)

Record MachineBus := mkMachineBus {
  memory : Ps1Memory;
  cdrom : CdRom;
  gpu : Gpu;
  mdec : Mdec;
  irq : InterruptController;
  timers : RootCounters;
  dma : DmaController;
  spu : Spu;
  scheduler : Scheduler;
  bus_now : Z;
  bios_region : Z;
  prefetched_instruction : option (Z * Z);
}.

#[export] Instance MachineBus_fields : Fields MachineBus := fun b =>
  mkMachineBus (memory b) (cdrom b) (gpu b) (mdec b) (irq b) (timers b) (dma b) (spu b)
    (scheduler b) (bus_now b) (bios_region b) (prefetched_instruction b).

Definition low_half (value : Z) : Z := value .& 0xffff.
Definition upper_half (value : Z) : Z := Z.shiftr value 16 .& 0xffff.

(** The half an address selects, and a word with that half replaced. *)
Definition half_of (address value : Z) : Z :=
  if address .& 2 =? 0 then low_half value else upper_half value.
Definition merge_half (address old value : Z) : Z :=
  if address .& 2 =? 0 then (old .& 0xffff0000) .| value
  else (old .& 0x0000ffff) .| shl 32 value 16.

Definition between (first last address : Z) : bool := (first <=? address) && (address <=? last).

Definition faulting {E A} `{Display E} (m : outcome E A) : outcome BusFault A :=
  map_err bus_fault m.

Module MachineBus.

Definition physical_region (address : Z) : outcome BusFault MemoryRegion :=
  faulting (Ps1Memory.classify address).

Definition is_memory_control (a : Z) : bool := between MEMORY_CONTROL_START MEMORY_CONTROL_END a.
Definition is_irq (a : Z) : bool := (a =? I_STAT) || (a =? I_MASK).
Definition is_timer (a : Z) : bool := between TIMER_BASE TIMER_END a.
Definition is_dma_half (a : Z) : bool :=
  between DMA_CHANNEL_START DMA_CHANNEL_HALFWORD_END a || between DPCR DMA_CONTROL_END a.
Definition is_dma_word (a : Z) : bool :=
  between DMA_CHANNEL_START DMA_CHANNEL_END a || (a =? DPCR) || (a =? DICR).
Definition is_spu (a : Z) : bool := between SPU_BASE SPU_END a.
Definition is_gpu (a : Z) : bool := (a =? GP0) || (a =? GP1).
Definition is_mdec (a : Z) : bool := (a =? MDEC_DATA) || (a =? MDEC_CONTROL_STATUS).
Definition is_cdrom (a : Z) : bool := between CDROM_BASE CDROM_END a.

Definition write_dma (address value : Z) (b : MachineBus) : outcome BusFault unit * MachineBus :=
  let (r, s) := DmaController.write address value (bus_now b) (dma b) (scheduler b) (irq b) in
  let b := b <| dma := s.1.1 |> <| scheduler := s.1.2 |> <| irq := s.2 |> in
  let! (_u, b) := (faulting r, b) in
  let (r, s) := DmaController.service_mdec_in (memory b) (dma b) (mdec b) (irq b) in
  let b := b <| dma := s.1.1 |> <| mdec := s.1.2 |> <| irq := s.2 |> in
  let! (_u, b) := (faulting r, b) in
  (Ok tt, b).

Definition read_timer (address : Z) (b : MachineBus) : outcome BusFault Z * MachineBus :=
  let (r, t) := RootCounters.read (timers b) address in
  (faulting r, b <| timers := t |>).

Definition write_timer (address value : Z) (b : MachineBus) : outcome BusFault unit * MachineBus :=
  let (r, t) := RootCounters.write (timers b) address value in
  (faulting r, b <| timers := t |>).

Definition write_irq (address value : Z) (b : MachineBus) : outcome BusFault unit * MachineBus :=
  let (r, c) := InterruptController.write (irq b) address value in
  (faulting r, b <| irq := c |>).

Definition write_control (address value : Z) (b : MachineBus) : outcome BusFault unit * MachineBus :=
  let (r, m) := Ps1Memory.write_control address value (memory b) in
  (faulting r, b <| memory := m |>).

Definition write_spu (address value : Z) (b : MachineBus) : outcome BusFault unit * MachineBus :=
  let (r, s) := Spu.write_register address value (spu b) in
  (faulting r, b <| spu := s |>).

Definition write_memory
    (m : Ps1Memory -> outcome MemoryError unit * Ps1Memory) (b : MachineBus)
    : outcome BusFault unit * MachineBus :=
  let (r, mem) := m (memory b) in (faulting r, b <| memory := mem |>).

Definition aligned_word (address : Z) : Z := address .& bnot 32 3.

Definition read_mmio_u16 (address : Z) (b : MachineBus) : outcome BusFault Z * MachineBus :=
  if is_memory_control address then
    (omapok (half_of address)
       (faulting (Ps1Memory.read_control (aligned_word address) (memory b))), b)
  else if is_irq address then
    (omapok low_half (faulting (InterruptController.read (irq b) address)), b)
  else if is_timer address then
    let! (v, b) := read_timer address b in (Ok (low_half v), b)
  else if is_dma_half address then
    (omapok (half_of address)
       (faulting (DmaController.read (aligned_word address) (dma b))), b)
  else if is_spu address then (faulting (Spu.read_register address (spu b)), b)
  else (Err (unmodeled_read address), b).

Definition write_mmio_u16 (address value : Z) (b : MachineBus)
    : outcome BusFault unit * MachineBus :=
  if is_memory_control address then
    let aligned := aligned_word address in
    let! (old, b) := (faulting (Ps1Memory.read_control aligned (memory b)), b) in
    write_control aligned (merge_half address old value) b
  else if is_irq address then write_irq address value b
  else if is_timer address then write_timer address value b
  else if is_dma_half address then
    let aligned := aligned_word address in
    let! (old, b) := (faulting (DmaController.read aligned (dma b)), b) in
    write_dma aligned (merge_half address old value) b
  else if is_spu address then write_spu address value b
  else (Err (unmodeled_write address), b).

(** [bytes[physical & 1]] of a halfword, and the halfword with that byte replaced *)
Definition byte_of (physical half : Z) : Z :=
  if physical .& 1 =? 0 then half mod 256 else half / 256.
Definition merge_byte (physical half value : Z) : Z :=
  if physical .& 1 =? 0 then half / 256 * 256 + value else value * 256 + half mod 256.

Definition read_u8 (address : Z) (b : MachineBus) : outcome BusFault Z * MachineBus :=
  let! (region, b) := (physical_region address, b) in
  let other := (faulting (Ps1Memory.read_u8 address (memory b)), b) in
  match region with
  | Mmio physical =>
      if is_cdrom physical then
        let (r, c) := CdRom.read_register physical (cdrom b) in
        (faulting r, b <| cdrom := c |>)
      else
        let! (half, b) := read_mmio_u16 (physical .& bnot 32 1) b in
        (Ok (byte_of physical half), b)
  | HleRom physical => if physical =? BIOS_REGION_BYTE then (Ok (bios_region b), b) else other
  | _ => other
  end.

Definition read_u16 (address : Z) (b : MachineBus) : outcome BusFault Z * MachineBus :=
  let! (region, b) := (physical_region address, b) in
  match region with
  | Mmio physical => read_mmio_u16 physical b
  | _ => (faulting (Ps1Memory.read_decoded_u16 address region (memory b)), b)
  end.

Definition read_mmio_u32 (physical : Z) (b : MachineBus) : outcome BusFault Z * MachineBus :=
  if is_memory_control physical then
    (faulting (Ps1Memory.read_control physical (memory b)), b)
  else if is_irq physical then (faulting (InterruptController.read (irq b) physical), b)
  else if is_timer physical then read_timer physical b
  else if is_dma_word physical then (faulting (DmaController.read physical (dma b)), b)
  else if is_gpu physical then (faulting (Gpu.read_register physical (gpu b)), b)
  else if is_mdec physical then (faulting (Mdec.read_register physical (mdec b)), b)
  else if is_spu physical then
    (let? low := faulting (Spu.read_register physical (spu b)) in
     let? high := faulting (Spu.read_register (physical + 2) (spu b)) in
     Ok (low .| Z.shiftl high 16), b)
  else (Err (unmodeled_read physical), b).

Definition read_region_u32 (address : Z) (b : MachineBus) : outcome BusFault Z * MachineBus :=
  let! (region, b) := (physical_region address, b) in
  let other := (faulting (Ps1Memory.read_decoded_u32 address region (memory b)), b) in
  match region with
  | Mmio physical => read_mmio_u32 physical b
  | HleRom physical =>
      if physical =? BIOS_KERNEL_PADDING_WORD then (Ok 0, b)
      else if physical =? BIOS_KERNEL_NAME_WORD then (Ok BIOS_KERNEL_NAME_VALUE, b)
      else if physical =? BIOS_KERNEL_CODE_WORD then (Ok BIOS_KERNEL_CODE_VALUE, b)
      else other
  | _ => other
  end.

Definition read_u32 (address : Z) (b : MachineBus) : outcome BusFault Z * MachineBus :=
  match prefetched_instruction b with
  | Some (prefetched_address, instruction) =>
      if prefetched_address =? address
      then (Ok instruction, b <| prefetched_instruction := None |>)
      else read_region_u32 address b
  | None => read_region_u32 address b
  end.

Definition write_u8 (address value : Z) (b : MachineBus) : outcome BusFault unit * MachineBus :=
  let! (region, b) := (physical_region address, b) in
  match region with
  | Mmio physical =>
      if is_cdrom physical then
        let (r, c) := CdRom.write_register physical value (cdrom b) in
        (faulting r, b <| cdrom := c |>)
      else
        let aligned := physical .& bnot 32 1 in
        let! (half, b) := read_mmio_u16 aligned b in
        write_mmio_u16 aligned (merge_byte physical half value) b
  | _ => write_memory (Ps1Memory.write_u8 address value) b
  end.

Definition write_u16 (address value : Z) (b : MachineBus) : outcome BusFault unit * MachineBus :=
  let! (region, b) := (physical_region address, b) in
  match region with
  | Mmio physical => write_mmio_u16 physical value b
  | _ => write_memory (Ps1Memory.write_decoded_u16 address region value) b
  end.

Definition write_mmio_u32 (physical value : Z) (b : MachineBus)
    : outcome BusFault unit * MachineBus :=
  if is_memory_control physical then write_control physical value b
  else if is_irq physical then write_irq physical value b
  else if is_timer physical then write_timer physical value b
  else if is_dma_word physical then write_dma physical value b
  else if is_gpu physical then
    let (r, g) := Gpu.write_register physical value (gpu b) in
    (faulting r, b <| gpu := g |>)
  else if is_mdec physical then
    let (r, m) := Mdec.write_register physical value (mdec b) in
    (faulting r, b <| mdec := m |>)
  else if is_spu physical then
    let! (_u, b) := write_spu physical (low_half value) b in
    write_spu (physical + 2) (upper_half value) b
  else (Err (unmodeled_write physical), b).

Definition write_u32 (address value : Z) (b : MachineBus) : outcome BusFault unit * MachineBus :=
  let! (region, b) := (physical_region address, b) in
  match region with
  | Mmio physical => write_mmio_u32 physical value b
  | _ => write_memory (Ps1Memory.write_decoded_u32 address region value) b
  end.
End MachineBus.

#[export] Instance machine_bus : Bus MachineBus := {
  R3000.read_u8 := MachineBus.read_u8;
  R3000.read_u16 := MachineBus.read_u16;
  R3000.read_u32 := MachineBus.read_u32;
  R3000.write_u8 := MachineBus.write_u8;
  R3000.write_u16 := MachineBus.write_u16;
  R3000.write_u32 := MachineBus.write_u32;
  interrupt_pending _ := false;
}.
