(* ===== verification/Ps1BusFacts.v ===== *)
(** * The PS1 bus is lawful

    Whatever address and width the processor uses, the bus answers with a value of
    that width or a bus fault, never panics, and keeps memory and every device well
    formed.  The interpreter's theorems therefore hold of the machine. *)

From S2P Require Import Prelude Records MachineInt Clock Scheduler Buffer.
From S2P Require Import Ps1Irq Ps1Timers Ps1TimerBank PsxExe Ps1Memory Ps1MemoryFacts.
From S2P Require Import Ps1Dma Buffer Ps1DmaFacts Ps1Ports SpuCommon SpuCommonFacts.
From S2P Require Import Ps1Reverb Ps1ReverbFacts Ps1Spu Ps1SpuFacts.
From S2P Require Import R3000 R3000Exec R3000Wf R3000Facts Ps1Bus.

(** ** Device invariants *)

Record cdrom_ok (c : CdRom) : Prop := {
  cd_index_ok : 0 <= cd_index c < 4;
  cd_parameters_ok : length (parameters c) = 16%nat;
  cd_count_ok : 0 <= parameter_count c <= 16;
  cd_response_ok : length (response c) = 16%nat /\ Forall (in_u 8) (response c);
  cd_response_read_ok : 0 <= response_read c < 16;
  cd_response_count_ok : 0 <= response_count c;
  cd_enable_ok : in_u 8 (interrupt_enable c);
  cd_flags_ok : in_u 8 (interrupt_flags c);
}.

Definition gpu_ok (g : Gpu) : Prop :=
  Forall (in_u 32) [gpu_status g; read_latch g; texture_window g; draw_area_top_left g;
    draw_area_bottom_right g; draw_offset g].

Definition mdec_ok (m : Mdec) : Prop := 0 <= parameter_words_remaining m <= 32.

Definition memory_ok (m : Ps1Memory) : Prop :=
  Ps1MemoryFacts.wf m /\ Forall (in_u 32) (memory_control m).

Record bus_ok (b : MachineBus) : Prop := {
  memory_field : memory_ok (memory b);
  cdrom_field : cdrom_ok (cdrom b);
  gpu_field : gpu_ok (gpu b);
  mdec_field : mdec_ok (mdec b);
  irq_field : IrqFacts.wf (irq b);
  timers_field : RootCounterFacts.wf (timers b);
  dma_field : Ps1DmaFacts.wf (dma b);
  synced_field : synced (dma b) (scheduler b);
  queue_field : orderly (scheduler b);
  spu_field : spu_ok (spu b);
  now_field : in_u 64 (bus_now b);
  region_field : in_u 8 (bios_region b);
  prefetch_field : from_option (fun p => in_u 32 p.2) True (prefetched_instruction b);
}.

(** ** CD-ROM *)

Lemma land_3 x : 0 <= x .& 3 < 4.
Proof. change 3 with (Z.ones 2). rewrite Z.land_ones by lia. by apply Z.mod_pos_bound. Qed.

Lemma cdrom_status_u8 c : cdrom_ok c -> in_u 8 (CdRom.status c).
Proof.
  intros []. unfold CdRom.status.
  assert (in_u 8 (cd_index c .| 0x10)) as H.
  { apply in_u_lor; [lia| |]; apply u8_bounds; lia. }
  assert (forall s m, in_u 8 s -> in_u 8 m -> in_u 8 (s .| m)) as Hor by (intros; by apply in_u_lor).
  assert (forall m, 0 <= m <= 255 -> in_u 8 m) as Hm by (intros; by apply u8_bounds).
  set (s1 := if _ =? 0 then _ else _).
  assert (in_u 8 s1) as H1 by (unfold s1; destruct (_ =? 0); [apply Hor; [done|apply Hm; lia]|done]).
  set (s2 := if _ =? FIFO_CAPACITY then _ else _).
  assert (in_u 8 s2) as H2.
  { unfold s2. destruct (_ =? FIFO_CAPACITY); [|done]. apply in_u_land_bnot; [lia|done|apply Hm; lia]. }
  destruct (negb _); [|done]. apply Hor; [done|apply Hm; lia].
Qed.

Ltac cdrom_fields H :=
  destruct H; split; cbn [CdRom.set_index CdRom.set_parameters CdRom.set_response
        CdRom.set_interrupts CdRom.set_request CdRom.set_volume cd_index parameters
        parameter_count response response_read response_count interrupt_enable
        interrupt_flags] in *; try done.

Lemma cdrom_read_ok a c :
  cdrom_ok c ->
  let (r, c') := CdRom.read_register a c in
  cdrom_ok c' /\ no_panic r /\ forall v, r = Ok v -> in_u 8 v.
Proof.
  intros Hc. unfold CdRom.read_register.
  destruct (a =? CDROM_BASE).
  { split_and!; try done. intros v [= <-]. by apply cdrom_status_u8. }
  destruct (a =? REG1).
  { unfold CdRom.pop_response. destruct (Z.eqb_spec (response_count c) 0).
    - split_and!; try done. intros v [= <-]. by apply u8_bounds.
    - destruct Hc as [? ? ? [Hl Hall] Hrd Hn ? ?] eqn:E.
      destruct (lookup_lt_is_Some_2 (response c) (Z.to_nat (response_read c)) ltac:(lia)) as [x Ex].
      rewrite Ex. split_and!; [|done|].
      + assert (0 <= (response_read c + 1) mod FIFO_CAPACITY < 16) by by apply Z.mod_pos_bound.
        split; cbn; try done. lia.
      + intros v [= <-]. by eapply Forall_lookup_1. }
  destruct (a =? REG2).
  { split_and!; try done. intros v [= <-]. by apply u8_bounds. }
  destruct (a =? REG3); [|done].
  split_and!; try done. intros v [= <-]. destruct Hc.
  destruct (_ || _); (apply in_u_lor; [lia|by apply u8_bounds|done]).
Qed.

Lemma cdrom_write_ok a v c :
  cdrom_ok c -> in_u 8 v ->
  let (r, c') := CdRom.write_register a v c in cdrom_ok c' /\ no_panic r.
Proof.
  intros Hc Hv. pose proof (cd_index_ok c Hc) as Hi. unfold CdRom.write_register.
  assert (forall i x, cdrom_ok (CdRom.write_volume i x c)) as Hvol.
  { intros. unfold CdRom.write_volume. cdrom_fields Hc. }
  assert (in_u 8 (v .& 0x1f)) as H1f by by apply in_u_land_l.
  destruct (a =? CDROM_BASE). { split; [|done]. pose proof (land_3 v). cdrom_fields Hc. }
  assert (cd_index c = 0 \/ cd_index c = 1 \/ cd_index c = 2 \/ cd_index c = 3) as Hi' by lia.
  assert (cdrom_ok (CdRom.set_parameters (parameters c) 0 c)) as Hz by (cdrom_fields Hc; lia).
  destruct (a =? REG1).
  { split; [|done]. destruct Hi' as [-> | [-> | [-> | ->]]]; cbn [Z.eqb Pos.eqb]; (done || apply Hvol). }
  destruct (a =? REG2).
  { destruct Hi' as [-> | [-> | [-> | ->]]]; cbn [Z.eqb Pos.eqb]; try (split; [apply Hvol|done]).
    - unfold CdRom.push_parameter.
      destruct (Z.ltb_spec (parameter_count c) FIFO_CAPACITY); [|done].
      pose proof (cd_parameters_ok c Hc). pose proof (cd_count_ok c Hc).
      destruct (lookup_lt_is_Some_2 (parameters c) (Z.to_nat (parameter_count c))
        ltac:(unfold FIFO_CAPACITY in *; lia)) as [x ->].
      split; [|done]. unfold FIFO_CAPACITY in *. cdrom_fields Hc; [by rewrite length_insert|lia].
    - split; [|done]. cdrom_fields Hc. }
  destruct (a =? REG3); [|done].
  destruct Hi' as [-> | [-> | [-> | ->]]]; cbn [Z.eqb Pos.eqb]; (split; [|done]).
  - cdrom_fields Hc.
  - unfold CdRom.acknowledge. cbn zeta.
    assert (in_u 8 (interrupt_flags c .& bnot 8 (v .& 0x1f))) as Hf.
    { apply in_u_land_bnot; [lia|apply Hc|done]. }
    assert (cdrom_ok (CdRom.set_interrupts (interrupt_enable c)
      (interrupt_flags c .& bnot 8 (v .& 0x1f)) c)) as Hs by cdrom_fields Hc.
    destruct (has_bits v 0x40); [|done].
    set (c1 := CdRom.set_interrupts _ _ _) in *. cdrom_fields Hs; lia.
  - apply Hvol.
  - destruct (has_bits v 0x20); [|done]. cdrom_fields Hc.
Qed.

(** ** GPU and MDEC *)

Notation u32 := (in_u 32).


Lemma clear_u32 m s : u32 s -> u32 m -> u32 (Gpu.clear m s).
Proof. intros. by apply in_u_land_bnot. Qed.

Lemma gpu_status_ok g s : gpu_ok g -> u32 s -> gpu_ok (Gpu.set_status s g).
Proof. unfold gpu_ok. rewrite !Forall_cons. tauto. Qed.

Lemma set_dma_direction_ok d g : gpu_ok g -> gpu_ok (Gpu.set_dma_direction d g).
Proof.
  intros Hg. pose proof Hg as Hs. unfold gpu_ok in Hs. rewrite !Forall_cons in Hs.
  apply gpu_status_ok; [done|]. cbn zeta.
  assert (u32 (Gpu.clear (STATUS_DMA_DIRECTION .| STATUS_DMA_REQUEST) (gpu_status g)
    .| shl 32 d 29)) as H.
  { apply u32_or; [apply clear_u32; [tauto|lit]|by apply in_u_shl]. }
  set (s := Gpu.clear _ _ .| _) in *. destruct (if d =? 1 then true else _); [|done].
  apply u32_or; [done|lit].
Qed.

Lemma gpu_write_ok a v g :
  gpu_ok g -> u32 v ->
  let (r, g') := Gpu.write_register a v g in gpu_ok g' /\ no_panic r.
Proof.
  intros Hg Hv. unfold Gpu.write_register.
  assert (forall x m, 0 <= m -> u32 x -> u32 (x .& m)) as Hand by (intros; by apply in_u_land_l).
  pose proof Hg as Hs. unfold gpu_ok in Hs. rewrite !Forall_cons in Hs.
  assert (forall x y, u32 (shl 32 x y)) as Hshl by (intros; by apply in_u_shl).
  destruct (a =? GP0); [|destruct (a =? GP1); [|done]]; (split; [|done]).
  - unfold Gpu.write_gp0. cbn zeta.
    assert (forall g', gpu_ok g' ->
      gpu_ok (Gpu.set_status (gpu_status g' .| (STATUS_READY_COMMAND .| STATUS_READY_DMA)) g')) as Hr.
    { intros g' Hg'. pose proof Hg' as Hs'. unfold gpu_ok in Hs'. rewrite !Forall_cons in Hs'.
      apply gpu_status_ok; [done|]. apply u32_or; [tauto|lit]. }
    apply Hr. repeat (destruct (_ =? _); [
      first [ apply gpu_status_ok; [done|]; repeat apply u32_or;
              first [apply clear_u32; [tauto|lit] | apply Hshl | apply Hand; [lia|done] | tauto | lit]
            | unfold gpu_ok; rewrite !Forall_cons;
              cbn [Gpu.set_texture_window Gpu.set_top_left Gpu.set_bottom_right
                Gpu.set_draw_offset gpu_status read_latch texture_window draw_area_top_left
                draw_area_bottom_right draw_offset];
              pose proof (Hand v 0xfffff ltac:(lia) Hv); pose proof (Hand v 0x7ffff ltac:(lia) Hv);
              pose proof (Hand v 0x3fffff ltac:(lia) Hv); tauto ]|]).
    done.
  - unfold Gpu.write_gp1. cbn zeta.
    destruct (_ =? 0); [unfold gpu_ok; rewrite !Forall_cons, Forall_nil; split_and!; try done; lit|].
    destruct (_ =? 1).
    { apply gpu_status_ok; [done|]. apply clear_u32; [apply u32_or; [tauto|lit]|lit]. }
    destruct (_ =? 2). { apply gpu_status_ok; [done|]. apply clear_u32; [tauto|lit]. }
    destruct (_ =? 3).
    { apply gpu_status_ok; [done|]. apply u32_or; [apply clear_u32; [tauto|lit]|done]. }
    destruct (_ =? 4); [by apply set_dma_direction_ok|].
    destruct (_ =? 8).
    { unfold Gpu.set_display_mode. apply gpu_status_ok; [done|]. cbn zeta.
      assert (u32 (Gpu.clear DISPLAY_BITS (gpu_status g))) by (apply clear_u32; [tauto|lit]).
      destruct (_ =? 0); repeat apply u32_or; first [done|lit|apply Hshl]. }
    destruct (_ && _); [|done]. unfold gpu_ok. rewrite !Forall_cons.
    cbn [Gpu.set_read_latch gpu_status read_latch texture_window draw_area_top_left
      draw_area_bottom_right draw_offset].
    assert (u32 (Gpu.info (v .& 7) g)); [|tauto].
    unfold Gpu.info. repeat (destruct (_ =? _); [first [tauto|lit]|]). tauto.
Qed.

Lemma gpu_read_ok a g :
  gpu_ok g -> no_panic (Gpu.read_register a g) /\ forall v, Gpu.read_register a g = Ok v -> u32 v.
Proof.
  unfold gpu_ok. rewrite !Forall_cons. intros Hg. unfold Gpu.read_register.
  destruct (a =? GP0); [|destruct (a =? GP1); [|done]]; (split; [done|]); intros v [= <-]; tauto.
Qed.

Lemma mdec_read_ok a m :
  mdec_ok m -> no_panic (Mdec.read_register a m) /\ forall v, Mdec.read_register a m = Ok v -> u32 v.
Proof.
  unfold mdec_ok. intros Hm. unfold Mdec.read_register.
  destruct (a =? MDEC_CONTROL_STATUS); [|destruct (a =? MDEC_DATA); done].
  split; [done|]. intros v [= <-]. unfold Mdec.status. apply u32_or; [|destruct (dma_in_enabled m); lit].
  destruct (Z.eqb_spec (parameter_words_remaining m) 0); [lit|].
  apply u32_or; [lit|]. unfold in_u. lia.
Qed.

Lemma mdec_write_ok a v m :
  mdec_ok m -> let (r, m') := Mdec.write_register a v m in mdec_ok m' /\ no_panic r.
Proof.
  unfold mdec_ok. intros Hm. unfold Mdec.write_register.
  destruct (a =? MDEC_CONTROL_STATUS).
  { cbn. destruct (has_bits v CONTROL_RESET); cbn; (split; [lia|done]). }
  destruct (a =? MDEC_DATA); [|done]. unfold Mdec.write_data.
  destruct (Z.eqb_spec (parameter_words_remaining m) 0); cbn [negb].
  - destruct (_ =? 1); [done|]. destruct (_ =? 2).
    { split; [|done]. cbn. destruct (_ =? 0); lia. }
    destruct (_ =? 3); [|done]. split; [cbn; lia|done].
  - split; [cbn; lia|done].
Qed.

Lemma mdec_endpoint_ok w m :
  mdec_ok m -> u32 w -> no_panic (mdec_write_word w m).1 /\ mdec_ok (mdec_write_word w m).2.
Proof.
  intros Hm _. unfold mdec_write_word, mdec_dma_endpoint.
  pose proof (mdec_write_ok MDEC_DATA w m Hm) as H.
  destruct (Mdec.write_register MDEC_DATA w m) as [[[]|e|] m']; destruct H; done.
Qed.

(** ** Memory *)

Lemma read_u8_ok a m :
  Ps1MemoryFacts.wf m -> u32 a ->
  no_panic (Ps1Memory.read_u8 a m) /\ forall v, Ps1Memory.read_u8 a m = Ok v -> in_u 8 v.
Proof.
  intros Hm Ha. pose proof (read_u8_spec a m Hm Ha) as Hs.
  destruct (locate a) as [l|].
  - rewrite Hs. split; [done|]. intros v [= <-]. destruct Hm.
    destruct l; by apply Buffer.cell_u8.
  - destruct Hs as [Hn Hv]. split; [done|]. intros v E. by destruct (Hv v E) as [-> _].
Qed.

Lemma read_all_ok n : forall a m,
  Ps1MemoryFacts.wf m -> (forall k, 0 <= k < Z.of_nat n -> u32 (a + k)) ->
  no_panic (read_all n a m) /\
  forall l, read_all n a m = Ok l -> length l = n /\ Forall (in_u 8) l.
Proof.
  induction n as [|n IH]; intros a m Hm Ha; cbn [read_all].
  { split; [done|]. by intros l [= <-]. }
  destruct (read_u8_ok a m Hm) as [Hn Hv]. { rewrite <- (Z.add_0_r a). apply Ha. lia. }
  destruct (IH (a + 1) m Hm) as [Hn' Hl].
  { intros k Hk. replace (a + 1 + k) with (a + (k + 1)) by lia. apply Ha. lia. }
  destruct (Ps1Memory.read_u8 a m) as [b|e|]; cbn [obind]; [|done..].
  destruct (read_all n (a + 1) m) as [bs|e|]; cbn [obind]; [|done..].
  split; [done|]. intros l [= <-]. destruct (Hl bs eq_refl) as [E Hall].
  split; [cbn; by rewrite E|]. apply Forall_cons. auto.
Qed.

Lemma read_spec_ok n a m :
  Ps1MemoryFacts.wf m -> u32 a -> (1 <= n <= 4)%nat ->
  no_panic (read_spec n a m) /\
  forall v, read_spec n a m = Ok v -> 0 <= v < 256 ^ Z.of_nat n.
Proof.
  intros Hm Ha Hn. unfold read_spec. pose proof (classify_no_panic a Ha) as Hc.
  destruct (Ps1Memory.classify a) as [r|e|] eqn:Er; cbn [obind]; [|done..].
  destruct (Ps1Memory.validate_decoded_access (Z.of_nat n) a r) as [[]|e|] eqn:Ev; cbn [obind];
    [|done|].
  - destruct (read_all_ok n a m Hm) as [Hnp Hl].
    { intros k Hk. by apply (access_run a (Z.of_nat n) r k Ha ltac:(lia) Er Ev Hk). }
    destruct (read_all n a m) as [l|e|]; cbn [obind]; [|done..].
    split; [done|]. intros v [= <-]. destruct (Hl l eq_refl) as [<- Hall].
    by apply from_le_range.
  - exfalso. revert Ev. unfold Ps1Memory.validate_decoded_access.
    destruct (ok_or _ _) as [last|e|] eqn:El; cbn [obind]; try done.
    + assert (u32 last) as Hlast.
      { apply ok_or_ok, checked_add_u_Some in El as [-> Hlt]. destruct Ha. split; lia. }
      pose proof (classify_no_panic last Hlast).
      destruct (Ps1Memory.classify last); cbn [obind]; [|done..]. by destruct (negb _).
    + by destruct (checked_add_u 32 a (Z.of_nat n - 1)).
Qed.

Lemma write_all_ok bytes : forall a m,
  memory_ok m -> Forall (in_u 8) bytes -> (forall k, 0 <= k < Z.of_nat (length bytes) -> u32 (a + k)) ->
  no_panic (write_all bytes a m).1 /\ memory_ok (write_all bytes a m).2.
Proof.
  induction bytes as [|b bytes IH]; intros a m Hm Hb Ha; cbn [write_all]; [done|].
  apply Forall_cons in Hb as [Hb Hbs].
  assert (u32 a) as Hau. { rewrite <- (Z.add_0_r a). apply Ha. cbn. lia. }
  pose proof (write_u8_spec a b m (proj1 Hm) Hau Hb) as Hs.
  destruct (locate a) as [l|].
  - destruct Hs as (m' & -> & Hm' & _ & Ec & _). apply IH; [|done|].
    + split; [done|]. rewrite Ec. apply Hm.
    + intros k Hk. replace (a + 1 + k) with (a + (k + 1)) by lia. apply Ha. cbn. lia.
  - destruct Hs as [Hn E]. destruct (Ps1Memory.write_u8 a b m) as [[[]|e|] m']; cbn in *; subst; try done.
    apply IH; [done|done|]. intros k Hk. replace (a + 1 + k) with (a + (k + 1)) by lia.
    apply Ha. cbn. lia.
Qed.

Lemma write_decoded_ok n a r v m :
  memory_ok m -> u32 a -> (1 <= n <= 4)%nat -> Ps1Memory.classify a = Ok r ->
  let (o, m') := Ps1Memory.write_decoded_bytes a r (le_bytes n v) m in memory_ok m' /\ no_panic o.
Proof.
  intros Hm Ha Hn Er.
  pose proof (write_classified_spec n a v m Hn (proj1 Hm) Ha) as E.
  unfold Ps1Memory.write_classified in E. rewrite Er in E. rewrite E.
  unfold write_spec. rewrite Er. cbn [obind].
  destruct (Ps1Memory.validate_decoded_access (Z.of_nat n) a r) as [[]|e|] eqn:Ev; [|done|].
  - destruct (write_all_ok (le_bytes n v) a m Hm (le_bytes_u8 n v)) as [Hnp Hok].
    { rewrite length_le_bytes. intros k Hk.
      by apply (access_run a (Z.of_nat n) r k Ha ltac:(lia) Er Ev Hk). }
    by destruct (write_all _ a m).
  - exfalso. destruct (read_spec_ok n a m (proj1 Hm) Ha Hn) as [Hnp _].
    unfold read_spec in Hnp. rewrite Er in Hnp. cbn [obind] in Hnp. by rewrite Ev in Hnp.
Qed.

Lemma control_index_ok a :
  no_panic (memory_control_index a) /\
  forall i, memory_control_index a = Ok i -> 0 <= i < 9.
Proof.
  unfold memory_control_index, MEMORY_CONTROL_START, MEMORY_CONTROL_END.
  destruct (Z.leb_spec 0x1f801000 a), (Z.leb_spec a 0x1f801023); cbn [andb negb orb]; try done.
  destruct (has_bits a 3); [done|]. split; [by unfold try_from_u; case_match|].
  intros i Hi. apply ok_or_ok, try_from_u_Some in Hi as [-> _].
  split; [apply Z.div_pos; lia|apply Z.div_lt_upper_bound; lia].
Qed.

Lemma read_control_ok a m :
  memory_ok m -> no_panic (Ps1Memory.read_control a m) /\
  forall v, Ps1Memory.read_control a m = Ok v -> u32 v.
Proof.
  intros [Hm Hall]. unfold Ps1Memory.read_control.
  destruct (control_index_ok a) as [Hn Hi].
  destruct (memory_control_index a) as [i|e|]; cbn [obind]; [|done..].
  specialize (Hi i eq_refl).
  destruct (lookup_lt_is_Some_2 (memory_control m) (Z.to_nat i)) as [v Ev].
  { rewrite (Ps1MemoryFacts.wf_control m Hm). lia. }
  rewrite Ev. split; [done|]. intros ? [= <-]. by eapply Forall_lookup_1.
Qed.

Lemma write_control_word_ok a v m :
  memory_ok m -> u32 v ->
  let (r, m') := Ps1Memory.write_control a v m in memory_ok m' /\ no_panic r.
Proof.
  intros [Hm Hall] Hv. unfold Ps1Memory.write_control.
  destruct (control_index_ok a) as [Hn Hi].
  destruct (memory_control_index a) as [i|e|]; [|done..]. specialize (Hi i eq_refl).
  destruct (lookup_lt_is_Some_2 (memory_control m) (Z.to_nat i)) as [x Ex].
  { rewrite (Ps1MemoryFacts.wf_control m Hm). lia. }
  rewrite Ex. split; [|done]. destruct Hm. split.
  - constructor; try done. cbn. by rewrite length_insert.
  - by apply Forall_insert.
Qed.

(** ** Register reads and writes through the bus *)

Ltac bus_fields H :=
  destruct H; split; cbn [modify memory cdrom gpu mdec irq timers dma spu scheduler bus_now
    bios_region prefetched_instruction] in *; try done.

Notation reads w r := (access_ok bus_ok w r).
Notation writes r := (R3000Wf.write_ok bus_ok r).

Lemma half_of_u16 a v : in_u 16 (half_of a v).
Proof. unfold half_of, low_half, upper_half. destruct (_ =? 0); apply land_u16. Qed.

Lemma merge_half_u32 a old v : u32 old -> in_u 16 v -> u32 (merge_half a old v).
Proof.
  intros Ho Hv. unfold merge_half. destruct (_ =? 0).
  - apply u32_or; [apply in_u_land_l; [lia|done]|]. eapply in_u_mono; [|done]. lia.
  - apply u32_or; [apply in_u_land_l; [lia|done]|by apply in_u_shl].
Qed.

Lemma irq_read_ok c a :
  IrqFacts.wf c -> no_panic (InterruptController.read c a) /\
  forall v, InterruptController.read c a = Ok v -> in_u 11 v.
Proof.
  intros []. unfold InterruptController.read.
  destruct (a =? I_STAT); [|destruct (a =? I_MASK); [|done]]; (split; [done|]); by intros v [= <-].
Qed.

Lemma read_mode_u16 c : in_u 16 (Counter.mode c) -> in_u 16 (Counter.read_mode c).1.
Proof.
  intros Hm. unfold Counter.read_mode. cbn [fst].
  assert (forall x m, in_u 16 x -> in_u 16 m -> in_u 16 (x .| m)) as Hor by (intros; by apply in_u_lor).
  assert (in_u 16 MODE_IRQ_REQUEST /\ in_u 16 MODE_REACHED_TARGET /\ in_u 16 MODE_REACHED_OVERFLOW)
    as (H1 & H2 & H3) by by rewrite !u16_bounds.
  repeat case_match; repeat apply Hor; done.
Qed.

Lemma timer_read_ok a b : bus_ok b -> reads 16 (MachineBus.read_timer a b).
Proof.
  intros Hb. pose proof (timers_field b Hb) as Ht. unfold MachineBus.read_timer, RootCounters.read.
  pose proof (RootCounterFacts.decode_register_no_panic a) as Hn.
  destruct (RootCounters.decode_register a) as [[id reg]|e|] eqn:Ed; [| |done].
  - pose proof (RootCounterFacts.bank_step_wf _ _ Ht (RootCounterFacts.step_read (timers b) id reg)) as Hw.
    destruct (RootCounters.read_register (timers b) id reg) as [v t] eqn:Er.
    split_and!; [by bus_fields Hb|done|]. intros x [= <-].
    destruct (RootCounterFacts.wf_counter (timers b) id Ht) as [[Hv Htg Hm _] _].
    unfold RootCounters.read_register in Er. destruct reg.
    + by injection Er as <- _.
    + pose proof (read_mode_u16 _ Hm) as Hr. cbn in Er. by injection Er as <- _.
    + by injection Er as <- _.
  - split_and!; [by bus_fields Hb|done|done].
Qed.

Lemma timer_write_ok a v b : bus_ok b -> u32 v -> writes (MachineBus.write_timer a v b).
Proof.
  intros Hb Hv. pose proof (timers_field b Hb) as Ht. unfold MachineBus.write_timer.
  pose proof (RootCounterFacts.bank_step_wf _ _ Ht (RootCounterFacts.step_write (timers b) a v Hv)) as Hw.
  assert (no_panic (RootCounters.write (timers b) a v).1) as Hn.
  { unfold RootCounters.write. pose proof (RootCounterFacts.decode_register_no_panic a).
    by destruct (RootCounters.decode_register a) as [[? ?]| |]. }
  destruct (RootCounters.write (timers b) a v) as [r t]. cbn [fst snd] in *.
  split; [by bus_fields Hb|by apply map_err_no_panic].
Qed.

Lemma irq_write_ok a v b : bus_ok b -> u32 v -> writes (MachineBus.write_irq a v b).
Proof.
  intros Hb Hv. pose proof (irq_field b Hb) as Hi. unfold MachineBus.write_irq.
  pose proof (IrqFacts.irq_step_wf _ _ Hi (InterruptController.step_write (irq b) a v Hv)) as Hw.
  assert (no_panic (InterruptController.write (irq b) a v).1) as Hn.
  { unfold InterruptController.write. by repeat case_match. }
  destruct (InterruptController.write (irq b) a v) as [r c]. cbn [fst snd] in *.
  split; [by bus_fields Hb|by apply map_err_no_panic].
Qed.

Lemma dma_read_ok a d :
  Ps1DmaFacts.wf d -> u32 a ->
  no_panic (DmaController.read a d) /\ forall v, DmaController.read a d = Ok v -> u32 v.
Proof.
  intros Hd Ha. unfold DmaController.read.
  destruct (channel_register a) as [[c r]|] eqn:Ec.
  - destruct (channel_register_range a c r Ha Ec) as [Hc Hr].
    assert (r = 0 \/ r = 1 \/ r = 2) as Hr' by lia.
    assert (forall x, masked x -> u32 x) as Hm.
    { intros x [Hx _]. unfold WORD_MASK in Hx. unfold in_u. lia. }
    destruct Hd. destruct (c =? CHANNEL4).
    + destruct Hr' as [-> | [-> | ->]]; (split; [done|]); intros v [= <-]; auto.
    + destruct (lookup_lt_is_Some_2 (register_only_channels d) (Z.to_nat c) ltac:(lia)) as [row Erow].
      pose proof (Forall_lookup_1 _ _ _ _ wf_rows Erow) as Hrow.
      destruct row as [|x [|y [|z [|]]]]; try done. destruct Hrow as (Hx & Hy & Hz).
      unfold DmaController.channel_at. rewrite Erow. cbn [mbind option_bind].
      destruct Hr' as [-> | [-> | ->]]; (split; [done|]); intros v [= <-]; auto.
  - destruct (a =? DPCR); [|destruct (a =? DICR); [|done]]; (split; [done|]); intros v [= <-].
    + apply Hd.
    + unfold DmaController.dicr. apply u32_or; [apply u32_or; apply Hd|].
      destruct (DmaController.master_irq d); lit.
Qed.

(** A register write keeps whatever every queue operation keeps. *)
Lemma dma_write_queue {Q S} `{EventQueue Q} `{InterruptSink S} (K : Q -> Prop) a v now d (q : Q) (s : S) :
  (forall q id d, K q -> K (eq_schedule q id d).2) -> (forall q id, K q -> K (eq_cancel q id).2) ->
  K q -> K (DmaController.write a v now d q s).2.1.2.
Proof.
  intros Hs Hc Hq.
  assert (forall d, K (DmaController.reschedule now d q).2.2) as Hr.
  { intros d1. unfold DmaController.reschedule. pose proof (Hc q CHANNEL4_EVENT Hq) as Hq1.
    destruct (_ || _); [done|]. destruct (DmaController.plan_transfer _ _) as [[p|]|e|]; [|done..].
    pose proof (Hs _ CHANNEL4_EVENT (pt_deadline p) Hq1) as Hk.
    by destruct (eq_schedule _ _ _) as [[] ?]. }
  unfold DmaController.write. destruct (channel_register a) as [[c r]|].
  - destruct (c =? CHANNEL4); [|by destruct (DmaController.register_only_value _ _ _)].
    specialize (Hr (set_chcr (v .& CHCR_WRITABLE) d)).
    destruct (DmaController.reschedule _ _ _). by repeat case_match.
  - destruct (a =? DPCR).
    { specialize (Hr (set_dpcr v d)). by destruct (DmaController.reschedule _ _ _). }
    by destruct (a =? DICR).
Qed.

Lemma request_irq_wf c s : IrqFacts.wf c -> IrqFacts.wf (Ps1Irq.request c s).
Proof.
  intros Hc. apply (IrqFacts.irq_step_wf _ _ Hc). apply (InterruptController.step_request c s).
Qed.

Lemma dma_write_bus_ok a v b :
  bus_ok b -> u32 a -> u32 v -> writes (MachineBus.write_dma a v b).
Proof.
  intros Hb Ha Hv. unfold MachineBus.write_dma.
  pose proof (dma_write_ok a v (bus_now b) (dma b) (scheduler b) (irq b) (dma_field b Hb)
    (synced_field b Hb) Ha Hv (now_field b Hb)) as Hw.
  pose proof (dma_write_queue orderly a v (bus_now b) (dma b) (scheduler b) (irq b)
    orderly_schedule orderly_cancel (queue_field b Hb)) as Hq.
  destruct (DmaController.write _ _ _ _ _ _) as [r [[d q] c]]. cbn [fst snd] in *.
  destruct Hw as (Hn & Hd & Hs & _ & Hsig & _).
  assert (IrqFacts.wf c) as Hc.
  { subst c. unfold DmaController.signal. pose proof (irq_field b Hb).
    destruct (_ && _); [by apply request_irq_wf|done]. }
  assert (bus_ok (b <| dma := d |> <| scheduler := q |> <| irq := c |>)) as Hb1 by (bus_fields Hb).
  set (b1 := b <| dma := d |> <| scheduler := q |> <| irq := c |>) in *.
  clearbody b1. destruct r as [x|x|]; [|by split|done]. cbn [faulting map_err].
  clear -Hb1. rename b1 into b, Hb1 into Hb.
  pose proof (service_mdec_in_ok mdec_ok (fun w e He Hw => mdec_endpoint_ok w e He Hw)
    (memory b) (dma b) (mdec b) (irq b) (dma_field b Hb) (proj1 (memory_field b Hb))
    (mdec_field b Hb)) as Hw.
  destruct (DmaController.service_mdec_in _ _ _ _) as [r [[d e] c]]. cbn [fst snd].
  destruct Hw as (Hn & Hd & Hp & He & Hs).
  assert (IrqFacts.wf c) as Hc.
  { pose proof (irq_field b Hb). destruct Hs as [-> | ->]; [done|by apply request_irq_wf]. }
  assert (synced d (scheduler b)) as Hsy.
  { pose proof (synced_field b Hb) as Hsy. unfold synced, DmaController.completion_deadline in *. by rewrite Hp. }
  assert (bus_ok (b <| dma := d |> <| mdec := e |> <| irq := c |>)) as Hb2 by (bus_fields Hb).
  destruct r as [x|x|]; [by split|by split|done].
Qed.

Lemma control_write_ok a v b : bus_ok b -> u32 v -> writes (MachineBus.write_control a v b).
Proof.
  intros Hb Hv. unfold MachineBus.write_control.
  pose proof (write_control_word_ok a v (memory b) (memory_field b Hb) Hv) as Hw.
  destruct (Ps1Memory.write_control a v (memory b)) as [r m]. destruct Hw as [Hm Hn].
  split; [by bus_fields Hb|by apply map_err_no_panic].
Qed.

Lemma spu_write_ok a v b : bus_ok b -> 0 <= a -> in_u 16 v -> writes (MachineBus.write_spu a v b).
Proof.
  intros Hb Ha Hv. pose proof (spu_field b Hb) as Hs. unfold MachineBus.write_spu.
  pose proof (spu_write_any a v (spu b) Hs Ha Hv) as [Hn Hw].
  destruct (Spu.write_register a v (spu b)) as [r s]. cbn [fst snd] in *.
  split; [by bus_fields Hb|by apply map_err_no_panic].
Qed.

(** ** The routes *)

Lemma aligned_u32 a : u32 a -> u32 (MachineBus.aligned_word a).
Proof. intros Ha. apply in_u_land_bnot; [lia|done|lit]. Qed.

Lemma low_byte_u8 h : in_u 16 h -> in_u 8 (MachineBus.byte_of 0 h) /\ forall p, in_u 8 (MachineBus.byte_of p h).
Proof.
  intros Hh. destruct (halfword_bytes h Hh) as [H0 H1]. unfold MachineBus.byte_of.
  split; [|intros p]; by destruct (_ =? 0).
Qed.

Lemma merge_byte_u16 p h v : in_u 16 h -> in_u 8 v -> in_u 16 (MachineBus.merge_byte p h v).
Proof.
  rewrite !u16_bounds, u8_bounds. intros Hh Hv. unfold MachineBus.merge_byte.
  pose proof (Z.div_mod h 256 ltac:(lia)). pose proof (Z.mod_pos_bound h 256 ltac:(lia)).
  destruct (_ =? 0); lia.
Qed.

Lemma read_mmio_u16_ok a b :
  bus_ok b -> u32 a -> reads 16 (MachineBus.read_mmio_u16 a b).
Proof.
  intros Hb Ha. unfold MachineBus.read_mmio_u16.
  destruct (MachineBus.is_memory_control a).
  { apply (map_read 32); [done|by apply read_control_ok, memory_field|]. intros. apply half_of_u16. }
  destruct (MachineBus.is_irq a).
  { apply (map_read 11); [done|by apply irq_read_ok, irq_field|]. intros. apply land_u16. }
  destruct (MachineBus.is_timer a).
  { apply (read_bind 16); [by apply timer_read_ok|]. intros v b' _ Hb'.
    split_and!; [done..|]. intros x [= <-]. apply land_u16. }
  destruct (MachineBus.is_dma_half a).
  { apply (map_read 32); [done| |intros; apply half_of_u16].
    apply dma_read_ok; [by apply dma_field|by apply aligned_u32]. }
  destruct (MachineBus.is_spu a); [|by split].
  apply pure_read; [done|]. apply spu_read_any; [by apply spu_field|apply Ha].
Qed.

Lemma write_mmio_u16_ok a v b :
  bus_ok b -> u32 a -> in_u 16 v -> writes (MachineBus.write_mmio_u16 a v b).
Proof.
  intros Hb Ha Hv. unfold MachineBus.write_mmio_u16. cbn zeta.
  assert (u32 v) as Hv32 by (eapply in_u_mono; [|done]; lia).
  destruct (MachineBus.is_memory_control a).
  { unfold faulting at 1. apply (fault_bind 32); [by split|by apply read_control_ok, memory_field|]. intros old Hold.
    apply control_write_ok; [done|]. by apply merge_half_u32. }
  destruct (MachineBus.is_irq a); [by apply irq_write_ok|].
  destruct (MachineBus.is_timer a); [by apply timer_write_ok|].
  destruct (MachineBus.is_dma_half a).
  { unfold faulting at 1. apply (fault_bind 32); [by split| |].
    - apply dma_read_ok; [by apply dma_field|by apply aligned_u32].
    - intros old Hold. apply dma_write_bus_ok; [done|by apply aligned_u32|by apply merge_half_u32]. }
  destruct (MachineBus.is_spu a); [|by split]. apply spu_write_ok; [done|apply Ha|done].
Qed.

(** The region of the access, or a fault. *)
Ltac region a Er :=
  unfold MachineBus.physical_region; pose proof (classify_no_panic a ltac:(done));
  destruct (Ps1Memory.classify a) as [r|e|] eqn:Er; cbn [faulting map_err]; [|by split|done].

(** The physical address of a region. *)
Lemma mmio_u32 a p : u32 a -> Ps1Memory.classify a = Ok (Mmio p) -> u32 p /\ p < 0x1f803000.
Proof.
  intros Ha E. rewrite classify_decode in E by done. destruct (_ <=? 5); [|done].
  injection E as E. pose proof (decode_cases (a mod 2 ^ 29)) as Hd.
  assert (MMIO_START <= p < MMIO_END) as Hp.
  { unfold decode in E. repeat (case_match; try done). injection E as <-. zbool. done. }
  unfold MMIO_START, MMIO_END in Hp. unfold in_u. lia.
Qed.

Lemma bus_read_u8 a b : bus_ok b -> u32 a -> reads 8 (MachineBus.read_u8 a b).
Proof.
  intros Hb Ha. unfold MachineBus.read_u8.
  region a Er. cbn zeta.
  assert (reads 8 (faulting (Ps1Memory.read_u8 a (memory b)), b)) as Hother.
  { apply pure_read; [done|]. by apply read_u8_ok; [apply memory_field|]. }
  destruct r as [o|o|p|p|p]; try done.
  - destruct (mmio_u32 a p Ha Er) as [Hp _]. destruct (MachineBus.is_cdrom p).
    + pose proof (cdrom_read_ok p (cdrom b) (cdrom_field b Hb)) as Hc.
      destruct (CdRom.read_register p (cdrom b)) as [r c]. destruct Hc as (Hc & Hn & Hv).
      split_and!; [by bus_fields Hb|by apply map_err_no_panic|].
      intros v Ev%map_err_ok. auto.
    + apply (read_bind 16).
      * apply read_mmio_u16_ok; [done|]. apply in_u_land_bnot; [lia|done|lit].
      * intros h b' Hh Hb'. split_and!; [done..|]. intros v [= <-]. by apply low_byte_u8.
  - destruct (p =? BIOS_REGION_BYTE); [|done].
    split_and!; [done..|]. intros v [= <-]. by apply region_field.
Qed.

Lemma bus_read_u16 a b : bus_ok b -> u32 a -> reads 16 (MachineBus.read_u16 a b).
Proof.
  intros Hb Ha. unfold MachineBus.read_u16. region a Er.
  assert (reads 16 (faulting (Ps1Memory.read_decoded_u16 a r (memory b)), b)) as Hother.
  { apply pure_read; [done|].
    pose proof (read_spec_ok 2 a (memory b) (proj1 (memory_field b Hb)) Ha ltac:(lia)) as Hs.
    rewrite <- read_u16_spec in Hs by (done || apply (memory_field b Hb)).
    unfold Ps1Memory.read_u16 in Hs. by rewrite Er in Hs. }
  destruct r as [o|o|p|p|p]; try done.
  apply read_mmio_u16_ok; [done|]. by apply (mmio_u32 a p).
Qed.

Lemma read_mmio_u32_ok p b :
  bus_ok b -> u32 p -> reads 32 (MachineBus.read_mmio_u32 p b).
Proof.
  intros Hb Hp. unfold MachineBus.read_mmio_u32.
  destruct (MachineBus.is_memory_control p).
  { apply pure_read; [done|by apply read_control_ok, memory_field]. }
  destruct (MachineBus.is_irq p).
  { apply (reads_mono 11); [lia|]. apply pure_read; [done|]. by apply irq_read_ok, irq_field. }
  destruct (MachineBus.is_timer p).
  { apply (reads_mono 16); [lia|]. by apply timer_read_ok. }
  destruct (MachineBus.is_dma_word p).
  { apply pure_read; [done|]. apply dma_read_ok; [by apply dma_field|done]. }
  destruct (MachineBus.is_gpu p).
  { apply pure_read; [done|]. by apply gpu_read_ok, gpu_field. }
  destruct (MachineBus.is_mdec p).
  { apply pure_read; [done|]. by apply mdec_read_ok, mdec_field. }
  destruct (MachineBus.is_spu p); [|by split].
  pose proof (in_u_nonneg _ _ Hp) as Hp0.
  destruct (spu_read_any p (spu b) (spu_field b Hb) Hp0) as [Hn1 Hv1].
  destruct (spu_read_any (p + 2) (spu b) (spu_field b Hb) ltac:(lia)) as [Hn2 Hv2].
  split; [done|]. cbn [fst].
  destruct (Spu.read_register p (spu b)) as [low|e|]; cbn [faulting map_err obind]; [|by split|done].
  destruct (Spu.read_register (p + 2) (spu b)) as [high|e|]; cbn [faulting map_err obind]; [|by split|done].
  split; [done|]. intros v [= <-].
  specialize (Hv1 low eq_refl). specialize (Hv2 high eq_refl).
  apply u32_or; [eapply in_u_mono; [|done]; lia|].
  rewrite Z.shiftl_mul_pow2 by lia. apply u16_bounds in Hv2. unfold in_u. lia.
Qed.

Lemma read_region_u32_ok a b : bus_ok b -> u32 a -> reads 32 (MachineBus.read_region_u32 a b).
Proof.
  intros Hb Ha. unfold MachineBus.read_region_u32. region a Er. cbn zeta.
  assert (reads 32 (faulting (Ps1Memory.read_decoded_u32 a r (memory b)), b)) as Hother.
  { apply pure_read; [done|].
    pose proof (read_spec_ok 4 a (memory b) (proj1 (memory_field b Hb)) Ha ltac:(lia)) as Hs.
    rewrite <- read_u32_spec in Hs by (done || apply (memory_field b Hb)).
    unfold Ps1Memory.read_u32 in Hs. by rewrite Er in Hs. }
  destruct r as [o|o|p|p|p]; try done.
  { apply read_mmio_u32_ok; [done|]. by apply (mmio_u32 a p). }
  destruct (_ =? _); [|destruct (_ =? _); [|destruct (_ =? _); [|done]]];
    (split_and!; [done..|]; intros v [= <-]; lit).
Qed.

Lemma bus_read_u32 a b : bus_ok b -> u32 a -> reads 32 (MachineBus.read_u32 a b).
Proof.
  intros Hb Ha. unfold MachineBus.read_u32. pose proof (prefetch_field b Hb) as Hp.
  destruct (prefetched_instruction b) as [[pa i]|]; [|by apply read_region_u32_ok].
  destruct (pa =? a); [|by apply read_region_u32_ok].
  split_and!; [by bus_fields Hb|done|]. by intros v [= <-].
Qed.

Lemma memory_write_ok (m : Ps1Memory -> outcome MemoryError unit * Ps1Memory) b :
  bus_ok b -> (let (r, m') := m (memory b) in memory_ok m' /\ no_panic r) ->
  writes (MachineBus.write_memory m b).
Proof.
  intros Hb. unfold MachineBus.write_memory. destruct (m (memory b)) as [r m']. intros [Hm Hn].
  split; [by bus_fields Hb|by apply map_err_no_panic].
Qed.

Lemma write_u8_ok a v m :
  memory_ok m -> u32 a -> in_u 8 v ->
  let (r, m') := Ps1Memory.write_u8 a v m in memory_ok m' /\ no_panic r.
Proof.
  intros Hm Ha Hv. pose proof (write_u8_spec a v m (proj1 Hm) Ha Hv) as Hs.
  destruct (locate a).
  - destruct Hs as (m' & -> & Hm' & _ & Ec & _). split; [|done]. split; [done|].
    rewrite Ec. apply Hm.
  - destruct (Ps1Memory.write_u8 a v m) as [r m']. cbn in Hs. by destruct Hs as [? ->].
Qed.

Lemma bus_write_u8 a v b : bus_ok b -> u32 a -> in_u 8 v -> writes (MachineBus.write_u8 a v b).
Proof.
  intros Hb Ha Hv. unfold MachineBus.write_u8. region a Er.
  assert (writes (MachineBus.write_memory (Ps1Memory.write_u8 a v) b)) as Hother.
  { apply memory_write_ok; [done|]. by apply write_u8_ok; [apply memory_field|..]. }
  destruct r as [o|o|p|p|p]; try done.
  destruct (mmio_u32 a p Ha Er) as [Hp _]. destruct (MachineBus.is_cdrom p).
  - pose proof (cdrom_write_ok p v (cdrom b) (cdrom_field b Hb) Hv) as Hc.
    destruct (CdRom.write_register p v (cdrom b)) as [r c]. destruct Hc as (Hc & Hn).
    split; [by bus_fields Hb|by apply map_err_no_panic].
  - cbn zeta. assert (u32 (p .& bnot 32 1)) as Hal by (apply in_u_land_bnot; [lia|done|lit]).
    apply (read_write_bind 16); [by apply read_mmio_u16_ok|]. intros h b' Hh Hb'.
    apply write_mmio_u16_ok; [done|done|]. by apply merge_byte_u16.
Qed.

Lemma bus_write_u16 a v b : bus_ok b -> u32 a -> in_u 16 v -> writes (MachineBus.write_u16 a v b).
Proof.
  intros Hb Ha Hv. unfold MachineBus.write_u16. region a Er.
  assert (writes (MachineBus.write_memory (Ps1Memory.write_decoded_u16 a r v) b)) as Hother.
  { apply memory_write_ok; [done|]. apply write_decoded_ok; [by apply memory_field|done|lia|done]. }
  destruct r as [o|o|p|p|p]; try done.
  apply write_mmio_u16_ok; [done| |done]. by apply (mmio_u32 a p).
Qed.

Lemma write_mmio_u32_ok p v b :
  bus_ok b -> u32 p -> u32 v -> writes (MachineBus.write_mmio_u32 p v b).
Proof.
  intros Hb Hp Hv. unfold MachineBus.write_mmio_u32.
  destruct (MachineBus.is_memory_control p); [by apply control_write_ok|].
  destruct (MachineBus.is_irq p); [by apply irq_write_ok|].
  destruct (MachineBus.is_timer p); [by apply timer_write_ok|].
  destruct (MachineBus.is_dma_word p); [by apply dma_write_bus_ok|].
  destruct (MachineBus.is_gpu p).
  { pose proof (gpu_write_ok p v (gpu b) (gpu_field b Hb) Hv) as Hg.
    destruct (Gpu.write_register p v (gpu b)) as [r g]. destruct Hg as [Hg Hn].
    split; [by bus_fields Hb|by apply map_err_no_panic]. }
  destruct (MachineBus.is_mdec p).
  { pose proof (mdec_write_ok p v (mdec b) (mdec_field b Hb)) as Hg.
    destruct (Mdec.write_register p v (mdec b)) as [r g]. destruct Hg as [Hg Hn].
    split; [by bus_fields Hb|by apply map_err_no_panic]. }
  destruct (MachineBus.is_spu p); [|by split].
  pose proof (in_u_nonneg _ _ Hp).
  apply write_bind; [apply spu_write_ok; [done|done|apply land_u16]|]. intros b' Hb'.
  apply spu_write_ok; [done|lia|apply land_u16].
Qed.

Lemma bus_write_u32 a v b : bus_ok b -> u32 a -> u32 v -> writes (MachineBus.write_u32 a v b).
Proof.
  intros Hb Ha Hv. unfold MachineBus.write_u32. region a Er.
  assert (writes (MachineBus.write_memory (Ps1Memory.write_decoded_u32 a r v) b)) as Hother.
  { apply memory_write_ok; [done|]. apply write_decoded_ok; [by apply memory_field|done|lia|done]. }
  destruct r as [o|o|p|p|p]; try done.
  apply write_mmio_u32_ok; [done| |done]. by apply (mmio_u32 a p).
Qed.

(** The machine's bus satisfies what the interpreter relies on. *)
#[export] Instance machine_bus_laws : BusLaws MachineBus bus_ok.
Proof.
  split; intros; [by apply bus_read_u8|by apply bus_read_u16|by apply bus_read_u32
    |by apply bus_write_u8|by apply bus_write_u16|by apply bus_write_u32].
Qed.

(** ** The processor on the machine's bus *)

(** C3: The composed PS1 machine is safe at every processor step: from a well-formed
    processor, memory and devices, one instruction - whatever it fetches and
    whatever register of whatever device it touches - never panics, keeps memory,
    every device and the DMA/scheduler agreement well formed, and charges a nominal
    cycle count; a refused access is an error or a trap, not a crash. *)
Theorem machine_step_safe sample c b :
  R3000Wf.wf c -> bus_ok b ->
  let (r, s) := step_inner sample (c, b) in
  R3000Wf.wf s.1 /\ bus_ok s.2 /\ no_panic r /\ forall o, r = Ok o -> outcome_ok c o.
Proof.
  intros Hc Hb. pose proof (step_runs bus_ok sample c b Hc Hb) as Hr.
  destruct (step_inner sample (c, b)) as [r s].
  destruct Hr as ([Hc' Hb'] & Hn & Ho). by split_and!.
Qed.

(** The machine as [from_plan] builds its devices, around a RAM image. *)
Definition reset_bus (m : Ps1Memory) (region : Z) : MachineBus :=
  mkMachineBus m CdRom.new Gpu.new Mdec.new InterruptController.new RootCounters.new
    DmaController.new Spu.new Scheduler.new 0 region None.

Lemma reset_bus_ok m region : memory_ok m -> in_u 8 region -> bus_ok (reset_bus m region).
Proof.
  intros Hm Hr. split; cbn [reset_bus memory cdrom gpu mdec irq timers dma spu scheduler bus_now
    bios_region prefetched_instruction]; try done.
  - split; cbn [CdRom.new cd_index parameters parameter_count response response_read
      response_count interrupt_enable interrupt_flags]; try done; try lia.
    split; [done|]. by apply Forall_replicate.
  - unfold gpu_ok. rewrite !Forall_cons, Forall_nil. split_and!; try done; lit.
  - apply RootCounterFacts.bank_new_wf.
  - apply dma_new_wf.
  - apply orderly_new.
  - apply spu_new_ok.
Qed.

Lemma machine_memory_ok policy : memory_ok (Ps1Memory.new policy).
Proof.
  split; [apply memory_new_wf|]. cbn. unfold MEMORY_CONTROL_RESET.
  rewrite !Forall_cons, Forall_nil. split_and!; try done; lit.
Qed.

Lemma machine_step_safe_witness :
  let c := Cpu.with_load_delay_mode test_profile Interlocked in
  bus_ok (step_inner true (c, reset_bus (Ps1Memory.new Ones) 0x41)).2.2.
Proof.
  cbn zeta.
  pose proof (machine_step_safe true _ _ (cpu_new_wf test_profile Interlocked test_profile_wf)
    (reset_bus_ok (Ps1Memory.new Ones) 0x41 (machine_memory_ok Ones) ltac:(by apply u8_bounds))) as H.
  destruct (step_inner true _) as [r s]. exact (proj1 (proj2 H)).
Defined.

(** Writing back a half of [DICR] acknowledges every channel: the bus reads the
    register, replaces one half and writes the word, whose pending flags are
    write-one-to-clear. *)
Lemma dicr_merge_acknowledges value now d (q : Scheduler) (s : InterruptController) :
  in_u 16 value -> Ps1DmaFacts.wf d ->
  let merged := merge_half DICR (DmaController.dicr d) value in
  dicr_flags (DmaController.write DICR merged now d q s).2.1.1 .& DICR_CHANNEL_FLAGS = 0.
Proof.
  intros Hv Hd. cbn zeta. unfold DmaController.write.
  change (channel_register DICR) with (@None (Z * Z)). cbn [Z.eqb Pos.eqb].
  change (DICR =? DPCR) with false. change (DICR =? DICR) with true. cbn iota.
  unfold DmaController.write_dicr. cbn [fst snd set_dicr dicr_flags].
  unfold merge_half. change (DICR .& 2 =? 0) with true. cbn iota.
  apply Z.bits_inj'. intros i Hi.
  rewrite !Z.land_spec, testbit_bnot, !Z.land_spec, Z.lor_spec, Z.land_spec, Z.bits_0 by lia.
  unfold DmaController.dicr. rewrite !Z.lor_spec.
  destruct (Z.testbit DICR_CHANNEL_FLAGS i) eqn:Ef; [|by rewrite !andb_false_r].
  rewrite !andb_true_r. destruct (Z.testbit (dicr_flags d) i) eqn:Eb; [|done].
  assert (Z.testbit 0xffff0000 i = true) as ->.
  { change DICR_CHANNEL_FLAGS with (Z.shiftl (Z.ones 7) 24) in Ef.
    change 0xffff0000 with (Z.shiftl (Z.ones 16) 16).
    rewrite Z.shiftl_spec in * by lia.
    destruct (decide (i < 24)); [by rewrite Z.testbit_neg_r in Ef by lia|].
    destruct (decide (31 <= i)); [by rewrite Z.ones_spec_high in Ef by lia|].
    apply Z.ones_spec_low. lia. }
  rewrite (proj2 (Z.ltb_lt i 32)).
  - by rewrite orb_true_r.
  - destruct (decide (32 <= i)); [|lia].
    by rewrite (testbit_high 32 DICR_CHANNEL_FLAGS i ltac:(lit) l) in Ef.
Qed.
