(* ===== verification/Ps1Bios.v ===== *)
(** * PS1 BIOS services: crates/hle/ps1/bios/src/lib.rs

    The state the firmware keeps for a program - events, heaps, callbacks, hooks, jump
    tables - and the services that do not move strings or blocks of memory; those and the
    call table are in [Ps1BiosLibc].  A service works on the registers of its caller, the
    firmware's state and guest memory, which it reaches byte by byte through the interface
    [GuestMemory]; what it changed before it failed stays changed. *)

From S2P Require Import Prelude Records MachineInt Slices PsfText.
From S2P Require Import Buffer.

Definition REGISTER_COUNT : nat := 32.
Definition V0 : nat := 2.
Definition V1 : nat := 3.
Definition A0_ : nat := 4.
Definition S0_ : nat := 16.
Definition GP : nat := 28.
Definition T1 : nat := 9.
Definition SP : nat := 29.
Definition FP : nat := 30.
Definition RA : nat := 31.
Definition EVENT_SLOTS : nat := 32.
Definition INTERRUPT_PRIORITIES : nat := 8.
Definition CALLBACK_RETURN_PC : Z := 0xffffff00.
Definition TTY_FORMAT_BYTES : Z := 4096.
Definition TTY_STRING_BYTES : Z := 4096.
Definition RESIDENT_FILE_DESCRIPTOR : Z := 3.
Definition RAM_SIZE_ADDRESS : Z := 0x60.
Definition STRTOK_BUFFER_ADDRESS : Z := 0xc000.
Definition STRTOK_BUFFER_SIZE : Z := 256.
Definition KERNEL_MEMORY_ADDRESS : Z := 0xa000e000.
Definition KERNEL_MEMORY_SIZE : Z := 0x2000.
Definition A0_TABLE_ADDRESS : Z := 0x200.
Definition B0_TABLE_ADDRESS : Z := 0x500.
Definition C0_TABLE_ADDRESS : Z := 0x900.
Definition B0_STUB_ADDRESS : Z := 0x1000.
Definition C0_STUB_ADDRESS : Z := 0x1c00.
Definition C0_EXCEPTION_STUB_ADDRESS : Z := 0x4000.
Definition B0_CHANGE_CLEAR_PAD_STUB_ADDRESS : Z := 0x5000.
Definition A0_STUB_ADDRESS : Z := 0x7000.
Definition A0_GET_CONF_STUB_ADDRESS : Z := 0xa000.
Definition KERNEL_CONFIG_ADDRESS : Z := 0xb000.
Definition BIOS_PATCH_SCRATCH_ADDRESS : Z := 0xdf80.
Definition A0_TABLE_ENTRIES : Z := 0xc0.
Definition BIOS_TABLE_ENTRIES : Z := 256.
Definition BIOS_STUB_BYTES : Z := 12.
Definition U32_MAX : Z := 0xffffffff.

Inductive BiosVector := A0 | B0 | C0.

#[export] Instance BiosVector_eq_dec : EqDecision BiosVector.
Proof. solve_decision. Defined.

Inductive MemoryOperation := Read | Write.

Record GuestMemoryError := mkGuestMemoryError { gm_message : string }.

(** The memory a machine lends to the services.  A read takes the memory mutably too. *)
Class GuestMemory (M : Type) := {
  read_u8 : Z -> M -> outcome GuestMemoryError Z * M;
  write_u8 : Z -> Z -> M -> outcome GuestMemoryError unit * M;
}.

Record CpuContext := mkCpuContext {
  registers : list Z;
  pc : Z;
  hi : Z;
  lo : Z;
}.

#[export] Instance CpuContext_fields : Fields CpuContext := fun c =>
  mkCpuContext (registers c) (pc c) (hi c) (lo c).

Module CpuContext.

Definition reset (entry stack : Z) : CpuContext :=
  mkCpuContext (<[SP := stack]> (replicate REGISTER_COUNT 0)) entry 0 0.

Definition register (index : nat) (c : CpuContext) : option Z := registers c !! index.

Definition set_register (index : nat) (value : Z) (c : CpuContext) : bool * CpuContext :=
  match registers c !! index with
  | None => (false, c)
  | Some _ =>
      (true, if decide (index = 0%nat) then c else c <| registers := <[index := value]> (registers c) |>)
  end.

(** [self.registers[index]]: the services index the array by constants. *)
Definition reg (index : nat) (c : CpuContext) : Z := default 0 (registers c !! index).

Definition set_reg (index : nat) (value : Z) (c : CpuContext) : CpuContext :=
  c <| registers := <[index := value]> (registers c) |>.

Definition argument (index : nat) (c : CpuContext) : Z := reg (A0_ + index) c.

Definition return_value (value : Z) (c : CpuContext) : CpuContext := set_reg V0 value c.

Definition return_to_caller (c : CpuContext) : CpuContext := c <| pc := reg RA c |>.
End CpuContext.

Inductive HleAction := Return | Call | Halt | Wait | ReturnFromException.

#[export] Instance HleAction_eq_dec : EqDecision HleAction.
Proof. solve_decision. Defined.

Record HleOutcome := mkHleOutcome { ho_cycles : Z; ho_action : HleAction }.

Record CallbackRequest := mkCallbackRequest { cb_address : Z }.

Record HleLimits := mkHleLimits {
  memory_operation_bytes : Z;
  max_pending_callbacks : Z;
  callback_depth : Z;
  libc_callback_calls : Z;
}.

Definition default_limits : HleLimits := mkHleLimits (2 * 1024 * 1024) 64 16 1000000.

Inductive BiosError :=
| UnsupportedCall (vector : BiosVector) (function pc_ : Z)
| UnsupportedSyscall (number pc_ : Z)
| CallbackCapacity
| CallbackDepth
| CallbackStackEmpty
| LibcCallbackLimit (limit : Z)
| MemoryOperationLimit (size limit : Z)
| AddressOverflow
| GuestMemory_error (address : Z) (operation : MemoryOperation) (source : GuestMemoryError)
| HeapUnavailable
| OutOfMemory (size : Z)
| RomRead (address : Z).

Inductive EventState := Idle | Delivered.

#[export] Instance EventState_eq_dec : EqDecision EventState.
Proof. solve_decision. Defined.

Record Event := mkEvent {
  ev_class : Z;
  ev_spec : Z;
  ev_mode : Z;
  ev_callback : Z;
  ev_enabled : bool;
  ev_state : EventState;
}.

#[export] Instance Event_fields : Fields Event := fun e =>
  mkEvent (ev_class e) (ev_spec e) (ev_mode e) (ev_callback e) (ev_enabled e) (ev_state e).

(** An [EventSlot] is its one field. *)
Definition EventSlot : Type := option Event.

Record HeapBlock := mkHeapBlock { hb_address : Z; hb_size : Z }.

Record Heap := mkHeap { hp_base : Z; hp_end : Z; blocks : list HeapBlock }.

#[export] Instance Heap_fields : Fields Heap := fun h => mkHeap (hp_base h) (hp_end h) (blocks h).

Record ResidentFile := mkResidentFile { position_ : Z }.

Record CardState := mkCardState {
  card_initialized : bool;
  card_started : bool;
  pad_enabled : bool;
  backup_unit_initialized : bool;
}.

#[export] Instance CardState_fields : Fields CardState := fun c =>
  mkCardState (card_initialized c) (card_started c) (pad_enabled c) (backup_unit_initialized c).

Record PadState := mkPadState {
  pad_initialized : bool;
  pad_started : bool;
  pad_buffers : (Z * Z) * (Z * Z);
  button_destination : Z;
}.

#[export] Instance PadState_fields : Fields PadState := fun p =>
  mkPadState (pad_initialized p) (pad_started p) (pad_buffers p) (button_destination p).

Record KernelHandlerState := mkKernelHandlerState {
  timer_and_vblank : option Z;
  syscall : option Z;
  default_interrupt : option Z;
}.

#[export] Instance KernelHandlerState_fields : Fields KernelHandlerState := fun k =>
  mkKernelHandlerState (timer_and_vblank k) (syscall k) (default_interrupt k).

Record BiosTableState := mkBiosTableState { table_a0 : bool; table_b0 : bool; table_c0 : bool }.

#[export] Instance BiosTableState_fields : Fields BiosTableState := fun t =>
  mkBiosTableState (table_a0 t) (table_b0 t) (table_c0 t).

Inductive LibcOperationKind :=
| Qsort (base elements width outer inner : Z)
| Lsearch (key base elements width index : Z)
| Bsearch (key base width low high middle : Z).

Record LibcOperation := mkLibcOperation {
  saved_context : CpuContext;
  lo_callback : Z;
  lo_calls : Z;
  lo_kind : LibcOperationKind;
}.

#[export] Instance LibcOperation_fields : Fields LibcOperation := fun o =>
  mkLibcOperation (saved_context o) (lo_callback o) (lo_calls o) (lo_kind o).

Record BiosHle := mkBiosHle {
  limits : HleLimits;
  events : list EventSlot;
  pending_callbacks : list CallbackRequest;
  callback_stack : list CpuContext;
  heap : option Heap;
  kernel_heap : Heap;
  kernel_handlers : KernelHandlerState;
  resident_file : option ResidentFile;
  card : CardState;
  pad : PadState;
  tables : BiosTableState;
  strtok_next : option Z;
  libc_operation : option LibcOperation;
  random_state : Z;
  interrupts_enabled : bool;
  interrupt_hook : option Z;
  interrupt_queues : list Z;
  clear_root_counter : list bool;
}.

#[export] Instance BiosHle_fields : Fields BiosHle := fun b =>
  mkBiosHle (limits b) (events b) (pending_callbacks b) (callback_stack b) (heap b) (kernel_heap b)
    (kernel_handlers b) (resident_file b) (card b) (pad b) (tables b) (strtok_next b)
    (libc_operation b) (random_state b) (interrupts_enabled b) (interrupt_hook b)
    (interrupt_queues b) (clear_root_counter b).

Definition new (l : HleLimits) : BiosHle :=
  mkBiosHle l (replicate EVENT_SLOTS None) [] [] None
    (mkHeap KERNEL_MEMORY_ADDRESS (KERNEL_MEMORY_ADDRESS + KERNEL_MEMORY_SIZE) [])
    (mkKernelHandlerState None None None) None (mkCardState false false false false)
    (mkPadState false false ((0, 0), (0, 0)) 0) (mkBiosTableState false false false) None None 1
    true None (replicate INTERRUPT_PRIORITIES 0) (replicate 4 true).

(** ** Services as programs

    A [prog] runs on the firmware's state, the caller's registers, guest memory and the
    lines written to the host's terminal. *)

Record World (M : Type) := mkWorld {
  hle : BiosHle;
  ctx : CpuContext;
  mem : M;
  tty : list (list Z);
}.
Arguments mkWorld {M}.
Arguments hle {M}.
Arguments ctx {M}.
Arguments mem {M}.
Arguments tty {M}.

#[export] Instance World_fields M : Fields (World M) := fun w =>
  mkWorld (hle w) (ctx w) (mem w) (tty w).

Definition prog (M A : Type) : Type := World M -> outcome BiosError A * World M.

Definition ret {M A} (a : A) : prog M A := fun w => (Ok a, w).
Definition fail {M A} (e : BiosError) : prog M A := fun w => (Err e, w).
Definition lift {M A} (m : outcome BiosError A) : prog M A := fun w => (m, w).

Definition bind {M A B} (m : prog M A) (k : A -> prog M B) : prog M B := fun w =>
  match m w with
  | (Ok a, w) => k a w
  | (Err e, w) => (Err e, w)
  | (Panic, w) => (Panic, w)
  end.

Notation "'let*' x ':=' c1 'in' c2" := (bind c1 (fun x => c2))
  (at level 10, x pattern, c1 at level 100, c2 at level 200) : rust_scope.
Notation "c1 ;; c2" := (bind c1 (fun _ => c2)) (at level 100, right associativity) : rust_scope.

Definition gets {M A} (f : BiosHle -> A) : prog M A := fun w => (Ok (f (hle w)), w).
Definition asks {M A} (f : CpuContext -> A) : prog M A := fun w => (Ok (f (ctx w)), w).
Definition updates {M} (f : BiosHle -> BiosHle) : prog M unit := fun w => (Ok tt, w <| hle := f (hle w) |>).
Definition sets {M} (f : CpuContext -> CpuContext) : prog M unit := fun w => (Ok tt, w <| ctx := f (ctx w) |>).

(** A method of the firmware's state. *)
Definition on_hle {M A} (m : BiosHle -> outcome BiosError A * BiosHle) : prog M A := fun w =>
  let (r, b) := m (hle w) in (r, w <| hle := b |>).

(** A line on the host's standard error. *)
Definition eprint {M} (line : list Z) : prog M unit := fun w => (Ok tt, w <| tty := tty w ++ [line] |>).

Definition tty_prefix : list Z := str "[PS1 BIOS TTY]".

Definition argument {M} (i : nat) : prog M Z := asks (CpuContext.argument i).
Definition return_value {M} (v : Z) : prog M unit := sets (CpuContext.return_value v).

(** Returning a result with a cycle count. *)
Definition answer {M} (value cycles : Z) : prog M Z := return_value value ;; ret cycles.

(** ** Loops *)

(** [for offset in from..from + n] *)
Fixpoint for_range {M} (n : nat) (from : Z) (body : Z -> prog M unit) : prog M unit :=
  match n with
  | O => ret tt
  | S n => body from ;; for_range n (from + 1) body
  end.

(** [for offset in (from..from + n).rev()] *)
Fixpoint for_range_rev {M} (n : nat) (from : Z) (body : Z -> prog M unit) : prog M unit :=
  match n with
  | O => ret tt
  | S n => body (from + Z.of_nat n) ;; for_range_rev n from body
  end.

(** A [for] whose body may leave it with a value. *)
Fixpoint find_range {M A} (n : nat) (from : Z) (body : Z -> prog M (option A)) : prog M (option A) :=
  match n with
  | O => ret None
  | S n =>
      let* found := body from in
      match found with
      | Some a => ret (Some a)
      | None => find_range n (from + 1) body
      end
  end.

(** [loop]: the body goes on with a new state or leaves with a value.  The fuel is binary,
    so that a bound on the iterations costs nothing to write down. *)
Fixpoint run_loop {M S A} (fuel : positive) (body : S -> prog M (S + A)) (s : S) : prog M (S + A) :=
  match fuel with
  | xH => body s
  | xO p =>
      let* r := run_loop p body s in
      match r with inl s => run_loop p body s | inr a => ret (inr a) end
  | xI p =>
      let* r := body s in
      match r with
      | inl s =>
          let* r := run_loop p body s in
          match r with inl s => run_loop p body s | inr a => ret (inr a) end
      | inr a => ret (inr a)
      end
  end.

(** Every loop of the services counts a [u32] upwards and fails when it overflows. *)
Definition LOOP_FUEL : positive := 0x100000000.

Definition loop {M S A} (body : S -> prog M (S + A)) (s : S) : prog M A :=
  let* r := run_loop LOOP_FUEL body s in
  match r with inr a => ret a | inl _ => lift Panic end.

(** ** Guest memory *)

Section services.
Context {M : Type} `{GuestMemory M}.

Notation prog := (prog M).

(** [base.checked_add(offset).ok_or(AddressOverflow)?] *)
Definition checked_add (a b : Z) : prog Z := lift (ok_or (checked_add_u 32 a b) AddressOverflow).
Definition checked_mul (a b : Z) : prog Z := lift (ok_or (checked_mul_u 32 a b) AddressOverflow).

Definition access {A} (address : Z) (operation : MemoryOperation)
    (f : M -> outcome GuestMemoryError A * M) : prog A := fun w =>
  let (r, m) := f (mem w) in (map_err (GuestMemory_error address operation) r, w <| mem := m |>).

Definition read_byte (base offset : Z) : prog Z :=
  let* address := checked_add base offset in
  access address Read (read_u8 address).

Definition write_byte (base offset value : Z) : prog unit :=
  let* address := checked_add base offset in
  access address Write (write_u8 address value).

(** [offset + byte_offset] is an addition that may overflow. *)
Definition read_word (base offset : Z) : prog Z :=
  let at_ i := lift (expect (checked_add_u 32 offset i)) in
  let* o := at_ 0 in let* b0 := read_byte base o in
  let* o := at_ 1 in let* b1 := read_byte base o in
  let* o := at_ 2 in let* b2 := read_byte base o in
  let* o := at_ 3 in let* b3 := read_byte base o in
  ret (from_le [b0; b1; b2; b3]).

Fixpoint write_bytes (base offset : Z) (i : Z) (bytes : list Z) : prog unit :=
  match bytes with
  | [] => ret tt
  | byte :: bytes =>
      let* o := lift (expect (checked_add_u 32 offset i)) in
      write_byte base o byte ;;
      write_bytes base offset (i + 1) bytes
  end.

Definition write_word (base offset value : Z) : prog unit := write_bytes base offset 0 (le_bytes 4 value).

Definition write_hle_stub (address function vector_address : Z) : prog unit :=
  write_word address 0 (0x24090000 .| function) ;;
  write_word address 4 (0x08000000 .| (Z.shiftr vector_address 2 .& 0x03ffffff)) ;;
  write_word address 8 0.

Definition memory_cycles (size : Z) : Z := saturating_u 32 (8 + saturating_u 32 (size * 2)).

Definition element_address (base index width : Z) : outcome BiosError Z :=
  let? offset := ok_or (checked_mul_u 32 index width) AddressOverflow in
  ok_or (checked_add_u 32 base offset) AddressOverflow.

(** [alignment] is a power of two at every call. *)
Definition align_up (value alignment : Z) : outcome BiosError Z :=
  match checked_add_u 32 value (alignment - 1) with
  | Some value => Ok (value .& bnot 32 (alignment - 1))
  | None => Err AddressOverflow
  end.

Definition check_memory_size (size : Z) : prog unit := fun w =>
  let limit := memory_operation_bytes (limits (hle w)) in
  if limit <? size then (Err (MemoryOperationLimit size limit), w) else (Ok tt, w).

(** ** Jump tables *)

Definition install_stub (table_address stub_address vector_address function : Z) : prog unit :=
  let* table_offset := checked_mul function 4 in
  let* stub_offset := checked_mul function BIOS_STUB_BYTES in
  let* stub := checked_add stub_address stub_offset in
  write_word table_address table_offset stub ;;
  write_hle_stub stub function vector_address.

Definition set_tables (f : BiosTableState -> BiosTableState) (b : BiosHle) : BiosHle :=
  b <| tables := f (tables b) |>.

Definition initialize_boot_memory : prog unit :=
  let* installed := gets (fun b => table_a0 (tables b)) in
  if (installed : bool) then ret tt
  else
    for_range (Z.to_nat A0_TABLE_ENTRIES) 0 (install_stub A0_TABLE_ADDRESS A0_STUB_ADDRESS 0xa0) ;;
    write_word A0_TABLE_ADDRESS (0x9d * 4) A0_GET_CONF_STUB_ADDRESS ;;
    let config_reference := KERNEL_CONFIG_ADDRESS + 8 in
    let config_upper := Z.shiftr (config_reference + 0x8000) 16 in
    write_word A0_GET_CONF_STUB_ADDRESS 0 (0x3c020000 .| config_upper) ;;
    write_word A0_GET_CONF_STUB_ADDRESS 4 (0x24420000 .| (config_reference .& 0xffff)) ;;
    write_word A0_GET_CONF_STUB_ADDRESS 8 0x2409009d ;;
    write_word A0_GET_CONF_STUB_ADDRESS 12 0x08000028 ;;
    write_word A0_GET_CONF_STUB_ADDRESS 16 0 ;;
    updates (set_tables (fun t => t <| table_a0 := true |>)).

(** The entries some programs patch by fixed offsets. *)
Definition install_patched (vector : BiosVector) (table_address vector_address : Z) : prog unit :=
  match vector with
  | B0 =>
      write_word table_address (0x5b * 4) B0_CHANGE_CLEAR_PAD_STUB_ADDRESS ;;
      write_hle_stub B0_CHANGE_CLEAR_PAD_STUB_ADDRESS 0x5b vector_address
  | C0 =>
      write_word table_address (0x06 * 4) C0_EXCEPTION_STUB_ADDRESS ;;
      write_hle_stub C0_EXCEPTION_STUB_ADDRESS 0x06 vector_address ;;
      write_word C0_EXCEPTION_STUB_ADDRESS 0x70 0 ;;
      write_word C0_EXCEPTION_STUB_ADDRESS 0x74 (BIOS_PATCH_SCRATCH_ADDRESS - 0x28)
  | A0 => lift Panic
  end.

Definition get_function_table (vector : BiosVector) : prog Z :=
  let* t := gets tables in
  let* (table_address, stub_address, installed, vector_address) :=
    match vector with
    | B0 => ret (B0_TABLE_ADDRESS, B0_STUB_ADDRESS, table_b0 t, 0xb0)
    | C0 => ret (C0_TABLE_ADDRESS, C0_STUB_ADDRESS, table_c0 t, 0xc0)
    | A0 => lift Panic
    end in
  (if (installed : bool) then ret tt
   else
     check_memory_size (BIOS_TABLE_ENTRIES * (4 + BIOS_STUB_BYTES)) ;;
     for_range (Z.to_nat BIOS_TABLE_ENTRIES) 0 (install_stub table_address stub_address vector_address) ;;
     install_patched vector table_address vector_address ;;
     updates (set_tables (fun t => match vector with
                                   | B0 => t <| table_b0 := true |>
                                   | _ => t <| table_c0 := true |>
                                   end))) ;;
  answer table_address (if installed then 8 else 4096).

(** ** The resident file *)

Definition read_tty_string (source limit : Z) : prog (list Z) :=
  let* bound := gets (fun b => memory_operation_bytes (limits b)) in
  let limit := Z.min limit bound in
  let fix read (n : nat) (offset : Z) (output : list Z) : prog (list Z) :=
    match n with
    | O => fail (MemoryOperationLimit limit limit)
    | S n =>
        let* byte := read_byte source offset in
        if byte =? 0 then ret (reverse output) else read n (offset + 1) (byte :: output)
    end in
  read (Z.to_nat limit) 0 [].

Definition open : prog Z :=
  let* source := argument 0 in
  let* path := read_tty_string source TTY_STRING_BYTES in
  (if starts_with (str "sim:") path then
     updates (fun b => b <| resident_file := Some (mkResidentFile 0) |>) ;;
     return_value RESIDENT_FILE_DESCRIPTOR
   else return_value U32_MAX) ;;
  ret (memory_cycles (saturating_u 32 (saturating_u 32 (len path) + 1))).

Definition lseek : prog Z :=
  let* descriptor := argument 0 in
  let* file := gets resident_file in
  let* distance := argument 1 in
  let* whence := argument 2 in
  match (if descriptor =? RESIDENT_FILE_DESCRIPTOR then file else None) with
  | None => answer U32_MAX 6
  | Some f =>
      match (if whence =? 0 then Some 0 else if whence =? 1 then Some (position_ f) else None) with
      | None => answer U32_MAX 6
      | Some base =>
          let position := base + to_i 32 distance in
          if negb ((0 <=? position) && (position <=? U32_MAX)) then answer U32_MAX 6
          else
            updates (fun b => b <| resident_file := Some (mkResidentFile position) |>) ;;
            answer position 8
      end
  end.

Definition read : prog Z :=
  let* size := argument 2 in
  let* descriptor := argument 0 in
  let* file := gets resident_file in
  match (if descriptor =? RESIDENT_FILE_DESCRIPTOR then file else None) with
  | None => answer U32_MAX 6
  | Some f =>
      updates (fun b => b <| resident_file := Some (mkResidentFile (saturating_u 32 (position_ f + size))) |>) ;;
      answer size (memory_cycles size)
  end.

(** The bytes of [source..source + size], in order. *)
Fixpoint read_bytes (n : nat) (source offset : Z) : prog (list Z) :=
  match n with
  | O => ret []
  | S n =>
      let* byte := read_byte source offset in
      let* rest := read_bytes n source (offset + 1) in
      ret (byte :: rest)
  end.

Definition print_bytes (output : list Z) : prog unit :=
  if bool_decide (output = []) then ret tt
  else eprint (tty_prefix ++ str " " ++ from_utf8_lossy output ++ [10]).

Definition write : prog Z :=
  let* descriptor := argument 0 in
  let* source := argument 1 in
  let* size := argument 2 in
  if negb ((descriptor =? 1) || (descriptor =? 2)) then answer U32_MAX 6
  else
    check_memory_size size ;;
    let* output := read_bytes (Z.to_nat size) source 0 in
    print_bytes output ;;
    answer size (memory_cycles size).

Definition ioctl : prog Z := answer U32_MAX 6.

Definition isatty : prog Z :=
  let* descriptor := argument 0 in
  answer (if (0 <=? descriptor) && (descriptor <=? 2) then 1 else 0) 4.

Definition getc : prog Z := answer U32_MAX 8.

Definition getchar : prog Z := answer U32_MAX 8.

(** The UTF-8 bytes of [char::from(b)]. *)
Definition char_from (b : Z) : list Z :=
  if b <? 0x80 then [b] else [0xc0 .| Z.shiftr b 6; 0x80 .| (b .& 0x3f)].

Definition hex_byte (b : Z) : list Z := str (hex_digits 2 b "").

Definition putchar : prog Z :=
  let* a := argument 0 in
  let value := wrap 8 a in
  eprint (if value =? 10 then tty_prefix ++ [10]
          else if ((33 <=? value) && (value <=? 126)) || (value =? 32) || (value =? 9)
          then tty_prefix ++ str " " ++ char_from value ++ [10]
          else tty_prefix ++ str " <" ++ hex_byte value ++ str ">" ++ [10]) ;;
  answer value 8.

Definition putc : prog Z :=
  let* descriptor := argument 1 in
  if negb ((descriptor =? 1) || (descriptor =? 2)) then answer U32_MAX 6 else putchar.

Definition close : prog Z :=
  let* descriptor := argument 0 in
  let* file := gets resident_file in
  match (if descriptor =? RESIDENT_FILE_DESCRIPTOR then file else None) with
  | Some _ => updates (fun b => b <| resident_file := None |>) ;; answer 0 6
  | None => answer U32_MAX 6
  end.

Definition gets_ : prog Z :=
  let* destination := argument 0 in
  (if destination =? 0 then ret tt else write_byte destination 0 0) ;;
  answer destination 8.

Definition puts : prog Z :=
  let* source := argument 0 in
  let* output := if source =? 0 then ret (str "<NULL>") else read_tty_string source TTY_STRING_BYTES in
  print_bytes output ;;
  answer (saturating_u 32 (len output)) (memory_cycles (saturating_u 32 (len output))).

(** ** Pads and cards *)

Definition initialize_pad : prog Z :=
  let* a0 := argument 0 in
  let* s0 := argument 1 in
  let* a1 := argument 2 in
  let* s1 := argument 3 in
  let* total_size := checked_add s0 s1 in
  check_memory_size total_size ;;
  for_range (Z.to_nat s0) 0 (fun offset => write_byte a0 offset 0) ;;
  for_range (Z.to_nat s1) 0 (fun offset => write_byte a1 offset 0) ;;
  updates (fun b => b <| pad := mkPadState true false ((a0, s0), (a1, s1)) 0 |>) ;;
  updates (fun b => b <| card := (card b) <| pad_enabled := true |> |>) ;;
  answer 1 (memory_cycles total_size).

(** An empty port answers with the time-out status. *)
Definition start_port (buffer : Z * Z) (writes : Z) : prog Z :=
  if buffer.2 =? 0 then ret writes else write_byte buffer.1 0 0xff ;; ret (writes + 1).

Definition start_pad : prog Z :=
  let* p := gets pad in
  let* writes :=
    if pad_initialized p then
      let* writes := start_port (pad_buffers p).1 0 in start_port (pad_buffers p).2 writes
    else ret 0 in
  updates (fun b => b <| pad := (pad b) <| pad_started := true |> |>) ;;
  ret (memory_cycles writes).

Definition stop_pad : prog Z :=
  updates (fun b => b <| pad := (pad b) <| pad_started := false |> |>) ;;
  updates (fun b => b <| card := (card b) <| card_started := false |> |>) ;;
  ret 12.

Definition initialize_high_level_pad : prog Z :=
  let* kind := argument 0 in
  if negb ((kind =? 0x20000000) || (kind =? 0x20000001)) then answer 0 12
  else
    let* destination := argument 1 in
    (if destination =? 0 then ret tt else write_word destination 0 U32_MAX) ;;
    updates (fun b => b <| pad := mkPadState true true ((0, 0), (0, 0)) destination |>) ;;
    updates (fun b => b <| card := (card b) <| pad_enabled := true |> |>) ;;
    answer 2 24.

Definition read_high_level_pad : prog Z :=
  let* p := gets pad in
  (if button_destination p =? 0 then ret tt else write_word (button_destination p) 0 U32_MAX) ;;
  answer U32_MAX 12.

Definition initialize_card : prog Z :=
  let* enabled := argument 0 in
  updates (fun b => b <| card := mkCardState true false (negb (enabled =? 0)) false |>) ;;
  ret 40.

Definition start_card : prog Z :=
  updates (fun b => if card_initialized (card b) then b <| card := (card b) <| card_started := true |> |> else b) ;;
  ret 16.

Definition stop_card : prog Z :=
  updates (fun b => b <| card := (card b) <| card_started := false |> |>) ;;
  ret 12.

Definition initialize_backup_unit : prog Z :=
  updates (fun b => if card_initialized (card b)
                    then b <| card := (card b) <| backup_unit_initialized := true |> |> else b) ;;
  ret 24.

(** ** Heaps *)

(** The position of the first fit and the address there. *)
Fixpoint find_gap (size address : Z) (bs : list HeapBlock) : outcome BiosError (nat * Z) :=
  match bs with
  | [] => Ok (0%nat, address)
  | block :: bs =>
      let? candidate_end := ok_or (checked_add_u 32 address size) AddressOverflow in
      if candidate_end <=? hb_address block then Ok (0%nat, address)
      else
        let? address := ok_or (checked_add_u 32 (hb_address block) (hb_size block)) AddressOverflow in
        let? found := find_gap size address bs in
        Ok (S found.1, found.2)
  end.

Definition insert_at (i : nat) (b : HeapBlock) (bs : list HeapBlock) : list HeapBlock :=
  take i bs ++ b :: drop i bs.

Definition allocate_from_heap (size : Z) (h : Heap) : outcome BiosError Z * Heap :=
  match
    let? allocation_size := align_up (Z.max size 1) 8 in
    let? found := find_gap allocation_size (hp_base h) (blocks h) in
    let? allocation_end := ok_or (checked_add_u 32 found.2 allocation_size) AddressOverflow in
    if hp_end h <? allocation_end then Err (OutOfMemory size) else Ok (found, allocation_size)
  with
  | Ok ((insertion, address), allocation_size) =>
      (Ok address, h <| blocks := insert_at insertion (mkHeapBlock address allocation_size) (blocks h) |>)
  | Err e => (Err e, h)
  | Panic => (Panic, h)
  end.

(** [blocks.iter().position(|block| block.address == address)] *)
Fixpoint block_position (address : Z) (bs : list HeapBlock) : option nat :=
  match bs with
  | [] => None
  | b :: bs => if hb_address b =? address then Some 0%nat else S <$> block_position address bs
  end.

Definition remove_at {A} (i : nat) (l : list A) : list A := take i l ++ drop (S i) l.

Definition free_from_heap (address : Z) (h : Heap) : Heap :=
  match block_position address (blocks h) with
  | Some i => h <| blocks := remove_at i (blocks h) |>
  | None => h
  end.

Definition heap_bounds (start size : Z) : outcome BiosError (Z * Z) :=
  let? base := align_up start 8 in
  let? end_ := ok_or (checked_add_u 32 start size) AddressOverflow in
  if end_ <? base then Err (OutOfMemory size) else Ok (base, end_).

Definition initialize_heap : prog Z :=
  let* start := argument 0 in
  let* size := argument 1 in
  let* (base, end_) := lift (heap_bounds start size) in
  updates (fun b => b <| heap := Some (mkHeap base end_ []) |>) ;;
  answer base 20.

Definition initialize_kernel_heap : prog Z :=
  let* start := argument 0 in
  let* size := argument 1 in
  let* (base, end_) := lift (heap_bounds start size) in
  updates (fun b => b <| kernel_heap := mkHeap base end_ [] |>) ;;
  ret 20.

Definition allocate (size : Z) : prog Z :=
  on_hle (fun b =>
    match heap b with
    | None => (Err HeapUnavailable, b)
    | Some h => let (r, h) := allocate_from_heap size h in (r, b <| heap := Some h |>)
    end).

Definition malloc : prog Z :=
  let* size := argument 0 in
  let* address := allocate size in
  answer address 12.

Definition allocate_kernel_memory : prog Z :=
  let* size := argument 0 in
  let* address := on_hle (fun b =>
    let (r, h) := allocate_from_heap size (kernel_heap b) in
    let b := b <| kernel_heap := h |> in
    match r with
    | Err (OutOfMemory _) => (Ok U32_MAX, b)
    | r => (r, b)
    end) in
  answer address 12.

Definition free_kernel_memory : prog Z :=
  let* address := argument 0 in
  updates (fun b => b <| kernel_heap := free_from_heap address (kernel_heap b) |>) ;;
  ret 6.

Definition free : prog Z :=
  let* address := argument 0 in
  updates (fun b => b <| heap := free_from_heap address <$> heap b |>) ;;
  ret 6.

Definition calloc : prog Z :=
  let* count := argument 0 in
  let* element_size := argument 1 in
  let* size := checked_mul count element_size in
  check_memory_size size ;;
  sets (CpuContext.set_reg A0_ size) ;;
  malloc ;;
  let* destination := asks (CpuContext.reg V0) in
  for_range (Z.to_nat size) 0 (fun offset => write_byte destination offset 0) ;;
  answer destination (saturating_u 32 (memory_cycles size + 12)).

Definition copy_byte (source destination offset : Z) : prog unit :=
  let* value := read_byte source offset in
  write_byte destination offset value.

(** Where the block of an address lies, its size, and where the next one begins. *)
Definition block_room (address : Z) (h : Heap) : option (nat * Z * Z) :=
  match block_position address (blocks h) with
  | None => None
  | Some i =>
      match blocks h !! i with
      | None => None
      | Some b => Some (i, hb_size b,
                        match blocks h !! S i with Some n => hb_address n | None => hp_end h end)
      end
  end.

Definition grow_block (i : nat) (size : Z) (h : Heap) : Heap :=
  h <| blocks := alter (fun b => mkHeapBlock (hb_address b) size) i (blocks h) |>.

Definition realloc : prog Z :=
  let* old_address := argument 0 in
  let* new_size := argument 1 in
  check_memory_size new_size ;;
  if old_address =? 0 then
    let* address := allocate new_size in answer address 12
  else if new_size =? 0 then
    free ;; answer 0 8
  else
    let* new_allocation_size := lift (align_up (Z.max new_size 1) 8) in
    let* h := gets heap in
    match h with
    | None => fail HeapUnavailable
    | Some h =>
        match block_room old_address h with
        | None => answer 0 8
        | Some (index, old_size, following_address) =>
            let* grown_end := checked_add old_address new_allocation_size in
            if grown_end <=? following_address then
              updates (fun b => b <| heap := grow_block index new_allocation_size <$> heap b |>) ;;
              answer old_address 10
            else
              let* new_address := allocate new_size in
              let copied := Z.min old_size new_size in
              for_range (Z.to_nat copied) 0 (copy_byte old_address new_address) ;;
              updates (fun b => b <| heap := free_from_heap old_address <$> heap b |>) ;;
              answer new_address (saturating_u 32 (memory_cycles copied + 16))
        end
    end.

(** ** Events *)

(** Delivery to one slot: how often, and the event and queue afterwards. *)
Definition deliver (l : HleLimits) (class spec : Z) (slot : EventSlot) (queue : list CallbackRequest)
    : outcome BiosError bool * (EventSlot * list CallbackRequest) :=
  match slot with
  | None => (Ok false, (slot, queue))
  | Some e =>
      if negb (ev_enabled e) || negb (ev_class e =? class) || negb (ev_spec e =? spec)
      then (Ok false, (slot, queue))
      else if (ev_mode e =? 0x1000) && negb (ev_callback e =? 0) then
        if max_pending_callbacks l <=? Z.of_nat (length queue) then (Err CallbackCapacity, (slot, queue))
        else (Ok true, (slot, queue ++ [mkCallbackRequest (ev_callback e)]))
      else if ev_mode e =? 0x2000 then (Ok true, (Some (e <| ev_state := Delivered |>), queue))
      else (Ok true, (slot, queue))
  end.

Fixpoint deliver_all (l : HleLimits) (class spec delivered : Z) (slots : list EventSlot)
    (queue : list CallbackRequest) : outcome BiosError Z * (list EventSlot * list CallbackRequest) :=
  match slots with
  | [] => (Ok delivered, ([], queue))
  | slot :: slots =>
      match deliver l class spec slot queue with
      | (Ok hit, (slot, queue)) =>
          let delivered := if (hit : bool) then saturating_u 32 (delivered + 1) else delivered in
          let (r, s) := deliver_all l class spec delivered slots queue in
          (r, (slot :: s.1, s.2))
      | (Err e, (slot, queue)) => (Err e, (slot :: slots, queue))
      | (Panic, (slot, queue)) => (Panic, (slot :: slots, queue))
      end
  end.

Definition signal_event (class spec : Z) (b : BiosHle) : outcome BiosError Z * BiosHle :=
  let (r, s) := deliver_all (limits b) class spec 0 (events b) (pending_callbacks b) in
  (r, b <| events := s.1 |> <| pending_callbacks := s.2 |>).

Definition event_handle (index : nat) : Z := 0xf1000000 .| Z.of_nat index.

(** The first free slot. *)
Fixpoint free_slot (slots : list EventSlot) : option nat :=
  match slots with
  | [] => None
  | None :: _ => Some 0%nat
  | Some _ :: slots => S <$> free_slot slots
  end.

Definition open_event : prog Z :=
  let* slots := gets events in
  match free_slot slots with
  | None => answer U32_MAX 8
  | Some index =>
      let* class := argument 0 in
      let* spec := argument 1 in
      let* mode := argument 2 in
      let* callback := argument 3 in
      updates (fun b => b <| events := <[index := Some (mkEvent class spec mode callback false Idle)]> (events b) |>) ;;
      answer (event_handle index) 18
  end.

(** The slot a handle names, when it holds an event. *)
Definition event_slot (handle : Z) (b : BiosHle) : option (nat * Event) :=
  if negb (handle .& 0xffff0000 =? 0xf1000000) then None
  else
    let index := Z.to_nat (wrap 16 handle) in
    match events b !! index with
    | Some (Some e) => Some (index, e)
    | _ => None
    end.

Definition put_event (index : nat) (slot : EventSlot) (b : BiosHle) : BiosHle :=
  b <| events := <[index := slot]> (events b) |>.

Definition close_event : prog Z :=
  let* handle := argument 0 in
  updates (fun b => match event_slot handle b with Some (i, _) => put_event i None b | None => b end) ;;
  answer 1 10.

Definition enable_event (enabled : bool) : prog Z :=
  let* handle := argument 0 in
  updates (fun b => match event_slot handle b with
                    | Some (i, e) => put_event i (Some (e <| ev_enabled := enabled |>)) b
                    | None => b
                    end) ;;
  answer 1 8.

(** Whether the event was delivered; taking the delivery resets it. *)
Definition take_delivery (handle : Z) (b : BiosHle) : outcome BiosError bool * BiosHle :=
  match event_slot handle b with
  | None => (Ok false, b)
  | Some (i, e) =>
      if ev_enabled e && bool_decide (ev_state e = Delivered)
      then (Ok true, put_event i (Some (e <| ev_state := Idle |>)) b)
      else (Ok false, b)
  end.

Definition test_event : prog Z :=
  let* handle := argument 0 in
  let* delivered := on_hle (take_delivery handle) in
  let delivered := if (delivered : bool) then 1 else 0 in
  return_value delivered ;;
  sets (fun c => (CpuContext.set_register V1 delivered c).2) ;;
  ret 8.

Definition wait_event : prog (Z * bool) :=
  let* handle := argument 0 in
  let* delivered := on_hle (take_delivery handle) in
  (if (delivered : bool) then return_value 1 else ret tt) ;;
  ret (8, delivered).

Definition deliver_event : prog Z :=
  let* class := argument 0 in
  let* spec := argument 1 in
  let* delivered := on_hle (signal_event class spec) in
  answer delivered (saturating_u 32 (12 + saturating_u 32 (delivered * 4))).

Definition undeliver (class spec : Z) (slot : EventSlot) : EventSlot * bool :=
  match slot with
  | None => (slot, false)
  | Some e =>
      if (ev_class e =? class) && (ev_spec e =? spec) && (ev_mode e =? 0x2000)
      then (Some (e <| ev_state := Idle |>), true) else (slot, false)
  end.

Definition undeliver_event : prog Z :=
  let* class := argument 0 in
  let* spec := argument 1 in
  let* slots := gets events in
  let done_ := map (undeliver class spec) slots in
  updates (fun b => b <| events := map fst done_ |>) ;;
  answer (fold_left (fun n (s : EventSlot * bool) => if s.2 then saturating_u 32 (n + 1) else n) done_ 0) 10.

(** ** Interrupts, handlers and counters *)

Definition set_handlers (f : KernelHandlerState -> KernelHandlerState) (b : BiosHle) : BiosHle :=
  b <| kernel_handlers := f (kernel_handlers b) |>.

Definition initialize_timer_and_vblank_handlers : prog Z :=
  let* a := argument 0 in
  updates (set_handlers (fun k => k <| timer_and_vblank := Some a |>)) ;; ret 12.

Definition initialize_syscall_handler : prog Z :=
  let* a := argument 0 in
  updates (set_handlers (fun k => k <| syscall := Some a |>)) ;; ret 12.

Definition initialize_default_interrupt_handler : prog Z :=
  let* a := argument 0 in
  updates (set_handlers (fun k => k <| default_interrupt := Some a |>)) ;; ret 12.

Definition enqueue_interrupt : prog Z :=
  let* priority := argument 0 in
  let* queues := gets interrupt_queues in
  match queues !! Z.to_nat priority with
  | None => answer U32_MAX 8
  | Some _ =>
      let* value := argument 1 in
      updates (fun b => b <| interrupt_queues := <[Z.to_nat priority := value]> (interrupt_queues b) |>) ;;
      answer 0 10
  end.

Definition dequeue_interrupt : prog Z :=
  let* priority := argument 0 in
  let* queues := gets interrupt_queues in
  match queues !! Z.to_nat priority with
  | None => answer U32_MAX 8
  | Some queue =>
      let* value := argument 1 in
      let matched := queue =? value in
      (if matched
       then updates (fun b => b <| interrupt_queues := <[Z.to_nat priority := 0]> (interrupt_queues b) |>)
       else ret tt) ;;
      answer (if matched then 0 else U32_MAX) 10
  end.

Definition change_clear_counter : prog Z :=
  let* index := argument 0 in
  let* flags := gets clear_root_counter in
  match flags !! Z.to_nat index with
  | None => answer U32_MAX 6
  | Some previous =>
      let* value := argument 1 in
      updates (fun b => b <| clear_root_counter :=
        <[Z.to_nat index := negb (value =? 0)]> (clear_root_counter b) |>) ;;
      answer (if (previous : bool) then 1 else 0) 6
  end.

Definition root_counter_valid : prog bool :=
  let* handle := argument 0 in
  ret (handle .& 0xfffffffc =? 0xf2000000).

Definition root_counter_control : prog Z :=
  let* valid := root_counter_valid in
  answer (if (valid : bool) then 1 else 0) 12.

Definition get_root_counter : prog Z :=
  let* valid := root_counter_valid in
  answer (if (valid : bool) then 0 else U32_MAX) 8.

(** ** Jump buffers *)

(** The words of a jump buffer: [ra], [sp], [fp], [s0]..[s7], [gp]. *)
Fixpoint read_words (n : nat) (buffer index : Z) : prog (list Z) :=
  match n with
  | O => ret []
  | S n =>
      let* offset := checked_mul index 4 in
      let* word := read_word buffer offset in
      let* rest := read_words n buffer (index + 1) in
      ret (word :: rest)
  end.

Definition read_jump_buffer (buffer : Z) : prog (list Z) := read_words 12 buffer 0.

Definition saved_word (saved : list Z) (i : nat) : Z := default 0 (saved !! i).

(** [context.registers[S0..S0 + 8].copy_from_slice(&saved[3..11])] and its neighbours. *)
Definition restore_jump_buffer (saved : list Z) (c : CpuContext) : CpuContext :=
  let c := CpuContext.set_reg RA (saved_word saved 0) c in
  let c := CpuContext.set_reg SP (saved_word saved 1) c in
  let c := CpuContext.set_reg FP (saved_word saved 2) c in
  let c := fold_left (fun c i => CpuContext.set_reg (S0_ + i) (saved_word saved (3 + i)) c)
             (seq 0 8) c in
  CpuContext.set_reg GP (saved_word saved 11) c.

Definition BUFFER_SIZE : Z := 48.

Definition setjmp : prog Z :=
  check_memory_size BUFFER_SIZE ;;
  let* buffer := argument 0 in
  let* saved := asks (fun c => map (fun i => CpuContext.reg i c)
    [RA; SP; FP; S0_; S0_ + 1; S0_ + 2; S0_ + 3; S0_ + 4; S0_ + 5; S0_ + 6; S0_ + 7; GP]%nat) in
  for_range 12 0 (fun i =>
    let* offset := checked_mul i 4 in
    write_word buffer offset (saved_word saved (Z.to_nat i))) ;;
  answer 0 (memory_cycles BUFFER_SIZE).

Definition longjmp : prog Z :=
  check_memory_size BUFFER_SIZE ;;
  let* buffer := argument 0 in
  let* value := argument 1 in
  let* saved := read_jump_buffer buffer in
  sets (restore_jump_buffer saved) ;;
  answer value (memory_cycles BUFFER_SIZE).

(** [saved[0]] is the program counter of a hook as well as its return address. *)
Definition prepare_interrupt_hook : prog bool :=
  let* hook := gets interrupt_hook in
  match hook with
  | None => ret false
  | Some buffer =>
      let* saved := read_jump_buffer buffer in
      sets (fun c => restore_jump_buffer saved (c <| pc := saved_word saved 0 |>)) ;;
      return_value 1 ;;
      ret true
  end.

(** ** Callbacks *)

Definition take_callback (b : BiosHle) : option CallbackRequest * BiosHle :=
  match pending_callbacks b with
  | [] => (None, b)
  | request :: rest => (Some request, b <| pending_callbacks := rest |>)
  end.

Definition libc_callback_active (b : BiosHle) : bool := bool_decide (is_Some (libc_operation b)).

Definition callback_active (b : BiosHle) : bool :=
  negb (bool_decide (callback_stack b = [])) || libc_callback_active b.

(** The stack grows at its head. *)
Definition enter_callback (callback : CallbackRequest) : prog unit :=
  let* depth := gets (fun b => Z.of_nat (length (callback_stack b))) in
  let* bound := gets (fun b => callback_depth (limits b)) in
  if bound <=? depth then fail CallbackDepth
  else
    let* context := asks id in
    updates (fun b => b <| callback_stack := context :: callback_stack b |>) ;;
    sets (fun c => CpuContext.set_reg RA CALLBACK_RETURN_PC (c <| pc := cb_address callback |>)).

Definition return_from_callback : prog unit :=
  let* stack := gets callback_stack in
  match stack with
  | [] => fail CallbackStackEmpty
  | saved :: rest =>
      updates (fun b => b <| callback_stack := rest |>) ;;
      sets (fun _ => saved)
  end.

Definition reject_rom_read (address : Z) : outcome BiosError Z := Err (RomRead address).

Definition set_memory_size : prog Z :=
  let* size := argument 0 in
  write_word RAM_SIZE_ADDRESS 0 size ;;
  ret 12.

(** ** System calls *)

Definition dispatch_syscall (number : Z) : prog HleOutcome :=
  let* cycles :=
    if number =? 0 then ret 6
    else if number =? 1 then
      let* was_enabled := gets interrupts_enabled in
      updates (fun b => b <| interrupts_enabled := false |>) ;;
      answer (if (was_enabled : bool) then 1 else 0) 6
    else if number =? 2 then
      updates (fun b => b <| interrupts_enabled := true |>) ;; ret 6
    else let* at_ := asks pc in fail (UnsupportedSyscall number at_) in
  sets (fun c => c <| pc := wrap 32 (pc c + 4) |>) ;;
  ret (mkHleOutcome cycles Return).
End services.
