(* ===== verification/Ps1BiosLibc.v ===== *)
(** * PS1 BIOS services on strings and memory, and the call table

    The rest of crates/hle/ps1/bios/src/lib.rs: the C library the firmware offers - memory
    and string routines, number parsing, formatted output, sorting and searching with a
    guest comparator - and [dispatch], the table that binds function numbers to services. *)

From S2P Require Import Prelude Records MachineInt Slices PsfText.
From S2P Require Import Buffer Ps1Bios.

Section libc.
Context {M : Type} `{GuestMemory M}.

Notation prog := (prog M).

(** ** Memory *)

Definition memory_copy (overlap_safe : bool) : prog Z :=
  let* destination := argument 0 in
  let* source := argument 1 in
  let* size := argument 2 in
  check_memory_size size ;;
  let* backwards :=
    if overlap_safe && (source <? destination) then
      let* source_end := checked_add source size in ret (destination <? source_end)
    else ret false in
  (if (backwards : bool)
   then for_range_rev (Z.to_nat size) 0 (copy_byte source destination)
   else for_range (Z.to_nat size) 0 (copy_byte source destination)) ;;
  answer destination (memory_cycles size).

Definition bcopy : prog Z :=
  let* source := argument 0 in
  let* destination := argument 1 in
  let* size := argument 2 in
  check_memory_size size ;;
  for_range (Z.to_nat size) 0 (copy_byte source destination) ;;
  answer source (memory_cycles size).

Definition bzero : prog Z :=
  let* destination := argument 0 in
  let* size := argument 1 in
  check_memory_size size ;;
  for_range (Z.to_nat size) 0 (fun offset => write_byte destination offset 0) ;;
  answer destination (memory_cycles size).

Definition memory_set : prog Z :=
  let* destination := argument 0 in
  let* value := argument 1 in
  let* size := argument 2 in
  check_memory_size size ;;
  for_range (Z.to_nat size) 0 (fun offset => write_byte destination offset (wrap 8 value)) ;;
  answer destination (memory_cycles size).

Definition memory_compare : prog Z :=
  let* left_ := argument 0 in
  let* right_ := argument 1 in
  let* size := argument 2 in
  check_memory_size size ;;
  let* result := find_range (Z.to_nat size) 0 (fun offset =>
    let* l := read_byte left_ offset in
    let* r := read_byte right_ offset in
    ret (if l =? r then None else Some (l - r))) in
  answer (of_i 32 (default 0 result)) (memory_cycles size).

Definition memory_character : prog Z :=
  let* source := argument 0 in
  let* target := argument 1 in
  let* size := argument 2 in
  check_memory_size size ;;
  let* result := find_range (Z.to_nat size) 0 (fun offset =>
    let* value := read_byte source offset in
    if value =? wrap 8 target then let* at_ := checked_add source offset in ret (Some at_)
    else ret None) in
  answer (default 0 result) (memory_cycles size).

(** ** Strings *)

Definition read_string_byte (source offset : Z) : prog Z :=
  let* limit := gets (fun b => memory_operation_bytes (limits b)) in
  if limit <=? offset then fail (MemoryOperationLimit (saturating_u 32 (offset + 1)) limit)
  else read_byte source offset.

(** Going on with the next offset. *)
Definition next {A} (offset : Z) : prog (Z + A) :=
  let* offset := checked_add offset 1 in ret (inl offset).

Definition string_contains (list_ target : Z) : prog bool :=
  if list_ =? 0 then ret false
  else
    loop (fun offset =>
      let* value := read_string_byte list_ offset in
      if value =? 0 then ret (inr false)
      else if value =? target then ret (inr true)
      else next offset) 0.

(** The offset of the terminator. *)
Definition scan_end (source : Z) : prog Z :=
  loop (fun offset =>
    let* value := read_string_byte source offset in
    if value =? 0 then ret (inr offset) else next offset) 0.

Definition string_length : prog Z :=
  let* source := argument 0 in
  if source =? 0 then answer 0 4
  else
    let* length := scan_end source in
    answer length (memory_cycles (saturating_u 32 (length + 1))).

Definition string_concat (maximum : option Z) : prog Z :=
  let* destination := argument 0 in
  let* source := argument 1 in
  if (destination =? 0) || (source =? 0) then answer 0 6
  else
    let* destination_length := scan_end destination in
    let* size := loop (fun source_offset =>
      let* length := checked_add destination_length source_offset in
      let* size := checked_add length 1 in
      check_memory_size size ;;
      if match maximum with Some m => m <=? source_offset | None => false end then
        write_byte destination length 0 ;;
        ret (inr size)
      else
        let* value := read_byte source source_offset in
        write_byte destination length value ;;
        if value =? 0 then ret (inr size) else next source_offset) 0 in
    answer destination (memory_cycles size).

Definition strcat : prog Z := string_concat None.
Definition strncat : prog Z := let* maximum := argument 2 in string_concat (Some maximum).

Definition string_compare (maximum : option Z) : prog Z :=
  let* left_ := argument 0 in
  let* right_ := argument 1 in
  match (if left_ =? 0 then if right_ =? 0 then Some 0 else Some (-1)
         else if right_ =? 0 then Some 1 else None) with
  | Some result => answer (of_i 32 result) 6
  | None =>
      let* (result, offset) := loop (fun offset =>
        if match maximum with Some m => m <=? offset | None => false end then ret (inr (0, offset))
        else
          let* left_byte := read_string_byte left_ offset in
          let* right_byte := read_string_byte right_ offset in
          if negb (left_byte =? right_byte) then ret (inr (to_i 8 left_byte - to_i 8 right_byte, offset))
          else if left_byte =? 0 then ret (inr (0, offset))
          else next offset) 0 in
      answer (of_i 32 result) (memory_cycles (saturating_u 32 (offset + 1)))
  end.

(** Whether the terminator has been copied is the state of the copy. *)
Fixpoint copy_string (n : nat) (bounded : bool) (source destination offset : Z) (terminated : bool)
    : prog (option Z) :=
  match n with
  | O => ret None
  | S n =>
      let* value := if terminated then ret 0 else read_string_byte source offset in
      let terminated := terminated || (value =? 0) in
      write_byte destination offset value ;;
      if negb bounded && terminated then ret (Some offset)
      else copy_string n bounded source destination (offset + 1) terminated
  end.

Definition string_copy (maximum : option Z) : prog Z :=
  let* destination := argument 0 in
  let* source := argument 1 in
  if (destination =? 0) || (source =? 0) then answer 0 6
  else
    let* bound := gets (fun b => memory_operation_bytes (limits b)) in
    let limit := default bound maximum in
    check_memory_size limit ;;
    let bounded := bool_decide (is_Some maximum) in
    let* last := copy_string (Z.to_nat limit) bounded source destination 0 false in
    match last with
    | Some offset => answer destination (memory_cycles (saturating_u 32 (offset + 1)))
    | None =>
        if bounded then answer destination (memory_cycles limit)
        else fail (MemoryOperationLimit limit limit)
    end.

Definition string_character (reverse : bool) : prog Z :=
  let* source := argument 0 in
  let* target := argument 1 in
  if source =? 0 then answer 0 4
  else
    let target := wrap 8 target in
    let* (found, offset) := loop (fun '(found, offset) =>
      let* value := read_string_byte source offset in
      let* found := if value =? target then let* at_ := checked_add source offset in ret (Some at_)
                    else ret found in
      if (value =? target) && negb reverse then ret (inr (found, offset))
      else if value =? 0 then ret (inr (found, offset))
      else let* offset := checked_add offset 1 in ret (inl (found, offset))) (None, 0) in
    answer (default 0 found) (memory_cycles (saturating_u 32 (offset + 1))).

Definition string_pbrk : prog Z :=
  let* source := argument 0 in
  let* list_ := argument 1 in
  if (source =? 0) || (list_ =? 0) then answer 0 4
  else
    let* (result, offset) := loop (fun offset =>
      let* value := read_string_byte source offset in
      if value =? 0 then ret (inr (0, offset))
      else
        let* found := string_contains list_ value in
        if (found : bool) then let* at_ := checked_add source offset in ret (inr (at_, offset))
        else next offset) 0 in
    answer result (memory_cycles (saturating_u 32 (offset + 1))).

Definition string_span (accept : bool) : prog Z :=
  let* source := argument 0 in
  let* list_ := argument 1 in
  if source =? 0 then answer 0 4
  else
    let* offset := loop (fun offset =>
      let* value := read_string_byte source offset in
      if value =? 0 then ret (inr offset)
      else
        let* found := string_contains list_ value in
        if negb (Bool.eqb found accept) then ret (inr offset) else next offset) 0 in
    answer offset (memory_cycles (saturating_u 32 (offset + 1))).

(** Skipping delimiters: the start of a token, or the end of the string. *)
Definition skip_delimiters (delimiters cursor : Z) : prog (option Z * Z) :=
  loop (fun '(cursor, scanned) =>
    let* value := read_string_byte cursor 0 in
    if value =? 0 then ret (inr (None, scanned))
    else
      let* found := string_contains delimiters value in
      if negb found then ret (inr (Some cursor, scanned))
      else
        let* cursor := checked_add cursor 1 in
        let* scanned := checked_add scanned 1 in
        ret (inl (cursor, scanned))) (cursor, 0).

Definition set_strtok (next : option Z) (b : BiosHle) : BiosHle := b <| strtok_next := next |>.

Definition end_token (delimiters cursor scanned : Z) : prog Z :=
  loop (fun '(cursor, scanned) =>
    let* value := read_string_byte cursor 0 in
    if value =? 0 then updates (set_strtok None) ;; ret (inr scanned)
    else
      let* found := string_contains delimiters value in
      if (found : bool) then
        write_byte cursor 0 0 ;;
        let* rest := checked_add cursor 1 in
        updates (set_strtok (Some rest)) ;;
        ret (inr scanned)
      else
        let* cursor := checked_add cursor 1 in
        let* scanned := checked_add scanned 1 in
        check_memory_size scanned ;;
        ret (inl (cursor, scanned))) (cursor, scanned).

Definition string_token : prog Z :=
  let* source := argument 0 in
  let* delimiters := argument 1 in
  if delimiters =? 0 then answer 0 4
  else
    (if source =? 0 then ret tt
     else
       let* input := read_tty_string source STRTOK_BUFFER_SIZE in
       for_range (S (length input)) 0 (fun offset =>
         write_byte STRTOK_BUFFER_ADDRESS offset (default 0 (input !! Z.to_nat offset))) ;;
       updates (set_strtok (Some STRTOK_BUFFER_ADDRESS))) ;;
    let* start := gets strtok_next in
    match start with
    | None => answer 0 6
    | Some cursor =>
        let* (token, scanned) := skip_delimiters delimiters cursor in
        match token with
        | None =>
            updates (set_strtok None) ;;
            answer 0 (memory_cycles (saturating_u 32 (scanned + 1)))
        | Some token =>
            let* scanned := end_token delimiters token scanned in
            answer token (memory_cycles (saturating_u 32 (scanned + 1)))
        end
    end.

(** Whether the needle lies at an offset of the haystack. *)
Fixpoint matches_at (haystack offset : Z) (needle_offset : Z) (needle : list Z) : prog bool :=
  match needle with
  | [] => ret true
  | expected :: needle =>
      let* candidate_offset := checked_add offset needle_offset in
      let* value := read_string_byte haystack candidate_offset in
      if negb (value =? expected) then ret false
      else matches_at haystack offset (needle_offset + 1) needle
  end.

Definition string_string : prog Z :=
  let* haystack := argument 0 in
  let* needle_address := argument 1 in
  if (haystack =? 0) || (needle_address =? 0) then answer 0 4
  else
    let* bound := gets (fun b => memory_operation_bytes (limits b)) in
    let* needle := read_tty_string needle_address bound in
    if bool_decide (needle = []) then answer haystack 4
    else
      let* (result, offset) := loop (fun offset =>
        let* value := read_string_byte haystack offset in
        if value =? 0 then ret (inr (0, offset))
        else
          let* found := matches_at haystack offset 0 needle in
          if (found : bool) then let* at_ := checked_add haystack offset in ret (inr (at_, offset))
          else next offset) 0 in
      answer result (memory_cycles (saturating_u 32 (offset + 1))).

(** ** Numbers *)

Record ParsedInteger := mkParsedInteger { pi_value : Z; pi_end : Z; pi_bytes_read : Z }.

Definition ascii_digit (byte : Z) : option Z :=
  if is_digit byte then Some (byte - 0x30)
  else if is_upper byte then Some (byte - 0x41 + 10)
  else if is_lower byte then Some (byte - 0x61 + 10)
  else None.

Definition skip_space (source : Z) : prog Z :=
  loop (fun offset =>
    let* value := read_string_byte source offset in
    if ((0x09 <=? value) && (value <=? 0x0d)) || (value =? 0x20) then next offset
    else ret (inr offset)) 0.

(** The base a prefix asks for, and the offset behind it. *)
Definition parse_base (source offset base : Z) (zero_octal : bool) : prog (Z * Z) :=
  let* first := read_string_byte source offset in
  let* second :=
    if first =? 0x30 then
      let* o := checked_add offset 1 in
      let* b := read_string_byte source o in ret (Some b)
    else ret None in
  let one a b := match second with Some s => (s =? a) || (s =? b) | None => false end in
  if one 0x62 0x42 then let* offset := checked_add offset 2 in ret (2, offset)
  else if one 0x78 0x58 then let* offset := checked_add offset 2 in ret (16, offset)
  else if (zero_octal && (first =? 0x30)) || (first =? 0x6f) || (first =? 0x4f)
  then let* offset := checked_add offset 1 in ret (8, offset)
  else ret (base, offset).

Definition parse_digits (source base offset : Z) : prog (Z * Z) :=
  loop (fun '(result, offset) =>
    let* byte := read_string_byte source offset in
    match ascii_digit byte with
    | None => ret (inr (result, offset))
    | Some digit =>
        if base <=? digit then ret (inr (result, offset))
        else
          let* offset := checked_add offset 1 in
          ret (inl (wrap 32 (wrap 32 (result * base) + digit), offset))
    end) (0, offset).

Definition parse_integer (source requested_base : Z) (signed zero_octal : bool) : prog ParsedInteger :=
  let base := if (2 <=? requested_base) && (requested_base <=? 36) then requested_base else 10 in
  let* offset := skip_space source in
  let* negative :=
    if signed then let* b := read_string_byte source offset in ret (b =? 0x2d) else ret false in
  let* offset := if (negative : bool) then checked_add offset 1 else ret offset in
  let* (base, offset) := parse_base source offset base zero_octal in
  let* (result, offset) := parse_digits source base offset in
  let* end_ := checked_add source offset in
  ret (mkParsedInteger (if negative then wrap 32 (- result) else result) end_
         (saturating_u 32 (offset + 1))).

Definition store_end (destination value : Z) : prog unit :=
  if destination =? 0 then ret tt else write_word destination 0 value.

Definition string_to_integer (signed : bool) : prog Z :=
  let* source := argument 0 in
  if source =? 0 then answer 0 6
  else
    let* base := argument 2 in
    let* parsed := parse_integer source base signed false in
    let* destination := argument 1 in
    store_end destination (pi_end parsed) ;;
    answer (pi_value parsed) (saturating_u 32 (memory_cycles (pi_bytes_read parsed) + 8)).

Definition strtoul : prog Z := string_to_integer false.
Definition strtol : prog Z := string_to_integer true.

Definition atoi : prog Z :=
  let* source := argument 0 in
  if source =? 0 then answer 0 6
  else
    let* parsed := parse_integer source 10 true true in
    answer (pi_value parsed) (saturating_u 32 (memory_cycles (pi_bytes_read parsed) + 8)).

Definition atob : prog Z :=
  let* source := argument 0 in
  if source =? 0 then answer 0 6
  else
    let* parsed := parse_integer source 10 true false in
    let* destination := argument 1 in
    store_end destination (pi_value parsed) ;;
    answer (pi_end parsed) (saturating_u 32 (memory_cycles (pi_bytes_read parsed) + 10)).

Definition to_digit : prog Z :=
  let* a := argument 0 in
  answer (default 9999999 (ascii_digit (wrap 8 a))) 6.

Definition absolute_value : prog Z :=
  let* a := argument 0 in
  answer (of_i 32 (Z.abs (to_i 32 a))) 4.

Definition change_case (uppercase : bool) : prog Z :=
  let* a := argument 0 in
  let byte := wrap 8 a in
  answer (if uppercase && is_lower byte then byte - 0x20
          else if negb uppercase && is_upper byte then byte + 0x20 else byte) 4.

Definition rand : prog Z :=
  updates (fun b => b <| random_state := wrap 32 (wrap 32 (random_state b * 1103515245) + 12345) |>) ;;
  let* s := gets random_state in
  answer (Z.shiftr s 16 .& 0x7fff) 8.

Definition srand : prog Z :=
  let* seed := argument 0 in
  updates (fun b => b <| random_state := seed |>) ;;
  answer 0 6.

(** ** [printf] *)

Definition printf_argument (index : nat) : prog Z :=
  if (index <=? 2)%nat then asks (CpuContext.reg (A0_ + 1 + index))
  else
    let* words := checked_mul (Z.of_nat (index - 3)) 4 in
    let* offset := checked_add 16 words in
    let* sp := asks (CpuContext.reg SP) in
    read_word sp offset.

(** The digits of [value] in base [2 ^ bits], without leading zeros. *)
Fixpoint radix_digits (n : nat) (bits : Z) (upper : bool) (value : Z) (tail : list Z) : list Z :=
  match n with
  | O => tail
  | S n =>
      let d := value mod 2 ^ bits in
      let tail := (if d <? 10 then 0x30 + d else (if upper then 0x37 else 0x57) + d) :: tail in
      if Z.shiftr value bits =? 0 then tail else radix_digits n bits upper (Z.shiftr value bits) tail
  end.

Definition integer_text (value : Z) : list Z := str (decimal value).

(** One conversion: the text of an argument. *)
Definition convert (conversion value : Z) : prog (list Z) :=
  let one c := conversion =? c in
  if one 0x63 then ret (char_from (wrap 8 value))
  else if one 0x64 || one 0x69 then ret (integer_text (to_i 32 value))
  else if one 0x6f then ret (radix_digits 11 3 false value [])
  else if one 0x70 then ret (str (hex8 value))
  else if one 0x73 then
    if value =? 0 then ret (str "(null)")
    else let* string := read_tty_string value TTY_STRING_BYTES in ret (from_utf8_lossy string)
  else if one 0x75 then ret (integer_text value)
  else if one 0x78 then ret (radix_digits 8 4 false value [])
  else if one 0x58 then ret (radix_digits 8 4 true value [])
  else ret (0x25 :: char_from conversion).

Definition is_flag (b : Z) : bool := existsb (Z.eqb b) (str "-+ #0").

(** Flags, width, precision and length of a conversion are skipped. *)
Definition skip_options (format : list Z) : list Z :=
  let format := drop_while is_digit (drop_while is_flag format) in
  let format := match format with
                | 0x2e :: rest => drop_while is_digit rest
                | _ => format
                end in
  drop_while (fun b => (b =? 0x68) || (b =? 0x6c)) format.

(** The rest of the format, one piece at a time. *)
Fixpoint format_loop (n : nat) (format : list Z) (arguments : nat) (output : list Z) : prog (list Z) :=
  match format with
  | [] => ret output
  | byte :: format =>
      match n with
      | O => lift Panic
      | S n =>
          if negb (byte =? 0x25) then format_loop n format arguments (output ++ char_from byte)
          else
            match format with
            | 0x25 :: format => format_loop n format arguments (output ++ [0x25])
            | _ =>
                match skip_options format with
                | [] => ret (output ++ [0x25])
                | conversion :: format =>
                    let* value := printf_argument arguments in
                    let* piece := convert conversion value in
                    format_loop n format (S arguments) (output ++ piece)
                end
            end
      end
  end.

Definition ends_with_newline (l : list Z) : bool := bool_decide (last l = Some 10).

Definition printf : prog Z :=
  let* source := argument 0 in
  let* format := read_tty_string source TTY_FORMAT_BYTES in
  let* output := format_loop (length format) format 0 [] in
  eprint (tty_prefix ++ str " " ++ output ++ (if ends_with_newline output then [] else [10])) ;;
  let length := saturating_u 32 (len output) in
  answer length (saturating_u 32 (12 + saturating_u 32 (length * 2))).

(** ** Sorting and searching

    The guest's comparator runs between two steps: a step leaves the operation suspended
    and the processor at the comparator, whose result resumes it. *)

Definition check_array (base elements width : Z) : prog unit :=
  let* size := checked_mul elements width in
  check_memory_size size ;;
  let* _ := checked_add base size in
  ret tt.

(** What the next comparison compares. *)
Definition comparison (kind : LibcOperationKind) : outcome BiosError (Z * Z) :=
  match kind with
  | Qsort base _ width _ inner =>
      let? left_ := element_address base (Z.max 0 (inner - 1)) width in
      let? right_ := element_address base inner width in
      Ok (left_, right_)
  | Lsearch key base _ width index =>
      let? right_ := element_address base index width in Ok (key, right_)
  | Bsearch key base width _ _ middle =>
      let? right_ := element_address base middle width in Ok (key, right_)
  end.

(** The operation with one more call counted, and the comparator's context. *)
Definition prepare_libc_comparison (operation : LibcOperation) : prog LibcOperation :=
  let* bound := gets (fun b => libc_callback_calls (limits b)) in
  if bound <=? lo_calls operation then fail (LibcCallbackLimit bound)
  else
    let* calls := lift (expect (checked_add_u 32 (lo_calls operation) 1)) in
    let* (left_, right_) := lift (comparison (lo_kind operation)) in
    sets (fun _ =>
      let c := (saved_context operation) <| pc := lo_callback operation |> in
      let c := CpuContext.set_reg A0_ left_ c in
      let c := CpuContext.set_reg (A0_ + 1) right_ c in
      CpuContext.set_reg RA CALLBACK_RETURN_PC c) ;;
    ret (operation <| lo_calls := calls |>).

Definition suspend (operation : LibcOperation) (b : BiosHle) : BiosHle :=
  b <| libc_operation := Some operation |>.

Definition start_libc_operation (callback : Z) (kind : LibcOperationKind) : prog unit :=
  let* active := gets libc_operation in
  match active with
  | Some _ => fail CallbackDepth
  | None =>
      let* context := asks id in
      let* operation := prepare_libc_comparison (mkLibcOperation context callback 0 kind) in
      updates (suspend operation)
  end.

Definition start_qsort : prog bool :=
  let* base := argument 0 in
  let* elements := argument 1 in
  let* width := argument 2 in
  check_array base elements width ;;
  if (elements <? 2) || (width =? 0) then ret false
  else
    let* callback := argument 3 in
    start_libc_operation callback (Qsort base elements width 1 1) ;;
    ret true.

(** The comparator of a search is its fifth argument, on the stack. *)
Definition start_search (kind : Z -> Z -> Z -> Z -> LibcOperationKind) : prog bool :=
  let* key := argument 0 in
  let* base := argument 1 in
  let* elements := argument 2 in
  let* width := argument 3 in
  check_array base elements width ;;
  if (elements =? 0) || (width =? 0) then return_value 0 ;; ret false
  else
    let* sp := asks (CpuContext.reg SP) in
    let* callback := read_word sp 16 in
    start_libc_operation callback (kind key base elements width) ;;
    ret true.

Definition start_lsearch : prog bool :=
  start_search (fun key base elements width => Lsearch key base elements width 0).

Definition start_bsearch : prog bool :=
  start_search (fun key base elements width => Bsearch key base width 0 elements (elements / 2)).

Definition swap_byte (left_ right_ offset : Z) : prog unit :=
  let* left_value := read_byte left_ offset in
  let* right_value := read_byte right_ offset in
  write_byte left_ offset right_value ;;
  write_byte right_ offset left_value.

(** One result of the comparator: the operation's next state, or its completion with the
    value it returns, if it returns one. *)
Definition advance_libc (result : Z) (kind : LibcOperationKind)
    : prog (LibcOperationKind + option Z) :=
  match kind with
  | Qsort base elements width outer inner =>
      let* inner :=
        if 0 <? result then
          let* left_ := lift (element_address base (Z.max 0 (inner - 1)) width) in
          let* right_ := lift (element_address base inner width) in
          for_range (Z.to_nat width) 0 (swap_byte left_ right_) ;;
          ret (Z.max 0 (inner - 1))
        else ret inner in
      let (outer, inner) := if (result <=? 0) || (inner =? 0)
                            then (saturating_u 32 (outer + 1), saturating_u 32 (outer + 1))
                            else (outer, inner) in
      ret (if elements <=? outer then inr None else inl (Qsort base elements width outer inner))
  | Lsearch key base elements width index =>
      if result =? 0 then
        let* found := lift (element_address base index width) in ret (inr (Some found))
      else
        let index := saturating_u 32 (index + 1) in
        ret (if elements <=? index then inr (Some 0) else inl (Lsearch key base elements width index))
  | Bsearch key base width low high middle =>
      if result =? 0 then
        let* found := lift (element_address base middle width) in ret (inr (Some found))
      else
        let (low, high) := if result <? 0 then (low, middle) else (saturating_u 32 (middle + 1), high) in
        if high <=? low then ret (inr (Some 0))
        else
          let* span := lift (expect (checked_sub_u high low)) in
          let* middle := lift (expect (checked_add_u 32 low (span / 2))) in
          ret (inl (Bsearch key base width low high middle))
  end.

Definition resume_libc_callback : prog HleOutcome :=
  let* v0 := asks (CpuContext.reg V0) in
  let result := to_i 32 v0 in
  let* active := gets libc_operation in
  match active with
  | None => fail CallbackStackEmpty
  | Some operation =>
      updates (fun b => b <| libc_operation := None |>) ;;
      let* step := advance_libc result (lo_kind operation) in
      match step with
      | inr value =>
          sets (fun _ => saved_context operation) ;;
          match value with Some v => return_value v | None => ret tt end ;;
          sets CpuContext.return_to_caller ;;
          ret (mkHleOutcome 10 Return)
      | inl kind =>
          let* operation := prepare_libc_comparison (operation <| lo_kind := kind |>) in
          updates (suspend operation) ;;
          ret (mkHleOutcome 10 Call)
      end
  end.
End libc.

(** ** The call table *)

Definition same_call (a b : BiosVector * Z) : bool := bool_decide (a.1 = b.1) && (a.2 =? b.2).

(** The arm of [first..=last]. *)
Definition calls (vector : BiosVector) (first last : Z) : list (BiosVector * Z) :=
  map (fun i => (vector, first + Z.of_nat i)) (seq 0 (Z.to_nat (last - first + 1))).

Definition service (M : Type) : Type := Ps1Bios.prog M (Z * HleAction).

Section table.
Context {M : Type} `{GuestMemory M}.

Notation prog := (prog M).

Definition returns (p : prog Z) : service M := let* cycles := p in ret (cycles, Return).
Definition acts (cycles : Z) (action : HleAction) : service M := ret (cycles, action).
Definition quiet (cycles : Z) : service M := acts cycles Return.

(** A libc operation that may have to call the guest. *)
Definition starts (p : prog bool) : service M :=
  let* started := p in ret (12, if (started : bool) then Call else Return).

(** The arms of [dispatch], in order: the calls an arm takes and its service. *)
Definition services : list (list (BiosVector * Z) * service M) := [
  ([(A0, 0x00); (B0, 0x32)], returns open);
  ([(A0, 0x01); (B0, 0x33)], returns lseek);
  ([(A0, 0x02); (B0, 0x34)], returns read);
  ([(A0, 0x03); (B0, 0x35)], returns write);
  ([(A0, 0x04); (B0, 0x36)], returns close);
  ([(A0, 0x05); (B0, 0x37)], returns ioctl);
  ([(A0, 0x06); (B0, 0x38)], acts 10 Halt);
  ([(A0, 0x07); (B0, 0x39)], returns isatty);
  ([(A0, 0x08); (B0, 0x3a)], returns getc);
  ([(A0, 0x09); (B0, 0x3b)], returns putc);
  ([(A0, 0x0a)], returns to_digit);
  ([(A0, 0x0c)], returns strtoul);
  ([(A0, 0x0d)], returns strtol);
  ([(A0, 0x0e); (A0, 0x0f)], returns absolute_value);
  ([(A0, 0x10); (A0, 0x11)], returns atoi);
  ([(A0, 0x12)], returns atob);
  ([(A0, 0x13)], returns setjmp);
  ([(A0, 0x14)], returns longjmp);
  ([(A0, 0x15)], returns strcat);
  ([(A0, 0x16)], returns strncat);
  ([(A0, 0x17)], returns (string_compare None));
  ([(A0, 0x18)], returns (let* n := argument 2 in string_compare (Some n)));
  ([(A0, 0x19)], returns (string_copy None));
  ([(A0, 0x1a)], returns (let* n := argument 2 in string_copy (Some n)));
  ([(A0, 0x1b)], returns string_length);
  ([(A0, 0x1c); (A0, 0x1e)], returns (string_character false));
  ([(A0, 0x1d); (A0, 0x1f)], returns (string_character true));
  ([(A0, 0x20)], returns string_pbrk);
  ([(A0, 0x21)], returns (string_span true));
  ([(A0, 0x22)], returns (string_span false));
  ([(A0, 0x23)], returns string_token);
  ([(A0, 0x24)], returns string_string);
  ([(A0, 0x25)], returns (change_case true));
  ([(A0, 0x26)], returns (change_case false));
  ([(A0, 0x27)], returns bcopy);
  ([(A0, 0x28)], returns bzero);
  ([(A0, 0x29); (A0, 0x2d)], returns memory_compare);
  ([(A0, 0x55); (A0, 0x70)], returns initialize_backup_unit);
  ([(A0, 0x72)], quiet 10);
  ([(A0, 0x2a)], returns (memory_copy false));
  ([(A0, 0x2b)], returns memory_set);
  ([(A0, 0x2c)], returns (memory_copy true));
  ([(A0, 0x2e)], returns memory_character);
  ([(A0, 0x2f)], returns rand);
  ([(A0, 0x30)], returns srand);
  ([(A0, 0x31)], starts start_qsort);
  ([(A0, 0x33)], returns malloc);
  ([(A0, 0x34)], returns free);
  ([(A0, 0x35)], starts start_lsearch);
  ([(A0, 0x36)], starts start_bsearch);
  ([(A0, 0x37)], returns calloc);
  ([(A0, 0x38)], returns realloc);
  ([(A0, 0x39)], returns initialize_heap);
  ([(A0, 0x3a)], acts 6 Halt);
  ([(A0, 0x3b); (B0, 0x3c)], returns getchar);
  ([(A0, 0x3c); (B0, 0x3d)], returns putchar);
  ([(A0, 0x3d); (B0, 0x3e)], returns gets_);
  ([(A0, 0x3e); (B0, 0x3f)], returns puts);
  ([(A0, 0x3f)], returns printf);
  ([(A0, 0x43); (B0, 0x5b)], quiet 6);
  ([(A0, 0x44)], quiet 12);
  ([(A0, 0x5a)] ++ calls A0 0x65 0x6f ++ calls A0 0x8e 0x8f ++ [(A0, 0x97)] ++ calls A0 0xab 0xaf ++
     calls B0 0x4d 0x50 ++ [(B0, 0x58)] ++ calls B0 0x5c 0x5d ++ [(C0, 0x1a); (C0, 0x1d)],
   returns (answer 0 6));
  ([(A0, 0x9f)], returns set_memory_size);
  ([(B0, 0x00)], returns allocate_kernel_memory);
  ([(B0, 0x01)], returns free_kernel_memory);
  ((B0, 0x02) :: calls B0 0x04 0x06, returns root_counter_control);
  ([(B0, 0x03)], returns get_root_counter);
  ([(B0, 0x07)], returns deliver_event);
  ([(B0, 0x08)], returns open_event);
  ([(B0, 0x09)], returns close_event);
  ([(B0, 0x0a)], let* (cycles, ready) := wait_event in
                 ret (cycles, if (ready : bool) then Return else Wait));
  ([(B0, 0x0b)], returns test_event);
  ([(B0, 0x0c)], returns (enable_event true));
  ([(B0, 0x0d)], returns (enable_event false));
  ([(B0, 0x12)], returns initialize_pad);
  ([(B0, 0x13)], returns start_pad);
  ([(B0, 0x14)], returns stop_pad);
  ([(B0, 0x15)], returns initialize_high_level_pad);
  ([(B0, 0x16)], returns read_high_level_pad);
  ([(B0, 0x17)], return_value 1 ;; acts 12 ReturnFromException);
  ([(B0, 0x18)], returns (updates (fun b => b <| interrupt_hook := None |>) ;; answer 1 8));
  ([(B0, 0x19)], returns (let* hook := argument 0 in
                          updates (fun b => b <| interrupt_hook := Some hook |>) ;; answer 1 8));
  ([(B0, 0x20)], returns undeliver_event);
  ([(B0, 0x4a)], returns initialize_card);
  ([(B0, 0x4b)], returns start_card);
  ([(B0, 0x4c)], returns stop_card);
  ([(B0, 0x56)], returns (get_function_table C0));
  ([(B0, 0x57)], returns (get_function_table B0));
  ([(C0, 0x00)], returns initialize_timer_and_vblank_handlers);
  ([(C0, 0x01)], returns initialize_syscall_handler);
  ([(C0, 0x02)], returns enqueue_interrupt);
  ([(C0, 0x03)], returns dequeue_interrupt);
  ([(C0, 0x08)], returns initialize_kernel_heap);
  ([(C0, 0x0a)], returns change_clear_counter);
  ([(C0, 0x0c)], returns initialize_default_interrupt_handler)
].

Fixpoint find_service (call : BiosVector * Z) (table : list (list (BiosVector * Z) * service M))
    : option (service M) :=
  match table with
  | [] => None
  | (arm, s) :: table => if existsb (same_call call) arm then Some s else find_service call table
  end.

Definition dispatch (vector : BiosVector) : prog HleOutcome :=
  let* t1 := asks (CpuContext.reg T1) in
  let function := wrap 8 t1 in
  let* at_ := asks pc in
  let* (cycles, action) :=
    match find_service (vector, function) services with
    | Some s => s
    | None => fail (UnsupportedCall vector function at_)
    end in
  (if bool_decide (action = Return) then sets CpuContext.return_to_caller else ret tt) ;;
  ret (mkHleOutcome cycles action).
End table.
