(* ===== verification/Ps1BiosFacts.v ===== *)
(** * The BIOS services never panic

    [safe Q m]: from every well-formed world the service [m] returns or fails, never
    panics or runs out of iterations, leaves a well-formed world, and what it returns
    satisfies [Q].  The contract of the heaps is here too. *)

From S2P Require Import Prelude Records MachineInt Slices PsfText.
From S2P Require Import Buffer Ps1Bios Ps1BiosLibc.

(** What a machine promises of the memory it lends. *)
Class GuestSafe (M : Type) `{GuestMemory M} := {
  good_mem : M -> Prop;
  read_u8_safe a m : in_u 32 a -> good_mem m ->
    safely (in_u 8) (read_u8 a m).1 /\ good_mem (read_u8 a m).2;
  write_u8_safe a v m : in_u 32 a -> in_u 8 v -> good_mem m ->
    safely (fun _ => True) (write_u8 a v m).1 /\ good_mem (write_u8 a v m).2;
}.

(** ** The invariant *)

Notation u32 := (in_u 32).

Record ctx_ok (c : CpuContext) : Prop := {
  ctx_registers : length (registers c) = REGISTER_COUNT /\ Forall u32 (registers c);
  ctx_pc : u32 (pc c);
  ctx_hi_lo : u32 (hi c) /\ u32 (lo c);
}.

(** The blocks lie in order between two bounds, each with a whole number of doublewords. *)
Fixpoint chain (low : Z) (bs : list HeapBlock) (high : Z) : Prop :=
  match bs with
  | [] => low <= high
  | b :: bs => low <= hb_address b /\ hb_address b mod 8 = 0 /\
      0 < hb_size b /\ hb_size b mod 8 = 0 /\ chain (hb_address b + hb_size b) bs high
  end.

Record heap_ok (h : Heap) : Prop := {
  hp_bounds : 0 <= hp_base h /\ hp_end h < 2 ^ 32;
  hp_aligned : hp_base h mod 8 = 0;
  hp_chain : chain (hp_base h) (blocks h) (hp_end h);
}.

Definition event_ok (s : EventSlot) : Prop :=
  match s with
  | None => True
  | Some e => u32 (ev_class e) /\ u32 (ev_spec e) /\ u32 (ev_mode e) /\ u32 (ev_callback e)
  end.

Definition kind_ok (k : LibcOperationKind) : Prop :=
  match k with
  | Qsort base elements width outer inner => u32 base /\ u32 elements /\ u32 width /\ u32 outer /\ u32 inner
  | Lsearch key base elements width index => u32 key /\ u32 base /\ u32 elements /\ u32 width /\ u32 index
  | Bsearch key base width low high middle =>
      u32 key /\ u32 base /\ u32 width /\ 0 <= low <= middle /\ middle < high < 2 ^ 32
  end.

Record operation_ok (o : LibcOperation) : Prop := {
  op_context : ctx_ok (saved_context o);
  op_callback : u32 (lo_callback o) /\ u32 (lo_calls o);
  op_kind : kind_ok (lo_kind o);
}.

Definition file_ok (f : ResidentFile) : Prop := u32 (position_ f).

Record hle_ok (b : BiosHle) : Prop := {
  hle_limits : u32 (memory_operation_bytes (limits b)) /\ u32 (libc_callback_calls (limits b));
  hle_events : length (events b) = EVENT_SLOTS /\ Forall event_ok (events b);
  hle_pending : Forall (fun r => u32 (cb_address r)) (pending_callbacks b);
  hle_stack : Forall ctx_ok (callback_stack b);
  hle_heap : from_option heap_ok True (heap b);
  hle_kernel_heap : heap_ok (kernel_heap b);
  hle_file : from_option file_ok True (resident_file b);
  hle_pad : u32 (button_destination (pad b)) /\
    u32 (pad_buffers (pad b)).1.1 /\ u32 (pad_buffers (pad b)).1.2 /\
    u32 (pad_buffers (pad b)).2.1 /\ u32 (pad_buffers (pad b)).2.2;
  hle_strtok : from_option u32 True (strtok_next b);
  hle_operation : from_option operation_ok True (libc_operation b);
  hle_random : u32 (random_state b);
  hle_hook : from_option u32 True (interrupt_hook b);
  hle_queues : length (interrupt_queues b) = INTERRUPT_PRIORITIES /\ Forall u32 (interrupt_queues b);
  hle_clear : length (clear_root_counter b) = 4%nat;
}.

Section safe.
Context {M : Type} `{GuestSafe M}.

Record world_ok (w : World M) : Prop := {
  wo_hle : hle_ok (hle w);
  wo_ctx : ctx_ok (ctx w);
  wo_mem : good_mem (mem w);
}.

Definition safe_at {A} (Q : A -> Prop) (r : outcome BiosError A * World M) : Prop :=
  safely Q r.1 /\ world_ok r.2.

Definition safe {A} (Q : A -> Prop) (m : prog M A) : Prop := forall w, world_ok w -> safe_at Q (m w).

(** ** Rules *)

Lemma safe_ret {A} (Q : A -> Prop) a : Q a -> safe Q (ret a).
Proof. by split. Qed.

Lemma safe_fail {A} (Q : A -> Prop) e : safe Q (fail e).
Proof. by split. Qed.

Lemma safe_lift {A} (Q : A -> Prop) m : safely Q m -> safe Q (lift m).
Proof. by split. Qed.

Lemma safe_bind {A B} (Q : A -> Prop) (R : B -> Prop) m (k : A -> prog M B) :
  safe Q m -> (forall a, Q a -> safe R (k a)) -> safe R (bind m k).
Proof.
  intros Hm Hk w Hw. specialize (Hm w Hw). unfold bind. destruct (m w) as [[a|e|] w'].
  - destruct Hm as [Ha Hw']. by apply Hk.
  - by destruct Hm.
  - by destruct Hm.
Qed.

Lemma safe_mono {A} (Q R : A -> Prop) m : safe Q m -> (forall a, Q a -> R a) -> safe R m.
Proof. intros Hm Hi w Hw. destruct (Hm w Hw) as [Ha Hw']. split; [by eapply safely_mono|done]. Qed.

Lemma safe_gets {A} (f : BiosHle -> A) (Q : A -> Prop) : (forall b, hle_ok b -> Q (f b)) -> safe Q (gets f).
Proof. intros Hf w [Hb Hc Hm]. split; [by apply Hf|done]. Qed.

Lemma safe_asks {A} (f : CpuContext -> A) (Q : A -> Prop) : (forall c, ctx_ok c -> Q (f c)) -> safe Q (asks f).
Proof. intros Hf w [Hb Hc Hm]. split; [by apply Hf|done]. Qed.

Lemma safe_updates f (Q : unit -> Prop) : Q tt -> (forall b, hle_ok b -> hle_ok (f b)) -> safe Q (updates f).
Proof. intros HQ Hf w [Hb Hc Hm]. split; [done|]. constructor; cbn; auto. Qed.

Lemma safe_sets f (Q : unit -> Prop) : Q tt -> (forall c, ctx_ok c -> ctx_ok (f c)) -> safe Q (sets f).
Proof. intros HQ Hf w [Hb Hc Hm]. split; [done|]. constructor; cbn; auto. Qed.

Lemma safe_on_hle {A} (Q : A -> Prop) (m : BiosHle -> outcome BiosError A * BiosHle) :
  (forall b, hle_ok b -> safely Q (m b).1 /\ hle_ok (m b).2) -> safe Q (on_hle m).
Proof.
  intros Hm w [Hb Hc Hg]. unfold on_hle. destruct (Hm (hle w) Hb) as [H1 H2]. destruct (m (hle w)) as [r b].
  split; [done|]. by constructor.
Qed.

Lemma safe_eprint line (Q : unit -> Prop) : Q tt -> safe Q (eprint line).
Proof. intros HQ w [Hb Hc Hm]. split; [done|]. by constructor. Qed.

Lemma safe_for_range n from body (Q : unit -> Prop) :
  Q tt -> (forall i, from <= i < from + Z.of_nat n -> safe (fun _ => True) (body i)) ->
  safe Q (for_range n from body).
Proof.
  intros HQ. revert from. induction n as [|n IH]; intros from Hb; cbn [for_range]; [by apply safe_ret|].
  eapply safe_bind; [apply Hb; lia|]. intros _ _. apply IH. intros i Hi. apply Hb. lia.
Qed.

Lemma safe_for_range_rev n from body (Q : unit -> Prop) :
  Q tt -> (forall i, from <= i < from + Z.of_nat n -> safe (fun _ => True) (body i)) ->
  safe Q (for_range_rev n from body).
Proof.
  intros HQ. induction n as [|n IH]; intros Hb; cbn [for_range_rev]; [by apply safe_ret|].
  eapply safe_bind; [apply Hb; lia|]. intros _ _. apply IH. intros i Hi. apply Hb. lia.
Qed.

Lemma safe_find_range {A} n from (body : Z -> prog M (option A)) (Q : A -> Prop) :
  (forall i, from <= i < from + Z.of_nat n -> safe (fun o => from_option Q True o) (body i)) ->
  safe (fun o => from_option Q True o) (find_range n from body).
Proof.
  revert from. induction n as [|n IH]; intros from Hb; cbn [find_range]; [by apply safe_ret|].
  eapply safe_bind; [apply Hb; lia|]. intros [a|] Ha; [by apply safe_ret|].
  apply IH. intros i Hi. apply Hb. lia.
Qed.

(** A loop whose counter grows, and stays below the fuel, comes to an end. *)
Section loops.
Context {S A : Type} (I : S -> Prop) (count : S -> Z) (Q : A -> Prop).

Definition goes_on (low : Z) (r : S + A) : Prop :=
  match r with inl s => I s /\ low <= count s | inr a => Q a end.

Lemma safe_run_loop p body s :
  (forall s, I s -> safe (goes_on (count s + 1)) (body s)) ->
  I s -> safe (goes_on (count s + Z.pos p)) (run_loop p body s).
Proof.
  intros Hb. revert s. induction p as [p IH|p IH|]; intros s Hs; cbn [run_loop].
  - eapply safe_bind; [by apply Hb|]. intros [s1|a] H1; [|by apply safe_ret]. destruct H1 as [I1 C1].
    eapply safe_bind; [by apply IH|]. intros [s2|a] H2; [|by apply safe_ret]. destruct H2 as [I2 C2].
    eapply safe_mono; [by apply IH|]. intros [s3|a]; cbn; [|done]. intros [I3 C3]. split; [done|lia].
  - eapply safe_bind; [by apply IH|]. intros [s2|a] H2; [|by apply safe_ret]. destruct H2 as [I2 C2].
    eapply safe_mono; [by apply IH|]. intros [s3|a]; cbn; [|done]. intros [I3 C3]. split; [done|lia].
  - by apply Hb.
Qed.

Lemma safe_loop body s :
  (forall s, I s -> 0 <= count s < 2 ^ 32) ->
  (forall s, I s -> safe (goes_on (count s + 1)) (body s)) ->
  I s -> safe Q (loop body s).
Proof.
  intros Hc Hb Hs. unfold loop. eapply safe_bind; [by apply safe_run_loop|].
  intros [s'|a] Hr; [|by apply safe_ret]. destruct Hr as [I' C'].
  pose proof (Hc s Hs). pose proof (Hc s' I'). unfold LOOP_FUEL in C'. lia.
Qed.
End loops.
End safe.

Section primitives.
Context {M : Type} `{GuestSafe M}.

Notation safe := (safe (M := M)).

Lemma u8_u32 v : in_u 8 v -> u32 v.
Proof. apply in_u_mono. lia. Qed.

Lemma sat_u32 x : u32 (saturating_u 32 x).
Proof. unfold saturating_u, in_u. lia. Qed.

Lemma bool_u32 (b : bool) : u32 (if b then 1 else 0).
Proof. apply in_u_bool. lia. Qed.

Lemma max_u32 : u32 U32_MAX.
Proof. split; [|reflexivity]. discriminate. Qed.

Lemma memory_cycles_u32 n : u32 (memory_cycles n).
Proof. apply sat_u32. Qed.

Lemma reg_u32 i c : ctx_ok c -> u32 (CpuContext.reg i c).
Proof.
  intros [[_ Hr] _ _]. unfold CpuContext.reg. destruct (registers c !! i) as [v|] eqn:E; [|range_lit].
  rewrite Forall_lookup in Hr. by eapply Hr.
Qed.

Lemma set_reg_ok i v c : ctx_ok c -> u32 v -> ctx_ok (CpuContext.set_reg i v c).
Proof.
  intros [[Hl Hr] Hp Hh] Hv. constructor; cbn; [|done|done]. rewrite length_insert.
  split; [done|]. by apply Forall_insert.
Qed.

Lemma set_register_ok i v c : ctx_ok c -> u32 v -> ctx_ok (CpuContext.set_register i v c).2.
Proof.
  intros Hc Hv. unfold CpuContext.set_register. destruct (_ !! i); [|done]. cbn.
  case_decide; [done|]. by apply set_reg_ok.
Qed.

Lemma set_pc_ok v c : ctx_ok c -> u32 v -> ctx_ok (c <| pc := v |>).
Proof. by intros [Hr Hp Hh] Hv. Qed.

Lemma return_ok c : ctx_ok c -> ctx_ok (CpuContext.return_to_caller c).
Proof. intros Hc. apply set_pc_ok; [done|]. by apply reg_u32. Qed.

Lemma safe_argument i : safe u32 (argument i).
Proof. apply safe_asks. intros c Hc. by apply reg_u32. Qed.

Lemma safe_return_value v (Q : unit -> Prop) : u32 v -> Q tt -> safe Q (return_value v).
Proof. intros Hv HQ. apply safe_sets; [done|]. intros c Hc. by apply set_reg_ok. Qed.

Lemma safe_answer v c (Q : Z -> Prop) : u32 v -> Q c -> safe Q (answer v c).
Proof.
  intros Hv HQ. eapply safe_bind; [by apply (safe_return_value v (fun _ => True))|].
  intros _ _. by apply safe_ret.
Qed.

Lemma safe_checked_add a b : 0 <= a -> 0 <= b -> safe (fun c => c = a + b /\ u32 c) (checked_add a b).
Proof.
  intros Ha Hb. apply safe_lift, safely_ok_or. intros c [-> Hc]%checked_add_u_Some.
  split; [done|]. unfold in_u. lia.
Qed.

Lemma safe_checked_mul a b : 0 <= a -> 0 <= b -> safe (fun c => c = a * b /\ u32 c) (checked_mul a b).
Proof.
  intros Ha Hb. apply safe_lift, safely_ok_or. intros c [-> Hc]%checked_mul_u_Some.
  split; [done|]. unfold in_u. nia.
Qed.

Lemma safe_check_size size (Q : unit -> Prop) : Q tt -> safe Q (check_memory_size size).
Proof. intros HQ w Hw. unfold check_memory_size. by destruct (_ <? _). Qed.

Lemma safe_read_byte base offset : 0 <= base -> 0 <= offset -> safe (in_u 8) (read_byte base offset).
Proof.
  intros Hb Ho. eapply safe_bind; [by apply safe_checked_add|]. cbv beta. intros a [-> Ha] w [Hh Hc Hm].
  unfold access. destruct (read_u8_safe _ _ Ha Hm) as [Hr Hm']. destruct (read_u8 _ _) as [r m].
  split; [by apply safely_map_err|by constructor].
Qed.

Lemma safe_write_byte base offset v (Q : unit -> Prop) :
  0 <= base -> 0 <= offset -> in_u 8 v -> Q tt -> safe Q (write_byte base offset v).
Proof.
  intros Hb Ho Hv HQ. eapply safe_bind; [by apply safe_checked_add|]. cbv beta. intros a [-> Ha] w [Hh Hc Hm].
  unfold access. destruct (write_u8_safe _ _ _ Ha Hv Hm) as [Hr Hm']. destruct (write_u8 _ _ _) as [r m].
  split; [|by constructor]. cbn. apply safely_map_err. by eapply safely_mono; [exact Hr|intros []].
Qed.

Lemma safe_read_word base offset : 0 <= base -> 0 <= offset < 2 ^ 32 - 3 -> safe u32 (read_word base offset).
Proof.
  intros Hb Ho. unfold read_word.
  assert (forall i, 0 <= i <= 3 -> safe (fun o => 0 <= o) (lift (expect (checked_add_u 32 offset i)))) as Hat.
  { intros i Hi. apply safe_lift. unfold checked_add_u. rewrite (proj2 (Z.ltb_lt _ _)) by lia. cbn. lia. }
  do 4 (eapply safe_bind; [apply Hat; lia|]; intros ? ?;
        eapply safe_bind; [by apply safe_read_byte|]; intros ? ?).
  apply safe_ret. apply (from_le_range [_; _; _; _]). forall_list.
Qed.

Lemma safe_write_bytes base offset i bytes (Q : unit -> Prop) :
  0 <= base -> 0 <= offset -> 0 <= i -> offset + i + Z.of_nat (length bytes) <= 2 ^ 32 ->
  Forall (in_u 8) bytes -> Q tt -> safe Q (write_bytes base offset i bytes).
Proof.
  intros Hb Ho Hi Hl Hbs HQ. revert i Hi Hl. induction Hbs as [|v bs Hv Hbs IH]; intros i Hi Hl;
    cbn [write_bytes]; [by apply safe_ret|]. cbn [length] in Hl.
  eapply (safe_bind (fun o => 0 <= o)).
  { apply safe_lift. unfold checked_add_u. rewrite (proj2 (Z.ltb_lt _ _)) by lia. cbn. lia. }
  intros o Hoo. eapply safe_bind; [by apply (safe_write_byte _ _ _ (fun _ => True))|].
  intros _ _. apply IH; lia.
Qed.

Lemma safe_write_word base offset v (Q : unit -> Prop) :
  0 <= base -> 0 <= offset < 2 ^ 32 - 3 -> Q tt -> safe Q (write_word base offset v).
Proof.
  intros Hb Ho HQ. apply safe_write_bytes; try lia; try done.
  - rewrite length_le_bytes. lia.
  - apply le_bytes_u8.
Qed.
End primitives.

(** ** Heaps *)

Lemma land_align8 x : u32 x -> x .& bnot 32 (8 - 1) = x / 8 * 8.
Proof.
  intros Hx. rewrite land_bnot by (lia || done). change (8 - 1) with (Z.ones 3).
  rewrite Z.ldiff_ones_r by lia. by rewrite Z.shiftl_mul_pow2, Z.shiftr_div_pow2 by lia.
Qed.

(** The least multiple of eight that is not below. *)
Definition up8 (x : Z) : Z := (x + 7) / 8 * 8.

Lemma up8_spec x : x <= up8 x < x + 8 /\ up8 x mod 8 = 0.
Proof.
  unfold up8. pose proof (Z.div_mod (x + 7) 8). pose proof (Z.mod_pos_bound (x + 7) 8).
  split; [lia|]. by apply Z.mod_mul.
Qed.

Lemma heap_align_up x :
  u32 x -> align_up x 8 = if x + 7 <? 2 ^ 32 then Ok (up8 x) else Err AddressOverflow.
Proof.
  intros Hx. unfold align_up, checked_add_u. change (8 - 1) with 7. destruct (Z.ltb_spec (x + 7) (2 ^ 32)); [|done].
  change 7 with (8 - 1) at 2. rewrite land_align8; [done|]. unfold in_u in *. lia.
Qed.

Lemma align_up_safe x : u32 x -> safely (fun y => u32 y /\ x <= y /\ y mod 8 = 0) (align_up x 8).
Proof.
  intros Hx. rewrite heap_align_up by done. destruct (Z.ltb_spec (x + 7) (2 ^ 32)); [|done]. cbn.
  destruct (up8_spec x) as [H1 H2]. split_and!; [|lia|done]. unfold in_u in *.
  pose proof (Z.div_le_upper_bound (x + 7) 8 (2 ^ 29)). unfold up8 in *.
  assert ((x + 7) / 8 < 2 ^ 29) by (apply Z.div_lt_upper_bound; lia). lia.
Qed.

Definition block_end (b : HeapBlock) : Z := hb_address b + hb_size b.

Lemma chain_bounds low bs high : chain low bs high -> low <= high.
Proof.
  revert low. induction bs as [|b bs IH]; intros low; cbn; [done|]. intros (H1 & _ & H2 & _ & H3).
  specialize (IH _ H3). lia.
Qed.

Lemma chain_app low l1 l2 high :
  chain low (l1 ++ l2) high <-> exists middle, chain low l1 middle /\ chain middle l2 high /\
    (l1 = [] -> middle = low) /\ (forall b, last l1 = Some b -> middle = block_end b).
Proof.
  revert low. induction l1 as [|b l1 IH]; intros low; cbn [app chain].
  - split.
    + intros Hc. exists low. split_and!; [by cbn|done|done|done].
    + intros (mid & _ & Hc & E & _). by rewrite <- E.
  - rewrite IH. split.
    + intros (H1 & H2 & H3 & H4 & mid & H5 & H6 & H7 & H8). exists mid. split_and!; try done.
      intros b'. destruct l1 as [|c l1]; cbn; [|exact (H8 b')]. intros [= <-]. by rewrite H7.
    + intros (mid & (H1 & H2 & H3 & H4 & H5) & H6 & _ & H8). split_and!; try done. exists mid. split_and!; try done.
      * intros ->. by apply H8.
      * intros b'. destruct l1 as [|c l1]; [done|]. exact (H8 b').
Qed.

Lemma chain_mono low low' bs high : low' <= low -> chain low bs high -> chain low' bs high.
Proof. destruct bs as [|b bs]; cbn; [lia|]. intros Hl (H1 & H2 & H3 & H4 & H5). split_and!; try done. lia. Qed.

Lemma chain_in low bs high b :
  chain low bs high -> b ∈ bs ->
  low <= hb_address b /\ hb_address b mod 8 = 0 /\ 0 < hb_size b /\ hb_size b mod 8 = 0 /\ block_end b <= high.
Proof.
  revert low. induction bs as [|c bs IH]; intros low Hc Hin; [by apply elem_of_nil in Hin|].
  cbn in Hc. destruct Hc as (H1 & H2 & H3 & H4 & H5). apply elem_of_cons in Hin as [->|Hin].
  - split_and!; try done. by apply chain_bounds in H5.
  - destruct (IH _ H5 Hin) as (G1 & G2 & G3 & G4 & G5). split_and!; try done. lia.
Qed.

(** Any two blocks of a heap are apart. *)
Lemma chain_apart low bs high i j b c :
  chain low bs high -> bs !! i = Some b -> bs !! j = Some c -> (i < j)%nat -> block_end b <= hb_address c.
Proof.
  revert low i j. induction bs as [|d bs IH]; intros low i j Hc Hi Hj Hlt; [done|].
  cbn in Hc. destruct Hc as (H1 & H2 & H3 & H4 & H5). destruct j as [|j]; [lia|]. cbn in Hj.
  destruct i as [|i]; [|apply (IH _ i j H5 Hi Hj); lia].
  injection Hi as ->. apply list_elem_of_lookup_2 in Hj. by destruct (chain_in _ _ _ _ H5 Hj).
Qed.

(** [address..address + size] meets no block of the list. *)
Definition room (bs : list HeapBlock) (address size : Z) : Prop :=
  forall b, b ∈ bs -> address + size <= hb_address b \/ block_end b <= address.

(** Where the search for a gap stops: the lowest address with room. *)
Record first_fit (low : Z) (bs : list HeapBlock) (size : Z) (i : nat) (address : Z) : Prop := {
  ff_low : low <= address;
  ff_aligned : address mod 8 = 0;
  ff_before : chain low (take i bs) address;
  ff_room : forall b, bs !! i = Some b -> address + size <= hb_address b;
  ff_least : forall c, low <= c -> room bs c size -> address <= c;
}.

Lemma find_gap_spec size low bs high :
  0 < size -> low mod 8 = 0 -> 0 <= low -> chain low bs high -> high < 2 ^ 32 ->
  match find_gap size low bs with
  | Ok (i, address) => (i <= length bs)%nat /\ first_fit low bs size i address
  | Err e => e = AddressOverflow /\ forall c, low <= c -> room bs c size -> 2 ^ 32 <= c + size
  | Panic => False
  end.
Proof.
  intros Hs. revert low. induction bs as [|b bs IH]; intros low Hl H0 Hc Hh; cbn [find_gap].
  - split; [done|]. constructor; cbn; try done.
  - pose proof (chain_bounds _ _ _ Hc) as Hb. cbn in Hc. destruct Hc as (H1 & H2 & H3 & H4 & H5).
    pose proof (chain_bounds _ _ _ H5) as H6.
    assert (forall c, low <= c -> room (b :: bs) c size -> low + size <= hb_address b \/ block_end b <= c) as Hnext.
    { intros c Hlc Hr. destruct (Hr b ltac:(by left)); [left; lia|by right]. }
    assert (forall c, room (b :: bs) c size -> room bs c size) as Htail by (intros c Hr d Hd; apply Hr; by right).
    unfold checked_add_u at 1. destruct (Z.ltb_spec (low + size) (2 ^ 32)) as [Hlt|Hge]; cbn [ok_or obind].
    2:{ split; [done|]. intros c Hlc Hr. destruct (Hnext c Hlc Hr); lia. }
    destruct (Z.leb_spec (low + size) (hb_address b)) as [Hfit|Hno].
    + split; [lia|]. constructor; cbn; try done. by intros c [= <-].
    + unfold checked_add_u at 1. rewrite (proj2 (Z.ltb_lt _ _)) by lia. cbn [ok_or obind].
      assert ((hb_address b + hb_size b) mod 8 = 0) as Hal.
      { by rewrite Z.add_mod, H2, H4 by lia. }
      specialize (IH _ Hal ltac:(lia) H5 Hh). destruct (find_gap size _ bs) as [[i a]|e|]; cbn [obind fst snd]; [| |done].
      * destruct IH as [Hi [F1 F2 F3 F4 F5]]. split; [cbn; lia|]. constructor.
        { lia. } { done. } { cbn [take chain]. by split_and!. } { done. }
        intros c Hlc Hr. apply F5; [|by apply Htail]. destruct (Hnext c Hlc Hr); [lia|done].
      * destruct IH as [-> IH]. split; [done|]. intros c Hlc Hr. apply IH; [|by apply Htail].
        destruct (Hnext c Hlc Hr); [lia|done].
Qed.

Lemma chain_insert low bs high i a size :
  chain low (take i bs) a -> a mod 8 = 0 -> 0 < size -> size mod 8 = 0 ->
  chain low bs high -> (forall b, bs !! i = Some b -> a + size <= hb_address b) -> a + size <= high ->
  chain low (insert_at i (mkHeapBlock a size) bs) high.
Proof.
  intros Ht Ha Hs Hm Hc Hr Hh. unfold insert_at.
  assert (chain (a + size) (drop i bs) high) as Hd.
  { rewrite <- (take_drop i bs) in Hc. apply chain_app in Hc as (mid & _ & Hd & _).
    destruct (drop i bs) as [|b rest] eqn:E; [done|]. cbn in Hd |- *. destruct Hd as (_ & D).
    split; [|done]. apply Hr. rewrite <- (Nat.add_0_r i), <- lookup_drop, E. done. }
  clear Hc Hr. revert low Ht. induction (take i bs) as [|b l IH]; intros low Ht.
  - cbn in Ht |- *. by split_and!.
  - cbn in Ht |- *. destruct Ht as (T1 & T2 & T3 & T4 & T5). split_and!; try done. by apply IH.
Qed.

Lemma elem_of_insert_at i b bs c : c ∈ insert_at i b bs <-> c = b \/ c ∈ bs.
Proof.
  unfold insert_at. rewrite elem_of_app, elem_of_cons. rewrite <- (take_drop i bs) at 3. rewrite elem_of_app. tauto.
Qed.

Lemma block_position_some address bs i :
  block_position address bs = Some i -> exists b, bs !! i = Some b /\ hb_address b = address.
Proof.
  revert i. induction bs as [|b bs IH]; intros i; cbn; [done|]. destruct (Z.eqb_spec (hb_address b) address).
  - intros [= <-]. by exists b.
  - destruct (block_position address bs); [|done]. intros [= <-]. by apply IH.
Qed.

Lemma block_position_none address bs :
  block_position address bs = None -> forall b, b ∈ bs -> hb_address b <> address.
Proof.
  induction bs as [|c bs IH]; cbn; intros E b; [by intros ?%elem_of_nil|].
  destruct (Z.eqb_spec (hb_address c) address) as [|Hne]; [done|].
  destruct (block_position address bs); [done|]. intros [->|Hin]%elem_of_cons; [done|by apply IH].
Qed.

Lemma chain_remove low bs high i : chain low bs high -> chain low (remove_at i bs) high.
Proof.
  unfold remove_at. revert low i. induction bs as [|b bs IH]; intros low i Hc.
  - by destruct i.
  - cbn in Hc. destruct Hc as (H1 & H2 & H3 & H4 & H5). destruct i as [|i]; cbn.
    + eapply chain_mono; [|done]. lia.
    + split_and!; try done. by apply IH.
Qed.

(** An address names one block. *)
Lemma chain_unique low bs high b c :
  chain low bs high -> b ∈ bs -> c ∈ bs -> hb_address b = hb_address c -> b = c.
Proof.
  intros Hc [i Hi]%list_elem_of_lookup [j Hj]%list_elem_of_lookup E.
  destruct (chain_in _ _ _ b Hc) as (_ & _ & B & _); [by eapply list_elem_of_lookup_2|].
  destruct (chain_in _ _ _ c Hc) as (_ & _ & C & _); [by eapply list_elem_of_lookup_2|].
  destruct (Nat.lt_trichotomy i j) as [Hlt|[->|Hlt]]; [|congruence|].
  - pose proof (chain_apart _ _ _ _ _ _ _ Hc Hi Hj Hlt). unfold block_end in *. lia.
  - pose proof (chain_apart _ _ _ _ _ _ _ Hc Hj Hi Hlt). unfold block_end in *. lia.
Qed.

Lemma elem_of_removed low bs high i b :
  chain low bs high -> bs !! i = Some b -> forall c, c ∈ remove_at i bs <-> c ∈ bs /\ c <> b.
Proof.
  intros Hc Hi c. unfold remove_at. rewrite elem_of_app. split.
  - intros Hin. assert (exists j, bs !! j = Some c /\ j <> i) as (j & Hj & Hne).
    { destruct Hin as [Hin|Hin]; apply list_elem_of_lookup in Hin as [j Hj].
      - apply lookup_take_Some in Hj as [Hj Hlt]. exists j. split; [done|lia].
      - rewrite lookup_drop in Hj. exists (S i + j)%nat. split; [done|lia]. }
    split; [by eapply list_elem_of_lookup_2|]. intros ->.
    destruct (chain_in _ _ _ b Hc) as (_ & _ & B & _); [by eapply list_elem_of_lookup_2|].
    destruct (Nat.lt_ge_cases i j).
    + pose proof (chain_apart _ _ _ _ _ _ _ Hc Hi Hj ltac:(done)). unfold block_end in *. lia.
    + pose proof (chain_apart _ _ _ _ _ _ _ Hc Hj Hi ltac:(lia)). unfold block_end in *. lia.
  - intros [[j Hj]%list_elem_of_lookup Hne]. destruct (Nat.lt_trichotomy j i) as [Hlt|[->|Hlt]]; [left| |right].
    + apply list_elem_of_lookup. exists j. by rewrite lookup_take_lt by done.
    + congruence.
    + apply list_elem_of_lookup. exists (j - S i)%nat. rewrite lookup_drop. by replace (S i + (j - S i))%nat with j by lia.
Qed.

Lemma first_fit_room low bs high size i a :
  0 < size -> chain low bs high -> first_fit low bs size i a -> room bs a size.
Proof.
  intros Hs Hc [F1 F2 F3 F4 F5] b [j Hj]%list_elem_of_lookup.
  destruct (Nat.lt_ge_cases j i) as [Hlt|Hge].
  - right. assert (b ∈ take i bs) as Hin by (eapply list_elem_of_lookup_2; by rewrite lookup_take_lt).
    by destruct (chain_in _ _ _ _ F3 Hin) as (_ & _ & _ & _ & ?).
  - left. destruct (decide (j = i)) as [->|Hne]; [by apply F4|].
    destruct (lookup_lt_is_Some_2 bs i) as [c Hi]; [apply lookup_lt_Some in Hj; lia|].
    pose proof (chain_apart _ _ _ i j c b Hc Hi Hj ltac:(lia)). specialize (F4 c Hi).
    destruct (chain_in _ _ _ c Hc) as (_ & _ & B & _); [by eapply list_elem_of_lookup_2|].
    unfold block_end in *. lia.
Qed.

(** Allocation takes the lowest room there is, and fails exactly when there is none. *)
Lemma heap_allocates size h :
  heap_ok h -> u32 size ->
  match allocate_from_heap size h with
  | (Ok a, h') => heap_ok h' /\ hp_base h' = hp_base h /\ hp_end h' = hp_end h /\
      hp_base h <= a /\ a mod 8 = 0 /\ a + up8 (Z.max size 1) <= hp_end h /\
      room (blocks h) a (up8 (Z.max size 1)) /\
      (forall c, hp_base h <= c -> room (blocks h) c (up8 (Z.max size 1)) -> a <= c) /\
      (forall b, b ∈ blocks h' <-> b = mkHeapBlock a (up8 (Z.max size 1)) \/ b ∈ blocks h)
  | (Err e, h') => h' = h /\ (e = OutOfMemory size \/ e = AddressOverflow) /\
      forall c, hp_base h <= c -> room (blocks h) c (up8 (Z.max size 1)) ->
        hp_end h < c + up8 (Z.max size 1)
  | (Panic, _) => False
  end.
Proof.
  intros Hok Hs. destruct Hok as [[B1 B2] Ba Bc]. unfold in_u in Hs. set (n := Z.max size 1).
  destruct (up8_spec n) as [U1 U2]. unfold allocate_from_heap.
  rewrite heap_align_up by (unfold in_u, n; lia). fold n.
  destruct (Z.ltb_spec (n + 7) (2 ^ 32)) as [Hlt|Hge]; cbn [obind].
  2:{ split_and!; [done|by right|]. intros c Hc _.
      assert (up8 n = 2 ^ 32) as ->; [|lia]. unfold up8.
      assert ((n + 7) / 8 = 2 ^ 29) as ->; [|reflexivity]. symmetry. apply (Z.div_unique _ _ _ (n + 7 - 2 ^ 32)); lia. }
  pose proof (find_gap_spec (up8 n) (hp_base h) (blocks h) (hp_end h) ltac:(lia) Ba B1 Bc B2) as Hg.
  destruct (find_gap _ _ _) as [[i a]|e|]; cbn [obind fst snd]; [| |done].
  - destruct Hg as [Hi Hf]. destruct Hf as [F1 F2 F3 F4 F5].
    pose proof (first_fit_room _ _ _ (up8 n) i a ltac:(lia) Bc ltac:(done)) as Hroom.
    assert (forall c, hp_base h <= c -> room (blocks h) c (up8 n) -> hp_end h < a + up8 n -> hp_end h < c + up8 n) as Hno.
    { intros c Hc Hr Hlt'. specialize (F5 c Hc Hr). lia. }
    unfold checked_add_u. destruct (Z.ltb_spec (a + up8 n) (2 ^ 32)) as [Ha|Ha]; cbn [ok_or obind].
    2:{ split_and!; [done|by right|]. intros c Hc Hr. apply Hno; [done|done|lia]. }
    destruct (Z.ltb_spec (hp_end h) (a + up8 n)) as [He|He].
    { split_and!; [done|by left|]. intros c Hc Hr. by apply Hno. }
    split_and!; try done.
    + constructor; [done|done|]. cbn. apply chain_insert; try done. lia.
    + intros b. apply elem_of_insert_at.
  - destruct Hg as [-> Hg]. split_and!; [done|by right|]. intros c Hc Hr. specialize (Hg c Hc Hr). lia.
Qed.

(** Freeing takes out the block of the address, if there is one. *)
Lemma heap_frees address h :
  heap_ok h ->
  heap_ok (free_from_heap address h) /\
  hp_base (free_from_heap address h) = hp_base h /\ hp_end (free_from_heap address h) = hp_end h /\
  forall b, b ∈ blocks (free_from_heap address h) <-> b ∈ blocks h /\ hb_address b <> address.
Proof.
  intros [B1 B2 B3]. unfold free_from_heap. destruct (block_position address (blocks h)) as [i|] eqn:E.
  - destruct (block_position_some _ _ _ E) as (b & Hi & Ea). split_and!; try done.
    + constructor; [done|done|]. by apply chain_remove.
    + intros c. cbn. rewrite (elem_of_removed _ _ _ _ b B3 Hi c). split; intros [Hc Hne]; split; try done.
      * intros Ec. apply Hne. apply (chain_unique _ _ _ c b B3 Hc); [by eapply list_elem_of_lookup_2|congruence].
      * intros ->. done.
  - split_and!; try done. intros b. split; [|by intros []]. intros Hb. split; [done|].
    by apply (block_position_none _ _ E).
Qed.

(** Growing a block in place, up to where the next one begins. *)
Lemma heap_grows address h i old following size :
  heap_ok h -> block_room address h = Some (i, old, following) ->
  0 < size -> size mod 8 = 0 -> address + size <= following ->
  heap_ok (grow_block i size h) /\ hp_base (grow_block i size h) = hp_base h /\
  hp_end (grow_block i size h) = hp_end h /\
  mkHeapBlock address old ∈ blocks h /\
  forall b, b ∈ blocks (grow_block i size h) <->
    b = mkHeapBlock address size \/ (b ∈ blocks h /\ hb_address b <> address).
Proof.
  intros [B1 B2 B3] Hr Hs Hm Hf. unfold block_room in Hr.
  destruct (block_position address (blocks h)) as [j|] eqn:E; [|done].
  destruct (block_position_some _ _ _ E) as (b & Hi & Ea). rewrite Hi in Hr. injection Hr as -> <- <-.
  assert (b = mkHeapBlock address (hb_size b)) as Eb by (destruct b; cbn in *; congruence).
  assert (alter (fun b => mkHeapBlock (hb_address b) size) i (blocks h) =
    take i (blocks h) ++ mkHeapBlock address size :: drop (S i) (blocks h)) as Ealter.
  { rewrite <- (take_drop_middle _ _ _ Hi) at 1. rewrite alter_app_r_alt by (rewrite length_take; lia).
    rewrite length_take_le by (apply lookup_lt_Some in Hi; lia). rewrite Nat.sub_diag. cbn. by rewrite Ea. }
  pose proof (take_drop_middle _ _ _ Hi) as Em.
  split_and!; try done.
  - constructor; [done|done|]. cbn. rewrite Ealter. rewrite <- Em in B3.
    apply chain_app in B3 as (mid & C1 & C2 & C3 & C4). cbn in C2. destruct C2 as (D1 & D2 & D3 & D4 & D5).
    apply chain_app. exists mid. split_and!; try done. cbn. rewrite Ea in *. split_and!; try done.
    destruct (drop (S i) (blocks h)) as [|c rest] eqn:Ed; cbn in D5 |- *.
    + assert (blocks h !! S i = None) as Hn. { rewrite <- (Nat.add_0_r (S i)), <- lookup_drop, Ed. done. }
      rewrite Hn in Hf. done.
    + assert (blocks h !! S i = Some c) as Hn. { rewrite <- (Nat.add_0_r (S i)), <- lookup_drop, Ed. done. }
      rewrite Hn in Hf. by destruct D5 as (_ & D5).
  - rewrite <- Eb. by eapply list_elem_of_lookup_2.
  - intros c. cbn. rewrite Ealter, elem_of_app, elem_of_cons.
    pose proof (elem_of_removed _ _ _ _ b B3 Hi c) as He. unfold remove_at in He. rewrite elem_of_app in He.
    assert (c <> b /\ c ∈ blocks h <-> c ∈ blocks h /\ hb_address c <> address) as Hne; [|tauto].
    split; intros [H1 H2].
    + split; [done|]. intros Ec. apply H1.
      apply (chain_unique _ _ _ c b B3 H2); [by eapply list_elem_of_lookup_2|congruence].
    + split; [intros ->; congruence|done].
Qed.
