(* ===== verification/Ps1BiosSafety.v ===== *)
(** * Every BIOS call is safe

    No call of the tables, no system call and no callback step panics or loops for ever,
    whatever its arguments and whatever guest memory holds. *)

From S2P Require Import Prelude Records MachineInt Slices PsfText.
From S2P Require Import Buffer Ps1Bios Ps1BiosLibc Ps1BiosFacts.

(** ** Automation *)

Create HintDb bios discriminated.
#[export] Hint Resolve sat_u32 bool_u32 max_u32 memory_cycles_u32 u8_u32 in_u_of_i in_u_wrap : bios.
#[export] Hint Resolve in_u_land_l in_u_land_r in_u_lor in_u_shiftr in_u_nonneg : bios.
#[export] Hint Extern 1 (in_u _ (Zpos _)) => range_lit : bios.
#[export] Hint Extern 1 (in_u _ 0) => range_lit : bios.
#[export] Hint Extern 2 (Z.le _ _) => lia : bios.
#[export] Hint Extern 1 True => exact I : bios.

(** A named constant is in range by evaluation. *)
Ltac bios_const :=
  lazymatch goal with
  | |- in_u _ ?c => is_const c; split; [vm_compute; discriminate | vm_compute; reflexivity]
  end.

Ltac bios_side :=
  cbv beta in *; try done;
  first [ solve [eauto 6 with bios] | (unfold in_u in *; lia) | bios_const | idtac ].

(** What a service charges: at least one cycle, in 32 bits. *)
Definition cost (c : Z) : Prop := 1 <= c < 2 ^ 32.

Lemma cost_u32 c : cost c -> u32 c.
Proof. unfold cost, in_u. lia. Qed.

Lemma cost_sat x : 1 <= x -> cost (saturating_u 32 x).
Proof. unfold cost, saturating_u. lia. Qed.

Lemma cost_memory size : cost (memory_cycles size).
Proof. apply cost_sat. unfold saturating_u. lia. Qed.

Lemma cost_over size k : 0 <= k -> cost (saturating_u 32 (memory_cycles size + k)).
Proof. intros Hk. apply cost_sat. pose proof (cost_memory size). unfold cost in *. lia. Qed.

#[export] Hint Resolve cost_memory cost_u32 : bios.
#[export] Hint Extern 1 (cost (saturating_u 32 (memory_cycles _ + _))) => apply cost_over; lia : bios.
#[export] Hint Extern 2 (cost (saturating_u 32 _)) => apply cost_sat; unfold saturating_u, in_u in *; lia : bios.
#[export] Hint Extern 1 (cost (Zpos _)) => split; [lia|reflexivity] : bios.

Ltac lit := first [ range_lit | cbn [fst snd ho_cycles]; unfold cost; lia | split; [lia|reflexivity] ].

Section leaves.
Context {M : Type} `{GuestSafe M}.

Notation safe := (safe (M := M)).

Lemma safe_gets_ex {A} (f : BiosHle -> A) : safe (fun a => exists b, hle_ok b /\ a = f b) (gets f).
Proof. apply safe_gets. intros b Hb. by exists b. Qed.

Lemma safe_asks_ex {A} (f : CpuContext -> A) : safe (fun a => exists c, ctx_ok c /\ a = f c) (asks f).
Proof. apply safe_asks. intros c Hc. by exists c. Qed.

Lemma safe_limit : safe u32 (gets (fun b => memory_operation_bytes (limits b))).
Proof. apply safe_gets. intros b Hb. apply Hb. Qed.

Lemma safe_weaken {A} (m : prog M A) Q : safe Q m -> safe (fun _ => True) m.
Proof. intros Hm. by eapply safe_mono. Qed.
End leaves.

(** One step of the obvious derivation: follow the program, let the results of arithmetic
    and of memory be what their lemmas say, and anything else an unsigned word. *)
Ltac safe_bind_by := 
  lazymatch goal with
  | |- safe _ (bind (argument _) _) => eapply safe_bind; [apply safe_argument|]
  | |- safe _ (bind (checked_add _ _) _) => eapply safe_bind; [apply safe_checked_add; bios_side|]
  | |- safe _ (bind (checked_mul _ _) _) => eapply safe_bind; [apply safe_checked_mul; bios_side|]
  | |- safe _ (bind (read_byte _ _) _) => eapply safe_bind; [apply safe_read_byte; bios_side|]
  | |- safe _ (bind (read_word _ _) _) => eapply safe_bind; [apply safe_read_word; bios_side|]
  | |- safe _ (bind (gets (fun b => memory_operation_bytes (limits b))) _) => eapply safe_bind; [apply safe_limit|]
  | |- safe _ (bind (gets _) _) => eapply safe_bind; [apply safe_gets_ex|]
  | |- safe _ (bind (asks _) _) => eapply safe_bind; [apply safe_asks_ex|]
  end.

Ltac safe_step :=
  lazymatch goal with
  | |- safe _ (bind _ _) =>
      first [ safe_bind_by; let a := fresh "a" in let Ha := fresh "Ha" in intros a Ha; cbv beta in Ha;
              repeat match type of Ha with
                     | ex _ => let b := fresh "b" in let Hb := fresh "Hb" in destruct Ha as (b & Hb & ->)
                     | (a = _ /\ _) => destruct Ha as [-> Ha]
                     end
            | eapply (safe_bind (A := unit) (fun _ => True)); [|intros [] _]
            | eapply (safe_bind (A := bool) (fun _ => True)); [|intros ? _]
            | eapply (safe_bind (A := Z) u32); [|intros ? ?] ]
  | |- safe _ (ret _) => apply safe_ret; bios_side
  | |- safe _ (fail _) => apply safe_fail
  | |- safe _ (answer _ _) => apply safe_answer; bios_side
  | |- safe _ (return_value _) => apply safe_return_value; bios_side
  | |- safe _ (check_memory_size _) => apply safe_check_size; bios_side
  | |- safe _ (write_byte _ _ _) => apply safe_write_byte; bios_side
  | |- safe _ (write_word _ _ _) => apply safe_write_word; bios_side
  | |- safe _ (eprint _) => apply safe_eprint; bios_side
  | |- safe _ (updates _) => apply safe_updates; [done|]
  | |- safe _ (for_range _ _ _) => apply safe_for_range; [done|intros ? ?]
  | |- safe _ (for_range_rev _ _ _) => apply safe_for_range_rev; [done|intros ? ?]
  | |- safe _ (if ?b then _ else _) => destruct b eqn:?
  | |- safe _ (match ?x with _ => _ end) => destruct x eqn:?
  | |- safe _ (let _ := _ in _) => cbv zeta
  end.
Ltac safe_go := repeat safe_step.

Ltac hle_field Hb := destruct Hb; constructor; cbn; try assumption; try exact I.

Section services.
Context {M : Type} `{GuestSafe M}.

Notation safe := (safe (M := M)).

(** ** Files, pads and tables *)

Lemma safe_read_tty source limit : u32 source -> 0 <= limit -> safe (Forall (in_u 8)) (read_tty_string source limit).
Proof.
  intros Hs Hl. unfold read_tty_string. eapply safe_bind; [apply safe_limit|]. intros bound Hb. cbv zeta.
  generalize (Z.min limit bound) at 1 2 as l. intros l.
  assert (forall n offset output, 0 <= offset -> Forall (in_u 8) output ->
    safe (Forall (in_u 8)) ((fix read (n : nat) (offset : Z) (output : list Z) : prog M (list Z) :=
      match n with
      | O => fail (MemoryOperationLimit l l)
      | S n => bind (read_byte source offset) (fun byte =>
          if byte =? 0 then ret (reverse output) else read n (offset + 1) (byte :: output))
      end) n offset output)) as Hr.
  { induction n as [|n IH]; intros offset output Ho Hout; [apply safe_fail|].
    safe_step. case_match; [|apply IH; [lia|by constructor]].
    apply safe_ret. rewrite Forall_forall in *. intros x. rewrite elem_of_reverse. auto. }
  by apply Hr.
Qed.
#[local] Hint Resolve safe_read_tty : bios.

Lemma len_nat l : 0 <= len l.
Proof. apply len_nonneg. Qed.

Lemma safe_open : safe cost open.
Proof.
  unfold open. safe_step. eapply safe_bind; [by apply safe_read_tty|]. intros path Hp. safe_go.
  intros b Hb. hle_field Hb. unfold file_ok. cbn. lit.
Qed.

Lemma safe_lseek : safe cost lseek.
Proof.
  unfold lseek. safe_go;
    match goal with H : negb _ = false |- _ =>
      apply negb_false_iff, andb_true_iff in H as [P1%Z.leb_le P2%Z.leb_le] end;
    unfold U32_MAX in P2.
  - intros b' Hb'. hle_field Hb'. unfold file_ok, in_u. cbn. lia.
  - unfold in_u. lia.
Qed.

Lemma safe_read : safe cost read.
Proof. unfold read. safe_go. intros b' Hb'. hle_field Hb'. apply sat_u32. Qed.

Lemma safe_read_bytes n source offset : u32 source -> 0 <= offset -> safe (Forall (in_u 8)) (read_bytes n source offset).
Proof.
  intros Hs. revert offset. induction n as [|n IH]; intros offset Ho; cbn [read_bytes]; [by apply safe_ret|].
  safe_step. eapply safe_bind; [apply IH; lia|]. intros rest Hr. apply safe_ret. by constructor.
Qed.

Lemma safe_print_bytes l : safe (fun _ => True) (print_bytes l).
Proof. unfold print_bytes. safe_go. Qed.

Lemma safe_write : safe cost write.
Proof.
  unfold write. safe_go. eapply safe_bind; [by apply safe_read_bytes|]. intros l Hl. safe_step; [apply safe_print_bytes|].
  safe_go.
Qed.

Lemma safe_constant v c : u32 v -> cost c -> safe cost (answer v c).
Proof. intros. by apply safe_answer. Qed.

Lemma safe_ioctl : safe cost ioctl.
Proof. unfold ioctl. safe_go. Qed.
Lemma safe_isatty : safe cost isatty.
Proof. unfold isatty. safe_go. Qed.
Lemma safe_getc : safe cost getc.
Proof. unfold getc. safe_go. Qed.
Lemma safe_getchar : safe cost getchar.
Proof. unfold getchar. safe_go. Qed.

Lemma wrap8_u32 x : u32 (wrap 8 x).
Proof. apply u8_u32, in_u_wrap. lia. Qed.
#[local] Hint Resolve wrap8_u32 : bios.

Lemma safe_putchar : safe cost putchar.
Proof. unfold putchar. safe_go. Qed.
Lemma safe_putc : safe cost putc.
Proof. unfold putc. safe_go. apply safe_putchar. Qed.

Lemma safe_close : safe cost close.
Proof. unfold close. safe_go. intros b' Hb'. hle_field Hb'. Qed.

Lemma safe_gets_ : safe cost gets_.
Proof. unfold gets_. safe_go. Qed.

Lemma safe_puts : safe cost puts.
Proof.
  unfold puts. safe_step. eapply (safe_bind (fun _ => True)).
  { case_match; [by apply safe_ret|]. eapply safe_weaken. by apply safe_read_tty. }
  intros l _. safe_step; [apply safe_print_bytes|]. safe_go.
Qed.

Lemma safe_initialize_pad : safe cost initialize_pad.
Proof. unfold initialize_pad. safe_go; intros b' Hb'; hle_field Hb'. by cbn. Qed.

Lemma safe_start_port buffer writes : u32 buffer.1 -> safe (fun _ => True) (start_port buffer writes).
Proof. intros Hb. unfold start_port. safe_go. Qed.

Lemma safe_start_pad : safe cost start_pad.
Proof.
  unfold start_pad. safe_step. destruct (hle_pad _ Hb) as (_ & P1 & _ & P2 & _).
  eapply (safe_bind (fun _ => True)).
  { case_match; [|by apply safe_ret]. eapply safe_bind; [by apply safe_start_port|]. intros w _.
    by apply safe_start_port. }
  intros w _. safe_go. intros b' Hb'. hle_field Hb'.
Qed.

Lemma safe_stop_pad : safe cost stop_pad.
Proof. unfold stop_pad. safe_go; intros b' Hb'; hle_field Hb'. Qed.

Lemma safe_initialize_high_level_pad : safe cost initialize_high_level_pad.
Proof.
  unfold initialize_high_level_pad. safe_go; intros b' Hb'; hle_field Hb'.
  cbn. split_and!; [done|lit..].
Qed.

Lemma safe_read_high_level_pad : safe cost read_high_level_pad.
Proof.
  unfold read_high_level_pad. safe_step. destruct (hle_pad _ Hb) as [P _]. safe_go.
Qed.

Lemma safe_initialize_card : safe cost initialize_card.
Proof. unfold initialize_card. safe_go. intros b' Hb'. hle_field Hb'. Qed.
Lemma safe_start_card : safe cost start_card.
Proof. unfold start_card. safe_go. intros b' Hb'. destruct (card_initialized _); [|done]. hle_field Hb'. Qed.
Lemma safe_stop_card : safe cost stop_card.
Proof. unfold stop_card. safe_go. intros b' Hb'. hle_field Hb'. Qed.
Lemma safe_initialize_backup_unit : safe cost initialize_backup_unit.
Proof.
  unfold initialize_backup_unit. safe_go. intros b' Hb'. destruct (card_initialized _); [|done]. hle_field Hb'.
Qed.

(** ** Jump tables *)

Lemma safe_stub address function vector : u32 address -> safe (fun _ => True) (write_hle_stub address function vector).
Proof. intros Ha. unfold write_hle_stub. safe_go. Qed.

Lemma safe_install_stub table stub vector i :
  u32 table -> u32 stub -> 0 <= i < 256 -> safe (fun _ => True) (install_stub table stub vector i).
Proof.
  intros Ht Hs Hi. unfold install_stub, BIOS_STUB_BYTES. safe_go. by apply safe_stub.
Qed.

Lemma set_tables_ok f b : hle_ok b -> hle_ok (set_tables f b).
Proof. intros Hb. unfold set_tables. hle_field Hb. Qed.

Lemma safe_initialize_boot_memory : safe (fun _ => True) initialize_boot_memory.
Proof.
  unfold initialize_boot_memory. safe_go; [|intros b' Hb'; by apply set_tables_ok].
  apply safe_install_stub; [lit..|]. change (Z.of_nat (Z.to_nat A0_TABLE_ENTRIES)) with 192 in *. lia.
Qed.

Lemma safe_get_function_table vector : vector <> A0 -> safe cost (get_function_table vector).
Proof.
  intros Hv. unfold get_function_table. safe_step.
  eapply (safe_bind (fun '(t, s, _, _) => u32 t /\ u32 s)).
  { destruct vector; [done|apply safe_ret; split; lit..]. }
  intros [[[t s] installed] v] [Ht Hs]. safe_step.
  2:{ apply safe_answer; [done|]. destruct installed; lit. }
  destruct installed; [by apply safe_ret|]. safe_step; [safe_go|]. safe_step.
  { safe_step. apply safe_install_stub; [done|done|].
    change (Z.of_nat (Z.to_nat BIOS_TABLE_ENTRIES)) with 256 in *. lia. }
  safe_step.
  - destruct vector; [done|..]; unfold install_patched; safe_go; apply safe_stub; lit.
  - safe_step. intros b' Hb'. by apply set_tables_ok.
Qed.

(** ** Heaps *)

Lemma up8_in_range a s h : u32 (hp_base h) \/ 0 <= hp_base h -> hp_base h <= a -> 0 <= s -> a + s <= hp_end h ->
  hp_end h < 2 ^ 32 -> u32 a.
Proof. unfold in_u. lia. Qed.

Lemma allocate_from_heap_safe size h :
  heap_ok h -> u32 size -> safely u32 (allocate_from_heap size h).1 /\ heap_ok (allocate_from_heap size h).2.
Proof.
  intros Hh Hs. pose proof (heap_allocates size h Hh Hs) as Hc.
  destruct (allocate_from_heap size h) as [[a|e|] h']; [| |done].
  - destruct Hc as (Hh' & _ & _ & H1 & _ & H2 & _). split; [|done]. cbn.
    destruct Hh as [[B1 B2] _ _]. destruct (up8_spec (Z.max size 1)) as [U _]. unfold in_u. lia.
  - by destruct Hc as (-> & _).
Qed.

Lemma heap_bounds_safe start size :
  u32 start -> u32 size ->
  safely (fun p => u32 p.1 /\ heap_ok (mkHeap p.1 p.2 [])) (heap_bounds start size).
Proof.
  intros H1 H2. unfold heap_bounds. eapply safely_bind; [by apply align_up_safe|].
  cbv beta. intros base (B1 & B2 & B3). eapply safely_bind; [apply safely_ok_or; intros e E; exact E|].
  cbv beta. intros e [-> E]%checked_add_u_Some. destruct (Z.ltb_spec (start + size) base); [done|].
  cbn. split; [done|]. constructor; cbn; [unfold in_u in *; lia|done|lia].
Qed.

Lemma safe_initialize_heap : safe cost initialize_heap.
Proof.
  unfold initialize_heap. do 2 safe_step. eapply safe_bind; [by apply safe_lift, heap_bounds_safe|].
  intros [base e] [Hb He]. safe_go. intros b Hbb. hle_field Hbb.
Qed.

Lemma safe_initialize_kernel_heap : safe cost initialize_kernel_heap.
Proof.
  unfold initialize_kernel_heap. do 2 safe_step. eapply safe_bind; [by apply safe_lift, heap_bounds_safe|].
  intros [base e] [Hb He]. safe_go. intros b Hbb. hle_field Hbb.
Qed.

Lemma safe_allocate size : u32 size -> safe u32 (allocate size).
Proof.
  intros Hs. apply safe_on_hle. intros b Hb. pose proof (hle_heap _ Hb) as Hh.
  destruct (heap b) as [h|]; [|done]. destruct (allocate_from_heap_safe size h Hh Hs) as [H1 H2].
  destruct (allocate_from_heap size h) as [r h']. split; [done|]. cbn in H2. hle_field Hb.
Qed.

Lemma safe_malloc : safe cost malloc.
Proof. unfold malloc. safe_step. eapply safe_bind; [by apply safe_allocate|]. intros v Hv. safe_go. Qed.

Lemma safe_allocate_kernel_memory : safe cost allocate_kernel_memory.
Proof.
  unfold allocate_kernel_memory. safe_step. eapply (safe_bind u32); [|intros v Hv; safe_go].
  apply safe_on_hle. intros b Hb. destruct (allocate_from_heap_safe a _ (hle_kernel_heap _ Hb) Ha) as [H1 H2].
  destruct (allocate_from_heap a (kernel_heap b)) as [r h']. cbn in H1, H2.
  assert (hle_ok (b <| kernel_heap := h' |>)) as Hok by hle_field Hb.
  destruct r as [v|e|]; [done| |done]. by destruct e; split.
Qed.

Lemma free_heap_ok address h : heap_ok h -> heap_ok (free_from_heap address h).
Proof. intros Hh. by destruct (heap_frees address h Hh). Qed.

Lemma free_ok address b : hle_ok b -> hle_ok (b <| heap := free_from_heap address <$> heap b |>).
Proof.
  intros Hb. pose proof (hle_heap _ Hb) as Hh. hle_field Hb. destruct (heap b); [|done]. cbn in *. by apply free_heap_ok.
Qed.

Lemma safe_free_kernel_memory : safe cost free_kernel_memory.
Proof.
  unfold free_kernel_memory. safe_go. intros b Hb. pose proof (hle_kernel_heap _ Hb). hle_field Hb.
  by apply free_heap_ok.
Qed.

Lemma safe_free : safe cost free.
Proof. unfold free. safe_go. intros b Hb. by apply free_ok. Qed.

Lemma safe_copy_byte source destination offset :
  0 <= source -> 0 <= destination -> 0 <= offset -> safe (fun _ => True) (copy_byte source destination offset).
Proof. intros. unfold copy_byte. safe_go. Qed.

Lemma safe_calloc : safe cost calloc.
Proof.
  unfold calloc. do 3 safe_step. safe_step; [safe_go|]. safe_step.
  { apply safe_sets; [done|]. intros c Hc. by apply set_reg_ok. }
  eapply safe_bind; [apply safe_malloc|]. intros _ _. safe_step. pose proof (reg_u32 V0 _ Hb) as Hv. safe_go.
Qed.

(** Growing in place needs the heap the room was computed from. *)
Lemma safe_realloc : safe cost realloc.
Proof.
  unfold realloc. do 2 safe_step. safe_step; [safe_go|]. safe_step.
  { eapply safe_bind; [by apply safe_allocate|]. intros v Hv. safe_go. }
  safe_step. { eapply safe_bind; [apply safe_free|]. intros _ _. safe_go. }
  eapply safe_bind; [apply safe_lift, align_up_safe; unfold in_u in *; lia|]. cbv beta. intros n (N1 & N2 & N3).
  intros w Hw. unfold bind at 1. cbn [gets]. destruct (heap (hle w)) as [h|] eqn:Eh; [|by split].
  pose proof (hle_heap _ (wo_hle _ Hw)) as Hh. rewrite Eh in Hh. cbn in Hh.
  destruct (block_room a h) as [[[i old] following]|] eqn:Er; [|by apply safe_answer; [lit|lit|]].
  unfold bind at 1. unfold checked_add at 1, lift, checked_add_u.
  destruct (Z.ltb_spec (a + n) (2 ^ 32)) as [Hlt|]; cbn [ok_or]; [|by split].
  destruct (Z.leb_spec (a + n) following) as [Hle|_].
  - unfold bind, updates. apply (safe_answer a 10 u32); [done|lit|].
    destruct Hw as [Hb Hc Hm]. constructor; cbn; [|done|done].
    destruct (heap_grows a h i old following n Hh Er ltac:(lia) N3 Hle) as [Hg _].
    hle_field Hb. by rewrite Eh.
  - revert w Hw Eh. cut (safe cost (let* new_address := allocate a0 in
      let copied := Z.min old a0 in
      for_range (Z.to_nat copied) 0 (copy_byte a new_address) ;;
      updates (fun b => b <| heap := free_from_heap a <$> heap b |>) ;;
      answer new_address (saturating_u 32 (memory_cycles copied + 16)))).
    { intros Hs w Hw _. by apply Hs. }
    eapply safe_bind; [by apply safe_allocate|]. intros v Hv. safe_go.
    + apply safe_copy_byte; unfold in_u in *; lia.
    + intros b Hb. by apply free_ok.
Qed.

(** ** Events *)

Lemma deliver_all_safe l class spec slots queue delivered :
  Forall event_ok slots -> Forall (fun r => u32 (cb_address r)) queue -> u32 delivered ->
  let r := deliver_all l class spec delivered slots queue in
  safely u32 r.1 /\ length r.2.1 = length slots /\ Forall event_ok r.2.1 /\
  Forall (fun r => u32 (cb_address r)) r.2.2.
Proof.
  intros Hs. revert queue delivered. induction Hs as [|slot slots He Hs IH]; intros queue delivered Hq Hd; cbn; [done|].
  assert (exists o s q, deliver l class spec slot queue = (o, (s, q)) /\ no_panic o /\ event_ok s /\
    Forall (fun r => u32 (cb_address r)) q) as (o & s & q & -> & Ho & Hs' & Hq').
  { unfold deliver. destruct slot as [e|]; [|by do 3 eexists]. pose proof He as (E1 & E2 & E3 & E4).
    repeat case_match; do 3 eexists; (split; [reflexivity|]); split_and!; try done.
    apply Forall_app. split; [done|]. by apply Forall_singleton. }
  destruct o as [hit|e|]; [| |done].
  - specialize (IH q (if (hit : bool) then saturating_u 32 (delivered + 1) else delivered) Hq'
      ltac:(destruct hit; [apply sat_u32|done])). cbn in IH.
    destruct (deliver_all _ _ _ _ slots q) as [r [ss qq]]. cbn in *. destruct IH as (H1 & H2 & H3 & H4).
    split_and!; [done|by f_equal|by constructor|done].
  - cbn. split_and!; [done|done|by constructor|done].
Qed.

Lemma signal_event_safe class spec b :
  hle_ok b -> safely u32 (signal_event class spec b).1 /\ hle_ok (signal_event class spec b).2.
Proof.
  intros Hb. destruct (hle_events _ Hb) as [Hl He]. unfold signal_event.
  pose proof (deliver_all_safe (limits b) class spec _ _ 0 He (hle_pending _ Hb) ltac:(lit)) as Hd.
  cbn in Hd. destruct (deliver_all _ _ _ _ _ _) as [r [ss qq]]. cbn in Hd. destruct Hd as (H1 & H2 & H3 & H4).
  split; [done|]. hle_field Hb. split; [congruence|done].
Qed.

Lemma put_event_ok i slot b : hle_ok b -> event_ok slot -> hle_ok (put_event i slot b).
Proof.
  intros Hb Hs. destruct (hle_events _ Hb) as [Hl He]. hle_field Hb. rewrite length_insert.
  split; [done|]. by apply Forall_insert.
Qed.

Lemma event_slot_ok handle b i e : hle_ok b -> event_slot handle b = Some (i, e) -> event_ok (Some e).
Proof.
  intros Hb. unfold event_slot. case_match; [done|]. cbv zeta. destruct (events b !! _) as [[e'|]|] eqn:E; [|done..].
  intros [= <- <-]. destruct (hle_events _ Hb) as [_ He]. rewrite Forall_lookup in He. by apply (He _ _ E).
Qed.

Lemma take_delivery_safe handle b :
  hle_ok b -> safely (fun _ => True) (take_delivery handle b).1 /\ hle_ok (take_delivery handle b).2.
Proof.
  intros Hb. unfold take_delivery. destruct (event_slot handle b) as [[i e]|] eqn:E; [|done].
  pose proof (event_slot_ok _ _ _ _ Hb E). case_match; [|done]. split; [done|]. by apply put_event_ok.
Qed.

Lemma event_handle_u32 i : (i < EVENT_SLOTS)%nat -> u32 (event_handle i).
Proof.
  intros Hi. unfold event_handle. apply in_u_lor; [lia|lit|]. unfold EVENT_SLOTS in Hi. unfold in_u. lia.
Qed.

Lemma free_slot_some slots i : free_slot slots = Some i -> slots !! i = Some None.
Proof.
  revert i. induction slots as [|[e|] slots IH]; intros i; cbn; [done| |by intros [= <-]].
  destruct (free_slot slots); [|done]. intros [= <-]. by apply IH.
Qed.

Lemma safe_open_event : safe cost open_event.
Proof.
  unfold open_event. safe_step. destruct (free_slot (events b)) as [i|] eqn:E; [|safe_go].
  apply free_slot_some, lookup_lt_Some in E. destruct (hle_events _ Hb) as [Hl _].
  assert (i < EVENT_SLOTS)%nat as Hi by (rewrite <- Hl; exact E).
  do 4 safe_step. safe_step; [|apply safe_answer; [by apply event_handle_u32|lit]].
  safe_step. intros b' Hb'. by apply put_event_ok.
Qed.

Lemma safe_close_event : safe cost close_event.
Proof.
  unfold close_event. safe_go. intros b Hb. destruct (event_slot a b) as [[i e]|]; [|done]. by apply put_event_ok.
Qed.

Lemma safe_enable_event enabled : safe cost (enable_event enabled).
Proof.
  unfold enable_event. safe_go. intros b Hb. destruct (event_slot a b) as [[i e]|] eqn:E; [|done].
  pose proof (event_slot_ok _ _ _ _ Hb E). by apply put_event_ok.
Qed.

Lemma safe_test_event : safe cost test_event.
Proof.
  unfold test_event. safe_step. eapply safe_bind; [by apply safe_on_hle, take_delivery_safe|].
  intros d _. safe_step; [safe_go|]. safe_step; [|safe_go]. apply safe_sets; [done|]. intros c Hc.
  apply set_register_ok; [done|]. apply bool_u32.
Qed.

Lemma safe_wait_event : safe (fun p => cost p.1) wait_event.
Proof.
  unfold wait_event. safe_step. eapply safe_bind; [by apply safe_on_hle, take_delivery_safe|].
  intros d _. safe_step; [safe_go|]. apply safe_ret. lit.
Qed.

Lemma safe_deliver_event : safe cost deliver_event.
Proof.
  unfold deliver_event. do 2 safe_step. eapply safe_bind; [by apply safe_on_hle, signal_event_safe|].
  intros d Hd. safe_go.
Qed.

Lemma safe_undeliver_event : safe cost undeliver_event.
Proof.
  unfold undeliver_event. do 3 safe_step. safe_step.
  - safe_step. intros b' Hb'. destruct (hle_events _ Hb) as [Hl He]. hle_field Hb'.
    rewrite !length_map. split; [done|]. rewrite !Forall_map. eapply Forall_impl; [exact He|].
    intros [e|]; [|done]. cbn. case_match; done.
  - apply safe_answer; [|lit].
    generalize (map (undeliver a a0) (events b)) as l. assert (u32 0) as H00 by lit. revert H00.
    generalize 0 as n. intros n Hn l. revert n Hn. induction l as [|s l IH]; intros n Hn; cbn; [done|].
    apply IH. destruct s.2; [apply sat_u32|done].
Qed.

(** ** Handlers, queues and counters *)

Lemma safe_set_handlers f : safe (fun _ => True) (updates (set_handlers f)).
Proof. apply safe_updates; [done|]. intros b Hb. unfold set_handlers. hle_field Hb. Qed.

Lemma safe_initialize_timer_and_vblank_handlers : safe cost initialize_timer_and_vblank_handlers.
Proof. unfold initialize_timer_and_vblank_handlers. safe_step. safe_step; [apply safe_set_handlers|safe_go]. Qed.
Lemma safe_initialize_syscall_handler : safe cost initialize_syscall_handler.
Proof. unfold initialize_syscall_handler. safe_step. safe_step; [apply safe_set_handlers|safe_go]. Qed.
Lemma safe_initialize_default_interrupt_handler : safe cost initialize_default_interrupt_handler.
Proof. unfold initialize_default_interrupt_handler. safe_step. safe_step; [apply safe_set_handlers|safe_go]. Qed.

Lemma set_queue_ok i v b : hle_ok b -> u32 v -> hle_ok (b <| interrupt_queues := <[i := v]> (interrupt_queues b) |>).
Proof.
  intros Hb Hv. destruct (hle_queues _ Hb) as [Hl Hq]. hle_field Hb. rewrite length_insert. split; [done|].
  by apply Forall_insert.
Qed.

Lemma safe_enqueue_interrupt : safe cost enqueue_interrupt.
Proof. unfold enqueue_interrupt. safe_go. intros b' Hb'. by apply set_queue_ok. Qed.

Lemma safe_dequeue_interrupt : safe cost dequeue_interrupt.
Proof.
  unfold dequeue_interrupt. safe_go; [|case_match; [lit|apply max_u32]..].
  intros b' Hb'. apply set_queue_ok; [done|lit].
Qed.

Lemma safe_change_clear_counter : safe cost change_clear_counter.
Proof. unfold change_clear_counter. safe_go. intros b' Hb'. pose proof (hle_clear _ Hb'). hle_field Hb'. by rewrite length_insert. Qed.

Lemma safe_root_counter_valid : safe (fun _ => True) root_counter_valid.
Proof. unfold root_counter_valid. safe_go. Qed.

Lemma safe_root_counter_control : safe cost root_counter_control.
Proof. unfold root_counter_control. eapply safe_bind; [apply safe_root_counter_valid|intros v _]. safe_go. Qed.
Lemma safe_get_root_counter : safe cost get_root_counter.
Proof.
  unfold get_root_counter. eapply safe_bind; [apply safe_root_counter_valid|intros v _]. apply safe_answer; [|lit].
  case_match; [lit|apply max_u32].
Qed.

(** ** Jump buffers and callbacks *)

Lemma safe_read_words n buffer i :
  u32 buffer -> 0 <= i -> i + Z.of_nat n <= 12 -> safe (Forall u32) (read_words n buffer i).
Proof.
  intros Hb. revert i. induction n as [|n IH]; intros i Hi Hn; cbn [read_words]; [by apply safe_ret|].
  do 2 safe_step. eapply safe_bind; [apply IH; lia|]. intros l Hl. apply safe_ret. by constructor.
Qed.

Lemma safe_read_jump_buffer buffer : u32 buffer -> safe (Forall u32) (read_jump_buffer buffer).
Proof. intros Hb. by apply safe_read_words. Qed.

Lemma saved_word_u32 l i : Forall u32 l -> u32 (saved_word l i).
Proof.
  intros Hl. unfold saved_word. destruct (l !! i) eqn:E; [|lit]. rewrite Forall_lookup in Hl. by eapply Hl.
Qed.

Lemma restore_ok saved c : Forall u32 saved -> ctx_ok c -> ctx_ok (restore_jump_buffer saved c).
Proof.
  intros Hs Hc. unfold restore_jump_buffer. apply set_reg_ok; [|by apply saved_word_u32].
  cbn [seq fold_left]. repeat (apply set_reg_ok; [|by apply saved_word_u32]). done.
Qed.

Lemma safe_setjmp : safe cost setjmp.
Proof.
  unfold setjmp. safe_step; [safe_go|]. do 2 safe_step. safe_step; [|safe_go].
  apply safe_for_range; [done|]. intros i Hi. safe_go.
Qed.

Lemma safe_longjmp : safe cost longjmp.
Proof.
  unfold longjmp. safe_step; [safe_go|]. do 2 safe_step. eapply safe_bind; [by apply safe_read_jump_buffer|].
  intros saved Hs. safe_step; [|safe_go]. apply safe_sets; [done|]. intros c Hc. by apply restore_ok.
Qed.

Lemma safe_prepare_interrupt_hook : safe (fun _ => True) prepare_interrupt_hook.
Proof.
  unfold prepare_interrupt_hook. safe_step. destruct (interrupt_hook b) as [buffer|] eqn:E; [|safe_go].
  pose proof (hle_hook _ Hb) as Hh. rewrite E in Hh. cbn in Hh.
  eapply safe_bind; [by apply safe_read_jump_buffer|]. intros saved Hs. safe_step; [|safe_go].
  apply safe_sets; [done|]. intros c Hc. apply restore_ok; [done|]. apply set_pc_ok; [done|]. by apply saved_word_u32.
Qed.

Lemma take_callback_ok b :
  hle_ok b -> from_option (fun r => u32 (cb_address r)) True (take_callback b).1 /\ hle_ok (take_callback b).2.
Proof.
  intros Hb. unfold take_callback. destruct (pending_callbacks b) as [|r rest] eqn:E; [done|].
  pose proof (hle_pending _ Hb) as Hp. rewrite E in Hp. inversion Hp. split; [done|]. hle_field Hb.
Qed.

Lemma safe_enter_callback r : u32 (cb_address r) -> safe (fun _ => True) (enter_callback r).
Proof.
  intros Hr. unfold enter_callback. do 2 safe_step. safe_step; [safe_go|]. safe_step. safe_step.
  - safe_step. intros b' Hb'. pose proof (hle_stack _ Hb'). hle_field Hb'. by constructor.
  - apply safe_sets; [done|]. intros c Hc. apply set_reg_ok; [|lit]. by apply set_pc_ok.
Qed.

(** The stack a context is taken from is the one it is taken off. *)
Lemma safe_return_from_callback : safe (fun _ => True) return_from_callback.
Proof.
  unfold return_from_callback. safe_step. pose proof (hle_stack _ Hb) as Hs.
  destruct (callback_stack b) as [|saved rest]; [safe_go|]. inversion Hs. safe_step.
  - safe_step. intros b' Hb'. hle_field Hb'.
  - by apply safe_sets.
Qed.

Lemma safe_set_memory_size : safe cost set_memory_size.
Proof. unfold set_memory_size. safe_go. Qed.

Lemma set_enabled_ok v b : hle_ok b -> hle_ok (b <| interrupts_enabled := v |>).
Proof. intros Hb. hle_field Hb. Qed.

Lemma safe_dispatch_syscall number : safe (fun o => cost (ho_cycles o)) (dispatch_syscall number).
Proof.
  unfold dispatch_syscall. eapply (safe_bind cost).
  { safe_go; intros b' Hb'; by apply set_enabled_ok. }
  intros cycles Hc. safe_step; [|by apply safe_ret]. apply safe_sets; [done|]. intros c Hcc. apply set_pc_ok; [done|].
  apply in_u_wrap. lia.
Qed.
End services.

(** ** Memory and strings *)

Section libc.
Context {M : Type} `{GuestSafe M}.

Notation safe := (safe (M := M)).

Lemma safe_memory_copy overlap_safe : safe cost (memory_copy overlap_safe).
Proof.
  unfold memory_copy. do 3 safe_step. safe_step; [safe_go|]. safe_step.
  { safe_go. }
  safe_step; [|safe_go]. safe_go; apply safe_copy_byte; unfold in_u in *; lia.
Qed.

Lemma safe_bcopy : safe cost bcopy.
Proof. unfold bcopy. safe_go. apply safe_copy_byte; unfold in_u in *; lia. Qed.
Lemma safe_bzero : safe cost bzero.
Proof. unfold bzero. safe_go. Qed.
Lemma safe_memory_set : safe cost memory_set.
Proof. unfold memory_set. safe_go. Qed.

Lemma safe_memory_compare : safe cost memory_compare.
Proof.
  unfold memory_compare. do 3 safe_step. safe_step; [safe_go|].
  eapply safe_bind; [eapply (safe_find_range _ _ _ (fun _ => True))|].
  { intros i Hi. do 2 safe_step. apply safe_ret. by destruct (_ =? _). }
  intros o _. safe_go.
Qed.

Lemma safe_memory_character : safe cost memory_character.
Proof.
  unfold memory_character. do 3 safe_step. safe_step; [safe_go|].
  eapply safe_bind; [eapply (safe_find_range _ _ _ u32)|].
  { intros i Hi. safe_step. safe_step; [|by apply safe_ret]. safe_step. by apply safe_ret. }
  intros o Ho. apply safe_answer; [|apply cost_memory]. destruct o; [done|lit].
Qed.

Lemma safe_read_string_byte source offset : 0 <= source -> 0 <= offset -> safe (in_u 8) (read_string_byte source offset).
Proof. intros. unfold read_string_byte. safe_step. safe_step; [safe_go|]. by apply safe_read_byte. Qed.

(** The bodies of the string loops: an offset, and what is carried with it. *)
Lemma safe_next {A} (I : Z -> Prop) (Q : A -> Prop) offset :
  u32 offset -> (u32 (offset + 1) -> I (offset + 1)) -> safe (goes_on I id Q (offset + 1)) (next offset).
Proof. intros Ho Hi. unfold next. safe_step. apply safe_ret. cbn. split; [auto|done]. Qed.

Lemma safe_offset_loop {A} (Q : A -> Prop) (body : Z -> prog M (Z + A)) :
  (forall o, u32 o -> safe (goes_on u32 id Q (o + 1)) (body o)) -> safe Q (loop body 0).
Proof.
  intros Hb. apply (safe_loop u32 id Q); [|exact Hb|lit]. intros s Hs. exact Hs.
Qed.

Lemma safe_string_contains l target : u32 l -> safe (fun _ => True) (string_contains l target).
Proof.
  intros Hl. unfold string_contains. safe_step; [safe_go|]. apply safe_offset_loop. intros o Ho.
  eapply safe_bind; [apply safe_read_string_byte; unfold in_u in *; lia|]. intros v Hv.
  safe_step; [by apply safe_ret|]. safe_step; [by apply safe_ret|]. by apply safe_next.
Qed.

Lemma safe_scan_end source : u32 source -> safe u32 (scan_end source).
Proof.
  intros Hs. apply safe_offset_loop. intros o Ho.
  eapply safe_bind; [apply safe_read_string_byte; unfold in_u in *; lia|]. intros v Hv.
  safe_step; [by apply safe_ret|]. by apply safe_next.
Qed.

Lemma safe_string_length : safe cost string_length.
Proof.
  unfold string_length. safe_step. safe_step; [safe_go|]. eapply safe_bind; [by apply safe_scan_end|].
  intros l Hl. safe_go.
Qed.

Lemma safe_string_concat maximum : safe cost (string_concat maximum).
Proof.
  unfold string_concat. do 2 safe_step. safe_step; [safe_go|]. eapply safe_bind; [by apply safe_scan_end|].
  intros l Hl. eapply (safe_bind u32); [|intros size Hs; safe_go].
  apply safe_offset_loop. intros o Ho. do 2 safe_step. safe_step; [safe_go|]. safe_step.
  - safe_step; [safe_go|]. by apply safe_ret.
  - safe_step. safe_step; [safe_go|]. safe_step; [by apply safe_ret|]. by apply safe_next.
Qed.

Lemma safe_strcat : safe cost strcat.
Proof. apply safe_string_concat. Qed.
Lemma safe_strncat : safe cost strncat.
Proof. unfold strncat. safe_step. apply safe_string_concat. Qed.

Lemma safe_string_compare maximum : safe cost (string_compare maximum).
Proof.
  unfold string_compare. do 2 safe_step. safe_step; [safe_go|]. eapply (safe_bind (fun _ => True)); [|intros [r o] _; safe_go].
  apply safe_offset_loop. intros o Ho. safe_step; [by apply safe_ret|].
  do 2 (eapply safe_bind; [apply safe_read_string_byte; unfold in_u in *; lia|]; intros ? ?).
  safe_step; [by apply safe_ret|]. safe_step; [by apply safe_ret|]. by apply safe_next.
Qed.

Lemma safe_copy_string n bounded source destination offset terminated :
  u32 source -> u32 destination -> 0 <= offset ->
  safe (fun _ => True) (copy_string n bounded source destination offset terminated).
Proof.
  intros Hs Hd. revert offset terminated. induction n as [|n IH]; intros offset terminated Ho; cbn [copy_string];
    [by apply safe_ret|].
  eapply (safe_bind (in_u 8)).
  { destruct terminated; [apply safe_ret; lit|]. apply safe_read_string_byte; unfold in_u in *; lia. }
  intros v Hv. safe_step; [safe_go|]. safe_step; [by apply safe_ret|]. apply IH. lia.
Qed.

Lemma safe_string_copy maximum : from_option u32 True maximum -> safe cost (string_copy maximum).
Proof.
  intros Hm. unfold string_copy. do 2 safe_step. safe_step; [safe_go|]. safe_step. safe_step; [safe_go|].
  eapply safe_bind; [by apply safe_copy_string|]. intros last _. safe_go.
Qed.

Lemma safe_string_character reverse : safe cost (string_character reverse).
Proof.
  unfold string_character. do 2 safe_step. safe_step; [safe_go|].
  eapply (safe_bind (fun p => from_option u32 True p.1)).
  - apply (safe_loop (fun p => from_option u32 True p.1 /\ u32 p.2) snd).
    + intros p [_ Hp]. exact Hp.
    + intros [found o] [Hf Ho]. cbn in Hf, Ho.
      eapply safe_bind; [apply safe_read_string_byte; unfold in_u in *; lia|]. intros v Hv.
      eapply (safe_bind (fun f => from_option u32 True f)).
      { safe_step; [|by apply safe_ret]. safe_step. by apply safe_ret. }
      intros f Hf'. safe_step; [by apply safe_ret|]. safe_step; [by apply safe_ret|].
      safe_step. apply safe_ret. cbn. by split.
    + split; [done|lit].
  - intros [found o] Hf. apply safe_answer; [|apply cost_memory]. destruct found; [done|lit].
Qed.

Lemma safe_string_pbrk : safe cost string_pbrk.
Proof.
  unfold string_pbrk. do 2 safe_step. safe_step; [safe_go|].
  eapply (safe_bind (fun p => u32 p.1)); [|intros [r o] Hr; safe_go].
  apply safe_offset_loop. intros o Ho.
  eapply safe_bind; [apply safe_read_string_byte; unfold in_u in *; lia|]. intros v Hv.
  safe_step; [apply safe_ret; cbn; lit|]. eapply safe_bind; [by apply safe_string_contains|].
  intros found _. safe_step; [|by apply safe_next]. safe_step. by apply safe_ret.
Qed.

Lemma safe_string_span accept : safe cost (string_span accept).
Proof.
  unfold string_span. do 2 safe_step. safe_step; [safe_go|].
  eapply (safe_bind u32); [|intros o Ho; safe_go].
  apply safe_offset_loop. intros o Ho.
  eapply safe_bind; [apply safe_read_string_byte; unfold in_u in *; lia|]. intros v Hv.
  safe_step; [by apply safe_ret|]. eapply safe_bind; [by apply safe_string_contains|].
  intros found _. safe_step; [by apply safe_ret|]. by apply safe_next.
Qed.

Lemma set_strtok_ok next b : from_option u32 True next -> hle_ok b -> hle_ok (set_strtok next b).
Proof. intros Hn Hb. unfold set_strtok. hle_field Hb. Qed.

Lemma safe_skip_delimiters delimiters cursor :
  u32 delimiters -> u32 cursor -> safe (fun p => from_option u32 True p.1 /\ u32 p.2) (skip_delimiters delimiters cursor).
Proof.
  intros Hd Hc. apply (safe_loop (fun p => u32 p.1 /\ u32 p.2) fst).
  - intros p [Hp _]. exact Hp.
  - intros [c s] [Hc' Hs]. cbn in Hc', Hs.
    eapply safe_bind; [apply safe_read_string_byte; unfold in_u in *; lia|]. intros v Hv.
    safe_step; [by apply safe_ret|]. eapply safe_bind; [by apply safe_string_contains|].
    intros found _. safe_step; [by apply safe_ret|]. do 2 safe_step. apply safe_ret. cbn. by split_and!.
  - split; [done|lit].
Qed.

Lemma safe_end_token delimiters cursor scanned :
  u32 delimiters -> u32 cursor -> u32 scanned -> safe u32 (end_token delimiters cursor scanned).
Proof.
  intros Hd Hc Hs. apply (safe_loop (fun p => u32 p.1 /\ u32 p.2) fst); [| |done].
  - intros p [Hp _]. exact Hp.
  - intros [c s] [Hc' Hs']. cbn in Hc', Hs'.
    eapply safe_bind; [apply safe_read_string_byte; unfold in_u in *; lia|]. intros v Hv.
    safe_step.
    { safe_step; [|by apply safe_ret]. safe_step. intros b Hb. by apply set_strtok_ok. }
    eapply safe_bind; [by apply safe_string_contains|]. intros found _. safe_step.
    + safe_step; [safe_step|]. safe_step. safe_step; [|by apply safe_ret].
      safe_step. intros b Hb. by apply set_strtok_ok.
    + do 2 safe_step. safe_step; [safe_go|]. apply safe_ret. cbn. by split_and!.
Qed.

Lemma safe_string_token : safe cost string_token.
Proof.
  unfold string_token. do 2 safe_step. safe_step; [safe_go|]. safe_step.
  { safe_step; [safe_go|]. eapply safe_bind; [by apply safe_read_tty|]. intros input Hi. safe_step.
    - safe_step. apply safe_write_byte; [unfold STRTOK_BUFFER_ADDRESS; lia|lia| |done].
      destruct (input !! _) eqn:E; [|lit]. rewrite Forall_lookup in Hi. by eapply Hi.
    - safe_step. intros b Hb. apply set_strtok_ok; [cbn; lit|done]. }
  safe_step. pose proof (hle_strtok _ Hb) as Hn. destruct (strtok_next b) as [cursor|]; [|safe_go]. cbn in Hn.
  eapply safe_bind; [by apply safe_skip_delimiters|]. intros [token scanned] [Ht Hs]. cbn in Ht, Hs.
  destruct token as [token|].
  - eapply safe_bind; [by apply safe_end_token|]. intros s Hs'. safe_go.
  - safe_step; [|safe_go]. safe_step. intros b' Hb'. by apply set_strtok_ok.
Qed.

Lemma safe_matches_at haystack offset k needle :
  u32 haystack -> 0 <= offset -> 0 <= k -> safe (fun _ => True) (matches_at haystack offset k needle).
Proof.
  intros Hh Ho. revert k. induction needle as [|x needle IH]; intros k Hk; cbn [matches_at]; [by apply safe_ret|].
  safe_step. eapply safe_bind; [apply safe_read_string_byte; unfold in_u in *; lia|]. intros v Hv.
  safe_step; [by apply safe_ret|]. apply IH. lia.
Qed.

Lemma safe_string_string : safe cost string_string.
Proof.
  unfold string_string. do 2 safe_step. safe_step; [safe_go|]. safe_step.
  eapply safe_bind; [apply safe_read_tty; [done|unfold in_u in *; lia]|]. intros needle Hn. safe_step; [safe_go|].
  eapply (safe_bind (fun p => u32 p.1)); [|intros [r o] Hr; safe_go].
  apply safe_offset_loop. intros o Ho.
  eapply safe_bind; [apply safe_read_string_byte; unfold in_u in *; lia|]. intros v Hv.
  safe_step; [apply safe_ret; cbn; lit|].
  eapply safe_bind; [apply safe_matches_at; [done|unfold in_u in *; lia|lia]|].
  intros found _. safe_step; [|by apply safe_next]. safe_step. by apply safe_ret.
Qed.

(** ** Numbers *)

Lemma ascii_digit_range byte d : ascii_digit byte = Some d -> 0 <= d < 36.
Proof.
  unfold ascii_digit, is_digit, is_upper, is_lower. repeat case_match; try done; intros [= <-]; zbool; lia.
Qed.

Lemma safe_skip_space source : u32 source -> safe u32 (skip_space source).
Proof.
  intros Hs. apply safe_offset_loop. intros o Ho.
  eapply safe_bind; [apply safe_read_string_byte; unfold in_u in *; lia|]. intros v Hv.
  safe_step; [by apply safe_next|]. by apply safe_ret.
Qed.

Lemma safe_parse_base source offset base zero_octal :
  u32 source -> u32 offset -> safe (fun p => u32 p.2) (parse_base source offset base zero_octal).
Proof.
  intros Hs Ho. unfold parse_base.
  eapply safe_bind; [apply safe_read_string_byte; unfold in_u in *; lia|]. intros first Hf.
  eapply (safe_bind (fun _ => True)).
  { safe_step; [|by apply safe_ret]. safe_step.
    eapply safe_bind; [apply safe_read_string_byte; unfold in_u in *; lia|]. intros v Hv. by apply safe_ret. }
  intros second _. cbv zeta. repeat (safe_step; [safe_step; by apply safe_ret|]). by apply safe_ret.
Qed.

Lemma safe_parse_digits source base offset :
  u32 source -> u32 offset -> safe (fun p => u32 p.1 /\ u32 p.2) (parse_digits source base offset).
Proof.
  intros Hs Ho. apply (safe_loop (fun p => u32 p.1 /\ u32 p.2) snd).
  - intros p [_ Hp]. exact Hp.
  - intros [r o] [Hr Ho']. cbn in Hr, Ho'.
    eapply safe_bind; [apply safe_read_string_byte; unfold in_u in *; lia|]. intros byte Hb.
    safe_step; [|by apply safe_ret]. safe_step; [by apply safe_ret|]. safe_step. apply safe_ret. cbn.
    split; [|done]. split; [|done]. apply in_u_wrap. lia.
  - split; [lit|done].
Qed.

Lemma safe_parse_integer source base signed zero_octal :
  u32 source -> safe (fun p => u32 (pi_value p) /\ u32 (pi_end p)) (parse_integer source base signed zero_octal).
Proof.
  intros Hs. unfold parse_integer. cbv zeta. eapply safe_bind; [by apply safe_skip_space|]. intros o Ho.
  eapply (safe_bind (fun _ => True)).
  { safe_step; [|by apply safe_ret].
    eapply safe_bind; [apply safe_read_string_byte; unfold in_u in *; lia|]. intros v Hv. by apply safe_ret. }
  intros negative _. eapply (safe_bind u32).
  { destruct negative; [|by apply safe_ret]. eapply safe_mono; [apply safe_checked_add; unfold in_u in *; lia|].
    by intros ? [_ ?]. }
  intros o' Ho'. eapply safe_bind; [by apply safe_parse_base|]. intros [b o2] Ho2. cbn in Ho2.
  eapply safe_bind; [by apply safe_parse_digits|]. intros [r o3] [Hr Ho3]. cbn in Hr, Ho3.
  safe_step. apply safe_ret. cbn. split; [|done]. destruct negative; [|done]. apply in_u_wrap. lia.
Qed.

Lemma safe_store_end destination v : u32 destination -> safe (fun _ => True) (store_end destination v).
Proof. intros. unfold store_end. safe_go. Qed.

Lemma safe_string_to_integer signed : safe cost (string_to_integer signed).
Proof.
  unfold string_to_integer. safe_step. safe_step; [safe_go|]. safe_step.
  eapply safe_bind; [by apply safe_parse_integer|]. intros p [P1 P2]. safe_step.
  safe_step; [by apply safe_store_end|]. safe_go.
Qed.

Lemma safe_atoi : safe cost atoi.
Proof.
  unfold atoi. safe_step. safe_step; [safe_go|].
  eapply safe_bind; [by apply safe_parse_integer|]. intros p [P1 P2]. safe_go.
Qed.

Lemma safe_atob : safe cost atob.
Proof.
  unfold atob. safe_step. safe_step; [safe_go|].
  eapply safe_bind; [by apply safe_parse_integer|]. intros p [P1 P2]. safe_step.
  safe_step; [by apply safe_store_end|]. safe_go.
Qed.

Lemma safe_to_digit : safe cost to_digit.
Proof.
  unfold to_digit. safe_step. apply safe_answer; [|lit]. destruct (ascii_digit _) eqn:E; [|lit].
  apply ascii_digit_range in E. cbn. unfold in_u. lia.
Qed.

Lemma safe_absolute_value : safe cost absolute_value.
Proof. unfold absolute_value. safe_go. Qed.

Lemma safe_change_case uppercase : safe cost (change_case uppercase).
Proof.
  unfold change_case. safe_step. cbv zeta. apply safe_answer; [|lit].
  assert (in_u 8 (wrap 8 a)) as Hw by (apply in_u_wrap; lia). unfold is_lower, is_upper.
  repeat case_match; [..|by apply u8_u32]; unfold in_u in *; zbool; lia.
Qed.

Lemma safe_rand : safe cost rand.
Proof.
  unfold rand. safe_step.
  - safe_step. intros b Hb. hle_field Hb. apply in_u_wrap. lia.
  - safe_step. apply safe_answer; [|lit]. apply in_u_land_r; [|lit].
    apply Z.shiftr_nonneg. by apply (hle_random _ Hb).
Qed.

Lemma safe_srand : safe cost srand.
Proof. unfold srand. safe_go. intros b Hb. hle_field Hb. Qed.

(** ** [printf] *)

Lemma safe_printf_argument index : Z.of_nat index < 2 ^ 32 -> safe u32 (printf_argument index).
Proof.
  intros Hi. unfold printf_argument. safe_step; [apply safe_asks; intros c Hc; by apply reg_u32|].
  do 2 safe_step. safe_step. pose proof (reg_u32 SP _ Hb) as Hsp.
  assert (u32 (CpuContext.reg SP b)) by done.
  apply safe_read_word; unfold in_u in *; [lia|].
  assert ((16 + Z.of_nat (index - 3) * 4) mod 4 = 0) as Hm.
  { rewrite Z.add_mod, Z.mod_mul by lia. done. }
  pose proof (Z.div_mod (16 + Z.of_nat (index - 3) * 4) 4). lia.
Qed.

Lemma safe_convert conversion value : u32 value -> safe (fun _ => True) (convert conversion value).
Proof.
  intros Hv. unfold convert. cbv zeta. repeat (safe_step; [first [by apply safe_ret|idtac]|]); [|by apply safe_ret].
  eapply safe_bind; [by apply safe_read_tty|]. intros l _. by apply safe_ret.
Qed.

Lemma drop_while_length p l : (length (drop_while p l) <= length l)%nat.
Proof. induction l as [|b l IH]; cbn; [lia|]. case_match; cbn; lia. Qed.

Lemma skip_options_length format : (length (skip_options format) <= length format)%nat.
Proof.
  unfold skip_options. cbv zeta. etransitivity; [apply drop_while_length|].
  pose proof (drop_while_length is_flag format). pose proof (drop_while_length is_digit (drop_while is_flag format)).
  destruct (drop_while is_digit (drop_while is_flag format)) as [|b rest]; [cbn; lia|]. cbn [length] in *.
  pose proof (drop_while_length is_digit rest).
  repeat (case_match; try (cbn [length]; lia)).
Qed.

Lemma safe_format_loop n format arguments output :
  (length format <= n)%nat -> Z.of_nat (arguments + n) < 2 ^ 32 ->
  safe (fun _ => True) (format_loop n format arguments output).
Proof.
  revert format arguments output. induction n as [|n IH]; intros format arguments output Hl Ha;
    destruct format as [|byte format]; cbn [format_loop]; try (by apply safe_ret); cbn [length] in Hl; [lia|].
  safe_step; [apply IH; lia|].
  assert (safe (fun _ => True) match skip_options format with
    | [] => ret (output ++ [37])
    | conversion :: format =>
        let* value := printf_argument arguments in
        let* piece := convert conversion value in
        format_loop n format (S arguments) (output ++ piece)
    end) as Hrest.
  { pose proof (skip_options_length format). destruct (skip_options format) as [|conversion rest]; [by apply safe_ret|].
    cbn [length] in *. eapply safe_bind; [apply safe_printf_argument; lia|]. intros v Hv.
    eapply safe_bind; [by apply safe_convert|]. intros piece _. apply IH; lia. }
  destruct format as [|b rest]; [exact Hrest|]. cbn [length] in Hl.
  repeat (case_match; try exact Hrest). all: apply IH; lia.
Qed.

Lemma safe_read_tty_short source limit :
  u32 source -> 0 <= limit -> safe (fun l => Z.of_nat (length l) <= limit) (read_tty_string source limit).
Proof.
  intros Hs Hl. unfold read_tty_string. eapply safe_bind; [apply safe_limit|]. intros bound Hb. cbv zeta.
  assert (Z.min limit bound <= limit) as Hm by lia. assert (0 <= Z.min limit bound) as H00 by (unfold in_u in *; lia).
  generalize dependent (Z.min limit bound). intros l Hm H00.
  assert (forall n offset output, 0 <= offset ->
    safe (fun r => (length r <= n + length output)%nat) ((fix read (n : nat) (offset : Z) (output : list Z) : prog M (list Z) :=
      match n with
      | O => fail (MemoryOperationLimit l l)
      | S n => bind (read_byte source offset) (fun byte =>
          if byte =? 0 then ret (reverse output) else read n (offset + 1) (byte :: output))
      end) n offset output)) as Hr.
  { induction n as [|n IH]; intros offset output Ho; [apply safe_fail|].
    safe_step. case_match.
    - apply safe_ret. rewrite length_reverse. lia.
    - eapply safe_mono; [apply IH; lia|]. cbn [length]. intros r. lia. }
  eapply safe_mono; [by apply Hr|]. cbn [length]. intros r. lia.
Qed.

Lemma safe_printf : safe cost printf.
Proof.
  unfold printf. safe_step. eapply safe_bind; [by apply safe_read_tty_short|]. cbv beta. intros format Hf.
  eapply safe_bind; [apply safe_format_loop; [done|unfold TTY_FORMAT_BYTES in Hf; lia]|].
  intros output _. safe_step; [safe_go|]. cbv zeta. safe_go.
Qed.

(** ** Sorting and searching *)

Lemma element_address_safe base index width :
  0 <= base -> 0 <= index -> 0 <= width -> safely u32 (element_address base index width).
Proof.
  intros Hb Hi Hw. unfold element_address. eapply safely_bind; [apply safely_ok_or; intros o E; exact E|].
  cbv beta. intros o [-> Ho]%checked_mul_u_Some. apply safely_ok_or. intros a [-> Ha]%checked_add_u_Some.
  unfold in_u. nia.
Qed.

Lemma comparison_safe k : kind_ok k -> safely (fun p => u32 p.1 /\ u32 p.2) (comparison k).
Proof.
  destruct k; cbn; intros; destruct_and?.
  - eapply safely_bind; [apply element_address_safe; unfold in_u in *; lia|]. intros l Hl.
    eapply safely_bind; [apply element_address_safe; unfold in_u in *; lia|]. intros r Hr. done.
  - eapply safely_bind; [apply element_address_safe; unfold in_u in *; lia|]. intros r Hr. done.
  - eapply safely_bind; [apply element_address_safe; unfold in_u in *; lia|]. intros r Hr. done.
Qed.

Lemma safe_prepare o : operation_ok o -> safe operation_ok (prepare_libc_comparison o).
Proof.
  intros [Oc [Ob On] Ok_]. unfold prepare_libc_comparison. eapply (safe_bind u32).
  { apply safe_gets. intros b Hb. apply Hb. }
  intros bound Hb. destruct (Z.leb_spec bound (lo_calls o)); [safe_go|].
  eapply (safe_bind u32).
  { apply safe_lift. unfold checked_add_u. rewrite (proj2 (Z.ltb_lt _ _)) by (unfold in_u in *; lia).
    cbn. unfold in_u in *. lia. }
  intros calls Hcalls. eapply safe_bind; [by apply safe_lift, comparison_safe|]. intros [l r] [Hl Hr]. cbn in Hl, Hr.
  safe_step.
  - apply safe_sets; [done|]. intros c _. cbv zeta. apply set_reg_ok; [|lit].
    do 2 (apply set_reg_ok; [|done]). by apply set_pc_ok.
  - apply safe_ret. by constructor.
Qed.

Lemma suspend_ok o b : operation_ok o -> hle_ok b -> hle_ok (suspend o b).
Proof. intros Ho Hb. unfold suspend. hle_field Hb. Qed.

Lemma safe_start_libc callback kind : u32 callback -> kind_ok kind -> safe (fun _ => True) (start_libc_operation callback kind).
Proof.
  intros Hc Hk. unfold start_libc_operation. safe_step. safe_step; [safe_go|]. safe_step.
  eapply safe_bind; [apply safe_prepare; constructor; cbn; [done|split; [done|lit]|done]|].
  intros o Ho. safe_step. intros b' Hb'. by apply suspend_ok.
Qed.

Lemma safe_check_array base elements width :
  0 <= base -> 0 <= elements -> 0 <= width -> safe (fun _ => True) (check_array base elements width).
Proof.
  intros. unfold check_array. eapply safe_bind; [by apply safe_checked_mul|]. cbv beta. intros size [-> Hs].
  safe_step; [safe_go|]. eapply safe_bind; [apply safe_checked_add; unfold in_u in *; lia|]. intros ? _.
  by apply safe_ret.
Qed.

Lemma safe_start_qsort : safe (fun _ => True) start_qsort.
Proof.
  unfold start_qsort. do 3 safe_step. safe_step; [apply safe_check_array; unfold in_u in *; lia|].
  safe_step; [by apply safe_ret|]. safe_step. safe_step; [|by apply safe_ret].
  apply safe_start_libc; [done|]. cbn. split_and!; done || lit.
Qed.

Lemma safe_start_search kind :
  (forall key base elements width, u32 key -> u32 base -> u32 elements -> u32 width -> 0 < elements ->
     kind_ok (kind key base elements width)) ->
  safe (fun _ => True) (start_search kind).
Proof.
  intros Hk. unfold start_search. do 4 safe_step. safe_step; [apply safe_check_array; unfold in_u in *; lia|].
  destruct ((_ =? 0) || _) eqn:E.
  { safe_step; [safe_go|]. by apply safe_ret. }
  apply orb_false_iff in E as [E1%Z.eqb_neq E2]. safe_step. pose proof (reg_u32 SP _ Hb) as Hsp. safe_step.
  safe_step; [|by apply safe_ret]. apply safe_start_libc; [done|]. apply Hk; try done. unfold in_u in *. lia.
Qed.

Lemma safe_start_lsearch : safe (fun _ => True) start_lsearch.
Proof. apply safe_start_search. intros. cbn. split_and!; done || lit. Qed.

Lemma safe_start_bsearch : safe (fun _ => True) start_bsearch.
Proof.
  apply safe_start_search. intros. cbn. unfold in_u in *.
  pose proof (Z.div_lt elements 2). pose proof (Z.div_pos elements 2). split_and!; lia.
Qed.

Lemma safe_advance_libc result kind :
  kind_ok kind -> safe (fun r => match r with inl k => kind_ok k | inr v => from_option u32 True v end)
    (advance_libc result kind).
Proof.
  destruct kind as [base elements width outer inner|key base elements width index|key base width low high middle];
    cbn [kind_ok advance_libc]; intros Hk.
  - destruct Hk as (K1 & K2 & K3 & K4 & K5). eapply (safe_bind u32).
    { destruct (0 <? result); [|by apply safe_ret].
      eapply safe_bind; [apply safe_lift, element_address_safe; unfold in_u in *; lia|]. intros l Hl.
      eapply safe_bind; [apply safe_lift, element_address_safe; unfold in_u in *; lia|]. intros r Hr.
      safe_step; [|apply safe_ret; unfold in_u in *; lia].
      apply safe_for_range; [done|]. intros i Hi. unfold swap_byte. safe_go. }
    intros inner' Hi. destruct ((result <=? 0) || (inner' =? 0)); apply safe_ret;
      match goal with |- context [elements <=? ?o] => destruct (elements <=? o) end; try done; cbn;
      split_and!; try done; apply sat_u32.
  - destruct Hk as (K1 & K2 & K3 & K4 & K5). safe_step.
    + eapply safe_bind; [apply safe_lift, element_address_safe; unfold in_u in *; lia|]. intros a Ha. by apply safe_ret.
    + cbv zeta. apply safe_ret. destruct (elements <=? _); cbn; [lit|]. split_and!; try done. apply sat_u32.
  - destruct Hk as (K1 & K2 & K3 & K4 & K5). safe_step.
    + eapply safe_bind; [apply safe_lift, element_address_safe; unfold in_u in *; lia|]. intros a Ha. by apply safe_ret.
    + assert (exists l h, (if result <? 0 then (low, middle) else (saturating_u 32 (middle + 1), high)) = (l, h) /\
        0 <= l /\ h < 2 ^ 32) as (l & h & -> & Hl & Hh).
      { destruct (result <? 0); repeat eexists; [lia|lia|apply sat_u32|lia]. }
      destruct (Z.leb_spec h l); [apply safe_ret; cbn; lit|].
      eapply (safe_bind (fun s => s = h - l)).
      { apply safe_lift. unfold checked_sub_u. by rewrite (proj2 (Z.leb_le _ _)) by lia. }
      intros s ->. pose proof (Z.div_lt (h - l) 2 ltac:(lia) ltac:(lia)).
      pose proof (Z.div_pos (h - l) 2 ltac:(lia) ltac:(lia)).
      eapply (safe_bind (fun m => m = l + (h - l) / 2)).
      { apply safe_lift. unfold checked_add_u. by rewrite (proj2 (Z.ltb_lt _ _)) by lia. }
      intros m ->. apply safe_ret. cbn. split_and!; try done; lia.
Qed.

Lemma safe_resume_libc : safe (fun o => cost (ho_cycles o)) resume_libc_callback.
Proof.
  unfold resume_libc_callback. safe_step. cbv zeta. safe_step. pose proof (hle_operation _ Hb0) as Ho.
  destruct (libc_operation b0) as [o|]; [|safe_go]. destruct Ho as [Oc On Ok_]. safe_step.
  { safe_step. intros b' Hb'. hle_field Hb'. }
  eapply safe_bind; [by apply safe_advance_libc|]. intros [k|v] Hv.
  - eapply safe_bind; [by apply safe_prepare; constructor|]. intros o' Ho'. safe_step.
    + safe_step. intros b' Hb'. by apply suspend_ok.
    + apply safe_ret. cbn. lit.
  - safe_step; [by apply safe_sets|]. safe_step; [destruct v; [by apply safe_return_value|by apply safe_ret]|].
    safe_step; [|apply safe_ret; cbn; lit]. apply safe_sets; [done|]. intros c Hc. by apply return_ok.
Qed.

(** ** The call table *)

Lemma safe_returns p : safe cost p -> safe (fun r => cost r.1) (returns p).
Proof. intros Hp. unfold returns. eapply safe_bind; [exact Hp|]. intros c Hc. by apply safe_ret. Qed.

Lemma safe_acts c a : cost c -> safe (fun r => cost r.1) (acts c a).
Proof. intros Hc. by apply safe_ret. Qed.

Lemma safe_starts p : safe (fun _ => True) p -> safe (fun r => cost r.1) (starts p).
Proof. intros Hp. unfold starts. eapply safe_bind; [exact Hp|]. intros c _. apply safe_ret. cbn. lit. Qed.

Lemma set_hook_ok h b : from_option u32 True h -> hle_ok b -> hle_ok (b <| interrupt_hook := h |>).
Proof. intros Hh Hb. hle_field Hb. Qed.

Create HintDb bios_services discriminated.
#[local] Hint Constants Opaque : bios_services.
#[local] Hint Resolve safe_open safe_lseek safe_read safe_write safe_close safe_ioctl safe_isatty safe_getc safe_putc
  safe_to_digit safe_absolute_value safe_atoi safe_atob safe_setjmp safe_longjmp safe_strcat safe_strncat
  safe_string_compare safe_string_length safe_string_character safe_string_pbrk safe_string_span
  safe_string_token safe_string_string safe_change_case safe_bcopy safe_bzero safe_memory_compare
  safe_initialize_backup_unit safe_memory_copy safe_memory_set safe_memory_character safe_rand safe_srand
  safe_start_qsort safe_malloc safe_free safe_start_lsearch safe_start_bsearch safe_calloc safe_realloc
  safe_initialize_heap safe_getchar safe_putchar safe_gets_ safe_puts safe_printf safe_set_memory_size
  safe_allocate_kernel_memory safe_free_kernel_memory safe_root_counter_control safe_get_root_counter
  safe_deliver_event safe_open_event safe_close_event safe_test_event safe_enable_event safe_initialize_pad
  safe_start_pad safe_stop_pad safe_initialize_high_level_pad safe_read_high_level_pad safe_undeliver_event
  safe_initialize_card safe_start_card safe_stop_card safe_initialize_timer_and_vblank_handlers
  safe_initialize_syscall_handler safe_enqueue_interrupt safe_dequeue_interrupt safe_initialize_kernel_heap
  safe_change_clear_counter safe_initialize_default_interrupt_handler : bios_services.

Lemma safe_services : Forall (fun arm => safe (fun r => cost r.1) arm.2) services.
Proof.
  unfold services, quiet.
  repeat apply List.Forall_cons; cbn [snd]; try apply List.Forall_nil;
    try (apply safe_acts; lit); try (apply safe_returns); try (apply safe_starts);
    try solve [auto 1 with bios_services].
  - apply safe_string_to_integer.
  - apply safe_string_to_integer.
  - safe_step. apply safe_string_compare.
  - by apply safe_string_copy.
  - safe_step. by apply safe_string_copy.
  - safe_go.
  - eapply safe_bind; [apply safe_wait_event|]. intros [c r] Hc. by apply safe_ret.
  - safe_step; [safe_go|]. apply safe_acts. lit.
  - safe_go. intros b Hb. by apply set_hook_ok.
  - safe_go. intros b Hb. by apply set_hook_ok.
  - by apply safe_get_function_table.
  - by apply safe_get_function_table.
Qed.

Lemma find_service_in call table s :
  find_service (M := M) call table = Some s -> exists arm, (arm, s) ∈ table.
Proof.
  induction table as [|[arm t] table IH]; cbn; [done|]. case_match.
  - intros [= ->]. exists arm. left.
  - intros E. destruct (IH E) as [a Ha]. exists a. by right.
Qed.

Lemma safe_dispatch vector : safe (fun o => cost (ho_cycles o)) (dispatch vector).
Proof.
  unfold dispatch. safe_step. cbv zeta. safe_step.
  eapply (safe_bind (fun r => cost r.1)).
  - destruct (find_service _ _) as [s|] eqn:E; [|apply safe_fail]. apply find_service_in in E as [arm E].
    pose proof safe_services as Hs. rewrite Forall_forall in Hs. exact (Hs _ E).
  - intros [cycles action] Hc. safe_step; [|by apply safe_ret]. safe_step; [|by apply safe_ret].
    apply safe_sets; [done|]. intros c Hcc. by apply return_ok.
Qed.
End libc.

(** ** Sessions *)

(** What a machine asks of the firmware between two stretches of guest code. *)
Inductive entry :=
| Boot
| Dispatch (vector : BiosVector)
| SystemCall (number : Z)
| ResumeLibc
| EnterHook
| EnterPending
| LeaveCallback
| Signal (class spec : Z).

Section sessions.
Context {M : Type} `{GuestSafe M}.

Definition run_entry (e : entry) : prog M unit :=
  match e with
  | Boot => initialize_boot_memory
  | Dispatch vector => dispatch vector ;; ret tt
  | SystemCall number => dispatch_syscall number ;; ret tt
  | ResumeLibc => resume_libc_callback ;; ret tt
  | EnterHook => prepare_interrupt_hook ;; ret tt
  | EnterPending =>
      let* request := on_hle (fun b => let (r, b) := take_callback b in (Ok r, b)) in
      match request with Some r => enter_callback r | None => ret tt end
  | LeaveCallback => return_from_callback
  | Signal class spec => on_hle (signal_event class spec) ;; ret tt
  end.

(** The guest hands in its registers and its memory with each entry; [None] is a panic. *)
Fixpoint session (visits : list (CpuContext * M * entry)) (w : World M) : option (World M) :=
  match visits with
  | [] => Some w
  | (c, m, e) :: visits =>
      match run_entry e (w <| ctx := c |> <| mem := m |>) with
      | (Panic, _) => None
      | (_, w) => session visits w
      end
  end.

Lemma safe_run_entry e : safe (M := M) (fun _ => True) (run_entry e).
Proof.
  destruct e; cbn [run_entry].
  - apply safe_initialize_boot_memory.
  - eapply safe_bind; [apply safe_dispatch|]. intros ? _. by apply safe_ret.
  - eapply safe_bind; [apply safe_dispatch_syscall|]. intros ? _. by apply safe_ret.
  - eapply safe_bind; [apply safe_resume_libc|]. intros ? _. by apply safe_ret.
  - eapply safe_bind; [apply safe_prepare_interrupt_hook|]. intros ? _. by apply safe_ret.
  - eapply (safe_bind (fun r => from_option (fun r => u32 (cb_address r)) True r)).
    + apply safe_on_hle. intros b Hb. destruct (take_callback_ok b Hb) as [H1 H2]. by destruct (take_callback b).
    + intros [r|] Hr; [by apply safe_enter_callback|by apply safe_ret].
  - apply safe_return_from_callback.
  - eapply (safe_bind u32); [by apply safe_on_hle, signal_event_safe|]. intros ? _. by apply safe_ret.
Qed.

Lemma firmware_new_ok l : u32 (memory_operation_bytes l) -> u32 (libc_callback_calls l) -> hle_ok (new l).
Proof.
  intros H1 H2. constructor; cbn; try done; try lit; try (split_and!; lit).
  - split; [done|]. forall_list.
  - split; [done|]. repeat (apply List.Forall_cons; [lit|]). apply List.Forall_nil.
Qed.

(** C5: The firmware never panics: from its initial state, whatever sequence of table calls,
    system calls, comparator results, hooks, callbacks and hardware events arrives, and
    whatever registers and memory the guest brings to each, every service returns or
    fails - its loops end, its indices are in range - and the state stays well formed:
    heaps with disjoint doubleword blocks, live event slots, valid suspended operations. *)
Theorem bios_sessions_safe l visits c m :
  u32 (memory_operation_bytes l) -> u32 (libc_callback_calls l) ->
  ctx_ok c -> good_mem m ->
  Forall (fun v : CpuContext * M * entry => ctx_ok v.1.1 /\ good_mem v.1.2) visits ->
  exists w, session visits (mkWorld (new l) c m []) = Some w /\ world_ok w.
Proof.
  intros H1 H2 Hc Hm Hv.
  assert (world_ok (mkWorld (new l) c m [])) as Hw by (constructor; [by apply firmware_new_ok|done|done]).
  revert Hw. generalize (mkWorld (new l) c m []). induction Hv as [|[[c' m'] e] visits [Hc' Hm'] Hv IH]; intros w Hw.
  - by exists w.
  - cbn [session]. cbn in Hc', Hm'.
    assert (world_ok (w <| ctx := c' |> <| mem := m' |>)) as Hw' by by destruct Hw; constructor.
    destruct (safe_run_entry e _ Hw') as [Hr Hs]. destruct (run_entry e _) as [[u|x|] w']; [by apply IH..|done].
Qed.
End sessions.

(** ** A memory of bytes *)

#[export] Instance ram_guest : GuestMemory Buffer := {
  read_u8 a b := (ok_or (Buffer.get b a) (mkGuestMemoryError "outside RAM"), b);
  write_u8 a v b := match Buffer.set b a v with
                    | Some b => (Ok tt, b)
                    | None => (Err (mkGuestMemoryError "outside RAM"), b)
                    end;
}.

#[export] Instance ram_guest_safe : GuestSafe Buffer.
Proof.
  refine {| good_mem := Buffer.bytes_ok |}; intros a.
  - intros m Ha Hm. cbn. split; [|done]. apply safely_ok_or. intros v [_ ->]%Buffer.get_some. by apply Buffer.cell_u8.
  - intros v m Ha Hv Hm. cbn. destruct (Buffer.set m a v) as [b|] eqn:E; [|done]. split; [done|]. by eapply Buffer.set_ok.
Defined.

(** A caller with its call number and arguments. *)
Definition caller (function : Z) (arguments : list Z) : CpuContext :=
  let c := CpuContext.reset 0x1000 0x8000 in
  let c := CpuContext.set_reg RA 0x2000 c in
  let c := CpuContext.set_reg T1 function c in
  (fold_left (fun ic v => (S ic.1, CpuContext.set_reg (A0_ + ic.1) v ic.2)) arguments (0%nat, c)).2.

Lemma caller_ok f l : u32 f -> Forall u32 l -> ctx_ok (caller f l).
Proof.
  intros Hf Hl. unfold caller. cbv zeta.
  assert (ctx_ok (CpuContext.set_reg T1 f (CpuContext.set_reg RA 0x2000 (CpuContext.reset 0x1000 0x8000)))) as Hc.
  { do 2 (apply set_reg_ok; [|done || lit]). constructor; cbn; [|lit|split; lit].
    split; [done|]. repeat (apply List.Forall_cons; [lit|]). apply List.Forall_nil. }
  revert Hc. generalize (CpuContext.set_reg T1 f (CpuContext.set_reg RA 0x2000 (CpuContext.reset 0x1000 0x8000))).
  generalize 0%nat as i. induction Hl as [|v l Hv Hl IH]; intros i c Hc; cbn; [done|].
  apply IH. by apply set_reg_ok.
Qed.

Definition poke (at_ : Z) (bytes : list Z) (b : Buffer) : Buffer := Buffer.write_cells b at_ bytes.

(** The outcome of one call, its result register and a window of memory. *)
Definition call_ (vector : BiosVector) (function : Z) (arguments : list Z) (b : BiosHle) (m : Buffer) (at_ : Z) (n : nat)
    : outcome BiosError HleOutcome * Z * list Z :=
  let (r, w) := dispatch vector (mkWorld b (caller function arguments) m []) in
  (r, CpuContext.reg V0 (ctx w), Buffer.read_cells (mem w) at_ n).

Definition hle0 : BiosHle := new default_limits.

(** An overlapping move, a bounded scan and a number with a prefix, as the tests of the
    source have them. *)
Example overlapping_move :
  call_ A0 0x2c [2; 0; 8; 0] hle0 (poke 0 (str "abcdefgh") (Buffer.zeroed 64)) 0 10 =
  (Ok (mkHleOutcome 24 Return), 2, str "ababcdefgh").
Proof. vm_compute. reflexivity. Qed.
Example prefixed_number :
  call_ A0 0x0c [32; 8; 10; 0] hle0 (poke 32 ([32; 9] ++ str "0x1fZ") (Buffer.zeroed 128)) 8 4 =
  (Ok (mkHleOutcome 30 Return), 31, [38; 0; 0; 0]).
Proof. vm_compute. reflexivity. Qed.
Example formatted_length :
  (call_ A0 0x3f [16; 42; 255; 0] hle0 (poke 16 (str "%d=%04x%%") (Buffer.zeroed 128)) 0 0).1 =
  (Ok (mkHleOutcome 24 Return), 6).
Proof. vm_compute. reflexivity. Qed.

Example bios_sessions_safe_witness :
  exists w, session [(caller 0x39 [0x100; 0x1000], Buffer.zeroed 64, Dispatch A0);
                     (caller 0x33 [20], Buffer.zeroed 64, Dispatch A0);
                     (caller 0x08 [1; 2; 0x2000; 0], Buffer.zeroed 64, Dispatch B0)]
              (mkWorld hle0 (caller 0 []) (Buffer.zeroed 64) []) = Some w /\ world_ok w.
Proof.
  apply (bios_sessions_safe default_limits); [lit|lit| |apply Buffer.zeroed_ok|].
  - apply caller_ok; [lit|apply List.Forall_nil].
  - repeat (apply List.Forall_cons; [split; [apply caller_ok; [lit|repeat (apply List.Forall_cons; [lit|]); apply List.Forall_nil]|
      apply Buffer.zeroed_ok]|]). apply List.Forall_nil.
Defined.
