(* ===== verification/Ps1BiosSpec.v ===== *)
(** * What the PS1 firmware's services compute

    Memory as cells behind an address decoder (class [GuestCells]); over it, what the
    services promise a program: a move keeps the bytes it moves, a jump restores the
    registers its buffer saved, a reallocation keeps the block's contents, and an event is
    delivered once.  Sorting is in [Ps1BiosSort]. *)

From S2P Require Import Prelude Records MachineInt Slices PsfText.
From S2P Require Import Buffer Ps1Bios Ps1BiosLibc Ps1BiosFacts Ps1BiosSafety.

(** Some addresses denote a cell: there a read sees the cell and a write changes it, and
    no other cell.  Distinct addresses may denote one cell. *)
Class GuestCells (M : Type) `{GuestSafe M} := {
  locate : M -> Z -> option Z;
  cell_of : M -> Z -> Z;
  read_located a c m : good_mem m -> locate m a = Some c -> read_u8 a m = (Ok (cell_of m c), m);
  write_located a c v m : good_mem m -> in_u 8 v -> locate m a = Some c -> exists m',
    write_u8 a v m = (Ok tt, m') /\ (forall a, locate m' a = locate m a) /\
    (forall c', cell_of m' c' = if c' =? c then v else cell_of m c');
}.

Section cells.
Context {M : Type} `{GuestCells M}.

Notation prog := (prog M).
Notation World := (World M).

(** The byte an address denotes. *)
Definition byte_at (m : M) (a : Z) : Z := from_option (cell_of m) 0 (locate m a).

(** A range of addresses that denote cells of their own. *)
Record window (m : M) (low high : Z) : Prop := {
  wd_bounds : 0 <= low /\ high <= 2 ^ 32;
  wd_mapped a : low <= a < high -> is_Some (locate m a);
  wd_apart a b : low <= a < high -> low <= b < high -> locate m a = locate m b -> a = b;
}.

(** Memory after writes inside a range: every other cell is as it was. *)
Record touched (low high : Z) (m m' : M) : Prop := {
  td_locate a : locate m' a = locate m a;
  td_outside c : (forall a, low <= a < high -> locate m a <> Some c) -> cell_of m' c = cell_of m c;
}.

Lemma touched_refl low high m : touched low high m m.
Proof. by constructor. Qed.

Lemma touched_trans low high m1 m2 m3 : touched low high m1 m2 -> touched low high m2 m3 -> touched low high m1 m3.
Proof.
  intros [L1 O1] [L2 O2]. constructor; [intros a; by rewrite L2|]. intros c Hc. rewrite O2; [by apply O1|].
  intros a Ha. rewrite L1. by apply Hc.
Qed.

Lemma window_ext low high m m' : (forall a, locate m' a = locate m a) -> window m low high -> window m' low high.
Proof.
  intros L [B Wm Wa]. constructor; [done| |].
  - intros a Ha. rewrite L. by apply Wm.
  - intros a b Ha Hb. rewrite !L. by apply Wa.
Qed.

Lemma touched_window low high l h m m' : touched low high m m' -> window m l h -> window m' l h.
Proof. intros [L _]. by apply window_ext. Qed.

Lemma window_sub m low high l h : window m low high -> low <= l -> h <= high -> window m l h.
Proof.
  intros [B Wm Wa] Hl Hh. constructor; [lia| |].
  - intros a Ha. apply Wm. lia.
  - intros a b Ha Hb. apply Wa; lia.
Qed.

(** ** Reading and writing bytes of a window *)

Lemma bind_ok {A B} (m : prog A) (k : A -> prog B) w a w' : m w = (Ok a, w') -> bind m k w = k a w'.
Proof. unfold bind. by intros ->. Qed.

Lemma checked_add_ok a b (w : World) : a + b < 2 ^ 32 -> checked_add a b w = (Ok (a + b), w).
Proof. intros Hb. unfold checked_add, lift, checked_add_u. by rewrite (proj2 (Z.ltb_lt _ _)). Qed.

Lemma read_window low high base offset (w : World) :
  window (mem w) low high -> good_mem (mem w) -> low <= base + offset < high ->
  read_byte base offset w = (Ok (byte_at (mem w) (base + offset)), w).
Proof.
  intros [Wb Wm _] Hg Ha. unfold read_byte. rewrite (bind_ok _ _ _ _ _ (checked_add_ok base offset w ltac:(lia))).
  unfold access. destruct (Wm _ Ha) as [c Hc]. rewrite (read_located _ _ _ Hg Hc). unfold byte_at. rewrite Hc.
  by destruct w.
Qed.

(** A world whose memory alone was written, inside a range. *)
Record memory_to (low high : Z) (w w' : World) : Prop := {
  mt_world : w' = w <| mem := mem w' |>;
  mt_good : good_mem (mem w');
  mt_touched : touched low high (mem w) (mem w');
}.

Lemma memory_to_trans low high w1 w2 w3 :
  memory_to low high w1 w2 -> memory_to low high w2 w3 -> memory_to low high w1 w3.
Proof.
  intros [E1 G1 T1] [E2 G2 T2]. constructor; [|done|by eapply touched_trans].
  rewrite E2, E1. done.
Qed.

Lemma write_window low high base offset v (w : World) :
  window (mem w) low high -> good_mem (mem w) -> low <= base + offset < high -> in_u 8 v ->
  exists w', write_byte base offset v w = (Ok tt, w') /\ memory_to low high w w' /\
    forall a, low <= a < high ->
      byte_at (mem w') a = if a =? base + offset then v else byte_at (mem w) a.
Proof.
  intros [Wb Wm Wa] Hg Ha Hv. unfold write_byte.
  rewrite (bind_ok _ _ _ _ _ (checked_add_ok base offset w ltac:(lia))). unfold access.
  destruct (Wm _ Ha) as [c Hc]. destruct (write_located _ _ _ _ Hg Hv Hc) as (m' & E & L & C).
  assert (good_mem m') as Hg'.
  { destruct (write_u8_safe (base + offset) v (mem w)) as [_ Hs]; [unfold in_u; lia|done|done|]. by rewrite E in Hs. }
  rewrite E. exists (w <| mem := m' |>). split_and!; [done| |].
  - constructor; [done|done|]. constructor; [done|]. cbn. intros c' Hout. rewrite C.
    destruct (Z.eqb_spec c' c) as [->|]; [|done]. by specialize (Hout _ Ha).
  - intros a Hin. cbn. unfold byte_at. rewrite L. destruct (Wm _ Hin) as [d Hd]. rewrite Hd. cbn. rewrite C.
    destruct (Z.eqb_spec a (base + offset)) as [->|Hne].
    + rewrite Hc in Hd. injection Hd as <-. by rewrite Z.eqb_refl.
    + destruct (Z.eqb_spec d c) as [->|]; [|done]. destruct Hne. apply Wa; [done|done|congruence].
Qed.

Lemma read_byte_u8 (w : World) low high a : window (mem w) low high -> good_mem (mem w) -> low <= a < high ->
  in_u 8 (byte_at (mem w) a).
Proof.
  intros [Wb Wm _] Hg Ha. destruct (Wm _ Ha) as [c Hc].
  destruct (read_u8_safe a (mem w)) as [Hs _]; [unfold in_u; lia|done|].
  rewrite (read_located _ _ _ Hg Hc) in Hs. unfold byte_at. by rewrite Hc.
Qed.
End cells.

(** ** Loops and calls *)

Section services.
Context {M : Type} `{GuestCells M}.

Notation prog := (prog M).
Notation World := (World M).

Lemma for_range_runs (I : Z -> World -> Prop) n from body w :
  I from w ->
  (forall i w, from <= i < from + Z.of_nat n -> I i w -> exists w', body i w = (Ok tt, w') /\ I (i + 1) w') ->
  exists w', for_range n from body w = (Ok tt, w') /\ I (from + Z.of_nat n) w'.
Proof.
  revert from w. induction n as [|n IH]; intros from w Hi Hs.
  - exists w. split; [done|]. by rewrite Z.add_0_r.
  - destruct (Hs from w ltac:(lia) Hi) as (w1 & E1 & I1). cbn [for_range]. rewrite (bind_ok _ _ _ _ _ E1).
    destruct (IH (from + 1) w1 I1) as (w2 & E2 & I2); [intros i w' Hr; apply Hs; lia|].
    exists w2. split; [done|]. by replace (from + Z.of_nat (S n)) with (from + 1 + Z.of_nat n) by lia.
Qed.

(** The invariant counts the iterations still to come. *)
Lemma for_range_rev_runs (I : Z -> World -> Prop) n from body w :
  I (from + Z.of_nat n) w ->
  (forall i w, from <= i < from + Z.of_nat n -> I (i + 1) w -> exists w', body i w = (Ok tt, w') /\ I i w') ->
  exists w', for_range_rev n from body w = (Ok tt, w') /\ I from w'.
Proof.
  revert w. induction n as [|n IH]; intros w Hi Hs.
  - exists w. split; [done|]. by rewrite Z.add_0_r in Hi.
  - destruct (Hs (from + Z.of_nat n) w ltac:(lia)) as (w1 & E1 & I1).
    { by replace (from + Z.of_nat n + 1) with (from + Z.of_nat (S n)) by lia. }
    cbn [for_range_rev]. rewrite (bind_ok _ _ _ _ _ E1).
    apply (IH w1 I1). intros i w' Hr. apply Hs. lia.
Qed.

Lemma dispatch_returns v f p (w : World) c w' :
  wrap 8 (CpuContext.reg T1 (ctx w)) = f -> find_service (v, f) services = Some (returns p) ->
  p w = (Ok c, w') ->
  dispatch v w = (Ok (mkHleOutcome c Return), w' <| ctx := CpuContext.return_to_caller (ctx w') |>).
Proof.
  intros Hf Hs Hp. unfold dispatch, bind at 1 2 3, asks at 1 2. cbn [fst snd]. rewrite Hf, Hs.
  unfold returns. rewrite (bind_ok _ _ _ _ _ Hp). reflexivity.
Qed.

Lemma dispatch_fails v f p (w : World) e w' :
  wrap 8 (CpuContext.reg T1 (ctx w)) = f -> find_service (v, f) services = Some (returns p) ->
  p w = (Err e, w') -> dispatch v w = (Err e, w').
Proof.
  intros Hf Hs Hp. unfold dispatch, bind at 1 2 3, asks at 1 2. cbn [fst snd]. rewrite Hf, Hs.
  unfold returns, bind. by rewrite Hp.
Qed.

Lemma check_size_ok size (w : World) : size <= memory_operation_bytes (limits (hle w)) ->
  check_memory_size size w = (Ok tt, w).
Proof. intros Hs. unfold check_memory_size. by rewrite (proj2 (Z.ltb_ge _ _)). Qed.

(** ** Moving memory *)

Lemma copy_byte_runs low high source destination i (w : World) :
  window (mem w) low high -> good_mem (mem w) ->
  low <= source + i < high -> low <= destination + i < high ->
  exists w', copy_byte source destination i w = (Ok tt, w') /\ memory_to low high w w' /\
    forall a, low <= a < high -> byte_at (mem w') a =
      if a =? destination + i then byte_at (mem w) (source + i) else byte_at (mem w) a.
Proof.
  intros Hw Hg Hs Hd. unfold copy_byte. rewrite (bind_ok _ _ _ _ _ (read_window low high source i w Hw Hg Hs)).
  apply write_window; [done|done|done|]. by eapply read_byte_u8.
Qed.

(** After copying the offsets from [first] to [last]. *)
Definition copied (w : World) (low high s d first last : Z) (w' : World) : Prop :=
  memory_to low high w w' /\ forall a, low <= a < high -> byte_at (mem w') a =
    if (d + first <=? a) && (a <? d + last) then byte_at (mem w) (s + (a - d)) else byte_at (mem w) a.

Lemma copied_none low high s d i (w : World) : good_mem (mem w) -> copied w low high s d i i w.
Proof.
  intros Hg. split; [constructor; [by destruct w|done|apply touched_refl]|]. intros a Ha.
  by destruct (Z.leb_spec (d + i) a), (Z.ltb_spec a (d + i)); try lia.
Qed.

Lemma memory_to_refl low high (w : World) : good_mem (mem w) -> memory_to low high w w.
Proof. intros Hg. constructor; [by destruct w|done|apply touched_refl]. Qed.

Lemma copy_forward low high s d n (w : World) :
  window (mem w) low high -> good_mem (mem w) -> 0 <= n ->
  low <= s -> s + n <= high -> low <= d -> d + n <= high -> d <= s \/ s + n <= d ->
  exists w', for_range (Z.to_nat n) 0 (copy_byte s d) w = (Ok tt, w') /\ copied w low high s d 0 n w'.
Proof.
  intros Hw Hg Hn Hs1 Hs2 Hd1 Hd2 Hfwd.
  destruct (for_range_runs (fun i => copied w low high s d 0 i) (Z.to_nat n) 0 (copy_byte s d) w) as (w' & E' & I').
  - by apply copied_none.
  - rewrite Z2Nat.id by lia. intros i w1 Hi [T1 F1].
    destruct (copy_byte_runs low high s d i w1) as (w2 & E2 & T2 & F2); [eapply touched_window; [apply T1|done]|apply T1|lia|lia|].
    exists w2. split; [done|]. split; [by eapply memory_to_trans|]. intros a Ha. rewrite F2 by done.
    destruct (Z.eqb_spec a (d + i)) as [->|Hne].
    + rewrite F1 by lia. replace (s + (d + i - d)) with (s + i) by lia.
      destruct (Z.leb_spec (d + 0) (s + i)), (Z.ltb_spec (s + i) (d + i)), (Z.leb_spec (d + 0) (d + i)),
        (Z.ltb_spec (d + i) (d + (i + 1))); try lia; done.
    + rewrite F1 by done. by destruct (Z.leb_spec (d + 0) a), (Z.ltb_spec a (d + i)), (Z.ltb_spec a (d + (i + 1))); try lia.
  - exists w'. split; [done|]. by rewrite Z2Nat.id in I' by lia.
Qed.

Lemma copy_backward low high s d n (w : World) :
  window (mem w) low high -> good_mem (mem w) -> 0 <= n ->
  low <= s -> s + n <= high -> low <= d -> d + n <= high -> s < d ->
  exists w', for_range_rev (Z.to_nat n) 0 (copy_byte s d) w = (Ok tt, w') /\ copied w low high s d 0 n w'.
Proof.
  intros Hw Hg Hn Hs1 Hs2 Hd1 Hd2 Hback.
  destruct (for_range_rev_runs (fun i => copied w low high s d i n) (Z.to_nat n) 0 (copy_byte s d) w) as (w' & E' & I').
  - rewrite Z2Nat.id by lia. by apply copied_none.
  - rewrite Z2Nat.id by lia. intros i w1 Hi [T1 F1].
    destruct (copy_byte_runs low high s d i w1) as (w2 & E2 & T2 & F2); [eapply touched_window; [apply T1|done]|apply T1|lia|lia|].
    exists w2. split; [done|]. split; [by eapply memory_to_trans|]. intros a Ha. rewrite F2 by done.
    destruct (Z.eqb_spec a (d + i)) as [->|Hne].
    + rewrite F1 by lia. replace (s + (d + i - d)) with (s + i) by lia.
      destruct (Z.leb_spec (d + (i + 1)) (s + i)), (Z.leb_spec (d + i) (d + i)), (Z.ltb_spec (d + i) (d + n)); try lia; done.
    + rewrite F1 by done. by destruct (Z.leb_spec (d + (i + 1)) a), (Z.leb_spec (d + i) a); try lia.
  - exists w'. by split.
Qed.

Lemma memory_copy_runs (overlap_safe : bool) low high (w : World) d s n :
  window (mem w) low high -> good_mem (mem w) -> high < 2 ^ 32 ->
  CpuContext.argument 0 (ctx w) = d -> CpuContext.argument 1 (ctx w) = s -> CpuContext.argument 2 (ctx w) = n ->
  0 <= n <= memory_operation_bytes (limits (hle w)) ->
  low <= s -> s + n <= high -> low <= d -> d + n <= high ->
  (overlap_safe = true \/ d <= s \/ s + n <= d) ->
  exists w', memory_copy overlap_safe w =
      (Ok (memory_cycles n), w' <| ctx := CpuContext.return_value d (ctx w') |>) /\
    copied w low high s d 0 n w'.
Proof.
  intros Hw Hg Hh Ed Es En Hn Hs1 Hs2 Hd1 Hd2 Hdir. pose proof (wd_bounds _ _ _ Hw) as Hb. unfold memory_copy, argument.
  do 3 (rewrite (bind_ok (asks _) _ _ _ _ eq_refl)). cbn [ctx]. rewrite Ed, Es, En.
  rewrite (bind_ok _ _ _ _ _ (check_size_ok n w ltac:(lia))).
  set (back := overlap_safe && (s <? d) && (d <? s + n)).
  assert ((if overlap_safe && (s <? d) then let* source_end := checked_add s n in ret (d <? source_end)
    else ret false) w = (Ok back, w)) as Eback.
  { subst back. destruct (overlap_safe && (s <? d)); [|done]. by rewrite (bind_ok _ _ _ _ _ (checked_add_ok s n w ltac:(lia))). }
  rewrite (bind_ok _ _ _ _ _ Eback).
  assert (exists w', (if back then for_range_rev (Z.to_nat n) 0 (copy_byte s d)
                      else for_range (Z.to_nat n) 0 (copy_byte s d)) w = (Ok tt, w') /\ copied w low high s d 0 n w') as (w' & E' & C').
  { destruct back eqn:Eb; subst back.
    - apply copy_backward; try done; [lia|]. destruct overlap_safe, (Z.ltb_spec s d); cbn in Eb; done.
    - apply copy_forward; try done; [lia|]. destruct Hdir as [->|?]; [|done]. cbn in Eb.
      destruct (Z.ltb_spec s d), (Z.ltb_spec d (s + n)); try done; lia. }
  rewrite (bind_ok _ _ _ _ _ E'). by exists w'.
Qed.

Lemma find_move (overlap_safe : bool) :
  find_service (A0, if overlap_safe then 0x2c else 0x2a) (services (M := M)) = Some (returns (memory_copy overlap_safe)).
Proof. by destruct overlap_safe. Qed.

(** Moving memory: a call of memmove, or of memcpy on ranges that do not make it read
    what it wrote, leaves at the destination the bytes the source had before the call and
    every other byte as it was, whichever way the ranges overlap; it returns the
    destination and changes nothing else. *)
Theorem memory_moves (overlap_safe : bool) low high (w : World) d s n :
  world_ok w -> window (mem w) low high -> high < 2 ^ 32 ->
  wrap 8 (CpuContext.reg T1 (ctx w)) = (if overlap_safe then 0x2c else 0x2a) ->
  CpuContext.argument 0 (ctx w) = d -> CpuContext.argument 1 (ctx w) = s -> CpuContext.argument 2 (ctx w) = n ->
  n <= memory_operation_bytes (limits (hle w)) ->
  low <= s -> s + n <= high -> low <= d -> d + n <= high ->
  (overlap_safe = true \/ d <= s \/ s + n <= d) ->
  exists w', dispatch A0 w = (Ok (mkHleOutcome (memory_cycles n) Return), w') /\
    hle w' = hle w /\ tty w' = tty w /\
    ctx w' = CpuContext.return_to_caller (CpuContext.return_value d (ctx w)) /\
    touched low high (mem w) (mem w') /\
    forall a, low <= a < high -> byte_at (mem w') a =
      if (d <=? a) && (a <? d + n) then byte_at (mem w) (s + (a - d)) else byte_at (mem w) a.
Proof.
  intros [Hh Hc Hm] Hw Hhigh Hf Ed Es En Hn Hs1 Hs2 Hd1 Hd2 Hdir.
  assert (0 <= n) by (rewrite <- En; apply (reg_u32 (A0_ + 2) _ Hc)).
  destruct (memory_copy_runs overlap_safe low high w d s n) as (w' & E & T & F); try done.
  eexists. split; [apply (dispatch_returns _ _ _ _ _ _ Hf (find_move overlap_safe) E)|].
  rewrite (mt_world _ _ _ _ T). split_and!; try done; [apply T|]. intros a Ha.
  etransitivity; [exact (F a Ha)|]. by rewrite Z.add_0_r.
Qed.
End services.

(** ** Words and jump buffers *)

Section jumps.
Context {M : Type} `{GuestCells M}.

Notation prog := (prog M).
Notation World := (World M).

Definition word_in (m : M) (a : Z) : Z := from_le (map (fun i => byte_at m (a + i)) [0; 1; 2; 3]).

Lemma write_bytes_runs low high base offset i bytes (w : World) :
  window (mem w) low high -> good_mem (mem w) -> Forall (in_u 8) bytes -> 0 <= base -> 0 <= offset + i ->
  low <= base + offset + i -> base + offset + i + len bytes <= high ->
  exists w', write_bytes base offset i bytes w = (Ok tt, w') /\ memory_to low high w w' /\
    forall a, low <= a < high -> byte_at (mem w') a =
      if (base + offset + i <=? a) && (a <? base + offset + i + len bytes)
      then default 0 (bytes !! Z.to_nat (a - (base + offset + i))) else byte_at (mem w) a.
Proof.
  intros Hw Hg Hb Hbase Hoff. revert i Hoff w Hw Hg. induction Hb as [|b bytes Hb Hbs IH]; intros i Hoff w Hw Hg Hl Hh.
  - exists w. split; [done|]. split; [constructor; [by destruct w|done|apply touched_refl]|]. intros a Ha. change (len (@nil Z)) with 0.
    by destruct (Z.leb_spec (base + offset + i) a), (Z.ltb_spec a (base + offset + i + 0)); try lia.
  - pose proof (wd_bounds _ _ _ Hw) as Hbd. assert (len (b :: bytes) = 1 + len bytes) as El by (unfold len; cbn; lia).
    assert (0 <= len bytes) by (unfold len; lia).
    cbn [write_bytes].
    assert (lift (expect (checked_add_u 32 offset i)) w = (Ok (offset + i), w)) as Ea.
    { unfold lift, checked_add_u. by rewrite (proj2 (Z.ltb_lt _ _)) by lia. }
    rewrite (bind_ok _ _ _ _ _ Ea).
    destruct (write_window low high base (offset + i) b w Hw Hg ltac:(lia) Hb) as (w1 & E1 & T1 & F1).
    rewrite (bind_ok _ _ _ _ _ E1).
    destruct (IH (i + 1) ltac:(lia) w1 (touched_window _ _ _ _ _ _ (mt_touched _ _ _ _ T1) Hw) (mt_good _ _ _ _ T1) ltac:(lia) ltac:(lia)) as (w2 & E2 & T2 & F2).
    exists w2. split; [done|]. split; [by eapply memory_to_trans|]. intros a Ha. rewrite F2, F1 by done.
    replace (base + offset + (i + 1)) with (base + offset + i + 1) by lia. replace (base + (offset + i)) with (base + offset + i) by lia.
    rewrite El. set (p := base + offset + i) in *. destruct (Z.eqb_spec a p) as [->|Hne].
    + rewrite Z.sub_diag. destruct (Z.leb_spec (p + 1) p), (Z.leb_spec p p), (Z.ltb_spec p (p + (1 + len bytes))); try lia. done.
    + destruct (Z.leb_spec (p + 1) a), (Z.leb_spec p a), (Z.ltb_spec a (p + 1 + len bytes)),
        (Z.ltb_spec a (p + (1 + len bytes))); try lia; try done. cbn [andb].
      replace (Z.to_nat (a - p)) with (S (Z.to_nat (a - (p + 1)))) by lia. done.
Qed.

Lemma write_word_runs low high base offset v (w : World) :
  window (mem w) low high -> good_mem (mem w) -> u32 v -> 0 <= base -> 0 <= offset ->
  low <= base + offset -> base + offset + 4 <= high ->
  exists w', write_word base offset v w = (Ok tt, w') /\ memory_to low high w w' /\
    word_in (mem w') (base + offset) = v /\
    forall a, low <= a < high -> a < base + offset \/ base + offset + 4 <= a ->
      byte_at (mem w') a = byte_at (mem w) a.
Proof.
  intros Hw Hg Hv Hb Ho Hl Hh. unfold write_word.
  destruct (write_bytes_runs low high base offset 0 (le_bytes 4 v) w Hw Hg (le_bytes_u8 4 v) Hb ltac:(lia)) as (w' & E & T & F).
  { lia. } { change (len (le_bytes 4 v)) with 4. lia. }
  change (len (le_bytes 4 v)) with 4 in F. rewrite Z.add_0_r in F.
  exists w'. split_and!; [done|done| |].
  - rewrite <- (le_from_le_bytes 4 v) by exact Hv. unfold word_in. f_equal.
    assert (forall i, 0 <= i < 4 -> byte_at (mem w') (base + offset + i) = default 0 (le_bytes 4 v !! Z.to_nat i)) as Fi.
    { intros i Hi. rewrite F by lia. destruct (Z.leb_spec (base + offset) (base + offset + i)), (Z.ltb_spec (base + offset + i) (base + offset + 4)); try lia.
      cbn [andb]. do 3 f_equal. lia. }
    cbn [map]. rewrite !Fi by lia. done.
  - intros a Ha Hout. rewrite F by done. by destruct (Z.leb_spec (base + offset) a), (Z.ltb_spec a (base + offset + 4)); try lia.
Qed.

Lemma read_word_runs low high base offset (w : World) :
  window (mem w) low high -> good_mem (mem w) -> 0 <= base -> 0 <= offset ->
  low <= base + offset -> base + offset + 4 <= high ->
  read_word base offset w = (Ok (word_in (mem w) (base + offset)), w).
Proof.
  intros Hw Hg Hb Ho Hl Hh. pose proof (wd_bounds _ _ _ Hw) as Hbd.
  assert (forall i (k : Z -> prog Z), 0 <= i < 4 ->
    bind (lift (expect (checked_add_u 32 offset i))) k w = k (offset + i) w) as At.
  { intros i k Hi. unfold bind, lift, checked_add_u. by rewrite (proj2 (Z.ltb_lt _ _)) by lia. }
  assert (forall i (k : Z -> prog Z), 0 <= i < 4 ->
    bind (read_byte base (offset + i)) k w = k (byte_at (mem w) (base + offset + i)) w) as Rd.
  { intros i k Hi. rewrite <- Z.add_assoc. apply bind_ok. eapply read_window; [done|done|lia]. }
  unfold read_word. rewrite At, Rd by lia. rewrite At, Rd by lia. rewrite At, Rd by lia. rewrite At, Rd by lia. done.
Qed.

(** The registers a jump buffer keeps, in its order. *)
Definition saved_registers : list nat :=
  [RA; SP; FP; S0_; S0_ + 1; S0_ + 2; S0_ + 3; S0_ + 4; S0_ + 5; S0_ + 6; S0_ + 7; GP]%nat.

Lemma reg_set_reg i j v c : (j < length (registers c))%nat ->
  CpuContext.reg i (CpuContext.set_reg j v c) = if (i =? j)%nat then v else CpuContext.reg i c.
Proof.
  intros Hj. change (default 0 (<[j:=v]> (registers c) !! i) = if (i =? j)%nat then v else CpuContext.reg i c).
  destruct (Nat.eqb_spec i j) as [->|Hne]; [by rewrite list_lookup_insert_eq|by rewrite list_lookup_insert_ne].
Qed.

Lemma length_set_reg i v c : length (registers (CpuContext.set_reg i v c)) = length (registers c).
Proof. apply length_insert. Qed.

Lemma restore_jump_buffer_eq saved c :
  restore_jump_buffer saved c =
  fold_left (fun c k => CpuContext.set_reg (nth k saved_registers 0%nat) (saved_word saved k) c) (seq 0 12) c.
Proof. reflexivity. Qed.

Lemma restored_register saved c i : length (registers c) = 32%nat ->
  CpuContext.reg i (restore_jump_buffer saved c) =
  match list_find (eq i) saved_registers with
  | Some (k, _) => saved_word saved k
  | None => CpuContext.reg i c
  end.
Proof.
  intros Hl. rewrite restore_jump_buffer_eq. cbn [seq fold_left nth saved_registers].
  repeat (rewrite reg_set_reg by (rewrite ?length_set_reg; rewrite Hl; repeat constructor)).
  destruct (decide (i < 32)%nat) as [Hi|Hi].
  - do 32 (destruct i as [|i]; [reflexivity|]). lia.
  - do 32 (destruct i as [|i]; [lia|]). reflexivity.
Qed.

Lemma restored_length saved c : length (registers (restore_jump_buffer saved c)) = length (registers c).
Proof. rewrite restore_jump_buffer_eq. cbn [seq fold_left]. by rewrite !length_set_reg. Qed.

Lemma read_words_runs low high buffer n i (w : World) :
  window (mem w) low high -> good_mem (mem w) -> 0 <= buffer -> 0 <= i ->
  low <= buffer + 4 * i -> buffer + 4 * (i + Z.of_nat n) <= high ->
  read_words n buffer i w = (Ok (map (fun k => word_in (mem w) (buffer + 4 * (i + Z.of_nat k))) (seq 0 n)), w).
Proof.
  intros Hw Hg Hb. revert i. induction n as [|n IH]; intros i Hi Hl Hh; [done|].
  pose proof (wd_bounds _ _ _ Hw) as Hbd. cbn [read_words].
  assert (checked_mul i 4 w = (Ok (i * 4), w)) as Em.
  { unfold checked_mul, lift, checked_mul_u. by rewrite (proj2 (Z.ltb_lt _ _)) by lia. }
  rewrite (bind_ok _ _ _ _ _ Em).
  rewrite (bind_ok _ _ _ _ _ (read_word_runs low high buffer (i * 4) w Hw Hg Hb ltac:(lia) ltac:(lia) ltac:(lia))).
  rewrite (bind_ok _ _ _ _ _ (IH (i + 1) ltac:(lia) ltac:(lia) ltac:(lia))). unfold ret. do 2 f_equal. cbn [seq map]. f_equal.
  - do 2 f_equal. lia.
  - rewrite <- (seq_shift n 0), map_map. apply map_ext. intros k. do 2 f_equal. lia.
Qed.
End jumps.

Section jump_calls.
Context {M : Type} `{GuestCells M}.

Notation prog := (prog M).
Notation World := (World M).

Lemma word_in_ext (m m' : M) a : (forall i, a <= i < a + 4 -> byte_at m' i = byte_at m i) -> word_in m' a = word_in m a.
Proof. intros E. unfold word_in. cbn [map]. by rewrite !E by lia. Qed.

Lemma setjmp_runs buffer (w : World) :
  world_ok w -> window (mem w) buffer (buffer + 48) -> CpuContext.argument 0 (ctx w) = buffer ->
  48 <= memory_operation_bytes (limits (hle w)) ->
  exists w', setjmp w = (Ok 104, w' <| ctx := CpuContext.return_value 0 (ctx w) |>) /\
    memory_to buffer (buffer + 48) w w' /\
    forall k i, saved_registers !! k = Some i -> word_in (mem w') (buffer + 4 * Z.of_nat k) = CpuContext.reg i (ctx w).
Proof.
  intros [Hh Hc Hm] Hw Ea Hl. pose proof (wd_bounds _ _ _ Hw) as Hb. unfold setjmp, argument.
  rewrite (bind_ok _ _ _ _ _ (check_size_ok 48 w Hl)). do 2 (rewrite (bind_ok (asks _) _ _ _ _ eq_refl)). rewrite Ea.
  set (saved := map (fun i => CpuContext.reg i (ctx w)) _).
  assert (forall k i, saved_registers !! k = Some i -> saved_word saved k = CpuContext.reg i (ctx w)) as Hsaved.
  { intros k i Hk. change saved with (map (fun i => CpuContext.reg i (ctx w)) saved_registers). unfold saved_word.
    by rewrite list_lookup_fmap, Hk. }
  assert (forall k, u32 (saved_word saved k)) as H32.
  { intros k. apply saved_word_u32. apply Forall_map, Forall_true. intros i. by apply reg_u32. }
  destruct (for_range_runs (fun i w' => memory_to buffer (buffer + 48) w w' /\
    forall k, Z.of_nat k < i -> word_in (mem w') (buffer + 4 * Z.of_nat k) = saved_word saved k) 12 0
    (fun i => let* offset := checked_mul i 4 in write_word buffer offset (saved_word saved (Z.to_nat i))) w) as (w' & E & T & F).
  - split; [constructor; [by destruct w|done|apply touched_refl]|]. lia.
  - intros i w1 Hi [T1 F1].
    assert (checked_mul i 4 w1 = (Ok (i * 4), w1)) as Em.
    { unfold checked_mul, lift, checked_mul_u. by rewrite (proj2 (Z.ltb_lt _ _)) by lia. }
    rewrite (bind_ok _ _ _ _ _ Em).
    destruct (write_word_runs buffer (buffer + 48) buffer (i * 4) (saved_word saved (Z.to_nat i)) w1) as (w2 & E2 & T2 & G2 & F2);
      [eapply touched_window; [apply T1|done]|apply T1|apply H32|lia..|].
    exists w2. split; [done|]. split; [by eapply memory_to_trans|]. intros k Hk.
    destruct (decide (Z.of_nat k = i)) as [<-|Hne].
    + rewrite Nat2Z.id in G2. rewrite <- G2. f_equal. lia.
    + rewrite <- (F1 k) by lia. apply word_in_ext. intros a Ha. apply F2; lia.
  - rewrite (bind_ok _ _ _ _ _ E). exists w'. split_and!; [|done|].
    + unfold answer. rewrite (bind_ok (return_value 0) _ _ _ _ eq_refl). unfold ret. by rewrite (mt_world _ _ _ _ T).
    + intros k i Hk. rewrite F; [by apply Hsaved|]. apply lookup_lt_Some in Hk. cbn in Hk. lia.
Qed.

Lemma read_jump_buffer_runs buffer (w : World) :
  window (mem w) buffer (buffer + 48) -> good_mem (mem w) ->
  read_jump_buffer buffer w = (Ok (map (fun k => word_in (mem w) (buffer + 4 * Z.of_nat k)) (seq 0 12)), w).
Proof.
  intros Hw Hg. pose proof (wd_bounds _ _ _ Hw). unfold read_jump_buffer. rewrite (read_words_runs buffer (buffer + 48)); [done|done|done|lia..].
Qed.

(** The registers a jump buffer holds, over those of another context. *)
Definition resumed (saved : list Z) (from at_ : CpuContext) (i : nat) : Prop :=
  CpuContext.reg i (restore_jump_buffer saved at_) =
    if decide (i ∈ saved_registers) then CpuContext.reg i from else CpuContext.reg i at_.

Lemma buffer_restores (m : M) buffer (from at_ : CpuContext) :
  length (registers at_) = 32%nat ->
  (forall k i, saved_registers !! k = Some i -> word_in m (buffer + 4 * Z.of_nat k) = CpuContext.reg i from) ->
  forall i, resumed (map (fun k => word_in m (buffer + 4 * Z.of_nat k)) (seq 0 12)) from at_ i.
Proof.
  intros Hl Hs i. unfold resumed. rewrite (restored_register _ at_ i Hl).
  destruct (list_find (eq i) saved_registers) as [[k j]|] eqn:Ef.
  - apply list_find_Some in Ef as (Hk & <- & _). rewrite decide_True by (by eapply list_elem_of_lookup_2).
    rewrite <- (Hs _ _ Hk). unfold saved_word. rewrite list_lookup_fmap.
    rewrite lookup_seq_lt by (apply lookup_lt_Some in Hk; exact Hk). done.
  - rewrite decide_False; [done|]. intros Hin. apply list_find_None in Ef. rewrite Forall_forall in Ef. by apply (Ef i Hin).
Qed.

Lemma longjmp_runs buffer value (w : World) :
  good_mem (mem w) -> window (mem w) buffer (buffer + 48) ->
  CpuContext.argument 0 (ctx w) = buffer -> CpuContext.argument 1 (ctx w) = value ->
  48 <= memory_operation_bytes (limits (hle w)) ->
  longjmp w = (Ok 104, w <| ctx := CpuContext.return_value value (restore_jump_buffer
    (map (fun k => word_in (mem w) (buffer + 4 * Z.of_nat k)) (seq 0 12)) (ctx w)) |>).
Proof.
  intros Hm Hw Ea Ev Hl. unfold longjmp, argument.
  rewrite (bind_ok _ _ _ _ _ (check_size_ok 48 w Hl)). do 2 (rewrite (bind_ok (asks _) _ _ _ _ eq_refl)). rewrite Ea, Ev.
  by rewrite (bind_ok _ _ _ _ _ (read_jump_buffer_runs buffer w Hw Hm)).
Qed.

Lemma find_setjmp : find_service (A0, 0x13) (services (M := M)) = Some (returns setjmp).
Proof. reflexivity. Qed.
Lemma find_longjmp : find_service (A0, 0x14) (services (M := M)) = Some (returns longjmp).
Proof. reflexivity. Qed.

(** C8: A jump comes back to where its buffer was filled: the call of setjmp returns zero
    and changes nothing but the 48 bytes of the buffer; a later longjmp on the same bytes -
    whatever else the program did to its registers, its memory or the firmware - succeeds,
    changes no memory, and continues behind that setjmp call with the value asked for, the
    twelve saved registers as they were and every other register as it is now. *)
Theorem jump_restores (w w2 : World) buffer value :
  world_ok w -> world_ok w2 ->
  wrap 8 (CpuContext.reg T1 (ctx w)) = 0x13 -> wrap 8 (CpuContext.reg T1 (ctx w2)) = 0x14 ->
  CpuContext.argument 0 (ctx w) = buffer -> CpuContext.argument 0 (ctx w2) = buffer ->
  CpuContext.argument 1 (ctx w2) = value ->
  48 <= memory_operation_bytes (limits (hle w)) -> 48 <= memory_operation_bytes (limits (hle w2)) ->
  window (mem w) buffer (buffer + 48) ->
  exists w1, dispatch A0 w = (Ok (mkHleOutcome 104 Return), w1) /\
    hle w1 = hle w /\ touched buffer (buffer + 48) (mem w) (mem w1) /\
    CpuContext.reg V0 (ctx w1) = 0 /\ pc (ctx w1) = CpuContext.reg RA (ctx w) /\
    ((forall a, locate (mem w2) a = locate (mem w1) a) ->
     (forall a, buffer <= a < buffer + 48 -> byte_at (mem w2) a = byte_at (mem w1) a) ->
     exists w3, dispatch A0 w2 = (Ok (mkHleOutcome 104 Return), w3) /\
       hle w3 = hle w2 /\ mem w3 = mem w2 /\ tty w3 = tty w2 /\
       pc (ctx w3) = CpuContext.reg RA (ctx w) /\
       forall i, CpuContext.reg i (ctx w3) =
         if (i =? V0)%nat then value
         else if decide (i ∈ saved_registers) then CpuContext.reg i (ctx w) else CpuContext.reg i (ctx w2)).
Proof.
  intros Hok Hok2 Hf Hf2 Ea Ea2 Ev Hl Hl2 Hw. pose proof Hok as [_ [[Hc _] _ _] Hm]. pose proof Hok2 as [_ [[Hc2 _] _ _] Hm2].
  destruct (setjmp_runs buffer w Hok Hw Ea Hl) as (w' & E & T & F).
  eexists. split; [by apply (dispatch_returns _ _ _ _ _ _ Hf find_setjmp E)|]. split_and!.
  - by rewrite (mt_world _ _ _ _ T).
  - apply T.
  - change (CpuContext.reg V0 (CpuContext.set_reg V0 0 (ctx w)) = 0). by rewrite reg_set_reg by (rewrite Hc; cbv; lia).
  - change (CpuContext.reg RA (CpuContext.set_reg V0 0 (ctx w)) = CpuContext.reg RA (ctx w)). by rewrite reg_set_reg by (rewrite Hc; cbv; lia).
  - intros Hloc Hbytes.
    change (forall a, buffer <= a < buffer + 48 -> byte_at (mem w2) a = byte_at (mem w') a) in Hbytes.
    assert (window (mem w2) buffer (buffer + 48)) as Hw2 by (eapply window_ext; [exact Hloc|by eapply touched_window; [apply T|]]).
    assert (forall k i, saved_registers !! k = Some i -> word_in (mem w2) (buffer + 4 * Z.of_nat k) = CpuContext.reg i (ctx w)) as F2.
    { intros k i Hk. rewrite <- (F k i Hk). apply lookup_lt_Some in Hk. cbn in Hk. apply word_in_ext. intros a Ha. apply Hbytes. lia. }
    pose proof (dispatch_returns _ _ _ _ _ _ Hf2 find_longjmp (longjmp_runs buffer value w2 Hm2 Hw2 Ea2 Ev Hl2)) as Ej.
    eexists. split; [exact Ej|]. clear Ej.
    pose proof (buffer_restores (mem w2) buffer (ctx w) (ctx w2) Hc2 F2) as Hr. set (c := restore_jump_buffer _ (ctx w2)) in *.
    assert (forall i, CpuContext.reg i (CpuContext.set_reg V0 value c) = if (i =? V0)%nat then value else CpuContext.reg i c) as Hv.
    { intros i. apply reg_set_reg. unfold c. rewrite restored_length, Hc2. cbv. lia. }
    split_and!; try done.
    + change (CpuContext.reg RA (CpuContext.set_reg V0 value c) = CpuContext.reg RA (ctx w)). rewrite Hv. exact (Hr RA).
    + intros i. change (CpuContext.reg i (CpuContext.set_reg V0 value c) =
        if (i =? V0)%nat then value else if decide (i ∈ saved_registers) then CpuContext.reg i (ctx w) else CpuContext.reg i (ctx w2)).
      rewrite Hv. destruct (i =? V0)%nat; [done|]. exact (Hr i).
Qed.
End jump_calls.

(** ** Reallocation *)

Section realloc.
Context {M : Type} `{GuestCells M}.

Notation prog := (prog M).
Notation World := (World M).

Lemma block_room_of address size h :
  heap_ok h -> mkHeapBlock address size ∈ blocks h ->
  exists i following, block_room address h = Some (i, size, following) /\ address + size <= following <= hp_end h.
Proof.
  intros [B1 B2 B3] Hin. unfold block_room. destruct (block_position address (blocks h)) as [i|] eqn:E.
  2:{ by destruct (block_position_none _ _ E _ Hin). }
  destruct (block_position_some _ _ _ E) as (b & Hi & Ea). rewrite Hi.
  assert (b = mkHeapBlock address size) as ->.
  { apply (chain_unique _ _ _ _ _ B3); [by eapply list_elem_of_lookup_2|done|done]. }
  destruct (chain_in _ _ _ _ B3 Hin) as (C1 & C2 & C3 & C4 & C5). unfold block_end in C5. cbn in C5.
  destruct (blocks h !! S i) as [b|] eqn:En; eexists _, _; (split; [done|]).
  - pose proof (chain_apart _ _ _ _ _ _ _ B3 Hi En ltac:(lia)) as Ha. unfold block_end in Ha. cbn in Ha.
    destruct (chain_in _ _ _ b B3) as (D1 & D2 & D3 & D4 & D5); [by eapply list_elem_of_lookup_2|].
    unfold block_end in D5. lia.
  - lia.
Qed.

(** What a reallocation of a block leaves: the heap with the block replaced, its contents
    at the new place, and the contents of the others. *)
Record reallocated (h : Heap) (m : M) (old size new a : Z) (h' : Heap) (m' : M) : Prop := {
  ra_heap : heap_ok h' /\ hp_base h' = hp_base h /\ hp_end h' = hp_end h;
  ra_blocks b : b ∈ blocks h' <-> b = mkHeapBlock a (up8 new) \/ (b ∈ blocks h /\ hb_address b <> old);
  ra_contents k : 0 <= k < Z.min size new -> byte_at m' (a + k) = byte_at m (old + k);
  ra_others b k : b ∈ blocks h -> hb_address b <> old -> 0 <= k < hb_size b ->
    byte_at m' (hb_address b + k) = byte_at m (hb_address b + k);
  ra_outside : touched (hp_base h) (hp_end h) m m';
}.

Lemma reallocated_in_place h m old size new i following :
  heap_ok h -> block_room old h = Some (i, size, following) -> 0 < new -> old + up8 new <= following ->
  reallocated h m old size new old (grow_block i (up8 new) h) m.
Proof.
  intros Hh Hr Hn Hf. destruct (up8_spec new) as [U1 U2].
  destruct (heap_grows old h i size following (up8 new) Hh Hr ltac:(lia) U2 Hf) as (G1 & G2 & G3 & G4 & G5).
  constructor; [done|done|done|done|apply touched_refl].
Qed.

Lemma reallocated_elsewhere h h1 low high (w w' : World) old size new a :
  heap_ok h -> low = hp_base h -> high = hp_end h -> u32 new -> 0 < new -> mkHeapBlock old size ∈ blocks h ->
  allocate_from_heap new h = (Ok a, h1) ->
  copied w low high old a 0 (Z.min size new) w' ->
  reallocated h (mem w) old size new a (free_from_heap old h1) (mem w').
Proof.
  intros Hh -> -> H32 Hn Hin Ea [T F]. pose proof (heap_allocates new h Hh H32) as Hal. rewrite Ea in Hal.
  rewrite Z.max_l in Hal by lia. destruct Hal as (K1 & K2 & K3 & K4 & K5 & K6 & K7 & _ & K9).
  destruct (up8_spec new) as [U1 U2]. destruct (heap_frees old h1 K1) as (L1 & L2 & L3 & L4).
  pose proof Hh as [B1 B2 B3]. destruct (chain_in _ _ _ _ B3 Hin) as (C1 & C2 & C3 & C4 & C5).
  pose proof (K7 _ Hin) as Hroom. unfold block_end in *. cbn in *.
  constructor.
  - by rewrite L2, L3.
  - intros b. rewrite L4, K9. split.
    + intros [[->|Hb] Hne]; [by left|by right].
    + intros [->|[Hb Hne]]; [|by split; [right|]]. split; [by left|]. cbn. lia.
  - intros k Hk. rewrite F by lia. rewrite Z.add_0_r, (proj2 (Z.leb_le _ _)), (proj2 (Z.ltb_lt _ _)) by lia. cbn [andb]. f_equal. lia.
  - intros b k Hb Hne Hk. destruct (chain_in _ _ _ _ B3 Hb) as (D1 & D2 & D3 & D4 & D5). unfold block_end in D5.
    specialize (K7 _ Hb). unfold block_end in K7. rewrite F by lia. rewrite Z.add_0_r.
    destruct (Z.leb_spec a (hb_address b + k)), (Z.ltb_spec (hb_address b + k) (a + Z.min size new)); try done. lia.
  - apply T.
Qed.

Lemma find_realloc : find_service (A0, 0x38) (services (M := M)) = Some (returns realloc).
Proof. reflexivity. Qed.

Lemma heap_same b h : heap b = Some h -> b <| heap := Some h |> = b.
Proof. destruct b. cbn. by intros ->. Qed.

Lemma world_same (w : World) : w <| hle := hle w |> = w.
Proof. by destruct w. Qed.

(** The outcome of [realloc] on a block the heap holds. *)
Lemma realloc_runs (w : World) h old size new :
  world_ok w -> heap (hle w) = Some h -> window (mem w) (hp_base h) (hp_end h) ->
  CpuContext.argument 0 (ctx w) = old -> CpuContext.argument 1 (ctx w) = new ->
  old <> 0 -> 0 < new <= memory_operation_bytes (limits (hle w)) -> mkHeapBlock old size ∈ blocks h ->
  (exists c a h' w', realloc w = (Ok c, w') /\ heap (hle w') = Some h' /\
     ctx w' = CpuContext.return_value a (ctx w) /\
     hle w' = (hle w) <| heap := Some h' |> /\
     reallocated h (mem w) old size new a h' (mem w')) \/
  (exists e, realloc w = (Err e, w) /\ (e = AddressOverflow \/ e = OutOfMemory new /\
     forall c, hp_base h <= c -> room (blocks h) c (up8 new) -> hp_end h < c + up8 new)).
Proof.
  intros [Hhle Hc Hm] Eh Hw Ea En Hold Hnew Hin.
  assert (heap_ok h) as Hh by (pose proof (hle_heap _ Hhle) as X; by rewrite Eh in X).
  assert (u32 new) as H32 by (rewrite <- En; apply (reg_u32 (A0_ + 1) _ Hc)).
  destruct (block_room_of _ _ _ Hh Hin) as (i & following & Er & Hfo).
  unfold realloc, argument. do 2 (rewrite (bind_ok (asks _) _ _ _ _ eq_refl)). rewrite Ea, En.
  rewrite (bind_ok _ _ _ _ _ (check_size_ok new w ltac:(lia))).
  rewrite (proj2 (Z.eqb_neq _ _) Hold), (proj2 (Z.eqb_neq _ _)) by lia.
  rewrite Z.max_l by lia. rewrite heap_align_up by done.
  destruct (Z.ltb_spec (new + 7) (2 ^ 32)) as [Hlt|_].
  2:{ right. exists AddressOverflow. split; [done|by left]. }
  rewrite (bind_ok (lift (Ok _)) _ _ _ _ eq_refl), (bind_ok (gets _) _ _ _ _ eq_refl), Eh, Er.
  destruct (Z.ltb_spec (old + up8 new) (2 ^ 32)) as [Ho|Ho].
  2:{ right. exists AddressOverflow. split; [|by left]. unfold bind, checked_add, lift, checked_add_u. by rewrite (proj2 (Z.ltb_ge _ _)). }
  rewrite (bind_ok _ _ _ _ _ (checked_add_ok old (up8 new) w Ho)).
  destruct (Z.leb_spec (old + up8 new) following) as [Hfit|Hno].
  { left. exists 10, old, (grow_block i (up8 new) h). eexists. split; [reflexivity|].
    cbn. rewrite Eh. split_and!; try done. exact (reallocated_in_place h (mem w) old size new i following Hh Er ltac:(lia) Hfit). }
  assert (allocate new w = let (r, h) := allocate_from_heap new h in (r, w <| hle := (hle w) <| heap := Some h |> |>)) as Eal.
  { unfold allocate, on_hle. rewrite Eh. by destruct (allocate_from_heap new h). }
  pose proof (heap_allocates new h Hh H32) as Hal.
  destruct (allocate_from_heap new h) as [[a|e|] h1] eqn:Ef; [| |done].
  2:{ right. exists e. destruct Hal as (-> & He & Hfull). rewrite Z.max_l in Hfull by lia. split.
      - unfold bind. rewrite Eal. f_equal. by rewrite (heap_same _ _ Eh), world_same.
      - destruct He as [->| ->]; [by right|by left]. }
  left. rewrite (bind_ok _ _ _ _ _ Eal). set (w1 := w <| hle := (hle w) <| heap := Some h1 |> |>).
  destruct Hal as (_ & _ & _ & K4 & _ & K6 & K7 & _). rewrite Z.max_l in * by lia. destruct (up8_spec new) as [U1 _].
  specialize (K7 _ Hin). unfold block_end in K7. cbn in K7.
  destruct (chain_in _ _ _ _ (hp_chain _ Hh) Hin) as (C1 & _ & C3 & _ & C5). unfold block_end in C5. cbn in C1, C3, C5.
  destruct (copy_forward (hp_base h) (hp_end h) old a (Z.min size new) w1) as (w2 & E2 & C2); [done|done|lia..|].
  rewrite (bind_ok _ _ _ _ _ E2). pose proof (mt_world _ _ _ _ (proj1 C2)) as Ew2.
  eexists _, a, (free_from_heap old h1), _. split; [reflexivity|]. rewrite Ew2. cbn. split_and!; try done.
  exact (reallocated_elsewhere h h1 _ _ w1 w2 old size new a Hh eq_refl eq_refl H32 ltac:(lia) Hin Ef C2).
Qed.

(** C7: Reallocating a block of a heap whose bytes are mapped, each to a cell of its own,
    keeps its contents: on success the block is
    replaced by one of the new size, rounded up to doublewords, inside the heap and apart
    from all others, whose first bytes, up to the smaller size, are those of the old block;
    every other block keeps its place, size and contents.  On failure nothing changed, and
    a report of exhausted memory means no gap of the heap was large enough. *)
Theorem reallocation_keeps_contents (w : World) h old size new :
  world_ok w -> heap (hle w) = Some h -> window (mem w) (hp_base h) (hp_end h) ->
  wrap 8 (CpuContext.reg T1 (ctx w)) = 0x38 ->
  CpuContext.argument 0 (ctx w) = old -> CpuContext.argument 1 (ctx w) = new ->
  old <> 0 -> 0 < new <= memory_operation_bytes (limits (hle w)) -> mkHeapBlock old size ∈ blocks h ->
  (exists c a h' w', dispatch A0 w = (Ok (mkHleOutcome c Return), w') /\
     ctx w' = CpuContext.return_to_caller (CpuContext.return_value a (ctx w)) /\
     hle w' = (hle w) <| heap := Some h' |> /\
     reallocated h (mem w) old size new a h' (mem w')) \/
  (exists e, dispatch A0 w = (Err e, w) /\ (e = AddressOverflow \/ e = OutOfMemory new /\
     forall c, hp_base h <= c -> room (blocks h) c (up8 new) -> hp_end h < c + up8 new)).
Proof.
  intros Hok Eh Hw Hf Ea En Hold Hnew Hin.
  destruct (realloc_runs w h old size new Hok Eh Hw Ea En Hold Hnew Hin) as [(c & a & h' & w' & E & _ & Ec & Eb & Hr)|(e & E & He)].
  - left. exists c, a, h'. eexists. split; [exact (dispatch_returns _ _ _ _ _ _ Hf find_realloc E)|].
    split_and!; [by cbn; rewrite Ec|done|done].
  - right. exists e. split; [|done]. exact (dispatch_fails _ _ _ _ _ _ Hf find_realloc E).
Qed.
End realloc.

(** ** Event delivery *)

(** Whether a slot holds an enabled event of this class and specification. *)
Definition listens (class spec : Z) (s : EventSlot) : bool :=
  match s with Some e => ev_enabled e && (ev_class e =? class) && (ev_spec e =? spec) | None => false end.

(** The slot after a delivery, and the callback it asks for. *)
Definition latched (class spec : Z) (s : EventSlot) : EventSlot :=
  match s with
  | Some e => if listens class spec s && (ev_mode e =? 0x2000) then Some (e <| ev_state := Delivered |>) else s
  | None => s
  end.

Definition request_of (class spec : Z) (s : EventSlot) : option CallbackRequest :=
  match s with
  | Some e => if listens class spec s && ((ev_mode e =? 0x1000) && negb (ev_callback e =? 0))
              then Some (mkCallbackRequest (ev_callback e)) else None
  | None => None
  end.

Fixpoint listeners (class spec : Z) (slots : list EventSlot) : Z :=
  match slots with [] => 0 | s :: slots => (if listens class spec s then 1 else 0) + listeners class spec slots end.

Lemma deliver_spec l class spec s queue :
  deliver l class spec s queue =
  match request_of class spec s with
  | Some r => if max_pending_callbacks l <=? Z.of_nat (length queue) then (Err CallbackCapacity, (s, queue))
              else (Ok true, (latched class spec s, queue ++ [r]))
  | None => (Ok (listens class spec s), (latched class spec s, queue))
  end.
Proof.
  destruct s as [e|]; [|done]. unfold deliver, request_of, latched, listens.
  destruct (ev_enabled e), (ev_class e =? class), (ev_spec e =? spec); try done. cbn [negb orb andb].
  destruct (Z.eqb_spec (ev_mode e) 0x1000) as [->|], (negb (ev_callback e =? 0)); try done; cbn [andb];
    by destruct (ev_mode e =? 0x2000).
Qed.

Lemma request_listens class spec s r : request_of class spec s = Some r -> listens class spec s = true.
Proof. destruct s as [e|]; [|done]. unfold request_of. by destruct (listens class spec (Some e)). Qed.

Lemma listeners_bound class spec slots : 0 <= listeners class spec slots <= Z.of_nat (length slots).
Proof. induction slots as [|s slots IH]; cbn; [lia|]. destruct (listens class spec s); lia. Qed.

Lemma deliver_all_spec l class spec slots delivered queue :
  0 <= delivered -> delivered + Z.of_nat (length slots) < 2 ^ 32 ->
  match deliver_all l class spec delivered slots queue with
  | (Ok n, (slots', queue')) => n = delivered + listeners class spec slots /\
      slots' = map (latched class spec) slots /\ queue' = queue ++ omap (request_of class spec) slots
  | (Err e, _) => e = CallbackCapacity /\
      max_pending_callbacks l < Z.of_nat (length (queue ++ omap (request_of class spec) slots))
  | (Panic, _) => False
  end.
Proof.
  revert delivered queue. induction slots as [|s slots IH]; intros d queue Hd Hlen; cbn [deliver_all].
  { cbn. split_and!; [lia|done|by rewrite app_nil_r]. }
  cbn [length] in Hlen. rewrite deliver_spec. cbn [omap list_omap listeners map].
  assert (forall hit : bool, (if hit then saturating_u 32 (d + 1) else d) = d + (if hit then 1 else 0)) as Esat.
  { intros []; unfold saturating_u; lia. }
  destruct (request_of class spec s) as [r|] eqn:Er.
  - rewrite (request_listens _ _ _ _ Er). destruct (Z.leb_spec (max_pending_callbacks l) (Z.of_nat (length queue))) as [Hfull|Hroom].
    { split; [done|]. rewrite length_app. cbn [length]. lia. }
    cbv beta iota zeta. specialize (IH (saturating_u 32 (d + 1)) (queue ++ [r])). rewrite (Esat true) in *.
    specialize (IH ltac:(lia) ltac:(lia)). rewrite <- app_assoc in IH.
    destruct (deliver_all l class spec _ slots _) as [[n|x|] [slots' queue']]; cbn; [|done|done].
    destruct IH as (-> & -> & ->). split_and!; [lia|done|done].
  - cbv beta iota zeta. rewrite Esat. specialize (IH (d + (if listens class spec s then 1 else 0)) queue).
    specialize (IH ltac:(destruct (listens class spec s); lia) ltac:(destruct (listens class spec s); lia)).
    destruct (deliver_all l class spec _ slots _) as [[n|x|] [slots' queue']]; cbn; [|done|done].
    destruct IH as (-> & -> & ->). split_and!; [lia|done|done].
Qed.

Section events.
Context {M : Type} `{GuestCells M}.

Notation World := (World M).

Lemma event_slot_events handle b b' : events b' = events b -> event_slot handle b' = event_slot handle b.
Proof. intros E. unfold event_slot. by rewrite E. Qed.

Lemma event_slot_some handle b i e : event_slot handle b = Some (i, e) -> events b !! i = Some (Some e).
Proof.
  unfold event_slot. destruct (negb _); [done|]. destruct (events b !! Z.to_nat (wrap 16 handle)) as [[e'|]|] eqn:E; try done.
  by intros [= <- <-].
Qed.

Lemma event_slot_after handle b i e slots s :
  event_slot handle b = Some (i, e) -> slots !! i = Some (Some s) ->
  event_slot handle (b <| events := slots |>) = Some (i, s).
Proof.
  unfold event_slot. destruct (negb _); [done|]. destruct (events b !! Z.to_nat (wrap 16 handle)) as [[e'|]|] eqn:E; try done.
  intros [= <- <-] Es. change (events (b <| events := slots |>)) with slots. by rewrite Es.
Qed.

Lemma find_test_event : find_service (B0, 0x0b) (services (M := M)) = Some (returns test_event).
Proof. reflexivity. Qed.
Lemma find_deliver_event : find_service (B0, 0x07) (services (M := M)) = Some (returns deliver_event).
Proof. reflexivity. Qed.

(** The answer of TestEvent on a handle, and the event it leaves. *)
Lemma test_event_runs (w : World) i e :
  wrap 8 (CpuContext.reg T1 (ctx w)) = 0x0b -> ctx_ok (ctx w) ->
  event_slot (CpuContext.argument 0 (ctx w)) (hle w) = Some (i, e) ->
  let delivered := ev_enabled e && bool_decide (ev_state e = Delivered) in
  exists w', dispatch B0 w = (Ok (mkHleOutcome 8 Return), w') /\
    CpuContext.reg V0 (ctx w') = (if delivered then 1 else 0) /\
    hle w' = (if delivered then put_event i (Some (e <| ev_state := Idle |>)) (hle w) else hle w) /\ mem w' = mem w.
Proof.
  intros Hf Hc He delivered. pose proof (ctx_registers _ Hc) as [Hl _].
  assert (exists w', test_event w = (Ok 8, w') /\ CpuContext.reg V0 (ctx w') = (if delivered then 1 else 0) /\
    hle w' = (if delivered then put_event i (Some (e <| ev_state := Idle |>)) (hle w) else hle w) /\ mem w' = mem w) as (w' & E & E1 & E2 & E3).
  { unfold test_event, argument. rewrite (bind_ok (asks _) _ _ _ _ eq_refl).
    assert (take_delivery (CpuContext.argument 0 (ctx w)) (hle w) = (Ok delivered,
      if delivered then put_event i (Some (e <| ev_state := Idle |>)) (hle w) else hle w)) as Et.
    { unfold take_delivery. rewrite He. unfold delivered. by destruct (ev_enabled e && _). }
    unfold on_hle. unfold bind at 1. rewrite Et. eexists. split; [reflexivity|].
    split_and!; try done. cbn [ctx]. unfold CpuContext.set_register.
    destruct (registers _ !! V1); [|]; rewrite ?decide_False by done; cbn [snd].
    - change (CpuContext.reg V0 (CpuContext.set_reg V1 (if delivered then 1 else 0) (CpuContext.set_reg V0 (if delivered then 1 else 0) (ctx w))) = if delivered then 1 else 0).
      rewrite !reg_set_reg by (rewrite ?length_set_reg, Hl; cbv; lia). done.
    - change (CpuContext.reg V0 (CpuContext.set_reg V0 (if delivered then 1 else 0) (ctx w)) = if delivered then 1 else 0).
      by rewrite !reg_set_reg by (rewrite ?length_set_reg, Hl; cbv; lia). }
  eexists. split; [exact (dispatch_returns _ _ _ _ _ _ Hf find_test_event E)|]. by split_and!.
Qed.

(** The world a delivery leaves, or its failure. *)
Lemma deliver_event_runs (w : World) class spec :
  world_ok w -> wrap 8 (CpuContext.reg T1 (ctx w)) = 0x07 ->
  CpuContext.argument 0 (ctx w) = class -> CpuContext.argument 1 (ctx w) = spec ->
  match dispatch B0 w with
  | (Ok o, w1) =>
      ho_action o = Return /\ mem w1 = mem w /\ CpuContext.reg V0 (ctx w1) = listeners class spec (events (hle w)) /\
      hle w1 = (hle w) <| events := map (latched class spec) (events (hle w)) |>
        <| pending_callbacks := pending_callbacks (hle w) ++ omap (request_of class spec) (events (hle w)) |>
  | (Err e, _) => e = CallbackCapacity /\
      max_pending_callbacks (limits (hle w)) <
        Z.of_nat (length (pending_callbacks (hle w) ++ omap (request_of class spec) (events (hle w))))
  | (Panic, _) => False
  end.
Proof.
  intros [Hh Hc Hm] Hf Ea Es. destruct (hle_events _ Hh) as [Hle _]. pose proof (ctx_registers _ Hc) as [Hl _].
  pose proof (deliver_all_spec (limits (hle w)) class spec (events (hle w)) 0 (pending_callbacks (hle w)) ltac:(lia)) as Hd.
  specialize (Hd ltac:(rewrite Hle; cbv; reflexivity)). pose proof (listeners_bound class spec (events (hle w))) as Hb.
  destruct (deliver_all _ _ _ _ _ _) as [[n|x|] [slots' queue']] eqn:E; [| |done].
  - destruct Hd as (-> & -> & ->). rewrite Z.add_0_l in E.
    eassert (deliver_event w = (Ok _, _)) as Er.
    { unfold deliver_event, argument. do 2 (rewrite (bind_ok (asks _) _ _ _ _ eq_refl)). rewrite Ea, Es.
      unfold bind at 1, on_hle, signal_event. rewrite E. reflexivity. }
    rewrite (dispatch_returns _ _ _ _ _ _ Hf find_deliver_event Er). split_and!; try done.
    change (CpuContext.reg V0 (CpuContext.set_reg V0 (listeners class spec (events (hle w))) (ctx w)) = listeners class spec (events (hle w))).
    by rewrite reg_set_reg by (rewrite Hl; cbv; lia).
  - eassert (deliver_event w = (Err x, _)) as Er.
    { unfold deliver_event, argument. do 2 (rewrite (bind_ok (asks _) _ _ _ _ eq_refl)). rewrite Ea, Es.
      unfold bind at 1, on_hle, signal_event. rewrite E. reflexivity. }
    by rewrite (dispatch_fails _ _ _ _ _ _ Hf find_deliver_event Er).
Qed.

(** What TestEvent answers, twice in a row, on a latched event. *)
Lemma latched_answers_once (b : BiosHle) (w2 : World) class spec i e queue :
  hle_ok b -> world_ok w2 -> wrap 8 (CpuContext.reg T1 (ctx w2)) = 0x0b ->
  hle w2 = b <| events := map (latched class spec) (events b) |> <| pending_callbacks := queue |> ->
  event_slot (CpuContext.argument 0 (ctx w2)) b = Some (i, e) ->
  listens class spec (Some e) = true -> ev_mode e = 0x2000 ->
  exists w3, dispatch B0 w2 = (Ok (mkHleOutcome 8 Return), w3) /\ CpuContext.reg V0 (ctx w3) = 1 /\
    forall w4 : World, world_ok w4 -> hle w4 = hle w3 -> wrap 8 (CpuContext.reg T1 (ctx w4)) = 0x0b ->
      CpuContext.argument 0 (ctx w4) = CpuContext.argument 0 (ctx w2) ->
      exists w5, dispatch B0 w4 = (Ok (mkHleOutcome 8 Return), w5) /\ CpuContext.reg V0 (ctx w5) = 0 /\ hle w5 = hle w4.
Proof.
  intros Hb Hw2 Hf2 Eh2 Hslot Hlisten Hmode. pose proof (event_slot_some _ _ _ _ Hslot) as Hi.
  assert (latched class spec (Some e) = Some (e <| ev_state := Delivered |>)) as El.
  { unfold latched. by rewrite Hlisten, Hmode. }
  assert (map (latched class spec) (events b) !! i = Some (Some (e <| ev_state := Delivered |>))) as Hi2.
  { etransitivity; [apply list_lookup_fmap|]. etransitivity; [apply (f_equal (fmap (latched class spec)) Hi)|]. exact (f_equal Some El). }
  assert (event_slot (CpuContext.argument 0 (ctx w2)) (hle w2) = Some (i, e <| ev_state := Delivered |>)) as Hslot2.
  { rewrite Eh2, (event_slot_events _ (b <| events := map (latched class spec) (events b) |>)) by done.
    by apply (event_slot_after _ _ _ e). }
  destruct (test_event_runs w2 _ _ Hf2 (wo_ctx _ Hw2) Hslot2) as (w3 & E3 & V3 & H3 & _).
  assert (ev_enabled e = true) as Hen by (cbn in Hlisten; by destruct (ev_enabled e)).
  cbn [ev_enabled ev_state] in V3, H3.
  assert (ev_enabled (e <| ev_state := Delivered |>) && bool_decide (ev_state (e <| ev_state := Delivered |>) = Delivered) = true) as Et.
  { change (ev_enabled e && true = true). by rewrite Hen. }
  rewrite Et in V3, H3. exists w3. split_and!; [done|done|]. intros w4 Hw4 Eh4 Hf4 Ea4.
  destruct (test_event_runs w4 i (e <| ev_state := Delivered |> <| ev_state := Idle |>) Hf4 (wo_ctx _ Hw4)) as (w5 & E5 & V5 & H5 & _).
  { rewrite Ea4, Eh4, H3. unfold put_event. apply (event_slot_after _ _ _ (e <| ev_state := Delivered |>)); [done|].
    apply list_lookup_insert_eq. rewrite Eh2. change (i < length (map (latched class spec) (events b)))%nat.
    by apply lookup_lt_Some in Hi2. }
  assert (ev_enabled (e <| ev_state := Delivered |> <| ev_state := Idle |>) &&
    bool_decide (ev_state (e <| ev_state := Delivered |> <| ev_state := Idle |>) = Delivered) = false) as Et5 by apply andb_false_r.
  rewrite Et5 in V5, H5. by exists w5.
Qed.

(** C9: An event is delivered to every listener, once: a DeliverEvent call latches every
    enabled ready-mode event of its class and specification, queues the callbacks of the
    callback-mode ones in the order of their slots, changes nothing else and answers how
    many events listened - or reports that the queue of callbacks would overflow.  The
    first TestEvent of a latched event answers one and takes the delivery; the next
    answers zero. *)
Theorem events_delivered_once (w : World) class spec :
  world_ok w -> wrap 8 (CpuContext.reg T1 (ctx w)) = 0x07 ->
  CpuContext.argument 0 (ctx w) = class -> CpuContext.argument 1 (ctx w) = spec ->
  match dispatch B0 w with
  | (Ok o, w1) =>
      ho_action o = Return /\ mem w1 = mem w /\ CpuContext.reg V0 (ctx w1) = listeners class spec (events (hle w)) /\
      hle w1 = (hle w) <| events := map (latched class spec) (events (hle w)) |>
        <| pending_callbacks := pending_callbacks (hle w) ++ omap (request_of class spec) (events (hle w)) |> /\
      forall w2 i e, world_ok w2 -> hle w2 = hle w1 -> wrap 8 (CpuContext.reg T1 (ctx w2)) = 0x0b ->
        event_slot (CpuContext.argument 0 (ctx w2)) (hle w) = Some (i, e) ->
        listens class spec (Some e) = true -> ev_mode e = 0x2000 ->
        exists w3, dispatch B0 w2 = (Ok (mkHleOutcome 8 Return), w3) /\ CpuContext.reg V0 (ctx w3) = 1 /\
          forall w4, world_ok w4 -> hle w4 = hle w3 -> wrap 8 (CpuContext.reg T1 (ctx w4)) = 0x0b ->
            CpuContext.argument 0 (ctx w4) = CpuContext.argument 0 (ctx w2) ->
            exists w5, dispatch B0 w4 = (Ok (mkHleOutcome 8 Return), w5) /\ CpuContext.reg V0 (ctx w5) = 0 /\ hle w5 = hle w4
  | (Err e, _) => e = CallbackCapacity /\
      max_pending_callbacks (limits (hle w)) <
        Z.of_nat (length (pending_callbacks (hle w) ++ omap (request_of class spec) (events (hle w))))
  | (Panic, _) => False
  end.
Proof.
  intros Hok Hf Ea Es. pose proof (deliver_event_runs w class spec Hok Hf Ea Es) as Hd.
  destruct (dispatch B0 w) as [[o|x|] w1]; [|done|done]. destruct Hd as (D1 & D2 & D3 & D4). split_and!; try done.
  intros w2 i e Hw2 Eh2 Hf2. rewrite D4 in Eh2. exact (latched_answers_once (hle w) w2 class spec i e _ (wo_hle _ Hok) Hw2 Hf2 Eh2).
Qed.
End events.

(** ** A memory of bytes, and the theorems at work on it *)

#[export] Instance ram_cells : GuestCells Buffer.
Proof.
  refine {| locate b a := if Buffer.in_range b a then Some a else None; cell_of := Buffer.cell |}.
  - intros a c m Hm Hl. destruct (Buffer.in_range m a) eqn:E; [|done]. injection Hl as <-. cbn. unfold Buffer.get. by rewrite E.
  - intros a c v m Hm Hv Hl. destruct (Buffer.in_range m a) eqn:E; [|done]. injection Hl as <-. cbn.
    destruct (Buffer.set m a v) as [b|] eqn:Es.
    2:{ unfold Buffer.set in Es. by rewrite E in Es. }
    exists b. split_and!; [done| |].
    + intros x. unfold Buffer.in_range. by rewrite (Buffer.set_len _ _ _ _ Es).
    + intros x. unfold Buffer.set in Es. rewrite E in Es. injection Es as <-. rewrite Buffer.cell_insert.
      destruct (decide (a = x)) as [->|]; [by rewrite Z.eqb_refl|]. destruct (Z.eqb_spec x a); congruence.
Defined.

Lemma ram_window (m : Buffer) low high : 0 <= low -> high <= buf_len m -> buf_len m <= 2 ^ 32 -> window m low high.
Proof.
  intros Hl Hh Hm. assert (forall a, low <= a < high -> locate m a = Some a) as E.
  { intros a Ha. cbn. unfold Buffer.in_range. by rewrite (proj2 (Z.leb_le _ _)), (proj2 (Z.ltb_lt _ _)) by lia. }
  constructor; [lia| |].
  - intros a Ha. rewrite E by done. by eexists.
  - intros a b Ha Hb. rewrite !E by done. by intros [= ->].
Qed.

(** 256 bytes with some of them set. *)
Definition ram_with (at_ : Z) (bytes : list Z) : Buffer := poke at_ bytes (Buffer.zeroed 256).

Definition world_with (function : Z) (arguments : list Z) (b : BiosHle) (m : Buffer) : World Buffer :=
  mkWorld b (caller function arguments) m [].

Lemma world_with_ok f l b at_ bytes :
  u32 f -> Forall u32 l -> hle_ok b -> Forall (in_u 8) bytes -> world_ok (world_with f l b (ram_with at_ bytes)).
Proof.
  intros Hf Hl Hb Hbytes. constructor; [done|by apply caller_ok|]. cbn. apply Buffer.write_cells_ok; [apply Buffer.zeroed_ok|done].
Qed.

Lemma ram_with_window at_ bytes low high : 0 <= low -> high <= 256 -> window (ram_with at_ bytes) low high.
Proof. intros Hl Hh. apply ram_window; [done|..]; unfold ram_with, poke; rewrite Buffer.write_cells_len; cbn; lia. Qed.

Lemma hle0_ok : hle_ok hle0.
Proof. apply firmware_new_ok; range_lit. Qed.

Ltac world_lit := apply world_with_ok; [range_lit|forall_list|try exact hle0_ok|forall_list].

Example memory_moves_witness :
  exists w', dispatch A0 (world_with 0x2c [2; 0; 8] hle0 (ram_with 0 (str "abcdefgh"))) = (Ok (mkHleOutcome 24 Return), w') /\
    forall a, 0 <= a < 16 -> byte_at (mem w') a =
      if (2 <=? a) && (a <? 10) then byte_at (ram_with 0 (str "abcdefgh")) (0 + (a - 2)) else byte_at (ram_with 0 (str "abcdefgh")) a.
Proof.
  destruct (memory_moves true 0 16 (world_with 0x2c [2; 0; 8] hle0 (ram_with 0 (str "abcdefgh"))) 2 0 8)
    as (w' & E & _ & _ & _ & _ & F); [world_lit|by apply ram_with_window|done..|vm_compute; discriminate|done|done|done|done|by left|].
  exists w'. exact (conj E F).
Defined.

Example jump_restores_witness :
  exists w1, dispatch A0 (world_with 0x13 [64] hle0 (ram_with 0 [])) = (Ok (mkHleOutcome 104 Return), w1) /\
    CpuContext.reg V0 (ctx w1) = 0 /\ pc (ctx w1) = 0x2000.
Proof.
  destruct (jump_restores (world_with 0x13 [64] hle0 (ram_with 0 [])) (world_with 0x14 [64; 7] hle0 (ram_with 0 [])) 64 7)
    as (w1 & E & _ & _ & V & P & _); [world_lit|world_lit|done..|vm_compute; discriminate|vm_compute; discriminate|by apply ram_with_window|].
  exists w1. exact (conj E (conj V P)).
Defined.

(** A heap of 128 bytes with two blocks, the first of which has no room to grow. *)
Definition heap2 : Heap := mkHeap 64 192 [mkHeapBlock 64 16; mkHeapBlock 80 8].

Lemma heap2_ok : heap_ok heap2.
Proof. constructor; cbn; [lia|done|]. split_and!; lia || done. Qed.

Lemma with_heap_ok h b : hle_ok b -> heap_ok h -> hle_ok (b <| heap := Some h |>).
Proof. intros [] Hh. by constructor. Qed.

Example reallocation_keeps_contents_witness :
  let w := world_with 0x38 [64; 24] (hle0 <| heap := Some heap2 |>) (ram_with 64 (str "contents")) in
  (exists c a h' w', dispatch A0 w = (Ok (mkHleOutcome c Return), w') /\
     ctx w' = CpuContext.return_to_caller (CpuContext.return_value a (ctx w)) /\
     hle w' = (hle w) <| heap := Some h' |> /\ reallocated heap2 (mem w) 64 16 24 a h' (mem w')) \/
  (exists e, dispatch A0 w = (Err e, w) /\ (e = AddressOverflow \/ e = OutOfMemory 24 /\
     forall c, 64 <= c -> room (blocks heap2) c (up8 24) -> 192 < c + up8 24)).
Proof.
  intros w. apply (reallocation_keeps_contents w heap2 64 16 24);
    [apply world_with_ok; [range_lit|forall_list|apply with_heap_ok; [exact hle0_ok|exact heap2_ok]|forall_list]|done|by apply ram_with_window|done..| |].
  - split; [done|vm_compute; discriminate].
  - by left.
Defined.

(** A listener in the first slot, ready for class 5, specification 2. *)
Definition hle1 : BiosHle := put_event 0 (Some (mkEvent 5 2 0x2000 0 true Idle)) hle0.

Lemma hle1_ok : hle_ok hle1.
Proof. apply put_event_ok; [exact hle0_ok|]. cbn. split_and!; range_lit. Qed.

Example events_delivered_once_witness :
  match dispatch B0 (world_with 0x07 [5; 2] hle1 (ram_with 0 [])) with
  | (Ok o, w1) =>
      CpuContext.reg V0 (ctx w1) = 1 /\
      (forall w2 : World Buffer, world_ok w2 -> hle w2 = hle w1 -> wrap 8 (CpuContext.reg T1 (ctx w2)) = 0x0b ->
        CpuContext.argument 0 (ctx w2) = 0xf1000000 ->
        exists w3, dispatch B0 w2 = (Ok (mkHleOutcome 8 Return), w3) /\ CpuContext.reg V0 (ctx w3) = 1)
  | _ => True
  end.
Proof.
  pose proof (events_delivered_once (world_with 0x07 [5; 2] hle1 (ram_with 0 [])) 5 2
    ltac:(apply world_with_ok; [range_lit|forall_list|exact hle1_ok|forall_list]) eq_refl eq_refl eq_refl) as P.
  destruct (dispatch B0 _) as [[o|x|] w1]; [|exact I|exact I]. destruct P as (_ & _ & V & _ & T). split; [exact V|].
  intros w2 H2 E2 F2 A2. destruct (T w2 0%nat (mkEvent 5 2 0x2000 0 true Idle) H2 E2 F2) as (w3 & E3 & V3 & _);
    [rewrite A2; reflexivity|reflexivity|reflexivity|]. exists w3. exact (conj E3 V3).
Defined.
