(* ===== verification/Ps1BiosSort.v ===== *)
(** * Sorting with the PS1 firmware

    qsort keeps a sort suspended while the guest's comparator runs: an insertion sort, one
    exchange of neighbours per answer.  Whatever registers the comparator uses, the sort
    ends, within the number of comparisons an insertion sort takes, with the elements in
    order.  See resume_libc_callback in crates/hle/ps1/bios/src/lib.rs. *)

From S2P Require Import Prelude Records MachineInt Slices PsfText.
From S2P Require Import Buffer Ps1Bios Ps1BiosLibc Ps1BiosFacts Ps1BiosSafety Ps1BiosSpec.

Section sorting.
Context {M : Type} `{GuestCells M}.

Notation prog := (prog M).
Notation World := (World M).

(** The bytes from an address on. *)
Definition bytes_at (m : M) (width a : Z) : list Z := map (fun i => byte_at m (a + Z.of_nat i)) (seq 0 (Z.to_nat width)).

Lemma bytes_at_ext m m' width a a' :
  (forall i, 0 <= i < width -> byte_at m' (a' + i) = byte_at m (a + i)) -> bytes_at m' width a' = bytes_at m width a.
Proof.
  intros E. unfold bytes_at. apply map_ext_in. intros i Hi%in_seq. apply E. lia.
Qed.

(** Two runs of bytes exchanged. *)
Lemma swap_bytes_runs low high l r n (w : World) :
  window (mem w) low high -> good_mem (mem w) -> 0 <= n ->
  low <= l -> l + n <= r -> r + n <= high ->
  exists w', for_range (Z.to_nat n) 0 (swap_byte l r) w = (Ok tt, w') /\ memory_to low high w w' /\
    forall a, low <= a < high -> byte_at (mem w') a =
      if (l <=? a) && (a <? l + n) then byte_at (mem w) (r + (a - l))
      else if (r <=? a) && (a <? r + n) then byte_at (mem w) (l + (a - r)) else byte_at (mem w) a.
Proof.
  intros Hw Hg Hn Hl Hlr Hr.
  destruct (for_range_runs (fun i w' => memory_to low high w w' /\ forall a, low <= a < high -> byte_at (mem w') a =
      if (l <=? a) && (a <? l + i) then byte_at (mem w) (r + (a - l))
      else if (r <=? a) && (a <? r + i) then byte_at (mem w) (l + (a - r)) else byte_at (mem w) a)
    (Z.to_nat n) 0 (swap_byte l r) w) as (w' & E & I).
  - split; [by apply memory_to_refl|]. intros a Ha.
    by destruct (Z.leb_spec l a), (Z.ltb_spec a (l + 0)), (Z.leb_spec r a), (Z.ltb_spec a (r + 0)); try lia.
  - rewrite Z2Nat.id by lia. intros i w1 Hi [T1 F1]. unfold swap_byte.
    assert (window (mem w1) low high) as Hw1 by (eapply touched_window; [apply T1|done]).
    pose proof (mt_good _ _ _ _ T1) as Hg1.
    rewrite (bind_ok _ _ _ _ _ (read_window low high l i w1 Hw1 Hg1 ltac:(lia))).
    rewrite (bind_ok _ _ _ _ _ (read_window low high r i w1 Hw1 Hg1 ltac:(lia))).
    destruct (write_window low high l i (byte_at (mem w1) (r + i)) w1 Hw1 Hg1 ltac:(lia)) as (w2 & E2 & T2 & F2).
    { eapply read_byte_u8; [done|done|lia]. }
    rewrite (bind_ok _ _ _ _ _ E2).
    destruct (write_window low high r i (byte_at (mem w1) (l + i)) w2) as (w3 & E3 & T3 & F3);
      [eapply touched_window; [apply T2|done]|apply T2|lia|eapply read_byte_u8; [exact Hw1|done|lia]|].
    exists w3. split; [done|]. split; [do 2 (eapply memory_to_trans; [eassumption|]); done|]. intros a Ha.
    rewrite F3, F2 by done.
    assert (byte_at (mem w1) (r + i) = byte_at (mem w) (r + i)) as ->.
    { rewrite F1 by lia. by destruct (Z.leb_spec l (r + i)), (Z.ltb_spec (r + i) (l + i)), (Z.leb_spec r (r + i)), (Z.ltb_spec (r + i) (r + i)); try lia. }
    assert (byte_at (mem w1) (l + i) = byte_at (mem w) (l + i)) as ->.
    { rewrite F1 by lia. by destruct (Z.leb_spec l (l + i)), (Z.ltb_spec (l + i) (l + i)), (Z.leb_spec r (l + i)), (Z.ltb_spec (l + i) (r + i)); try lia. }
    destruct (Z.eqb_spec a (r + i)) as [->|N1]; [|destruct (Z.eqb_spec a (l + i)) as [->|N2]].
    + destruct (Z.leb_spec l (r + i)), (Z.ltb_spec (r + i) (l + (i + 1))), (Z.leb_spec r (r + i)), (Z.ltb_spec (r + i) (r + (i + 1))); try lia.
      cbn [andb]. f_equal. lia.
    + destruct (Z.leb_spec l (l + i)), (Z.ltb_spec (l + i) (l + (i + 1))); try lia. cbn [andb]. f_equal. lia.
    + rewrite F1 by done.
      by destruct (Z.leb_spec l a), (Z.ltb_spec a (l + i)), (Z.leb_spec r a), (Z.ltb_spec a (r + i)),
        (Z.ltb_spec a (l + (i + 1))), (Z.ltb_spec a (r + (i + 1))); try lia.
  - exists w'. rewrite Z2Nat.id in I by lia. destruct I. by split_and!.
Qed.

(** Exchanging neighbours permutes a list. *)
Lemma swap_neighbours {X} (f g : nat -> X) n i :
  (S i < n)%nat -> g i = f (S i) -> g (S i) = f i -> (forall k, (k < n)%nat -> k <> i -> k <> S i -> g k = f k) ->
  map g (seq 0 n) ≡ₚ map f (seq 0 n).
Proof.
  intros Hi E1 E2 E. replace n with (i + S (S (n - i - 2)))%nat by lia. rewrite seq_app, !map_app. cbn [seq map].
  rewrite Nat.add_0_l, E1, E2, (map_ext_in g f (seq 0 i)) by (intros k Hk%in_seq; apply E; lia).
  rewrite (map_ext_in g f (seq (S (S i)) _)) by (intros k Hk%in_seq; apply E; lia).
  apply Permutation_app_head, perm_swap.
Qed.

(** ** The guest's side *)

(** The comparator as the guest's code runs it: from the registers and memory it is entered
    with to those it returns with. *)
Context (guest : CpuContext -> M -> CpuContext * M).

(** The guest runs until the firmware says it is done. *)
Fixpoint drive (fuel : nat) (w : World) : option (outcome BiosError HleOutcome * World) :=
  match fuel with
  | O => None
  | S fuel =>
      let (c, m) := guest (ctx w) (mem w) in
      match resume_libc_callback (w <| ctx := c |> <| mem := m |>) with
      | (Ok o, w') => if decide (ho_action o = Call) then drive fuel w' else Some (Ok o, w')
      | (r, w') => Some (r, w')
      end
  end.

(** A comparator entered at [callback] with the addresses of two operands answers [cmp] of
    their bytes; it may use any register, and any memory but the [kept] cells. *)
Record comparator (callback width : Z) (kept : Z -> Prop) (cmp : list Z -> list Z -> Z) : Prop := {
  co_answer c m : ctx_ok c -> good_mem m -> pc c = callback ->
    to_i 32 (CpuContext.reg V0 (guest c m).1) =
      cmp (bytes_at m width (CpuContext.argument 0 c)) (bytes_at m width (CpuContext.argument 1 c));
  co_context c m : ctx_ok c -> good_mem m -> ctx_ok (guest c m).1 /\ good_mem (guest c m).2;
  co_locate c m a : locate (guest c m).2 a = locate m a;
  co_kept c m x : kept x -> cell_of (guest c m).2 x = cell_of m x;
}.

Lemma element_address_at base k width : 0 <= base -> 0 <= k -> 0 <= width -> base + k * width < 2 ^ 32 ->
  element_address base k width = Ok (base + k * width).
Proof.
  intros Hb Hk Hw Hlt. unfold element_address, checked_mul_u, checked_add_u.
  rewrite (proj2 (Z.ltb_lt (k * width) _)) by nia. cbn [ok_or obind]. by rewrite (proj2 (Z.ltb_lt _ _)).
Qed.

(** The context a comparison is entered with. *)
Definition comparing (saved : CpuContext) (callback left_ right_ : Z) : CpuContext :=
  CpuContext.set_reg RA CALLBACK_RETURN_PC
    (CpuContext.set_reg (A0_ + 1) right_ (CpuContext.set_reg A0_ left_ (saved <| pc := callback |>))).

Lemma comparing_ok saved callback l r : ctx_ok saved -> u32 callback -> u32 l -> u32 r ->
  ctx_ok (comparing saved callback l r).
Proof. intros Hs Hc Hl Hr. do 3 (apply set_reg_ok; [|done || range_lit]). by apply set_pc_ok. Qed.

Lemma comparing_arguments saved callback l r : length (registers saved) = 32%nat ->
  CpuContext.argument 0 (comparing saved callback l r) = l /\ CpuContext.argument 1 (comparing saved callback l r) = r.
Proof.
  intros Hl. unfold comparing, CpuContext.argument.
  split; by rewrite !reg_set_reg by (rewrite ?length_set_reg; change (registers (saved <| pc := callback |>)) with (registers saved); rewrite Hl; cbv; lia).
Qed.

Lemma prepare_runs o l r (w : World) :
  lo_calls o < libc_callback_calls (limits (hle w)) <= U32_MAX -> comparison (lo_kind o) = Ok (l, r) ->
  prepare_libc_comparison o w =
    (Ok (o <| lo_calls := lo_calls o + 1 |>), w <| ctx := comparing (saved_context o) (lo_callback o) l r |>).
Proof.
  intros Hc Hk. unfold prepare_libc_comparison. rewrite (bind_ok (gets _) _ _ _ _ eq_refl), (proj2 (Z.leb_gt _ _)) by lia.
  assert (lift (expect (checked_add_u 32 (lo_calls o) 1)) w = (Ok (lo_calls o + 1), w)) as Ea.
  { unfold lift, checked_add_u. rewrite (proj2 (Z.ltb_lt _ _)); [done|]. unfold U32_MAX in Hc. lia. }
  by rewrite (bind_ok _ _ _ _ _ Ea), Hk.
Qed.

(** A result that asks for another comparison, and one that completes the operation. *)
Lemma resume_goes_on (w w1 : World) o kind l r :
  libc_operation (hle w) = Some o ->
  advance_libc (to_i 32 (CpuContext.reg V0 (ctx w))) (lo_kind o) (w <| hle := (hle w) <| libc_operation := None |> |>) = (Ok (inl kind), w1) ->
  lo_calls o < libc_callback_calls (limits (hle w1)) <= U32_MAX -> comparison kind = Ok (l, r) ->
  resume_libc_callback w = (Ok (mkHleOutcome 10 Call),
    w1 <| ctx := comparing (saved_context o) (lo_callback o) l r |>
       <| hle := suspend (o <| lo_kind := kind |> <| lo_calls := lo_calls o + 1 |>) (hle w1) |>).
Proof.
  intros Ho Ea Hc Hk. unfold resume_libc_callback. rewrite (bind_ok (asks _) _ _ _ _ eq_refl), (bind_ok (gets _) _ _ _ _ eq_refl), Ho.
  rewrite (bind_ok (updates _) _ _ _ _ eq_refl), (bind_ok _ _ _ _ _ Ea).
  pose proof (prepare_runs (o <| lo_kind := kind |>) l r w1) as P. by rewrite (bind_ok _ _ _ _ _ (P Hc Hk)).
Qed.

Lemma resume_completes (w w1 : World) o value :
  libc_operation (hle w) = Some o ->
  advance_libc (to_i 32 (CpuContext.reg V0 (ctx w))) (lo_kind o) (w <| hle := (hle w) <| libc_operation := None |> |>) = (Ok (inr value), w1) ->
  resume_libc_callback w = (Ok (mkHleOutcome 10 Return),
    w1 <| ctx := CpuContext.return_to_caller (from_option (fun v => CpuContext.return_value v (saved_context o)) (saved_context o) value) |>).
Proof.
  intros Ho Ea. unfold resume_libc_callback. rewrite (bind_ok (asks _) _ _ _ _ eq_refl), (bind_ok (gets _) _ _ _ _ eq_refl), Ho.
  rewrite (bind_ok (updates _) _ _ _ _ eq_refl), (bind_ok _ _ _ _ _ Ea). by destruct value.
Qed.

(** ** The array under way *)

Section qsort.
Context (kept : Z -> Prop) (cmp : list Z -> list Z -> Z) (w0 : World) (base elements width callback : Z).

Definition element (m : M) (k : Z) : list Z := bytes_at m width (base + k * width).

Definition array_of (m : M) : list (list Z) := map (fun k => element m (Z.of_nat k)) (seq 0 (Z.to_nat elements)).

(** What a caller of qsort hands over. *)
Record sortable : Prop := {
  sr_world : world_ok w0;
  sr_window : window (mem w0) base (base + elements * width);
  sr_sizes : 2 <= elements < 2 ^ 32 /\ 0 < width /\ base + elements * width < 2 ^ 32;
  sr_callback : u32 callback;
  sr_comparator : comparator callback width kept cmp;
  sr_kept a c : base <= a < base + elements * width -> locate (mem w0) a = Some c -> kept c;
  sr_total x y : 0 < cmp x y -> cmp y x <= 0;
  sr_trans x y z : cmp x y <= 0 -> cmp y z <= 0 -> cmp x z <= 0;
  sr_calls : elements * (elements - 1) <= 2 * libc_callback_calls (limits (hle w0));
  sr_free : libc_operation (hle w0) = None;
}.

(** In order up to [outer], the element at [inner] not yet compared with those before it. *)
Definition sorted_upto (e : Z -> list Z) (outer inner : Z) : Prop :=
  forall i j, 0 <= i < j -> j <= outer -> j <> inner -> cmp (e i) (e j) <= 0.

(** The memory while the elements move about. *)
Record arranged (m : M) : Prop := {
  ar_good : good_mem m;
  ar_locate a : locate m a = locate (mem w0) a;
  ar_outside c : kept c -> (forall a, base <= a < base + elements * width -> locate (mem w0) a <> Some c) ->
    cell_of m c = cell_of (mem w0) c;
  ar_permuted : array_of m ≡ₚ array_of (mem w0);
}.

Context (Hs : sortable).

Lemma sorted_next e outer inner : 1 <= inner <= outer ->
  sorted_upto e outer inner -> cmp (e (inner - 1)) (e inner) <= 0 -> sorted_upto e (outer + 1) (outer + 1).
Proof.
  intros Hi He Hc i j Hij Hj Hne. destruct (decide (j = inner)) as [->|]; [|apply He; lia].
  destruct (decide (i = inner - 1)) as [->|]; [done|]. eapply (sr_trans Hs); [|exact Hc]. apply He; lia.
Qed.

Lemma sorted_swap e e' outer inner : 1 <= inner <= outer ->
  sorted_upto e outer inner -> 0 < cmp (e (inner - 1)) (e inner) ->
  e' (inner - 1) = e inner -> e' inner = e (inner - 1) -> (forall k, 0 <= k <= outer -> k <> inner - 1 -> k <> inner -> e' k = e k) ->
  sorted_upto e' outer (inner - 1).
Proof.
  intros Hi He Hc E1 E2 E i j Hij Hj Hne. pose proof (sr_total Hs _ _ Hc) as Hc'.
  destruct (decide (j = inner)) as [->|N1].
  - rewrite E2. destruct (decide (i = inner - 1)) as [->|N2]; [by rewrite E1|]. rewrite E by lia. apply He; lia.
  - rewrite (E j) by lia. destruct (decide (i = inner - 1)) as [->|N2]; [rewrite E1; apply He; lia|].
    destruct (decide (i = inner)) as [->|N3]; [rewrite E2; apply He; lia|]. rewrite E by lia. apply He; lia.
Qed.

Lemma sorted_front e outer : sorted_upto e outer 0 -> sorted_upto e (outer + 1) (outer + 1).
Proof. intros He i j Hij Hj Hne. apply He; lia. Qed.

Lemma element_u (k : Z) : 0 <= k < elements ->
  base <= base + k * width /\ base + k * width + width <= base + elements * width.
Proof. destruct (sr_sizes Hs) as (? & ? & ?). nia. Qed.

(** What the comparator sees, and what it leaves of the array. *)
Lemma guest_keeps c m a : base <= a < base + elements * width -> arranged m ->
  byte_at (guest c m).2 a = byte_at m a.
Proof.
  intros Ha Har. unfold byte_at. rewrite (co_locate _ _ _ _ (sr_comparator Hs)).
  destruct (locate m a) as [x|] eqn:E; [|done]. cbn. apply (co_kept _ _ _ _ (sr_comparator Hs)).
  apply (sr_kept Hs a); [done|]. by rewrite <- (ar_locate _ Har).
Qed.

Lemma guest_element c m k : 0 <= k < elements -> arranged m -> element (guest c m).2 k = element m k.
Proof.
  intros Hk Har. pose proof (element_u k Hk). apply bytes_at_ext. intros i Hi. apply guest_keeps; [lia|done].
Qed.

Lemma array_ext m m' : (forall k, 0 <= k < elements -> element m' k = element m k) -> array_of m' = array_of m.
Proof. intros E. apply map_ext_in. intros k Hk%in_seq. apply E. lia. Qed.

Lemma arranged_guest c m : ctx_ok c -> arranged m -> arranged (guest c m).2.
Proof.
  intros Hc Har. pose proof (sr_comparator Hs) as Hco. constructor.
  - by apply (co_context _ _ _ _ Hco); [|apply ar_good].
  - intros a. by rewrite (co_locate _ _ _ _ Hco), (ar_locate _ Har).
  - intros x Hx Hout. by rewrite (co_kept _ _ _ _ Hco), (ar_outside _ Har).
  - rewrite (array_ext m); [apply Har|]. intros k Hk. by apply guest_element.
Qed.

Lemma arranged_window m : arranged m -> window m base (base + elements * width).
Proof. intros Har. eapply window_ext; [apply Har|apply Hs]. Qed.

(** One exchange of neighbours. *)
Lemma exchange_runs inner (w : World) : 1 <= inner < elements -> arranged (mem w) ->
  exists w', for_range (Z.to_nat width) 0 (swap_byte (base + (inner - 1) * width) (base + inner * width)) w = (Ok tt, w') /\
    w' = w <| mem := mem w' |> /\ arranged (mem w') /\
    element (mem w') (inner - 1) = element (mem w) inner /\ element (mem w') inner = element (mem w) (inner - 1) /\
    forall k, 0 <= k < elements -> k <> inner - 1 -> k <> inner -> element (mem w') k = element (mem w) k.
Proof.
  intros Hi Har. destruct (sr_sizes Hs) as (Z1 & Z2 & Z3).
  pose proof (element_u (inner - 1) ltac:(lia)) as B1. pose proof (element_u inner ltac:(lia)) as B2.
  destruct (swap_bytes_runs base (base + elements * width) (base + (inner - 1) * width) (base + inner * width) width w)
    as (w' & E & T & F); [by apply arranged_window|apply Har|lia..|].
  exists w'. split; [done|]. split; [apply T|].
  assert (element (mem w') (inner - 1) = element (mem w) inner) as E1.
  { apply bytes_at_ext. intros i Hi'. rewrite F by lia.
    destruct (Z.leb_spec (base + (inner - 1) * width) (base + (inner - 1) * width + i)),
      (Z.ltb_spec (base + (inner - 1) * width + i) (base + (inner - 1) * width + width)); try lia. cbn [andb]. f_equal. lia. }
  assert (element (mem w') inner = element (mem w) (inner - 1)) as E2.
  { apply bytes_at_ext. intros i Hi'. rewrite F by lia.
    destruct (Z.ltb_spec (base + inner * width + i) (base + (inner - 1) * width + width)); [lia|].
    rewrite andb_false_r, (proj2 (Z.leb_le _ _)), (proj2 (Z.ltb_lt _ _)) by lia. cbn [andb]. f_equal. lia. }
  assert (forall k, 0 <= k < elements -> k <> inner - 1 -> k <> inner -> element (mem w') k = element (mem w) k) as E3.
  { intros k Hk N1 N2. pose proof (element_u k Hk). apply bytes_at_ext. intros i Hi'. rewrite F by lia.
    assert (k + 1 <= inner - 1 \/ inner + 1 <= k) as [Hlt|Hlt] by lia; apply (Z.mul_le_mono_nonneg_r _ _ width) in Hlt; try lia;
    by destruct (Z.leb_spec (base + (inner - 1) * width) (base + k * width + i)), (Z.ltb_spec (base + k * width + i) (base + (inner - 1) * width + width)),
      (Z.leb_spec (base + inner * width) (base + k * width + i)), (Z.ltb_spec (base + k * width + i) (base + inner * width + width)); try lia. }
  split_and!; try done. constructor.
  - apply T.
  - intros a. rewrite (td_locate _ _ _ _ (mt_touched _ _ _ _ T)). apply Har.
  - intros c Hc Hout. rewrite (td_outside _ _ _ _ (mt_touched _ _ _ _ T)); [by apply Har|]. intros a Ha. rewrite (ar_locate _ Har). by apply Hout.
  - rewrite <- (ar_permuted _ Har). apply (swap_neighbours _ _ _ (Z.to_nat (inner - 1))); [lia|..].
    + rewrite Nat2Z.inj_succ, Z2Nat.id by lia. replace (Z.succ (inner - 1)) with inner by lia. done.
    + rewrite Nat2Z.inj_succ, Z2Nat.id by lia. replace (Z.succ (inner - 1)) with inner by lia. done.
    + intros k Hk N1 N2. apply E3; lia.
Qed.

(** A comparison under way. *)
Record waiting (w : World) (outer inner calls : Z) : Prop := {
  wt_hle : hle w = suspend (mkLibcOperation (ctx w0) callback calls (Qsort base elements width outer inner)) (hle w0);
  wt_ctx : ctx w = comparing (ctx w0) callback (base + (inner - 1) * width) (base + inner * width);
  wt_tty : tty w = tty w0;
  wt_memory : arranged (mem w);
  wt_index : 1 <= inner <= outer /\ outer < elements;
  wt_sorted : sorted_upto (element (mem w)) outer inner;
  wt_calls : 1 <= calls /\ 2 * calls + 2 * (inner - 1) <= outer * (outer + 1);
}.

(** The outcome of a comparison: the next place to compare at, or the end. *)
Lemma qsort_advances (w : World) outer inner :
  1 <= inner <= outer -> outer < elements -> arranged (mem w) -> sorted_upto (element (mem w)) outer inner ->
  exists outer' inner' w',
    advance_libc (cmp (element (mem w) (inner - 1)) (element (mem w) inner)) (Qsort base elements width outer inner) w =
      (Ok (if elements <=? outer' then inr None else inl (Qsort base elements width outer' inner')), w') /\
    w' = w <| mem := mem w' |> /\ arranged (mem w') /\ sorted_upto (element (mem w')) outer' inner' /\
    1 <= inner' <= outer' /\ outer' <= elements /\ (outer' = elements -> inner' = elements) /\
    2 * (inner' - 1) + outer * (outer + 1) + 2 <= outer' * (outer' + 1) + 2 * (inner - 1).
Proof.
  intros Hi Ho Har He. destruct (sr_sizes Hs) as (Z1 & Z2 & Z3). set (r := cmp _ _).
  pose proof (element_u (inner - 1) ltac:(lia)) as B1. pose proof (element_u inner ltac:(lia)) as B2.
  assert (0 <= base) as B0 by apply (wd_bounds _ _ _ (sr_window Hs)).
  assert (saturating_u 32 (outer + 1) = outer + 1) as Esat by (unfold saturating_u; lia).
  unfold advance_libc. destruct (Z.ltb_spec 0 r) as [Hr|Hr].
  - rewrite Z.max_r, !element_address_at by lia.
    destruct (exchange_runs inner w ltac:(lia) Har) as (w' & E & Ew & Har' & E1 & E2 & E3).
    rewrite (bind_ok _ _ w (inner - 1) w') by (do 2 (rewrite (bind_ok (lift (Ok _)) _ _ _ _ eq_refl)); by rewrite (bind_ok _ _ _ _ _ E)).
    rewrite (proj2 (Z.leb_gt r 0)) by lia. cbn [orb]. rewrite Esat.
    assert (sorted_upto (element (mem w')) outer (inner - 1)) as He'.
    { apply (sorted_swap (element (mem w)) _ outer inner ltac:(lia) He Hr E1 E2). intros k Hk N1 N2. apply E3; lia. }
    destruct (Z.eqb_spec (inner - 1) 0) as [Hz|Hz].
    + exists (outer + 1), (outer + 1), w'. rewrite Hz in He'. split_and!; try done; try lia. by apply sorted_front.
    + exists outer, (inner - 1), w'. split_and!; try done; lia.
  - rewrite (bind_ok (ret inner) _ _ _ _ eq_refl), (proj2 (Z.leb_le r 0)) by lia. cbn [orb]. rewrite Esat.
    exists (outer + 1), (outer + 1), w. split_and!; try done; try lia; [by destruct w|]. by apply (sorted_next _ outer inner).
Qed.

Lemma suspend_over o b : libc_operation b = None -> (suspend o b) <| libc_operation := None |> = b.
Proof. destruct b. cbn. by intros ->. Qed.

(** The comparator's answer in a waiting world is that of the elements at [inner]. *)
Lemma waiting_answer (w : World) outer inner calls c m :
  waiting w outer inner calls -> guest (ctx w) (mem w) = (c, m) ->
  ctx_ok c /\ arranged m /\ (forall k, 0 <= k < elements -> element m k = element (mem w) k) /\
  to_i 32 (CpuContext.reg V0 c) = cmp (element m (inner - 1)) (element m inner).
Proof.
  intros [W1 W2 W3 W4 W5 W6 W7] Eg. pose proof (sr_comparator Hs) as Hco. destruct (sr_sizes Hs) as (Z1 & Z2 & Z3).
  pose proof (element_u (inner - 1) ltac:(lia)) as B1. pose proof (element_u inner ltac:(lia)) as B2.
  assert (0 <= base) as B0 by apply (wd_bounds _ _ _ (sr_window Hs)).
  pose proof (wo_ctx _ (sr_world Hs)) as Hc0. pose proof (sr_callback Hs) as Hcb.
  assert (ctx_ok (ctx w)) as Hc by (rewrite W2; apply comparing_ok; [done|done|unfold in_u; lia..]).
  destruct (comparing_arguments (ctx w0) callback (base + (inner - 1) * width) (base + inner * width)) as [A1 A2]; [apply Hc0|].
  pose proof (co_context _ _ _ _ Hco (ctx w) (mem w) Hc (ar_good _ W4)) as Hctx.
  pose proof (co_answer _ _ _ _ Hco (ctx w) (mem w) Hc (ar_good _ W4)) as Ha.
  pose proof (arranged_guest _ _ Hc W4) as Har.
  pose proof (fun k Hk => guest_element (ctx w) (mem w) k Hk W4) as Hel.
  rewrite Eg in *. cbn [fst snd] in *. split_and!; [by destruct Hctx|done|done|].
  rewrite !Hel by lia. rewrite Ha; [by rewrite W2, A1, A2|]. by rewrite W2.
Qed.

(** The end of the sort. *)
Record sorted_world (w : World) : Prop := {
  sw_ctx : ctx w = CpuContext.return_to_caller (ctx w0);
  sw_hle : hle w = hle w0;
  sw_tty : tty w = tty w0;
  sw_memory : arranged (mem w);
  sw_sorted i j : 0 <= i < j -> j < elements -> cmp (element (mem w) i) (element (mem w) j) <= 0;
}.

Lemma limit_u32 : libc_callback_calls (limits (hle w0)) <= U32_MAX.
Proof. destruct (hle_limits _ (wo_hle _ (sr_world Hs))) as [_ Hl]. unfold in_u, U32_MAX in *. lia. Qed.

(** Each answer of the comparator leads to another comparison, of which there are only so
    many, or to the end. *)
Lemma waiting_steps (w : World) outer inner calls c m :
  waiting w outer inner calls -> guest (ctx w) (mem w) = (c, m) ->
  exists w', (resume_libc_callback (w <| ctx := c |> <| mem := m |>) = (Ok (mkHleOutcome 10 Return), w') /\ sorted_world w') \/
    (resume_libc_callback (w <| ctx := c |> <| mem := m |>) = (Ok (mkHleOutcome 10 Call), w') /\
     exists outer' inner', waiting w' outer' inner' (calls + 1)).
Proof.
  intros Hw Eg. destruct (waiting_answer _ _ _ _ _ _ Hw Eg) as (Hc & Har & Hel & Ha). destruct Hw as [W1 W2 W3 W4 W5 W6 W7].
  destruct (sr_sizes Hs) as (Z1 & Z2 & Z3). pose proof (sr_calls Hs) as Hcalls. pose proof limit_u32 as Hlim.
  set (w1 := w <| ctx := c |> <| mem := m |>). set (o := mkLibcOperation (ctx w0) callback calls (Qsort base elements width outer inner)) in *.
  assert (libc_operation (hle w1) = Some o) as Eo by (change (hle w1) with (hle w); by rewrite W1).
  set (w2 := w1 <| hle := (hle w1) <| libc_operation := None |> |>).
  assert (hle w2 = hle w0) as Eh.
  { change (hle w2) with ((hle w) <| libc_operation := None |>). rewrite W1. apply suspend_over, Hs. }
  destruct (qsort_advances w2 outer inner) as (o' & i' & w3 & E & Ew3 & Har3 & He3 & Hi3 & Ho3 & Hend & Hmeas); [lia|lia|done| |].
  { intros i j Hij Hj Hne. change (mem w2) with m. rewrite !Hel by lia. by apply W6. }
  change (mem w2) with m in E. rewrite <- Ha in E. change (CpuContext.reg V0 c) with (CpuContext.reg V0 (ctx w1)) in E.
  destruct (Z.leb_spec elements o') as [Hle|Hlt].
  - eexists. left. split; [exact (resume_completes w1 w3 o None Eo E)|]. constructor; try done.
    + cbn. rewrite Ew3. exact Eh.
    + cbn. rewrite Ew3. exact W3.
    + intros i j Hij Hj. apply He3; lia.
  - assert (hle w3 = hle w0) as Eh3 by (rewrite Ew3; exact Eh).
    assert (comparison (Qsort base elements width o' i') = Ok (base + (i' - 1) * width, base + i' * width)) as Ek.
    { pose proof (element_u (i' - 1) ltac:(lia)). pose proof (element_u i' ltac:(lia)).
      pose proof (wd_bounds _ _ _ (sr_window Hs)). cbn [comparison]. rewrite Z.max_r by lia. by rewrite !element_address_at by lia. }
    assert (o' * (o' + 1) <= (elements - 1) * elements) by (apply Z.mul_le_mono_nonneg; lia).
    assert (lo_calls o < libc_callback_calls (limits (hle w3)) <= U32_MAX) as Hless by (rewrite Eh3; cbn; lia).
    pose proof (resume_goes_on w1 w3 o _ _ _ Eo E Hless Ek) as P.
    eexists. right. split; [exact P|]. exists o', i'. constructor; try done; try lia.
    + cbn. by rewrite Eh3.
    + cbn. rewrite Ew3. exact W3.
Qed.

Lemma waiting_ends fuel (w : World) outer inner calls :
  waiting w outer inner calls -> elements * (elements - 1) < 2 * (calls + Z.of_nat fuel) ->
  exists w', drive fuel w = Some (Ok (mkHleOutcome 10 Return), w') /\ sorted_world w'.
Proof.
  revert w outer inner calls. induction fuel as [|fuel IH]; intros w outer inner calls Hw Hf.
  - destruct (wt_calls _ _ _ _ Hw) as [C1 C2]. destruct (wt_index _ _ _ _ Hw) as [I1 I2].
    assert (outer * (outer + 1) <= (elements - 1) * elements) by (apply Z.mul_le_mono_nonneg; lia). lia.
  - cbn [drive]. destruct (guest (ctx w) (mem w)) as [c m] eqn:Eg.
    destruct (waiting_steps _ _ _ _ _ _ Hw Eg) as (w' & [[E Hend]|(E & o' & i' & Hw')]); rewrite E; cbn [ho_action].
    + rewrite decide_False by done. by exists w'.
    + rewrite decide_True by done. apply (IH w' o' i' (calls + 1)); [done|lia].
Qed.

Lemma find_qsort : find_service (A0, 0x31) (services (M := M)) = Some (starts start_qsort).
Proof. reflexivity. Qed.

Lemma dispatch_starts v f p (w w' : World) :
  wrap 8 (CpuContext.reg T1 (ctx w)) = f -> find_service (v, f) services = Some (starts p) ->
  p w = (Ok true, w') -> dispatch v w = (Ok (mkHleOutcome 12 Call), w').
Proof.
  intros Hf Hfs Hp. unfold dispatch, bind at 1 2 3, asks at 1 2. cbn [fst snd]. rewrite Hf, Hfs.
  unfold starts. by rewrite (bind_ok _ _ _ _ _ Hp).
Qed.

Lemma start_runs kind l r (w : World) :
  libc_operation (hle w) = None -> 0 < libc_callback_calls (limits (hle w)) <= U32_MAX -> comparison kind = Ok (l, r) ->
  start_libc_operation callback kind w = (Ok tt, w <| ctx := comparing (ctx w) callback l r |>
    <| hle := suspend (mkLibcOperation (ctx w) callback 1 kind) (hle w) |>).
Proof.
  intros Hn Hc Hk. unfold start_libc_operation. rewrite (bind_ok (gets _) _ _ _ _ eq_refl), Hn.
  rewrite (bind_ok (asks _) _ _ _ _ eq_refl). pose proof (prepare_runs (mkLibcOperation (ctx w) callback 0 kind) l r w) as P.
  by rewrite (bind_ok _ _ _ _ _ (P Hc Hk)).
Qed.

Lemma check_array_ok (w : World) :
  0 <= base -> 0 <= elements -> 0 <= width -> base + elements * width < 2 ^ 32 ->
  elements * width <= memory_operation_bytes (limits (hle w)) ->
  check_array base elements width w = (Ok tt, w).
Proof.
  intros Hb He Hw Hh Hl. unfold check_array.
  assert (checked_mul elements width w = (Ok (elements * width), w)) as Em.
  { unfold checked_mul, lift, checked_mul_u. by rewrite (proj2 (Z.ltb_lt _ _)) by lia. }
  by rewrite (bind_ok _ _ _ _ _ Em), (bind_ok _ _ _ _ _ (check_size_ok _ w Hl)), (bind_ok _ _ _ _ _ (checked_add_ok _ _ w Hh)).
Qed.

Lemma qsort_starts :
  CpuContext.argument 0 (ctx w0) = base -> CpuContext.argument 1 (ctx w0) = elements ->
  CpuContext.argument 2 (ctx w0) = width -> CpuContext.argument 3 (ctx w0) = callback ->
  elements * width <= memory_operation_bytes (limits (hle w0)) ->
  exists w1, start_qsort w0 = (Ok true, w1) /\ waiting w1 1 1 1.
Proof.
  intros E0 E1 E2 E3 Hl. destruct (sr_sizes Hs) as (Z1 & Z2 & Z3). pose proof (wd_bounds _ _ _ (sr_window Hs)) as B.
  pose proof limit_u32 as Hlim. pose proof (sr_calls Hs).
  unfold start_qsort, argument. do 3 (rewrite (bind_ok (asks _) _ _ _ _ eq_refl)). rewrite E0, E1, E2.
  rewrite (bind_ok _ _ _ _ _ (check_array_ok w0 ltac:(lia) ltac:(lia) ltac:(lia) Z3 Hl)).
  rewrite (proj2 (Z.ltb_ge elements 2)), (proj2 (Z.eqb_neq width 0)) by lia. cbn [orb].
  rewrite (bind_ok (asks _) _ _ _ _ eq_refl), E3.
  assert (comparison (Qsort base elements width 1 1) = Ok (base + (1 - 1) * width, base + 1 * width)) as Ek.
  { cbn [comparison]. rewrite Z.max_r by lia. by rewrite !element_address_at by nia. }
  pose proof (start_runs (Qsort base elements width 1 1) _ _ w0 (sr_free Hs) ltac:(nia) Ek) as P.
  rewrite (bind_ok _ _ _ _ _ P). eexists. split; [reflexivity|]. constructor; try done; try lia.
  - constructor; try done. apply (sr_world Hs).
  - intros i j Hij Hj Hne. lia.
Qed.
End qsort.

(** C6: Sorting: when the comparator answers a total preorder of the elements, a call of
    qsort returns to its caller after at most [elements * (elements - 1) / 2] comparisons,
    with the elements a permutation of what they were, in order; the firmware's state is
    as before the call, and of the memory the comparator leaves alone nothing outside the
    array changed. *)
Theorem qsort_sorts kept cmp (w : World) base elements width callback :
  sortable kept cmp w base elements width callback ->
  wrap 8 (CpuContext.reg T1 (ctx w)) = 0x31 ->
  CpuContext.argument 0 (ctx w) = base -> CpuContext.argument 1 (ctx w) = elements ->
  CpuContext.argument 2 (ctx w) = width -> CpuContext.argument 3 (ctx w) = callback ->
  elements * width <= memory_operation_bytes (limits (hle w)) ->
  exists w1 w2, dispatch A0 w = (Ok (mkHleOutcome 12 Call), w1) /\
    drive (Z.to_nat (elements * (elements - 1) / 2)) w1 = Some (Ok (mkHleOutcome 10 Return), w2) /\
    ctx w2 = CpuContext.return_to_caller (ctx w) /\ hle w2 = hle w /\ tty w2 = tty w /\
    array_of base elements width (mem w2) ≡ₚ array_of base elements width (mem w) /\
    (forall i j, 0 <= i < j -> j < elements ->
       cmp (element base width (mem w2) i) (element base width (mem w2) j) <= 0) /\
    (forall c, kept c -> (forall a, base <= a < base + elements * width -> locate (mem w) a <> Some c) ->
       cell_of (mem w2) c = cell_of (mem w) c).
Proof.
  intros Hs Hf E0 E1 E2 E3 Hl. destruct (sr_sizes _ _ _ _ _ _ _ Hs) as (Z1 & Z2 & Z3).
  destruct (qsort_starts _ _ _ _ _ _ _ Hs E0 E1 E2 E3 Hl) as (w1 & Es & Hw).
  destruct (waiting_ends _ _ _ _ _ _ _ Hs (Z.to_nat (elements * (elements - 1) / 2)) w1 1 1 1 Hw) as (w2 & Ed & [S1 S2 S3 S4 S5]).
  { rewrite Z2Nat.id by (apply Z.div_pos; nia). pose proof (Z.div_mod (elements * (elements - 1)) 2). pose proof (Z.mod_pos_bound (elements * (elements - 1)) 2). lia. }
  exists w1, w2. split_and!; try done; [exact (dispatch_starts _ _ _ _ _ Hf find_qsort Es)|apply S4|apply S4].
Qed.
End sorting.

(** ** A sort at work *)

(** A comparator of single bytes, as the guest would write it. *)
Definition compare_bytes (c : CpuContext) (m : Buffer) : CpuContext * Buffer :=
  (CpuContext.return_to_caller (CpuContext.set_reg V0
     (of_i 32 (byte_at m (CpuContext.argument 0 c) - byte_at m (CpuContext.argument 1 c))) c), m).

Definition byte_order (x y : list Z) : Z := hd 0 x - hd 0 y.

Lemma ram_byte_u8 (m : Buffer) a : Buffer.bytes_ok m -> in_u 8 (byte_at m a).
Proof. intros Hm. unfold byte_at. cbn. destruct (Buffer.in_range m a); [by apply Buffer.cell_u8|range_lit]. Qed.

Lemma compare_bytes_ok callback : comparator compare_bytes callback 1 (fun _ => True) byte_order.
Proof.
  constructor; try done.
  - intros c m Hc Hm _. cbn in Hm. pose proof (ctx_registers _ Hc) as [Hl _]. unfold compare_bytes. cbn [fst].
    set (d := byte_at m _ - byte_at m _).
    change (to_i 32 (CpuContext.reg V0 (CpuContext.set_reg V0 (of_i 32 d) c)) = byte_order (bytes_at m 1 (CpuContext.argument 0 c)) (bytes_at m 1 (CpuContext.argument 1 c))).
    rewrite reg_set_reg by (rewrite Hl; cbv; lia). cbn [Nat.eqb V0].
    assert (forall a, hd 0 (bytes_at m 1 a) = byte_at m a) as Ehd.
    { intros a. change (byte_at m (a + 0) = byte_at m a). by rewrite Z.add_0_r. }
    unfold byte_order. rewrite !Ehd. fold d.
    pose proof (ram_byte_u8 m (CpuContext.argument 0 c) Hm). pose proof (ram_byte_u8 m (CpuContext.argument 1 c) Hm).
    apply to_i_of_i; [lia|]. unfold in_s, in_u in *. subst d. lia.
  - intros c m Hc Hm. split; [|done]. apply return_ok, set_reg_ok; [done|]. by apply in_u_of_i.
Qed.

Definition sort_world : World Buffer := world_with 0x31 [16; 3; 1; 0x4000] hle0 (ram_with 16 [3; 1; 2]).

Lemma sort_world_sortable : sortable compare_bytes (fun _ => True) byte_order sort_world 16 3 1 0x4000.
Proof.
  constructor; try done.
  - world_lit.
  - by apply ram_with_window.
  - apply compare_bytes_ok.
  - unfold byte_order. intros. lia.
  - unfold byte_order. intros. lia.
Qed.

Example qsort_sorts_witness :
  exists w1 w2, dispatch A0 sort_world = (Ok (mkHleOutcome 12 Call), w1) /\
    drive compare_bytes 3 w1 = Some (Ok (mkHleOutcome 10 Return), w2) /\
    array_of 16 3 1 (mem w2) ≡ₚ [[3]; [1]; [2]].
Proof.
  destruct (qsort_sorts compare_bytes (fun _ => True) byte_order sort_world 16 3 1 0x4000 sort_world_sortable)
    as (w1 & w2 & E & D & _ & _ & _ & P & _); [done..|vm_compute; discriminate|].
  exists w1, w2. exact (conj E (conj D P)).
Defined.

(** The sorted bytes, run. *)
Example sorted_bytes :
  match dispatch A0 sort_world with
  | (Ok _, w1) => match drive compare_bytes 3 w1 with Some (Ok _, w2) => array_of 16 3 1 (mem w2) | _ => [] end
  | _ => []
  end = [[1]; [2]; [3]].
Proof. vm_compute. reflexivity. Qed.
