(* ===== verification/Ps1Machine.v ===== *)
(** * The PSF1 machine: crates/machine/ps1/src/lib.rs

    [Ps1Machine] composes the processor, memory, devices, the firmware and the event queue.
    One step is one of: a resumed or completed callback, a default interrupt handler, a
    null call, a firmware call, an idle interval, or one instruction on the bus of
    [Ps1Bus]; then the devices advance by the cycles it took, at once or, while audio is
    being rendered, in intervals of up to 256 cycles.  The source's [audio_buffer] is scratch
    space of which only the part just rendered is read; it is a local value here.  The
    lines the firmware prints are kept in [console]. *)

From S2P Require Import Prelude Records MachineInt Clock Scheduler Buffer.
From S2P Require Import Ps1Bios Ps1BiosLibc.
From S2P Require Import Ps1Irq Ps1Timers PsfMetadata PsfLoad PsxExe Ps1Memory Ps1Dma Ps1Ports SpuCommon Ps1Reverb Ps1Spu.
From S2P Require Import R3000 R3000Exec Ps1Bus.

Definition AUDIO_CHUNK_FRAMES : Z := 256.
Definition DEVICE_SYNC_CYCLES : Z := 256.
Definition IDLE_ADVANCE_CYCLES : Z := 256.
Definition EVENT_SPEC_INTERRUPTED : Z := 0x2.
Definition EVENT_SPEC_COMMAND_COMPLETE : Z := 0x20.
Definition EVENT_SPEC_INTERRUPT : Z := 0x1000.
Definition EVENT_CLASS_SPU : Z := 0xf0000009.
Definition AKAO_DRIVER_EVENT_RETURN : Z := 0x8005b0d0.
Definition AKAO_DRIVER_EVENT_HANDLE : Z := 0xf1000001.
Definition AKAO_DRIVER_ARGUMENT_PRELOAD : Z := 0x800980bc.
Definition AKAO_DRIVER_SEQUENCE_CALL : Z := 0x800980c0.
Definition AKAO_DRIVER_SEQUENCE_DELAY : Z := 0x800980c4.

Record MachineConfig := mkMachineConfig { config_open_bus : OpenBusPolicy; config_trace_events : bool }.

Definition default_config : MachineConfig := mkMachineConfig Strict false.

Inductive MachineEvent :=
| Interrupt_event (source : InterruptSource)
| DmaComplete
| AudioFrames (frames : Z).

Inductive MachineStepKind :=
| Cpu_step (event : StepEvent)
| Bios_step (vector : BiosVector)
| Syscall_step (number : Z)
| CallbackReturn
| LibcCallback
| NullCall
| Halt_step
| Interrupt_step (source : InterruptSource)
| Idle_step.

Record MachineStep := mkMachineStep { ms_cycles : Z; ms_kind : MachineStepKind }.

Inductive MachineError :=
| Image (e : ImageError)
| Memory_failure (e : MemoryError)
| Cpu_failure (e : CpuError)
| Bios (vector : BiosVector) (function ra a0 a1 a2 a3 : Z) (source : BiosError)
| Gpu_failure (e : GpuError)
| BiosState (e : BiosError)
| CallbackCpuState
| Syscall_failure (number pc_ : Z) (source : BiosError)
| Timer (e : TimerError)
| Dma_failure (e : DmaError)
| Spu_failure (e : SpuError)
| MachineClockOverflow
| MachineOutputSize (expected actual : Z).

(** [impl From<ClockError>] *)
Definition from_clock (e : ClockError) : MachineError := MachineClockOverflow.

Record MachineState := mkMachineState {
  cpu : Cpu;
  memory : Ps1Memory;
  cdrom : CdRom;
  gpu : Gpu;
  mdec : Mdec;
  irq : InterruptController;
  timers : RootCounters;
  refresh : VBlankClock;
  hblank_clock : RateConverter;
  dma : DmaController;
  bios : BiosHle;
  spu : Spu;
  scheduler : Scheduler;
  now : Z;
  sample_clock : RateConverter;
  deferred_device_ticks : Z;
  pending_audio : list Z;
  discard_audio_frames : Z;
  callback_cpu : option Cpu;
  libc_cpu : option Cpu;
  interrupt_cpu : option Cpu;
  halted : bool;
  trace_events : bool;
  event_log : list MachineEvent;
  console : list (list Z);
}.

#[export] Instance MachineState_fields : Fields MachineState := fun m =>
  mkMachineState (cpu m) (memory m) (cdrom m) (gpu m) (mdec m) (irq m) (timers m) (refresh m)
    (hblank_clock m) (dma m) (bios m) (spu m) (scheduler m) (now m) (sample_clock m)
    (deferred_device_ticks m) (pending_audio m) (discard_audio_frames m) (callback_cpu m)
    (libc_cpu m) (interrupt_cpu m) (halted m) (trace_events m) (event_log m) (console m).

(** The firmware sees memory without the devices. *)
#[export] Instance bios_memory : GuestMemory Ps1Memory := {
  read_u8 a m := (map_err (fun e => mkGuestMemoryError (to_string e)) (Ps1Memory.read_u8 a m), m);
  write_u8 a v m := let (r, m) := Ps1Memory.write_u8 a v m in
                    (map_err (fun e => mkGuestMemoryError (to_string e)) r, m);
}.

(** Requests reach the controller, the firmware's list and, when traced, the log. *)
Record EventSink := mkEventSink {
  es_irq : InterruptController;
  es_trace : bool;
  es_events : list MachineEvent;
  es_requests : list InterruptSource;
}.

#[export] Instance event_sink : InterruptSink EventSink := fun s source =>
  mkEventSink (InterruptController.request (es_irq s) source) (es_trace s)
    (if es_trace s then es_events s ++ [Interrupt_event source] else es_events s)
    (es_requests s ++ [source]).

Definition bios_interrupt_events (source : InterruptSource) : list (Z * Z) :=
  match source with
  | Ps1Irq.VBlank => [(0xf0000001, EVENT_SPEC_INTERRUPT)]
  | Ps1Irq.Gpu => [(0xf0000002, EVENT_SPEC_INTERRUPT)]
  | Ps1Irq.CdRom => [(0xf0000003, EVENT_SPEC_INTERRUPT)]
  | Ps1Irq.Dma => [(0xf0000004, EVENT_SPEC_INTERRUPT)]
  | Ps1Irq.Timer0 => [(0xf0000005, EVENT_SPEC_INTERRUPT)]
  | Ps1Irq.Timer1 | Ps1Irq.Timer2 => [(0xf0000006, EVENT_SPEC_INTERRUPT)]
  | Ps1Irq.Controller => [(0xf0000008, EVENT_SPEC_INTERRUPT)]
  | Ps1Irq.Sio => [(0xf000000b, EVENT_SPEC_INTERRUPT)]
  | Ps1Irq.Spu => [(EVENT_CLASS_SPU, EVENT_SPEC_INTERRUPT)]
  | Ps1Irq.LightPen => [(0xf000000a, EVENT_SPEC_INTERRUPT)]
  end.

Definition bios_vector (p : Z) : option BiosVector :=
  let p := p .& 0x1fffffff in
  if p =? 0xa0 then Some A0 else if p =? 0xb0 then Some B0 else if p =? 0xc0 then Some C0 else None.

Definition register_or_zero (index : nat) (c : CpuContext) : Z := default 0 (CpuContext.register index c).

Definition cpu_context (c : Cpu) : CpuContext :=
  let context := CpuContext.reset (R3000.pc c) (default 0 (Cpu.register 29 c)) in
  let context := fold_left (fun context i =>
    (CpuContext.set_register i (default 0 (Cpu.register (Z.of_nat i) c)) context).2) (seq 0 32) context in
  Ps1Bios.mkCpuContext (Ps1Bios.registers context) (Ps1Bios.pc context) (R3000.hi c) (R3000.lo c).

Definition apply_context {E} (context : CpuContext) (c : Cpu) : outcome E Cpu :=
  let? c := fold_left (fun r iv =>
      let? c := r in
      let? (_, c) := Cpu.set_register (Z.of_nat iv.1) iv.2 c in Ok c)
    (zip (seq 0 (length (Ps1Bios.registers context))) (Ps1Bios.registers context)) (Ok c) in
  Ok (Cpu.set_pc (Ps1Bios.pc context) c).

Module Ps1Machine.

(** A step of the machine: a result and the state it leaves. *)
Notation step_of A := (MachineState -> outcome MachineError A * MachineState).

(** A service of the firmware on a context and the machine's memory. *)
Definition run_bios {A} (p : Ps1Bios.prog Ps1Memory A) (context : CpuContext) (m : MachineState)
    : outcome BiosError A * CpuContext * MachineState :=
  let (r, w) := p (mkWorld (bios m) context (memory m) (console m)) in
  (r, Ps1Bios.ctx w,
   m <| bios := Ps1Bios.hle w |> <| memory := Ps1Bios.mem w |> <| console := Ps1Bios.tty w |>).

Definition signal_event (class spec : Z) : step_of Z := fun m =>
  let (r, b) := Ps1Bios.signal_event class spec (bios m) in (map_err BiosState r, m <| bios := b |>).

Definition set_cpu (c : Cpu) (m : MachineState) : MachineState := m <| cpu := c |>.

(** [apply_context(&mut self.state.cpu, &context)] *)
Definition apply (context : CpuContext) : step_of unit := fun m =>
  let! (c, m) := (apply_context context (cpu m), m) in (Ok tt, set_cpu c m).

(** [from_plan] up to the snapshot; [weights] is a parameter of rendering only. *)
Definition load_cpu (image : ExecutableImage) : outcome MachineError Cpu :=
  let c := Cpu.with_load_delay_mode
    (mkResetProfile (PsxExe.pc image) 0x80000080 0xbfc00180 0 2) Interlocked in
  let c := Cpu.set_delay_slot_branch_mode SuppressWhenOuterTaken c in
  let c := Cpu.set_coprocessor2_mode Stub c in
  let c := Cpu.set_word_alignment_mode AlignDown c in
  let? (_, c) := Cpu.set_register 29 (PsxExe.sp image) c in Ok c.

Definition from_plan (plan : Psf1LoadPlan) (config : MachineConfig) : outcome MachineError MachineState :=
  let? image := map_err Image (ExecutableImage.from_plan plan) in
  let? mem := map_err Memory_failure (Ps1Memory.from_image image (config_open_bus config)) in
  let (r, w) := initialize_boot_memory
    (mkWorld (Ps1Bios.new default_limits) (CpuContext.reset 0 0) mem []) in
  let? _ := map_err BiosState r in
  let standard := match PsxExe.refresh image with Hz50 => Pal | Hz60 => Ntsc end in
  let? hblank := map_err from_clock (RateConverter.new CPU_HZ (VideoStandard.hblank_hz standard)) in
  let? samples := map_err from_clock (RateConverter.new CPU_HZ SAMPLE_RATE) in
  let? c := load_cpu image in
  Ok (mkMachineState c (Ps1Bios.mem w) CdRom.new Gpu.new Mdec.new InterruptController.new
        RootCounters.new (VBlankClock.new standard) hblank DmaController.new (Ps1Bios.hle w) Spu.new
        Scheduler.new 0 samples 0 [] 0 None None None false (config_trace_events config) [] (Ps1Bios.tty w)).

Definition restore_exception_status (m : MachineState) : Z * MachineState :=
  let x := R3000.cop0 (cpu m) in
  let s := R3000.status x in
  (R3000.epc x,
   m <| cpu := set_cop0 (Cop0.set_status ((s .& bnot 32 0x0f) .| (Z.shiftr s 2 .& 0x0f)) x) (cpu m) |>).

(** ** Devices *)

(** The sink a device is lent, and what it leaves: requests collected so far, the machine. *)
Definition collected : Type := list InterruptSource * MachineState.

Definition lend_sink (s : collected) : EventSink :=
  mkEventSink (irq s.2) (trace_events s.2) (event_log s.2) s.1.

Definition take_sink (k : EventSink) (m : MachineState) : collected :=
  (es_requests k, m <| irq := es_irq k |> <| event_log := es_events k |>).

Definition advance_timers (input : ClockInput) (ticks : Z) (s : collected)
    : outcome MachineError unit * collected :=
  let '(r, (t, k)) := RootCounters.advance (timers s.2) input ticks (lend_sink s) in
  (map_err Timer r, take_sink k (s.2 <| timers := t |>)).

Definition advance_hblank (ticks : Z) (s : collected) : outcome MachineError Z * collected :=
  let (r, h) := RateConverter.advance (hblank_clock s.2) ticks in
  (map_err from_clock r, (s.1, s.2 <| hblank_clock := h |>)).

Definition advance_refresh (ticks : Z) (s : collected) : outcome MachineError Z * collected :=
  let '(r, (v, k)) := VBlankClock.advance (refresh s.2) ticks (lend_sink s) in
  (map_err Timer r, take_sink k (s.2 <| refresh := v |>)).

Definition log (e : MachineEvent) (m : MachineState) : MachineState :=
  if trace_events m then m <| event_log := event_log m ++ [e] |> else m.

Definition is_hooked (m : MachineState) : bool := bool_decide (is_Some (interrupt_hook (bios m))).

(** [state.bios.signal_event(..)?] when no hook is installed. *)
Definition signal_unhooked (class spec : Z) (m : MachineState) : outcome MachineError unit * MachineState :=
  if is_hooked m then (Ok tt, m)
  else let! (_n, m) := signal_event class spec m in (Ok tt, m).

(** The body of the loop over due completions. *)
Definition complete_event (event : DueEvent) (s : collected) : outcome MachineError unit * collected :=
  let s := (s.1, log DmaComplete s.2) in
  let '(r, (d, mem, p, k)) :=
    DmaController.complete event (dma s.2) (memory s.2) (spu s.2) (lend_sink s) in
  let s := take_sink k (s.2 <| dma := d |> <| memory := mem |> <| spu := p |>) in
  let! (_u, s) := (map_err Dma_failure r, s) in
  let (r, m) := signal_unhooked EVENT_CLASS_SPU EVENT_SPEC_COMMAND_COMPLETE s.2 in
  (r, (s.1, m)).

(** Each pass removes an event, so the queue's length bounds the passes. *)
Fixpoint complete_due (fuel : nat) (s : collected) : outcome MachineError unit * collected :=
  let (event, q) := Scheduler.pop_due (scheduler s.2) (now s.2) in
  let s := (s.1, s.2 <| scheduler := q |>) in
  match event with
  | None => (Ok tt, s)
  | Some event =>
      match fuel with
      | O => (Panic, s)
      | S fuel =>
          let! (_u, s) := complete_event event s in
          complete_due fuel s
      end
  end.

Section weights.
Context (weights : Z -> list Z).

(** Rendering in chunks; [fuel] bounds the chunks, which hold at least one frame. *)
Fixpoint render_chunks (fuel : nat) (frames : Z) : step_of unit := fun m =>
  if frames =? 0 then (Ok tt, m)
  else
    match fuel with
    | O => (Panic, m)
    | S fuel =>
        let chunk := Z.min frames AUDIO_CHUNK_FRAMES in
        let (r, p) := Spu.render weights chunk (chunk * 2) (spu m) in
        let m := m <| spu := p |> in
        let! (samples, m) := (map_err Spu_failure r, m) in
        let discarded := Z.min (Z.min frames (discard_audio_frames m)) chunk in
        let m := m <| discard_audio_frames := discard_audio_frames m - discarded |> in
        let m := m <| pending_audio := pending_audio m ++ drop (Z.to_nat (discarded * 2)) samples |> in
        render_chunks fuel (frames - chunk) m
    end.

Definition render_due_frames (frames : Z) : step_of unit :=
  render_chunks (Z.to_nat ((frames + AUDIO_CHUNK_FRAMES - 1) / AUDIO_CHUNK_FRAMES)) frames.

Definition advance_audio (ticks : Z) : step_of unit := fun m =>
  let (r, c) := RateConverter.advance (sample_clock m) ticks in
  let m := m <| sample_clock := c |> in
  let! (due_frames, m) := (map_err from_clock r, m) in
  if due_frames =? 0 then (Ok tt, m)
  else
    let! (_u, m) := render_due_frames due_frames m in
    (Ok tt, log (AudioFrames due_frames) m).

(** The events of every requested source, in order. *)
Fixpoint signal_all (events : list (Z * Z)) : step_of unit := fun m =>
  match events with
  | [] => (Ok tt, m)
  | (class, spec) :: events =>
      let! (_n, m) := signal_event class spec m in
      signal_all events m
  end.

Definition devices_due (synchronize : bool) (m : MachineState) : bool :=
  let scheduler_due := negb (Scheduler.is_empty (scheduler m)) &&
    match Scheduler.next_deadline (scheduler m) with Some d => d <=? now m | None => false end in
  negb (negb synchronize && negb scheduler_due && (deferred_device_ticks m <? DEVICE_SYNC_CYCLES)).

(** The devices over an interval that has elapsed. *)
Definition synchronize_collecting (ticks : Z) (s : collected) : outcome MachineError unit * collected :=
  let! (_u, s) := advance_timers System ticks s in
  let! (edges, s) := advance_hblank ticks s in
  let! (_u, s) := advance_timers HBlank edges s in
  let! (_e, s) := advance_refresh ticks s in
  let! (_u, s) := complete_due (Scheduler.len (scheduler s.2)) s in
  let (r, m) := advance_audio ticks s.2 in
  let! (_u, s) := (r, (s.1, m)) in
  let '(_, k, p) := Spu.drain_irq (lend_sink s) (spu s.2) in
  (Ok tt, take_sink k (s.2 <| spu := p |>)).

Definition synchronize_devices (ticks : Z) : step_of unit := fun m =>
  let (r, s) := synchronize_collecting ticks ([], m) in
  let! (_u, m) := (r, s.2) in
  if is_hooked m then (Ok tt, m) else signal_all (mbind bios_interrupt_events s.1) m.

Definition advance_devices (cycles : Z) (synchronize : bool) : step_of unit := fun m =>
  let! (time, m) := (map_err from_clock (Deadline.checked_advance (now m) cycles), m) in
  let m := m <| now := time |> in
  let! (deferred, m) := (ok_or (checked_add_u 64 (deferred_device_ticks m) cycles) MachineClockOverflow, m) in
  let m := m <| deferred_device_ticks := deferred |> in
  if devices_due synchronize m then
    synchronize_devices (deferred_device_ticks m) (m <| deferred_device_ticks := 0 |>)
  else (Ok tt, m).

(** Finishing a step that took [cycles]. *)
Definition finish (cycles : Z) (kind : MachineStepKind) (synchronize : bool) : step_of MachineStep := fun m =>
  let! (_u, m) := advance_devices cycles synchronize m in
  (Ok (mkMachineStep cycles kind), m).

(** ** Callbacks and interrupts *)

(** The processor at the address callbacks return to. *)
Definition step_callback_return (synchronize : bool) : step_of MachineStep := fun m =>
  if libc_callback_active (bios m) then
    let '(r, context, m) := run_bios resume_libc_callback (cpu_context (cpu m)) m in
    let! (outcome, m) := (map_err BiosState r, m) in
    let! (saved, m) := (ok_or (libc_cpu m) CallbackCpuState, m) in
    let! (c, m) := (apply_context context saved, m) in
    let m := set_cpu c m in
    let m := if bool_decide (ho_action outcome = Call) then m else m <| libc_cpu := None |> in
    finish (ho_cycles outcome) LibcCallback synchronize m
  else
    let '(r, _, m) := run_bios return_from_callback (cpu_context (cpu m)) m in
    let! (_u, m) := (map_err BiosState r, m) in
    let saved := callback_cpu m in
    let m := m <| callback_cpu := None |> in
    let! (saved, m) := (ok_or saved CallbackCpuState, m) in
    finish 1 CallbackReturn synchronize (set_cpu saved m).

Definition enter_interrupt_hook : step_of unit := fun m =>
  let saved := cpu m in
  let '(r, context, m) := run_bios prepare_interrupt_hook (cpu_context (cpu m)) m in
  let! (prepared, m) := (map_err BiosState r, m) in
  if (prepared : bool) then
    let m := m <| interrupt_cpu := Some saved |> in
    apply context m
  else (Ok tt, m).

(** The counters with a default handler, in the order they are tried. *)
Definition default_handlers : list (InterruptSource * nat) :=
  [(Ps1Irq.VBlank, 3%nat); (Ps1Irq.Timer2, 2%nat); (Ps1Irq.Timer1, 1%nat); (Ps1Irq.Timer0, 0%nat)].

Fixpoint try_handlers (handlers : list (InterruptSource * nat)) (pending : Z)
    : step_of (option InterruptSource) := fun m =>
  match handlers with
  | [] => (Ok None, m)
  | (source, counter) :: handlers =>
      if negb (has_bits pending (InterruptSource.bit source)) then try_handlers handlers pending m
      else
        let! (_n, m) := signal_event (0xf2000000 .| Z.of_nat counter) EVENT_SPEC_INTERRUPTED m in
        if bool_decide (clear_root_counter (bios m) !! counter = Some true) then
          (Ok (Some source), m <| irq := InterruptController.acknowledge (irq m) (bnot 16 (InterruptSource.bit source)) |>)
        else try_handlers handlers pending m
  end.

Definition handle_default_interrupt : step_of (option InterruptSource) := fun m =>
  try_handlers default_handlers (Ps1Irq.status (irq m) .& Ps1Irq.mask (irq m)) m.

Definition idle_cpus (m : MachineState) : bool :=
  bool_decide (interrupt_cpu m = None) && bool_decide (callback_cpu m = None) && bool_decide (libc_cpu m = None).

(** The interrupts and callbacks the firmware takes before an instruction: a default
    handler ends the step, a hook or a pending callback changes the context. *)
Definition take_interrupts : step_of (option InterruptSource) := fun m =>
  if idle_cpus m && interrupts_enabled (bios m) && InterruptController.pending (irq m) then
    let! (source, m) := handle_default_interrupt m in
    match source with
    | Some source => (Ok (Some source), m)
    | None => if is_hooked m then let! (_u, m) := enter_interrupt_hook m in (Ok None, m) else (Ok None, m)
    end
  else (Ok None, m).

Definition take_callbacks : step_of unit := fun m =>
  if interrupts_enabled (bios m) && bool_decide (interrupt_cpu m = None) && negb (callback_active (bios m)) then
    let (callback, b) := take_callback (bios m) in
    let m := m <| bios := b |> in
    match callback with
    | None => (Ok tt, m)
    | Some callback =>
        let saved := cpu m in
        let '(r, context, m) := run_bios (enter_callback callback) (cpu_context (cpu m)) m in
        let! (_u, m) := (map_err BiosState r, m) in
        let m := m <| callback_cpu := Some saved |> in
        apply context m
    end
  else (Ok tt, m).

(** [pc == 0 && read_u32(0)? == 0 && read_u32(4)? == 0] *)
Definition null_call (m : MachineState) : outcome MachineError bool :=
  if negb (R3000.pc (cpu m) =? 0) then Ok false
  else
    let? first := map_err Memory_failure (Ps1Memory.read_u32 0 (memory m)) in
    if negb (first =? 0) then Ok false
    else
      let? second := map_err Memory_failure (Ps1Memory.read_u32 4 (memory m)) in
      Ok (second =? 0).

Definition probe_idle_loop (m : MachineState) : outcome MachineError (bool * option Z) :=
  let p := R3000.pc (cpu m) in
  if negb (p .& 3 =? 0) then Ok (false, None)
  else
    let? instruction := map_err Memory_failure (Ps1Memory.read_u32 p (memory m)) in
    let branch_to_self := instruction =? 0x1000ffff in
    let jump_to_self := (Z.shiftr instruction 26 =? 2) &&
      ((wrap 32 (p + 4) .& 0xf0000000) .| shl 32 (instruction .& 0x03ffffff) 2 =? p) in
    if negb branch_to_self && negb jump_to_self then Ok (false, Some instruction)
    else
      let? delay := map_err Memory_failure (Ps1Memory.read_u32 (wrap 32 (p + 4)) (memory m)) in
      Ok (delay =? 0, Some instruction).

(** ** Firmware calls *)

Definition counter_source (index : Z) : InterruptSource :=
  if index =? 0 then Ps1Irq.Timer0 else if index =? 1 then Ps1Irq.Timer1
  else if index =? 2 then Ps1Irq.Timer2 else Ps1Irq.VBlank.

Definition counter_timer (index : Z) : option TimerId :=
  if index =? 0 then Some TTimer0 else if index =? 1 then Some TTimer1
  else if index =? 2 then Some TTimer2 else None.

Definition set_irq_mask (mask : Z) (m : MachineState) : MachineState :=
  m <| irq := InterruptController.set_mask (irq m) mask |>.

Definition write_timer (timer : TimerId) (register : TimerRegister) (value : Z) (m : MachineState) : MachineState :=
  m <| timers := RootCounters.write_register (timers m) timer register value |>.

(** SetRCnt: the target, then a mode that resets at it. *)
Definition root_counter_mode (timer : TimerId) (flags : Z) : Z :=
  let mode := Z.shiftl 1 3 .| match timer with TTimer2 => Z.shiftl 1 9 | _ => Z.shiftl 1 8 end in
  if has_bits flags 0x1000 then mode .| (Z.shiftl 1 4 .| Z.shiftl 1 6) else mode.

Definition apply_root_counter_bios_call (vector : BiosVector) (function : Z) (arguments : list Z)
    (context : CpuContext) (m : MachineState) : CpuContext * MachineState :=
  let argument i := nth i arguments 0 in
  if negb (bool_decide (vector = B0)) || negb (argument 0%nat .& 0xfffffffc =? 0xf2000000) then (context, m)
  else
    let index := wrap 8 (argument 0%nat) .& 3 in
    let bit := InterruptSource.bit (counter_source index) in
    match function, counter_timer index with
    | 0x02, Some timer =>
        (context, write_timer timer RMode (root_counter_mode timer (argument 2%nat))
                    (write_timer timer RTarget (wrap 16 (argument 1%nat)) m))
    | 0x03, Some timer =>
        let (counter, t) := RootCounters.read_register (timers m) timer RCounter in
        ((CpuContext.set_register V0 counter context).2, m <| timers := t |>)
    | 0x04, _ => (context, set_irq_mask (Ps1Irq.mask (irq m) .| bit) m)
    | 0x05, _ => (context, set_irq_mask (Ps1Irq.mask (irq m) .& bnot 16 bit) m)
    | 0x06, Some timer =>
        let m := write_timer timer RCounter 0 m in
        (context, m <| irq := InterruptController.acknowledge (irq m) (bnot 16 bit) |>)
    | _, _ => (context, m)
    end.

Definition read_ok (address : Z) (m : MachineState) : option Z :=
  match Ps1Memory.read_u32 address (memory m) with Ok v => Some v | _ => None end.

Definition akao_driver_sequence_argument (m : MachineState) : option Z :=
  preload ← read_ok AKAO_DRIVER_ARGUMENT_PRELOAD m;
  sequence_call ← read_ok AKAO_DRIVER_SEQUENCE_CALL m;
  sequence_delay ← read_ok AKAO_DRIVER_SEQUENCE_DELAY m;
  if (preload .& 0xffff0000 =? 0x3c040000) && (sequence_call =? 0x0220f809) && (sequence_delay =? 0x24050001)
  then Some (shl 32 (preload .& 0xffff) 16) else None.

Definition apply_driver_bios_return_quirks (vector : BiosVector) (function : Z) (context : CpuContext)
    (m : MachineState) : CpuContext :=
  if bool_decide (vector = B0) && (function =? 0x0c) &&
     bool_decide (CpuContext.register RA context = Some AKAO_DRIVER_EVENT_RETURN) &&
     bool_decide (CpuContext.register A0_ context = Some AKAO_DRIVER_EVENT_HANDLE)
  then match akao_driver_sequence_argument m with
       | Some argument => (CpuContext.set_register A0_ argument context).2
       | None => context
       end
  else context.

(** GPU_cw: the queued command goes to the port at once. *)
Definition gpu_command (argument : Z) (context : CpuContext) (m : MachineState)
    : outcome MachineError (CpuContext * HleOutcome) * MachineState :=
  let (result, g) := Gpu.synchronize (gpu m) in
  let (r, g) := Gpu.write_register GP0 argument g in
  let m := m <| gpu := g |> in
  let! (_u, m) := (map_err Gpu_failure r, m) in
  let context := (CpuContext.set_register V0 result context).2 in
  let context := Ps1Bios.mkCpuContext (Ps1Bios.registers context) (register_or_zero RA context)
                   (Ps1Bios.hi context) (Ps1Bios.lo context) in
  (Ok (context, mkHleOutcome 12 Return), m).

Definition call_bios (vector : BiosVector) (function : Z) (arguments : list Z) (context : CpuContext)
    (m : MachineState) : outcome MachineError (CpuContext * HleOutcome) * MachineState :=
  let '(r, context, m) := run_bios (dispatch vector) context m in
  (match r with
   | Ok outcome => Ok (context, outcome)
   | Err source => Err (Bios vector function (register_or_zero RA context) (nth 0 arguments 0)
                          (nth 1 arguments 0) (nth 2 arguments 0) (nth 3 arguments 0) source)
   | Panic => Panic
   end, m).

Definition after_call (action : HleAction) (saved : Cpu) (context : CpuContext) : step_of unit := fun m =>
  match action with
  | Call => apply context (m <| libc_cpu := Some saved |>)
  | Halt => apply context (m <| halted := true |>)
  | ReturnFromException =>
      match interrupt_cpu m with
      | Some saved => (Ok tt, set_cpu saved (m <| interrupt_cpu := None |>))
      | None =>
          let! (_u, m) := apply context m in
          let (epc, m) := restore_exception_status m in
          (Ok tt, set_cpu (Cpu.set_pc epc (cpu m)) m)
      end
  | _ => apply context m
  end.

Definition step_bios (vector : BiosVector) : step_of MachineStep := fun m =>
  let saved := cpu m in
  let context := cpu_context (cpu m) in
  let function := wrap 8 (register_or_zero T1 context) in
  let arguments := map (fun i => register_or_zero (4 + i) context) (seq 0 4) in
  let! (called, m) :=
    (if bool_decide (vector = A0) && (function =? 0x49)
     then gpu_command (nth 0 arguments 0) context m
     else call_bios vector function arguments context m) in
  let (context, m) := apply_root_counter_bios_call vector function arguments called.1 m in
  let context := apply_driver_bios_return_quirks vector function context m in
  let! (_u, m) := after_call (ho_action called.2) saved context m in
  finish (ho_cycles called.2) (Bios_step vector) true m.

Definition step_syscall (cpu_cycles : Z) : step_of MachineStep := fun m =>
  let at_ := R3000.epc (R3000.cop0 (cpu m)) in
  let context := cpu_context (cpu m) in
  let context := Ps1Bios.mkCpuContext (Ps1Bios.registers context) at_ (Ps1Bios.hi context) (Ps1Bios.lo context) in
  let number := register_or_zero A0_ context in
  let '(r, context, m) := run_bios (dispatch_syscall number) context m in
  let! (outcome, m) := (map_err (Syscall_failure number at_) r, m) in
  let! (_u, m) := apply context m in
  let (_, m) := restore_exception_status m in
  let! (cycles, m) := (ok_or (checked_add_u 32 cpu_cycles (ho_cycles outcome)) MachineClockOverflow, m) in
  finish cycles (Syscall_step number) true m.

(** ** Steps *)

Definition bios_region_of (v : VideoStandard) : Z := match v with Pal => 0x45 | Ntsc => 0x41 end.

(** The bus a step borrows from the machine, and the machine after the loan. *)
Definition lend (prefetched : option (Z * Z)) (m : MachineState) : MachineBus :=
  mkMachineBus (memory m) (cdrom m) (gpu m) (mdec m) (irq m) (timers m) (dma m) (spu m) (scheduler m)
    (now m) (bios_region_of (Ps1Timers.standard (refresh m))) prefetched.

Definition give_back (c : Cpu) (b : MachineBus) (m : MachineState) : MachineState :=
  m <| cpu := c |> <| memory := Ps1Bus.memory b |> <| cdrom := Ps1Bus.cdrom b |> <| gpu := Ps1Bus.gpu b |>
    <| mdec := Ps1Bus.mdec b |> <| irq := Ps1Bus.irq b |> <| timers := Ps1Bus.timers b |>
    <| dma := Ps1Bus.dma b |> <| spu := Ps1Bus.spu b |> <| scheduler := Ps1Bus.scheduler b |>.

Definition step_cpu (synchronize : bool) (prefetched : option Z) : step_of MachineStep := fun m =>
  let prefetched := (fun instruction => (R3000.pc (cpu m), instruction)) <$> prefetched in
  let '(r, (c, b)) := step_without_external_interrupts (cpu m, lend prefetched m) in
  let m := give_back c b m in
  let! (outcome, m) := (map_err Cpu_failure r, m) in
  match so_event outcome with
  | Exception_event Syscall => step_syscall (so_cycles outcome) m
  | event => finish (so_cycles outcome) (Cpu_step event) synchronize m
  end.

(** A step with nothing pending: an idle interval or an instruction. *)
Definition step_guest (synchronize : bool) : step_of MachineStep := fun m =>
  if synchronize then step_cpu synchronize None m
  else
    let! (probe, m) := (probe_idle_loop m, m) in
    if (probe.1 : bool) then finish IDLE_ADVANCE_CYCLES Idle_step true m
    else step_cpu synchronize probe.2 m.

Definition step_running (synchronize : bool) : step_of MachineStep := fun m =>
  let! (source, m) := take_interrupts m in
  match source with
  | Some source => finish 12 (Interrupt_step source) synchronize m
  | None =>
      let! (_u, m) := take_callbacks m in
      let! (null, m) := (null_call m, m) in
      if (null : bool) then
        finish 2 NullCall synchronize
          (set_cpu (Cpu.set_pc (default 0 (Cpu.register 31 (cpu m))) (cpu m)) m)
      else
        match bios_vector (R3000.pc (cpu m)) with
        | Some vector => step_bios vector m
        | None => step_guest synchronize m
        end
  end.

Definition step_inner (synchronize : bool) : step_of MachineStep := fun m =>
  if halted m then finish IDLE_ADVANCE_CYCLES Halt_step true m
  else if R3000.pc (cpu m) =? CALLBACK_RETURN_PC then step_callback_return synchronize m
  else step_running synchronize m.

Definition step : step_of MachineStep := step_inner true.

Definition take_event_log (m : MachineState) : list MachineEvent * MachineState :=
  (event_log m, m <| event_log := [] |>).

(** ** Rendering *)

(** Within 1024 steps a frame is due: devices lag by less than 256 cycles, a frame lasts
    768, and every step takes a cycle. *)
Definition FRAME_STEPS : nat := 1024.

(** [while pending_audio.is_empty() { step_inner(false)? }] *)
Fixpoint fill_audio (fuel : nat) : step_of unit := fun m =>
  match pending_audio m with
  | _ :: _ => (Ok tt, m)
  | [] =>
      match fuel with
      | O => (Panic, m)
      | S fuel => let! (_s, m) := step_inner false m in fill_audio fuel m
      end
  end.

Fixpoint render_samples (n : nat) : step_of (list Z) := fun m =>
  match n with
  | O => (Ok [], m)
  | S n =>
      let! (_u, m) := fill_audio FRAME_STEPS m in
      match pending_audio m with
      | [] => (Err MachineClockOverflow, m)
      | sample :: rest =>
          let m := m <| pending_audio := rest |> in
          let! (samples, m) := render_samples n m in
          (Ok (sample :: samples), m)
      end
  end.

(** The buffer is described by its length; its new contents are returned. *)
Definition render (frames output_len : Z) : step_of (list Z) := fun m =>
  match checked_mul_u 64 frames 2 with
  | None => (Err (MachineOutputSize (2 ^ 64 - 1) output_len), m)
  | Some expected =>
      if negb (output_len =? expected) then (Err (MachineOutputSize expected output_len), m)
      else render_samples (Z.to_nat expected) m
  end.

(** [while discard_audio_frames != 0 { step_inner(false) }]; an error ends the discarding. *)
Fixpoint discard_audio (fuel : nat) : step_of unit := fun m =>
  if discard_audio_frames m =? 0 then (Ok tt, m)
  else
    match fuel with
    | O => (Panic, m)
    | S fuel =>
        match step_inner false m with
        | (Ok _, m) => discard_audio fuel m
        | (Err e, m) => (Err e, m <| discard_audio_frames := 0 |>)
        | (Panic, m) => (Panic, m)
        end
    end.

Definition advance (frames : Z) : step_of unit := fun m =>
  let queued := Z.min (Z.of_nat (length (pending_audio m)) / 2) frames in
  let! (queued_samples, m) := (ok_or (checked_mul_u 64 queued 2) MachineClockOverflow, m) in
  let m := m <| pending_audio := drop (Z.to_nat queued_samples) (pending_audio m) |> in
  let remaining := frames - queued in
  if remaining =? 0 then (Ok tt, m)
  else
    let! (_u, m) := ((if discard_audio_frames m =? 0 then Ok tt else Panic), m) in
    let m := m <| discard_audio_frames := remaining |> in
    discard_audio (Z.to_nat remaining * FRAME_STEPS) m.
End weights.

(** The snapshot taken at construction. *)
Record Ps1Machine := mkPs1Machine { state : MachineState; snapshot : MachineState }.

Definition load (plan : Psf1LoadPlan) (config : MachineConfig) : outcome MachineError Ps1Machine :=
  let? m := from_plan plan config in Ok (mkPs1Machine m m).

Definition reset (m : Ps1Machine) : Ps1Machine := mkPs1Machine (snapshot m) (snapshot m).
End Ps1Machine.
