(* ===== verification/IopBase.v ===== *)
(** * IOP kernel foundations: crates/hle/ps2/bios/src/{error,memory,table}.rs

    The kernel's result codes, the guest-memory interface the services are written
    against, and the fixed-capacity handle table that holds every kernel object.
    [FixedTable T N] is the boxed slice of [N] slots with its occupancy count. *)

From S2P Require Import Prelude Records MachineInt Clock Scheduler.
From S2P Require Irx.

(** ** error.rs *)

Inductive KernelError : Set :=
| Error | IllegalExceptionCode | ExceptionHandlerNotInUse | ExceptionHandlerInUse
| IllegalContext | IllegalInterruptCode | FoundHandler | HandlerNotFound
| IllegalObject | UnknownModule | MemoryInUse | AlreadyStarted | NotStarted
| AlreadyStopped | CannotStop | NotStopped | NotRemovable | LibraryFound
| LibraryNotFound | IllegalLibrary | LibraryInUse | AlreadyStopping | NoMemory
| IllegalAttribute | IllegalEntry | IllegalPriority | IllegalStackSize | IllegalMode
| IllegalThreadId | UnknownThreadId | UnknownSemaphoreId | UnknownEventFlagId
| UnknownMessageBoxId | UnknownVariablePoolId | UnknownFixedPoolId | Dormant_error
| NotDormant | NotSuspended | NotWaiting | CannotWait | ReleaseWait | SemaphoreZero
| SemaphoreOverflow | EventFlagCondition | EventFlagMultiple | EventFlagIllegalPattern
| MessageBoxNoMessage | WaitDeleted | IllegalMemoryBlock | IllegalMemorySize
| IllegalScratchpadAddress | ScratchpadInUse | ScratchpadNotInUse | IllegalType
| IllegalSize.

(** [KernelError::code] *)
Definition code (e : KernelError) : Z :=
  match e with
  | Error => -1
  | IllegalExceptionCode => -50
  | ExceptionHandlerNotInUse => -51
  | ExceptionHandlerInUse => -52
  | IllegalContext => -100
  | IllegalInterruptCode => -101
  | FoundHandler => -104
  | HandlerNotFound => -105
  | IllegalObject => -201
  | UnknownModule => -202
  | MemoryInUse => -205
  | AlreadyStarted => -206
  | NotStarted => -207
  | AlreadyStopped => -208
  | CannotStop => -209
  | NotStopped => -210
  | NotRemovable => -211
  | LibraryFound => -212
  | LibraryNotFound => -213
  | IllegalLibrary => -214
  | LibraryInUse => -215
  | AlreadyStopping => -216
  | NoMemory => -400
  | IllegalAttribute => -401
  | IllegalEntry => -402
  | IllegalPriority => -403
  | IllegalStackSize => -404
  | IllegalMode => -405
  | IllegalThreadId => -406
  | UnknownThreadId => -407
  | UnknownSemaphoreId => -408
  | UnknownEventFlagId => -409
  | UnknownMessageBoxId => -410
  | UnknownVariablePoolId => -411
  | UnknownFixedPoolId => -412
  | Dormant_error => -413
  | NotDormant => -414
  | NotSuspended => -415
  | NotWaiting => -416
  | CannotWait => -417
  | ReleaseWait => -418
  | SemaphoreZero => -419
  | SemaphoreOverflow => -420
  | EventFlagCondition => -421
  | EventFlagMultiple => -422
  | EventFlagIllegalPattern => -423
  | MessageBoxNoMessage => -424
  | WaitDeleted => -425
  | IllegalMemoryBlock => -426
  | IllegalMemorySize => -427
  | IllegalScratchpadAddress => -428
  | ScratchpadInUse => -429
  | ScratchpadNotInUse => -430
  | IllegalType => -431
  | IllegalSize => -432
  end.

Record GuestMemoryError := mkGuestMemoryError { message : string }.

Inductive BiosError :=
| GuestMemory_error (operation : string) (address size : Z) (source : GuestMemoryError)
| Irx_error (e : Irx.IrxError)
| Clock_error (e : ClockError)
| Scheduler_error (e : SchedulerError)
| Kernel_error (e : KernelError)
| UnknownOperation (library : string) (ordinal module_id pc : Z)
| InvalidState (what : string).

(** [?] on a kernel result inside a BIOS function *)
Definition bios {A S} (r : outcome KernelError A * S) : outcome BiosError A * S :=
  (map_err Kernel_error r.1, r.2).

(** ** memory.rs *)

Record GuestRange := mkGuestRange { start : Z; end_ : Z }.

Module GuestRange.

Definition new (start end_ : Z) : option GuestRange :=
  if start <=? end_ then Some (mkGuestRange start end_) else None.

Definition contains (r : GuestRange) (address size : Z) : bool :=
  match (s ← try_from_u 32 size; checked_add_u 32 address s) with
  | Some e => (start r <=? address) && (e <=? end_ r)
  | None => false
  end.

Definition validate (r : GuestRange) (address size alignment : Z) : outcome KernelError unit :=
  if size =? 0 then Err IllegalSize
  else if (address =? 0) || (alignment =? 0) || negb (is_power_of_two alignment)
          || negb (address mod alignment =? 0)
  then Err IllegalObject
  else if negb (contains r address size) then Err IllegalObject
  else Ok tt.
End GuestRange.

(** Byte-oriented guest memory without partial success. *)
Class GuestMemory (M : Type) := {
  range : M -> GuestRange;
  gread : M -> Z -> Z -> outcome GuestMemoryError (list Z);
  gwrite : Z -> list Z -> M -> outcome GuestMemoryError unit * M;
}.

Definition read_guest `{GuestMemory M} (guest : M) (address size : Z)
    : outcome BiosError (list Z) :=
  let? _ := map_err Kernel_error (GuestRange.validate (range guest) address size 1) in
  map_err (GuestMemory_error "read" address size) (gread guest address size).

Definition write_guest `{GuestMemory M} (address : Z) (input : list Z) (guest : M)
    : outcome BiosError unit * M :=
  let size := Z.of_nat (length input) in
  let! (_u, guest) :=
    (map_err Kernel_error (GuestRange.validate (range guest) address size 1), guest) in
  let (r, guest) := gwrite address input guest in
  (map_err (GuestMemory_error "write" address size) r, guest).

(** [value.to_le_bytes()] *)
Definition le_bytes2 (v : Z) : list Z := [v mod 256; v / 256 mod 256].
Definition le_bytes4 (v : Z) : list Z :=
  [v mod 256; v / 256 mod 256; v / 2 ^ 16 mod 256; v / 2 ^ 24 mod 256].

Definition write_u16 `{GuestMemory M} (address value : Z) : M -> outcome BiosError unit * M :=
  write_guest address (le_bytes2 value).
Definition write_u32 `{GuestMemory M} (address value : Z) : M -> outcome BiosError unit * M :=
  write_guest address (le_bytes4 value).

(** ** table.rs *)

Record FixedTable (T : Type) (N : nat) := mkTable {
  entries : list (option T);
  first_id : Z;
  len : Z;
}.
Arguments mkTable {T N} _ _ _.
Arguments entries {T N} _.
Arguments first_id {T N} _.
Arguments len {T N} _.

Module FixedTable.
Section operations.
Context {T : Type} {N : nat}.
Implicit Types t : FixedTable T N.

Definition new (first_id : Z) : FixedTable T N := mkTable (replicate N None) first_id 0.

Definition clear t : FixedTable T N := mkTable (replicate (length (entries t)) None) (first_id t) 0.

Definition index t (id : Z) : option nat :=
  i ← checked_sub_u id (first_id t);
  if i <? Z.of_nat N then Some (Z.to_nat i) else None.

(** The identifier of a slot. *)
Definition id_of t (i : nat) : option Z :=
  i ← try_from_u 32 (Z.of_nat i); checked_add_u 32 (first_id t) i.

Definition next_id t : option Z :=
  found ← list_find (fun entry => entry = @None T) (entries t) ;
  id_of t (found : nat * option T).1.

Definition insert_at (id : Z) (value : T) t : outcome KernelError unit * FixedTable T N :=
  match index t id with
  | None => (Err IllegalObject, t)
  | Some i =>
      match entries t !! i with
      | None => (Panic, t)
      | Some (Some _) => (Err IllegalObject, t)
      | Some None => (Ok tt, mkTable (<[i := Some value]> (entries t)) (first_id t) (len t + 1))
      end
  end.

Definition insert (value : T) t : outcome KernelError Z * FixedTable T N :=
  match next_id t with
  | None => (Err NoMemory, t)
  | Some id => let! (_u, t) := insert_at id value t in (Ok id, t)
  end.

Definition get t (id : Z) : option T :=
  i ← index t id; mjoin (entries t !! i).

(** The write through [get_mut], on an occupied slot. *)
Definition put (id : Z) (value : T) t : FixedTable T N :=
  match index t id with
  | Some i => mkTable (<[i := Some value]> (entries t)) (first_id t) (len t)
  | None => t
  end.

Definition remove (id : Z) t : option T * FixedTable T N :=
  match index t id with
  | None => (None, t)
  | Some i =>
      match entries t !! i with
      | Some (Some value) =>
          (Some value, mkTable (<[i := None]> (entries t)) (first_id t) (len t - 1))
      | _ => (None, t)
      end
  end.

Definition iter t : list (Z * T) :=
  omap (fun slot : nat * option T =>
          value ← slot.2; id ← id_of t slot.1; Some (id, value))
    (imap pair (entries t)).
End operations.
End FixedTable.

(** ** What the table promises

    Identifiers are [first_id .. first_id + N - 1]; a table is the finite function
    [get] from identifiers to entries. *)

Module TableFacts.
Import FixedTable.
Section facts.
Context {T : Type} {N : nat}.
Implicit Types t : FixedTable T N.

Definition occupied (l : list (option T)) : nat := length (omap id l).

Record wf t : Prop := {
  wf_length : length (entries t) = N;
  wf_first : 0 <= first_id t;
  wf_last : first_id t + Z.of_nat N <= 2 ^ 32;
  wf_len : len t = Z.of_nat (occupied (entries t));
}.

Lemma occupied_insert (l : list (option T)) (i : nat) (o v : option T) :
  l !! i = Some o ->
  (occupied (<[i := v]> l) + (if o then 1 else 0) = occupied l + (if v then 1 else 0))%nat.
Proof.
  unfold occupied. revert i. induction l as [|x l IH]; intros [|i] H; simplify_eq/=.
  - destruct o, v; simpl; lia.
  - specialize (IH i H). destruct x; simpl in *; lia.
Qed.

Lemma new_wf f : 0 <= f -> f + Z.of_nat N <= 2 ^ 32 -> wf (new f : FixedTable T N).
Proof.
  intros H0 H1. constructor; simpl; [by rewrite length_replicate|done|done|].
  unfold occupied. clear. by induction N.
Qed.

Lemma get_new f i : get (new f : FixedTable T N) i = None.
Proof.
  unfold get, index, new. simpl. destruct (checked_sub_u i f) as [j|]; [|done]. simpl.
  destruct (j <? Z.of_nat N); [|done]. simpl.
  destruct (replicate N None !! Z.to_nat j) as [o|] eqn:E; [|done].
  by apply lookup_replicate in E as [-> _].
Qed.

Lemma clear_new t : wf t -> clear t = new (first_id t).
Proof. intros Ht. unfold clear, new. by rewrite (wf_length _ Ht). Qed.

Lemma index_Some t id i :
  index t id = Some i <-> id = first_id t + Z.of_nat i /\ (i < N)%nat.
Proof.
  unfold index. destruct (checked_sub_u id (first_id t)) as [j|] eqn:E; simpl.
  - apply checked_sub_u_Some in E as [-> E]. destruct (Z.ltb_spec (id - first_id t) (Z.of_nat N)).
    + split; [intros [= <-]; lia|]. intros [-> Hi]. f_equal. lia.
    + split; [done|]. intros [-> Hi]. lia.
  - split; [done|]. intros [-> Hi]. unfold checked_sub_u in E.
    destruct (Z.leb_spec (first_id t) (first_id t + Z.of_nat i)); [done|lia].
Qed.

Lemma id_of_eq t i : wf t -> (i < N)%nat -> id_of t i = Some (first_id t + Z.of_nat i).
Proof.
  intros Ht Hi. pose proof (wf_last _ Ht). pose proof (wf_first _ Ht).
  unfold id_of. rewrite try_from_u_in by lia. simpl. apply checked_add_u_Some. lia.
Qed.

Lemma get_slot t id v :
  get t id = Some v <-> exists i, id = first_id t + Z.of_nat i /\ (i < N)%nat /\
    entries t !! i = Some (Some v).
Proof.
  unfold get. split.
  - destruct (index t id) as [i|] eqn:E; [|done]. simpl.
    apply index_Some in E as [-> Hi]. destruct (entries t !! i) as [o|] eqn:E; [|done].
    simpl. intros ->. eauto.
  - intros (i & -> & Hi & E). rewrite (proj2 (index_Some t _ i)) by done. simpl. by rewrite E.
Qed.

Lemma get_range t id v : get t id = Some v -> first_id t <= id < first_id t + Z.of_nat N.
Proof. intros (i & -> & Hi & _)%get_slot. lia. Qed.

(** Writing slot [i] changes [get] at its identifier only. *)
Lemma get_write t i o n id :
  (i < N)%nat -> wf t ->
  get (mkTable (<[i := o]> (entries t)) (first_id t) n : FixedTable T N) id =
  if decide (id = first_id t + Z.of_nat i) then o else get t id.
Proof.
  intros Hi Ht. pose proof (wf_length _ Ht) as Hl.
  unfold get. change (index (mkTable _ _ _) id) with (index t id). cbn [entries].
  destruct (index t id) as [j|] eqn:E.
  - apply index_Some in E as [-> Hj]. simpl. destruct (decide (i = j)) as [->|Hne].
    + rewrite list_lookup_insert_eq by lia. by rewrite decide_True.
    + rewrite list_lookup_insert_ne by done. by rewrite decide_False by lia.
  - destruct (decide (id = first_id t + Z.of_nat i)) as [->|]; [|done].
    by rewrite (proj2 (index_Some t _ i)) in E by done.
Qed.

Lemma insert_spec v t :
  wf t ->
  match insert v t with
  | (Ok id, t') => get t id = None /\ wf t' /\ first_id t' = first_id t /\
      first_id t <= id < first_id t + Z.of_nat N /\
      forall id', get t' id' = if decide (id' = id) then Some v else get t id'
  | (Err e, t') => e = NoMemory /\ t' = t /\ len t = Z.of_nat N
  | (Panic, _) => False
  end.
Proof.
  intros Ht. pose proof (wf_length _ Ht) as Hl. unfold insert, next_id.
  destruct (list_find _ (entries t)) as [[i o]|] eqn:E.
  - apply list_find_Some in E as (Hi & -> & _). cbn [mbind option_bind fst].
    assert (i < N)%nat as Hi' by (rewrite <- Hl; by apply lookup_lt_is_Some_1).
    rewrite id_of_eq by done. unfold insert_at.
    rewrite (proj2 (index_Some t _ i)) by done. rewrite Hi.
    split_and!; [| |done|lia|lia|].
    + destruct (get t _) as [w|] eqn:Eg; [|done].
      apply get_slot in Eg as (j & Ej & _ & Ew). assert (j = i) as -> by lia. congruence.
    + constructor; cbn [entries first_id len]; try by apply Ht.
      * by rewrite length_insert.
      * pose proof (occupied_insert _ _ _ (Some v) Hi) as Ho. simpl in Ho.
        rewrite (wf_len _ Ht). lia.
    + intros id'. by apply get_write.
  - cbn [mbind option_bind]. split_and!; [done|done|].
    rewrite (wf_len _ Ht). f_equal. transitivity (length (entries t)); [|done].
    apply list_find_None in E. unfold occupied. clear Hl. induction (entries t) as [|[x|] l IH]; [done| |].
    + apply Forall_cons in E as [_ E]. simpl. f_equal. by apply IH.
    + apply Forall_cons in E as [E _]. done.
Qed.

Lemma insert_next v t id :
  wf t -> FixedTable.next_id t = Some id -> exists t', insert v t = (Ok id, t').
Proof.
  intros Ht E. unfold insert. rewrite E. unfold next_id in E.
  destruct (list_find _ (entries t)) as [[i o]|] eqn:Ef; [|done].
  apply list_find_Some in Ef as (Hi & -> & _). cbn [mbind option_bind fst] in E.
  assert (i < N)%nat as Hi' by (rewrite <- (wf_length _ Ht); by apply lookup_lt_is_Some_1).
  rewrite id_of_eq in E by done. simplify_eq. unfold insert_at.
  rewrite (proj2 (index_Some t _ i)) by done. rewrite Hi. by eexists.
Qed.

Lemma put_get t id v w id' :
  wf t -> get t id = Some w -> get (put id v t) id' = if decide (id' = id) then Some v else get t id'.
Proof.
  intros Ht (i & -> & Hi & E)%get_slot. unfold put.
  rewrite (proj2 (index_Some t _ i)) by done. by rewrite get_write.
Qed.

Lemma put_wf t id v w : wf t -> get t id = Some w -> wf (put id v t).
Proof.
  intros Ht (i & -> & Hi & E)%get_slot. unfold put.
  rewrite (proj2 (index_Some t _ i)) by done.
  constructor; cbn [entries first_id len]; try by apply Ht.
  - rewrite length_insert. apply Ht.
  - pose proof (occupied_insert _ _ _ (Some v) E) as Ho. simpl in Ho. rewrite (wf_len _ Ht). lia.
Qed.

Lemma put_first t id v : first_id (put id v t) = first_id t.
Proof. unfold put. by destruct (index t id). Qed.

Lemma remove_value t id : (remove id t).1 = get t id.
Proof.
  unfold remove, get. destruct (index t id) as [i|]; [|done]. simpl.
  by destruct (entries t !! i) as [[v|]|].
Qed.

Lemma remove_get t id id' :
  wf t -> get (remove id t).2 id' = if decide (id' = id) then None else get t id'.
Proof.
  intros Ht. pose proof (remove_value t id) as Hv. unfold remove in *.
  destruct (index t id) as [i|] eqn:Ei; cbn [fst snd] in *.
  - pose proof Ei as [-> Hi]%index_Some.
    destruct (entries t !! i) as [[v|]|]; cbn [fst snd] in *; [by apply get_write|..];
      by destruct (decide _) as [->|].
  - by destruct (decide _) as [->|].
Qed.

Lemma remove_wf t id : wf t -> wf (remove id t).2.
Proof.
  intros Ht. unfold remove. destruct (index t id) as [i|] eqn:Ei; [|done].
  destruct (entries t !! i) as [[v|]|] eqn:E; cbn [snd]; try done.
  constructor; cbn [entries first_id len]; try by apply Ht.
  - rewrite length_insert. apply Ht.
  - pose proof (occupied_insert _ _ _ None E) as Ho. simpl in Ho. rewrite (wf_len _ Ht). lia.
Qed.

Lemma remove_first t id : first_id (remove id t).2 = first_id t.
Proof. unfold remove. destruct (index t id); [|done]. by destruct (entries t !! n) as [[]|]. Qed.

(** [iter] lists the graph of [get] in the order of identifiers. *)
Lemma elem_of_iter t id v : wf t -> (id, v) ∈ iter t <-> get t id = Some v.
Proof.
  intros Ht. rewrite get_slot. unfold iter. rewrite list_elem_of_omap. split.
  - intros ([i o] & (j & o' & Hp & Hj)%elem_of_lookup_imap & E). simplify_eq/=.
    assert (j < N)%nat as Hlt by (rewrite <- (wf_length _ Ht); by apply lookup_lt_is_Some_1).
    destruct o' as [w|]; [|done]. simpl in E. rewrite id_of_eq in E by done. simplify_eq/=. eauto.
  - intros (i & -> & Hi & E). exists (i, Some v). split.
    + apply elem_of_lookup_imap. by exists i, (Some v).
    + simpl. by rewrite id_of_eq.
Qed.

Lemma iter_sorted t : wf t -> StronglySorted (fun a b => a.1 < b.1) (iter t).
Proof.
  intros Ht. unfold iter. pose proof (wf_length _ Ht) as Hl.
  enough (forall l k, (k + length l = N)%nat ->
    StronglySorted (fun a b : Z * T => a.1 < b.1)
      (omap (fun slot : nat * option T =>
        value ← slot.2; id ← id_of t slot.1; Some (id, value)) (imap (fun i => pair (k + i)%nat) l)) /\
    Forall (fun a : Z * T => first_id t + Z.of_nat k <= a.1)
      (omap (fun slot : nat * option T =>
        value ← slot.2; id ← id_of t slot.1; Some (id, value)) (imap (fun i => pair (k + i)%nat) l)))
    as H by exact (proj1 (H (entries t) 0%nat Hl)).
  induction l as [|o l IH]; intros k Hk; [split; constructor|].
  simpl in Hk. rewrite imap_cons. rewrite (imap_ext _ (fun i => pair (S k + i)%nat) l).
  2: { intros i x _. simpl. f_equal. lia. }
  destruct (IH (S k) ltac:(lia)) as [Hs Hf]. simpl.
  assert (Forall (fun a : Z * T => first_id t + Z.of_nat k <= a.1)
    (omap (fun slot : nat * option T =>
        value ← slot.2; id ← id_of t slot.1; Some (id, value)) (imap (fun i => pair (S k + i)%nat) l)))
    as Hf' by (eapply Forall_impl; [exact Hf|]; simpl; lia).
  destruct o as [v|]; simpl; [|done].
  rewrite Nat.add_0_r, id_of_eq by (done || lia). simpl. split.
  - constructor; [done|]. eapply Forall_impl; [exact Hf|]. simpl. lia.
  - constructor; [simpl; lia|done].
Qed.

Lemma iter_NoDup t : wf t -> NoDup (iter t).*1.
Proof.
  intros Ht. apply (StronglySorted_NoDup (fun a b => a < b)); [lia|].
  pose proof (iter_sorted t Ht) as Hs.
  induction Hs as [|x l Hl IH Hx]; [constructor|]. simpl. constructor; [done|].
  by apply Forall_fmap.
Qed.
End facts.
End TableFacts.
