(* ===== verification/IopDispatch.v ===== *)
(** * The IOP dispatch boundary: crates/hle/ps2/bios/src/dispatch.rs

    The saved processor context and its guest exception frame, the reserved entry
    points, import trampolines, and the interrupt and vertical-blank handlers. *)

From S2P Require Import Prelude Records MachineInt Clock Scheduler IopBase.

Definition REGISTER_COUNT : nat := 32.
Definition A0 : nat := 4.
Definition SP : nat := 29.
Definition RA : nat := 31.
Definition STATUS_MODE_MASK : Z := 0x3f.
Definition CAUSE_EXCEPTION_MASK : Z := 0x7c.
Definition CAUSE_INTERRUPT_PENDING : Z := 2 ^ 10.
Definition CORE_ENTRY_COUNT : nat := 5.
Definition CORE_ENTRY_STRIDE : Z := 16.
Definition IMPORT_TRAMPOLINE_COUNT : nat := 1024.
Definition IMPORT_TRAMPOLINE_COUNT_U32 : Z := 1024.
Definition IMPORT_TRAMPOLINE_STRIDE : Z := 16.
Definition EXCEPTION_HANDLER_COUNT : nat := 16.
Definition INTERRUPT_HANDLER_COUNT : nat := 64.
Definition VBLANK_HANDLER_COUNT : nat := 8.
Definition CONTROL_BLOCK_ADDRESS : Z := 0x200.
Definition CONTROL_BLOCK_SIZE : nat := 128.
Definition EXCEPTION_FRAME_ADDRESS : Z := 0x280.
Definition EXCEPTION_FRAME_SIZE : nat := 152.
Definition EXCEPTION_ENTRY : Z := 0x400.
Definition INTERRUPT_ENTRY : Z := 0x410.
Definition SYSCALL_ENTRY : Z := 0x420.
Definition IMPORT_ENTRY : Z := 0x430.
Definition RETURN_ENTRY : Z := 0x440.
Definition THREAD_RETURN_ENTRY : Z := 0x450.
Definition IMPORT_TRAMPOLINE_BASE : Z := 0x800.
Definition MODULE_HEAD_ADDRESS : Z := CONTROL_BLOCK_ADDRESS + 0x60.
Definition CONTROL_MAGIC : Z := 0x48325055.
Definition CONTROL_ABI_VERSION : Z := 1.
Definition CONTROL_BLOCK_SIZE_U32 : Z := 0x80.
Definition EXCEPTION_FRAME_SIZE_U32 : Z := 38 * 4.
Definition DEFAULT_HEAP_START : Z := 0x10000.
Definition DEFAULT_HEAP_END : Z := 0x200000.

(** [output[offset..offset + 4].copy_from_slice(..)] of consecutive words: the words
    in order, in a buffer of [n] bytes that starts zeroed. *)
Definition put_words (n : nat) (words : list Z) : list Z :=
  let bytes := mjoin (le_bytes4 <$> words) in bytes ++ replicate (n - length bytes) 0.

Definition word (input : list Z) (i : nat) : outcome KernelError Z :=
  let? b0 := expect (input !! (i * 4)%nat) in
  let? b1 := expect (input !! (i * 4 + 1)%nat) in
  let? b2 := expect (input !! (i * 4 + 2)%nat) in
  let? b3 := expect (input !! (i * 4 + 3)%nat) in
  Ok (b0 + b1 * 2 ^ 8 + b2 * 2 ^ 16 + b3 * 2 ^ 24).

(** ** The control block *)

Record ControlBlock := mkControlBlock {
  magic : Z;
  abi_version : Z;
  size : Z;
  exception_entry : Z;
  interrupt_entry : Z;
  syscall_entry : Z;
  import_entry : Z;
  return_entry : Z;
  exception_frame : Z;
  exception_frame_size : Z;
  trampoline_base : Z;
  trampoline_stride : Z;
  trampoline_count : Z;
  heap_start : Z;
  heap_end : Z;
  module_head_address : Z;
}.

Module ControlBlock.
Definition new : ControlBlock :=
  mkControlBlock CONTROL_MAGIC CONTROL_ABI_VERSION CONTROL_BLOCK_SIZE_U32 EXCEPTION_ENTRY
    INTERRUPT_ENTRY SYSCALL_ENTRY IMPORT_ENTRY RETURN_ENTRY EXCEPTION_FRAME_ADDRESS
    EXCEPTION_FRAME_SIZE_U32 IMPORT_TRAMPOLINE_BASE IMPORT_TRAMPOLINE_STRIDE
    IMPORT_TRAMPOLINE_COUNT_U32 DEFAULT_HEAP_START DEFAULT_HEAP_END MODULE_HEAD_ADDRESS.

Definition encode (b : ControlBlock) : list Z :=
  put_words CONTROL_BLOCK_SIZE
    [magic b; abi_version b; size b; 0; exception_entry b; interrupt_entry b; syscall_entry b;
     import_entry b; return_entry b; exception_frame b; exception_frame_size b;
     trampoline_base b; trampoline_stride b; trampoline_count b; heap_start b; heap_end b;
     module_head_address b].
End ControlBlock.

(** ** Processor contexts *)

Record CpuContext := mkCpuContext {
  registers : list Z;
  hi : Z;
  lo : Z;
  status : Z;
  cause : Z;
  epc : Z;
  pc : Z;
}.

#[export] Instance CpuContext_fields : Fields CpuContext := fun c =>
  mkCpuContext (registers c) (hi c) (lo c) (status c) (cause c) (epc c) (pc c).

Module CpuContext.
Definition reset (entry stack : Z) : CpuContext :=
  mkCpuContext (<[SP := stack]> (replicate REGISTER_COUNT 0)) 0 0 0 0 0 entry.

Definition register (i : nat) (c : CpuContext) : option Z := registers c !! i.

(** The boolean result is not used by any caller. *)
Definition set_register (i : nat) (value : Z) (c : CpuContext) : CpuContext :=
  if bool_decide (i = 0%nat) then c else c <| registers := <[i := value]> (registers c) |>.

Definition encode_frame (c : CpuContext) : list Z :=
  put_words EXCEPTION_FRAME_SIZE
    (registers c ++ [hi c; lo c; status c; cause c; epc c; pc c]).

Fixpoint words (bytes : list Z) (i n : nat) : outcome KernelError (list Z) :=
  match n with
  | O => Ok []
  | S n => let? w := word bytes i in let? ws := words bytes (S i) n in Ok (w :: ws)
  end.

Definition decode_frame (bytes : list Z) : outcome KernelError CpuContext :=
  let? registers := words bytes 0 REGISTER_COUNT in
  let? hi := word bytes 32 in
  let? lo := word bytes 33 in
  let? status := word bytes 34 in
  let? cause := word bytes 35 in
  let? epc := word bytes 36 in
  let? pc := word bytes 37 in
  Ok (mkCpuContext (<[0%nat := 0]> registers) hi lo status cause epc pc).
End CpuContext.

Inductive ExceptionCode :=
| Interrupt | AddressLoad | AddressStore | Syscall | Breakpoint | ReservedInstruction | Overflow_code.

Definition exception_number (c : ExceptionCode) : Z :=
  match c with
  | Interrupt => 0
  | AddressLoad => 4
  | AddressStore => 5
  | Syscall => 8
  | Breakpoint => 9
  | ReservedInstruction => 10
  | Overflow_code => 12
  end.

(** ** Import calls *)

Record ImportCall := mkImportCall {
  library : string;
  version : Z;
  ordinal : Z;
  module_id : Z;
  call_pc : Z;
}.

Inductive DispatchCall :=
| SyscallCall (number module_id pc : Z)
| ImportDispatch (call : ImportCall).

Definition unknown (c : DispatchCall) : BiosError :=
  match c with
  | SyscallCall number module_id pc => UnknownOperation "syscall" number module_id pc
  | ImportDispatch call =>
      UnknownOperation (library call) (ordinal call) (module_id call) (call_pc call)
  end.

Record Trampoline := mkTrampoline { tr_address : Z; tr_call : ImportCall }.

Definition trampoline_address (i : Z) : option Z :=
  index ← try_from_u 32 i;
  if index <? IMPORT_TRAMPOLINE_COUNT_U32
  then Some (IMPORT_TRAMPOLINE_BASE + index * IMPORT_TRAMPOLINE_STRIDE) else None.

Definition trampoline_id (address : Z) : option Z :=
  offset ← checked_sub_u address IMPORT_TRAMPOLINE_BASE;
  if negb (offset mod IMPORT_TRAMPOLINE_STRIDE =? 0) then None
  else let id := offset / IMPORT_TRAMPOLINE_STRIDE in
    if id <? IMPORT_TRAMPOLINE_COUNT_U32 then Some id else None.

(** [byte.is_ascii_graphic()] *)
Definition is_graphic (c : Ascii.ascii) : bool :=
  let n := Z.of_nat (Ascii.nat_of_ascii c) in (33 <=? n) && (n <=? 126).

Definition validate_library_name (name : string) : outcome KernelError unit :=
  if bool_decide (name = EmptyString) || (8 <? Z.of_nat (String.length name)) ||
     negb (forallb is_graphic (String.list_ascii_of_string name))
  then Err IllegalLibrary else Ok tt.

Definition guard_stub (code : Z) : list Z :=
  let instruction := shl 32 (code .& 0xfffff) 6 .| 0x0d in
  put_words 16 [instruction; 0; CONTROL_MAGIC; code].

(** ** Exceptions and trampolines *)

Record DispatchBoundary := mkDispatchBoundary {
  control : ControlBlock;
  trampolines : FixedTable ImportCall IMPORT_TRAMPOLINE_COUNT;
  exception_active : bool;
}.

#[export] Instance DispatchBoundary_fields : Fields DispatchBoundary := fun d =>
  mkDispatchBoundary (control d) (trampolines d) (exception_active d).

Module DispatchBoundary.

Definition new : DispatchBoundary := mkDispatchBoundary ControlBlock.new (FixedTable.new 0) false.

Section guest.
Context `{GuestMemory M}.

(** The guard loops of [reset]: stubs [code + i] at [address i], for [n] indices. *)
Fixpoint write_core_entries (i : Z) (n : nat) (guest : M) : outcome BiosError unit * M :=
  match n with
  | O => (Ok tt, guest)
  | S n =>
      let! (_u, guest) :=
        write_guest (EXCEPTION_ENTRY + i * CORE_ENTRY_STRIDE) (guard_stub (0x100 + i)) guest in
      write_core_entries (i + 1) n guest
  end.

Fixpoint write_trampolines (i : Z) (n : nat) (guest : M) : outcome BiosError unit * M :=
  match n with
  | O => (Ok tt, guest)
  | S n =>
      match trampoline_address i with
      | None => (Err (Kernel_error NoMemory), guest)
      | Some address =>
          let! (_u, guest) := write_guest address (guard_stub (0x200 + i)) guest in
          write_trampolines (i + 1) n guest
      end
  end.

(** The host state is reset whether or not the guest writes succeed. *)
Definition reset (d : DispatchBoundary) (guest : M)
    : outcome BiosError unit * (DispatchBoundary * M) :=
  let d := d <| trampolines := FixedTable.clear (trampolines d) |> <| exception_active := false |> in
  let (r, guest) :=
    let! (_u, guest) := write_guest CONTROL_BLOCK_ADDRESS (ControlBlock.encode (control d)) guest in
    let! (_u, guest) :=
      write_guest EXCEPTION_FRAME_ADDRESS (replicate EXCEPTION_FRAME_SIZE 0) guest in
    let! (_u, guest) := write_core_entries 0 CORE_ENTRY_COUNT guest in
    write_trampolines 0 IMPORT_TRAMPOLINE_COUNT guest in
  (r, (d, guest)).

(** The frame that is saved at an exception. *)
Definition saved_frame (code : ExceptionCode) (context : CpuContext) : CpuContext :=
  let saved := context <| epc := pc context |>
    <| cause := (cause context .& bnot 32 CAUSE_EXCEPTION_MASK) .| Z.shiftl (exception_number code) 2 |> in
  match code with
  | Interrupt => saved <| cause := cause saved .| CAUSE_INTERRUPT_PENDING |>
  | _ => saved
  end.

Definition enter_exception (code : ExceptionCode) (d : DispatchBoundary) (context : CpuContext)
    (guest : M) : outcome BiosError unit * (DispatchBoundary * CpuContext * M) :=
  if exception_active d then (Err (InvalidState "nested HLE exception"), (d, context, guest))
  else
    let saved := saved_frame code context in
    let (r, guest) := write_guest EXCEPTION_FRAME_ADDRESS (CpuContext.encode_frame saved) guest in
    match r with
    | Err e => (Err e, (d, context, guest))
    | Panic => (Panic, (d, context, guest))
    | Ok _ =>
        let context := context <| epc := epc saved |> <| cause := cause saved |>
          <| status := (status context .& bnot 32 STATUS_MODE_MASK)
               .| (shl 32 (status context) 2 .& STATUS_MODE_MASK) |>
          <| pc := EXCEPTION_ENTRY |> in
        (Ok tt, (d <| exception_active := true |>, context, guest))
    end.

Definition enter_interrupt (d : DispatchBoundary) (context : CpuContext) (guest : M)
    : outcome BiosError unit * (DispatchBoundary * CpuContext * M) :=
  let (r, s) := enter_exception Interrupt d context guest in
  match r with
  | Ok _ => (Ok tt, (s.1.1, s.1.2 <| pc := INTERRUPT_ENTRY |>, s.2))
  | _ => (r, s)
  end.

Definition return_from_exception (d : DispatchBoundary) (context : CpuContext) (guest : M)
    : outcome BiosError unit * (DispatchBoundary * CpuContext) :=
  if negb (exception_active d)
  then (Err (InvalidState "exception return without entry"), (d, context))
  else
    match (let? bytes := read_guest guest EXCEPTION_FRAME_ADDRESS (Z.of_nat EXCEPTION_FRAME_SIZE) in
           map_err Kernel_error (CpuContext.decode_frame bytes)) with
    | Ok context => (Ok tt, (d <| exception_active := false |>, context))
    | Err e => (Err e, (d, context))
    | Panic => (Panic, (d, context))
    end.

Definition allocate_import (call : ImportCall) (d : DispatchBoundary) (guest : M)
    : outcome BiosError Trampoline * (DispatchBoundary * M) :=
  match (let? _ := validate_library_name (library call) in
         let? id := ok_or (FixedTable.next_id (trampolines d)) NoMemory in
         let? address := ok_or (trampoline_address id) NoMemory in Ok (id, address)) with
  | Err e => (Err (Kernel_error e), (d, guest))
  | Panic => (Panic, (d, guest))
  | Ok (id, address) =>
      let (r, guest) := write_guest address (guard_stub (0x200 + id)) guest in
      match r with
      | Err e => (Err e, (d, guest))
      | Panic => (Panic, (d, guest))
      | Ok _ =>
          let (r, t) := FixedTable.insert_at id call (trampolines d) in
          let d := d <| trampolines := t |> in
          (map_err Kernel_error (omapok (fun _ => mkTrampoline address call) r), (d, guest))
      end
  end.
End guest.

Definition release_import (address : Z) (d : DispatchBoundary)
    : outcome KernelError ImportCall * DispatchBoundary :=
  match trampoline_id address with
  | None => (Err IllegalEntry, d)
  | Some id =>
      let (call, t) := FixedTable.remove id (trampolines d) in
      (ok_or call IllegalEntry, d <| trampolines := t |>)
  end.

Definition resolve (entry syscall_number module caller_pc : Z) (d : DispatchBoundary)
    : outcome BiosError DispatchCall :=
  if entry =? SYSCALL_ENTRY then Ok (SyscallCall syscall_number module caller_pc)
  else
    match trampoline_id entry with
    | Some id =>
        match FixedTable.get (trampolines d) id with
        | Some call => Ok (ImportDispatch
            (mkImportCall (library call) (version call) (ordinal call) module caller_pc))
        | None => Err (UnknownOperation "unbound" (default 0xffff (try_from_u 16 id))
                         module caller_pc)
        end
    | None => Err (UnknownOperation "entry"
                (default 0xffff (try_from_u 16 (Z.shiftr entry 2 .& 0xffff))) module caller_pc)
    end.
End DispatchBoundary.

(** ** Callbacks and handlers *)

Record CallbackRequest := mkCallbackRequest {
  cb_entry : Z;
  cb_argument : Z;
  return_address : Z;
  source : Z;
}.

(** [CallbackRequest::apply] *)
Definition apply (r : CallbackRequest) (c : CpuContext) : CpuContext :=
  CpuContext.set_register RA (return_address r) (CpuContext.set_register A0 (cb_argument r) c)
    <| pc := cb_entry r |>.

Record Handler := mkHandler { h_entry : Z; h_argument : Z; h_mode : Z }.

Record HandlerRegistry := mkHandlerRegistry {
  exceptions : list (option Handler);
  interrupts : list (option Handler);
  vblank : list (list (option Handler));
}.

#[export] Instance HandlerRegistry_fields : Fields HandlerRegistry := fun h =>
  mkHandlerRegistry (exceptions h) (interrupts h) (vblank h).

Definition vblank_phase (phase : Z) : outcome KernelError nat :=
  if phase <? 2 then Ok (Z.to_nat phase) else Err IllegalObject.

(** A guest index into an array of [n] handlers. *)
Definition handler_index (n : nat) (e : KernelError) (i : Z) : outcome KernelError nat :=
  if i <? Z.of_nat n then Ok (Z.to_nat i) else Err e.

(** Take the handler of a slot. *)
Definition take_handler (e : KernelError) (i : nat) (l : list (option Handler))
    : outcome KernelError Handler * list (option Handler) :=
  match l !! i with
  | None => (Panic, l)
  | Some o => (ok_or o e, <[i := None]> l)
  end.

Definition validate_entry (guest_range : GuestRange) (entry : Z) : outcome KernelError unit :=
  map_err (fun _ => IllegalEntry) (GuestRange.validate guest_range entry 4 4).

Module HandlerRegistry.

Definition new : HandlerRegistry :=
  mkHandlerRegistry (replicate EXCEPTION_HANDLER_COUNT None)
    (replicate INTERRUPT_HANDLER_COUNT None)
    (replicate 2 (replicate VBLANK_HANDLER_COUNT None)).

Definition reset (h : HandlerRegistry) : HandlerRegistry :=
  h <| exceptions := replicate EXCEPTION_HANDLER_COUNT None |>
    <| interrupts := replicate INTERRUPT_HANDLER_COUNT None |>
    <| vblank := replicate 2 (replicate VBLANK_HANDLER_COUNT None) |>.

(** Install a handler in a free slot. *)
Definition install (e : KernelError) (i : nat) (handler : Handler) (l : list (option Handler))
    : outcome KernelError (list (option Handler)) :=
  match l !! i with
  | None => Panic
  | Some (Some _) => Err e
  | Some None => Ok (<[i := Some handler]> l)
  end.

Definition register_exception (exception entry : Z) (guest_range : GuestRange)
    (h : HandlerRegistry) : outcome KernelError unit * HandlerRegistry :=
  match (let? i := handler_index EXCEPTION_HANDLER_COUNT IllegalExceptionCode exception in
         let? _ := validate_entry guest_range entry in
         install ExceptionHandlerInUse i (mkHandler entry 0 0) (exceptions h)) with
  | Ok l => (Ok tt, h <| exceptions := l |>)
  | Err e => (Err e, h)
  | Panic => (Panic, h)
  end.

Definition release_exception (exception : Z) (h : HandlerRegistry)
    : outcome KernelError Z * HandlerRegistry :=
  let! (i, h) := (handler_index EXCEPTION_HANDLER_COUNT IllegalExceptionCode exception, h) in
  let (r, l) := take_handler ExceptionHandlerNotInUse i (exceptions h) in
  (omapok h_entry r, h <| exceptions := l |>).

Definition dispatch_exception (exception : Z) (h : HandlerRegistry)
    : outcome KernelError CallbackRequest :=
  let? i := handler_index EXCEPTION_HANDLER_COUNT IllegalExceptionCode exception in
  let? slot := expect (exceptions h !! i) in
  let? handler := ok_or slot ExceptionHandlerNotInUse in
  Ok (mkCallbackRequest (h_entry handler) 0 RETURN_ENTRY exception).

Definition register_interrupt (interrupt mode entry argument : Z) (guest_range : GuestRange)
    (h : HandlerRegistry) : outcome KernelError unit * HandlerRegistry :=
  match (let? i := handler_index INTERRUPT_HANDLER_COUNT IllegalInterruptCode interrupt in
         if 2 <? mode then Err IllegalObject
         else
           let? _ := validate_entry guest_range entry in
           install FoundHandler i (mkHandler entry argument mode) (interrupts h)) with
  | Ok l => (Ok tt, h <| interrupts := l |>)
  | Err e => (Err e, h)
  | Panic => (Panic, h)
  end.

Definition release_interrupt (interrupt : Z) (h : HandlerRegistry)
    : outcome KernelError Z * HandlerRegistry :=
  let! (i, h) := (handler_index INTERRUPT_HANDLER_COUNT IllegalInterruptCode interrupt, h) in
  let (r, l) := take_handler HandlerNotFound i (interrupts h) in
  (omapok h_entry r, h <| interrupts := l |>).

Definition dispatch_interrupt (interrupt : Z) (h : HandlerRegistry)
    : outcome KernelError CallbackRequest :=
  let? i := handler_index INTERRUPT_HANDLER_COUNT IllegalInterruptCode interrupt in
  let? slot := expect (interrupts h !! i) in
  let? handler := ok_or slot HandlerNotFound in
  Ok (mkCallbackRequest (h_entry handler) (h_argument handler) RETURN_ENTRY interrupt).

Definition register_vblank (phase priority entry argument : Z) (guest_range : GuestRange)
    (h : HandlerRegistry) : outcome KernelError unit * HandlerRegistry :=
  match (let? p := vblank_phase phase in
         let? i := handler_index VBLANK_HANDLER_COUNT IllegalPriority priority in
         let? _ := validate_entry guest_range entry in
         let? slots := expect (vblank h !! p) in
         let? slots := install FoundHandler i (mkHandler entry argument 0) slots in
         Ok (p, slots)) with
  | Ok (p, slots) => (Ok tt, h <| vblank := <[p := slots]> (vblank h) |>)
  | Err e => (Err e, h)
  | Panic => (Panic, h)
  end.

Definition release_vblank (phase priority : Z) (h : HandlerRegistry)
    : outcome KernelError Z * HandlerRegistry :=
  let! (p, h) := (vblank_phase phase, h) in
  let! (i, h) := (handler_index VBLANK_HANDLER_COUNT IllegalPriority priority, h) in
  let! (slots, h) := (expect (vblank h !! p), h) in
  let (r, slots) := take_handler HandlerNotFound i slots in
  (omapok h_entry r, h <| vblank := <[p := slots]> (vblank h) |>).

Definition dispatch_vblank (phase : Z) (h : HandlerRegistry)
    : outcome KernelError (list CallbackRequest) :=
  let? p := vblank_phase phase in
  let? slots := expect (vblank h !! p) in
  Ok ((fun handler => mkCallbackRequest (h_entry handler) (h_argument handler) RETURN_ENTRY phase)
        <$> omap id slots).
End HandlerRegistry.
