(* ===== verification/IopAllocator.v ===== *)
(** * The IOP system-memory allocator: crates/hle/ps2/bios/src/allocator.rs

    A quantum-aligned arena with at most 256 blocks in a handle table.  The free
    space is not stored: every search walks the live blocks in address order. *)

From S2P Require Import Prelude Records MachineInt IopBase.

Definition SYSMEM_QUANTUM : Z := 256.
Definition MAX_ALLOCATIONS : nat := 256.

Inductive AllocationMode := First | Last | Address.

(** [AllocationMode::try_from] *)
Definition allocation_mode (value : Z) : outcome KernelError AllocationMode :=
  if value =? 0 then Ok First
  else if value =? 1 then Ok Last
  else if value =? 2 then Ok Address
  else Err IllegalType.

Record Allocation := mkAllocation {
  address : Z;
  size : Z;
  requested_size : Z;
  alignment : Z;
}.

(** [self.address + self.size], an addition that panics on overflow *)
Definition alloc_end (a : Allocation) : outcome KernelError Z :=
  expect (checked_add_u 32 (address a) (size a)).

Record SystemMemory := mkSystemMemory {
  arena_start : Z;
  arena_end : Z;
  allocations_table : FixedTable Allocation MAX_ALLOCATIONS;
}.

Definition align_up (value alignment : Z) : option Z :=
  v ← checked_add_u 32 value (alignment - 1);
  Some (v .& bnot 32 (alignment - 1)).

Definition align_down (value alignment : Z) : Z := value .& bnot 32 (alignment - 1).

(** [sort_unstable_by_key]: insertion by address; no two blocks share one. *)
Fixpoint insert_block (a : Allocation) (l : list Allocation) : list Allocation :=
  match l with
  | [] => [a]
  | b :: l' => if address a <=? address b then a :: l else b :: insert_block a l'
  end.

Definition sort_blocks (l : list Allocation) : list Allocation := foldr insert_block [] l.

(** [iter.min_by_key(|allocation| allocation.address)]: the first least block *)
Fixpoint lowest (l : list Allocation) : option Allocation :=
  match l with
  | [] => None
  | a :: l =>
      match lowest l with
      | Some b => if address b <? address a then Some b else Some a
      | None => Some a
      end
  end.

Module SystemMemory.

Definition new (start end_ : Z) : outcome KernelError SystemMemory :=
  if (start =? 0) || (end_ <=? start) || negb (start mod SYSMEM_QUANTUM =? 0)
     || negb (end_ mod SYSMEM_QUANTUM =? 0)
  then Err IllegalObject
  else Ok (mkSystemMemory start end_ (FixedTable.new 1)).

Definition set_table (t : FixedTable Allocation MAX_ALLOCATIONS) (m : SystemMemory)
    : SystemMemory := mkSystemMemory (arena_start m) (arena_end m) t.

Definition reset (m : SystemMemory) : SystemMemory :=
  set_table (FixedTable.clear (allocations_table m)) m.

Definition range (m : SystemMemory) : Z * Z := (arena_start m, arena_end m).

Definition blocks (m : SystemMemory) : list Allocation :=
  snd <$> FixedTable.iter (allocations_table m).

Definition allocations (m : SystemMemory) : list Allocation := sort_blocks (blocks m).

(** The walk of [find_first] from [cursor] over the remaining blocks. *)
Fixpoint first_loop (end_ size alignment cursor : Z) (l : list Allocation)
    : outcome KernelError (option Z) :=
  match l with
  | [] =>
      Ok (top ← checked_add_u 32 cursor size;
          if top <=? end_ then Some cursor else None)
  | a :: l =>
      match checked_add_u 32 cursor size with
      | None => Ok None
      | Some top =>
          if top <=? address a then Ok (Some cursor)
          else
            let? e := alloc_end a in
            match align_up (Z.max cursor e) alignment with
            | None => Ok None
            | Some cursor => first_loop end_ size alignment cursor l
            end
      end
  end.

Definition find_first (size alignment : Z) (m : SystemMemory) : outcome KernelError (option Z) :=
  match align_up (arena_start m) alignment with
  | None => Ok None
  | Some cursor => first_loop (arena_end m) size alignment cursor (allocations m)
  end.

(** The walk of [find_last] down from [boundary]; [l] is in descending order. *)
Fixpoint last_loop (start size alignment boundary : Z) (l : list Allocation)
    : outcome KernelError (option Z) :=
  match checked_sub_u boundary size with
  | None => Ok None
  | Some top =>
      let candidate := align_down top alignment in
      match l with
      | [] => Ok (if start <=? candidate then Some candidate else None)
      | a :: l =>
          let? e := alloc_end a in
          if e <=? candidate then Ok (Some candidate)
          else last_loop start size alignment (Z.min boundary (address a)) l
      end
  end.

Definition find_last (size alignment : Z) (m : SystemMemory) : outcome KernelError (option Z) :=
  last_loop (arena_start m) size alignment (arena_end m) (rev (allocations m)).

(** [iter.all(..)] stops at the first block that overlaps. *)
Fixpoint all_clear (address_ top : Z) (l : list Allocation) : outcome KernelError bool :=
  match l with
  | [] => Ok true
  | a :: l =>
      if top <=? address a then all_clear address_ top l
      else
        let? e := alloc_end a in
        if e <=? address_ then all_clear address_ top l else Ok false
  end.

Definition is_free (address_ size : Z) (m : SystemMemory) : outcome KernelError bool :=
  match checked_add_u 32 address_ size with
  | None => Ok false
  | Some top =>
      if (arena_start m <=? address_) && (top <=? arena_end m)
      then all_clear address_ top (blocks m) else Ok false
  end.

(** The placement chosen for a block, before it is recorded. *)
Definition select (mode : AllocationMode) (reserved address_ alignment : Z) (m : SystemMemory)
    : outcome KernelError (option Z) :=
  match mode with
  | First => find_first reserved alignment m
  | Last => find_last reserved alignment m
  | Address =>
      if negb (address_ mod alignment =? 0) then Err IllegalObject
      else
        let? free := is_free address_ reserved m in
        Ok (if free : bool then Some address_ else None)
  end.

Definition place (mode : AllocationMode) (size_ address_ alignment_ : Z) (m : SystemMemory)
    : outcome KernelError Allocation :=
  if size_ =? 0 then Err IllegalSize
  else if (alignment_ <? SYSMEM_QUANTUM) || negb (is_power_of_two alignment_) then Err IllegalObject
  else
    match FixedTable.next_id (allocations_table m) with
    | None => Err NoMemory
    | Some _ =>
        let? reserved := ok_or (align_up size_ SYSMEM_QUANTUM) IllegalSize in
        let? selected := select mode reserved address_ alignment_ m in
        let? a := ok_or selected NoMemory in
        Ok (mkAllocation a reserved size_ alignment_)
    end.

Definition allocate_aligned (mode : AllocationMode) (size_ address_ alignment_ : Z)
    (m : SystemMemory) : outcome KernelError Allocation * SystemMemory :=
  let! (allocation, m) := (place mode size_ address_ alignment_ m, m) in
  let (r, t) := FixedTable.insert allocation (allocations_table m) in
  (omapok (fun _ => allocation) r, set_table t m).

Definition allocate (mode : AllocationMode) (size_ address_ : Z)
    : SystemMemory -> outcome KernelError Allocation * SystemMemory :=
  allocate_aligned mode size_ address_ SYSMEM_QUANTUM.

Definition find_id (address_ : Z) (m : SystemMemory) : option Z :=
  found ← list_find (fun entry : Z * Allocation => address entry.2 = address_)
            (FixedTable.iter (allocations_table m));
  Some found.2.1.

Definition free (address_ : Z) (m : SystemMemory) : outcome KernelError Allocation * SystemMemory :=
  let! (id, m) := (ok_or (find_id address_ m) IllegalObject, m) in
  let (removed, t) := FixedTable.remove id (allocations_table m) in
  (ok_or removed IllegalObject, set_table t m).

Definition block (address_ : Z) (m : SystemMemory) : option Allocation :=
  snd <$> list_find (fun a => address a = address_) (blocks m).

Definition memory_size (m : SystemMemory) : Z := arena_end m - arena_start m.

(** [sum::<u32>()] *)
Fixpoint sum_sizes (l : list Allocation) : outcome KernelError Z :=
  match l with
  | [] => Ok 0
  | a :: l => let? rest := sum_sizes l in expect (checked_add_u 32 (size a) rest)
  end.

Definition total_free (m : SystemMemory) : outcome KernelError Z :=
  let? used := sum_sizes (blocks m) in expect (checked_sub_u (memory_size m) used).

(** One iteration of [maximum_free] per block at or above the cursor. *)
Fixpoint maximum_loop (fuel : nat) (maximum cursor : Z) (m : SystemMemory)
    : outcome KernelError Z :=
  if arena_end m <=? cursor then Ok maximum
  else
    match fuel with
    | O => Panic
    | S fuel =>
        match lowest (filter (fun a => cursor <= address a) (blocks m)) with
        | Some a =>
            let? e := alloc_end a in
            maximum_loop fuel (Z.max maximum (address a - cursor)) e m
        | None => Ok (Z.max maximum (arena_end m - cursor))
        end
    end.

Definition maximum_free (m : SystemMemory) : outcome KernelError Z :=
  maximum_loop (S (length (blocks m))) 0 (arena_start m) m.
End SystemMemory.
