(* ===== verification/IopAllocatorFacts.v ===== *)
(** * What the IOP system-memory allocator promises

    The live blocks are disjoint intervals of the arena; a search finds the best place
    where a block [fits], and fails only if there is none. *)

From S2P Require Import Prelude Records MachineInt IopBase IopAllocator.

(** ** Alignment *)

Lemma mask_multiple v k :
  0 <= k -> k <= 32 -> in_u 32 v -> v .& bnot 32 (2 ^ k - 1) = v / 2 ^ k * 2 ^ k.
Proof.
  intros H0 Hk Hv. rewrite land_bnot by done.
  replace (2 ^ k - 1) with (Z.ones k) by (rewrite Z.ones_equiv; lia).
  by rewrite Z.ldiff_ones_r, Z.shiftr_div_pow2, Z.shiftl_mul_pow2 by done.
Qed.

(** A valid alignment: a power of two of 32 bits. *)
Definition aligner (al : Z) : Prop := is_power_of_two al = true /\ in_u 32 al.

Lemma aligner_pos al : aligner al -> 0 < al.
Proof. intros [H _]. by apply andb_true_iff in H as [H%Z.ltb_lt _]. Qed.

Lemma aligner_pow al : aligner al -> exists k, 0 <= k < 32 /\ al = 2 ^ k.
Proof.
  intros [Hp [_ Hu]]. destruct (power_of_two_log al Hp) as [E Hl]. exists (Z.log2 al).
  split; [|done]. split; [done|]. rewrite E in Hu. by apply (Z.pow_lt_mono_r_iff 2) in Hu.
Qed.

Lemma aligner_divides al : aligner al -> (al | 2 ^ 32).
Proof.
  intros (k & Hk & ->)%aligner_pow. exists (2 ^ (32 - k)).
  rewrite Z.mul_comm. apply pow2_split. lia.
Qed.

Lemma align_down_eq v al : aligner al -> in_u 32 v -> align_down v al = v / al * al.
Proof. intros (k & Hk & ->)%aligner_pow Hv. apply mask_multiple; lia || done. Qed.

(** [align_down v] is the greatest multiple that is at most [v]. *)
Lemma align_down_spec v al :
  aligner al -> in_u 32 v ->
  align_down v al mod al = 0 /\ 0 <= align_down v al <= v /\
  forall x, x mod al = 0 -> x <= v -> x <= align_down v al.
Proof.
  intros Ha Hv. pose proof (aligner_pos al Ha) as Hp. rewrite align_down_eq by done.
  pose proof (Z.div_mod v al ltac:(lia)). pose proof (Z.mod_pos_bound v al Hp).
  pose proof (Z.div_pos v al (proj1 Hv) Hp).
  split_and!; [by apply Z_mod_mult|nia|nia|].
  intros x Hx Hle. pose proof (Z.div_mod x al ltac:(lia)) as Ex.
  pose proof (Z.div_le_mono x v al Hp Hle). nia.
Qed.

(** [align_up v] is the least multiple that is at least [v]; it fails when that
    multiple is not a 32-bit value. *)
Lemma align_up_spec v al :
  aligner al -> in_u 32 v ->
  match align_up v al with
  | Some u => in_u 32 u /\ u mod al = 0 /\ v <= u < v + al /\
      forall x, x mod al = 0 -> v <= x -> u <= x
  | None => forall x, x mod al = 0 -> v <= x -> 2 ^ 32 <= x
  end.
Proof.
  intros Ha Hv. pose proof (aligner_pos al Ha) as Hp. unfold align_up.
  assert (forall x, x mod al = 0 -> v <= x -> (v + (al - 1)) / al * al <= x) as Hmin.
  { intros x Hx Hle. pose proof (Z.div_mod x al ltac:(lia)) as Ex.
    assert ((v + (al - 1)) / al <= x / al); [|nia].
    apply Z.lt_succ_r, Z.div_lt_upper_bound; [done|]. lia. }
  destruct (checked_add_u 32 v (al - 1)) as [w|] eqn:E; simpl.
  - apply checked_add_u_Some in E as [-> E].
    assert (in_u 32 (v + (al - 1))) as Hw by (unfold in_u in *; lia).
    destruct (align_down_spec _ al Ha Hw) as (H1 & H2 & _). fold (align_down (v + (al - 1)) al).
    rewrite align_down_eq in * by done.
    pose proof (Z.div_mod (v + (al - 1)) al ltac:(lia)).
    pose proof (Z.mod_pos_bound (v + (al - 1)) al Hp). unfold in_u in *.
    split_and!; [lia|lia|done|lia|lia|done].
  - apply checked_add_u_None in E. intros x Hx Hle. etransitivity; [|by apply Hmin].
    destruct (aligner_divides al Ha) as [q Hq]. rewrite Hq.
    apply Z.mul_le_mono_nonneg_r; [lia|]. apply Z.div_le_lower_bound; [done|]. lia.
Qed.

(** ** Placement

    [fits] is the contract of a search: an aligned interval inside the arena that no
    live block meets. *)

Module Placement.
Section search.
Context (lo hi : Z) (B : list Allocation).

Definition block_end (a : Allocation) : Z := address a + size a.
Definition before (a b : Allocation) : Prop := block_end a <= address b.
Definition apart (a b : Allocation) : Prop := before a b \/ before b a.

Definition fits (n al x : Z) : Prop :=
  x mod al = 0 /\ lo <= x /\ x + n <= hi /\
  forall b, b ∈ B -> x + n <= address b \/ block_end b <= x.

Record block_ok (a : Allocation) : Prop := {
  block_low : lo <= address a;
  block_high : block_end a <= hi;
  block_size : 0 < size a;
}.

Context (Hlo : 0 < lo) (Hhi : hi < 2 ^ 32).

Lemma block_end_ok a : block_ok a -> alloc_end a = Ok (block_end a).
Proof.
  intros Ha. destruct Ha as [H1 H2 H3]. unfold alloc_end, block_end in *.
  by rewrite (proj2 (checked_add_u_Some 32 _ _ _)) by (split; [done|lia]).
Qed.

Lemma first_loop_spec n al l cursor :
  aligner al -> 0 < n -> in_u 32 cursor -> lo <= cursor -> cursor mod al = 0 ->
  StronglySorted before l -> Forall block_ok l -> (forall b, b ∈ l -> b ∈ B) ->
  (forall b, b ∈ B -> b ∈ l \/ block_end b <= cursor) ->
  (forall x, fits n al x -> cursor <= x) ->
  match SystemMemory.first_loop hi n al cursor l with
  | Ok (Some x) => fits n al x /\ forall y, fits n al y -> x <= y
  | Ok None => forall y, ~ fits n al y
  | _ => False
  end.
Proof using Hlo Hhi.
  intros Hal Hn. revert cursor. induction l as [|a l IH];
    intros cursor Hc Hlc Hm Hs Hok Hin Hcov Hlow; simpl.
  - destruct (checked_add_u 32 cursor n) as [top|] eqn:E; simpl.
    + apply checked_add_u_Some in E as [-> E]. destruct (Z.leb_spec (cursor + n) hi).
      * split; [|done]. split_and!; try done. intros b Hb.
        destruct (Hcov b Hb) as [[]%elem_of_nil|]; auto.
      * intros y Hy. pose proof (Hlow y Hy). destruct Hy as (_ & _ & Hy & _). lia.
    + apply checked_add_u_None in E. intros y Hy. pose proof (Hlow y Hy).
      destruct Hy as (_ & _ & Hy & _). lia.
  - apply StronglySorted_inv in Hs as [Hs Ha]. apply Forall_cons in Hok as [Hoka Hok].
    destruct (checked_add_u 32 cursor n) as [top|] eqn:E.
    2: { apply checked_add_u_None in E. intros y Hy. pose proof (Hlow y Hy).
         destruct Hy as (_ & _ & Hy & _). lia. }
    apply checked_add_u_Some in E as [-> E].
    destruct (Z.leb_spec (cursor + n) (address a)) as [Hle|Hgt].
    { split; [|done]. destruct Hoka as [H1 H2 H3]. unfold block_end in *.
      split_and!; [done|done|lia|]. intros b Hb. destruct (Hcov b Hb) as [Hb'|]; [|auto].
      apply elem_of_cons in Hb' as [->|Hb']; [auto|]. left.
      rewrite Forall_forall in Ha. specialize (Ha b Hb'). unfold before, block_end in Ha. lia. }
    rewrite block_end_ok by done. cbn [obind].
    assert (forall x, fits n al x -> Z.max cursor (block_end a) <= x) as Hlow'.
    { intros x Hx. pose proof (Hlow x Hx). destruct Hx as (_ & _ & _ & Hx).
      destruct (Hx a (Hin a (list_elem_of_here _ _))); lia. }
    assert (in_u 32 (Z.max cursor (block_end a))) as Hmax.
    { destruct Hoka. unfold in_u in *. lia. }
    pose proof (align_up_spec _ al Hal Hmax) as Hup.
    destruct (align_up _ al) as [cursor'|].
    + destruct Hup as (Hu & Hmod & Hr & Hleast). apply IH; try done; try lia.
      * intros b Hb. by apply Hin, list_elem_of_further.
      * intros b Hb. destruct (Hcov b Hb) as [Hb'|]; [|lia].
        apply elem_of_cons in Hb' as [->|Hb']; [lia|auto].
      * intros x Hx. apply Hleast; [apply Hx|auto].
    + intros y Hy. pose proof (Hup y (proj1 Hy) (Hlow' y Hy)).
      destruct Hy as (_ & _ & Hy & _). lia.
Qed.

Lemma last_loop_spec n al l boundary :
  aligner al -> 0 < n -> in_u 32 boundary -> boundary <= hi ->
  StronglySorted (fun a b => before b a) l -> Forall block_ok l ->
  (forall b, b ∈ l -> b ∈ B) ->
  (forall b, b ∈ B -> b ∈ l \/ boundary <= address b) ->
  (forall x, fits n al x -> x + n <= boundary) ->
  match SystemMemory.last_loop lo n al boundary l with
  | Ok (Some x) => fits n al x /\ forall y, fits n al y -> y <= x
  | Ok None => forall y, ~ fits n al y
  | _ => False
  end.
Proof using Hlo Hhi.
  intros Hal Hn. revert boundary. induction l as [|a l IH];
    intros boundary Hb Hbh Hs Hok Hin Hcov Hlow; simpl.
  all: destruct (checked_sub_u boundary n) as [top|] eqn:E.
  2,4: intros y Hy; pose proof (Hlow y Hy); destruct Hy as (_ & Hy & _);
       unfold checked_sub_u in E; destruct (Z.leb_spec n boundary); [done|lia].
  all: apply checked_sub_u_Some in E as [-> E].
  all: destruct (align_down_spec (boundary - n) al Hal ltac:(unfold in_u in *; lia))
         as (Hm & Hr & Hgreat).
  all: assert (forall y, fits n al y -> y <= align_down (boundary - n) al) as Hmax
         by (intros y Hy; apply Hgreat; [apply Hy|pose proof (Hlow y Hy); lia]).
  - destruct (Z.leb_spec lo (align_down (boundary - n) al)).
    + split; [|done]. split_and!; [done|done|lia|]. intros b HbB.
      destruct (Hcov b HbB) as [[]%elem_of_nil|]; left; lia.
    + intros y Hy. pose proof (Hmax y Hy). destruct Hy as (_ & Hy & _). lia.
  - apply StronglySorted_inv in Hs as [Hs Ha]. apply Forall_cons in Hok as [Hoka Hok].
    rewrite block_end_ok by done. cbn [obind]. rewrite Forall_forall in Ha. cbv beta in Ha.
    destruct (Z.leb_spec (block_end a) (align_down (boundary - n) al)) as [Hle|Hgt].
    + split; [|done]. destruct Hoka as [H1 H2 H3]. unfold before, block_end in *.
      split_and!; [done|lia|lia|]. intros b HbB. destruct (Hcov b HbB) as [Hb'|]; [|left; lia].
      right. apply elem_of_cons in Hb' as [->|Hb']; [done|]. specialize (Ha b Hb'). unfold block_end. lia.
    + destruct Hoka as [H1 H2 H3]. apply IH; try done.
      * unfold in_u in *. lia.
      * lia.
      * intros b Hb'. by apply Hin, list_elem_of_further.
      * intros b HbB. destruct (Hcov b HbB) as [Hb'|]; [|right; lia].
        apply elem_of_cons in Hb' as [->|Hb']; [right; lia|auto].
      * intros y Hy. pose proof (Hlow y Hy). pose proof (Hmax y Hy).
        destruct Hy as (_ & _ & _ & Hy). destruct (Hy a (Hin a (list_elem_of_here _ _))); lia.
Qed.

Lemma all_clear_spec x top l :
  Forall block_ok l ->
  exists free, SystemMemory.all_clear x top l = Ok free /\
    (free = true <-> forall b, b ∈ l -> top <= address b \/ block_end b <= x).
Proof using Hlo Hhi.
  induction 1 as [|a l Ha Hl IH]; simpl.
  { exists true. split; [done|]. split; [|done]. intros _ b []%elem_of_nil. }
  destruct IH as (free & E & Hf). rewrite block_end_ok by done. cbn [obind].
  destruct (Z.leb_spec top (address a)); [|destruct (Z.leb_spec (block_end a) x)].
  1,2: exists free; split; [done|]; rewrite Hf;
       split; [intros H' b [->|Hb]%elem_of_cons; auto|intros H' b Hb; by apply H', list_elem_of_further].
  exists false. split; [done|]. split; [done|]. intros H'.
  destruct (H' a (list_elem_of_here _ _)); lia.
Qed.
End search.

Lemma elem_of_insert_block a b l : b ∈ insert_block a l <-> b = a \/ b ∈ l.
Proof. induction l as [|c l IH]; simpl; [|case_match]; set_solver. Qed.

Lemma elem_of_sort_blocks b l : b ∈ sort_blocks l <-> b ∈ l.
Proof. induction l as [|a l IH]; simpl; [done|]. rewrite elem_of_insert_block. set_solver. Qed.

Lemma sort_blocks_sorted l :
  Forall (fun a => 0 < size a) l -> StronglySorted apart l ->
  StronglySorted before (sort_blocks l).
Proof.
  intros Hp. induction 1 as [|a l Hl IH Ha]; simpl; [constructor|].
  apply Forall_cons in Hp as [Hpa Hp]. specialize (IH Hp).
  assert (Forall (fun b => apart a b /\ 0 < size b) (sort_blocks l)) as Hall.
  { apply Forall_forall. intros b Hb. rewrite elem_of_sort_blocks in Hb.
    rewrite Forall_forall in Ha. rewrite Forall_forall in Hp. split; [exact (Ha b Hb)|exact (Hp b Hb)]. }
  clear Ha Hl Hp. induction IH as [|b k Hk IHk Hb]; simpl; [by repeat constructor|].
  apply Forall_cons in Hall as [[Hab Hpb] Hall].
  destruct (Z.leb_spec (address a) (address b)) as [Hle|Hgt].
  - assert (before a b) as Hbef by (unfold apart, before, block_end in *; lia).
    constructor; [by constructor|]. constructor; [done|].
    eapply Forall_impl; [exact Hb|]. unfold before, block_end in *. intros c. lia.
  - constructor; [by apply IHk|]. apply Forall_forall. intros c [->|Hc]%elem_of_insert_block.
    + unfold apart, before, block_end in *. lia.
    + by rewrite Forall_forall in Hb; apply Hb.
Qed.

Lemma StronglySorted_rev {A} (R : relation A) (l : list A) :
  StronglySorted R l -> StronglySorted (fun a b => R b a) (rev l).
Proof.
  induction 1 as [|x l Hl IH Hx]; simpl; [constructor|]. apply StronglySorted_snoc; [done|].
  apply Forall_forall. intros y Hy. rewrite Forall_forall in Hx. apply Hx.
  by apply list_elem_of_In, in_rev, list_elem_of_In.
Qed.
End Placement.

(** ** The contract *)

Module SysmemFacts.
Import Placement.

Notation block_ok_in m := (Placement.block_ok (arena_start m) (arena_end m)).
Notation fits_in m := (Placement.fits (arena_start m) (arena_end m) (SystemMemory.blocks m)).

Record block_shape (a : Allocation) : Prop := {
  shape_size : size a mod SYSMEM_QUANTUM = 0;
  shape_requested : 0 < requested_size a <= size a /\ size a < requested_size a + SYSMEM_QUANTUM;
  shape_alignment : aligner (alignment a) /\ SYSMEM_QUANTUM <= alignment a;
  shape_aligned : address a mod alignment a = 0;
}.

Record mem_ok (m : SystemMemory) : Prop := {
  mem_arena : 0 < arena_start m < arena_end m /\ arena_end m < 2 ^ 32;
  mem_quantum : arena_start m mod SYSMEM_QUANTUM = 0 /\ arena_end m mod SYSMEM_QUANTUM = 0;
  mem_table : TableFacts.wf (allocations_table m);
  mem_block : forall i a, FixedTable.get (allocations_table m) i = Some a ->
    block_ok_in m a /\ block_shape a;
  mem_apart : forall i j a b, FixedTable.get (allocations_table m) i = Some a ->
    FixedTable.get (allocations_table m) j = Some b -> i <> j -> apart a b;
}.

Lemma elem_of_blocks m a :
  mem_ok m -> a ∈ SystemMemory.blocks m <-> exists i, FixedTable.get (allocations_table m) i = Some a.
Proof.
  intros Hm. unfold SystemMemory.blocks. rewrite list_elem_of_fmap. split.
  - intros ([i b] & -> & Hb). exists i. by apply TableFacts.elem_of_iter; [apply Hm|].
  - intros (i & Hi). exists (i, a). split; [done|]. by apply TableFacts.elem_of_iter; [apply Hm|].
Qed.

Lemma blocks_ok m : mem_ok m -> Forall (fun a => block_ok_in m a /\ block_shape a) (SystemMemory.blocks m).
Proof.
  intros Hm. apply Forall_forall. intros a Ha. apply elem_of_blocks in Ha as [i Hi]; [|done].
  by apply (mem_block m Hm i).
Qed.

Lemma blocks_block_ok m : mem_ok m -> Forall (block_ok_in m) (SystemMemory.blocks m).
Proof. intros Hm. eapply Forall_impl; [by apply blocks_ok|]. by intros a []. Qed.

Lemma blocks_apart m : mem_ok m -> StronglySorted apart (SystemMemory.blocks m).
Proof.
  intros Hm. unfold SystemMemory.blocks.
  pose proof (TableFacts.iter_sorted _ (mem_table m Hm)) as Hs.
  assert (forall x, x ∈ FixedTable.iter (allocations_table m) ->
    FixedTable.get (allocations_table m) x.1 = Some x.2) as Hg.
  { intros [i a]. by apply TableFacts.elem_of_iter, Hm. }
  induction Hs as [|x l Hl IH Hx]; [constructor|]. rewrite fmap_cons. constructor.
  - apply IH. intros y Hy. by apply Hg, list_elem_of_further.
  - apply Forall_forall. intros b ([j c] & -> & Hj)%list_elem_of_fmap.
    rewrite Forall_forall in Hx. specialize (Hx _ Hj). cbn [fst snd] in *.
    apply (mem_apart m Hm x.1 j); [apply Hg; by left|exact (Hg _ (list_elem_of_further _ _ _ Hj))|lia].
Qed.

Lemma allocations_sorted m : mem_ok m -> StronglySorted before (SystemMemory.allocations m).
Proof.
  intros Hm. apply sort_blocks_sorted; [|by apply blocks_apart].
  eapply Forall_impl; [by apply blocks_block_ok|]. by intros a [].
Qed.

Lemma allocations_ok m : mem_ok m -> Forall (block_ok_in m) (SystemMemory.allocations m).
Proof.
  intros Hm. apply Forall_forall. intros a. unfold SystemMemory.allocations.
  rewrite elem_of_sort_blocks. intros Ha.
  exact (proj1 (Forall_forall _ _) (blocks_block_ok m Hm) a Ha).
Qed.

(** The placement a mode promises. *)
Definition chosen (mode : AllocationMode) (address_ n al : Z) (m : SystemMemory) (x : Z) : Prop :=
  fits_in m n al x /\
  match mode with
  | First => forall y, fits_in m n al y -> x <= y
  | Last => forall y, fits_in m n al y -> y <= x
  | Address => x = address_
  end.

Lemma select_spec mode n address_ al m :
  mem_ok m -> aligner al -> 0 < n -> in_u 32 address_ ->
  match SystemMemory.select mode n address_ al m with
  | Ok (Some x) => chosen mode address_ n al m x
  | Ok None => forall x, ~ chosen mode address_ n al m x
  | Err e => e = IllegalObject /\ mode = Address /\ address_ mod al <> 0
  | Panic => False
  end.
Proof.
  intros Hm Hal Hn Ha. pose proof (mem_arena m Hm) as [[H0 H1] H2].
  pose proof (allocations_sorted m Hm) as Hs. pose proof (allocations_ok m Hm) as Hok.
  assert (forall b, b ∈ SystemMemory.allocations m <-> b ∈ SystemMemory.blocks m) as Hin
    by (intros b; apply elem_of_sort_blocks).
  destruct mode; cbn [SystemMemory.select].
  - unfold SystemMemory.find_first.
    pose proof (align_up_spec (arena_start m) al Hal ltac:(unfold in_u; lia)) as Hup.
    destruct (align_up _ al) as [cursor|].
    + destruct Hup as (Hu & Hmod & Hr & Hleast).
      pose proof (first_loop_spec (arena_start m) (arena_end m) (SystemMemory.blocks m) H0 H2 n al
        (SystemMemory.allocations m) cursor Hal Hn Hu ltac:(lia) Hmod Hs Hok
        (fun b => proj1 (Hin b)) (fun b Hb => or_introl (proj2 (Hin b) Hb))
        (fun x (Hx : fits_in m n al x) => Hleast x (proj1 Hx) (proj1 (proj2 Hx)))) as Hf.
      destruct (SystemMemory.first_loop _ _ _ _ _) as [[x|]|e|]; [exact Hf| |done..].
      intros x [Hx _]. by apply (Hf x).
    + intros x [Hx _]. pose proof (Hup x (proj1 Hx) (proj1 (proj2 Hx))).
      destruct Hx as (_ & _ & Hx & _). lia.
  - unfold SystemMemory.find_last.
    pose proof (last_loop_spec (arena_start m) (arena_end m) (SystemMemory.blocks m) H0 H2 n al
      (rev (SystemMemory.allocations m)) (arena_end m) Hal Hn ltac:(unfold in_u; lia) ltac:(lia)
      (StronglySorted_rev _ _ Hs)) as Hf.
    assert (forall b, b ∈ rev (SystemMemory.allocations m) <-> b ∈ SystemMemory.blocks m) as Hin'.
    { intros b. rewrite <- Hin, !list_elem_of_In. symmetry. apply in_rev. }
    specialize (Hf ltac:(apply Forall_rev; done) (fun b => proj1 (Hin' b))
      (fun b Hb => or_introl (proj2 (Hin' b) Hb))
      (fun x (Hx : fits_in m n al x) => proj1 (proj2 (proj2 Hx)))).
    destruct (SystemMemory.last_loop _ _ _ _ _) as [[x|]|e|]; [exact Hf| |done..].
    intros x [Hx _]. by apply (Hf x).
  - destruct (Z.eqb_spec (address_ mod al) 0) as [Em|Em]; [|done]. cbn [negb].
    unfold SystemMemory.is_free. destruct (checked_add_u 32 address_ n) as [top|] eqn:E; cbn [obind].
    + apply checked_add_u_Some in E as [-> E].
      destruct (Z.leb_spec (arena_start m) address_), (Z.leb_spec (address_ + n) (arena_end m));
        cbn [andb]; try (intros x [(_ & Hx1 & Hx2 & _) ->]; lia).
      destruct (all_clear_spec (arena_start m) (arena_end m) H0 H2 address_ (address_ + n)
        (SystemMemory.blocks m) (blocks_block_ok m Hm)) as (free & -> & Hfree). cbn [obind].
      destruct free.
      * split; [|done]. split_and!; try done. by apply Hfree.
      * intros x [(_ & _ & _ & Hx) ->]. by apply Hfree in Hx.
    + apply checked_add_u_None in E. intros x [(_ & _ & Hx & _) ->]. lia.
Qed.

(** The size a request reserves: the next multiple of the quantum. *)
Definition reserved (n : Z) : Z := (n + (SYSMEM_QUANTUM - 1)) / SYSMEM_QUANTUM * SYSMEM_QUANTUM.

Lemma aligner_quantum : aligner SYSMEM_QUANTUM.
Proof. by split. Qed.

Lemma align_up_reserved n :
  in_u 32 n -> align_up n SYSMEM_QUANTUM =
    if n + (SYSMEM_QUANTUM - 1) <? 2 ^ 32 then Some (reserved n) else None.
Proof.
  intros Hn. unfold align_up, checked_add_u.
  destruct (Z.ltb_spec (n + (SYSMEM_QUANTUM - 1)) (2 ^ 32)); [|done]. simpl. f_equal.
  apply (align_down_eq _ _ aligner_quantum). unfold in_u, SYSMEM_QUANTUM in *. lia.
Qed.

Lemma reserved_spec n :
  0 < n -> n <= reserved n < n + SYSMEM_QUANTUM /\ reserved n mod SYSMEM_QUANTUM = 0.
Proof.
  intros Hn. unfold reserved, SYSMEM_QUANTUM.
  pose proof (Z.div_mod (n + (256 - 1)) 256 ltac:(lia)).
  pose proof (Z.mod_pos_bound (n + (256 - 1)) 256 ltac:(lia)).
  split; [lia|]. by apply Z_mod_mult.
Qed.

Lemma chosen_block mode address_ n al m x :
  mem_ok m -> in_u 32 n -> 0 < n -> aligner al -> SYSMEM_QUANTUM <= al ->
  chosen mode address_ (reserved n) al m x ->
  let a := mkAllocation x (reserved n) n al in
  block_ok_in m a /\ block_shape a /\ forall b, b ∈ SystemMemory.blocks m -> apart a b.
Proof.
  intros Hm Hn H0 Hal Hq [(H1 & H2 & H3 & H4) _]. destruct (reserved_spec n H0) as [Hr Hr'].
  split_and!.
  - constructor; unfold block_end; cbn; lia.
  - constructor; cbn; try done. split; [|lia]. split; [done|lia].
  - intros b Hb. unfold apart, before, block_end. cbn. destruct (H4 b Hb); auto.
Qed.

(** A request that no placement satisfies, in the order the code tests it. *)
Definition refused (mode : AllocationMode) (n address_ al : Z) (m : SystemMemory)
    (e : KernelError) : Prop :=
  match e with
  | IllegalSize => n = 0 \/ 2 ^ 32 <= n + (SYSMEM_QUANTUM - 1)
  | IllegalObject => ~ (aligner al /\ SYSMEM_QUANTUM <= al) \/ mode = Address /\ address_ mod al <> 0
  | NoMemory => len (allocations_table m) = Z.of_nat MAX_ALLOCATIONS \/
      forall x, ~ chosen mode address_ (reserved n) al m x
  | _ => False
  end.

Lemma next_id_full {T N} (t : FixedTable T N) (v : T) :
  TableFacts.wf t -> FixedTable.next_id t = None -> len t = Z.of_nat N.
Proof.
  intros Ht Hn. pose proof (TableFacts.insert_spec v t Ht) as H.
  unfold FixedTable.insert in H. rewrite Hn in H. apply H.
Qed.

Lemma place_spec mode n address_ al m :
  mem_ok m -> in_u 32 n -> in_u 32 address_ -> in_u 32 al ->
  match SystemMemory.place mode n address_ al m with
  | Ok a => (exists id, FixedTable.next_id (allocations_table m) = Some id) /\
      0 < n /\ aligner al /\ SYSMEM_QUANTUM <= al /\
      a = mkAllocation (address a) (reserved n) n al /\
      chosen mode address_ (reserved n) al m (address a)
  | Err e => refused mode n address_ al m e
  | Panic => False
  end.
Proof.
  intros Hm Hn Ha Hal. unfold SystemMemory.place.
  destruct (Z.eqb_spec n 0) as [->|Hn0]; [by left|]. assert (0 < n) as Hn1 by (unfold in_u in Hn; lia).
  destruct (Z.ltb_spec al SYSMEM_QUANTUM) as [Hq|Hq]; cbn [orb]; [left; lia|].
  destruct (is_power_of_two al) eqn:Ep; cbn [negb]; [|left; intros [[Hp _] _]; congruence].
  assert (aligner al) as Hal' by done.
  destruct (FixedTable.next_id (allocations_table m)) eqn:En;
    [|left; exact (next_id_full _ (mkAllocation 0 0 0 0) (mem_table m Hm) En)].
  rewrite align_up_reserved by done.
  destruct (Z.ltb_spec (n + (SYSMEM_QUANTUM - 1)) (2 ^ 32)); cbn [ok_or obind]; [|by right].
  destruct (reserved_spec n Hn1) as [Hr _].
  pose proof (select_spec mode (reserved n) address_ al m Hm Hal' ltac:(lia) Ha) as Hs.
  destruct (SystemMemory.select _ _ _ _ _) as [[x|]|e|]; cbn [ok_or obind].
  - split_and!; try done. by eexists.
  - by right.
  - destruct Hs as (-> & -> & Hs). by right.
  - done.
Qed.

Lemma set_table_ok m t :
  mem_ok m -> TableFacts.wf t ->
  (forall i a, FixedTable.get t i = Some a -> block_ok_in m a /\ block_shape a) ->
  (forall i j a b, FixedTable.get t i = Some a -> FixedTable.get t j = Some b ->
     i <> j -> apart a b) ->
  mem_ok (SystemMemory.set_table t m).
Proof. intros Hm Ht Hb Hp. constructor; cbn; [apply Hm|apply Hm|done|done|done]. Qed.

Lemma allocate_contract mode n address_ al m :
  mem_ok m -> in_u 32 n -> in_u 32 address_ -> in_u 32 al ->
  match SystemMemory.allocate_aligned mode n address_ al m with
  | (Ok a, m') => mem_ok m' /\ SystemMemory.range m' = SystemMemory.range m /\
      a = mkAllocation (address a) (reserved n) n al /\
      chosen mode address_ (reserved n) al m (address a) /\
      (forall b, b ∈ SystemMemory.blocks m' <-> b = a \/ b ∈ SystemMemory.blocks m)
  | (Err e, m') => m' = m /\ refused mode n address_ al m e
  | (Panic, _) => False
  end.
Proof.
  intros Hm Hn Ha Hal. unfold SystemMemory.allocate_aligned.
  pose proof (place_spec mode n address_ al m Hm Hn Ha Hal) as Hp.
  destruct (SystemMemory.place _ _ _ _ _) as [a|e|]; [|done..].
  destruct Hp as ([i Hid] & Hn1 & Hal' & Hq & Ea & Hc).
  pose proof (chosen_block mode address_ n al m _ Hm Hn Hn1 Hal' Hq Hc) as (Hok & Hsh & Hap).
  rewrite <- Ea in *.
  pose proof (TableFacts.insert_spec a _ (mem_table m Hm)) as Hi.
  destruct (TableFacts.insert_next a _ i (mem_table m Hm) Hid) as [t Et]. rewrite Et in *.
  destruct Hi as (Hfree & Ht & _ & _ & Hget).
  assert (mem_ok (SystemMemory.set_table t m)) as Hm'.
  { apply set_table_ok; [done|done| |].
    - intros k b Hb. rewrite Hget in Hb. case_decide; [by simplify_eq|]. by apply (mem_block m Hm k).
    - intros k j b c Hb Hc' Hij. rewrite Hget in Hb. rewrite Hget in Hc'.
      assert (forall q x, FixedTable.get (allocations_table m) q = Some x -> apart a x) as Hax.
      { intros q x Hx. apply Hap, elem_of_blocks; [done|by exists q]. }
      repeat case_decide; simplify_eq;
        first [by eapply Hax|by apply or_comm, (Hax k)|by apply (mem_apart m Hm k j)]. }
  cbn [omapok obind]. split_and!; try done.
  intros b. rewrite !elem_of_blocks by done. cbn [allocations_table SystemMemory.set_table]. split.
  - intros [j Hb]. rewrite Hget in Hb. case_decide; [simplify_eq; by left|right; by exists j].
  - intros [->|[j Hb]]; [exists i; rewrite Hget; by rewrite decide_True|].
    exists j. rewrite Hget. case_decide as Hd; [|done]. subst. congruence.
Qed.

Lemma free_contract address_ m :
  mem_ok m ->
  match SystemMemory.free address_ m with
  | (Ok a, m') => mem_ok m' /\ SystemMemory.range m' = SystemMemory.range m /\
      a ∈ SystemMemory.blocks m /\ address a = address_ /\
      (forall b, b ∈ SystemMemory.blocks m' <-> b ∈ SystemMemory.blocks m /\ b <> a)
  | (Err e, m') => m' = m /\ e = IllegalObject /\
      forall b, b ∈ SystemMemory.blocks m -> address b <> address_
  | (Panic, _) => False
  end.
Proof.
  intros Hm. unfold SystemMemory.free, SystemMemory.find_id.
  destruct (list_find _ _) as [[k [i a]]|] eqn:E; cbn [mbind option_bind ok_or fst snd].
  - apply list_find_Some in E as (Hk & Ha & _). cbn [snd] in Ha.
    apply list_elem_of_lookup_2 in Hk. apply TableFacts.elem_of_iter in Hk; [|apply Hm].
    pose proof (TableFacts.remove_value (allocations_table m) i) as Hv.
    pose proof (TableFacts.remove_get (allocations_table m) i) as Hg.
    pose proof (TableFacts.remove_wf _ i (mem_table m Hm)) as Ht.
    destruct (FixedTable.remove i (allocations_table m)) as [removed t]. cbn [fst snd] in *.
    rewrite Hv, Hk. cbn [ok_or].
    assert (forall j b, FixedTable.get t j = Some b <->
      j <> i /\ FixedTable.get (allocations_table m) j = Some b) as Hget.
    { intros j b. rewrite Hg by apply Hm. case_decide; naive_solver. }
    assert (mem_ok (SystemMemory.set_table t m)) as Hm'.
    { apply set_table_ok; [done|done| |].
      - intros j b [_ Hb]%Hget. by apply (mem_block m Hm j).
      - intros j l b c [_ Hb]%Hget [_ Hc]%Hget. by apply (mem_apart m Hm j l). }
    split_and!; [done|done|apply elem_of_blocks; [done|by exists i]|done|].
    intros b. rewrite !elem_of_blocks by done. cbn [allocations_table SystemMemory.set_table]. split.
    + intros [j [Hj Hb]%Hget]. split; [by exists j|]. intros ->.
      pose proof (mem_apart m Hm j i a a Hb Hk Hj) as Hap.
      destruct (mem_block m Hm i a Hk) as [[_ _ Hsz] _]. unfold apart, before, block_end in Hap. lia.
    + intros [[j Hb] Hne]. exists j. apply Hget. split; [|done]. intros ->. congruence.
  - split_and!; [done|done|]. apply list_find_None in E. intros b Hb.
    apply elem_of_blocks in Hb as [i Hi]; [|done]. apply TableFacts.elem_of_iter in Hi; [|apply Hm].
    rewrite Forall_forall in E. exact (E _ Hi).
Qed.

(** [maximum_free] is the size of the largest gap. *)
Lemma lowest_spec l :
  match lowest l with
  | Some a => a ∈ l /\ forall b, b ∈ l -> address a <= address b
  | None => l = []
  end.
Proof.
  induction l as [|a l IH]; simpl; [done|]. destruct (lowest l) as [b|].
  - destruct IH as [Hb Hmin]. destruct (Z.ltb_spec (address b) (address a)).
    + split; [by right|]. intros c [->|Hc]%elem_of_cons; [lia|auto].
    + split; [by left|]. intros c [->|Hc]%elem_of_cons; [lia|]. specialize (Hmin c Hc). lia.
  - subst. split; [by left|]. intros c [->|[]%elem_of_nil]%elem_of_cons. lia.
Qed.

Definition gap (m : SystemMemory) (n : Z) : Prop := 0 < n /\ exists x, fits_in m n 1 x.

Lemma maximum_loop_spec m fuel maximum cursor :
  mem_ok m -> arena_start m <= cursor <= arena_end m -> 0 <= maximum ->
  (length (filter (fun a => (cursor <= address a)%Z) (SystemMemory.blocks m)) < fuel)%nat ->
  (forall b, b ∈ SystemMemory.blocks m -> cursor <= address b \/ block_end b <= cursor) ->
  (maximum = 0 \/ gap m maximum) ->
  (forall n x, 0 < n -> fits_in m n 1 x -> x < cursor -> n <= maximum) ->
  exists r, SystemMemory.maximum_loop fuel maximum cursor m = Ok r /\
    (r = 0 \/ gap m r) /\ 0 <= r /\ forall n, gap m n -> n <= r.
Proof.
  intros Hm. revert maximum cursor. induction fuel as [|fuel IH];
    intros maximum cursor Hc H0 Hf Hcut Hmax Hbelow; [lia|].
  pose proof (mem_arena m Hm) as [[Ha0 Ha1] Ha2]. cbn [SystemMemory.maximum_loop].
  destruct (Z.leb_spec (arena_end m) cursor) as [Hend|Hend].
  { exists maximum. split_and!; try done. intros n [Hn [x Hx]].
    apply (Hbelow n x Hn Hx). destruct Hx as (_ & _ & Hx & _). lia. }
  pose proof (lowest_spec (filter (fun a => cursor <= address a) (SystemMemory.blocks m))) as Hlow.
  destruct (lowest _) as [a|].
  - destruct Hlow as [[Hca Ha]%list_elem_of_filter Hleast].
    pose proof (proj1 (Forall_forall _ _) (blocks_block_ok m Hm) a Ha) as Hoka.
    rewrite (block_end_ok (arena_start m) (arena_end m)) by done. cbn [obind].
    destruct Hoka as [Hk1 Hk2 Hk3].
    assert (forall b, b ∈ SystemMemory.blocks m -> a = b \/ apart a b) as Hap.
    { intros b Hb. apply elem_of_blocks in Ha as [i Hi]; [|done].
      apply elem_of_blocks in Hb as [j Hj]; [|done].
      destruct (decide (i = j)) as [->|Hij]; [left; congruence|right; by apply (mem_apart m Hm i j)]. }
    assert (forall b, b ∈ SystemMemory.blocks m ->
      block_end b <= cursor \/ a = b \/ block_end a <= address b) as Hpos.
    { intros b Hb. destruct (Hcut b Hb) as [Hcb|]; [|by left].
      assert (address a <= address b) by (apply Hleast, list_elem_of_filter; done).
      pose proof (proj1 (Forall_forall _ _) (blocks_block_ok m Hm) b Hb) as [_ _ Hbs].
      destruct (Hap b Hb) as [->|[Hap'|Hap']]; [auto|auto|].
      unfold before, block_end in *. lia. }
    apply IH.
    + unfold block_end in *. lia.
    + lia.
    + apply Nat.lt_le_trans with (length (filter (fun a => cursor <= address a) (SystemMemory.blocks m)));
        [|lia].
      replace (filter (fun b => block_end a <= address b) (SystemMemory.blocks m)) with
        (filter (fun b => block_end a <= address b)
          (filter (fun a => cursor <= address a) (SystemMemory.blocks m))).
      2: { rewrite list_filter_filter. apply list_filter_iff. intros b. unfold block_end. lia. }
      apply length_filter_lt with a; [by apply list_elem_of_filter|unfold block_end; lia].
    + intros b Hb. destruct (Hpos b Hb) as [Hp|[<-|Hp]]; [|right; lia|by left].
      right. unfold block_end in *. lia.
    + destruct (Z.max_spec maximum (address a - cursor)) as [[Hlt ->]|[_ ->]]; [|done].
      right. split; [lia|]. exists cursor. split_and!; [apply Z.mod_1_r|lia|unfold block_end in *; lia|].
      intros b Hb. destruct (Hpos b Hb) as [Hp|[<-|Hp]]; [by right|left; lia|left].
      unfold block_end in *. lia.
    + intros n x Hn Hx Hxe. destruct (Z.lt_ge_cases x cursor) as [Hlt|Hge];
        [pose proof (Hbelow n x Hn Hx Hlt); lia|].
      destruct Hx as (_ & _ & _ & Hx). destruct (Hx a Ha); lia.
  - eexists. split; [done|].
    assert (forall b, b ∈ SystemMemory.blocks m -> block_end b <= cursor) as Hall.
    { intros b Hb. destruct (Hcut b Hb) as [Hcb|]; [|done].
      assert (b ∈ filter (fun a => cursor <= address a) (SystemMemory.blocks m)) as Hin
        by by apply list_elem_of_filter.
      rewrite Hlow in Hin. by apply not_elem_of_nil in Hin. }
    split_and!; [|lia|].
    + destruct (Z.max_spec maximum (arena_end m - cursor)) as [[Hlt ->]|[_ ->]]; [|done].
      right. split; [lia|]. exists cursor. split_and!; [apply Z.mod_1_r|lia|lia|]. auto.
    + intros n [Hn [x Hx]]. destruct (Z.lt_ge_cases x cursor) as [Hlt|Hge];
        [pose proof (Hbelow n x Hn Hx Hlt); lia|].
      destruct Hx as (_ & _ & Hx & _). lia.
Qed.

Lemma maximum_free_spec m :
  mem_ok m ->
  exists r, SystemMemory.maximum_free m = Ok r /\
    (r = 0 \/ gap m r) /\ 0 <= r /\ forall n, gap m n -> n <= r.
Proof.
  intros Hm. pose proof (mem_arena m Hm) as [[Ha0 Ha1] Ha2].
  apply maximum_loop_spec; [done|lia|lia| | |by left|].
  - apply Nat.lt_succ_r, length_filter.
  - intros b Hb. left. by destruct (proj1 (Forall_forall _ _) (blocks_block_ok m Hm) b Hb).
  - intros n x Hn (_ & Hx & _) Hlt. lia.
Qed.

(** Occupied and free bytes add up to the arena. *)
Definition occupied_bytes (l : list Allocation) : Z := foldr (fun a n => size a + n) 0 l.

Lemma occupied_sort l : occupied_bytes (sort_blocks l) = occupied_bytes l.
Proof.
  assert (forall a k, occupied_bytes (insert_block a k) = size a + occupied_bytes k) as Hi.
  { intros a k. induction k as [|b k IH]; simpl; [done|]. case_match; simpl; lia. }
  induction l as [|a l IH]; simpl; [done|]. by rewrite Hi, IH.
Qed.

Lemma occupied_sorted lo hi l cursor :
  StronglySorted before l -> Forall (Placement.block_ok lo hi) l ->
  Forall (fun a => cursor <= address a) l -> cursor <= hi -> 0 <= occupied_bytes l <= hi - cursor.
Proof.
  intros Hs. revert cursor. induction Hs as [|a l Hl IH Ha]; intros cursor Hok Hc Hh; simpl; [lia|].
  apply Forall_cons in Hok as [[_ H2 H3] Hok]. apply Forall_cons in Hc as [Hca _].
  pose proof (IH (block_end a) Hok Ha H2). unfold block_end in *. lia.
Qed.

Lemma sum_sizes_eq l :
  Forall (fun a => 0 < size a) l -> occupied_bytes l < 2 ^ 32 ->
  SystemMemory.sum_sizes l = Ok (occupied_bytes l) /\ 0 <= occupied_bytes l.
Proof.
  induction 1 as [|a l Ha Hl IH]; intros Hb; simpl in *; [done|].
  destruct (IH ltac:(lia)) as [-> H0]. cbn [obind].
  rewrite (proj2 (checked_add_u_Some 32 _ _ _)) by (split; [done|lia]). split; [done|lia].
Qed.

Lemma total_free_spec m :
  mem_ok m ->
  SystemMemory.total_free m
  = Ok (SystemMemory.memory_size m - occupied_bytes (SystemMemory.blocks m)).
Proof.
  intros Hm. pose proof (mem_arena m Hm) as [[Ha0 Ha1] Ha2].
  assert (0 <= occupied_bytes (SystemMemory.blocks m) <= arena_end m - arena_start m) as [Hl Hu].
  { rewrite <- occupied_sort. apply (occupied_sorted (arena_start m) (arena_end m));
      [by apply allocations_sorted|by apply allocations_ok| |lia].
    apply Forall_forall. intros a Ha.
    by destruct (proj1 (Forall_forall _ _) (allocations_ok m Hm) a Ha). }
  destruct (sum_sizes_eq (SystemMemory.blocks m)) as [E _]; [|lia|].
  { eapply Forall_impl; [by apply blocks_block_ok|]. by intros a []. }
  unfold SystemMemory.total_free. rewrite E. cbn [obind].
  unfold SystemMemory.memory_size, checked_sub_u.
  by rewrite (proj2 (Z.leb_le _ _)) by lia.
Qed.

(** ** Reachable memories *)

Inductive reachable : SystemMemory -> Prop :=
| reach_new lo hi m : in_u 32 lo -> in_u 32 hi -> SystemMemory.new lo hi = Ok m -> reachable m
| reach_allocate mode n address_ al m :
    in_u 32 n -> in_u 32 address_ -> in_u 32 al ->
    reachable m -> reachable (SystemMemory.allocate_aligned mode n address_ al m).2
| reach_free address_ m : reachable m -> reachable (SystemMemory.free address_ m).2
| reach_reset m : reachable m -> reachable (SystemMemory.reset m).

Lemma empty_ok m f :
  0 < arena_start m < arena_end m -> arena_end m < 2 ^ 32 ->
  arena_start m mod SYSMEM_QUANTUM = 0 /\ arena_end m mod SYSMEM_QUANTUM = 0 ->
  0 <= f -> f + Z.of_nat MAX_ALLOCATIONS <= 2 ^ 32 ->
  mem_ok (SystemMemory.set_table (FixedTable.new f) m).
Proof.
  intros H1 H2 H3 H4 H5. constructor; cbn [arena_start arena_end allocations_table SystemMemory.set_table];
    [done|done|by apply TableFacts.new_wf| |].
  - intros i a. by rewrite TableFacts.get_new.
  - intros i j a b. by rewrite TableFacts.get_new.
Qed.

Lemma reachable_ok m : reachable m -> mem_ok m.
Proof.
  induction 1 as [lo hi m Hl Hh E|mode n a al m Hn Ha Hal Hr Hm|a m Hr Hm|m Hr Hm].
  - unfold SystemMemory.new in E. case_match eqn:Et; [done|]. simplify_eq.
    rewrite !orb_false_iff, !negb_false_iff, !Z.eqb_eq, Z.eqb_neq, Z.leb_gt in Et.
    destruct Et as [[[E1 E2] E3] E4]. unfold in_u in *.
    apply (empty_ok (mkSystemMemory lo hi (FixedTable.new 1)) 1); cbn; try done; lia.
  - pose proof (allocate_contract mode n a al m Hm Hn Ha Hal) as H.
    destruct (SystemMemory.allocate_aligned _ _ _ _ _) as [[x|e|] m']; [apply H| |done].
    destruct H as [-> _]. done.
  - pose proof (free_contract a m Hm) as H.
    destruct (SystemMemory.free a m) as [[x|e|] m']; [apply H| |done]. destruct H as [-> _]. done.
  - unfold SystemMemory.reset. rewrite TableFacts.clear_new by apply Hm.
    pose proof (mem_arena m Hm) as [Ha0 Ha2].
    apply empty_ok; [done|done|apply Hm|apply Hm|apply Hm].
Qed.

(** C26: The system-memory allocator keeps its contract in every reachable state.  The
    live blocks are inside the arena, aligned, rounded to the quantum and pairwise
    disjoint.  An allocation takes the lowest, the highest or exactly the requested
    address at which an aligned block of the rounded size fits, and is refused only
    for a bad size or alignment, a full table or because no such place exists; a free
    removes exactly the block that starts at its address.  The free total and the
    largest free block are exact, and nothing panics. *)
Theorem sysmem_contract m :
  reachable m ->
  mem_ok m /\
  (forall mode n address_ al, in_u 32 n -> in_u 32 address_ -> in_u 32 al ->
    match SystemMemory.allocate_aligned mode n address_ al m with
    | (Ok a, m') => SystemMemory.range m' = SystemMemory.range m /\
        a = mkAllocation (address a) (reserved n) n al /\
        chosen mode address_ (reserved n) al m (address a) /\
        (forall b, b ∈ SystemMemory.blocks m' <-> b = a \/ b ∈ SystemMemory.blocks m)
    | (Err e, m') => m' = m /\ refused mode n address_ al m e
    | (Panic, _) => False
    end) /\
  (forall address_,
    match SystemMemory.free address_ m with
    | (Ok a, m') => SystemMemory.range m' = SystemMemory.range m /\
        a ∈ SystemMemory.blocks m /\ address a = address_ /\
        (forall b, b ∈ SystemMemory.blocks m' <-> b ∈ SystemMemory.blocks m /\ b <> a)
    | (Err e, m') => m' = m /\ e = IllegalObject /\
        forall b, b ∈ SystemMemory.blocks m -> address b <> address_
    | (Panic, _) => False
    end) /\
  SystemMemory.total_free m
    = Ok (SystemMemory.memory_size m - occupied_bytes (SystemMemory.blocks m)) /\
  exists r, SystemMemory.maximum_free m = Ok r /\
    (r = 0 \/ gap m r) /\ forall n, gap m n -> n <= r.
Proof.
  intros Hm%reachable_ok. split_and!; [done| | |by apply total_free_spec|].
  - intros mode n a al Hn Ha Hal. pose proof (allocate_contract mode n a al m Hm Hn Ha Hal) as H.
    by destruct (SystemMemory.allocate_aligned _ _ _ _ _) as [[x|e|] m']; [destruct H as [_ H]|..].
  - intros a. pose proof (free_contract a m Hm) as H.
    by destruct (SystemMemory.free a m) as [[x|e|] m']; [destruct H as [_ H]|..].
  - destruct (maximum_free_spec m Hm) as (r & E & H1 & _ & H2). by exists r.
Qed.

(** The arena of the test suite, with a block of each placement. *)
Definition sample_memory : SystemMemory :=
  let m := mkSystemMemory 0x1000 0x2000 (FixedTable.new 1) in
  let m := (SystemMemory.allocate_aligned First 1 0 256 m).2 in
  (SystemMemory.allocate_aligned Last 257 0 256 m).2.

Lemma sysmem_contract_witness :
  mem_ok sample_memory /\ SystemMemory.maximum_free sample_memory = Ok 0xd00.
Proof.
  assert (reachable sample_memory) as Hr.
  { unfold sample_memory. repeat apply reach_allocate; try (by vm_compute).
    by apply (reach_new 0x1000 0x2000); vm_compute. }
  split; [exact (proj1 (sysmem_contract sample_memory Hr))|]. vm_compute. reflexivity.
Defined.
End SysmemFacts.
