(* ===== verification/IopKernel.v ===== *)
(** * The IOP kernel: crates/hle/ps2/bios/src/kernel.rs

    Threads with a deterministic priority scheduler, and the objects they wait on:
    semaphores, event flags, message boxes, fixed and variable memory pools, alarms
    and delays.  Every object lives in a handle table and keeps a queue of waiting
    thread identifiers; deadlines live in the shared event scheduler. *)

From S2P Require Import Prelude Records MachineInt Clock Scheduler IopBase IopDispatch.

Definition V0 : nat := 2.
Definition V1 : nat := 3.
Definition A1 : nat := 5.
Definition A2 : nat := 6.
Definition A3 : nat := 7.
Definition GP : nat := 28.
Definition THREAD_CAPACITY : nat := 64.
Definition SEMAPHORE_CAPACITY : nat := 64.
Definition EVENT_FLAG_CAPACITY : nat := 64.
Definition MESSAGE_BOX_CAPACITY : nat := 64.
Definition FIXED_POOL_CAPACITY : nat := 32.
Definition VARIABLE_POOL_CAPACITY : nat := 32.
Definition ALARM_CAPACITY : nat := 32.
Definition CALLBACK_DEPTH : nat := 8.
Definition MIN_THREAD_PRIORITY : Z := 1.
Definition MAX_THREAD_PRIORITY : Z := 126.
Definition MIN_STACK_SIZE : Z := 0x100.
Definition WAIT_EVENT_BASE : Z := 0x1000.
Definition ALARM_EVENT_BASE : Z := 0x2000.
Definition WAIT_ANY : Z := 1.
Definition WAIT_CLEAR : Z := 0x10.

(** ** Data *)

Record ThreadSpec := mkThreadSpec {
  entry : Z;
  stack : Z;
  stack_size : Z;
  spec_priority : Z;
  global_pointer : Z;
  thread_attributes : Z;
  thread_option : Z;
}.

Inductive WaitReason :=
| Sleep
| Delay
| VBlankStart
| VBlankEnd
| ModuleStart (child : Z)
| Semaphore_wait (id : Z)
| EventFlag_wait (id pattern mode : Z)
| MessageBox_wait (id : Z)
| FixedPool_wait (id : Z)
| VariablePool_wait (id size : Z).

#[export] Instance WaitReason_eq_dec : EqDecision WaitReason.
Proof. solve_decision. Defined.

Inductive ThreadState :=
| Dormant
| Ready
| Running
| Waiting (reason : WaitReason).

#[export] Instance ThreadState_eq_dec : EqDecision ThreadState.
Proof. solve_decision. Defined.

Record Thread := mkThread {
  spec : ThreadSpec;
  saved_context : CpuContext;
  state : ThreadState;
  current_priority : Z;
  wakeup_count : Z;
  ready_order : Z;
}.

#[export] Instance Thread_fields : Fields Thread := fun t =>
  mkThread (spec t) (saved_context t) (state t) (current_priority t) (wakeup_count t) (ready_order t).

Inductive RescheduleReason := HleReturn | Yield | InterruptReturn | ObjectSignal | Timer | VBlank.

Record ScheduleAction := mkScheduleAction {
  previous : option Z;
  current : option Z;
  switched : bool;
}.

Record SemaphoreSpec := mkSemaphoreSpec { initial : Z; ss_maximum : Z; ss_attributes : Z }.
Record EventFlagSpec := mkEventFlagSpec { es_bits : Z; es_attributes : Z }.
Record MessageBoxSpec := mkMessageBoxSpec { ms_attributes : Z }.
Record FixedPoolSpec := mkFixedPoolSpec {
  fs_base : Z; fs_block_size : Z; blocks : Z; fs_attributes : Z }.
Record VariablePoolSpec := mkVariablePoolSpec { vs_base : Z; vs_size : Z; vs_attributes : Z }.

Inductive KernelEvent :=
| ThreadReady (id : Z)
| AlarmEvent (id : Z) (callback : CallbackRequest).

Record Semaphore := mkSemaphore {
  count : Z; maximum : Z; s_attributes : Z; s_waiters : list Z }.
#[export] Instance Semaphore_fields : Fields Semaphore := fun s =>
  mkSemaphore (count s) (maximum s) (s_attributes s) (s_waiters s).

Record EventFlag := mkEventFlag { bits : Z; e_attributes : Z; e_waiters : list Z }.
#[export] Instance EventFlag_fields : Fields EventFlag := fun e =>
  mkEventFlag (bits e) (e_attributes e) (e_waiters e).

Record MessageBox := mkMessageBox {
  m_attributes : Z; messages : list Z; m_waiters : list Z }.
#[export] Instance MessageBox_fields : Fields MessageBox := fun m =>
  mkMessageBox (m_attributes m) (messages m) (m_waiters m).

Record FixedPool := mkFixedPool {
  f_attributes : Z; block_size : Z; f_free : list Z; f_allocated : gset Z; f_waiters : list Z }.
#[export] Instance FixedPool_fields : Fields FixedPool := fun f =>
  mkFixedPool (f_attributes f) (block_size f) (f_free f) (f_allocated f) (f_waiters f).

Record FreeRegion := mkFreeRegion { r_address : Z; r_size : Z }.

Record VariablePool := mkVariablePool {
  v_attributes : Z; v_free : list FreeRegion; v_allocated : gmap Z Z; v_waiters : list Z }.
#[export] Instance VariablePool_fields : Fields VariablePool := fun v =>
  mkVariablePool (v_attributes v) (v_free v) (v_allocated v) (v_waiters v).

Record Alarm := mkAlarm { a_entry : Z; a_argument : Z }.

Record Kernel := mkKernel {
  threads : FixedTable Thread THREAD_CAPACITY;
  semaphores : FixedTable Semaphore SEMAPHORE_CAPACITY;
  event_flags : FixedTable EventFlag EVENT_FLAG_CAPACITY;
  message_boxes : FixedTable MessageBox MESSAGE_BOX_CAPACITY;
  fixed_pools : FixedTable FixedPool FIXED_POOL_CAPACITY;
  variable_pools : FixedTable VariablePool VARIABLE_POOL_CAPACITY;
  alarms : FixedTable Alarm ALARM_CAPACITY;
  scheduler : Scheduler;
  now : Z;
  current_thread : option Z;
  next_ready_order : Z;
  callback_contexts : list CpuContext;
}.
#[export] Instance Kernel_fields : Fields Kernel := fun k =>
  mkKernel (threads k) (semaphores k) (event_flags k) (message_boxes k) (fixed_pools k)
    (variable_pools k) (alarms k) (scheduler k) (now k) (current_thread k)
    (next_ready_order k) (callback_contexts k).

(** ** Validation and queues *)

Definition validate_priority (priority : Z) : outcome KernelError unit :=
  if (MIN_THREAD_PRIORITY <=? priority) && (priority <=? MAX_THREAD_PRIORITY)
  then Ok tt else Err IllegalPriority.

Definition validate_attributes (attributes : Z) : outcome KernelError unit :=
  if attributes .& bnot 32 0x101 =? 0 then Ok tt else Err IllegalAttribute.

Definition validate_thread_attributes (attributes : Z) : outcome KernelError unit :=
  if attributes .& bnot 32 0x03300008 =? 0 then Ok tt else Err IllegalAttribute.

Definition validate_event_wait (pattern mode : Z) : outcome KernelError unit :=
  if pattern =? 0 then Err EventFlagIllegalPattern
  else if has_bits mode (bnot 32 (WAIT_ANY .| WAIT_CLEAR)) then Err IllegalMode
  else Ok tt.

(** Whether a bit pattern satisfies a wait. *)
Definition satisfied (bits pattern mode : Z) : bool :=
  if has_bits mode WAIT_ANY then has_bits bits pattern else bits .& pattern =? pattern.

Definition consume_event_bits (event : EventFlag) (pattern mode : Z) : option (Z * EventFlag) :=
  if negb (satisfied (bits event) pattern mode) then None
  else
    Some (bits event,
      if has_bits mode WAIT_CLEAR
      then event <| bits := bits event .& bnot 32 pattern |> else event).

(** A waiter joins at the tail, or before the first waiter of a worse priority. *)
Definition insert_waiter {N} (waiters : list Z) (thread_id attributes : Z)
    (threads : FixedTable Thread N) : list Z :=
  if attributes .& 1 =? 0 then waiters ++ [thread_id]
  else
    let priority := from_option current_priority (MAX_THREAD_PRIORITY + 1)
                      (FixedTable.get threads thread_id) in
    match list_find (fun id =>
            from_option (fun t => bool_decide (priority < current_priority t)) false
              (FixedTable.get threads id) = true) waiters with
    | Some (position, _) => take position waiters ++ thread_id :: drop position waiters
    | None => waiters ++ [thread_id]
    end.

(** [waiters.retain(|waiter| *waiter != id)] *)
Definition forget (id : Z) (waiters : list Z) : list Z := filter (fun w => w <> id) waiters.

Definition align_pool_size (size : Z) : outcome KernelError Z :=
  if size =? 0 then Err IllegalMemorySize
  else
    match checked_add_u 32 size 3 with
    | Some value => Ok (value .& bnot 32 3)
    | None => Err IllegalMemorySize
    end.

(** First fit: the region found is shortened from its start, or removed. *)
Definition allocate_region (pool : VariablePool) (size : Z) : option (Z * VariablePool) :=
  '(i, region) ← list_find (fun r => size <= r_size r) (v_free pool);
  top ← checked_add_u 32 (r_address region) size;
  let rest := r_size region - size in
  let free :=
    if rest =? 0 then delete i (v_free pool)
    else <[i := mkFreeRegion top rest]> (v_free pool) in
  Some (r_address region,
        pool <| v_free := free |> <| v_allocated := <[r_address region := size]> (v_allocated pool) |>).

(** [regions.sort_by_key(|region| region.address)], a stable insertion sort *)
Fixpoint insert_region (r : FreeRegion) (l : list FreeRegion) : list FreeRegion :=
  match l with
  | [] => [r]
  | s :: l' => if r_address r <=? r_address s then r :: l else s :: insert_region r l'
  end.
Definition sort_regions (l : list FreeRegion) : list FreeRegion := foldr insert_region [] l.

(** The merging pass; [previous] is the last region of the output. *)
Fixpoint merge_regions (previous : FreeRegion) (l : list FreeRegion)
    : outcome KernelError (list FreeRegion) :=
  match l with
  | [] => Ok [previous]
  | region :: l =>
      if bool_decide (checked_add_u 32 (r_address previous) (r_size previous)
                      = Some (r_address region))
      then
        let? size := expect (checked_add_u 32 (r_size previous) (r_size region)) in
        merge_regions (mkFreeRegion (r_address previous) size) l
      else let? rest := merge_regions region l in Ok (previous :: rest)
  end.

Definition coalesce_regions (regions : list FreeRegion) : outcome KernelError (list FreeRegion) :=
  match sort_regions regions with
  | [] => Ok []
  | region :: l => merge_regions region l
  end.

Definition wait_event (id : Z) : Z := WAIT_EVENT_BASE + id.
Definition alarm_event (id : Z) : Z := ALARM_EVENT_BASE + id.

(** [iter.min_by_key(..)]: the first entry with the least priority and ready order *)
Definition runs_before (a b : Thread) : bool :=
  (current_priority a <? current_priority b) ||
  ((current_priority a =? current_priority b) && (ready_order a <? ready_order b)).

Fixpoint first_to_run (l : list (Z * Thread)) : option (Z * Thread) :=
  match l with
  | [] => None
  | a :: l =>
      match first_to_run l with
      | Some b => if runs_before b.2 a.2 then Some b else Some a
      | None => Some a
      end
  end.

(** The deadline of an optional timeout. *)
Definition deadline_after (now : Z) (timeout : option Z) : outcome BiosError (option Z) :=
  match timeout with
  | None => Ok None
  | Some ticks => omapok Some (map_err Clock_error (Deadline.checked_advance now ticks))
  end.

(** ** Operations

    An operation that fails keeps the changes it made before the error. *)

Module Kernel.

Notation result A := (outcome KernelError A * Kernel)%type.
Notation action A := (outcome KernelError A * (Kernel * CpuContext))%type.
Notation bios_action A := (outcome BiosError A * (Kernel * CpuContext))%type.

Definition new : Kernel :=
  mkKernel (FixedTable.new 1) (FixedTable.new 1) (FixedTable.new 1) (FixedTable.new 1)
    (FixedTable.new 1) (FixedTable.new 1) (FixedTable.new 1) Scheduler.new 0 None 0 [].

Definition reset (k : Kernel) : Kernel := new.

Definition thread (id : Z) (k : Kernel) : option Thread := FixedTable.get (threads k) id.
Definition next_deadline (k : Kernel) : option Z := Scheduler.next_deadline (scheduler k).

(** The writes through [get_mut] of the tables. *)
Definition put_thread (id : Z) (t : Thread) (k : Kernel) : Kernel :=
  k <| threads := FixedTable.put id t (threads k) |>.
Definition put_semaphore (id : Z) (s : Semaphore) (k : Kernel) : Kernel :=
  k <| semaphores := FixedTable.put id s (semaphores k) |>.
Definition put_event_flag (id : Z) (e : EventFlag) (k : Kernel) : Kernel :=
  k <| event_flags := FixedTable.put id e (event_flags k) |>.
Definition put_message_box (id : Z) (m : MessageBox) (k : Kernel) : Kernel :=
  k <| message_boxes := FixedTable.put id m (message_boxes k) |>.
Definition put_fixed_pool (id : Z) (p : FixedPool) (k : Kernel) : Kernel :=
  k <| fixed_pools := FixedTable.put id p (fixed_pools k) |>.
Definition put_variable_pool (id : Z) (p : VariablePool) (k : Kernel) : Kernel :=
  k <| variable_pools := FixedTable.put id p (variable_pools k) |>.

(** *** Scheduling *)

Definition take_ready_order (k : Kernel) : result Z :=
  match checked_add_u 64 (next_ready_order k) 1 with
  | None => (Err NoMemory, k)
  | Some next => (Ok (next_ready_order k), k <| next_ready_order := next |>)
  end.

Definition best_ready (k : Kernel) : option Z :=
  fst <$> first_to_run (filter (fun e => state e.2 = Ready) (FixedTable.iter (threads k))).

Definition wait_matches (id : Z) (expected : WaitReason) (k : Kernel) : bool :=
  from_option (fun t => bool_decide (state t = Waiting expected)) false (thread id k).

(** Whether the current thread yields to the candidate. *)
Definition should_switch (force : bool) (candidate : option Z) (k : Kernel)
    : outcome KernelError bool :=
  match current_thread k, candidate with
  | None, Some _ => Ok true
  | _, None => Ok false
  | Some current, Some candidate =>
      let? c := ok_or (thread current k) UnknownThreadId in
      let? n := ok_or (thread candidate k) UnknownThreadId in
      Ok (force || (current_priority n <? current_priority c))
  end.

(** The running thread goes back to the ready queue. *)
Definition preempt (context : CpuContext) (k : Kernel) : result unit :=
  match current_thread k with
  | None => (Ok tt, k)
  | Some current =>
      let k := k <| current_thread := None |> in
      let! (order, k) := take_ready_order k in
      match thread current k with
      | None => (Err UnknownThreadId, k)
      | Some t =>
          (Ok tt, put_thread current
                    (t <| saved_context := context |> <| ready_order := order |> <| state := Ready |>) k)
      end
  end.

Definition select (previous : option Z) (force : bool) (k : Kernel) (context : CpuContext)
    : action ScheduleAction :=
  let candidate := best_ready k in
  match should_switch force candidate k with
  | Err e => (Err e, (k, context))
  | Panic => (Panic, (k, context))
  | Ok false => (Ok (mkScheduleAction previous (current_thread k) false), (k, context))
  | Ok true =>
      let (r, k) := preempt context k in
      match r with
      | Err e => (Err e, (k, context))
      | Panic => (Panic, (k, context))
      | Ok _ =>
          match candidate with
          | None => (Err IllegalContext, (k, context))
          | Some candidate =>
              match thread candidate k with
              | None => (Err UnknownThreadId, (k, context))
              | Some t =>
                  (Ok (mkScheduleAction previous (Some candidate)
                         (negb (bool_decide (previous = Some candidate)))),
                   (put_thread candidate (t <| state := Running |>) k
                      <| current_thread := Some candidate |>, saved_context t))
              end
          end
      end
  end.

Definition block_current (reason : WaitReason) (deadline : option Z) (k : Kernel)
    (context : CpuContext) : action ScheduleAction :=
  match current_thread k with
  | None => (Err CannotWait, (k, context))
  | Some id =>
      let k := k <| current_thread := None |> in
      match thread id k with
      | None => (Err UnknownThreadId, (k, context))
      | Some t =>
          let k := put_thread id (t <| saved_context := context |> <| state := Waiting reason |>) k in
          match deadline with
          | None => select (Some id) true k context
          | Some deadline =>
              let (r, q) := Scheduler.schedule (scheduler k) (wait_event id) deadline in
              let k := k <| scheduler := q |> in
              match r with
              | Ok _ => select (Some id) true k context
              | Err _ => (Err NoMemory, (k, context))
              | Panic => (Panic, (k, context))
              end
          end
      end
  end.

Definition complete_wait (id outcome_code : Z) (value : option Z) (k : Kernel) : result unit :=
  let k := k <| scheduler := (Scheduler.cancel (scheduler k) (wait_event id)).2 |> in
  let! (order, k) := take_ready_order k in
  match thread id k with
  | None => (Err UnknownThreadId, k)
  | Some t =>
      match state t with
      | Waiting _ =>
          let c := CpuContext.set_register V0 (of_i 32 outcome_code) (saved_context t) in
          let c := match value with
                   | Some value => CpuContext.set_register V1 value c
                   | None => c
                   end in
          (Ok tt, put_thread id
                    (t <| saved_context := c |> <| ready_order := order |> <| state := Ready |>) k)
      | _ => (Err NotWaiting, k)
      end
  end.

Definition remove_waiter (id : Z) (reason : WaitReason) (k : Kernel) : Kernel :=
  match reason with
  | Sleep | Delay | VBlankStart | VBlankEnd | ModuleStart _ => k
  | Semaphore_wait object =>
      match FixedTable.get (semaphores k) object with
      | Some s => put_semaphore object (s <| s_waiters := forget id (s_waiters s) |>) k
      | None => k
      end
  | EventFlag_wait object _ _ =>
      match FixedTable.get (event_flags k) object with
      | Some e => put_event_flag object (e <| e_waiters := forget id (e_waiters e) |>) k
      | None => k
      end
  | MessageBox_wait object =>
      match FixedTable.get (message_boxes k) object with
      | Some m => put_message_box object (m <| m_waiters := forget id (m_waiters m) |>) k
      | None => k
      end
  | FixedPool_wait object =>
      match FixedTable.get (fixed_pools k) object with
      | Some p => put_fixed_pool object (p <| f_waiters := forget id (f_waiters p) |>) k
      | None => k
      end
  | VariablePool_wait object _ =>
      match FixedTable.get (variable_pools k) object with
      | Some p => put_variable_pool object (p <| v_waiters := forget id (v_waiters p) |>) k
      | None => k
      end
  end.

Definition is_waiting (t : Thread) : bool :=
  match state t with Waiting _ => true | _ => false end.

Fixpoint release_deleted_waiters (waiters : list Z) (k : Kernel) : result unit :=
  match waiters with
  | [] => (Ok tt, k)
  | id :: waiters =>
      if from_option is_waiting false (thread id k) then
        let! (_u, k) := complete_wait id (code WaitDeleted) None k in
        release_deleted_waiters waiters k
      else release_deleted_waiters waiters k
  end.

(** *** Threads *)

Definition create_thread (s : ThreadSpec) (guest_range : GuestRange) (k : Kernel) : result Z :=
  match (let? _ := validate_thread_attributes (thread_attributes s) in
         let? _ := validate_priority (spec_priority s) in
         if stack_size s <? MIN_STACK_SIZE then Err IllegalStackSize
         else
           let? _ := validate_entry guest_range (entry s) in
           let? _ := map_err (fun _ => IllegalStackSize)
                       (GuestRange.validate guest_range (stack s) (stack_size s) 16) in
           ok_or (checked_add_u 32 (stack s) (stack_size s)) IllegalStackSize) with
  | Err e => (Err e, k)
  | Panic => (Panic, k)
  | Ok stack_top =>
      let t := mkThread s (CpuContext.reset (entry s) stack_top) Dormant (spec_priority s) 0 0 in
      let (r, table) := FixedTable.insert t (threads k) in
      (r, k <| threads := table |>)
  end.

(** The context a thread starts with: its entry, stack, arguments and return address. *)
Definition start_context (s : ThreadSpec) (arguments : list Z) (return_address : Z) : CpuContext :=
  let c := CpuContext.reset (entry s) (wrap 32 (stack s + stack_size s)) in
  let c := CpuContext.set_register A0 (nth 0 arguments 0) c in
  let c := CpuContext.set_register A1 (nth 1 arguments 0) c in
  let c := CpuContext.set_register A2 (nth 2 arguments 0) c in
  let c := CpuContext.set_register A3 (nth 3 arguments 0) c in
  let c := CpuContext.set_register GP (global_pointer s) c in
  CpuContext.set_register RA return_address c.

Definition start_thread_with_context (id : Z) (arguments : list Z) (return_address : Z)
    (k : Kernel) : result unit :=
  match thread id k with
  | None => (Err UnknownThreadId, k)
  | Some t =>
      if negb (bool_decide (state t = Dormant)) then (Err NotDormant, k)
      else
        let! (order, k) := take_ready_order k in
        match thread id k with
        | None => (Err UnknownThreadId, k)
        | Some t =>
            (Ok tt, put_thread id
              (t <| saved_context := start_context (spec t) arguments return_address |>
                 <| current_priority := spec_priority (spec t) |>
                 <| wakeup_count := 0 |> <| ready_order := order |> <| state := Ready |>) k)
        end
  end.

Definition start_thread (id argument : Z) : Kernel -> result unit :=
  start_thread_with_context id [argument; 0; 0; 0] THREAD_RETURN_ENTRY.

Definition wait_module_start (child : Z) (k : Kernel) (context : CpuContext)
    : action ScheduleAction :=
  if from_option (fun t => bool_decide (state t = Ready)) false (thread child k)
  then block_current (ModuleStart child) None k context
  else (Err UnknownThreadId, (k, context)).

Definition complete_module_start (requester child module_id resident : Z) (k : Kernel)
    : result unit :=
  if negb (wait_matches requester (ModuleStart child) k) then (Err NotWaiting, k)
  else
    let! (module_id, k) := (ok_or (try_from_u 31 module_id) IllegalObject, k) in
    complete_wait requester module_id (Some resident) k.

Definition delete_thread (id : Z) (k : Kernel) : result Thread :=
  match thread id k with
  | None => (Err UnknownThreadId, k)
  | Some t =>
      if negb (bool_decide (state t = Dormant)) then (Err NotDormant, k)
      else
        let (removed, table) := FixedTable.remove id (threads k) in
        (ok_or removed UnknownThreadId, k <| threads := table |>)
  end.

Definition cancel_wait (id : Z) (k : Kernel) : Kernel :=
  k <| scheduler := (Scheduler.cancel (scheduler k) (wait_event id)).2 |>.

Definition exit_current (k : Kernel) (context : CpuContext) : action ScheduleAction :=
  match current_thread k with
  | None => (Err IllegalContext, (k, context))
  | Some id =>
      let k := k <| current_thread := None |> in
      match thread id k with
      | None => (Err UnknownThreadId, (k, context))
      | Some t =>
          let k := put_thread id
            (t <| saved_context := context |> <| state := Dormant |> <| wakeup_count := 0 |>) k in
          select (Some id) true (cancel_wait id k) context
      end
  end.

Definition exit_delete_current (k : Kernel) (context : CpuContext) : action ScheduleAction :=
  match current_thread k with
  | None => (Err IllegalContext, (k, context))
  | Some id =>
      let k := cancel_wait id (k <| current_thread := None |>) in
      let (removed, table) := FixedTable.remove id (threads k) in
      let k := k <| threads := table |> in
      match removed with
      | None => (Err UnknownThreadId, (k, context))
      | Some _ => select (Some id) true k context
      end
  end.

Definition change_priority (id priority : Z) (k : Kernel) : result Z :=
  match thread id k with
  | None => (Err UnknownThreadId, k)
  | Some t =>
      if priority =? 0 then (Ok (current_priority t), k)
      else
        let! (_u, k) := (validate_priority priority, k) in
        (Ok (current_priority t), put_thread id (t <| current_priority := priority |>) k)
  end.

Definition reschedule (reason : RescheduleReason) (k : Kernel) (context : CpuContext)
    : action ScheduleAction :=
  let force := match reason with Yield => true | _ => false end in
  match current_thread k with
  | None => select None force k context
  | Some id =>
      match thread id k with
      | None => (Err UnknownThreadId, (k, context))
      | Some t =>
          if negb (bool_decide (state t = Running)) then (Err IllegalContext, (k, context))
          else select (Some id) force (put_thread id (t <| saved_context := context |>) k) context
      end
  end.

Definition sleep_current (k : Kernel) (context : CpuContext) : action ScheduleAction :=
  match current_thread k with
  | None => (Err IllegalContext, (k, context))
  | Some id =>
      match thread id k with
      | None => (Err UnknownThreadId, (k, context))
      | Some t =>
          if negb (wakeup_count t =? 0) then
            (Ok (mkScheduleAction (Some id) (Some id) false),
             (put_thread id (t <| wakeup_count := wakeup_count t - 1 |>) k, context))
          else block_current Sleep None k context
      end
  end.

Definition wakeup_thread (id : Z) (k : Kernel) : result bool :=
  match thread id k with
  | None => (Err UnknownThreadId, k)
  | Some t =>
      if bool_decide (state t = Waiting Sleep) then
        let! (_u, k) := complete_wait id 0 None k in (Ok true, k)
      else
        match checked_add_u 32 (wakeup_count t) 1 with
        | None => (Err NoMemory, k)
        | Some n => (Ok false, put_thread id (t <| wakeup_count := n |>) k)
        end
  end.

Definition delay_current (ticks : Z) (k : Kernel) (context : CpuContext)
    : bios_action ScheduleAction :=
  if ticks =? 0 then bios (reschedule Yield k context)
  else
    match Deadline.checked_advance (now k) ticks with
    | Err e => (Err (Clock_error e), (k, context))
    | Panic => (Panic, (k, context))
    | Ok deadline => bios (block_current Delay (Some deadline) k context)
    end.

Definition vblank_reason (phase : Z) : outcome KernelError WaitReason :=
  if phase =? 0 then Ok VBlankStart
  else if phase =? 1 then Ok VBlankEnd
  else Err IllegalObject.

Definition wait_vblank (phase : Z) (k : Kernel) (context : CpuContext) : action ScheduleAction :=
  match vblank_reason phase with
  | Ok reason => block_current reason None k context
  | Err e => (Err e, (k, context))
  | Panic => (Panic, (k, context))
  end.

(** Complete the wait of every listed thread. *)
Fixpoint complete_all (waiters : list Z) (k : Kernel) : result unit :=
  match waiters with
  | [] => (Ok tt, k)
  | id :: waiters =>
      let! (_u, k) := complete_wait id 0 None k in complete_all waiters k
  end.

Definition notify_vblank (phase : Z) (k : Kernel) : result (list Z) :=
  let! (reason, k) := (vblank_reason phase, k) in
  let waiters :=
    fst <$> filter (fun e => state e.2 = Waiting reason) (FixedTable.iter (threads k)) in
  let! (_u, k) := complete_all waiters k in (Ok waiters, k).

Definition release_wait (id : Z) (k : Kernel) : result unit :=
  match thread id k with
  | None => (Err UnknownThreadId, k)
  | Some t =>
      match state t with
      | Waiting reason => complete_wait id (code ReleaseWait) None (remove_waiter id reason k)
      | _ => (Err NotWaiting, k)
      end
  end.

(** *** Semaphores *)

Definition create_semaphore (s : SemaphoreSpec) (k : Kernel) : result Z :=
  let! (_u, k) := (validate_attributes (ss_attributes s), k) in
  if (ss_maximum s =? 0) || (ss_maximum s <? initial s) then (Err IllegalSize, k)
  else
    let (r, table) := FixedTable.insert
      (mkSemaphore (initial s) (ss_maximum s) (ss_attributes s) []) (semaphores k) in
    (r, k <| semaphores := table |>).

Definition delete_semaphore (id : Z) (k : Kernel) : result unit :=
  let (removed, table) := FixedTable.remove id (semaphores k) in
  let k := k <| semaphores := table |> in
  match removed with
  | None => (Err UnknownSemaphoreId, k)
  | Some s => release_deleted_waiters (s_waiters s) k
  end.

Definition wait_semaphore (id : Z) (timeout : option Z) (k : Kernel) (context : CpuContext)
    : bios_action (option ScheduleAction) :=
  match FixedTable.get (semaphores k) id with
  | None => (Err (Kernel_error UnknownSemaphoreId), (k, context))
  | Some s =>
      if negb (count s =? 0) then
        (Ok None, (put_semaphore id (s <| count := count s - 1 |>) k, context))
      else
        match current_thread k with
        | None => (Err (Kernel_error CannotWait), (k, context))
        | Some thread_id =>
            let waiters := insert_waiter (s_waiters s) thread_id (s_attributes s) (threads k) in
            let k := put_semaphore id (s <| s_waiters := waiters |>) k in
            match deadline_after (now k) timeout with
            | Err e => (Err e, (k, context))
            | Panic => (Panic, (k, context))
            | Ok deadline =>
                let (r, s) := block_current (Semaphore_wait id) deadline k context in
                (omapok Some (map_err Kernel_error r), s)
            end
        end
  end.

Definition poll_semaphore (id : Z) (k : Kernel) : result unit :=
  match FixedTable.get (semaphores k) id with
  | None => (Err UnknownSemaphoreId, k)
  | Some s =>
      if count s =? 0 then (Err SemaphoreZero, k)
      else (Ok tt, put_semaphore id (s <| count := count s - 1 |>) k)
  end.

(** One iteration per queued waiter, and one for the empty queue. *)
Fixpoint signal_loop (fuel : nat) (id : Z) (k : Kernel) : result (option Z) :=
  match fuel with
  | O => (Panic, k)
  | S fuel =>
      match FixedTable.get (semaphores k) id with
      | None => (Err UnknownSemaphoreId, k)
      | Some s =>
          match s_waiters s with
          | [] =>
              if count s =? maximum s then (Err SemaphoreOverflow, k)
              else
                let! (n, k) := (expect (checked_add_u 32 (count s) 1), k) in
                (Ok None, put_semaphore id (s <| count := n |>) k)
          | thread_id :: rest =>
              let k := put_semaphore id (s <| s_waiters := rest |>) k in
              if wait_matches thread_id (Semaphore_wait id) k then
                let! (_u, k) := complete_wait thread_id 0 None k in (Ok (Some thread_id), k)
              else signal_loop fuel id k
          end
      end
  end.

Definition signal_semaphore (id : Z) (k : Kernel) : result (option Z) :=
  signal_loop (S (from_option (fun s => length (s_waiters s)) O (FixedTable.get (semaphores k) id)))
    id k.

(** *** Event flags *)

Definition create_event_flag (s : EventFlagSpec) (k : Kernel) : result Z :=
  if negb (es_attributes s .& bnot 32 0x103 =? 0) then (Err IllegalAttribute, k)
  else
    let (r, table) := FixedTable.insert
      (mkEventFlag (es_bits s) (es_attributes s) []) (event_flags k) in
    (r, k <| event_flags := table |>).

Definition delete_event_flag (id : Z) (k : Kernel) : result unit :=
  let (removed, table) := FixedTable.remove id (event_flags k) in
  let k := k <| event_flags := table |> in
  match removed with
  | None => (Err UnknownEventFlagId, k)
  | Some e => release_deleted_waiters (e_waiters e) k
  end.

(** [inl] is an immediate answer, [inr] a scheduling decision. *)
Definition wait_event_flag (id pattern mode : Z) (timeout : option Z) (k : Kernel)
    (context : CpuContext) : bios_action (Z + ScheduleAction) :=
  match validate_event_wait pattern mode with
  | Err e => (Err (Kernel_error e), (k, context))
  | Panic => (Panic, (k, context))
  | Ok _ =>
      match current_thread k with
      | None => (Err (Kernel_error CannotWait), (k, context))
      | Some thread_id =>
          match FixedTable.get (event_flags k) id with
          | None => (Err (Kernel_error UnknownEventFlagId), (k, context))
          | Some e =>
              match consume_event_bits e pattern mode with
              | Some (value, e) => (Ok (inl value), (put_event_flag id e k, context))
              | None =>
                  if (e_attributes e .& 2 =? 0) && negb (bool_decide (e_waiters e = []))
                  then (Err (Kernel_error EventFlagMultiple), (k, context))
                  else
                    let waiters :=
                      insert_waiter (e_waiters e) thread_id (e_attributes e .& 1) (threads k) in
                    let k := put_event_flag id (e <| e_waiters := waiters |>) k in
                    match deadline_after (now k) timeout with
                    | Err e => (Err e, (k, context))
                    | Panic => (Panic, (k, context))
                    | Ok deadline =>
                        let (r, s) :=
                          block_current (EventFlag_wait id pattern mode) deadline k context in
                        (omapok inr (map_err Kernel_error r), s)
                    end
              end
          end
      end
  end.

Definition poll_event_flag (id pattern mode : Z) (k : Kernel) : result Z :=
  let! (_u, k) := (validate_event_wait pattern mode, k) in
  match FixedTable.get (event_flags k) id with
  | None => (Err UnknownEventFlagId, k)
  | Some e =>
      match consume_event_bits e pattern mode with
      | None => (Err EventFlagCondition, k)
      | Some (value, e) => (Ok value, put_event_flag id e k)
      end
  end.

(** The pattern and mode a queued thread still waits for. *)
Definition flag_wait (id thread_id : Z) (k : Kernel) : option (Z * Z) :=
  t ← thread thread_id k;
  match state t with
  | Waiting (EventFlag_wait wait_id pattern mode) =>
      if wait_id =? id then Some (pattern, mode) else None
  | _ => None
  end.

(** The pass over the queue taken from the flag. *)
Fixpoint set_flag_loop (queued : list Z) (id : Z) (retained ready : list Z) (k : Kernel)
    : result (list Z * list Z) :=
  match queued with
  | [] => (Ok (retained, ready), k)
  | thread_id :: queued =>
      match flag_wait id thread_id k with
      | None => set_flag_loop queued id retained ready k
      | Some (pattern, mode) =>
          match FixedTable.get (event_flags k) id with
          | None => (Err UnknownEventFlagId, k)
          | Some e =>
              match consume_event_bits e pattern mode with
              | Some (value, e) =>
                  let! (_u, k) := complete_wait thread_id 0 (Some value) (put_event_flag id e k) in
                  set_flag_loop queued id retained (ready ++ [thread_id]) k
              | None => set_flag_loop queued id (retained ++ [thread_id]) ready k
              end
          end
      end
  end.

Definition set_event_flag (id bits_ : Z) (k : Kernel) : result (list Z) :=
  match FixedTable.get (event_flags k) id with
  | None => (Err UnknownEventFlagId, k)
  | Some e =>
      let queued := e_waiters e in
      let k := put_event_flag id (e <| bits := bits e .| bits_ |> <| e_waiters := [] |>) k in
      let! (out, k) := set_flag_loop queued id [] [] k in
      match FixedTable.get (event_flags k) id with
      | None => (Err UnknownEventFlagId, k)
      | Some e => (Ok out.2, put_event_flag id (e <| e_waiters := out.1 |>) k)
      end
  end.

Definition clear_event_flag (id mask : Z) (k : Kernel) : result Z :=
  match FixedTable.get (event_flags k) id with
  | None => (Err UnknownEventFlagId, k)
  | Some e => (Ok (bits e), put_event_flag id (e <| bits := bits e .& mask |>) k)
  end.

(** *** Message boxes *)

Definition create_message_box (s : MessageBoxSpec) (k : Kernel) : result Z :=
  let! (_u, k) := (validate_attributes (ms_attributes s), k) in
  let (r, table) := FixedTable.insert (mkMessageBox (ms_attributes s) [] []) (message_boxes k) in
  (r, k <| message_boxes := table |>).

Definition delete_message_box (id : Z) (k : Kernel) : result unit :=
  let (removed, table) := FixedTable.remove id (message_boxes k) in
  let k := k <| message_boxes := table |> in
  match removed with
  | None => (Err UnknownMessageBoxId, k)
  | Some m => release_deleted_waiters (m_waiters m) k
  end.

Fixpoint send_loop (fuel : nat) (id message : Z) (k : Kernel) : result (option Z) :=
  match fuel with
  | O => (Panic, k)
  | S fuel =>
      match FixedTable.get (message_boxes k) id with
      | None => (Err UnknownMessageBoxId, k)
      | Some m =>
          match m_waiters m with
          | [] => (Ok None, put_message_box id (m <| messages := messages m ++ [message] |>) k)
          | thread_id :: rest =>
              let k := put_message_box id (m <| m_waiters := rest |>) k in
              if wait_matches thread_id (MessageBox_wait id) k then
                let! (_u, k) := complete_wait thread_id 0 (Some message) k in
                (Ok (Some thread_id), k)
              else send_loop fuel id message k
          end
      end
  end.

Definition send_message (id message : Z) (k : Kernel) : result (option Z) :=
  if (message =? 0) || has_bits message 3 then (Err IllegalObject, k)
  else
    send_loop
      (S (from_option (fun m => length (m_waiters m)) O (FixedTable.get (message_boxes k) id)))
      id message k.

Definition receive_message (id : Z) (timeout : option Z) (k : Kernel) (context : CpuContext)
    : bios_action (Z + ScheduleAction) :=
  match current_thread k with
  | None => (Err (Kernel_error CannotWait), (k, context))
  | Some thread_id =>
      match FixedTable.get (message_boxes k) id with
      | None => (Err (Kernel_error UnknownMessageBoxId), (k, context))
      | Some m =>
          match messages m with
          | message :: rest =>
              (Ok (inl message), (put_message_box id (m <| messages := rest |>) k, context))
          | [] =>
              let waiters := insert_waiter (m_waiters m) thread_id (m_attributes m) (threads k) in
              let k := put_message_box id (m <| m_waiters := waiters |>) k in
              match deadline_after (now k) timeout with
              | Err e => (Err e, (k, context))
              | Panic => (Panic, (k, context))
              | Ok deadline =>
                  let (r, s) := block_current (MessageBox_wait id) deadline k context in
                  (omapok inr (map_err Kernel_error r), s)
              end
          end
      end
  end.

Definition poll_message (id : Z) (k : Kernel) : result Z :=
  match FixedTable.get (message_boxes k) id with
  | None => (Err UnknownMessageBoxId, k)
  | Some m =>
      match messages m with
      | [] => (Err MessageBoxNoMessage, k)
      | message :: rest => (Ok message, put_message_box id (m <| messages := rest |>) k)
      end
  end.

(** *** Fixed pools *)

(** The blocks [base + index * block_size] of a new pool. *)
Fixpoint pool_blocks (base block_size index : Z) (n : nat) : outcome KernelError (list Z) :=
  match n with
  | O => Ok []
  | S n =>
      let? offset := expect (checked_mul_u 32 index block_size) in
      let? block := expect (checked_add_u 32 base offset) in
      let? rest := pool_blocks base block_size (index + 1) n in
      Ok (block :: rest)
  end.

Definition create_fixed_pool (s : FixedPoolSpec) (guest_range : GuestRange) (k : Kernel)
    : result Z :=
  match (let? _ := validate_attributes (fs_attributes s) in
         if (fs_block_size s =? 0) || (blocks s =? 0) || has_bits (fs_block_size s) 3
         then Err IllegalMemorySize
         else
           let? size := ok_or (checked_mul_u 32 (fs_block_size s) (blocks s)) IllegalMemorySize in
           let? _ := map_err (fun _ => IllegalMemoryBlock)
                       (GuestRange.validate guest_range (fs_base s) size 4) in
           pool_blocks (fs_base s) (fs_block_size s) 0 (Z.to_nat (blocks s))) with
  | Err e => (Err e, k)
  | Panic => (Panic, k)
  | Ok free =>
      let (r, table) := FixedTable.insert
        (mkFixedPool (fs_attributes s) (fs_block_size s) free ∅ []) (fixed_pools k) in
      (r, k <| fixed_pools := table |>)
  end.

Definition delete_fixed_pool (id : Z) (k : Kernel) : result unit :=
  match FixedTable.get (fixed_pools k) id with
  | None => (Err UnknownFixedPoolId, k)
  | Some p =>
      if negb (bool_decide (f_allocated p = ∅)) then (Err MemoryInUse, k)
      else
        let (removed, table) := FixedTable.remove id (fixed_pools k) in
        let k := k <| fixed_pools := table |> in
        match removed with
        | None => (Err UnknownFixedPoolId, k)
        | Some p => release_deleted_waiters (f_waiters p) k
        end
  end.

Definition allocate_fixed (id : Z) (timeout : option Z) (k : Kernel) (context : CpuContext)
    : bios_action (Z + ScheduleAction) :=
  match current_thread k with
  | None => (Err (Kernel_error CannotWait), (k, context))
  | Some thread_id =>
      match FixedTable.get (fixed_pools k) id with
      | None => (Err (Kernel_error UnknownFixedPoolId), (k, context))
      | Some p =>
          match f_free p with
          | address :: rest =>
              (Ok (inl address),
               (put_fixed_pool id (p <| f_free := rest |>
                  <| f_allocated := {[address]} ∪ f_allocated p |>) k, context))
          | [] =>
              let waiters := insert_waiter (f_waiters p) thread_id (f_attributes p) (threads k) in
              let k := put_fixed_pool id (p <| f_waiters := waiters |>) k in
              match deadline_after (now k) timeout with
              | Err e => (Err e, (k, context))
              | Panic => (Panic, (k, context))
              | Ok deadline =>
                  let (r, s) := block_current (FixedPool_wait id) deadline k context in
                  (omapok inr (map_err Kernel_error r), s)
              end
          end
      end
  end.

Fixpoint free_fixed_loop (fuel : nat) (id address : Z) (k : Kernel) : result (option Z) :=
  match fuel with
  | O => (Panic, k)
  | S fuel =>
      match FixedTable.get (fixed_pools k) id with
      | None => (Err UnknownFixedPoolId, k)
      | Some p =>
          match f_waiters p with
          | [] => (Ok None, put_fixed_pool id (p <| f_free := f_free p ++ [address] |>) k)
          | thread_id :: rest =>
              let p := p <| f_waiters := rest |> in
              let k := put_fixed_pool id p k in
              if wait_matches thread_id (FixedPool_wait id) k then
                let k := put_fixed_pool id
                  (p <| f_allocated := {[address]} ∪ f_allocated p |>) k in
                let! (_u, k) := complete_wait thread_id 0 (Some address) k in
                (Ok (Some thread_id), k)
              else free_fixed_loop fuel id address k
          end
      end
  end.

Definition free_fixed (id address : Z) (k : Kernel) : result (option Z) :=
  match FixedTable.get (fixed_pools k) id with
  | None => (Err UnknownFixedPoolId, k)
  | Some p =>
      if negb (bool_decide (address ∈ f_allocated p)) then (Err IllegalMemoryBlock, k)
      else
        free_fixed_loop (S (length (f_waiters p))) id address
          (put_fixed_pool id (p <| f_allocated := f_allocated p ∖ {[address]} |>) k)
  end.

Definition fixed_block_size (id : Z) (k : Kernel) : outcome KernelError Z :=
  ok_or (block_size <$> FixedTable.get (fixed_pools k) id) UnknownFixedPoolId.

(** *** Variable pools *)

Definition create_variable_pool (s : VariablePoolSpec) (guest_range : GuestRange) (k : Kernel)
    : result Z :=
  match (let? _ := validate_attributes (vs_attributes s) in
         if (vs_size s =? 0) || has_bits (vs_size s) 3 then Err IllegalMemorySize
         else
           map_err (fun _ => IllegalMemoryBlock)
             (GuestRange.validate guest_range (vs_base s) (vs_size s) 4)) with
  | Err e => (Err e, k)
  | Panic => (Panic, k)
  | Ok _ =>
      let (r, table) := FixedTable.insert
        (mkVariablePool (vs_attributes s) [mkFreeRegion (vs_base s) (vs_size s)] ∅ [])
        (variable_pools k) in
      (r, k <| variable_pools := table |>)
  end.

Definition delete_variable_pool (id : Z) (k : Kernel) : result unit :=
  match FixedTable.get (variable_pools k) id with
  | None => (Err UnknownVariablePoolId, k)
  | Some p =>
      if negb (bool_decide (v_allocated p = ∅)) then (Err MemoryInUse, k)
      else
        let (removed, table) := FixedTable.remove id (variable_pools k) in
        let k := k <| variable_pools := table |> in
        match removed with
        | None => (Err UnknownVariablePoolId, k)
        | Some p => release_deleted_waiters (v_waiters p) k
        end
  end.

Definition allocate_variable (id size : Z) (timeout : option Z) (k : Kernel)
    (context : CpuContext) : bios_action (Z + ScheduleAction) :=
  match align_pool_size size with
  | Err e => (Err (Kernel_error e), (k, context))
  | Panic => (Panic, (k, context))
  | Ok size =>
      match current_thread k with
      | None => (Err (Kernel_error CannotWait), (k, context))
      | Some thread_id =>
          match FixedTable.get (variable_pools k) id with
          | None => (Err (Kernel_error UnknownVariablePoolId), (k, context))
          | Some p =>
              match allocate_region p size with
              | Some (address, p) => (Ok (inl address), (put_variable_pool id p k, context))
              | None =>
                  let waiters :=
                    insert_waiter (v_waiters p) thread_id (v_attributes p) (threads k) in
                  let k := put_variable_pool id (p <| v_waiters := waiters |>) k in
                  match deadline_after (now k) timeout with
                  | Err e => (Err e, (k, context))
                  | Panic => (Panic, (k, context))
                  | Ok deadline =>
                      let (r, s) :=
                        block_current (VariablePool_wait id size) deadline k context in
                      (omapok inr (map_err Kernel_error r), s)
                  end
              end
          end
      end
  end.

(** The size a queued thread still waits for. *)
Definition pool_wait (id thread_id : Z) (k : Kernel) : option Z :=
  t ← thread thread_id k;
  match state t with
  | Waiting (VariablePool_wait wait_id size) => if wait_id =? id then Some size else None
  | _ => None
  end.

Fixpoint serve_pool_loop (queued : list Z) (id : Z) (retained ready : list Z) (k : Kernel)
    : result (list Z * list Z) :=
  match queued with
  | [] => (Ok (retained, ready), k)
  | thread_id :: queued =>
      match pool_wait id thread_id k with
      | None => serve_pool_loop queued id retained ready k
      | Some requested =>
          match FixedTable.get (variable_pools k) id with
          | None => (Err UnknownVariablePoolId, k)
          | Some p =>
              match allocate_region p requested with
              | Some (block, p) =>
                  let! (_u, k) :=
                    complete_wait thread_id 0 (Some block) (put_variable_pool id p k) in
                  serve_pool_loop queued id retained (ready ++ [thread_id]) k
              | None => serve_pool_loop queued id (retained ++ [thread_id]) ready k
              end
          end
      end
  end.

Definition free_variable (id address : Z) (k : Kernel) : result (list Z) :=
  match FixedTable.get (variable_pools k) id with
  | None => (Err UnknownVariablePoolId, k)
  | Some p =>
      match v_allocated p !! address with
      | None => (Err IllegalMemoryBlock, k)
      | Some size =>
          match coalesce_regions (v_free p ++ [mkFreeRegion address size]) with
          | Err e => (Err e, k)
          | Panic => (Panic, k)
          | Ok free =>
              let queued := v_waiters p in
              let k := put_variable_pool id
                (p <| v_allocated := delete address (v_allocated p) |> <| v_free := free |>
                   <| v_waiters := [] |>) k in
              let! (out, k) := serve_pool_loop queued id [] [] k in
              match FixedTable.get (variable_pools k) id with
              | None => (Err UnknownVariablePoolId, k)
              | Some p => (Ok out.2, put_variable_pool id (p <| v_waiters := out.1 |>) k)
              end
          end
      end
  end.

(** *** Alarms and time *)

Definition set_alarm (delay entry argument : Z) (guest_range : GuestRange) (k : Kernel)
    : outcome BiosError Z * Kernel :=
  match (let? _ := map_err Kernel_error (validate_entry guest_range entry) in
         let? deadline := map_err Clock_error (Deadline.checked_advance (now k) delay) in
         let? id := ok_or (FixedTable.next_id (alarms k)) (Kernel_error NoMemory) in
         Ok (deadline, id)) with
  | Err e => (Err e, k)
  | Panic => (Panic, k)
  | Ok (deadline, id) =>
      let (r, q) := Scheduler.schedule (scheduler k) (alarm_event id) deadline in
      let k := k <| scheduler := q |> in
      match r with
      | Err e => (Err (Scheduler_error e), k)
      | Panic => (Panic, k)
      | Ok _ =>
          let (r, table) := FixedTable.insert_at id (mkAlarm entry argument) (alarms k) in
          (map_err Kernel_error (omapok (fun _ => id) r), k <| alarms := table |>)
      end
  end.

Definition cancel_alarm (id : Z) (k : Kernel) : result Z :=
  let (removed, table) := FixedTable.remove id (alarms k) in
  let k := k <| alarms := table |> in
  match removed with
  | None => (Err IllegalObject, k)
  | Some a => (Ok (a_entry a), k <| scheduler := (Scheduler.cancel (scheduler k) (alarm_event id)).2 |>)
  end.

(** A due wait event: the waiting thread is released. *)
Definition expire_wait (id : Z) (k : Kernel) : result (list KernelEvent) :=
  match (t ← thread id k; match state t with Waiting reason => Some reason | _ => None end) with
  | None => (Ok [], k)
  | Some reason =>
      let k := remove_waiter id reason k in
      let outcome_code := if bool_decide (reason = Delay) then 0 else code ReleaseWait in
      let! (_u, k) := complete_wait id outcome_code None k in
      (Ok [ThreadReady id], k)
  end.

(** A due alarm: it is removed and its callback reported. *)
Definition fire_alarm (id : Z) (k : Kernel) : list KernelEvent * Kernel :=
  let (removed, table) := FixedTable.remove id (alarms k) in
  (match removed with
   | Some a => [AlarmEvent id (mkCallbackRequest (a_entry a) (a_argument a) RETURN_ENTRY id)]
   | None => []
   end, k <| alarms := table |>).

Fixpoint advance_loop (fuel : nat) (events : list KernelEvent) (k : Kernel)
    : result (list KernelEvent) :=
  match fuel with
  | O => (Panic, k)
  | S fuel =>
      let (due, q) := Scheduler.pop_due (scheduler k) (now k) in
      let k := k <| scheduler := q |> in
      match due with
      | None => (Ok events, k)
      | Some due =>
          let raw := ev_id due in
          if (WAIT_EVENT_BASE <=? raw) && (raw <? ALARM_EVENT_BASE) then
            let! (new_events, k) := expire_wait (raw - WAIT_EVENT_BASE) k in
            advance_loop fuel (events ++ new_events) k
          else if ALARM_EVENT_BASE <=? raw then
            let (new_events, k) := fire_alarm (raw - ALARM_EVENT_BASE) k in
            advance_loop fuel (events ++ new_events) k
          else advance_loop fuel events k
      end
  end.

(** One unit of fuel per pending event; the loop schedules none. *)
Definition advance_to (now_ : Z) (k : Kernel) : result (list KernelEvent) :=
  if now_ <? now k then (Err IllegalSize, k)
  else
    let k := k <| now := now_ |> in
    advance_loop (S (length (queue (scheduler k)))) [] k.

(** *** Callbacks *)

Definition enter_callback (callback : CallbackRequest) (k : Kernel) (context : CpuContext)
    : action unit :=
  if bool_decide (length (callback_contexts k) = CALLBACK_DEPTH)
  then (Err IllegalContext, (k, context))
  else
    (Ok tt, (k <| callback_contexts := callback_contexts k ++ [context] |>, apply callback context)).

Definition return_from_callback (k : Kernel) (context : CpuContext) : action unit :=
  match last (callback_contexts k) with
  | None => (Err IllegalContext, (k, context))
  | Some saved =>
      (Ok tt, (k <| callback_contexts := removelast (callback_contexts k) |>, saved))
  end.
End Kernel.
