(* ===== verification/IopKernelInv.v ===== *)
(** * The invariant of the IOP kernel

    [inv_but E] is the invariant of every kernel operation: the running thread is the
    current one, ready threads are ordered, every object is well formed, and a waiting
    thread is queued at its object and cannot be served yet - except for the waits in
    [E], which an operation is in the middle of completing. *)

From S2P Require Import Prelude Records MachineInt Clock Scheduler IopBase IopDispatch.
From S2P Require Import IopKernel.

(** ** Pools

    A variable pool's free regions and allocations stay disjoint through first-fit
    allocation, freeing and coalescing; an event pattern that is not satisfied stays
    unsatisfied when bits are only cleared. *)

(** ** Permutations of pairwise related lists *)

Lemma StronglySorted_Permutation {A} (R : relation A) `{!Symmetric R} (l l' : list A) :
  l ≡ₚ l' -> StronglySorted R l -> StronglySorted R l'.
Proof.
  induction 1 as [|x l l' Hp IH|x y l|l1 l2 l3 _ IH1 _ IH2]; intros Hs; auto.
  - apply StronglySorted_inv in Hs as [Hs Hx]. constructor; [auto|]. by rewrite <- Hp.
  - apply StronglySorted_inv in Hs as [Hs Hy]. apply StronglySorted_inv in Hs as [Hs Hx].
    apply Forall_cons in Hy as [Hyx Hy]. constructor; [by constructor|].
    constructor; [by symmetry|done].
Qed.

Lemma StronglySorted_app_iff {A} (R : relation A) (l l' : list A) :
  StronglySorted R (l ++ l') <->
  StronglySorted R l /\ StronglySorted R l' /\ forall x y, x ∈ l -> y ∈ l' -> R x y.
Proof.
  induction l as [|a l IH]; simpl.
  - split; [intros H; split_and!; [constructor|done|by intros x y []%elem_of_nil]|by intros (_ & ? & _)].
  - split.
    + intros [H1 H2]%StronglySorted_inv. apply IH in H1 as (H1 & H3 & H4).
      apply Forall_app in H2 as [H2 H5]. rewrite Forall_forall in H5.
      split_and!; [by constructor|done|]. intros x y [->|Hx]%elem_of_cons Hy; auto.
    + intros (H1 & H2 & H3). apply StronglySorted_inv in H1 as [H1 H4]. constructor.
      * apply IH. split_and!; [done|done|]. intros x y Hx. apply H3. by right.
      * apply Forall_app. split; [done|]. apply Forall_forall. intros y. apply H3. by left.
Qed.

Lemma insert_Permutation {A} (l : list A) i x y :
  l !! i = Some x -> <[i := y]> l ≡ₚ y :: delete i l.
Proof.
  revert i. induction l as [|z l IH]; intros [|i] H; simplify_eq/=; [done|].
  change (list_insert i y l) with (<[i := y]> l). rewrite (IH i H). apply Permutation_swap.
Qed.

(** ** Regions *)

Definition region_end (r : FreeRegion) : Z := r_address r + r_size r.

Record region_ok (r : FreeRegion) : Prop := {
  region_low : 0 <= r_address r;
  region_size : 0 < r_size r;
  region_high : region_end r < 2 ^ 32;
}.

Definition clear_of (a b : FreeRegion) : Prop :=
  region_end a <= r_address b \/ region_end b <= r_address a.

#[export] Instance clear_of_sym : Symmetric clear_of.
Proof. intros a b [H|H]; [by right|by left]. Qed.

(** Valid regions, pairwise disjoint. *)
Definition disjoint_regions (l : list FreeRegion) : Prop :=
  Forall region_ok l /\ StronglySorted clear_of l.

#[export] Instance disjoint_regions_proper : Proper ((≡ₚ) ==> iff) disjoint_regions.
Proof.
  intros l l' Hp. assert (Forall region_ok l <-> Forall region_ok l') as Hf by by rewrite Hp.
  unfold disjoint_regions. rewrite Hf. split; intros [H1 H2]; split; try done.
  - by apply (StronglySorted_Permutation _ _ _ Hp).
  - by apply (StronglySorted_Permutation _ _ _ (symmetry Hp)).
Qed.

Lemma disjoint_cons r l :
  disjoint_regions (r :: l) <-> region_ok r /\ Forall (clear_of r) l /\ disjoint_regions l.
Proof.
  unfold disjoint_regions. rewrite Forall_cons. split.
  - intros [[H1 H2] [H3 H4]%StronglySorted_inv]. done.
  - intros (H1 & H2 & H3 & H4). split; [done|]. by constructor.
Qed.

(** Two adjacent regions are as good as one. *)
Lemma disjoint_merge a n m l :
  disjoint_regions (mkFreeRegion a n :: mkFreeRegion (a + n) m :: l) ->
  disjoint_regions (mkFreeRegion a (n + m) :: l).
Proof.
  rewrite !disjoint_cons, Forall_cons. intros (H1 & [H2 H3] & H4 & H5 & H6).
  destruct H1 as [H11 H12 H13], H4 as [H41 H42 H43]. unfold region_end in *. cbn in *.
  split_and!; [constructor; unfold region_end; cbn; lia| |done].
  rewrite Forall_forall in H3. rewrite Forall_forall in H5. destruct H6 as [H6 _].
  rewrite Forall_forall in H6.
  apply Forall_forall. intros x Hx. specialize (H3 x Hx). specialize (H5 x Hx).
  destruct (H6 x Hx) as [_ Hs _]. unfold clear_of, region_end in *. cbn in *. lia.
Qed.

Lemma disjoint_split a n m l :
  0 < n -> 0 < m ->
  disjoint_regions (mkFreeRegion a (n + m) :: l) ->
  disjoint_regions (mkFreeRegion a n :: mkFreeRegion (a + n) m :: l).
Proof.
  intros Hn Hm. rewrite !disjoint_cons, Forall_cons. intros (H1 & H2 & H3).
  destruct H1 as [H11 H12 H13]. unfold region_end in *. cbn in *.
  split_and!; try done; try (constructor; unfold region_end; cbn; lia).
  - eapply Forall_impl; [exact H2|]. unfold clear_of, region_end. cbn. lia.
  - eapply Forall_impl; [exact H2|]. unfold clear_of, region_end. cbn. lia.
Qed.

(** ** Coalescing *)

Lemma sort_regions_perm l : sort_regions l ≡ₚ l.
Proof.
  assert (forall r k, insert_region r k ≡ₚ r :: k) as Hi.
  { intros r k. induction k as [|s k IH]; simpl; [done|]. case_match; [done|].
    rewrite IH. apply Permutation_swap. }
  induction l as [|r l IH]; simpl; [done|]. by rewrite Hi, IH.
Qed.

Lemma merge_regions_ok prev l rest :
  disjoint_regions (prev :: l ++ rest) ->
  exists out, merge_regions prev l = Ok out /\ disjoint_regions (out ++ rest).
Proof.
  revert prev rest. induction l as [|r l IH]; intros prev rest Hd; simpl; [by exists [prev]|].
  case_bool_decide as Ea.
  - apply checked_add_u_Some in Ea as [Ea Hlt]. destruct prev as [a n], r as [b m].
    cbn [r_address r_size] in *. subst b. apply disjoint_merge in Hd.
    pose proof Hd as [[_ _ Hh] _]%disjoint_cons. unfold region_end in Hh. cbn in Hh.
    pose proof Hd as [[Hl _ _] _]%disjoint_cons. cbn in Hl.
    rewrite (proj2 (checked_add_u_Some 32 n m _)) by (split; [done|lia]). cbn [expect obind].
    by apply IH.
  - assert (disjoint_regions (r :: l ++ (prev :: rest))) as Hd'.
    { rewrite <- Permutation_middle. cbn. by rewrite Permutation_swap. }
    destruct (IH r _ Hd') as (out & -> & Ho). exists (prev :: out). split; [done|].
    cbn. by rewrite Permutation_middle.
Qed.

Lemma coalesce_ok l rest :
  disjoint_regions (l ++ rest) ->
  exists out, coalesce_regions l = Ok out /\ disjoint_regions (out ++ rest).
Proof.
  intros Hd. unfold coalesce_regions. pose proof (sort_regions_perm l) as Hp.
  rewrite <- Hp in Hd. destruct (sort_regions l) as [|r k]; [by exists []|].
  by apply merge_regions_ok.
Qed.

(** ** Variable pools *)

Definition block_regions (allocated : gmap Z Z) : list FreeRegion :=
  (fun e : Z * Z => mkFreeRegion e.1 e.2) <$> map_to_list allocated.

Definition variable_ok (p : VariablePool) : Prop :=
  disjoint_regions (v_free p ++ block_regions (v_allocated p)).

(** A request that no free region can hold. *)
Definition too_large (p : VariablePool) (n : Z) : Prop :=
  Forall (fun r => r_size r < n) (v_free p).

Lemma block_regions_insert a n m :
  m !! a = None -> block_regions (<[a := n]> m) ≡ₚ mkFreeRegion a n :: block_regions m.
Proof. intros Ha. unfold block_regions. by rewrite map_to_list_insert. Qed.

Lemma block_regions_delete a n m :
  m !! a = Some n -> block_regions m ≡ₚ mkFreeRegion a n :: block_regions (delete a m).
Proof. intros Ha. unfold block_regions. by rewrite <- (map_to_list_delete m a n). Qed.

Lemma elem_of_block_regions r m : r ∈ block_regions m <-> m !! r_address r = Some (r_size r).
Proof.
  unfold block_regions. rewrite list_elem_of_fmap. split.
  - by intros ([a n] & -> & H%elem_of_map_to_list).
  - intros H. exists (r_address r, r_size r). split; [by destruct r|]. by apply elem_of_map_to_list.
Qed.

Lemma allocate_region_None p n :
  variable_ok p -> allocate_region p n = None <-> too_large p n.
Proof.
  intros [Hok _]. unfold allocate_region, too_large.
  destruct (list_find _ (v_free p)) as [[i r]|] eqn:E; cbn [mbind option_bind].
  - apply list_find_Some in E as (Hi & Hn & _). apply list_elem_of_lookup_2 in Hi.
    apply Forall_app in Hok as [Hok _]. rewrite Forall_forall in Hok.
    destruct (Hok r Hi) as [H1 H2 H3]. unfold region_end in H3.
    rewrite (proj2 (checked_add_u_Some 32 (r_address r) n _)) by (split; [done|lia]).
    cbn [mbind option_bind]. split; [done|]. rewrite Forall_forall. intros Ht.
    specialize (Ht r Hi). lia.
  - apply list_find_None in E. split; [|done]. intros _.
    eapply Forall_impl; [exact E|]. cbn. lia.
Qed.

Lemma allocate_region_Some p n a p' :
  variable_ok p -> 0 < n -> allocate_region p n = Some (a, p') ->
  variable_ok p' /\ v_allocated p !! a = None /\ v_allocated p' = <[a := n]> (v_allocated p) /\
  v_waiters p' = v_waiters p /\ v_attributes p' = v_attributes p /\
  (forall m, too_large p m -> too_large p' m).
Proof.
  intros Hok Hn. unfold allocate_region.
  destruct (list_find _ (v_free p)) as [[i r]|] eqn:E; [|done]. cbn [mbind option_bind].
  apply list_find_Some in E as (Hi & Hle & _).
  destruct (checked_add_u 32 (r_address r) n) as [top|] eqn:Et; [|done]. cbn [mbind option_bind].
  apply checked_add_u_Some in Et as [-> Ht]. intros [= <- <-].
  cbn [modify v_free v_allocated v_waiters v_attributes].
  pose proof (delete_Permutation _ _ _ Hi) as Hp.
  assert (forall x, v_allocated p !! r_address r <> Some x) as Hfree.
  { intros x Hx. pose proof Hok as Hd. unfold variable_ok in Hd. rewrite Hp in Hd.
    cbn in Hd. apply disjoint_cons in Hd as (Hr & Hc & Hd). apply Forall_app in Hc as [_ Hc].
    rewrite Forall_forall in Hc.
    assert (mkFreeRegion (r_address r) x ∈ block_regions (v_allocated p)) as Hin
      by by apply elem_of_block_regions.
    specialize (Hc _ Hin). destruct Hd as [Hd _]. apply Forall_app in Hd as [_ Hd].
    rewrite Forall_forall in Hd. destruct (Hd _ Hin) as [_ Hx' _]. destruct Hr as [_ Hr' _].
    unfold clear_of, region_end in Hc. cbn in *. lia. }
  assert (v_allocated p !! r_address r = None) as Hnone.
  { destruct (v_allocated p !! r_address r) as [x|] eqn:Ex; [|done]. by destruct (Hfree x). }
  split_and!; [|done|done|done|done|].
  - unfold variable_ok in *. cbn [modify v_free v_allocated].
    rewrite block_regions_insert by done. rewrite Hp in Hok. cbn in Hok.
    destruct r as [b m]. cbn [r_address r_size] in *. destruct (Z.eqb_spec (m - n) 0) as [Hz|Hz].
    + assert (m = n) as -> by lia. by rewrite <- Permutation_middle.
    + rewrite <- Permutation_middle. rewrite (insert_Permutation _ _ _ _ Hi). cbn.
      replace m with (n + (m - n)) in Hok by lia. apply disjoint_split in Hok; [|lia|lia]. done.
  - intros m Hm. unfold too_large. cbn [modify v_free].
    assert (Forall (fun r => r_size r < m) (r :: delete i (v_free p))) as [H1 H2]%Forall_cons
      by by rewrite <- Hp.
    destruct (r_size r - n =? 0); [done|]. rewrite (insert_Permutation _ _ _ _ Hi), Forall_cons.
    split; [cbn; lia|done].
Qed.

(** ** Event patterns *)

(** The bits of [b] are among those of [a]. *)
Definition fewer (b a : Z) : Prop := b .& a = b.

Lemma fewer_land a m : fewer (a .& m) a.
Proof. unfold fewer. rewrite <- Z.land_assoc, (Z.land_comm m a), Z.land_assoc. by rewrite Z.land_diag. Qed.

Lemma satisfied_fewer a b pattern mode :
  fewer b a -> satisfied a pattern mode = false -> satisfied b pattern mode = false.
Proof.
  intros Hf. rewrite <- !not_true_iff_false. intros Ha Hb. apply Ha. clear Ha. revert Hb.
  unfold satisfied, has_bits, fewer in *. case_match.
  - rewrite !negb_true_iff, !Z.eqb_neq. intros Hb Ha. apply Hb.
    rewrite <- Hf, <- Z.land_assoc, Ha. apply Z.land_0_r.
  - rewrite !Z.eqb_eq. intros Hb. rewrite <- Hb at 1.
    by rewrite Z.land_assoc, (Z.land_comm a b), Hf.
Qed.

Lemma consume_spec e pattern mode :
  match consume_event_bits e pattern mode with
  | Some (value, e') => satisfied (bits e) pattern mode = true /\ value = bits e /\
      fewer (bits e') (bits e) /\ e_waiters e' = e_waiters e /\ e_attributes e' = e_attributes e
  | None => satisfied (bits e) pattern mode = false
  end.
Proof.
  unfold consume_event_bits. destruct (satisfied (bits e) pattern mode) eqn:E; cbn [negb]; [|done].
  case_match; cbn [modify bits e_waiters e_attributes]; split_and!; try done;
    [apply fewer_land|]. unfold fewer. apply Z.land_diag.
Qed.

Definition waiting (k : Kernel) (i : Z) (r : WaitReason) : Prop :=
  exists t, Kernel.thread i k = Some t /\ state t = Waiting r.

(** The object a thread waits at has the thread in its queue and nothing to give. *)
Definition awaits (k : Kernel) (i : Z) (r : WaitReason) : Prop :=
  match r with
  | Delay => is_Some (eq_deadline (scheduler k) (wait_event i))
  | Semaphore_wait o =>
      exists s, FixedTable.get (semaphores k) o = Some s /\ i ∈ s_waiters s /\ count s = 0
  | EventFlag_wait o pattern mode =>
      exists e, FixedTable.get (event_flags k) o = Some e /\ i ∈ e_waiters e /\
        satisfied (bits e) pattern mode = false
  | MessageBox_wait o =>
      exists m, FixedTable.get (message_boxes k) o = Some m /\ i ∈ m_waiters m /\ messages m = []
  | FixedPool_wait o =>
      exists p, FixedTable.get (fixed_pools k) o = Some p /\ i ∈ f_waiters p /\ f_free p = []
  | VariablePool_wait o n =>
      exists p, FixedTable.get (variable_pools k) o = Some p /\ i ∈ v_waiters p /\ too_large p n
  | _ => True
  end.

Definition semaphore_ok (s : Semaphore) : Prop := 0 <= count s <= maximum s /\ maximum s < 2 ^ 32.
Definition fixed_ok (p : FixedPool) : Prop :=
  NoDup (f_free p) /\ forall a, a ∈ f_free p -> a ∉ f_allocated p.

Definition table_ok {T N} (P : T -> Prop) (t : FixedTable T N) : Prop :=
  TableFacts.wf t /\ forall i v, FixedTable.get t i = Some v -> P v.

Record objects_ok (k : Kernel) : Prop := {
  ok_semaphores : table_ok semaphore_ok (semaphores k);
  ok_flags : table_ok (fun _ => True) (event_flags k);
  ok_boxes : table_ok (fun _ => True) (message_boxes k);
  ok_fixed : table_ok fixed_ok (fixed_pools k);
  ok_variable : table_ok variable_ok (variable_pools k);
  ok_alarms : table_ok (fun _ => True) (alarms k) /\ first_id (alarms k) = 1;
  ok_callbacks : (length (callback_contexts k) <= CALLBACK_DEPTH)%nat;
}.

Definition priority_ok (p : Z) : Prop := MIN_THREAD_PRIORITY <= p <= MAX_THREAD_PRIORITY.

Record thread_ok (next : Z) (t : Thread) : Prop := {
  ok_priority : priority_ok (current_priority t) /\ priority_ok (spec_priority (spec t));
  ok_wakeups : in_u 32 (wakeup_count t);
  ok_order : state t = Ready -> ready_order t < next;
  ok_request : forall o n, state t = Waiting (VariablePool_wait o n) -> 0 < n;
}.

Record threads_ok (k : Kernel) : Prop := {
  ok_table : TableFacts.wf (threads k) /\ first_id (threads k) = 1;
  ok_current : forall i, current_thread k = Some i <->
    exists t, Kernel.thread i k = Some t /\ state t = Running;
  ok_thread : forall i t, Kernel.thread i k = Some t -> thread_ok (next_ready_order k) t;
  ok_distinct : forall i j t u, Kernel.thread i k = Some t -> Kernel.thread j k = Some u ->
    state t = Ready -> state u = Ready -> ready_order t = ready_order u -> i = j;
}.

Record inv_but (E : Z -> WaitReason -> Prop) (k : Kernel) : Prop := {
  inv_objects : objects_ok k;
  inv_threads : threads_ok k;
  inv_waits : forall i r, waiting k i r -> awaits k i r \/ E i r;
}.

Notation inv := (inv_but (fun _ _ => False)).

(** One of the two 64-bit sequence counters has reached its end. *)
Definition exhausted (k : Kernel) : Prop :=
  2 ^ 64 <= next_ready_order k + 1 \/ 2 ^ 64 <= next_sequence (scheduler k) + 1.

(** The only way to fail in the middle of a change. *)
Definition ran_out (e : KernelError) (k : Kernel) : Prop := e = NoMemory /\ exhausted k.

(** An operation that did not run out of sequence numbers leaves the invariant. *)
Definition settles {A} (E : Z -> WaitReason -> Prop) (r : outcome KernelError A * Kernel) : Prop :=
  match r with
  | (Ok _, k) => inv_but E k
  | (Err e, k) => inv_but E k \/ ran_out e k
  | (Panic, _) => False
  end.

Lemma inv_weaken E E' k :
  inv_but E k -> (forall i r, waiting k i r -> E i r -> awaits k i r \/ E' i r) -> inv_but E' k.
Proof.
  intros [Ho Ht Hw] HE. split; [done|done|]. intros i r Hr.
  destruct (Hw i r Hr); [by left|by apply HE].
Qed.

Lemma new_inv : inv Kernel.new.
Proof.
  assert (forall i, Kernel.thread i Kernel.new = None) as Hn by (intros i; apply TableFacts.get_new).
  assert (forall (T : Type) (N : nat) (P : T -> Prop), 1 + Z.of_nat N <= 2 ^ 32 ->
    table_ok P (FixedTable.new 1 : FixedTable T N)) as Ht.
  { intros T N P Hle. split; [by apply TableFacts.new_wf|]. intros i v. by rewrite TableFacts.get_new. }
  split; [split| |].
  all: try (by apply Ht).
  - split; [by apply Ht|done].
  - cbn. lia.
  - split.
    + split; [by apply TableFacts.new_wf|done].
    + intros i. split; [done|]. intros (t & Hi & _). by rewrite Hn in Hi.
    + intros i t Hi. by rewrite Hn in Hi.
    + intros i j t u Hi. by rewrite Hn in Hi.
  - intros i r (t & Hi & _). by rewrite Hn in Hi.
Qed.

(** ** Threads *)

Section threads.
Context (k : Kernel) (Hk : threads_ok k).

Lemma thread_put i j t u :
  Kernel.thread i k = Some u ->
  Kernel.thread j (Kernel.put_thread i t k) = if decide (j = i) then Some t else Kernel.thread j k.
Proof using Hk. intros Hi. apply (TableFacts.put_get _ _ _ u); [apply Hk|done]. Qed.

Lemma thread_range i t : Kernel.thread i k = Some t -> 1 <= i <= 64.
Proof using Hk.
  intros Hi%TableFacts.get_range. rewrite (proj2 (ok_table k Hk)) in Hi.
  unfold THREAD_CAPACITY in Hi. lia.
Qed.

(** Replacing a thread, with the running thread and the counter as given. *)
Lemma put_thread_ok i t u cur next :
  Kernel.thread i k = Some u -> thread_ok next t -> next_ready_order k <= next ->
  (state t = Ready -> forall j v, j <> i -> Kernel.thread j k = Some v -> state v = Ready ->
     ready_order v <> ready_order t) ->
  (forall j, cur = Some j <-> if decide (j = i) then state t = Running
     else exists v, Kernel.thread j k = Some v /\ state v = Running) ->
  threads_ok ((Kernel.put_thread i t k) <| next_ready_order := next |> <| current_thread := cur |>).
Proof using Hk.
  intros Hi Ht Hn Hd Hc.
  assert (forall j, Kernel.thread j ((Kernel.put_thread i t k) <| next_ready_order := next |>
      <| current_thread := cur |>) = if decide (j = i) then Some t else Kernel.thread j k) as Hget
    by (intros j; by apply (thread_put i j t u)).
  split.
  - split; [apply (TableFacts.put_wf _ _ _ u); [apply Hk|done]|].
    cbn. rewrite TableFacts.put_first. apply Hk.
  - intros j. cbn [modify current_thread]. rewrite Hget, Hc. case_decide; naive_solver.
  - intros j v. rewrite Hget. cbn [modify next_ready_order]. case_decide; [by intros [= <-]|].
    intros Hj. destruct (ok_thread k Hk j v Hj) as [H1 H2 H3 H4]. split; try done.
    intros Hr. specialize (H3 Hr). cbn [modify next_ready_order]. lia.
  - intros j l v w. rewrite !Hget. repeat case_decide; intros; simplify_eq; try done.
    + exfalso. by eapply (Hd ltac:(done) l w).
    + exfalso. by eapply (Hd ltac:(done) j v).
    + by eapply (ok_distinct k Hk).
Qed.
End threads.

Lemma waiting_put_thread k i t u j r :
  threads_ok k -> Kernel.thread i k = Some u ->
  waiting (Kernel.put_thread i t k) j r <->
  if decide (j = i) then state t = Waiting r else waiting k j r.
Proof.
  intros Hk Hi. unfold waiting. rewrite (thread_put k Hk i j t u Hi). case_decide; naive_solver.
Qed.

(** The part of the state on which waits depend. *)
Definition objects (k : Kernel) :=
  (semaphores k, event_flags k, message_boxes k, fixed_pools k, variable_pools k).

Lemma awaits_frame k k' i r :
  objects k' = objects k ->
  (is_Some (eq_deadline (scheduler k) (wait_event i)) ->
   is_Some (eq_deadline (scheduler k') (wait_event i))) ->
  awaits k i r -> awaits k' i r.
Proof.
  unfold objects. intros [= E1 E2 E3 E4 E5] Hs. unfold awaits.
  rewrite E1, E2, E3, E4, E5. by destruct r; auto.
Qed.

(** A thread that is no longer waited for may change freely. *)
Lemma replace_thread E k i t u cur next :
  inv_but E k -> Kernel.thread i k = Some u -> thread_ok next t -> next_ready_order k <= next ->
  (state t = Ready -> forall j v, j <> i -> Kernel.thread j k = Some v -> state v = Ready ->
     ready_order v <> ready_order t) ->
  (forall j, cur = Some j <-> if decide (j = i) then state t = Running
     else exists v, Kernel.thread j k = Some v /\ state v = Running) ->
  (forall r, state t = Waiting r -> awaits k i r \/ E i r) ->
  inv_but E ((Kernel.put_thread i t k) <| next_ready_order := next |> <| current_thread := cur |>).
Proof.
  intros [Ho Ht Hw] Hi Hok Hn Hd Hc Hr. split.
  - destruct Ho. by split.
  - by apply (put_thread_ok k Ht i t u).
  - intros j r Hj. assert (waiting (Kernel.put_thread i t k) j r) as Hj' by done.
    rewrite (waiting_put_thread k i t u) in Hj' by done.
    enough (awaits k j r \/ E j r) as [|]; [left|by right|].
    { by apply (awaits_frame k); [..|done]. }
    case_decide; subst; auto.
Qed.

(** ** Completing a wait *)

Lemma set_scheduler_inv E k q :
  inv_but E k ->
  (forall i, waiting k i Delay -> is_Some (eq_deadline (scheduler k) (wait_event i)) ->
     is_Some (eq_deadline q (wait_event i)) \/ E i Delay) ->
  inv_but E (k <| scheduler := q |>).
Proof.
  intros [Ho Ht Hw] Hq. split; [by destruct Ho; split|by destruct Ht; split|].
  intros i r Hr. destruct (Hw i r Hr) as [Ha|]; [|by right].
  destruct r; try (by left). destruct (Hq i Hr Ha); [by left|by right].
Qed.

Lemma wait_event_inj i j : wait_event i = wait_event j -> i = j.
Proof. unfold wait_event. lia. Qed.

Lemma take_order_cases k :
  (Kernel.take_ready_order k = (Err NoMemory, k) /\ exhausted k) \/
  Kernel.take_ready_order k
  = (Ok (next_ready_order k), k <| next_ready_order := next_ready_order k + 1 |>).
Proof.
  unfold Kernel.take_ready_order. destruct (checked_add_u 64 _ 1) eqn:E.
  - apply checked_add_u_Some in E as [-> _]. by right.
  - apply checked_add_u_None in E. left. split; [done|]. by left.
Qed.

Definition released (k k' : Kernel) (i : Z) : Prop :=
  objects k' = objects k /\ current_thread k' = current_thread k /\ now k' = now k /\
  (exists t, Kernel.thread i k' = Some t /\ state t = Ready) /\
  (forall j, j <> i -> Kernel.thread j k' = Kernel.thread j k) /\
  (length (queue (scheduler k')) <= length (queue (scheduler k)))%nat.

Lemma cancel_queue s id :
  (length (queue (Scheduler.cancel s id).2) <= length (queue s))%nat.
Proof.
  unfold Scheduler.cancel. destruct (active s !! id) as [[d q]|]; [|done].
  cbn. apply length_filter.
Qed.

Lemma complete_wait_spec E k i r c v :
  inv_but E k -> waiting k i r ->
  match Kernel.complete_wait i c v k with
  | (Ok _, k') => inv_but (fun j s => E j s /\ j <> i) k' /\ released k k' i
  | (Err e, k') => ran_out e k'
  | (Panic, _) => False
  end.
Proof.
  intros Hk (t & Hi & Hr). unfold Kernel.complete_wait.
  set (q := (Scheduler.cancel (scheduler k) (wait_event i)).2).
  destruct (take_order_cases (k <| scheduler := q |>)) as [[-> Hx]| ->]; [by split|].
  change (Kernel.thread i _) with (Kernel.thread i k). rewrite Hi, Hr.
  set (t' := t <| saved_context := _ |> <| ready_order := _ |> <| state := Ready |>).
  split.
  - assert (inv_but (fun j s => E j s \/ j = i) (k <| scheduler := q |>)) as Hq.
    { apply set_scheduler_inv.
      - apply (inv_weaken E); [done|]. auto.
      - intros j _ Hd. destruct (decide (j = i)) as [|Hne]; [by right; right|left].
        change q with (eq_cancel (scheduler k) (wait_event i)).2. rewrite eq_cancel_deadline.
        rewrite decide_False; [done|]. intros Hw%wait_event_inj. congruence. }
    assert (threads_ok k) as Ht by apply Hk.
    pose proof (ok_thread k Ht i t Hi) as [H1 H2 H3 H4].
    pose proof (replace_thread _ _ i t' t (current_thread k) (next_ready_order k + 1) Hq Hi) as Hp.
    eapply inv_weaken; [apply Hp|].
    + split; cbn; try done. lia.
    + cbn. lia.
    + intros _ j u Hji Hj Hu. cbn. pose proof (ok_order _ _ (ok_thread k Ht j u Hj) Hu). lia.
    + intros j. rewrite (ok_current k Ht). case_decide as Hji; [|done]. subst. cbn.
      split; [|done]. intros (u & Hu & Hrun). congruence.
    + done.
    + intros j s (u & Hju & Hu) [HE | ->]; [|exfalso].
      * right. split; [done|]. intros ->. revert Hju. 
        change (Kernel.thread i (Kernel.put_thread i t' (k <| scheduler := q |>)) = Some u -> False).
        rewrite (thread_put _ ltac:(apply Hq) i i t' t Hi), decide_True by done.
        intros [= <-]. done.
      * revert Hju.
        change (Kernel.thread i (Kernel.put_thread i t' (k <| scheduler := q |>)) = Some u -> False).
        rewrite (thread_put _ ltac:(apply Hq) i i t' t Hi), decide_True by done.
        intros [= <-]. done.
  - assert (threads_ok (k <| scheduler := q |>)) as Ht by (destruct Hk as [_ [] _]; by split).
    assert (forall j, Kernel.thread j (Kernel.put_thread i t' (k <| scheduler := q |>)) =
      if decide (j = i) then Some t' else Kernel.thread j k) as Hget
      by (intros j; by rewrite (thread_put _ Ht i j t' t)).
    split_and!; try done.
    + exists t'. split; [|done]. etransitivity; [apply (Hget i)|]. by rewrite decide_True.
    + intros j Hji. etransitivity; [apply (Hget j)|]. by rewrite decide_False.
    + apply cancel_queue.
Qed.

(** ** Selecting the next thread *)

(** [a] runs before [b]: a better priority, or an earlier place among equals. *)
Definition precedes (a b : Thread) : Prop :=
  current_priority a < current_priority b \/
  current_priority a = current_priority b /\ ready_order a <= ready_order b.

Lemma first_to_run_spec l :
  match first_to_run l with
  | Some a => a ∈ l /\ forall b, b ∈ l -> precedes a.2 b.2
  | None => l = []
  end.
Proof.
  induction l as [|a l IH]; simpl; [done|].
  assert (precedes a.2 a.2) as Haa by (right; lia).
  destruct (first_to_run l) as [b|].
  - destruct IH as [Hb Hmin]. unfold runs_before.
    destruct (Z.ltb_spec (current_priority b.2) (current_priority a.2));
      [|destruct (Z.eqb_spec (current_priority b.2) (current_priority a.2)),
          (Z.ltb_spec (ready_order b.2) (ready_order a.2))]; cbn [orb andb];
      split; try (by left); try (by right); intros c [->|Hc]%elem_of_cons; try done;
      try (specialize (Hmin c Hc)); unfold precedes in *; lia.
  - subst. split; [by left|]. by intros c [->|[]%elem_of_nil]%elem_of_cons.
Qed.

Lemma best_ready_spec k :
  threads_ok k ->
  match Kernel.best_ready k with
  | Some i => exists t, Kernel.thread i k = Some t /\ state t = Ready /\
      forall j u, Kernel.thread j k = Some u -> state u = Ready -> precedes t u
  | None => forall j u, Kernel.thread j k = Some u -> state u <> Ready
  end.
Proof.
  intros Hk. unfold Kernel.best_ready.
  pose proof (first_to_run_spec (filter (fun e : Z * Thread => state e.2 = Ready)
    (FixedTable.iter (threads k)))) as H.
  assert (forall j u, (j, u) ∈ filter (fun e : Z * Thread => state e.2 = Ready)
      (FixedTable.iter (threads k)) <-> state u = Ready /\ Kernel.thread j k = Some u) as Hin.
  { intros j u. rewrite list_elem_of_filter. cbn. unfold Kernel.thread.
    by rewrite TableFacts.elem_of_iter by apply Hk. }
  destruct (first_to_run _) as [[i t]|]; cbn [fmap option_fmap option_map fst].
  - destruct H as [[Hr Hi]%Hin Hmin]. exists t. split_and!; try done.
    intros j u Hj Hu. apply (Hmin (j, u)), Hin. done.
  - intros j u Hj Hu. assert ((j, u) ∈ ([] : list (Z * Thread))) as []%elem_of_nil.
    rewrite <- H. apply Hin. done.
Qed.

(** What a scheduling decision does to the threads. *)
Definition same_waits (k k' : Kernel) : Prop :=
  objects k' = objects k /\ scheduler k' = scheduler k /\ now k' = now k /\
  forall i r, waiting k' i r <-> waiting k i r.

Lemma same_waits_inv E k k' :
  inv_but E k -> same_waits k k' -> threads_ok k' -> objects_ok k' -> inv_but E k'.
Proof.
  intros [_ _ Hw] (Ho & Hs & _ & Hr) Ht Hk. split; [done|done|]. intros i r Hi%Hr.
  destruct (Hw i r Hi); [left|by right]. apply (awaits_frame k); [done|by rewrite Hs|done].
Qed.

(** The current thread goes back among the ready ones, behind its equals. *)
Lemma preempt_spec E c k :
  inv_but E k ->
  match Kernel.preempt c k with
  | (Ok _, k') => inv_but E k' /\ same_waits k k' /\ current_thread k' = None /\
      next_ready_order k <= next_ready_order k' /\
      (forall j u, Kernel.thread j k = Some u -> state u = Ready -> Kernel.thread j k' = Some u) /\
      (forall i t, current_thread k = Some i -> Kernel.thread i k = Some t ->
         Kernel.thread i k' = Some (t <| saved_context := c |>
           <| ready_order := next_ready_order k |> <| state := Ready |>))
  | (Err e, k') => ran_out e k'
  | (Panic, _) => False
  end.
Proof.
  intros Hk. pose proof (inv_threads _ _ Hk) as Ht. unfold Kernel.preempt.
  destruct (current_thread k) as [i|] eqn:Ec; [|by split_and!].
  pose proof Ec as (t & Hi & Hrun)%(ok_current k Ht).
  destruct (take_order_cases (k <| current_thread := None |>)) as [[-> Hx]| ->]; [by split|].
  change (Kernel.thread i _) with (Kernel.thread i k). rewrite Hi.
  set (t' := t <| saved_context := _ |> <| ready_order := _ |> <| state := Ready |>).
  pose proof (ok_thread k Ht i t Hi) as [H1 H2 H3 H4].
  pose proof (replace_thread E k i t' t None (next_ready_order k + 1) Hk Hi) as Hp.
  match goal with |- _ /\ same_waits _ ?x /\ _ => set (k' := x) end.
  assert (forall j, Kernel.thread j k' = if decide (j = i) then Some t' else Kernel.thread j k)
    as Hget by (intros j; apply (thread_put k Ht i j t' t Hi)).
  split_and!.
  - apply Hp.
    + split; cbn; try done. lia.
    + lia.
    + intros _ j u Hji Hj Hu. cbn. pose proof (ok_order _ _ (ok_thread k Ht j u Hj) Hu). lia.
    + intros j. split; [done|]. case_decide as Hji; [done|]. intros Hrunning.
      apply (ok_current k Ht) in Hrunning. congruence.
    + done.
  - split_and!; try done. intros j r. unfold waiting. rewrite Hget. case_decide; [|done]. subst j.
    split; [by intros (u & [= <-] & Hu)|]. intros (u & Hu & Hw). congruence.
  - done.
  - cbn. lia.
  - intros j u Hj Hu. rewrite Hget. case_decide; [|done]. subst. congruence.
  - intros i' u [= <-] Hu. rewrite Hget, decide_True by done. by simplify_eq.
Qed.

(** Whether the scheduler replaces the running thread: only by a ready thread, and
    then because there is none, because it yields, or by a better priority. *)
Definition must_switch (k : Kernel) (force : bool) (candidate : option Z) : Prop :=
  exists i t, candidate = Some i /\ Kernel.thread i k = Some t /\
    forall j u, current_thread k = Some j -> Kernel.thread j k = Some u ->
      force = true \/ current_priority t < current_priority u.

(** The decision of [select]. *)
Definition selected (force : bool) (prev : option Z) (k : Kernel) (c : CpuContext)
    (a : ScheduleAction) (k' : Kernel) (c' : CpuContext) : Prop :=
  (must_switch k force (Kernel.best_ready k) /\
   exists i t, Kernel.best_ready k = Some i /\ Kernel.thread i k = Some t /\
     current_thread k' = Some i /\ c' = saved_context t /\
     a = mkScheduleAction prev (Some i) (negb (bool_decide (prev = Some i)))) \/
  (~ must_switch k force (Kernel.best_ready k) /\ k' = k /\ c' = c /\
   a = mkScheduleAction prev (current_thread k) false).

Lemma should_switch_spec force k :
  threads_ok k ->
  exists b, Kernel.should_switch force (Kernel.best_ready k) k = Ok b /\
    (b = true <-> must_switch k force (Kernel.best_ready k)).
Proof.
  intros Hk. pose proof (best_ready_spec k Hk) as Hb. unfold Kernel.should_switch, must_switch.
  destruct (Kernel.best_ready k) as [i|].
  - destruct Hb as (t & Hi & _ & _). destruct (current_thread k) as [j|] eqn:Ec.
    + pose proof Ec as (u & Hj & _)%(ok_current k Hk). rewrite Hi, Hj. cbn [ok_or obind].
      eexists. split; [done|]. rewrite orb_true_iff, Z.ltb_lt. split.
      * intros H. exists i, t. split_and!; [done|done|]. intros ? ? [= <-] ?. by simplify_eq.
      * intros (? & ? & [= <-] & ? & H). simplify_eq. by apply (H j u).
    + exists true. split; [done|]. split; [|done]. intros _. by exists i, t.
  - destruct (current_thread k); exists false; split; try done; split; try done;
      by intros (? & ? & ? & _).
Qed.

Lemma kernel_select_spec E prev force k c :
  inv_but E k ->
  match Kernel.select prev force k c with
  | (Ok a, (k', c')) => inv_but E k' /\ same_waits k k' /\ selected force prev k c a k' c'
  | (Err e, (k', _)) => ran_out e k'
  | (Panic, _) => False
  end.
Proof.
  intros Hk. pose proof (inv_threads _ _ Hk) as Ht. unfold Kernel.select.
  pose proof (best_ready_spec k Ht) as Hb.
  destruct (should_switch_spec force k Ht) as (b & -> & Hm). destruct b.
  - assert (must_switch k force (Kernel.best_ready k)) as Hms by by apply Hm.
    pose proof (preempt_spec E c k Hk) as Hp.
    destruct (Kernel.preempt c k) as [[u|e|] k1]; [|done..].
    destruct Hp as (Hk1 & Hw1 & Hc1 & Hn1 & Hkeep & _).
    pose proof (inv_threads _ _ Hk1) as Ht1.
    destruct (Kernel.best_ready k) as [i|] eqn:Eb; [|by destruct Hms as (? & ? & ? & _)].
    destruct Hb as (t & Hi & Hr & Hmin). rewrite (Hkeep i t Hi Hr).
    set (t' := t <| state := Running |>).
    pose proof (Hkeep i t Hi Hr) as Hi1.
    pose proof (replace_thread E k1 i t' t (Some i) (next_ready_order k1) Hk1 Hi1) as Hrep.
    pose proof (ok_thread k1 Ht1 i t Hi1) as [H1 H2 H3 H4].
    split_and!.
    + apply Hrep; try done.
      intros j. case_decide as Hji; [subst; done|]. split; [congruence|].
      intros Hrun%(ok_current k1 Ht1). congruence.
    + destruct Hw1 as (Ho & Hs & Hn & Hw1). split_and!; try done. intros j r. rewrite <- Hw1.
      assert (waiting (Kernel.put_thread i t' k1) j r <-> waiting k1 j r) as Hput.
      { rewrite (waiting_put_thread k1 i t' t) by done. case_decide; [|done]. subst.
        split; [done|]. intros (u' & Hu & Hwt). congruence. }
      exact Hput.
    + unfold selected. rewrite Eb. left. split; [done|]. exists i, t. by split_and!.
  - split_and!; [done|done|]. right. split_and!; try done. intros H%Hm. done.
Qed.

(** ** Blocking *)

Lemma schedule_deadline s id d s' :
  Scheduler.schedule s id d = (Ok tt, s') ->
  forall id', eq_deadline s' id' = if decide (id = id') then Some d else eq_deadline s id'.
Proof. intros H id'. exact (eq_schedule_ok s id d s' id' H). Qed.

Lemma schedule_err s id d e s' : Scheduler.schedule s id d = (Err e, s') -> s' = s.
Proof. exact (eq_schedule_err s id d e s'). Qed.

Definition timed (reason : WaitReason) (deadline : option Z) : Prop :=
  match reason with
  | Delay => is_Some deadline
  | VariablePool_wait _ n => 0 < n
  | _ => True
  end.

Lemma block_spec E reason deadline k c :
  inv_but E k -> timed reason deadline ->
  (forall i, current_thread k = Some i -> reason <> Delay -> awaits k i reason) ->
  match Kernel.block_current reason deadline k c with
  | (Ok a, (k', c')) => inv_but E k'
  | (Err e, (k', c')) => ran_out e k' \/ k' = k
  | (Panic, _) => False
  end.
Proof.
  intros Hk Hd Ha. pose proof (inv_threads _ _ Hk) as Ht. unfold Kernel.block_current.
  destruct (current_thread k) as [i|] eqn:Ec; [|by right].
  pose proof Ec as (t & Hi & Hrun)%(ok_current k Ht).
  change (Kernel.thread i _) with (Kernel.thread i k). rewrite Hi.
  set (t' := t <| saved_context := c |> <| state := Waiting reason |>).
  pose proof (ok_thread k Ht i t Hi) as [H1 H2 H3 H4].
  set (k1 := Kernel.put_thread i t' (k <| current_thread := None |>)).
  (* the thread waits, its deadline is not set yet *)
  assert (inv_but (fun j r => E j r \/ (j = i /\ r = Delay /\ reason = Delay)) k1) as Hk1.
  { pose proof (replace_thread (fun j r => E j r \/ (j = i /\ r = Delay /\ reason = Delay))
      k i t' t None (next_ready_order k)) as Hp. apply Hp; try done.
    - apply (inv_weaken E); [done|]. auto.
    - split; cbn; try done. intros o n [= ->]. done.
    - intros j. split; [done|]. case_decide as Hji; [done|]. intros Hr%(ok_current k Ht). congruence.
    - intros r [= ->]. destruct (decide (r = Delay)) as [->|Hne]; [by right; right|left; auto]. }
  pose proof (fun q (Hq : inv_but E (k1 <| scheduler := q |>)) =>
    kernel_select_spec E (Some i) true (k1 <| scheduler := q |>) c Hq) as Hsel.
  assert (scheduler k1 = scheduler k) as Es by done.
  destruct deadline as [deadline|].
  - rewrite Es. destruct (Scheduler.schedule (scheduler k) (wait_event i) deadline) as [[[]|e|] q] eqn:Eq.
    + pose proof (schedule_deadline _ _ _ _ Eq) as Hdl.
      assert (inv_but E (k1 <| scheduler := q |>)) as Hq.
      { eapply inv_weaken; [apply set_scheduler_inv; [exact Hk1|]|].
        - intros j Hj Hdj. left. rewrite Hdl. by case_decide.
        - intros j r _ [HE|(-> & -> & _)]; [by right|left].
          hnf. change (scheduler _) with q. rewrite Hdl, decide_True by done. by eexists. }
      specialize (Hsel q Hq).
      destruct (Kernel.select (Some i) true (k1 <| scheduler := q |>) c) as [[a|e|] [k' c']];
        [apply Hsel|by left|done].
    + left. split; [done|]. right. unfold Scheduler.schedule in Eq.
      destruct (checked_add_u 64 (next_sequence (scheduler k)) 1) eqn:En; [by repeat case_match|].
      simplify_eq. by apply checked_add_u_None in En.
    + unfold Scheduler.schedule in Eq. repeat case_match; simplify_eq.
  - assert (inv_but E k1) as Hk1'.
    { eapply inv_weaken; [exact Hk1|]. intros j r _ [HE|(_ & _ & ->)]; [by right|].
      by destruct Hd. }
    pose proof (kernel_select_spec E (Some i) true k1 c Hk1') as H.
    destruct (Kernel.select (Some i) true k1 c) as [[a|e|] [k' c']]; [apply H|by left|done].
Qed.
