(* ===== verification/IopKernelFacts.v ===== *)
(** * Threads, semaphores and message boxes of the IOP kernel keep its invariant

    One lemma per operation: it settles, which means that it leaves the invariant of
    [IopKernelInv], or that it failed because a sequence counter is exhausted. *)

From S2P Require Import Prelude Records MachineInt Clock Scheduler IopBase IopDispatch.
From S2P Require Import IopKernel IopKernelInv.

(** ** Updates of kernel objects

    How writing, creating and deleting one object affects the invariant: the waits at
    that object must be re-established or completed by the caller. *)

Section tables.
Context {T : Type} {N : nat} (P : T -> Prop).
Implicit Types t : FixedTable T N.

Lemma table_put t i v w :
  table_ok P t -> FixedTable.get t i = Some w -> P v -> table_ok P (FixedTable.put i v t).
Proof.
  intros [Ht Hp] Hi Hv. split; [by apply (TableFacts.put_wf _ _ _ w)|]. intros j u.
  rewrite (TableFacts.put_get _ _ _ w) by done. case_decide; [by intros [= <-]|apply Hp].
Qed.

Lemma table_remove t i : table_ok P t -> table_ok P (FixedTable.remove i t).2.
Proof.
  intros [Ht Hp]. split; [by apply TableFacts.remove_wf|]. intros j u.
  rewrite TableFacts.remove_get by done. case_decide; [done|apply Hp].
Qed.

(** Insertion keeps every entry and adds one under a fresh identifier. *)
Definition extends t t' (v : T) (i : Z) : Prop :=
  FixedTable.get t i = None /\ first_id t' = first_id t /\ first_id t <= i < first_id t + Z.of_nat N /\
  forall j, FixedTable.get t' j = if decide (j = i) then Some v else FixedTable.get t j.

Lemma table_insert t v :
  table_ok P t -> P v ->
  match FixedTable.insert v t with
  | (Ok i, t') => table_ok P t' /\ extends t t' v i
  | (Err e, t') => e = NoMemory /\ t' = t
  | (Panic, _) => False
  end.
Proof.
  intros [Ht Hp] Hv. pose proof (TableFacts.insert_spec v t Ht) as H.
  destruct (FixedTable.insert v t) as [[i|e|] t']; [|by destruct H as (? & ? & _)|done].
  destruct H as (H1 & H2 & H3 & H4 & H5). split; [|done]. split; [done|]. intros j u.
  rewrite H5. case_decide; [by intros [= <-]|apply Hp].
Qed.

Lemma table_get t i v : table_ok P t -> FixedTable.get t i = Some v -> P v.
Proof. intros [_ H]. apply H. Qed.
End tables.

(** ** Writing one object *)

(** Case analysis on the wait of a thread after a write to one object table. *)
Ltac wait_cases Hw Hr :=
  let Ha := fresh "Ha" in
  destruct (Hw _ _ Hr) as [Ha|]; [|first [contradiction|by right; auto]];
  match type of Ha with awaits _ _ ?r => destruct r; try (by left) end.

Section put.
Context (E E' : Z -> WaitReason -> Prop) (k : Kernel) (Hk : inv_but E k).
Context (HE : forall i r, E i r -> E' i r).

Lemma put_semaphore_inv id s s' :
  FixedTable.get (semaphores k) id = Some s -> semaphore_ok s' ->
  (forall i, waiting k i (Semaphore_wait id) -> i ∈ s_waiters s -> count s = 0 ->
    (i ∈ s_waiters s' /\ count s' = 0) \/ E' i (Semaphore_wait id)) ->
  inv_but E' (Kernel.put_semaphore id s' k).
Proof using Hk HE.
  intros Hs Hok Hkeep. destruct Hk as [Ho Ht Hw]. split.
  - destruct Ho. split; try done. by apply (table_put _ _ _ _ s).
  - destruct Ht. by split.
  - intros i r Hr. change (waiting k i r) in Hr. wait_cases Hw Hr.
    destruct Ha as (u & Hu & Hi & Hc).
    assert (forall o, FixedTable.get (semaphores (Kernel.put_semaphore id s' k)) o =
      if decide (o = id) then Some s' else FixedTable.get (semaphores k) o) as Hget.
    { intros o. apply (TableFacts.put_get _ _ _ s); [apply (ok_semaphores k Ho)|done]. }
    destruct (decide (id0 = id)) as [->|Hne].
    + simplify_eq. destruct (Hkeep i Hr Hi Hc) as [[H1 H2]|]; [left|by right].
      exists s'. by rewrite Hget, decide_True.
    + left. exists u. by rewrite Hget, decide_False.
Qed.

Lemma put_event_flag_inv id e e' :
  FixedTable.get (event_flags k) id = Some e ->
  (forall i pattern mode, waiting k i (EventFlag_wait id pattern mode) -> i ∈ e_waiters e ->
    satisfied (bits e) pattern mode = false ->
    (i ∈ e_waiters e' /\ satisfied (bits e') pattern mode = false) \/
    E' i (EventFlag_wait id pattern mode)) ->
  inv_but E' (Kernel.put_event_flag id e' k).
Proof using Hk HE.
  intros Hs Hkeep. destruct Hk as [Ho Ht Hw]. split.
  - destruct Ho. split; try done. by apply (table_put _ _ _ _ e).
  - destruct Ht. by split.
  - intros i r Hr. change (waiting k i r) in Hr. wait_cases Hw Hr.
    destruct Ha as (u & Hu & Hi & Hc).
    assert (forall o, FixedTable.get (event_flags (Kernel.put_event_flag id e' k)) o =
      if decide (o = id) then Some e' else FixedTable.get (event_flags k) o) as Hget.
    { intros o. apply (TableFacts.put_get _ _ _ e); [apply (ok_flags k Ho)|done]. }
    destruct (decide (id0 = id)) as [->|Hne].
    + simplify_eq. destruct (Hkeep i _ _ Hr Hi Hc) as [[H1 H2]|]; [left|by right].
      exists e'. by rewrite Hget, decide_True.
    + left. exists u. by rewrite Hget, decide_False.
Qed.

Lemma put_message_box_inv id m m' :
  FixedTable.get (message_boxes k) id = Some m ->
  (forall i, waiting k i (MessageBox_wait id) -> i ∈ m_waiters m -> messages m = [] ->
    (i ∈ m_waiters m' /\ messages m' = []) \/ E' i (MessageBox_wait id)) ->
  inv_but E' (Kernel.put_message_box id m' k).
Proof using Hk HE.
  intros Hs Hkeep. destruct Hk as [Ho Ht Hw]. split.
  - destruct Ho. split; try done. by apply (table_put _ _ _ _ m).
  - destruct Ht. by split.
  - intros i r Hr. change (waiting k i r) in Hr. wait_cases Hw Hr.
    destruct Ha as (u & Hu & Hi & Hc).
    assert (forall o, FixedTable.get (message_boxes (Kernel.put_message_box id m' k)) o =
      if decide (o = id) then Some m' else FixedTable.get (message_boxes k) o) as Hget.
    { intros o. apply (TableFacts.put_get _ _ _ m); [apply (ok_boxes k Ho)|done]. }
    destruct (decide (id0 = id)) as [->|Hne].
    + simplify_eq. destruct (Hkeep i Hr Hi Hc) as [[H1 H2]|]; [left|by right].
      exists m'. by rewrite Hget, decide_True.
    + left. exists u. by rewrite Hget, decide_False.
Qed.

Lemma put_fixed_pool_inv id p p' :
  FixedTable.get (fixed_pools k) id = Some p -> fixed_ok p' ->
  (forall i, waiting k i (FixedPool_wait id) -> i ∈ f_waiters p -> f_free p = [] ->
    (i ∈ f_waiters p' /\ f_free p' = []) \/ E' i (FixedPool_wait id)) ->
  inv_but E' (Kernel.put_fixed_pool id p' k).
Proof using Hk HE.
  intros Hs Hok Hkeep. destruct Hk as [Ho Ht Hw]. split.
  - destruct Ho. split; try done. by apply (table_put _ _ _ _ p).
  - destruct Ht. by split.
  - intros i r Hr. change (waiting k i r) in Hr. wait_cases Hw Hr.
    destruct Ha as (u & Hu & Hi & Hc).
    assert (forall o, FixedTable.get (fixed_pools (Kernel.put_fixed_pool id p' k)) o =
      if decide (o = id) then Some p' else FixedTable.get (fixed_pools k) o) as Hget.
    { intros o. apply (TableFacts.put_get _ _ _ p); [apply (ok_fixed k Ho)|done]. }
    destruct (decide (id0 = id)) as [->|Hne].
    + simplify_eq. destruct (Hkeep i Hr Hi Hc) as [[H1 H2]|]; [left|by right].
      exists p'. by rewrite Hget, decide_True.
    + left. exists u. by rewrite Hget, decide_False.
Qed.

Lemma put_variable_pool_inv id p p' :
  FixedTable.get (variable_pools k) id = Some p -> variable_ok p' ->
  (forall i n, waiting k i (VariablePool_wait id n) -> i ∈ v_waiters p -> too_large p n ->
    (i ∈ v_waiters p' /\ too_large p' n) \/ E' i (VariablePool_wait id n)) ->
  inv_but E' (Kernel.put_variable_pool id p' k).
Proof using Hk HE.
  intros Hs Hok Hkeep. destruct Hk as [Ho Ht Hw]. split.
  - destruct Ho. split; try done. by apply (table_put _ _ _ _ p).
  - destruct Ht. by split.
  - intros i r Hr. change (waiting k i r) in Hr. wait_cases Hw Hr.
    destruct Ha as (u & Hu & Hi & Hc).
    assert (forall o, FixedTable.get (variable_pools (Kernel.put_variable_pool id p' k)) o =
      if decide (o = id) then Some p' else FixedTable.get (variable_pools k) o) as Hget.
    { intros o. apply (TableFacts.put_get _ _ _ p); [apply (ok_variable k Ho)|done]. }
    destruct (decide (id0 = id)) as [->|Hne].
    + simplify_eq. destruct (Hkeep i _ Hr Hi Hc) as [[H1 H2]|]; [left|by right].
      exists p'. by rewrite Hget, decide_True.
    + left. exists u. by rewrite Hget, decide_False.
Qed.
End put.

(** ** Creating and deleting an object *)

(** A table may be replaced by one in which every object still waited at is unchanged;
    the other waits become exempt. *)
Definition keeps {T N} (t t' : FixedTable T N) (gone : Z -> Prop) : Prop :=
  forall o v, FixedTable.get t o = Some v -> FixedTable.get t' o = Some v \/ gone o.

Lemma extends_keeps {T N} (t t' : FixedTable T N) v i : extends t t' v i -> keeps t t' (fun _ => False).
Proof.
  intros (Hn & _ & _ & Hg) o w Ho. left. rewrite Hg. case_decide; [by simplify_eq|done].
Qed.

Lemma remove_keeps {T N} (t : FixedTable T N) i :
  TableFacts.wf t -> keeps t (FixedTable.remove i t).2 (fun o => o = i).
Proof.
  intros Ht o v Ho. rewrite TableFacts.remove_get by done. case_decide; [by right|by left].
Qed.

Section replace.
Context (k : Kernel) (Hk : inv k) (gone : Z -> Prop).

Lemma set_semaphores_inv t :
  table_ok semaphore_ok t -> keeps (semaphores k) t gone ->
  inv_but (fun i r => exists o s, FixedTable.get (semaphores k) o = Some s /\ i ∈ s_waiters s /\ gone o)
    (k <| semaphores := t |>).
Proof using Hk.
  intros Ht Hkeep. destruct Hk as [Ho Hth Hw].
  split; [destruct Ho; by split|destruct Hth; by split|].
  intros i r Hr. change (waiting k i r) in Hr. wait_cases Hw Hr.
  destruct Ha as (u & Hu & Hi & Hc). destruct (Hkeep _ _ Hu) as [Hu'|Hg].
  - left. by exists u.
  - right. by exists id, u.
Qed.

Lemma set_event_flags_inv t :
  table_ok (fun _ => True) t -> keeps (event_flags k) t gone ->
  inv_but (fun i r => exists o e, FixedTable.get (event_flags k) o = Some e /\ i ∈ e_waiters e /\ gone o)
    (k <| event_flags := t |>).
Proof using Hk.
  intros Ht Hkeep. destruct Hk as [Ho Hth Hw].
  split; [destruct Ho; by split|destruct Hth; by split|].
  intros i r Hr. change (waiting k i r) in Hr. wait_cases Hw Hr.
  destruct Ha as (u & Hu & Hi & Hc). destruct (Hkeep _ _ Hu) as [Hu'|Hg].
  - left. by exists u.
  - right. by exists id, u.
Qed.

Lemma set_message_boxes_inv t :
  table_ok (fun _ => True) t -> keeps (message_boxes k) t gone ->
  inv_but (fun i r => exists o m, FixedTable.get (message_boxes k) o = Some m /\ i ∈ m_waiters m /\ gone o)
    (k <| message_boxes := t |>).
Proof using Hk.
  intros Ht Hkeep. destruct Hk as [Ho Hth Hw].
  split; [destruct Ho; by split|destruct Hth; by split|].
  intros i r Hr. change (waiting k i r) in Hr. wait_cases Hw Hr.
  destruct Ha as (u & Hu & Hi & Hc). destruct (Hkeep _ _ Hu) as [Hu'|Hg].
  - left. by exists u.
  - right. by exists id, u.
Qed.

Lemma set_fixed_pools_inv t :
  table_ok fixed_ok t -> keeps (fixed_pools k) t gone ->
  inv_but (fun i r => exists o p, FixedTable.get (fixed_pools k) o = Some p /\ i ∈ f_waiters p /\ gone o)
    (k <| fixed_pools := t |>).
Proof using Hk.
  intros Ht Hkeep. destruct Hk as [Ho Hth Hw].
  split; [destruct Ho; by split|destruct Hth; by split|].
  intros i r Hr. change (waiting k i r) in Hr. wait_cases Hw Hr.
  destruct Ha as (u & Hu & Hi & Hc). destruct (Hkeep _ _ Hu) as [Hu'|Hg].
  - left. by exists u.
  - right. by exists id, u.
Qed.

Lemma set_variable_pools_inv t :
  table_ok variable_ok t -> keeps (variable_pools k) t gone ->
  inv_but (fun i r => exists o p, FixedTable.get (variable_pools k) o = Some p /\ i ∈ v_waiters p /\ gone o)
    (k <| variable_pools := t |>).
Proof using Hk.
  intros Ht Hkeep. destruct Hk as [Ho Hth Hw].
  split; [destruct Ho; by split|destruct Hth; by split|].
  intros i r Hr. change (waiting k i r) in Hr. wait_cases Hw Hr.
  destruct Ha as (u & Hu & Hi & Hc). destruct (Hkeep _ _ Hu) as [Hu'|Hg].
  - left. by exists u.
  - right. by exists id, u.
Qed.

Lemma set_alarms_inv t :
  table_ok (fun _ => True) t -> first_id t = 1 -> inv (k <| alarms := t |>).
Proof using Hk.
  intros Ht Hf. destruct Hk as [Ho Hth Hw].
  split; [destruct Ho; by split|destruct Hth; by split|]. intros i r Hr. by apply Hw.
Qed.
End replace.

(** ** Releasing the waiters of a deleted object *)

Lemma release_deleted_spec l k :
  inv_but (fun i _ => i ∈ l) k -> settles (fun _ _ => False) (Kernel.release_deleted_waiters l k).
Proof.
  revert k. induction l as [|i l IH]; intros k Hk; cbn [Kernel.release_deleted_waiters].
  { apply (inv_weaken _ _ _ Hk). by intros ? ? _ ?%elem_of_nil. }
  destruct (Kernel.thread i k) as [t|] eqn:Ei; cbn [from_option].
  - unfold Kernel.is_waiting. destruct (state t) as [| | |r] eqn:Er.
    4: { pose proof (complete_wait_spec _ _ i r (code WaitDeleted) None Hk) as H.
         destruct (Kernel.complete_wait _ _ _ _) as [[u|e|] k'].
         - destruct H as [H _]; [by exists t|]. apply IH. apply (inv_weaken _ _ _ H).
           intros j s _ [[->|Hj]%elem_of_cons Hne]; [done|by right].
         - right. apply H. by exists t.
         - apply H. by exists t. }
    all: apply IH, (inv_weaken _ _ _ Hk); intros j s (u & Hj & Hs) [->|Hin]%elem_of_cons;
      [congruence|by right].
  - apply IH, (inv_weaken _ _ _ Hk). intros j s (u & Hj & Hs) [->|Hin]%elem_of_cons;
      [congruence|by right].
Qed.

Lemma complete_all_spec l k :
  inv k -> NoDup l -> (forall i, i ∈ l -> exists r, waiting k i r) ->
  settles (fun _ _ => False) (Kernel.complete_all l k).
Proof.
  revert k. induction l as [|i l IH]; intros k Hk Hnd Hl; cbn [Kernel.complete_all]; [done|].
  apply NoDup_cons in Hnd as [Hi Hnd]. destruct (Hl i ltac:(by left)) as [r Hr].
  pose proof (complete_wait_spec _ _ i r 0 None Hk Hr) as H.
  destruct (Kernel.complete_wait _ _ _ _) as [[u|e|] k']; [|by right|done].
  destruct H as [H (_ & _ & _ & _ & Hsame & _)]. apply IH.
  - apply (inv_weaken _ _ _ H). by intros ? ? _ [].
  - done.
  - intros j Hj. destruct (Hl j ltac:(by right)) as (s & t & Ht & Hs). exists s, t.
    split; [|done]. rewrite Hsame; [done|]. intros ->. done.
Qed.

Notation none := (fun (_ : Z) (_ : WaitReason) => False).

Lemma settles_ok {A} (a : A) k : inv k -> settles none (Ok a, k).
Proof. done. Qed.

Lemma settles_err {A} e k : inv k -> settles none (Err e : outcome KernelError A, k).
Proof. intros Hk. by left. Qed.

(** A call that waits: it fails unchanged, runs out, or leaves the invariant. *)
Definition settles_action {A} (r : outcome KernelError A * (Kernel * CpuContext)) : Prop :=
  settles none (r.1, r.2.1).

Lemma select_settles prev force k c : inv k -> settles_action (Kernel.select prev force k c).
Proof.
  intros Hk. pose proof (kernel_select_spec _ prev force k c Hk) as H.
  destruct (Kernel.select prev force k c) as [[a|e|] [k' c']]; [apply H|by right|done].
Qed.

Lemma block_settles reason deadline k c :
  inv k -> timed reason deadline ->
  (forall i, current_thread k = Some i -> reason <> Delay -> awaits k i reason) ->
  settles_action (Kernel.block_current reason deadline k c).
Proof.
  intros Hk Hd Ha. pose proof (block_spec _ reason deadline k c Hk Hd Ha) as H.
  destruct (Kernel.block_current reason deadline k c) as [[a|e|] [k' c']]; [done| |done].
  destruct H as [H| ->]; [by right|]. by apply settles_err.
Qed.

Lemma complete_settles k i r c v :
  inv_but (fun j _ => j = i) k -> waiting k i r -> settles none (Kernel.complete_wait i c v k).
Proof.
  intros Hk Hr. pose proof (complete_wait_spec _ k i r c v Hk Hr) as H.
  destruct (Kernel.complete_wait i c v k) as [[u|e|] k']; [|by right|done].
  apply (inv_weaken _ _ _ (proj1 H)). by intros j s _ [].
Qed.

Lemma inv_exempt E k : inv k -> inv_but E k.
Proof. intros Hk. by apply (inv_weaken _ _ _ Hk). Qed.

(** ** Threads *)

(** Replacing a thread that is neither running nor made ready or waiting anew. *)
Lemma put_quiet k i t u :
  inv k -> Kernel.thread i k = Some u -> thread_ok (next_ready_order k) t -> state t = state u ->
  ready_order t = ready_order u -> inv (Kernel.put_thread i t k).
Proof.
  intros Hk Hi Hok Hs Ho. pose proof (inv_threads _ _ Hk) as Ht.
  apply (replace_thread none k i t u (current_thread k) (next_ready_order k)); try done.
  - intros Hr j v Hji Hj Hv E. apply Hji. apply (ok_distinct k Ht j i v u); congruence.
  - intros j. rewrite (ok_current k Ht). case_decide as Hji; [|done]. subst.
    split; [intros (v & Hv & Hrun); congruence|]. intros Hrun. exists u. split; congruence.
  - intros r Hr. apply Hk. exists u. split; congruence.
Qed.

Lemma insert_thread_inv k t :
  inv k -> thread_ok (next_ready_order k) t -> state t = Dormant ->
  settles none (let (r, table) := FixedTable.insert t (threads k) in (r, k <| threads := table |>)).
Proof.
  intros Hk Hok Hs. pose proof (inv_threads _ _ Hk) as Ht. destruct (ok_table k Ht) as [Hw Hf].
  pose proof (TableFacts.insert_spec t _ Hw) as H.
  destruct (FixedTable.insert t (threads k)) as [[i|e|] table]; [|destruct H as (_ & -> & _); left; by destruct k|done].
  destruct H as (Hn & Hw' & Hf' & _ & Hget). apply settles_ok.
  assert (forall j, Kernel.thread j (k <| threads := table |>) =
    if decide (j = i) then Some t else Kernel.thread j k) as Hg by (intros j; apply Hget).
  split; [by destruct Hk as [[] _ _]; split| |].
  - split.
    + split; [done|]. cbn. congruence.
    + intros j. cbn [modify current_thread]. rewrite (ok_current k Ht).
      setoid_rewrite Hg. case_decide as Hj; [subst j|done].
      split; intros (u & Hu & Hr); [unfold Kernel.thread in Hu|simplify_eq]; congruence.
    + intros j u. rewrite Hg. case_decide; [by intros [= <-]|apply (ok_thread k Ht)].
    + intros j l u v. rewrite !Hg.
      repeat case_decide; intros; first [congruence|by apply (ok_distinct k Ht j l u v)].
  - intros j r (u & Hu & Hr). rewrite Hg in Hu. case_decide; [congruence|].
    destruct (inv_waits _ _ Hk j r) as [Ha|[]]; [by exists u|]. by left.
Qed.

Lemma remove_thread_inv k i t cur :
  inv k -> Kernel.thread i k = Some t -> (forall r, state t <> Waiting r) ->
  (forall j, cur = Some j <-> j <> i /\ exists u, Kernel.thread j k = Some u /\ state u = Running) ->
  inv (k <| current_thread := cur |> <| threads := (FixedTable.remove i (threads k)).2 |>).
Proof.
  intros Hk Hi Hs Hc. pose proof (inv_threads _ _ Hk) as Ht. destruct (ok_table k Ht) as [Hw Hf].
  set (k' := k <| current_thread := cur |> <| threads := (FixedTable.remove i (threads k)).2 |>).
  assert (forall j, Kernel.thread j k' = if decide (j = i) then None else Kernel.thread j k) as Hg
    by (intros j; by apply TableFacts.remove_get).
  split; [by destruct Hk as [[] _ _]; split| |].
  - split.
    + split; [by apply TableFacts.remove_wf|]. cbn. by rewrite TableFacts.remove_first.
    + intros j. change (current_thread k') with cur. rewrite Hc. setoid_rewrite Hg.
      case_decide as Hj; [subst j|naive_solver]. split; [by intros []|]. by intros (u & Hu & _).
    + intros j u. rewrite Hg. case_decide; [done|apply (ok_thread k Ht)].
    + intros j l u v. rewrite !Hg.
      repeat case_decide; intros; first [congruence|by apply (ok_distinct k Ht j l u v)].
  - intros j r (u & Hu & Hr). rewrite Hg in Hu. case_decide; [done|].
    destruct (inv_waits _ _ Hk j r) as [Ha|[]]; [by exists u|]. by left.
Qed.

Lemma validate_priority_ok p : validate_priority p = Ok tt -> priority_ok p.
Proof.
  unfold validate_priority, priority_ok. case_match eqn:E; [|done].
  apply andb_true_iff in E as [E1%Z.leb_le E2%Z.leb_le]. done.
Qed.

Lemma unit_ok {E} (m : outcome E unit) u : m = Ok u -> m = Ok tt.
Proof. by destruct u. Qed.

Lemma create_thread_settles s r k : inv k -> settles none (Kernel.create_thread s r k).
Proof.
  intros Hk. unfold Kernel.create_thread.
  destruct (validate_thread_attributes (thread_attributes s)) as [u|e|] eqn:E1; cbn [obind];
    [|by apply settles_err|by unfold validate_thread_attributes in E1; case_match].
  destruct (validate_priority (spec_priority s)) as [[]|e|] eqn:E2; cbn [obind];
    [|by apply settles_err|by unfold validate_priority in E2; case_match].
  apply validate_priority_ok in E2.
  destruct (stack_size s <? MIN_STACK_SIZE); [by apply settles_err|].
  destruct (validate_entry r (entry s)) as [u'|e|] eqn:E3; cbn [obind];
    [|by apply settles_err|].
  2: { unfold validate_entry, GuestRange.validate in E3. repeat case_match; done. }
  destruct (GuestRange.validate r (stack s) (stack_size s) 16) as [u''|e|] eqn:E4; cbn [obind map_err];
    [|by apply settles_err|by unfold GuestRange.validate in E4; repeat case_match].
  destruct (checked_add_u 32 (stack s) (stack_size s)) as [top|]; cbn [ok_or];
    [|by apply settles_err].
  apply insert_thread_inv; [done| |done]. split; cbn; [done|by vm_compute|done|done].
Qed.

Lemma start_thread_settles i arguments ra k :
  inv k -> settles none (Kernel.start_thread_with_context i arguments ra k).
Proof.
  intros Hk. pose proof (inv_threads _ _ Hk) as Ht. unfold Kernel.start_thread_with_context.
  destruct (Kernel.thread i k) as [t|] eqn:Hi; [|by apply settles_err].
  case_bool_decide as Hs; cbn [negb]; [|by apply settles_err].
  destruct (take_order_cases k) as [[-> Hx]| ->]; [by right|].
  change (Kernel.thread i _) with (Kernel.thread i k). rewrite Hi. apply settles_ok.
  pose proof (ok_thread k Ht i t Hi) as [[H1 H1'] H2 H3 H4].
  match goal with |- inv (Kernel.put_thread i ?x _) => set (t' := x) end.
  apply (replace_thread none k i t' t (current_thread k) (next_ready_order k + 1)); try done.
  - split; cbn; try done. lia.
  - lia.
  - intros _ j u Hji Hj Hu. cbn. pose proof (ok_order _ _ (ok_thread k Ht j u Hj) Hu). lia.
  - intros j. rewrite (ok_current k Ht). case_decide as Hji; [|done]. subst.
    split; [|done]. intros (u & Hu & Hrun). congruence.
Qed.

Lemma wait_module_start_settles child k c : inv k -> settles_action (Kernel.wait_module_start child k c).
Proof.
  intros Hk. unfold Kernel.wait_module_start. case_match; [|by apply settles_err].
  by apply block_settles.
Qed.

Lemma wait_matches_true i r k : Kernel.wait_matches i r k = true <-> waiting k i r.
Proof.
  unfold Kernel.wait_matches, waiting. destruct (Kernel.thread i k) as [t|]; cbn [from_option].
  - rewrite bool_decide_eq_true. naive_solver.
  - naive_solver.
Qed.

Lemma complete_module_start_settles requester child m resident k :
  inv k -> settles none (Kernel.complete_module_start requester child m resident k).
Proof.
  intros Hk. unfold Kernel.complete_module_start.
  destruct (Kernel.wait_matches _ _ k) eqn:E; cbn [negb]; [|by apply settles_err].
  apply wait_matches_true in E. destruct (try_from_u 31 m); cbn [ok_or]; [|by apply settles_err].
  eapply complete_settles; [by apply inv_exempt|done].
Qed.

Lemma delete_thread_settles i k : inv k -> settles none (Kernel.delete_thread i k).
Proof.
  intros Hk. pose proof (inv_threads _ _ Hk) as Ht. unfold Kernel.delete_thread.
  destruct (Kernel.thread i k) as [t|] eqn:Hi; [|by apply settles_err].
  case_bool_decide as Hs; cbn [negb]; [|by apply settles_err].
  pose proof (remove_thread_inv k i t (current_thread k) Hk Hi) as Hr.
  pose proof (TableFacts.remove_value (threads k) i) as Hv.
  destruct (FixedTable.remove i (threads k)) as [removed table]. cbn [fst snd] in *.
  unfold Kernel.thread in Hi. rewrite Hv, Hi. cbn [ok_or]. apply settles_ok, Hr; [congruence|].
  intros j. rewrite (ok_current k Ht). split; [|by intros []].
  intros (u & Hu & Hrun). split; [|by exists u]. intros ->. unfold Kernel.thread in Hu. congruence.
Qed.

Lemma exit_current_settles k c : inv k -> settles_action (Kernel.exit_current k c).
Proof.
  intros Hk. pose proof (inv_threads _ _ Hk) as Ht. unfold Kernel.exit_current.
  destruct (current_thread k) as [i|] eqn:Ec; [|by apply settles_err].
  pose proof Ec as (t & Hi & Hrun)%(ok_current k Ht).
  change (Kernel.thread i _) with (Kernel.thread i k). rewrite Hi.
  set (t' := t <| saved_context := c |> <| state := Dormant |> <| wakeup_count := 0 |>).
  pose proof (ok_thread k Ht i t Hi) as [H1 H2 H3 H4].
  assert (inv (Kernel.put_thread i t' (k <| current_thread := None |>))) as Hp.
  { apply (replace_thread none k i t' t None (next_ready_order k)); try done.
    intros j. split; [done|]. case_decide as Hji; [done|]. intros Hr%(ok_current k Ht). congruence. }
  apply select_settles, set_scheduler_inv; [done|].
  intros j (u & Hu & Hd) Ha. left. destruct (decide (j = i)) as [->|Hne].
  - assert (Kernel.thread i (Kernel.put_thread i t' k) = Some u) as Hu' by done.
    rewrite (thread_put k Ht i i t' t Hi), decide_True in Hu' by done. by simplify_eq.
  - change (Scheduler.cancel ?s ?x) with (eq_cancel s x). rewrite eq_cancel_deadline.
    rewrite decide_False; [done|]. intros ?%wait_event_inj. congruence.
Qed.

Lemma exit_delete_current_settles k c : inv k -> settles_action (Kernel.exit_delete_current k c).
Proof.
  intros Hk. pose proof (inv_threads _ _ Hk) as Ht. unfold Kernel.exit_delete_current.
  destruct (current_thread k) as [i|] eqn:Ec; [|by apply settles_err].
  pose proof Ec as (t & Hi & Hrun)%(ok_current k Ht).
  pose proof (remove_thread_inv k i t None Hk Hi) as Hr.
  pose proof (TableFacts.remove_value (threads k) i) as Hv.
  pose proof (TableFacts.remove_get (threads k) i i (proj1 (ok_table k Ht))) as Hg.
  change (threads (Kernel.cancel_wait i _)) with (threads k).
  destruct (FixedTable.remove i (threads k)) as [removed table]. cbn [fst snd] in *.
  unfold Kernel.thread in Hi. rewrite Hv, Hi.
  set (q := (Scheduler.cancel (scheduler k) (wait_event i)).2).
  match goal with |- settles_action (Kernel.select _ _ ?x _) =>
    assert (x = k <| current_thread := None |> <| threads := table |> <| scheduler := q |>) as ->
      by reflexivity end.
  apply select_settles, set_scheduler_inv.
  - apply Hr; [congruence|]. intros j. split; [done|]. intros [Hj Hu]. apply (ok_current k Ht) in Hu.
    congruence.
  - intros j (u & Hu & Hd) Ha. left. destruct (decide (j = i)) as [->|Hne].
    + unfold Kernel.thread in Hu. cbn [modify threads] in Hu. rewrite decide_True in Hg by done.
      congruence.
    + change q with (eq_cancel (scheduler k) (wait_event i)).2. rewrite eq_cancel_deadline.
      rewrite decide_False; [done|]. intros ?%wait_event_inj. congruence.
Qed.

Lemma change_priority_settles i p k : inv k -> settles none (Kernel.change_priority i p k).
Proof.
  intros Hk. pose proof (inv_threads _ _ Hk) as Ht. unfold Kernel.change_priority.
  destruct (Kernel.thread i k) as [t|] eqn:Hi; [|by apply settles_err].
  destruct (p =? 0); [done|].
  destruct (validate_priority p) as [[]|e|] eqn:E; [|by apply settles_err|].
  2: { unfold validate_priority in E. by case_match. }
  apply validate_priority_ok in E. apply settles_ok.
  destruct (ok_thread k Ht i t Hi) as [[H1 H1'] H2 H3 H4].
  by apply (put_quiet k i _ t).
Qed.

Lemma reschedule_settles reason k c : inv k -> settles_action (Kernel.reschedule reason k c).
Proof.
  intros Hk. pose proof (inv_threads _ _ Hk) as Ht. unfold Kernel.reschedule.
  destruct (current_thread k) as [i|] eqn:Ec; [|by apply select_settles].
  pose proof Ec as (t & Hi & Hrun)%(ok_current k Ht). rewrite Hi, bool_decide_true by done.
  cbn [negb]. apply select_settles.
  destruct (ok_thread k Ht i t Hi) as [H1 H2 H3 H4]. by apply (put_quiet k i _ t).
Qed.

Lemma sleep_current_settles k c : inv k -> settles_action (Kernel.sleep_current k c).
Proof.
  intros Hk. pose proof (inv_threads _ _ Hk) as Ht. unfold Kernel.sleep_current.
  destruct (current_thread k) as [i|] eqn:Ec; [|by apply settles_err].
  pose proof Ec as (t & Hi & Hrun)%(ok_current k Ht). rewrite Hi.
  destruct (Z.eqb_spec (wakeup_count t) 0) as [|Hne]; cbn [negb]; [by apply block_settles|].
  apply settles_ok. destruct (ok_thread k Ht i t Hi) as [H1 H2 H3 H4].
  apply (put_quiet k i _ t); try done. split; cbn; try done. unfold in_u in *. lia.
Qed.

Lemma wakeup_thread_settles i k : inv k -> settles none (Kernel.wakeup_thread i k).
Proof.
  intros Hk. pose proof (inv_threads _ _ Hk) as Ht. unfold Kernel.wakeup_thread.
  destruct (Kernel.thread i k) as [t|] eqn:Hi; [|by apply settles_err].
  case_bool_decide as Hs.
  - pose proof (complete_settles k i Sleep 0 None (inv_exempt _ k Hk)) as H.
    destruct (Kernel.complete_wait _ _ _ _) as [[u|e|] k']; apply H; by exists t.
  - destruct (checked_add_u 32 (wakeup_count t) 1) as [n|] eqn:E; [|by left].
    apply checked_add_u_Some in E as [-> E]. apply settles_ok.
    destruct (ok_thread k Ht i t Hi) as [H1 H2 H3 H4].
    apply (put_quiet k i _ t); try done. split; cbn; try done. unfold in_u in *. lia.
Qed.

Lemma wait_vblank_settles phase k c : inv k -> settles_action (Kernel.wait_vblank phase k c).
Proof.
  intros Hk. unfold Kernel.wait_vblank, Kernel.vblank_reason.
  repeat case_match; simplify_eq; try (by apply settles_err); by apply block_settles.
Qed.

Lemma filter_keys_NoDup {A B} (P : A * B -> Prop) `{forall x, Decision (P x)} (l : list (A * B)) :
  NoDup l.*1 -> NoDup (filter P l).*1.
Proof.
  induction l as [|x l IH]; [done|]. rewrite fmap_cons. intros [Hx Hl]%NoDup_cons.
  rewrite filter_cons. case_decide; [|auto]. rewrite fmap_cons. constructor; [|auto].
  intros (y & Ey & [_ Hy]%list_elem_of_filter)%list_elem_of_fmap. apply Hx, list_elem_of_fmap.
  by exists y.
Qed.

Lemma notify_vblank_settles phase k : inv k -> settles none (Kernel.notify_vblank phase k).
Proof.
  intros Hk. pose proof (inv_threads _ _ Hk) as Ht. unfold Kernel.notify_vblank.
  destruct (Kernel.vblank_reason phase) as [reason|e|] eqn:E; [|by apply settles_err|].
  2: { unfold Kernel.vblank_reason in E. by repeat case_match. }
  set (l := filter _ _).
  assert (settles none (Kernel.complete_all l.*1 k)) as H.
  { apply complete_all_spec; [done| |].
    - apply filter_keys_NoDup, TableFacts.iter_NoDup, Ht.
    - intros i ([j t] & -> & [Hr Hj]%list_elem_of_filter)%list_elem_of_fmap. exists reason, t.
      split; [|done]. by apply TableFacts.elem_of_iter; [apply Ht|]. }
  by destruct (Kernel.complete_all l.*1 k) as [[u|e|] k'].
Qed.

(** ** Waiting calls *)

Definition settles_bios {A S} (r : outcome BiosError A * S) (k : Kernel) : Prop :=
  match r.1 with
  | Ok _ => inv k
  | Err e => inv k \/ e = Kernel_error NoMemory /\ exhausted k
  | Panic => False
  end.

(** A rejected call changes nothing. *)
#[export] Hint Extern 0 (settles_bios (Err _, _) _) => left; assumption : core.

Lemma bios_settles {A} (r : outcome KernelError A * (Kernel * CpuContext)) :
  settles_action r -> settles_bios (bios r) (bios r).2.1.
Proof. destruct r as [[a|e|] [k c]]; cbn; [done| |done]. intros [H|[-> H]]; [by left|by right]. Qed.

Lemma delay_current_settles ticks k c :
  inv k -> settles_bios (Kernel.delay_current ticks k c) (Kernel.delay_current ticks k c).2.1.
Proof.
  intros Hk. unfold Kernel.delay_current. case_match; [by apply bios_settles, reschedule_settles|].
  destruct (Deadline.checked_advance (now k) ticks) as [d|e|] eqn:E; [|done|].
  - apply bios_settles, block_settles; [done|by eexists|]. by intros i _ [].
  - unfold Deadline.checked_advance in E. by destruct (checked_add_u _ _ _).
Qed.

(** The tail of every timed wait, once the thread is in the object's queue. *)
Lemma wait_tail {A} (f : ScheduleAction -> A) reason timeout k c :
  inv k -> reason <> Delay -> (forall d, timed reason d) ->
  (forall i, current_thread k = Some i -> awaits k i reason) ->
  let r := match deadline_after (now k) timeout with
           | Err e => (Err e, (k, c))
           | Panic => (Panic, (k, c))
           | Ok deadline =>
               let (r, s) := Kernel.block_current reason deadline k c in
               (omapok f (map_err Kernel_error r), s)
           end in
  settles_bios r r.2.1.
Proof.
  intros Hk Hne Hd Ha. unfold deadline_after.
  destruct timeout as [ticks|].
  - destruct (Deadline.checked_advance (now k) ticks) as [d|e|] eqn:E; cbn [map_err omapok obind];
      [|done|unfold Deadline.checked_advance in E; by destruct (checked_add_u _ _ _)].
    pose proof (block_settles reason (Some d) k c Hk (Hd _) (fun i Hi _ => Ha i Hi)) as H.
    destruct (Kernel.block_current _ _ _ _) as [[a|e|] [k' c']]; cbn in *;
      [done|by destruct H as [H|[-> H]]; [left|right]|done].
  - pose proof (block_settles reason None k c Hk (Hd _) (fun i Hi _ => Ha i Hi)) as H.
    destruct (Kernel.block_current _ _ _ _) as [[a|e|] [k' c']]; cbn in *;
      [done|by destruct H as [H|[-> H]]; [left|right]|done].
Qed.

Lemma elem_of_insert_waiter {N} l i a (t : FixedTable Thread N) j :
  j ∈ insert_waiter l i a t <-> j = i \/ j ∈ l.
Proof.
  unfold insert_waiter. case_match; [set_solver|].
  destruct (list_find _ l) as [[n w]|]; [|set_solver].
  rewrite elem_of_app, elem_of_cons, <- (take_drop n l) at 1.
  rewrite (take_drop n l). rewrite <- (take_drop n l) at 3. rewrite elem_of_app. tauto.
Qed.

(** ** Semaphores *)

Lemma running_not_waiting k i r : inv k -> current_thread k = Some i -> ~ waiting k i r.
Proof.
  intros Hk (t & Hi & Hr)%(ok_current k (inv_threads _ _ Hk)) (u & Hu & Hw). congruence.
Qed.

Lemma create_semaphore_settles s k :
  0 <= initial s -> ss_maximum s < 2 ^ 32 -> inv k -> settles none (Kernel.create_semaphore s k).
Proof.
  intros H0 H1 Hk. unfold Kernel.create_semaphore.
  destruct (validate_attributes (ss_attributes s)) as [u|e|] eqn:E; [|by apply settles_err|].
  2: { unfold validate_attributes in E. by case_match. }
  destruct (_ || _) eqn:Ez; [by apply settles_err|]. apply orb_false_iff in Ez as [_ Ez%Z.ltb_ge].
  set (v := mkSemaphore _ _ _ _). assert (semaphore_ok v) as Hv by (split; cbn; lia).
  pose proof (table_insert _ _ v (ok_semaphores k (inv_objects _ _ Hk)) Hv) as H.
  destruct (FixedTable.insert v (semaphores k)) as [[i|e|] t];
    [|destruct H as [_ ->]; left; by destruct k|done].
  destruct H as [Ht Hx]. apply settles_ok.
  apply (inv_weaken _ _ _ (set_semaphores_inv k Hk _ t Ht (extends_keeps _ _ _ _ Hx))).
  naive_solver.
Qed.

Lemma delete_semaphore_settles id k : inv k -> settles none (Kernel.delete_semaphore id k).
Proof.
  intros Hk. unfold Kernel.delete_semaphore.
  pose proof (ok_semaphores k (inv_objects _ _ Hk)) as Ht.
  pose proof (set_semaphores_inv k Hk _ _ (table_remove _ _ id Ht) (remove_keeps _ id (proj1 Ht))) as H.
  pose proof (TableFacts.remove_value (semaphores k) id) as Hv.
  destruct (FixedTable.remove id (semaphores k)) as [[s|] t]; cbn [fst snd] in *.
  - apply release_deleted_spec, (inv_weaken _ _ _ H).
    intros i r _ (o & u & Hu & Hi & ->). right. congruence.
  - apply settles_err, (inv_weaken _ _ _ H). intros i r _ (o & u & Hu & Hi & ->). congruence.
Qed.

(** Taking one from a positive count. *)
Lemma take_semaphore_inv id s k :
  inv k -> FixedTable.get (semaphores k) id = Some s -> count s <> 0 ->
  inv (Kernel.put_semaphore id (s <| count := count s - 1 |>) k).
Proof.
  intros Hk Hs Hc. pose proof (table_get _ _ _ _ (ok_semaphores k (inv_objects _ _ Hk)) Hs) as [H1 H2].
  apply (put_semaphore_inv none none k Hk ltac:(done) id s); [done|split; cbn; lia|]. done.
Qed.

Lemma poll_semaphore_settles id k : inv k -> settles none (Kernel.poll_semaphore id k).
Proof.
  intros Hk. unfold Kernel.poll_semaphore.
  destruct (FixedTable.get (semaphores k) id) as [s|] eqn:Hs; [|by apply settles_err].
  destruct (Z.eqb_spec (count s) 0); [by apply settles_err|]. by apply settles_ok, take_semaphore_inv.
Qed.

Lemma wait_semaphore_settles id timeout k c :
  inv k -> settles_bios (Kernel.wait_semaphore id timeout k c) (Kernel.wait_semaphore id timeout k c).2.1.
Proof.
  intros Hk. unfold Kernel.wait_semaphore.
  destruct (FixedTable.get (semaphores k) id) as [s|] eqn:Hs; [|done].
  destruct (Z.eqb_spec (count s) 0) as [Hc|Hc]; cbn [negb]; [|by apply take_semaphore_inv].
  destruct (current_thread k) as [i|] eqn:Ec; [|done].
  pose proof (table_get _ _ _ _ (ok_semaphores k (inv_objects _ _ Hk)) Hs) as Hok.
  apply wait_tail; [|done|done|].
  - apply (put_semaphore_inv none none k Hk ltac:(done) id s); [done|done|].
    intros j _ Hj _. left. split; [|done]. cbn. apply elem_of_insert_waiter. by right.
  - intros j Hj. assert (j = i) as -> by (change (current_thread k = Some j) in Hj; congruence).
    eexists. split.
    + cbn. rewrite (TableFacts.put_get _ _ _ s); [|apply (ok_semaphores k (inv_objects _ _ Hk))|done].
      by rewrite decide_True.
    + split; [|done]. cbn. apply elem_of_insert_waiter. by left.
Qed.

(** The state while one popped thread is still to be served or dropped. *)
Lemma drop_stale E k i r :
  inv_but E k -> (forall j s, E j s -> j = i /\ s = r) -> ~ waiting k i r -> inv k.
Proof.
  intros Hk HE Hn. apply (inv_weaken _ _ _ Hk). intros j s Hj Hs.
  destruct (HE j s Hs) as [-> ->]. done.
Qed.

Lemma serve_popped {A} E k i r value (a : A) :
  inv_but E k -> (forall j s, E j s -> j = i) -> waiting k i r ->
  settles none (match Kernel.complete_wait i 0 value k with
                | (Ok _, k) => (Ok a, k)
                | (Err e, k) => (Err e, k)
                | (Panic, k) => (Panic, k)
                end).
Proof.
  intros Hk HE Hr. assert (inv_but (fun j _ => j = i) k) as Hk'
    by (apply (inv_weaken _ _ _ Hk); eauto).
  pose proof (complete_settles k i r 0 value Hk' Hr) as H.
  by destruct (Kernel.complete_wait i 0 value k) as [[u|e|] k'].
Qed.

Lemma signal_loop_settles fuel id s k :
  inv k -> FixedTable.get (semaphores k) id = Some s -> (length (s_waiters s) < fuel)%nat ->
  settles none (Kernel.signal_loop fuel id k).
Proof.
  revert s k. induction fuel as [|fuel IH]; intros s k Hk Hs Hf; [lia|].
  cbn [Kernel.signal_loop]. rewrite Hs.
  pose proof (table_get _ _ _ _ (ok_semaphores k (inv_objects _ _ Hk)) Hs) as [H1 H2].
  destruct (s_waiters s) as [|i rest] eqn:Ew.
  - destruct (Z.eqb_spec (count s) (maximum s)); [by apply settles_err|].
    rewrite (proj2 (checked_add_u_Some 32 (count s) 1 _)) by (split; [done|lia]).
    apply settles_ok. apply (put_semaphore_inv none none k Hk ltac:(done) id s); [done|split; cbn; lia|].
    rewrite Ew. by intros j _ []%elem_of_nil.
  - set (k1 := Kernel.put_semaphore id (s <| s_waiters := rest |>) k).
    assert (inv_but (fun j r => j = i /\ r = Semaphore_wait id) k1) as Hk1.
    { eapply (put_semaphore_inv none _ k Hk); [done|exact Hs|done|].
      rewrite Ew. intros j _ [->|Hj]%elem_of_cons Hc; [by right|by left]. }
    destruct (Kernel.wait_matches i (Semaphore_wait id) k1) eqn:Em.
    + apply wait_matches_true in Em.
      apply (serve_popped _ _ i (Semaphore_wait id) None (Some i) Hk1); [by intros ? ? []|done].
    + assert (inv k1) as Hk1'.
      { apply (drop_stale _ _ i (Semaphore_wait id) Hk1); [done|].
        rewrite <- wait_matches_true. congruence. }
      apply (IH (s <| s_waiters := rest |>)); [done| |cbn in *; lia].
      cbn. rewrite (TableFacts.put_get _ _ _ s); [|apply (ok_semaphores k (inv_objects _ _ Hk))|done].
      by rewrite decide_True.
Qed.

Lemma signal_semaphore_settles id k : inv k -> settles none (Kernel.signal_semaphore id k).
Proof.
  intros Hk. unfold Kernel.signal_semaphore.
  destruct (FixedTable.get (semaphores k) id) as [s|] eqn:Hs; cbn [from_option].
  - by apply (signal_loop_settles _ _ s); [| |lia].
  - cbn [Kernel.signal_loop]. rewrite Hs. by apply settles_err.
Qed.

(** ** Message boxes *)

Lemma create_message_box_settles s k : inv k -> settles none (Kernel.create_message_box s k).
Proof.
  intros Hk. unfold Kernel.create_message_box.
  destruct (validate_attributes (ms_attributes s)) as [u|e|] eqn:E; [|by apply settles_err|].
  2: { unfold validate_attributes in E. by case_match. }
  set (v := mkMessageBox _ _ _).
  pose proof (table_insert _ _ v (ok_boxes k (inv_objects _ _ Hk)) I) as H.
  destruct (FixedTable.insert v (message_boxes k)) as [[i|e|] t]; [|destruct H as [_ ->]; left; by destruct k|done].
  destruct H as [Ht Hx]. apply settles_ok.
  apply (inv_weaken _ _ _ (set_message_boxes_inv k Hk _ t Ht (extends_keeps _ _ _ _ Hx))).
  naive_solver.
Qed.

Lemma delete_message_box_settles id k : inv k -> settles none (Kernel.delete_message_box id k).
Proof.
  intros Hk. unfold Kernel.delete_message_box.
  pose proof (ok_boxes k (inv_objects _ _ Hk)) as Ht.
  pose proof (set_message_boxes_inv k Hk _ _ (table_remove _ _ id Ht) (remove_keeps _ id (proj1 Ht))) as H.
  pose proof (TableFacts.remove_value (message_boxes k) id) as Hv.
  destruct (FixedTable.remove id (message_boxes k)) as [[s|] t]; cbn [fst snd] in *.
  - apply release_deleted_spec, (inv_weaken _ _ _ H).
    intros i r _ (o & u & Hu & Hi & ->). right. congruence.
  - apply settles_err, (inv_weaken _ _ _ H). intros i r _ (o & u & Hu & Hi & ->). congruence.
Qed.

Lemma send_loop_settles fuel id message m k :
  inv k -> FixedTable.get (message_boxes k) id = Some m -> (length (m_waiters m) < fuel)%nat ->
  settles none (Kernel.send_loop fuel id message k).
Proof.
  revert m k. induction fuel as [|fuel IH]; intros m k Hk Hs Hf; [lia|].
  cbn [Kernel.send_loop]. rewrite Hs. destruct (m_waiters m) as [|i rest] eqn:Ew.
  - apply settles_ok. apply (put_message_box_inv none none k Hk ltac:(done) id m); [done|].
    rewrite Ew. by intros j _ []%elem_of_nil.
  - set (k1 := Kernel.put_message_box id (m <| m_waiters := rest |>) k).
    assert (inv_but (fun j r => j = i /\ r = MessageBox_wait id) k1) as Hk1.
    { eapply (put_message_box_inv none _ k Hk); [done|exact Hs|].
      rewrite Ew. intros j _ [->|Hj]%elem_of_cons Hc; [by right|by left]. }
    destruct (Kernel.wait_matches i (MessageBox_wait id) k1) eqn:Em.
    + apply wait_matches_true in Em.
      apply (serve_popped _ _ i (MessageBox_wait id) (Some message) (Some i) Hk1);
        [by intros ? ? []|done].
    + assert (inv k1) as Hk1'.
      { apply (drop_stale _ _ i (MessageBox_wait id) Hk1); [done|].
        rewrite <- wait_matches_true. congruence. }
      apply (IH (m <| m_waiters := rest |>)); [done| |cbn in *; lia].
      cbn. rewrite (TableFacts.put_get _ _ _ m); [|apply (ok_boxes k (inv_objects _ _ Hk))|done].
      by rewrite decide_True.
Qed.

Lemma send_message_settles id message k : inv k -> settles none (Kernel.send_message id message k).
Proof.
  intros Hk. unfold Kernel.send_message. case_match; [by apply settles_err|].
  destruct (FixedTable.get (message_boxes k) id) as [m|] eqn:Hs; cbn [from_option].
  - by apply (send_loop_settles _ _ _ m); [| |lia].
  - cbn [Kernel.send_loop]. rewrite Hs. by apply settles_err.
Qed.

(** A message may be taken: nobody waits while there is one. *)
Lemma take_message_inv id m x rest k :
  inv k -> FixedTable.get (message_boxes k) id = Some m -> messages m = x :: rest ->
  inv (Kernel.put_message_box id (m <| messages := rest |>) k).
Proof.
  intros Hk Hm Hx. apply (put_message_box_inv none none k Hk ltac:(done) id m); [done|].
  rewrite Hx. done.
Qed.

Lemma poll_message_settles id k : inv k -> settles none (Kernel.poll_message id k).
Proof.
  intros Hk. unfold Kernel.poll_message.
  destruct (FixedTable.get (message_boxes k) id) as [m|] eqn:Hm; [|by apply settles_err].
  destruct (messages m) as [|x rest] eqn:Ex; [by apply settles_err|].
  by apply settles_ok, (take_message_inv id m x).
Qed.

Lemma receive_message_settles id timeout k c :
  inv k ->
  settles_bios (Kernel.receive_message id timeout k c) (Kernel.receive_message id timeout k c).2.1.
Proof.
  intros Hk. unfold Kernel.receive_message.
  destruct (current_thread k) as [i|] eqn:Ec; [|done].
  destruct (FixedTable.get (message_boxes k) id) as [m|] eqn:Hm; [|done].
  destruct (messages m) as [|x rest] eqn:Ex; [|by apply (take_message_inv id m x)].
  apply wait_tail; [|done|done|].
  - apply (put_message_box_inv none none k Hk ltac:(done) id m); [done|].
    intros j _ Hj Hc. left. split; [|done]. cbn. apply elem_of_insert_waiter. by right.
  - intros j Hj. assert (j = i) as -> by (change (current_thread k = Some j) in Hj; congruence).
    eexists. split.
    + cbn. rewrite (TableFacts.put_get _ _ _ m); [|apply (ok_boxes k (inv_objects _ _ Hk))|done].
      by rewrite decide_True.
    + split; [|done]. cbn. apply elem_of_insert_waiter. by left.
Qed.
