(* ===== verification/IopKernelQueues.v ===== *)
(** * Event flags and memory pools of the IOP kernel keep its invariant

    Setting a flag and freeing pool memory serve a whole queue in one pass: the queue is
    taken from the object, the threads that can be served are released in order, the
    others are put back.  During the pass the invariant holds but for the waits of the
    threads still queued or retained. *)

From S2P Require Import Prelude Records MachineInt Clock Scheduler IopBase IopDispatch.
From S2P Require Import IopKernel IopKernelInv IopKernelFacts.

(** Reading back the object just written. *)
Lemma put_same {T N} (P : T -> Prop) (t : FixedTable T N) id v w :
  table_ok P t -> FixedTable.get t id = Some w -> FixedTable.get (FixedTable.put id v t) id = Some v.
Proof. intros [Ht _] Hi. rewrite (TableFacts.put_get _ _ _ w) by done. by rewrite decide_True. Qed.

Lemma waiting_inj k i r s : waiting k i r -> waiting k i s -> r = s.
Proof. intros (t & Hi & Hr) (u & Hj & Hs). congruence. Qed.

(** ** Event flags *)

Lemma validate_event_wait_no_panic pattern mode : validate_event_wait pattern mode <> Panic.
Proof. unfold validate_event_wait. by repeat case_match. Qed.

Lemma create_event_flag_settles s k : inv k -> settles none (Kernel.create_event_flag s k).
Proof.
  intros Hk. unfold Kernel.create_event_flag. destruct (negb _); [by apply settles_err|].
  set (v := mkEventFlag _ _ _).
  pose proof (table_insert _ _ v (ok_flags k (inv_objects _ _ Hk)) I) as H.
  destruct (FixedTable.insert v (event_flags k)) as [[i|e|] t]; [|destruct H as [_ ->]; left; by destruct k|done].
  destruct H as [Ht Hx]. apply settles_ok.
  apply (inv_weaken _ _ _ (set_event_flags_inv k Hk _ t Ht (extends_keeps _ _ _ _ Hx))).
  naive_solver.
Qed.

Lemma delete_event_flag_settles id k : inv k -> settles none (Kernel.delete_event_flag id k).
Proof.
  intros Hk. unfold Kernel.delete_event_flag.
  pose proof (ok_flags k (inv_objects _ _ Hk)) as Ht.
  pose proof (set_event_flags_inv k Hk _ _ (table_remove _ _ id Ht) (remove_keeps _ id (proj1 Ht))) as H.
  pose proof (TableFacts.remove_value (event_flags k) id) as Hv.
  destruct (FixedTable.remove id (event_flags k)) as [[s|] t]; cbn [fst snd] in *.
  - apply release_deleted_spec, (inv_weaken _ _ _ H).
    intros i r _ (o & u & Hu & Hi & ->). right. congruence.
  - apply settles_err, (inv_weaken _ _ _ H). intros i r _ (o & u & Hu & Hi & ->). congruence.
Qed.

(** Bits may only disappear without the queue being served. *)
Lemma fewer_bits_inv id e e' k :
  inv k -> FixedTable.get (event_flags k) id = Some e -> fewer (bits e') (bits e) ->
  e_waiters e' = e_waiters e -> inv (Kernel.put_event_flag id e' k).
Proof.
  intros Hk He Hf Hw. apply (put_event_flag_inv none none k Hk ltac:(done) id e); [done|].
  intros i pattern mode _ Hi Hs. left. rewrite Hw. split; [done|].
  by apply (satisfied_fewer (bits e)).
Qed.

Lemma poll_event_flag_settles id pattern mode k :
  inv k -> settles none (Kernel.poll_event_flag id pattern mode k).
Proof.
  intros Hk. unfold Kernel.poll_event_flag.
  pose proof (validate_event_wait_no_panic pattern mode) as Hp.
  destruct (validate_event_wait pattern mode) as [u|e|]; [|by apply settles_err|done].
  destruct (FixedTable.get (event_flags k) id) as [e|] eqn:He; [|by apply settles_err].
  pose proof (consume_spec e pattern mode) as Hc.
  destruct (consume_event_bits e pattern mode) as [[value e']|]; [|by apply settles_err].
  destruct Hc as (_ & _ & Hf & Hw & _). apply settles_ok. by apply (fewer_bits_inv id e).
Qed.

Lemma clear_event_flag_settles id mask k : inv k -> settles none (Kernel.clear_event_flag id mask k).
Proof.
  intros Hk. unfold Kernel.clear_event_flag.
  destruct (FixedTable.get (event_flags k) id) as [e|] eqn:He; [|by apply settles_err].
  apply settles_ok. apply (fewer_bits_inv id e); [done|done| |done]. apply fewer_land.
Qed.

Lemma wait_event_flag_settles id pattern mode timeout k c :
  inv k ->
  settles_bios (Kernel.wait_event_flag id pattern mode timeout k c)
    (Kernel.wait_event_flag id pattern mode timeout k c).2.1.
Proof.
  intros Hk. unfold Kernel.wait_event_flag.
  pose proof (validate_event_wait_no_panic pattern mode) as Hp.
  destruct (validate_event_wait pattern mode) as [u|x|]; [|done|done].
  destruct (current_thread k) as [i|] eqn:Ec; [|done].
  destruct (FixedTable.get (event_flags k) id) as [e|] eqn:He; [|done].
  pose proof (consume_spec e pattern mode) as Hc.
  destruct (consume_event_bits e pattern mode) as [[value e']|].
  { destruct Hc as (_ & _ & Hf & Hw & _). by apply (fewer_bits_inv id e). }
  destruct (_ && _); [done|]. pose proof (ok_flags k (inv_objects _ _ Hk)) as Ht.
  apply wait_tail; [|done|done|].
  - apply (put_event_flag_inv none none k Hk ltac:(done) id e); [done|].
    intros j ? ? _ Hj Hs. left. split; [|done]. cbn. apply elem_of_insert_waiter. by right.
  - intros j Hj. assert (j = i) as -> by (change (current_thread k = Some j) in Hj; congruence).
    eexists. split; [exact (put_same _ _ _ _ _ Ht He)|].
    split; [|done]. cbn. apply elem_of_insert_waiter. by left.
Qed.

Lemma flag_wait_Some id i k pattern mode :
  Kernel.flag_wait id i k = Some (pattern, mode) <-> waiting k i (EventFlag_wait id pattern mode).
Proof.
  unfold Kernel.flag_wait, waiting. destruct (Kernel.thread i k) as [t|]; cbn; [|naive_solver].
  destruct (state t) as [| | |[| | | | | |o p m| | |]] eqn:Es; 
    try (split; [done|by intros (u & [= <-] & Hu); congruence]).
  destruct (Z.eqb_spec o id) as [->|Hne].
  - split; [intros [= -> ->]; by exists t|]. intros (u & [= <-] & Hu). congruence.
  - split; [done|]. intros (u & [= <-] & Hu). congruence.
Qed.

(** The waits exempt while a queue is served: those of threads still queued, and of
    retained threads whose condition does not hold. *)
Definition serving (id : Z) (queued retained : list Z) (b i : Z) (r : WaitReason) : Prop :=
  match r with
  | EventFlag_wait o pattern mode =>
      o = id /\ (i ∈ queued \/ i ∈ retained /\ satisfied b pattern mode = false)
  | _ => False
  end.

Lemma set_flag_loop_spec queued id retained ready e k :
  inv_but (serving id queued retained (bits e)) k ->
  FixedTable.get (event_flags k) id = Some e -> e_waiters e = [] ->
  match Kernel.set_flag_loop queued id retained ready k with
  | (Ok out, k') => exists e', FixedTable.get (event_flags k') id = Some e' /\ e_waiters e' = [] /\
      inv_but (serving id [] out.1 (bits e')) k'
  | (Err x, k') => ran_out x k'
  | (Panic, _) => False
  end.
Proof.
  revert retained ready e k.
  induction queued as [|i queued IH]; intros retained ready e k Hk He Hw;
    cbn [Kernel.set_flag_loop]; [by exists e|].
  destruct (Kernel.flag_wait id i k) as [[pattern mode]|] eqn:Ew.
  - apply flag_wait_Some in Ew as Hwait. rewrite He.
    pose proof (consume_spec e pattern mode) as Hc.
    destruct (consume_event_bits e pattern mode) as [[value e']|].
    + destruct Hc as (_ & _ & Hf & Hw' & _). set (k1 := Kernel.put_event_flag id e' k).
      assert (inv_but (serving id (i :: queued) retained (bits e')) k1) as Hk1.
      { apply (put_event_flag_inv _ _ k Hk) with (e := e); [|done|].
        - intros j r Hr. unfold serving in *. destruct r; try done.
          destruct Hr as [-> [Hr|[Hr Hs]]]; [by auto|]. split; [done|]. right. split; [done|].
          by apply (satisfied_fewer (bits e)).
        - rewrite Hw. by intros j ? ? _ []%elem_of_nil. }
      pose proof (complete_wait_spec _ k1 i _ 0 (Some value) Hk1 Hwait) as H.
      destruct (Kernel.complete_wait i 0 (Some value) k1) as [[u|x|] k2]; [|done..].
      destruct H as [Hk2 (Ho & _)].
      apply (IH _ _ e').
      * apply (inv_weaken _ _ _ Hk2). intros j r _ [Hr Hne]. right. unfold serving in *.
        destruct r; try done. destruct Hr as [-> [[->|Hr]%elem_of_cons|Hr]]; naive_solver.
      * assert (event_flags k2 = event_flags k1) as -> by (unfold objects in Ho; congruence).
        exact (put_same _ _ _ _ _ (ok_flags k (inv_objects _ _ Hk)) He).
      * congruence.
    + apply (IH _ _ e); [|done|done]. apply (inv_weaken _ _ _ Hk). intros j r Hr HE. right.
      unfold serving in *. destruct r as [| | | | | |o p m| | |]; try done.
      destruct HE as [-> [[->|Hq]%elem_of_cons|[Hq Hs]]]; split; try done.
      * right. pose proof (waiting_inj _ _ _ _ Hr Hwait) as [= -> ->].
        split; [|done]. apply elem_of_app. right. by left.
      * by left.
      * right. split; [|done]. apply elem_of_app. by left.
  - apply (IH _ _ e); [|done|done]. apply (inv_weaken _ _ _ Hk). intros j r Hr HE. right.
    unfold serving in *. destruct r as [| | | | | |o p m| | |]; try done.
    destruct HE as [-> [[->|Hq]%elem_of_cons|Hq]]; [|by auto|by auto].
    apply flag_wait_Some in Hr. congruence.
Qed.

Lemma set_event_flag_settles id b k : inv k -> settles none (Kernel.set_event_flag id b k).
Proof.
  intros Hk. unfold Kernel.set_event_flag.
  destruct (FixedTable.get (event_flags k) id) as [e|] eqn:He; [|by apply settles_err].
  set (e0 := e <| bits := _ |> <| e_waiters := [] |>). set (k0 := Kernel.put_event_flag id e0 k).
  assert (inv_but (serving id (e_waiters e) [] (bits e0)) k0) as Hk0.
  { apply (put_event_flag_inv none _ k Hk) with (e := e); [done|done|].
    intros i ? ? _ Hi _. right. unfold serving. auto. }
  pose proof (put_same _ _ _ e0 _ (ok_flags k (inv_objects _ _ Hk)) He) as He0.
  pose proof (set_flag_loop_spec (e_waiters e) id [] [] e0 k0 Hk0 He0 eq_refl) as H.
  destruct (Kernel.set_flag_loop (e_waiters e) id [] [] k0) as [[out|x|] k1]; [|by right|done].
  destruct H as (e1 & He1 & Hw1 & Hk1). rewrite He1. apply settles_ok.
  set (e2 := e1 <| e_waiters := out.1 |>).
  pose proof (put_event_flag_inv _ _ k1 Hk1 (fun _ _ H => H) id e1 e2 He1) as H2.
  eapply inv_weaken; [apply H2|].
  - rewrite Hw1. by intros ? ? ? _ []%elem_of_nil.
  - intros i r _ Hr. unfold serving in Hr. destruct r; try done.
    destruct Hr as [-> [[]%elem_of_nil|[Hi Hs]]]. left. exists e2. split; [|done].
    exact (put_same _ _ _ e2 _ (ok_flags k1 (inv_objects _ _ Hk1)) He1).
Qed.

(** ** Fixed pools *)

Lemma validate_range r a n alignment :
  GuestRange.validate r a n alignment = Ok tt -> n <> 0 /\ a + n < 2 ^ 32.
Proof.
  unfold GuestRange.validate. destruct (Z.eqb_spec n 0); [done|].
  destruct (_ || _); [done|]. destruct (GuestRange.contains r a n) eqn:E; [|done]. intros _.
  split; [done|]. unfold GuestRange.contains in E.
  destruct (try_from_u 32 n) as [m|] eqn:Em; [|done]. cbn [mbind option_bind] in E.
  apply try_from_u_Some in Em as [-> _].
  destruct (checked_add_u 32 a n) as [top|] eqn:Et; [|done].
  apply checked_add_u_Some in Et as [-> Ht]. done.
Qed.

Lemma validate_no_panic r a n alignment : GuestRange.validate r a n alignment <> Panic.
Proof. unfold GuestRange.validate. by repeat case_match. Qed.

Lemma validate_attributes_no_panic a : validate_attributes a <> Panic.
Proof. unfold validate_attributes. by case_match. Qed.

Lemma pool_blocks_ok base size index n :
  0 <= base -> 0 < size -> 0 <= index -> base + (index + Z.of_nat n) * size < 2 ^ 32 ->
  exists l, Kernel.pool_blocks base size index n = Ok l /\
    Forall (fun a => base + index * size <= a) l /\ NoDup l.
Proof.
  intros Hb Hs. revert index. induction n as [|n IH]; intros index Hi Hn; cbn [Kernel.pool_blocks].
  { exists []. repeat constructor. }
  assert (0 <= index * size) by (by apply Z.mul_nonneg_nonneg; [|lia]).
  assert (0 <= Z.of_nat n * size) by (apply Z.mul_nonneg_nonneg; lia).
  rewrite Nat2Z.inj_succ in Hn.
  assert (base + index * size + Z.of_nat n * size + size < 2 ^ 32) by lia. clear Hn.
  rewrite (proj2 (checked_mul_u_Some 32 index size _)) by (split; [done|lia]). cbn [expect obind].
  rewrite (proj2 (checked_add_u_Some 32 base (index * size) _)) by (split; [done|lia]).
  cbn [expect obind]. destruct (IH (index + 1)) as (l & -> & Hl & Hd); [lia|lia|].
  cbn [obind]. eexists. split; [done|]. split.
  - constructor; [done|]. eapply Forall_impl; [exact Hl|]. cbn. lia.
  - constructor; [|done]. intros Hin. rewrite Forall_forall in Hl. specialize (Hl _ Hin). lia.
Qed.

(** The fields of a guest's pool description are 32-bit words. *)
Definition fixed_spec_ok (s : FixedPoolSpec) : Prop :=
  in_u 32 (fs_base s) /\ in_u 32 (fs_block_size s) /\ in_u 32 (blocks s).

Lemma create_fixed_pool_settles s r k :
  fixed_spec_ok s -> inv k -> settles none (Kernel.create_fixed_pool s r k).
Proof.
  unfold fixed_spec_ok, in_u. intros (H1 & H2 & H3) Hk. unfold Kernel.create_fixed_pool.
  pose proof (validate_attributes_no_panic (fs_attributes s)) as Hp.
  destruct (validate_attributes (fs_attributes s)) as [u|e|]; cbn [obind];
    [|by apply settles_err|done].
  destruct (_ || _) eqn:Ez; [by apply settles_err|].
  apply orb_false_iff in Ez as [[Ez1%Z.eqb_neq Ez2%Z.eqb_neq]%orb_false_iff _].
  destruct (checked_mul_u 32 _ _) as [size|] eqn:Em; cbn [ok_or obind]; [|by apply settles_err].
  apply checked_mul_u_Some in Em as [-> Em].
  pose proof (validate_no_panic r (fs_base s) (fs_block_size s * blocks s) 4) as Hp'.
  destruct (GuestRange.validate r _ _ 4) as [[]|e|] eqn:Ev; cbn [obind map_err];
    [|by apply settles_err|done].
  apply validate_range in Ev as [_ Ev].
  destruct (pool_blocks_ok (fs_base s) (fs_block_size s) 0 (Z.to_nat (blocks s)))
    as (l & -> & _ & Hd); [lia..| |].
  { rewrite Z2Nat.id by lia. lia. }
  set (v := mkFixedPool _ _ _ _ _).
  assert (fixed_ok v) as Hv by (split; cbn; [done|set_solver]).
  pose proof (table_insert _ _ v (ok_fixed k (inv_objects _ _ Hk)) Hv) as H.
  destruct (FixedTable.insert v (fixed_pools k)) as [[i|e|] t]; [|destruct H as [_ ->]; left; by destruct k|done].
  destruct H as [Ht Hx]. apply settles_ok.
  apply (inv_weaken _ _ _ (set_fixed_pools_inv k Hk _ t Ht (extends_keeps _ _ _ _ Hx))).
  naive_solver.
Qed.

Lemma delete_fixed_pool_settles id k : inv k -> settles none (Kernel.delete_fixed_pool id k).
Proof.
  intros Hk. unfold Kernel.delete_fixed_pool.
  destruct (FixedTable.get (fixed_pools k) id) as [p|] eqn:Ep; [|by apply settles_err].
  destruct (negb _); [by apply settles_err|].
  pose proof (ok_fixed k (inv_objects _ _ Hk)) as Ht.
  pose proof (set_fixed_pools_inv k Hk _ _ (table_remove _ _ id Ht) (remove_keeps _ id (proj1 Ht))) as H.
  pose proof (TableFacts.remove_value (fixed_pools k) id) as Hv.
  destruct (FixedTable.remove id (fixed_pools k)) as [[s|] t]; cbn [fst snd] in *; [|congruence].
  apply release_deleted_spec, (inv_weaken _ _ _ H).
  intros i r _ (o & u & Hu & Hi & ->). right. congruence.
Qed.

Lemma allocate_fixed_settles id timeout k c :
  inv k ->
  settles_bios (Kernel.allocate_fixed id timeout k c) (Kernel.allocate_fixed id timeout k c).2.1.
Proof.
  intros Hk. unfold Kernel.allocate_fixed.
  destruct (current_thread k) as [i|] eqn:Ec; [|done].
  destruct (FixedTable.get (fixed_pools k) id) as [p|] eqn:Hp; [|done].
  pose proof (ok_fixed k (inv_objects _ _ Hk)) as Ht.
  pose proof (table_get _ _ _ _ Ht Hp) as [Hnd Hok].
  destruct (f_free p) as [|a rest] eqn:Ef.
  - apply wait_tail; [|done|done|].
    + apply (put_fixed_pool_inv none none k Hk ltac:(done) id p); [done|by split; cbn; rewrite Ef|].
      intros j _ Hj Hf. left. split; [|done]. cbn. apply elem_of_insert_waiter. by right.
    + intros j Hj. assert (j = i) as -> by (change (current_thread k = Some j) in Hj; congruence).
      eexists. split; [exact (put_same _ _ _ _ _ Ht Hp)|].
      split; [|done]. cbn. apply elem_of_insert_waiter. by left.
  - apply (put_fixed_pool_inv none none k Hk ltac:(done) id p); [done| |].
    + apply NoDup_cons in Hnd as [Ha Hnd]. split; cbn; [done|]. intros x Hx.
      apply not_elem_of_union. split; [|apply Hok; by right]. intros ->%elem_of_singleton. done.
    + rewrite Ef. done.
Qed.

Lemma free_fixed_loop_settles fuel id a p k :
  inv k -> FixedTable.get (fixed_pools k) id = Some p -> (length (f_waiters p) < fuel)%nat ->
  a ∉ f_free p -> a ∉ f_allocated p -> settles none (Kernel.free_fixed_loop fuel id a k).
Proof.
  revert p k. induction fuel as [|fuel IH]; intros p k Hk Hp Hf Ha Hb; [lia|].
  cbn [Kernel.free_fixed_loop]. rewrite Hp. pose proof (ok_fixed k (inv_objects _ _ Hk)) as Ht.
  pose proof (table_get _ _ _ _ Ht Hp) as [Hnd Hok]. destruct (f_waiters p) as [|i rest] eqn:Ew.
  - apply settles_ok. apply (put_fixed_pool_inv none none k Hk ltac:(done) id p); [done| |].
    + split; cbn.
      * apply NoDup_app. split_and!; [done| |apply NoDup_singleton].
        by intros x Hx ->%list_elem_of_singleton.
      * intros x [Hx| ->%list_elem_of_singleton]%elem_of_app; auto.
    + rewrite Ew. by intros j _ []%elem_of_nil.
  - set (p1 := p <| f_waiters := rest |>). set (k1 := Kernel.put_fixed_pool id p1 k).
    assert (inv_but (fun j r => j = i /\ r = FixedPool_wait id) k1) as Hk1.
    { eapply (put_fixed_pool_inv none _ k Hk); [done|exact Hp|done|].
      rewrite Ew. intros j _ [->|Hj]%elem_of_cons Hc; [by right|by left]. }
    pose proof (put_same _ _ _ p1 _ Ht Hp) as Hp1.
    destruct (Kernel.wait_matches i (FixedPool_wait id) k1) eqn:Em.
    + apply wait_matches_true in Em.
      set (p2 := p1 <| f_allocated := _ |>).
      assert (inv_but (fun j r => j = i /\ r = FixedPool_wait id) (Kernel.put_fixed_pool id p2 k1))
        as Hk2.
      { eapply (put_fixed_pool_inv _ _ k1 Hk1); [done|exact Hp1| |].
        - split; cbn; [done|]. intros x Hx. apply not_elem_of_union.
          split; [|by apply Hok]. by intros ->%elem_of_singleton.
        - intros j _ Hj Hc. by left. }
      apply (serve_popped _ _ i (FixedPool_wait id) (Some a) (Some i) Hk2);
        [by intros ? ? []|done].
    + assert (inv k1) as Hk1'.
      { apply (drop_stale _ _ i (FixedPool_wait id) Hk1); [done|].
        rewrite <- wait_matches_true. congruence. }
      apply (IH p1); [done|done|cbn in *; lia|done|done].
Qed.

Lemma free_fixed_settles id a k : inv k -> settles none (Kernel.free_fixed id a k).
Proof.
  intros Hk. unfold Kernel.free_fixed.
  destruct (FixedTable.get (fixed_pools k) id) as [p|] eqn:Hp; [|by apply settles_err].
  destruct (negb _) eqn:Ea; [by apply settles_err|].
  apply negb_false_iff, bool_decide_eq_true in Ea.
  pose proof (ok_fixed k (inv_objects _ _ Hk)) as Ht.
  pose proof (table_get _ _ _ _ Ht Hp) as [Hnd Hok].
  set (p1 := p <| f_allocated := _ |>).
  apply (free_fixed_loop_settles _ _ _ p1).
  - apply (put_fixed_pool_inv none none k Hk ltac:(done) id p); [done| |].
    + split; cbn; [done|]. set_solver.
    + intros j _ Hj Hf. by left.
  - exact (put_same _ _ _ p1 _ Ht Hp).
  - cbn. lia.
  - intros Hin. by apply (Hok a).
  - cbn. set_solver.
Qed.

(** ** Variable pools *)

Definition variable_spec_ok (s : VariablePoolSpec) : Prop := 0 <= vs_base s /\ 0 <= vs_size s.

Lemma create_variable_pool_settles s r k :
  variable_spec_ok s -> inv k -> settles none (Kernel.create_variable_pool s r k).
Proof.
  unfold variable_spec_ok. intros [H1 H2] Hk. unfold Kernel.create_variable_pool.
  pose proof (validate_attributes_no_panic (vs_attributes s)) as Hp.
  destruct (validate_attributes (vs_attributes s)) as [u|e|]; cbn [obind];
    [|by apply settles_err|done].
  destruct (_ || _) eqn:Ez; [by apply settles_err|].
  apply orb_false_iff in Ez as [Ez%Z.eqb_neq _].
  pose proof (validate_no_panic r (vs_base s) (vs_size s) 4) as Hp'.
  destruct (GuestRange.validate r _ _ 4) as [[]|e|] eqn:Ev; cbn [map_err];
    [|by apply settles_err|done].
  apply validate_range in Ev as [_ Ev].
  set (v := mkVariablePool _ _ _ _).
  assert (variable_ok v) as Hv.
  { unfold variable_ok, block_regions. cbn. rewrite map_to_list_empty. cbn.
    apply disjoint_cons. split_and!; [split; unfold region_end; cbn; lia|constructor|].
    split; constructor. }
  pose proof (table_insert _ _ v (ok_variable k (inv_objects _ _ Hk)) Hv) as H.
  destruct (FixedTable.insert v (variable_pools k)) as [[i|e|] t]; [|destruct H as [_ ->]; left; by destruct k|done].
  destruct H as [Ht Hx]. apply settles_ok.
  apply (inv_weaken _ _ _ (set_variable_pools_inv k Hk _ t Ht (extends_keeps _ _ _ _ Hx))).
  naive_solver.
Qed.

Lemma delete_variable_pool_settles id k : inv k -> settles none (Kernel.delete_variable_pool id k).
Proof.
  intros Hk. unfold Kernel.delete_variable_pool.
  destruct (FixedTable.get (variable_pools k) id) as [p|] eqn:Ep; [|by apply settles_err].
  destruct (negb _); [by apply settles_err|].
  pose proof (ok_variable k (inv_objects _ _ Hk)) as Ht.
  pose proof (set_variable_pools_inv k Hk _ _ (table_remove _ _ id Ht) (remove_keeps _ id (proj1 Ht)))
    as H.
  pose proof (TableFacts.remove_value (variable_pools k) id) as Hv.
  destruct (FixedTable.remove id (variable_pools k)) as [[s|] t]; cbn [fst snd] in *; [|congruence].
  apply release_deleted_spec, (inv_weaken _ _ _ H).
  intros i r _ (o & u & Hu & Hi & ->). right. congruence.
Qed.

Lemma align_pool_size_ok n m : 0 <= n -> align_pool_size n = Ok m -> 0 < m.
Proof.
  intros Hn. unfold align_pool_size. destruct (Z.eqb_spec n 0); [done|].
  destruct (checked_add_u 32 n 3) as [v|] eqn:E; [|done]. apply checked_add_u_Some in E as [-> E].
  intros [= <-].
  change (bnot 32 3) with (Z.shiftl (Z.ones 30) 2).
  assert (n + 3 = Z.shiftl ((n + 3) / 4) 2 + (n + 3) mod 4) as Heq.
  { rewrite Z.shiftl_mul_pow2 by lia. pose proof (Z.div_mod (n + 3) 4). lia. }
  assert (0 < (n + 3) / 4) by (apply Z.div_str_pos; lia).
  destruct (Z.le_gt_cases ((n + 3) .& Z.shiftl (Z.ones 30) 2) 0) as [Hle|]; [exfalso|lia].
  assert (0 <= (n + 3) .& Z.shiftl (Z.ones 30) 2) by (apply Z.land_nonneg; lia).
  assert (Z.shiftr ((n + 3) .& Z.shiftl (Z.ones 30) 2) 2 = 0) as Hz.
  { replace ((n + 3) .& Z.shiftl (Z.ones 30) 2) with 0 by lia. done. }
  rewrite Z.shiftr_land, Z.shiftr_shiftl_l in Hz by lia. cbn [Z.sub] in Hz.
  change (Z.shiftl (Z.ones 30) (2 - 2)) with (Z.ones 30) in Hz.
  rewrite Z.land_ones, Z.shiftr_div_pow2 in Hz by lia.
  change (2 ^ 2) with 4 in Hz. rewrite Z.mod_small in Hz; [lia|].
  split; [lia|]. apply Z.div_lt_upper_bound; lia.
Qed.

Lemma align_pool_size_no_panic n : align_pool_size n <> Panic.
Proof. unfold align_pool_size. by repeat case_match. Qed.

Lemma allocate_variable_settles id size timeout k c :
  0 <= size -> inv k ->
  settles_bios (Kernel.allocate_variable id size timeout k c)
    (Kernel.allocate_variable id size timeout k c).2.1.
Proof.
  intros Hs Hk. unfold Kernel.allocate_variable.
  pose proof (align_pool_size_no_panic size) as Hp.
  destruct (align_pool_size size) as [n|x|] eqn:En; [|done|done].
  apply align_pool_size_ok in En; [|done].
  destruct (current_thread k) as [i|] eqn:Ec; [|done].
  destruct (FixedTable.get (variable_pools k) id) as [p|] eqn:Ep; [|done].
  pose proof (ok_variable k (inv_objects _ _ Hk)) as Ht.
  pose proof (table_get _ _ _ _ Ht Ep) as Hok.
  destruct (allocate_region p n) as [[a p']|] eqn:Ea.
  - apply allocate_region_Some in Ea as (Hok' & _ & _ & Hw & _ & Hl); [|done|done].
    apply (put_variable_pool_inv none none k Hk ltac:(done) id p); [done|done|].
    intros j m _ Hj Hm. left. rewrite Hw. auto.
  - apply allocate_region_None in Ea; [|done].
    apply wait_tail; [|done|done|].
    + apply (put_variable_pool_inv none none k Hk ltac:(done) id p); [done|done|].
      intros j m _ Hj Hm. left. split; [|done]. cbn. apply elem_of_insert_waiter. by right.
    + intros j Hj. assert (j = i) as -> by (change (current_thread k = Some j) in Hj; congruence).
      eexists. split; [exact (put_same _ _ _ _ _ Ht Ep)|].
      split; [|done]. cbn. apply elem_of_insert_waiter. by left.
Qed.

Lemma pool_wait_Some id i k n :
  Kernel.pool_wait id i k = Some n <-> waiting k i (VariablePool_wait id n).
Proof.
  unfold Kernel.pool_wait, waiting. destruct (Kernel.thread i k) as [t|]; cbn; [|naive_solver].
  destruct (state t) as [| | |[| | | | | | | | |o m]] eqn:Es;
    try (split; [done|by intros (u & [= <-] & Hu); congruence]).
  destruct (Z.eqb_spec o id) as [->|Hne].
  - split; [intros [= ->]; by exists t|]. intros (u & [= <-] & Hu). congruence.
  - split; [done|]. intros (u & [= <-] & Hu). congruence.
Qed.

Definition pool_serving (id : Z) (queued retained : list Z) (p : VariablePool) (i : Z)
    (r : WaitReason) : Prop :=
  match r with
  | VariablePool_wait o n => o = id /\ (i ∈ queued \/ i ∈ retained /\ too_large p n)
  | _ => False
  end.

Lemma serve_pool_loop_spec queued id retained ready p k :
  inv_but (pool_serving id queued retained p) k ->
  FixedTable.get (variable_pools k) id = Some p -> v_waiters p = [] ->
  match Kernel.serve_pool_loop queued id retained ready k with
  | (Ok out, k') => exists p', FixedTable.get (variable_pools k') id = Some p' /\
      v_waiters p' = [] /\ inv_but (pool_serving id [] out.1 p') k'
  | (Err x, k') => ran_out x k'
  | (Panic, _) => False
  end.
Proof.
  revert retained ready p k.
  induction queued as [|i queued IH]; intros retained ready p k Hk Hp Hw;
    cbn [Kernel.serve_pool_loop]; [by exists p|].
  pose proof (ok_variable k (inv_objects _ _ Hk)) as Ht.
  pose proof (table_get _ _ _ _ Ht Hp) as Hok.
  destruct (Kernel.pool_wait id i k) as [n|] eqn:Ew.
  - apply pool_wait_Some in Ew as Hwait. rewrite Hp.
    assert (0 < n) as Hn.
    { destruct Hwait as (t & Hi & Hr).
      by apply (ok_request _ _ (ok_thread k (inv_threads _ _ Hk) i t Hi) id). }
    destruct (allocate_region p n) as [[a p']|] eqn:Ea.
    + apply allocate_region_Some in Ea as (Hok' & _ & _ & Hw' & _ & Hl); [|done|done].
      set (k1 := Kernel.put_variable_pool id p' k).
      assert (inv_but (pool_serving id (i :: queued) retained p') k1) as Hk1.
      { apply (put_variable_pool_inv _ _ k Hk) with (p := p); [|done|done|].
        - intros j r Hr. unfold pool_serving in *. destruct r; try done. naive_solver.
        - rewrite Hw. by intros j ? _ []%elem_of_nil. }
      pose proof (complete_wait_spec _ k1 i _ 0 (Some a) Hk1 Hwait) as H.
      destruct (Kernel.complete_wait i 0 (Some a) k1) as [[u|x|] k2]; [|done..].
      destruct H as [Hk2 (Ho & _)]. apply (IH _ _ p').
      * apply (inv_weaken _ _ _ Hk2). intros j r _ [Hr Hne]. right. unfold pool_serving in *.
        destruct r; try done. destruct Hr as [-> [[->|Hr]%elem_of_cons|Hr]]; naive_solver.
      * assert (variable_pools k2 = variable_pools k1) as -> by (unfold objects in Ho; congruence).
        exact (put_same _ _ _ _ _ Ht Hp).
      * congruence.
    + apply allocate_region_None in Ea; [|done]. apply (IH _ _ p); [|done|done].
      apply (inv_weaken _ _ _ Hk). intros j r Hr HE. right. unfold pool_serving in *.
      destruct r as [| | | | | | | | |o m]; try done.
      destruct HE as [-> [[->|Hq]%elem_of_cons|[Hq Hs]]]; split; try done.
      * right. pose proof (waiting_inj _ _ _ _ Hr Hwait) as [= ->].
        split; [|done]. apply elem_of_app. right. by left.
      * by left.
      * right. split; [|done]. apply elem_of_app. by left.
  - apply (IH _ _ p); [|done|done]. apply (inv_weaken _ _ _ Hk). intros j r Hr HE. right.
    unfold pool_serving in *. destruct r as [| | | | | | | | |o m]; try done.
    destruct HE as [-> [[->|Hq]%elem_of_cons|Hq]]; [|by auto|by auto].
    apply pool_wait_Some in Hr. congruence.
Qed.

Lemma free_variable_settles id a k : inv k -> settles none (Kernel.free_variable id a k).
Proof.
  intros Hk. unfold Kernel.free_variable.
  destruct (FixedTable.get (variable_pools k) id) as [p|] eqn:Hp; [|by apply settles_err].
  destruct (v_allocated p !! a) as [size|] eqn:Ea; [|by apply settles_err].
  pose proof (ok_variable k (inv_objects _ _ Hk)) as Ht.
  pose proof (table_get _ _ _ _ Ht Hp) as Hok.
  assert (disjoint_regions ((v_free p ++ [mkFreeRegion a size]) ++
    block_regions (delete a (v_allocated p)))) as Hd.
  { rewrite <- (assoc_L (++)). cbn. by rewrite <- block_regions_delete. }
  destruct (coalesce_ok _ _ Hd) as (free & -> & Hfree).
  set (p0 := p <| v_allocated := _ |> <| v_free := _ |> <| v_waiters := _ |>).
  set (k0 := Kernel.put_variable_pool id p0 k).
  assert (inv_but (pool_serving id (v_waiters p) [] p0) k0) as Hk0.
  { apply (put_variable_pool_inv none _ k Hk) with (p := p); [done|done|done|].
    intros i ? _ Hi _. right. unfold pool_serving. auto. }
  pose proof (put_same _ _ _ p0 _ Ht Hp) as Hp0.
  pose proof (serve_pool_loop_spec (v_waiters p) id [] [] p0 k0 Hk0 Hp0 eq_refl) as H.
  destruct (Kernel.serve_pool_loop (v_waiters p) id [] [] k0) as [[out|x|] k1]; [|by right|done].
  destruct H as (p1 & Hp1 & Hw1 & Hk1). rewrite Hp1. apply settles_ok.
  set (p2 := p1 <| v_waiters := out.1 |>).
  pose proof (ok_variable k1 (inv_objects _ _ Hk1)) as Ht1.
  pose proof (put_variable_pool_inv _ _ k1 Hk1 (fun _ _ H => H) id p1 p2 Hp1
    (table_get _ _ _ _ Ht1 Hp1)) as H2.
  eapply inv_weaken; [apply H2|].
  - rewrite Hw1. by intros ? ? _ []%elem_of_nil.
  - intros i r _ Hr. unfold pool_serving in Hr. destruct r; try done.
    destruct Hr as [-> [[]%elem_of_nil|[Hi Hs]]]. left. exists p2. split; [|done].
    exact (put_same _ _ _ p2 _ Ht1 Hp1).
Qed.
