(* ===== verification/IopKernelSpec.v ===== *)
(** * The IOP kernel as a whole

    [call] lists every operation of the kernel and [exec] runs one; [reachable] are the
    states any sequence of calls leads to.  The invariant of [IopKernelInv] holds in all
    of them, no call panics, and every scheduling decision takes the first thread of the
    best priority. *)

From S2P Require Import Prelude Records MachineInt Clock Scheduler IopBase IopDispatch.
From S2P Require Import IopKernel IopKernelInv IopKernelFacts.
From S2P Require Import IopKernelQueues.

(** ** Time

    A due deadline releases the thread that waits for it and takes it out of the queue of
    its object; a due alarm is removed and reported.  The loop over due events ends
    because every iteration removes one event and none adds one. *)

(** ** Leaving a queue *)

Lemma elem_of_forget i l j : j ∈ forget i l <-> j <> i /\ j ∈ l.
Proof. unfold forget. by rewrite list_elem_of_filter. Qed.

Lemma remove_waiter_frame i r k :
  (forall j s, waiting (Kernel.remove_waiter i r k) j s <-> waiting k j s) /\
  scheduler (Kernel.remove_waiter i r k) = scheduler k.
Proof. destruct r; cbn [Kernel.remove_waiter]; try done; by case_match. Qed.

Lemma remove_waiter_spec E i r k :
  inv_but E k -> inv_but (fun j s => E j s \/ j = i) (Kernel.remove_waiter i r k).
Proof.
  intros Hk. assert (inv_but (fun j s => E j s \/ j = i) k) as Hk'
    by (apply (inv_weaken _ _ _ Hk); auto).
  assert (forall l (P : Prop) j (s : WaitReason), j ∈ l -> P ->
    (j ∈ forget i l /\ P) \/ (E j s \/ j = i)) as Hl.
  { intros l P j s Hj HP. destruct (decide (j = i)); [by right; right|left].
    split; [|done]. by apply elem_of_forget. }
  destruct Hk as [Ho _ _].
  destruct r as [| | | | |o|o p m|o|o|o n]; cbn [Kernel.remove_waiter]; try done; case_match eqn:Eo;
    try done.
  - apply (put_semaphore_inv _ _ k Hk' (fun _ _ H => H) _ _ _ Eo); [|by intros; apply Hl].
    exact (table_get _ _ _ _ (ok_semaphores k Ho) Eo).
  - apply (put_event_flag_inv _ _ k Hk' (fun _ _ H => H) _ _ _ Eo); by intros; apply Hl.
  - apply (put_message_box_inv _ _ k Hk' (fun _ _ H => H) _ _ _ Eo); by intros; apply Hl.
  - apply (put_fixed_pool_inv _ _ k Hk' (fun _ _ H => H) _ _ _ Eo); [|by intros; apply Hl].
    exact (table_get _ _ _ _ (ok_fixed k Ho) Eo).
  - apply (put_variable_pool_inv _ _ k Hk' (fun _ _ H => H) _ _ _ Eo); [|by intros; apply Hl].
    exact (table_get _ _ _ _ (ok_variable k Ho) Eo).
Qed.

Lemma release_wait_settles i k : inv k -> settles none (Kernel.release_wait i k).
Proof.
  intros Hk. unfold Kernel.release_wait.
  destruct (Kernel.thread i k) as [t|] eqn:Hi; [|by apply settles_err].
  destruct (state t) as [| | |r] eqn:Hr; try by apply settles_err.
  apply (complete_settles _ _ r).
  - apply (inv_weaken _ _ _ (remove_waiter_spec _ i r k Hk)). intros j s _ [[]|Hj]. by right.
  - apply remove_waiter_frame. by exists t.
Qed.

(** ** Due events *)

Lemma pop_due_spec s now :
  match Scheduler.pop_due s now with
  | (Some due, q) => (length (queue q) < length (queue s))%nat /\
      forall id, eq_deadline q id = if decide (ev_id due = id) then None else eq_deadline s id
  | (None, q) => q = s
  end.
Proof.
  unfold Scheduler.pop_due, BTree.first. destruct (queue s) as [|[[d n] id] l]; [done|].
  cbn [head]. destruct (now <? d); [done|]. split.
  - cbn [queue]. unfold BTree.remove. rewrite filter_cons, decide_False by naive_solver.
    pose proof (length_filter (fun y : Z * Z * Z => y <> (d, n, id)) l). cbn. lia.
  - intros id'. cbn. case_decide as Hd; [subst; by rewrite lookup_delete_eq|].
    by rewrite lookup_delete_ne.
Qed.

Lemma expire_wait_spec i k :
  inv_but (fun j r => j = i /\ r = Delay) k ->
  match Kernel.expire_wait i k with
  | (Ok _, k') => inv k' /\ (length (queue (scheduler k')) <= length (queue (scheduler k)))%nat
  | (Err e, k') => ran_out e k'
  | (Panic, _) => False
  end.
Proof.
  intros Hk. unfold Kernel.expire_wait.
  destruct (Kernel.thread i k) as [t|] eqn:Hi; cbn [mbind option_bind].
  2: { split; [|done]. apply (inv_weaken _ _ _ Hk). intros j r (t & Hj & _) [-> _]. congruence. }
  destruct (state t) as [| | |r] eqn:Hr.
  4: { pose proof (remove_waiter_frame i r k) as [Hw Hs].
       set (k1 := Kernel.remove_waiter i r k) in *.
       pose proof (remove_waiter_spec _ i r k Hk) as Hk1. fold k1 in Hk1.
       assert (waiting k1 i r) as Hwait by (apply Hw; by exists t).
       pose proof (complete_wait_spec _ k1 i r (if bool_decide (r = Delay) then 0 else code ReleaseWait)
         None Hk1 Hwait) as H.
       destruct (Kernel.complete_wait i _ None k1) as [[u|e|] k2]; [|done..].
       destruct H as [H2 (_ & _ & _ & _ & _ & Hq)]. split; [|by rewrite <- Hs].
       apply (inv_weaken _ _ _ H2). intros j s _ [[[-> _]| ->] Hne]; done. }
  all: split; [|done]; apply (inv_weaken _ _ _ Hk); intros j s (u & Hj & Hu) [-> _]; congruence.
Qed.

Lemma fire_alarm_spec i k :
  inv k -> inv (Kernel.fire_alarm i k).2 /\ scheduler (Kernel.fire_alarm i k).2 = scheduler k.
Proof.
  intros Hk. unfold Kernel.fire_alarm. destruct (ok_alarms k (inv_objects _ _ Hk)) as [Ht Hf].
  pose proof (set_alarms_inv k Hk _ (table_remove _ _ i Ht)) as H.
  rewrite TableFacts.remove_first in H. destruct (FixedTable.remove i (alarms k)) as [o t].
  by split; [apply H|].
Qed.

(** Only a thread's own wait event can end its delay. *)
Lemma delay_event_range k i r : inv k -> waiting k i r -> WAIT_EVENT_BASE <= wait_event i < ALARM_EVENT_BASE.
Proof.
  intros Hk (t & Hi & _). pose proof (thread_range k (inv_threads _ _ Hk) i t Hi).
  unfold wait_event, WAIT_EVENT_BASE, ALARM_EVENT_BASE. lia.
Qed.

Lemma advance_loop_settles fuel events k :
  inv k -> (length (queue (scheduler k)) < fuel)%nat ->
  settles none (Kernel.advance_loop fuel events k).
Proof.
  revert events k. induction fuel as [|fuel IH]; intros events k Hk Hf; [lia|].
  cbn [Kernel.advance_loop]. pose proof (pop_due_spec (scheduler k) (now k)) as Hp.
  destruct (Scheduler.pop_due (scheduler k) (now k)) as [[due|] q].
  2: { apply settles_ok, set_scheduler_inv; [done|]. intros i _ Hi. left. by subst. }
  destruct Hp as [Hq Hd]. set (k1 := k <| scheduler := q |>).
  assert (inv_but (fun j r => wait_event j = ev_id due /\ r = Delay) k1) as Hk1.
  { apply set_scheduler_inv; [by apply inv_exempt|]. intros j _ Hj. rewrite Hd.
    case_decide; [by right|by left]. }
  assert (length (queue (scheduler k1)) < fuel)%nat as Hf1 by (cbn; lia).
  assert (~ (WAIT_EVENT_BASE <= ev_id due < ALARM_EVENT_BASE) -> inv k1) as Hother.
  { intros Hr. apply (inv_weaken _ _ _ Hk1). intros j r Hj [He _].
    pose proof (delay_event_range k j r Hk Hj). lia. }
  destruct ((WAIT_EVENT_BASE <=? ev_id due) && (ev_id due <? ALARM_EVENT_BASE)) eqn:Er.
  - assert (inv_but (fun j r => j = ev_id due - WAIT_EVENT_BASE /\ r = Delay) k1) as Hk1'.
    { apply (inv_weaken _ _ _ Hk1). intros j r _ [He ->]. right.
      unfold wait_event in He. split; [lia|done]. }
    pose proof (expire_wait_spec _ k1 Hk1') as H.
    destruct (Kernel.expire_wait _ k1) as [[new|e|] k2]; [|by right|done].
    destruct H as [Hk2 Hl]. apply IH; [done|lia].
  - apply andb_false_iff in Er. rewrite Z.leb_gt, Z.ltb_ge in Er.
    assert (inv k1) as Hk1' by (apply Hother; lia).
    destruct (ALARM_EVENT_BASE <=? ev_id due); [|by apply IH].
    pose proof (fire_alarm_spec (ev_id due - ALARM_EVENT_BASE) k1 Hk1') as [Hk2 Hs].
    destruct (Kernel.fire_alarm _ k1) as [new k2]. apply IH; [done|]. cbn in Hs. by rewrite Hs.
Qed.

Lemma set_now_inv k n : inv k -> inv (k <| now := n |>).
Proof.
  intros [Ho Ht Hw]. split; [by destruct Ho; split|by destruct Ht; split|].
  intros i r Hr. destruct (Hw i r Hr) as [Ha|[]]. by left.
Qed.

Lemma advance_to_settles n k : inv k -> settles none (Kernel.advance_to n k).
Proof.
  intros Hk. unfold Kernel.advance_to. destruct (n <? now k); [by apply settles_err|].
  apply advance_loop_settles; [by apply set_now_inv|]. cbn. lia.
Qed.

(** ** Alarms *)

Lemma insert_at_next {T N} (t : FixedTable T N) i v :
  TableFacts.wf t -> FixedTable.next_id t = Some i ->
  exists t', FixedTable.insert_at i v t = (Ok tt, t') /\ FixedTable.insert v t = (Ok i, t').
Proof.
  intros Ht Hi. destruct (TableFacts.insert_next v t i Ht Hi) as [t' H]. exists t'.
  split; [|done]. unfold FixedTable.insert in H. rewrite Hi in H.
  destruct (FixedTable.insert_at i v t) as [[[]|e|] u]; congruence.
Qed.

Lemma validate_entry_no_panic r e : validate_entry r e <> Panic.
Proof. unfold validate_entry, GuestRange.validate. by repeat case_match. Qed.

Lemma set_alarm_settles delay e a r k :
  inv k -> settles_bios (Kernel.set_alarm delay e a r k) (Kernel.set_alarm delay e a r k).2.
Proof.
  intros Hk. unfold Kernel.set_alarm. destruct (ok_alarms k (inv_objects _ _ Hk)) as [Ht Hf].
  pose proof (validate_entry_no_panic r e) as Hp.
  destruct (validate_entry r e) as [u|x|]; cbn [map_err obind]; [|done|done].
  unfold Deadline.checked_advance.
  destruct (checked_add_u 64 (now k) delay) as [d|]; cbn [ok_or map_err obind]; [|done].
  destruct (FixedTable.next_id (alarms k)) as [i|] eqn:Ei; cbn [ok_or obind]; [|done].
  pose proof (eq_schedule_no_panic (scheduler k) (alarm_event i) d) as Hn.
  change (eq_schedule (scheduler k)) with (Scheduler.schedule (scheduler k)) in Hn.
  destruct (Scheduler.schedule (scheduler k) (alarm_event i) d) as [[[]|x|] q] eqn:Eq; [| |done].
  2: { left. apply set_scheduler_inv; [done|]. intros j _ Ha. left.
       by rewrite (schedule_err _ _ _ _ _ Eq). }
  pose proof (schedule_deadline _ _ _ _ Eq) as Hd.
  destruct (insert_at_next (alarms k) i (mkAlarm e a) (proj1 Ht) Ei) as (t & Hat & Hins).
  change (alarms (k <| scheduler := q |>)) with (alarms k). rewrite Hat.
  pose proof (table_insert _ _ (mkAlarm e a) Ht I) as H. rewrite Hins in H.
  destruct H as [Ht' (_ & Hf' & Hi & _)]. hnf.
  apply (set_alarms_inv (k <| scheduler := q |>)); [|done|congruence].
  apply set_scheduler_inv; [done|]. intros j Hj Ha. left. rewrite Hd.
  case_decide as He; [|done]. pose proof (delay_event_range k j _ Hk Hj) as Hr.
  rewrite <- He in Hr. unfold alarm_event in Hr. lia.
Qed.

Lemma cancel_alarm_settles i k : inv k -> settles none (Kernel.cancel_alarm i k).
Proof.
  intros Hk. unfold Kernel.cancel_alarm. destruct (ok_alarms k (inv_objects _ _ Hk)) as [Ht Hf].
  pose proof (set_alarms_inv k Hk _ (table_remove _ _ i Ht)) as H.
  rewrite TableFacts.remove_first in H. specialize (H Hf).
  pose proof (TableFacts.remove_value (alarms k) i) as Hv.
  destruct (FixedTable.remove i (alarms k)) as [[a|] t]; cbn [fst snd] in *; [|by apply settles_err].
  assert (1 <= i) as Hi.
  { symmetry in Hv. apply TableFacts.get_range in Hv. lia. }
  apply settles_ok, set_scheduler_inv; [done|]. intros j Hj Ha. left.
  change (Scheduler.cancel ?s ?x) with (eq_cancel s x). rewrite eq_cancel_deadline.
  case_decide as He; [|done]. pose proof (delay_event_range _ j _ H Hj) as Hr.
  rewrite <- He in Hr. unfold alarm_event in Hr. lia.
Qed.

(** ** Callbacks *)

Lemma set_callbacks_inv k l :
  inv k -> (length l <= CALLBACK_DEPTH)%nat -> inv (k <| callback_contexts := l |>).
Proof.
  intros [Ho Ht Hw] Hl. split; [by destruct Ho; split|by destruct Ht; split|].
  intros i r Hr. destruct (Hw i r Hr) as [Ha|[]]. by left.
Qed.

Lemma enter_callback_settles r k c : inv k -> settles_action (Kernel.enter_callback r k c).
Proof.
  intros Hk. unfold Kernel.enter_callback. case_bool_decide as Hl; [by apply settles_err|].
  apply settles_ok, set_callbacks_inv; [done|].
  pose proof (ok_callbacks k (inv_objects _ _ Hk)). rewrite length_app. cbn. lia.
Qed.

Lemma return_from_callback_settles k c : inv k -> settles_action (Kernel.return_from_callback k c).
Proof.
  intros Hk. unfold Kernel.return_from_callback.
  destruct (last (callback_contexts k)) as [saved|] eqn:El; [|by apply settles_err].
  apply settles_ok, set_callbacks_inv; [done|].
  pose proof (ok_callbacks k (inv_objects _ _ Hk)) as H.
  apply last_Some in El as [l El]. rewrite El in *. rewrite removelast_last.
  rewrite length_app in H. cbn in H. lia.
Qed.

Inductive call :=
| CreateThread (s : ThreadSpec) (r : GuestRange)
| StartThread (id : Z) (arguments : list Z) (return_address : Z)
| WaitModuleStart (child : Z)
| CompleteModuleStart (requester child module_id resident : Z)
| DeleteThread (id : Z)
| ExitCurrent
| ExitDeleteCurrent
| ChangePriority (id priority : Z)
| Reschedule (reason : RescheduleReason)
| SleepCurrent
| WakeupThread (id : Z)
| DelayCurrent (ticks : Z)
| WaitVblank (phase : Z)
| NotifyVblank (phase : Z)
| ReleaseThread (id : Z)
| CreateSemaphore (s : SemaphoreSpec)
| DeleteSemaphore (id : Z)
| WaitSemaphore (id : Z) (timeout : option Z)
| PollSemaphore (id : Z)
| SignalSemaphore (id : Z)
| CreateEventFlag (s : EventFlagSpec)
| DeleteEventFlag (id : Z)
| WaitEventFlag (id pattern mode : Z) (timeout : option Z)
| PollEventFlag (id pattern mode : Z)
| SetEventFlag (id b : Z)
| ClearEventFlag (id mask : Z)
| CreateMessageBox (s : MessageBoxSpec)
| DeleteMessageBox (id : Z)
| SendMessage (id message : Z)
| ReceiveMessage (id : Z) (timeout : option Z)
| PollMessage (id : Z)
| CreateFixedPool (s : FixedPoolSpec) (r : GuestRange)
| DeleteFixedPool (id : Z)
| AllocateFixed (id : Z) (timeout : option Z)
| FreeFixed (id address : Z)
| CreateVariablePool (s : VariablePoolSpec) (r : GuestRange)
| DeleteVariablePool (id : Z)
| AllocateVariable (id size : Z) (timeout : option Z)
| FreeVariable (id address : Z)
| SetAlarm (delay entry_ argument : Z) (r : GuestRange)
| CancelAlarm (id : Z)
| AdvanceTo (now_ : Z)
| EnterCallback (callback : CallbackRequest)
| ReturnFromCallback
| Reset.

Notation step_result := (outcome BiosError unit * (Kernel * CpuContext))%type.

(** Operations on the kernel alone leave the context; values are dropped. *)
Definition plain {A} (c : CpuContext) (r : outcome KernelError A * Kernel) : step_result :=
  (omapok (fun _ => tt) (map_err Kernel_error r.1), (r.2, c)).
Definition acting {A} (r : outcome KernelError A * (Kernel * CpuContext)) : step_result :=
  (omapok (fun _ => tt) (map_err Kernel_error r.1), r.2).
Definition waiting_call {A} (r : outcome BiosError A * (Kernel * CpuContext)) : step_result :=
  (omapok (fun _ => tt) r.1, r.2).

Definition exec (x : call) (k : Kernel) (c : CpuContext) : step_result :=
  match x with
  | CreateThread s r => plain c (Kernel.create_thread s r k)
  | StartThread i arguments ra => plain c (Kernel.start_thread_with_context i arguments ra k)
  | WaitModuleStart child => acting (Kernel.wait_module_start child k c)
  | CompleteModuleStart i child m resident =>
      plain c (Kernel.complete_module_start i child m resident k)
  | DeleteThread i => plain c (Kernel.delete_thread i k)
  | ExitCurrent => acting (Kernel.exit_current k c)
  | ExitDeleteCurrent => acting (Kernel.exit_delete_current k c)
  | ChangePriority i p => plain c (Kernel.change_priority i p k)
  | Reschedule reason => acting (Kernel.reschedule reason k c)
  | SleepCurrent => acting (Kernel.sleep_current k c)
  | WakeupThread i => plain c (Kernel.wakeup_thread i k)
  | DelayCurrent ticks => waiting_call (Kernel.delay_current ticks k c)
  | WaitVblank phase => acting (Kernel.wait_vblank phase k c)
  | NotifyVblank phase => plain c (Kernel.notify_vblank phase k)
  | ReleaseThread i => plain c (Kernel.release_wait i k)
  | CreateSemaphore s => plain c (Kernel.create_semaphore s k)
  | DeleteSemaphore i => plain c (Kernel.delete_semaphore i k)
  | WaitSemaphore i timeout => waiting_call (Kernel.wait_semaphore i timeout k c)
  | PollSemaphore i => plain c (Kernel.poll_semaphore i k)
  | SignalSemaphore i => plain c (Kernel.signal_semaphore i k)
  | CreateEventFlag s => plain c (Kernel.create_event_flag s k)
  | DeleteEventFlag i => plain c (Kernel.delete_event_flag i k)
  | WaitEventFlag i pattern mode timeout =>
      waiting_call (Kernel.wait_event_flag i pattern mode timeout k c)
  | PollEventFlag i pattern mode => plain c (Kernel.poll_event_flag i pattern mode k)
  | SetEventFlag i b => plain c (Kernel.set_event_flag i b k)
  | ClearEventFlag i mask => plain c (Kernel.clear_event_flag i mask k)
  | CreateMessageBox s => plain c (Kernel.create_message_box s k)
  | DeleteMessageBox i => plain c (Kernel.delete_message_box i k)
  | SendMessage i message => plain c (Kernel.send_message i message k)
  | ReceiveMessage i timeout => waiting_call (Kernel.receive_message i timeout k c)
  | PollMessage i => plain c (Kernel.poll_message i k)
  | CreateFixedPool s r => plain c (Kernel.create_fixed_pool s r k)
  | DeleteFixedPool i => plain c (Kernel.delete_fixed_pool i k)
  | AllocateFixed i timeout => waiting_call (Kernel.allocate_fixed i timeout k c)
  | FreeFixed i a => plain c (Kernel.free_fixed i a k)
  | CreateVariablePool s r => plain c (Kernel.create_variable_pool s r k)
  | DeleteVariablePool i => plain c (Kernel.delete_variable_pool i k)
  | AllocateVariable i size timeout => waiting_call (Kernel.allocate_variable i size timeout k c)
  | FreeVariable i a => plain c (Kernel.free_variable i a k)
  | SetAlarm delay e a r =>
      let (o, k) := Kernel.set_alarm delay e a r k in (omapok (fun _ => tt) o, (k, c))
  | CancelAlarm i => plain c (Kernel.cancel_alarm i k)
  | AdvanceTo n => plain c (Kernel.advance_to n k)
  | EnterCallback callback => acting (Kernel.enter_callback callback k c)
  | ReturnFromCallback => acting (Kernel.return_from_callback k c)
  | Reset => (Ok tt, (Kernel.reset k, c))
  end.

(** The words a guest passes are unsigned 32-bit values. *)
Definition call_ok (x : call) : Prop :=
  match x with
  | CreateSemaphore s => 0 <= initial s /\ ss_maximum s < 2 ^ 32
  | CreateFixedPool s _ => fixed_spec_ok s
  | CreateVariablePool s _ => variable_spec_ok s
  | AllocateVariable _ size _ => 0 <= size
  | _ => True
  end.

(** The states any sequence of calls leads to, as long as the 64-bit sequence counters of
    the kernel and of its event scheduler last. *)
Inductive reachable : Kernel -> Prop :=
| reachable_new : reachable Kernel.new
| reachable_exec k x c :
    reachable k -> call_ok x -> ~ exhausted (exec x k c).2.1 -> reachable (exec x k c).2.1.

Lemma plain_settles {A} c (r : outcome KernelError A * Kernel) :
  settles none r -> settles_bios (plain c r) (plain c r).2.1.
Proof.
  destruct r as [[a|e|] k]; cbn; [done| |done]. intros [H|[-> H]]; [by left|by right].
Qed.

Lemma acting_settles {A} (r : outcome KernelError A * (Kernel * CpuContext)) :
  settles_action r -> settles_bios (acting r) (acting r).2.1.
Proof.
  destruct r as [[a|e|] [k c]]; cbn; [done| |done]. intros [H|[-> H]]; [by left|by right].
Qed.

Lemma waiting_call_settles {A} (r : outcome BiosError A * (Kernel * CpuContext)) :
  settles_bios r r.2.1 -> settles_bios (waiting_call r) (waiting_call r).2.1.
Proof. by destruct r as [[a|e|] [k c]]. Qed.

Create HintDb settle.
#[local] Hint Resolve create_thread_settles start_thread_settles wait_module_start_settles
  complete_module_start_settles delete_thread_settles exit_current_settles
  exit_delete_current_settles change_priority_settles reschedule_settles sleep_current_settles
  wakeup_thread_settles delay_current_settles wait_vblank_settles notify_vblank_settles
  release_wait_settles create_semaphore_settles delete_semaphore_settles
  wait_semaphore_settles poll_semaphore_settles signal_semaphore_settles
  create_event_flag_settles delete_event_flag_settles wait_event_flag_settles
  poll_event_flag_settles set_event_flag_settles clear_event_flag_settles
  create_message_box_settles delete_message_box_settles send_message_settles
  receive_message_settles poll_message_settles create_fixed_pool_settles
  delete_fixed_pool_settles allocate_fixed_settles free_fixed_settles
  create_variable_pool_settles delete_variable_pool_settles allocate_variable_settles
  free_variable_settles cancel_alarm_settles advance_to_settles enter_callback_settles
  return_from_callback_settles : settle.

(** Every operation keeps the invariant, or ran out of sequence numbers. *)
Lemma exec_settles x k c : inv k -> call_ok x -> settles_bios (exec x k c) (exec x k c).2.1.
Proof.
  intros Hk Hx. destruct x; cbn [exec];
    try first [solve [apply plain_settles; eauto with settle]
              |solve [apply acting_settles; eauto with settle]
              |solve [apply waiting_call_settles; eauto with settle]].
  - destruct Hx as [H1 H2]. apply plain_settles. eauto with settle.
  - pose proof (set_alarm_settles delay entry_ argument r k Hk) as H.
    by destruct (Kernel.set_alarm delay entry_ argument r k) as [[a|e|] k'].
  - apply new_inv.
Qed.

Lemma reachable_inv k : reachable k -> inv k.
Proof.
  induction 1 as [|k x c _ IH Hx Hn]; [apply new_inv|].
  pose proof (exec_settles x k c IH Hx) as H. unfold settles_bios in H.
  destruct (exec x k c) as [[[]|e|] [k' c']]; cbn in *; [done| |done].
  destruct H as [|[_ H]]; [done|contradiction].
Qed.

(** ** An example run *)

Definition example_range : GuestRange := mkGuestRange 0 0x200000.
Definition example_context : CpuContext := CpuContext.reset 0x1000 0x1f0000.
Definition example_thread (priority base : Z) : ThreadSpec :=
  mkThreadSpec 0x1000 base 0x1000 priority 0 0 0.

(** Three threads, of which the second waits at a semaphore and the first runs. *)
Definition example_calls : list call :=
  [CreateThread (example_thread 40 0x10000) example_range;
   CreateThread (example_thread 20 0x20000) example_range;
   CreateThread (example_thread 40 0x30000) example_range;
   CreateSemaphore (mkSemaphoreSpec 0 1 0);
   StartThread 1 [] 0; StartThread 2 [] 0; StartThread 3 [] 0;
   Reschedule HleReturn; WaitSemaphore 1 (Some 100)].

Fixpoint run (l : list call) (s : Kernel * CpuContext) : Kernel * CpuContext :=
  match l with
  | [] => s
  | x :: l => run l (exec x s.1 s.2).2
  end.

Definition example_kernel : Kernel := (run example_calls (Kernel.new, example_context)).1.

Lemma run_reachable l k c :
  reachable k -> Forall call_ok l ->
  Forall (fun i => ~ exhausted (run (take i l) (k, c)).1) (seq 1 (length l)) ->
  reachable (run l (k, c)).1.
Proof.
  revert k c. induction l as [|x l IH]; intros k c Hk Hl Hn; [done|].
  apply Forall_cons in Hl as [Hx Hl]. cbn [length seq] in Hn. apply Forall_cons in Hn as [Hn1 Hn].
  cbn [run]. cbn in Hn1. destruct (exec x k c) as [r [k' c']] eqn:E. cbn [fst snd] in *.
  assert (reachable k') as Hk'.
  { pose proof (reachable_exec k x c Hk Hx) as H. rewrite E in H. by apply H. }
  cbn [run fst snd]. rewrite E. cbn [snd]. apply IH; [done|done|]. rewrite <- seq_shift, Forall_map in Hn.
  eapply Forall_impl; [exact Hn|]. intros i Hi. cbn in Hi. by rewrite E in Hi.
Qed.

Lemma example_reachable : reachable example_kernel.
Proof.
  apply run_reachable; [constructor|repeat (apply List.Forall_cons || apply List.Forall_nil); cbn; lia|].
  repeat (apply List.Forall_cons || apply List.Forall_nil); intros [H|H]; vm_compute in H; by apply H.
Qed.

(** ** Invariant and absence of panics *)

(** C14: In every state that calls can lead to, the kernel's invariant holds and no further
    call panics.  The running thread is the current one and no other runs; no wake-up is
    lost: a thread waiting at a semaphore, event flag, message box or memory pool is in its
    queue and the object has nothing to give it, and a delayed thread has a pending
    deadline; the free regions and the allocations of every pool are disjoint, and no
    free block is allocated; ready threads have distinct places. *)
Theorem kernel_invariant k :
  reachable k -> inv k /\ forall x c, call_ok x -> (exec x k c).1 <> Panic.
Proof.
  intros Hk%reachable_inv. split; [done|]. intros x c Hx.
  pose proof (exec_settles x k c Hk Hx) as H. by destruct (exec x k c) as [[a|e|] s].
Qed.

Lemma kernel_invariant_witness :
  waiting example_kernel 2 (Semaphore_wait 1) /\ inv example_kernel.
Proof.
  split; [|exact (proj1 (kernel_invariant example_kernel example_reachable))].
  apply wait_matches_true. vm_compute. reflexivity.
Defined.

(** ** Scheduling decisions *)

(** The threads after a switch to [i]: the running thread is preempted behind every
    ready thread, [i] runs, the others are as they were. *)
Lemma select_threads prev force k c a k' c' i t :
  threads_ok k -> Kernel.select prev force k c = (Ok a, (k', c')) ->
  must_switch k force (Kernel.best_ready k) -> Kernel.best_ready k = Some i ->
  Kernel.thread i k = Some t -> state t = Ready ->
  forall j, Kernel.thread j k' =
    if decide (j = i) then Some (t <| state := Running |>)
    else if decide (current_thread k = Some j) then
      (fun u => u <| saved_context := c |> <| ready_order := next_ready_order k |>
                  <| state := Ready |>) <$> Kernel.thread j k
    else Kernel.thread j k.
Proof.
  intros Ht Hs Hm Hb Hi Hr j. unfold Kernel.select in Hs.
  destruct (should_switch_spec force k Ht) as (b & Eb & Hb'). rewrite Eb in Hs.
  apply Hb' in Hm as ->. rewrite Hb in Hs. unfold Kernel.preempt in Hs.
  destruct (current_thread k) as [l|] eqn:Ec.
  - pose proof Ec as (u & Hl & Hrun)%(ok_current k Ht).
    destruct (take_order_cases (k <| current_thread := None |>)) as [[E _]|E]; rewrite E in Hs; [done|].
    clear E. change (Kernel.thread l _) with (Kernel.thread l k) in Hs. rewrite Hl in Hs.
    set (u' := u <| saved_context := _ |> <| ready_order := _ |> <| state := _ |>) in Hs.
    assert (forall m, Kernel.thread m (Kernel.put_thread l u' k) =
      if decide (m = l) then Some u' else Kernel.thread m k) as Hput
      by (intros m; apply (thread_put k Ht l m u' u Hl)).
    assert (i <> l) as Hil by congruence.
    match type of Hs with context [Kernel.put_thread l u' ?x] => set (kp := Kernel.put_thread l u' x) in Hs end.
    assert (forall m, Kernel.thread m kp = Kernel.thread m (Kernel.put_thread l u' k)) as Hkp by done.
    rewrite Hkp, Hput, decide_False, Hi in Hs by done. simplify_eq.
    transitivity (if decide (j = i) then Some (t <| state := Running |>) else Kernel.thread j kp).
    { assert (TableFacts.wf (threads kp)) as Hwf
        by (apply (TableFacts.put_wf _ _ _ u); [apply Ht|done]).
      apply (TableFacts.put_get _ _ _ t); [done|].
      change (Kernel.thread i kp = Some t). by rewrite Hkp, Hput, decide_False. }
    case_decide; [done|]. rewrite Hkp, Hput. repeat case_decide; simplify_eq; [|done..].
    by rewrite Hl.
  - rewrite Hi in Hs. simplify_eq.
    transitivity (if decide (j = i) then Some (t <| state := Running |>) else Kernel.thread j k).
    { apply (thread_put k Ht i j _ t Hi). }
    by repeat case_decide.
Qed.

Definition is_ready (k : Kernel) (i : Z) (t : Thread) : Prop :=
  Kernel.thread i k = Some t /\ state t = Ready.

(** A switch: the first thread of the best priority runs on its saved context; a running
    thread gives way only when forced or to a better priority, and keeps its context. *)
Definition switches (force : bool) (k : Kernel) (c : CpuContext) (k' : Kernel) (c' : CpuContext)
    : Prop :=
  exists i t, is_ready k i t /\ (forall j u, is_ready k j u -> precedes t u) /\
    current_thread k' = Some i /\ c' = saved_context t /\
    forall j u, current_thread k = Some j -> Kernel.thread j k = Some u ->
      (force = true \/ current_priority t < current_priority u) /\
      exists u', is_ready k' j u' /\ saved_context u' = c /\
        current_priority u' = current_priority u /\
        forall l v, l <> j -> is_ready k' l v -> ready_order v < ready_order u'.

(** No switch: nothing is forced and no ready thread has a better priority. *)
Definition continues (force : bool) (k : Kernel) (c : CpuContext) (k' : Kernel) (c' : CpuContext)
    : Prop :=
  current_thread k' = current_thread k /\ c' = c /\
  forall i t, is_ready k i t -> force = false /\
    exists j u, current_thread k = Some j /\ Kernel.thread j k = Some u /\
      current_priority u <= current_priority t.

Lemma select_decides prev force k c :
  inv k ->
  match Kernel.select prev force k c with
  | (Ok _, (k', c')) => switches force k c k' c' \/ continues force k c k' c'
  | (Err e, (k', _)) => ran_out e k'
  | (Panic, _) => False
  end.
Proof.
  intros Hk. pose proof (inv_threads _ _ Hk) as Ht.
  pose proof (kernel_select_spec _ prev force k c Hk) as H.
  pose proof (best_ready_spec k Ht) as Hb.
  destruct (Kernel.select prev force k c) as [[a|e|] [k' c']] eqn:Es; [|done..].
  destruct H as (Hk' & _ & [(Hm & i & t & Ei & Hi & Hc & -> & _)|(Hm & -> & -> & _)]).
  - left. pose proof Hb as Hb'. rewrite Ei in Hb'.
    destruct Hb' as (t' & Hi' & Hr & Hmin).
    assert (t' = t) as -> by congruence. clear Hi'.
    pose proof (select_threads _ _ _ _ _ _ _ _ _ Ht Es Hm Ei Hi Hr) as Hth.
    exists i, t. split_and!; [done|by intros j u []; eauto|done|done|].
    intros j u Hj Hu.
    assert (state u = Running) as Hrun.
    { pose proof Hj as (w & Hw & Hrun)%(ok_current k Ht). congruence. }
    assert (j <> i) as Hne by congruence.
    split.
    { destruct Hm as (i' & w & Ei' & Hw & Hf). simplify_eq. by apply (Hf j u). }
    pose proof (Hth j) as Hj'. rewrite decide_False, decide_True, Hu in Hj' by done.
    eexists. split_and!; [split; [exact Hj'|done]|done|done|].
    intros l v Hlj [Hl Hv]. cbn. rewrite Hth in Hl.
    repeat case_decide; simplify_eq.
    by apply (ok_order _ _ (ok_thread k Ht l v Hl)).
  - right. split_and!; [done|done|]. intros i t [Hi Hr].
    destruct (Kernel.best_ready k) as [b|] eqn:Eb; [|by destruct (Hb i t Hi)].
    destruct Hb as (tb & Hb & Hbr & Hmin). pose proof (Hmin i t Hi Hr) as Hp.
    destruct (current_thread k) as [j|] eqn:Ec.
    2: { exfalso. apply Hm. exists b, tb. split_and!; [done|done|]. congruence. }
    pose proof Ec as (u & Hj & _)%(ok_current k Ht).
    assert (~ (force = true \/ current_priority tb < current_priority u)) as Hno.
    { intros Hf. apply Hm. exists b, tb. split_and!; [done|done|]. intros ? ? ? ?. by simplify_eq. }
    split; [destruct force; [exfalso; auto|done]|]. exists j, u. split_and!; [done|done|].
    unfold precedes in Hp. lia.
Qed.

Definition forces (reason : RescheduleReason) : bool := match reason with Yield => true | _ => false end.

(** C32: Rescheduling takes the first thread, in order of arrival, of the best priority
    among the ready ones.  The running thread gives way to it only if it yields or the
    other has a better priority; it then keeps its context and goes behind every ready
    thread.  Otherwise it continues, and no ready thread has a better priority. *)
Theorem reschedule_runs_best reason k c :
  reachable k ->
  match Kernel.reschedule reason k c with
  | (Ok _, (k', c')) =>
      switches (forces reason) k c k' c' \/ continues (forces reason) k c k' c'
  | (Err e, (k', _)) => ran_out e k'
  | (Panic, _) => False
  end.
Proof.
  intros Hk%reachable_inv. pose proof (inv_threads _ _ Hk) as Ht.
  unfold Kernel.reschedule. fold (forces reason).
  destruct (current_thread k) as [j|] eqn:Ec; [|by apply select_decides].
  pose proof Ec as (u & Hj & Hrun)%(ok_current k Ht). rewrite Hj, bool_decide_true by done.
  cbn [negb]. set (u0 := u <| saved_context := c |>). set (k0 := Kernel.put_thread j u0 k).
  assert (inv k0) as Hk0.
  { destruct (ok_thread k Ht j u Hj). by apply (put_quiet k j _ u). }
  assert (forall l, Kernel.thread l k0 = if decide (l = j) then Some u0 else Kernel.thread l k) as Hth
    by (intros l; apply (thread_put k Ht j l u0 u Hj)).
  assert (forall l t, is_ready k0 l t <-> is_ready k l t) as Hready.
  { intros l t. unfold is_ready. rewrite Hth. case_decide; [subst|done].
    split; intros [H Hr]; simplify_eq; cbn in Hr; congruence. }
  assert (Kernel.thread j k0 = Some u0) as Hj0 by (by rewrite Hth, decide_True).
  assert (current_thread k0 = Some j) as Ec0 by done.
  pose proof (select_decides (Some j) (forces reason) k0 c Hk0) as H.
  destruct (Kernel.select (Some j) (forces reason) k0 c) as [[a|e|] [k' c']]; [|done..].
  destruct H as [(i & t & Hi%Hready & Hmin & Hc & -> & Hcur)|(Hc & -> & Hno)]; [left|right].
  - exists i, t. split_and!; [done|by intros l v Hl%Hready; eauto|done|done|].
    intros l v Hl Hv. assert (l = j) as -> by congruence. assert (v = u) as -> by congruence.
    exact (Hcur j u0 Ec0 Hj0).
  - split_and!; [by rewrite Hc|done|]. intros i t Hi%Hready. destruct (Hno i t Hi) as [Hf (l & v & Hl & Hv & Hle)].
    split; [done|]. exists j, u. split_and!; [done|done|].
    assert (l = j) as -> by congruence. assert (v = u0) as -> by congruence. exact Hle.
Qed.

(** The third thread is behind the first of the same priority: a yield switches to it. *)
Lemma reschedule_runs_best_witness :
  exists k' c', Kernel.reschedule Yield example_kernel example_context
    = (Ok (mkScheduleAction (Some 1) (Some 3) true), (k', c')) /\
    (switches true example_kernel example_context k' c' \/
     continues true example_kernel example_context k' c').
Proof.
  pose proof (reschedule_runs_best Yield example_kernel example_context example_reachable) as H.
  assert ((Kernel.reschedule Yield example_kernel example_context).1
    = Ok (mkScheduleAction (Some 1) (Some 3) true)) as E by (vm_compute; reflexivity).
  destruct (Kernel.reschedule Yield example_kernel example_context) as [r [k' c']].
  cbn [fst] in E. subst r. exists k', c'. split; [reflexivity|exact H].
Defined.
