(* ===== verification/IopModules.v ===== *)
(** * The IOP module registry: crates/hle/ps2/bios/src/{module,lib}.rs

    Loaded modules and export libraries in two handle tables, the guest-visible list of
    module descriptors, and [BiosHle], which bundles the registry with the allocator, the
    dispatch boundary and the kernel.  An operation returns the registry, the allocator
    and the guest memory it leaves on every path. *)

From S2P Require Import Prelude Records MachineInt Buffer Clock Scheduler IopBase IopDispatch.
From S2P Require Import IopAllocator IopKernel.
From S2P Require Slices.
From S2P Require Import Irx.
From S2P Require Import IopBase IopDispatch IopAllocator.

Definition MODULE_INFO_SIZE : Z := 48.
Definition MAX_MODULES : nat := 64.
Definition MAX_LIBRARIES : nat := 256.

Inductive ModuleState :=
| Loaded | Starting | ResidentModule | RemovableModule | Stopping | Stopped | StoppedRemovable
| NotResidentModule.

Definition new_flags (s : ModuleState) : Z :=
  match s with
  | Loaded => 1
  | Starting => 2
  | ResidentModule => 3
  | RemovableModule => 0x13
  | Stopping => 0x15
  | Stopped => 7
  | StoppedRemovable => 0x17
  | NotResidentModule => 6
  end.

Record ModuleInfo := mkModuleInfo {
  mi_next : Z;
  mi_name : Z;
  mi_version : Z;
  mi_new_flags : Z;
  mi_id : Z;
  mi_flags : Z;
  mi_entry : Z;
  mi_global_pointer : Z;
  mi_text_start : Z;
  mi_text_size : Z;
  mi_data_size : Z;
  mi_bss_size : Z;
  unused1 : Z;
  unused2 : Z;
}.

#[export] Instance ModuleInfo_fields : Fields ModuleInfo := fun i =>
  mkModuleInfo (mi_next i) (mi_name i) (mi_version i) (mi_new_flags i) (mi_id i) (mi_flags i)
    (mi_entry i) (mi_global_pointer i) (mi_text_start i) (mi_text_size i) (mi_data_size i)
    (mi_bss_size i) (unused1 i) (unused2 i).

(** The fields are put at ascending offsets without gaps. *)
Definition encode (i : ModuleInfo) : list Z :=
  le_bytes 4 (mi_next i) ++ le_bytes 4 (mi_name i) ++
  le_bytes 2 (mi_version i) ++ le_bytes 2 (mi_new_flags i) ++ le_bytes 2 (mi_id i) ++
  le_bytes 2 (mi_flags i) ++
  le_bytes 4 (mi_entry i) ++ le_bytes 4 (mi_global_pointer i) ++ le_bytes 4 (mi_text_start i) ++
  le_bytes 4 (mi_text_size i) ++ le_bytes 4 (mi_data_size i) ++ le_bytes 4 (mi_bss_size i) ++
  le_bytes 4 (unused1 i) ++ le_bytes 4 (unused2 i).

Record ExportRegistration := mkExportRegistration {
  er_module_id : Z;
  er_name : list Z;
  er_version : Z;
  er_mode : Z;
  er_table_address : Z;
  er_functions : list Z;
  users : Z;
}.

#[export] Instance ExportRegistration_fields : Fields ExportRegistration := fun l =>
  mkExportRegistration (er_module_id l) (er_name l) (er_version l) (er_mode l)
    (er_table_address l) (er_functions l) (users l).

Record ResolvedImport := mkResolvedImport { library_id : Z; ri_address : Z }.

Record ModuleInvocation := mkModuleInvocation {
  inv_module_id : Z;
  inv_entry : Z;
  inv_global_pointer : Z;
}.

Record ModuleRecord := mkModuleRecord {
  mr_id : Z;
  mr_name : list Z;
  mr_version : Z;
  mr_state : ModuleState;
  info_address : Z;
  info : ModuleInfo;
  metadata_allocation : Allocation;
  image_allocation : Allocation;
  mr_imports : list ImportLibrary;
  export_ids : list Z;
}.

#[export] Instance ModuleRecord_fields : Fields ModuleRecord := fun m =>
  mkModuleRecord (mr_id m) (mr_name m) (mr_version m) (mr_state m) (info_address m) (info m)
    (metadata_allocation m) (image_allocation m) (mr_imports m) (export_ids m).

Record ModuleRegistry := mkModuleRegistry {
  modules : FixedTable ModuleRecord MAX_MODULES;
  libraries : FixedTable ExportRegistration MAX_LIBRARIES;
  head : Z;
}.

#[export] Instance ModuleRegistry_fields : Fields ModuleRegistry := fun r =>
  mkModuleRegistry (modules r) (libraries r) (head r).

(** [byte.is_ascii_graphic()] *)
Definition is_ascii_graphic (b : Z) : bool := (33 <=? b) && (b <=? 126).

Definition validate_module_name (name : list Z) : outcome KernelError unit :=
  if bool_decide (name = []) || (127 <? Slices.len name)
     || existsb (fun b => (b =? 0) || negb (is_ascii_graphic b || (b =? 32))) name
  then Err IllegalObject else Ok tt.

Definition validate_library_name (name : list Z) : outcome KernelError unit :=
  if bool_decide (name = []) || (8 <? Slices.len name) || negb (forallb is_ascii_graphic name)
  then Err IllegalLibrary else Ok tt.

Definition version_compatible (provided required : Z) : bool :=
  Z.shiftr provided 8 =? Z.shiftr required 8.

(** ** The guest as the target of the loader *)

Record GuestTarget (M : Type) := mkGuestTarget { gt_guest : M; gt_range : MemoryRange }.
Arguments mkGuestTarget {M} _ _.
Arguments gt_guest {M} _.
Arguments gt_range {M} _.

#[export] Instance guest_target `{GuestMemory M} : TargetMemory (GuestTarget M) := {
  target_range := gt_range;
  write_image address image t :=
    if negb (GuestRange.contains (range (gt_guest t)) address (Slices.len image)) then
      (Err (mkTargetError (PsfText.str "IRX image lies outside guest RAM")), t)
    else
      let (r, guest) := gwrite address image (gt_guest t) in
      (map_err (fun e => mkTargetError (PsfText.str (message e))) r, mkGuestTarget guest (gt_range t));
}.

(** ** Blocks that a failed load gives back *)

(** [allocator.free(..).map_err(BiosError::Kernel)?] for each block, then the error. *)
Fixpoint give_back {A} (blocks : list Allocation) (error : BiosError) (a : SystemMemory)
    : outcome BiosError A * SystemMemory :=
  match blocks with
  | [] => (Err error, a)
  | b :: blocks =>
      let (r, a) := SystemMemory.free (address b) a in
      match r with
      | Ok _ => give_back blocks error a
      | Err e => (Err (Kernel_error e), a)
      | Panic => (Panic, a)
      end
  end.

Module ModuleRegistry.

Definition new : ModuleRegistry := mkModuleRegistry (FixedTable.new 1) (FixedTable.new 1) 0.

Definition reset (r : ModuleRegistry) : ModuleRegistry :=
  mkModuleRegistry (FixedTable.clear (modules r)) (FixedTable.clear (libraries r)) 0.

Definition get (id : Z) (r : ModuleRegistry) : option ModuleRecord := FixedTable.get (modules r) id.

Definition find (name : list Z) (r : ModuleRegistry) : option ModuleRecord :=
  found ← list_find (fun e : Z * ModuleRecord => mr_name e.2 = name) (FixedTable.iter (modules r));
  Some found.2.2.

(** [find_map]: the closure gives up on an allocation whose end overflows. *)
Definition containing (address_ : Z) (r : ModuleRegistry) : option ModuleRecord :=
  found ← list_find (fun e : Z * ModuleRecord =>
      let block := image_allocation e.2 in
      is_Some (end_ ← checked_add_u 32 (address block) (size block);
               if (address block <=? address_) && (address_ <? end_) then Some tt else None))
    (FixedTable.iter (modules r));
  Some found.2.2.

Definition export_ (id : Z) (r : ModuleRegistry) : option ExportRegistration :=
  FixedTable.get (libraries r) id.

(** *** Export libraries *)

(** The loop of [validate_exports]; [earlier] are the names already seen. *)
Fixpoint validate_each (r : ModuleRegistry) (earlier : list (list Z)) (exports : list ExportLibrary)
    : outcome KernelError unit :=
  match exports with
  | [] => Ok tt
  | e :: exports =>
      let? _ := validate_library_name (ex_name e) in
      if bool_decide (functions e = []) then Err IllegalLibrary
      else if bool_decide (Exists (fun l : Z * ExportRegistration => er_name l.2 = ex_name e)
                             (FixedTable.iter (libraries r)))
              || bool_decide (ex_name e ∈ earlier)
      then Err LibraryFound
      else validate_each r (earlier ++ [ex_name e]) exports
  end.

Definition validate_exports (exports : list ExportLibrary) (r : ModuleRegistry)
    : outcome KernelError unit :=
  let? free := expect (checked_sub_u (Z.of_nat MAX_LIBRARIES) (len (libraries r))) in
  if free <? Z.of_nat (length exports) then Err NoMemory else validate_each r [] exports.

Definition insert_export (module_id : Z) (e : ExportLibrary) (r : ModuleRegistry)
    : outcome KernelError Z * ModuleRegistry :=
  let (id, t) := FixedTable.insert
    (mkExportRegistration module_id (ex_name e) (ex_version e) (ex_mode e) (ex_table_address e)
       (functions e) 0) (libraries r) in
  (id, r <| libraries := t |>).

Definition register_export (module_id : Z) (e : ExportLibrary) (r : ModuleRegistry)
    : outcome KernelError Z * ModuleRegistry :=
  let! (_u, r) := (validate_exports [e] r, r) in
  insert_export module_id e r.

Definition release_export (id : Z) (r : ModuleRegistry)
    : outcome KernelError ExportRegistration * ModuleRegistry :=
  match FixedTable.get (libraries r) id with
  | None => (Err LibraryNotFound, r)
  | Some l =>
      if negb (users l =? 0) then (Err LibraryInUse, r)
      else
        let (removed, t) := FixedTable.remove id (libraries r) in
        (ok_or removed LibraryNotFound, r <| libraries := t |>)
  end.

Definition bind_import (name : list Z) (required_version ordinal : Z) (r : ModuleRegistry)
    : outcome KernelError ResolvedImport * ModuleRegistry :=
  let! (_u, r) := (validate_library_name name, r) in
  match list_find (fun l : Z * ExportRegistration =>
                     er_name l.2 = name /\ version_compatible (er_version l.2) required_version = true)
          (FixedTable.iter (libraries r)) with
  | None => (Err LibraryNotFound, r)
  | Some (_, (id, l)) =>
      match er_functions l !! Z.to_nat ordinal with
      | None => (Err IllegalLibrary, r)
      | Some address =>
          if address =? 0 then (Err IllegalLibrary, r)
          else
            let! (n, r) := (ok_or (checked_add_u 32 (users l) 1) NoMemory, r) in
            (Ok (mkResolvedImport id address),
             r <| libraries := FixedTable.put id (l <| users := n |>) (libraries r) |>)
      end
  end.

Definition unbind_import (id : Z) (r : ModuleRegistry) : outcome KernelError unit * ModuleRegistry :=
  match FixedTable.get (libraries r) id with
  | None => (Err LibraryNotFound, r)
  | Some l =>
      let! (n, r) := (ok_or (checked_sub_u (users l) 1) IllegalLibrary, r) in
      (Ok tt, r <| libraries := FixedTable.put id (l <| users := n |>) (libraries r) |>)
  end.

(** [let _ = self.libraries.remove(id)] for each identifier *)
Fixpoint remove_libraries (ids : list Z) (r : ModuleRegistry) : ModuleRegistry :=
  match ids with
  | [] => r
  | id :: ids => remove_libraries ids (r <| libraries := (FixedTable.remove id (libraries r)).2 |>)
  end.

(** The loop that inserts the exports of a module: the identifiers, or the error with
    those inserted before it. *)
Fixpoint insert_exports (module_id : Z) (exports : list ExportLibrary) (ids : list Z)
    (r : ModuleRegistry) : outcome (KernelError * list Z) (list Z) * ModuleRegistry :=
  match exports with
  | [] => (Ok ids, r)
  | e :: exports =>
      let (inserted, r) := insert_export module_id e r in
      match inserted with
      | Ok id => insert_exports module_id exports (ids ++ [id]) r
      | Err error => (Err (error, ids), r)
      | Panic => (Panic, r)
      end
  end.

(** *** Loading *)

Section guest.
Context `{GuestMemory M}.

Notation state := (ModuleRegistry * SystemMemory * M)%type.

(** An error after the blocks were taken: both are given back. *)
Definition abandon {A} (blocks : list Allocation) (error : BiosError)
    (r : ModuleRegistry) (a : SystemMemory) (g : M) : outcome BiosError A * state :=
  let (e, a) := give_back blocks error a in (e, (r, a, g)).

(** Publication of a loaded module: its exports and its record. *)
Definition publish (module_id : Z) (record : list Z -> ModuleRecord) (exports : list ExportLibrary)
    (metadata image : Allocation) (r : ModuleRegistry) (a : SystemMemory) (g : M)
    : outcome BiosError Z * state :=
  let old_head := head r in
  let (inserted, r) := insert_exports module_id exports [] r in
  match inserted with
  | Panic => (Panic, (r, a, g))
  | Err (error, ids) =>
      let r := remove_libraries ids r in
      let (w, g) := write_u32 MODULE_HEAD_ADDRESS old_head g in
      match w with
      | Panic => (Panic, (r, a, g))
      | _ => abandon [image; metadata] (Kernel_error error) r a g
      end
  | Ok ids =>
      let (added, t) := FixedTable.insert_at module_id (record ids) (modules r) in
      let r := r <| modules := t |> in
      match added with
      | Panic => (Panic, (r, a, g))
      | Err error =>
          let owned := omap (fun l : Z * ExportRegistration =>
              if er_module_id l.2 =? module_id then Some l.1 else None)
            (FixedTable.iter (libraries r)) in
          let r := remove_libraries owned r in
          let (w, g) := write_u32 MODULE_HEAD_ADDRESS old_head g in
          match w with
          | Panic => (Panic, (r, a, g))
          | _ => abandon [image; metadata] (Kernel_error error) r a g
          end
      | Ok _ => (Ok module_id, (r <| head := address metadata |>, a, g))
      end
  end.

(** The descriptor, the name and the head of the list. *)
Definition write_descriptor (i : ModuleInfo) (name : list Z) (metadata name_address : Z) (g : M)
    : outcome BiosError unit * M :=
  let! (_u, g) := write_guest metadata (encode i) g in
  let! (_u, g) := write_guest name_address (name ++ [0]) g in
  write_u32 MODULE_HEAD_ADDRESS metadata g.

(** What follows the two allocations. *)
Definition load_at (irx : IrxModule) (module_id : Z) (metadata image : Allocation)
    (r : ModuleRegistry) (a : SystemMemory) (g : M) : outcome BiosError Z * state :=
  let d := description irx in
  match checked_add_u 32 (address image) (requested_size image) with
  | None => (Panic, (r, a, g))
  | Some image_end =>
      let (loaded, target) := IrxModule.load_into irx (address image)
        (mkGuestTarget g (mkMemoryRange (address image) image_end)) in
      let g := gt_guest target in
      match loaded with
      | Panic => (Panic, (r, a, g))
      | Err error => abandon [image; metadata] (Irx_error error) r a g
      | Ok loaded =>
          match validate_exports (exports loaded) r with
          | Panic => (Panic, (r, a, g))
          | Err error => abandon [image; metadata] (Kernel_error error) r a g
          | Ok _ =>
              match checked_add_u 32 (address metadata) MODULE_INFO_SIZE with
              | None => (Panic, (r, a, g))
              | Some name_address =>
                  let i := mkModuleInfo (head r) name_address (md_version d) (new_flags Loaded)
                    module_id 0 (lm_entry loaded) (lm_global_pointer loaded)
                    (al_address (allocation loaded)) (text_size d) (data_size d) (bss_size d) 0 0 in
                  let (w, g) := write_descriptor i (md_name d) (address metadata) name_address g in
                  match w with
                  | Panic => (Panic, (r, a, g))
                  | Err error => abandon [image; metadata] error r a g
                  | Ok _ =>
                      publish module_id (fun ids => mkModuleRecord module_id (md_name d)
                          (md_version d) Loaded (address metadata) i metadata image
                          (imports loaded) ids)
                        (exports loaded) metadata image r a g
                  end
              end
          end
      end
  end.

(** The identifier and the size of the descriptor with the name. *)
Definition prepare (irx : IrxModule) (r : ModuleRegistry) : outcome KernelError (Z * Z) :=
  let? module_id := ok_or (FixedTable.next_id (modules r)) NoMemory in
  let? module_id := ok_or (try_from_u 16 module_id) NoMemory in
  let name := md_name (description irx) in
  let? _ := validate_module_name name in
  let? name_size := ok_or (n ← try_from_u 32 (Slices.len name); checked_add_u 32 n 1) IllegalSize in
  let? metadata_size := ok_or (checked_add_u 32 MODULE_INFO_SIZE name_size) IllegalSize in
  Ok (module_id, metadata_size).

Definition load (irx : IrxModule) (r : ModuleRegistry) (a : SystemMemory) (g : M)
    : outcome BiosError Z * state :=
  match prepare irx r with
  | Panic => (Panic, (r, a, g))
  | Err e => (Err (Kernel_error e), (r, a, g))
  | Ok (module_id, metadata_size) =>
      let (metadata, a) := SystemMemory.allocate First metadata_size 0 a in
      match metadata with
      | Panic => (Panic, (r, a, g))
      | Err e => (Err (Kernel_error e), (r, a, g))
      | Ok metadata =>
          let executable := negb (is_relocatable (md_variant (description irx))) in
          let (image, a) := SystemMemory.allocate_aligned (if executable then Address else First)
            (IrxModule.allocation_size irx) (if executable then preferred_address irx else 0)
            (Z.max (m_alignment irx) SYSMEM_QUANTUM) a in
          match image with
          | Panic => (Panic, (r, a, g))
          | Err e => abandon [metadata] (Kernel_error e) r a g
          | Ok image => load_at irx module_id metadata image r a g
          end
      end
  end.

(** *** Lifecycle *)

Definition set_state (id : Z) (s : ModuleState) (r : ModuleRegistry) (g : M)
    : outcome BiosError unit * (ModuleRegistry * M) :=
  match FixedTable.get (modules r) id with
  | None => (Err (Kernel_error UnknownModule), (r, g))
  | Some m =>
      match checked_add_u 32 (info_address m) 10 with
      | None => (Panic, (r, g))
      | Some at_ =>
          let (w, g) := write_u16 at_ (new_flags s) g in
          match w with
          | Panic => (Panic, (r, g))
          | Err e => (Err e, (r, g))
          | Ok _ =>
              (Ok tt, (r <| modules := FixedTable.put id
                 (m <| mr_state := s |> <| info := (info m) <| mi_new_flags := new_flags s |> |>)
                 (modules r) |>, g))
          end
      end
  end.

(** A change of state that returns a value. *)
Definition moved {A} (value : A) (id : Z) (s : ModuleState) (r : ModuleRegistry) (g : M)
    : outcome BiosError A * (ModuleRegistry * M) :=
  let (w, rg) := set_state id s r g in (omapok (fun _ => value) w, rg).

Definition invocation (id : Z) (m : ModuleRecord) : ModuleInvocation :=
  mkModuleInvocation id (mi_entry (info m)) (mi_global_pointer (info m)).

Definition begin_start (id : Z) (r : ModuleRegistry) (g : M)
    : outcome BiosError ModuleInvocation * (ModuleRegistry * M) :=
  match FixedTable.get (modules r) id with
  | None => (Err (Kernel_error UnknownModule), (r, g))
  | Some m =>
      match mr_state m with
      | Loaded | Stopped | StoppedRemovable => moved (invocation id m) id Starting r g
      | NotResidentModule => (Err (Kernel_error NotRemovable), (r, g))
      | Starting | ResidentModule | RemovableModule | Stopping =>
          (Err (Kernel_error AlreadyStarted), (r, g))
      end
  end.

Definition complete_start (id : Z) (result : ResidentState) (r : ModuleRegistry) (g : M)
    : outcome BiosError ModuleState * (ModuleRegistry * M) :=
  match FixedTable.get (modules r) id with
  | None => (Err (Kernel_error UnknownModule), (r, g))
  | Some m =>
      match mr_state m with
      | Starting =>
          match result with
          | Resident => moved ResidentModule id ResidentModule r g
          | NotResident => moved NotResidentModule id NotResidentModule r g
          | Removable => moved RemovableModule id RemovableModule r g
          | Unstarted => (Err (InvalidState "module returned no resident result"), (r, g))
          end
      | _ => (Err (Kernel_error NotStarted), (r, g))
      end
  end.

Definition begin_stop (id : Z) (r : ModuleRegistry) (g : M)
    : outcome BiosError ModuleInvocation * (ModuleRegistry * M) :=
  match FixedTable.get (modules r) id with
  | None => (Err (Kernel_error UnknownModule), (r, g))
  | Some m =>
      match mr_state m with
      | RemovableModule => moved (invocation id m) id Stopping r g
      | ResidentModule => (Err (Kernel_error NotRemovable), (r, g))
      | Loaded | NotResidentModule => (Err (Kernel_error NotStarted), (r, g))
      | Starting => (Err (Kernel_error CannotStop), (r, g))
      | Stopping => (Err (Kernel_error AlreadyStopping), (r, g))
      | Stopped | StoppedRemovable => (Err (Kernel_error AlreadyStopped), (r, g))
      end
  end.

Definition complete_stop (id result : Z) (r : ModuleRegistry) (g : M)
    : outcome BiosError ModuleState * (ModuleRegistry * M) :=
  match FixedTable.get (modules r) id with
  | None => (Err (Kernel_error UnknownModule), (r, g))
  | Some m =>
      match mr_state m with
      | Stopping =>
          let s := if result =? 0 then StoppedRemovable else RemovableModule in moved s id s r g
      | _ => (Err (Kernel_error CannotStop), (r, g))
      end
  end.

(** *** Unloading *)

Definition unloadable (m : ModuleRecord) (r : ModuleRegistry) (a : SystemMemory)
    : outcome BiosError unit :=
  match mr_state m with
  | Loaded | NotResidentModule | StoppedRemovable =>
      if existsb (fun id => from_option (fun l => negb (users l =? 0)) false
                   (FixedTable.get (libraries r) id)) (export_ids m)
      then Err (Kernel_error LibraryInUse)
      else if bool_decide (SystemMemory.block (address (metadata_allocation m)) a = None)
              || bool_decide (SystemMemory.block (address (image_allocation m)) a = None)
      then Err (InvalidState "module allocation is missing")
      else Ok tt
  | Stopped => Err (Kernel_error NotRemovable)
  | _ => Err (Kernel_error NotStopped)
  end.

(** The module whose descriptor points at the removed one. *)
Definition predecessor (id removed_info : Z) (r : ModuleRegistry) : option (Z * ModuleRecord) :=
  snd <$> list_find (fun e : Z * ModuleRecord => e.1 <> id /\ mi_next (info e.2) = removed_info)
            (FixedTable.iter (modules r)).

(** The frees at the end: the image, then the metadata. *)
Definition free_both (m : ModuleRecord) (a : SystemMemory) : outcome BiosError unit * SystemMemory :=
  let (w, a) := SystemMemory.free (address (image_allocation m)) a in
  match w with
  | Ok _ =>
      let (w, a) := SystemMemory.free (address (metadata_allocation m)) a in
      (map_err Kernel_error (omapok (fun _ => tt) w), a)
  | Err e => (Err (Kernel_error e), a)
  | Panic => (Panic, a)
  end.

(** What follows the guest write that unlinks the descriptor. *)
Definition unlink (id : Z) (m : ModuleRecord) (pred : option (Z * ModuleRecord)) (r : ModuleRegistry)
    (a : SystemMemory) (g : M) : outcome BiosError ModuleRecord * state :=
  let next := mi_next (info m) in
  let r := match pred with
           | Some (pid, p) => r <| modules := FixedTable.put pid
               (p <| info := (info p) <| mi_next := next |> |>) (modules r) |>
           | None => r <| head := next |>
           end in
  let (removed, t) := FixedTable.remove id (modules r) in
  let r := r <| modules := t |> in
  match removed with
  | None => (Err (InvalidState "module disappeared during unload"), (r, a, g))
  | Some removed =>
      let r := remove_libraries (export_ids removed) r in
      let (w, a) := free_both removed a in
      (omapok (fun _ => removed) w, (r, a, g))
  end.

Definition unload (id : Z) (r : ModuleRegistry) (a : SystemMemory) (g : M)
    : outcome BiosError ModuleRecord * state :=
  match FixedTable.get (modules r) id with
  | None => (Err (Kernel_error UnknownModule), (r, a, g))
  | Some m =>
      match unloadable m r a with
      | Panic => (Panic, (r, a, g))
      | Err e => (Err e, (r, a, g))
      | Ok _ =>
          let pred := predecessor id (info_address m) r in
          let next := mi_next (info m) in
          let (w, g) :=
            match pred with
            | Some (_, p) => write_u32 (info_address p) next g
            | None => if head r =? info_address m then write_u32 MODULE_HEAD_ADDRESS next g
                      else (Err (InvalidState "module is absent from guest list"), g)
            end in
          match w with
          | Panic => (Panic, (r, a, g))
          | Err e => (Err e, (r, a, g))
          | Ok _ => unlink id m pred r a g
          end
      end
  end.
End guest.
End ModuleRegistry.

(** ** The whole BIOS *)

Record BiosHle := mkBiosHle {
  memory : SystemMemory;
  dispatch : DispatchBoundary;
  handlers : HandlerRegistry;
  kernel : Kernel;
  registry : ModuleRegistry;
}.

#[export] Instance BiosHle_fields : Fields BiosHle := fun b =>
  mkBiosHle (memory b) (dispatch b) (handlers b) (kernel b) (registry b).

Module BiosHle.

Definition new : outcome KernelError BiosHle :=
  let? memory := SystemMemory.new DEFAULT_HEAP_START DEFAULT_HEAP_END in
  Ok (mkBiosHle memory DispatchBoundary.new HandlerRegistry.new Kernel.new ModuleRegistry.new).

Section guest.
Context `{GuestMemory M}.

(** A failed dispatch reset leaves the handlers, kernel and modules alone. *)
Definition reset (b : BiosHle) (g : M) : outcome BiosError unit * (BiosHle * M) :=
  let b := b <| memory := SystemMemory.reset (memory b) |> in
  let '(r, (d, g)) := DispatchBoundary.reset (dispatch b) g in
  let b := b <| dispatch := d |> in
  match r with
  | Ok _ => (Ok tt, (b <| handlers := HandlerRegistry.reset (handlers b) |>
               <| kernel := Kernel.reset (kernel b) |>
               <| registry := ModuleRegistry.reset (registry b) |>, g))
  | _ => (r, (b, g))
  end.

Definition load_module (irx : IrxModule) (b : BiosHle) (g : M) : outcome BiosError Z * (BiosHle * M) :=
  let '(r, (reg, mem, g)) := ModuleRegistry.load irx (registry b) (memory b) g in
  (r, (b <| registry := reg |> <| memory := mem |>, g)).

Definition unload_module (id : Z) (b : BiosHle) (g : M)
    : outcome BiosError ModuleRecord * (BiosHle * M) :=
  let '(r, (reg, mem, g)) := ModuleRegistry.unload id (registry b) (memory b) g in
  (r, (b <| registry := reg |> <| memory := mem |>, g)).
End guest.
End BiosHle.
