(* ===== verification/IopModulesSpec.v ===== *)
(** * The contract of the module registry

    The invariant of the registry, the allocator and guest memory; the life cycle of a
    module; and what [load] and [unload] do to the tables, the blocks and the list of
    descriptors the guest walks. *)

From S2P Require Import Prelude Records MachineInt Buffer Slices.
From S2P Require Import Irx IrxFacts IrxLoadFacts.
From S2P Require Import IopBase IopDispatch IopAllocator IopAllocatorFacts IopModules.
From S2P Require Irx.
Import SysmemFacts Placement.
Import ModuleRegistry.

(** ** Guest writes and descriptor lists

    The registry keeps its records, the allocator's blocks, the export libraries and the
    descriptor list in agreement, and guest memory shows that list.  Guest memory is any
    implementation of [GuestLaws]. *)

(** ** Guest memory *)

(** Bytes that a write replaces, all of them or none. *)
Class GuestLaws (M : Type) `{GuestMemory M} := {
  guest_byte : M -> Z -> Z;
  gwrite_laws : forall a bs (g : M), GuestRange.contains (range g) a (Slices.len bs) = true ->
    match gwrite a bs g with
    | (Ok _, g') => range g' = range g /\
        forall i, guest_byte g' i =
          if decide (a <= i < a + Slices.len bs) then nth (Z.to_nat (i - a)) bs 0 else guest_byte g i
    | (Err _, g') => g' = g
    | (Panic, _) => False
    end;
}.

Section guest.
Context {M : Type} {HM : GuestMemory M} {HG : GuestLaws M}.
Implicit Types g : M.

Definition holds g (a : Z) (l : list Z) : Prop :=
  forall k, 0 <= k < Slices.len l -> guest_byte g (a + k) = nth (Z.to_nat k) l 0.

Definition wrote (a : Z) (bs : list Z) g g' : Prop :=
  range g' = range g /\
  forall i, guest_byte g' i =
    if decide (a <= i < a + Slices.len bs) then nth (Z.to_nat (i - a)) bs 0 else guest_byte g i.

Lemma wrote_holds a bs g g' : wrote a bs g g' -> holds g' a bs.
Proof.
  intros [_ Hw] k Hk. rewrite Hw, decide_True by lia. f_equal. lia.
Qed.

Lemma wrote_keeps a bs g g' b l :
  wrote a bs g g' -> b + Slices.len l <= a \/ a + Slices.len bs <= b -> holds g b l -> holds g' b l.
Proof.
  intros [_ Hw] Hd Hh k Hk. rewrite Hw, decide_False by lia. by apply Hh.
Qed.

Lemma write_guest_spec a bs g :
  match write_guest a bs g with
  | (Ok _, g') => wrote a bs g g'
  | (Err _, g') => g' = g
  | (Panic, _) => False
  end.
Proof.
  unfold write_guest, GuestRange.validate. fold (Slices.len bs).
  destruct (_ =? 0); [done|]. destruct (_ || _ || _ || _); [done|].
  destruct (GuestRange.contains _ _ _) eqn:Ec; cbn [negb map_err]; [|done].
  pose proof (gwrite_laws a bs g Ec) as Hl. by destruct (gwrite a bs g) as [[u|e|] g'].
Qed.

Lemma write_u32_spec a v g :
  match write_u32 a v g with
  | (Ok _, g') => wrote a (le_bytes4 v) g g'
  | (Err _, g') => g' = g
  | (Panic, _) => False
  end.
Proof. apply write_guest_spec. Qed.

Lemma holds_app g a l k : holds g a (l ++ k) <-> holds g a l /\ holds g (a + Slices.len l) k.
Proof.
  unfold holds. rewrite Slices.len_app. pose proof (Slices.len_nonneg l). pose proof (Slices.len_nonneg k).
  assert (forall i, 0 <= i < Slices.len l -> nth (Z.to_nat i) (l ++ k) 0 = nth (Z.to_nat i) l 0) as N1.
  { intros i Hi. unfold Slices.len in Hi. apply app_nth1. lia. }
  assert (forall i, Slices.len l <= i -> nth (Z.to_nat i) (l ++ k) 0 = nth (Z.to_nat (i - Slices.len l)) k 0) as N2.
  { intros i Hi. unfold Slices.len in *. rewrite app_nth2 by lia. f_equal. lia. }
  split.
  - intros Hh. split; intros i Hi.
    + rewrite Hh by lia. by apply N1.
    + rewrite <- Z.add_assoc, Hh, N2 by lia. f_equal. lia.
  - intros [Ha Hb] i Hi. destruct (Z.lt_ge_cases i (Slices.len l)).
    + rewrite N1 by lia. apply Ha. lia.
    + rewrite N2 by lia. rewrite <- Hb by lia. f_equal. lia.
Qed.

(** ** The descriptor list

    [lk id] is the address of a module's descriptor and the address its [next] field
    names; [seg lk h ids e] is the path from [h] through [ids] to [e]. *)

Fixpoint seg (lk : Z -> option (Z * Z)) (h : Z) (ids : list Z) (e : Z) : Prop :=
  match ids with
  | [] => h = e
  | id :: ids => exists n, lk id = Some (h, n) /\ seg lk n ids e
  end.

Lemma seg_app lk h l1 l2 e : seg lk h (l1 ++ l2) e <-> exists m, seg lk h l1 m /\ seg lk m l2 e.
Proof.
  revert h. induction l1 as [|id l1 IH]; intros h; cbn.
  - split; [intros Hs; by exists h|by intros (m & -> & Hs)].
  - split.
    + intros (n & E & (m & H1 & H2)%IH). exists m. split; [by exists n|done].
    + intros (m & (n & E & H1) & H2). exists n. split; [done|]. apply IH. by exists m.
Qed.

Lemma seg_ext lk lk' h ids e :
  (forall id, id ∈ ids -> lk' id = lk id) -> seg lk h ids e -> seg lk' h ids e.
Proof.
  revert h. induction ids as [|id ids IH]; intros h He; cbn; [done|].
  intros (n & E & Hs). exists n. split; [by rewrite He by (apply elem_of_cons; by left)|].
  apply IH; [|done]. intros id' Hid. apply He. apply elem_of_cons. by right.
Qed.

Section links.
Context (lk : Z -> option (Z * Z)) (h : Z) (ids : list Z) (id a n : Z)
  (Hseg : seg lk h ids 0) (Hnodup : NoDup ids) (Hin : id ∈ ids) (Hlk : lk id = Some (a, n)) (Ha : a <> 0)
  (Hinj : forall i j x y z, lk i = Some (x, y) -> lk j = Some (x, z) -> i = j).

(** A module that points at [a] is the one before [id]. *)
Lemma pointing_before j b : j ∈ ids -> lk j = Some (b, a) -> exists p1 p2, ids = p1 ++ j :: id :: p2.
Proof using Type*.
  intros (p1 & p2 & ->)%list_elem_of_split Hj. exists p1.
  apply seg_app in Hseg as (m & _ & (n' & E & Hs)). rewrite Hj in E. injection E as <- <-.
  destruct p2 as [|k p2]; cbn in Hs; [done|]. destruct Hs as (n2 & Ek & _).
  rewrite (Hinj k id a n2 n Ek Hlk). by exists p2.
Qed.

(** Without one, [id] is the first. *)
Lemma nothing_before :
  (forall j b, j ∈ ids -> j <> id -> lk j <> Some (b, a)) -> exists p2, ids = id :: p2 /\ h = a.
Proof using Type*.
  intros Hno. apply list_elem_of_split in Hin as (p1 & p2 & E).
  destruct p1 as [|x p1' _] using rev_ind.
  - exists p2. split; [done|]. rewrite E in Hseg. destruct Hseg as (n' & E' & _).
    rewrite Hlk in E'. by injection E'.
  - exfalso. rewrite E in Hseg, Hnodup. rewrite <- app_assoc in Hseg, E. cbn in Hseg, E.
    apply seg_app in Hseg as (m & _ & (n1 & E1 & (n2 & E2 & _))). rewrite Hlk in E2. injection E2 as <- <-.
    apply (Hno x m); [rewrite E; apply elem_of_app; right; by left| |done].
    intros ->. apply NoDup_app in Hnodup as (_ & Hd & _). apply (Hd id).
    + apply elem_of_app. right. by left.
    + by left.
Qed.

(** Removing the first module. *)
Lemma unlink_first p2 lk' :
  ids = id :: p2 -> (forall j, j <> id -> lk' j = lk j) -> seg lk' n p2 0.
Proof using Type*.
  intros E He. rewrite E in Hseg, Hnodup. destruct Hseg as (n' & E' & Hs).
  rewrite Hlk in E'. injection E' as -> <-. apply NoDup_cons in Hnodup as [Hni _].
  eapply seg_ext; [|exact Hs]. intros j Hj. apply He. by intros ->.
Qed.

(** Removing a later module: its predecessor takes over its [next]. *)
Lemma unlink_after p1 j p2 lk' b :
  ids = p1 ++ j :: id :: p2 -> lk' j = Some (b, n) -> lk j = Some (b, a) ->
  (forall k, k <> id -> k <> j -> lk' k = lk k) -> seg lk' h (p1 ++ j :: p2) 0.
Proof using Type*.
  intros E Ej Ej0 He. rewrite E in Hseg, Hnodup.
  apply seg_app in Hseg as (m & S1 & (n1 & E1 & (n2 & E2 & S2))).
  rewrite Ej0 in E1. injection E1 as <- <-. rewrite Hlk in E2. injection E2 as <-.
  apply NoDup_app in Hnodup as (_ & Hd & Hnd).
  apply NoDup_cons in Hnd as [Hj Hnd]. apply NoDup_cons in Hnd as [Hid _].
  apply seg_app. exists b. split.
  - eapply seg_ext; [|exact S1]. intros k Hk. apply He; intros ->; apply (Hd _ Hk).
    + right. by left.
    + by left.
  - exists n. split; [done|]. eapply seg_ext; [|exact S2]. intros k Hk. apply He; intros ->.
    + done.
    + apply Hj. by right.
Qed.
End links.
End guest.

Notation module_of r id := (FixedTable.get (modules r) id).
Notation library_of r id := (FixedTable.get (libraries r) id).

(** ** The invariant *)

Definition links (r : ModuleRegistry) (id : Z) : option (Z * Z) :=
  (fun m => (info_address m, mi_next (info m))) <$> module_of r id.

Record record_ok (a : SystemMemory) (id : Z) (m : ModuleRecord) : Prop := {
  rec_id : mr_id m = id /\ mi_id (info m) = id;
  rec_address : info_address m = address (metadata_allocation m);
  rec_metadata : metadata_allocation m ∈ SystemMemory.blocks a;
  rec_size : requested_size (metadata_allocation m) = MODULE_INFO_SIZE + (Slices.len (mr_name m) + 1);
  rec_image : image_allocation m ∈ SystemMemory.blocks a;
  rec_distinct : metadata_allocation m <> image_allocation m;
  rec_flags : mi_new_flags (info m) = new_flags (mr_state m);
}.

Definition owned (m : ModuleRecord) (b : Allocation) : Prop :=
  b = metadata_allocation m \/ b = image_allocation m.

Record library_ok (l : ExportRegistration) : Prop := {
  lib_name : validate_library_name (er_name l) = Ok tt;
  lib_functions : er_functions l <> [];
  lib_users : 0 <= users l < 2 ^ 32;
}.

(** What every operation keeps, the release and the registration of libraries included. *)
Record registry_core (r : ModuleRegistry) (a : SystemMemory) : Prop := {
  ro_memory : mem_ok a;
  ro_arena : MODULE_HEAD_ADDRESS + 4 <= arena_start a;
  ro_modules : TableFacts.wf (modules r) /\ first_id (modules r) = 1;
  ro_libraries : TableFacts.wf (libraries r);
  ro_record : forall id m, module_of r id = Some m -> record_ok a id m;
  ro_separate : forall i j m n b, module_of r i = Some m -> module_of r j = Some n ->
    owned m b -> owned n b -> i = j;
  ro_list : exists ids, NoDup ids /\ (forall id, id ∈ ids <-> is_Some (module_of r id)) /\
    seg (links r) (head r) ids 0;
  ro_library : forall id l, library_of r id = Some l -> library_ok l;
  ro_names : forall i j l k, library_of r i = Some l -> library_of r j = Some k ->
    er_name l = er_name k -> i = j;
}.

(** The handles a module has recorded are libraries of its own, as they are until
    [release_export] takes one away. *)
Definition exports_owned (r : ModuleRegistry) : Prop :=
  forall id m e, module_of r id = Some m -> e ∈ export_ids m ->
    exists l, library_of r e = Some l /\ er_module_id l = id.

Record registry_ok (r : ModuleRegistry) (a : SystemMemory) : Prop := {
  ro_core :> registry_core r a;
  ro_exports : exports_owned r;
}.

Section guest.
Context {M : Type} {HM : GuestMemory M} {HG : GuestLaws M}.
Implicit Types g : M.

(** The guest sees the head of the list, and at each module its descriptor and name. *)
Definition descriptor_seen g (m : ModuleRecord) : Prop :=
  holds g (info_address m) (encode (info m) ++ mr_name m ++ [0]).

Definition guest_ok (r : ModuleRegistry) g : Prop :=
  holds g MODULE_HEAD_ADDRESS (le_bytes4 (head r)) /\
  forall id m, module_of r id = Some m -> descriptor_seen g m.

(** *** Where things lie *)

Lemma len_encode i : Slices.len (encode i) = MODULE_INFO_SIZE.
Proof. reflexivity. Qed.

Lemma le_bytes4_eq v : le_bytes4 v = le_bytes 4 v.
Proof.
  unfold le_bytes4. cbn [le_bytes]. change (2 ^ 16) with (256 * 256). change (2 ^ 24) with (256 * 256 * 256).
  rewrite <- !Z.div_div by lia. done.
Qed.

Lemma le_bytes2_eq v : le_bytes2 v = le_bytes 2 v.
Proof. done. Qed.

Lemma block_bounds a b :
  mem_ok a -> b ∈ SystemMemory.blocks a ->
  arena_start a <= address b /\ 0 < requested_size b <= size b /\ address b + size b <= arena_end a /\
  arena_end a < 2 ^ 32.
Proof.
  intros Ha Hb. pose proof (blocks_ok a Ha) as Hall. rewrite Forall_forall in Hall.
  destruct (Hall b Hb) as [[B1 B2 B3] [_ [S1 S2] _ _]]. unfold block_end in *.
  destruct (mem_arena a Ha). lia.
Qed.

Lemma blocks_disjoint a b c :
  mem_ok a -> b ∈ SystemMemory.blocks a -> c ∈ SystemMemory.blocks a -> b <> c ->
  address b + size b <= address c \/ address c + size c <= address b.
Proof.
  intros Ha Hb Hc Hne. apply elem_of_blocks in Hb as [i Hi]; [|done].
  apply elem_of_blocks in Hc as [j Hj]; [|done].
  apply (mem_apart a Ha i j b c Hi Hj). intros ->. congruence.
Qed.

Lemma block_unique a b c :
  mem_ok a -> b ∈ SystemMemory.blocks a -> c ∈ SystemMemory.blocks a -> address b = address c -> b = c.
Proof.
  intros Ha Hb Hc E. destruct (block_bounds a b Ha Hb), (block_bounds a c Ha Hc).
  assert (Decision (b = c)) as [?|Hne] by (unfold Decision; repeat decide equality); [done|].
  destruct (blocks_disjoint a b c Ha Hb Hc Hne); lia.
Qed.

Lemma len_seen (m : ModuleRecord) :
  Slices.len (encode (info m) ++ mr_name m ++ [0]) = MODULE_INFO_SIZE + (Slices.len (mr_name m) + 1).
Proof. by rewrite !Slices.len_app, len_encode. Qed.

(** The descriptor of a module lies in its metadata block. *)
Lemma seen_inside r a id m :
  registry_core r a -> module_of r id = Some m ->
  arena_start a <= info_address m /\
  info_address m + Slices.len (encode (info m) ++ mr_name m ++ [0])
    <= address (metadata_allocation m) + size (metadata_allocation m) /\
  address (metadata_allocation m) + size (metadata_allocation m) < 2 ^ 32.
Proof.
  intros Hr Hm. destruct (ro_record r a Hr id m Hm) as [_ Ea Hb Hs _ _ _].
  destruct (block_bounds a _ (ro_memory r a Hr) Hb) as (B1 & B2 & B3 & B4).
  rewrite len_seen. lia.
Qed.

(** ** The life cycle *)

Inductive event := BeginStart | CompleteStart (result : ResidentState) | BeginStop | CompleteStop (result : Z).

(** The transitions of a module, by what happens to it. *)
Inductive transition : ModuleState -> event -> ModuleState -> Prop :=
| start_loaded : transition Loaded BeginStart Starting
| start_again s : s = Stopped \/ s = StoppedRemovable -> transition s BeginStart Starting
| stays_resident : transition Starting (CompleteStart Resident) ResidentModule
| stays_removable : transition Starting (CompleteStart Removable) RemovableModule
| leaves : transition Starting (CompleteStart NotResident) NotResidentModule
| stop_removable : transition RemovableModule BeginStop Stopping
| stopped : transition Stopping (CompleteStop 0) StoppedRemovable
| stop_refused result : result <> 0 -> transition Stopping (CompleteStop result) RemovableModule.

Definition run (e : event) (id : Z) (r : ModuleRegistry) (g : M)
    : outcome BiosError unit * (ModuleRegistry * M) :=
  match e with
  | BeginStart => let (o, s) := begin_start id r g in (omapok (fun _ => tt) o, s)
  | CompleteStart result => let (o, s) := complete_start id result r g in (omapok (fun _ => tt) o, s)
  | BeginStop => let (o, s) := begin_stop id r g in (omapok (fun _ => tt) o, s)
  | CompleteStop result => let (o, s) := complete_stop id result r g in (omapok (fun _ => tt) o, s)
  end.

Definition in_state (s : ModuleState) (m : ModuleRecord) : ModuleRecord :=
  m <| mr_state := s |> <| info := (info m) <| mi_new_flags := new_flags s |> |>.

(** A record replaced by one with the same links, blocks, name and exports. *)
Definition same_place (m m' : ModuleRecord) : Prop :=
  info_address m' = info_address m /\ metadata_allocation m' = metadata_allocation m /\
  image_allocation m' = image_allocation m /\ mr_name m' = mr_name m /\ mr_id m' = mr_id m /\
  export_ids m' = export_ids m /\ mi_id (info m') = mi_id (info m) /\
  mi_new_flags (info m') = new_flags (mr_state m').

Lemma put_record r a id m m' :
  registry_ok r a -> module_of r id = Some m -> same_place m m' ->
  mi_next (info m') = mi_next (info m) ->
  registry_ok (r <| modules := FixedTable.put id m' (modules r) |>) a.
Proof.
  intros Hr Hm (E1 & E2 & E3 & E4 & E5 & E6 & E7 & E8) En. destruct (ro_modules r a Hr) as [Hw Hf].
  assert (forall j, FixedTable.get (FixedTable.put id m' (modules r)) j =
    if decide (j = id) then Some m' else module_of r j) as Hg.
  { intros j. by eapply TableFacts.put_get. }
  pose proof (ro_record r a Hr id m Hm) as [[R1 R1'] R2 R3 R4 R5 R6 R7].
  constructor; [constructor|]; cbn [modules libraries head modify].
  - apply Hr.
  - apply Hr.
  - split; [by eapply TableFacts.put_wf|by rewrite TableFacts.put_first].
  - apply Hr.
  - intros j n. rewrite Hg. case_decide as Hd; [|apply Hr]. intros [= <-]. subst j.
    constructor; [by split; congruence|congruence|congruence|congruence|congruence|congruence|done].
  - assert (forall k z, FixedTable.get (FixedTable.put id m' (modules r)) k = Some z ->
      exists z', module_of r k = Some z' /\ forall b, owned z b -> owned z' b) as Hown.
    { intros k z. rewrite Hg. case_decide as Hd; [|by exists z]. intros [= <-]. subst k.
      exists m. split; [done|]. unfold owned. by rewrite E2, E3. }
    intros i j x y b (x' & Hx & Bx)%Hown (y' & Hy & By)%Hown Ox Oy.
    by apply (ro_separate r a Hr i j x' y' b Hx Hy); auto.
  - destruct (ro_list r a Hr) as (ids & Hn & Hi & Hs). exists ids. split_and!; [done| |].
    + intros j. rewrite Hg, Hi. case_decide; subst; naive_solver.
    + eapply seg_ext; [|exact Hs]. intros j _. unfold links. cbn [modules modify]. rewrite Hg.
      case_decide as Hd; [|done]. subst. rewrite Hm. cbn. by rewrite E1, En.
  - apply Hr.
  - apply Hr.
  - intros j n e. cbn [modules libraries modify]. rewrite Hg.
    case_decide as Hd; [|by apply (ro_exports r a Hr)]. intros [= <-]. subst.
    rewrite E6. by apply (ro_exports r a Hr).
Qed.

(** The descriptor's bytes around its state field. *)
Lemma encode_state i s :
  exists l1 l2, Slices.len l1 = 10 /\ encode i = l1 ++ le_bytes 2 (mi_new_flags i) ++ l2 /\
    encode (i <| mi_new_flags := new_flags s |>) = l1 ++ le_bytes2 (new_flags s) ++ l2.
Proof.
  exists (le_bytes 4 (mi_next i) ++ le_bytes 4 (mi_name i) ++ le_bytes 2 (mi_version i)).
  eexists. split; [reflexivity|]. split; reflexivity.
Qed.

Lemma set_state_spec r a id m s g :
  registry_ok r a -> guest_ok r g -> module_of r id = Some m ->
  match set_state id s r g with
  | (Ok _, (r', g')) => r' = r <| modules := FixedTable.put id (in_state s m) (modules r) |> /\
      registry_ok r' a /\ guest_ok r' g'
  | (Err _, (r', g')) => r' = r /\ g' = g
  | (Panic, _) => False
  end.
Proof.
  intros Hr [Hh Hd] Hm. unfold set_state. rewrite Hm.
  destruct (seen_inside r a id m Hr Hm) as (S1 & S2 & S3). rewrite len_seen in S2.
  pose proof (Slices.len_nonneg (mr_name m)) as Hname. unfold MODULE_INFO_SIZE in S2.
  assert (checked_add_u 32 (info_address m) 10 = Some (info_address m + 10)) as ->
    by (apply checked_add_u_Some; lia).
  pose proof (write_guest_spec (info_address m + 10) (le_bytes2 (new_flags s)) g) as Hw.
  unfold write_u16. destruct (write_guest _ _ g) as [[u|e|] g']; [|by subst|done].
  destruct (ro_modules r a Hr) as [Hwf _].
  split; [done|]. split; [by eapply put_record|].
  pose proof (ro_arena r a Hr) as Har.
  split; cbn [head modules modify].
  - eapply wrote_keeps; [exact Hw| |exact Hh]. left. change (Slices.len (le_bytes4 (head r))) with 4. lia.
  - intros j n. erewrite TableFacts.put_get by done. case_decide as Hj.
    + intros [= <-]. specialize (Hd id m Hm). unfold descriptor_seen in *.
      destruct (encode_state (info m) s) as (l1 & l2 & L1 & Ea & Eb). rewrite Ea in Hd.
      enough (holds g' (info_address m) ((l1 ++ le_bytes2 (new_flags s) ++ l2) ++ mr_name m ++ [0])) as Hg'
        by (rewrite <- Eb in Hg'; exact Hg').
      rewrite <- !app_assoc in *. rewrite holds_app in Hd |- *. destruct Hd as [D1 D2]. split.
      { eapply wrote_keeps; [exact Hw|lia|exact D1]. }
      rewrite holds_app in D2 |- *. destruct D2 as [_ D2]. rewrite L1 in *. split.
      { by eapply wrote_holds. }
      eapply wrote_keeps; [exact Hw| |exact D2]. right. reflexivity.
    + intros Hn. specialize (Hd j n Hn).
      destruct (ro_record r a Hr id m Hm) as [_ R2 R3 R4 _ _ _].
      destruct (ro_record r a Hr j n Hn) as [_ T2 T3 T4 _ _ _].
      destruct (seen_inside r a j n Hr Hn) as (U1 & U2 & U3).
      eapply wrote_keeps; [exact Hw| |exact Hd]. change (Slices.len (le_bytes2 _)) with 2.
      destruct (blocks_disjoint a (metadata_allocation m) (metadata_allocation n) (ro_memory r a Hr) R3 T3)
        as [B|B]; [|lia|lia].
      intros E. apply Hj. symmetry.
      apply (ro_separate r a Hr id j m n (metadata_allocation m) Hm Hn); [by left|left; exact E].
Qed.

Lemma moved_spec {A} (v : A) r a id m e s g :
  registry_ok r a -> guest_ok r g -> module_of r id = Some m -> transition (mr_state m) e s ->
  match moved v id s r g with
  | (Ok x, (r', g')) => x = v /\ registry_ok r' a /\ guest_ok r' g' /\
      head r' = head r /\ libraries r' = libraries r /\ transition (mr_state m) e s /\
      forall j, module_of r' j = if decide (j = id) then Some (in_state s m) else module_of r j
  | (Err _, (r', g')) => r' = r /\ g' = g
  | (Panic, _) => False
  end.
Proof.
  intros Hr Hg Hm Ht. unfold moved. pose proof (set_state_spec r a id m s g Hr Hg Hm) as Hs.
  destruct (set_state id s r g) as [[[]|x|] [r' g']]; cbn; [|done|done].
  destruct Hs as (-> & Hr' & Hg'). split_and!; try done. intros j.
  eapply TableFacts.put_get; [|exact Hm]. by destruct (ro_modules r a Hr).
Qed.

(** C23: A module lives through exactly the documented states: each call to begin or
    complete a start or a stop either moves the module along one edge of [transition] -
    changing its record and the state field of the descriptor the guest sees, and nothing
    else - or fails and changes neither the registry nor guest memory.  An invocation
    names the entry point and global pointer of the module. *)
Theorem module_lifecycle r a id e g :
  registry_ok r a -> guest_ok r g ->
  (match run e id r g with
   | (Ok _, (r', g')) => exists m s, module_of r id = Some m /\ transition (mr_state m) e s /\
       registry_ok r' a /\ guest_ok r' g' /\ head r' = head r /\ libraries r' = libraries r /\
       forall j, module_of r' j = if decide (j = id) then Some (in_state s m) else module_of r j
   | (Err _, (r', g')) => r' = r /\ g' = g
   | (Panic, _) => False
   end) /\
  (forall i s, (begin_start id r g = (Ok i, s) \/ begin_stop id r g = (Ok i, s)) ->
     exists m, module_of r id = Some m /\ i = mkModuleInvocation id (mi_entry (info m)) (mi_global_pointer (info m))).
Proof.
  intros Hr Hg. destruct (module_of r id) as [m|] eqn:Hm; cycle 1.
  { unfold begin_start, begin_stop. rewrite Hm. split; [|by intros ? ? [?|?]].
    by destruct e; cbn; unfold begin_start, complete_start, begin_stop, complete_stop; rewrite Hm. }
  assert (forall A (v : A) e s, transition (mr_state m) e s ->
    match moved v id s r g with
    | (Ok _, (r', g')) => exists m' s', Some m = Some m' /\ transition (mr_state m') e s' /\
       registry_ok r' a /\ guest_ok r' g' /\ head r' = head r /\ libraries r' = libraries r /\
       forall j, module_of r' j = if decide (j = id) then Some (in_state s' m') else module_of r j
    | (Err _, (r', g')) => r' = r /\ g' = g
    | (Panic, _) => False
    end) as Hmoved.
  { intros A v e' s Ht. pose proof (moved_spec v r a id m e' s g Hr Hg Hm Ht) as H.
    destruct (moved v id s r g) as [[x|x|] [r' g']]; [|done|done].
    exists m, s. split_and!; try done; apply H. }
  split.
  - assert (forall A B (f : A -> B) (o : outcome BiosError A * (ModuleRegistry * M)) Q,
      match o with (Ok _, (r', g')) => Q r' g' | (Err _, (r', g')) => r' = r /\ g' = g | (Panic, _) => False end ->
      match (let (o, s) := o in (omapok f o, s)) with
      | (Ok _, (r', g')) => Q r' g' | (Err _, (r', g')) => r' = r /\ g' = g | (Panic, _) => False end) as Hmap.
    { by intros A B f [[x|x|] [r' g']] Q. }
    destruct e as [|result| |result]; cbn [run]; apply Hmap;
      unfold begin_start, complete_start, begin_stop, complete_stop; rewrite Hm;
      destruct (mr_state m) eqn:Es; try done.
    4: by destruct result; [done|apply Hmoved; constructor..].
    4: apply Hmoved; constructor.
    4: destruct (Z.eqb_spec result 0) as [->|Hne]; apply Hmoved; by constructor.
    all: apply Hmoved; constructor; auto.
  - unfold begin_start, begin_stop, moved. rewrite Hm. intros i s.
    destruct (mr_state m); intros [E|E]; try done; exists m; (split; [done|]);
      destruct (set_state _ _ _ _) as [[u|x|] rg]; try done; by injection E as <- _.
Qed.

(** ** Export libraries *)

Definition registration (id : Z) (e : ExportLibrary) : ExportRegistration :=
  mkExportRegistration id (ex_name e) (ex_version e) (ex_mode e) (ex_table_address e) (functions e) 0.

Lemma insert_len {T N} (v : T) (t : FixedTable T N) id t' :
  FixedTable.insert v t = (Ok id, t') -> len t' = len t + 1.
Proof.
  unfold FixedTable.insert, FixedTable.insert_at. destruct (FixedTable.next_id t); [|done].
  destruct (FixedTable.index t z) as [i|]; [|done].
  destruct (entries t !! i) as [[w|]|]; try done. intros E. by injection E as _ <-.
Qed.

(** What [validate_each] has checked. *)
Record fresh_exports (r : ModuleRegistry) (es : list ExportLibrary) : Prop := {
  fe_valid : Forall (fun e => validate_library_name (ex_name e) = Ok tt /\ functions e <> []) es;
  fe_names : NoDup (map ex_name es);
  fe_new : forall e i l, e ∈ es -> library_of r i = Some l -> er_name l <> ex_name e;
}.

Lemma validate_each_spec r earlier es :
  TableFacts.wf (libraries r) ->
  safely (fun _ => fresh_exports r es /\ forall e, e ∈ es -> ex_name e ∉ earlier) (validate_each r earlier es).
Proof.
  intros Hw. revert earlier. induction es as [|e es IH]; intros earlier; cbn [validate_each].
  { split; [|by intros e ?%elem_of_nil]. constructor; [constructor|constructor|]. by intros e i l ?%elem_of_nil. }
  destruct (validate_library_name (ex_name e)) as [[]|x|] eqn:Ev; cbn [obind]; [|done|].
  2: { unfold validate_library_name in Ev. by case_match. }
  case_bool_decide as Ef; [done|]. destruct (_ || _) eqn:Ed; [done|].
  apply orb_false_iff in Ed as [Ed1%bool_decide_eq_false Ed2%bool_decide_eq_false].
  eapply safely_mono; [apply IH|]. intros _ [[F1 F2 F3] Fe]. split.
  - split.
    + by constructor.
    + cbn. constructor; [|done]. intros (e' & E & Hin)%list_elem_of_fmap.
      apply (Fe e' Hin). apply elem_of_app. right. rewrite <- E. by left.
    + intros e' i l [->|He]%elem_of_cons Hl E; [|by apply (F3 e' i l)].
      apply Ed1. apply Exists_exists. exists (i, l). split; [by apply TableFacts.elem_of_iter|done].
  - intros e' [->|He]%elem_of_cons; [done|]. intros Hin. apply (Fe e' He). apply elem_of_app. by left.
Qed.

Lemma validate_exports_spec r es :
  TableFacts.wf (libraries r) ->
  safely (fun _ => fresh_exports r es /\ len (libraries r) + Z.of_nat (length es) <= Z.of_nat MAX_LIBRARIES)
    (validate_exports es r).
Proof.
  intros Hw. unfold validate_exports.
  assert (len (libraries r) <= Z.of_nat MAX_LIBRARIES) as Hle.
  { rewrite (TableFacts.wf_len _ Hw). rewrite <- (TableFacts.wf_length _ Hw) at 2.
    apply inj_le. unfold TableFacts.occupied. clear. induction (entries (libraries r)) as [|[x|] l IH]; cbn; lia. }
  unfold checked_sub_u. rewrite (proj2 (Z.leb_le _ _)) by done. cbn [expect obind].
  destruct (Z.ltb_spec (Z.of_nat MAX_LIBRARIES - len (libraries r)) (Z.of_nat (length es))); [done|].
  eapply safely_mono; [by apply validate_each_spec|]. intros _ [Hf _]. split; [done|lia].
Qed.

(** Validated exports are all inserted, at free identifiers. *)
Lemma insert_exports_spec mid es ids r :
  TableFacts.wf (libraries r) ->
  len (libraries r) + Z.of_nat (length es) <= Z.of_nat MAX_LIBRARIES ->
  exists new t, insert_exports mid es ids r = (Ok (ids ++ new), r <| libraries := t |>) /\
    TableFacts.wf t /\ NoDup new /\
    Forall2 (fun i e => FixedTable.get t i = Some (registration mid e)) new es /\
    (forall i, i ∈ new -> library_of r i = None) /\
    (forall i, i ∉ new -> FixedTable.get t i = library_of r i).
Proof.
  revert ids r. induction es as [|e es IH]; intros ids r Hw Hl; cbn [insert_exports].
  { exists [], (libraries r). rewrite app_nil_r. split_and!;
      [by destruct r|done|by apply NoDup_nil|by apply Forall2_nil|by intros i ?%elem_of_nil|done]. }
  unfold insert_export. fold (registration mid e).
  pose proof (TableFacts.insert_spec (registration mid e) (libraries r) Hw) as Hi.
  destruct (FixedTable.insert _ _) as [[id|x|] t] eqn:Ei; [| |done].
  2: { destruct Hi as (_ & _ & Hf). cbn [length] in Hl. lia. }
  destruct Hi as (Hnone & Hw1 & _ & _ & Hget). apply insert_len in Ei.
  destruct (IH (ids ++ [id]) (r <| libraries := t |>)) as (new & t2 & E & Hw2 & Hnd & Hf & Hfree & Hkeep);
    [done|cbn [libraries modify]; cbn [length] in Hl; lia|]. cbn [libraries modify] in *.
  assert (id ∉ new) as Hid.
  { intros Hin%Hfree. rewrite Hget, decide_True in Hin by done. done. }
  exists (id :: new), t2. rewrite <- app_assoc in E. split_and!; [exact E|done|by constructor| | |].
  - constructor; [|done]. rewrite Hkeep by done. rewrite Hget. by rewrite decide_True.
  - intros i [->|Hin]%elem_of_cons; [done|]. specialize (Hfree i Hin). rewrite Hget in Hfree.
    by case_decide.
  - intros i Hin. rewrite Hkeep; [|by intros ?; apply Hin; right]. rewrite Hget, decide_False; [done|].
    intros ->. apply Hin. by left.
Qed.
End guest.
