(* ===== verification/IopLoadSpec.v ===== *)
(** * Loading and unloading IOP modules

    [load] publishes a module completely or gives every block and identifier back;
    [unload] takes a module out of the tables, the blocks and the guest's list. *)

From S2P Require Import Prelude Records MachineInt Buffer Slices.
From S2P Require Import Irx IrxFacts IrxLoadFacts.
From S2P Require Import IopBase IopDispatch IopAllocator IopAllocatorFacts.
From S2P Require Import IopModules IopModulesSpec.
From S2P Require Irx.
Import SysmemFacts Placement.
Import ModuleRegistry.

(** ** Blocks *)

Definition same_blocks (a a' : SystemMemory) : Prop :=
  arena_start a' = arena_start a /\ forall b, b ∈ SystemMemory.blocks a' <-> b ∈ SystemMemory.blocks a.

Lemma free_block b a :
  mem_ok a -> b ∈ SystemMemory.blocks a ->
  exists a', SystemMemory.free (address b) a = (Ok b, a') /\ mem_ok a' /\ arena_start a' = arena_start a /\
    forall c, c ∈ SystemMemory.blocks a' <-> c ∈ SystemMemory.blocks a /\ c <> b.
Proof.
  intros Ha Hb. pose proof (free_contract (address b) a Ha) as Hf.
  destruct (SystemMemory.free (address b) a) as [[c|e|] a']; [| |done].
  - destruct Hf as (Ha' & Hr & Hc & Ec & Hbl). assert (c = b) as -> by exact (block_unique a c b Ha Hc Hb Ec).
    exists a'. unfold SystemMemory.range in Hr. split_and!; try done. congruence.
  - destruct Hf as (_ & _ & Hno). by destruct (Hno b Hb).
Qed.

Lemma give_back_spec {A} bs error a :
  mem_ok a -> NoDup bs -> Forall (fun b => b ∈ SystemMemory.blocks a) bs ->
  exists a', give_back bs error a = ((Err error : outcome BiosError A), a') /\ mem_ok a' /\
    arena_start a' = arena_start a /\
    forall c, c ∈ SystemMemory.blocks a' <-> c ∈ SystemMemory.blocks a /\ c ∉ bs.
Proof.
  revert a. induction bs as [|b bs IH]; intros a Ha Hn Hb; cbn [give_back].
  { exists a. split_and!; try done. intros c. split; [|tauto]. intros Hc. split; [done|by intros ?%elem_of_nil]. }
  apply NoDup_cons in Hn as [Hnb Hn]. apply Forall_cons in Hb as [Hb Hbs].
  destruct (free_block b a Ha Hb) as (a1 & -> & Ha1 & Hr1 & Hb1).
  destruct (IH a1) as (a2 & E & Ha2 & Hr2 & Hb2); [done|done| |].
  { rewrite Forall_forall in Hbs |- *. intros c Hc. apply Hb1. split; [by apply Hbs|]. by intros ->. }
  exists a2. split_and!; [exact E|done|congruence|]. intros c. rewrite Hb2, Hb1, not_elem_of_cons. tauto.
Qed.

(** The registry only needs the blocks it owns. *)
Lemma registry_ok_blocks r a a' :
  registry_ok r a -> mem_ok a' -> arena_start a' = arena_start a ->
  (forall id m b, FixedTable.get (modules r) id = Some m -> owned m b -> b ∈ SystemMemory.blocks a') ->
  registry_ok r a'.
Proof.
  intros Hr Ha' Es Hb. constructor; [|apply Hr].
  constructor; try apply Hr; [done|rewrite Es; apply Hr|].
  intros id m Hm. destruct (ro_record r a Hr id m Hm) as [R1 R2 R3 R4 R5 R6 R7].
  constructor; try done; apply (Hb id m); try done; [by left|by right].
Qed.

Lemma owned_in r a id m b :
  registry_core r a -> FixedTable.get (modules r) id = Some m -> owned m b -> b ∈ SystemMemory.blocks a.
Proof. intros Hr Hm [->| ->]; by destruct (ro_record r a Hr id m Hm). Qed.

Section guest.
Context {M : Type} {HM : GuestMemory M} {HG : GuestLaws M}.
Implicit Types g : M.

(** Blocks [a] that extend the blocks [a0] of the registry. *)
Definition extends (a0 a : SystemMemory) : Prop :=
  mem_ok a /\ arena_start a = arena_start a0 /\
  forall b, b ∈ SystemMemory.blocks a0 -> b ∈ SystemMemory.blocks a.

(** Writing inside a fresh block changes nothing the guest's list uses. *)
Lemma write_fresh r a0 a b l bs g g' :
  registry_ok r a0 -> extends a0 a -> b ∈ SystemMemory.blocks a -> b ∉ SystemMemory.blocks a0 ->
  address b <= l -> l + Slices.len bs <= address b + size b -> wrote l bs g g' ->
  guest_ok r g -> guest_ok r g'.
Proof.
  intros Hr (Ha & Es & Hsub) Hb Hnb H0 H1 Hw [Hh Hd].
  destruct (block_bounds a b Ha Hb) as (B1 & _). pose proof (ro_arena r a0 Hr) as Har.
  split.
  - eapply wrote_keeps; [exact Hw| |exact Hh]. left.
    change (Slices.len (le_bytes4 (head r))) with 4. lia.
  - intros id m Hm. eapply wrote_keeps; [exact Hw| |by apply (Hd id)].
    destruct (seen_inside r a0 id m Hr Hm) as (S1 & S2 & _).
    destruct (ro_record r a0 Hr id m Hm) as [_ R2 R3 _ _ _ _].
    destruct (blocks_disjoint a b (metadata_allocation m) Ha Hb (Hsub _ R3)) as [D|D];
      [by intros ->|lia|lia].
Qed.

(** ** Adding a module *)

Lemma insert_at_head {T N} (v : T) (t : FixedTable T N) id :
  TableFacts.wf t -> FixedTable.next_id t = Some id ->
  exists t', FixedTable.insert_at id v t = (Ok tt, t') /\ TableFacts.wf t' /\ first_id t' = first_id t /\
    FixedTable.get t id = None /\ first_id t <= id < first_id t + Z.of_nat N /\
    forall j, FixedTable.get t' j = if decide (j = id) then Some v else FixedTable.get t j.
Proof.
  intros Hw Hn. destruct (TableFacts.insert_next v t id Hw Hn) as [t' E].
  pose proof (TableFacts.insert_spec v t Hw) as Hs. rewrite E in Hs.
  destruct Hs as (H1 & H2 & H3 & H4 & H5). exists t'. split_and!; try done; try lia.
  unfold FixedTable.insert in E. rewrite Hn in E.
  destruct (FixedTable.insert_at id v t) as [[[]|x|] t1]; [|done|done]. by injection E as <-.
Qed.

Lemma add_module r a0 a id m es tm tl :
  registry_ok r a0 -> extends a0 a -> record_ok a id m -> mi_next (info m) = head r ->
  (forall b, owned m b -> b ∉ SystemMemory.blocks a0) ->
  FixedTable.get (modules r) id = None -> TableFacts.wf tm -> first_id tm = 1 ->
  (forall j, FixedTable.get tm j = if decide (j = id) then Some m else FixedTable.get (modules r) j) ->
  fresh_exports r es -> TableFacts.wf tl -> NoDup (export_ids m) ->
  Forall2 (fun i e => FixedTable.get tl i = Some (registration id e)) (export_ids m) es ->
  (forall i, i ∈ export_ids m -> FixedTable.get (libraries r) i = None) ->
  (forall i, i ∉ export_ids m -> FixedTable.get tl i = FixedTable.get (libraries r) i) ->
  registry_ok (mkModuleRegistry tm tl (info_address m)) a.
Proof.
  intros Hr (Ha & Es & Hsub) Hrec Hnext Hfresh Hnone Hwm Hf Hgm [F1 F2 F3] Hwl Hnd Hl2 Hlfree Hlkeep.
  assert (forall i l, FixedTable.get tl i = Some l ->
    (exists p e, export_ids m !! p = Some i /\ es !! p = Some e /\ l = registration id e) \/
    FixedTable.get (libraries r) i = Some l) as Hlib.
  { intros i l Hl. destruct (decide (i ∈ export_ids m)) as [Hin|Hin]; [left|right; by rewrite <- Hlkeep].
    apply list_elem_of_lookup in Hin as [p Hp]. destruct (Forall2_lookup_l _ _ _ _ _ Hl2 Hp) as (e & He & E).
    exists p, e. split_and!; try done. congruence. }
  constructor; [constructor|]; cbn [modules libraries head].
  - done.
  - rewrite Es. apply Hr.
  - done.
  - done.
  - intros j n. rewrite Hgm. case_decide as Hd; [by intros [= <-]; subst|].
    intros Hn. destruct (ro_record r a0 Hr j n Hn) as [R1 R2 R3 R4 R5 R6 R7]. constructor; auto.
  - intros i j x y b. rewrite !Hgm. intros Hx Hy Ox Oy.
    destruct (decide (i = id)) as [->|], (decide (j = id)) as [->|]; [done|..].
    + injection Hx as <-. by destruct (Hfresh b Ox (owned_in r a0 j y b Hr Hy Oy)).
    + injection Hy as <-. by destruct (Hfresh b Oy (owned_in r a0 i x b Hr Hx Ox)).
    + by eapply (ro_separate r a0 Hr).
  - destruct (ro_list r a0 Hr) as (ids & Hn & Hi & Hs). exists (id :: ids).
    assert (id ∉ ids) as Hid by (rewrite Hi, Hnone; by intros [? ?]).
    split_and!; [by constructor| |].
    + intros j. rewrite elem_of_cons, Hi, Hgm. case_decide; [|naive_solver]. subst. naive_solver.
    + exists (head r). split.
      { unfold links. cbn [modules]. rewrite Hgm, decide_True by done. cbn. by rewrite Hnext. }
      eapply seg_ext; [|exact Hs]. intros j Hj. unfold links. cbn [modules]. rewrite Hgm, decide_False; [done|].
      by intros ->.
  - intros i l [(p & e & _ & He & ->)|Hl]%Hlib; [|by apply (ro_library r a0 Hr i)].
    destruct (Forall_lookup_1 _ _ _ _ F1 He). constructor; cbn; [done|done|lia].
  - intros i j l k Hl Hk E. apply Hlib in Hl as [(p & e & Hp & He & ->)|Hl];
      apply Hlib in Hk as [(q & e' & Hq & He' & ->)|Hk]; cbn in E.
    + assert (p = q) as ->; [|congruence]. eapply NoDup_lookup; [exact F2| |].
      * rewrite list_lookup_fmap, He. reflexivity.
      * rewrite list_lookup_fmap, He'. cbn. by rewrite E.
    + destruct (F3 e j k); [by eapply list_elem_of_lookup_2|done|done].
    + destruct (F3 e' i l); [by eapply list_elem_of_lookup_2|done|done].
    + by eapply (ro_names r a0 Hr).
  - intros j n e. cbn [modules libraries]. rewrite Hgm. case_decide as Hd.
    + intros [= <-] He. subst. apply list_elem_of_lookup in He as [p Hp].
      destruct (Forall2_lookup_l _ _ _ _ _ Hl2 Hp) as (x & _ & E). by eexists.
    + intros Hn He. destruct (ro_exports r a0 Hr j n e Hn He) as (l & Hl & El).
      exists l. split; [|done]. rewrite Hlkeep; [done|]. intros Hin%Hlfree. congruence.
Qed.

(** ** Loading *)

(** A loaded module: its record leads the list, its image is in guest memory, and its
    exports are registered. *)
Record module_loaded (irx : IrxModule) (id : Z) (r r' : ModuleRegistry) (a : SystemMemory) (g' : M)
    (m : ModuleRecord) (img : list Z) (lm : LoadedModule) : Prop := {
  ml_record : FixedTable.get (modules r') id = Some m;
  ml_new : FixedTable.get (modules r) id = None /\ (forall b, owned m b -> b ∉ SystemMemory.blocks a);
  ml_others : forall j, j <> id -> FixedTable.get (modules r') j = FixedTable.get (modules r) j;
  ml_head : head r' = info_address m /\ mi_next (info m) = head r;
  ml_state : mr_state m = Loaded /\ mr_name m = md_name (description irx);
  ml_image : let base := address (image_allocation m) in
    loaded irx base (mkMemoryRange base (base + Slices.len (image irx))) img lm /\ holds g' base img;
  ml_entry : mi_entry (info m) = lm_entry lm /\ mi_global_pointer (info m) = lm_global_pointer lm /\
    mr_imports m = imports lm;
  ml_exports : Forall2 (fun i e => FixedTable.get (libraries r') i = Some (registration id e))
    (export_ids m) (exports lm);
  ml_libraries : forall i, i ∉ export_ids m ->
    FixedTable.get (libraries r') i = FixedTable.get (libraries r) i;
}.

(** The host state an error leaves. *)
Definition rolled_back (r : ModuleRegistry) (a : SystemMemory) (s : ModuleRegistry * SystemMemory * M) : Prop :=
  s.1.1 = r /\ mem_ok s.1.2 /\ same_blocks a s.1.2 /\ guest_ok r s.2.

Section load_at.
Context (irx : IrxModule) (input : list Z) (Hirx : well_formed input irx)
  (Hlim : limits_ok (m_limits irx)) (r : ModuleRegistry) (a0 a : SystemMemory) (id : Z)
  (metadata img_block : Allocation)
  (Hr : registry_ok r a0) (Hext : extends a0 a)
  (Hnext : FixedTable.next_id (modules r) = Some id)
  (Hblocks : forall b, b ∈ SystemMemory.blocks a <-> b = metadata \/ b = img_block \/ b ∈ SystemMemory.blocks a0)
  (Hmeta : metadata ∉ SystemMemory.blocks a0) (Himg : img_block ∉ SystemMemory.blocks a0)
  (Hne : metadata <> img_block)
  (Hmsize : requested_size metadata = MODULE_INFO_SIZE + (Slices.len (md_name (description irx)) + 1))
  (Hisize : requested_size img_block = Slices.len (image irx)).

Let Hmin : metadata ∈ SystemMemory.blocks a.
Proof. apply Hblocks. by left. Qed.
Let Hiin : img_block ∈ SystemMemory.blocks a.
Proof. apply Hblocks. right. by left. Qed.

(** Giving both blocks back restores the allocator. *)
Lemma abandon_both {A} error g :
  guest_ok r g ->
  exists s, abandon [img_block; metadata] error r a g = ((Err error : outcome BiosError A), s) /\
    rolled_back r a0 s.
Proof using Type*.
  intros Hg. destruct Hext as (Ha & Es & Hsub).
  assert (NoDup [img_block; metadata]) as Hnd.
  { apply NoDup_cons. split; [by intros [E|?%elem_of_nil]%elem_of_cons|apply NoDup_singleton]. }
  assert (Forall (fun b => b ∈ SystemMemory.blocks a) [img_block; metadata]) as Hall.
  { apply Forall_cons; split; [exact Hiin|]. apply Forall_cons; split; [exact Hmin|constructor]. }
  unfold abandon. destruct (give_back_spec (A := A) [img_block; metadata] error a Ha Hnd Hall)
    as (a' & -> & Ha' & Er & Hb).
  eexists. split; [reflexivity|]. split_and!; cbn; [done|done| |done].
  split; [congruence|]. intros b. rewrite Hb, Hblocks, !not_elem_of_cons. split.
  - intros [[->|[->|?]] (? & ? & _)]; done.
  - intros Hin. split; [by right; right|]. split_and!; [by intros ->|by intros ->|apply not_elem_of_nil].
Qed.

(** The guest writes of the descriptor: a failure leaves the guest's list alone. *)
Lemma write_descriptor_spec i g :
  guest_ok r g ->
  match write_descriptor i (md_name (description irx)) (address metadata)
          (address metadata + MODULE_INFO_SIZE) g with
  | (Ok _, g') => exists g2, guest_ok r g2 /\ wrote MODULE_HEAD_ADDRESS (le_bytes4 (address metadata)) g2 g' /\
      holds g2 (address metadata) (encode i ++ md_name (description irx) ++ [0]) /\
      (forall l bs, l + Slices.len bs <= address metadata \/ address metadata + size metadata <= l ->
         holds g l bs -> holds g2 l bs)
  | (Err _, g') => guest_ok r g'
  | (Panic, _) => False
  end.
Proof using Type*.
  intros Hg. destruct Hext as (Ha & Es & Hsub).
  destruct (block_bounds a metadata Ha Hmin) as (B1 & B2 & B3 & B4). rewrite Hmsize in B2.
  pose proof (Slices.len_nonneg (md_name (description irx))) as Hname.
  assert (Slices.len (md_name (description irx) ++ [0]) = Slices.len (md_name (description irx)) + 1) as Ln
    by by rewrite Slices.len_app.
  unfold write_descriptor. pose proof (write_guest_spec (address metadata) (encode i) g) as W1.
  destruct (write_guest _ _ g) as [[u1|e|] g1]; [|by subst|done].
  assert (guest_ok r g1) as Hg1.
  { apply (write_fresh r a0 a metadata (address metadata) (encode i) g g1); try done; rewrite ?len_encode; lia. }
  pose proof (write_guest_spec (address metadata + MODULE_INFO_SIZE) (md_name (description irx) ++ [0]) g1) as W2.
  destruct (write_guest _ _ g1) as [[u2|e|] g2]; [|by subst|done].
  assert (guest_ok r g2) as Hg2.
  { apply (write_fresh r a0 a metadata _ _ g1 g2 Hr Hext Hmin Hmeta) in W2; try done;
      rewrite ?Ln; unfold MODULE_INFO_SIZE in *; lia. }
  pose proof (write_u32_spec MODULE_HEAD_ADDRESS (address metadata) g2) as W3.
  destruct (write_u32 _ _ g2) as [[u3|e|] g3]; [|by subst|done].
  exists g2. split_and!; [done|done| |].
  - rewrite holds_app, len_encode. split; [|by eapply wrote_holds].
    eapply wrote_keeps; [exact W2|rewrite len_encode; lia|by eapply wrote_holds].
  - intros l bs Hd Hh. eapply wrote_keeps; [exact W2|rewrite Ln; unfold MODULE_INFO_SIZE in *; lia|].
    eapply wrote_keeps; [exact W1|rewrite len_encode; unfold MODULE_INFO_SIZE in *; lia|done].
Qed.

Lemma load_at_spec g :
  guest_ok r g ->
  match load_at irx id metadata img_block r a g with
  | (Ok i, (r', a', g')) => i = id /\ a' = a /\ registry_ok r' a /\ guest_ok r' g' /\
      exists m img lm, module_loaded irx id r r' a0 g' m img lm /\
        metadata_allocation m = metadata /\ image_allocation m = img_block
  | (Err _, s) => rolled_back r a0 s
  | (Panic, _) => False
  end.
Proof using Type*.
  intros Hg. destruct Hext as (Ha & Es & Hsub).
  destruct (block_bounds a metadata Ha Hmin) as (B1 & B2 & B3 & B4).
  destruct (block_bounds a img_block Ha Hiin) as (I1 & I2 & I3 & _). rewrite Hisize in I2.
  pose proof (ro_arena r a0 Hr) as Har. unfold MODULE_HEAD_ADDRESS, CONTROL_BLOCK_ADDRESS in Har.
  assert (forall A e g, guest_ok r g ->
    match (abandon [img_block; metadata] e r a g : outcome BiosError A * _) with
    | (Ok _, _) => False | (Err _, s) => rolled_back r a0 s | (Panic, _) => False end) as Hab.
  { intros A e g' Hg'. by destruct (abandon_both (A := A) e g' Hg') as (s & -> & Hs). }
  assert (forall e g, guest_ok r g ->
    match (abandon [img_block; metadata] e r a g : outcome BiosError Z * _) with
    | (Ok i, (r', a', g')) => i = id /\ a' = a /\ registry_ok r' a /\ guest_ok r' g' /\
        exists m img lm, module_loaded irx id r r' a0 g' m img lm /\
          metadata_allocation m = metadata /\ image_allocation m = img_block
    | (Err _, s) => rolled_back r a0 s | (Panic, _) => False end) as Habandon.
  { intros e g' Hg'. specialize (Hab Z e g' Hg').
    by destruct (abandon [img_block; metadata] e r a g') as [[x|x|] [[? ?] ?]]. }
  clear Hab. unfold load_at.
  assert (checked_add_u 32 (address img_block) (requested_size img_block) =
    Some (address img_block + Slices.len (image irx))) as ->
    by (rewrite Hisize; apply checked_add_u_Some; lia).
  set (range := mkMemoryRange _ _). unfold IrxModule.load_into. cbn [target_range guest_target gt_range].
  pose proof (stage_ok input irx Hirx Hlim (address img_block) range ltac:(lia)) as Hst.
  destruct (IrxModule.stage irx (address img_block) range) as [[img lm]|e|]; [|by apply Habandon|done].
  cbn [safely fst snd] in *. destruct (ld_shape _ _ _ _ _ Hst) as [Limg _].
  cbn [write_image guest_target gt_guest].
  destruct (GuestRange.contains _ _ _) eqn:Ec; cbn [negb]; [|by apply Habandon].
  pose proof (gwrite_laws (address img_block) img g Ec) as Hw.
  destruct (gwrite (address img_block) img g) as [[u|e|] g1]; cbn [map_err omapok obind gt_guest]; [| |done].
  2: { apply Habandon. by subst. }
  assert (guest_ok r g1) as Hg1 
    by (apply (write_fresh r a0 a img_block (address img_block) img g g1); try done; rewrite ?Limg; lia).
  pose proof (wrote_holds _ _ _ _ Hw) as Himage.
  pose proof (validate_exports_spec r (exports lm) (ro_libraries r a0 Hr)) as Hv.
  destruct (validate_exports (exports lm) r) as [[]|e|]; [|by apply Habandon|done].
  destruct Hv as [Hfe Hroom].
  assert (checked_add_u 32 (address metadata) MODULE_INFO_SIZE = Some (address metadata + MODULE_INFO_SIZE)) as ->.
  { apply checked_add_u_Some. unfold MODULE_INFO_SIZE in *. rewrite Hmsize in B2.
    pose proof (Slices.len_nonneg (md_name (description irx))). lia. }
  set (i := mkModuleInfo _ _ _ _ _ _ _ _ _ _ _ _ _ _).
  pose proof (write_descriptor_spec i g1 Hg1) as Hwd.
  destruct (write_descriptor _ _ _ _ g1) as [[u2|e|] g3]; [|by apply Habandon|done].
  destruct Hwd as (g2 & Hg2 & Whead & Hdesc & Hkeep).
  unfold publish. destruct (insert_exports_spec id (exports lm) [] r (ro_libraries r a0 Hr) Hroom)
    as (new & tl & -> & Hwl & Hnd & Hl2 & Hfree & Hlkeep). cbn [app].
  set (m := mkModuleRecord id _ _ Loaded _ i metadata img_block _ new).
  destruct (ro_modules r a0 Hr) as [Hwm Hfm].
  cbn [modules modify]. destruct (insert_at_head m (modules r) id Hwm Hnext)
    as (tm & -> & Hwm' & Hfm' & Hnone & _ & Hgm).
  assert (record_ok a id m) as Hrec.
  { constructor; cbn; [done|done|exact Hmin|done|exact Hiin|exact Hne|done]. }
  assert (forall b, owned m b -> b ∉ SystemMemory.blocks a0) as Hfresh by (intros b [->| ->]; done).
  change (modify head _ _) with (mkModuleRegistry tm tl (info_address m)).
  split; [done|]. split; [done|].
  assert (registry_ok (mkModuleRegistry tm tl (info_address m)) a) as Hr'.
  { apply (add_module r a0 a id m (exports lm)); try done. by rewrite Hfm'. }
  assert (forall l bs, MODULE_HEAD_ADDRESS + 4 <= l -> holds g2 l bs -> holds g3 l bs) as Hup.
  { intros l bs Hl Hh. eapply wrote_keeps; [exact Whead|right; exact Hl|exact Hh]. }
  split; [exact Hr'|]. split.
  - split; cbn [head modules]; [by eapply wrote_holds|].
    intros j n Hn. destruct (seen_inside _ a j n Hr' Hn) as (S1 & _ & _).
    rewrite Hgm in Hn. apply Hup; [unfold MODULE_HEAD_ADDRESS, CONTROL_BLOCK_ADDRESS; lia|].
    case_decide; [injection Hn as <-; exact Hdesc|by apply (proj2 Hg2 j)].
  - exists m, img, lm. split; [|done]. constructor; cbn [modules libraries head].
    + by rewrite Hgm, decide_True.
    + done.
    + intros j Hj. by rewrite Hgm, decide_False.
    + done.
    + done.
    + split; [exact Hst|]. apply Hup; [unfold MODULE_HEAD_ADDRESS, CONTROL_BLOCK_ADDRESS; cbn; lia|].
      apply Hkeep; [|exact Himage]. cbn. rewrite Limg.
      destruct (blocks_disjoint a metadata img_block Ha Hmin Hiin Hne); lia.
    + done.
    + exact Hl2.
    + exact Hlkeep.
Qed.
End load_at.

Lemma next_id_range r a id :
  registry_ok r a -> FixedTable.next_id (modules r) = Some id -> 1 <= id < 2 ^ 16.
Proof.
  intros Hr Hn. destruct (ro_modules r a Hr) as [Hw Hf].
  pose (m := mkModuleRecord 0 [] 0 Loaded 0 (mkModuleInfo 0 0 0 0 0 0 0 0 0 0 0 0 0 0)
    (mkAllocation 0 0 0 0) (mkAllocation 0 0 0 0) [] []).
  destruct (insert_at_head m (modules r) id Hw Hn) as (t & _ & _ & _ & _ & Hid & _).
  rewrite Hf in Hid. unfold MAX_MODULES in Hid. lia.
Qed.

(** Loading, with everything it promises. *)
Lemma load_spec irx input r a g :
  well_formed input irx -> limits_ok (m_limits irx) ->
  registry_ok r a -> guest_ok r g ->
  match load irx r a g with
  | (Ok id, (r', a', g')) => registry_ok r' a' /\ guest_ok r' g' /\
      exists m img lm, module_loaded irx id r r' a g' m img lm /\
        forall b, b ∈ SystemMemory.blocks a' <-> owned m b \/ b ∈ SystemMemory.blocks a
  | (Err _, s) => rolled_back r a s
  | (Panic, _) => False
  end.
Proof.
  intros Hirx Hlim Hr Hg. unfold load. pose proof (ro_memory r a Hr) as Ha.
  assert (rolled_back r a (r, a, g)) as Hsame by by split_and!.
  assert (safely (fun p => FixedTable.next_id (modules r) = Some p.1 /\
      p.2 = MODULE_INFO_SIZE + (Slices.len (md_name (description irx)) + 1) /\ in_u 32 p.2) (prepare irx r))
    as Hp.
  { unfold prepare. eapply safely_bind; [by apply safely_ok_or; intros x Hx; exact Hx|]. intros id Hid.
    eapply safely_bind; [by apply safely_ok_or; intros x Hx; exact Hx|]. intros id' [-> _]%try_from_u_Some.
    eapply (safely_bind (fun _ => True)); [unfold validate_module_name; by case_match|]. intros _ _.
    eapply safely_bind; [by apply safely_ok_or; intros x Hx; exact Hx|].
    intros n (k & [-> _]%try_from_u_Some & [-> _]%checked_add_u_Some)%bind_Some.
    eapply safely_bind; [by apply safely_ok_or; intros x Hx; exact Hx|].
    intros sz [-> Hsz]%checked_add_u_Some. cbn. split_and!; [done|done|].
    pose proof (Slices.len_nonneg (md_name (description irx))). unfold in_u, MODULE_INFO_SIZE in *. lia. }
  destruct (prepare irx r) as [[id msize]|e|]; [|done|done]. cbn in Hp.
  destruct Hp as (Hid & -> & Hms).
  unfold SystemMemory.allocate.
  pose proof (allocate_contract First (MODULE_INFO_SIZE + (Slices.len (md_name (description irx)) + 1)) 0
    SYSMEM_QUANTUM a Ha Hms ltac:(done) ltac:(done)) as H1.
  destruct (SystemMemory.allocate_aligned First _ _ _ a) as [[metadata|e|] a1]; [| |done].
  2: { destruct H1 as [-> _]. exact Hsame. }
  destruct H1 as (Ha1 & Er1 & Em & Hc1 & Hb1).
  assert (forall b, b ∈ SystemMemory.blocks a -> apart metadata b) as Hap1.
  { destruct Hc1 as [(_ & _ & _ & Hc1) _]. intros b Hb. rewrite Em.
    unfold apart, before, block_end. cbn. destruct (Hc1 b Hb); auto. }
  assert (metadata ∈ SystemMemory.blocks a1) as Hin1 by (apply Hb1; by left).
  assert (metadata ∉ SystemMemory.blocks a) as Hmeta.
  { intros Hin. specialize (Hap1 metadata Hin). destruct (block_bounds a metadata Ha Hin) as (_ & ? & _).
    unfold apart, before, block_end in Hap1. lia. }
  destruct (wf_alignment _ _ Hirx) as [Hal _]. destruct (wf_address _ _ Hirx) as [Hp0 Hp1].
  pose proof (Slices.len_nonneg (image irx)) as Hlen.
  assert (IrxModule.allocation_size irx = Slices.len (image irx)) as Hsize
    by (unfold IrxModule.allocation_size; by rewrite try_from_u_in by lia).
  rewrite Hsize. set (mode := if negb _ then Address else First). set (where_ := if negb _ then _ else 0).
  pose proof Hal as [H0%Z.ltb_lt _]%andb_true_iff. pose proof (wf_alignment_u32 _ _ Hirx) as Hal32.
  pose proof (allocate_contract mode (Slices.len (image irx)) where_ (Z.max (m_alignment irx) SYSMEM_QUANTUM) a1
    Ha1 ltac:(unfold in_u; lia) ltac:(unfold where_, in_u; destruct (negb _); lia)
    ltac:(unfold in_u, SYSMEM_QUANTUM; lia)) as H2.
  destruct (SystemMemory.allocate_aligned mode _ _ _ a1) as [[img|e|] a2]; [| |done].
  2: { destruct H2 as [-> _]. unfold abandon.
    destruct (give_back_spec (A := Z) [metadata] (Kernel_error e) a1 Ha1) as (a3 & -> & Ha3 & Er3 & Hb3);
      [apply NoDup_singleton|by apply Forall_singleton|].
    split_and!; cbn; [done|done| |done]. unfold SystemMemory.range in *. split; [congruence|].
    intros b. rewrite Hb3, Hb1, list_elem_of_singleton. split; [by intros [[->|?] ?]|].
    intros Hb. split; [by right|]. by intros ->. }
  destruct H2 as (Ha2 & Er2 & Ei & Hc2 & Hb2).
  assert (forall b, b ∈ SystemMemory.blocks a1 -> b <> img) as Himg.
  { destruct Hc2 as [(_ & _ & Hsz & Hc2) _]. intros b Hb ->. destruct (block_bounds a1 img Ha1 Hb) as (_ & ? & _).
    specialize (Hc2 img Hb). unfold block_end in Hc2.
    assert (size img = reserved (Slices.len (image irx))) by (rewrite Ei; reflexivity). lia. }
  assert (extends a a2) as Hext.
  { unfold SystemMemory.range in *. split; [done|]. split; [congruence|].
    intros b Hb. apply Hb2. right. apply Hb1. by right. }
  assert (img ∉ SystemMemory.blocks a) as Hi0.
  { intros Hin. apply (Himg img); [|done]. apply Hb1. by right. }
  assert (metadata <> img) as Hne by (intros ->; by apply (Himg img)).
  pose proof (load_at_spec irx input Hirx Hlim r a a2 id metadata img Hr Hext Hid
    ltac:(intros b; rewrite Hb2, Hb1; tauto) Hmeta Hi0 Hne
    ltac:(by rewrite Em) ltac:(by rewrite Ei) g Hg) as H.
  destruct (load_at irx id metadata img r a2 g) as [[i|e|] [[r' a'] g']]; [|done|done].
  destruct H as (-> & -> & Hr' & Hg' & m & bs & lm & Hml & E1 & E2). split_and!; [done|done|].
  exists m, bs, lm. split; [done|]. intros b. rewrite Hb2, Hb1.
  unfold owned. rewrite E1, E2. tauto.
Qed.

(** C21: Loading a module is complete or undone: on success the new module is first in the
    descriptor list, its relocated image and its descriptor are in guest memory at blocks
    that were free, its exports are registered under fresh identifiers and every other
    module and library is untouched; on any error the registry is exactly as it was, the
    allocator holds the same blocks and the guest sees the same list.  Either way the
    invariant holds and nothing panics. *)
Theorem module_load_contract irx input r a g :
  well_formed input irx -> limits_ok (m_limits irx) ->
  registry_ok r a -> guest_ok r g ->
  match load irx r a g with
  | (Ok id, (r', a', g')) => registry_ok r' a' /\ guest_ok r' g' /\
      exists m img lm, module_loaded irx id r r' a g' m img lm /\
        forall b, b ∈ SystemMemory.blocks a' <-> owned m b \/ b ∈ SystemMemory.blocks a
  | (Err _, s) => rolled_back r a s
  | (Panic, _) => False
  end.
Proof. intros. by apply load_spec with (input := input). Qed.

(** ** Unloading *)

Lemma remove_libraries_spec ids r :
  TableFacts.wf (libraries r) ->
  TableFacts.wf (libraries (remove_libraries ids r)) /\
  modules (remove_libraries ids r) = modules r /\ head (remove_libraries ids r) = head r /\
  forall i, FixedTable.get (libraries (remove_libraries ids r)) i =
    if decide (i ∈ ids) then None else FixedTable.get (libraries r) i.
Proof.
  revert r. induction ids as [|id ids IH]; intros r Hw; cbn [remove_libraries].
  { by split_and!. }
  destruct (IH (r <| libraries := (FixedTable.remove id (libraries r)).2 |>)) as (H1 & H2 & H3 & H4).
  { by apply TableFacts.remove_wf. }
  split_and!; [done|done|done|]. intros i. rewrite H4. cbn [libraries modify].
  rewrite TableFacts.remove_get by done.
  destruct (decide (i ∈ ids)) as [Hi|Hi].
  - rewrite decide_True; [done|]. by right.
  - destruct (decide (i = id)) as [->|Hne].
    + rewrite decide_True; [done|]. by left.
    + rewrite decide_False; [done|]. by intros [?|?]%elem_of_cons.
Qed.

(** A record whose [next] field alone may have changed. *)
Definition relinked (m m' : ModuleRecord) : Prop :=
  m' = m <| info := (info m) <| mi_next := mi_next (info m') |> |>.

Record module_unloaded (id : Z) (r r' : ModuleRegistry) (a a' : SystemMemory) (m : ModuleRecord) : Prop := {
  mu_record : FixedTable.get (modules r) id = Some m /\ FixedTable.get (modules r') id = None;
  mu_state : mr_state m = Loaded \/ mr_state m = NotResidentModule \/ mr_state m = StoppedRemovable;
  mu_unused : forall e l, e ∈ export_ids m -> FixedTable.get (libraries r) e = Some l -> users l = 0;
  mu_others : forall j, j <> id -> option_Forall2 relinked (FixedTable.get (modules r) j) (FixedTable.get (modules r') j);
  mu_libraries : forall i, FixedTable.get (libraries r') i =
    if decide (i ∈ export_ids m) then None else FixedTable.get (libraries r) i;
  mu_blocks : forall b, b ∈ SystemMemory.blocks a' <-> b ∈ SystemMemory.blocks a /\ ~ owned m b;
}.

Section unload.
Context (r : ModuleRegistry) (a : SystemMemory) (id : Z) (m : ModuleRecord)
  (Hr : registry_core r a) (Hm : FixedTable.get (modules r) id = Some m).

Lemma links_at j n : FixedTable.get (modules r) j = Some n -> links r j = Some (info_address n, mi_next (info n)).
Proof. unfold links. by intros ->. Qed.

Lemma links_inj i j x y z : links r i = Some (x, y) -> links r j = Some (x, z) -> i = j.
Proof using Hr.
  unfold links. intros (m1 & E1 & F1)%fmap_Some (m2 & E2 & F2)%fmap_Some.
  injection F1 as -> ->. injection F2 as A _.
  destruct (ro_record r a Hr i m1 E1) as [_ A1 B1 _ _ _ _].
  destruct (ro_record r a Hr j m2 E2) as [_ A2 B2 _ _ _ _].
  apply (ro_separate r a Hr i j m1 m2 (metadata_allocation m1) E1 E2); [by left|left].
  apply (block_unique a _ _ (ro_memory r a Hr) B1 B2). congruence.
Qed.

Lemma address_nonzero : info_address m <> 0.
Proof using Hr Hm.
  destruct (seen_inside r a id m Hr Hm) as (S1 & _). pose proof (ro_arena r a Hr) as Har.
  unfold MODULE_HEAD_ADDRESS, CONTROL_BLOCK_ADDRESS in Har. lia.
Qed.

(** The tables after the module is taken out. *)
Definition relink (pred : option (Z * ModuleRecord)) : ModuleRegistry :=
  match pred with
  | Some (pid, p) => r <| modules := FixedTable.put pid
      (p <| info := (info p) <| mi_next := mi_next (info m) |> |>) (modules r) |>
  | None => r <| head := mi_next (info m) |>
  end.

Definition pruned (pred : option (Z * ModuleRecord)) : ModuleRegistry :=
  (relink pred) <| modules := (FixedTable.remove id (modules (relink pred))).2 |>.

Definition without (pred : option (Z * ModuleRecord)) : ModuleRegistry :=
  remove_libraries (export_ids m) (pruned pred).

(** What the search for a predecessor finds. *)
Definition found (pred : option (Z * ModuleRecord)) : Prop :=
  match pred with
  | Some (pid, p) => pid <> id /\ FixedTable.get (modules r) pid = Some p /\ mi_next (info p) = info_address m
  | None => head r = info_address m /\
      forall j n, j <> id -> FixedTable.get (modules r) j = Some n -> mi_next (info n) <> info_address m
  end.

Lemma predecessor_found : found (predecessor id (info_address m) r).
Proof using Hr Hm.
  destruct (ro_modules r a Hr) as [Hw _]. unfold predecessor.
  destruct (list_find _ _) as [[k [pid p]]|] eqn:E; cbn.
  - apply list_find_Some in E as (Hk & [Hne Hn] & _). cbn in *.
    apply list_elem_of_lookup_2 in Hk. apply TableFacts.elem_of_iter in Hk; done.
  - apply list_find_None in E. rewrite Forall_forall in E.
    assert (forall j n, j <> id -> FixedTable.get (modules r) j = Some n -> mi_next (info n) <> info_address m) as Hno.
    { intros j n Hj Hn Hx. apply (E (j, n)); [by apply TableFacts.elem_of_iter|done]. }
    split; [|done]. destruct (ro_list r a Hr) as (ids & Hnd & Hi & Hs).
    destruct (nothing_before (links r) (head r) ids id (info_address m) (mi_next (info m)) Hs Hnd
      ltac:(apply Hi; by eexists) (links_at id m Hm)) as (p2 & _ & Eh); [apply address_nonzero|apply links_inj| |done].
    intros j b Hj Hne Hlk. unfold links in Hlk. apply fmap_Some in Hlk as (n & Hn & E2). injection E2 as _ E2.
    by apply (Hno j n Hne Hn).
Qed.

Lemma relink_tables pred :
  found pred ->
  TableFacts.wf (modules (relink pred)) /\ first_id (modules (relink pred)) = 1 /\
  libraries (relink pred) = libraries r /\
  head (relink pred) = (match pred with Some _ => head r | None => mi_next (info m) end) /\
  forall j, FixedTable.get (modules (relink pred)) j =
    match pred with
    | Some (pid, p) => if decide (j = pid)
        then Some (p <| info := (info p) <| mi_next := mi_next (info m) |> |>)
        else FixedTable.get (modules r) j
    | None => FixedTable.get (modules r) j
    end.
Proof using Hr.
  destruct (ro_modules r a Hr) as [Hw Hf]. destruct pred as [[pid p]|]; cbn [found relink].
  - intros (_ & Hp & _). cbn [modules libraries head modify]. split_and!; try done.
    + by eapply TableFacts.put_wf.
    + by rewrite TableFacts.put_first.
    + intros j. by eapply TableFacts.put_get.
  - done.
Qed.

Lemma without_tables pred :
  found pred ->
  TableFacts.wf (modules (without pred)) /\ first_id (modules (without pred)) = 1 /\
  TableFacts.wf (libraries (without pred)) /\
  head (without pred) = head (relink pred) /\
  (forall i, FixedTable.get (libraries (without pred)) i =
    if decide (i ∈ export_ids m) then None else FixedTable.get (libraries r) i) /\
  forall j, FixedTable.get (modules (without pred)) j =
    if decide (j = id) then None else FixedTable.get (modules (relink pred)) j.
Proof using Hr.
  intros Hf. destruct (relink_tables pred Hf) as (Hw & H1 & El & _).
  destruct (remove_libraries_spec (export_ids m) (pruned pred)) as (W & Em & Eh & Hl).
  { cbn [pruned libraries modify]. rewrite El. apply Hr. }
  unfold without. rewrite Em, Eh. unfold pruned in *. cbn [modules libraries head modify] in *.
  split_and!; [by apply TableFacts.remove_wf|by rewrite TableFacts.remove_first|done|done| |].
  - intros i. by rewrite Hl, El.
  - intros j. by apply TableFacts.remove_get.
Qed.

(** The records that stay, each as it was but perhaps for its [next]. *)
Lemma without_record pred j n' :
  found pred -> FixedTable.get (modules (without pred)) j = Some n' ->
  j <> id /\ exists n, FixedTable.get (modules r) j = Some n /\ relinked n n' /\
    info_address n' = info_address n.
Proof using Hr.
  intros Hf. destruct (without_tables pred Hf) as (_ & _ & _ & _ & _ & Hg). rewrite Hg.
  case_decide as Hj; [done|]. intros Hn. split; [done|].
  destruct (relink_tables pred Hf) as (_ & _ & _ & _ & Hk). rewrite Hk in Hn.
  destruct pred as [[pid p]|]; [case_decide as Hd|].
  - injection Hn as <-. subst j. exists p. destruct Hf as (_ & Hp & _). done.
  - exists n'. split_and!; [done| |done]. unfold relinked. by destruct n' as [? ? ? ? ? [] ? ? ? ?].
  - exists n'. split_and!; [done| |done]. unfold relinked. by destruct n' as [? ? ? ? ? [] ? ? ? ?].
Qed.

Lemma without_list pred :
  found pred ->
  exists ids, NoDup ids /\ (forall j, j ∈ ids <-> is_Some (FixedTable.get (modules (without pred)) j)) /\
    seg (links (without pred)) (head (without pred)) ids 0.
Proof using Hr Hm.
  intros Hf. destruct (without_tables pred Hf) as (_ & _ & _ & Eh & _ & Hg).
  destruct (relink_tables pred Hf) as (_ & _ & _ & Eh' & Hk). rewrite Eh, Eh'.
  destruct (ro_list r a Hr) as (ids & Hnd & Hi & Hs).
  assert (id ∈ ids) as Hin by (apply Hi; by eexists).
  pose proof (links_at id m Hm) as Hlk. pose proof address_nonzero as Hnz. pose proof links_inj as Hinj.
  assert (forall j, j <> id -> is_Some (FixedTable.get (modules (without pred)) j) <->
    is_Some (FixedTable.get (modules r) j)) as Hsame.
  { intros j Hj. rewrite Hg, decide_False, Hk by done. destruct pred as [[pid p]|]; [|done].
    case_decide as Hd; [|done]. subst. destruct Hf as (_ & -> & _). split; intros _; by eexists. }
  assert (FixedTable.get (modules (without pred)) id = None) as Hid by by rewrite Hg, decide_True.
  destruct pred as [[pid p]|].
  - destruct Hf as (Hne & Hp & Hn). pose proof (links_at pid p Hp) as Hlp. rewrite Hn in Hlp.
    destruct (pointing_before (links r) (head r) ids id (info_address m) (mi_next (info m)) Hs Hnd Hin Hlk Hnz Hinj
      pid (info_address p)) as (p1 & p2 & E); [apply Hi; by eexists|done|].
    exists (p1 ++ pid :: p2). rewrite E in Hnd. split_and!.
    + apply NoDup_app in Hnd as (N1 & N2 & N3). apply NoDup_cons in N3 as [N3 N4]. apply NoDup_cons in N4 as [N4 N5].
      apply NoDup_app. split_and!; [done| |].
      * intros x Hx [->|Hx']%elem_of_cons; apply (N2 _ Hx); [by left|right; by right].
      * apply NoDup_cons. split; [|done]. intros Hx. apply N3. by right.
    + intros j. destruct (decide (j = id)) as [->|Hj].
      * rewrite Hid. split; [|by intros [? ?]]. intros Hx. exfalso.
        apply NoDup_app in Hnd as (N1 & N2 & N3). apply NoDup_cons in N3 as [N3 N4]. apply NoDup_cons in N4 as [N4 N5].
        apply elem_of_app in Hx as [Hx|[Hx|Hx]%elem_of_cons]; [|by subst|done].
        apply (N2 _ Hx). right. by left.
      * rewrite Hsame, <- Hi, E by done. rewrite !elem_of_app, !elem_of_cons. naive_solver.
    + rewrite <- E in Hnd. apply (unlink_after (links r) (head r) ids id (info_address m) (mi_next (info m))
        Hs Hnd Hin Hlk Hnz Hinj p1 pid p2 _ (info_address p) E); [|done|].
      * unfold links. rewrite Hg, decide_False, Hk, decide_True by done. reflexivity.
      * intros k K1 K2. unfold links. by rewrite Hg, decide_False, Hk, decide_False by done.
  - destruct Hf as (Ehead & Hno).
    destruct (nothing_before (links r) (head r) ids id (info_address m) (mi_next (info m)) Hs Hnd Hin Hlk Hnz Hinj)
      as (p2 & E & _).
    { intros j b Hj Hne (n & Hn & E2)%fmap_Some. injection E2 as _ E2. by apply (Hno j n Hne Hn). }
    exists p2. pose proof Hnd as Hnd0. rewrite E in Hnd. apply NoDup_cons in Hnd as [N1 N2]. split_and!; [done| |].
    + intros j. destruct (decide (j = id)) as [->|Hj].
      * rewrite Hid. split; [done|by intros [? ?]].
      * rewrite Hsame, <- Hi, E by done. rewrite elem_of_cons. naive_solver.
    + apply (unlink_first (links r) (head r) ids id (info_address m) (mi_next (info m)) Hs Hnd0 Hin Hlk Hnz Hinj p2); [done|].
      intros j Hj. unfold links. by rewrite Hg, decide_False, Hk by done.
Qed.

(** The registry without the module is well formed over the remaining blocks. *)
Lemma without_ok pred a' :
  found pred -> mem_ok a' -> arena_start a' = arena_start a ->
  (forall b, b ∈ SystemMemory.blocks a' <-> b ∈ SystemMemory.blocks a /\ ~ owned m b) ->
  registry_core (without pred) a'.
Proof using Hr Hm.
  intros Hf Ha' Es Hb. destruct (without_tables pred Hf) as (W1 & W2 & W3 & _ & Wl & _).
  assert (forall n n' x, relinked n n' -> owned n' x -> owned n x) as Hown by by intros n n' x ->.
  constructor; try done.
  - rewrite Es. apply Hr.
  - intros j n' Hn'. destruct (without_record pred j n' Hf Hn') as (Hj & n & Hn & Hre & _).
    destruct (ro_record r a Hr j n Hn) as [R1 R2 R3 R4 R5 R6 R7]. rewrite Hre.
    assert (forall b, owned n b -> b ∈ SystemMemory.blocks a') as Hstay.
    { intros b Ob. apply Hb. split; [by apply (owned_in r a j n)|]. intros Om.
      apply Hj. by apply (ro_separate r a Hr j id n m b). }
    constructor; cbn; try done; apply Hstay; [by left|by right].
  - intros i j x y b Hx Hy Ox Oy.
    destruct (without_record pred i x Hf Hx) as (_ & x0 & Hx0 & Rx & _).
    destruct (without_record pred j y Hf Hy) as (_ & y0 & Hy0 & Ry & _).
    apply (ro_separate r a Hr i j x0 y0 b Hx0 Hy0); by eapply Hown.
  - by apply without_list.
  - intros i l. rewrite Wl. case_decide; [done|]. apply Hr.
  - intros i j l k. rewrite !Wl. repeat case_decide; try done. apply Hr.
Qed.

(** Modules that own what they export still do. *)
Lemma without_exports pred : found pred -> exports_owned r -> exports_owned (without pred).
Proof using Hr Hm.
  intros Hf Ho j n' e Hn' He. destruct (without_record pred j n' Hf Hn') as (Hj & n & Hn & Hre & _).
  destruct (without_tables pred Hf) as (_ & _ & _ & _ & Wl & _).
  assert (e ∈ export_ids n) as He' by by rewrite Hre in He.
  destruct (Ho j n e Hn He') as (l & Hl & El). exists l. split; [|done].
  rewrite Wl, decide_False; [done|]. intros Hin.
  destruct (Ho id m e Hm Hin) as (l' & Hl' & El'). congruence.
Qed.

(** Only the first word of a descriptor depends on [next]. *)
Lemma encode_next i n :
  exists rest, encode i = le_bytes 4 (mi_next i) ++ rest /\ encode (i <| mi_next := n |>) = le_bytes 4 n ++ rest.
Proof. eexists. split; reflexivity. Qed.

(** The guest write that unlinks the descriptor. *)
Definition unlink_write (pred : option (Z * ModuleRecord)) : Z :=
  match pred with Some (_, p) => info_address p | None => MODULE_HEAD_ADDRESS end.

Lemma guest_without pred g g' :
  found pred -> guest_ok r g -> wrote (unlink_write pred) (le_bytes4 (mi_next (info m))) g g' ->
  guest_ok (without pred) g'.
Proof using Hr Hm.
  intros Hf [Hh Hd] Hw. destruct (without_tables pred Hf) as (_ & _ & _ & Eh & _ & Hg).
  destruct (relink_tables pred Hf) as (_ & _ & _ & Eh' & Hk).
  pose proof (ro_arena r a Hr) as Har.
  assert (Slices.len (le_bytes4 (mi_next (info m))) = 4) as L4 by done.
  assert (forall j n, FixedTable.get (modules r) j = Some n -> arena_start a <= info_address n) as Hlow.
  { intros j n Hn. by destruct (seen_inside r a j n Hr Hn). }
  unfold guest_ok. rewrite Eh, Eh'. destruct pred as [[pid p]|]; cbn [unlink_write] in Hw.
  - destruct Hf as (Hne & Hp & Hpn). pose proof (Hlow pid p Hp). split.
    + eapply wrote_keeps; [exact Hw| |exact Hh]. left. change (Slices.len (le_bytes4 (head r))) with 4. lia.
    + intros j n. rewrite Hg. case_decide; [done|]. rewrite Hk. case_decide as Hj.
      * intros [= <-]. specialize (Hd pid p Hp). unfold descriptor_seen in *. cbn [info_address info mr_name modify].
        destruct (encode_next (info p) (mi_next (info m))) as (rest & E1 & E2). rewrite E1 in Hd.
        enough (holds g' (info_address p) ((le_bytes 4 (mi_next (info m)) ++ rest) ++ mr_name p ++ [0])) as Hgoal
          by (rewrite <- E2 in Hgoal; exact Hgoal).
        rewrite <- app_assoc in *. rewrite holds_app in Hd |- *. destruct Hd as [_ D2]. split.
        { rewrite <- le_bytes4_eq. by eapply wrote_holds. }
        eapply wrote_keeps; [exact Hw| |exact D2]. right. reflexivity.
      * intros Hn. eapply wrote_keeps; [exact Hw| |by apply (Hd j)]. rewrite L4.
        destruct (seen_inside r a j n Hr Hn) as (S1 & S2 & _). destruct (seen_inside r a pid p Hr Hp) as (T1 & T2 & _).
        destruct (ro_record r a Hr j n Hn) as [_ Ra Rb _ _ _ _]. destruct (ro_record r a Hr pid p Hp) as [_ Pa Pb _ _ _ _].
        rewrite len_seen in T2. unfold MODULE_INFO_SIZE in T2. pose proof (Slices.len_nonneg (mr_name p)).
        destruct (blocks_disjoint a (metadata_allocation p) (metadata_allocation n) (ro_memory r a Hr) Pb Rb)
          as [D|D]; [|lia|lia].
        intros E. apply Hj. apply (ro_separate r a Hr j pid n p (metadata_allocation p) Hn Hp); [by left|by left].
  - split; [by eapply wrote_holds|].
    intros j n. rewrite Hg. case_decide; [done|]. rewrite Hk. intros Hn.
    eapply wrote_keeps; [exact Hw| |by apply (Hd j)]. rewrite L4. right. specialize (Hlow j n Hn). lia.
Qed.

Lemma free_both_spec :
  exists a', free_both m a = (Ok tt, a') /\ mem_ok a' /\ arena_start a' = arena_start a /\
    forall b, b ∈ SystemMemory.blocks a' <-> b ∈ SystemMemory.blocks a /\ ~ owned m b.
Proof using Hr Hm.
  destruct (ro_record r a Hr id m Hm) as [_ _ R3 _ R5 R6 _]. unfold free_both.
  destruct (free_block (image_allocation m) a (ro_memory r a Hr) R5) as (a1 & -> & Ha1 & E1 & B1).
  assert (metadata_allocation m ∈ SystemMemory.blocks a1) as Hin by by apply B1.
  destruct (free_block _ a1 Ha1 Hin) as (a2 & -> & Ha2 & E2 & B2).
  exists a2. split_and!; [done|done|congruence|]. intros b. rewrite B2, B1. unfold owned. tauto.
Qed.
End unload.

(** Releasing a library, and registering one for any module, keep the invariant of
    unloading, though the handle released stays in its module's list and may come to name
    the library of another. *)
Lemma register_export_core id e r a : registry_core r a ->
  let (o, r') := register_export id e r in
  no_panic o /\ registry_core r' a /\ modules r' = modules r /\ head r' = head r.
Proof.
  intros Hr. pose proof (validate_exports_spec r [e] (ro_libraries r a Hr)) as Hv.
  unfold register_export. destruct (validate_exports [e] r) as [[]|x|]; [|done|done].
  destruct Hv as [[F1 F2 F3] _]. apply Forall_singleton in F1 as [V1 V2].
  unfold insert_export. fold (registration id e).
  pose proof (TableFacts.insert_spec (registration id e) (libraries r) (ro_libraries r a Hr)) as Hi.
  destruct (FixedTable.insert _ _) as [[i|x|] t]; [| |done].
  2: { destruct Hi as (_ & -> & _). destruct r. by split. }
  destruct Hi as (Hnone & Hw & _ & _ & Hget). split; [done|]. split; [|done].
  assert (forall j l, FixedTable.get t j = Some l ->
    j = i /\ l = registration id e \/ FixedTable.get (libraries r) j = Some l) as Hcase.
  { intros j l. rewrite Hget. case_decide; [intros [= <-]; by left|by right]. }
  constructor; cbn [modules libraries head modify]; try apply Hr; [done| |].
  - intros j l [[-> ->]|Hl]%Hcase; [by constructor|by apply (ro_library r a Hr j)].
  - intros j k l l' [[-> ->]|Hl]%Hcase [[-> ->]|Hl']%Hcase E; [done|..].
    + destruct (F3 e k l'); [by left|done|done].
    + destruct (F3 e j l); [by left|done|done].
    + by eapply (ro_names r a Hr).
Qed.

Lemma release_export_core e r a : registry_core r a ->
  let (o, r') := release_export e r in
  no_panic o /\ registry_core r' a /\ modules r' = modules r /\ head r' = head r.
Proof.
  intros Hr. unfold release_export.
  destruct (FixedTable.get (libraries r) e) as [l|] eqn:El; [|done].
  destruct (negb _); [done|].
  pose proof (TableFacts.remove_value (libraries r) e) as Hv. rewrite El in Hv.
  pose proof (TableFacts.remove_wf (libraries r) e (ro_libraries r a Hr)) as Hw.
  pose proof (fun j => TableFacts.remove_get (libraries r) e j) as Hg.
  destruct (FixedTable.remove e (libraries r)) as [removed t]. cbn [fst snd] in *. subst removed.
  split; [done|]. split; [|done].
  assert (forall j k, FixedTable.get t j = Some k -> FixedTable.get (libraries r) j = Some k) as Hsub.
  { intros j k. rewrite Hg by apply Hr. by case_decide. }
  constructor; cbn [modules libraries head modify]; try apply Hr; [done| |].
  - intros j k Hk%Hsub. by apply (ro_library r a Hr j).
  - intros i j k k' Hk%Hsub Hk'%Hsub. by apply (ro_names r a Hr).
Qed.

(** C22: Unloading takes a module that is not running and none of whose recorded exports
    has users out of everything: its record and both its blocks are gone, every other
    module is as it was but for the [next] of its predecessor, the descriptor list - the
    host's and the one in guest memory - passes it by, and the invariant holds.  The
    libraries removed are exactly those the handles recorded when the module was loaded
    name now: as long as modules own what they recorded, those are its own, and the others
    go on owning theirs; a library registered for the module later stays behind, and a
    handle released in the meantime takes along whatever was registered under it since.
    Any refusal changes nothing at all, and nothing panics. *)
Theorem module_unload_contract id r a g :
  registry_core r a -> guest_ok r g ->
  match unload id r a g with
  | (Ok m, (r', a', g')) => registry_core r' a' /\ (exports_owned r -> exports_owned r') /\
      guest_ok r' g' /\ module_unloaded id r r' a a' m
  | (Err _, s) => s = (r, a, g)
  | (Panic, _) => False
  end.
Proof.
  intros Hr Hg. unfold unload. destruct (FixedTable.get (modules r) id) as [m|] eqn:Hm; [|done].
  assert (safely (fun _ => (mr_state m = Loaded \/ mr_state m = NotResidentModule \/ mr_state m = StoppedRemovable) /\
    forall e l, e ∈ export_ids m -> FixedTable.get (libraries r) e = Some l -> users l = 0) (unloadable m r a)) as Hu.
  { unfold unloadable. destruct (mr_state m); try done.
    all: destruct (existsb _ _) eqn:Ex; [done|]; case_match; [done|]; split; [by auto|].
    all: intros e l He Hl; rewrite <- not_true_iff_false, existsb_exists in Ex.
    all: destruct (Z.eqb_spec (users l) 0) as [|Hne]; [done|]; exfalso; apply Ex.
    all: exists e; split; [by apply list_elem_of_In|]; rewrite Hl; cbn; by apply negb_true_iff, Z.eqb_neq. }
  destruct (unloadable m r a) as [[]|e|]; [|done|done]. destruct Hu as [Hstate Hunused].
  pose proof (predecessor_found r a id m Hr Hm) as Hf.
  set (pred := predecessor id (info_address m) r) in *.
  assert ((match pred with
           | Some (_, p) => write_u32 (info_address p) (mi_next (info m)) g
           | None => if head r =? info_address m then write_u32 MODULE_HEAD_ADDRESS (mi_next (info m)) g
                     else (Err (InvalidState "module is absent from guest list"), g)
           end) = write_u32 (unlink_write pred) (mi_next (info m)) g) as ->.
  { destruct pred as [[pid p]|]; [done|]. cbn in Hf. by rewrite (proj2 (Z.eqb_eq _ _)) by apply Hf. }
  pose proof (write_u32_spec (unlink_write pred) (mi_next (info m)) g) as Hw.
  destruct (write_u32 _ _ g) as [[u|e|] g']; [|by subst|done].
  pose proof (guest_without r a id m Hr Hm pred g g' Hf Hg Hw) as Hg'.
  destruct (relink_tables r a id m Hr pred Hf) as (Rw & _ & _ & _ & Rk).
  destruct (without_tables r a id m Hr pred Hf) as (_ & _ & _ & _ & Wl & Wm).
  destruct (free_both_spec r a id m Hr Hm) as (a' & Ef & Ha' & Es & Hb).
  assert (FixedTable.get (modules (relink r m pred)) id = Some m) as Hm'.
  { rewrite Rk. destruct pred as [[pid p]|]; [|done]. destruct Hf as (Hne & _). by rewrite decide_False. }
  unfold unlink. fold (relink r m pred).
  pose proof (TableFacts.remove_value (modules (relink r m pred)) id) as Hv. rewrite Hm' in Hv.
  fold (relink r m pred). destruct (FixedTable.remove id (modules (relink r m pred))) as [removed t] eqn:Er.
  cbn [fst] in Hv. subst removed. rewrite Ef. cbn [omapok obind].
  assert (remove_libraries (export_ids m) ((relink r m pred) <| modules := t |>) = without r id m pred) as ->.
  { unfold without, pruned. by rewrite Er. }
  split; [by apply (without_ok r a id m)|].
  split; [by apply (without_exports r a id m)|]. split; [done|].
  constructor; try done.
  - by rewrite Wm, decide_True.
  - intros j Hj. rewrite Wm, decide_False, Rk by done. destruct pred as [[pid p]|].
    + case_decide as Hp; [|by destruct (FixedTable.get (modules r) j) as [[? ? ? ? ? [] ? ? ? ?]|]; constructor].
      subst. destruct Hf as (_ & -> & _). by constructor.
    + by destruct (FixedTable.get (modules r) j) as [[? ? ? ? ? [] ? ? ? ?]|]; constructor.
Qed.
End guest.

(** ** A guest memory of bytes, and a registry with one module *)

#[export] Instance buffer_guest : GuestMemory Buffer := {
  range b := mkGuestRange 0 (buf_len b);
  gread b a n := ok_or (Buffer.slice b a n) (mkGuestMemoryError "outside RAM");
  gwrite a bs b := match Buffer.copy_from b a bs with
                   | Some b' => (Ok tt, b')
                   | None => (Err (mkGuestMemoryError "outside RAM"), b)
                   end;
}.

#[export] Instance buffer_guest_laws : GuestLaws Buffer.
Proof.
  refine {| guest_byte := Buffer.cell |}. intros a bs b Hc. cbn [gwrite range buffer_guest] in *.
  unfold Buffer.copy_from. destruct (_ && _); [|done]. split.
  - cbn. by rewrite Buffer.write_cells_len.
  - intros i. by rewrite Buffer.cell_write_cells.
Defined.

Definition empty_memory : SystemMemory := mkSystemMemory DEFAULT_HEAP_START DEFAULT_HEAP_END (FixedTable.new 1).
Definition empty_guest : Buffer := Buffer.zeroed 0x200000.

Lemma empty_registry_ok : registry_ok ModuleRegistry.new empty_memory.
Proof.
  assert (forall id, FixedTable.get (modules ModuleRegistry.new) id = None) as Hn by (intros; apply TableFacts.get_new).
  assert (forall id, FixedTable.get (libraries ModuleRegistry.new) id = None) as Hl by (intros; apply TableFacts.get_new).
  constructor; [constructor|]; try (intros ?; intros; rewrite ?Hn, ?Hl in *; discriminate).
  - apply (empty_ok empty_memory 1); try done; by vm_compute.
  - split; [by apply TableFacts.new_wf|done].
  - by apply TableFacts.new_wf.
  - exists []. split_and!; [by apply NoDup_nil| |done]. intros id. rewrite Hn. split; [by intros ?%elem_of_nil|by intros [? ?]].
Qed.

Lemma empty_guest_ok : guest_ok ModuleRegistry.new empty_guest.
Proof.
  split.
  - intros k Hk. change (Slices.len (le_bytes4 (head ModuleRegistry.new))) with 4 in Hk.
    assert (k = 0 \/ k = 1 \/ k = 2 \/ k = 3) as [->|[->|[->| ->]]] by lia; reflexivity.
  - intros id m Hm.
    assert (FixedTable.get (modules ModuleRegistry.new) id = None) as Hn by apply TableFacts.get_new. congruence.
Qed.

(** The sample module in the empty registry. *)
Definition sample_load : outcome BiosError Z * (ModuleRegistry * SystemMemory * Buffer) :=
  match sample_module with
  | Some m => load m ModuleRegistry.new empty_memory empty_guest
  | None => (Panic, (ModuleRegistry.new, empty_memory, empty_guest))
  end.

Lemma sample_well_formed : exists m, sample_module = Some m /\ well_formed sample_irx m /\ limits_ok (m_limits m).
Proof.
  destruct sample_bytes as [Hb Hl].
  pose proof (parse_ok (mkParser (PsfText.str "demo.irx") sample_irx default_irx_limits) Hb Hl
    default_irx_limits_ok) as Hm.
  change (Parser.parse _) with (IrxModule.parse (PsfText.str "demo.irx") sample_irx) in Hm.
  unfold sample_module.
  assert (is_ok (IrxModule.parse (PsfText.str "demo.irx") sample_irx) = true) as E by by vm_compute.
  destruct (IrxModule.parse _ _) as [m| |]; [|done|done]. exists m. destruct Hm as (Hw & Hlim & _).
  cbn in Hlim. split_and!; [done|done|]. rewrite Hlim. apply default_irx_limits_ok.
Qed.

Lemma sample_load_ok :
  match sample_load with (Ok id, (r, a, g)) => id = 1 /\ registry_ok r a /\ guest_ok r g | _ => False end.
Proof.
  unfold sample_load. destruct sample_well_formed as (m & E & Hw & Hlim).
  assert (match sample_load.1 with Ok id => id = 1 | _ => False end) as Ed by (vm_compute; reflexivity).
  unfold sample_load in Ed. rewrite E in *.
  pose proof (load_spec m sample_irx _ _ _ Hw Hlim empty_registry_ok empty_guest_ok) as H.
  destruct (load m _ _ _) as [o [[r a] g]]. cbn in Ed.
  destruct o as [i| |]; [|done|done]. destruct H as (Hr & Hg & _).
  exact (conj Ed (conj Hr Hg)).
Qed.

Example module_load_contract_witness :
  (exists m, sample_module = Some m /\ well_formed sample_irx m /\ limits_ok (m_limits m)) /\
  forall m, well_formed sample_irx m -> limits_ok (m_limits m) ->
    match load m ModuleRegistry.new empty_memory empty_guest with
    | (Ok id, (r', a', g')) => registry_ok r' a' /\ guest_ok r' g' /\
        exists n img lm, module_loaded m id ModuleRegistry.new r' empty_memory g' n img lm /\
          forall b, b ∈ SystemMemory.blocks a' <-> owned n b \/ b ∈ SystemMemory.blocks empty_memory
    | (Err _, s) => rolled_back ModuleRegistry.new empty_memory s
    | (Panic, _) => False
    end.
Proof.
  split; [exact sample_well_formed|]. intros m Hw Hl.
  exact (module_load_contract m sample_irx _ _ _ Hw Hl empty_registry_ok empty_guest_ok).
Defined.

(** The registry in which the module's library was released and its slot taken over by a
    library of another module. *)
Definition reused (r : ModuleRegistry) : ModuleRegistry :=
  (register_export 2 (mkExportLibrary (PsfText.str "other") 257 0 65800 [65796])
     (release_export 1 r).2).2.

Lemma reused_ok r a : registry_core r a ->
  registry_core (reused r) a /\ modules (reused r) = modules r /\ head (reused r) = head r.
Proof.
  intros Hr. pose proof (release_export_core 1 r a Hr) as H1. unfold reused.
  destruct (release_export 1 r) as [o1 r1]. destruct H1 as (_ & Hr1 & M1 & E1). cbn [snd].
  set (e := mkExportLibrary _ _ _ _ _). pose proof (register_export_core 2 e r1 a Hr1) as H2.
  destruct (register_export 2 e r1) as [o2 r2]. destruct H2 as (_ & Hr2 & M2 & E2). cbn [snd].
  split_and!; congruence || done.
Qed.

Example module_unload_contract_witness :
  match sample_load with
  | (Ok id, (r, a, g)) =>
      match unload id (reused r) a g with
      | (Ok m, (r', a', g')) => registry_core r' a' /\
          (exports_owned (reused r) -> exports_owned r') /\ guest_ok r' g' /\
          module_unloaded id (reused r) r' a a' m
      | (Err _, s) => s = (reused r, a, g)
      | (Panic, _) => False
      end
  | _ => False
  end.
Proof.
  pose proof sample_load_ok as H. destruct sample_load as [[id|e|] [[r a] g]]; [|done|done].
  destruct H as (-> & Hr & Hg). destruct (reused_ok r a Hr) as (Hr2 & Em & Eh).
  assert (guest_ok (reused r) g) as Hg2 by (unfold guest_ok; rewrite Em, Eh; exact Hg).
  exact (module_unload_contract 1 (reused r) a g Hr2 Hg2).
Defined.

Example module_lifecycle_witness :
  match sample_load with
  | (Ok id, (r, a, g)) =>
      (match run BeginStart id r g with
       | (Ok _, (r', g')) => exists m s, module_of r id = Some m /\ transition (mr_state m) BeginStart s /\
           registry_ok r' a /\ guest_ok r' g' /\ head r' = head r /\ libraries r' = libraries r /\
           forall j, module_of r' j = if decide (j = id) then Some (in_state s m) else module_of r j
       | (Err _, (r', g')) => r' = r /\ g' = g
       | (Panic, _) => False
       end) /\
      (forall i s, (begin_start id r g = (Ok i, s) \/ begin_stop id r g = (Ok i, s)) ->
         exists m, module_of r id = Some m /\ i = mkModuleInvocation id (mi_entry (info m)) (mi_global_pointer (info m)))
  | _ => False
  end.
Proof.
  pose proof sample_load_ok as H. destruct sample_load as [[id|e|] [[r a] g]]; [|done|done].
  destruct H as (-> & Hr & Hg). exact (module_lifecycle r a 1 BeginStart g Hr Hg).
Defined.

(** The module's life cycle, from its start to its refused unload. *)
Example sample_life :
  match sample_load with
  | (Ok id, (r, a, g)) =>
      match run BeginStart id r g with
      | (Ok _, (r1, g1)) =>
          is_ok (unload id r1 a g1).1 = false /\
          match run (CompleteStart NotResident) id r1 g1 with
          | (Ok _, (r2, g2)) => is_ok (unload id r2 a g2).1 = true
          | _ => False
          end
      | _ => False
      end
  | _ => False
  end.
Proof. vm_compute. done. Qed.

(** [release_export] leaves the identifier in its module's list: when another module's
    library takes the slot, unloading the first module removes the second one's library. *)
Example released_slot_reused :
  match sample_load with
  | (Ok id, (r, a, g)) =>
      er_module_id <$> FixedTable.get (libraries (reused r)) 1 = Some 2 /\
      match unload id (reused r) a g with
      | (Ok _, (r', _, _)) => FixedTable.get (libraries r') 1 = None
      | _ => False
      end
  | _ => False
  end.
Proof. vm_compute. done. Qed.
