(* ===== verification/Ps2Irq.v ===== *)
(** * PS2 I/O processor interrupt controller: crates/hw/ps2/irq/src/lib.rs

    Twenty-six sources with status, mask and producer levels in [u32] registers.
    [InterruptSink] is the trait through which the timers, the DMA controller and
    the sound processor raise interrupts.  The theorems give the meaning of the
    registers source by source and the priority of [first_pending]. *)

From S2P Require Export MachineInt.
From S2P Require Import Records.

Definition I_STAT : Z := 0x1f801070.
Definition I_MASK : Z := 0x1f801074.
Definition VALID_BITS : Z := 0x03ffffff.

Inductive InterruptSource : Set :=
| VBlank | SBus | Cdvd | Dma | Timer0 | Timer1 | Timer2 | Sio0 | Sio1 | Spu2 | Pio
| VBlankEnd | Dvd | Dev9 | Timer3 | Timer4 | Timer5 | Sio2 | Hold0 | Hold1 | Hold2
| Hold3 | Usb | Expansion | ILink | FireWireDma.

#[export] Instance InterruptSource_eq_dec : EqDecision InterruptSource.
Proof. solve_decision. Defined.

(** [bits.trailing_zeros()]: the number of zero bits below the lowest set bit, the
    width when there is none. *)
Fixpoint trailing_zeros (w : nat) (x : Z) : Z :=
  match w with
  | O => 0
  | S w => if Z.odd x then 0 else 1 + trailing_zeros w (Z.shiftr x 1)
  end.

Module InterruptSource.

(** The discriminant, [self as u8]. *)
Definition index (s : InterruptSource) : Z :=
  match s with
  | VBlank => 0 | SBus => 1 | Cdvd => 2 | Dma => 3 | Timer0 => 4 | Timer1 => 5
  | Timer2 => 6 | Sio0 => 7 | Sio1 => 8 | Spu2 => 9 | Pio => 10 | VBlankEnd => 11
  | Dvd => 12 | Dev9 => 13 | Timer3 => 14 | Timer4 => 15 | Timer5 => 16 | Sio2 => 17
  | Hold0 => 18 | Hold1 => 19 | Hold2 => 20 | Hold3 => 21 | Usb => 22 | Expansion => 23
  | ILink => 24 | FireWireDma => 25
  end.

Definition bit (s : InterruptSource) : Z := shl 32 1 (index s).

Definition from_index (index : Z) : option InterruptSource :=
  match index with
  | 0 => Some VBlank | 1 => Some SBus | 2 => Some Cdvd | 3 => Some Dma
  | 4 => Some Timer0 | 5 => Some Timer1 | 6 => Some Timer2 | 7 => Some Sio0
  | 8 => Some Sio1 | 9 => Some Spu2 | 10 => Some Pio | 11 => Some VBlankEnd
  | 12 => Some Dvd | 13 => Some Dev9 | 14 => Some Timer3 | 15 => Some Timer4
  | 16 => Some Timer5 | 17 => Some Sio2 | 18 => Some Hold0 | 19 => Some Hold1
  | 20 => Some Hold2 | 21 => Some Hold3 | 22 => Some Usb | 23 => Some Expansion
  | 24 => Some ILink | 25 => Some FireWireDma
  | _ => None
  end.

End InterruptSource.

(** The [InterruptSink] trait: a pulse, and a change of a level. *)
Class InterruptSink (S : Type) : Type := {
  request : S -> InterruptSource -> S;
  set_level : S -> InterruptSource -> bool -> S;
}.

Record IrqError : Set := mkIrqError { address : Z }.

Record InterruptController : Set := mkInterruptController {
  status : Z;
  mask : Z;
  levels : Z;
}.

#[export] Instance InterruptController_fields : Fields InterruptController := fun c =>
  mkInterruptController (status c) (mask c) (levels c).

Module InterruptController.

Definition new : InterruptController := mkInterruptController 0 0 0.

Definition pending_bits (c : InterruptController) : Z := status c .& mask c.

Definition first_pending (c : InterruptController) : option InterruptSource :=
  let bits := pending_bits c in
  if bits =? 0 then None
  else index ← try_from_u 8 (trailing_zeros 32 bits); InterruptSource.from_index index.

Definition pending (c : InterruptController) : bool := negb (pending_bits c =? 0).

Definition acknowledge (value : Z) (c : InterruptController) : InterruptController :=
  let c := c <| status := status c .& (value .& VALID_BITS) |> in
  c <| status := status c .| levels c |>.

Definition set_mask (value : Z) (c : InterruptController) : InterruptController :=
  c <| mask := value .& VALID_BITS |>.

Definition read (address : Z) (c : InterruptController) : outcome IrqError Z :=
  if address =? I_STAT then Ok (status c)
  else if address =? I_MASK then Ok (mask c)
  else Err (mkIrqError address).

Definition write (address value : Z) (c : InterruptController)
    : outcome IrqError unit * InterruptController :=
  if address =? I_STAT then (Ok tt, acknowledge value c)
  else if address =? I_MASK then (Ok tt, set_mask value c)
  else (Err (mkIrqError address), c).

Definition request (c : InterruptController) (source : InterruptSource)
    : InterruptController :=
  c <| status := status c .| InterruptSource.bit source |>.

Definition set_level (c : InterruptController) (source : InterruptSource)
    (asserted : bool) : InterruptController :=
  let bit := InterruptSource.bit source in
  if asserted then c <| levels := levels c .| bit |> <| status := status c .| bit |>
  else c <| levels := levels c .& bnot 32 bit |>.

(** ** Reachable controllers *)

Inductive step : InterruptController -> InterruptController -> Prop :=
| step_request c s : step c (request c s)
| step_level c s b : step c (set_level c s b)
| step_write c a v : in_u 32 v -> step c (write a v c).2.

Inductive reachable : InterruptController -> Prop :=
| reachable_new : reachable new
| reachable_step c c' : reachable c -> step c c' -> reachable c'.

(** ** Per-source view of the registers *)

Definition latched (c : InterruptController) (s : InterruptSource) : bool :=
  Z.testbit (status c) (InterruptSource.index s).
Definition enabled (c : InterruptController) (s : InterruptSource) : bool :=
  Z.testbit (mask c) (InterruptSource.index s).
Definition asserted (c : InterruptController) (s : InterruptSource) : bool :=
  Z.testbit (levels c) (InterruptSource.index s).

End InterruptController.

#[export] Instance controller_sink : InterruptSink InterruptController := {|
  request := InterruptController.request;
  set_level := InterruptController.set_level;
|}.

(** ** Theorems *)

Lemma trailing_zeros_spec w x :
  0 <= x -> x <> 0 -> in_u (Z.of_nat w) x ->
  let n := trailing_zeros w x in
  0 <= n < Z.of_nat w /\ Z.testbit x n = true /\
  forall i, 0 <= i < n -> Z.testbit x i = false.
Proof.
  revert x. induction w as [|w IH]; intros x Hx Hne Hw; cbn [trailing_zeros].
  { unfold in_u in Hw. simpl in Hw. lia. }
  destruct (Z.odd x) eqn:Eo.
  - split_and!; [lia|lia|by rewrite Z.bit0_odd|lia].
  - assert (x = 2 * Z.shiftr x 1) as Ex.
    { rewrite Z.shiftr_div_pow2 by lia. change (2 ^ 1) with 2.
      pose proof (Z.div_mod x 2 ltac:(lia)). rewrite Zmod_odd, Eo in H. lia. }
    destruct (IH (Z.shiftr x 1)) as (Hn & Ht & Hl).
    + by apply Z.shiftr_nonneg.
    + lia.
    + pose proof (in_u_shiftr_narrow (Z.of_nat (S w)) x 1 ltac:(lia) Hw) as H.
      by replace (Z.of_nat (S w) - 1) with (Z.of_nat w) in H by lia.
    + set (n := trailing_zeros w _) in *. split_and!; [lia|lia| |].
      * rewrite Z.add_comm. by rewrite <- Z.shiftr_spec by lia.
      * intros i Hi. destruct (decide (i = 0)) as [->|]; [by rewrite Z.bit0_odd|].
        replace i with (i - 1 + 1) by lia. rewrite <- Z.shiftr_spec by lia.
        apply Hl. lia.
Qed.

Module IrqFacts.
Import InterruptController.

Lemma iop_index_range s : 0 <= InterruptSource.index s < 26.
Proof. destruct s; simpl; lia. Qed.

Lemma from_index_index s : InterruptSource.from_index (InterruptSource.index s) = Some s.
Proof. by destruct s. Qed.

(** Every implemented bit is a source. *)
Lemma iop_index_surj i : 0 <= i < 26 ->
  exists s, InterruptSource.from_index i = Some s /\ InterruptSource.index s = i.
Proof.
  intros Hi. assert (exists n : fin 26, i = Z.of_nat n) as [n ->].
  { exists (nat_to_fin (p := Z.to_nat i) (n := 26) ltac:(lia)). rewrite fin_to_nat_to_fin. lia. }
  clear Hi. repeat (inv_fin n; [by eexists|intros n]). inv_fin n.
Qed.

Lemma iop_bit_pow2 s : InterruptSource.bit s = 2 ^ InterruptSource.index s.
Proof. by destruct s. Qed.

Lemma iop_testbit_bit s s' :
  Z.testbit (InterruptSource.bit s) (InterruptSource.index s') = bool_decide (s = s').
Proof. by destruct s, s'. Qed.

Lemma iop_bit_in_u s : in_u 26 (InterruptSource.bit s).
Proof. by destruct s. Qed.
#[local] Hint Resolve iop_bit_in_u : u_range.

Lemma iop_testbit_valid s : Z.testbit VALID_BITS (InterruptSource.index s) = true.
Proof. by destruct s. Qed.

Lemma valid_in_u v : 0 <= v -> in_u 26 (v .& VALID_BITS).
Proof. intros. change VALID_BITS with (Z.ones 26). rewrite land_ones_wrap by lia. by apply in_u_wrap. Qed.
#[local] Hint Resolve valid_in_u : u_range.

Record wf (c : InterruptController) : Prop := {
  wf_status : in_u 26 (status c);
  wf_mask : in_u 26 (mask c);
  wf_levels : in_u 26 (levels c);
  wf_latched : forall s, asserted c s = true -> latched c s = true;
}.

Lemma iop_latched_acknowledge c v s :
  latched (acknowledge v c) s =
  (latched c s && Z.testbit v (InterruptSource.index s)) || asserted c s.
Proof.
  unfold latched, asserted, acknowledge. cbn.
  by rewrite Z.lor_spec, !Z.land_spec, iop_testbit_valid, andb_true_r.
Qed.

Lemma iop_latched_request c s s' :
  latched (request c s) s' = latched c s' || bool_decide (s = s').
Proof. unfold latched, request. cbn. by rewrite Z.lor_spec, iop_testbit_bit. Qed.

Lemma latched_set_level c s b s' :
  latched (set_level c s b) s' = latched c s' || (b && bool_decide (s = s')).
Proof.
  unfold latched, set_level. destruct b; cbn; [by rewrite Z.lor_spec, iop_testbit_bit|].
  by rewrite orb_false_r.
Qed.

Lemma iop_asserted_set_level c s b s' :
  asserted (set_level c s b) s' = if bool_decide (s = s') then b else asserted c s'.
Proof.
  pose proof (iop_index_range s'). unfold asserted, set_level. destruct b; cbn.
  - rewrite Z.lor_spec, iop_testbit_bit.
    by destruct (bool_decide (s = s')); [rewrite orb_true_r|rewrite orb_false_r].
  - rewrite Z.land_spec, testbit_bnot, iop_testbit_bit by lia.
    destruct (Z.ltb_spec (InterruptSource.index s') 32); [|lia]. rewrite xorb_true_r.
    by destruct (bool_decide (s = s')); [rewrite andb_false_r|rewrite andb_true_r].
Qed.

Lemma iop_irq_new_wf : wf new.
Proof. constructor; [done..|]. intros s. unfold asserted. by rewrite Z.testbit_0_l. Qed.

Lemma bnot_bit_nonneg s : 0 <= bnot 32 (InterruptSource.bit s).
Proof. eapply in_u_nonneg, in_u_bnot, (in_u_mono 26); [lia..|apply iop_bit_in_u]. Qed.

Lemma request_wf c s : wf c -> wf (request c s).
Proof.
  intros [Hs Hm Hl Hlat]. constructor; cbn; [eauto with u_range..|].
  intros s' Ha. rewrite iop_latched_request. by rewrite (Hlat s' Ha).
Qed.

Lemma set_level_wf c s b : wf c -> wf (set_level c s b).
Proof.
  intros [Hs Hm Hl Hlat]. pose proof (bnot_bit_nonneg s). constructor.
  1-3: unfold set_level; destruct b; cbn; [eauto with u_range|first [done|by apply in_u_land_l]].
  - intros s'. rewrite iop_asserted_set_level, latched_set_level. case_bool_decide as E.
    + intros ->. by rewrite orb_true_r.
    + intros Ha%Hlat. by rewrite Ha.
Qed.

Lemma write_wf c a v : 0 <= v -> wf c -> wf (write a v c).2.
Proof.
  intros Hv [Hs Hm Hl Hlat]. unfold write.
  assert (0 <= v .& VALID_BITS) by (apply Z.land_nonneg; lia).
  destruct (a =? I_STAT); [|destruct (a =? I_MASK)]; cbn [snd].
  - constructor; cbn; [|eauto with u_range..|].
    + apply in_u_lor; [lia| |done]. apply in_u_land_l; [lia|done].
    + intros s Ha. rewrite iop_latched_acknowledge. unfold asserted in *. cbn in Ha.
      by rewrite Ha, orb_true_r.
  - constructor; cbn; eauto with u_range.
  - by constructor.
Qed.

Lemma iop_reachable_wf c : reachable c -> wf c.
Proof.
  induction 1 as [|c c' Hr IH Hstep]; [apply iop_irq_new_wf|].
  destruct Hstep as [c s|c s b|c a v [Hv _]];
    [by apply request_wf|by apply set_level_wf|by apply write_wf].
Qed.

Lemma pending_bits_testbit c s :
  Z.testbit (pending_bits c) (InterruptSource.index s) = latched c s && enabled c s.
Proof. apply Z.land_spec. Qed.

Lemma pending_bits_range c : wf c -> in_u 26 (pending_bits c).
Proof. intros []. apply in_u_land_l; [|done]. by eapply in_u_nonneg. Qed.

Lemma first_pending_None c :
  wf c -> pending_bits c = 0 -> forall s, latched c s && enabled c s = false.
Proof. intros Hc H0 s. rewrite <- pending_bits_testbit, H0. apply Z.testbit_0_l. Qed.

Lemma first_pending_Some c :
  wf c -> pending_bits c <> 0 -> exists s, first_pending c = Some s /\
    latched c s = true /\ enabled c s = true /\
    forall s', latched c s' = true -> enabled c s' = true ->
      InterruptSource.index s <= InterruptSource.index s'.
Proof.
  intros Hc Hne. pose proof (pending_bits_range c Hc) as Hr.
  pose proof (trailing_zeros_spec 32 (pending_bits c) (proj1 Hr) Hne) as Hz.
  destruct Hz as (Hn & Ht & Hl); [by eapply in_u_mono, Hr|].
  unfold first_pending. rewrite (proj2 (Z.eqb_neq _ _) Hne).
  set (n := trailing_zeros 32 _) in *.
  assert (n < 26) as Hn26.
  { destruct (Z.lt_ge_cases n 26) as [|Hge]; [done|].
    by rewrite (testbit_high 26) in Ht. }
  rewrite try_from_u_in by (change (2 ^ 8) with 256; lia). cbn [mbind option_bind].
  destruct (iop_index_surj n ltac:(lia)) as (s & Hs & Hi). exists s.
  rewrite <- Hi, pending_bits_testbit in Ht. apply andb_true_iff in Ht as [H1 H2].
  split_and!; [done..|]. intros s' H1' H2'.
  destruct (Z.le_gt_cases (InterruptSource.index s) (InterruptSource.index s')) as [|Hgt];
    [done|].
  rewrite Hi in Hgt. pose proof (iop_index_range s').
  rewrite <- Hi in Hl. specialize (Hl (InterruptSource.index s') ltac:(lia)).
  by rewrite pending_bits_testbit, H1', H2' in Hl.
Qed.

(** In every reachable controller a source whose level is high is latched, and
    [first_pending] is the lowest-numbered source that is latched and enabled: it
    answers exactly when the processor's line is asserted.  A guest write clears the
    zero bits of [I_STAT] but not of a source still asserted, or replaces the
    enables. *)
Theorem pending_priority c :
  reachable c ->
  (forall s, asserted c s = true -> latched c s = true) /\
  match first_pending c with
  | Some s => pending c = true /\ latched c s = true /\ enabled c s = true /\
      forall s', latched c s' = true -> enabled c s' = true ->
        InterruptSource.index s <= InterruptSource.index s'
  | None => pending c = false /\ forall s, latched c s && enabled c s = false
  end /\
  forall v s, in_u 32 v ->
    (latched (write I_STAT v c).2 s =
      latched c s && Z.testbit v (InterruptSource.index s) || asserted c s) /\
    (enabled (write I_MASK v c).2 s = Z.testbit v (InterruptSource.index s)).
Proof.
  intros Hr. pose proof (iop_reachable_wf c Hr) as Hc. split; [by apply wf_latched|]. split.
  - unfold pending. destruct (Z.eqb_spec (pending_bits c) 0) as [E|Hne].
    + unfold first_pending. rewrite E. cbn. split; [done|].
      by apply first_pending_None.
    + destruct (first_pending_Some c Hc Hne) as (s & -> & H1 & H2 & H3). done.
  - intros v s Hv. split; [apply iop_latched_acknowledge|].
    unfold enabled, write. cbn. by rewrite Z.land_spec, iop_testbit_valid, andb_true_r.
Qed.

Definition sample_controller : InterruptController :=
  (write I_MASK 0x10010 (request (set_level new Timer5 true) Timer0)).2.

Lemma pending_priority_witness :
  first_pending sample_controller = Some Timer0 /\
  first_pending (write I_STAT 0 sample_controller).2 = Some Timer5.
Proof.
  assert (reachable sample_controller) as Hr.
  { repeat (eapply reachable_step; [|(apply step_write; split; vm_compute; congruence) ||
      apply step_request || apply step_level]). apply reachable_new. }
  pose proof (pending_priority sample_controller Hr) as (_ & H & _).
  split; [|vm_compute; reflexivity]. revert H.
  destruct (first_pending sample_controller) as [s|] eqn:E;
    [intros _; rewrite <- E; vm_compute; reflexivity|vm_compute in E; discriminate E].
Defined.

End IrqFacts.
