(* ===== verification/Ps2Ssbus.v ===== *)
(** * PS2 subsystem bus: crates/hw/ps2/ssbus/src/lib.rs

    Base-address and delay registers of thirteen devices, reached by physical
    address or by device number.  The theorem is that both views are the same
    register file: distinct registers hold independent words. *)

From S2P Require Import Prelude MachineInt Records.

Definition DEVICE_COUNT : nat := 13.
Definition COMMON_DELAY : Z := 0x1f801020.

Definition BASE_REGISTERS : list (option Z) :=
  [Some 0x1f801000; Some 0x1f801400; None; None; Some 0x1f801404; Some 0x1f801408; None;
   None; Some 0x1f801004; Some 0x1f80140c; None; Some 0x1f801410; None].

Definition DELAY_REGISTERS : list (option Z) :=
  [Some 0x1f801008; Some 0x1f80100c; Some 0x1f801010; None; Some 0x1f801014;
   Some 0x1f801018; None; None; Some 0x1f80101c; Some 0x1f801414; Some 0x1f801418;
   Some 0x1f80141c; Some 0x1f801420].

Inductive SsbusError :=
| InvalidRegister (address : Z)
| InvalidDevice (device : Z) (kind : string).

Record SsbusController := mkSsbusController {
  bases : list Z;
  delays : list Z;
  common_delay : Z;
}.

#[export] Instance SsbusController_fields : Fields SsbusController := fun c =>
  mkSsbusController (bases c) (delays c) (common_delay c).

(** [registers.iter().position(|register| *register == Some(address))] *)
Definition register_device (registers : list (option Z)) (address : Z) : option nat :=
  fst <$> list_find (fun register => register = Some address) registers.

Definition device_index (registers : list (option Z)) (device : Z) (kind : string)
    : outcome SsbusError nat :=
  match registers !! Z.to_nat device with
  | Some (Some _) => Ok (Z.to_nat device)
  | _ => Err (InvalidDevice device kind)
  end.

(** [values[index]] and [values[index] = value], with the panic out of range. *)
Definition at_index (values : list Z) (index : nat) : outcome SsbusError Z :=
  expect (values !! index).

Module SsbusController.

Definition new : SsbusController :=
  mkSsbusController (replicate DEVICE_COUNT 0) (replicate DEVICE_COUNT 0) 0.

Definition contains (address : Z) : bool :=
  (address =? COMMON_DELAY) ||
  bool_decide (Some address ∈ BASE_REGISTERS) ||
  bool_decide (Some address ∈ DELAY_REGISTERS).

Definition read_u32 (address : Z) (c : SsbusController) : outcome SsbusError Z :=
  if address =? COMMON_DELAY then Ok (common_delay c)
  else match register_device BASE_REGISTERS address with
  | Some device => at_index (bases c) device
  | None =>
      match register_device DELAY_REGISTERS address with
      | Some device => at_index (delays c) device
      | None => Err (InvalidRegister address)
      end
  end.

Definition put_base (device : nat) (value : Z) (c : SsbusController)
    : outcome SsbusError unit * SsbusController :=
  match bases c !! device with
  | Some _ => (Ok tt, c <| bases := <[device := value]> (bases c) |>)
  | None => (Panic, c)
  end.

Definition put_delay (device : nat) (value : Z) (c : SsbusController)
    : outcome SsbusError unit * SsbusController :=
  match delays c !! device with
  | Some _ => (Ok tt, c <| delays := <[device := value]> (delays c) |>)
  | None => (Panic, c)
  end.

Definition write_u32 (address value : Z) (c : SsbusController)
    : outcome SsbusError unit * SsbusController :=
  if address =? COMMON_DELAY then (Ok tt, c <| common_delay := value |>)
  else match register_device BASE_REGISTERS address with
  | Some device => put_base device value c
  | None =>
      match register_device DELAY_REGISTERS address with
      | Some device => put_delay device value c
      | None => (Err (InvalidRegister address), c)
      end
  end.

Definition delay (device : Z) (c : SsbusController) : outcome SsbusError Z :=
  let? index := device_index DELAY_REGISTERS device "delay" in at_index (delays c) index.

Definition base (device : Z) (c : SsbusController) : outcome SsbusError Z :=
  let? index := device_index BASE_REGISTERS device "base-address" in
  at_index (bases c) index.

(** [std::mem::replace]: the old value is returned. *)
Definition set_delay (device value : Z) (c : SsbusController)
    : outcome SsbusError Z * SsbusController :=
  match device_index DELAY_REGISTERS device "delay" with
  | Ok index =>
      match delays c !! index with
      | Some old => (Ok old, c <| delays := <[index := value]> (delays c) |>)
      | None => (Panic, c)
      end
  | Err e => (Err e, c)
  | Panic => (Panic, c)
  end.

Definition set_base (device value : Z) (c : SsbusController)
    : outcome SsbusError Z * SsbusController :=
  match device_index BASE_REGISTERS device "base-address" with
  | Ok index =>
      match bases c !! index with
      | Some old => (Ok old, c <| bases := <[index := value]> (bases c) |>)
      | None => (Panic, c)
      end
  | Err e => (Err e, c)
  | Panic => (Panic, c)
  end.

Definition set_common_delay (value : Z) (c : SsbusController) : Z * SsbusController :=
  (common_delay c, c <| common_delay := value |>).

End SsbusController.

(** ** Theorems *)

Module SsbusFacts.
Import SsbusController.

Definition wf (c : SsbusController) : Prop :=
  length (bases c) = DEVICE_COUNT /\ length (delays c) = DEVICE_COUNT.

(** The registers, and what the two ways of naming one denote. *)
Inductive register := BaseOf (device : nat) | DelayOf (device : nat) | Common.

#[local] Instance register_eq_dec : EqDecision register.
Proof. solve_decision. Defined.

Definition at_address (address : Z) : option register :=
  if address =? COMMON_DELAY then Some Common
  else match register_device BASE_REGISTERS address with
  | Some device => Some (BaseOf device)
  | None => DelayOf <$> register_device DELAY_REGISTERS address
  end.

Definition address_of (r : register) : option Z :=
  match r with
  | BaseOf device => mjoin (BASE_REGISTERS !! device)
  | DelayOf device => mjoin (DELAY_REGISTERS !! device)
  | Common => Some COMMON_DELAY
  end.

Definition value_of (c : SsbusController) (r : register) : Z :=
  match r with
  | BaseOf device => bases c !!! device
  | DelayOf device => delays c !!! device
  | Common => common_delay c
  end.

Lemma ssbus_new_wf : wf new.
Proof. done. Qed.

Lemma register_device_Some l a d : register_device l a = Some d -> l !! d = Some (Some a).
Proof.
  unfold register_device. intros ([i x] & E & ->)%fmap_Some.
  apply list_find_Some in E as (E & -> & _). done.
Qed.

(** Every register is found at its own address. *)
Lemma at_address_of r a : address_of r = Some a -> at_address a = Some r.
Proof.
  assert (forall l : list (option Z), length l = 13%nat -> forall d x, mjoin (l !! d) = Some x ->
    (d < 13)%nat) as Hlen.
  { intros l Hl d x E. destruct (l !! d) eqn:E'; [|done].
    rewrite <- Hl. by eapply lookup_lt_Some. }
  destruct r as [d|d|]; cbn [address_of]; intros E; [| |by injection E as <-].
  1: pose proof (Hlen BASE_REGISTERS eq_refl d a E) as Hd.
  2: pose proof (Hlen DELAY_REGISTERS eq_refl d a E) as Hd.
  all: do 13 (destruct d as [|d]; [first [by injection E as <-|discriminate E]|]); lia.
Qed.

Lemma at_address_range a r : at_address a = Some r -> address_of r = Some a.
Proof.
  unfold at_address. destruct (Z.eqb_spec a COMMON_DELAY) as [->|_]; [by intros [= <-]|].
  destruct (register_device BASE_REGISTERS a) as [d|] eqn:E.
  - intros [= <-]. cbn. by rewrite (register_device_Some _ _ _ E).
  - intros (d & E' & ->)%fmap_Some. cbn. by rewrite (register_device_Some _ _ _ E').
Qed.

Lemma device_range l d a : register_device l a = Some d -> (d < length l)%nat.
Proof. intros E%register_device_Some. by eapply lookup_lt_Some. Qed.

Lemma read_spec c a : wf c ->
  read_u32 a c = match at_address a with
                 | Some r => Ok (value_of c r)
                 | None => Err (InvalidRegister a)
                 end.
Proof.
  intros [Hb Hd]. unfold read_u32, at_address, at_index. destruct (a =? COMMON_DELAY); [done|].
  destruct (register_device BASE_REGISTERS a) as [d|] eqn:E.
  - apply device_range in E. cbn [value_of].
    by rewrite list_lookup_lookup_total_lt by (rewrite Hb; exact E).
  - destruct (register_device DELAY_REGISTERS a) as [d|] eqn:E'; [|done].
    apply device_range in E'. cbn [value_of fmap option_fmap option_map].
    by rewrite list_lookup_lookup_total_lt by (rewrite Hd; exact E').
Qed.

Lemma lookup_total_insert_cases (l : list Z) i j v : (i < length l)%nat ->
  <[i := v]> l !!! j = if decide (j = i) then v else l !!! j.
Proof.
  intros Hi. case_decide as E; [subst; by apply list_lookup_total_insert_eq|].
  by apply list_lookup_total_insert_ne.
Qed.

Lemma write_spec c a v : wf c ->
  match at_address a with
  | Some r => exists c', write_u32 a v c = (Ok tt, c') /\ wf c' /\
      forall r', value_of c' r' = if decide (r' = r) then v else value_of c r'
  | None => write_u32 a v c = (Err (InvalidRegister a), c)
  end.
Proof.
  intros [Hb Hd]. unfold write_u32, at_address. destruct (a =? COMMON_DELAY).
  { eexists. split; [done|]. split; [done|]. intros [d|d|]; by case_decide. }
  destruct (register_device BASE_REGISTERS a) as [d|] eqn:E.
  - apply device_range in E. change (length _) with 13%nat in E.
    unfold put_base. destruct (lookup_lt_is_Some_2 (bases c) d) as [x ->]; [by rewrite Hb|].
    eexists. split; [done|]. split; [split; cbn; [by rewrite length_insert|done]|].
    intros [d'|d'|]; cbn; [|by case_decide..].
    rewrite lookup_total_insert_cases by (by rewrite Hb). repeat case_decide; congruence.
  - destruct (register_device DELAY_REGISTERS a) as [d|] eqn:E'; [|done].
    apply device_range in E'. change (length _) with 13%nat in E'.
    cbn [fmap option_fmap option_map].
    unfold put_delay. destruct (lookup_lt_is_Some_2 (delays c) d) as [x ->]; [by rewrite Hd|].
    eexists. split; [done|]. split; [split; cbn; [done|by rewrite length_insert]|].
    intros [d'|d'|]; cbn; [by case_decide| |by case_decide].
    rewrite lookup_total_insert_cases by (by rewrite Hd). repeat case_decide; congruence.
Qed.

Lemma contains_iff a : contains a = true <-> is_Some (at_address a).
Proof.
  unfold contains, at_address. destruct (a =? COMMON_DELAY); [naive_solver|]. cbn [orb].
  assert (forall l, bool_decide (Some a ∈ l) = true <-> is_Some (register_device l a)) as Hl.
  { intros l. rewrite bool_decide_eq_true. unfold register_device. rewrite fmap_is_Some.
    split; [intros Ha; by eapply list_find_elem_of|].
    intros [[i x] E]. apply list_find_Some in E as (E & -> & _).
    by eapply list_elem_of_lookup_2. }
  rewrite orb_true_iff, !Hl. destruct (register_device BASE_REGISTERS a).
  - split; [done|by left].
  - rewrite fmap_is_Some. split; [intros [[? [=]]|H]; done|auto].
Qed.

(** The device views name the same registers. *)
Lemma base_spec c d : wf c -> 0 <= d ->
  base d c = match address_of (BaseOf (Z.to_nat d)) with
             | Some _ => Ok (value_of c (BaseOf (Z.to_nat d)))
             | None => Err (InvalidDevice d "base-address")
             end.
Proof.
  intros [Hb _] Hd. unfold base, device_index, address_of.
  destruct (BASE_REGISTERS !! Z.to_nat d) as [[a|]|] eqn:E; [|done..]. cbn [mjoin option_join].
  apply lookup_lt_Some in E. cbn [obind]. unfold at_index. cbn [value_of].
  by rewrite list_lookup_lookup_total_lt by (rewrite Hb; exact E).
Qed.

Lemma delay_spec c d : wf c -> 0 <= d ->
  delay d c = match address_of (DelayOf (Z.to_nat d)) with
              | Some _ => Ok (value_of c (DelayOf (Z.to_nat d)))
              | None => Err (InvalidDevice d "delay")
              end.
Proof.
  intros [_ Hb] Hd. unfold delay, device_index, address_of.
  destruct (DELAY_REGISTERS !! Z.to_nat d) as [[a|]|] eqn:E; [|done..]. cbn [mjoin option_join].
  apply lookup_lt_Some in E. cbn [obind]. unfold at_index. cbn [value_of].
  by rewrite list_lookup_lookup_total_lt by (rewrite Hb; exact E).
Qed.

(** Replacing a delay by device is a write at the register's address that returns
    the old word. *)
Lemma set_delay_spec c d v a : wf c -> 0 <= d ->
  address_of (DelayOf (Z.to_nat d)) = Some a ->
  set_delay d v c = (read_u32 a c, (write_u32 a v c).2).
Proof.
  intros Hc Hd Ha. pose proof (at_address_of _ _ Ha) as Hat. rewrite read_spec, Hat by done.
  revert Ha Hat. unfold set_delay, device_index, address_of, write_u32, at_address.
  destruct (DELAY_REGISTERS !! Z.to_nat d) as [[a'|]|] eqn:E; [|done..].
  cbn [mjoin option_join]. intros [= ->]. destruct (a =? COMMON_DELAY); [done|].
  destruct (register_device BASE_REGISTERS a); [done|].
  intros (d' & -> & [= <-])%fmap_Some. cbn [value_of]. unfold put_delay.
  destruct Hc as [_ Hl]. apply lookup_lt_Some in E.
  by rewrite list_lookup_lookup_total_lt by (rewrite Hl; exact E).
Qed.

Lemma set_base_spec c d v a : wf c -> 0 <= d ->
  address_of (BaseOf (Z.to_nat d)) = Some a ->
  set_base d v c = (read_u32 a c, (write_u32 a v c).2).
Proof.
  intros Hc Hd Ha. pose proof (at_address_of _ _ Ha) as Hat. rewrite read_spec, Hat by done.
  revert Ha Hat. unfold set_base, device_index, address_of, write_u32, at_address.
  destruct (BASE_REGISTERS !! Z.to_nat d) as [[a'|]|] eqn:E; [|done..].
  cbn [mjoin option_join]. intros [= ->]. destruct (a =? COMMON_DELAY); [done|].
  destruct (register_device BASE_REGISTERS a) as [d'|]; [|by intros (? & _ & [=])%fmap_Some].
  intros [= ->]. cbn [value_of]. unfold put_base.
  destruct Hc as [Hl _]. apply lookup_lt_Some in E.
  by rewrite list_lookup_lookup_total_lt by (rewrite Hl; exact E).
Qed.

(** The subsystem bus is a register file: an address of a register reads the word last
    written there, distinct registers never disturb each other, the device operations
    reach the register the address map gives that device, and any other address or
    device is refused with nothing changed. *)
Theorem ssbus_register_file c a v :
  wf c ->
  (contains a = true <-> is_Some (at_address a)) /\
  match at_address a with
  | Some r => address_of r = Some a /\
      exists c', write_u32 a v c = (Ok tt, c') /\ wf c' /\
        forall a', read_u32 a' c' = if decide (a' = a) then Ok v else read_u32 a' c
  | None => read_u32 a c = Err (InvalidRegister a) /\
      write_u32 a v c = (Err (InvalidRegister a), c)
  end.
Proof.
  intros Hc. split; [apply contains_iff|]. pose proof (write_spec c a v Hc) as Hw.
  pose proof (read_spec c a Hc) as Hr. destruct (at_address a) as [r|] eqn:E; [|done].
  split; [by apply at_address_range|]. destruct Hw as (c' & Hw & Hc' & Hv).
  exists c'. split_and!; [done..|]. intros a'. rewrite !read_spec by done.
  case_decide as Ea; [subst; by rewrite E, Hv, decide_True|].
  destruct (at_address a') as [r'|] eqn:E'; [|done]. rewrite Hv.
  case_decide as Er; [|done]. subst. apply at_address_range in E, E'. congruence.
Qed.

Lemma ssbus_register_file_witness :
  read_u32 0x1f801414 (write_u32 0x1f801414 7 new).2 = Ok 7 /\
  delay 9 (write_u32 0x1f801414 7 new).2 = Ok 7.
Proof.
  pose proof (ssbus_register_file new 0x1f801414 7 ssbus_new_wf) as [_ H].
  destruct (at_address 0x1f801414) as [r|] eqn:E; [|discriminate E].
  split; [|vm_compute; reflexivity].
  destruct H as (_ & c' & -> & _ & H). specialize (H 0x1f801414). by rewrite decide_True in H.
Defined.

End SsbusFacts.
