(* ===== verification/Ps2Memory.v ===== *)
(** * PS2 I/O processor memory: crates/hw/ps2/iop-memory/src/lib.rs

    Two megabytes of main RAM with its mirrors, the scratchpad, and the decoder that
    hands hardware registers, the sound processor and the firmware range to the
    machine.  [usize] has 64 bits.  The theorems: memory is an array of cells, an
    access of one, two or four bytes reaches a run of cells or none, and a refused
    store changes nothing. *)

From S2P Require Import Prelude MachineInt Records.
From S2P Require Export Buffer.

Definition RAM_SIZE : Z := 2 * 1024 * 1024.
Definition RAM_SIZE_U32 : Z := 2 * 1024 * 1024.
Definition RAM_MIRROR_END : Z := 8 * 1024 * 1024.
Definition SCRATCHPAD_START : Z := 0x1f800000.
Definition SCRATCHPAD_SIZE : Z := 0x800.
Definition SCRATCHPAD_SIZE_U32 : Z := 0x800.
Definition MMIO_START : Z := 0x1f801000.
Definition MMIO_END : Z := 0x1f80ffff.
Definition SPU2_MMIO_START : Z := 0x1f900000.
Definition SPU2_MMIO_END : Z := 0x1f90ffff.
Definition HLE_ROM_START : Z := 0x1fc00000.
Definition HLE_ROM_END : Z := 0x1fc7ffff.

Inductive OpenBusPolicy := Strict | Ones.

Inductive MemoryRegion :=
| Ram (offset : Z)
| Scratchpad (offset : Z)
| Mmio (physical : Z)
| Spu2 (physical : Z)
| HleRom (physical : Z)
| Unmapped (physical : Z).

(** The last argument of [InvalidRamRange] is the length. *)
Inductive MemoryError :=
| UnsupportedSegment (address : Z)
| UnsupportedAddressWidth (address : Z)
| Mmio_error (address : Z)
| Spu2_error (address : Z)
| HleRom_error (address : Z)
| Unmapped_error (address : Z)
| CrossesBoundary (address : Z)
| InvalidRamRange (address length : Z).

Record IopMemory := mkIopMemory {
  ram : Buffer;
  scratchpad : Buffer;
  open_bus : OpenBusPolicy;
}.

#[export] Instance IopMemory_fields : Fields IopMemory := fun m =>
  mkIopMemory (ram m) (scratchpad m) (open_bus m).

Definition region_kind (region : MemoryRegion) : Z :=
  match region with
  | Ram _ => 0
  | Scratchpad _ => 1
  | Mmio _ => 2
  | Spu2 _ => 3
  | HleRom _ => 4
  | Unmapped _ => 5
  end.

(** [(first..=last).contains(&x)] *)
Definition within (first last x : Z) : bool := (first <=? x) && (x <=? last).

Module IopMemory.

Definition new (policy : OpenBusPolicy) : IopMemory :=
  mkIopMemory (Buffer.zeroed RAM_SIZE) (Buffer.zeroed SCRATCHPAD_SIZE) policy.

Definition load_ram (address : Z) (bytes : list Z) (m : IopMemory)
    : outcome MemoryError unit * IopMemory :=
  let length := Z.of_nat (length bytes) in
  let invalid := (Err (InvalidRamRange address length), m) in
  match checked_add_u 64 address length with
  | Some end_ =>
      if end_ <=? RAM_SIZE then
        match Buffer.copy_from (ram m) address bytes with
        | Some b => (Ok tt, m <| ram := b |>)
        | None => (Panic, m)
        end
      else invalid
  | None => invalid
  end.

Definition translate (address : Z) : outcome MemoryError Z :=
  if within 0x00000000 0x3fffffff address || within 0x80000000 0xbfffffff address
  then Ok (address .& 0x1fffffff)
  else Err (UnsupportedSegment address).

Definition classify (address : Z) : outcome MemoryError MemoryRegion :=
  let? physical := translate address in
  if physical <? RAM_MIRROR_END then
    let? offset := ok_or (try_from_u 64 (physical mod RAM_SIZE_U32))
      (UnsupportedAddressWidth address) in
    Ok (Ram offset)
  else if within SCRATCHPAD_START (SCRATCHPAD_START + SCRATCHPAD_SIZE_U32 - 1) physical then
    let? offset := ok_or (try_from_u 64 (physical - SCRATCHPAD_START))
      (UnsupportedAddressWidth address) in
    Ok (Scratchpad offset)
  else if within MMIO_START MMIO_END physical then Ok (Mmio physical)
  else if within SPU2_MMIO_START SPU2_MMIO_END physical then Ok (Spu2 physical)
  else if within HLE_ROM_START HLE_ROM_END physical then Ok (HleRom physical)
  else Ok (Unmapped physical).

Definition read_decoded_u8 (region : MemoryRegion) (m : IopMemory) : outcome MemoryError Z :=
  match region with
  | Ram offset => expect (Buffer.get (ram m) offset)
  | Scratchpad offset => expect (Buffer.get (scratchpad m) offset)
  | Mmio physical => Err (Mmio_error physical)
  | Spu2 physical => Err (Spu2_error physical)
  | HleRom physical => Err (HleRom_error physical)
  | Unmapped physical =>
      match open_bus m with
      | Strict => Err (Unmapped_error physical)
      | Ones => Ok (2 ^ 8 - 1)
      end
  end.

Definition write_decoded_u8 (region : MemoryRegion) (value : Z) (m : IopMemory)
    : outcome MemoryError unit * IopMemory :=
  match region with
  | Ram offset =>
      match Buffer.set (ram m) offset value with
      | Some b => (Ok tt, m <| ram := b |>)
      | None => (Panic, m)
      end
  | Scratchpad offset =>
      match Buffer.set (scratchpad m) offset value with
      | Some b => (Ok tt, m <| scratchpad := b |>)
      | None => (Panic, m)
      end
  | Mmio physical => (Err (Mmio_error physical), m)
  | Spu2 physical => (Err (Spu2_error physical), m)
  | HleRom physical => (Err (HleRom_error physical), m)
  | Unmapped physical =>
      match open_bus m with
      | Strict => (Err (Unmapped_error physical), m)
      | Ones => (Ok tt, m)
      end
  end.

Definition validate_span (address : Z) (first : MemoryRegion) (length : Z)
    : outcome MemoryError unit :=
  let? last_address := ok_or (checked_add_u 32 address (length - 1)) (CrossesBoundary address) in
  let? last := classify last_address in
  if negb (region_kind first =? region_kind last) then Err (CrossesBoundary address)
  else
    match first, last with
    | Ram first, Ram last | Scratchpad first, Scratchpad last =>
        if last <? first then Err (CrossesBoundary address) else Ok tt
    | _, _ => Ok tt
    end.

Definition read_u8 (address : Z) (m : IopMemory) : outcome MemoryError Z :=
  let? region := classify address in read_decoded_u8 region m.

Definition read_u16 (address : Z) (m : IopMemory) : outcome MemoryError Z :=
  let? region := classify address in
  let? _ := validate_span address region 2 in
  let? b0 := read_decoded_u8 region m in
  let? b1 := read_u8 (wrap 32 (address + 1)) m in
  Ok (from_le [b0; b1]).

(** The bytes at the [offsets] from the address. *)
Fixpoint read_bytes (offsets : list Z) (address : Z) (m : IopMemory)
    : outcome MemoryError (list Z) :=
  match offsets with
  | [] => Ok []
  | offset :: offsets =>
      let? byte := read_u8 (wrap 32 (address + offset)) m in
      let? bytes := read_bytes offsets address m in
      Ok (byte :: bytes)
  end.

Definition read_u32 (address : Z) (m : IopMemory) : outcome MemoryError Z :=
  let? region := classify address in
  let? _ := validate_span address region 4 in
  let? bytes := read_bytes [0; 1; 2; 3] address m in
  Ok (from_le bytes).

Definition write_u8 (address value : Z) (m : IopMemory)
    : outcome MemoryError unit * IopMemory :=
  match classify address with
  | Ok region => write_decoded_u8 region value m
  | Err e => (Err e, m)
  | Panic => (Panic, m)
  end.

(** [for (offset, byte) in offsets.zip(bytes) { self.write_u8(..)? }] *)
Fixpoint write_bytes (offsets bytes : list Z) (address : Z) (m : IopMemory)
    : outcome MemoryError unit * IopMemory :=
  match offsets, bytes with
  | offset :: offsets, byte :: bytes =>
      let! (_u, m) := write_u8 (wrap 32 (address + offset)) byte m in
      write_bytes offsets bytes address m
  | _, _ => (Ok tt, m)
  end.

Definition write_u16 (address value : Z) (m : IopMemory)
    : outcome MemoryError unit * IopMemory :=
  match (let? region := classify address in validate_span address region 2) with
  | Ok _ => write_bytes [0; 1] (le_bytes 2 value) address m
  | Err e => (Err e, m)
  | Panic => (Panic, m)
  end.

Definition write_u32 (address value : Z) (m : IopMemory)
    : outcome MemoryError unit * IopMemory :=
  match (let? region := classify address in validate_span address region 4) with
  | Ok _ => write_bytes [0; 1; 2; 3] (le_bytes 4 value) address m
  | Err e => (Err e, m)
  | Panic => (Panic, m)
  end.

End IopMemory.
