(* ===== verification/Ps2MemoryFacts.v ===== *)
(** * What PS2 I/O processor memory promises

    A memory is an array of cells: [locate] gives the cell an address names, [span]
    the first cell of an access.  Loads and stores of every width are accesses to the
    run of cells, or are refused as a whole. *)

From S2P Require Import Prelude MachineInt Records Ps2Memory.
Import Ps2Memory.IopMemory.

Record wf (m : IopMemory) : Prop := {
  wf_ram : buf_len (ram m) = RAM_SIZE;
  wf_ram_bytes : Buffer.bytes_ok (ram m);
  wf_scratch : buf_len (scratchpad m) = SCRATCHPAD_SIZE;
  wf_scratch_bytes : Buffer.bytes_ok (scratchpad m);
}.

Lemma iop_memory_new_wf p : wf (new p).
Proof. constructor; try done; apply Buffer.zeroed_ok. Qed.

(** The decoder on physical addresses. *)
Definition decode (p : Z) : MemoryRegion :=
  if p <? RAM_MIRROR_END then Ram (p mod RAM_SIZE)
  else if within SCRATCHPAD_START (SCRATCHPAD_START + SCRATCHPAD_SIZE - 1) p
  then Scratchpad (p - SCRATCHPAD_START)
  else if within MMIO_START MMIO_END p then Mmio p
  else if within SPU2_MMIO_START SPU2_MMIO_END p then Spu2 p
  else if within HLE_ROM_START HLE_ROM_END p then HleRom p
  else Unmapped p.

Lemma within_spec a b x : reflect (a <= x <= b) (within a b x).
Proof.
  apply iff_reflect. unfold within. rewrite andb_true_iff, !Z.leb_le. lia.
Qed.

Ltac unfold_map :=
  unfold RAM_SIZE, RAM_SIZE_U32, RAM_MIRROR_END, SCRATCHPAD_START, SCRATCHPAD_SIZE,
    SCRATCHPAD_SIZE_U32, MMIO_START, MMIO_END, SPU2_MMIO_START, SPU2_MMIO_END,
    HLE_ROM_START, HLE_ROM_END in *.

Definition direct (a : Z) : bool := within 0 0x3fffffff a || within 0x80000000 0xbfffffff a.

Lemma iop_classify_decode a :
  classify a = if direct a then Ok (decode (a mod 2 ^ 29)) else Err (UnsupportedSegment a).
Proof.
  unfold classify, translate, direct. destruct (_ || _); [|done]. cbn [obind].
  change 0x1fffffff with (Z.ones 29). rewrite Z.land_ones by lia.
  pose proof (Z.mod_pos_bound a (2 ^ 29) ltac:(lia)) as Hp.
  set (p := a mod 2 ^ 29) in *. clearbody p. unfold decode.
  destruct (Z.ltb_spec p RAM_MIRROR_END).
  { pose proof (Z.mod_pos_bound p RAM_SIZE ltac:(done)).
    change RAM_SIZE_U32 with RAM_SIZE. by rewrite try_from_u_in by (unfold_map; lia). }
  change SCRATCHPAD_SIZE_U32 with SCRATCHPAD_SIZE. destruct (within_spec SCRATCHPAD_START
    (SCRATCHPAD_START + SCRATCHPAD_SIZE - 1) p).
  { by rewrite try_from_u_in by (unfold_map; lia). }
  by repeat destruct (within _ _ _).
Qed.

Lemma iop_classify_no_panic a : no_panic (classify a).
Proof. rewrite iop_classify_decode. by destruct (direct a). Qed.

(** ** Cells *)

Inductive location := RamAt (offset : Z) | ScratchAt (offset : Z).

#[global] Instance location_eq : EqDecision location.
Proof. solve_decision. Defined.

Definition region_location (r : MemoryRegion) : option location :=
  match r with
  | Ram o => Some (RamAt o)
  | Scratchpad o => Some (ScratchAt o)
  | _ => None
  end.

(** The address map: the segments of 512 megabytes that reach memory directly are the
    two from zero and the two from 0x80000000; each shows the two megabytes of RAM four
    times at its bottom and the scratchpad at 0x1f800000.  It is the map the hardware
    documents, not the decoder of the code. *)
Definition direct_segments : list Z := [0; 1; 4; 5].

(** The cell an address names, when one backs it. *)
Definition locate (a : Z) : option location :=
  let p := a mod 0x20000000 in
  if decide (a / 0x20000000 ∈ direct_segments) then
    if p <? 4 * 0x200000 then Some (RamAt (p mod 0x200000))
    else if (0x1f800000 <=? p) && (p <? 0x1f800800) then Some (ScratchAt (p - 0x1f800000))
    else None
  else None.

Lemma direct_segment a : direct a = bool_decide (a / 0x20000000 ∈ direct_segments).
Proof.
  unfold direct, direct_segments. pose proof (Z.div_mod a 0x20000000 ltac:(lia)) as E.
  pose proof (Z.mod_pos_bound a 0x20000000 ltac:(lia)) as Hb.
  apply eq_true_iff_eq. rewrite orb_true_iff, bool_decide_eq_true, !elem_of_cons, elem_of_nil.
  destruct (within_spec 0 0x3fffffff a), (within_spec 0x80000000 0xbfffffff a); naive_solver lia.
Qed.

(** The decoder implements the map. *)
Lemma locate_classify a :
  locate a = match classify a with Ok r => region_location r | _ => None end.
Proof.
  rewrite iop_classify_decode, direct_segment. unfold locate. change (2 ^ 29) with 0x20000000.
  case_decide as Hd; [rewrite bool_decide_true by done|by rewrite bool_decide_false by done].
  set (p := a mod 0x20000000). unfold decode. unfold_map. change (8 * 1024 * 1024) with 0x800000.
  change (4 * 0x200000) with 0x800000. destruct (p <? 0x800000); [done|].
  destruct (within_spec 0x1f800000 (0x1f800000 + 0x800 - 1) p) as [Hp|Hp].
  - rewrite (proj2 (Z.leb_le _ _)), (proj2 (Z.ltb_lt _ _)) by lia. done.
  - destruct (Z.leb_spec 0x1f800000 p), (Z.ltb_spec p 0x1f800800); try lia.
    all: cbn [andb]; by repeat destruct (within _ _ _).
Qed.

Definition shift (l : location) (k : Z) : location :=
  match l with RamAt o => RamAt (o + k) | ScratchAt o => ScratchAt (o + k) end.

Definition byte_at (m : IopMemory) (l : location) : Z :=
  match l with
  | RamAt o => Buffer.cell (ram m) o
  | ScratchAt o => Buffer.cell (scratchpad m) o
  end.

(** The first cell of an access of [n] bytes that memory backs. *)
Definition span (n a : Z) : option location :=
  match locate a, locate (a + (n - 1)) with
  | Some (RamAt o), Some (RamAt o') => if o' <? o then None else Some (RamAt o)
  | Some (ScratchAt o), Some (ScratchAt o') => if o' <? o then None else Some (ScratchAt o)
  | _, _ => None
  end.

Lemma locate_direct a l : locate a = Some l ->
  direct a = true /\ region_location (decode (a mod 2 ^ 29)) = Some l.
Proof. rewrite locate_classify, iop_classify_decode. by destruct (direct a). Qed.

Lemma decode_location p l : 0 <= p ->
  region_location (decode p) = Some l <->
  p < RAM_MIRROR_END /\ l = RamAt (p mod RAM_SIZE) \/
  SCRATCHPAD_START <= p < SCRATCHPAD_START + SCRATCHPAD_SIZE /\
    l = ScratchAt (p - SCRATCHPAD_START).
Proof.
  intros Hp. unfold decode. destruct (Z.ltb_spec p RAM_MIRROR_END); cbn.
  { unfold_map. naive_solver lia. }
  destruct (within_spec SCRATCHPAD_START (SCRATCHPAD_START + SCRATCHPAD_SIZE - 1) p); cbn.
  { unfold_map. naive_solver lia. }
  split; [by repeat destruct (within _ _ _)|]. unfold_map. naive_solver lia.
Qed.

Lemma iop_locate_range a l : locate a = Some l ->
  match l with RamAt o => 0 <= o < RAM_SIZE | ScratchAt o => 0 <= o < SCRATCHPAD_SIZE end.
Proof.
  intros [_ H]%locate_direct. apply decode_location in H; [|apply Z.mod_pos_bound; lia].
  destruct H as [[_ ->]|[? ->]]; [by apply Z.mod_pos_bound|lia].
Qed.

(** A located address is not the end of its segment. *)
Lemma locate_next a l k : locate a = Some l -> 0 <= k < 4 ->
  (a + k) mod 2 ^ 29 = a mod 2 ^ 29 + k /\ direct (a + k) = true.
Proof.
  intros [Hd H]%locate_direct Hk.
  pose proof (Z.mod_pos_bound a (2 ^ 29) ltac:(lia)) as Hp.
  pose proof (Z.div_mod a (2 ^ 29) ltac:(lia)) as Ed.
  apply decode_location in H; [|lia]. unfold_map.
  assert (a mod 2 ^ 29 + k < 2 ^ 29) as Hlt by (destruct H as [[? _]|[? _]]; lia).
  split.
  - symmetry. apply (Z.mod_unique_pos _ _ (a / 2 ^ 29)); lia.
  - unfold direct in *. apply orb_true_iff.
    destruct (within_spec 0 0x3fffffff a), (within_spec 0x80000000 0xbfffffff a); try done.
    1-2: left. 3: right.
    all: unfold within; apply andb_true_iff; rewrite !Z.leb_le.
    all: generalize dependent (a mod 2 ^ 29); generalize dependent (a / 2 ^ 29); intros; lia.
Qed.

Lemma mod_step p k : 0 <= p -> 0 <= k -> p mod RAM_SIZE <= (p + k) mod RAM_SIZE ->
  k < 4 -> (p + k) mod RAM_SIZE = p mod RAM_SIZE + k.
Proof.
  intros Hp Hk Hle Hk4. pose proof (Z.mod_pos_bound p RAM_SIZE ltac:(done)) as Hb.
  pose proof (Z.div_mod p RAM_SIZE ltac:(done)) as Ed.
  destruct (Z.lt_ge_cases (p mod RAM_SIZE + k) RAM_SIZE) as [Hlt|Hge].
  - symmetry. apply (Z.mod_unique_pos _ _ (p / RAM_SIZE)); lia.
  - assert ((p + k) mod RAM_SIZE = p mod RAM_SIZE + k - RAM_SIZE) as E.
    { symmetry. apply (Z.mod_unique_pos _ _ (p / RAM_SIZE + 1)); unfold_map; lia. }
    unfold_map. lia.
Qed.

(** The cells of an access are consecutive. *)
Lemma span_cells n a l k : 1 <= n <= 4 -> span n a = Some l -> 0 <= k < n ->
  locate (a + k) = Some (shift l k).
Proof.
  intros Hn Hs Hk. unfold span in Hs. destruct (locate a) as [l0|] eqn:E; [|done].
  destruct (locate_next a l0 k E ltac:(lia)) as [Ek Dk].
  destruct (locate_next a l0 (n - 1) E ltac:(lia)) as [El _].
  apply locate_direct in E as [_ E]. pose proof (Z.mod_pos_bound a (2 ^ 29) ltac:(lia)) as Hp.
  rewrite locate_classify, iop_classify_decode, Dk, Ek. apply decode_location; [lia|].
  destruct (locate (a + (n - 1))) as [l1|] eqn:E1; [|by destruct l0].
  apply locate_direct in E1 as [_ E1]. rewrite El in E1.
  apply decode_location in E; [|lia]. apply decode_location in E1; [|lia].
  set (p := a mod 2 ^ 29) in *. clearbody p.
  destruct E as [[H ->]|[H ->]], E1 as [[H1 ->]|[H1 ->]]; try done.
  - destruct (Z.ltb_spec ((p + (n - 1)) mod RAM_SIZE) (p mod RAM_SIZE)) as [|Hle]; [done|].
    injection Hs as <-. left. split; [lia|]. cbn. f_equal.
    pose proof (mod_step p (n - 1) ltac:(lia) ltac:(lia) Hle ltac:(lia)) as Em.
    pose proof (Z.div_mod p RAM_SIZE ltac:(done)).
    pose proof (Z.mod_pos_bound (p + (n - 1)) RAM_SIZE ltac:(done)).
    pose proof (Z.mod_pos_bound p RAM_SIZE ltac:(done)).
    apply (Z.mod_unique_pos _ _ (p / RAM_SIZE)); lia.
  - destruct (Z.ltb_spec (p + (n - 1) - SCRATCHPAD_START) (p - SCRATCHPAD_START)); [done|].
    injection Hs as <-. right. split; [lia|]. cbn. f_equal. lia.
Qed.

Lemma iop_read_u8_spec a m : wf m ->
  match locate a with
  | Some l => read_u8 a m = Ok (byte_at m l)
  | None => (exists e, read_u8 a m = Err e) \/ open_bus m = Ones /\ read_u8 a m = Ok 0xff
  end.
Proof.
  intros []. pose proof (iop_locate_range a) as Hr. revert Hr. rewrite locate_classify. unfold read_u8.
  rewrite iop_classify_decode. destruct (direct a); cbn [obind]; [|eauto].
  destruct (decode _) as [o|o|p|p|p|p]; cbn [region_location read_decoded_u8]; intros Hr;
    [| |eauto..|].
  - specialize (Hr _ eq_refl). cbn in Hr. by rewrite Buffer.get_in by lia.
  - specialize (Hr _ eq_refl). cbn in Hr. by rewrite Buffer.get_in by lia.
  - destruct (open_bus m); eauto.
Qed.

Lemma iop_write_u8_spec a v m : wf m -> in_u 8 v ->
  match locate a with
  | Some l => exists m', write_u8 a v m = (Ok tt, m') /\ wf m' /\
      open_bus m' = open_bus m /\
      forall l', byte_at m' l' = if decide (l' = l) then v else byte_at m l'
  | None => ((exists e, write_u8 a v m = (Err e, m)) \/
             open_bus m = Ones /\ write_u8 a v m = (Ok tt, m))
  end.
Proof.
  intros [] Hv. pose proof (iop_locate_range a) as Hr. revert Hr. rewrite locate_classify. unfold write_u8.
  rewrite iop_classify_decode. destruct (direct a); [|eauto].
  destruct (decode _) as [o|o|p|p|p|p]; cbn [region_location write_decoded_u8]; intros Hr;
    [| |eauto..|].
  - specialize (Hr _ eq_refl). cbn in Hr. rewrite Buffer.set_in by lia.
    eexists. split_and!; [done| |done|].
    + constructor; try done. cbn. by apply map_Forall_insert_2.
    + intros [o'|o']; cbn; [rewrite Buffer.cell_insert|]; repeat case_decide; congruence.
  - specialize (Hr _ eq_refl). cbn in Hr. rewrite Buffer.set_in by lia.
    eexists. split_and!; [done| |done|].
    + constructor; try done. cbn. by apply map_Forall_insert_2.
    + intros [o'|o']; cbn; [|rewrite Buffer.cell_insert]; repeat case_decide; congruence.
  - destruct (open_bus m); eauto.
Qed.

Lemma shift_inj l k k' : shift l k = shift l k' -> k = k'.
Proof. destruct l; intros [= ?]; lia. Qed.

Lemma shift_0 l : shift l 0 = l.
Proof. destruct l; cbn; by rewrite Z.add_0_r. Qed.

(** ** The bounds check of an access *)

Lemma decode_ram p : p < RAM_MIRROR_END -> decode p = Ram (p mod RAM_SIZE).
Proof. intros. unfold decode. by rewrite (proj2 (Z.ltb_lt _ _)). Qed.

Lemma decode_scratch p : SCRATCHPAD_START <= p < SCRATCHPAD_START + SCRATCHPAD_SIZE ->
  decode p = Scratchpad (p - SCRATCHPAD_START).
Proof.
  intros Hp. unfold decode. rewrite (proj2 (Z.ltb_ge _ _)) by (unfold_map; lia).
  destruct (within_spec SCRATCHPAD_START (SCRATCHPAD_START + SCRATCHPAD_SIZE - 1) p); [done|lia].
Qed.

Lemma decode_unmapped p : RAM_MIRROR_END <= p < SCRATCHPAD_START \/ HLE_ROM_END < p ->
  decode p = Unmapped p.
Proof.
  intros Hp. unfold decode. rewrite (proj2 (Z.ltb_ge _ _)) by (unfold_map; lia).
  destruct (within_spec SCRATCHPAD_START (SCRATCHPAD_START + SCRATCHPAD_SIZE - 1) p);
    [unfold_map; lia|].
  destruct (within_spec MMIO_START MMIO_END p); [unfold_map; lia|].
  destruct (within_spec SPU2_MMIO_START SPU2_MMIO_END p); [unfold_map; lia|].
  destruct (within_spec HLE_ROM_START HLE_ROM_END p); [unfold_map; lia|done].
Qed.

(** Around a located address everything near is located or of another kind. *)
Lemma not_between n a k r : 1 <= n <= 4 -> 0 <= k < n ->
  classify a = Ok r -> validate_span a r n = Ok tt -> is_Some (locate (a + k)) ->
  is_Some (region_location r).
Proof.
  intros Hn Hk Hr Hv [l Hl]. pose proof (locate_next (a + k) l (n - 1 - k) Hl ltac:(lia)) as [Ep Dp].
  replace (a + k + (n - 1 - k)) with (a + (n - 1)) in Ep, Dp by lia.
  apply locate_direct in Hl as [Dk Hl].
  pose proof (Z.mod_pos_bound (a + k) (2 ^ 29) ltac:(lia)) as Hq.
  pose proof (Z.mod_pos_bound a (2 ^ 29) ltac:(lia)) as Hp.
  pose proof (Z.div_mod (a + k) (2 ^ 29) ltac:(lia)) as Eq.
  pose proof (Z.div_mod a (2 ^ 29) ltac:(lia)) as Ea.
  set (q := (a + k) mod 2 ^ 29) in *. set (p := a mod 2 ^ 29) in *.
  assert (p = q - k \/ p = q - k + 2 ^ 29) as Hpq.
  { generalize dependent ((a + k) / 2 ^ 29). generalize dependent (a / 2 ^ 29).
    change (2 ^ 29) with 536870912 in *. intros. lia. }
  unfold validate_span in Hv. apply obind_ok in Hv as (last & Hlast & Hv).
  apply ok_or_ok, checked_add_u_Some in Hlast as [-> _].
  rewrite iop_classify_decode, Dp, Ep in Hv. cbn [obind] in Hv.
  rewrite iop_classify_decode in Hr. destruct (direct a); [|done]. injection Hr as <-.
  fold p in Hv |- *. clearbody p q. clear Ea Eq Ep Dp Dk.
  apply decode_location in Hl; [|lia].
  assert (decode p = Unmapped p -> region_kind (decode (q + (n - 1 - k))) <> 5 -> False) as Hbad.
  { intros E Hne. rewrite E in Hv. cbn [region_kind] in Hv.
    destruct (Z.eqb_spec 5 (region_kind (decode (q + (n - 1 - k))))); [lia|done]. }
  destruct Hl as [[Hl _]|[Hl _]].
  - destruct (Z.lt_ge_cases p RAM_MIRROR_END).
    { rewrite decode_ram by done. by eexists. }
    destruct Hbad; [apply decode_unmapped|rewrite decode_ram; [done|]]; unfold_map; lia.
  - destruct (Z.lt_ge_cases p SCRATCHPAD_START).
    + destruct Hbad; [apply decode_unmapped|rewrite decode_scratch; [done|]]; unfold_map; lia.
    + rewrite decode_scratch by (unfold_map; lia). by eexists.
Qed.

Lemma locate_top a l : locate a = Some l -> 0 <= a < 0xc0000000.
Proof.
  intros [Hd _]%locate_direct. unfold direct in Hd. apply orb_true_iff in Hd.
  destruct (within_spec 0 0x3fffffff a), (within_spec 0x80000000 0xbfffffff a); naive_solver lia.
Qed.

Lemma span_last n a l : span n a = Some l ->
  locate a = Some l /\ is_Some (locate (a + (n - 1))).
Proof.
  unfold span. destruct (locate a) as [[o|o]|], (locate (a + (n - 1))) as [[o'|o']|]; try done.
  all: destruct (o' <? o); [done|]; intros [= <-]; eauto.
Qed.

Lemma validate_span_iff n a r : 1 <= n <= 4 -> classify a = Ok r ->
  is_Some (region_location r) ->
  validate_span a r n = Ok tt <-> is_Some (span n a).
Proof.
  intros Hn Hr [l Hl]. assert (locate a = Some l) as Ha by (by rewrite locate_classify, Hr).
  pose proof (locate_top a l Ha). unfold validate_span.
  rewrite (proj2 (checked_add_u_Some 32 a (n - 1) _)) by (split; [done|lia]).
  cbn [ok_or obind]. unfold span. rewrite Ha, locate_classify.
  destruct (locate_next a l (n - 1) Ha ltac:(lia)) as [_ Hd].
  rewrite iop_classify_decode, Hd. cbn [obind]. destruct r as [o|o|p|p|p|p]; try done;
    injection Hl as <-; destruct (decode _) as [o'|o'|p|p|p|p]; cbn;
    try (split; [done|intros [? [=]]]).
  all: destruct (o' <? o); [split; [done|intros [? [=]]]|split; [by eexists|done]].
Qed.

Lemma iop_validate_no_panic n a r : no_panic (validate_span a r n).
Proof.
  unfold validate_span. destruct (checked_add_u 32 a (n - 1)); cbn [ok_or obind]; [|done].
  rewrite iop_classify_decode. destruct (direct _); cbn [obind]; [|done].
  by destruct r, (decode _); cbn; try case_goal.
Qed.

(** The check of a wide access: its cells, or nothing is backed. *)
Lemma checked_span n a : 1 <= n <= 4 ->
  match (let? region := classify a in validate_span a region n) with
  | Ok _ => is_Some (span n a) \/
      a + (n - 1) < 2 ^ 32 /\ forall k, 0 <= k < n -> locate (a + k) = None
  | Err _ => span n a = None
  | Panic => False
  end.
Proof.
  intros Hn. pose proof (iop_classify_no_panic a) as Hnp.
  destruct (classify a) as [r|e|] eqn:Er; cbn [obind]; [| |done].
  - pose proof (iop_validate_no_panic n a r). destruct (region_location r) as [l|] eqn:El.
    + pose proof (validate_span_iff n a r Hn Er ltac:(by eexists)) as Hi.
      destruct (validate_span a r n) as [[]|e|]; [left; by apply Hi| |done].
      destruct (span n a); [|done]. by assert (Err e = Ok tt :> outcome _ unit) by (apply Hi; by eexists).
    + destruct (validate_span a r n) as [[]|e|] eqn:Ev; [| |done].
      * right. split.
        { unfold validate_span in Ev. apply obind_ok in Ev as (? & Ev & _).
          by apply ok_or_ok, checked_add_u_Some in Ev as [_ ?]. }
        intros k Hk. destruct (locate (a + k)) eqn:E; [|done].
        destruct (not_between n a k r Hn Hk Er Ev ltac:(by eexists)) as [? ?]. congruence.
      * unfold span. by rewrite (locate_classify a), Er, El.
  - unfold span. by rewrite (locate_classify a), Er.
Qed.

(** ** Runs of bytes *)

Section runs.
Context (n a : Z) (l : location).
Hypotheses (Hn : 1 <= n <= 4) (Hspan : span n a = Some l).

Lemma wrap_cell k : 0 <= k < n -> wrap 32 (a + k) = a + k.
Proof using Hn Hspan.
  intros Hk. pose proof (locate_top _ _ (span_cells n a l k Hn Hspan Hk)).
  apply wrap_id. unfold in_u. lia.
Qed.

Lemma read_bytes_cells m offsets : wf m -> Forall (fun k => 0 <= k < n) offsets ->
  read_bytes offsets a m = Ok ((fun k => byte_at m (shift l k)) <$> offsets).
Proof using Hn Hspan.
  intros Hm. induction 1 as [|k offsets Hk _ IH]; [done|]. cbn [read_bytes].
  rewrite wrap_cell by done. pose proof (iop_read_u8_spec (a + k) m Hm) as Hr.
  rewrite (span_cells n a l k) in Hr by done. rewrite Hr. cbn [obind]. by rewrite IH.
Qed.

Lemma write_bytes_cells offsets bytes m : wf m -> Forall (in_u 8) bytes ->
  Forall (fun k => 0 <= k < n) offsets -> NoDup offsets -> length offsets = length bytes ->
  exists m', write_bytes offsets bytes a m = (Ok tt, m') /\ wf m' /\
    open_bus m' = open_bus m /\
    (fun k => byte_at m' (shift l k)) <$> offsets = bytes /\
    forall l', (forall k, k ∈ offsets -> l' <> shift l k) -> byte_at m' l' = byte_at m l'.
Proof using Hn Hspan.
  intros Hm Hb Ho Hd Hlen. revert bytes m Hm Hb Hlen.
  induction offsets as [|k offsets IH]; intros [|b bytes] m Hm Hb Hlen; try done.
  { exists m. by split_and!. }
  inversion Ho as [|? ? Hk Ho']; subst. inversion Hb as [|? ? Hb0 Hb']; subst.
  inversion Hd as [|? ? Hnk Hd']; subst. cbn [write_bytes].
  rewrite wrap_cell by done. pose proof (iop_write_u8_spec (a + k) b m Hm Hb0) as Hw.
  rewrite (span_cells n a l k) in Hw by done. destruct Hw as (m1 & -> & Hm1 & Ebus & Hv).
  destruct (IH Ho' Hd' bytes m1 Hm1 Hb' ltac:(by injection Hlen)) as (m' & -> & Hm' & Ebus' & Hs & Hf).
  exists m'. split_and!; [done|done|congruence| |].
  - cbn. f_equal; [|done]. rewrite Hf, Hv, decide_True; [done..|].
    intros k' Hk' E%shift_inj. by subst.
  - intros l' Hl'. rewrite Hf by (intros k' Hk'; apply Hl'; by right).
    rewrite Hv, decide_False; [done|]. apply Hl'. by left.
Qed.
End runs.

(** An access nothing backs stops at its first byte or is an open-bus access. *)
Lemma read_bytes_open a m offsets : wf m ->
  Forall (fun k => locate (wrap 32 (a + k)) = None) offsets -> offsets <> [] ->
  no_panic (read_bytes offsets a m) /\
  (is_ok (read_bytes offsets a m) = true -> open_bus m = Ones).
Proof.
  intros Hm Ho Hne. induction Ho as [|k offsets Hk Ho IH]; [done|]. cbn [read_bytes].
  pose proof (iop_read_u8_spec (wrap 32 (a + k)) m Hm) as Hr. rewrite Hk in Hr.
  destruct Hr as [[e ->]|[Hb ->]]; [done|]. cbn [obind].
  destruct offsets as [|k' offsets]; [done|]. destruct IH as [Hp Hi]; [done|].
  by destruct (read_bytes _ a m).
Qed.

Lemma write_bytes_open a m offsets bytes : wf m -> Forall (in_u 8) bytes ->
  Forall (fun k => locate (wrap 32 (a + k)) = None) offsets ->
  (write_bytes offsets bytes a m).2 = m /\ no_panic (write_bytes offsets bytes a m).1 /\
  (is_ok (write_bytes offsets bytes a m).1 = true -> offsets <> [] -> bytes <> [] ->
   open_bus m = Ones).
Proof.
  intros Hm Hb Ho. revert bytes Hb. induction Ho as [|k offsets Hk Ho IH]; [done|].
  intros [|b bytes] Hb; [done|]. inversion Hb as [|? ? Hb0 Hb']; subst. cbn [write_bytes].
  pose proof (iop_write_u8_spec (wrap 32 (a + k)) b m Hm Hb0) as Hw. rewrite Hk in Hw.
  destruct Hw as [[e ->]|[Hbus ->]]; [done|]. destruct (IH bytes Hb') as (H1 & H2 & _).
  by split_and!.
Qed.

(** ** Accesses of every width *)

Inductive width := Byte | Half | Word.

Definition size (w : width) : Z := match w with Byte => 1 | Half => 2 | Word => 4 end.
Definition offsets (w : width) : list Z :=
  match w with Byte => [0] | Half => [0; 1] | Word => [0; 1; 2; 3] end.

Definition read (w : width) : Z -> IopMemory -> outcome MemoryError Z :=
  match w with Byte => read_u8 | Half => read_u16 | Word => read_u32 end.
Definition write (w : width) : Z -> Z -> IopMemory -> outcome MemoryError unit * IopMemory :=
  match w with Byte => write_u8 | Half => write_u16 | Word => write_u32 end.

(** The little-endian value of the cells of an access. *)
Definition load (w : width) (m : IopMemory) (l : location) : Z :=
  from_le ((fun k => byte_at m (shift l k)) <$> offsets w).

Lemma size_range w : 1 <= size w <= 4.
Proof. by destruct w. Qed.

Lemma offsets_range w : Forall (fun k => 0 <= k < size w) (offsets w).
Proof. destruct w; cbn; repeat constructor; lia. Qed.

Lemma offsets_nodup w : NoDup (offsets w).
Proof. destruct w; cbn; apply (bool_decide_unpack _); vm_compute; exact I. Qed.

Lemma span_byte a : span 1 a = locate a.
Proof.
  unfold span. replace (a + (1 - 1)) with a by lia.
  destruct (locate a) as [[o|o]|]; [| |done]; by rewrite Z.ltb_irrefl.
Qed.

Lemma read_bytes_of w a m : in_u 32 a ->
  read w a m = let? _ := (let? region := classify a in validate_span a region (size w)) in
               let? bytes := read_bytes (offsets w) a m in Ok (from_le bytes).
Proof.
  intros Ha. pose proof (wrap_id 32 a Ha) as Ew.
  assert (read_u8 (wrap 32 (a + 0)) m = let? r := classify a in read_decoded_u8 r m) as E0.
  { by rewrite Z.add_0_r, Ew. }
  destruct w; cbn [read size offsets read_bytes].
  - pose proof (checked_span 1 a ltac:(lia)) as Hc. rewrite E0. unfold read_u8.
    destruct (classify a) as [r|e|] eqn:Er; cbn [obind] in Hc |- *; [|done..].
    assert (validate_span a r 1 = Ok tt) as ->.
    { destruct (region_location r) as [l|] eqn:El.
      - apply validate_span_iff; [lia|done|by eexists|]. rewrite span_byte.
        rewrite locate_classify, Er. by eexists.
      - unfold validate_span. rewrite (proj2 (checked_add_u_Some 32 a (1 - 1) _))
          by (split; [done|unfold in_u in Ha; lia]).
        cbn [ok_or obind]. replace (a + (1 - 1)) with a by lia. rewrite Er. cbn [obind].
        rewrite Z.eqb_refl. by destruct r. }
    cbn [obind]. destruct (read_decoded_u8 r m) as [b| |]; cbn; [|done..]. f_equal. lia.
  - unfold read_u16. rewrite E0. destruct (classify a) as [r|e|]; cbn [obind]; [|done..].
    destruct (validate_span a r 2); cbn [obind]; [|done..].
    destruct (read_decoded_u8 r m); cbn [obind]; [|done..].
    by destruct (read_u8 (wrap 32 (a + 1)) m).
  - unfold read_u32. by destruct (classify a).
Qed.

Lemma write_bytes_of w a v m : in_u 32 a -> in_u (8 * size w) v ->
  write w a v m =
  match (let? region := classify a in validate_span a region (size w)) with
  | Ok _ => write_bytes (offsets w) (le_bytes (length (offsets w)) v) a m
  | Err e => (Err e, m)
  | Panic => (Panic, m)
  end.
Proof.
  intros Ha Hv. destruct w; cbn [write size offsets length]; [|done..].
  cbn [le_bytes write_bytes]. rewrite Z.add_0_r, (wrap_id 32 a Ha), Z.mod_small by apply Hv.
  pose proof (read_bytes_of Byte a m Ha) as Hr. cbn [read size offsets] in Hr.
  destruct (let? region := classify a in validate_span a region 1) as [[]|e|] eqn:E.
  - by destruct (write_u8 a v m) as [[[]| |] ?].
  - unfold write_u8. destruct (classify a) as [r|e'|] eqn:Er; cbn [obind] in E; [|by injection E as ->|done].
    exfalso. pose proof (checked_span 1 a ltac:(lia)) as Hc. rewrite Er in Hc. cbn [obind] in Hc.
    rewrite E, span_byte, locate_classify, Er in Hc.
    unfold validate_span in E. rewrite (proj2 (checked_add_u_Some 32 a (1 - 1) _)) in E
      by (split; [done|unfold in_u in Ha; lia]).
    cbn [ok_or obind] in E. replace (a + (1 - 1)) with a in E by lia. rewrite Er in E.
    cbn [obind] in E. rewrite Z.eqb_refl in E. by destruct r.
  - destruct (classify a) as [r|e|] eqn:Er; cbn [obind] in E; [|done|].
    + by destruct (iop_validate_no_panic 1 a r).
    + by destruct (iop_classify_no_panic a).
Qed.

Lemma from_le_word w v : in_u (8 * size w) v -> from_le (le_bytes (length (offsets w)) v) = v.
Proof. intros Hv. apply le_from_le_bytes. by destruct w. Qed.

(** C30: I/O processor memory is an array of cells behind the address map [locate], which
    is stated apart from the decoder (two segments from zero and two from 0x80000000, RAM
    mirrored four times, the scratchpad at 0x1f800000): an access of one, two or four
    bytes either reaches consecutive cells through whichever alias, and then a load gives their
    little-endian value and a store is read back and disturbs no other cell, or memory
    does not back it, and then it never panics, a store changes nothing, and it is
    accepted only on an open bus. *)
Theorem iop_memory_cells w a v m :
  wf m -> in_u 32 a -> in_u (8 * size w) v ->
  match span (size w) a with
  | Some l => read w a m = Ok (load w m l) /\
      exists m', write w a v m = (Ok tt, m') /\ wf m' /\ open_bus m' = open_bus m /\
        read w a m' = Ok v /\
        forall l', (forall k, 0 <= k < size w -> l' <> shift l k) -> byte_at m' l' = byte_at m l'
  | None => no_panic (read w a m) /\ no_panic (write w a v m).1 /\ (write w a v m).2 = m /\
      (is_ok (read w a m) || is_ok (write w a v m).1 = true -> open_bus m = Ones)
  end.
Proof.
  intros Hm Ha Hv. pose proof (checked_span (size w) a (size_range w)) as Hc.
  rewrite write_bytes_of by done. rewrite (read_bytes_of w a m Ha).
  pose proof (le_bytes_u8 (length (offsets w)) v) as Hb.
  pose proof (length_le_bytes (length (offsets w)) v) as Hlen.
  destruct (let? region := classify a in validate_span a region (size w))
    as [[]|e|] eqn:E; cbn [obind]; [|by rewrite Hc|done].
  destruct (span (size w) a) as [l|] eqn:Hs.
  - rewrite (read_bytes_cells (size w) a l) by (apply size_range || apply offsets_range || done).
    split; [done|].
    destruct (write_bytes_cells (size w) a l (size_range w) Hs (offsets w)
      (le_bytes (length (offsets w)) v) m Hm Hb (offsets_range w) (offsets_nodup w)
      (eq_sym Hlen)) as (m' & -> & Hm' & Ebus & Hv' & Hf).
    exists m'. split_and!; [done..| |].
    + rewrite (read_bytes_of w a m' Ha), E. cbn [obind].
      rewrite (read_bytes_cells (size w) a l) by (apply size_range || apply offsets_range || done).
      cbn [obind]. rewrite Hv'. by rewrite from_le_word.
    + intros l' Hl'. apply Hf. intros k Hk. apply Hl'.
      pose proof (offsets_range w) as Ho. rewrite Forall_forall in Ho. by apply Ho.
  - destruct Hc as [[? ?]|[Htop Hc]]; [done|].
    assert (Forall (fun k => locate (wrap 32 (a + k)) = None) (offsets w)) as Ho.
    { eapply Forall_impl; [apply offsets_range|]. intros k Hk. cbn beta in *.
      rewrite wrap_id; [by apply Hc|]. unfold in_u in *. lia. }
    destruct (read_bytes_open a m (offsets w) Hm Ho) as [Hr1 Hr2]; [by destruct w|].
    destruct (write_bytes_open a m (offsets w) (le_bytes (length (offsets w)) v) Hm Hb Ho)
      as (Hw1 & Hw2 & Hw3).
    split_and!; [by destruct (read_bytes _ a m)|done|done|].
    intros [H|H]%orb_true_iff; [apply Hr2; by destruct (read_bytes _ a m)|].
    apply Hw3; [done|by destruct w..].
Qed.

Lemma iop_memory_cells_witness :
  exists m', write Word 0x80000ffe 0x44332211 (new Strict) = (Ok tt, m') /\
    read Half 0xa0201000 m' = Ok 0x4433 /\ read Half 0x20201000 m' = Ok 0x4433 /\
    (write Word 0x801ffffe 1 m').1 = Err (CrossesBoundary 0x801ffffe).
Proof.
  assert (in_u 32 0x80000ffe) as Ha by (by split).
  assert (in_u (8 * size Word) 0x44332211) as Hv by (by split).
  pose proof (iop_memory_cells Word 0x80000ffe 0x44332211 (new Strict)
    (iop_memory_new_wf Strict) Ha Hv) as H.
  destruct (span (size Word) 0x80000ffe) eqn:E; [|vm_compute in E; discriminate E].
  destruct H as (_ & m' & Hw & _). exists m'. split; [exact Hw|].
  assert (m' = (write Word 0x80000ffe 0x44332211 (new Strict)).2) as -> by (by rewrite Hw).
  split; [|split]; vm_compute; reflexivity.
Defined.
