(* ===== verification/Ps2Timers.v ===== *)
(** * PS2 I/O processor counters and refresh: crates/hw/ps2/timers/src/lib.rs

    Three 16-bit and three 32-bit counters with their registers, gates and
    prescalers, and the vertical-blank clock.  [advance_counter] skips from boundary
    to boundary, [advance_single_cpu_cycle] is the code's own path for one cycle.
    The devices are written against an interrupt sink and a timing observer.  Loops
    carry fuel, and running out of fuel is a panic. *)

From S2P Require Import Prelude MachineInt Records.
From S2P Require Export Ps2Irq.

Definition CPU_HZ : Z := 36864000.
Definition TIMER0_BASE : Z := 0x1f801100.
Definition TIMER1_BASE : Z := 0x1f801110.
Definition TIMER2_BASE : Z := 0x1f801120.
Definition TIMER3_BASE : Z := 0x1f801480.
Definition TIMER4_BASE : Z := 0x1f801490.
Definition TIMER5_BASE : Z := 0x1f8014a0.
Definition TIMER_REGISTER_END : Z := TIMER5_BASE + 0x0a.

Definition MODE_GATE_ENABLE : Z := Z.shiftl 1 0.
Definition MODE_GATE_MODE_MASK : Z := Z.shiftl 3 1.
Definition MODE_RESET_ON_TARGET : Z := Z.shiftl 1 3.
Definition MODE_IRQ_ON_TARGET : Z := Z.shiftl 1 4.
Definition MODE_IRQ_ON_OVERFLOW : Z := Z.shiftl 1 5.
Definition MODE_IRQ_REPEAT : Z := Z.shiftl 1 6.
Definition MODE_IRQ_TOGGLE : Z := Z.shiftl 1 7.
Definition MODE_EXTERNAL_CLOCK : Z := Z.shiftl 1 8.
Definition MODE_LOW_PRESCALE_8 : Z := Z.shiftl 1 9.
Definition MODE_IRQ_REQUEST : Z := Z.shiftl 1 10.
Definition MODE_REACHED_TARGET : Z := Z.shiftl 1 11.
Definition MODE_REACHED_OVERFLOW : Z := Z.shiftl 1 12.
Definition MODE_HIGH_PRESCALE_MASK : Z := Z.shiftl 3 13.
Definition MODE_WRITABLE : Z := 0x63ff.
Definition MAX_EVENTS_PER_ADVANCE : Z := 1000000.

Inductive TimerId : Set := TTimer0 | TTimer1 | TTimer2 | TTimer3 | TTimer4 | TTimer5.

#[export] Instance TimerId_eq_dec : EqDecision TimerId.
Proof. solve_decision. Defined.

Module TimerId.

Definition ALL : list TimerId := [TTimer0; TTimer1; TTimer2; TTimer3; TTimer4; TTimer5].

Definition index (t : TimerId) : nat :=
  match t with
  | TTimer0 => 0 | TTimer1 => 1 | TTimer2 => 2 | TTimer3 => 3 | TTimer4 => 4 | TTimer5 => 5
  end.

Definition width_mask (t : TimerId) : Z :=
  match t with
  | TTimer0 | TTimer1 | TTimer2 => 0xffff
  | TTimer3 | TTimer4 | TTimer5 => 2 ^ 32 - 1
  end.

Definition interrupt (t : TimerId) : InterruptSource :=
  match t with
  | TTimer0 => Timer0 | TTimer1 => Timer1 | TTimer2 => Timer2
  | TTimer3 => Timer3 | TTimer4 => Timer4 | TTimer5 => Timer5
  end.

End TimerId.

Inductive CounterBoundary : Set := Target | Overflow.

#[export] Instance CounterBoundary_eq_dec : EqDecision CounterBoundary.
Proof. solve_decision. Defined.

Inductive TimingEvent : Set :=
| CounterEvent (timer : TimerId) (boundary : CounterBoundary)
| VBlankStart
| VBlankEnd.

(** The [TimingObserver] trait; a vector of events and the silent observer. *)
Class TimingObserver (O : Type) : Type := observe : O -> TimingEvent -> O.

#[export] Instance vec_observer : TimingObserver (list TimingEvent) :=
  fun events event => events ++ [event].
Inductive NoopObserver : Set := Noop.
#[export] Instance noop_observer : TimingObserver NoopObserver := fun o _ => o.

Inductive VideoStandard : Set := Ntsc | Pal.

Inductive TimerError : Set :=
| InvalidRegister (address : Z)
| EventLimit (timer : TimerId) (limit : Z)
| RefreshOverflow.

(** ** One counter *)

Record Counter : Set := mkCounter {
  count : Z;
  mode : Z;
  target : Z;
  prescale_remainder : Z;
  irq_fired : bool;
  gate_level : bool;
}.

#[export] Instance Counter_fields : Fields Counter := fun c =>
  mkCounter (count c) (mode c) (target c) (prescale_remainder c) (irq_fired c) (gate_level c).

(** [None] is the [unreachable!] arm. *)
Definition prescale (timer : TimerId) (mode : Z) : option Z :=
  match timer with
  | TTimer0 | TTimer1 | TTimer2 => Some (if has_bits mode MODE_LOW_PRESCALE_8 then 8 else 1)
  | TTimer3 | TTimer4 | TTimer5 =>
      match Z.shiftr (mode .& MODE_HIGH_PRESCALE_MASK) 13 with
      | 0 => Some 1
      | 1 => Some 8
      | 2 => Some 16
      | 3 => Some 256
      | _ => None
      end
  end.

Module Counter.

Definition new : Counter := mkCounter 0 MODE_IRQ_REQUEST 0 0 false false.
#[global] Instance inhabited : Inhabited Counter := populate new.

(** [(self.mode & MODE_GATE_MODE_MASK) >> 1] *)
Definition gate_mode (c : Counter) : Z := Z.shiftr (mode c .& MODE_GATE_MODE_MASK) 1.

(** [None] is the [unreachable!] arm. *)
Definition running (c : Counter) : option bool :=
  if negb (has_bits (mode c) MODE_GATE_ENABLE) then Some true
  else
    match gate_mode c with
    | 0 => Some (negb (gate_level c))
    | 1 => Some (gate_level c)
    | 2 | 3 => Some true
    | _ => None
    end.

Definition set_gate (asserted : bool) (c : Counter) : Counter :=
  let was_asserted := gate_level c in
  let c := c <| gate_level := asserted |> in
  if negb (has_bits (mode c) MODE_GATE_ENABLE) || Bool.eqb was_asserted asserted then c
  else
    match gate_mode c, asserted with
    | 1, true | 2, true | 3, false => c <| count := 0 |>
    | _, _ => c
    end.

(** Reading the mode register clears its reached flags. *)
Definition clear_reached (c : Counter) : Counter :=
  c <| mode := mode c .& bnot 16 (MODE_REACHED_TARGET .| MODE_REACHED_OVERFLOW) |>.

Definition write_mode (value : Z) (c : Counter) : Counter :=
  c <| mode := (wrap 16 value .& MODE_WRITABLE) .| MODE_IRQ_REQUEST |>
    <| count := 0 |> <| prescale_remainder := 0 |> <| irq_fired := false |>.

Section advance.
Context {S Obs : Type} `{InterruptSink S} `{TimingObserver Obs}.

Definition boundary (timer : TimerId) (boundary : CounterBoundary) (cso : Counter * S * Obs)
    : Counter * S * Obs :=
  let '(c, sink, observer) := cso in
  let '(status, enabled) :=
    match boundary with
    | Target => (MODE_REACHED_TARGET, MODE_IRQ_ON_TARGET)
    | Overflow => (MODE_REACHED_OVERFLOW, MODE_IRQ_ON_OVERFLOW)
    end in
  let c := c <| mode := mode c .| status |> in
  let observer := observe observer (CounterEvent timer boundary) in
  if negb (has_bits (mode c) enabled) ||
     (irq_fired c && negb (has_bits (mode c) MODE_IRQ_REPEAT))
  then (c, sink, observer)
  else if has_bits (mode c) MODE_IRQ_TOGGLE then
    let c := c <| mode := mode c .^ MODE_IRQ_REQUEST |> in
    if has_bits (mode c) MODE_IRQ_REQUEST then (c, sink, observer)
    else (c <| irq_fired := true |>, request sink (TimerId.interrupt timer), observer)
  else
    let c := c <| mode := mode c .& bnot 16 MODE_IRQ_REQUEST |> in
    (c <| irq_fired := true |>, request sink (TimerId.interrupt timer), observer).

(** The boundaries reached by one step, the target first. *)
Definition cross (timer : TimerId) (hit_target hit_overflow : bool) (cso : Counter * S * Obs)
    : Counter * S * Obs :=
  let cso :=
    if hit_target then
      let '(c, sink, observer) := boundary timer Target cso in
      (if has_bits (mode c) MODE_RESET_ON_TARGET then c <| count := 0 |> else c, sink, observer)
    else cso in
  if hit_overflow then boundary timer Overflow cso else cso.

Fixpoint advance_loop (fuel : nat) (timer : TimerId) (ticks events : Z)
    (cso : Counter * S * Obs) : outcome TimerError unit * (Counter * S * Obs) :=
  if ticks =? 0 then (Ok tt, cso) else
  match fuel with
  | O => (Panic, cso)
  | Datatypes.S fuel =>
      let '(c, sink, observer) := cso in
      let mask := TimerId.width_mask timer in
      match checked_sub_u mask (count c) with
      | None => (Panic, cso)
      | Some rest =>
          let to_overflow := rest + 1 in
          let to_target :=
            if count c <? target c then target c - count c else to_overflow + target c in
          let step := Z.min ticks (Z.min to_overflow to_target) in
          let new_count := (count c + step) .& mask in
          let c := c <| count := wrap 32 new_count |> in
          let ticks := ticks - step in
          let hit_target := step =? to_target in
          let hit_overflow := step =? to_overflow in
          if negb hit_target && negb hit_overflow then (Ok tt, (c, sink, observer))
          else
            let events := events + (if hit_target then 1 else 0) + (if hit_overflow then 1 else 0) in
            if MAX_EVENTS_PER_ADVANCE <? events
            then (Err (EventLimit timer MAX_EVENTS_PER_ADVANCE), (c, sink, observer))
            else
              advance_loop fuel timer ticks events
                (cross timer hit_target hit_overflow (c, sink, observer))
      end
  end.

(** A step that is not the last reaches a boundary. *)
Definition advance_counter (timer : TimerId) (ticks : Z) (cso : Counter * S * Obs)
    : outcome TimerError unit * (Counter * S * Obs) :=
  advance_loop (Z.to_nat (Z.min ticks (MAX_EVENTS_PER_ADVANCE + 1))) timer ticks 0 cso.

(** [counter.mode & MODE_EXTERNAL_CLOCK != 0 || !counter.running()] *)
Definition skips (c : Counter) : option bool :=
  if has_bits (mode c) MODE_EXTERNAL_CLOCK then Some true
  else running ← running c; Some (negb running).

(** One counter of the loop of [advance_cpu]. *)
Definition advance_cycles (cycles : Z) (timer : TimerId) (cso : Counter * S * Obs)
    : outcome TimerError unit * (Counter * S * Obs) :=
  let '(c, sink, observer) := cso in
  match skips c with
  | None => (Panic, cso)
  | Some true => (Ok tt, cso)
  | Some false =>
      match prescale timer (mode c) with
      | None => (Panic, cso)
      | Some divisor =>
          match checked_add_u 64 (prescale_remainder c) cycles with
          | None => (Panic, cso)
          | Some total =>
              let c := c <| prescale_remainder := wrap 16 (total mod divisor) |> in
              advance_counter timer (total / divisor) (c, sink, observer)
          end
      end
  end.

(** One input clock of a counter. *)
Definition clock (timer : TimerId) (cso : Counter * S * Obs) : Counter * S * Obs :=
  let '(c, sink, observer) := cso in
  let mask := TimerId.width_mask timer in
  let hit_overflow := count c =? mask in
  let count' := wrap 32 (count c + 1) .& mask in
  let hit_target := count' =? target c in
  cross timer hit_target hit_overflow (c <| count := count' |>, sink, observer).

(** One counter of the loop of [advance_single_cpu_cycle]. *)
Definition advance_cycle (timer : TimerId) (cso : Counter * S * Obs)
    : outcome TimerError unit * (Counter * S * Obs) :=
  let '(c, sink, observer) := cso in
  match skips c with
  | None => (Panic, cso)
  | Some true => (Ok tt, cso)
  | Some false =>
      match prescale timer (mode c) with
      | None => (Panic, cso)
      | Some divisor =>
          if prescale_remainder c + 1 <? divisor
          then (Ok tt, (c <| prescale_remainder := prescale_remainder c + 1 |>, sink, observer))
          else (Ok tt, clock timer (c <| prescale_remainder := 0 |>, sink, observer))
      end
  end.

End advance.
End Counter.

(** ** The six counters *)

Record IopTimers : Set := mkIopTimers { counters : list Counter }.

(** The counter block, the register and the half an address selects. *)
Fixpoint decode_blocks (blocks : list (TimerId * Z)) (address : Z)
    : outcome TimerError (TimerId * Z * Z) :=
  match blocks with
  | [] => Err (InvalidRegister address)
  | (timer, base) :: blocks =>
      match checked_sub_u address base with
      | None => decode_blocks blocks address
      | Some offset =>
          if bool_decide (offset ∈ [0; 2; 4; 6; 8; 10])
          then Ok (timer, offset / 4, (offset .& 2) / 2)
          else decode_blocks blocks address
      end
  end.

Definition decode_register (address : Z) : outcome TimerError (TimerId * Z * Z) :=
  decode_blocks
    [(TTimer0, TIMER0_BASE); (TTimer1, TIMER1_BASE); (TTimer2, TIMER2_BASE);
     (TTimer3, TIMER3_BASE); (TTimer4, TIMER4_BASE); (TTimer5, TIMER5_BASE)] address.

Module IopTimers.

Definition new : IopTimers := mkIopTimers (replicate 6 Counter.new).

Definition counter (timer : TimerId) (t : IopTimers) : Counter :=
  counters t !!! TimerId.index timer.
Definition set_counter (timer : TimerId) (c : Counter) (t : IopTimers) : IopTimers :=
  mkIopTimers (<[TimerId.index timer := c]> (counters t)).

Definition count (timer : TimerId) (t : IopTimers) : Z := Ps2Timers.count (counter timer t).
Definition target (timer : TimerId) (t : IopTimers) : Z := Ps2Timers.target (counter timer t).
Definition mode (timer : TimerId) (t : IopTimers) : Z := Ps2Timers.mode (counter timer t).

Definition set_gate (timer : TimerId) (asserted : bool) (t : IopTimers) : IopTimers :=
  set_counter timer (Counter.set_gate asserted (counter timer t)) t.

Definition read_u32 (address : Z) (t : IopTimers) : outcome TimerError Z * IopTimers :=
  match decode_register address with
  | Ok (timer, register, half) =>
      if negb (half =? 0) then (Err (InvalidRegister address), t)
      else
        let c := counter timer t in
        match register with
        | 0 => (Ok (Ps2Timers.count c), t)
        | 1 => (Ok (Ps2Timers.mode c), set_counter timer (Counter.clear_reached c) t)
        | 2 => (Ok (Ps2Timers.target c), t)
        | _ => (Panic, t)
        end
  | Err e => (Err e, t)
  | Panic => (Panic, t)
  end.

Definition write_u32 (address value : Z) (t : IopTimers) : outcome TimerError unit * IopTimers :=
  match decode_register address with
  | Ok (timer, register, half) =>
      if negb (half =? 0) then (Err (InvalidRegister address), t)
      else
        let c := counter timer t in
        match register with
        | 0 => (Ok tt, set_counter timer (c <| Ps2Timers.count := value .& TimerId.width_mask timer |>) t)
        | 1 => (Ok tt, set_counter timer (Counter.write_mode value c) t)
        | 2 => (Ok tt, set_counter timer (c <| Ps2Timers.target := value .& TimerId.width_mask timer |>) t)
        | _ => (Panic, t)
        end
  | Err e => (Err e, t)
  | Panic => (Panic, t)
  end.

Definition read_u16 (address : Z) (t : IopTimers) : outcome TimerError Z * IopTimers :=
  match decode_register address with
  | Ok (timer, register, half) =>
      let c := counter timer t in
      let halved value := if half =? 0 then wrap 16 value else wrap 16 (Z.shiftr value 16) in
      match register with
      | 0 => (Ok (halved (Ps2Timers.count c)), t)
      | 1 =>
          (Ok (halved (Ps2Timers.mode c)),
           if half =? 0 then set_counter timer (Counter.clear_reached c) t else t)
      | 2 => (Ok (halved (Ps2Timers.target c)), t)
      | _ => (Panic, t)
      end
  | Err e => (Err e, t)
  | Panic => (Panic, t)
  end.

(** A halfword written into a count or target register of the given width mask. *)
Definition merge_half (mask half value destination : Z) : Z :=
  (if half =? 0 then (destination .& 0xffff0000) .| value
   else if mask =? 2 ^ 32 - 1 then (destination .& 0x0000ffff) .| Z.shiftl value 16
   else destination) .& mask.

Definition write_u16 (address value : Z) (t : IopTimers) : outcome TimerError unit * IopTimers :=
  match decode_register address with
  | Ok (timer, register, half) =>
      if register =? 1 then
        if negb (half =? 0) then (Ok tt, t) else write_u32 address value t
      else
        let c := counter timer t in
        let merge := merge_half (TimerId.width_mask timer) half value in
        (Ok tt,
         set_counter timer
           (if register =? 0 then c <| Ps2Timers.count := merge (Ps2Timers.count c) |>
            else c <| Ps2Timers.target := merge (Ps2Timers.target c) |>) t)
  | Err e => (Err e, t)
  | Panic => (Panic, t)
  end.

Section advance.
Context {S Obs : Type} `{InterruptSink S} `{TimingObserver Obs}.

(** [f] on one counter of the bank. *)
Definition on_counter (f : TimerId -> Counter * S * Obs -> outcome TimerError unit * (Counter * S * Obs))
    (timer : TimerId) (tso : IopTimers * S * Obs) : outcome TimerError unit * (IopTimers * S * Obs) :=
  let '(t, sink, observer) := tso in
  let '(r, (c, sink, observer)) := f timer (counter timer t, sink, observer) in
  (r, (set_counter timer c t, sink, observer)).

(** [for timer in timers { f(timer)? }] *)
Fixpoint for_each (f : TimerId -> Counter * S * Obs -> outcome TimerError unit * (Counter * S * Obs))
    (timers : list TimerId) (tso : IopTimers * S * Obs)
    : outcome TimerError unit * (IopTimers * S * Obs) :=
  match timers with
  | [] => (Ok tt, tso)
  | timer :: timers => let! (_u, tso) := on_counter f timer tso in for_each f timers tso
  end.

Definition advance_single_cpu_cycle (tso : IopTimers * S * Obs)
    : outcome TimerError unit * (IopTimers * S * Obs) :=
  for_each Counter.advance_cycle TimerId.ALL tso.

Definition advance_cpu (cycles : Z) (tso : IopTimers * S * Obs)
    : outcome TimerError unit * (IopTimers * S * Obs) :=
  if cycles =? 1 then advance_single_cpu_cycle tso
  else for_each (Counter.advance_cycles cycles) TimerId.ALL tso.

Definition advance_external (timer : TimerId) (ticks : Z) (tso : IopTimers * S * Obs)
    : outcome TimerError unit * (IopTimers * S * Obs) :=
  let c := counter timer tso.1.1 in
  if has_bits (Ps2Timers.mode c) MODE_EXTERNAL_CLOCK then
    match Counter.running c with
    | Some true => on_counter (fun timer => Counter.advance_counter timer ticks) timer tso
    | Some false => (Ok tt, tso)
    | None => (Panic, tso)
    end
  else (Ok tt, tso).

End advance.
End IopTimers.

(** ** The vertical-blank clock *)

Record RefreshClock : Set := mkRefreshClock {
  standard : VideoStandard;
  phase_units : Z;
  in_vblank : bool;
}.

#[export] Instance RefreshClock_fields : Fields RefreshClock := fun c =>
  mkRefreshClock (standard c) (phase_units c) (in_vblank c).

Module RefreshClock.

Definition new (standard : VideoStandard) : RefreshClock := mkRefreshClock standard 0 false.

(** [(rate_numerator, rate_denominator)] *)
Definition rate (standard : VideoStandard) : Z * Z :=
  match standard with
  | Ntsc => (60000, 1001)
  | Pal => (50, 1)
  end.

Section advance.
Context {S Obs : Type} `{InterruptSink S} `{TimingObserver Obs}.

(** The boundary reached: the state changes, then the observer and the sink. *)
Definition cross (blank_start : Z) (cso : RefreshClock * S * Obs) : RefreshClock * S * Obs :=
  let '(c, sink, observer) := cso in
  if in_vblank c
  then (c <| phase_units := 0 |> <| in_vblank := false |>,
        request sink Ps2Irq.VBlankEnd, observe observer VBlankEnd)
  else (c <| phase_units := blank_start |> <| in_vblank := true |>,
        request sink Ps2Irq.VBlank, observe observer VBlankStart).

Fixpoint advance_loop (fuel : nat) (frame_units blank_start remaining : Z)
    (cso : RefreshClock * S * Obs) : outcome TimerError unit * (RefreshClock * S * Obs) :=
  if remaining =? 0 then (Ok tt, cso) else
  match fuel with
  | O => (Panic, cso)
  | Datatypes.S fuel =>
      let '(c, sink, observer) := cso in
      match checked_sub_u (if in_vblank c then frame_units else blank_start) (phase_units c) with
      | None => (Panic, cso)
      | Some distance =>
          if remaining <? distance then
            match try_from_u 64 remaining with
            | None => (Err RefreshOverflow, cso)
            | Some remaining =>
                match checked_add_u 64 (phase_units c) remaining with
                | None => (Panic, cso)
                | Some phase => (Ok tt, (c <| phase_units := phase |>, sink, observer))
                end
            end
          else
            advance_loop fuel frame_units blank_start (remaining - distance)
              (cross blank_start cso)
      end
  end.

(** A frame has two boundaries, and the first and the last one may be partial. *)
Definition advance (cycles : Z) (cso : RefreshClock * S * Obs)
    : outcome TimerError unit * (RefreshClock * S * Obs) :=
  let (rate_numerator, rate_denominator) := rate (standard cso.1.1) in
  match checked_mul_u 64 CPU_HZ rate_denominator with
  | None => (Err RefreshOverflow, cso)
  | Some frame_units =>
      let blank_start := frame_units - frame_units / 10 in
      let added := cycles * rate_numerator in
      advance_loop (Z.to_nat (2 * (added / frame_units) + 4)) frame_units blank_start added cso
  end.

End advance.
End RefreshClock.
