(* ===== verification/Ps2TimersFacts.v ===== *)
(** * What the PS2 I/O processor counters and refresh clock promise

    The boundary-skipping counter equals counting one input clock at a time, the
    multi-cycle path of [advance_cpu] equals the single-cycle path, no operation
    panics, and the refresh clock emits its boundaries at their exact units. *)

From S2P Require Import Prelude MachineInt Records Ps2Irq Ps2Timers.

Module CounterFacts.
Import Counter.

Definition width (timer : TimerId) : Z :=
  match timer with
  | TTimer0 | TTimer1 | TTimer2 => 16
  | TTimer3 | TTimer4 | TTimer5 => 32
  end.

Definition modulus (timer : TimerId) : Z := 2 ^ width timer.

Definition divisor (timer : TimerId) (c : Counter) : Z := default 1 (prescale timer (mode c)).

Record wf (timer : TimerId) (c : Counter) : Prop := {
  wf_count : 0 <= count c < modulus timer;
  wf_target : 0 <= target c < modulus timer;
  wf_mode : in_u 16 (mode c);
  wf_remainder : 0 <= prescale_remainder c < divisor timer c;
}.

(** What counting leaves alone. *)
Record same_config (c c' : Counter) : Prop := {
  same_target : target c' = target c;
  same_remainder : prescale_remainder c' = prescale_remainder c;
  same_gate : gate_level c' = gate_level c;
  same_mode : mode c' .& MODE_WRITABLE = mode c .& MODE_WRITABLE;
}.

#[export] Instance same_config_preorder : PreOrder same_config.
Proof.
  split; [by constructor|]. intros c1 c2 c3 [] []. constructor; congruence.
Qed.

Lemma width_mask_ones timer : TimerId.width_mask timer = Z.ones (width timer).
Proof. by destruct timer. Qed.

Lemma width_range timer : 16 <= width timer <= 32.
Proof. by destruct timer. Qed.

Lemma modulus_range timer : 2 ^ 16 <= modulus timer <= 2 ^ 32.
Proof. by destruct timer. Qed.

Lemma width_mask_modulus timer : TimerId.width_mask timer = modulus timer - 1.
Proof. by destruct timer. Qed.

Lemma land_mask timer x : x .& TimerId.width_mask timer = x mod modulus timer.
Proof. rewrite width_mask_ones. apply Z.land_ones. destruct timer; cbn; lia. Qed.

Lemma in_modulus_mod timer x : 0 <= x mod modulus timer < modulus timer.
Proof. apply Z.mod_pos_bound. pose proof (modulus_range timer). lia. Qed.

Lemma in_modulus_u32 timer x : 0 <= x < modulus timer -> in_u 32 x.
Proof. pose proof (modulus_range timer). unfold in_u. lia. Qed.

(** Configuration bits are read off the writable field. *)
Lemma has_bits_writable x y m : m .& MODE_WRITABLE = m ->
  x .& MODE_WRITABLE = y .& MODE_WRITABLE -> x .& m = y .& m.
Proof.
  intros Hm E. rewrite <- Hm, (Z.land_comm m), !Z.land_assoc. by rewrite E.
Qed.

Lemma config_bits c c' m : same_config c c' -> m .& MODE_WRITABLE = m ->
  mode c' .& m = mode c .& m.
Proof. intros [] Hm. by apply has_bits_writable. Qed.

Lemma config_skips c c' : same_config c c' -> skips c' = skips c.
Proof.
  intros Hc. unfold skips, running, gate_mode, has_bits.
  rewrite !(config_bits c c') by done. by rewrite (same_gate _ _ Hc).
Qed.

Lemma config_prescale timer c c' : same_config c c' ->
  prescale timer (mode c') = prescale timer (mode c).
Proof.
  intros Hc. unfold prescale, has_bits. by rewrite !(config_bits c c') by done.
Qed.

Lemma prescale_some timer m : exists d, prescale timer m = Some d /\ 1 <= d <= 256.
Proof.
  assert (forall x, 0 <= x < 4 -> x = 0 \/ x = 1 \/ x = 2 \/ x = 3) as Hx by lia.
  assert (0 <= Z.shiftr (m .& MODE_HIGH_PRESCALE_MASK) 13 < 4) as Hr.
  { rewrite Z.shiftr_land. change (Z.shiftr MODE_HIGH_PRESCALE_MASK 13) with (Z.ones 2).
    rewrite Z.land_ones by lia. apply Z.mod_pos_bound. lia. }
  unfold prescale. destruct timer; try (eexists; split; [done|]; case_match; lia).
  all: destruct (Hx _ Hr) as [-> | [-> | [-> | ->]]]; eexists; (split; [done|lia]).
Qed.

Lemma divisor_prescale timer c : prescale timer (mode c) = Some (divisor timer c).
Proof. unfold divisor. by destruct (prescale_some timer (mode c)) as (d & -> & _). Qed.

Lemma divisor_range timer c : 1 <= divisor timer c <= 256.
Proof. unfold divisor. by destruct (prescale_some timer (mode c)) as (d & -> & ?). Qed.

Lemma skips_some c : exists b, skips c = Some b.
Proof.
  assert (0 <= gate_mode c < 4) as Hr.
  { unfold gate_mode. rewrite Z.shiftr_land.
    change (Z.shiftr MODE_GATE_MODE_MASK 1) with (Z.ones 2).
    rewrite Z.land_ones by lia. apply Z.mod_pos_bound. lia. }
  unfold skips, running. case_match; [eauto|]. case_match; [eauto|].
  assert (gate_mode c = 0 \/ gate_mode c = 1 \/ gate_mode c = 2 \/ gate_mode c = 3)
    as [-> | [-> | [-> | ->]]] by lia; cbn; eauto.
Qed.

(** ** Flag updates *)

Lemma flag_config (c : Counter) m : m .& MODE_WRITABLE = mode c .& MODE_WRITABLE ->
  same_config c (c <| mode := m |>).
Proof. by constructor. Qed.

Lemma set_flag_mode x b : b .& MODE_WRITABLE = 0 ->
  (x .| b) .& MODE_WRITABLE = x .& MODE_WRITABLE.
Proof. intros Hb. by rewrite Z.land_lor_distr_l, Hb, Z.lor_0_r. Qed.

Lemma toggle_mode x b : b .& MODE_WRITABLE = 0 ->
  (x .^ b) .& MODE_WRITABLE = x .& MODE_WRITABLE.
Proof.
  intros Hb. apply Z.bits_inj'. intros i Hi. rewrite !Z.land_spec, Z.lxor_spec.
  assert (Z.testbit (b .& MODE_WRITABLE) i = false) as E by (by rewrite Hb, Z.bits_0).
  rewrite Z.land_spec in E. destruct (Z.testbit b i), (Z.testbit MODE_WRITABLE i); try done.
  - by rewrite !andb_false_r.
  - by rewrite xorb_false_r.
  - by rewrite !andb_false_r.
Qed.

Lemma clear_flag_mode x b : bnot 16 b .& MODE_WRITABLE = MODE_WRITABLE ->
  (x .& bnot 16 b) .& MODE_WRITABLE = x .& MODE_WRITABLE.
Proof. intros Hb. by rewrite <- Z.land_assoc, Hb. Qed.

(** A boundary only raises flags and the request. *)
Record flagged (c c' : Counter) : Prop := {
  flagged_config : same_config c c';
  flagged_count : count c' = count c;
  flagged_mode : in_u 16 (mode c) -> in_u 16 (mode c');
}.

#[export] Instance flagged_preorder : PreOrder flagged.
Proof.
  split; [by constructor|]. intros c1 c2 c3 [] [].
  constructor; [by transitivity c2|congruence|auto].
Qed.

Lemma flagged_set c b : b .& MODE_WRITABLE = 0 -> in_u 16 b ->
  flagged c (c <| mode := mode c .| b |>).
Proof. constructor; [by apply flag_config, set_flag_mode|done|intros; by apply in_u_lor]. Qed.

Lemma flagged_toggle c : flagged c (c <| mode := mode c .^ MODE_IRQ_REQUEST |>).
Proof. constructor; [by apply flag_config, toggle_mode|done|intros; by apply in_u_lxor]. Qed.

Lemma flagged_clear c : flagged c (c <| mode := mode c .& bnot 16 MODE_IRQ_REQUEST |>).
Proof.
  constructor; [by apply flag_config, clear_flag_mode|done|intros; by apply in_u_land_bnot].
Qed.

Lemma flagged_fired c : flagged c (c <| irq_fired := true |>).
Proof. by constructor. Qed.

Section sinks.
Context {S Obs : Type} `{InterruptSink S} `{TimingObserver Obs}.
Implicit Types cso : Counter * S * Obs.

Lemma boundary_flagged timer b c (s : S) (o : Obs) :
  flagged c (boundary timer b (c, s, o)).1.1.
Proof.
  pose proof (flagged_set c (if b then MODE_REACHED_TARGET else MODE_REACHED_OVERFLOW)
    ltac:(by destruct b) ltac:(by destruct b)) as Hs.
  unfold boundary. destruct b; (etransitivity; [exact Hs|]).
  all: case_goal; [done|]; case_goal; [case_goal|]; cbn [fst].
  all: try (etransitivity; [|apply flagged_fired]); apply flagged_toggle || apply flagged_clear.
Qed.

Lemma config_divisor timer c c' : same_config c c' -> divisor timer c' = divisor timer c.
Proof. intros Hc. unfold divisor. by rewrite (config_prescale timer c c'). Qed.

Lemma flagged_wf timer c c' : flagged c c' -> wf timer c -> wf timer c'.
Proof.
  intros [Hc Hn Hm] []. pose proof (config_divisor timer c c' Hc). destruct Hc.
  constructor; [by rewrite Hn|congruence|auto|congruence].
Qed.

Lemma count_wf timer c n : 0 <= n < modulus timer -> wf timer c -> wf timer (c <| count := n |>).
Proof. by intros ? []. Qed.

Lemma cross_config timer ht ho c (s : S) (o : Obs) :
  wf timer c -> wf timer (cross timer ht ho (c, s, o)).1.1 /\
  same_config c (cross timer ht ho (c, s, o)).1.1.
Proof.
  intros Hc. unfold cross.
  assert (wf timer (if ht then
      let '(c, sink, observer) := boundary timer Target (c, s, o) in
      (if has_bits (mode c) MODE_RESET_ON_TARGET then c <| count := 0 |> else c, sink, observer)
    else (c, s, o)).1.1 /\ same_config c (if ht then
      let '(c, sink, observer) := boundary timer Target (c, s, o) in
      (if has_bits (mode c) MODE_RESET_ON_TARGET then c <| count := 0 |> else c, sink, observer)
    else (c, s, o)).1.1) as H1.
  { destruct ht; [|done]. pose proof (boundary_flagged timer Target c s o) as Hb.
    destruct (boundary timer Target (c, s, o)) as [[c1 s1] o1]. cbn [fst] in *.
    pose proof (flagged_wf timer c c1 Hb Hc) as Hc1. destruct Hb as [[] ? ?].
    pose proof (modulus_range timer).
    case_match; (split; [|by constructor]); [apply count_wf; [lia|]|]; done. }
  destruct (if ht then _ else _) as [[c1 s1] o1]. cbn [fst] in H1.
  destruct ho; [|done]. pose proof (boundary_flagged timer Overflow c1 s1 o1) as Hb.
  destruct (boundary timer Overflow (c1, s1, o1)) as [[c2 s2] o2]. cbn [fst] in *.
  destruct H1 as [Hc1 Hs1]. split; [by eapply flagged_wf|].
  etransitivity; [exact Hs1|by apply flagged_config].
Qed.

(** ** Counting *)

Lemma clock_eq timer c (s : S) (o : Obs) : wf timer c ->
  clock timer (c, s, o) =
  cross timer ((count c + 1) mod modulus timer =? target c) (count c =? modulus timer - 1)
    (c <| count := (count c + 1) mod modulus timer |>, s, o).
Proof.
  intros []. pose proof (modulus_range timer). unfold clock.
  rewrite land_mask, width_mask_modulus.
  assert (wrap 32 (count c + 1) mod modulus timer = (count c + 1) mod modulus timer) as ->;
    [|done].
  apply Z.mod_mod_divide. by destruct timer; apply Z.mod_divide.
Qed.

Lemma clock_config timer c (s : S) (o : Obs) : wf timer c ->
  wf timer (clock timer (c, s, o)).1.1 /\ same_config c (clock timer (c, s, o)).1.1.
Proof.
  intros Hc. rewrite clock_eq by done.
  destruct (cross_config timer ((count c + 1) mod modulus timer =? target c)
    (count c =? modulus timer - 1) (c <| count := (count c + 1) mod modulus timer |>) s o)
    as [H1 H2].
  - apply count_wf; [apply in_modulus_mod|done].
  - split; [done|]. etransitivity; [|exact H2]. by constructor.
Qed.

Lemma iterate_clock_config timer n cso : wf timer cso.1.1 ->
  wf timer (iterate n (clock timer) cso).1.1 /\
  same_config cso.1.1 (iterate n (clock timer) cso).1.1.
Proof.
  revert cso. induction n as [|n IH]; intros [[c s] o] Hc; [done|]. cbn [iterate].
  destruct (clock_config timer c s o Hc) as [H1 H2].
  destruct (clock timer (c, s, o)) as [[c1 s1] o1]. cbn [fst] in *.
  destruct (IH (c1, s1, o1) H1). split; [done|]. by transitivity c1.
Qed.

(** The boundaries an input clock reaches, and the number in [n] clocks. *)
Definition reached timer c : Z :=
  (if (count c + 1) mod modulus timer =? target c then 1 else 0) +
  (if count c =? modulus timer - 1 then 1 else 0).

Fixpoint crossings (timer : TimerId) (n : nat) (cso : Counter * S * Obs) : Z :=
  match n with
  | O => 0
  | Datatypes.S n => reached timer cso.1.1 + crossings timer n (clock timer cso)
  end.

Lemma reached_range timer c : 0 <= reached timer c <= 2.
Proof. unfold reached. repeat case_match; lia. Qed.

Lemma crossings_nonneg timer n cso : 0 <= crossings timer n cso.
Proof.
  revert cso. induction n as [|n IH]; intros cso; cbn [crossings]; [lia|].
  pose proof (reached_range timer cso.1.1). specialize (IH (clock timer cso)). lia.
Qed.

Lemma crossings_bound timer n cso : crossings timer n cso <= 2 * Z.of_nat n.
Proof.
  revert cso. induction n as [|n IH]; intros cso; cbn [crossings]; [lia|].
  pose proof (reached_range timer cso.1.1). specialize (IH (clock timer cso)). lia.
Qed.

Lemma crossings_add timer m n cso :
  crossings timer (m + n) cso = crossings timer m cso + crossings timer n (iterate m (clock timer) cso).
Proof.
  revert cso. induction m as [|m IH]; intros cso; [done|].
  cbn [crossings iterate Nat.add]. rewrite IH. lia.
Qed.

Definition to_overflow timer c : Z := modulus timer - count c.
Definition to_target timer c : Z :=
  if count c <? target c then target c - count c else to_overflow timer c + target c.
Definition distance timer c : Z := Z.min (to_overflow timer c) (to_target timer c).

Lemma distance_pos timer c : wf timer c -> 0 < distance timer c <= to_overflow timer c.
Proof.
  intros []. unfold distance, to_target, to_overflow. destruct (Z.ltb_spec (count c) (target c)); lia.
Qed.

Lemma hits_at timer c n : wf timer c -> 0 <= n < distance timer c ->
  ((count c + n + 1) mod modulus timer =? target c) = (n + 1 =? to_target timer c) /\
  (count c + n =? modulus timer - 1) = (n + 1 =? to_overflow timer c).
Proof.
  intros [] Hn. unfold distance, to_target, to_overflow in *. split.
  - destruct (Z.lt_ge_cases (count c + n + 1) (modulus timer)) as [Hlt|Hge].
    + rewrite Z.mod_small by lia. destruct (Z.ltb_spec (count c) (target c));
        apply Bool.eq_iff_eq_true; rewrite !Z.eqb_eq; lia.
    + replace (count c + n + 1) with (modulus timer) by (destruct (count c <? target c); lia).
      rewrite Z_mod_same_full. destruct (Z.ltb_spec (count c) (target c));
        apply Bool.eq_iff_eq_true; rewrite !Z.eqb_eq; lia.
  - apply Bool.eq_iff_eq_true. rewrite !Z.eqb_eq. lia.
Qed.

(** Below the next boundary counting only counts. *)
Lemma clock_skip timer n c (s : S) (o : Obs) : wf timer c -> Z.of_nat n < distance timer c ->
  iterate n (clock timer) (c, s, o) = (c <| count := count c + Z.of_nat n |>, s, o) /\
  crossings timer n (c, s, o) = 0.
Proof.
  intros Hc. induction n as [|n IH]; intros Hn.
  { cbn. rewrite Z.add_0_r. by destruct c. }
  destruct IH as [IH1 IH2]; [lia|]. pose proof (distance_pos timer c Hc) as Hd.
  destruct (hits_at timer c (Z.of_nat n) Hc ltac:(lia)) as [Et Eo].
  rewrite (proj2 (Z.eqb_neq (Z.of_nat n + 1) (to_target timer c))) in Et
    by (unfold distance in Hn; lia).
  rewrite (proj2 (Z.eqb_neq (Z.of_nat n + 1) (to_overflow timer c))) in Eo
    by (unfold distance in Hn; lia).
  assert (wf timer (c <| count := count c + Z.of_nat n |>)) as Hc'.
  { apply count_wf; [|done]. destruct Hc. unfold to_overflow in Hd. lia. }
  replace (Datatypes.S n) with (n + 1)%nat by lia. rewrite crossings_add, iterate_add, IH1, IH2.
  cbn [iterate crossings]. rewrite clock_eq by done. unfold reached. cbn [fst count modify].
  cbn. rewrite Et, Eo. cbn. split; [|done].
  rewrite Z.mod_small by (destruct Hc; unfold distance, to_overflow in *; lia).
  by replace (count c + Z.of_nat (n + 1)) with (count c + Z.of_nat n + 1) by lia.
Qed.

Lemma clock_boundary timer c (s : S) (o : Obs) : wf timer c ->
  let d := distance timer c in
  iterate (Z.to_nat d) (clock timer) (c, s, o) =
    cross timer (d =? to_target timer c) (d =? to_overflow timer c)
      (c <| count := (count c + d) mod modulus timer |>, s, o) /\
  crossings timer (Z.to_nat d) (c, s, o) =
    (if d =? to_target timer c then 1 else 0) + (if d =? to_overflow timer c then 1 else 0).
Proof.
  intros Hc d. pose proof (distance_pos timer c Hc) as Hd. fold d in Hd.
  destruct (clock_skip timer (Z.to_nat (d - 1)) c s o Hc ltac:(fold d; lia)) as [E1 E2].
  rewrite Z2Nat.id in E1 by lia.
  destruct (hits_at timer c (d - 1) Hc ltac:(fold d; lia)) as [Et Eo].
  replace (d - 1 + 1) with d in Et, Eo by lia.
  assert (wf timer (c <| count := count c + (d - 1) |>)) as Hc'.
  { apply count_wf; [|done]. destruct Hc. unfold to_overflow in Hd. lia. }
  replace (Z.to_nat d) with (Z.to_nat (d - 1) + 1)%nat by lia.
  rewrite crossings_add, iterate_add, E1, E2. cbn [iterate crossings].
  rewrite clock_eq by done. unfold reached. cbn. rewrite Et, Eo.
  split; [|lia]. by replace (count c + (d - 1) + 1) with (count c + d) by lia.
Qed.

(** ** The boundary-skipping loop *)

(** One pass of the loop: count to the next boundary or to the end. *)
Lemma advance_loop_step timer fuel ticks events c (s : S) (o : Obs) :
  wf timer c -> 0 < ticks ->
  advance_loop (Datatypes.S fuel) timer ticks events (c, s, o) =
  let step := Z.min ticks (distance timer c) in
  let c1 := c <| count := (count c + step) mod modulus timer |> in
  let ht := step =? to_target timer c in
  let ho := step =? to_overflow timer c in
  if negb ht && negb ho then (Ok tt, (c1, s, o))
  else
    let events := events + (if ht then 1 else 0) + (if ho then 1 else 0) in
    if MAX_EVENTS_PER_ADVANCE <? events
    then (Err (EventLimit timer MAX_EVENTS_PER_ADVANCE), (c1, s, o))
    else advance_loop fuel timer (ticks - step) events (cross timer ht ho (c1, s, o)).
Proof.
  intros Hc Ht. pose proof Hc as [Hn Htg _ _]. cbn [advance_loop].
  rewrite (proj2 (Z.eqb_neq ticks 0)) by lia.
  rewrite width_mask_modulus. unfold checked_sub_u.
  rewrite (proj2 (Z.leb_le (count c) (modulus timer - 1))) by lia.
  replace (modulus timer - 1 - count c + 1) with (to_overflow timer c)
    by (unfold to_overflow; lia).
  change (if count c <? target c then target c - count c else to_overflow timer c + target c)
    with (to_target timer c).
  replace (Z.min (to_overflow timer c) (to_target timer c)) with (distance timer c) by done.
  rewrite <- width_mask_modulus, land_mask.
  by rewrite (wrap_id 32) by (eapply in_modulus_u32, in_modulus_mod).
Qed.

Lemma advance_loop_spec timer fuel : forall ticks events cso,
  wf timer cso.1.1 -> 0 <= ticks -> 0 <= events <= MAX_EVENTS_PER_ADVANCE ->
  ticks <= Z.of_nat fuel \/ MAX_EVENTS_PER_ADVANCE + 1 - events <= Z.of_nat fuel ->
  let n := Z.to_nat ticks in
  if events + crossings timer n cso <=? MAX_EVENTS_PER_ADVANCE
  then advance_loop fuel timer ticks events cso = (Ok tt, iterate n (clock timer) cso)
  else exists cso', advance_loop fuel timer ticks events cso =
    (Err (EventLimit timer MAX_EVENTS_PER_ADVANCE), cso').
Proof.
  induction fuel as [|fuel IH]; intros ticks events [[c s] o] Hc Ht He Hf n; cbn [fst] in Hc;
    (destruct (Z.eqb_spec ticks 0) as [Et0|Hne];
    [subst n; rewrite Et0; change (Z.to_nat 0) with 0%nat; cbn [crossings iterate advance_loop];
     by rewrite (proj2 (Z.leb_le _ _)) by lia|]); [exfalso; lia|].
  pose proof (distance_pos timer c Hc) as Hd. rewrite advance_loop_step by (done || lia). cbv zeta.
  destruct (Z.lt_ge_cases ticks (distance timer c)) as [Hlt|Hge].
  - rewrite Z.min_l by lia.
    destruct (clock_skip timer n c s o Hc) as [E1 E2]; [unfold n; lia|].
    rewrite E2, (proj2 (Z.leb_le _ _)) by lia. rewrite E1. unfold n.
    rewrite (proj2 (Z.eqb_neq ticks (to_target timer c))) by (unfold distance in Hlt; lia).
    rewrite (proj2 (Z.eqb_neq ticks (to_overflow timer c))) by (unfold distance in Hlt; lia).
    cbn [negb andb]. rewrite Z2Nat.id, Z.mod_small by (pose proof (wf_count _ _ Hc); unfold to_overflow in Hd; lia). done.
  - rewrite Z.min_r by lia. pose proof (clock_boundary timer c s o Hc) as [E1 E2].
    set (d := distance timer c) in *. set (ht := d =? to_target timer c) in *.
    set (ho := d =? to_overflow timer c) in *.
    set (c1 := c <| count := (count c + d) mod modulus timer |>) in *.
    assert (negb ht && negb ho = false) as ->.
    { unfold ht, ho. destruct (Z.eqb_spec d (to_target timer c)); [done|].
      destruct (Z.eqb_spec d (to_overflow timer c)); [done|]. unfold d, distance in *. lia. }
    assert (n = Z.to_nat d + Z.to_nat (ticks - d))%nat as -> by (unfold n; lia).
    rewrite crossings_add, iterate_add, E1, E2.
    set (hits := (if ht then 1 else 0) + (if ho then 1 else 0)).
    assert (1 <= hits <= 2) as Hhits.
    { unfold hits. destruct ht eqn:Eh, ho eqn:Eo; try lia. unfold ht, ho in Eh, Eo. zbool.
      unfold d, distance in *. lia. }
    replace (events + (if ht then 1 else 0) + (if ho then 1 else 0)) with (events + hits)
      by (unfold hits; lia).
    destruct (cross_config timer ht ho c1 s o) as [Hc2 _].
    { apply count_wf; [apply in_modulus_mod|done]. }
    pose proof (crossings_nonneg timer (Z.to_nat (ticks - d)) (cross timer ht ho (c1, s, o))).
    destruct (Z.ltb_spec MAX_EVENTS_PER_ADVANCE (events + hits)).
    + rewrite (proj2 (Z.leb_gt _ _)) by lia. by eexists.
    + specialize (IH (ticks - d) (events + hits) (cross timer ht ho (c1, s, o)) Hc2
        ltac:(lia) ltac:(lia) ltac:(lia)). cbv zeta in IH. by rewrite Z.add_assoc.
Qed.

Lemma advance_counter_spec timer ticks cso :
  wf timer cso.1.1 -> 0 <= ticks ->
  let n := Z.to_nat ticks in
  if crossings timer n cso <=? MAX_EVENTS_PER_ADVANCE
  then advance_counter timer ticks cso = (Ok tt, iterate n (clock timer) cso)
  else exists cso', advance_counter timer ticks cso =
    (Err (EventLimit timer MAX_EVENTS_PER_ADVANCE), cso').
Proof.
  intros Hc Ht. pose proof (advance_loop_spec timer
    (Z.to_nat (Z.min ticks (MAX_EVENTS_PER_ADVANCE + 1))) ticks 0 cso Hc Ht) as H1.
  cbv zeta in H1. rewrite Z.add_0_l in H1. apply H1; unfold MAX_EVENTS_PER_ADVANCE in *; lia.
Qed.

(** ** Cycles *)

Definition cycle (timer : TimerId) (cso : Counter * S * Obs) : Counter * S * Obs :=
  (advance_cycle timer cso).2.

Lemma advance_cycle_ok timer cso : advance_cycle timer cso = (Ok tt, cycle timer cso).
Proof.
  unfold cycle, advance_cycle. destruct cso as [[c s] o].
  destruct (skips_some c) as [[] ->]; [done|].
  rewrite divisor_prescale. by case_match.
Qed.

Lemma set_remainder_boundary timer b r c (s : S) (o : Obs) :
  boundary timer b (c <| prescale_remainder := r |>, s, o) =
  let '(c', s', o') := boundary timer b (c, s, o) in (c' <| prescale_remainder := r |>, s', o').
Proof. unfold boundary. cbn. destruct b; by repeat case_goal. Qed.

Lemma set_remainder_cross timer ht ho r c (s : S) (o : Obs) :
  cross timer ht ho (c <| prescale_remainder := r |>, s, o) =
  let '(c', s', o') := cross timer ht ho (c, s, o) in (c' <| prescale_remainder := r |>, s', o').
Proof.
  unfold cross. destruct ht.
  - rewrite set_remainder_boundary. destruct (boundary timer Target (c, s, o)) as [[c2 s2] o2].
    change (mode (c2 <| prescale_remainder := r |>)) with (mode c2).
    destruct ho; [|by case_goal]. case_goal; [|apply set_remainder_boundary].
    exact (set_remainder_boundary timer Overflow r (c2 <| count := 0 |>) s2 o2).
  - destruct ho; [apply set_remainder_boundary|done].
Qed.

Lemma set_remainder_clock timer r c (s : S) (o : Obs) :
  clock timer (c <| prescale_remainder := r |>, s, o) =
  let '(c', s', o') := clock timer (c, s, o) in (c' <| prescale_remainder := r |>, s', o').
Proof.
  exact (set_remainder_cross timer _ _ r
    (c <| count := wrap 32 (count c + 1) .& TimerId.width_mask timer |>) s o).
Qed.

Lemma set_remainder_iterate timer n r c (s : S) (o : Obs) :
  iterate n (clock timer) (c <| prescale_remainder := r |>, s, o) =
  let '(c', s', o') := iterate n (clock timer) (c, s, o) in
  (c' <| prescale_remainder := r |>, s', o').
Proof.
  revert c s o. induction n as [|n IH]; intros c s o; [done|]. cbn [iterate].
  rewrite set_remainder_clock. destruct (clock timer (c, s, o)) as [[c1 s1] o1]. apply IH.
Qed.

Lemma div_step r n d : 0 <= r < d ->
  if (r + n) mod d + 1 <? d
  then (r + (n + 1)) mod d = (r + n) mod d + 1 /\ (r + (n + 1)) / d = (r + n) / d
  else (r + (n + 1)) mod d = 0 /\ (r + (n + 1)) / d = (r + n) / d + 1.
Proof.
  intros Hr. pose proof (Z.div_mod (r + n) d ltac:(lia)) as E.
  pose proof (Z.mod_pos_bound (r + n) d ltac:(lia)).
  destruct (Z.ltb_spec ((r + n) mod d + 1) d); split; symmetry.
  - apply (Z.mod_unique_pos _ _ ((r + n) / d)); lia.
  - apply (Z.div_unique_pos _ _ _ ((r + n) mod d + 1)); lia.
  - apply (Z.mod_unique_pos _ _ ((r + n) / d + 1)); lia.
  - apply (Z.div_unique_pos _ _ _ 0); lia.
Qed.

(** Cycle by cycle, the prescaler divides the clocks. *)
Lemma iterate_cycle timer n c (s : S) (o : Obs) : wf timer c -> skips c = Some false ->
  let total := prescale_remainder c + Z.of_nat n in
  let d := divisor timer c in
  iterate n (cycle timer) (c, s, o) =
  iterate (Z.to_nat (total / d)) (clock timer)
    (c <| prescale_remainder := total mod d |>, s, o).
Proof.
  intros Hc Hs total d. subst total. pose proof (wf_remainder _ _ Hc) as Hr. fold d in Hr.
  induction n as [|n IH].
  { rewrite Z.add_0_r, Z.mod_small, Z.div_small by done. by destruct c. }
  rewrite iterate_S_r, IH. rewrite !set_remainder_iterate.
  pose proof (div_step (prescale_remainder c) (Z.of_nat n) d Hr) as Hd.
  replace (Z.of_nat (Datatypes.S n)) with (Z.of_nat n + 1) by lia.
  set (q := (prescale_remainder c + Z.of_nat n) / d) in *.
  assert (0 <= q) as Hq by (apply Z.div_pos; lia).
  destruct (iterate_clock_config timer (Z.to_nat q) (c, s, o) Hc) as [Hc1 Hcfg].
  destruct (iterate (Z.to_nat q) (clock timer) (c, s, o)) as [[c1 s1] o1] eqn:E1.
  cbn [fst] in Hc1, Hcfg. unfold cycle, advance_cycle.
  set (r := (prescale_remainder c + Z.of_nat n) mod d) in *.
  change (skips (c1 <| prescale_remainder := r |>)) with (skips c1).
  rewrite (config_skips c c1 Hcfg), Hs.
  change (mode (c1 <| prescale_remainder := r |>)) with (mode c1).
  rewrite (config_prescale timer c c1 Hcfg), divisor_prescale. fold d.
  change (prescale_remainder (c1 <| prescale_remainder := r |>)) with r.
  destruct (r + 1 <? d); destruct Hd as [-> ->]; cbn [snd].
  - by rewrite E1.
  - replace (Z.to_nat (q + 1)) with (Datatypes.S (Z.to_nat q)) by lia.
    rewrite iterate_S_r, E1. cbn [snd].
    exact (set_remainder_clock timer 0 c1 s1 o1).
Qed.

Lemma iterate_cycle_skips timer n c (s : S) (o : Obs) : skips c = Some true ->
  iterate n (cycle timer) (c, s, o) = (c, s, o).
Proof.
  intros Hs. induction n as [|n IH]; [done|]. rewrite iterate_S_r, IH.
  unfold cycle, advance_cycle. by rewrite Hs.
Qed.

(** The boundaries a counter reaches in a number of cycles. *)
Definition cycle_crossings (timer : TimerId) (n : nat) (cso : Counter * S * Obs) : Z :=
  let c := cso.1.1 in
  if bool_decide (skips c = Some true) then 0
  else crossings timer (Z.to_nat ((prescale_remainder c + Z.of_nat n) / divisor timer c)) cso.

Lemma reached_remainder timer r c : reached timer (c <| prescale_remainder := r |>) = reached timer c.
Proof. done. Qed.

Lemma crossings_remainder timer n r c (s : S) (o : Obs) :
  crossings timer n (c <| prescale_remainder := r |>, s, o) = crossings timer n (c, s, o).
Proof.
  revert c s o. induction n as [|n IH]; intros c s o; [done|]. cbn [crossings fst].
  rewrite set_remainder_clock. destruct (clock timer (c, s, o)) as [[c1 s1] o1].
  by rewrite IH.
Qed.

Lemma advance_cycles_spec timer cycles c (s : S) (o : Obs) :
  wf timer c -> 0 <= cycles -> prescale_remainder c + cycles < 2 ^ 64 ->
  let n := Z.to_nat cycles in
  if cycle_crossings timer n (c, s, o) <=? MAX_EVENTS_PER_ADVANCE
  then advance_cycles cycles timer (c, s, o) = (Ok tt, iterate n (cycle timer) (c, s, o))
  else exists cso', advance_cycles cycles timer (c, s, o) =
    (Err (EventLimit timer MAX_EVENTS_PER_ADVANCE), cso').
Proof.
  intros Hc Hpos Hmax n. unfold cycle_crossings, advance_cycles. cbn [fst].
  destruct (skips_some c) as [[] Hs]; rewrite Hs.
  { rewrite bool_decide_true by done. by rewrite iterate_cycle_skips. }
  rewrite bool_decide_false by done. rewrite divisor_prescale.
  rewrite (proj2 (checked_add_u_Some 64 _ _ _)) by done. unfold n.
  rewrite Z2Nat.id by done. pose proof (divisor_range timer c) as Hd.
  pose proof (wf_remainder _ _ Hc).
  set (total := prescale_remainder c + cycles) in *. set (d := divisor timer c) in *.
  assert (0 <= total mod d < d) as Hm by (apply Z.mod_pos_bound; lia).
  assert (0 <= total / d) by (apply Z.div_pos; lia).
  rewrite (wrap_id 16) by (unfold in_u; lia).
  assert (wf timer (c <| prescale_remainder := total mod d |>)) as Hc' by (by destruct Hc).
  pose proof (advance_counter_spec timer (total / d)
    (c <| prescale_remainder := total mod d |>, s, o) Hc' ltac:(done)) as Ha.
  cbv zeta in Ha. rewrite crossings_remainder in Ha.
  pose proof (iterate_cycle timer (Z.to_nat cycles) c s o Hc Hs) as Hi.
  cbv zeta in Hi. rewrite Z2Nat.id in Hi by done. fold total d in Hi. by rewrite Hi.
Qed.
End sinks.
End CounterFacts.

(** A sink that records what is asked of it. *)
#[export] Instance log_sink : InterruptSink (list (InterruptSource * option bool)) := {|
  request := fun log source => log ++ [(source, None)];
  Ps2Irq.set_level := fun log source asserted => log ++ [(source, Some asserted)];
|}.

(** ** The bank *)

Module BankFacts.
Import CounterFacts IopTimers.

Record wf (t : IopTimers) : Prop := {
  wf_length : length (counters t) = 6%nat;
  wf_counters : forall timer, CounterFacts.wf timer (counter timer t);
}.

Lemma index_lt timer : (TimerId.index timer < 6)%nat.
Proof. destruct timer; cbn; lia. Qed.

Lemma iop_index_inj timer timer' : TimerId.index timer = TimerId.index timer' -> timer = timer'.
Proof. by destruct timer, timer'. Qed.

Lemma counter_set timer timer' c t : length (counters t) = 6%nat ->
  counter timer (set_counter timer' c t) = if decide (timer = timer') then c else counter timer t.
Proof.
  intros Hl. unfold counter, set_counter. cbn. pose proof (index_lt timer'). case_decide as E.
  - subst. apply list_lookup_total_insert_eq. lia.
  - apply list_lookup_total_insert_ne. intros Ei. by apply E, iop_index_inj.
Qed.

Lemma set_counter_length timer c t : length (counters (set_counter timer c t)) = length (counters t).
Proof. apply length_insert. Qed.

Lemma iop_set_counter_wf timer c t : CounterFacts.wf timer c -> wf t -> wf (set_counter timer c t).
Proof.
  intros Hc [Hl Ht]. constructor; [by rewrite set_counter_length|].
  intros timer'. rewrite counter_set by done. case_decide; [by subst|done].
Qed.

Lemma iop_timers_new_wf : wf new.
Proof.
  constructor; [done|]. intros timer. unfold counter.
  replace (counters new !!! TimerId.index timer) with Counter.new by (by destruct timer).
  destruct timer; constructor; by split.
Qed.

(** Every register operation and gate change keeps the counters well formed. *)
Lemma set_gate_counter_wf timer b c :
  CounterFacts.wf timer c -> CounterFacts.wf timer (Counter.set_gate b c).
Proof.
  intros [Hc Ht Hm Hr]. pose proof (modulus_range timer).
  unfold Counter.set_gate. repeat case_match; (constructor; [cbn; lia|done..]).
Qed.

Lemma clear_reached_wf timer c :
  CounterFacts.wf timer c -> CounterFacts.wf timer (Counter.clear_reached c).
Proof.
  intros Hc. apply (flagged_wf timer c); [|done]. constructor; [|done|].
  - apply flag_config, clear_flag_mode. done.
  - intros Hm. apply in_u_land_bnot; [lia|exact Hm|by split].
Qed.

Lemma iop_write_mode_wf timer v c :
  CounterFacts.wf timer c -> CounterFacts.wf timer (Counter.write_mode v c).
Proof.
  intros [Hc Ht Hm Hr]. pose proof (modulus_range timer).
  constructor; [cbn; lia|done| |].
  - apply in_u_lor; [lia| |by split]. apply in_u_land_l; [done|]. apply in_u_wrap. lia.
  - pose proof (divisor_range timer (Counter.write_mode v c)). cbn. lia.
Qed.

Lemma count_write_wf timer v c :
  CounterFacts.wf timer c ->
  CounterFacts.wf timer (c <| Ps2Timers.count := v .& TimerId.width_mask timer |>).
Proof. intros Hc. rewrite land_mask. apply count_wf; [apply in_modulus_mod|done]. Qed.

Lemma target_write_wf timer v c :
  CounterFacts.wf timer c ->
  CounterFacts.wf timer (c <| Ps2Timers.target := v .& TimerId.width_mask timer |>).
Proof. intros []. rewrite land_mask. constructor; [done|apply in_modulus_mod|done|done]. Qed.

Lemma decode_register_half a timer r h : decode_register a = Ok (timer, r, h) ->
  (r = 0 \/ r = 1 \/ r = 2) /\ (h = 0 \/ h = 1).
Proof.
  unfold decode_register. generalize [(TTimer0, TIMER0_BASE); (TTimer1, TIMER1_BASE);
    (TTimer2, TIMER2_BASE); (TTimer3, TIMER3_BASE); (TTimer4, TIMER4_BASE);
    (TTimer5, TIMER5_BASE)].
  intros blocks. induction blocks as [|[timer' base] blocks IH]; [done|]. cbn [decode_blocks].
  destruct (checked_sub_u a base) as [offset|]; [|done].
  case_bool_decide as Hin; [|done]. intros [= <- <- <-].
  rewrite !elem_of_cons, elem_of_nil in Hin.
  destruct Hin as [-> | [-> | [-> | [-> | [-> | [-> | []]]]]]]; vm_compute; auto.
Qed.

Lemma iop_decode_register_no_panic a : no_panic (decode_register a).
Proof.
  unfold decode_register. generalize [(TTimer0, TIMER0_BASE); (TTimer1, TIMER1_BASE);
    (TTimer2, TIMER2_BASE); (TTimer3, TIMER3_BASE); (TTimer4, TIMER4_BASE);
    (TTimer5, TIMER5_BASE)].
  intros blocks. induction blocks as [|[timer' base] blocks IH]; [done|]. cbn [decode_blocks].
  destruct (checked_sub_u a base) as [offset|]; [|done]. by case_match.
Qed.

Lemma write_u32_wf a v t : wf t -> no_panic (write_u32 a v t).1 /\ wf (write_u32 a v t).2.
Proof.
  intros Ht. unfold write_u32. pose proof (iop_decode_register_no_panic a).
  destruct (decode_register a) as [[[timer r] h]|e|] eqn:E; [|done..].
  destruct (decode_register_half _ _ _ _ E) as [[-> | [-> | ->]] [-> | ->]]; cbn; (split; [done|]);
    try done; apply iop_set_counter_wf; try done; pose proof (wf_counters t Ht timer).
  - by apply count_write_wf.
  - by apply iop_write_mode_wf.
  - by apply target_write_wf.
Qed.

Lemma write_u16_wf a v t : wf t -> no_panic (write_u16 a v t).1 /\ wf (write_u16 a v t).2.
Proof.
  intros Ht. unfold write_u16. pose proof (iop_decode_register_no_panic a).
  destruct (decode_register a) as [[[timer r] h]|e|] eqn:E; [|done..].
  destruct (decode_register_half _ _ _ _ E) as [[-> | [-> | ->]] [-> | ->]]; cbn [Z.eqb negb];
    try (by apply write_u32_wf); try done; (split; [done|]); apply iop_set_counter_wf; try done;
    pose proof (wf_counters t Ht timer);
    by (apply count_write_wf || apply target_write_wf).
Qed.

Lemma read_u32_wf a t : wf t -> no_panic (read_u32 a t).1 /\ wf (read_u32 a t).2.
Proof.
  intros Ht. unfold read_u32. pose proof (iop_decode_register_no_panic a).
  destruct (decode_register a) as [[[timer r] h]|e|] eqn:E; [|done..].
  destruct (decode_register_half _ _ _ _ E) as [[-> | [-> | ->]] [-> | ->]]; cbn; try done.
  split; [done|]. apply iop_set_counter_wf; [|done]. by apply clear_reached_wf, wf_counters.
Qed.

Lemma read_u16_wf a t : wf t -> no_panic (read_u16 a t).1 /\ wf (read_u16 a t).2.
Proof.
  intros Ht. unfold read_u16. pose proof (iop_decode_register_no_panic a).
  destruct (decode_register a) as [[[timer r] h]|e|] eqn:E; [|done..].
  destruct (decode_register_half _ _ _ _ E) as [[-> | [-> | ->]] [-> | ->]]; cbn; try done.
  split; [done|]. apply iop_set_counter_wf; [|done]. by apply clear_reached_wf, wf_counters.
Qed.

Lemma set_gate_wf timer b t : wf t -> wf (set_gate timer b t).
Proof. intros Ht. apply iop_set_counter_wf; [|done]. by apply set_gate_counter_wf, wf_counters. Qed.

(** ** Logs *)

Notation run := (Counter * list (InterruptSource * option bool) * list TimingEvent)%type.

Definition appended (s : list (InterruptSource * option bool)) (o : list TimingEvent) (r : run) : run :=
  (r.1.1, s ++ r.1.2, o ++ r.2).

(** An operation that only appends to the logs. *)
Definition appends (f : run -> run) : Prop :=
  forall c s o, f (c, s, o) = appended s o (f (c, [], [])).

Lemma appends_run f s o r : appends f -> f (appended s o r) = appended s o (f r).
Proof.
  intros Hf. destruct r as [[c s'] o']. unfold appended at 1. cbn [fst snd].
  rewrite Hf, (Hf c s' o'). destruct (f (c, [], [])) as [[c1 s1] o1].
  unfold appended. cbn. by rewrite !app_assoc.
Qed.

Lemma boundary_appends timer b : appends (Counter.boundary timer b).
Proof.
  intros c s o. unfold Counter.boundary, appended.
  destruct b; repeat case_goal; cbn; unfold observe, vec_observer; by rewrite ?app_nil_r.
Qed.

Lemma cross_appends timer ht ho : appends (Counter.cross timer ht ho).
Proof.
  intros c s o. unfold Counter.cross. destruct ht.
  - pose proof (boundary_appends timer Target c s o) as E. rewrite !E. clear E.
    destruct (Counter.boundary timer Target (c, [], [])) as [[c1 s1] o1].
    unfold appended at 1 2. cbn [fst snd]. set (c2 := if has_bits _ _ then _ else c1).
    destruct ho; [|done]. exact (appends_run _ s o (c2, s1, o1) (boundary_appends timer Overflow)).
  - destruct ho; [apply boundary_appends|]. unfold appended. cbn. by rewrite !app_nil_r.
Qed.

Lemma cycle_appends timer : appends (cycle timer).
Proof.
  intros c s o. unfold cycle, Counter.advance_cycle.
  assert (forall c, (c, s, o) = appended s o (c, [], []) :> run) as E.
  { intros c'. unfold appended. cbn. by rewrite !app_nil_r. }
  repeat case_match; cbn [snd]; try apply E. apply cross_appends.
Qed.

Lemma clock_appends timer : appends (Counter.clock timer).
Proof. intros c s o. apply cross_appends. Qed.

Lemma iterate_appends f n : appends f -> appends (iterate n f).
Proof.
  intros Hf. induction n as [|n IH]; intros c s o.
  - unfold appended. cbn. by rewrite !app_nil_r.
  - cbn [iterate]. rewrite (Hf c s o). destruct (f (c, [], [])) as [[c1 s1] o1].
    unfold appended at 1. cbn [fst snd]. rewrite (IH c1 (s ++ s1) (o ++ o1)), (IH c1 s1 o1).
    unfold appended. cbn. by rewrite !app_assoc.
Qed.

Lemma crossings_log timer n c s o :
  crossings timer n ((c, s, o) : run) = crossings timer n ((c, [], []) : run).
Proof.
  revert c s o. induction n as [|n IH]; intros c s o; [done|]. cbn [crossings fst].
  rewrite (clock_appends timer c s o). destruct (Counter.clock timer (c, [], [])) as [[c1 s1] o1].
  unfold appended. cbn [fst snd]. by rewrite (IH c1 (s ++ s1)), (IH c1 s1).
Qed.

Lemma cycle_crossings_log timer n c s o :
  cycle_crossings timer n ((c, s, o) : run) = cycle_crossings timer n ((c, [], []) : run).
Proof. unfold cycle_crossings. cbn [fst]. by rewrite crossings_log. Qed.

Lemma cycle_wf timer (r : run) : CounterFacts.wf timer r.1.1 ->
  CounterFacts.wf timer (cycle timer r).1.1.
Proof.
  destruct r as [[c s] o]. cbn [fst]. intros Hc. unfold cycle, Counter.advance_cycle.
  destruct (skips_some c) as [[] ->]; [done|]. rewrite divisor_prescale.
  pose proof (divisor_range timer c). destruct Hc.
  case_match; cbn [snd fst]; zbool.
  - constructor; try done. cbn. unfold divisor in *. cbn. lia.
  - apply clock_config. constructor; try done. cbn. unfold divisor in *. cbn. lia.
Qed.

(** One counter alone, cycle by cycle. *)
Definition alone (n : nat) (timer : TimerId) (t : IopTimers) : run :=
  iterate n (cycle timer) (counter timer t, [], []).

Lemma alone_wf n timer t : wf t -> CounterFacts.wf timer (alone n timer t).1.1.
Proof.
  intros Ht. apply (iterate_invariant (fun r : run => CounterFacts.wf timer r.1.1)).
  - intros r. apply cycle_wf.
  - by apply wf_counters.
Qed.

Definition within_limit (n : nat) (t : IopTimers) (timer : TimerId) : bool :=
  cycle_crossings timer n ((counter timer t, [], []) : run) <=? MAX_EVENTS_PER_ADVANCE.

Lemma foldl_ext_elem {A B} (f g : A -> B -> A) l : forall a,
  (forall a b, b ∈ l -> f a b = g a b) -> foldl f a l = foldl g a l.
Proof.
  induction l as [|b l IH]; intros a Hfg; [done|]. cbn. rewrite Hfg by (by left).
  apply IH. intros a' b' Hb. apply Hfg. by right.
Qed.

(** The counters one after the other. *)
Lemma for_each_alone n (f : TimerId -> run -> outcome TimerError unit * run) timers : forall t s o,
  length (counters t) = 6%nat -> NoDup timers ->
  (forall timer s o, timer ∈ timers -> let r := (counter timer t, s, o) in
    if within_limit n t timer then f timer r = (Ok tt, iterate n (cycle timer) r)
    else exists r', f timer r = (Err (EventLimit timer MAX_EVENTS_PER_ADVANCE), r')) ->
  if forallb (within_limit n t) timers then
    for_each f timers (t, s, o) =
    (Ok tt, (foldl (fun t' timer => set_counter timer (alone n timer t).1.1 t') t timers,
             s ++ concat ((fun timer => (alone n timer t).1.2) <$> timers),
             o ++ concat ((fun timer => (alone n timer t).2) <$> timers)))
  else exists timer, timer ∈ timers /\ within_limit n t timer = false /\
    (for_each f timers (t, s, o)).1 = Err (EventLimit timer MAX_EVENTS_PER_ADVANCE).
Proof.
  induction timers as [|timer timers IH]; intros t s o Hl Hnd Hf.
  { cbn. by rewrite !app_nil_r. }
  inversion Hnd as [|? ? Hnot Hnd']; subst. cbn [forallb for_each]. unfold on_counter.
  pose proof (Hf timer s o ltac:(by left)) as H1. cbv zeta in H1.
  destruct (within_limit n t timer) eqn:Ew; cbn [andb].
  - rewrite H1, (iterate_appends _ n (cycle_appends timer)). unfold appended. cbn [fst snd].
    fold (alone n timer t). destruct (alone n timer t) as [[c1 s1] o1] eqn:Ea. cbn [fst snd].
    set (t1 := set_counter timer c1 t).
    assert (forall timer', timer' ∈ timers -> counter timer' t1 = counter timer' t) as Hsame.
    { intros timer' Hin. unfold t1. rewrite counter_set, decide_False; [done| |done].
      intros ->. done. }
    assert (forall timer', timer' ∈ timers -> within_limit n t1 timer' = within_limit n t timer'
      /\ alone n timer' t1 = alone n timer' t) as Hsame'.
    { intros timer' Hin. unfold within_limit, alone. by rewrite (Hsame timer' Hin). }
    pose proof (IH t1 (s ++ s1) (o ++ o1)) as Hi.
    assert (forallb (within_limit n t1) timers = forallb (within_limit n t) timers) as Efb.
    { apply Bool.eq_iff_eq_true. rewrite !forallb_forall.
      split; intros Hall x Hx; pose proof (Hall x Hx) as Hw;
        destruct (Hsame' x ltac:(by apply list_elem_of_In)) as [E _]; congruence. }
    rewrite Efb in Hi.
    assert (length (counters t1) = 6%nat) as Hl1 by (unfold t1; by rewrite set_counter_length).
    specialize (Hi Hl1 Hnd'). cbn [foldl fmap list_fmap concat]. rewrite Ea. cbn [fst snd].
    destruct (forallb (within_limit n t) timers); [rewrite Hi|destruct Hi as (tm & Hin & Hw & Hr)].
    + f_equal. f_equal; [f_equal|].
      * apply foldl_ext_elem. intros t' tm Hin. by destruct (Hsame' tm Hin) as [_ ->].
      * rewrite <- app_assoc. do 3 f_equal. apply list_fmap_ext.
        intros i tm Hin%list_elem_of_lookup_2. by destruct (Hsame' tm Hin) as [_ ->].
      * rewrite <- app_assoc. do 3 f_equal. apply list_fmap_ext.
        intros i tm Hin%list_elem_of_lookup_2. by destruct (Hsame' tm Hin) as [_ ->].
    + intros tm s' o' Hin. destruct (Hsame' tm Hin) as [-> _]. rewrite (Hsame tm Hin).
      apply Hf. by right.
    + intros tm s' o' Hin. destruct (Hsame' tm Hin) as [-> _]. rewrite (Hsame tm Hin).
      apply Hf. by right.
    + exists tm. destruct (Hsame' tm Hin) as [<- _]. split_and!; [by right|done|done].
  - destruct H1 as [[[c1 s1] o1] H1]. rewrite H1. exists timer. split_and!; [by left|done|done].
Qed.

Lemma within_limit_one t timer : wf t -> within_limit 1 t timer = true.
Proof.
  intros Ht. unfold within_limit, cycle_crossings. apply Z.leb_le. cbn [fst].
  pose proof (divisor_range timer (counter timer t)).
  pose proof (wf_remainder _ _ (wf_counters t Ht timer)).
  case_bool_decide; [done|]. etransitivity; [apply crossings_bound|].
  rewrite Z2Nat.id by (apply Z.div_pos; lia).
  transitivity (2 * 1); [|done]. apply Z.mul_le_mono_nonneg_l; [lia|].
  change (Z.of_nat 1) with 1. apply Z.lt_succ_r. apply Z.div_lt_upper_bound; lia.
Qed.

Lemma foldl_set_counters (c : TimerId -> Counter) t : length (counters t) = 6%nat ->
  foldl (fun t' timer => set_counter timer (c timer) t') t TimerId.ALL =
  mkIopTimers (c <$> TimerId.ALL).
Proof.
  destruct t as [l]. cbn [counters]. intros Hl.
  do 6 (destruct l as [|? l]; [done|]). by destruct l.
Qed.

(** C29: Advancing the counters by any number of processor cycles is, for each counter,
    advancing it that many times by one cycle: the same count, flags, prescaler phase,
    timing events and interrupt requests, each counter's in its own order and the
    counters one after the other.  It never panics; it fails only when some counter
    reaches more than the fixed number of boundaries, and every counter stays well
    formed. *)
Theorem advance_cpu_by_cycles cycles t s o :
  wf t -> 0 <= cycles -> cycles + 256 <= 2 ^ 64 ->
  let n := Z.to_nat cycles in
  let each := fun timer => alone n timer t in
  if forallb (within_limit n t) TimerId.ALL then
    advance_cpu cycles (t, s, o) =
    (Ok tt, (mkIopTimers ((fun timer => (each timer).1.1) <$> TimerId.ALL),
             s ++ concat ((fun timer => (each timer).1.2) <$> TimerId.ALL),
             o ++ concat ((fun timer => (each timer).2) <$> TimerId.ALL))) /\
    wf (mkIopTimers ((fun timer => (each timer).1.1) <$> TimerId.ALL))
  else exists timer, timer ∈ TimerId.ALL /\ within_limit n t timer = false /\
    (advance_cpu cycles (t, s, o)).1 = Err (EventLimit timer MAX_EVENTS_PER_ADVANCE).
Proof.
  intros Ht Hpos Hmax n each. pose proof (wf_length t Ht) as Hl.
  assert (NoDup TimerId.ALL) as Hnd by (apply (bool_decide_unpack _); vm_compute; exact I).
  assert (forall (f : TimerId -> run -> outcome TimerError unit * run),
    (forall timer s o, timer ∈ TimerId.ALL -> let r := (counter timer t, s, o) in
      if within_limit n t timer then f timer r = (Ok tt, iterate n (cycle timer) r)
      else exists r', f timer r = (Err (EventLimit timer MAX_EVENTS_PER_ADVANCE), r')) ->
    advance_cpu cycles (t, s, o) = for_each f TimerId.ALL (t, s, o) ->
    if forallb (within_limit n t) TimerId.ALL then
      advance_cpu cycles (t, s, o) =
      (Ok tt, (mkIopTimers ((fun timer => (each timer).1.1) <$> TimerId.ALL),
               s ++ concat ((fun timer => (each timer).1.2) <$> TimerId.ALL),
               o ++ concat ((fun timer => (each timer).2) <$> TimerId.ALL))) /\
      wf (mkIopTimers ((fun timer => (each timer).1.1) <$> TimerId.ALL))
    else exists timer, timer ∈ TimerId.ALL /\ within_limit n t timer = false /\
      (advance_cpu cycles (t, s, o)).1 = Err (EventLimit timer MAX_EVENTS_PER_ADVANCE))
    as Hgen.
  { intros f Hf E. rewrite E. pose proof (for_each_alone n f TimerId.ALL t s o Hl Hnd Hf) as Hr.
    rewrite foldl_set_counters in Hr by done.
    destruct (forallb (within_limit n t) TimerId.ALL); [|done]. split; [done|].
    constructor; [done|]. intros timer.
    pose proof (alone_wf n timer t Ht). by destruct timer. }
  unfold advance_cpu in *. destruct (Z.eqb_spec cycles 1) as [E1|Hne].
  - subst n. rewrite E1 in *. apply (Hgen Counter.advance_cycle); [|done].
    intros timer s' o' _. cbv zeta. change (Z.to_nat 1) with 1%nat. rewrite within_limit_one by done.
    apply advance_cycle_ok.
  - apply (Hgen (Counter.advance_cycles cycles)); [|done].
    intros timer s' o' _. cbv zeta. unfold within_limit.
    pose proof (advance_cycles_spec timer cycles (counter timer t) s' o'
      (wf_counters t Ht timer) Hpos) as Ha. cbv zeta in Ha.
    rewrite cycle_crossings_log in Ha. apply Ha.
    pose proof (wf_remainder _ _ (wf_counters t Ht timer)).
    pose proof (divisor_range timer (counter timer t)). lia.
Qed.

Definition sample_bank : IopTimers :=
  (write_u32 (TIMER0_BASE + 4) (MODE_RESET_ON_TARGET .| MODE_IRQ_ON_TARGET .| MODE_IRQ_REPEAT)
    (write_u32 (TIMER0_BASE + 8) 3 new).2).2.

Lemma sample_bank_wf : wf sample_bank.
Proof. apply write_u32_wf, write_u32_wf, iop_timers_new_wf. Qed.

Lemma advance_cpu_by_cycles_witness :
  exists t' s' o', advance_cpu 7 (sample_bank, [], []) = (Ok tt, (t', s', o')) /\
    count TTimer0 t' = 1 /\ s' = [(Timer0, None); (Timer0, None)] /\
    o' = [CounterEvent TTimer0 Target; CounterEvent TTimer0 Target].
Proof.
  pose proof (advance_cpu_by_cycles 7 sample_bank [] [] sample_bank_wf
    ltac:(lia) ltac:(lia)) as H. cbv zeta in H.
  destruct (forallb (within_limit (Z.to_nat 7) sample_bank) TimerId.ALL) eqn:E;
    [|vm_compute in E; discriminate E].
  destruct H as [H _]. eexists _, _, _. split; [exact H|]. split_and!; vm_compute; reflexivity.
Defined.

End BankFacts.

(** ** The refresh clock *)

Module RefreshFacts.
Import RefreshClock.

Definition frame (v : VideoStandard) : Z := CPU_HZ * (rate v).2.
Definition blank (v : VideoStandard) : Z := frame v - frame v / 10.

Lemma frame_blank v : 0 < blank v < frame v /\ frame v < 2 ^ 40.
Proof. by destruct v. Qed.

Definition wf (c : RefreshClock) : Prop :=
  0 <= phase_units c < frame (standard c) /\
  in_vblank c = (blank (standard c) <=? phase_units c).

Lemma refresh_new_wf v : wf (new v).
Proof. by destruct v. Qed.

(** The boundaries of absolute time: each frame has one at the start and one at the
    end of its blank. *)
Definition boundary_index (v : VideoStandard) (x : Z) : Z :=
  2 * (x / frame v) + (if blank v <=? x mod frame v then 1 else 0).

Definition boundary_event (i : Z) : TimingEvent := if Z.even i then VBlankStart else VBlankEnd.

Definition boundary_source (i : Z) : InterruptSource :=
  if Z.even i then Ps2Irq.VBlank else Ps2Irq.VBlankEnd.

(** The clock at an absolute time. *)
Definition at_time (v : VideoStandard) (x : Z) : RefreshClock :=
  mkRefreshClock v (x mod frame v) (blank v <=? x mod frame v).

Lemma at_time_phase c : wf c -> at_time (standard c) (phase_units c) = c.
Proof.
  destruct c as [v p b]. cbn. intros [Hp Hb]. cbn in *. unfold at_time.
  by rewrite Z.mod_small, Hb.
Qed.

Section sinks.
Context {S Obs : Type} `{InterruptSink S} `{TimingObserver Obs}.

(** The boundaries from one index up to another, in order. *)
Definition emit (l : list Z) (so : S * Obs) : S * Obs :=
  foldl (fun so i => (request so.1 (boundary_source i), observe so.2 (boundary_event i))) so l.

Lemma emit_app l l' so : emit (l ++ l') so = emit l' (emit l so).
Proof. apply foldl_app. Qed.

(** The distance to the next boundary. *)
Definition distance (v : VideoStandard) (x : Z) : Z :=
  (if blank v <=? x mod frame v then frame v else blank v) - x mod frame v.

Lemma frame_mod v x : 0 <= x mod frame v < frame v.
Proof. apply Z.mod_pos_bound. pose proof (frame_blank v). lia. Qed.

Lemma refresh_distance_pos v x : 0 < distance v x.
Proof.
  pose proof (frame_mod v x). unfold distance.
  destruct (Z.leb_spec (blank v) (x mod frame v)); lia.
Qed.

Lemma at_step v x n : 0 <= n < distance v x ->
  (x + n) mod frame v = x mod frame v + n /\ (x + n) / frame v = x / frame v /\
  (blank v <=? (x + n) mod frame v) = (blank v <=? x mod frame v).
Proof.
  intros Hn. pose proof (frame_mod v x) as Hx. pose proof (frame_blank v).
  pose proof (Z.div_mod x (frame v) ltac:(lia)) as Ed. unfold distance in Hn.
  assert ((x + n) mod frame v = x mod frame v + n) as E.
  { symmetry. apply (Z.mod_unique_pos _ _ (x / frame v));
      destruct (Z.leb_spec (blank v) (x mod frame v)); lia. }
  split_and!; [done| |].
  - symmetry. apply (Z.div_unique_pos _ _ _ (x mod frame v + n));
      destruct (Z.leb_spec (blank v) (x mod frame v)); lia.
  - rewrite E. destruct (Z.leb_spec (blank v) (x mod frame v)),
      (Z.leb_spec (blank v) (x mod frame v + n)); done || lia.
Qed.

Lemma index_step v x n : 0 <= n < distance v x -> boundary_index v (x + n) = boundary_index v x.
Proof. intros Hn. unfold boundary_index. by destruct (at_step v x n Hn) as (_ & -> & ->). Qed.

(** At the boundary the clock flips. *)
Lemma at_boundary v x :
  boundary_index v (x + distance v x) = boundary_index v x + 1 /\
  Z.even (boundary_index v x) = negb (blank v <=? x mod frame v) /\
  at_time v (x + distance v x) =
    if blank v <=? x mod frame v then mkRefreshClock v 0 false
    else mkRefreshClock v (blank v) true.
Proof.
  pose proof (frame_mod v x) as Hx. pose proof (frame_blank v) as [Hf _].
  pose proof (Z.div_mod x (frame v) ltac:(lia)) as Ed. unfold boundary_index, at_time, distance.
  destruct (Z.leb_spec (blank v) (x mod frame v)) as [Hb|Hb].
  - assert ((x + (frame v - x mod frame v)) mod frame v = 0) as ->.
    { symmetry. apply (Z.mod_unique_pos _ _ (x / frame v + 1)); lia. }
    assert ((x + (frame v - x mod frame v)) / frame v = x / frame v + 1) as ->.
    { symmetry. apply (Z.div_unique_pos _ _ _ 0); lia. }
    rewrite (proj2 (Z.leb_gt (blank v) 0)) by lia.
    split_and!; [lia| |done]. rewrite Z.even_add, Z.even_mul. done.
  - assert ((x + (blank v - x mod frame v)) mod frame v = blank v) as ->.
    { symmetry. apply (Z.mod_unique_pos _ _ (x / frame v)); lia. }
    assert ((x + (blank v - x mod frame v)) / frame v = x / frame v) as ->.
    { symmetry. apply (Z.div_unique_pos _ _ _ (blank v)); lia. }
    rewrite (proj2 (Z.leb_le (blank v) (blank v))) by lia.
    split_and!; [lia| |done]. rewrite Z.even_add, Z.even_mul. done.
Qed.

Lemma index_mono v x y : x <= y -> boundary_index v x <= boundary_index v y.
Proof.
  intros Hxy. unfold boundary_index. pose proof (frame_blank v) as [Hf _].
  pose proof (Z.div_mod x (frame v) ltac:(lia)). pose proof (Z.div_mod y (frame v) ltac:(lia)).
  pose proof (frame_mod v x). pose proof (frame_mod v y).
  pose proof (Z.div_le_mono x y (frame v) ltac:(lia) Hxy).
  destruct (Z.eq_dec (x / frame v) (y / frame v)) as [E|].
  - rewrite E in *. destruct (Z.leb_spec (blank v) (x mod frame v)),
      (Z.leb_spec (blank v) (y mod frame v)); lia.
  - repeat case_match; lia.
Qed.

Lemma seqZ_head a b : a < b -> seqZ a (b - a) = a :: seqZ (a + 1) (b - (a + 1)).
Proof. intros. rewrite seqZ_cons by lia. f_equal. f_equal; lia. Qed.

Lemma advance_loop_exact v fuel : forall x remaining (s : S) (o : Obs),
  0 <= remaining -> boundary_index v (x + remaining) - boundary_index v x < Z.of_nat fuel ->
  let so := emit (seqZ (boundary_index v x)
    (boundary_index v (x + remaining) - boundary_index v x)) (s, o) in
  advance_loop fuel (frame v) (blank v) remaining (at_time v x, s, o) =
  (Ok tt, (at_time v (x + remaining), so.1, so.2)).
Proof.
  induction fuel as [|fuel IH]; intros x remaining s o Hr Hf so.
  { pose proof (index_mono v x (x + remaining) ltac:(lia)). lia. }
  pose proof (frame_mod v x) as Hx. pose proof (frame_blank v) as [Hf1 Hf2].
  pose proof (refresh_distance_pos v x) as Hd. cbn [advance_loop].
  destruct (Z.eqb_spec remaining 0) as [E0|Hne].
  { subst so. by rewrite E0, Z.add_0_r, Z.sub_diag. }
  cbn [at_time in_vblank phase_units].
  replace (checked_sub_u (if blank v <=? x mod frame v then frame v else blank v)
    (x mod frame v)) with (Some (distance v x)).
  2:{ symmetry. apply checked_sub_u_Some. split; [done|]. unfold distance in Hd. lia. }
  destruct (Z.ltb_spec remaining (distance v x)) as [Hlt|Hge].
  - destruct (at_step v x remaining ltac:(lia)) as (E1 & E2 & E3).
    rewrite try_from_u_in by (unfold distance in Hlt; repeat case_match; lia).
    replace (checked_add_u 64 (x mod frame v) remaining) with (Some (x mod frame v + remaining)).
    2:{ symmetry. apply checked_add_u_Some. split; [done|].
        pose proof (frame_mod v (x + remaining)). lia. }
    subst so. rewrite index_step, Z.sub_diag by lia. cbn.
    unfold at_time. rewrite E3, E1. done.
  - destruct (at_boundary v x) as (Ei & Ee & Et).
    set (x' := x + distance v x) in *.
    assert (x + remaining = x' + (remaining - distance v x)) as Exr by (unfold x'; lia).
    set (i := boundary_index v x) in *.
    assert (cross (blank v) (at_time v x, s, o) =
      (at_time v x', request s (boundary_source i), observe o (boundary_event i))) as ->.
    { rewrite Et. unfold cross, boundary_source, boundary_event. cbn [at_time in_vblank].
      rewrite Ee. by destruct (blank v <=? x mod frame v). }
    rewrite IH by (rewrite <- ?Exr; lia). subst so. rewrite <- Exr, Ei.
    pose proof (index_mono v x' (x + remaining) ltac:(lia)) as Hm. rewrite Ei in Hm.
    rewrite (seqZ_head i) by lia. done.
Qed.

Lemma index_phase c : wf c -> boundary_index (standard c) (phase_units c) <= 1 /\
  0 <= boundary_index (standard c) (phase_units c).
Proof.
  intros [Hp _]. unfold boundary_index. rewrite Z.div_small by done. case_match; lia.
Qed.

Lemma at_time_wf v x : wf (at_time v x).
Proof. unfold wf, at_time. cbn. split; [apply frame_mod|done]. Qed.

Lemma refresh_advance c cycles (s : S) (o : Obs) : wf c -> in_u 64 cycles ->
  let v := standard c in
  let start := boundary_index v (phase_units c) in
  let target := phase_units c + cycles * (rate v).1 in
  advance cycles (c, s, o) =
  let so := emit (seqZ start (boundary_index v target - start)) (s, o) in
  (Ok tt, (at_time v target, so.1, so.2)).
Proof.
  intros Hc Hcy v start target. pose proof (frame_blank v) as [Hf1 Hf2].
  unfold advance. cbn [fst]. rewrite (surjective_pairing (rate (standard c))). fold v.
  replace (checked_mul_u 64 CPU_HZ (rate v).2) with (Some (frame v)) by (by destruct v).
  fold (blank v). destruct (index_phase c Hc) as [Hi0 Hi1]. fold v in Hi0, Hi1.
  rewrite <- (at_time_phase c Hc). fold v.
  assert (0 <= cycles * (rate v).1) as Hadd.
  { destruct Hcy. apply Z.mul_nonneg_nonneg; [done|by destruct v]. }
  assert (0 <= cycles * (rate v).1 / frame v) by (apply Z.div_pos; lia).
  apply advance_loop_exact; [done|].
  rewrite Z2Nat.id by lia. fold target.
  assert (boundary_index v target <= 2 * (cycles * (rate v).1 / frame v) + 3); [|lia].
  unfold boundary_index. assert (target / frame v <= cycles * (rate v).1 / frame v + 1).
  { rewrite <- Z.div_add by lia. apply Z.div_le_mono; [lia|]. unfold target.
    destruct Hc as [Hp _]. fold v in Hp. lia. }
  case_match; lia.
Qed.

(** The refresh clock never drifts: advancing it by any number of processor cycles
    moves its phase by exactly the cycles times the frame rate and emits exactly the
    starts and ends of vertical blank that lie in the interval, in their order, whatever
    the device that observes them. *)
Theorem refresh_exact c cycles (s : S) (o : Obs) :
  wf c -> in_u 64 cycles ->
  let v := standard c in
  let target := phase_units c + cycles * (rate v).1 in
  let so := emit (seqZ (boundary_index v (phase_units c))
    (boundary_index v target - boundary_index v (phase_units c))) (s, o) in
  advance cycles (c, s, o) = (Ok tt, (at_time v target, so.1, so.2)) /\ wf (at_time v target).
Proof. intros. split; [by apply refresh_advance|apply at_time_wf]. Qed.
End sinks.

(** From just before a blank, into it and out of it. *)
Lemma refresh_exact_witness :
  advance 73730 (at_time Pal (blank Pal - 50), [] : list (InterruptSource * option bool), []) =
  (Ok tt, (mkRefreshClock Pal 50 false, [(Ps2Irq.VBlank, None); (Ps2Irq.VBlankEnd, None)],
           [VBlankStart; VBlankEnd])).
Proof.
  assert (wf (at_time Pal (blank Pal - 50))) as Hc by done.
  assert (in_u 64 73730) as Hcy by (by split).
  pose proof (proj1 (refresh_exact (S := list (InterruptSource * option bool))
    (Obs := list TimingEvent) _ _ [] [] Hc Hcy)) as H.
  etransitivity; [exact H|]. vm_compute. reflexivity.
Defined.

End RefreshFacts.

(** ** What advancing the counters keeps

    Advancing never panics, on the failing path included, and keeps the counters, their
    gates, and whatever property of the interrupt sink and the observer survives a
    counter's own requests and events. *)

Import CounterFacts Counter.

Section keep.
Context {S Obs : Type} `{InterruptSink S} `{TimingObserver Obs}.
Context (P : S -> Obs -> Prop).
Context (P_observe : forall s o timer b, P s o -> P s (observe o (CounterEvent timer b))).
Context (P_request : forall s o timer, P s o -> P (request s (TimerId.interrupt timer)) o).
Implicit Types cso : Counter * S * Obs.

(** The counter stays well formed with its gate as it was. *)
Record kept (timer : TimerId) (gate : bool) cso : Prop := {
  kept_wf : CounterFacts.wf timer cso.1.1;
  kept_gate : gate_level cso.1.1 = gate;
  kept_P : P cso.1.2 cso.2;
}.

Lemma boundary_P timer b c s o : P s o ->
  P (boundary timer b (c, s, o)).1.2 (boundary timer b (c, s, o)).2.
Proof using P_observe P_request.
  intros Hp. unfold boundary. destruct b; repeat case_match; simplify_eq; cbn; auto.
Qed.

Lemma cross_P timer ht ho c s o : P s o ->
  P (cross timer ht ho (c, s, o)).1.2 (cross timer ht ho (c, s, o)).2.
Proof using P_observe P_request.
  intros Hp. unfold cross.
  assert (P (if ht then
      let '(c, sink, observer) := boundary timer Target (c, s, o) in
      (if has_bits (mode c) MODE_RESET_ON_TARGET then c <| count := 0 |> else c, sink, observer)
    else (c, s, o)).1.2 (if ht then
      let '(c, sink, observer) := boundary timer Target (c, s, o) in
      (if has_bits (mode c) MODE_RESET_ON_TARGET then c <| count := 0 |> else c, sink, observer)
    else (c, s, o)).2) as H1.
  { destruct ht; [|done]. pose proof (boundary_P timer Target c s o Hp).
    by destruct (boundary timer Target (c, s, o)) as [[c1 s1] o1]. }
  destruct (if ht then _ else _) as [[c1 s1] o1]. destruct ho; [by apply boundary_P|done].
Qed.

Lemma cross_kept timer gate ht ho cso : kept timer gate cso -> kept timer gate (cross timer ht ho cso).
Proof using P_observe P_request.
  destruct cso as [[c s] o]. intros [Hc Hg Hp]. cbn [fst snd] in *.
  destruct (cross_config timer ht ho c s o Hc) as [Hc' []]. constructor; [done|congruence|].
  by apply cross_P.
Qed.

Lemma count_kept timer gate n c s o : 0 <= n < modulus timer -> kept timer gate (c, s, o) ->
  kept timer gate (c <| count := n |>, s, o).
Proof. intros Hn []. constructor; [by apply count_wf|done|done]. Qed.

Lemma advance_loop_kept timer gate fuel : forall ticks events cso,
  kept timer gate cso -> 0 <= ticks -> 0 <= events <= MAX_EVENTS_PER_ADVANCE ->
  ticks <= Z.of_nat fuel \/ MAX_EVENTS_PER_ADVANCE + 1 - events <= Z.of_nat fuel ->
  let r := advance_loop fuel timer ticks events cso in no_panic r.1 /\ kept timer gate r.2.
Proof using P_observe P_request.
  induction fuel as [|fuel IH]; intros ticks events [[c s] o] Hk Ht He Hf;
    (destruct (Z.eqb_spec ticks 0) as [->|]; [done|]); [lia|].
  pose proof (kept_wf _ _ _ Hk) as Hc. cbn [fst] in Hc. pose proof (distance_pos timer c Hc) as Hd.
  rewrite advance_loop_step by (done || lia). cbv zeta.
  set (step := Z.min ticks (distance timer c)).
  assert (kept timer gate (c <| count := (count c + step) mod modulus timer |>, s, o)) as Hk1
    by (apply count_kept; [apply in_modulus_mod|done]).
  set (ht := step =? _). set (ho := step =? _). destruct (negb ht && negb ho) eqn:Eh; [done|].
  destruct (Z.ltb_spec MAX_EVENTS_PER_ADVANCE
    (events + (if ht then 1 else 0) + (if ho then 1 else 0))); [done|].
  apply IH; [by apply cross_kept|unfold step; lia| |];
    destruct ht, ho; try done; unfold step; lia.
Qed.

Lemma advance_counter_kept timer gate ticks cso : kept timer gate cso -> 0 <= ticks ->
  let r := advance_counter timer ticks cso in no_panic r.1 /\ kept timer gate r.2.
Proof using P_observe P_request.
  intros Hk Ht. apply advance_loop_kept; [done|done|done|]. unfold MAX_EVENTS_PER_ADVANCE. lia.
Qed.

Lemma remainder_kept timer gate c s o r : 0 <= r < divisor timer c -> kept timer gate (c, s, o) ->
  kept timer gate (c <| prescale_remainder := r |>, s, o).
Proof. intros Hr [[] Hg Hp]. constructor; [by constructor|done|done]. Qed.

Lemma advance_cycles_kept timer gate cycles cso :
  kept timer gate cso -> 0 <= cycles -> cycles + 256 <= 2 ^ 64 ->
  let r := advance_cycles cycles timer cso in no_panic r.1 /\ kept timer gate r.2.
Proof using P_observe P_request.
  destruct cso as [[c s] o]. intros Hk Hge Hm. pose proof (kept_wf _ _ _ Hk) as Hc. cbn [fst] in Hc.
  unfold advance_cycles. destruct (skips_some c) as [[] ->]; [done|]. rewrite divisor_prescale.
  pose proof (divisor_range timer c). pose proof (wf_remainder _ _ Hc).
  rewrite (proj2 (checked_add_u_Some 64 _ _ _)) by (split; [done|lia]).
  assert (0 <= (prescale_remainder c + cycles) mod divisor timer c < divisor timer c)
    by (apply Z.mod_pos_bound; lia).
  rewrite (wrap_id 16) by (unfold in_u; lia).
  apply advance_counter_kept; [by apply remainder_kept|apply Z.div_pos; lia].
Qed.

Lemma advance_cycle_kept timer gate cso : kept timer gate cso ->
  let r := advance_cycle timer cso in no_panic r.1 /\ kept timer gate r.2.
Proof using P_observe P_request.
  destruct cso as [[c s] o]. intros Hk. pose proof (kept_wf _ _ _ Hk) as Hc. cbn [fst] in Hc.
  unfold advance_cycle. destruct (skips_some c) as [[] ->]; [done|]. rewrite divisor_prescale.
  pose proof (divisor_range timer c). pose proof (wf_remainder _ _ Hc).
  destruct (Z.ltb_spec (prescale_remainder c + 1) (divisor timer c)).
  - split; [done|]. apply remainder_kept; [lia|done].
  - split; [done|]. cbn [snd].
    assert (kept timer gate (c <| prescale_remainder := 0 |>, s, o)) as Hk0
      by (apply remainder_kept; [lia|done]).
    rewrite clock_eq by apply Hk0. apply cross_kept, count_kept; [apply in_modulus_mod|done].
Qed.

(** ** The bank *)

(** The bank after advancing. *)
Record bank_kept (t : IopTimers) (r : outcome TimerError unit * (IopTimers * S * Obs)) : Prop := {
  bank_no_panic : no_panic r.1;
  bank_wf : BankFacts.wf r.2.1.1;
  bank_gates : forall timer,
    gate_level (IopTimers.counter timer r.2.1.1) = gate_level (IopTimers.counter timer t);
  bank_P : P r.2.1.2 r.2.2;
}.

Lemma for_each_kept f timers :
  (forall timer gate cso, kept timer gate cso -> no_panic (f timer cso).1 /\ kept timer gate (f timer cso).2) ->
  forall t s o, BankFacts.wf t -> P s o -> bank_kept t (IopTimers.for_each f timers (t, s, o)).
Proof.
  intros Hf. induction timers as [|timer timers IH]; intros t s o Ht Hp; [done|].
  cbn [IopTimers.for_each]. unfold IopTimers.on_counter.
  destruct (Hf timer (gate_level (IopTimers.counter timer t)) (IopTimers.counter timer t, s, o))
    as [Hn Hk]. { constructor; [by apply BankFacts.wf_counters|done|done]. }
  destruct (f timer _) as [r [[c s1] o1]]. cbn [fst snd] in *.
  destruct Hk as [Hc Hg Hp1]. cbn [fst snd] in *.
  set (t1 := IopTimers.set_counter timer c t).
  assert (BankFacts.wf t1) as Ht1 by by apply BankFacts.iop_set_counter_wf.
  assert (forall timer', gate_level (IopTimers.counter timer' t1) =
    gate_level (IopTimers.counter timer' t)) as Hg1.
  { intros timer'. unfold t1. rewrite BankFacts.counter_set by apply Ht. by case_decide; subst. }
  destruct r as [[]|e|]; [|by constructor|done].
  destruct (IH t1 s1 o1 Ht1 Hp1) as [H1 H2 H3 H4]. constructor; [done|done| |done].
  intros timer'. by rewrite H3.
Qed.

Lemma advance_cpu_kept cycles t s o :
  BankFacts.wf t -> P s o -> 0 <= cycles -> cycles + 256 <= 2 ^ 64 ->
  bank_kept t (IopTimers.advance_cpu cycles (t, s, o)).
Proof using P_observe P_request.
  intros Ht Hp Hge Hm. unfold IopTimers.advance_cpu, IopTimers.advance_single_cpu_cycle.
  case_match; apply for_each_kept; try done; intros timer gate cso Hk.
  - by apply advance_cycle_kept.
  - by apply advance_cycles_kept.
Qed.
End keep.
