(* ===== verification/Ps2Dma.v ===== *)
(** * PS2 I/O processor DMA: crates/hw/ps2/dma/src/lib.rs

    Two banks of channel registers with the control and interrupt registers of each.
    Channels 4 and 7 feed the two cores of the sound processor: a started transfer is
    scheduled on the event queue and moves its words when the event is delivered.  The
    controller is modelled against the [EventQueue] interface of the scheduler, an
    interrupt sink, an observer and the sound endpoint, each with its own state. *)

From S2P Require Import Prelude MachineInt Records Clock Scheduler.
From S2P Require Import Ps2Irq Ps2Memory.

Definition DMA1_CHANNEL_START : Z := 0x1f801080.
Definition DMA1_CHANNEL_END : Z := 0x1f8010ec.
Definition DMA2_CHANNEL_START : Z := 0x1f801500.
Definition DMA2_CHANNEL_END : Z := 0x1f80155c.
Definition DPCR1 : Z := 0x1f8010f0.
Definition DICR1 : Z := 0x1f8010f4.
Definition DPCR2 : Z := 0x1f801570.
Definition DICR2 : Z := 0x1f801574.
Definition DMAC_ENABLE : Z := 0x1f801578.
Definition D4_MADR : Z := 0x1f8010c0.
Definition D4_BCR : Z := 0x1f8010c4.
Definition D4_CHCR : Z := 0x1f8010c8.
Definition D7_MADR : Z := 0x1f801500.
Definition D7_BCR : Z := 0x1f801504.
Definition D7_CHCR : Z := 0x1f801508.
Definition CHANNEL4_EVENT : Z := 0x02040004.
Definition CHANNEL7_EVENT : Z := 0x02070007.

Definition CHANNEL_COUNT : Z := 13.
Definition CHANNEL4 : Z := 4.
Definition CHANNEL7 : Z := 7.
Definition RAM_ADDRESS_MASK : Z := 0x00fffffc.
Definition CHCR_DIRECTION_FROM_RAM : Z := Z.shiftl 1 0.
Definition CHCR_DECREMENT : Z := Z.shiftl 1 1.
Definition CHCR_SYNC_MASK : Z := Z.shiftl 3 9.
Definition CHCR_START : Z := Z.shiftl 1 24.
Definition DPCR1_RESET : Z := 0x07654321.
Definition DPCR_ENABLE : Z := Z.shiftl 1 3.
Definition DICR_FORCE : Z := Z.shiftl 1 15.
Definition DICR_MASTER_ENABLE : Z := Z.shiftl 1 23.
Definition DICR_MASTER_FLAG : Z := Z.shiftl 1 31.
Definition COMPLETION_CYCLES : Z := 0.
Definition MAX_RAM_WORDS : Z := (2 * 1024 * 1024) / 4.

Inductive SoundDmaChannel : Set := Core0 | Core1.

#[export] Instance SoundDmaChannel_eq_dec : EqDecision SoundDmaChannel.
Proof. solve_decision. Defined.

Module SoundDmaChannel.

Definition ALL : list SoundDmaChannel := [Core0; Core1].

Definition core (c : SoundDmaChannel) : nat := match c with Core0 => 0 | Core1 => 1 end.

Definition channel (c : SoundDmaChannel) : Z :=
  match c with Core0 => CHANNEL4 | Core1 => CHANNEL7 end.

Definition event (c : SoundDmaChannel) : Z :=
  match c with Core0 => CHANNEL4_EVENT | Core1 => CHANNEL7_EVENT end.

End SoundDmaChannel.

Inductive DmaDirection : Set := FromRam | ToRam.

Inductive DmaEvent : Set :=
| Started (channel : SoundDmaChannel) (direction : DmaDirection) (words deadline : Z)
| Completed (channel : SoundDmaChannel) (direction : DmaDirection) (words : Z).

(** The [DmaObserver] trait; a vector of events and the silent observer. *)
Class DmaObserver (O : Type) : Type := observe : O -> DmaEvent -> O.

#[export] Instance vec_observer : DmaObserver (list DmaEvent) :=
  fun events event => events ++ [event].
Inductive NoopObserver : Set := Noop.
#[export] Instance noop_observer : DmaObserver NoopObserver := fun o _ => o.

Record EndpointError := mkEndpointError { message : string }.

(** The two traits of the sound processor. *)
Class Spu2DmaEndpoint (E : Type) := {
  write_word : SoundDmaChannel -> Z -> E -> outcome EndpointError unit * E;
  read_word : SoundDmaChannel -> E -> outcome EndpointError Z * E;
}.

Class Spu2MmioEndpoint (E : Type) := {
  read_register : Z -> E -> outcome EndpointError Z * E;
  write_register : Z -> Z -> E -> outcome EndpointError unit * E;
}.

Inductive DmaError :=
| InvalidRegister (address : Z)
| UnsupportedSync (channel mode : Z)
| TransferTooLarge (words : Z)
| RamRange (channel base words : Z) (decrement : bool)
| StaleEvent (event : Z)
| Endpoint (e : EndpointError)
| SchedulerFailure
| ClockOverflow.

(** [impl From<SchedulerError>] and [impl From<ClockError>] *)
Definition from_scheduler (e : SchedulerError) : DmaError := SchedulerFailure.
Definition from_clock (e : ClockError) : DmaError := ClockOverflow.

Record ChannelRegisters := mkChannel { madr : Z; bcr : Z; chcr : Z; tadr : Z }.

#[export] Instance ChannelRegisters_fields : Fields ChannelRegisters := fun c =>
  mkChannel (madr c) (bcr c) (chcr c) (tadr c).

Record PendingTransfer := mkPending {
  pt_deadline : Z;
  pt_address : Z;
  pt_words : Z;
  pt_direction : DmaDirection;
  pt_decrement : bool;
}.

Record DmaController := mkDma {
  channels : list ChannelRegisters;
  dpcr1 : Z;
  dpcr2 : Z;
  dicr1_control : Z;
  dicr1_flags : Z;
  dicr2_control : Z;
  dicr2_flags : Z;
  extended : list Z;
  dmac_enable : Z;
  pending : list (option PendingTransfer);
}.

#[export] Instance DmaController_fields : Fields DmaController := fun d =>
  mkDma (channels d) (dpcr1 d) (dpcr2 d) (dicr1_control d) (dicr1_flags d)
    (dicr2_control d) (dicr2_flags d) (extended d) (dmac_enable d) (pending d).

Definition reset_channel : ChannelRegisters := mkChannel 0 0 0 0.
#[export] Instance channel_inhabited : Inhabited ChannelRegisters := populate reset_channel.

Definition sound_channel (channel : Z) : option SoundDmaChannel :=
  if channel =? CHANNEL4 then Some Core0
  else if channel =? CHANNEL7 then Some Core1
  else None.

(** [None] is the [unreachable!] arm. *)
Definition channel_value (c : ChannelRegisters) (register : Z) : option Z :=
  match register with
  | 0 => Some (madr c)
  | 1 => Some (bcr c)
  | 2 => Some (chcr c)
  | 3 => Some (tadr c)
  | _ => None
  end.

Definition set_channel_value (register value : Z) (c : ChannelRegisters)
    : option ChannelRegisters :=
  match register with
  | 0 => Some (c <| madr := value |>)
  | 1 => Some (c <| bcr := value |>)
  | 2 => Some (c <| chcr := value |>)
  | 3 => Some (c <| tadr := value |>)
  | _ => None
  end.

(** The channel, the register and the half an address selects. *)
Definition decode_channel_register (address : Z) : option (Z * Z * Z) :=
  selected ←
    (if within DMA1_CHANNEL_START (DMA1_CHANNEL_END + 2) address then
       let offset := address - DMA1_CHANNEL_START in Some (offset / 0x10, offset mod 0x10)
     else if within DMA2_CHANNEL_START (DMA2_CHANNEL_END + 2) address then
       let offset := address - DMA2_CHANNEL_START in Some (7 + offset / 0x10, offset mod 0x10)
     else None);
  let '(channel, offset) := (selected : Z * Z) in
  if (CHANNEL_COUNT <=? channel) ||
     negb (bool_decide (offset ∈ [0; 2; 4; 6; 8; 10; 12; 14]))
  then None
  else Some (channel, offset / 4, (offset .& 2) / 2).

Definition transfer_words (bcr sync : Z) : option Z :=
  let block_words := bcr .& 0xffff in
  let block_words := if block_words =? 0 then 0x10000 else block_words in
  match sync with
  | 0 => Some block_words
  | 1 =>
      let blocks := Z.shiftr bcr 16 in
      let blocks := if blocks =? 0 then 0x10000 else blocks in
      checked_mul_u 64 block_words blocks
  | _ => None
  end.

Definition enabled_flags (control flags channels : Z) : Z :=
  let mask := Z.shiftl 1 channels - 1 in
  (Z.shiftr control 16 .& mask) .& (Z.shiftr flags 24 .& mask).

Definition validate_ram_range (channel base words : Z) (decrement : bool) (ram_len : Z)
    : outcome DmaError unit :=
  if words =? 0 then Ok tt
  else
    let? byte_span :=
      ok_or (value ← checked_sub_u words 1; checked_mul_u 64 value 4) ClockOverflow in
    let valid :=
      if decrement then byte_span <=? base
      else match (last ← checked_add_u 64 base byte_span; checked_add_u 64 last 4) with
           | Some end_ => end_ <=? ram_len
           | None => false
           end in
    if negb valid then Err (RamRange channel base words decrement) else Ok tt.

(** Subtraction and addition of [u32], with their panics. *)
Definition transfer_address (base index : Z) (decrement : bool) : outcome DmaError Z :=
  let? byte_offset := expect (checked_mul_u 64 index 4) in
  let byte_offset := wrap 32 byte_offset in
  expect (if decrement then checked_sub_u base byte_offset
          else checked_add_u 32 base byte_offset).

Definition read_ram_word (ram : Buffer) (offset : Z) : outcome DmaError Z :=
  let? bytes := expect (Buffer.slice ram offset 4) in Ok (from_le bytes).

Definition write_ram_word (ram : Buffer) (offset value : Z) : outcome DmaError Buffer :=
  expect (Buffer.copy_from ram offset (le_bytes 4 value)).

Section transfer.
Context {E : Type} `{Spu2DmaEndpoint E}.

(** One word of [transfer], in either direction. *)
Fixpoint transfer_loop (channel : SoundDmaChannel) (p : PendingTransfer) (index : Z) (n : nat)
    (ram : Buffer) (e : E) : outcome DmaError unit * (Buffer * E) :=
  match n with
  | O => (Ok tt, (ram, e))
  | Datatypes.S n =>
      match (let? address := transfer_address (pt_address p) index (pt_decrement p) in
             ok_or (try_from_u 64 address)
               (RamRange (SoundDmaChannel.channel channel) (pt_address p) (pt_words p)
                  (pt_decrement p))) with
      | Err x => (Err x, (ram, e))
      | Panic => (Panic, (ram, e))
      | Ok offset =>
          match pt_direction p with
          | FromRam =>
              match read_ram_word ram offset with
              | Err x => (Err x, (ram, e))
              | Panic => (Panic, (ram, e))
              | Ok value =>
                  let (r, e) := write_word channel value e in
                  match r with
                  | Ok _ => transfer_loop channel p (index + 1) n ram e
                  | Err x => (Err (Endpoint x), (ram, e))
                  | Panic => (Panic, (ram, e))
                  end
              end
          | ToRam =>
              let (r, e) := read_word channel e in
              match r with
              | Err x => (Err (Endpoint x), (ram, e))
              | Panic => (Panic, (ram, e))
              | Ok value =>
                  match write_ram_word ram offset value with
                  | Err x => (Err x, (ram, e))
                  | Panic => (Panic, (ram, e))
                  | Ok ram => transfer_loop channel p (index + 1) n ram e
                  end
              end
          end
      end
  end.

Definition transfer (channel : SoundDmaChannel) (p : PendingTransfer) (memory : IopMemory) (e : E)
    : outcome DmaError unit * (IopMemory * E) :=
  match validate_ram_range (SoundDmaChannel.channel channel) (pt_address p) (pt_words p)
          (pt_decrement p) (buf_len (ram memory)) with
  | Err x => (Err x, (memory, e))
  | Panic => (Panic, (memory, e))
  | Ok _ =>
      let '(r, (b, e)) := transfer_loop channel p 0 (Z.to_nat (pt_words p)) (ram memory) e in
      (r, (memory <| ram := b |>, e))
  end.
End transfer.

Module DmaController.

Definition new : DmaController :=
  mkDma (replicate 13 reset_channel) DPCR1_RESET 0 0 0 0 0 [0; 0; 0] 0 [None; None].

Definition channel (c : SoundDmaChannel) (d : DmaController) : ChannelRegisters :=
  channels d !!! Z.to_nat (SoundDmaChannel.channel c).

(** [self.pending[channel.core()]] *)
Definition pending_of (c : SoundDmaChannel) (d : DmaController) : option PendingTransfer :=
  pending d !!! SoundDmaChannel.core c.
Definition set_pending (c : SoundDmaChannel) (p : option PendingTransfer) (d : DmaController)
    : DmaController :=
  d <| pending := <[SoundDmaChannel.core c := p]> (pending d) |>.

Definition completion_deadline (c : SoundDmaChannel) (d : DmaController) : option Z :=
  pt_deadline <$> pending_of c d.

Definition master_irq (d : DmaController) : bool :=
  has_bits (dicr1_control d) DICR_FORCE ||
  (has_bits (dicr1_control d) DICR_MASTER_ENABLE &&
   (negb (enabled_flags (dicr1_control d) (dicr1_flags d) 7 =? 0) ||
    negb (enabled_flags (dicr2_control d) (dicr2_flags d) 6 =? 0))).

Definition dicr1 (d : DmaController) : Z :=
  dicr1_control d .| dicr1_flags d .| (if master_irq d then DICR_MASTER_FLAG else 0).

Definition dicr2 (d : DmaController) : Z :=
  dicr2_control d .| dicr2_flags d .| (if master_irq d then DICR_MASTER_FLAG else 0).

Definition is_extended (address : Z) : bool :=
  (address =? 0x1f801560) || (address =? 0x1f801564) || (address =? 0x1f801568).

Definition read_u32 (address : Z) (d : DmaController) : outcome DmaError Z :=
  match decode_channel_register address with
  | Some (channel, register, half) =>
      if negb (half =? 0) then Err (InvalidRegister address)
      else expect (c ← channels d !! Z.to_nat channel; channel_value c register)
  | None =>
      if address =? DPCR1 then Ok (dpcr1 d)
      else if address =? DICR1 then Ok (dicr1 d)
      else if is_extended address then
        expect (extended d !! Z.to_nat ((address - 0x1f801560) / 4))
      else if address =? DPCR2 then Ok (dpcr2 d)
      else if address =? DICR2 then Ok (dicr2 d)
      else if address =? DMAC_ENABLE then Ok (dmac_enable d)
      else Err (InvalidRegister address)
  end.

Definition read_u16 (address : Z) (d : DmaController) : outcome DmaError Z :=
  let base := address .& bnot 32 3 in
  let? value := read_u32 base d in
  Ok (if address .& 2 =? 0 then wrap 16 value else wrap 16 (Z.shiftr value 16)).

Definition channel_enabled (c : SoundDmaChannel) (d : DmaController) : bool :=
  let channel := SoundDmaChannel.channel c in
  if channel <? 7 then has_bits (dpcr1 d) (shl 32 DPCR_ENABLE (channel * 4))
  else has_bits (dpcr2 d) (shl 32 DPCR_ENABLE ((channel - 7) * 4)).

Section devices.
Context {Q S Obs : Type} `{EventQueue Q} `{InterruptSink S} `{DmaObserver Obs}.

Definition schedule_if_ready (c : SoundDmaChannel) (now : Z) (dqo : DmaController * Q * Obs)
    : outcome DmaError unit * (DmaController * Q * Obs) :=
  let '(d, q, o) := dqo in
  if bool_decide (is_Some (pending_of c d)) || negb (channel_enabled c d) then (Ok tt, dqo)
  else
    let registers := channel c d in
    if negb (has_bits (chcr registers) CHCR_START) then (Ok tt, dqo)
    else
      let sync := Z.shiftr (chcr registers .& CHCR_SYNC_MASK) 9 in
      match transfer_words (bcr registers) sync with
      | None => (Err (UnsupportedSync (SoundDmaChannel.channel c) sync), dqo)
      | Some words =>
          if MAX_RAM_WORDS <? words then (Err (TransferTooLarge words), dqo)
          else
            let direction :=
              if has_bits (chcr registers) CHCR_DIRECTION_FROM_RAM then FromRam else ToRam in
            match map_err from_clock (Deadline.checked_advance now COMPLETION_CYCLES) with
            | Err x => (Err x, dqo)
            | Panic => (Panic, dqo)
            | Ok deadline =>
                let p := mkPending deadline (madr registers) words direction
                           (has_bits (chcr registers) CHCR_DECREMENT) in
                let (r, q) := eq_schedule q (SoundDmaChannel.event c) deadline in
                match map_err from_scheduler r with
                | Err x => (Err x, (d, q, o))
                | Panic => (Panic, (d, q, o))
                | Ok _ =>
                    (Ok tt, (set_pending c (Some p) d, q,
                             observe o (Started c direction words deadline)))
                end
            end
      end.

Fixpoint schedule_channels (cs : list SoundDmaChannel) (now : Z) (dqo : DmaController * Q * Obs)
    : outcome DmaError unit * (DmaController * Q * Obs) :=
  match cs with
  | [] => (Ok tt, dqo)
  | c :: cs => let! (_u, dqo) := schedule_if_ready c now dqo in schedule_channels cs now dqo
  end.

Definition schedule_all (now : Z) (dqo : DmaController * Q * Obs)
    : outcome DmaError unit * (DmaController * Q * Obs) :=
  schedule_channels SoundDmaChannel.ALL now dqo.

(** [if !was_asserted && self.master_irq() { sink.request(Dma) }] *)
Definition signal (was_asserted : bool) (d : DmaController) (s : S) : S :=
  if negb was_asserted && master_irq d then request s Dma else s.

Definition write_dicr1 (value write_mask : Z) (d : DmaController) (s : S) : DmaController * S :=
  let was_asserted := master_irq d in
  let control_mask := write_mask .& 0x00ffffff in
  let d := d <| dicr1_control :=
      (dicr1_control d .& bnot 32 control_mask) .| ((value .& control_mask) .& 0x00ffffff) |> in
  let d := d <| dicr1_flags :=
      dicr1_flags d .& bnot 32 ((value .& write_mask) .& 0x7f000000) |> in
  (d, signal was_asserted d s).

Definition write_dicr2 (value write_mask : Z) (d : DmaController) (s : S) : DmaController * S :=
  let was_asserted := master_irq d in
  let control_mask := write_mask .& 0x003fffff in
  let d := d <| dicr2_control :=
      (dicr2_control d .& bnot 32 control_mask) .| ((value .& control_mask) .& 0x003fffff) |> in
  let d := d <| dicr2_flags :=
      dicr2_flags d .& bnot 32 ((value .& write_mask) .& 0x3f000000) |> in
  (d, signal was_asserted d s).

Definition finish_channel (c : SoundDmaChannel) (d : DmaController) (s : S) : DmaController * S :=
  let was_asserted := master_irq d in
  let d := match c with
           | Core0 => d <| dicr1_flags := dicr1_flags d .| shl 32 1 (24 + CHANNEL4) |>
           | Core1 => d <| dicr2_flags := dicr2_flags d .| shl 32 1 24 |>
           end in
  (d, signal was_asserted d s).

(** A write to a channel register: the new registers and what is scheduled. *)
Definition write_channel (channel register value now : Z) (d : DmaController) (q : Q) (o : Obs)
    : outcome DmaError unit * (DmaController * Q * Obs) :=
  match (c ← channels d !! Z.to_nat channel; set_channel_value register value c) with
  | None => (Panic, (d, q, o))
  | Some c =>
      let c := if register =? 0 then c <| madr := madr c .& RAM_ADDRESS_MASK |> else c in
      let put c := d <| channels := <[Z.to_nat channel := c]> (channels d) |> in
      match sound_channel channel with
      | Some sound =>
          let d := put c in
          let '(d, q) :=
            if register =? 2
            then (set_pending sound None d, (eq_cancel q (SoundDmaChannel.event sound)).2)
            else (d, q) in
          schedule_if_ready sound now (d, q, o)
      | None =>
          let c := if register =? 2 then c <| chcr := chcr c .& bnot 32 CHCR_START |> else c in
          (Ok tt, (put c, q, o))
      end
  end.

Definition write_u32 (address value now : Z) (d : DmaController) (q : Q) (s : S) (o : Obs)
    : outcome DmaError unit * (DmaController * Q * S * Obs) :=
  let with_sink '(r, (d, q, o)) := (r, (d, q, s, o)) in
  match decode_channel_register address with
  | Some (channel, register, half) =>
      if negb (half =? 0) then (Err (InvalidRegister address), (d, q, s, o))
      else with_sink (write_channel channel register value now d q o)
  | None =>
      if address =? DPCR1 then
        with_sink (schedule_all now (d <| dpcr1 := value |>, q, o))
      else if address =? DICR1 then
        let (d, s) := write_dicr1 value (2 ^ 32 - 1) d s in (Ok tt, (d, q, s, o))
      else if is_extended address then
        let index := Z.to_nat ((address - 0x1f801560) / 4) in
        match extended d !! index with
        | Some _ => (Ok tt, (d <| extended := <[index := value]> (extended d) |>, q, s, o))
        | None => (Panic, (d, q, s, o))
        end
      else if address =? DPCR2 then
        with_sink (schedule_all now (d <| dpcr2 := value |>, q, o))
      else if address =? DICR2 then
        let (d, s) := write_dicr2 value (2 ^ 32 - 1) d s in (Ok tt, (d, q, s, o))
      else if address =? DMAC_ENABLE then (Ok tt, (d <| dmac_enable := value |>, q, s, o))
      else (Err (InvalidRegister address), (d, q, s, o))
  end.

(** The halfword of an interrupt register: its value in place and its mask. *)
Definition half_write (address value : Z) : Z * Z :=
  if address .& 2 =? 0 then (value, 0x0000ffff) else (Z.shiftl value 16, 0xffff0000).

Definition write_u16 (address value now : Z) (d : DmaController) (q : Q) (s : S) (o : Obs)
    : outcome DmaError unit * (DmaController * Q * S * Obs) :=
  let base := address .& bnot 32 3 in
  if base =? DICR1 then
    let (shifted, mask) := half_write address value in
    let (d, s) := write_dicr1 shifted mask d s in (Ok tt, (d, q, s, o))
  else if base =? DICR2 then
    let (shifted, mask) := half_write address value in
    let (d, s) := write_dicr2 shifted mask d s in (Ok tt, (d, q, s, o))
  else
    match read_u32 base d with
    | Err x => (Err x, (d, q, s, o))
    | Panic => (Panic, (d, q, s, o))
    | Ok old =>
        let merged :=
          if address .& 2 =? 0 then (old .& 0xffff0000) .| value
          else (old .& 0x0000ffff) .| Z.shiftl value 16 in
        write_u32 base merged now d q s o
    end.

(** The channel whose event is delivered. *)
Definition event_channel (event : Z) : option SoundDmaChannel :=
  if event =? CHANNEL4_EVENT then Some Core0
  else if event =? CHANNEL7_EVENT then Some Core1
  else None.

Context {E : Type} `{Spu2DmaEndpoint E}.

(** The registers after a transfer of the pending words. *)
Definition finish_registers (p : PendingTransfer) (c : ChannelRegisters)
    : outcome DmaError ChannelRegisters :=
  let? byte_count := ok_or (try_from_u 32 (pt_words p * 4)) ClockOverflow in
  let address :=
    wrap 32 (if pt_decrement p then madr c - byte_count else madr c + byte_count) in
  Ok (c <| madr := address .& RAM_ADDRESS_MASK |> <| chcr := chcr c .& bnot 32 CHCR_START |>).

Definition complete (event : DueEvent) (memory : IopMemory) (d : DmaController) (e : E) (s : S)
    (o : Obs) : outcome DmaError unit * (DmaController * IopMemory * E * S * Obs) :=
  let stale := (Err (StaleEvent (ev_id event)), (d, memory, e, s, o)) in
  match event_channel (ev_id event) with
  | None => stale
  | Some c =>
      match pending_of c d with
      | None => stale
      | Some p =>
          if negb (pt_deadline p =? ev_deadline event) then stale
          else
            let '(r, (memory, e)) := transfer c p memory e in
            match r with
            | Err x => (Err x, (d, memory, e, s, o))
            | Panic => (Panic, (d, memory, e, s, o))
            | Ok _ =>
                let d := set_pending c None d in
                match finish_registers p (channel c d) with
                | Err x => (Err x, (d, memory, e, s, o))
                | Panic => (Panic, (d, memory, e, s, o))
                | Ok registers =>
                    let index := Z.to_nat (SoundDmaChannel.channel c) in
                    let d := d <| channels := <[index := registers]> (channels d) |> in
                    let o := observe o (Completed c (pt_direction p) (pt_words p)) in
                    let (d, s) := finish_channel c d s in
                    (Ok tt, (d, memory, e, s, o))
                end
            end
      end
  end.

End devices.
End DmaController.

(** ** The standalone endpoint *)

Record MockSpu2Endpoint := mkMock {
  written : list (list Z);
  readable : list (list Z);
  registers : list Z;
}.

#[export] Instance MockSpu2Endpoint_fields : Fields MockSpu2Endpoint := fun m =>
  mkMock (written m) (readable m) (registers m).

Definition sound_register_index (address : Z) : outcome EndpointError Z :=
  let invalid :=
    Err (mkEndpointError (String.append "invalid SPU2 register address " (hex8 address))) in
  if has_bits address 1 || negb (within 0x1f900000 0x1f9007fe address) then invalid
  else
    ok_or (try_from_u 64 ((address - 0x1f900000) / 2))
      (mkEndpointError (String.append "SPU2 register address too wide: " (hex8 address))).

Module MockSpu2Endpoint.

Definition new : MockSpu2Endpoint := mkMock [[]; []] [[]; []] (replicate 0x400 0).

Definition queue_read_words (c : SoundDmaChannel) (words : list Z) (m : MockSpu2Endpoint)
    : MockSpu2Endpoint :=
  m <| readable := alter (fun queue => queue ++ words) (SoundDmaChannel.core c) (readable m) |>.

Definition written_words (c : SoundDmaChannel) (m : MockSpu2Endpoint) : list Z :=
  written m !!! SoundDmaChannel.core c.

Definition write_word (c : SoundDmaChannel) (value : Z) (m : MockSpu2Endpoint)
    : outcome EndpointError unit * MockSpu2Endpoint :=
  (Ok tt, m <| written := alter (fun words => words ++ [value]) (SoundDmaChannel.core c) (written m) |>).

Definition read_word (c : SoundDmaChannel) (m : MockSpu2Endpoint)
    : outcome EndpointError Z * MockSpu2Endpoint :=
  match readable m !!! SoundDmaChannel.core c with
  | value :: queue =>
      (Ok value, m <| readable := <[SoundDmaChannel.core c := queue]> (readable m) |>)
  | [] =>
      (Err (mkEndpointError
              (String.append "SPU2 core "
                 (String.append (decimal (Z.of_nat (SoundDmaChannel.core c)))
                    " DMA read underflow"))), m)
  end.

Definition read_register (address : Z) (m : MockSpu2Endpoint)
    : outcome EndpointError Z * MockSpu2Endpoint :=
  (let? index := sound_register_index address in expect (registers m !! Z.to_nat index), m).

Definition write_register (address value : Z) (m : MockSpu2Endpoint)
    : outcome EndpointError unit * MockSpu2Endpoint :=
  match sound_register_index address with
  | Ok index =>
      match registers m !! Z.to_nat index with
      | Some _ => (Ok tt, m <| registers := <[Z.to_nat index := value]> (registers m) |>)
      | None => (Panic, m)
      end
  | Err x => (Err x, m)
  | Panic => (Panic, m)
  end.

End MockSpu2Endpoint.

#[export] Instance mock_dma_endpoint : Spu2DmaEndpoint MockSpu2Endpoint := {|
  write_word := MockSpu2Endpoint.write_word;
  read_word := MockSpu2Endpoint.read_word;
|}.

#[export] Instance mock_mmio_endpoint : Spu2MmioEndpoint MockSpu2Endpoint := {|
  read_register := MockSpu2Endpoint.read_register;
  write_register := MockSpu2Endpoint.write_register;
|}.
