(* ===== verification/Ps2DmaFacts.v ===== *)
(** * What the PS2 I/O processor DMA controller promises

    Both sound channels agree with the event queue after every register write, and a
    completion moves exactly the programmed words, in order, between main RAM and the
    sound processor. *)

From S2P Require Import Prelude MachineInt Records Clock Scheduler.
From S2P Require Import Buffer Ps2Irq Ps2Memory Ps2MemoryFacts Ps2Dma.
Import Ps2Dma.DmaController.

(** ** The state invariant *)

Record channel_ok (c : ChannelRegisters) : Prop := {
  ok_madr : masked (madr c);
  ok_bcr : in_u 32 (bcr c);
  ok_chcr : in_u 32 (chcr c);
  ok_tadr : in_u 32 (tadr c);
}.

Record pending_ok (p : PendingTransfer) : Prop := {
  ok_words : 1 <= pt_words p <= MAX_RAM_WORDS;
  ok_deadline : in_u 64 (pt_deadline p);
  ok_address : masked (pt_address p);
}.

Record wf (d : DmaController) : Prop := {
  wf_channels : length (channels d) = 13%nat;
  wf_channel : Forall channel_ok (channels d);
  wf_dpcr1 : in_u 32 (dpcr1 d);
  wf_dpcr2 : in_u 32 (dpcr2 d);
  wf_dicr1_control : in_u 32 (dicr1_control d);
  wf_dicr1_flags : in_u 32 (dicr1_flags d);
  wf_dicr2_control : in_u 32 (dicr2_control d);
  wf_dicr2_flags : in_u 32 (dicr2_flags d);
  wf_extended : length (extended d) = 3%nat;
  wf_extended_words : Forall (in_u 32) (extended d);
  wf_enable : in_u 32 (dmac_enable d);
  wf_pending : length (pending d) = 2%nat;
  wf_pending_ok : forall c p, pending_of c d = Some p -> pending_ok p;
}.

Lemma iop_dma_new_wf : wf new.
Proof.
  constructor; try done.
  - by apply (Forall_replicate _ 13 reset_channel).
  - by repeat constructor.
  - by intros [] p.
Qed.

(** The event queue holds the completions the controller waits for, and only those. *)
Definition synced {Q} `{EventQueue Q} (d : DmaController) (q : Q) : Prop :=
  forall c, eq_deadline q (SoundDmaChannel.event c) = completion_deadline c d.

Definition other_event (id : Z) : Prop := forall c, id <> SoundDmaChannel.event c.

Lemma event_inj c c' : SoundDmaChannel.event c = SoundDmaChannel.event c' -> c = c'.
Proof. by destruct c, c'. Qed.

Lemma core_inj c c' : SoundDmaChannel.core c = SoundDmaChannel.core c' -> c = c'.
Proof. by destruct c, c'. Qed.

Lemma pending_set c c' p d : length (pending d) = 2%nat ->
  pending_of c (set_pending c' p d) = if decide (c = c') then p else pending_of c d.
Proof.
  intros Hl. unfold pending_of, set_pending. cbn. case_decide as E.
  - subst. apply list_lookup_total_insert_eq. rewrite Hl. destruct c'; cbn; lia.
  - apply list_lookup_total_insert_ne. intros Ei. by apply E, core_inj.
Qed.

Lemma iop_set_pending_wf c p d : wf d -> match p with Some p => pending_ok p | None => True end ->
  wf (set_pending c p d).
Proof.
  intros Hd Hp. destruct Hd. constructor; try done; cbn.
  - by rewrite length_insert.
  - intros c' p'. rewrite pending_set by done. case_decide; [intros ->; done|eauto].
Qed.

Lemma sound_channel_ok c d : wf d -> channel_ok (channel c d).
Proof.
  intros Hd. unfold channel. pose proof (wf_channel d Hd) as Hf. rewrite Forall_forall in Hf.
  apply Hf, list_elem_of_lookup_total_2. rewrite (wf_channels d Hd).
  apply Nat.ltb_lt. by destruct c.
Qed.

(** Nothing but the pending transfers differs. *)
Definition same_registers (d d' : DmaController) : Prop := d' = d <| pending := pending d' |>.

#[export] Instance same_registers_preorder : PreOrder same_registers.
Proof.
  unfold same_registers. split; [by intros []|].
  intros [] [] []. cbn. intros [=] [=]. by subst.
Qed.

Lemma same_master_irq d d' : same_registers d d' -> master_irq d' = master_irq d.
Proof. by intros ->. Qed.

(** A started and enabled channel. *)
Definition ready (c : SoundDmaChannel) (d : DmaController) : bool :=
  channel_enabled c d && has_bits (chcr (channel c d)) CHCR_START.

(** No ready channel is forgotten. *)
Definition settled (d : DmaController) : Prop :=
  forall c, pending_of c d = None -> ready c d = false.

(** ** Sizing a transfer *)

Lemma transfer_words_range b sync words : in_u 32 b -> transfer_words b sync = Some words ->
  1 <= words.
Proof.
  intros Hb. unfold transfer_words.
  assert (0 <= b .& 0xffff) as H0 by (apply Z.land_nonneg; destruct Hb; lia).
  set (low := if b .& 0xffff =? 0 then 0x10000 else b .& 0xffff).
  assert (1 <= low) by (subst low; destruct (Z.eqb_spec (b .& 0xffff) 0); lia).
  pose proof (in_u_shiftr 32 b 16 ltac:(lia) Hb) as [Hs _].
  set (high := if Z.shiftr b 16 =? 0 then 0x10000 else Z.shiftr b 16).
  assert (1 <= high) by (subst high; destruct (Z.eqb_spec (Z.shiftr b 16) 0); lia).
  destruct sync as [|[]|]; try done; [by intros [= <-]|].
  intros [-> _]%checked_mul_u_Some. nia.
Qed.

(** ** Scheduling *)

Section queue.
Context {Q Obs : Type} `{EventQueueLaws Q} `{DmaObserver Obs}.

(** What a scheduling step on one channel establishes. *)
Record scheduled (cs : list SoundDmaChannel) (now : Z) (d : DmaController) (q : Q)
    (r : outcome DmaError unit) (d' : DmaController) (q' : Q) : Prop := {
  sch_no_panic : no_panic r;
  sch_wf : wf d';
  sch_synced : synced d' q';
  sch_registers : same_registers d d';
  sch_others : forall id, other_event id -> eq_deadline q' id = eq_deadline q id;
  sch_keeps : forall c p, pending_of c d = Some p -> pending_of c d' = Some p;
  sch_starts : forall c p, pending_of c d = None -> pending_of c d' = Some p ->
    c ∈ cs /\ ready c d = true /\ pt_deadline p = now /\ pt_address p = madr (channel c d) /\
    transfer_words (bcr (channel c d)) (Z.shiftr (chcr (channel c d) .& CHCR_SYNC_MASK) 9) =
      Some (pt_words p) /\
    pt_direction p = (if has_bits (chcr (channel c d)) CHCR_DIRECTION_FROM_RAM
                      then FromRam else ToRam) /\
    pt_decrement p = has_bits (chcr (channel c d)) CHCR_DECREMENT;
  sch_settles : r = Ok tt -> forall c, c ∈ cs -> pending_of c d' = None -> ready c d = false;
}.

Lemma scheduled_stop cs now d q r : wf d -> synced d q -> no_panic r ->
  (r = Ok tt -> forall c, c ∈ cs -> pending_of c d = None -> ready c d = false) ->
  scheduled cs now d q r d q.
Proof. intros Hd Hs Hr Hc. constructor; try done. intros c p E1 E2. congruence. Qed.

Lemma schedule_if_ready_spec c now d (q : Q) (o : Obs) :
  wf d -> synced d q -> in_u 64 now ->
  let '(r, (d', q', o')) := schedule_if_ready c now (d, q, o) in
  scheduled [c] now d q r d' q'.
Proof.
  intros Hd Hs Hnow. unfold schedule_if_ready.
  assert (forall r, no_panic r -> (r = Ok tt -> pending_of c d = None -> ready c d = false) ->
    scheduled [c] now d q r d q) as Hstop.
  { intros r Hr Hc. apply scheduled_stop; try done. intros Er c' Hin.
    apply elem_of_cons in Hin as [-> | []%elem_of_nil]. by apply Hc. }
  destruct (bool_decide (is_Some (pending_of c d))) eqn:Ep; cbn [orb].
  { apply bool_decide_eq_true in Ep as [p Ep]. apply Hstop; [done|]. intros _. by rewrite Ep. }
  apply bool_decide_eq_false in Ep. apply eq_None_not_Some in Ep.
  destruct (channel_enabled c d) eqn:Een; cbn [negb].
  2:{ apply Hstop; [done|]. intros _ _. unfold ready. by rewrite Een. }
  destruct (has_bits (chcr (channel c d)) CHCR_START) eqn:Est; cbn [negb].
  2:{ apply Hstop; [done|]. intros _ _. unfold ready. by rewrite Een, Est. }
  assert (ready c d = true) as Hready by (unfold ready; by rewrite Een, Est).
  pose proof (sound_channel_ok c d Hd) as Hok.
  destruct (transfer_words (bcr (channel c d)) _) as [words|] eqn:Ew; [|by apply Hstop].
  pose proof (transfer_words_range _ _ _ (ok_bcr _ Hok) Ew).
  destruct (Z.ltb_spec MAX_RAM_WORDS words); [by apply Hstop|].
  unfold Deadline.checked_advance, COMPLETION_CYCLES. 
  assert (checked_add_u 64 now 0 = Some now) as ->.
  { apply checked_add_u_Some. unfold in_u in Hnow. split; lia. }
  cbn [ok_or map_err].
  destruct (eq_schedule q (SoundDmaChannel.event c) now) as [r q2] eqn:Es.
  pose proof (eq_schedule_no_panic q (SoundDmaChannel.event c) now) as Hn. rewrite Es in Hn.
  destruct r as [[]|e|]; cbn [map_err].
  - set (p := mkPending now _ words _ _).
    assert (pending_ok p) as Hp by (by constructor; [|done|apply Hok]).
    assert (wf (set_pending c (Some p) d)) as Hd' by by apply iop_set_pending_wf.
    constructor; try done.
    + intros c'. rewrite (eq_schedule_ok _ _ _ _ _ Es). unfold completion_deadline.
      rewrite pending_set by apply Hd. destruct (decide (c' = c)) as [->|Hne].
      * by rewrite decide_True.
      * rewrite decide_False; [by apply Hs|]. intros E%event_inj. by symmetry in E.
    + intros id Hid. rewrite (eq_schedule_ok _ _ _ _ _ Es), decide_False; [done|].
      intros E. by apply (Hid c).
    + intros c' p' E. rewrite pending_set by apply Hd. case_decide; congruence.
    + intros c' p' E. rewrite pending_set by apply Hd. case_decide; [|congruence]. subst c'.
      intros [= <-]. split; [by left|]. by split_and!.
    + intros _ c' Hin. apply elem_of_cons in Hin as [-> | []%elem_of_nil].
      rewrite pending_set by apply Hd. by rewrite decide_True.
  - rewrite (eq_schedule_err _ _ _ _ _ Es). by apply Hstop.
  - done.
Qed.

Lemma same_ready c d d' : same_registers d d' -> ready c d' = ready c d /\ channel c d' = channel c d.
Proof. by intros ->. Qed.

Lemma schedule_channels_spec cs now : forall d (q : Q) (o : Obs),
  wf d -> synced d q -> in_u 64 now ->
  let '(r, (d', q', o')) := schedule_channels cs now (d, q, o) in
  scheduled cs now d q r d' q'.
Proof.
  induction cs as [|c cs IH]; intros d q o Hd Hs Hnow; cbn [schedule_channels].
  { apply scheduled_stop; try done. intros _ c []%elem_of_nil. }
  pose proof (schedule_if_ready_spec c now d q o Hd Hs Hnow) as Hc1.
  destruct (schedule_if_ready c now (d, q, o)) as [[[]|e|] [[d1 q1] o1]].
  - destruct Hc1 as [_ Hd1 Hs1 Hr1 Ho1 Hk1 Hst1 Hse1].
    specialize (IH d1 q1 o1 Hd1 Hs1 Hnow).
    destruct (schedule_channels cs now (d1, q1, o1)) as [r [[d2 q2] o2]].
    destruct IH as [Hn2 Hd2 Hs2 Hr2 Ho2 Hk2 Hst2 Hse2]. constructor; try done.
    + by transitivity d1.
    + intros id Hid. rewrite Ho2 by done. by apply Ho1.
    + eauto.
    + intros c' p E1 E2. destruct (pending_of c' d1) as [p1|] eqn:E.
      * pose proof (Hk2 _ _ E). assert (p1 = p) as -> by congruence.
        destruct (Hst1 c' p E1 E) as [Hin Hrest]. split; [|done].
        apply elem_of_cons in Hin as [-> | []%elem_of_nil]. by left.
      * destruct (Hst2 c' p E E2) as [Hin Hrest]. destruct (same_ready c' d d1 Hr1) as [E3 E4].
        rewrite E3, E4 in Hrest. split; [by right|done].
    + intros Er c' Hin Hp. apply elem_of_cons in Hin as [-> | Hin].
      * apply Hse1; [done|by left|]. destruct (pending_of c d1) eqn:E; [|done].
        by rewrite (Hk2 _ _ E) in Hp.
      * destruct (same_ready c' d d1 Hr1) as [<- _]. by apply Hse2.
  - destruct Hc1. constructor; try done. intros c' p E1 E2.
    destruct (sch_starts0 c' p E1 E2) as [Hin Hrest]. split; [|done].
    apply elem_of_cons in Hin as [-> | []%elem_of_nil]. by left.
  - by destruct Hc1.
Qed.
End queue.

(** ** Register writes *)

Section write.
Context {Q S Obs : Type} `{EventQueueLaws Q} `{InterruptSink S} `{DmaObserver Obs}.

(** A register update that leaves the interrupt state alone raises nothing. *)
Lemma iop_signal_same d d' (s : S) : master_irq d' = master_irq d -> signal (master_irq d) d' s = s.
Proof. intros E. unfold signal. rewrite E. by destruct (master_irq d). Qed.

(** What every register write promises. *)
Record write_ok (now : Z) (d : DmaController) (q : Q) (s : S) (r : outcome DmaError unit)
    (d' : DmaController) (q' : Q) (s' : S) : Prop := {
  w_no_panic : no_panic r;
  w_wf : wf d';
  w_synced : synced d' q';
  w_others : forall id, other_event id -> eq_deadline q' id = eq_deadline q id;
  w_signal : s' = signal (master_irq d) d' s;
  w_starts : forall c p, pending_of c d' = Some p -> pending_of c d <> Some p ->
    ready c d' = true /\ pt_deadline p = now /\ pt_address p = madr (channel c d') /\
    transfer_words (bcr (channel c d')) (Z.shiftr (chcr (channel c d') .& CHCR_SYNC_MASK) 9) =
      Some (pt_words p);
  w_settled : r = Ok tt -> settled d -> settled d';
}.

Lemma write_ok_scheduled cs now d (q : Q) (s : S) d1 q1 r d' q' :
  scheduled cs now d1 q1 r d' q' -> master_irq d1 = master_irq d ->
  (forall id, other_event id -> eq_deadline q1 id = eq_deadline q id) ->
  (forall c p, pending_of c d1 = Some p -> pending_of c d = Some p) ->
  (settled d -> forall c, c ∉ cs -> pending_of c d1 = None -> ready c d1 = false) ->
  write_ok now d q s r d' q' s.
Proof.
  intros [Hn Hw Hs Hr Ho Hk Hst Hse] Em Hoth Hp Hset. constructor; try done.
  - intros id Hid. rewrite Ho by done. by apply Hoth.
  - rewrite iop_signal_same; [done|]. rewrite (same_master_irq d1 d') by done. done.
  - intros c p E Hne. destruct (same_ready c d1 d' Hr) as [-> ->].
    destruct (pending_of c d1) as [p1|] eqn:E1.
    + rewrite (Hk c p1 E1) in E. injection E as ->. by destruct Hne; apply Hp.
    + by destruct (Hst c p E1 E) as (_ & ? & ? & ? & ? & _).
  - intros Er Hsd c Hnone. destruct (same_ready c d1 d' Hr) as [-> _].
    assert (pending_of c d1 = None) as E1.
    { destruct (pending_of c d1) eqn:E; [|done]. by rewrite (Hk _ _ E) in Hnone. }
    destruct (decide (c ∈ cs)); [by apply Hse|by apply Hset].
Qed.

(** Registers other than those of a transfer. *)
Lemma write_ok_plain now d (q : Q) (s : S) d' :
  wf d' -> synced d q -> pending d' = pending d ->
  (forall c, ready c d' = ready c d) ->
  write_ok now d q s (Ok tt) d' q (signal (master_irq d) d' s).
Proof.
  intros Hd' Hs Ep Er. assert (forall c, pending_of c d' = pending_of c d) as E
    by (intros c; unfold pending_of; by rewrite Ep).
  constructor; try done.
  - intros c. unfold completion_deadline. rewrite E. apply Hs.
  - intros c p E1 E2. by rewrite E in E1.
  - intros _ Hset c. rewrite E, Er. apply Hset.
Qed.

Lemma write_ok_error now d (q : Q) (s : S) e : wf d -> synced d q ->
  write_ok now d q s (Err e) d q s.
Proof. intros Hd Hs. constructor; try done. by rewrite iop_signal_same. Qed.

Lemma write_dicr1_wf v m d (s : S) : in_u 32 v -> in_u 32 m -> wf d ->
  wf (write_dicr1 v m d s).1.
Proof.
  intros Hv Hm Hd. pose proof (in_u_nonneg _ _ Hv). pose proof (in_u_nonneg _ _ Hm).
  assert (0 <= m .& 0x00ffffff) by (apply Z.land_nonneg; lia).
  destruct Hd. constructor; try done; cbn.
  - apply in_u_lor; [lia| |].
    + apply in_u_land_bnot; [lia|done|]. by apply in_u_land_l.
    + apply in_u_land_l; [done|]. by apply in_u_land_l.
  - apply in_u_land_bnot; [lia|done|]. apply in_u_land_l; [done|]. by apply in_u_land_l.
Qed.

Lemma write_dicr2_wf v m d (s : S) : in_u 32 v -> in_u 32 m -> wf d ->
  wf (write_dicr2 v m d s).1.
Proof.
  intros Hv Hm Hd. pose proof (in_u_nonneg _ _ Hv). pose proof (in_u_nonneg _ _ Hm).
  assert (0 <= m .& 0x003fffff) by (apply Z.land_nonneg; lia).
  destruct Hd. constructor; try done; cbn.
  - apply in_u_lor; [lia| |].
    + apply in_u_land_bnot; [lia|done|]. by apply in_u_land_l.
    + apply in_u_land_l; [done|]. by apply in_u_land_l.
  - apply in_u_land_bnot; [lia|done|]. apply in_u_land_l; [done|]. by apply in_u_land_l.
Qed.

Lemma decode_range a c r h : in_u 32 a -> decode_channel_register a = Some (c, r, h) ->
  0 <= c < 13 /\ (r = 0 \/ r = 1 \/ r = 2 \/ r = 3) /\ (h = 0 \/ h = 1).
Proof.
  intros Ha. unfold decode_channel_register. intros ([c' o] & Es & Hr)%bind_Some.
  destruct (Z.leb_spec CHANNEL_COUNT c') as [|Hc]; [done|]. cbn [orb] in Hr.
  destruct (bool_decide _) eqn:Eo; [|done]. cbn [negb] in Hr. injection Hr as <- <- <-.
  assert (0 <= c') as Hc0.
  { revert Es. destruct (within_spec DMA1_CHANNEL_START (DMA1_CHANNEL_END + 2) a).
    - intros [= <- _]. apply Z.div_pos; lia.
    - destruct (within_spec DMA2_CHANNEL_START (DMA2_CHANNEL_END + 2) a); [|done].
      intros [= <- _]. pose proof (Z.div_pos (a - DMA2_CHANNEL_START) 16). lia. }
  split; [unfold CHANNEL_COUNT in Hc; lia|].
  apply bool_decide_eq_true in Eo. rewrite !elem_of_cons, elem_of_nil in Eo.
  destruct Eo as [-> | [-> | [-> | [-> | [-> | [-> | [-> | [-> | []]]]]]]]]; vm_compute; auto.
Qed.

(** The registers of one channel replaced. *)
Definition put_channel (i : nat) (c : ChannelRegisters) (d : DmaController) : DmaController :=
  d <| channels := <[i := c]> (channels d) |>.

Lemma put_channel_wf i c d : channel_ok c -> wf d -> wf (put_channel i c d).
Proof.
  intros Hc []. constructor; try done; cbn; [by rewrite length_insert|by apply Forall_insert].
Qed.

Lemma ready_put c i r d : Z.to_nat (SoundDmaChannel.channel c) <> i ->
  ready c (put_channel i r d) = ready c d.
Proof.
  intros Hi. unfold ready, channel, put_channel. cbn.
  by rewrite list_lookup_total_insert_ne by done.
Qed.

Lemma set_channel_value_ok c r v c' : channel_ok c -> in_u 32 v ->
  set_channel_value r v c = Some c' ->
  channel_ok (if r =? 0 then c' <| madr := madr c' .& RAM_ADDRESS_MASK |> else c').
Proof.
  intros [] Hv. unfold set_channel_value.
  destruct r as [|[[]|[]|]|]; try done; intros [= <-]; constructor; try done.
  apply land_masked.
Qed.

Lemma channel_index_inj c c' :
  Z.to_nat (SoundDmaChannel.channel c) = Z.to_nat (SoundDmaChannel.channel c') -> c = c'.
Proof. by destruct c, c'. Qed.

Lemma sound_channel_iff n : match sound_channel n with
  | Some c => SoundDmaChannel.channel c = n
  | None => forall c, SoundDmaChannel.channel c <> n
  end.
Proof.
  unfold sound_channel. destruct (Z.eqb_spec n CHANNEL4) as [->|]; [done|].
  destruct (Z.eqb_spec n CHANNEL7) as [->|]; [done|]. intros []; cbn; congruence.
Qed.

Lemma write_channel_ok n r v now d (q : Q) (s : S) (o : Obs) :
  wf d -> synced d q -> in_u 32 v -> in_u 64 now -> 0 <= n < 13 -> 0 <= r < 4 ->
  let '(res, (d', q', o')) := write_channel n r v now d q o in write_ok now d q s res d' q' s.
Proof.
  intros Hd Hs Hv Hnow Hn Hr. unfold write_channel.
  destruct (lookup_lt_is_Some_2 (channels d) (Z.to_nat n)) as [c0 Ec0];
    [rewrite (wf_channels d Hd); lia|].
  assert (channel_ok c0) as Hc0 by (eapply Forall_lookup_1; [apply Hd|done]).
  rewrite Ec0. cbn [mbind option_bind].
  assert (exists c1, set_channel_value r v c0 = Some c1) as [c1 Ec1].
  { unfold set_channel_value. assert (r = 0 \/ r = 1 \/ r = 2 \/ r = 3) as
      [-> | [-> | [-> | ->]]] by lia; by eexists. }
  rewrite Ec1. pose proof (set_channel_value_ok c0 r v c1 Hc0 Hv Ec1) as Hc1.
  set (c2 := if r =? 0 then _ else c1) in *. clearbody c2.
  pose proof (sound_channel_iff n) as Hsc. destruct (sound_channel n) as [sc|].
  - set (d1 := d <| channels := _ |>).
    assert (wf d1) as Hd1 by exact (put_channel_wf _ _ _ Hc1 Hd).
    assert (forall c, c ∉ [sc] -> ready c d1 = ready c d) as Hrd.
    { intros c Hc. apply ready_put. rewrite <- Hsc. intros E%channel_index_inj. subst c.
      apply Hc. by left. }
    destruct (r =? 2).
    + set (d2 := set_pending sc None d1). set (q2 := (eq_cancel q _).2).
      assert (wf d2) as Hd2 by by apply iop_set_pending_wf.
      assert (forall c, pending_of c d2 = if decide (c = sc) then None else pending_of c d) as Hp2.
      { intros c. unfold d2. by rewrite pending_set by apply Hd. }
      assert (synced d2 q2) as Hs2.
      { intros c. unfold q2, completion_deadline. rewrite eq_cancel_deadline, Hp2.
        destruct (decide (c = sc)) as [->|Hne]; [by rewrite decide_True|].
        rewrite decide_False; [by apply Hs|]. intros E%event_inj. congruence. }
      pose proof (schedule_if_ready_spec sc now d2 q2 o Hd2 Hs2 Hnow) as Hsch.
      destruct (schedule_if_ready sc now (d2, q2, o)) as [res [[d' q'] o']].
      apply (write_ok_scheduled [sc] now d q s d2 q2); try done.
      * intros id Hid. unfold q2. rewrite eq_cancel_deadline, decide_False; [done|].
        intros E. by apply (Hid sc).
      * intros c p. rewrite Hp2. by case_decide.
      * intros Hset c Hc. rewrite Hp2. case_decide as E; [subst; by destruct Hc; left|].
        intros Hnone. change (ready c d2) with (ready c d1). rewrite Hrd by done. by apply Hset.
    + pose proof (schedule_if_ready_spec sc now d1 q o Hd1 Hs Hnow) as Hsch.
      destruct (schedule_if_ready sc now (d1, q, o)) as [res [[d' q'] o']].
      apply (write_ok_scheduled [sc] now d q s d1 q); try done.
      intros Hset c Hc Hnone. rewrite Hrd by done. by apply Hset.
  - set (c3 := if r =? 2 then _ else c2).
    assert (channel_ok c3) as Hc3.
    { unfold c3. destruct (r =? 2); [|done]. destruct Hc1. constructor; try done. cbn.
      apply in_u_land_bnot; [lia|done|by split]. }
    pose proof (write_ok_plain now d q s (put_channel (Z.to_nat n) c3 d)
      (put_channel_wf _ _ _ Hc3 Hd) Hs eq_refl) as Hw.
    rewrite iop_signal_same in Hw by done. apply Hw.
    intros c. apply ready_put. intros E. apply (Hsc c).
    assert (0 <= SoundDmaChannel.channel c) by (by destruct c). lia.
Qed.

Lemma iop_write_all_ok now d (q : Q) (s : S) (o : Obs) d1 :
  wf d1 -> synced d q -> in_u 64 now -> master_irq d1 = master_irq d -> pending d1 = pending d ->
  let '(res, (d', q', o')) := schedule_all now (d1, q, o) in write_ok now d q s res d' q' s.
Proof.
  intros Hd1 Hs Hnow Em Ep.
  assert (forall c, pending_of c d1 = pending_of c d) as E
    by (intros c; unfold pending_of; by rewrite Ep).
  assert (synced d1 q) as Hs1 by (intros c; unfold completion_deadline; rewrite E; apply Hs).
  pose proof (schedule_channels_spec SoundDmaChannel.ALL now d1 q o Hd1 Hs1 Hnow) as Hsch.
  unfold schedule_all. destruct (schedule_channels _ now (d1, q, o)) as [res [[d' q'] o']].
  apply (write_ok_scheduled SoundDmaChannel.ALL now d q s d1 q); try done.
  - intros c p. by rewrite E.
  - intros _ c Hc. destruct Hc. destruct c; [by left|by right; left].
Qed.

Lemma write_u32_ok a v now d (q : Q) (s : S) (o : Obs) :
  wf d -> synced d q -> in_u 32 a -> in_u 32 v -> in_u 64 now ->
  let '(res, (d', q', s', o')) := write_u32 a v now d q s o in write_ok now d q s res d' q' s'.
Proof.
  intros Hd Hs Ha Hv Hnow. unfold write_u32. assert (in_u 32 (2 ^ 32 - 1)) as Hm by (by split).
  destruct (decode_channel_register a) as [[[c r] h]|] eqn:E.
  { destruct (decode_range a c r h Ha E) as (Hc & Hr & _).
    destruct (negb (h =? 0)); [by apply write_ok_error|].
    pose proof (write_channel_ok c r v now d q s o Hd Hs Hv Hnow Hc ltac:(lia)) as Hw.
    by destruct (write_channel c r v now d q o) as [res [[d' q'] o']]. }
  destruct (a =? DPCR1).
  { pose proof (iop_write_all_ok now d q s o (d <| dpcr1 := v |>)) as Hw.
    destruct (schedule_all now (d <| dpcr1 := v |>, q, o)) as [res [[d' q'] o']].
    apply Hw; try done. by destruct Hd. }
  destruct (a =? DICR1).
  { pose proof (write_dicr1_wf v _ d s Hv Hm Hd). unfold write_dicr1. by apply write_ok_plain. }
  destruct (is_extended a) eqn:Ex.
  { assert (Z.to_nat ((a - 0x1f801560) / 4) < 3)%nat as Hi.
    { unfold is_extended in Ex. rewrite !orb_true_iff, !Z.eqb_eq in Ex.
      apply Nat.ltb_lt. by destruct Ex as [[-> | ->] | ->]. }
    destruct (lookup_lt_is_Some_2 (extended d) (Z.to_nat ((a - 0x1f801560) / 4))) as [x ->];
      [by rewrite (wf_extended d Hd)|].
    set (d' := d <| extended := _ |>).
    pose proof (write_ok_plain now d q s d') as Hw. rewrite iop_signal_same in Hw by done.
    apply Hw; try done. destruct Hd. constructor; try done; cbn; [by rewrite length_insert|].
    by apply Forall_insert. }
  destruct (a =? DPCR2).
  { pose proof (iop_write_all_ok now d q s o (d <| dpcr2 := v |>)) as Hw.
    destruct (schedule_all now (d <| dpcr2 := v |>, q, o)) as [res [[d' q'] o']].
    apply Hw; try done. by destruct Hd. }
  destruct (a =? DICR2).
  { pose proof (write_dicr2_wf v _ d s Hv Hm Hd). unfold write_dicr2. by apply write_ok_plain. }
  destruct (a =? DMAC_ENABLE); [|by apply write_ok_error].
  pose proof (write_ok_plain now d q s (d <| dmac_enable := v |>)) as Hw.
  rewrite iop_signal_same in Hw by done. apply Hw; try done. by destruct Hd.
Qed.

Lemma read_u32_ok a d : in_u 32 a -> wf d ->
  no_panic (read_u32 a d) /\ forall v, read_u32 a d = Ok v -> in_u 32 v.
Proof.
  intros Ha Hd. unfold read_u32.
  assert (in_u 32 (if master_irq d then DICR_MASTER_FLAG else 0)) as Hm
    by (by destruct (master_irq d)).
  destruct (decode_channel_register a) as [[[c r] h]|] eqn:E.
  { destruct (decode_range a c r h Ha E) as (Hc & Hr & _). destruct (negb (h =? 0)); [done|].
    destruct (lookup_lt_is_Some_2 (channels d) (Z.to_nat c)) as [c0 Ec0];
      [rewrite (wf_channels d Hd); lia|].
    assert (channel_ok c0) as [[Hm0 _] ? ? ?] by (eapply Forall_lookup_1; [apply Hd|done]).
    rewrite Ec0. cbn [mbind option_bind]. unfold WORD_MASK in Hm0.
    destruct Hr as [-> | [-> | [-> | ->]]]; cbn; (split; [done|]); intros v [= <-]; try done.
    unfold in_u. lia. }
  assert (forall x, in_u 32 x -> no_panic (Ok x : outcome DmaError Z) /\
    forall v, Ok x = Ok v :> outcome DmaError Z -> in_u 32 v) as Hok by (by split; [|intros v [= <-]]).
  destruct (a =? DPCR1); [by apply Hok, Hd|].
  destruct (a =? DICR1); [apply Hok; unfold dicr1; destruct Hd; by repeat apply in_u_lor|].
  destruct (is_extended a) eqn:Ex.
  { destruct (lookup_lt_is_Some_2 (extended d) (Z.to_nat ((a - 0x1f801560) / 4))) as [x E'].
    - rewrite (wf_extended d Hd). unfold is_extended in Ex. rewrite !orb_true_iff, !Z.eqb_eq in Ex.
      apply Nat.ltb_lt. by destruct Ex as [[-> | ->] | ->].
    - rewrite E'. apply Hok. eapply Forall_lookup_1; [apply Hd|done]. }
  destruct (a =? DPCR2); [by apply Hok, Hd|].
  destruct (a =? DICR2); [apply Hok; unfold dicr2; destruct Hd; by repeat apply in_u_lor|].
  destruct (a =? DMAC_ENABLE); [by apply Hok, Hd|done].
Qed.

Lemma dma_write_u16_ok a v now d (q : Q) (s : S) (o : Obs) :
  wf d -> synced d q -> in_u 32 a -> in_u 16 v -> in_u 64 now ->
  let '(res, (d', q', s', o')) := write_u16 a v now d q s o in write_ok now d q s res d' q' s'.
Proof.
  intros Hd Hs Ha Hv Hnow. unfold write_u16.
  assert (in_u 32 (a .& bnot 32 3)) as Hb by (apply in_u_land_bnot; [lia|done|by split]).
  assert (in_u 32 v) as Hv32 by (apply (in_u_mono 16); [lia|done]).
  assert (in_u 32 (Z.shiftl v 16)) as Hsh.
  { rewrite Z.shiftl_mul_pow2 by lia. unfold in_u in *. lia. }
  assert (in_u 32 (half_write a v).1 /\ in_u 32 (half_write a v).2) as [Hh1 Hh2].
  { unfold half_write. by destruct (_ =? 0). }
  destruct (half_write a v) as [shifted mask]. cbn [fst snd] in *.
  destruct (_ =? DICR1).
  { pose proof (write_dicr1_wf shifted mask d s Hh1 Hh2 Hd). unfold write_dicr1.
    by apply write_ok_plain. }
  destruct (_ =? DICR2).
  { pose proof (write_dicr2_wf shifted mask d s Hh1 Hh2 Hd). unfold write_dicr2.
    by apply write_ok_plain. }
  destruct (read_u32_ok (a .& bnot 32 3) d Hb Hd) as [Hn Hr].
  destruct (read_u32 _ d) as [old|x|]; [|by apply write_ok_error|done].
  specialize (Hr old eq_refl). set (merged := if _ =? 0 then _ else _).
  assert (in_u 32 merged) as Hm.
  { unfold merged. destruct (_ =? 0); apply in_u_lor; try done; by apply in_u_land_l. }
  pose proof (write_u32_ok (a .& bnot 32 3) merged now d q s o Hd Hs Hb Hm Hnow) as Hw. exact Hw.
Qed.

(** C27: Every register write of the I/O processor's DMA controller, of a word or a
    halfword, at any address, with any value, keeps the registers well formed and the
    pending transfers of both sound channels identical to the event queue's deadlines;
    it never panics and never touches another event.  A transfer becomes pending only
    for a started and enabled channel, with the programmed address and word count, due
    at once; after an accepted write to a controller that had none, no started and enabled
    channel is left waiting; and the processor interrupt is requested exactly when the master flag rises. *)
Theorem dma_write_schedules a v v16 now d (q : Q) (s : S) (o : Obs) :
  wf d -> synced d q -> in_u 32 a -> in_u 32 v -> in_u 16 v16 -> in_u 64 now ->
  (let '(res, (d', q', s', o')) := write_u32 a v now d q s o in write_ok now d q s res d' q' s') /\
  (let '(res, (d', q', s', o')) := write_u16 a v16 now d q s o in write_ok now d q s res d' q' s').
Proof. intros. split; [by apply write_u32_ok|by apply dma_write_u16_ok]. Qed.
End write.

(** Channel 7 enabled and programmed for sixteen words. *)
Definition programmed : DmaController :=
  mkDma (<[7%nat := mkChannel 0x1000 0x10010 0 0]> (channels new)) DPCR1_RESET 8 0 0 0 0
    [0; 0; 0] 0 [None; None].

Lemma iop_programmed_wf : wf programmed.
Proof.
  destruct iop_dma_new_wf. constructor; try done.
  cbn. repeat constructor; done.
Qed.

Definition started : outcome DmaError unit * (DmaController * Scheduler * InterruptController * list DmaEvent) :=
  write_u32 D7_CHCR 0x01000201 100 programmed Scheduler.new InterruptController.new [].

Lemma dma_write_schedules_witness :
  pending_of Core1 started.2.1.1.1 = Some (mkPending 100 0x1000 16 FromRam false) /\
  synced started.2.1.1.1 started.2.1.1.2.
Proof.
  split; [vm_compute; reflexivity|].
  assert (in_u 32 D7_CHCR) as H1 by (by split).
  assert (in_u 32 0x01000201) as H2 by (by split).
  assert (in_u 16 0) as H3 by (by split). assert (in_u 64 100) as H4 by (by split).
  assert (synced programmed Scheduler.new) as H5 by (by intros []).
  pose proof (dma_write_schedules D7_CHCR 0x01000201 0 100 programmed Scheduler.new
    InterruptController.new ([] : list DmaEvent) iop_programmed_wf H5 H1 H2 H3 H4) as [H _].
  change (write_u32 _ _ _ _ _ _ _) with started in H.
  destruct started as [res [[[d' q'] s'] o']].
  exact (w_synced _ _ _ _ _ _ _ _ H).
Defined.

(** ** Completion *)

(** What the sound processor promises the controller. *)
Class EndpointLaws (E : Type) `{Spu2DmaEndpoint E} (good : E -> Prop) : Prop := {
  write_word_ok c w (e : E) :
    good e -> in_u 32 w -> no_panic (write_word c w e).1 /\ good (write_word c w e).2;
  read_word_ok c (e : E) :
    good e -> no_panic (read_word c e).1 /\ good (read_word c e).2 /\
    forall w, (read_word c e).1 = Ok w -> in_u 32 w;
}.

(** Every word of the transfer lies in main RAM. *)
Definition in_ram (p : PendingTransfer) : bool :=
  if pt_decrement p then 4 * (pt_words p - 1) <=? pt_address p
  else pt_address p + 4 * pt_words p <=? RAM_SIZE.

Lemma iop_validate_spec ch p : pending_ok p ->
  validate_ram_range ch (pt_address p) (pt_words p) (pt_decrement p) RAM_SIZE =
  if in_ram p then Ok tt else Err (RamRange ch (pt_address p) (pt_words p) (pt_decrement p)).
Proof.
  intros [Hw _ [Ha _]]. change MAX_RAM_WORDS with 524288 in Hw. unfold WORD_MASK in Ha.
  unfold validate_ram_range, in_ram. rewrite (proj2 (Z.eqb_neq _ _)) by lia.
  replace (checked_sub_u (pt_words p) 1) with (Some (pt_words p - 1)).
  2:{ symmetry. apply checked_sub_u_Some. lia. }
  cbn [mbind option_bind].
  replace (checked_mul_u 64 (pt_words p - 1) 4) with (Some (4 * (pt_words p - 1))).
  2:{ symmetry. apply checked_mul_u_Some. lia. }
  cbn [ok_or obind]. destruct (pt_decrement p); [by destruct (_ <=? _)|].
  replace (checked_add_u 64 (pt_address p) (4 * (pt_words p - 1)))
    with (Some (pt_address p + 4 * (pt_words p - 1))).
  2:{ symmetry. apply checked_add_u_Some. lia. }
  cbn [mbind option_bind].
  replace (checked_add_u 64 (pt_address p + 4 * (pt_words p - 1)) 4)
    with (Some (pt_address p + 4 * pt_words p)).
  2:{ symmetry. apply checked_add_u_Some. lia. }
  by destruct (_ <=? _).
Qed.

(** A descending transfer that starts in RAM. *)
Definition base_in_ram (p : PendingTransfer) : Prop :=
  pt_decrement p = true -> pt_address p + 4 <= RAM_SIZE.

Definition starts_above (p : PendingTransfer) : bool :=
  pt_decrement p && (RAM_SIZE <? pt_address p + 4).

Lemma starts_above_base p : starts_above p = false <-> base_in_ram p.
Proof.
  unfold starts_above, base_in_ram.
  destruct (pt_decrement p), (Z.ltb_spec RAM_SIZE (pt_address p + 4)); cbn; naive_solver lia.
Qed.

Section loops.
Context {E : Type} (p : PendingTransfer).
Context (Hp : pending_ok p) (Hin : in_ram p = true).

Notation address i := (word_address (pt_address p) (pt_decrement p) i).

Lemma transfer_address_in i : 0 <= i < pt_words p ->
  transfer_address (pt_address p) i (pt_decrement p) = Ok (address i) /\ 0 <= address i < 2 ^ 32.
Proof using Hp Hin.
  destruct Hp as [Hw _ [Ha _]]. change MAX_RAM_WORDS with 524288 in Hw. unfold WORD_MASK in Ha.
  intros Hi. unfold transfer_address, word_address, in_ram in *.
  replace (checked_mul_u 64 i 4) with (Some (4 * i)).
  2:{ symmetry. apply checked_mul_u_Some. lia. }
  cbn [expect obind]. rewrite wrap_id by (unfold in_u; lia).
  destruct (pt_decrement p); zbool.
  - unfold checked_sub_u. destruct (Z.leb_spec (4 * i) (pt_address p)); [|lia]. split; [done|lia].
  - unfold checked_add_u. destruct (Z.ltb_spec (pt_address p + 4 * i) (2 ^ 32)); [|lia].
    split; [done|lia].
Qed.

Lemma address_in_ram i : base_in_ram p -> 0 <= i < pt_words p ->
  0 <= address i /\ address i + 4 <= RAM_SIZE.
Proof using Hp Hin.
  intros Hb Hi. destruct (transfer_address_in i Hi) as [_ [H0 _]]. split; [done|].
  unfold in_ram, base_in_ram, word_address in *. destruct (pt_decrement p); zbool; lia.
Qed.

Lemma iop_transfer_loop_send `{Spu2DmaEndpoint E} c b i n (e : E) :
  base_in_ram p -> pt_direction p = FromRam ->
  buf_len b = RAM_SIZE -> 0 <= i -> i + Z.of_nat n <= pt_words p ->
  transfer_loop c p i n b e =
  let (r, e') := send (write_word c)
    (ram_words b (pt_address p) (pt_decrement p) i (Z.of_nat n)) e in
  (map_err Endpoint r, (b, e')).
Proof using Hp Hin.
  intros Hbase Hd Hb. revert i e. induction n as [|n IH]; intros i e H0 Hn; [done|].
  destruct (transfer_address_in i ltac:(lia)) as [Ha Hr].
  destruct (address_in_ram i Hbase ltac:(lia)) as [Hlo Hhi].
  cbn [transfer_loop]. rewrite Ha, Hd, ram_words_cons by lia. cbn [obind send].
  rewrite try_from_u_in by lia. cbn [ok_or]. unfold read_ram_word.
  rewrite slice_inside by lia. cbn [expect obind]. fold (word_at b (address i)).
  destruct (write_word c _ e) as [[[]|x|] e']; try done.
  rewrite IH by lia. by replace (Z.of_nat (S n) - 1) with (Z.of_nat n) by lia.
Qed.

Lemma iop_transfer_loop_receive `{EndpointLaws E good} c b i n (e : E) :
  base_in_ram p -> pt_direction p = ToRam ->
  good e -> buf_len b = RAM_SIZE -> Buffer.bytes_ok b -> 0 <= i -> i + Z.of_nat n <= pt_words p ->
  let '(ws, (r, e')) := receive (read_word c) n e in
  exists b', transfer_loop c p i n b e = (map_err Endpoint r, (b', e')) /\
  stored b b' (pt_address p) (pt_decrement p) i ws /\ Buffer.bytes_ok b' /\
  (length ws <= n)%nat /\ (r = Ok tt -> length ws = n) /\ no_panic r /\ good e'.
Proof using Hp Hin.
  intros Hbase Hd. revert i b e. induction n as [|n IH]; intros i b e Hg Hb Hok H0' Hn.
  { exists b. by split_and!. }
  destruct (transfer_address_in i ltac:(lia)) as [Ha Hr].
  destruct (address_in_ram i Hbase ltac:(lia)) as [Hlo Hhi].
  cbn [receive transfer_loop]. rewrite Ha, Hd. cbn [obind].
  rewrite try_from_u_in by lia. cbn [ok_or].
  destruct (read_word_ok c e Hg) as (Hnp & Hg1 & Hu).
  destruct (read_word c e) as [[w|x|] e1]; [| |done].
  2:{ exists b. split_and!; try done; cbn; lia. }
  unfold write_ram_word. rewrite copy_word_in by lia. cbn [expect].
  specialize (IH (i + 1) (Buffer.write_cells b (address i) (le_bytes 4 w)) e1).
  destruct (receive (read_word c) n e1) as [ws [r e2]].
  destruct IH as (b' & El & Hst & Hok' & Hlen & Hlen' & Hnr & Hge).
  { done. } { by rewrite Buffer.write_cells_len. }
  { apply Buffer.write_cells_ok; [done|apply le_bytes_u8]. }
  { lia. } { lia. }
  exists b'. split_and!; [done| |done| | |done|done].
  - apply stored_cons; [by apply Hu|done].
  - cbn. lia.
  - intros ->. cbn. by rewrite Hlen'.
Qed.
End loops.

(** The registers a finished transfer leaves. *)
Definition finished_channel (p : PendingTransfer) (c : ChannelRegisters) : ChannelRegisters :=
  mkChannel (word_address (madr c) (pt_decrement p) (pt_words p) mod 2 ^ 24) (bcr c)
    (Z.ldiff (chcr c) CHCR_START) (tadr c).

Definition raise_flag (c : SoundDmaChannel) (d : DmaController) : DmaController :=
  match c with
  | Core0 => d <| dicr1_flags := dicr1_flags d .| 2 ^ 28 |>
  | Core1 => d <| dicr2_flags := dicr2_flags d .| 2 ^ 24 |>
  end.

Definition finished (c : SoundDmaChannel) (p : PendingTransfer) (d : DmaController)
    : DmaController :=
  raise_flag c
    (put_channel (Z.to_nat (SoundDmaChannel.channel c)) (finished_channel p (channel c d))
      (set_pending c None d)).

Lemma finish_registers_eq p c : channel_ok c -> pending_ok p ->
  finish_registers p c = Ok (finished_channel p c).
Proof.
  intros [[Hm Hm4] _ Hc _] [Hw _ _]. change MAX_RAM_WORDS with 524288 in Hw.
  unfold finish_registers. rewrite try_from_u_in by lia. cbn [ok_or obind].
  unfold finished_channel. f_equal. cbn. rewrite land_bnot by done. f_equal.
  change RAM_ADDRESS_MASK with WORD_MASK. rewrite (Z.mul_comm (pt_words p)).
  apply Z.mod_divide in Hm4 as [b ->]; [|lia]. unfold word_address.
  destruct (pt_decrement p).
  - replace (b * 4 - 4 * pt_words p) with (4 * (b - pt_words p)) by lia.
    by rewrite wrap_word_mask.
  - replace (b * 4 + 4 * pt_words p) with (4 * (b + pt_words p)) by lia.
    by rewrite wrap_word_mask.
Qed.

Section complete.
Context {E S Obs : Type} `{EndpointLaws E good} `{InterruptSink S} `{DmaObserver Obs}.

(** The state a completion ends in: [finished] when the device accepted every word,
    otherwise the transfer stays pending. *)
Definition outcome_of (c : SoundDmaChannel) (p : PendingTransfer) (d : DmaController) (s : S)
    (o : Obs) (r : outcome EndpointError unit) : DmaController * S * Obs :=
  match r with
  | Ok _ => (finished c p d, signal (master_irq d) (finished c p d) s,
             observe o (Completed c (pt_direction p) (pt_words p)))
  | _ => (d, s, o)
  end.

Definition completed (c : SoundDmaChannel) (p : PendingTransfer) (d : DmaController)
    (m : IopMemory) (e : E) (s : S) (o : Obs)
    (res : outcome DmaError unit * (DmaController * IopMemory * E * S * Obs)) : Prop :=
  match pt_direction p with
  | FromRam =>
      let (r, e') := send (write_word c)
        (ram_words (ram m) (pt_address p) (pt_decrement p) 0 (pt_words p)) e in
      let '(d', s', o') := outcome_of c p d s o r in
      res = (map_err Endpoint r, (d', m, e', s', o')) /\ no_panic r /\ good e'
  | ToRam =>
      let '(ws, (r, e')) := receive (read_word c) (Z.to_nat (pt_words p)) e in
      let '(d', s', o') := outcome_of c p d s o r in
      exists b, res = (map_err Endpoint r, (d', m <| ram := b |>, e', s', o')) /\
        stored (ram m) b (pt_address p) (pt_decrement p) 0 ws /\
        (r = Ok tt -> Z.of_nat (length ws) = pt_words p) /\
        no_panic r /\ good e' /\ Ps2MemoryFacts.wf (m <| ram := b |>)
  end.

(** A descending transfer that starts above RAM, whose start the address check does not
    look at: its first access of RAM panics, after the device has supplied its word. *)
Definition strayed (c : SoundDmaChannel) (p : PendingTransfer) (d : DmaController)
    (m : IopMemory) (e : E) (s : S) (o : Obs)
    (res : outcome DmaError unit * (DmaController * IopMemory * E * S * Obs)) : Prop :=
  match pt_direction p with
  | FromRam => res = (Panic, (d, m, e, s, o))
  | ToRam =>
      let (r, e') := read_word c e in
      res = (match r with Err x => Err (Endpoint x) | _ => Panic end, (d, m, e', s, o)) /\
      no_panic r /\ good e'
  end.

Lemma stray_access p (b : Buffer) : buf_len b = RAM_SIZE -> pending_ok p ->
  in_ram p = true -> starts_above p = true ->
  exists a, transfer_address (pt_address p) 0 (pt_decrement p) = Ok a /\
    try_from_u 64 a = Some a /\ Buffer.slice b a 4 = None /\
    forall v, Buffer.copy_from b a (le_bytes 4 v) = None.
Proof using.
  intros Hb Hp Hin [Hdec Habove]%andb_true_iff. pose proof (ok_words p Hp) as Hw.
  destruct (transfer_address_in p Hp Hin 0 ltac:(lia)) as [Et Hr].
  exists (word_address (pt_address p) (pt_decrement p) 0). split; [done|].
  split; [apply try_from_u_in; lia|]. unfold word_address. rewrite Hdec, Z.mul_0_r, Z.sub_0_r. zbool.
  unfold Buffer.slice, Buffer.copy_from. rewrite Hb. split.
  - by rewrite (proj2 (Z.leb_gt (_ + 4) _)), andb_false_r by lia.
  - intros v. rewrite length_le_bytes, (proj2 (Z.leb_gt (_ + Z.of_nat 4) _)), andb_false_r by lia. done.
Qed.

Lemma finish_channel_eq c p d (s : S) :
  finish_channel c (put_channel (Z.to_nat (SoundDmaChannel.channel c))
    (finished_channel p (channel c d)) (set_pending c None d)) s =
  (finished c p d, signal (master_irq d) (finished c p d) s).
Proof. by destruct c. Qed.

(** The body of [complete] once the event matches the pending transfer. *)
Lemma iop_complete_pending c ev d m (e : E) (s : S) (o : Obs) p :
  wf d -> pending_of c d = Some p ->
  ev_id ev = SoundDmaChannel.event c -> ev_deadline ev = pt_deadline p ->
  complete ev m d e s o =
  let '(r, (m', e')) := transfer c p m e in
  match r with
  | Ok _ => (Ok tt, (finished c p d, m', e', signal (master_irq d) (finished c p d) s,
              observe o (Completed c (pt_direction p) (pt_words p))))
  | Err x => (Err x, (d, m', e', s, o))
  | Panic => (Panic, (d, m', e', s, o))
  end.
Proof.
  intros Hd Hp Hid Hdl. pose proof (wf_pending_ok d Hd c p Hp) as Hpo.
  unfold complete. rewrite Hid.
  assert (event_channel (SoundDmaChannel.event c) = Some c) as -> by (by destruct c).
  rewrite Hp, Hdl, Z.eqb_refl. cbn [negb].
  destruct (transfer c p m e) as [r [m' e']]. destruct r as [[]|x|]; [|done|done].
  change (channel c (set_pending c None d)) with (channel c d).
  rewrite finish_registers_eq by (done || by apply sound_channel_ok).
  pose proof (finish_channel_eq c p d s) as Hf. unfold put_channel in Hf.
  change (channels (set_pending c None d)) with (channels d) in *. rewrite Hf. done.
Qed.

(** The completion of a transfer that starts above RAM. *)
Lemma iop_complete_strayed c ev d m (e : E) (s : S) (o : Obs) p :
  wf d -> Ps2MemoryFacts.wf m -> good e -> pending_of c d = Some p ->
  ev_id ev = SoundDmaChannel.event c -> ev_deadline ev = pt_deadline p ->
  in_ram p = true -> starts_above p = true -> strayed c p d m e s o (complete ev m d e s o).
Proof.
  intros Hd Hm Hge Hp Hid Hdl Hin Hab. rewrite (iop_complete_pending c ev d m e s o p) by done.
  pose proof (wf_pending_ok d Hd c p Hp) as Hpo. pose proof (ok_words p Hpo) as Hw.
  destruct (stray_access p (ram m) (Ps2MemoryFacts.wf_ram m Hm) Hpo Hin Hab)
    as (a & Ea & Eu & Er & Ew).
  unfold transfer. rewrite (Ps2MemoryFacts.wf_ram m Hm), iop_validate_spec, Hin by done.
  replace (Z.to_nat (pt_words p)) with (Datatypes.S (Z.to_nat (pt_words p - 1))) by lia.
  cbn [transfer_loop]. rewrite Ea. cbn [obind]. rewrite Eu. cbn [ok_or]. unfold strayed.
  assert (m <| ram := ram m |> = m) as Em by by destruct m.
  destruct (pt_direction p).
  - unfold read_ram_word. rewrite Er. cbn [expect obind]. by rewrite Em.
  - destruct (read_word_ok c e Hge) as (Hnp & Hg1 & Hu).
    destruct (read_word c e) as [[w|x|] e1]; [| |done]; unfold write_ram_word;
      rewrite ?Ew; cbn [expect]; by rewrite Em.
Qed.

(** C28: When the completion event of a sound channel is delivered, exactly the pending
    words move.  From RAM, the sound processor receives the words at the successive (or
    descending) addresses in order and memory is unchanged; to RAM, the words it
    supplies are stored at those addresses and every other byte keeps its value.  On
    success the address register has advanced past the transfer, the start bit is
    clear, the channel's flag is set, the completion is observed and an interrupt is
    requested exactly on a rise of the master flag; a refusal by the device keeps the
    words moved so far.  A transfer whose span fails the range check is refused and
    moves nothing.  The check does not look at the start of a descending transfer: one
    that starts above RAM passes it and panics at its first access of RAM, unless the
    device refuses the word first; memory and registers are then unchanged.  No other
    case panics. *)
Theorem sound_dma_moves_words c ev d m (e : E) (s : S) (o : Obs) p :
  wf d -> Ps2MemoryFacts.wf m -> good e -> pending_of c d = Some p ->
  ev_id ev = SoundDmaChannel.event c -> ev_deadline ev = pt_deadline p ->
  if in_ram p then
    if starts_above p then strayed c p d m e s o (complete ev m d e s o)
    else completed c p d m e s o (complete ev m d e s o)
  else complete ev m d e s o =
    (Err (RamRange (SoundDmaChannel.channel c) (pt_address p) (pt_words p) (pt_decrement p)),
     (d, m, e, s, o)).
Proof.
  intros Hd Hm Hge Hp Hid Hdl. destruct (in_ram p && starts_above p) eqn:Hab.
  { apply andb_true_iff in Hab as [Hin Hab]. rewrite Hin, Hab. by apply iop_complete_strayed. }
  rewrite (iop_complete_pending c ev d m e s o p) by done.
  pose proof (wf_pending_ok d Hd c p Hp) as Hpo. pose proof (ok_words p Hpo) as Hw.
  unfold transfer. rewrite (Ps2MemoryFacts.wf_ram m Hm), iop_validate_spec by done.
  destruct (in_ram p) eqn:Hin; [|done]. cbn [andb] in Hab. rewrite Hab.
  apply starts_above_base in Hab as Hbase. unfold completed.
  assert (Z.of_nat (Z.to_nat (pt_words p)) = pt_words p) as En by lia.
  destruct (pt_direction p) eqn:Edir.
  - rewrite (iop_transfer_loop_send p) by (done || apply Hm || lia). rewrite En.
    destruct (send_ok good (write_word c) _ e (fun w e => write_word_ok c w e)
      (ram_words_u32 (ram m) (pt_address p) (pt_decrement p) 0 (pt_words p)
        (Ps2MemoryFacts.wf_ram_bytes m Hm)) Hge) as [Hnp Hg'].
    destruct (send (write_word c) _ e) as [r e']. cbn [fst snd] in *.
    replace (m <| ram := ram m |>) with m by (by destruct m).
    unfold outcome_of. rewrite Edir. by destruct r as [[]|x|].
  - pose proof (iop_transfer_loop_receive p Hpo Hin c (ram m) 0 (Z.to_nat (pt_words p)) e Hbase Edir
      Hge (Ps2MemoryFacts.wf_ram m Hm) (Ps2MemoryFacts.wf_ram_bytes m Hm) ltac:(lia) ltac:(lia))
      as Hl.
    destruct (receive (read_word c) _ e) as [ws [r e']].
    destruct Hl as (b & El & Hst & Hok & Hlen & Hfull & Hnp & Hg'). rewrite El.
    destruct (outcome_of c p d s o r) as [[d' s'] o'] eqn:Eo. unfold outcome_of in Eo.
    rewrite Edir in Eo.
    exists b. split_and!; [|done| |done|done|].
    + destruct r as [[]|x|]; injection Eo as <- <- <-; done.
    + intros Hr. rewrite (Hfull Hr). lia.
    + destruct Hm. constructor; try done. destruct Hst as [Hl _]. cbn. by rewrite Hl.
Qed.
End complete.

(** The standalone endpoint keeps the promise while its queued words are 32-bit. *)
Definition queued_ok (m : MockSpu2Endpoint) : Prop := Forall (Forall (in_u 32)) (readable m).

Lemma queued_lookup m (c : SoundDmaChannel) : queued_ok m ->
  Forall (in_u 32) (readable m !!! SoundDmaChannel.core c).
Proof.
  intros Hm. rewrite list_lookup_total_alt.
  destruct (readable m !! SoundDmaChannel.core c) as [l|] eqn:E; [|by constructor].
  exact (Forall_lookup_1 _ _ _ _ Hm E).
Qed.

#[export] Instance mock_endpoint_laws : EndpointLaws MockSpu2Endpoint queued_ok.
Proof.
  constructor; [done|]. intros c m Hm. pose proof (queued_lookup m c Hm) as Hc.
  cbn. unfold MockSpu2Endpoint.read_word.
  destruct (readable m !!! SoundDmaChannel.core c) as [|w l]; [done|].
  apply Forall_cons in Hc as [Hw Hl]. split; [done|]. split.
  - by apply Forall_insert.
  - by intros w' [= <-].
Qed.

(** Two words of core 1 waiting to leave RAM. *)
Definition moving : DmaController :=
  programmed <| pending := [None; Some (mkPending 100 0x1000 2 FromRam false)] |>.

Lemma moving_wf : wf moving.
Proof.
  destruct iop_programmed_wf. constructor; try done.
  intros [] p; [done|]. intros [= <-]. by constructor.
Qed.

Definition moved :=
  complete (mkDueEvent (SoundDmaChannel.event Core1) 100) (IopMemory.new Strict) moving
    MockSpu2Endpoint.new InterruptController.new ([] : list DmaEvent).

Lemma sound_dma_moves_words_witness :
  completed (good := queued_ok) Core1 (mkPending 100 0x1000 2 FromRam false) moving (IopMemory.new Strict)
    MockSpu2Endpoint.new InterruptController.new [] moved /\
  MockSpu2Endpoint.written_words Core1 moved.2.1.1.2 = [0; 0].
Proof.
  assert (queued_ok MockSpu2Endpoint.new) as Hq by (repeat constructor).
  pose proof (sound_dma_moves_words Core1 (mkDueEvent (SoundDmaChannel.event Core1) 100) moving
    (IopMemory.new Strict) MockSpu2Endpoint.new InterruptController.new ([] : list DmaEvent)
    (mkPending 100 0x1000 2 FromRam false) moving_wf (Ps2MemoryFacts.iop_memory_new_wf Strict)
    Hq eq_refl eq_refl eq_refl) as H.
  change (complete _ _ _ _ _ _) with moved in H.
  split; [exact H|vm_compute; reflexivity].
Defined.

(** ** What any completion keeps *)

Section keep.
Context {E : Type} `{EndpointLaws E good}.

Lemma transfer_loop_keeps c p : pending_ok p -> in_ram p = true -> forall n i b (e : E),
  good e -> buf_len b = RAM_SIZE -> Buffer.bytes_ok b -> 0 <= i -> i + Z.of_nat n <= pt_words p ->
  let '(r, (b', e')) := transfer_loop c p i n b e in
  buf_len b' = RAM_SIZE /\ Buffer.bytes_ok b' /\ good e' /\ (r = Panic -> ~ base_in_ram p).
Proof.
  intros Hp Hin. induction n as [|n IH]; intros i b e Hg Hb Hok Hi Hn; [done|].
  destruct (transfer_address_in p Hp Hin i ltac:(lia)) as [Ha Hr].
  pose proof (address_in_ram p Hp Hin i) as Hbase.
  cbn [transfer_loop]. rewrite Ha. cbn [obind]. rewrite try_from_u_in by lia. cbn [ok_or].
  set (a := word_address _ _ i) in *.
  destruct (Z.le_gt_cases (a + 4) RAM_SIZE) as [Hle|Hgt]; destruct (pt_direction p).
  - unfold read_ram_word. rewrite slice_inside by lia. cbn [expect obind].
    destruct (write_word_ok c (from_le (Buffer.read_cells b a (Z.to_nat 4))) e Hg) as [Hnp Hg1].
    { pose proof (from_le_range _ (Buffer.read_cells_u8 b a (Z.to_nat 4) Hok)) as Hf.
      rewrite Buffer.length_read_cells in Hf. exact Hf. }
    destruct (write_word c _ e) as [[[]|x|] e1]; [by apply IH; try lia|done|done].
  - destruct (read_word_ok c e Hg) as (Hnp & Hg1 & Hu).
    destruct (read_word c e) as [[w|x|] e1]; [|done|done].
    unfold write_ram_word. rewrite copy_word_in by lia. cbn [expect].
    apply IH; [done|by rewrite Buffer.write_cells_len| |lia|lia].
    apply Buffer.write_cells_ok; [done|apply le_bytes_u8].
  - unfold read_ram_word, Buffer.slice. rewrite Hb, (proj2 (Z.leb_gt (a + 4) _)), andb_false_r by lia.
    cbn. split_and!; try done. intros _ Hba. destruct (Hbase Hba ltac:(lia)). lia.
  - destruct (read_word_ok c e Hg) as (Hnp & Hg1 & Hu).
    destruct (read_word c e) as [[w|x|] e1]; [|done|done].
    unfold write_ram_word, Buffer.copy_from. rewrite length_le_bytes, Hb.
    rewrite (proj2 (Z.leb_gt (a + _) _)), andb_false_r by lia.
    cbn. split_and!; try done. intros _ Hba. destruct (Hbase Hba ltac:(lia)). lia.
Qed.

Lemma transfer_keeps c p m (e : E) : pending_ok p -> Ps2MemoryFacts.wf m -> good e ->
  let '(r, (m', e')) := transfer c p m e in
  Ps2MemoryFacts.wf m' /\ good e' /\ (r = Panic -> ~ base_in_ram p).
Proof.
  intros Hp Hm Hg. pose proof (ok_words p Hp) as Hw. unfold transfer.
  rewrite (Ps2MemoryFacts.wf_ram m Hm), iop_validate_spec by done.
  destruct (in_ram p) eqn:Hin; [|done].
  pose proof (transfer_loop_keeps c p Hp Hin (Z.to_nat (pt_words p)) 0 (ram m) e Hg
    (Ps2MemoryFacts.wf_ram m Hm) (Ps2MemoryFacts.wf_ram_bytes m Hm) ltac:(lia) ltac:(lia)) as Hl.
  destruct (transfer_loop c p 0 _ (ram m) e) as [r [b' e']].
  destruct Hl as (Hb & Hok & Hg' & Hpan). split_and!; [|done|done].
  destruct Hm. by constructor.
Qed.
End keep.

Lemma finished_channel_ok p c : channel_ok c -> pending_ok p -> channel_ok (finished_channel p c).
Proof.
  intros Hc Hp. pose proof (finish_registers_eq p c Hc Hp) as E. pose proof (ok_words p Hp) as Hw.
  change MAX_RAM_WORDS with 524288 in Hw. unfold finish_registers in E.
  rewrite try_from_u_in in E by lia. cbn [ok_or obind] in E.
  assert (forall x y : ChannelRegisters, Ok x = Ok y :> outcome DmaError _ -> x = y) as Hinj
    by congruence.
  apply Hinj in E. rewrite <- E. clear E.
  destruct Hc. constructor; cbn; [apply land_masked|done| |done].
  apply in_u_land_bnot; [lia|done|by split].
Qed.

Lemma finished_wf c p d : wf d -> pending_ok p -> wf (finished c p d).
Proof.
  intros Hd Hp. unfold finished.
  assert (wf (put_channel (Z.to_nat (SoundDmaChannel.channel c)) (finished_channel p (channel c d))
    (set_pending c None d))) as Hw.
  { apply put_channel_wf; [by apply finished_channel_ok; [apply sound_channel_ok|]|].
    by apply iop_set_pending_wf. }
  destruct Hw. destruct c; (constructor; try done); cbn; by apply in_u_lor.
Qed.

Lemma finished_pending c c' p d : wf d ->
  pending_of c' (finished c p d) = if decide (c' = c) then None else pending_of c' d.
Proof.
  intros Hd. rewrite <- (pending_set c' c None d) by apply Hd. by destruct c.
Qed.

(** Delivering the event of a pending transfer: it finishes, or the controller is
    untouched; a panic is that of a descending transfer from above RAM. *)
Lemma complete_keeps {E S Obs} `{EndpointLaws E good} `{InterruptSink S} `{DmaObserver Obs}
    c ev d m (e : E) (s : S) (o : Obs) p :
  wf d -> Ps2MemoryFacts.wf m -> good e -> pending_of c d = Some p ->
  ev_id ev = SoundDmaChannel.event c -> ev_deadline ev = pt_deadline p ->
  let '(r, (d', m', e', s', o')) := complete ev m d e s o in
  Ps2MemoryFacts.wf m' /\ good e' /\
  match r with
  | Ok _ => d' = finished c p d /\ s' = signal (master_irq d) d' s /\
            o' = observe o (Completed c (pt_direction p) (pt_words p))
  | _ => d' = d /\ s' = s /\ o' = o /\ (r = Panic -> ~ base_in_ram p)
  end.
Proof.
  intros Hd Hm Hg Hp Hid Hdl. rewrite (iop_complete_pending c ev d m e s o p) by done.
  pose proof (transfer_keeps c p m e (wf_pending_ok d Hd c p Hp) Hm Hg) as Ht.
  destruct (transfer c p m e) as [r [m' e']]. destruct Ht as (Hm' & Hg' & Hpan).
  by destruct r.
Qed.
