(* ===== verification/Ps2Bus.v ===== *)
(** * The I/O processor's bus: crates/machine/ps2/iop/src/lib.rs

    [MachineBus] routes the processor's accesses by region to memory, the device
    registers and the sound processor, and narrows and merges accesses of other widths.
    It is the [Bus] instance the interpreter runs on in the PS2 machine, for any sound
    processor that offers the two interfaces of [Ps2Dma]. *)

From S2P Require Import Prelude Records MachineInt Clock Scheduler Buffer.
From S2P Require Import Ps2Irq Ps2Ssbus Ps2Memory Ps2Timers Ps2Dma R3000.

Definition IRQ_REGISTER_END : Z := I_MASK + 2.

(** ** Diagnostics *)

Definition labelled (text : string) (address : Z) : string := String.append text (hex8 address).

#[export] Instance display_memory_error : Display MemoryError := fun e =>
  match e with
  | UnsupportedSegment a => labelled "unsupported IOP virtual segment at " a
  | UnsupportedAddressWidth a => labelled "IOP address does not fit host pointer width at " a
  | Mmio_error a => labelled "IOP MMIO access at " a
  | Spu2_error a => labelled "SPU2 MMIO access at " a
  | HleRom_error a => String.append (labelled "IOP firmware address " a) " is HLE-only"
  | Unmapped_error a => labelled "unmapped IOP access at " a
  | CrossesBoundary a => labelled "IOP access crosses a memory-region boundary at " a
  | InvalidRamRange a length =>
      String.append (labelled "IOP RAM range " a)
        (String.append "..+" (String.append (hex length) " is invalid"))
  end.

#[export] Instance display_irq_error : Display IrqError := fun e =>
  labelled "invalid IOP interrupt register address " (Ps2Irq.address e).

#[export] Instance display_timer_error : Display TimerError := fun e =>
  match e with
  | Ps2Timers.InvalidRegister a => labelled "invalid IOP timer register address " a
  | EventLimit timer limit =>
      String.append "IOP timer Timer" (String.append (decimal (Z.of_nat (TimerId.index timer)))
        (String.append " exceeded " (String.append (decimal limit) " events in one advance")))
  | RefreshOverflow => "IOP refresh clock overflow"
  end.

#[export] Instance display_ssbus_error : Display SsbusError := fun e =>
  match e with
  | Ps2Ssbus.InvalidRegister a => labelled "invalid IOP SSBUS register address " a
  | InvalidDevice device kind =>
      String.append "IOP SSBUS device " (String.append (decimal device)
        (String.append " has no " (String.append kind " register")))
  end.

#[export] Instance display_endpoint_error : Display EndpointError := Ps2Dma.message.

#[export] Instance display_dma_error : Display DmaError := fun e =>
  match e with
  | Ps2Dma.InvalidRegister a => labelled "invalid IOP DMA register address " a
  | UnsupportedSync channel mode =>
      String.append "unsupported IOP sound DMA channel " (String.append (decimal channel)
        (String.append " synchronization mode " (decimal mode)))
  | TransferTooLarge words =>
      String.append "IOP DMA transfer of "
        (String.append (decimal words) " words exceeds emulated RAM")
  | RamRange channel base words decrement =>
      String.append "IOP DMA range leaves RAM: channel " (String.append (decimal channel)
        (String.append (labelled ", base " base) (String.append ", " (String.append (decimal words)
          (String.append " words, decrement=" (if decrement then "true" else "false"))))))
  | StaleEvent event => labelled "stale IOP sound DMA completion event " event
  | Endpoint e => String.append "SPU2 DMA endpoint failure: " (to_string e)
  | SchedulerFailure => "IOP DMA scheduler failure"
  | Ps2Dma.ClockOverflow => "IOP DMA timing overflow"
  end.

Definition bus_fault {E} `{Display E} (error : E) : BusFault := mkBusFault (to_string error).

(** [result.map_err(bus_fault)] *)
Definition faulting {E A} `{Display E} (m : outcome E A) : outcome BusFault A :=
  map_err bus_fault m.

Definition unmodeled_read (address : Z) : BusFault :=
  mkBusFault (labelled "unmodeled IOP MMIO read at " address).
Definition unmodeled_write (address : Z) : BusFault :=
  mkBusFault (labelled "unmodeled IOP MMIO write at " address).

(** ** Hardware events *)

Inductive HardwareEventKind : Set :=
| Timing (event : TimingEvent)
| Dma (event : DmaEvent).

Record HardwareEvent : Set := mkHardwareEvent { he_at : Z; he_kind : HardwareEventKind }.

Record MachineDmaObserver : Set := mkMachineDmaObserver {
  mo_at : Z;
  mo_events : list HardwareEvent;
}.

#[export] Instance machine_dma_observer : DmaObserver MachineDmaObserver := fun o event =>
  mkMachineDmaObserver (mo_at o) (mo_events o ++ [mkHardwareEvent (mo_at o) (Dma event)]).

(** ** Addresses and partial words *)

Definition is_irq_address (address : Z) : bool := within I_STAT IRQ_REGISTER_END address.

Definition is_timer_address (address : Z) : bool :=
  existsb (fun base => within base (base + 0x0a) address)
    [TIMER0_BASE; TIMER1_BASE; TIMER2_BASE; TIMER3_BASE; TIMER4_BASE; TIMER5_BASE].

Definition is_dma_address (address : Z) : bool :=
  within DMA1_CHANNEL_START (DMA1_CHANNEL_END + 2) address
  || within DMA2_CHANNEL_START (DMA2_CHANNEL_END + 2) address
  || within DPCR1 (DICR1 + 2) address
  || within 0x1f801560 0x1f80156a address
  || within DPCR2 (DMAC_ENABLE + 2) address
  || (address =? DICR2).

Definition is_ssbus_address (address : Z) : bool :=
  SsbusController.contains (address .& bnot 32 3).

Definition half (value address : Z) : Z :=
  if address .& 2 =? 0 then value .& 0xffff else Z.shiftr value 16 .& 0xffff.

Definition merge_half (old address value : Z) : Z :=
  if address .& 2 =? 0 then (old .& 0xffff0000) .| value
  else (old .& 0x0000ffff) .| shl 32 value 16.

Definition merge_byte (old address value : Z) : Z :=
  if address .& 1 =? 0 then (old .& 0xff00) .| value
  else (old .& 0x00ff) .| shl 16 value 8.

(** [value.to_le_bytes()[usize::from((physical & 1) != 0)]] *)
Definition byte_at (value physical : Z) : Z :=
  if physical .& 1 =? 0 then value .& 0xff else Z.shiftr value 8 .& 0xff.

(** ** The bus *)

(** The parts of the machine the bus borrows. *)
Record MachineBus (E : Type) := mkMachineBus {
  memory : IopMemory;
  irq : InterruptController;
  timers : IopTimers;
  dma : DmaController;
  ssbus : SsbusController;
  scheduler : Scheduler;
  sound : E;
  bus_now : Z;
  events : list HardwareEvent;
  prefetched_instruction : option (Z * Z);
}.
Arguments mkMachineBus {E} _ _ _ _ _ _ _ _ _ _.
Arguments memory {E} _.
Arguments irq {E} _.
Arguments timers {E} _.
Arguments dma {E} _.
Arguments ssbus {E} _.
Arguments scheduler {E} _.
Arguments sound {E} _.
Arguments bus_now {E} _.
Arguments events {E} _.
Arguments prefetched_instruction {E} _.

#[export] Instance MachineBus_fields {E} : Fields (MachineBus E) := fun b =>
  mkMachineBus (memory b) (irq b) (timers b) (dma b) (ssbus b) (scheduler b) (sound b)
    (bus_now b) (events b) (prefetched_instruction b).

Module MachineBus.
Section routes.
Context {E : Type} `{Spu2DmaEndpoint E} `{Spu2MmioEndpoint E}.
Notation Reads := (outcome BusFault Z * MachineBus E)%type.
Notation Writes := (outcome BusFault unit * MachineBus E)%type.

Definition write_irq (address value : Z) (b : MachineBus E) : Writes :=
  let (r, c) := InterruptController.write address value (irq b) in (faulting r, b <| irq := c |>).

Definition write_ssbus (address value : Z) (b : MachineBus E) : Writes :=
  let (r, c) := SsbusController.write_u32 address value (ssbus b) in
  (faulting r, b <| ssbus := c |>).

(** A timer register access, of either width. *)
Definition on_timers {A} (m : IopTimers -> outcome TimerError A * IopTimers) (b : MachineBus E)
    : outcome BusFault A * MachineBus E :=
  let (r, t) := m (timers b) in (faulting r, b <| timers := t |>).

(** A DMA register write of either width, observed at the current time. *)
Definition write_dma
    (write : DmaController -> Scheduler -> InterruptController -> MachineDmaObserver ->
      outcome DmaError unit * (DmaController * Scheduler * InterruptController * MachineDmaObserver))
    (b : MachineBus E) : Writes :=
  let '(r, (d, q, c, o)) :=
    write (dma b) (scheduler b) (irq b) (mkMachineDmaObserver (bus_now b) (events b)) in
  (faulting r,
   b <| dma := d |> <| scheduler := q |> <| irq := c |> <| events := mo_events o |>).

Definition on_memory {A} (m : IopMemory -> outcome MemoryError A * IopMemory) (b : MachineBus E)
    : outcome BusFault A * MachineBus E :=
  let (r, mem) := m (memory b) in (faulting r, b <| memory := mem |>).

Definition read_mmio_u16 (address : Z) (b : MachineBus E) : Reads :=
  if is_irq_address address then
    (omapok (fun value => half value address)
       (faulting (InterruptController.read (address .& bnot 32 3) (irq b))), b)
  else if is_timer_address address then on_timers (IopTimers.read_u16 address) b
  else if is_dma_address address then
    (faulting (DmaController.read_u16 address (dma b)), b)
  else if is_ssbus_address address then
    (omapok (fun value => half value address)
       (faulting (SsbusController.read_u32 (address .& bnot 32 3) (ssbus b))), b)
  else (Err (unmodeled_read address), b).

Definition write_mmio_u16 (address value : Z) (b : MachineBus E) : Writes :=
  if is_irq_address address then
    let aligned := address .& bnot 32 3 in
    let! (old, b) := (faulting (InterruptController.read aligned (irq b)), b) in
    write_irq aligned (merge_half old address value) b
  else if is_timer_address address then on_timers (IopTimers.write_u16 address value) b
  else if is_dma_address address then
    write_dma (DmaController.write_u16 address value (bus_now b)) b
  else if is_ssbus_address address then
    let aligned := address .& bnot 32 3 in
    let! (old, b) := (faulting (SsbusController.read_u32 aligned (ssbus b)), b) in
    write_ssbus aligned (merge_half old address value) b
  else (Err (unmodeled_write address), b).

Definition read_spu2_u16 (address : Z) (b : MachineBus E) : Reads :=
  let (r, e) := read_register address (sound b) in (faulting r, b <| sound := e |>).

Definition write_spu2_u16 (address value : Z) (b : MachineBus E) : Writes :=
  let (r, e) := write_register address value (sound b) in (faulting r, b <| sound := e |>).

Definition region (address : Z) : outcome BusFault MemoryRegion :=
  faulting (IopMemory.classify address).

Definition read_u8 (address : Z) (b : MachineBus E) : Reads :=
  let! (r, b) := (region address, b) in
  match r with
  | Mmio physical =>
      let! (value, b) := read_mmio_u16 (physical .& bnot 32 1) b in
      (Ok (byte_at value physical), b)
  | Ps2Memory.Spu2 physical =>
      let! (value, b) := read_spu2_u16 (physical .& bnot 32 1) b in
      (Ok (byte_at value physical), b)
  | _ => (faulting (IopMemory.read_u8 address (memory b)), b)
  end.

Definition read_u16 (address : Z) (b : MachineBus E) : Reads :=
  let! (r, b) := (region address, b) in
  match r with
  | Mmio physical => read_mmio_u16 physical b
  | Ps2Memory.Spu2 physical => read_spu2_u16 physical b
  | _ => (faulting (IopMemory.read_u16 address (memory b)), b)
  end.

Definition read_mmio_u32 (physical : Z) (b : MachineBus E) : Reads :=
  if (physical =? I_STAT) || (physical =? I_MASK) then
    (faulting (InterruptController.read physical (irq b)), b)
  else if is_timer_address physical then on_timers (IopTimers.read_u32 physical) b
  else if is_dma_address physical then
    (faulting (DmaController.read_u32 physical (dma b)), b)
  else if is_ssbus_address physical then
    (faulting (SsbusController.read_u32 physical (ssbus b)), b)
  else (Err (unmodeled_read physical), b).

Definition read_region_u32 (address : Z) (b : MachineBus E) : Reads :=
  let! (r, b) := (region address, b) in
  match r with
  | Mmio physical => read_mmio_u32 physical b
  | Ps2Memory.Spu2 physical =>
      let! (low, b) := read_spu2_u16 physical b in
      let! (high, b) := read_spu2_u16 (physical + 2) b in
      (Ok (low .| Z.shiftl high 16), b)
  | _ => (faulting (IopMemory.read_u32 address (memory b)), b)
  end.

Definition read_u32 (address : Z) (b : MachineBus E) : Reads :=
  match prefetched_instruction b with
  | Some (prefetched_address, instruction) =>
      if prefetched_address =? address
      then (Ok instruction, b <| prefetched_instruction := None |>)
      else read_region_u32 address b
  | None => read_region_u32 address b
  end.

Definition write_u8 (address value : Z) (b : MachineBus E) : Writes :=
  let! (r, b) := (region address, b) in
  match r with
  | Mmio physical =>
      let aligned := physical .& bnot 32 1 in
      let! (old, b) := read_mmio_u16 aligned b in
      write_mmio_u16 aligned (merge_byte old physical value) b
  | Ps2Memory.Spu2 physical =>
      let aligned := physical .& bnot 32 1 in
      let! (old, b) := read_spu2_u16 aligned b in
      write_spu2_u16 aligned (merge_byte old physical value) b
  | _ => on_memory (IopMemory.write_u8 address value) b
  end.

Definition write_u16 (address value : Z) (b : MachineBus E) : Writes :=
  let! (r, b) := (region address, b) in
  match r with
  | Mmio physical => write_mmio_u16 physical value b
  | Ps2Memory.Spu2 physical => write_spu2_u16 physical value b
  | _ => on_memory (IopMemory.write_u16 address value) b
  end.

Definition write_mmio_u32 (physical value : Z) (b : MachineBus E) : Writes :=
  if (physical =? I_STAT) || (physical =? I_MASK) then write_irq physical value b
  else if is_timer_address physical then on_timers (IopTimers.write_u32 physical value) b
  else if is_dma_address physical then
    write_dma (DmaController.write_u32 physical value (bus_now b)) b
  else if is_ssbus_address physical then write_ssbus physical value b
  else (Err (unmodeled_write physical), b).

Definition write_u32 (address value : Z) (b : MachineBus E) : Writes :=
  let! (r, b) := (region address, b) in
  match r with
  | Mmio physical => write_mmio_u32 physical value b
  | Ps2Memory.Spu2 physical =>
      let! (_u, b) := write_spu2_u16 physical (value .& 0xffff) b in
      write_spu2_u16 (physical + 2) (Z.shiftr value 16 .& 0xffff) b
  | _ => on_memory (IopMemory.write_u32 address value) b
  end.
End routes.
End MachineBus.

#[export] Instance iop_machine_bus {E} `{Spu2DmaEndpoint E} `{Spu2MmioEndpoint E}
    : Bus (MachineBus E) := {
  R3000.read_u8 := MachineBus.read_u8;
  R3000.read_u16 := MachineBus.read_u16;
  R3000.read_u32 := MachineBus.read_u32;
  R3000.write_u8 := MachineBus.write_u8;
  R3000.write_u16 := MachineBus.write_u16;
  R3000.write_u32 := MachineBus.write_u32;
  interrupt_pending b := InterruptController.pending (irq b);
}.
