(* ===== verification/Ps2BusFacts.v ===== *)
(** * The I/O processor's bus is lawful

    Whatever address and width the processor uses, the bus answers with a value of that
    width or a bus fault, never panics, and keeps memory, every device and the agreement
    of DMA and event queue.  The interpreter's theorems therefore hold of the PS2 machine,
    for every sound processor whose registers and DMA port keep their laws. *)

From S2P Require Import Prelude Records MachineInt Clock Scheduler Buffer.
From S2P Require Import R3000 R3000Exec R3000Wf.
From S2P Require Import Ps2Irq Ps2Ssbus Ps2Memory Ps2MemoryFacts Ps2Timers Ps2TimersFacts.
From S2P Require Import Ps2Dma Ps2DmaFacts Ps2Bus.

(** What the sound processor's registers promise the bus. *)
Class RegisterLaws (E : Type) `{Spu2MmioEndpoint E} (good : E -> Prop) : Prop := {
  read_register_ok a (e : E) : good e ->
    no_panic (read_register a e).1 /\ good (read_register a e).2 /\
    forall v, (read_register a e).1 = Ok v -> in_u 16 v;
  write_register_ok a v (e : E) : good e -> in_u 16 v ->
    no_panic (write_register a v e).1 /\ good (write_register a v e).2;
}.

(** ** Devices *)

Definition ssbus_ok (c : SsbusController) : Prop :=
  SsbusFacts.wf c /\ forall r, u32 (SsbusFacts.value_of c r).

Lemma ssbus_read_ok a c : ssbus_ok c ->
  no_panic (SsbusController.read_u32 a c) /\ forall v, SsbusController.read_u32 a c = Ok v -> u32 v.
Proof.
  intros [Hc Hv]. rewrite SsbusFacts.read_spec by done.
  destruct (SsbusFacts.at_address a); [|done]. split; [done|]. by intros v [= <-].
Qed.

Lemma ssbus_write_ok a v c : ssbus_ok c -> u32 v ->
  no_panic (SsbusController.write_u32 a v c).1 /\ ssbus_ok (SsbusController.write_u32 a v c).2.
Proof.
  intros [Hc Hr] Hv. pose proof (SsbusFacts.write_spec c a v Hc) as Hs.
  destruct (SsbusFacts.at_address a) as [r|].
  - destruct Hs as (c' & -> & Hc' & Hval). split; [done|]. split; [done|]. intros r'.
    rewrite Hval. by case_decide.
  - by rewrite Hs.
Qed.

Lemma iop_irq_read_ok a c : IrqFacts.wf c ->
  no_panic (InterruptController.read a c) /\ forall v, InterruptController.read a c = Ok v -> u32 v.
Proof.
  intros []. unfold InterruptController.read.
  destruct (a =? I_STAT); [|destruct (a =? I_MASK); [|done]];
    (split; [done|]); intros v [= <-]; by apply (in_u_mono 26).
Qed.

Lemma iop_irq_write_ok a v c : IrqFacts.wf c -> u32 v ->
  no_panic (InterruptController.write a v c).1 /\ IrqFacts.wf (InterruptController.write a v c).2.
Proof.
  intros Hc [Hv _]. split; [|by apply IrqFacts.write_wf].
  unfold InterruptController.write. by repeat case_match.
Qed.

Lemma dma_read_u16_ok a d : u32 a -> Ps2DmaFacts.wf d ->
  no_panic (DmaController.read_u16 a d) /\ forall v, DmaController.read_u16 a d = Ok v -> in_u 16 v.
Proof.
  intros Ha Hd. assert (u32 (a .& bnot 32 3)) as Hb by (apply in_u_land_bnot; [lia|done|lit]).
  destruct (read_u32_ok (a .& bnot 32 3) d Hb Hd) as [Hn _]. unfold DmaController.read_u16.
  destruct (DmaController.read_u32 _ d); cbn; [|done..]. split; [done|]. intros v [= <-].
  destruct (_ =? 0); apply in_u_wrap; lia.
Qed.

Lemma counter_values_u32 timer t : BankFacts.wf t ->
  let c := IopTimers.counter timer t in
  u32 (Ps2Timers.count c) /\ u32 (Ps2Timers.target c) /\ in_u 16 (Ps2Timers.mode c).
Proof.
  intros Ht. destruct (BankFacts.wf_counters t Ht timer) as [Hc Hg Hm _].
  split_and!; [by eapply CounterFacts.in_modulus_u32..|done].
Qed.

Lemma timer_read_u32_ok a t : BankFacts.wf t ->
  forall v, (IopTimers.read_u32 a t).1 = Ok v -> u32 v.
Proof.
  intros Ht v. unfold IopTimers.read_u32.
  destruct (decode_register a) as [[[timer r] h]|e|] eqn:E; [|done..].
  destruct (counter_values_u32 timer t Ht) as (Hc & Hg & Hm).
  apply (in_u_mono 16 32) in Hm; [|lia].
  destruct (BankFacts.decode_register_half _ _ _ _ E) as [[-> | [-> | ->]] [-> | ->]]; cbn;
    by intros [= <-].
Qed.

Lemma timer_read_u16_ok a t : forall v, (IopTimers.read_u16 a t).1 = Ok v -> in_u 16 v.
Proof.
  intros v. unfold IopTimers.read_u16.
  destruct (decode_register a) as [[[timer r] h]|e|] eqn:E; [|done..].
  destruct (BankFacts.decode_register_half _ _ _ _ E) as [[-> | [-> | ->]] [-> | ->]]; cbn;
    intros [= <-]; apply in_u_wrap; lia.
Qed.

(** Register accesses leave the gates alone. *)
Definition gates_kept (t t' : IopTimers) : Prop :=
  forall timer, gate_level (IopTimers.counter timer t') = gate_level (IopTimers.counter timer t).

Lemma set_counter_gates timer c t : BankFacts.wf t ->
  gate_level c = gate_level (IopTimers.counter timer t) ->
  gates_kept t (IopTimers.set_counter timer c t).
Proof.
  intros Ht Hc timer'. rewrite BankFacts.counter_set by apply Ht. by case_decide; subst.
Qed.

Lemma timer_read_gates a t : BankFacts.wf t ->
  gates_kept t (IopTimers.read_u16 a t).2 /\ gates_kept t (IopTimers.read_u32 a t).2.
Proof.
  intros Ht. unfold IopTimers.read_u16, IopTimers.read_u32.
  destruct (decode_register a) as [[[timer r] h]|e|] eqn:E; [|done..].
  destruct (BankFacts.decode_register_half _ _ _ _ E) as [[-> | [-> | ->]] [-> | ->]]; cbn;
    (split; try done); by apply set_counter_gates.
Qed.

Lemma timer_write_u32_gates a v t : BankFacts.wf t -> gates_kept t (IopTimers.write_u32 a v t).2.
Proof.
  intros Ht. unfold IopTimers.write_u32.
  destruct (decode_register a) as [[[timer r] h]|e|] eqn:E; [|done..].
  destruct (BankFacts.decode_register_half _ _ _ _ E) as [[-> | [-> | ->]] [-> | ->]]; cbn;
    try done; by apply set_counter_gates.
Qed.

Lemma timer_write_u16_gates a v t : BankFacts.wf t -> gates_kept t (IopTimers.write_u16 a v t).2.
Proof.
  intros Ht. unfold IopTimers.write_u16. pose proof (timer_write_u32_gates a v t Ht) as H32.
  destruct (decode_register a) as [[[timer r] h]|e|] eqn:E; [|done..].
  destruct (BankFacts.decode_register_half _ _ _ _ E) as [[-> | [-> | ->]] [-> | ->]];
    cbn [Z.eqb negb]; try done; by apply set_counter_gates.
Qed.

(** The bank with the gates of counters 1 and 3 at the blanking level. *)
Record timers_ok (blank : bool) (t : IopTimers) : Prop := {
  bank_ok : BankFacts.wf t;
  gate1_ok : gate_level (IopTimers.counter TTimer1 t) = blank;
  gate3_ok : gate_level (IopTimers.counter TTimer3 t) = blank;
}.

Lemma timers_ok_kept blank t t' :
  timers_ok blank t -> BankFacts.wf t' -> gates_kept t t' -> timers_ok blank t'.
Proof. intros [Ht H1 H3] Ht' Hk. constructor; [done|by rewrite Hk..]. Qed.

(** *** Memory *)

Lemma byte_read_ok a m : Ps2MemoryFacts.wf m ->
  no_panic (IopMemory.read_u8 a m) /\ forall v, IopMemory.read_u8 a m = Ok v -> in_u 8 v.
Proof.
  intros Hm. pose proof (iop_read_u8_spec a m Hm) as Hs. destruct (locate a) as [l|].
  - rewrite Hs. split; [done|]. intros v [= <-]. destruct Hm.
    destruct l; by apply Buffer.cell_u8.
  - destruct Hs as [[e ->] | [_ ->]]; [done|]. split; [done|]. intros v [= <-].
    by apply u8_bounds.
Qed.

Lemma byte_write_ok a v m : Ps2MemoryFacts.wf m -> in_u 8 v ->
  no_panic (IopMemory.write_u8 a v m).1 /\ Ps2MemoryFacts.wf (IopMemory.write_u8 a v m).2.
Proof.
  intros Hm Hv. pose proof (iop_write_u8_spec a v m Hm Hv) as Hs. destruct (locate a) as [l|].
  - by destruct Hs as (m' & -> & Hm' & _).
  - by destruct Hs as [[e ->] | [_ ->]].
Qed.

Lemma bytes_read_ok offsets a m : Ps2MemoryFacts.wf m ->
  no_panic (IopMemory.read_bytes offsets a m) /\
  forall l, IopMemory.read_bytes offsets a m = Ok l ->
    length l = length offsets /\ Forall (in_u 8) l.
Proof.
  intros Hm. induction offsets as [|k offsets [Hn Hl]]; cbn [IopMemory.read_bytes].
  { split; [done|]. by intros l [= <-]. }
  destruct (byte_read_ok (wrap 32 (a + k)) m Hm) as [Hn1 Hv].
  destruct (IopMemory.read_u8 _ m) as [b|e|]; cbn [obind]; [|done..].
  destruct (IopMemory.read_bytes offsets a m) as [bs|e|]; cbn [obind]; [|done..].
  split; [done|]. intros l [= <-]. destruct (Hl bs eq_refl) as [E Hall].
  split; [cbn; by rewrite E|]. apply Forall_cons. auto.
Qed.

Lemma bytes_write_ok offsets : forall bytes a m, Ps2MemoryFacts.wf m -> Forall (in_u 8) bytes ->
  no_panic (IopMemory.write_bytes offsets bytes a m).1 /\
  Ps2MemoryFacts.wf (IopMemory.write_bytes offsets bytes a m).2.
Proof.
  induction offsets as [|k offsets IH]; intros [|b bytes] a m Hm Hb; try done.
  apply Forall_cons in Hb as [Hb Hbs]. cbn [IopMemory.write_bytes].
  destruct (byte_write_ok (wrap 32 (a + k)) b m Hm Hb) as [Hn Hm'].
  destruct (IopMemory.write_u8 _ b m) as [[[]|e|] m']; [|done..]. by apply IH.
Qed.

Lemma span_no_panic w a :
  no_panic (let? region := IopMemory.classify a in IopMemory.validate_span a region (Ps2MemoryFacts.size w)).
Proof.
  pose proof (iop_classify_no_panic a). destruct (IopMemory.classify a); [|done..]. cbn.
  apply iop_validate_no_panic.
Qed.

Lemma memory_read_ok w a m : Ps2MemoryFacts.wf m -> u32 a ->
  no_panic (read w a m) /\ forall v, read w a m = Ok v -> in_u (8 * Ps2MemoryFacts.size w) v.
Proof.
  intros Hm Ha. rewrite (read_bytes_of w a m Ha). pose proof (span_no_panic w a) as Hs.
  destruct (let? region := _ in _) as [[]|e|]; cbn [obind]; [|done..].
  destruct (bytes_read_ok (offsets w) a m Hm) as [Hn Hl].
  destruct (IopMemory.read_bytes (offsets w) a m) as [l|e|]; cbn [obind]; [|done..].
  split; [done|]. intros v [= <-]. destruct (Hl l eq_refl) as [E Hall].
  pose proof (from_le_range l Hall) as Hr. rewrite E in Hr. by destruct w.
Qed.

Lemma iop_memory_write_ok w a v m : Ps2MemoryFacts.wf m -> u32 a -> in_u (8 * Ps2MemoryFacts.size w) v ->
  no_panic (write w a v m).1 /\ Ps2MemoryFacts.wf (write w a v m).2.
Proof.
  intros Hm Ha Hv. rewrite (write_bytes_of w a v m Ha Hv). pose proof (span_no_panic w a) as Hs.
  destruct (let? region := _ in _) as [[]|e|]; [|done..].
  apply bytes_write_ok; [done|apply le_bytes_u8].
Qed.

(** ** The queue under DMA writes *)

Section queue.
Context {Q S Obs : Type} `{EventQueue Q} `{InterruptSink S} `{DmaObserver Obs}.
Context (K : Q -> Prop).
Context (K_schedule : forall q id d, K q -> K (eq_schedule q id d).2).
Context (K_cancel : forall q id, K q -> K (eq_cancel q id).2).
Import DmaController.

Lemma schedule_if_ready_queue c now d (q : Q) (o : Obs) :
  K q -> K (schedule_if_ready c now (d, q, o)).2.1.2.
Proof using K_schedule.
  intros Hq. unfold schedule_if_ready. repeat (case_match; try done); simplify_eq; try done.
  all: match goal with E : eq_schedule ?q' ?id ?d = _ |- _ =>
         pose proof (K_schedule q' id d Hq) as Hk; rewrite E in Hk end; done.
Qed.

Lemma schedule_all_queue now d (q : Q) (o : Obs) : K q -> K (schedule_all now (d, q, o)).2.1.2.
Proof using K_schedule.
  unfold schedule_all. generalize SoundDmaChannel.ALL. intros cs. revert d q o.
  induction cs as [|c cs IH]; intros d q o Hq; [done|]. cbn [schedule_channels].
  pose proof (schedule_if_ready_queue c now d q o Hq) as Hk1.
  destruct (schedule_if_ready c now (d, q, o)) as [[[]|x|] [[d1 q1] o1]]; [by apply IH|done..].
Qed.

Lemma write_u32_queue a v now d (q : Q) (s : S) (o : Obs) :
  K q -> K (write_u32 a v now d q s o).2.1.1.2.
Proof using K_schedule K_cancel.
  intros Hq. unfold write_u32.
  destruct (decode_channel_register a) as [[[n r] h]|].
  { destruct (negb (h =? 0)); [done|].
    assert (K (write_channel n r v now d q o).2.1.2) as Hw.
    { unfold write_channel. case_match; [|done]. destruct (sound_channel n) as [c'|]; [|done].
      destruct (r =? 2); [|by apply schedule_if_ready_queue].
      apply schedule_if_ready_queue, K_cancel, Hq. }
    by destruct (write_channel n r v now d q o) as [res [[d' q'] o']]. }
  destruct (a =? DPCR1).
  { pose proof (schedule_all_queue now (d <| dpcr1 := v |>) q o Hq) as Hw.
    by destruct (schedule_all now _) as [res [[d' q'] o']]. }
  destruct (a =? DICR1); [by destruct (write_dicr1 _ _ _ _)|].
  destruct (is_extended a); [by case_match|].
  destruct (a =? DPCR2).
  { pose proof (schedule_all_queue now (d <| dpcr2 := v |>) q o Hq) as Hw.
    by destruct (schedule_all now _) as [res [[d' q'] o']]. }
  destruct (a =? DICR2); [by destruct (write_dicr2 _ _ _ _)|].
  by destruct (a =? DMAC_ENABLE).
Qed.

Lemma write_u16_queue a v now d (q : Q) (s : S) (o : Obs) :
  K q -> K (write_u16 a v now d q s o).2.1.1.2.
Proof using K_schedule K_cancel.
  intros Hq. unfold write_u16. destruct (half_write a v).
  destruct (_ =? DICR1); [by destruct (write_dicr1 _ _ _ _)|].
  destruct (_ =? DICR2); [by destruct (write_dicr2 _ _ _ _)|].
  destruct (read_u32 _ d); [|done..]. by apply write_u32_queue.
Qed.
End queue.

(** ** The bus *)

(** The event queue holds the awaited sound completions and nothing else. *)
Record queue_ok (d : DmaController) (q : Scheduler) : Prop := {
  queue_synced : synced d q;
  queue_only : forall id, other_event id -> eq_deadline q id = None;
  queue_orderly : orderly q;
}.

Section bus.
Context {E : Type} `{Spu2DmaEndpoint E} `{Spu2MmioEndpoint E} (good : E -> Prop) (blank : bool).

Record bus_ok (b : MachineBus E) : Prop := {
  memory_field : Ps2MemoryFacts.wf (memory b);
  irq_field : IrqFacts.wf (irq b);
  timers_field : timers_ok blank (timers b);
  dma_field : Ps2DmaFacts.wf (dma b);
  ssbus_field : ssbus_ok (ssbus b);
  queue_field : queue_ok (dma b) (scheduler b);
  sound_field : good (sound b);
  now_field : in_u 64 (bus_now b);
  prefetch_field : from_option (fun p => u32 p.2) True (prefetched_instruction b);
}.

Context `{!RegisterLaws E good}.

Ltac bus_fields H :=
  destruct H; split; cbn [modify memory irq timers dma ssbus scheduler sound bus_now events
    prefetched_instruction] in *; try done.

Notation reads w r := (access_ok bus_ok w r).
Notation writes r := (R3000Wf.write_ok bus_ok r).

Lemma irq_route a v b : bus_ok b -> u32 v -> writes (MachineBus.write_irq a v b).
Proof using.
  intros Hb Hv. unfold MachineBus.write_irq.
  destruct (iop_irq_write_ok a v (irq b) (irq_field b Hb) Hv) as [Hn Hw].
  destruct (InterruptController.write a v (irq b)) as [r c].
  apply device_write; [by bus_fields Hb|done].
Qed.

Lemma ssbus_route a v b : bus_ok b -> u32 v -> writes (MachineBus.write_ssbus a v b).
Proof using.
  intros Hb Hv. unfold MachineBus.write_ssbus.
  destruct (ssbus_write_ok a v (ssbus b) (ssbus_field b Hb) Hv) as [Hn Hw].
  destruct (SsbusController.write_u32 a v (ssbus b)) as [r c].
  apply device_write; [by bus_fields Hb|done].
Qed.

Lemma timers_read w m b : bus_ok b ->
  (no_panic (m (timers b)).1 /\ BankFacts.wf (m (timers b)).2) ->
  gates_kept (timers b) (m (timers b)).2 ->
  (forall v, (m (timers b)).1 = Ok v -> in_u w v) -> reads w (MachineBus.on_timers m b).
Proof using.
  intros Hb [Hn Ht] Hg Hv. unfold MachineBus.on_timers.
  pose proof (timers_ok_kept blank _ _ (timers_field b Hb) Ht Hg). destruct (m (timers b)) as [r t].
  apply pure_read; [by bus_fields Hb|done].
Qed.

Lemma timers_write m b : bus_ok b ->
  (no_panic (m (timers b)).1 /\ BankFacts.wf (m (timers b)).2) ->
  gates_kept (timers b) (m (timers b)).2 -> writes (MachineBus.on_timers m b).
Proof using.
  intros Hb [Hn Ht] Hg. unfold MachineBus.on_timers.
  pose proof (timers_ok_kept blank _ _ (timers_field b Hb) Ht Hg). destruct (m (timers b)) as [r t].
  apply device_write; [by bus_fields Hb|done].
Qed.

Lemma memory_route w a v b : bus_ok b -> u32 a -> in_u (8 * Ps2MemoryFacts.size w) v ->
  writes (MachineBus.on_memory (write w a v) b).
Proof using.
  intros Hb Ha Hv. unfold MachineBus.on_memory.
  destruct (iop_memory_write_ok w a v (memory b) (memory_field b Hb) Ha Hv) as [Hn Hm].
  destruct (write w a v (memory b)) as [r m]. apply device_write; [by bus_fields Hb|done].
Qed.

Lemma memory_reads w a b : bus_ok b -> u32 a ->
  reads (8 * Ps2MemoryFacts.size w) (faulting (read w a (memory b)), b).
Proof using. intros Hb Ha. apply pure_read; [done|]. by apply memory_read_ok; [apply Hb|]. Qed.

Lemma sound_read a b : bus_ok b -> reads 16 (MachineBus.read_spu2_u16 a b).
Proof using RegisterLaws0.
  intros Hb. unfold MachineBus.read_spu2_u16.
  destruct (read_register_ok a (sound b) (sound_field b Hb)) as (Hn & Hg & Hv).
  destruct (read_register a (sound b)) as [r e]. apply pure_read; [by bus_fields Hb|done].
Qed.

Lemma sound_write a v b : bus_ok b -> in_u 16 v -> writes (MachineBus.write_spu2_u16 a v b).
Proof using RegisterLaws0.
  intros Hb Hu. unfold MachineBus.write_spu2_u16.
  destruct (write_register_ok a v (sound b) (sound_field b Hb) Hu) as (Hn & Hg).
  destruct (write_register a v (sound b)) as [r e]. apply device_write; [by bus_fields Hb|done].
Qed.

(** A DMA register write of either width keeps the queue. *)
Lemma signal_wf was d c : IrqFacts.wf c -> IrqFacts.wf (DmaController.signal was d c).
Proof using.
  intros Hc. unfold DmaController.signal. case_match; [by apply IrqFacts.request_wf|done].
Qed.

Lemma dma_route write b : bus_ok b ->
  (forall o : MachineDmaObserver,
    let '(r, (d, q, c, _)) := write (dma b) (scheduler b) (irq b) o in
    write_ok (bus_now b) (dma b) (scheduler b) (irq b) r d q c /\ orderly q) ->
  writes (MachineBus.write_dma write b).
Proof using.
  intros Hb Hw. unfold MachineBus.write_dma.
  specialize (Hw (mkMachineDmaObserver (bus_now b) (events b))).
  destruct (write _ _ _ _) as [r [[[d q] c] o]]. destruct Hw as [Hw Ho].
  destruct (queue_field b Hb) as [Hs Honly _].
  apply device_write; [|by destruct Hw].
  assert (IrqFacts.wf c) as Hc by (destruct Hw; subst; apply signal_wf, Hb).
  assert (queue_ok d q) as Hq.
  { destruct Hw as [? ? ? Hother]. split; [done| |done]. intros id Hid. rewrite Hother by done.
    by apply Honly. }
  destruct Hw. bus_fields Hb.
Qed.
Lemma dma_write16 a v b : bus_ok b -> u32 a -> in_u 16 v ->
  writes (MachineBus.write_dma (DmaController.write_u16 a v (bus_now b)) b).
Proof using.
  intros Hb Ha Hv. apply dma_route; [done|]. intros o. destruct (queue_field b Hb) as [Hs _ Ho].
  pose proof (dma_write_u16_ok a v (bus_now b) (dma b) (scheduler b) (irq b) o (dma_field b Hb)
    Hs Ha Hv (now_field b Hb)) as Hw.
  pose proof (write_u16_queue orderly orderly_schedule orderly_cancel a v (bus_now b) (dma b)
    (scheduler b) (irq b) o Ho) as Hq.
  by destruct (DmaController.write_u16 _ _ _ _ _ _ _) as [r [[[d q] c] o']].
Qed.

Lemma dma_write32 a v b : bus_ok b -> u32 a -> u32 v ->
  writes (MachineBus.write_dma (DmaController.write_u32 a v (bus_now b)) b).
Proof using.
  intros Hb Ha Hv. apply dma_route; [done|]. intros o. destruct (queue_field b Hb) as [Hs _ Ho].
  pose proof (write_u32_ok a v (bus_now b) (dma b) (scheduler b) (irq b) o (dma_field b Hb)
    Hs Ha Hv (now_field b Hb)) as Hw.
  pose proof (write_u32_queue orderly orderly_schedule orderly_cancel a v (bus_now b) (dma b)
    (scheduler b) (irq b) o Ho) as Hq.
  by destruct (DmaController.write_u32 _ _ _ _ _ _ _) as [r [[[d q] c] o']].
Qed.

(** ** The routes *)

Lemma iop_half_u16 v a : in_u 16 (half v a).
Proof using. unfold half. destruct (_ =? 0); apply land_u16. Qed.

Lemma merge_half_word old a v : u32 old -> in_u 16 v -> u32 (merge_half old a v).
Proof using.
  intros Ho Hv. unfold merge_half. destruct (_ =? 0); [apply merge_low_u32|apply merge_high_u32];
    (done || lit).
Qed.

Lemma merge_byte_half old a v : in_u 16 old -> in_u 8 v -> in_u 16 (merge_byte old a v).
Proof using.
  intros Ho Hv. unfold merge_byte.
  destruct (_ =? 0); (apply in_u_lor; [lia|apply in_u_land_l; [lia|done]|]).
  - by apply (in_u_mono 8).
  - apply in_u_shl. lia.
Qed.

Lemma byte_at_u8 v p : in_u 8 (byte_at v p).
Proof using. unfold byte_at. destruct (_ =? 0); apply land_u8. Qed.

Lemma aligned_word a : u32 a -> u32 (a .& bnot 32 3).
Proof using. intros Ha. apply in_u_land_bnot; [lia|done|lit]. Qed.

Lemma aligned_half a : u32 a -> u32 (a .& bnot 32 1).
Proof using. intros Ha. apply in_u_land_bnot; [lia|done|lit]. Qed.

Lemma iop_read_mmio_u16_ok a b : bus_ok b -> u32 a -> reads 16 (MachineBus.read_mmio_u16 a b).
Proof using.
  intros Hb Ha. unfold MachineBus.read_mmio_u16.
  destruct (is_irq_address a).
  { apply (map_read 32); [done|by apply iop_irq_read_ok, Hb|]. intros. apply iop_half_u16. }
  destruct (is_timer_address a).
  { pose proof (bank_ok _ _ (timers_field b Hb)) as Ht.
    apply timers_read; [done|by apply BankFacts.read_u16_wf|by apply timer_read_gates|apply timer_read_u16_ok]. }
  destruct (is_dma_address a); [by apply pure_read; [|apply dma_read_u16_ok; [|apply Hb]]|].
  destruct (is_ssbus_address a); [|by split].
  apply (map_read 32); [done|by apply ssbus_read_ok, Hb|]. intros. apply iop_half_u16.
Qed.

Lemma iop_write_mmio_u16_ok a v b :
  bus_ok b -> u32 a -> in_u 16 v -> writes (MachineBus.write_mmio_u16 a v b).
Proof using.
  intros Hb Ha Hv. unfold MachineBus.write_mmio_u16. cbn zeta. unfold faulting.
  destruct (is_irq_address a).
  { apply (fault_bind 32); [by split|by apply iop_irq_read_ok, Hb|]. intros old Hold.
    apply irq_route; [done|by apply merge_half_word]. }
  pose proof (bank_ok _ _ (timers_field b Hb)) as Ht.
  destruct (is_timer_address a);
    [by apply timers_write; [|apply BankFacts.write_u16_wf|apply timer_write_u16_gates]|].
  destruct (is_dma_address a); [by apply dma_write16|].
  destruct (is_ssbus_address a); [|by split].
  apply (fault_bind 32); [by split|by apply ssbus_read_ok, Hb|]. intros old Hold.
  apply ssbus_route; [done|by apply merge_half_word].
Qed.

Lemma iop_read_mmio_u32_ok a b : bus_ok b -> u32 a -> reads 32 (MachineBus.read_mmio_u32 a b).
Proof using.
  intros Hb Ha. unfold MachineBus.read_mmio_u32.
  destruct (_ || _); [by apply pure_read; [|apply iop_irq_read_ok, Hb]|].
  destruct (is_timer_address a).
  { pose proof (bank_ok _ _ (timers_field b Hb)) as Ht.
    apply timers_read; [done|by apply BankFacts.read_u32_wf|by apply timer_read_gates|by apply timer_read_u32_ok]. }
  destruct (is_dma_address a); [by apply pure_read; [|apply read_u32_ok; [|apply Hb]]|].
  destruct (is_ssbus_address a); [|by split]. by apply pure_read; [|apply ssbus_read_ok, Hb].
Qed.

Lemma iop_write_mmio_u32_ok a v b :
  bus_ok b -> u32 a -> u32 v -> writes (MachineBus.write_mmio_u32 a v b).
Proof using.
  intros Hb Ha Hv. unfold MachineBus.write_mmio_u32.
  destruct (_ || _); [by apply irq_route|].
  pose proof (bank_ok _ _ (timers_field b Hb)) as Ht.
  destruct (is_timer_address a);
    [by apply timers_write; [|apply BankFacts.write_u32_wf|apply timer_write_u32_gates]|].
  destruct (is_dma_address a); [by apply dma_write32|].
  destruct (is_ssbus_address a); [by apply ssbus_route|by split].
Qed.

Lemma physical_u32 a p : u32 a ->
  IopMemory.classify a = Ok (Mmio p) \/ IopMemory.classify a = Ok (Ps2Memory.Spu2 p) -> u32 p.
Proof using.
  intros Ha. rewrite iop_classify_decode. destruct (direct a); [|intros [?|?]; done].
  pose proof (Z.mod_pos_bound a (2 ^ 29) ltac:(lia)). unfold Ps2MemoryFacts.decode. intros Hp.
  assert (p = a mod 2 ^ 29) as ->; [|unfold in_u; lia].
  destruct Hp as [[= Hp]|[= Hp]]; revert Hp;
    repeat (destruct (within _ _ _) || destruct (_ <? _)); by intros [= <-].
Qed.

(** The region of the access, or a fault. *)
Ltac by_region a Ha :=
  unfold MachineBus.region; pose proof (iop_classify_no_panic a); pose proof (physical_u32 a) as Hphys;
  destruct (IopMemory.classify a) as [[o|o|p|p|p|p]|x|]; cbn [faulting map_err];
  try (assert (u32 p) by (apply Hphys; auto)); [..|by split|done].

Lemma iop_bus_read_u8 a b : bus_ok b -> u32 a -> reads 8 (MachineBus.read_u8 a b).
Proof using RegisterLaws0.
  intros Hb Ha. unfold MachineBus.read_u8. pose proof (memory_reads Byte a b Hb Ha) as Hm.
  by_region a Ha; try exact Hm; apply (read_bind 16);
    try (by apply iop_read_mmio_u16_ok; [|apply aligned_half] || by apply sound_read).
  all: intros v b' _ Hb'; split_and!; [done..|]; intros x [= <-]; apply byte_at_u8.
Qed.

Lemma iop_bus_read_u16 a b : bus_ok b -> u32 a -> reads 16 (MachineBus.read_u16 a b).
Proof using RegisterLaws0.
  intros Hb Ha. unfold MachineBus.read_u16. pose proof (memory_reads Ps2MemoryFacts.Half a b Hb Ha) as Hm.
  by_region a Ha; try exact Hm; [by apply iop_read_mmio_u16_ok|by apply sound_read].
Qed.

Lemma iop_read_region_u32_ok a b : bus_ok b -> u32 a -> reads 32 (MachineBus.read_region_u32 a b).
Proof using RegisterLaws0.
  intros Hb Ha. unfold MachineBus.read_region_u32. pose proof (memory_reads Word a b Hb Ha) as Hm.
  by_region a Ha; try exact Hm; [by apply iop_read_mmio_u32_ok|].
  apply (read_bind 16); [by apply sound_read|]. intros low b1 Hlow Hb1.
  apply (read_bind 16); [by apply sound_read|]. intros high b2 Hhigh Hb2.
  split_and!; [done..|]. intros v [= <-]. apply u32_or; [by apply (in_u_mono 16)|].
  rewrite Z.shiftl_mul_pow2 by lia. unfold in_u in *. lia.
Qed.

Lemma iop_bus_read_u32 a b : bus_ok b -> u32 a -> reads 32 (MachineBus.read_u32 a b).
Proof using RegisterLaws0.
  intros Hb Ha. unfold MachineBus.read_u32. pose proof (prefetch_field b Hb) as Hp.
  destruct (prefetched_instruction b) as [[pa i]|]; [|by apply iop_read_region_u32_ok].
  destruct (pa =? a); [|by apply iop_read_region_u32_ok].
  split_and!; [by bus_fields Hb|done|]. by intros v [= <-].
Qed.

Lemma iop_bus_write_u8 a v b : bus_ok b -> u32 a -> in_u 8 v -> writes (MachineBus.write_u8 a v b).
Proof using RegisterLaws0.
  intros Hb Ha Hv. unfold MachineBus.write_u8. pose proof (memory_route Byte a v b Hb Ha Hv) as Hm.
  by_region a Ha; try exact Hm; cbn zeta; apply (read_write_bind 16);
    try (by apply iop_read_mmio_u16_ok; [|apply aligned_half] || by apply sound_read).
  - intros old b' Ho Hb'. apply iop_write_mmio_u16_ok; [done|by apply aligned_half|by apply merge_byte_half].
  - intros old b' Ho Hb'. apply sound_write; [done|by apply merge_byte_half].
Qed.

Lemma iop_bus_write_u16 a v b : bus_ok b -> u32 a -> in_u 16 v -> writes (MachineBus.write_u16 a v b).
Proof using RegisterLaws0.
  intros Hb Ha Hv. unfold MachineBus.write_u16. pose proof (memory_route Ps2MemoryFacts.Half a v b Hb Ha Hv) as Hm.
  by_region a Ha; try exact Hm; [by apply iop_write_mmio_u16_ok|by apply sound_write].
Qed.

Lemma iop_bus_write_u32 a v b : bus_ok b -> u32 a -> u32 v -> writes (MachineBus.write_u32 a v b).
Proof using RegisterLaws0.
  intros Hb Ha Hv. unfold MachineBus.write_u32. pose proof (memory_route Word a v b Hb Ha Hv) as Hm.
  by_region a Ha; try exact Hm; [by apply iop_write_mmio_u32_ok|].
  apply write_bind; [apply sound_write; [done|apply land_u16]|]. intros b' Hb'.
  apply sound_write; [done|apply land_u16].
Qed.

(** The machine's bus satisfies what the interpreter relies on. *)
#[export] Instance iop_bus_laws : BusLaws (MachineBus E) bus_ok.
Proof using RegisterLaws0.
  split; intros; [by apply iop_bus_read_u8|by apply iop_bus_read_u16|by apply iop_bus_read_u32
    |by apply iop_bus_write_u8|by apply iop_bus_write_u16|by apply iop_bus_write_u32].
Qed.
End bus.

(** A byte store to the enable bits of [DICR1] acknowledges every pending channel: the bus
    reads the upper half, replaces one byte and writes the half back, whose other byte
    holds the write-one-to-clear flags. *)
Lemma dicr_byte_store_acknowledges {E} `{Spu2DmaEndpoint E} `{Spu2MmioEndpoint E} value
    (b : MachineBus E) :
  dicr1_flags (dma (MachineBus.write_u8 (DICR1 + 2) value b).2) .& 0x7f000000 = 0.
Proof.
  unfold MachineBus.write_u8. change (MachineBus.region (DICR1 + 2)) with
    (Ok (Mmio 0x1f8010f6) : outcome BusFault MemoryRegion). cbn iota zeta.
  change (0x1f8010f6 .& bnot 32 1) with 0x1f8010f6.
  assert (MachineBus.read_mmio_u16 0x1f8010f6 b =
    (Ok (wrap 16 (Z.shiftr (DmaController.dicr1 (dma b)) 16)), b)) as -> by reflexivity.
  set (h := wrap 16 _). cbn iota.
  unfold merge_byte. change (0x1f8010f6 .& 1 =? 0) with true. cbn iota.
  set (v := (h .& 0xff00) .| value).
  assert (dicr1_flags (dma (MachineBus.write_mmio_u16 0x1f8010f6 v b).2) =
    dicr1_flags (dma b) .& bnot 32 ((Z.shiftl v 16 .& 0xffff0000) .& 0x7f000000)) as -> by reflexivity.
  apply Z.bits_inj'. intros i Hi. rewrite Z.bits_0, Z.land_spec.
  destruct (Z.testbit 0x7f000000 i) eqn:Em; [|by rewrite andb_false_r].
  assert (24 <= i < 31) as Hr.
  { change 0x7f000000 with (Z.shiftl (Z.ones 7) 24) in Em. rewrite Z.shiftl_spec in Em by lia.
    destruct (decide (i < 24)); [by rewrite Z.testbit_neg_r in Em by lia|].
    destruct (decide (31 <= i)); [by rewrite Z.ones_spec_high in Em by lia|]. lia. }
  rewrite andb_true_r, Z.land_spec, testbit_bnot, !Z.land_spec, Em, andb_true_r by lia.
  rewrite (proj2 (Z.ltb_lt i 32)) by lia.
  assert (Z.testbit 0xffff0000 i = true) as ->.
  { change 0xffff0000 with (Z.shiftl (Z.ones 16) 16). rewrite Z.shiftl_spec by lia.
    apply Z.ones_spec_low. lia. }
  destruct (Z.testbit (dicr1_flags (dma b)) i) eqn:Ef; [|done].
  rewrite andb_true_r, Z.shiftl_spec by lia. unfold v. rewrite Z.lor_spec, Z.land_spec.
  assert (Z.testbit 0xff00 (i - 16) = true) as ->.
  { change 0xff00 with (Z.shiftl (Z.ones 8) 8). rewrite Z.shiftl_spec by lia.
    apply Z.ones_spec_low. lia. }
  assert (Z.testbit h (i - 16) = true) as ->; [|done].
  unfold h, wrap. rewrite Z.mod_pow2_bits_low, Z.shiftr_spec by lia.
  replace (i - 16 + 16) with i by lia. unfold DmaController.dicr1.
  by rewrite !Z.lor_spec, Ef, orb_true_r.
Qed.
