(* ===== verification/Ps2Machine.v ===== *)
(** * The PS2 I/O processor machine: crates/machine/ps2/iop/src/lib.rs

    [IopMachine] composes the processor, memory, interrupt controller, counters, refresh
    clock, DMA, bus-timing registers, the event queue and a sound processor.  A step runs
    one instruction on the bus of [Ps2Bus], then advances the devices by one cycle: due
    DMA completions first, then the counters, then the refresh clock, whose blanking
    drives the gates of counters 1 and 3. *)

From S2P Require Import Prelude Records MachineInt Clock Scheduler Buffer.
From S2P Require Import Ps2Irq Ps2Ssbus Ps2Memory Ps2Timers Ps2Dma R3000 R3000Exec Ps2Bus.

Definition IOP_PROCESSOR_ID : Z := 0x1f.

Definition IOP_RESET_PROFILE : ResetProfile :=
  mkResetProfile 0xbfc00000 0x80000080 0xbfc00180 STATUS_BEV IOP_PROCESSOR_ID.

Record MachineConfig : Set := mkMachineConfig {
  config_open_bus : OpenBusPolicy;
  config_video_standard : VideoStandard;
}.

Definition default_config : MachineConfig := mkMachineConfig Strict Ntsc.

Record MachineStep := mkMachineStep { step_cpu : StepOutcome; step_now : Z }.

Inductive MachineError :=
| ProgramError (e : MemoryError)
| InvalidEntry (entry : Z)
| CpuFailure (e : CpuError)
| TimerFailure (e : TimerError)
| DmaFailure (e : DmaError)
| ClockFailure.

(** [impl From<ClockError>] *)
Definition from_clock (e : ClockError) : MachineError := ClockFailure.

Record IopMachine (E : Type) := mkIopMachine {
  cpu : Cpu;
  memory : IopMemory;
  irq : InterruptController;
  timers : IopTimers;
  refresh : RefreshClock;
  dma : DmaController;
  ssbus : SsbusController;
  scheduler : Scheduler;
  sound : E;
  now : Z;
  hardware_events : list HardwareEvent;
  timing_events : list TimingEvent;
}.
Arguments mkIopMachine {E} _ _ _ _ _ _ _ _ _ _ _ _.
Arguments cpu {E} _.
Arguments memory {E} _.
Arguments irq {E} _.
Arguments timers {E} _.
Arguments refresh {E} _.
Arguments dma {E} _.
Arguments ssbus {E} _.
Arguments scheduler {E} _.
Arguments sound {E} _.
Arguments now {E} _.
Arguments hardware_events {E} _.
Arguments timing_events {E} _.

#[export] Instance IopMachine_fields {E} : Fields (IopMachine E) := fun m =>
  mkIopMachine (cpu m) (memory m) (irq m) (timers m) (refresh m) (dma m) (ssbus m) (scheduler m)
    (sound m) (now m) (hardware_events m) (timing_events m).

(** The bus a step borrows from the machine, and the machine after the loan. *)
Definition lend {E} (prefetched : option (Z * Z)) (m : IopMachine E) : MachineBus E :=
  mkMachineBus (memory m) (irq m) (timers m) (dma m) (ssbus m) (scheduler m) (sound m) (now m)
    (hardware_events m) prefetched.

Definition give_back {E} (c : Cpu) (b : MachineBus E) (m : IopMachine E) : IopMachine E :=
  mkIopMachine c (Ps2Bus.memory b) (Ps2Bus.irq b) (Ps2Bus.timers b) (refresh m) (Ps2Bus.dma b)
    (Ps2Bus.ssbus b) (Ps2Bus.scheduler b) (Ps2Bus.sound b) (now m) (events b) (timing_events m).

Module IopMachine.
Section machine.
Context {E : Type} `{Spu2DmaEndpoint E} `{Spu2MmioEndpoint E}.

Definition new (sound : E) (config : MachineConfig) : IopMachine E :=
  mkIopMachine (Cpu.new IOP_RESET_PROFILE) (IopMemory.new (config_open_bus config))
    InterruptController.new IopTimers.new (RefreshClock.new (config_video_standard config))
    DmaController.new SsbusController.new Scheduler.new sound 0 [] [].

Definition is_ram (r : outcome MemoryError MemoryRegion) : bool :=
  match r with Ok (Ram _) => true | _ => false end.

Definition from_bare_metal (load_address entry : Z) (program : list Z) (sound : E)
    (config : MachineConfig) : outcome MachineError (IopMachine E) :=
  if has_bits entry 3 || negb (is_ram (IopMemory.classify entry)) then Err (InvalidEntry entry)
  else
    let machine := new sound config in
    let? physical := map_err ProgramError (IopMemory.translate load_address) in
    let (r, mem) := IopMemory.load_ram physical program (memory machine) in
    let? _ := map_err ProgramError r in
    let c := Cpu.new (mkResetProfile entry (exception_vector IOP_RESET_PROFILE)
                        (bootstrap_exception_vector IOP_RESET_PROFILE) 0 IOP_PROCESSOR_ID) in
    let? (_, c) := Cpu.set_register 29 0x001ffff0 c in
    Ok (machine <| memory := mem |> <| cpu := c |>).

Definition take_hardware_events (m : IopMachine E) : list HardwareEvent * IopMachine E :=
  (hardware_events m, m <| hardware_events := [] |>).

Definition has_hardware_events (m : IopMachine E) : bool :=
  negb (bool_decide (hardware_events m = [])).

(** The body of the dispatch loop for one popped event. *)
Definition complete_event (event : DueEvent) (m : IopMachine E)
    : outcome MachineError unit * IopMachine E :=
  let '(r, (d, mem, e, c, o)) :=
    DmaController.complete event (memory m) (dma m) (sound m) (irq m)
      (mkMachineDmaObserver (ev_deadline event) (hardware_events m)) in
  (map_err DmaFailure r,
   m <| dma := d |> <| memory := mem |> <| sound := e |> <| irq := c |>
     <| hardware_events := mo_events o |>).

Definition is_due (m : IopMachine E) : bool :=
  match Scheduler.next_deadline (scheduler m) with
  | Some deadline => deadline <=? now m
  | None => false
  end.

Fixpoint dispatch (fuel : nat) (m : IopMachine E) : outcome MachineError unit * IopMachine E :=
  if is_due m then
    match fuel with
    | O => (Panic, m)
    | S fuel =>
        let (event, q) := Scheduler.pop_due (scheduler m) (now m) in
        let m := m <| scheduler := q |> in
        match event with
        | None => (Ok tt, m)
        | Some event =>
            let! (_u, m) := complete_event event m in
            dispatch fuel m
        end
    end
  else (Ok tt, m).

(** The gates of counters 1 and 3. *)
Definition set_blank_gates (asserted : bool) (t : IopTimers) : IopTimers :=
  IopTimers.set_gate TTimer3 asserted (IopTimers.set_gate TTimer1 asserted t).

Definition deliver (m : IopMachine E) (event : TimingEvent) : IopMachine E :=
  let m := match event with
           | VBlankStart => m <| timers := set_blank_gates true (timers m) |>
           | VBlankEnd => m <| timers := set_blank_gates false (timers m) |>
           | _ => m
           end in
  m <| hardware_events := hardware_events m ++ [mkHardwareEvent (now m) (Timing event)] |>.

Definition advance_timers (cycles : Z) (m : IopMachine E)
    : outcome MachineError unit * IopMachine E :=
  let '(r, (t, c, ev)) := IopTimers.advance_cpu cycles (timers m, irq m, timing_events m) in
  (map_err TimerFailure r, m <| timers := t |> <| irq := c |> <| timing_events := ev |>).

Definition advance_refresh (cycles : Z) (m : IopMachine E)
    : outcome MachineError unit * IopMachine E :=
  let '(r, (k, c, ev)) := RefreshClock.advance cycles (refresh m, irq m, timing_events m) in
  (map_err TimerFailure r, m <| refresh := k |> <| irq := c |> <| timing_events := ev |>).

Definition advance_devices (cycles : Z) (m : IopMachine E)
    : outcome MachineError unit * IopMachine E :=
  let! (time, m) := (map_err from_clock (Deadline.checked_advance (now m) cycles), m) in
  let m := m <| now := time |> in
  let! (_u, m) := dispatch (Scheduler.len (scheduler m)) m in
  let m := m <| timing_events := [] |> in
  let! (_u, m) := advance_timers cycles m in
  let! (_u, m) := advance_refresh cycles m in
  let m := fold_left deliver (timing_events m) m in
  (Ok tt, m <| timing_events := [] |>).

Definition step_inner (sample_external_interrupt : bool) (prefetched_instruction : option Z)
    (m : IopMachine E) : outcome MachineError MachineStep * IopMachine E :=
  let prefetched := (fun instruction => (pc (cpu m), instruction)) <$> prefetched_instruction in
  let '(r, (c, b)) :=
    (if sample_external_interrupt then R3000Exec.step else step_without_external_interrupts)
      (cpu m, lend prefetched m) in
  let m := give_back c b m in
  let! (outcome, m) := (map_err CpuFailure r, m) in
  let outcome := mkStepOutcome (so_pc outcome) (so_instruction outcome) 1 (so_event outcome) in
  let! (_u, m) := advance_devices 1 m in
  (Ok (mkMachineStep outcome (now m)), m).

Definition step : IopMachine E -> outcome MachineError MachineStep * IopMachine E :=
  step_inner true None.

Definition step_without_external_interrupts
    : IopMachine E -> outcome MachineError MachineStep * IopMachine E := step_inner false None.

Definition step_without_external_interrupts_prefetched (instruction : Z)
    : IopMachine E -> outcome MachineError MachineStep * IopMachine E :=
  step_inner false (Some instruction).
End machine.
End IopMachine.
