(* ===== verification/Ps2MachineFacts.v ===== *)
(** * The PS2 I/O processor machine keeps its invariant

    A step of the machine - one instruction on its bus, then the devices for one cycle -
    keeps the processor, memory, every device and the agreement of DMA, event queue and
    blanking gates.  The one panic the guest can cause is the descending transfer from
    above RAM that the DMA controller fails to refuse. *)

From S2P Require Import Prelude Records MachineInt Clock Scheduler Buffer.
From S2P Require Import R3000 R3000Exec R3000Wf R3000Facts.
From S2P Require Import Ps2Irq Ps2Ssbus Ps2Memory Ps2MemoryFacts Ps2Timers Ps2TimersFacts.
From S2P Require Import Ps2TimersFacts Ps2Dma Ps2DmaFacts Ps2Bus Ps2BusFacts Ps2Machine.
Import IopMachine.

Section machine.
Context {E : Type} `{EndpointLaws E good} `{Spu2MmioEndpoint E} `{!RegisterLaws E good}.
Implicit Types m : IopMachine E.

(** ** The invariant *)

(** Every part on its own. *)
Record parts_ok m : Prop := {
  ok_cpu : R3000Wf.wf (cpu m);
  ok_memory : Ps2MemoryFacts.wf (memory m);
  ok_irq : IrqFacts.wf (irq m);
  ok_bank : BankFacts.wf (timers m);
  ok_refresh : RefreshFacts.wf (refresh m);
  ok_dma : Ps2DmaFacts.wf (dma m);
  ok_ssbus : ssbus_ok (ssbus m);
  ok_sound : good (sound m);
  ok_now : in_u 64 (now m);
}.

(** The parts together: the event queue holds the awaited completions, and counters 1
    and 3 are gated by vertical blank. *)
Record machine_ok m : Prop := {
  ok_parts : parts_ok m;
  ok_queue : queue_ok (dma m) (scheduler m);
  ok_gates : timers_ok (in_vblank (refresh m)) (timers m);
}.

(** The transfer whose first access panics. *)
Definition stray_transfer m : Prop :=
  exists c p, DmaController.pending_of c (dma m) = Some p /\ ~ base_in_ram p.

(** ** The bus of a step *)

Lemma lend_ok (prefetched : option (Z * Z)) m : machine_ok m -> from_option (fun p : Z * Z => u32 p.2) True prefetched ->
  bus_ok good (in_vblank (refresh m)) (lend prefetched m).
Proof using. intros [[] Hq Hg] Hp. by constructor. Qed.

Lemma give_back_ok c (b : MachineBus E) m : R3000Wf.wf c -> bus_ok good (in_vblank (refresh m)) b ->
  machine_ok m -> machine_ok (give_back c b m).
Proof using. intros Hc [] [[] _ _]. constructor; [constructor|..]; try done. by apply timers_field. Qed.

Lemma cpu_step_ok (sample : bool) (prefetched : option (Z * Z)) m :
  machine_ok m -> from_option (fun p : Z * Z => u32 p.2) True prefetched ->
  let (r, s) := (if sample then R3000Exec.step else R3000Exec.step_without_external_interrupts)
    (cpu m, lend prefetched m) in
  no_panic r /\ machine_ok (give_back s.1 s.2 m).
Proof using RegisterLaws0.
  intros Hm Hp. pose proof (lend_ok prefetched m Hm Hp) as Hb.
  assert ((if sample then R3000Exec.step else R3000Exec.step_without_external_interrupts)
    (cpu m, lend prefetched m) = R3000Exec.step_inner sample (cpu m, lend prefetched m)) as ->
    by by destruct sample.
  pose proof (step_runs (bus_ok good (in_vblank (refresh m))) sample (cpu m) (lend prefetched m)
    (ok_cpu m (ok_parts m Hm)) Hb) as Hr.
  destruct (R3000Exec.step_inner sample _) as [r [c b]]. destruct Hr as ([Hc Hb'] & Hn & _).
  split; [done|]. by apply give_back_ok.
Qed.
(** ** Due completions *)

Definition stamp (at_ : Z) (e : TimingEvent) : HardwareEvent := mkHardwareEvent at_ (Timing e).

(** Only completions happened, at or before the current time. *)
Definition completion_event (time : Z) (h : HardwareEvent) : Prop :=
  he_at h <= time /\ exists c dir words, he_kind h = Dma (Completed c dir words).

Record only_completions m m' : Prop := {
  oc_cpu : cpu m' = cpu m;
  oc_timers : timers m' = timers m;
  oc_refresh : refresh m' = refresh m;
  oc_now : now m' = now m;
  oc_events : exists l, hardware_events m' = hardware_events m ++ l /\
    Forall (completion_event (now m)) l;
}.

Lemma only_completions_refl m : only_completions m m.
Proof using. constructor; try done. exists []. by rewrite app_nil_r. Qed.

Lemma only_completions_trans m1 m2 m3 :
  only_completions m1 m2 -> only_completions m2 m3 -> only_completions m1 m3.
Proof using.
  intros [? ? ? En [l1 [E1 Hl1]]] [? ? ? ? [l2 [E2 Hl2]]]. constructor; try congruence.
  exists (l1 ++ l2). rewrite E2, E1, app_assoc. split; [done|]. apply Forall_app.
  by rewrite En in Hl2.
Qed.

Lemma sound_event d q id deadline : queue_ok d q -> eq_deadline q id = Some deadline ->
  exists c p, id = SoundDmaChannel.event c /\ DmaController.pending_of c d = Some p /\
    deadline = pt_deadline p.
Proof using.
  intros [Hs Ho _] Hd.
  destruct (decide (id = SoundDmaChannel.event Core0 \/ id = SoundDmaChannel.event Core1))
    as [Hid|Hid].
  - assert (exists c, id = SoundDmaChannel.event c) as [c ->] by (destruct Hid; eauto).
    rewrite Hs in Hd. unfold DmaController.completion_deadline in Hd.
    apply fmap_Some in Hd as (p & Hp & ->). by exists c, p.
  - rewrite Ho in Hd; [done|]. intros []; tauto.
Qed.

Lemma queue_after c p d q q' ev :
  Ps2DmaFacts.wf d -> queue_ok d q -> ev_id ev = SoundDmaChannel.event c ->
  popped (pt_deadline p) q ev q' \/ (exists t, popped t q ev q') ->
  queue_ok (finished c p d) q'.
Proof using.
  intros Hd [Hs Ho _] Hid Hpop.
  assert (exists t, popped t q ev q') as [t [_ _ Hrest Hord _]] by (destruct Hpop; eauto).
  constructor; [| |done].
  - intros c'. rewrite Hrest, Hid. unfold DmaController.completion_deadline.
    rewrite finished_pending by done. destruct (decide (c' = c)) as [->|Hne]; [by rewrite decide_True|].
    rewrite decide_False; [by apply Hs|]. intros Eq%event_inj. done.
  - intros id Hother. rewrite Hrest. case_decide; [done|by apply Ho].
Qed.

Lemma complete_event_ok ev q m :
  machine_ok m -> popped (now m) (scheduler m) ev q ->
  let '(r, m') := complete_event ev (m <| scheduler := q |>) in
  parts_ok m' /\ only_completions m m' /\ scheduler m' = q /\
  (r = Ok tt -> machine_ok m') /\ (r = Panic -> stray_transfer m').
Proof using H0.
  intros Hm Hpop. destruct (sound_event _ _ _ _ (ok_queue m Hm) (popped_deadline _ _ _ _ Hpop))
    as (c & p & Hid & Hp & Hdl).
  pose proof (ok_parts m Hm) as Hpa. unfold complete_event.
  change (memory (m <| scheduler := q |>)) with (memory m).
  change (dma (m <| scheduler := q |>)) with (dma m).
  change (sound (m <| scheduler := q |>)) with (sound m).
  change (irq (m <| scheduler := q |>)) with (irq m).
  pose proof (complete_keeps c ev (dma m) (memory m) (sound m) (irq m)
    (mkMachineDmaObserver (ev_deadline ev) (hardware_events m)) p (ok_dma m Hpa) (ok_memory m Hpa)
    (ok_sound m Hpa) Hp Hid Hdl) as Hc.
  change (hardware_events (m <| scheduler := q |>)) with (hardware_events m).
  destruct (DmaController.complete _ _ _ _ _ _) as [r [[[[d mem] e] i] o]].
  destruct Hc as (Hmem & Hg & Hr). destruct r as [[]|x|]; cbn [map_err].
  - destruct Hr as (-> & -> & ->).
    assert (IrqFacts.wf (DmaController.signal (DmaController.master_irq (dma m))
      (finished c p (dma m)) (irq m))) by apply signal_wf, Hpa.
    assert (Ps2DmaFacts.wf (finished c p (dma m))).
    { apply finished_wf; [apply Hpa|]. by apply (wf_pending_ok _ (ok_dma m Hpa) c). }
    assert (queue_ok (finished c p (dma m)) q) as Hq.
    { apply (queue_after c p (dma m) (scheduler m) q ev); [apply Hpa|apply Hm|done|eauto]. }
    set (m1 := _ <| hardware_events := _ |>).
    assert (parts_ok m1) as Hp1 by (destruct Hpa; by constructor).
    split_and!; [done| |done| |done].
    + constructor; try done. eexists [_]. split; [done|]. repeat constructor.
      * apply Hpop.
      * by exists c, (pt_direction p), (pt_words p).
    + intros _. constructor; [done|done|apply Hm].
  - destruct Hr as (-> & -> & -> & _). split_and!; [by destruct Hpa; constructor| |done|done|done].
    constructor; try done. exists []. by rewrite app_nil_r.
  - destruct Hr as (-> & -> & -> & Hpan).
    split_and!; [by destruct Hpa; constructor| |done|done|intros _; exists c, p; auto].
    constructor; try done. exists []. by rewrite app_nil_r.
Qed.

Lemma is_due_pop m : is_due m = false <-> (Scheduler.pop_due (scheduler m) (now m)).1 = None.
Proof using.
  rewrite pop_due_none. unfold is_due. destruct (Scheduler.next_deadline _); [|done]. lia.
Qed.

(** The dispatch loop completes every due transfer, or stops at the first refused one. *)
Lemma dispatch_ok fuel : forall m,
  machine_ok m -> (Scheduler.len (scheduler m) <= fuel)%nat ->
  let '(r, m') := dispatch fuel m in
  parts_ok m' /\ only_completions m m' /\
  (r = Ok tt -> machine_ok m' /\ is_due m' = false) /\ (r = Panic -> stray_transfer m').
Proof using H0.
  induction fuel as [|fuel IH]; intros m Hm Hf; cbn [dispatch];
    (destruct (is_due m) eqn:Ed;
     [|split_and!; [apply Hm|apply only_completions_refl|done|done]]);
    destruct (Scheduler.pop_due (scheduler m) (now m)) as [[ev|] q] eqn:Epop;
    try (assert (is_due m = false) by (apply is_due_pop; by rewrite Epop); congruence).
  all: pose proof (pop_due_popped _ _ _ _ (queue_orderly _ _ (ok_queue m Hm)) Epop) as Hpop.
  { pose proof (popped_len _ _ _ _ Hpop). lia. }
  pose proof (complete_event_ok ev q m Hm Hpop) as Hc.
  destruct (complete_event ev _) as [[[]|x|] m1]; destruct Hc as (Hp1 & Ho1 & Hs1 & Hok & Hpan);
    [|split_and!; auto; done..].
  specialize (IH m1 (Hok eq_refl)). destruct (dispatch fuel m1) as [r m'].
  destruct IH as (Hp' & Ho' & Hr & Hst).
  { rewrite Hs1. pose proof (popped_len _ _ _ _ Hpop). lia. }
  split_and!; try done. by eapply only_completions_trans.
Qed.
(** ** Counters, refresh and gates *)

Definition is_counter (e : TimingEvent) : Prop := exists timer b, e = CounterEvent timer b.

(** What the counters may do to the interrupt controller and the event list. *)
Definition counting (before : list TimingEvent) (c : InterruptController) (o : list TimingEvent)
    : Prop :=
  IrqFacts.wf c /\ exists l, o = before ++ l /\ Forall is_counter l.

Lemma advance_timers_ok cycles m : machine_ok m -> 0 <= cycles -> cycles + 256 <= 2 ^ 64 ->
  timing_events m = [] ->
  let '(r, m') := advance_timers cycles m in
  no_panic r /\ machine_ok m' /\ Forall is_counter (timing_events m') /\
  cpu m' = cpu m /\ refresh m' = refresh m /\ dma m' = dma m /\ now m' = now m /\
  scheduler m' = scheduler m /\ hardware_events m' = hardware_events m.
Proof using.
  intros Hm Hge Hmax Hev. unfold advance_timers. rewrite Hev.
  pose proof (advance_cpu_kept (counting [])) as Hk.
  specialize (fun h1 h2 => Hk h1 h2 cycles (timers m) (irq m) []).
  destruct Hm as [Hp Hq Hg].
  assert (bank_kept (counting []) (timers m) (IopTimers.advance_cpu cycles (timers m, irq m, [])))
    as [Hn Hw Hgates [Hirq (l & El & Hl)]].
  { apply Hk; [| |apply Hp| |done|done].
    - intros c o timer b (Hc & l & -> & Hl). split; [done|].
      exists (l ++ [CounterEvent timer b]). split; [done|]. apply Forall_app. split; [done|].
      repeat constructor. by exists timer, b.
    - intros c o timer (Hc & Ho). split; [by apply IrqFacts.request_wf|done].
    - split; [apply Hp|]. by exists []. }
  destruct (IopTimers.advance_cpu cycles _) as [r [[t c] ev]]. cbn [fst snd] in *.
  split_and!; [by destruct r| |by rewrite El|done..].
  destruct Hg as [Hb H1' H3']. destruct Hp.
  constructor; [by constructor|done|].
  constructor; [done|exact (eq_trans (Hgates _) H1')|exact (eq_trans (Hgates _) H3')].
Qed.

(** The blanking boundaries passed in the next cycles. *)
Definition boundaries (cycles : Z) (k : RefreshClock) : list TimingEvent :=
  let v := standard k in
  let start := RefreshFacts.boundary_index v (phase_units k) in
  let target := phase_units k + cycles * (RefreshClock.rate v).1 in
  RefreshFacts.boundary_event <$>
    seqZ start (RefreshFacts.boundary_index v target - start).

(** The clock after the cycles. *)
Definition refreshed (cycles : Z) (k : RefreshClock) : RefreshClock :=
  RefreshFacts.at_time (standard k) (phase_units k + cycles * (RefreshClock.rate (standard k)).1).

Lemma emit_events l (c : InterruptController) (o : list TimingEvent) : IrqFacts.wf c ->
  IrqFacts.wf (RefreshFacts.emit l (c, o)).1 /\
  (RefreshFacts.emit l (c, o)).2 = o ++ (RefreshFacts.boundary_event <$> l).
Proof using.
  revert c o. induction l as [|i l IH]; intros c o Hc; [by rewrite app_nil_r|].
  change (RefreshFacts.emit (i :: l) (c, o)) with
    (RefreshFacts.emit l (request c (RefreshFacts.boundary_source i),
                          o ++ [RefreshFacts.boundary_event i])).
  destruct (IH (request c (RefreshFacts.boundary_source i)) (o ++ [RefreshFacts.boundary_event i]))
    as [Hw Ee]; [by apply IrqFacts.request_wf|].
  split; [done|]. rewrite Ee, fmap_cons. by rewrite <- app_assoc.
Qed.

Lemma advance_refresh_ok cycles m : parts_ok m -> in_u 64 cycles ->
  exists c, IrqFacts.wf c /\ advance_refresh cycles m =
    (Ok tt, m <| refresh := refreshed cycles (refresh m) |> <| irq := c |>
              <| timing_events := timing_events m ++ boundaries cycles (refresh m) |>).
Proof using.
  intros Hp Hc. unfold advance_refresh.
  rewrite RefreshFacts.refresh_advance by (done || apply Hp). cbv zeta.
  destruct (emit_events (seqZ (RefreshFacts.boundary_index (standard (refresh m)) (phase_units (refresh m)))
    (RefreshFacts.boundary_index (standard (refresh m)) (phase_units (refresh m) +
       cycles * (RefreshClock.rate (standard (refresh m))).1)
     - RefreshFacts.boundary_index (standard (refresh m)) (phase_units (refresh m))))
    (irq m) (timing_events m) (ok_irq m Hp)) as [Hw Ee].
  rewrite Ee. by eexists.
Qed.

(** The level the gates are left at, and the counters with it. *)
Definition blank_after (blank : bool) (e : TimingEvent) : bool :=
  match e with VBlankStart => true | VBlankEnd => false | _ => blank end.

Definition gated (t : IopTimers) (e : TimingEvent) : IopTimers :=
  match e with
  | VBlankStart => set_blank_gates true t
  | VBlankEnd => set_blank_gates false t
  | _ => t
  end.

Lemma deliver_all evs : forall m,
  fold_left deliver evs m =
  m <| timers := fold_left gated evs (timers m) |>
    <| hardware_events := hardware_events m ++ (stamp (now m) <$> evs) |>.
Proof using.
  induction evs as [|e evs IH]; intros m; cbn [fold_left].
  { destruct m. cbn. by rewrite app_nil_r. }
  rewrite IH, fmap_cons. destruct m, e; cbn; by rewrite <- app_assoc.
Qed.

Lemma set_gate_level timer timer' b t : BankFacts.wf t ->
  gate_level (IopTimers.counter timer (IopTimers.set_gate timer' b t)) =
  if decide (timer = timer') then b else gate_level (IopTimers.counter timer t).
Proof using.
  intros Ht. unfold IopTimers.set_gate. rewrite BankFacts.counter_set by apply Ht.
  case_decide; [|done]. unfold Counter.set_gate. by repeat case_match.
Qed.

Lemma gated_ok e b t : timers_ok b t -> timers_ok (blank_after b e) (gated t e).
Proof using.
  intros Ht. assert (forall x, timers_ok x (set_blank_gates x t)) as Hs.
  { intros x. unfold set_blank_gates. pose proof (bank_ok _ _ Ht) as Hb.
    assert (BankFacts.wf (IopTimers.set_gate TTimer1 x t)) by by apply BankFacts.set_gate_wf.
    constructor; [by apply BankFacts.set_gate_wf|..]; rewrite !set_gate_level by done; done. }
  destruct e; [done|apply Hs..].
Qed.

Lemma gates_ok evs : forall b t, timers_ok b t ->
  timers_ok (fold_left blank_after evs b) (fold_left gated evs t).
Proof using.
  induction evs as [|e evs IH]; intros b t Ht; [done|]. cbn [fold_left]. by apply IH, gated_ok.
Qed.

Lemma blank_counters evs b : Forall is_counter evs -> fold_left blank_after evs b = b.
Proof using.
  intros Hc. revert b. induction Hc as [|e evs [timer [x ->]] Hc IH]; intros b; [done|]. apply IH.
Qed.

Lemma blank_boundaries n : forall i,
  fold_left blank_after (RefreshFacts.boundary_event <$> seqZ i (Z.of_nat n)) (Z.odd i) =
  Z.odd (i + Z.of_nat n).
Proof using.
  induction n as [|n IH]; intros i; [by rewrite Z.add_0_r|].
  rewrite seqZ_cons, fmap_cons by lia. cbn [fold_left].
  assert (blank_after (Z.odd i) (RefreshFacts.boundary_event i) = Z.odd (i + 1)) as ->.
  { rewrite Z.odd_add. unfold RefreshFacts.boundary_event. rewrite <- Z.negb_odd. by destruct (Z.odd i). }
  replace (Z.pred (Z.of_nat (S n))) with (Z.of_nat n) by lia.
  replace (Z.succ i) with (i + 1) by lia. rewrite IH. f_equal. lia.
Qed.

Lemma at_time_blank v x : in_vblank (RefreshFacts.at_time v x) = Z.odd (RefreshFacts.boundary_index v x).
Proof using.
  unfold RefreshFacts.boundary_index. rewrite Z.odd_add, Z.odd_mul. cbn.
  by destruct (RefreshFacts.blank v <=? x mod RefreshFacts.frame v).
Qed.

(** The gates follow the clock. *)
Lemma blank_follows cycles k : RefreshFacts.wf k -> 0 <= cycles ->
  fold_left blank_after (boundaries cycles k) (in_vblank k) = in_vblank (refreshed cycles k).
Proof using.
  intros Hk Hc. unfold boundaries, refreshed. cbv zeta.
  pose proof (at_time_blank (standard k) (phase_units k)) as Ek.
  rewrite (RefreshFacts.at_time_phase k Hk) in Ek. rewrite Ek, at_time_blank.
  set (v := standard k). set (i := RefreshFacts.boundary_index v (phase_units k)).
  set (j := RefreshFacts.boundary_index v (phase_units k + _)).
  assert (i <= j) as Hij.
  { apply RefreshFacts.index_mono.
    assert (0 <= cycles * (RefreshClock.rate v).1); [|lia].
    apply Z.mul_nonneg_nonneg; [done|by destruct v]. }
  replace (j - i) with (Z.of_nat (Z.to_nat (j - i))) by lia. rewrite blank_boundaries. f_equal. lia.
Qed.
(** ** Advancing the devices *)

(** The devices after some cycles. *)
Record advanced (cycles : Z) m m' : Prop := {
  adv_ok : machine_ok m';
  adv_now : now m' = now m + cycles;
  adv_idle : is_due m' = false;
  adv_cpu : cpu m' = cpu m;
  adv_refresh : refresh m' = refreshed cycles (refresh m);
  adv_drained : timing_events m' = [];
  adv_events : exists completions ticks,
    hardware_events m' = hardware_events m ++ completions ++
      (stamp (now m') <$> ticks ++ boundaries cycles (refresh m)) /\
    Forall (completion_event (now m')) completions /\ Forall is_counter ticks;
}.

(** What holds whatever the result. *)
Definition advance_result (cycles : Z) m (r : outcome MachineError unit) m' : Prop :=
  parts_ok m' /\ (r = Ok tt -> advanced cycles m m') /\ (r = Panic -> stray_transfer m').

Lemma set_now_ok t m : in_u 64 t -> machine_ok m -> machine_ok (m <| now := t |>).
Proof using. intros Ht [[] Hq Hg]. by constructor. Qed.

Lemma clear_timing_ok evs m : machine_ok m -> machine_ok (m <| timing_events := evs |>).
Proof using. intros [[] Hq Hg]. by constructor. Qed.

Lemma advance_devices_ok cycles m :
  machine_ok m -> 0 <= cycles -> cycles + 256 <= 2 ^ 64 ->
  let (r, m') := advance_devices cycles m in advance_result cycles m r m'.
Proof using H0.
  intros Hm Hge Hmax. pose proof (ok_now m (ok_parts m Hm)) as Hnow. unfold advance_devices.
  destruct (Deadline.checked_advance (now m) cycles) as [t|x|] eqn:Et; cbn [map_err];
    [|by split; [apply Hm|]|].
  2:{ unfold Deadline.checked_advance in Et. by destruct (checked_add_u 64 _ _). }
  apply Deadline.checked_advance_ok in Et as [-> Hlt].
  set (m1 := m <| now := _ |>).
  assert (machine_ok m1) as Hm1 by (apply set_now_ok; [unfold in_u in *; lia|done]).
  change (Scheduler.len (scheduler m1)) with (Scheduler.len (scheduler m1)).
  pose proof (dispatch_ok (Scheduler.len (scheduler m1)) m1 Hm1 (le_n _)) as Hd.
  destruct (dispatch _ m1) as [[[]|x|] m2]; destruct Hd as (Hp2 & Ho2 & Hok2 & Hst2);
    [|split; [done|]; split; [done|exact Hst2]..].
  destruct (Hok2 eq_refl) as [Hm2 Hidle]. destruct Ho2 as [Ecpu Etim Eref Enow (l & El & Hl)].
  set (m3 := m2 <| timing_events := [] |>).
  pose proof (advance_timers_ok cycles m3 (clear_timing_ok _ _ Hm2) Hge Hmax eq_refl) as Ht.
  destruct (advance_timers cycles m3) as [r m4].
  destruct Ht as (Hn & Hm4 & Hticks & Ecpu4 & Eref4 & Edma4 & Enow4 & Eq4 & Ehw4).
  destruct r as [[]|x|]; [|by split; [apply Hm4|]|done].
  destruct (advance_refresh_ok cycles m4 (ok_parts m4 Hm4)) as (c & Hc & ->); [unfold in_u; lia|].
  cbn [fst snd]. rewrite deliver_all.
  assert (refresh m4 = refresh m) as Er by (rewrite Eref4; exact Eref).
  assert (now m4 = now m + cycles) as En by (rewrite Enow4; exact Enow).
  set (evs := timing_events m4 ++ boundaries cycles (refresh m4)).
  assert (timers_ok (in_vblank (refreshed cycles (refresh m4))) (fold_left gated evs (timers m4)))
    as Hgates.
  { pose proof (gates_ok evs _ _ (ok_gates m4 Hm4)) as Hg. unfold evs in Hg at 1.
    rewrite fold_left_app, (blank_counters _ _ Hticks) in Hg.
    rewrite (blank_follows cycles _ (ok_refresh _ (ok_parts m4 Hm4)) Hge) in Hg. exact Hg. }
  assert (RefreshFacts.wf (refreshed cycles (refresh m4))) by apply RefreshFacts.at_time_wf.
  set (m5 := _ <| timing_events := [] |>).
  assert (machine_ok m5) as Hm5.
  { destruct Hm4 as [[] Hq _]. constructor; [constructor|..]; try done. by destruct Hgates. }
  split; [apply Hm5|]. split; [|done]. intros _. constructor; [done|done| | | |done|].
  - unfold is_due. change (scheduler m5) with (scheduler m4). change (now m5) with (now m4).
    rewrite Eq4, Enow4. exact Hidle.
  - change (cpu m5) with (cpu m4). rewrite Ecpu4. exact Ecpu.
  - change (refresh m5) with (refreshed cycles (refresh m4)). by rewrite Er.
  - exists l, (timing_events m4). change (now m5) with (now m4).
    split_and!; [|by rewrite En|done].
    change (hardware_events m5) with (hardware_events m4 ++ (stamp (now m4) <$> evs)).
    rewrite Ehw4. change (hardware_events m3) with (hardware_events m2). rewrite El.
    unfold evs. rewrite Er. by rewrite <- app_assoc.
Qed.

(** ** The step *)

(** C4: One step of the PS2 I/O processor machine is safe: from a machine whose parts are
    well formed and agree, whatever instruction it fetches or is handed, the step keeps
    every part well formed on every path, errors included.  When it succeeds, time has
    advanced by exactly one cycle, no completion is left due, DMA and the event queue
    still agree, the refresh clock has moved by one cycle exactly, the gates of counters
    1 and 3 are at the blanking level, and the hardware events are the old ones, then
    those of the instruction, then the completions, the counter events and the blanking
    boundaries.  The only panic is that of a sound transfer that descends from above
    RAM, which is still pending then. *)
Theorem iop_step_safe (sample : bool) (prefetched : option Z) m :
  machine_ok m -> from_option u32 True prefetched ->
  let (r, m') := step_inner sample prefetched m in
  parts_ok m' /\ (r = Panic -> stray_transfer m') /\
  forall s, r = Ok s -> exists m1, machine_ok m1 /\ now m1 = now m /\ refresh m1 = refresh m /\
    advanced 1 m1 m' /\ so_cycles (step_cpu s) = 1 /\ step_now s = now m'.
Proof using H0 RegisterLaws0.
  intros Hm Hp. unfold step_inner.
  set (pre := (fun instruction => (pc (cpu m), instruction)) <$> prefetched).
  assert (from_option (fun p : Z * Z => u32 p.2) True pre) as Hpre by by destruct prefetched.
  pose proof (cpu_step_ok sample pre m Hm Hpre) as Hs.
  destruct ((if sample then R3000Exec.step else R3000Exec.step_without_external_interrupts)
    (cpu m, lend pre m)) as [r [c b]]. destruct Hs as [Hn Hm1]. cbn [fst snd] in Hm1.
  destruct r as [o|x|]; cbn [map_err]; [|by split; [apply Hm1|]|done].
  pose proof (advance_devices_ok 1 _ Hm1 ltac:(lia) ltac:(lia)) as Ha.
  destruct (advance_devices 1 _) as [[[]|x|] m'] eqn:Ea; destruct Ha as (Hp' & Hok & Hst);
    split_and!; try done; try (intros _; by apply Hst).
  intros s [= <-]. exists (give_back c b m). split_and!; [done..|by apply Hok|done|done].
Qed.

(** The machine at reset. *)
Lemma machine_new_ok (e : E) config : good e -> machine_ok (IopMachine.new e config).
Proof using.
  intros He. constructor; [constructor|..].
  - apply cpu_new_wf. constructor; by split.
  - apply iop_memory_new_wf.
  - apply IrqFacts.iop_irq_new_wf.
  - apply BankFacts.iop_timers_new_wf.
  - apply RefreshFacts.refresh_new_wf.
  - apply iop_dma_new_wf.
  - split; [apply SsbusFacts.ssbus_new_wf|]. intros r.
    assert (forall l i, Forall u32 l -> u32 (l !!! i)) as Hl.
    { intros l i Hl. rewrite list_lookup_total_alt. destruct (l !! i) eqn:Ei; [|by split].
      by eapply Forall_lookup_1. }
    destruct r; cbn; [apply Hl; by repeat constructor..|by split].
  - done.
  - by split.
  - constructor; [by intros []|done|apply orderly_new].
  - constructor; [apply BankFacts.iop_timers_new_wf|done..].
Qed.
End machine.

(** ** Over the standalone endpoint *)

(** The mock's queued words and registers fit their widths. *)
Definition mock_ok (e : MockSpu2Endpoint) : Prop :=
  queued_ok e /\ length (Ps2Dma.registers e) = 0x400%nat /\ Forall (in_u 16) (Ps2Dma.registers e).

#[export] Instance mock_machine_laws : EndpointLaws MockSpu2Endpoint mock_ok.
Proof.
  constructor.
  - intros c w e [Hq Hr] Hw. destruct (write_word_ok (good := queued_ok) c w e Hq Hw). split; [done|by split].
  - intros c e [Hq Hr]. destruct (read_word_ok (good := queued_ok) c e Hq) as (Hn & Hg & Hv).
    split; [done|]. split; [|done]. split; [done|]. cbn. unfold MockSpu2Endpoint.read_word.
    by destruct (_ !!! _).
Qed.

Lemma register_index_range a i : sound_register_index a = Ok i -> 0 <= i < 0x400.
Proof.
  unfold sound_register_index. destruct (has_bits a 1); [done|].
  destruct (within_spec 0x1f900000 0x1f9007fe a); [|done]. cbn [orb negb].
  intros [-> _]%ok_or_ok%try_from_u_Some.
  pose proof (Z.div_mod (a - 0x1f900000) 2 ltac:(lia)).
  pose proof (Z.mod_pos_bound (a - 0x1f900000) 2 ltac:(lia)). lia.
Qed.

Lemma register_index_no_panic a : no_panic (sound_register_index a).
Proof.
  unfold sound_register_index. destruct (_ || _); [done|]. unfold ok_or. by case_match.
Qed.

#[export] Instance mock_register_laws : RegisterLaws MockSpu2Endpoint mock_ok.
Proof.
  assert (forall a i (e : MockSpu2Endpoint), mock_ok e -> sound_register_index a = Ok i ->
    exists v, Ps2Dma.registers e !! Z.to_nat i = Some v /\ in_u 16 v) as Hlook.
  { intros a i e (_ & Hl & Hall) Hi%register_index_range.
    destruct (lookup_lt_is_Some_2 (Ps2Dma.registers e) (Z.to_nat i)) as [v Ev]; [rewrite Hl; lia|].
    exists v. split; [done|]. by eapply Forall_lookup_1. }
  constructor; intros a.
  - intros e He. cbn. unfold MockSpu2Endpoint.read_register. cbn [fst snd].
    pose proof (register_index_no_panic a).
    destruct (sound_register_index a) as [i|x|] eqn:Ei; [|done..]. cbn [obind].
    destruct (Hlook a i e He Ei) as (v & -> & Hv). split_and!; [done..|]. by intros v' [= <-].
  - intros v e He Hv. cbn. unfold MockSpu2Endpoint.write_register.
    pose proof (register_index_no_panic a).
    destruct (sound_register_index a) as [i|x|] eqn:Ei; [|done..].
    destruct (Hlook a i e He Ei) as (v' & -> & _). split; [done|].
    destruct He as (Hq & Hl & Hall). split_and!; [done|cbn; by rewrite length_insert|].
    by apply Forall_insert.
Qed.

Lemma mock_new_ok : mock_ok MockSpu2Endpoint.new.
Proof.
  split; [repeat constructor|]. split; [done|]. by apply (Forall_replicate _ 0x400 0).
Qed.

(** ** Prefetched instructions *)

(** A word that memory can supply is what the bus reads. *)
Lemma plain_fetch {E} `{Spu2DmaEndpoint E} `{Spu2MmioEndpoint E} a v (b : MachineBus E) :
  u32 a -> IopMemory.read_u32 a (Ps2Bus.memory b) = Ok v -> MachineBus.read_region_u32 a b = (Ok v, b).
Proof.
  intros Ha Hread. unfold MachineBus.read_region_u32, MachineBus.region.
  pose proof Hread as Hr. unfold IopMemory.read_u32 in Hr. cbn [IopMemory.read_bytes] in Hr.
  rewrite Z.add_0_r, (wrap_id 32 a Ha) in Hr. unfold IopMemory.read_u8 at 1 in Hr.
  destruct (IopMemory.classify a) as [r|e|] eqn:Ec; cbn [obind faulting map_err] in *; [|done..].
  destruct (IopMemory.validate_span a r 4); cbn [obind] in Hr; [|done..].
  destruct r; try done; unfold faulting; by rewrite Hread.
Qed.

(** Handing the machine the instruction that memory holds at the current address is
    the same as letting it fetch: the result, the processor, every device and the event
    list agree, on every path, for every kind of instruction - one that reads the word at
    its own address included. *)
Theorem prefetched_step_same {E} `{Spu2DmaEndpoint E} `{Spu2MmioEndpoint E} instruction
    (m : IopMachine E) :
  u32 (pc (cpu m)) -> IopMemory.read_u32 (pc (cpu m)) (memory m) = Ok instruction ->
  step_without_external_interrupts_prefetched instruction m =
  IopMachine.step_without_external_interrupts m.
Proof.
  intros Hpc Hread. unfold step_without_external_interrupts_prefetched,
    IopMachine.step_without_external_interrupts, step_inner. cbn [fmap option_fmap option_map].
  set (pre := Some (pc (cpu m), instruction)).
  unfold R3000Exec.step_without_external_interrupts, R3000Exec.step_inner. cbn [andb fst snd].
  destruct (has_bits (pc (cpu m)) 3); [unfold finish_step; by destruct (trap _ _ _ _)|].
  unfold on_bus at 1 2. cbn [snd].
  assert (R3000.read_u32 (pc (cpu m)) (lend pre m) = (Ok instruction, lend None m)) as ->.
  { cbn. unfold MachineBus.read_u32. cbn. by rewrite Z.eqb_refl. }
  assert (R3000.read_u32 (pc (cpu m)) (lend None m) = (Ok instruction, lend None m)) as ->;
    [|done].
  exact (plain_fetch _ _ (lend None m) Hpc Hread).
Qed.
(** ** Booting a bare-metal image *)

Lemma translate_direct a : IopMemory.translate a =
  if direct a then Ok (a mod 2 ^ 29) else Err (UnsupportedSegment a).
Proof.
  unfold IopMemory.translate, direct. destruct (_ || _); [|done].
  change 0x1fffffff with (Z.ones 29). by rewrite Z.land_ones.
Qed.

Lemma load_ram_spec o bytes m : buf_len (ram m) = RAM_SIZE -> 0 <= o < 2 ^ 32 ->
  IopMemory.load_ram o bytes m =
  if o + Z.of_nat (length bytes) <=? RAM_SIZE
  then (Ok tt, m <| ram := Buffer.write_cells (ram m) o bytes |>)
  else (Err (InvalidRamRange o (Z.of_nat (length bytes))), m).
Proof.
  intros Hm Ho. unfold IopMemory.load_ram, checked_add_u, Buffer.copy_from. rewrite Hm.
  destruct (Z.leb_spec (o + Z.of_nat (length bytes)) RAM_SIZE) as [Hle|Hgt].
  - unfold RAM_SIZE in Hle. rewrite (proj2 (Z.ltb_lt _ (2 ^ 64))) by lia.
    change (2 * 1024 * 1024) with RAM_SIZE in Hle. rewrite (proj2 (Z.leb_le _ RAM_SIZE)) by done.
    by rewrite (proj2 (Z.leb_le 0 o)) by lia.
  - destruct (_ <? _); [|done]. by rewrite (proj2 (Z.leb_gt _ RAM_SIZE)) by done.
Qed.

(** The machine a placed image starts as. *)
Definition bare_machine {E} (physical entry : Z) (program : list Z) (e : E) (config : MachineConfig)
    : IopMachine E :=
  let m := IopMachine.new e config in
  let mem := memory m in
  m <| memory := (mem <| ram := Buffer.write_cells (ram mem) physical program |>) |>
    <| cpu := put_register 29 0x001ffff0 (Cpu.new (mkResetProfile entry 0x80000080 0xbfc00180
                                                  0 IOP_PROCESSOR_ID)) |>.

Lemma bare_machine_ok {E} `{EndpointLaws E good} `{Spu2MmioEndpoint E}
    physical entry program (e : E) config :
  u32 entry -> Forall (in_u 8) program -> good e ->
  machine_ok (good := good) (bare_machine physical entry program e config).
Proof.
  intros He Hb Hg. pose proof (machine_new_ok e config Hg) as [[] Hq Hgt].
  constructor; [constructor|..]; try done.
  - apply (put_register_wf 29); [|by split|lia]. apply cpu_new_wf. constructor; (done || by split).
  - constructor; try done; cbn.
    + by rewrite Buffer.write_cells_len.
    + apply Buffer.write_cells_ok; [apply Buffer.zeroed_ok|done].
Qed.

Lemma from_bare_metal_eq {E} `{Spu2DmaEndpoint E} `{Spu2MmioEndpoint E}
    load entry program (e : E) config :
  from_bare_metal load entry program e config =
  let physical := load mod 2 ^ 29 in
  if has_bits entry 3 || negb (is_ram (IopMemory.classify entry)) then Err (InvalidEntry entry)
  else if negb (direct load) then Err (ProgramError (UnsupportedSegment load))
  else if physical + Z.of_nat (length program) <=? RAM_SIZE
  then Ok (bare_machine physical entry program e config)
  else Err (ProgramError (InvalidRamRange physical (Z.of_nat (length program)))).
Proof.
  unfold from_bare_metal. destruct (_ || _); [done|].
  rewrite translate_direct. destruct (direct load); cbn [map_err obind negb]; [|done].
  pose proof (Z.mod_pos_bound load (2 ^ 29) ltac:(lia)). cbn [memory IopMachine.new].
  rewrite load_ram_spec by (done || lia). by destruct (_ <=? RAM_SIZE).
Qed.

(** A bare-metal machine is built exactly when its entry point is an aligned RAM
    address and its image, at the physical address the load address denotes, ends inside
    RAM; anything else is refused with the matching error and never panics.  The machine
    is well formed, stands at the entry point at time zero with the stack pointer set,
    and each byte of RAM is the image's or zero. *)
Theorem bare_metal_boots {E} `{EndpointLaws E good} `{Spu2MmioEndpoint E}
    load entry program (e : E) config :
  u32 load -> u32 entry -> Forall (in_u 8) program -> good e ->
  let placed o := load mod 2 ^ 29 <= o < load mod 2 ^ 29 + Z.of_nat (length program) in
  match from_bare_metal load entry program e config with
  | Ok m => machine_ok (good := good) m /\
      has_bits entry 3 = false /\ is_ram (IopMemory.classify entry) = true /\
      pc (cpu m) = entry /\ now m = 0 /\ R3000.registers (cpu m) !! 29%nat = Some 0x001ffff0 /\
      (forall o, 0 <= o < RAM_SIZE -> Buffer.get (ram (memory m)) o =
        Some (if decide (placed o) then nth (Z.to_nat (o - load mod 2 ^ 29)) program 0 else 0))
  | Err (InvalidEntry x) => x = entry /\
      (has_bits entry 3 = true \/ is_ram (IopMemory.classify entry) = false)
  | Err (ProgramError x) =>
      x = UnsupportedSegment load /\ direct load = false \/
      x = InvalidRamRange (load mod 2 ^ 29) (Z.of_nat (length program)) /\
        RAM_SIZE < load mod 2 ^ 29 + Z.of_nat (length program)
  | _ => False
  end.
Proof.
  intros Hl He Hb Hg placed. rewrite from_bare_metal_eq. cbv zeta.
  destruct (has_bits entry 3) eqn:Ea; cbn [orb]; [by auto|].
  destruct (is_ram (IopMemory.classify entry)) eqn:Er; cbn [negb]; [|by auto].
  destruct (direct load) eqn:Ed; cbn [negb]; [|by auto].
  destruct (Z.leb_spec (load mod 2 ^ 29 + Z.of_nat (length program)) RAM_SIZE);
    [|right; split; [reflexivity|assumption]].
  split_and!; try done; [by apply bare_machine_ok|].
  intros i Hi. cbn. rewrite Buffer.get_in by (rewrite Buffer.write_cells_len; exact Hi).
  rewrite Buffer.cell_write_cells. by repeat case_decide.
Qed.

(** [lui t0, 0x1f80] in KSEG0. *)
Definition boot : outcome MachineError (IopMachine MockSpu2Endpoint) :=
  from_bare_metal 0x80001000 0x80001000 [0x80; 0x1f; 0x08; 0x3c] MockSpu2Endpoint.new
    default_config.

Definition booted : IopMachine MockSpu2Endpoint :=
  match boot with Ok m => m | _ => IopMachine.new MockSpu2Endpoint.new default_config end.

Lemma bare_metal_boots_witness :
  boot = Ok booted /\ pc (cpu booted) = 0x80001000.
Proof.
  assert (u32 0x80001000) as Ha by (by split).
  assert (Forall (in_u 8) [0x80; 0x1f; 0x08; 0x3c]) as Hb by (repeat constructor; done).
  pose proof (bare_metal_boots 0x80001000 0x80001000 [0x80; 0x1f; 0x08; 0x3c]
    MockSpu2Endpoint.new default_config Ha Ha Hb mock_new_ok) as Hboot.
  cbv zeta in Hboot. unfold booted, boot. destruct (from_bare_metal _ _ _ _ _) as [m|x|] eqn:Eb.
  - split; [reflexivity|apply Hboot].
  - vm_compute in Eb. discriminate Eb.
  - destruct Hboot.
Defined.

Lemma booted_ok : machine_ok (good := mock_ok) booted.
Proof.
  unfold booted, boot. rewrite from_bare_metal_eq. cbv zeta. change (direct _) with true.
  change (has_bits _ 3 || _) with false. cbn [negb].
  apply bare_machine_ok; [by split|by repeat constructor|apply mock_new_ok].
Qed.

Lemma iop_step_safe_witness :
  let m := (IopMachine.step booted).2 in
  now m = 1 /\ R3000.registers (cpu m) !! 8%nat = Some 0x1f800000 /\ is_due m = false.
Proof.
  pose proof (iop_step_safe (good := mock_ok) true None booted booted_ok I) as Hs.
  change (step_inner true None booted) with (IopMachine.step booted) in Hs.
  cbn zeta. split; [vm_compute; reflexivity|]. split; [vm_compute; reflexivity|].
  destruct (IopMachine.step booted) as [r m] eqn:Es.
  assert (exists s, r = Ok s) as [s ->].
  { assert (r = (IopMachine.step booted).1) as -> by (by rewrite Es). eexists. vm_compute. reflexivity. }
  destruct Hs as (_ & _ & Hs). destruct (Hs s eq_refl) as (m1 & _ & _ & _ & Ha & _).
  exact (adv_idle _ _ _ Ha).
Defined.

Lemma prefetched_step_same_witness :
  step_without_external_interrupts_prefetched 0x3c081f80 booted =
  IopMachine.step_without_external_interrupts booted.
Proof.
  apply prefetched_step_same; [by split|vm_compute; reflexivity].
Defined.
