(* ===== verification/Ps2Effects.v ===== *)
(** * PS2 effect unit: crates/hw/ps2/spu2/src/effects.rs

    The cursor of one core's effects work area and one sample of the effect graph, which
    reads and writes the area of sound RAM between the start and the end address.  The
    comb accumulator is a 64-bit sum of four products of sixteen-bit factors and is exact.
    No operation returns an error; a panic is an access outside an array. *)

From S2P Require Import Prelude Records MachineInt Buffer SpuCommon.

(** [SOUND_RAM_SIZE] of the unit, used by both of its files *)
Definition SOUND_RAM_SIZE : Z := 2 * 1024 * 1024.

Definition D_APF1 : nat := 0.
Definition D_APF2 : nat := 1.
Definition M_LSAME : nat := 2.
Definition M_RSAME : nat := 3.
Definition M_LCOMB1 : nat := 4.
Definition M_RCOMB1 : nat := 5.
Definition M_LCOMB2 : nat := 6.
Definition M_RCOMB2 : nat := 7.
Definition D_LSAME : nat := 8.
Definition D_RSAME : nat := 9.
Definition M_LDIFF : nat := 10.
Definition M_RDIFF : nat := 11.
Definition M_LCOMB3 : nat := 12.
Definition M_RCOMB3 : nat := 13.
Definition M_LCOMB4 : nat := 14.
Definition M_RCOMB4 : nat := 15.
Definition D_LDIFF : nat := 16.
Definition D_RDIFF : nat := 17.
Definition M_LAPF1 : nat := 18.
Definition M_RAPF1 : nat := 19.
Definition M_LAPF2 : nat := 20.
Definition M_RAPF2 : nat := 21.

Definition V_IIR : nat := 0.
Definition V_COMB1 : nat := 1.
Definition V_COMB2 : nat := 2.
Definition V_COMB3 : nat := 3.
Definition V_COMB4 : nat := 4.
Definition V_WALL : nat := 5.
Definition V_APF1 : nat := 6.
Definition V_APF2 : nat := 7.
Definition V_LIN : nat := 8.
Definition V_RIN : nat := 9.

Definition normalize_address (address : Z) : Z :=
  (address .& (SOUND_RAM_SIZE - 1)) .& bnot 64 1.

Definition signed (value : Z) : Z := to_i 16 value.

Definition clamp_i64_to_i16 (value : Z) : Z :=
  if value <? I16_MIN then I16_MIN else if I16_MAX <? value then I16_MAX else value.

Record Effects := mkEffects { cursor : Z }.

Module Effects.
Section error.
Context {E : Type}.

Definition new : Effects := mkEffects 0.

Definition set_start (start : Z) (e : Effects) : Effects := mkEffects (normalize_address start).

(** [length = end - start + 1] is computed on addresses the caller has ordered. *)
Definition memory_address (e : Effects) (start end_ offset extra : Z) : outcome E Z :=
  let? distance := expect (checked_sub_u end_ start) in
  let? address := expect (RingBufferAddress.new start (distance + 1)) in
  let current := Z.max 0 (cursor e - start) in
  let signed_offset := to_i 32 offset * 8 in
  expect (RingBufferAddress.get
            (RingBufferAddress.advance (current + signed_offset + extra) address)).

Definition read (e : Effects) (ram : Buffer) (start end_ offset extra : Z) : outcome E Z :=
  let? address := memory_address e start end_ offset extra in
  let? value :=
    let? low := expect (Buffer.get ram address) in
    let? high := expect (Buffer.get ram (address + 1)) in
    Ok (from_le [low; high]) in
  Ok (signed value).

Definition write (e : Effects) (ram : Buffer) (start end_ offset value : Z) : outcome E Buffer :=
  let? address := memory_address e start end_ offset 0 in
  let? ram := expect (Buffer.set ram address (of_i 16 value mod 256)) in
  expect (Buffer.set ram (address + 1) (of_i 16 value / 256)).

Definition reflection (e : Effects) (ram : Buffer)
    (start end_ input source destination wall_volume iir_volume : Z) : outcome E Z :=
  let? s := read e ram start end_ source 0 in
  let wall := multiply_q15 s wall_volume in
  let? old := read e ram start end_ destination (-2) in
  let incident := clamp_i16 (saturating_s 32 (input + wall)) in
  let delta := clamp_i16 (incident - old) in
  Ok (clamp_i16 (saturating_s 32 (multiply_q15 delta iir_volume + old))).

Fixpoint comb_sum (e : Effects) (ram : Buffer) (start end_ : Z) (terms : list (Z * Z)) (sum : Z)
    : outcome E Z :=
  match terms with
  | [] => Ok (clamp_i64_to_i16 sum)
  | (source, volume) :: terms =>
      let? s := read e ram start end_ source 0 in
      comb_sum e ram start end_ terms (sum + multiply_q15 s volume)
  end.

Definition comb (e : Effects) (ram : Buffer) (start end_ : Z) (sources volumes : list Z)
    : outcome E Z := comb_sum e ram start end_ (zip sources volumes) 0.

Definition all_pass (e : Effects) (ram : Buffer)
    (start end_ input destination feedback_source volume : Z) (writes_enabled : bool)
    : outcome E (Z * Buffer) :=
  let? feedback := read e ram start end_ feedback_source 0 in
  let stored := clamp_i16 (input - multiply_q15 feedback volume) in
  let? ram := if writes_enabled then write e ram start end_ destination stored else Ok ram in
  Ok (clamp_i16 (saturating_s 32 (multiply_q15 stored volume + feedback)), ram).

(** [addresses[i]] and [volume(i)], the constants being inside the two arrays *)
Definition address_of (addresses : list Z) (i : nat) : outcome E Z := expect (addresses !! i).
Definition volume_of (coefficients : list Z) (i : nat) : outcome E Z :=
  omapok signed (expect (coefficients !! i)).

(** The four reflections are computed before any of them is stored. *)
Definition reflections (e : Effects) (ram : Buffer) (start end_ : Z)
    (addresses coefficients : list Z) (left right : Z) : outcome E Buffer :=
  let? wall := volume_of coefficients V_WALL in
  let? iir := volume_of coefficients V_IIR in
  let reflect input source destination :=
    let? source := address_of addresses source in
    let? destination := address_of addresses destination in
    reflection e ram start end_ input source destination wall iir in
  let? left_same := reflect left D_LSAME M_LSAME in
  let? right_same := reflect right D_RSAME M_RSAME in
  let? left_different := reflect left D_RDIFF M_LDIFF in
  let? right_different := reflect right D_LDIFF M_RDIFF in
  let store ram destination value :=
    let? destination := address_of addresses destination in
    write e ram start end_ destination value in
  let? ram := store ram M_LSAME left_same in
  let? ram := store ram M_RSAME right_same in
  let? ram := store ram M_LDIFF left_different in
  store ram M_RDIFF right_different.

(** One all-pass stage of a channel: [apf - displacement] feeds back. *)
Definition all_pass_stage (e : Effects) (ram : Buffer) (start end_ : Z)
    (addresses coefficients : list Z) (input : Z) (apf displacement volume : nat)
    (writes_enabled : bool) : outcome E (Z * Buffer) :=
  let? destination := address_of addresses apf in
  let? displacement := address_of addresses displacement in
  let? volume := volume_of coefficients volume in
  all_pass e ram start end_ input destination (wrap 32 (destination - displacement))
    volume writes_enabled.

(** The four sources of one channel's comb filter. *)
Definition comb_of (e : Effects) (ram : Buffer) (start end_ : Z) (addresses volumes : list Z)
    (i1 i2 i3 i4 : nat) : outcome E Z :=
  let? s1 := address_of addresses i1 in let? s2 := address_of addresses i2 in
  let? s3 := address_of addresses i3 in let? s4 := address_of addresses i4 in
  comb e ram start end_ [s1; s2; s3; s4] volumes.

Definition process (ram : Buffer) (start end_ : Z) (addresses coefficients : list Z)
    (writes_enabled : bool) (input : Z * Z) (e : Effects)
    : outcome E ((Z * Z) * Buffer * Effects) :=
  let start := normalize_address start in
  let end_ := normalize_address end_ .| 1 in
  if (SOUND_RAM_SIZE <=? start) || (end_ <? start) then Ok ((0, 0), ram, e)
  else
    let e := if (cursor e <? start) || (end_ <? cursor e) then mkEffects start else e in
    let? lin := volume_of coefficients V_LIN in
    let? rin := volume_of coefficients V_RIN in
    let left := clamp_i16 (multiply_q15 input.1 lin) in
    let right := clamp_i16 (multiply_q15 input.2 rin) in
    let? ram :=
      if writes_enabled then reflections e ram start end_ addresses coefficients left right
      else Ok ram in
    let? vc1 := volume_of coefficients V_COMB1 in let? vc2 := volume_of coefficients V_COMB2 in
    let? vc3 := volume_of coefficients V_COMB3 in let? vc4 := volume_of coefficients V_COMB4 in
    let volumes := [vc1; vc2; vc3; vc4] in
    let? left := comb_of e ram start end_ addresses volumes M_LCOMB1 M_LCOMB2 M_LCOMB3 M_LCOMB4 in
    let? right := comb_of e ram start end_ addresses volumes M_RCOMB1 M_RCOMB2 M_RCOMB3 M_RCOMB4 in
    let stage ram input apf displacement volume :=
      all_pass_stage e ram start end_ addresses coefficients input apf displacement volume
        writes_enabled in
    let? (left, ram) := stage ram left M_LAPF1 D_APF1 V_APF1 in
    let? (right, ram) := stage ram right M_RAPF1 D_APF1 V_APF1 in
    let? (left, ram) := stage ram left M_LAPF2 D_APF2 V_APF2 in
    let? (right, ram) := stage ram right M_RAPF2 D_APF2 V_APF2 in
    let next := cursor e + 2 in
    Ok ((left, right), ram, mkEffects (if end_ <? next then start else next)).
End error.
End Effects.
