(* ===== verification/Ps2Spu.v ===== *)
(** * PS2 sound processing unit: crates/hw/ps2/spu2/src/lib.rs

    Two cores of twenty-four ADPCM voices over one sound RAM, the register file they
    share, the transfer port of each core with its address interrupt, and the mixer in
    which core 0 is an input of core 1.  The interpolation weights are the table the
    shared SPU code computes with the platform's floating point; they are the parameter
    [weights].  The mixer's 64-bit accumulators add at most twenty-seven samples of
    sixteen bits and are exact. *)

From S2P Require Import Prelude Records MachineInt Buffer Ps2Irq.
From S2P Require Import SpuCommon Ps2Dma Ps2Effects.

Definition CORE_COUNT : nat := 2.
Definition VOICES_PER_CORE : nat := 24.
Definition SAMPLE_RATE : Z := 48000.
Definition SPU2_BASE : Z := 0x1f900000.
Definition SPU2_END : Z := 0x1f90ffff.

Definition MMIX_INPUT_A_EFFECT_RIGHT : Z := Z.shiftl 1 0.
Definition MMIX_INPUT_A_EFFECT_LEFT : Z := Z.shiftl 1 1.
Definition MMIX_INPUT_A_DRY_RIGHT : Z := Z.shiftl 1 2.
Definition MMIX_INPUT_A_DRY_LEFT : Z := Z.shiftl 1 3.
Definition MMIX_INPUT_B_EFFECT_RIGHT : Z := Z.shiftl 1 4.
Definition MMIX_INPUT_B_EFFECT_LEFT : Z := Z.shiftl 1 5.
Definition MMIX_INPUT_B_DRY_RIGHT : Z := Z.shiftl 1 6.
Definition MMIX_INPUT_B_DRY_LEFT : Z := Z.shiftl 1 7.
Definition MMIX_VOICE_EFFECT_RIGHT : Z := Z.shiftl 1 8.
Definition MMIX_VOICE_EFFECT_LEFT : Z := Z.shiftl 1 9.
Definition MMIX_VOICE_DRY_RIGHT : Z := Z.shiftl 1 10.
Definition MMIX_VOICE_DRY_LEFT : Z := Z.shiftl 1 11.

Definition CORE_ATTR_ENABLE : Z := Z.shiftl 1 15.
Definition CORE_ATTR_UNMUTE : Z := Z.shiftl 1 14.
Definition CORE_ATTR_EFFECT_ENABLE : Z := Z.shiftl 1 7.
Definition CORE_ATTR_IRQ_ENABLE : Z := Z.shiftl 1 6.
Definition CORE_ATTR_EXTERNAL_ENABLE : Z := 1.

Definition REGISTER_HALFWORDS : nat := 0x400.
Definition REGISTER_END : Z := 0x7ff.
Definition CORE_STRIDE : Z := 0x400.
Definition VOICE_PARAMETER_END : Z := 0x180.
Definition VOICE_STRIDE : Z := 0x10.
Definition VOICE_ADDRESS_BASE : Z := 0x1c0.
Definition VOICE_ADDRESS_STRIDE : Z := 0x0c.
Definition PRIMARY_BASE : Z := 0x760.
Definition PRIMARY_STRIDE : Z := 0x28.
Definition IRQ_INFO : Z := 0x7c2.
Definition RAM_MASK : Z := SOUND_RAM_SIZE - 1.

Definition PMON_HIGH : Z := 0x180.
Definition PMON_LOW : Z := 0x182.
Definition NON_HIGH : Z := 0x184.
Definition NON_LOW : Z := 0x186.
Definition VMIXL_HIGH : Z := 0x188.
Definition VMIXL_LOW : Z := 0x18a.
Definition VMIXEL_HIGH : Z := 0x18c.
Definition VMIXEL_LOW : Z := 0x18e.
Definition VMIXR_HIGH : Z := 0x190.
Definition VMIXR_LOW : Z := 0x192.
Definition VMIXER_HIGH : Z := 0x194.
Definition VMIXER_LOW : Z := 0x196.
Definition MMIX : Z := 0x198.
Definition CORE_ATTR : Z := 0x19a.
Definition IRQA_HIGH : Z := 0x19c.
Definition IRQA_LOW : Z := 0x19e.
Definition KEY_ON_HIGH : Z := 0x1a0.
Definition KEY_ON_LOW : Z := 0x1a2.
Definition KEY_OFF_HIGH : Z := 0x1a4.
Definition KEY_OFF_LOW : Z := 0x1a6.
Definition TSA_HIGH : Z := 0x1a8.
Definition TSA_LOW : Z := 0x1aa.
Definition TRANSFER_DATA : Z := 0x1ac.
Definition EFFECT_START_HIGH : Z := 0x2e0.
Definition EFFECT_START_LOW : Z := 0x2e2.
Definition EFFECT_ADDRESS_FIRST : Z := 0x2e4.
Definition EFFECT_ADDRESS_LAST : Z := 0x33a.
Definition EFFECT_END_HIGH : Z := 0x33c.
Definition EFFECT_END_LOW : Z := 0x33e.
Definition ENDX_HIGH : Z := 0x340.
Definition ENDX_LOW : Z := 0x342.
Definition STATUS : Z := 0x344.
Definition STATUS_DMA_READY : Z := Z.shiftl 1 7.
Definition CORE_ATTR_DMA_MASK : Z := Z.shiftl 3 4.

Record StereoFrame := mkFrame { left : Z; right : Z }.
Definition default_frame : StereoFrame := mkFrame 0 0.

Record CoreInput := mkInput { input_a : StereoFrame; input_b : StereoFrame }.
Definition default_input : CoreInput := mkInput default_frame default_frame.

Record RenderedFrame := mkRendered {
  frame_cores : StereoFrame * StereoFrame;
  final_output : StereoFrame;
}.

Inductive Spu2Error :=
| InvalidRegister (address : Z)
| RamRange (offset size : Z)
| OutputSize (expected actual : Z)
| InputSize (expected actual : Z)
| Adpcm (core voice address : Z) (source : AdpcmError).

#[export] Instance display_spu2_error : Display Spu2Error := fun e =>
  match e with
  | InvalidRegister a => String.append "invalid SPU2 register address " (hex8 a)
  | RamRange offset size =>
      String.append "SPU2 sound-RAM range " (String.append (hex offset)
        (String.append "..+" (String.append (hex size) " is out of bounds")))
  | OutputSize expected actual =>
      String.append "SPU2 output has " (String.append (decimal actual)
        (String.append " samples, expected " (decimal expected)))
  | InputSize expected actual =>
      String.append "SPU2 input has " (String.append (decimal actual)
        (String.append " frames, expected " (decimal expected)))
  | Adpcm core voice address (InvalidShift shift) =>
      String.append "SPU2 core " (String.append (decimal core)
        (String.append " voice " (String.append (decimal voice)
          (String.append " ADPCM failure at 0x" (hex_digits 6 address
            (String.append ": invalid PlayStation ADPCM shift " (decimal shift)))))))
  end.

(** ** Register arithmetic *)

Definition normalize_ram_address (address : Z) : Z := (address .& RAM_MASK) .& bnot 64 1.

Definition decode_register (address : Z) : outcome Spu2Error Z :=
  if negb ((SPU2_BASE <=? address) && (address <=? SPU2_END)) || has_bits address 1
  then Err (InvalidRegister address) else Ok (address - SPU2_BASE).

Definition register_index (offset : Z) : nat := Z.to_nat (offset / 2).

Definition decode_core_register (offset : Z) : option (nat * Z) :=
  if offset <? CORE_STRIDE then Some (0%nat, offset)
  else if offset <? PRIMARY_BASE then Some (1%nat, offset - CORE_STRIDE)
  else None.

Definition decode_primary_register (offset : Z) : option (nat * Z) :=
  if (PRIMARY_BASE <=? offset) && (offset <? PRIMARY_BASE + PRIMARY_STRIDE)
  then Some (0%nat, offset - PRIMARY_BASE)
  else if (PRIMARY_BASE + PRIMARY_STRIDE <=? offset) &&
          (offset <? PRIMARY_BASE + PRIMARY_STRIDE * 2)
  then Some (1%nat, offset - PRIMARY_BASE - PRIMARY_STRIDE)
  else None.

Definition decode_voice_address (local : Z) : option (nat * Z) :=
  let end_ := VOICE_ADDRESS_BASE + VOICE_ADDRESS_STRIDE * Z.of_nat VOICES_PER_CORE in
  if negb ((VOICE_ADDRESS_BASE <=? local) && (local <? end_)) then None
  else
    let relative := local - VOICE_ADDRESS_BASE in
    Some (Z.to_nat (relative / VOICE_ADDRESS_STRIDE), relative mod VOICE_ADDRESS_STRIDE).

Definition decode_sound_address (high low : Z) : Z :=
  (shl 32 high 17 .| Z.shiftl (low .& 0xfff8) 1) .& RAM_MASK.

Definition decode_effect_offset (high low : Z) : Z := Z.shiftl high 14 .| Z.shiftr low 2.

Definition decode_effect_end (high : Z) : Z := (shl 32 high 17 .| 0x1ffff) .& RAM_MASK.

Definition address_half (address : Z) (high : bool) : Z :=
  if high then default 0 (try_from_u 16 (Z.shiftr address 17))
  else default 0 (try_from_u 16 (Z.shiftr address 1 .& 0xfff8)).

Definition high_switch_half (value : Z) : Z := default 0 (try_from_u 16 (value .& 0xffff)).
Definition low_switch_half (value : Z) : Z :=
  default 0 (try_from_u 16 (Z.shiftr value 16 .& 0xff)).

Definition set_high_switch_half (target value : Z) : Z := (target .& 0x00ff0000) .| value.
Definition set_low_switch_half (target value : Z) : Z :=
  (target .& 0x0000ffff) .| Z.shiftl (value .& 0xff) 16.

Definition direct_volume (register : Z) : Z :=
  let direct := register .& 0x7fff in
  if has_bits direct 0x4000 then direct - 0x8000 else direct.

(** The [i16] conversion always fits; its bytes are read back unsigned. *)
Definition current_volume (register : Z) : Z :=
  of_i 16 (default 0 (checked_s 16 (direct_volume register))).

Definition apply_volume (sample register : Z) : Z :=
  clamp_i16 (Z.shiftr (sample * direct_volume register) 14).

Definition apply_signed_volume (sample register : Z) : Z :=
  clamp_i16 (Z.shiftr (sample * to_i 16 register) 15).

Definition modulated_pitch (base previous : Z) : Z :=
  let factor := previous + 0x8000 in
  let pitch := Z.shiftr (base * factor) 15 in
  default 0 (try_from_u 16 (Z.max 0 (Z.min 0x3fff pitch))).

(** ** Voices *)

Record PreparedBlock := mkPrepared {
  pb_address : Z;
  pb_decoded : DecodedBlock;
  history_before : AdpcmHistory;
}.

Record Voice := mkVoice {
  volume_left : Z;
  volume_right : Z;
  pitch : Z;
  adsr_low : Z;
  adsr_high : Z;
  start_address : Z;
  repeat_address : Z;
  repeat_address_written : bool;
  current_address : Z;
  current_block_address : Z;
  decoded : list Z;
  decoded_flags : AdpcmFlags;
  decoded_valid : bool;
  prepared : option PreparedBlock;
  sample_index : Z;
  history : AdpcmHistory;
  envelope : Envelope;
  pitch_counter : PitchCounter;
  active : bool;
}.

#[export] Instance Voice_fields : Fields Voice := fun v =>
  mkVoice (volume_left v) (volume_right v) (pitch v) (adsr_low v) (adsr_high v)
    (start_address v) (repeat_address v) (repeat_address_written v) (current_address v)
    (current_block_address v) (decoded v) (decoded_flags v) (decoded_valid v) (prepared v)
    (sample_index v) (history v) (envelope v) (pitch_counter v) (active v).

Definition default_voice : Voice :=
  mkVoice 0 0 0 0 0 0 0 false 0 0 (replicate 28 0) (mkFlags false false false) false None 0
    default_history Envelope.new PitchCounter.new false.

Record VoiceOutput := mkOutput { dry : Z; fetched : option Z; loop_end : bool }.
Definition default_output : VoiceOutput := mkOutput 0 None false.

(** [(usize, AdpcmError)], the failure of a block *)
Notation block_error := (Z * AdpcmError)%type.

Fixpoint fetch_block (ram : Buffer) (address : Z) (n : nat) : outcome block_error (list Z) :=
  match n with
  | O => Ok []
  | S n =>
      let? b := expect (Buffer.get ram (address .& RAM_MASK)) in
      let? rest := fetch_block ram (address + 1) n in
      Ok (b :: rest)
  end.

Definition decode_block_at (ram : Buffer) (address : Z) (h : AdpcmHistory)
    : outcome block_error DecodedBlock * AdpcmHistory :=
  match fetch_block ram address 16 with
  | Ok block =>
      let (r, h) := decode_block block h in (map_err (fun e => (address, e)) r, h)
  | Err e => (Err e, h)
  | Panic => (Panic, h)
  end.

Module Voice.
Section weights.
Context (weights : Z -> list Z).

Definition key_on (v : Voice) : Voice :=
  let start := normalize_ram_address (start_address v) in
  v <| repeat_address_written := false |>
    <| current_address := start |>
    <| current_block_address := start |>
    <| decoded_valid := false |>
    <| prepared := None |>
    <| sample_index := 0 |>
    <| history := default_history |>
    <| envelope := Envelope.key_on (envelope v) |>
    <| pitch_counter := PitchCounter.reset (pitch_counter v) |>
    <| active := true |>.

Definition key_off (v : Voice) : Voice := v <| envelope := Envelope.key_off (envelope v) |>.

Definition apply_envelope (sample : Z) (v : Voice) : outcome block_error Z * Voice :=
  let config := EnvelopeConfig.from_registers (adsr_low v) (adsr_high v) in
  match Envelope.advance config 1 (envelope v) with
  | Ok e =>
      let v := v <| envelope := e |> in
      let v := if bool_decide (env_phase e = Off) then v <| active := false |> else v in
      (Ok (clamp_i16 (Z.shiftr (sample * level e) 15)), v)
  | _ => (Panic, v)
  end.

Definition window_sample (v : Voice) (relative : Z) : outcome block_error Z :=
  let index := sample_index v + relative in
  let length := Z.of_nat (length (decoded v)) in
  match decoded v !! Z.to_nat index with
  | Some sample => Ok sample
  | None =>
      match (p ← prepared v; samples (pb_decoded p) !! Z.to_nat (index - length)) with
      | Some sample => Ok sample
      | None => expect (decoded v !! Z.to_nat (length - 1))
      end
  end.

Definition interpolation_window (v : Voice) : outcome block_error (list Z) :=
  let? s0 := window_sample v 0 in
  let? s1 := window_sample v 1 in
  let? s2 := window_sample v 2 in
  let? s3 := window_sample v 3 in
  Ok [s0; s1; s2; s3].

Definition next_block_address (v : Voice) : option Z :=
  if end_ (decoded_flags v) then
    if repeat_ (decoded_flags v) then Some (normalize_ram_address (repeat_address v)) else None
  else Some ((current_block_address v + 16) .& RAM_MASK).

Definition install_block (address : Z) (block : DecodedBlock) (v : Voice) : Voice :=
  let v := v <| decoded := samples block |>
             <| decoded_flags := flags block |>
             <| current_block_address := address |>
             <| current_address := address |> in
  let v :=
    if loop_start (flags block) && negb (repeat_address_written v)
    then v <| repeat_address := default 0 (try_from_u 32 address) |> else v in
  v <| sample_index := 0 |> <| decoded_valid := true |>.

Definition decode_current (ram : Buffer) (v : Voice) : outcome block_error Z * Voice :=
  let address := current_address v .& RAM_MASK in
  let (r, h) := decode_block_at ram address (history v) in
  let v := v <| history := h |> in
  let! (block, v) := (r, v) in
  (Ok address, install_block address block v).

Definition prepare_next (ram : Buffer) (v : Voice) : outcome block_error (option Z) * Voice :=
  match prepared v with
  | Some _ => (Ok None, v)
  | None =>
      match next_block_address v with
      | None => (Ok None, v)
      | Some address =>
          let before := history v in
          let (r, h) := decode_block_at ram address (history v) in
          let v := v <| history := h |> in
          let! (block, v) := (r, v) in
          (Ok (Some address), v <| prepared := Some (mkPrepared address block before) |>)
      end
  end.

(** The next block of a voice that goes on. *)
Definition continue_at (next_address : Z) (v : Voice) : Voice :=
  let v := v <| current_address := next_address |> in
  match prepared v with
  | None => v
  | Some p =>
      let v := v <| prepared := None |> in
      if pb_address p =? next_address then install_block (pb_address p) (pb_decoded p) v
      else v <| history := history_before p |>
  end.

(** Whether the voice stopped. *)
Definition finish_block (v : Voice) : bool * Voice :=
  let f := decoded_flags v in
  let v := v <| decoded_valid := false |> <| sample_index := 0 |> in
  if end_ f && negb (repeat_ f) then
    (true, v <| envelope := Envelope.new |> <| active := false |> <| prepared := None |>)
  else
    let next := if end_ f then normalize_ram_address (repeat_address v)
                else (current_block_address v + 16) .& RAM_MASK in
    (false, continue_at next v).

(** The samples stepped over: the address fetched last, whether a loop end was passed and
    whether the voice stopped. *)
Fixpoint step_samples (n : nat) (ram : Buffer) (last : option Z) (ended : bool) (v : Voice)
    : outcome block_error (option Z * bool * bool) * Voice :=
  match n with
  | O => (Ok (last, ended, false), v)
  | S n =>
      let v := v <| sample_index := sample_index v + 1 |> in
      if sample_index v =? Z.of_nat (length (decoded v)) then
        let ended := ended || end_ (decoded_flags v) in
        let (stopped, v) := finish_block v in
        if stopped : bool then (Ok (last, ended, true), v)
        else if decoded_valid v then step_samples n ram last ended v
        else
          let! (address, v) := decode_current ram v in
          step_samples n ram (Some address) ended v
      else step_samples n ram last ended v
  end.

(** The decoded source of one output sample. *)
Definition render_source (ram : Buffer) (effective_pitch : Z) (v : Voice)
    : outcome block_error (Z * option Z * bool) * Voice :=
  let! (last, v) :=
    if decoded_valid v then (Ok None, v)
    else let! (address, v) := decode_current ram v in (Ok (Some address), v) in
  let! (last, v) :=
    if Z.of_nat (length (decoded v)) <=? sample_index v + 3 then
      let! (next, v) := prepare_next ram v in
      (Ok (match next with Some address => Some address | None => last end), v)
    else (Ok last, v) in
  let phase := Z.shiftr (phase (pitch_counter v)) 4 .& 0xff in
  let! (window, v) := (interpolation_window v, v) in
  match GaussianInterpolator.interpolate weights window phase with
  | Ok sample =>
      let (advance, counter) := PitchCounter.advance effective_pitch (pitch_counter v) in
      let v := v <| pitch_counter := counter |> in
      let! (stepped, v) :=
        step_samples (Z.to_nat (whole_samples advance)) ram last false v in
      (Ok (sample, stepped.1.1, stepped.1.2), v)
  | _ => (Panic, v)
  end.

Definition render (ram : Buffer) (effective_pitch : Z) (noise : option Z) (v : Voice)
    : outcome block_error VoiceOutput * Voice :=
  if negb (active v) then (Ok default_output, v)
  else
    let! (source, v) :=
      match noise with
      | Some noise => (Ok (noise, None, false), v)
      | None => render_source ram effective_pitch v
      end in
    let! (out, v) := apply_envelope source.1.1 v in
    (Ok (mkOutput out source.1.2 source.2), v).
End weights.
End Voice.

(** ** Cores *)

Record Core := mkCore {
  voices : list Voice;
  pitch_mod_mask : Z;
  noise_mask : Z;
  voice_dry_left : Z;
  voice_dry_right : Z;
  voice_effect_left : Z;
  voice_effect_right : Z;
  mix : Z;
  attributes : Z;
  endx : Z;
  key_on_pending : Z;
  key_off_pending : Z;
  irq_address : Z;
  transfer_address : Z;
  effect_start : Z;
  effect_end : Z;
  effect_addresses : list Z;
  effect_coefficients : list Z;
  master_volume : Z * Z;
  effect_volume : Z * Z;
  input_a_volume : Z * Z;
  input_b_volume : Z * Z;
  effects : Effects;
  noise : NoiseGenerator;
  irq_request : bool;
  core_status : Z;
}.

#[export] Instance Core_fields : Fields Core := fun c =>
  mkCore (voices c) (pitch_mod_mask c) (noise_mask c) (voice_dry_left c) (voice_dry_right c)
    (voice_effect_left c) (voice_effect_right c) (mix c) (attributes c) (endx c)
    (key_on_pending c) (key_off_pending c) (irq_address c) (transfer_address c)
    (effect_start c) (effect_end c) (effect_addresses c) (effect_coefficients c)
    (master_volume c) (effect_volume c) (input_a_volume c) (input_b_volume c) (effects c)
    (noise c) (irq_request c) (core_status c).

Definition default_core : Core :=
  mkCore (replicate VOICES_PER_CORE default_voice) 0 0 0 0 0 0 0 0 0 0 0 0 0 0
    (default 0 (try_from_u 32 (SOUND_RAM_SIZE - 1))) (replicate 22 0) (replicate 10 0)
    (0, 0) (0, 0) (0, 0) (0, 0) Effects.new NoiseGenerator.default false 0.

(** The sums of one frame and the output of the voice before. *)
Record Mix := mkMix {
  dry_left : Z; dry_right : Z; wet_left : Z; wet_right : Z; mix_previous : Z;
}.

Definition add_if (enabled : bool) (sum sample : Z) : Z := if enabled then sum + sample else sum.

Module Core.

Definition key_on (mask : Z) (c : Core) : Core :=
  c <| key_on_pending := key_on_pending c .| mask |>.

Definition key_off (mask : Z) (c : Core) : Core :=
  c <| key_off_pending := key_off_pending c .| mask |>.

(** The voices from [index] on, with the end flags that key-on clears. *)
Fixpoint switch_voices (index on off : Z) (vs : list Voice) (endx : Z) : list Voice * Z :=
  match vs with
  | [] => ([], endx)
  | v :: vs =>
      let bit := shl 32 1 index in
      let v := if has_bits off bit then Voice.key_off v else v in
      let (v, endx) :=
        if has_bits on bit then (Voice.key_on v, endx .& bnot 32 bit) else (v, endx) in
      let (vs, endx) := switch_voices (index + 1) on off vs endx in
      (v :: vs, endx)
  end.

Definition apply_key_switches (c : Core) : Core :=
  let off := key_off_pending c in
  let on := key_on_pending c in
  let c := c <| key_off_pending := 0 |> <| key_on_pending := 0 |> in
  let (vs, e) := switch_voices 0 on off (voices c) (endx c) in
  c <| voices := vs |> <| endx := e |>.

Definition check_irq_address (address : Z) (c : Core) : Core :=
  if has_bits (attributes c) CORE_ATTR_IRQ_ENABLE &&
     (address .& bnot 64 0xf =? normalize_ram_address (irq_address c) .& bnot 64 0xf)
  then c <| irq_request := true |> else c.

Definition check_irq_fetch (address : Z) (c : Core) : Core :=
  check_irq_address ((address + 8) .& RAM_MASK) (check_irq_address address c).

Definition write_transfer_halfword {E} (value : Z) (ram : Buffer) (c : Core)
    : outcome E unit * (Buffer * Core) :=
  let address := normalize_ram_address (transfer_address c) in
  let c := check_irq_address address c in
  match Buffer.set ram address (value mod 256) with
  | None => (Panic, (ram, c))
  | Some ram =>
      match Buffer.set ram ((address + 1) .& RAM_MASK) (value / 256) with
      | None => (Panic, (ram, c))
      | Some ram =>
          (Ok tt, (ram, c <| transfer_address :=
             default 0 (try_from_u 32 ((address + 2) .& RAM_MASK)) |>))
      end
  end.

Definition read_transfer_halfword {E} (ram : Buffer) (c : Core) : outcome E Z * Core :=
  let address := normalize_ram_address (transfer_address c) in
  let c := check_irq_address address c in
  match (low ← Buffer.get ram address;
         high ← Buffer.get ram ((address + 1) .& RAM_MASK);
         Some (from_le [low; high])) with
  | None => (Panic, c)
  | Some value =>
      (Ok value, c <| transfer_address :=
         default 0 (try_from_u 32 ((address + 2) .& RAM_MASK)) |>)
  end.

Section weights.
Context (weights : Z -> list Z).

(** One voice of the frame. *)
Definition render_voice (core_index : nat) (ram : Buffer) (index : Z) (m : Mix) (c : Core)
    : outcome Spu2Error Mix * Core :=
  match voices c !! Z.to_nat index with
  | None => (Panic, c)
  | Some v =>
      let bit := shl 32 1 index in
      let effective :=
        if negb (index =? 0) && has_bits (pitch_mod_mask c) bit
        then modulated_pitch (pitch v) (mix_previous m) else pitch v in
      let (noise_sample, c) :=
        if has_bits (noise_mask c) bit then
          let (sample, g) := NoiseGenerator.step (noise c) in
          (Some sample, c <| noise := g |>)
        else (None, c) in
      let (r, v) := Voice.render weights ram effective noise_sample v in
      let c := c <| voices := <[Z.to_nat index := v]> (voices c) |> in
      let! (out, c) := (map_err (fun e => Adpcm (Z.of_nat core_index) index e.1 e.2) r, c) in
      let c := match fetched out with Some a => check_irq_fetch a c | None => c end in
      let c := if loop_end out then c <| endx := endx c .| bit |> else c in
      let left := apply_volume (dry out) (volume_left v) in
      let right := apply_volume (dry out) (volume_right v) in
      let routed mask flag := has_bits (mask c) bit && has_bits (mix c) flag in
      (Ok (mkMix
         (add_if (routed voice_dry_left MMIX_VOICE_DRY_LEFT) (dry_left m) left)
         (add_if (routed voice_dry_right MMIX_VOICE_DRY_RIGHT) (dry_right m) right)
         (add_if (routed voice_effect_left MMIX_VOICE_EFFECT_LEFT) (wet_left m) left)
         (add_if (routed voice_effect_right MMIX_VOICE_EFFECT_RIGHT) (wet_right m) right)
         (dry out)), c)
  end.

Fixpoint render_voices (core_index : nat) (ram : Buffer) (index : Z) (n : nat) (m : Mix)
    (c : Core) : outcome Spu2Error Mix * Core :=
  match n with
  | O => (Ok m, c)
  | S n =>
      let! (m, c) := render_voice core_index ram index m c in
      render_voices core_index ram (index + 1) n m c
  end.

Definition mix_input (input : StereoFrame) (volume : Z * Z) (is_input_a : bool) (m : Mix)
    (c : Core) : Mix :=
  let l := apply_signed_volume (left input) volume.1 in
  let r := apply_signed_volume (right input) volume.2 in
  let route a b := has_bits (mix c) (if is_input_a then a else b) in
  mkMix
    (add_if (route MMIX_INPUT_A_DRY_LEFT MMIX_INPUT_B_DRY_LEFT) (dry_left m) l)
    (add_if (route MMIX_INPUT_A_DRY_RIGHT MMIX_INPUT_B_DRY_RIGHT) (dry_right m) r)
    (add_if (route MMIX_INPUT_A_EFFECT_LEFT MMIX_INPUT_B_EFFECT_LEFT) (wet_left m) l)
    (add_if (route MMIX_INPUT_A_EFFECT_RIGHT MMIX_INPUT_B_EFFECT_RIGHT) (wet_right m) r)
    (mix_previous m).

(** The wet path of the frame: the effect output and the sound RAM it wrote. *)
Definition run_effects (ram : Buffer) (m : Mix) (c : Core)
    : outcome Spu2Error (Z * Z) * (Buffer * Core) :=
  if has_bits (attributes c) CORE_ATTR_EFFECT_ENABLE then
    match Effects.process ram (effect_start c) (effect_end c) (effect_addresses c)
            (effect_coefficients c) true
            (clamp_i64_to_i16 (wet_left m), clamp_i64_to_i16 (wet_right m)) (effects c) with
    | Ok (wet, ram, fx) => (Ok wet, (ram, c <| effects := fx |>))
    | Err e => (Err e, (ram, c))
    | Panic => (Panic, (ram, c))
    end
  else (Ok (0, 0), (ram, c)).

Definition render (core_index : nat) (ram : Buffer) (input : CoreInput) (c : Core)
    : outcome Spu2Error StereoFrame * (Buffer * Core) :=
  let c := apply_key_switches c in
  if negb (has_bits (attributes c) CORE_ATTR_ENABLE) then (Ok default_frame, (ram, c))
  else
    let (r, c) := render_voices core_index ram 0 VOICES_PER_CORE (mkMix 0 0 0 0 0) c in
    let! (m, s) := (r, (ram, c)) in
    let m :=
      if has_bits (attributes c) CORE_ATTR_EXTERNAL_ENABLE
      then mix_input (input_a input) (input_a_volume c) true m c else m in
    let m := mix_input (input_b input) (input_b_volume c) false m c in
    let! (effect, s) := run_effects ram m c in
    let (ram, c) := s : Buffer * Core in
    let left := dry_left m + apply_signed_volume effect.1 (effect_volume c).1 in
    let right := dry_right m + apply_signed_volume effect.2 (effect_volume c).2 in
    if negb (has_bits (attributes c) CORE_ATTR_UNMUTE) then (Ok default_frame, (ram, c))
    else
      (Ok (mkFrame (apply_volume (clamp_i64_to_i16 left) (master_volume c).1)
             (apply_volume (clamp_i64_to_i16 right) (master_volume c).2)), (ram, c)).
End weights.
End Core.

(** ** The unit *)

Record Spu2 := mkSpu2 {
  spu_ram : Buffer;
  cores : list Core;
  registers : list Z;
  irq_info : Z;
}.

#[export] Instance Spu2_fields : Fields Spu2 := fun s =>
  mkSpu2 (spu_ram s) (cores s) (registers s) (irq_info s).

(** The register of a voice's parameter block. *)
Definition voice_parameter (register : Z) (v : Voice) : option Z :=
  if register =? 0 then Some (volume_left v)
  else if register =? 2 then Some (volume_right v)
  else if register =? 4 then Some (pitch v)
  else if register =? 6 then Some (adsr_low v)
  else if register =? 8 then Some (adsr_high v)
  else if register =? 0x0a then Some (level (envelope v))
  else if register =? 0x0c then Some (current_volume (volume_left v))
  else if register =? 0x0e then Some (current_volume (volume_right v))
  else None.

Definition set_voice_parameter (register value : Z) (v : Voice) : Voice :=
  if register =? 0 then v <| volume_left := value |>
  else if register =? 2 then v <| volume_right := value |>
  else if register =? 4 then v <| pitch := Z.min value 0x3fff |>
  else if register =? 6 then v <| adsr_low := value |>
  else if register =? 8 then v <| adsr_high := value |>
  else v.

(** The register of a voice's address block. *)
Definition voice_address_register (register : Z) (v : Voice) : option Z :=
  if (register =? 0) || (register =? 2)
  then Some (address_half (start_address v) (register =? 0))
  else if (register =? 4) || (register =? 6)
  then Some (address_half (repeat_address v) (register =? 4))
  else if (register =? 8) || (register =? 10)
  then Some (address_half (default 0 (try_from_u 32 (current_address v))) (register =? 8))
  else None.

Definition set_voice_address (register address : Z) (v : Voice) : Voice :=
  if (register =? 0) || (register =? 2) then v <| start_address := address |>
  else if (register =? 4) || (register =? 6)
  then v <| repeat_address := address |> <| repeat_address_written := true |>
  else v.

(** [array[index] = value] on a pair *)
Definition set_first (p : Z * Z) (v : Z) : Z * Z := (v, p.2).
Definition set_second (p : Z * Z) (v : Z) : Z * Z := (p.1, v).

Module Spu2.

Definition new : Spu2 :=
  mkSpu2 (Buffer.zeroed SOUND_RAM_SIZE) (replicate CORE_COUNT default_core)
    (replicate REGISTER_HALFWORDS 0) 0.

Definition load_ram (offset : Z) (bytes : list Z) (s : Spu2) : outcome Spu2Error unit * Spu2 :=
  let size := Z.of_nat (length bytes) in
  match checked_add_u 64 offset size with
  | None => (Err (RamRange offset size), s)
  | Some _ =>
      match Buffer.copy_from (spu_ram s) offset bytes with
      | None => (Err (RamRange offset size), s)
      | Some ram => (Ok tt, s <| spu_ram := ram |>)
      end
  end.

Definition read_core_register (core : Core) (local : Z) (stored : outcome Spu2Error Z)
    : outcome Spu2Error Z :=
  if local =? ENDX_HIGH then Ok (high_switch_half (endx core))
  else if local =? ENDX_LOW then Ok (low_switch_half (endx core))
  else if (local =? KEY_ON_HIGH) || (local =? KEY_ON_LOW) ||
          (local =? KEY_OFF_HIGH) || (local =? KEY_OFF_LOW) then Ok 0
  else if local =? STATUS then
    Ok (core_status core .|
        (if has_bits (attributes core) CORE_ATTR_DMA_MASK then STATUS_DMA_READY else 0))
  else stored.

Definition read_register (address : Z) (s : Spu2) : outcome Spu2Error Z :=
  let? offset := decode_register address in
  if REGISTER_END <? offset then Ok 0
  else
    let stored := expect (registers s !! register_index offset) in
    if offset =? IRQ_INFO then Ok (irq_info s)
    else
      match decode_core_register offset with
      | None => stored
      | Some (core_index, local) =>
          let? core := expect (cores s !! core_index) in
          if local <? VOICE_PARAMETER_END then
            let? v := expect (voices core !! Z.to_nat (local / VOICE_STRIDE)) in
            match voice_parameter (local mod VOICE_STRIDE) v with
            | Some value => Ok value
            | None => stored
            end
          else
            match decode_voice_address local with
            | Some (voice, register) =>
                let? v := expect (voices core !! voice) in
                match voice_address_register register v with
                | Some value => Ok value
                | None => stored
                end
            | None => read_core_register core local stored
            end
      end.

Definition decode_register_pair (offset local : Z) (s : Spu2) : outcome Spu2Error Z :=
  let high_offset := if has_bits local 2 then offset - 2 else offset in
  let? high := expect (registers s !! register_index high_offset) in
  let? low := expect (registers s !! register_index (high_offset + 2)) in
  Ok (decode_sound_address high low).

Definition decode_effect_register_pair (offset local pair_local : Z) (s : Spu2)
    : outcome Spu2Error Z :=
  let core_base := offset - local in
  let high_offset := core_base + pair_local in
  let? high := expect (registers s !! register_index high_offset) in
  let? low := expect (registers s !! register_index (high_offset + 2)) in
  Ok (decode_effect_offset high low).

(** [condition.then(|| value)] *)
Definition when (condition : bool) (value : outcome Spu2Error Z) : outcome Spu2Error (option Z) :=
  if condition then omapok Some value else Ok None.

Definition is_sound_address (local : Z) : bool :=
  (local =? IRQA_HIGH) || (local =? IRQA_LOW) || (local =? TSA_HIGH) || (local =? TSA_LOW) ||
  (local =? EFFECT_START_HIGH) || (local =? EFFECT_START_LOW).

Definition is_effect_address (local : Z) : bool :=
  (EFFECT_ADDRESS_FIRST <=? local) && (local <=? EFFECT_ADDRESS_LAST).

Definition is_effect_end (local : Z) : bool :=
  (local =? EFFECT_END_HIGH) || (local =? EFFECT_END_LOW).

(** The attribute register also acknowledges and disables the address interrupt. *)
Definition write_attributes (core_index : nat) (value : Z) (core : Core) (info : Z) : Core * Z :=
  let core := core <| attributes := value |> in
  let core :=
    if has_bits value CORE_ATTR_DMA_MASK
    then core <| core_status := core_status core .& bnot 16 STATUS_DMA_READY |> else core in
  if has_bits value CORE_ATTR_IRQ_ENABLE then (core, info)
  else (core <| irq_request := false |>,
        info .& bnot 16 (shl 16 1 (Z.of_nat core_index + 2))).

(** [core.effect_addresses[index] = value] *)
Definition write_effect_address (local value : Z) (core : Core) : outcome Spu2Error unit * Core :=
  let relative := local - EFFECT_ADDRESS_FIRST in
  if relative mod 4 <=? 2 then
    let index := Z.to_nat (relative / 4) in
    match effect_addresses core !! index with
    | None => (Panic, core)
    | Some _ => (Ok tt, core <| effect_addresses := <[index := value]> (effect_addresses core) |>)
    end
  else (Ok tt, core).

(** The registers of a core that change nothing but the core. *)
Definition write_plain_register (local value : Z) (sound_address effect_address effect_end_ : option Z)
    (core : Core) : outcome Spu2Error unit * Core :=
  if local =? PMON_HIGH
  then (Ok tt, core <| pitch_mod_mask := set_high_switch_half (pitch_mod_mask core) value |>)
  else if local =? PMON_LOW
  then (Ok tt, core <| pitch_mod_mask := set_low_switch_half (pitch_mod_mask core) value |>)
  else if local =? NON_HIGH
  then (Ok tt, core <| noise_mask := set_high_switch_half (noise_mask core) value |>)
  else if local =? NON_LOW
  then (Ok tt, core <| noise_mask := set_low_switch_half (noise_mask core) value |>)
  else if local =? VMIXL_HIGH
  then (Ok tt, core <| voice_dry_left := set_high_switch_half (voice_dry_left core) value |>)
  else if local =? VMIXL_LOW
  then (Ok tt, core <| voice_dry_left := set_low_switch_half (voice_dry_left core) value |>)
  else if local =? VMIXEL_HIGH
  then (Ok tt, core <| voice_effect_left := set_high_switch_half (voice_effect_left core) value |>)
  else if local =? VMIXEL_LOW
  then (Ok tt, core <| voice_effect_left := set_low_switch_half (voice_effect_left core) value |>)
  else if local =? VMIXR_HIGH
  then (Ok tt, core <| voice_dry_right := set_high_switch_half (voice_dry_right core) value |>)
  else if local =? VMIXR_LOW
  then (Ok tt, core <| voice_dry_right := set_low_switch_half (voice_dry_right core) value |>)
  else if local =? VMIXER_HIGH
  then (Ok tt, core <| voice_effect_right := set_high_switch_half (voice_effect_right core) value |>)
  else if local =? VMIXER_LOW
  then (Ok tt, core <| voice_effect_right := set_low_switch_half (voice_effect_right core) value |>)
  else if local =? MMIX then (Ok tt, core <| mix := value .& 0x0fff |>)
  else if (local =? IRQA_HIGH) || (local =? IRQA_LOW)
  then (Ok tt, core <| irq_address := default 0 sound_address |>)
  else if local =? KEY_ON_HIGH then (Ok tt, Core.key_on value core)
  else if local =? KEY_ON_LOW then (Ok tt, Core.key_on (Z.shiftl (value .& 0xff) 16) core)
  else if local =? KEY_OFF_HIGH then (Ok tt, Core.key_off value core)
  else if local =? KEY_OFF_LOW then (Ok tt, Core.key_off (Z.shiftl (value .& 0xff) 16) core)
  else if (local =? TSA_HIGH) || (local =? TSA_LOW)
  then (Ok tt, core <| transfer_address := default 0 sound_address |>)
  else if (local =? EFFECT_START_HIGH) || (local =? EFFECT_START_LOW)
  then (Ok tt, core <| effect_start := default 0 sound_address |>
                    <| effects := Effects.set_start (default 0 sound_address) (effects core) |>)
  else if is_effect_address local
  then write_effect_address local (default 0 effect_address) core
  else if is_effect_end local then (Ok tt, core <| effect_end := default 0 effect_end_ |>)
  else if local =? ENDX_HIGH then (Ok tt, core <| endx := endx core .& bnot 32 value |>)
  else if local =? ENDX_LOW
  then (Ok tt, core <| endx := endx core .& bnot 32 (Z.shiftl (value .& 0xff) 16) |>)
  else (Ok tt, core).

Definition write_core_register (core_index : nat) (local offset value : Z) (s : Spu2)
    : outcome Spu2Error unit * Spu2 :=
  let! (sound_address, s) :=
    (when (is_sound_address local) (decode_register_pair offset local s), s) in
  let! (effect_address, s) :=
    (when (is_effect_address local)
       (decode_effect_register_pair offset local (local .& bnot 32 3) s), s) in
  let! (end_address, s) :=
    (when (is_effect_end local)
       (omapok decode_effect_end (expect (registers s !! register_index (offset .& bnot 32 2)))), s) in
  match cores s !! core_index with
  | None => (Panic, s)
  | Some core =>
      let put core := <[core_index := core]> (cores s) in
      if local =? CORE_ATTR then
        let (core, info) := write_attributes core_index value core (irq_info s) in
        (Ok tt, s <| cores := put core |> <| irq_info := info |>)
      else if local =? TRANSFER_DATA then
        let '(r, (ram, core)) := Core.write_transfer_halfword value (spu_ram s) core in
        (r, s <| spu_ram := ram |> <| cores := put core |>)
      else
        let (r, core) :=
          write_plain_register local value sound_address effect_address end_address core in
        (r, s <| cores := put core |>)
  end.

Definition write_primary_register (core_index : nat) (local value : Z) (s : Spu2)
    : outcome Spu2Error unit * Spu2 :=
  match cores s !! core_index with
  | None => (Panic, s)
  | Some core =>
      let put core := s <| cores := <[core_index := core]> (cores s) |> in
      if local =? 0 then (Ok tt, put (core <| master_volume := set_first (master_volume core) value |>))
      else if local =? 2
      then (Ok tt, put (core <| master_volume := set_second (master_volume core) value |>))
      else if local =? 4
      then (Ok tt, put (core <| effect_volume := set_first (effect_volume core) value |>))
      else if local =? 6
      then (Ok tt, put (core <| effect_volume := set_second (effect_volume core) value |>))
      else if local =? 8
      then (Ok tt, put (core <| input_a_volume := set_first (input_a_volume core) value |>))
      else if local =? 0x0a
      then (Ok tt, put (core <| input_a_volume := set_second (input_a_volume core) value |>))
      else if local =? 0x0c
      then (Ok tt, put (core <| input_b_volume := set_first (input_b_volume core) value |>))
      else if local =? 0x0e
      then (Ok tt, put (core <| input_b_volume := set_second (input_b_volume core) value |>))
      else if (0x14 <=? local) && (local <=? 0x26) && negb (has_bits local 1) then
        let coefficient := Z.to_nat ((local - 0x14) / 2) in
        match effect_coefficients core !! coefficient with
        | None => (Panic, s)
        | Some _ =>
            (Ok tt, put (core <| effect_coefficients :=
                           <[coefficient := value]> (effect_coefficients core) |>))
        end
      else (Ok tt, s)
  end.

(** [let voice = &mut self.cores[core_index].voices[voice_index]; ...] *)
Definition update_voice (core_index voice_index : nat) (f : Voice -> Voice) (s : Spu2)
    : outcome Spu2Error unit * Spu2 :=
  match (core ← cores s !! core_index; v ← voices core !! voice_index; Some (core, v)) with
  | None => (Panic, s)
  | Some (core, v) =>
      (Ok tt, s <| cores := <[core_index :=
         core <| voices := <[voice_index := f v]> (voices core) |>]> (cores s) |>)
  end.

(** The address pair a voice register belongs to is read back whole. *)
Definition write_voice_address (core_index voice_index : nat) (register offset : Z) (s : Spu2)
    : outcome Spu2Error unit * Spu2 :=
  let pair_index := register_index (offset - (register .& 2)) in
  let! (high, s) := (expect (registers s !! pair_index), s) in
  let! (low, s) := (expect (registers s !! (pair_index + 1)%nat), s) in
  update_voice core_index voice_index (set_voice_address register (decode_sound_address high low)) s.

Definition write_register (address value : Z) (s : Spu2) : outcome Spu2Error unit * Spu2 :=
  let! (offset, s) := (decode_register address, s) in
  if REGISTER_END <? offset then (Ok tt, s)
  else
    match registers s !! register_index offset with
    | None => (Panic, s)
    | Some _ =>
        let s := s <| registers := <[register_index offset := value]> (registers s) |> in
        if offset =? IRQ_INFO then (Ok tt, s <| irq_info := irq_info s .& value |>)
        else
          match decode_core_register offset with
          | Some (core_index, local) =>
              if local <? VOICE_PARAMETER_END then
                update_voice core_index (Z.to_nat (local / VOICE_STRIDE))
                  (set_voice_parameter (local mod VOICE_STRIDE) value) s
              else
                match decode_voice_address local with
                | Some (voice, register) => write_voice_address core_index voice register offset s
                | None => write_core_register core_index local offset value s
                end
          | None =>
              match decode_primary_register offset with
              | Some (core_index, local) => write_primary_register core_index local value s
              | None => (Ok tt, s)
              end
          end
    end.

(** The bits of the cores from [index] on. *)
Fixpoint request_bits (index : Z) (cs : list Core) (info : Z) : Z :=
  match cs with
  | [] => info
  | c :: cs =>
      request_bits (index + 1) cs (if irq_request c then info .| shl 16 1 (index + 2) else info)
  end.

Definition refresh_irq_info (s : Spu2) : Spu2 :=
  s <| irq_info := request_bits 0 (cores s) (irq_info s) |>.

Definition drain_irq {S} `{InterruptSink S} (sink : S) (s : Spu2) : bool * S * Spu2 :=
  let requested := existsb irq_request (cores s) in
  let s := s <| cores := (fun c => c <| irq_request := false |>) <$> cores s |> in
  (requested, if requested then request sink Ps2Irq.Spu2 else sink, s).

(** ** Rendering *)

Section weights.
Context (weights : Z -> list Z).

(** [self.cores[index].render(index, &mut self.ram, input)] *)
Definition render_core (index : nat) (input : CoreInput) (s : Spu2)
    : outcome Spu2Error StereoFrame * Spu2 :=
  match cores s !! index with
  | None => (Panic, s)
  | Some core =>
      let '(r, (ram, core)) := Core.render weights index (spu_ram s) input core in
      (r, s <| spu_ram := ram |> <| cores := <[index := core]> (cores s) |>)
  end.

Definition render_frame (inputs : CoreInput * CoreInput) (s : Spu2)
    : outcome Spu2Error RenderedFrame * Spu2 :=
  let! (core0, s) := render_core 0 inputs.1 s in
  let a := input_a inputs.2 in
  let routed := mkInput
    (mkFrame (clamp_i16 (saturating_s 32 (left a + left core0)))
       (clamp_i16 (saturating_s 32 (right a + right core0)))) (input_b inputs.2) in
  let! (core1, s) := render_core 1 routed s in
  (Ok (mkRendered (core0, core1) core1), refresh_irq_info s).

(** The frames of the output buffer, as interleaved samples. *)
Fixpoint render_frames (inputs : list (CoreInput * CoreInput)) (s : Spu2)
    : outcome Spu2Error (list Z) * Spu2 :=
  match inputs with
  | [] => (Ok [], s)
  | input :: inputs =>
      let! (frame, s) := render_frame input s in
      let! (rest, s) := render_frames inputs s in
      (Ok (left (final_output frame) :: right (final_output frame) :: rest), s)
  end.

(** The buffer is described by its length; its new contents are returned. *)
Definition render (frames output_len : Z) (s : Spu2) : outcome Spu2Error (list Z) * Spu2 :=
  match checked_mul_u 64 frames 2 with
  | None => (Err (OutputSize (2 ^ 64 - 1) output_len), s)
  | Some expected =>
      if negb (output_len =? expected) then (Err (OutputSize expected output_len), s)
      else render_frames (replicate (Z.to_nat frames) (default_input, default_input)) s
  end.

Definition render_with_inputs (inputs : list (CoreInput * CoreInput)) (output_len : Z) (s : Spu2)
    : outcome Spu2Error (list Z) * Spu2 :=
  match checked_mul_u 64 (Z.of_nat (length inputs)) 2 with
  | None => (Err (OutputSize (2 ^ 64 - 1) output_len), s)
  | Some expected =>
      if negb (output_len =? expected) then (Err (OutputSize expected output_len), s)
      else render_frames inputs s
  end.
End weights.

(** ** The endpoints *)

(** [self.cores[channel as usize]], with the sound RAM *)
Definition on_core {A} (channel : SoundDmaChannel)
    (f : Buffer -> Core -> outcome EndpointError A * (Buffer * Core)) (s : Spu2)
    : outcome EndpointError A * Spu2 :=
  match cores s !! SoundDmaChannel.core channel with
  | None => (Panic, s)
  | Some core =>
      let '(r, (ram, core)) := f (spu_ram s) core in
      (r, s <| spu_ram := ram |> <| cores := <[SoundDmaChannel.core channel := core]> (cores s) |>)
  end.

Definition ready (c : Core) : Core := c <| core_status := core_status c .| STATUS_DMA_READY |>.

Definition write_word (channel : SoundDmaChannel) (value : Z) (s : Spu2)
    : outcome EndpointError unit * Spu2 :=
  let! (_u, s) := on_core channel (fun ram core =>
    let! (_u, rc) := Core.write_transfer_halfword (value mod 2 ^ 16) ram core in
    let! (_u, rc) := Core.write_transfer_halfword (value / 2 ^ 16) rc.1 rc.2 in
    (Ok tt, (rc.1, ready rc.2))) s in
  (Ok tt, refresh_irq_info s).

Definition read_word (channel : SoundDmaChannel) (s : Spu2) : outcome EndpointError Z * Spu2 :=
  let! (value, s) := on_core channel (fun ram core =>
    let (low, core) := Core.read_transfer_halfword ram core in
    let! (low, rc) := (low, (ram, core)) in
    let (high, core) := Core.read_transfer_halfword rc.1 rc.2 in
    let! (high, rc) := (high, (ram, core)) in
    (Ok (low .| Z.shiftl high 16), (rc.1, ready rc.2))) s in
  (Ok value, refresh_irq_info s).

(** [EndpointError::new(error.to_string())] *)
Definition endpoint {A} (m : outcome Spu2Error A) : outcome EndpointError A :=
  map_err (fun e => mkEndpointError (to_string e)) m.

End Spu2.

#[export] Instance spu2_dma_endpoint : Spu2DmaEndpoint Spu2 := {
  Ps2Dma.write_word := Spu2.write_word;
  Ps2Dma.read_word := Spu2.read_word;
}.

#[export] Instance spu2_mmio_endpoint : Spu2MmioEndpoint Spu2 := {
  Ps2Dma.read_register address s := (Spu2.endpoint (Spu2.read_register address s), s);
  Ps2Dma.write_register address value s :=
    let (r, s) := Spu2.write_register address value s in (Spu2.endpoint r, s);
}.
