(* ===== verification/Ps2VoiceFacts.v ===== *)
(** * What a PS2 voice promises

    Keying, decoding, stepping and rendering a voice never panic and keep every field of
    the voice inside its type, whatever the registers and the sound RAM hold. *)

From S2P Require Import Prelude Records MachineInt Buffer.
From S2P Require Import SpuCommon SpuCommonFacts Ps2Effects Ps2Spu.

(** ** The effect units

    Every access of the effect graph falls inside the work area, an even and an odd byte
    of one halfword; no arithmetic overflows and no array index leaves its array: one
    sample always succeeds, keeps the cursor inside sound RAM and leaves the RAM outside
    the work area alone. *)

#[local] Opaque SOUND_RAM_SIZE.

Lemma spu2_size_value : SOUND_RAM_SIZE = 2097152.
Proof. reflexivity. Qed.

Record effects_ok (e : Effects) : Prop := {
  cursor_range : 0 <= cursor e < SOUND_RAM_SIZE;
  cursor_even : cursor e mod 2 = 0;
}.

Definition addresses_ok (addresses : list Z) : Prop :=
  length addresses = 22%nat /\ Forall (in_u 32) addresses.

Definition coefficients_ok (coefficients : list Z) : Prop :=
  length coefficients = 10%nat /\ Forall (in_u 16) coefficients.

Notation ram_ok := (sized SOUND_RAM_SIZE).

Lemma spu2_signed_i16 v : in_u 16 v -> i16 (signed v).
Proof. intros. by apply to_i_range. Qed.

Lemma spu2_clamp_i64_range x : i16 (clamp_i64_to_i16 x).
Proof.
  apply i16_bounds. unfold clamp_i64_to_i16, I16_MIN, I16_MAX.
  destruct (Z.ltb_spec x (- 2 ^ 15)); [lia|]. destruct (Z.ltb_spec (2 ^ 15 - 1) x); lia.
Qed.

(** Masking an address keeps it even and in RAM. *)
Lemma ram_mask_range x : 0 <= x .& (SOUND_RAM_SIZE - 1) < SOUND_RAM_SIZE.
Proof.
  rewrite spu2_size_value. change (2097152 - 1) with (Z.ones 21).
  rewrite Z.land_ones by lia. by apply Z.mod_pos_bound.
Qed.

Lemma normalize_ok x :
  0 <= normalize_address x < SOUND_RAM_SIZE /\ normalize_address x mod 2 = 0.
Proof.
  unfold normalize_address. pose proof (ram_mask_range x) as Hr.
  set (y := x .& _) in *. rewrite spu2_size_value in *.
  change 1 with (Z.ones 1). rewrite clear_low_bits; [|lia|].
  2:{ unfold in_u. change (2 ^ 64) with 18446744073709551616. lia. }
  change (2 ^ 1) with 2.
  pose proof (Z.div_mod y 2 ltac:(lia)). pose proof (Z.mod_pos_bound y 2 ltac:(lia)).
  split; [lia|]. apply Z.mod_divide; [lia|]. exists (y / 2). lia.
Qed.

(** The last byte of the work area. *)
Lemma odd_end x : normalize_address x .| 1 = normalize_address x + 1.
Proof.
  destruct (normalize_ok x) as [Hr He]. set (y := normalize_address x) in *.
  pose proof (Z.div_mod y 2 ltac:(lia)) as Hy. rewrite He, Z.add_0_r in Hy. rewrite Hy.
  assert (0 <= y / 2) as Hd by (apply Z.div_pos; lia). by destruct (y / 2).
Qed.

(** ** One sample of the effect *)

Section effect.
Context {E : Type} (start end_ : Z) (e : Effects).
Context (start_ok : 0 <= start /\ start mod 2 = 0).
Context (end_ok : start < end_ < SOUND_RAM_SIZE /\ end_ mod 2 = 1).
Context (cursor_ok : start <= cursor e <= end_ /\ cursor e mod 2 = 0).

Notation area := (same_outside start (end_ + 1)).

Lemma effect_address_ok offset extra :
  extra = 0 \/ extra = -2 ->
  succeeds (fun a => start <= a /\ a + 1 <= end_)
    (Effects.memory_address e start end_ offset extra : outcome E Z).
Proof using start_ok end_ok cursor_ok.
  intros He. unfold Effects.memory_address. rewrite spu2_size_value in *.
  rewrite (proj2 (checked_sub_u_Some end_ start _)) by (split; [done|lia]).
  cbn [expect obind]. unfold RingBufferAddress.new.
  rewrite (proj2 (Z.eqb_neq _ _)) by lia. cbn [expect obind].
  pose proof (Z.div_mod start 2 ltac:(lia)). pose proof (Z.div_mod end_ 2 ltac:(lia)).
  pose proof (Z.div_mod (cursor e) 2 ltac:(lia)).
  destruct (ring_step_even start (end_ - start + 1)
    (Z.max 0 (cursor e - start) + to_i 32 offset * 8 + extra)) as (a & -> & Ha1 & Ha2 & _);
    try (change (2 ^ 64) with 18446744073709551616; lia).
  - apply Z.mod_divide; [lia|]. exists (end_ / 2 - start / 2 + 1). lia.
  - apply Z.mod_divide; [lia|]. rewrite Z.max_r by lia.
    destruct He as [-> | ->].
    + exists (cursor e / 2 - start / 2 + to_i 32 offset * 4). lia.
    + exists (cursor e / 2 - start / 2 + to_i 32 offset * 4 - 1). lia.
  - apply succeeds_ok. lia.
Qed.

Lemma effect_read_ok ram offset extra :
  ram_ok ram -> extra = 0 \/ extra = -2 ->
  succeeds i16 (Effects.read e ram start end_ offset extra : outcome E Z).
Proof using start_ok end_ok cursor_ok.
  intros Hram He. unfold Effects.read.
  eapply succeeds_bind; [by apply effect_address_ok|]. intros a [Hlo Hhi].
  eapply succeeds_bind; [eapply sized_get_half; [done|lia|lia]|]. intros v Hv.
  by apply succeeds_ok, spu2_signed_i16.
Qed.

Lemma effect_write_ok ram offset v :
  ram_ok ram ->
  succeeds (fun ram' => ram_ok ram' /\ area ram ram')
    (Effects.write e ram start end_ offset v : outcome E Buffer).
Proof using start_ok end_ok cursor_ok.
  intros Hram. unfold Effects.write.
  eapply succeeds_bind; [apply effect_address_ok; auto|]. intros a [Hlo Hhi].
  eapply sized_set_half; [done|lia..|]. apply in_u_of_i; lia.
Qed.

Lemma effect_reflection_ok ram input source destination wall iir :
  ram_ok ram ->
  succeeds i16 (Effects.reflection e ram start end_ input source destination wall iir
                : outcome E Z).
Proof using start_ok end_ok cursor_ok.
  intros Hram. unfold Effects.reflection.
  eapply succeeds_bind; [apply effect_read_ok; auto|]. intros s Hs.
  eapply succeeds_bind; [apply effect_read_ok; auto|]. intros old Hold.
  apply succeeds_ok, clamp_i16_range.
Qed.

Lemma effect_comb_ok ram terms : forall sum,
  ram_ok ram -> succeeds i16 (Effects.comb_sum e ram start end_ terms sum : outcome E Z).
Proof using start_ok end_ok cursor_ok.
  induction terms as [|[source volume] terms IH]; intros sum Hram; cbn [Effects.comb_sum].
  { apply succeeds_ok, spu2_clamp_i64_range. }
  eapply succeeds_bind; [apply effect_read_ok; auto|]. intros s _. by apply IH.
Qed.

Lemma effect_all_pass_ok ram input destination source volume enabled :
  ram_ok ram ->
  succeeds (fun p => i16 p.1 /\ ram_ok p.2 /\ area ram p.2)
    (Effects.all_pass e ram start end_ input destination source volume enabled
     : outcome E (Z * Buffer)).
Proof using start_ok end_ok cursor_ok.
  intros Hram. unfold Effects.all_pass.
  eapply succeeds_bind; [apply effect_read_ok; auto|]. intros f _. cbn zeta.
  eapply (succeeds_bind (fun ram' => ram_ok ram' /\ area ram ram')).
  - destruct enabled; [by apply effect_write_ok|by apply succeeds_ok].
  - intros ram' [Hram' Ha]. apply succeeds_ok. split; [apply clamp_i16_range|done].
Qed.

Section registers.
Context (addresses coefficients : list Z).
Context (Haddr : addresses_ok addresses) (Hcoef : coefficients_ok coefficients).

Lemma address_of_ok i : (i < 22)%nat ->
  succeeds (in_u 32) (Effects.address_of addresses i : outcome E Z).
Proof using Haddr.
  intros Hi. destruct Haddr as [Hl Hall].
  destruct (lookup_lt_is_Some_2 addresses i ltac:(lia)) as [v Ev].
  eapply succeeds_expect; [done|]. by eapply Forall_lookup_1.
Qed.

Lemma volume_of_ok i : (i < 10)%nat ->
  succeeds i16 (Effects.volume_of coefficients i : outcome E Z).
Proof using Hcoef.
  intros Hi. destruct Hcoef as [Hl Hall].
  destruct (lookup_lt_is_Some_2 coefficients i ltac:(lia)) as [v Ev].
  apply succeeds_omapok. eapply succeeds_expect; [done|].
  apply spu2_signed_i16. by eapply Forall_lookup_1.
Qed.

(** Bind an address or a volume; the constants are literals. *)
Ltac next_term :=
  eapply succeeds_bind; [first [apply volume_of_ok | apply address_of_ok]; unfold lt; cbv; lia|];
  intros ? _.

Lemma effect_stage_ok ram input apf displacement volume enabled :
  ram_ok ram -> (apf < 22)%nat -> (displacement < 22)%nat -> (volume < 10)%nat ->
  succeeds (fun p => i16 p.1 /\ ram_ok p.2 /\ area ram p.2)
    (Effects.all_pass_stage e ram start end_ addresses coefficients input apf displacement
       volume enabled : outcome E (Z * Buffer)).
Proof using start_ok end_ok cursor_ok Haddr Hcoef.
  intros. unfold Effects.all_pass_stage.
  eapply succeeds_bind; [by apply address_of_ok|]. intros d _.
  eapply succeeds_bind; [by apply address_of_ok|]. intros x _.
  eapply succeeds_bind; [by apply volume_of_ok|]. intros v _. by apply effect_all_pass_ok.
Qed.

Lemma effect_reflections_ok ram left right :
  ram_ok ram ->
  succeeds (fun ram' => ram_ok ram' /\ area ram ram')
    (Effects.reflections e ram start end_ addresses coefficients left right : outcome E Buffer).
Proof using start_ok end_ok cursor_ok Haddr Hcoef.
  intros Hram. unfold Effects.reflections. do 2 next_term. cbn zeta.
  assert (forall w r a b c, (b < 22)%nat -> (c < 22)%nat -> succeeds i16
    (obind (Effects.address_of addresses b) (fun source =>
     obind (Effects.address_of addresses c) (fun destination =>
      Effects.reflection e ram start end_ a source destination w r)) : outcome E Z)) as Href.
  { intros. eapply succeeds_bind; [by apply address_of_ok|]. intros ? _.
    eapply succeeds_bind; [by apply address_of_ok|]. intros ? _. by apply effect_reflection_ok. }
  assert (forall ram' i v, ram_ok ram' -> area ram ram' -> (i < 22)%nat ->
    succeeds (fun ram' => ram_ok ram' /\ area ram ram')
      (obind (Effects.address_of addresses i)
         (fun d => Effects.write e ram' start end_ d v) : outcome E Buffer)) as Hst.
  { intros ram' i v Hram' Ha Hi. eapply succeeds_bind; [by apply address_of_ok|]. intros d _.
    eapply succeeds_mono; [by apply effect_write_ok|]. intros ? [? ?]. split; [done|].
    by etransitivity. }
  do 4 (eapply succeeds_bind; [apply Href; unfold lt; cbv; lia|]; intros ? _).
  do 3 (eapply succeeds_bind; [apply Hst; [done|done|unfold lt; cbv; lia]|]; intros ? [? ?]).
  apply Hst; [done|done|unfold lt; cbv; lia].
Qed.

Lemma effect_comb_of_ok ram volumes i1 i2 i3 i4 :
  ram_ok ram -> (i1 < 22)%nat -> (i2 < 22)%nat -> (i3 < 22)%nat -> (i4 < 22)%nat ->
  succeeds i16 (Effects.comb_of e ram start end_ addresses volumes i1 i2 i3 i4 : outcome E Z).
Proof using start_ok end_ok cursor_ok Haddr.
  intros. unfold Effects.comb_of.
  do 4 (eapply succeeds_bind; [by apply address_of_ok|]; intros ? _). by apply effect_comb_ok.
Qed.
End registers.
End effect.

(** One sample: any registers, any RAM. *)
Lemma effect_process_ok {E} ram start end_ addresses coefficients enabled input e :
  effects_ok e -> ram_ok ram -> addresses_ok addresses -> coefficients_ok coefficients ->
  succeeds (fun p => i16 p.1.1.1 /\ i16 p.1.1.2 /\ ram_ok p.1.2 /\ effects_ok p.2 /\
      same_outside (normalize_address start) (normalize_address end_ + 2) ram p.1.2)
    (Effects.process ram start end_ addresses coefficients enabled input e
     : outcome E ((Z * Z) * Buffer * Effects)).
Proof.
  intros He Hram Ha Hc. unfold Effects.process. rewrite odd_end.
  destruct (normalize_ok start) as [Hs Hs2]. destruct (normalize_ok end_) as [Ht Ht2].
  set (s := normalize_address start) in *. set (t := normalize_address end_) in *.
  destruct (Z.leb_spec SOUND_RAM_SIZE s); [lia|]. cbn [orb].
  destruct (Z.ltb_spec (t + 1) s) as [|Hst]; [apply succeeds_ok; split_and!; try done;
    by apply i16_bounds|]. cbn zeta.
  pose proof (Z.div_mod s 2 ltac:(lia)). pose proof (Z.div_mod t 2 ltac:(lia)).
  set (e1 := if _ || _ then _ else e).
  assert (s <= cursor e1 <= t + 1 /\ cursor e1 mod 2 = 0) as Hcur.
  { unfold e1. destruct (Z.ltb_spec (cursor e) s); [cbn; lia|].
    destruct (Z.ltb_spec (t + 1) (cursor e)); [cbn; lia|]. cbn [orb].
    by split; [|apply cursor_even]. }
  clearbody e1. clear He e.
  assert (0 <= s /\ s mod 2 = 0) as HS by lia.
  assert (s < t + 1 < SOUND_RAM_SIZE /\ (t + 1) mod 2 = 1) as HT.
  { rewrite spu2_size_value in *. split; [lia|]. rewrite <- Z.add_mod_idemp_l, Ht2 by lia. done. }
  replace (t + 2) with (t + 1 + 1) by lia.
  do 2 (eapply succeeds_bind; [apply volume_of_ok; [done|unfold lt; cbv; lia]|]; intros ? _).
  eapply (succeeds_bind (fun ram' => ram_ok ram' /\ same_outside s (t + 1 + 1) ram ram')).
  { destruct enabled; [by apply effect_reflections_ok|by apply succeeds_ok]. }
  intros ram0 [Hram0 Ha0].
  do 4 (eapply succeeds_bind; [apply volume_of_ok; [done|unfold lt; cbv; lia]|]; intros ? _).
  do 2 (eapply succeeds_bind; [apply effect_comb_of_ok; try done; unfold lt; cbv; lia|]; intros ? _).
  do 2 (eapply succeeds_bind; [apply effect_stage_ok; try done; unfold lt; cbv; lia|];
        intros [? ?] (? & ? & ?); cbn [fst snd] in * ).
  do 2 (eapply succeeds_bind; [apply effect_stage_ok; try done; unfold lt; cbv; lia|];
        intros [? ?] (? & ? & ?); cbn [fst snd] in * ).
  apply succeeds_ok. cbn [fst snd]. split_and!; try done.
  - pose proof (Z.div_mod (cursor e1) 2 ltac:(lia)).
    destruct (Z.ltb_spec (t + 1) (cursor e1 + 2)); split; cbn; try lia.
    rewrite <- Z.add_mod_idemp_l by lia. by rewrite (proj2 Hcur).
  - repeat (etransitivity; [eassumption|]). done.
Qed.

Lemma effects_new_ok : effects_ok Effects.new.
Proof. split; [rewrite spu2_size_value; cbn; lia|done]. Qed.

Lemma effects_set_start_ok start e : effects_ok (Effects.set_start start e).
Proof. split; apply normalize_ok. Qed.


Notation u16 := (in_u 16).
Notation in_ram a := (0 <= a < SOUND_RAM_SIZE).
Notation fetched_ok o := (from_option (fun a => in_ram a) True o).

Record prepared_ok (p : PreparedBlock) : Prop := {
  pb_address_ok : in_ram (pb_address p);
  pb_decoded_ok : Adpcm.block_ok (pb_decoded p);
  before_ok : Adpcm.history_ok (history_before p);
}.

Record voice_ok (v : Voice) : Prop := {
  volumes_ok : u16 (volume_left v) /\ u16 (volume_right v);
  pitch_ok : 0 <= pitch v <= 0x3fff;
  adsr_ok : u16 (adsr_low v) /\ u16 (adsr_high v);
  start_ok : in_ram (start_address v);
  repeat_ok : in_ram (repeat_address v);
  current_ok : in_ram (current_address v);
  current_block_ok : in_ram (current_block_address v);
  decoded_ok : length (decoded v) = 28%nat /\ Forall i16 (decoded v);
  prepared_field : from_option prepared_ok True (prepared v);
  index_ok : 0 <= sample_index v < 28;
  history_ok : Adpcm.history_ok (history v);
  envelope_ok : Adsr.env_ok (envelope v);
  counter_ok : 0 <= phase (pitch_counter v) < 4096;
}.

Lemma spu2_ram_mask x : in_ram (x .& RAM_MASK).
Proof. apply ram_mask_range. Qed.

Lemma normalize_ram_ok x : in_ram (normalize_ram_address x).
Proof. apply (normalize_ok x). Qed.

Lemma spu2_default_voice_ok : voice_ok default_voice.
Proof.
  assert (u16 0) as H0 by by split.
  split; cbn; try done; try (rewrite spu2_size_value; lia); try lia.
  split; [done|]. repeat constructor; by apply i16_bounds.
Qed.

(** ** Blocks *)

Lemma spu2_fetch_block_ok ram n : forall address,
  ram_ok ram ->
  succeeds (fun l => length l = n /\ Forall (in_u 8) l) (fetch_block ram address n).
Proof.
  induction n as [|n IH]; intros address Hram; cbn [fetch_block]; [by apply succeeds_ok|].
  eapply succeeds_bind; [eapply sized_get; [done|apply spu2_ram_mask]|]. intros b Hb.
  eapply succeeds_bind; [by apply IH|]. intros rest [Hl Hr].
  apply succeeds_ok. split; [by cbn; rewrite Hl|by constructor].
Qed.

Lemma spu2_decode_block_ok ram address h :
  ram_ok ram -> Adpcm.history_ok h ->
  yields (fun b h' => Adpcm.block_ok b /\ Adpcm.history_ok h') (decode_block_at ram address h).
Proof.
  intros Hram Hh. unfold decode_block_at.
  destruct (spu2_fetch_block_ok ram 16 address Hram) as (block & -> & Hl & Hb).
  destruct (Adpcm.decode_block_total block h Hl Hb Hh) as (b & h' & -> & Hok).
  by apply yields_ok.
Qed.

(** Rebuild a voice's invariant after some fields changed. *)
Ltac spu2_voice_fields :=
  lazymatch goal with
  | H : voice_ok _ |- voice_ok _ =>
      destruct H; split; cbn [modify volume_left volume_right pitch start_address adsr_low
        adsr_high repeat_address repeat_address_written current_address current_block_address
        envelope history pitch_counter decoded decoded_flags prepared sample_index
        decoded_valid active from_option] in *; try done
  end.

Section weights.
Context (weights : Z -> list Z).
Context (weights_ok : forall p, length (weights p) = 4%nat /\ Forall i16 (weights p)).

Lemma spu2_key_on_ok v : voice_ok v -> voice_ok (Voice.key_on v).
Proof.
  intros Hv. pose proof (normalize_ram_ok (start_address v)) as Hs. unfold Voice.key_on.
  spu2_voice_fields; first [apply Adsr.key_on_ok|apply Adpcm.default_history_ok].
Qed.

Lemma spu2_key_off_ok v : voice_ok v -> voice_ok (Voice.key_off v).
Proof. intros Hv. unfold Voice.key_off. spu2_voice_fields; by apply Adsr.key_off_ok. Qed.

Lemma spu2_envelope_ok sample v :
  voice_ok v ->
  yields (fun out v' => i16 out /\ voice_ok v') (Voice.apply_envelope sample v).
Proof.
  intros Hv. pose proof (envelope_ok v Hv) as He. unfold Voice.apply_envelope.
  pose proof (Adsr.from_registers_ok (adsr_low v) (adsr_high v)) as Hc. cbn zeta.
  rewrite (Adsr.advance_clock _ Hc 1) by (done || lia).
  pose proof (Adsr.iterate_clock_ok _ Hc (Z.to_nat 1) (envelope v) He) as He'.
  set (e := iterate _ _ _) in *. cbn zeta. apply yields_ok. split; [apply clamp_i16_range|].
  assert (voice_ok (v <| envelope := e |>)) as Hv' by spu2_voice_fields.
  case_bool_decide; [|done]. set (v' := v <| envelope := e |>) in *. spu2_voice_fields.
Qed.

Lemma spu2_window_sample_ok v relative :
  voice_ok v -> succeeds i16 (Voice.window_sample v relative).
Proof.
  intros Hv. unfold Voice.window_sample. destruct (decoded_ok v Hv) as [Hl Hd].
  destruct (decoded v !! Z.to_nat _) as [s|] eqn:E.
  { by apply succeeds_ok, (Forall_lookup_1 _ _ _ _ Hd E). }
  destruct (lookup_lt_is_Some_2 (decoded v) (Z.to_nat (Z.of_nat (length (decoded v)) - 1)))
    as [x Ex]; [lia|].
  assert (succeeds i16 (expect (decoded v !! Z.to_nat (Z.of_nat (length (decoded v)) - 1))
    : outcome block_error Z)) as Hlast.
  { eapply succeeds_expect; [done|]. exact (Forall_lookup_1 _ _ _ _ Hd Ex). }
  pose proof (prepared_field v Hv) as Hp.
  destruct (prepared v) as [p|]; cbn [mbind option_bind]; [|done].
  destruct (samples (pb_decoded p) !! _) as [s|] eqn:Es; [|done].
  apply succeeds_ok. destruct Hp as [_ [_ Hall] _]. exact (Forall_lookup_1 _ _ _ _ Hall Es).
Qed.

Lemma spu2_window_ok v :
  voice_ok v ->
  succeeds (fun w => length w = 4%nat /\ Forall i16 w) (Voice.interpolation_window v).
Proof.
  intros Hv. unfold Voice.interpolation_window.
  do 4 (eapply succeeds_bind; [by apply spu2_window_sample_ok|]; intros ? ?).
  apply succeeds_ok. split; [done|]. by rewrite !Forall_cons, Forall_nil.
Qed.

Lemma spu2_next_block_ok v address :
  Voice.next_block_address v = Some address -> in_ram address.
Proof.
  unfold Voice.next_block_address. destruct (end_ _).
  - destruct (repeat_ _); [|done]. intros [= <-]. apply normalize_ram_ok.
  - intros [= <-]. apply spu2_ram_mask.
Qed.

Lemma spu2_install_ok address block v :
  voice_ok v -> in_ram address -> Adpcm.block_ok block ->
  voice_ok (Voice.install_block address block v) /\
  decoded_valid (Voice.install_block address block v) = true.
Proof.
  intros Hv Ha Hb. unfold Voice.install_block. cbn zeta. split; [|done].
  assert (try_from_u 32 address = Some address) as ->.
  { apply try_from_u_in. rewrite spu2_size_value in Ha. change (2 ^ 32) with 4294967296. lia. }
  cbn [default]. set (v1 := v <| decoded := _ |> <| decoded_flags := _ |>
    <| current_block_address := _ |> <| current_address := _ |>).
  assert (voice_ok v1) as Hv1 by (unfold v1; spu2_voice_fields).
  clearbody v1. destruct (_ && _); spu2_voice_fields; lia.
Qed.

Lemma spu2_decode_current_ok ram v :
  ram_ok ram -> voice_ok v ->
  yields (fun a v' => in_ram a /\ voice_ok v') (Voice.decode_current ram v).
Proof.
  intros Hram Hv. unfold Voice.decode_current. cbn zeta.
  destruct (spu2_decode_block_ok ram (current_address v .& RAM_MASK) (history v) Hram
    (history_ok v Hv)) as (b & h' & -> & Hb & Hh).
  assert (voice_ok (v <| history := h' |>)) as Hv1 by spu2_voice_fields.
  apply yields_ok. split; [apply spu2_ram_mask|].
  by apply spu2_install_ok; [|apply spu2_ram_mask|].
Qed.

Lemma spu2_prepare_ok ram v :
  ram_ok ram -> voice_ok v ->
  yields (fun a v' => fetched_ok a /\ voice_ok v') (Voice.prepare_next ram v).
Proof.
  intros Hram Hv. unfold Voice.prepare_next.
  destruct (prepared v) eqn:Ep; [by apply yields_ok|].
  destruct (Voice.next_block_address v) as [address|] eqn:En; [|by apply yields_ok].
  pose proof (spu2_next_block_ok v address En) as Ha.
  destruct (spu2_decode_block_ok ram address (history v) Hram (history_ok v Hv))
    as (b & h' & -> & Hb & Hh). cbn zeta.
  apply yields_ok. split; [done|]. pose proof (history_ok v Hv). spu2_voice_fields.
Qed.

Lemma spu2_continue_ok address v :
  voice_ok v -> in_ram address -> voice_ok (Voice.continue_at address v).
Proof.
  intros Hv Ha. unfold Voice.continue_at. cbn zeta.
  assert (voice_ok (v <| current_address := address |>)) as Hv1 by spu2_voice_fields.
  set (v1 := v <| current_address := address |>) in *. clearbody v1.
  pose proof (prepared_field v1 Hv1) as Hp.
  destruct (prepared v1) as [p|] eqn:Ep; [|done].
  destruct Hp as [Hpa Hpb Hph].
  assert (voice_ok (v1 <| prepared := None |>)) as Hv2 by spu2_voice_fields.
  set (v2 := v1 <| prepared := None |>) in *. clearbody v2.
  destruct (_ =? _); [by apply spu2_install_ok|]. spu2_voice_fields.
Qed.

(** The index has run to the end of the block. *)
Lemma spu2_finish_ok v :
  voice_ok (v <| sample_index := 0 |>) -> voice_ok (Voice.finish_block v).2.
Proof.
  intros Hv. unfold Voice.finish_block. cbn zeta.
  assert (voice_ok (v <| decoded_valid := false |> <| sample_index := 0 |>)) as Hv1
    by spu2_voice_fields.
  set (v1 := v <| decoded_valid := false |> <| sample_index := 0 |>) in *. clearbody v1.
  destruct (_ && _); cbn [snd].
  - spu2_voice_fields; apply Adsr.new_ok.
  - apply spu2_continue_ok; [done|]. destruct (end_ _); [apply normalize_ram_ok|apply spu2_ram_mask].
Qed.

Lemma spu2_step_samples_ok ram n : forall last ended v,
  ram_ok ram -> voice_ok v -> fetched_ok last ->
  yields (fun p v' => fetched_ok p.1.1 /\ voice_ok v') (Voice.step_samples n ram last ended v).
Proof.
  induction n as [|n IH]; intros last ended v Hram Hv Hl; cbn [Voice.step_samples];
    [by apply yields_ok|].
  assert (voice_ok (v <| sample_index := sample_index v + 1 |> <| sample_index := 0 |>)) as Hv0
    by (spu2_voice_fields; lia).
  change (length (decoded (v <| sample_index := sample_index v + 1 |>))) with (length (decoded v)).
  rewrite (proj1 (decoded_ok v Hv)). cbn zeta.
  change (sample_index (v <| sample_index := sample_index v + 1 |>)) with (sample_index v + 1).
  destruct (Z.eqb_spec (sample_index v + 1) (Z.of_nat 28)) as [E|E].
  - pose proof (spu2_finish_ok _ Hv0) as Hf.
    destruct (Voice.finish_block _) as [stopped v']. cbn [snd] in Hf.
    destruct stopped; [by apply yields_ok|].
    destruct (decoded_valid v'); [by apply IH|].
    eapply yields_bind; [by apply spu2_decode_current_ok|]. intros a v2 (Ha & Hv2).
    by apply IH.
  - apply IH; [done| |done]. pose proof (index_ok v Hv). clear Hv0. spu2_voice_fields; lia.
Qed.

Lemma spu2_render_source_ok ram effective v :
  ram_ok ram -> voice_ok v -> 0 <= effective ->
  yields (fun p v' => i16 p.1.1 /\ fetched_ok p.1.2 /\ voice_ok v')
    (Voice.render_source weights ram effective v).
Proof using weights_ok.
  intros Hram Hv Hp. unfold Voice.render_source.
  eapply (yields_bind (fun last v' => fetched_ok last /\ voice_ok v')).
  { destruct (decoded_valid v); [by apply yields_ok|].
    eapply yields_bind; [by apply spu2_decode_current_ok|]. intros a v' (Ha & Hv').
    by apply yields_ok. }
  intros last v1 [Hl1 Hv1].
  eapply (yields_bind (fun last v' => fetched_ok last /\ voice_ok v')).
  { destruct (_ <=? _); [|by apply yields_ok].
    eapply yields_bind; [by apply spu2_prepare_ok|]. intros a v' (Ha & Hv').
    apply yields_ok. by destruct a. }
  intros last2 v2 [Hl2 Hv2]. cbn zeta.
  destruct (spu2_window_ok v2 Hv2) as (w & -> & Hwl & Hw).
  destruct (interpolate_ok weights weights_ok w
    (Z.shiftr (phase (pitch_counter v2)) 4 .& 0xff) Hwl Hw) as (sample & -> & Hs).
  pose proof (pitch_advance effective (pitch_counter v2) Hp (counter_ok v2 Hv2)) as Hadv.
  destruct (PitchCounter.advance effective (pitch_counter v2)) as [step counter].
  destruct Hadv as (_ & Hc & _ & _). cbn zeta.
  assert (voice_ok (v2 <| pitch_counter := counter |>)) as Hv4 by spu2_voice_fields.
  eapply yields_bind; [by apply spu2_step_samples_ok|]. intros p v5 [Hf Hv5].
  by apply yields_ok.
Qed.

Lemma spu2_voice_render_ok ram effective noise_sample v :
  ram_ok ram -> voice_ok v -> 0 <= effective -> from_option i16 True noise_sample ->
  yields (fun out v' => i16 (dry out) /\ fetched_ok (fetched out) /\ voice_ok v')
    (Voice.render weights ram effective noise_sample v).
Proof using weights_ok.
  intros Hram Hv Hp Hn. unfold Voice.render. destruct (negb _).
  { apply yields_ok. split; [by apply i16_bounds|done]. }
  eapply (yields_bind (fun p v' => i16 p.1.1 /\ fetched_ok p.1.2 /\ voice_ok v')).
  { destruct noise_sample; [by apply yields_ok|by apply spu2_render_source_ok]. }
  intros src v1 (Hs & Hf & Hv1).
  eapply yields_bind; [by apply spu2_envelope_ok|]. intros out v2 [Ho Hv2].
  by apply yields_ok.
Qed.
End weights.
