(* ===== verification/Ps2SpuFacts.v ===== *)
(** * What the PS2 sound unit promises

    The register file, the transfer ports and the renderer never panic and keep every
    field at its width, whatever the registers and the sound RAM hold; rendering a buffer
    of the right size always succeeds and writes no sound RAM outside the work areas of
    the enabled effect units. *)

From S2P Require Import Prelude Records MachineInt Buffer Ps2Irq.
From S2P Require Import SpuCommon SpuCommonFacts Ps2Dma Ps2Effects Ps2VoiceFacts.
From S2P Require Import Ps2Spu Ps2VoiceFacts.

#[local] Opaque SOUND_RAM_SIZE.

Definition pair_ok (p : Z * Z) : Prop := u16 p.1 /\ u16 p.2.

Record core_ok (c : Core) : Prop := {
  core_voices_ok : length (voices c) = VOICES_PER_CORE /\ Forall voice_ok (voices c);
  switches_ok : Forall (in_u 32) [pitch_mod_mask c; noise_mask c; voice_dry_left c;
    voice_dry_right c; voice_effect_left c; voice_effect_right c; endx c; key_on_pending c;
    key_off_pending c];
  core_halves_ok : Forall u16 [mix c; attributes c; core_status c];
  core_addresses_ok : Forall (fun a => in_ram a)
    [irq_address c; transfer_address c; effect_start c; effect_end c];
  core_volumes_ok : Forall pair_ok
    [master_volume c; effect_volume c; input_a_volume c; input_b_volume c];
  effect_addresses_ok : addresses_ok (effect_addresses c);
  effect_coefficients_ok : coefficients_ok (effect_coefficients c);
  effects_field : effects_ok (effects c);
  core_noise_ok : u16 (state (noise c));
}.

Record spu2_ok (s : Spu2) : Prop := {
  spu2_ram_ok : ram_ok (spu_ram s);
  cores_ok : length (cores s) = CORE_COUNT /\ Forall core_ok (cores s);
  registers_ok : length (registers s) = REGISTER_HALFWORDS /\ Forall u16 (registers s);
  irq_info_ok : u16 (irq_info s);
}.

(** Rebuild the invariant of a core or the unit after some fields changed. *)
Ltac core_fields :=
  lazymatch goal with
  | H : core_ok _ |- core_ok _ =>
      let Hs := fresh in let Hh := fresh in let Ha := fresh in let Hv := fresh in
      destruct H as [? Hs Hh Ha Hv ? ? ? ?]; split;
      first [assumption
            | rewrite !Forall_cons in Hs; rewrite !Forall_cons in Hh;
              rewrite !Forall_cons in Ha; rewrite !Forall_cons in Hv; rewrite ?Forall_cons;
              cbn [modify voices pitch_mod_mask noise_mask voice_dry_left voice_dry_right
                voice_effect_left voice_effect_right mix attributes endx key_on_pending
                key_off_pending irq_address transfer_address effect_start effect_end
                effect_addresses effect_coefficients master_volume effect_volume
                input_a_volume input_b_volume effects noise irq_request core_status];
              try tauto]
  end.

Ltac spu2_fields :=
  lazymatch goal with
  | H : spu2_ok _ |- spu2_ok _ =>
      destruct H; split; cbn [modify spu_ram cores registers irq_info] in *; try done
  end.

Lemma u32_zero : in_u 32 0. Proof. by split. Qed.
Lemma u16_0 : u16 0. Proof. by split. Qed.
Lemma in_ram_0 : in_ram 0. Proof. by rewrite spu2_size_value. Qed.
#[export] Hint Resolve u32_zero u16_0 in_ram_0 : spu2.

Lemma in_ram_u32 a : in_ram a -> in_u 32 a.
Proof. rewrite spu2_size_value. unfold in_u. change (2 ^ 32) with 4294967296. lia. Qed.

Lemma default_core_ok : core_ok default_core.
Proof.
  pose proof u16_0. pose proof u32_zero. pose proof in_ram_0.
  assert (pair_ok (0, 0)) by done.
  assert (in_ram (default 0 (try_from_u 32 (SOUND_RAM_SIZE - 1)))) as He.
  { rewrite try_from_u_in; [|by rewrite spu2_size_value]. cbn. rewrite spu2_size_value. lia. }
  split; cbn [default_core voices pitch_mod_mask noise_mask voice_dry_left voice_dry_right
    voice_effect_left voice_effect_right mix attributes endx key_on_pending key_off_pending
    irq_address transfer_address effect_start effect_end effect_addresses effect_coefficients
    master_volume effect_volume input_a_volume input_b_volume effects noise core_status];
    rewrite ?Forall_cons, ?Forall_nil; try tauto.
  - split; [done|apply Forall_replicate, spu2_default_voice_ok].
  - split; [done|by apply Forall_replicate].
  - split; [done|by apply Forall_replicate].
  - apply effects_new_ok.
  - by split.
Qed.

Lemma spu2_new_ok : spu2_ok Spu2.new.
Proof.
  split; [by split| | |apply u16_0].
  - split; [done|apply Forall_replicate, default_core_ok].
  - split; [apply length_replicate|apply Forall_replicate, u16_0].
Qed.

(** ** Cores *)

Lemma bit_u32 i : in_u 32 (shl 32 1 i).
Proof. by apply in_u_shl. Qed.

Lemma spu2_clear_u32 x y : in_u 32 x -> in_u 32 y -> in_u 32 (x .& bnot 32 y).
Proof. intros Hx Hy. apply in_u_land_l; [apply (in_u_bnot 32 y); [lia|done]|done]. Qed.

Lemma switch_voices_ok on off vs : forall index e,
  Forall voice_ok vs -> in_u 32 e ->
  let (vs', e') := Core.switch_voices index on off vs e in
  length vs' = length vs /\ Forall voice_ok vs' /\ in_u 32 e'.
Proof.
  induction vs as [|v vs IH]; intros index e Hvs He; [done|].
  apply Forall_cons in Hvs as [Hv Hvs]. cbn [Core.switch_voices]. cbn zeta.
  set (v1 := if has_bits off _ then _ else v).
  assert (voice_ok v1) as Hv1 by (unfold v1; destruct (has_bits off _); [by apply spu2_key_off_ok|done]).
  clearbody v1. destruct (has_bits on _).
  - specialize (IH (index + 1) (e .& bnot 32 (shl 32 1 index)) Hvs
      (spu2_clear_u32 _ _ He (bit_u32 index))).
    destruct (Core.switch_voices _ _ _ _ _) as [vs' e']. destruct IH as (Hl & Ha & Hu).
    split_and!; [cbn; by rewrite Hl|by constructor; [apply spu2_key_on_ok|]|done].
  - specialize (IH (index + 1) e Hvs He).
    destruct (Core.switch_voices _ _ _ _ _) as [vs' e']. destruct IH as (Hl & Ha & Hu).
    split_and!; [cbn; by rewrite Hl|by constructor|done].
Qed.

(** What decides where a core's effect unit may write. *)
Definition config (c : Core) : Z * Z * Z := (attributes c, effect_start c, effect_end c).

Lemma apply_key_switches_ok c : core_ok c ->
  core_ok (Core.apply_key_switches c) /\ config (Core.apply_key_switches c) = config c.
Proof.
  intros Hc. unfold Core.apply_key_switches. cbn zeta.
  destruct (core_voices_ok c Hc) as [Hl Hv]. pose proof (switches_ok c Hc) as Hs.
  rewrite !Forall_cons in Hs.
  pose proof (switch_voices_ok (key_on_pending c) (key_off_pending c) (voices c) 0 (endx c) Hv
    ltac:(tauto)) as Hsw.
  change (voices (c <| key_off_pending := 0 |> <| key_on_pending := 0 |>)) with (voices c).
  change (endx (c <| key_off_pending := 0 |> <| key_on_pending := 0 |>)) with (endx c).
  destruct (Core.switch_voices _ _ _ _ _) as [vs e]. destruct Hsw as (Hl' & Hv' & He).
  split; [|done]. rewrite Hl in Hl'. pose proof u32_zero. core_fields.
Qed.

Lemma check_irq_spu2 address c : core_ok c ->
  core_ok (Core.check_irq_address address c) /\ config (Core.check_irq_address address c) = config c /\
  transfer_address (Core.check_irq_address address c) = transfer_address c.
Proof. intros Hc. unfold Core.check_irq_address. destruct (_ && _); [split; [core_fields|done]|done]. Qed.

Lemma check_fetch_spu2 address c : core_ok c ->
  core_ok (Core.check_irq_fetch address c) /\ config (Core.check_irq_fetch address c) = config c.
Proof.
  intros Hc. unfold Core.check_irq_fetch. destruct (check_irq_spu2 address c Hc) as (Hc1 & <- & _).
  destruct (check_irq_spu2 ((address + 8) .& RAM_MASK) _ Hc1) as (Hc2 & <- & _). done.
Qed.

Lemma spu2_modulated_range base previous : 0 <= modulated_pitch base previous.
Proof.
  unfold modulated_pitch. rewrite try_from_u_in; [cbn; lia|]. change (2 ^ 16) with 65536. lia.
Qed.

Section weights.
Context (weights : Z -> list Z).
Context (weights_ok : forall p, length (weights p) = 4%nat /\ Forall i16 (weights p)).

Lemma noise_source_ok c bit : core_ok c ->
  exists ns g, (if has_bits (noise_mask c) bit then
      let (sample, g) := NoiseGenerator.step (noise c) in (Some sample, c <| noise := g |>)
    else (None, c)) = (ns, c <| noise := g |>) /\ from_option i16 True ns /\ u16 (state g).
Proof.
  intros Hc. pose proof (core_noise_ok c Hc) as Hn. destruct (has_bits _ _).
  - exists (Some (to_i 16 (NoiseGenerator.next (state (noise c))))),
      (mkNoise (NoiseGenerator.next (state (noise c)))). split; [done|].
    pose proof (Noise.next_u16 _ Hn). split; [|done]. by apply to_i_range.
  - exists None, (noise c). split; [by destruct c|done].
Qed.

Lemma core_render_voice_ok core_index ram index m c :
  ram_ok ram -> core_ok c -> 0 <= index < 24 ->
  yields (fun _ c' => core_ok c' /\ config c' = config c)
    (Core.render_voice weights core_index ram index m c).
Proof using weights_ok.
  intros Hram Hc Hi. unfold Core.render_voice. destruct (core_voices_ok c Hc) as [Hl Hv].
  destruct (lookup_lt_is_Some_2 (voices c) (Z.to_nat index)) as [v Ev].
  { rewrite Hl. unfold VOICES_PER_CORE. lia. }
  rewrite Ev. pose proof (Forall_lookup_1 _ _ _ _ Hv Ev) as Hvo.
  cbn zeta. set (effective := if _ && _ then _ else pitch v).
  assert (0 <= effective) as Heff.
  { unfold effective. destruct (_ && _); [apply spu2_modulated_range|by apply pitch_ok]. }
  clearbody effective. set (bit := shl 32 1 index).
  destruct (noise_source_ok c bit Hc) as (ns & g & -> & Hns & Hg).
  assert (core_ok (c <| noise := g |>)) as Hc1 by core_fields.
  change (config c) with (config (c <| noise := g |>)).
  set (c1 := c <| noise := g |>) in *. assert (voices c1 = voices c) as Evs by done. clearbody c1.
  destruct (spu2_voice_render_ok weights weights_ok ram effective ns v Hram Hvo Heff Hns)
    as (out & v' & -> & Hd & Hf & Hv'). cbn [map_err].
  assert (core_ok (c1 <| voices := <[Z.to_nat index := v']> (voices c1) |>)) as Hc2.
  { pose proof (core_voices_ok c1 Hc1) as [Hl1 Hv1].
    assert (length (<[Z.to_nat index := v']> (voices c1)) = VOICES_PER_CORE) by by rewrite length_insert.
    assert (Forall voice_ok (<[Z.to_nat index := v']> (voices c1))) by by apply Forall_insert.
    core_fields. }
  change (config c1) with (config (c1 <| voices := <[Z.to_nat index := v']> (voices c1) |>)).
  set (c2 := c1 <| voices := _ |>) in *. clearbody c2.
  set (c3 := match fetched out with Some _ => _ | None => c2 end).
  assert (core_ok c3 /\ config c3 = config c2) as [Hc3 <-].
  { unfold c3. destruct (fetched out); [by apply check_fetch_spu2|done]. }
  clearbody c3. apply yields_ok. destruct (loop_end out); [|done].
  split; [|done]. assert (in_u 32 (endx c3 .| bit)).
  { pose proof (switches_ok c3 Hc3) as Hm. rewrite !Forall_cons in Hm.
    apply in_u_lor; [lia|tauto|apply bit_u32]. }
  core_fields.
Qed.

Lemma core_render_voices_ok core_index ram n : forall index m c,
  ram_ok ram -> core_ok c -> 0 <= index -> index + Z.of_nat n <= 24 ->
  yields (fun _ c' => core_ok c' /\ config c' = config c)
    (Core.render_voices weights core_index ram index n m c).
Proof using weights_ok.
  induction n as [|n IH]; intros index m c Hram Hc Hi Hn; cbn [Core.render_voices];
    [by apply yields_ok|].
  eapply yields_bind; [apply core_render_voice_ok; [done|done|lia]|]. intros m' c' (Hc' & E).
  rewrite <- E. apply IH; [done|done|lia|lia].
Qed.

(** The bytes a core with these registers may write while it renders. *)
Definition work_area (cfg : Z * Z * Z) (i : Z) : Prop :=
  has_bits cfg.1.1 CORE_ATTR_ENABLE = true /\ has_bits cfg.1.1 CORE_ATTR_EFFECT_ENABLE = true /\
  normalize_address cfg.1.2 <= i < normalize_address cfg.2 + 2.

Lemma core_run_effects_ok ram m c :
  has_bits (attributes c) CORE_ATTR_ENABLE = true -> ram_ok ram -> core_ok c ->
  yields (fun wet s' => i16 wet.1 /\ i16 wet.2 /\ ram_ok s'.1 /\ core_ok s'.2 /\
      config s'.2 = config c /\
      forall i, ~ work_area (config c) i -> Buffer.cell s'.1 i = Buffer.cell ram i)
    (Core.run_effects ram m c).
Proof using.
  intros Hen Hram Hc. unfold Core.run_effects.
  destruct (has_bits (attributes c) CORE_ATTR_EFFECT_ENABLE) eqn:Ee;
    [|by apply yields_ok; split_and!; try done; apply i16_bounds].
  destruct (effect_process_ok (E := Spu2Error) ram (effect_start c) (effect_end c)
    (effect_addresses c) (effect_coefficients c) true
    (clamp_i64_to_i16 (wet_left m), clamp_i64_to_i16 (wet_right m)) (effects c))
    as ([[wet ram'] fx] & -> & Hw1 & Hw2 & Hram' & Hfx & Hsame);
    [by apply effects_field|done|by apply effect_addresses_ok|by apply effect_coefficients_ok|].
  apply yields_ok. cbn [fst snd] in *. split_and!; try done; [core_fields|].
  intros i Hi. apply Hsame. intros Hin. by apply Hi.
Qed.

Lemma core_render_ok core_index ram input c :
  ram_ok ram -> core_ok c ->
  yields (fun f s' => i16 (left f) /\ i16 (right f) /\ ram_ok s'.1 /\ core_ok s'.2 /\
      config s'.2 = config c /\
      forall i, ~ work_area (config c) i -> Buffer.cell s'.1 i = Buffer.cell ram i)
    (Core.render weights core_index ram input c).
Proof using weights_ok.
  intros Hram Hc. unfold Core.render.
  destruct (apply_key_switches_ok c Hc) as [Hc1 <-]. cbn zeta.
  set (c1 := Core.apply_key_switches c) in *. clearbody c1.
  assert (i16 0) as H0 by by apply i16_bounds.
  destruct (has_bits (attributes c1) CORE_ATTR_ENABLE) eqn:Een; cbn [negb]; [|by apply yields_ok].
  destruct (core_render_voices_ok core_index ram VOICES_PER_CORE 0 (mkMix 0 0 0 0 0) c1 Hram Hc1
    ltac:(lia) ltac:(by vm_compute)) as (m & c2 & -> & Hc2 & Ecfg).
  assert (has_bits (attributes c2) CORE_ATTR_ENABLE = true) as Een2
    by (injection Ecfg as -> _ _; done).
  rewrite <- Ecfg. clear Ecfg Een Hc1 c1 Hc c. eapply yields_bind.
  { apply (core_run_effects_ok ram _ c2 Een2 Hram Hc2). }
  intros wet [ram' c3] (Hw1 & Hw2 & Hram' & Hc3 & Ecfg & Hsame). cbn [fst snd] in *.
  cbn zeta. destruct (negb _); apply yields_ok; cbn [fst snd left right default_frame];
    split_and!; try done; apply clamp_i16_range.
Qed.
End weights.

(** ** The unit *)

(** Both cores keep their configuration and what they leave alone. *)
Definition confined (s s' : Spu2) : Prop :=
  config <$> cores s' = config <$> cores s /\
  forall i, Forall (fun cfg => ~ work_area cfg i) (config <$> cores s) ->
    Buffer.cell (spu_ram s') i = Buffer.cell (spu_ram s) i.

#[export] Instance confined_preorder : PreOrder confined.
Proof.
  split; [done|]. intros s1 s2 s3 [E1 H1] [E2 H2]. split; [congruence|].
  intros i Hi. rewrite H2 by by rewrite E1. by apply H1.
Qed.

(** Each voice's weights and the cores of a well-formed unit. *)
Section render.
Context (weights : Z -> list Z).
Context (weights_ok : forall p, length (weights p) = 4%nat /\ Forall i16 (weights p)).

Lemma put_core_ok s index core ram :
  spu2_ok s -> core_ok core -> ram_ok ram ->
  spu2_ok (s <| spu_ram := ram |> <| cores := <[index := core]> (cores s) |>).
Proof.
  intros Hs Hc Hr. pose proof (cores_ok s Hs) as [Hl Ha].
  assert (length (<[index := core]> (cores s)) = CORE_COUNT) by by rewrite length_insert.
  assert (Forall core_ok (<[index := core]> (cores s))) by by apply Forall_insert.
  spu2_fields.
Qed.

Lemma core_at s index : spu2_ok s -> (index < 2)%nat ->
  exists core, cores s !! index = Some core /\ core_ok core.
Proof.
  intros Hs Hi. destruct (cores_ok s Hs) as [Hl Ha].
  destruct (lookup_lt_is_Some_2 (cores s) index) as [core E]; [rewrite Hl; exact Hi|].
  exists core. split; [done|]. exact (Forall_lookup_1 _ _ _ _ Ha E).
Qed.

Lemma render_core_ok index input s :
  spu2_ok s -> (index < 2)%nat ->
  yields (fun f s' => i16 (left f) /\ i16 (right f) /\ spu2_ok s' /\ confined s s')
    (Spu2.render_core weights index input s).
Proof using weights_ok.
  intros Hs Hi. unfold Spu2.render_core. destruct (core_at s index Hs Hi) as (core & E & Hc).
  rewrite E.
  destruct (core_render_ok weights weights_ok index (spu_ram s) input core (spu2_ram_ok s Hs) Hc)
    as (f & [ram c'] & -> & Hl & Hr & Hram & Hc' & Ecfg & Hsame). cbn [fst snd] in *.
  apply yields_ok. split_and!; try done; [by apply put_core_ok|]. split.
  - cbn [modify cores spu_ram]. rewrite list_fmap_insert, Ecfg. apply list_insert_id.
    by rewrite list_lookup_fmap, E.
  - intros i Hall. apply Hsame. rewrite Forall_fmap in Hall.
    exact (Forall_lookup_1 _ _ _ _ Hall E).
Qed.

Lemma request_bits_u16 cs : forall index info,
  u16 info -> u16 (Spu2.request_bits index cs info).
Proof.
  induction cs as [|c cs IH]; intros index info Hi; [done|]. cbn [Spu2.request_bits].
  apply IH. destruct (irq_request c); [|done]. apply in_u_lor; [lia|done|by apply in_u_shl].
Qed.

Lemma refresh_ok s : spu2_ok s -> spu2_ok (Spu2.refresh_irq_info s).
Proof.
  intros Hs. unfold Spu2.refresh_irq_info.
  pose proof (request_bits_u16 (cores s) 0 (irq_info s) (irq_info_ok s Hs)). spu2_fields.
Qed.

Lemma spu2_frame_ok inputs s :
  spu2_ok s ->
  yields (fun f s' => i16 (left (final_output f)) /\ i16 (right (final_output f)) /\
      spu2_ok s' /\ confined s s')
    (Spu2.render_frame weights inputs s).
Proof using weights_ok.
  intros Hs. unfold Spu2.render_frame.
  eapply yields_bind; [apply (render_core_ok 0); [done|lia]|].
  intros f0 s1 (_ & _ & Hs1 & Hc1). cbn zeta.
  eapply yields_bind; [apply (render_core_ok 1); [done|lia]|].
  intros f1 s2 (Hl & Hr & Hs2 & Hc2). apply yields_ok. split_and!; try done.
  - by apply refresh_ok.
  - by etransitivity; [|exact Hc2].
Qed.

Lemma spu2_frames_ok inputs : forall s,
  spu2_ok s ->
  yields (fun out s' => length out = (2 * length inputs)%nat /\ Forall i16 out /\
      spu2_ok s' /\ confined s s')
    (Spu2.render_frames weights inputs s).
Proof using weights_ok.
  induction inputs as [|input inputs IH]; intros s Hs; cbn [Spu2.render_frames];
    [by apply yields_ok|].
  eapply yields_bind; [by apply spu2_frame_ok|]. intros f s1 (Hl & Hr & Hs1 & Hc).
  eapply yields_bind; [by apply IH|]. intros rest s2 (Hlen & Hall & Hs2 & Hc2).
  apply yields_ok. split_and!; try done.
  - cbn [length]. lia.
  - by repeat (apply Forall_cons; split; [done|]).
  - by etransitivity.
Qed.

(** C11: Rendering the PS2 sound unit always succeeds: whatever the registers, the voices,
    the inputs and the sound RAM hold, a buffer of two samples per input frame is filled
    with signed sixteen-bit samples without an ADPCM failure, an overflow or an access
    outside an array, the unit stays well formed, and no sound RAM changes outside the
    work areas of the cores whose effect unit is enabled.  A buffer of another size is
    refused with the sizes and nothing changes; rendering without inputs is rendering
    silent ones. *)
Theorem spu2_render_total inputs output_len s :
  spu2_ok s -> Z.of_nat (length inputs) * 2 < 2 ^ 64 ->
  let expected := Z.of_nat (length inputs) * 2 in
  (if output_len =? expected then
    yields (fun out s' => Z.of_nat (length out) = output_len /\ Forall i16 out /\
        spu2_ok s' /\ confined s s')
      (Spu2.render_with_inputs weights inputs output_len s)
  else Spu2.render_with_inputs weights inputs output_len s
       = (Err (OutputSize expected output_len), s)) /\
  Spu2.render weights (Z.of_nat (length inputs)) output_len s =
  Spu2.render_with_inputs weights (replicate (length inputs) (default_input, default_input))
    output_len s.
Proof using weights_ok.
  intros Hs Hm expected. unfold Spu2.render, Spu2.render_with_inputs. rewrite length_replicate.
  rewrite (proj2 (checked_mul_u_Some 64 (Z.of_nat (length inputs)) 2 _)) by done.
  rewrite Nat2Z.id. split; [|done]. fold expected.
  destruct (Z.eqb_spec output_len expected) as [->|]; [|done]. cbn [negb].
  eapply yields_mono; [by apply spu2_frames_ok|].
  intros out s' (Hl & Ha & Hs' & Hc). split_and!; try done. lia.
Qed.
End render.

(** Weights that reproduce the newest tap. *)
Definition newest_tap (p : Z) : list Z := [0; 0; 0; 0x7fff].

Lemma newest_tap_ok p : length (newest_tap p) = 4%nat /\ Forall i16 (newest_tap p).
Proof. split; [done|]. unfold newest_tap. rewrite !Forall_cons, Forall_nil, !i16_bounds. lia. Qed.

Lemma spu2_render_total_witness :
  yields (fun out s' => Z.of_nat (length out) = 6)
    (Spu2.render_with_inputs newest_tap (replicate 3 (default_input, default_input)) 6 Spu2.new).
Proof.
  destruct (proj1 (spu2_render_total newest_tap newest_tap_ok
    (replicate 3 (default_input, default_input)) 6 Spu2.new spu2_new_ok ltac:(by vm_compute)))
    as (out & s' & E & Hl & _).
  exists out, s'. exact (conj E Hl).
Defined.

(** ** Register fields *)

Lemma decode_sound_ok high low : in_ram (decode_sound_address high low).
Proof. apply spu2_ram_mask. Qed.

Lemma decode_end_ok high : in_ram (decode_effect_end high).
Proof. apply spu2_ram_mask. Qed.

Lemma decode_offset_ok high low : u16 high -> u16 low -> in_u 32 (decode_effect_offset high low).
Proof.
  intros [Hh Hh'] Hl. unfold decode_effect_offset. apply in_u_lor; [lia| |].
  - rewrite Z.shiftl_mul_pow2 by lia. unfold in_u. change (2 ^ 16) with 65536 in *.
    change (2 ^ 14) with 16384. change (2 ^ 32) with 4294967296. lia.
  - apply in_u_shiftr; [lia|]. by apply (in_u_mono 16); [lia|].
Qed.

Lemma default_u16 o : from_option u16 True o -> u16 (default 0 o).
Proof. destruct o; [done|]. intros _. apply u16_0. Qed.

Lemma try_u16 x : 0 <= x -> u16 (default 0 (try_from_u 16 x)).
Proof.
  intros Hx. unfold try_from_u. destruct (Z.ltb_spec x (2 ^ 16)); [by split|by apply u16_0].
Qed.

Lemma address_half_ok a high : 0 <= a -> u16 (address_half a high).
Proof.
  intros Ha. unfold address_half. destruct high; apply try_u16.
  - by apply Z.shiftr_nonneg.
  - apply Z.land_nonneg. by right.
Qed.

Lemma high_switch_ok x : u16 (high_switch_half x).
Proof. apply try_u16. apply Z.land_nonneg. by right. Qed.

Lemma low_switch_ok x : u16 (low_switch_half x).
Proof. apply try_u16. apply Z.land_nonneg. by right. Qed.

Lemma low_byte_shifted v : in_u 32 (Z.shiftl (v .& 0xff) 16).
Proof.
  change 0xff with (Z.ones 8). rewrite Z.land_ones, Z.shiftl_mul_pow2 by lia.
  pose proof (Z.mod_pos_bound v (2 ^ 8) ltac:(lia)) as H.
  unfold in_u. change (2 ^ 8) with 256 in *. change (2 ^ 16) with 65536.
  change (2 ^ 32) with 4294967296. lia.
Qed.

Lemma set_high_ok t v : in_u 32 t -> u16 v -> in_u 32 (set_high_switch_half t v).
Proof.
  intros Ht Hv. apply in_u_lor; [lia|by apply in_u_land_l|by apply (in_u_mono 16); [lia|]].
Qed.

Lemma set_low_ok t v : in_u 32 t -> in_u 32 (set_low_switch_half t v).
Proof. intros Ht. apply in_u_lor; [lia|by apply in_u_land_l|apply low_byte_shifted]. Qed.

Lemma direct_volume_range r : -16384 <= direct_volume r <= 16383.
Proof.
  unfold direct_volume. change 0x7fff with (Z.ones 15). rewrite Z.land_ones by lia.
  pose proof (Z.mod_pos_bound r (2 ^ 15) ltac:(lia)) as H. set (d := r mod 2 ^ 15) in *.
  change (2 ^ 15) with 32768 in H. change 0x4000 with (2 ^ 14). rewrite has_bits_pow2 by lia.
  rewrite Z.testbit_eqb by lia. change (2 ^ 14) with 16384.
  pose proof (Z.div_mod d 16384 ltac:(lia)). pose proof (Z.mod_pos_bound d 16384 ltac:(lia)).
  assert (0 <= d / 16384 < 2) as Hq.
  { split; [apply Z.div_pos|apply Z.div_lt_upper_bound]; lia. }
  rewrite (Z.mod_small _ _ Hq). destruct (Z.eqb_spec (d / 16384) 1); lia.
Qed.

Lemma current_volume_ok r : u16 (current_volume r).
Proof. apply in_u_of_i. lia. Qed.

(** ** Reading registers *)

Definition valid_register (address : Z) : Prop :=
  SPU2_BASE <= address <= SPU2_END /\ address mod 2 = 0.

#[export] Instance spu2_valid_register_dec address : Decision (valid_register address).
Proof. unfold valid_register. apply _. Defined.

Lemma decode_register_spec address :
  decode_register address =
  if decide (valid_register address) then Ok (address - SPU2_BASE) else Err (InvalidRegister address).
Proof.
  unfold decode_register, valid_register.
  assert (has_bits address 1 = negb (address mod 2 =? 0)) as ->.
  { unfold has_bits. change 1 with (Z.ones 1) at 1. by rewrite Z.land_ones by lia. }
  destruct (Z.leb_spec SPU2_BASE address), (Z.leb_spec address SPU2_END),
    (Z.eqb_spec (address mod 2) 0); cbn [negb andb orb]; case_decide; (done || lia).
Qed.

(** A stored halfword of the bank. *)
Lemma register_at s offset : spu2_ok s -> 0 <= offset <= REGISTER_END ->
  exists v, registers s !! register_index offset = Some v /\ u16 v.
Proof.
  intros Hs Ho. destruct (registers_ok s Hs) as [Hl Ha]. unfold REGISTER_END in Ho.
  assert (offset / 2 < 1024) by (apply Z.div_lt_upper_bound; lia).
  assert (0 <= offset / 2) by (apply Z.div_pos; lia).
  destruct (lookup_lt_is_Some_2 (registers s) (register_index offset)) as [v E].
  { rewrite Hl. unfold register_index, REGISTER_HALFWORDS. lia. }
  exists v. split; [done|]. exact (Forall_lookup_1 _ _ _ _ Ha E).
Qed.

(** The windows of the decoder. *)
Lemma core_window offset index local : 0 <= offset ->
  decode_core_register offset = Some (index, local) ->
  (index < 2)%nat /\ 0 <= local < 0x400 /\ offset = Z.of_nat index * 0x400 + local /\
  offset < PRIMARY_BASE.
Proof.
  unfold decode_core_register, CORE_STRIDE, PRIMARY_BASE. intros Ho.
  destruct (Z.ltb_spec offset 0x400); [intros [= <- <-]; lia|].
  destruct (Z.ltb_spec offset 0x760); [intros [= <- <-]; lia|done].
Qed.

Lemma voice_window local : 0 <= local < VOICE_PARAMETER_END ->
  (Z.to_nat (local / VOICE_STRIDE) < 24)%nat.
Proof.
  unfold VOICE_PARAMETER_END, VOICE_STRIDE. intros Hl.
  assert (local / 16 < 24) by (apply Z.div_lt_upper_bound; lia). lia.
Qed.

Lemma voice_address_window local voice register :
  decode_voice_address local = Some (voice, register) ->
  (voice < 24)%nat /\ 0 <= register < 12 /\
  local = VOICE_ADDRESS_BASE + 12 * Z.of_nat voice + register /\ local < 0x2e0.
Proof.
  unfold decode_voice_address, VOICE_ADDRESS_BASE, VOICE_ADDRESS_STRIDE.
  change (0x1c0 + 0x0c * Z.of_nat VOICES_PER_CORE) with 0x2e0.
  destruct (Z.leb_spec 0x1c0 local); [|done]. destruct (Z.ltb_spec local 0x2e0); [|done].
  cbn [andb negb]. intros [= <- <-].
  pose proof (Z.div_mod (local - 0x1c0) 12 ltac:(lia)).
  pose proof (Z.mod_pos_bound (local - 0x1c0) 12 ltac:(lia)).
  assert ((local - 0x1c0) / 12 < 24) by (apply Z.div_lt_upper_bound; lia).
  assert (0 <= (local - 0x1c0) / 12) by (apply Z.div_pos; lia). lia.
Qed.

Lemma voice_at core i : core_ok core -> (i < 24)%nat ->
  exists v, voices core !! i = Some v /\ voice_ok v.
Proof.
  intros Hc Hi. destruct (core_voices_ok core Hc) as [Hl Ha].
  destruct (lookup_lt_is_Some_2 (voices core) i) as [v E]; [rewrite Hl; exact Hi|].
  exists v. split; [done|]. exact (Forall_lookup_1 _ _ _ _ Ha E).
Qed.

Lemma voice_parameter_ok r v : voice_ok v -> from_option u16 True (voice_parameter r v).
Proof.
  intros Hv. destruct (volumes_ok v Hv), (adsr_ok v Hv). pose proof (pitch_ok v Hv).
  destruct (envelope_ok v Hv) as [Hlevel _]. unfold voice_parameter.
  repeat (destruct (_ =? _); [cbn; first [done|apply current_volume_ok|unfold in_u; change (2 ^ 16) with 65536; lia]|]).
  done.
Qed.

Lemma voice_address_ok r v : voice_ok v -> from_option u16 True (voice_address_register r v).
Proof.
  intros Hv. pose proof (start_ok v Hv). pose proof (repeat_ok v Hv). pose proof (current_ok v Hv).
  unfold voice_address_register.
  destruct (_ || _); [apply address_half_ok; lia|]. destruct (_ || _); [apply address_half_ok; lia|].
  destruct (_ || _); [|done]. apply address_half_ok. rewrite try_from_u_in; [cbn; lia|].
  by apply in_ram_u32.
Qed.

Lemma read_core_register_ok core local v : core_ok core -> u16 v ->
  succeeds u16 (Spu2.read_core_register core local (Ok v)).
Proof.
  intros Hc Hv. unfold Spu2.read_core_register.
  pose proof (core_halves_ok core Hc) as Hh. rewrite !Forall_cons in Hh.
  repeat (destruct (local =? _); cbn [orb];
    [apply succeeds_ok; first [apply high_switch_ok|apply low_switch_ok|apply u16_0|idtac]|]);
    [|by apply succeeds_ok].
  apply in_u_lor; [lia|tauto|]. by destruct (has_bits _ _).
Qed.

Lemma spu2_read_ok address s : spu2_ok s -> valid_register address ->
  succeeds u16 (Spu2.read_register address s).
Proof.
  intros Hs Ha. unfold Spu2.read_register. rewrite decode_register_spec, decide_True by done.
  cbn [obind]. destruct Ha as [Ha _]. set (offset := address - SPU2_BASE) in *.
  assert (0 <= offset) as Ho by lia. clearbody offset.
  destruct (Z.ltb_spec REGISTER_END offset) as [|Hend]; [apply succeeds_ok, u16_0|].
  destruct (register_at s offset Hs ltac:(lia)) as (v & -> & Hv). cbn [expect].
  destruct (offset =? IRQ_INFO); [by apply succeeds_ok, irq_info_ok|].
  destruct (decode_core_register offset) as [[index local]|] eqn:Ed; [|by apply succeeds_ok].
  destruct (core_window offset index local Ho Ed) as (Hi & Hl & _).
  destruct (core_at s index Hs Hi) as (core & -> & Hc). cbn [expect obind].
  destruct (Z.ltb_spec local VOICE_PARAMETER_END).
  - destruct (voice_at core _ Hc (voice_window local ltac:(lia))) as (w & -> & Hw). cbn [expect obind].
    pose proof (voice_parameter_ok (local mod VOICE_STRIDE) w Hw).
    destruct (voice_parameter _ w); by apply succeeds_ok.
  - destruct (decode_voice_address local) as [[i r]|] eqn:Ev; [|by apply read_core_register_ok].
    destruct (voice_address_window local i r Ev) as (Hi' & _).
    destruct (voice_at core i Hc Hi') as (w & -> & Hw). cbn [expect obind].
    pose proof (voice_address_ok r w Hw).
    destruct (voice_address_register r w); by apply succeeds_ok.
Qed.

(** ** The transfer ports *)

(** The address a core's port is at. *)
Definition port (c : Core) : Z := normalize_ram_address (transfer_address c).

Definition moved (a : Z) : Z := (a + 2) mod SOUND_RAM_SIZE.

Lemma port_ok c : in_ram (port c) /\ port c mod 2 = 0.
Proof. apply normalize_ok. Qed.

Lemma mask_mod x : x .& RAM_MASK = x mod SOUND_RAM_SIZE.
Proof.
  unfold RAM_MASK. rewrite spu2_size_value. change (2097152 - 1) with (Z.ones 21).
  by rewrite Z.land_ones by lia.
Qed.

Lemma normalize_even a : in_ram a -> a mod 2 = 0 -> normalize_ram_address a = a.
Proof.
  intros Ha He. unfold normalize_ram_address. rewrite mask_mod, Z.mod_small by done.
  change 1 with (Z.ones 1). rewrite clear_low_bits; [change (2 ^ 1) with 2; lia|lia|].
  rewrite spu2_size_value in Ha. unfold in_u. change (2 ^ 64) with 18446744073709551616. lia.
Qed.

Lemma even_next a : in_ram a -> a mod 2 = 0 ->
  a + 1 < SOUND_RAM_SIZE /\ (a + 1) .& RAM_MASK = a + 1.
Proof.
  intros Ha He. assert (a + 1 < SOUND_RAM_SIZE) as H.
  { rewrite spu2_size_value in *. pose proof (Z.div_mod a 2 ltac:(lia)). lia. }
  split; [done|]. rewrite mask_mod, Z.mod_small; lia.
Qed.

Lemma moved_ok a : in_ram a -> a mod 2 = 0 -> in_ram (moved a) /\ moved a mod 2 = 0.
Proof.
  intros Ha He. unfold moved. rewrite spu2_size_value in *. split; [by apply Z.mod_pos_bound|].
  apply mod_even_even; [done|lia|]. by rewrite <- Z.add_mod_idemp_l, He.
Qed.

(** The port after a halfword. *)
Definition advanced (c : Core) : Core :=
  (Core.check_irq_address (port c) c) <| transfer_address := moved (port c) |>.

Lemma advanced_ok c : core_ok c -> core_ok (advanced c) /\ config (advanced c) = config c /\
  port (advanced c) = moved (port c).
Proof.
  intros Hc. unfold advanced. destruct (port_ok c) as [Hp He].
  destruct (check_irq_spu2 (port c) c Hc) as (Hc1 & <- & _).
  destruct (moved_ok _ Hp He) as [Hm Hme]. set (c1 := Core.check_irq_address _ c) in *.
  set (a := moved (port c)) in *. clearbody c1 a. split_and!; [core_fields|done|].
  unfold port. cbn [modify transfer_address]. by apply normalize_even.
Qed.

Lemma next_address a : in_ram a ->
  default 0 (try_from_u 32 ((a + 2) .& RAM_MASK)) = moved a.
Proof.
  intros Ha. rewrite try_from_u_in; [cbn; by rewrite mask_mod|]. apply in_ram_u32, spu2_ram_mask.
Qed.

(** The halfword [v] at [a]. *)
Definition put_half (ram : Buffer) (a v : Z) : Buffer := Buffer.write_cells ram a [v mod 256; v / 256].

Lemma put_half_ok ram a v : ram_ok ram -> u16 v -> ram_ok (put_half ram a v).
Proof.
  intros [Hl Hb] Hv. destruct (half_bytes v Hv). unfold put_half.
  split; [by rewrite Buffer.write_cells_len|]. apply Buffer.write_cells_ok; [done|by rewrite !Forall_cons, Forall_nil].
Qed.

Lemma write_transfer_spec {E} v ram c : ram_ok ram -> core_ok c ->
  Core.write_transfer_halfword v ram c =
  (Ok tt : outcome E unit, (put_half ram (port c) v, advanced c)).
Proof.
  intros [Hl _] Hc. unfold Core.write_transfer_halfword. fold (port c).
  destruct (port_ok c) as [Hp He]. destruct (even_next _ Hp He) as [Hn ->].
  rewrite Buffer.set_in by lia. rewrite Buffer.set_in by (cbn; lia).
  by rewrite next_address.
Qed.

Lemma read_transfer_spec {E} ram c : ram_ok ram -> core_ok c ->
  Core.read_transfer_halfword ram c =
  (Ok (from_le [Buffer.cell ram (port c); Buffer.cell ram (port c + 1)]) : outcome E Z, advanced c).
Proof.
  intros [Hl _] Hc. unfold Core.read_transfer_halfword. fold (port c).
  destruct (port_ok c) as [Hp He]. destruct (even_next _ Hp He) as [Hn ->].
  rewrite !Buffer.get_in by lia. cbn [mbind option_bind]. by rewrite next_address.
Qed.

Lemma read_half_u16 ram a b : ram_ok ram -> u16 (from_le [Buffer.cell ram a; Buffer.cell ram b]).
Proof. intros [_ Hb]. apply from_le_2_u16; by apply Buffer.cell_u8. Qed.

(** ** Writing registers *)

Notation writes r := (yields (fun _ s' => spu2_ok s') r).

Lemma put_core_only s index core : spu2_ok s -> core_ok core ->
  spu2_ok (s <| cores := <[index := core]> (cores s) |>).
Proof.
  intros Hs Hc. pose proof (put_core_ok s index core (spu_ram s) Hs Hc (spu2_ram_ok s Hs)) as H.
  by destruct s.
Qed.

Lemma write_attributes_ok index v core info : core_ok core -> u16 v -> u16 info ->
  let (core', info') := Spu2.write_attributes index v core info in core_ok core' /\ u16 info'.
Proof.
  intros Hc Hv Hi. unfold Spu2.write_attributes. cbn zeta.
  assert (core_ok (core <| attributes := v |>)) as Hc1 by core_fields.
  set (c1 := core <| attributes := v |>) in *. clearbody c1. clear Hc core.
  set (c2 := if has_bits v CORE_ATTR_DMA_MASK then _ else c1).
  assert (core_ok c2) as Hc2.
  { unfold c2. destruct (has_bits _ _); [|done].
    assert (u16 (core_status c1 .& bnot 16 STATUS_DMA_READY)).
    { pose proof (core_halves_ok c1 Hc1) as Hh. rewrite !Forall_cons in Hh.
      apply in_u_land_bnot; [lia|tauto|by split]. }
    core_fields. }
  clearbody c2. destruct (has_bits v CORE_ATTR_IRQ_ENABLE); [done|]. split; [core_fields|].
  apply in_u_land_bnot; [lia|done|by apply in_u_shl].
Qed.

Lemma write_effect_address_ok local v core : core_ok core -> in_u 32 v ->
  EFFECT_ADDRESS_FIRST <= local <= EFFECT_ADDRESS_LAST ->
  yields (fun _ c => core_ok c) (Spu2.write_effect_address local v core).
Proof.
  intros Hc Hv Hl. unfold Spu2.write_effect_address, EFFECT_ADDRESS_FIRST, EFFECT_ADDRESS_LAST in *.
  destruct (_ <=? 2); [|by apply yields_ok].
  destruct (effect_addresses_ok core Hc) as [Hn Ha].
  assert ((local - 0x2e4) / 4 < 22) by (apply Z.div_lt_upper_bound; lia).
  assert (0 <= (local - 0x2e4) / 4) by (apply Z.div_pos; lia).
  destruct (lookup_lt_is_Some_2 (effect_addresses core) (Z.to_nat ((local - 0x2e4) / 4))) as [x ->];
    [lia|].
  assert (addresses_ok (<[Z.to_nat ((local - 0x2e4) / 4) := v]> (effect_addresses core))).
  { split; [by rewrite length_insert|by apply Forall_insert]. }
  apply yields_ok. core_fields.
Qed.

Lemma core_key_on_ok mask c : core_ok c -> in_u 32 mask -> core_ok (Core.key_on mask c).
Proof.
  intros Hc Hm. unfold Core.key_on. assert (in_u 32 (key_on_pending c .| mask)); [|core_fields].
  pose proof (switches_ok c Hc) as Hs. rewrite !Forall_cons in Hs. apply in_u_lor; [lia|tauto|done].
Qed.

Lemma core_key_off_ok mask c : core_ok c -> in_u 32 mask -> core_ok (Core.key_off mask c).
Proof.
  intros Hc Hm. unfold Core.key_off. assert (in_u 32 (key_off_pending c .| mask)); [|core_fields].
  pose proof (switches_ok c Hc) as Hs. rewrite !Forall_cons in Hs. apply in_u_lor; [lia|tauto|done].
Qed.

(** Walk down a chain of address tests; [tac] closes each branch. *)
Ltac spu2_chain tac :=
  repeat lazymatch goal with
  | |- context [if ?b then _ else _] => destruct b eqn:?; [solve [tac]|]
  end.

Lemma write_plain_ok local v sa ea ee core :
  core_ok core -> u16 v ->
  from_option (fun a => in_ram a) True sa -> from_option (in_u 32) True ea ->
  from_option (fun a => in_ram a) True ee ->
  yields (fun _ c => core_ok c) (Spu2.write_plain_register local v sa ea ee core).
Proof.
  intros Hc Hv Hsa Hea Hee. unfold Spu2.write_plain_register.
  pose proof (switches_ok core Hc) as Hs. rewrite !Forall_cons in Hs.
  destruct Hs as (H1 & H2 & H3 & H4 & H5 & H6 & H7 & H8 & H9 & _).
  pose proof (set_high_ok _ _ H1 Hv). pose proof (set_low_ok _ v H1).
  pose proof (set_high_ok _ _ H2 Hv). pose proof (set_low_ok _ v H2).
  pose proof (set_high_ok _ _ H3 Hv). pose proof (set_low_ok _ v H3).
  pose proof (set_high_ok _ _ H4 Hv). pose proof (set_low_ok _ v H4).
  pose proof (set_high_ok _ _ H5 Hv). pose proof (set_low_ok _ v H5).
  pose proof (set_high_ok _ _ H6 Hv). pose proof (set_low_ok _ v H6).
  assert (in_u 32 v) as Hv32 by (by apply (in_u_mono 16); [lia|]).
  pose proof (low_byte_shifted v) as Hlow.
  pose proof (spu2_clear_u32 _ _ H7 Hv32). pose proof (spu2_clear_u32 _ _ H7 Hlow).
  assert (u16 (v .& 0x0fff)) by by apply in_u_land_l.
  assert (in_ram (default 0 sa)) by (destruct sa; [done|apply in_ram_0]).
  assert (in_ram (default 0 ee)) by (destruct ee; [done|apply in_ram_0]).
  assert (in_u 32 (default 0 ea)) by (destruct ea; [done|apply u32_zero]).
  pose proof (effects_set_start_ok (default 0 sa) (effects core)).
  clear H1 H2 H3 H4 H5 H6 H7 H8 H9 Hsa Hea Hee.
  spu2_chain ltac:(first
    [ apply yields_ok; first [exact Hc | apply core_key_on_ok; assumption
        | apply core_key_off_ok; assumption | core_fields]
    | apply write_effect_address_ok; [assumption|assumption|];
      match goal with E : Spu2.is_effect_address _ = true |- _ =>
        apply andb_true_iff in E as [?%Z.leb_le ?%Z.leb_le]; by split end ]).
  by apply yields_ok.
Qed.

Lemma when_ok (b : bool) (P : Z -> Prop) m : (b = true -> succeeds P m) ->
  succeeds (from_option P True) (Spu2.when b m).
Proof.
  intros Hm. unfold Spu2.when. destruct b; [|by apply succeeds_ok].
  apply succeeds_omapok. eapply succeeds_mono; [by apply Hm|]. done.
Qed.

(** The two halves of a register pair that lies in the bank. *)
Lemma pair_at s offset : spu2_ok s -> 0 <= offset -> offset + 2 <= REGISTER_END ->
  exists h l, registers s !! register_index offset = Some h /\ u16 h /\
    registers s !! register_index (offset + 2) = Some l /\ u16 l.
Proof.
  intros Hs Ho Hu. destruct (register_at s offset Hs ltac:(lia)) as (h & Eh & Hh).
  destruct (register_at s (offset + 2) Hs ltac:(lia)) as (l & El & Hl). by exists h, l.
Qed.

Lemma sound_pair_ok offset local s : spu2_ok s -> 2 <= offset -> offset + 2 <= REGISTER_END ->
  succeeds (fun a => in_ram a) (Spu2.decode_register_pair offset local s).
Proof.
  intros Hs Ho Hu. unfold Spu2.decode_register_pair. cbn zeta.
  set (high := if has_bits local 2 then _ else offset).
  destruct (pair_at s high Hs) as (h & l & -> & _ & -> & _);
    [unfold high; destruct (has_bits _ _); lia..|].
  apply succeeds_ok, decode_sound_ok.
Qed.

Lemma effect_pair_ok offset local s : spu2_ok s -> 0 <= local < 2 ^ 32 -> local <= offset ->
  offset + 2 <= REGISTER_END ->
  succeeds (in_u 32) (Spu2.decode_effect_register_pair offset local (local .& bnot 32 3) s).
Proof.
  intros Hs Hl Ho Hu. unfold Spu2.decode_effect_register_pair. cbn zeta.
  change 3 with (Z.ones 2). rewrite (clear_low_bits 32 2) by (done || lia).
  pose proof (Z.mod_pos_bound local (2 ^ 2) ltac:(lia)).
  pose proof (Z.mod_le local (2 ^ 2) ltac:(lia) ltac:(lia)).
  destruct (pair_at s (offset - local + (local - local mod 2 ^ 2)) Hs)
    as (h & l & -> & Hh & -> & Hl'); [lia..|].
  by apply succeeds_ok, decode_offset_ok.
Qed.

Lemma write_core_ok index local value s :
  spu2_ok s -> u16 value -> (index < 2)%nat -> VOICE_PARAMETER_END <= local < 0x400 ->
  Z.of_nat index * 0x400 + local < PRIMARY_BASE ->
  writes (Spu2.write_core_register index local (Z.of_nat index * 0x400 + local) value s).
Proof.
  intros Hs Hv Hi Hl Ho. unfold Spu2.write_core_register, VOICE_PARAMETER_END, PRIMARY_BASE in *.
  set (offset := Z.of_nat index * 0x400 + local) in *.
  assert (2 <= offset /\ local <= offset /\ offset + 2 <= REGISTER_END) as (Ho1 & Ho2 & Ho3)
    by (unfold offset, REGISTER_END in *; lia).
  destruct (when_ok (Spu2.is_sound_address local) (fun a => in_ram a)
    (Spu2.decode_register_pair offset local s)) as (sa & -> & Hsa);
    [intros _; by apply sound_pair_ok|].
  destruct (when_ok (Spu2.is_effect_address local) (in_u 32)
    (Spu2.decode_effect_register_pair offset local (local .& bnot 32 3) s)) as (ea & -> & Hea).
  { intros _. apply effect_pair_ok; try done. change (2 ^ 32) with 4294967296. lia. }
  destruct (when_ok (Spu2.is_effect_end local) (fun a => in_ram a)
    (omapok decode_effect_end (expect (registers s !! register_index (offset .& bnot 32 2)))))
    as (ee & -> & Hee).
  { intros Hend. assert (0 <= offset .& bnot 32 2 <= offset) as Hb.
    { apply orb_true_iff in Hend as [->%Z.eqb_eq | ->%Z.eqb_eq];
        unfold offset, EFFECT_END_HIGH, EFFECT_END_LOW;
        (assert (index = 0%nat \/ index = 1%nat) as [-> | ->] by lia); by vm_compute. }
    destruct (register_at s (offset .& bnot 32 2) Hs ltac:(lia)) as (h & -> & _).
    apply succeeds_omapok, succeeds_ok, decode_end_ok. }
  destruct (core_at s index Hs Hi) as (core & -> & Hc). cbn zeta.
  destruct (local =? CORE_ATTR).
  { pose proof (write_attributes_ok index value core (irq_info s) Hc Hv (irq_info_ok s Hs)) as Hw.
    destruct (Spu2.write_attributes _ _ _ _) as [core' info]. destruct Hw as [Hc' Hu].
    apply yields_ok. pose proof (put_core_only s index core' Hs Hc') as Hs1.
    set (s1 := s <| cores := _ |>) in *. spu2_fields. }
  destruct (local =? TRANSFER_DATA).
  { rewrite write_transfer_spec by (done || by apply spu2_ram_ok). apply yields_ok.
    apply put_core_ok; [done|by apply advanced_ok|]. apply put_half_ok; [by apply spu2_ram_ok|done]. }
  destruct (write_plain_ok local value sa ea ee core Hc Hv Hsa Hea Hee) as ([] & core' & -> & Hc').
  apply yields_ok. by apply put_core_only.
Qed.

Lemma update_voice_ok index i f s : spu2_ok s -> (index < 2)%nat -> (i < 24)%nat ->
  (forall v, voice_ok v -> voice_ok (f v)) -> writes (Spu2.update_voice index i f s).
Proof.
  intros Hs Hi Hv Hf. unfold Spu2.update_voice.
  destruct (core_at s index Hs Hi) as (core & -> & Hc). cbn [mbind option_bind].
  destruct (voice_at core i Hc Hv) as (v & -> & Hvo). cbn [mbind option_bind].
  apply yields_ok. apply put_core_only; [done|].
  destruct (core_voices_ok core Hc) as [Hl Ha].
  assert (length (<[i := f v]> (voices core)) = VOICES_PER_CORE) by by rewrite length_insert.
  assert (Forall voice_ok (<[i := f v]> (voices core))) by (apply Forall_insert; [done|by apply Hf]).
  core_fields.
Qed.

Lemma set_parameter_ok r value v : u16 value -> voice_ok v -> voice_ok (set_voice_parameter r value v).
Proof.
  intros Hu Hv. unfold set_voice_parameter.
  repeat (destruct (_ =? _);
    [spu2_voice_fields; first [split; tauto|unfold in_u in Hu; lia]|]). done.
Qed.

Lemma set_address_ok r a v : in_ram a -> voice_ok v -> voice_ok (set_voice_address r a v).
Proof.
  intros Ha Hv. unfold set_voice_address. destruct (_ || _); [spu2_voice_fields|].
  destruct (_ || _); [spu2_voice_fields|done].
Qed.

Lemma write_primary_ok index local value s :
  spu2_ok s -> u16 value -> (index < 2)%nat -> 0 <= local ->
  writes (Spu2.write_primary_register index local value s).
Proof.
  intros Hs Hv Hi Hl. unfold Spu2.write_primary_register.
  destruct (core_at s index Hs Hi) as (core & -> & Hc). cbn zeta.
  pose proof (core_volumes_ok core Hc) as Hvol. rewrite !Forall_cons in Hvol.
  assert (forall p, pair_ok p -> pair_ok (set_first p value) /\ pair_ok (set_second p value)) as Hset
    by (intros p []; by split; split).
  destruct Hvol as (H1%Hset & H2%Hset & H3%Hset & H4%Hset & _). clear Hset.
  spu2_chain ltac:(apply yields_ok, put_core_only; [exact Hs|core_fields]).
  destruct (_ && _) eqn:E; [|by apply yields_ok].
  apply andb_true_iff in E as [[Hlo%Z.leb_le Hhi%Z.leb_le]%andb_true_iff _].
  destruct (effect_coefficients_ok core Hc) as [Hn Ha].
  assert ((local - 0x14) / 2 < 10) by (apply Z.div_lt_upper_bound; lia).
  assert (0 <= (local - 0x14) / 2) by (apply Z.div_pos; lia).
  destruct (lookup_lt_is_Some_2 (effect_coefficients core) (Z.to_nat ((local - 0x14) / 2)))
    as [x ->]; [lia|].
  assert (coefficients_ok (<[Z.to_nat ((local - 0x14) / 2) := value]> (effect_coefficients core))).
  { split; [by rewrite length_insert|by apply Forall_insert]. }
  apply yields_ok, put_core_only; [done|core_fields].
Qed.

Lemma spu2_write_ok address value s :
  spu2_ok s -> u16 value -> valid_register address ->
  writes (Spu2.write_register address value s).
Proof.
  intros Hs Hv Ha. unfold Spu2.write_register. rewrite decode_register_spec, decide_True by done.
  destruct Ha as [Ha _]. cbn zeta. set (offset := address - SPU2_BASE) in *.
  assert (0 <= offset) as Ho by lia. clearbody offset.
  destruct (Z.ltb_spec REGISTER_END offset) as [|Hend]; [by apply yields_ok|].
  destruct (register_at s offset Hs ltac:(lia)) as (v & -> & _).
  assert (spu2_ok (s <| registers := <[register_index offset := value]> (registers s) |>)) as Hs1.
  { destruct (registers_ok s Hs) as [Hl Hall].
    assert (length (<[register_index offset := value]> (registers s)) = REGISTER_HALFWORDS)
      by by rewrite length_insert.
    assert (Forall u16 (<[register_index offset := value]> (registers s))) by by apply Forall_insert.
    spu2_fields. }
  set (s1 := s <| registers := _ |>) in *. clearbody s1. clear Hs s.
  destruct (offset =? IRQ_INFO).
  { assert (u16 (irq_info s1 .& value)).
    { apply in_u_land_l; [by apply (in_u_nonneg 16)|by apply irq_info_ok]. }
    apply yields_ok. spu2_fields. }
  destruct (decode_core_register offset) as [[index local]|] eqn:Ed.
  - destruct (core_window offset index local Ho Ed) as (Hi & Hl & -> & Hp).
    destruct (Z.ltb_spec local VOICE_PARAMETER_END).
    { apply update_voice_ok; [done|done|apply voice_window; lia|]. intros. by apply set_parameter_ok. }
    destruct (decode_voice_address local) as [[i r]|] eqn:Ev.
    2:{ apply write_core_ok; try done. lia. }
    destruct (voice_address_window local i r Ev) as (Hi' & Hr & El & Hu).
    unfold Spu2.write_voice_address.
    set (o := Z.of_nat index * 0x400 + local) in *.
    assert (0 <= o - (r .& 2) <= o) as Hoff.
    { change 2 with (2 ^ 1). rewrite land_pow2 by lia. change (2 ^ 1) with 2.
      destruct (Z.testbit r 1); unfold o, VOICE_ADDRESS_BASE in *; cbn; lia. }
    destruct (pair_at s1 (o - (r .& 2)) Hs1) as (h & l & Eh & _ & El' & _);
      [lia|unfold o, REGISTER_END in *; lia|].
    rewrite Eh. assert (register_index (o - (r .& 2) + 2) = (register_index (o - (r .& 2)) + 1)%nat)
      as En.
    { unfold register_index. rewrite <- (Z.mul_1_l 2) at 2. rewrite Z.div_add by lia.
      assert (0 <= (o - (r .& 2)) / 2) by (apply Z.div_pos; lia). lia. }
    rewrite <- En, El'. apply update_voice_ok; [done|done|done|]. intros.
    by apply set_address_ok; [apply decode_sound_ok|].
  - destruct (decode_primary_register offset) as [[index local]|] eqn:Ep; [|by apply yields_ok].
    unfold decode_primary_register, PRIMARY_BASE, PRIMARY_STRIDE in Ep.
    destruct (Z.leb_spec 0x760 offset), (Z.ltb_spec offset (0x760 + 0x28)),
      (Z.leb_spec (0x760 + 0x28) offset), (Z.ltb_spec offset (0x760 + 0x28 * 2));
      cbn [andb] in Ep; try done; injection Ep as <- <-; apply write_primary_ok; (done || lia).
Qed.

(** The registers outside the window. *)
Lemma spu2_invalid address value s : ~ valid_register address ->
  Spu2.read_register address s = Err (InvalidRegister address) /\
  Spu2.write_register address value s = (Err (InvalidRegister address), s).
Proof.
  intros Ha. unfold Spu2.read_register, Spu2.write_register.
  by rewrite decode_register_spec, decide_False by done.
Qed.

(** C38: The PS2 sound registers are typed and their errors exact: on a well-formed unit
    every even address of the window reads as a halfword and takes any halfword, leaving
    a well-formed unit; every other access is refused with its address and changes
    nothing.  Past the implemented bank reads give zero and writes are discarded. *)
Theorem spu2_register_file address value s :
  spu2_ok s -> u16 value ->
  (if decide (valid_register address) then
     succeeds u16 (Spu2.read_register address s) /\
     yields (fun _ s' => spu2_ok s') (Spu2.write_register address value s)
   else Spu2.read_register address s = Err (InvalidRegister address) /\
     Spu2.write_register address value s = (Err (InvalidRegister address), s)) /\
  (valid_register address -> SPU2_BASE + REGISTER_END < address ->
   Spu2.read_register address s = Ok 0 /\ Spu2.write_register address value s = (Ok tt, s)).
Proof.
  intros Hs Hv. split.
  - destruct (decide (valid_register address)).
    + split; [by apply spu2_read_ok|by apply spu2_write_ok].
    + by apply spu2_invalid.
  - intros Ha Hend. unfold Spu2.read_register, Spu2.write_register.
    rewrite decode_register_spec, decide_True by done. cbn [obind].
    by rewrite (proj2 (Z.ltb_lt REGISTER_END (address - SPU2_BASE))) by lia.
Qed.

Lemma spu2_register_file_witness :
  succeeds u16 (Spu2.read_register (SPU2_BASE + STATUS) Spu2.new) /\
  Spu2.write_register (SPU2_BASE + 0x900) 7 Spu2.new = (Ok tt, Spu2.new).
Proof.
  assert (u16 7) as H7 by by split.
  assert (valid_register (SPU2_BASE + 0x900)) as Hv by (split; [by vm_compute|reflexivity]).
  split.
  - exact (proj1 (proj1 (spu2_register_file (SPU2_BASE + STATUS) 7 Spu2.new spu2_new_ok H7))).
  - apply (proj2 (spu2_register_file (SPU2_BASE + 0x900) 7 Spu2.new spu2_new_ok H7)); [done|].
    reflexivity.
Defined.
