(* ===== verification/Ps2SpuPorts.v ===== *)
(** * The transfer ports of the PS2 sound unit

    The unit keeps the promises the DMA controller and the bus of the I/O processor rely
    on, and the words sent to a port are the words its RAM gives back, across the end of
    sound RAM too. *)

From S2P Require Import Prelude Records MachineInt Buffer Ps2Irq.
From S2P Require Import SpuCommon SpuCommonFacts Buffer Ps2Dma Ps2DmaFacts Ps2BusFacts.
From S2P Require Import Ps2Effects Ps2Spu Ps2VoiceFacts Ps2SpuFacts.

#[local] Opaque SOUND_RAM_SIZE.

#[export] Instance core_inhabited : Inhabited Core := populate default_core.

Notation port_of c s := (port (cores s !!! SoundDmaChannel.core c)).

(** Byte [d] of a word. *)
Definition byte (d w : Z) : Z := w / 2 ^ (8 * d) mod 256.

(** How far [i] is past [p] around the end of sound RAM. *)
Definition past (p i : Z) : Z := (i - p) mod SOUND_RAM_SIZE.

Lemma past_range p i : 0 <= past p i < SOUND_RAM_SIZE.
Proof. unfold past. apply Z.mod_pos_bound. by rewrite spu2_size_value. Qed.

Lemma past_at p d : 0 <= d < SOUND_RAM_SIZE -> past p ((p + d) mod SOUND_RAM_SIZE) = d.
Proof.
  intros Hd. unfold past. rewrite Zminus_mod_idemp_l. replace (p + d - p) with d by lia. by apply Z.mod_small.
Qed.

Lemma past_moved p i k : 0 <= k < SOUND_RAM_SIZE ->
  past ((p + k) mod SOUND_RAM_SIZE) i =
  if past p i <? k then past p i - k + SOUND_RAM_SIZE else past p i - k.
Proof.
  intros Hk. pose proof (past_range p i) as Hr. unfold past in *.
  rewrite Zminus_mod_idemp_r. replace (i - (p + k)) with (i - p - k) by lia.
  rewrite <- Zminus_mod_idemp_l. set (x := (i - p) mod SOUND_RAM_SIZE) in *.
  destruct (Z.ltb_spec x k).
  - symmetry. apply (Z.mod_unique_pos _ _ (-1)); lia.
  - apply Z.mod_small. lia.
Qed.

(** ** One word *)

Lemma half_cell ram p v i : in_ram p -> p mod 2 = 0 -> in_ram i ->
  Buffer.cell (put_half ram p v) i =
  if past p i =? 0 then v mod 256 else if past p i =? 1 then v / 256 else Buffer.cell ram i.
Proof.
  intros Hp He Hi. destruct (even_next p Hp He) as [Hn _]. unfold put_half.
  rewrite Buffer.cell_write_cells. change (Z.of_nat (length _)) with 2.
  assert (past p i = if decide (p <= i) then i - p else i - p + SOUND_RAM_SIZE) as ->.
  { unfold past. case_decide; [apply Z.mod_small; lia|].
    symmetry. apply (Z.mod_unique_pos _ _ (-1)); lia. }
  destruct (decide (p <= i)).
  - destruct (Z.eqb_spec (i - p) 0) as [E|].
    { rewrite decide_True by lia. by rewrite E. }
    destruct (Z.eqb_spec (i - p) 1) as [E|].
    { rewrite decide_True by lia. by rewrite E. }
    by rewrite decide_False by lia.
  - rewrite decide_False by lia. by rewrite !(proj2 (Z.eqb_neq (i - p + SOUND_RAM_SIZE) _)) by lia.
Qed.

(** The RAM after the word [w] at [p]. *)
Definition put_word (ram : Buffer) (p w : Z) : Buffer :=
  put_half (put_half ram p (w mod 2 ^ 16)) (moved p) (w / 2 ^ 16).

Lemma byte_values w :
  byte 0 w = w mod 2 ^ 16 mod 256 /\ byte 1 w = w mod 2 ^ 16 / 256 /\
  byte 2 w = w / 2 ^ 16 mod 256 /\ (in_u 32 w -> byte 3 w = w / 2 ^ 16 / 256).
Proof.
  unfold byte. change (2 ^ (8 * 0)) with 1. change (2 ^ (8 * 1)) with 256.
  change (2 ^ (8 * 2)) with 65536. change (2 ^ (8 * 3)) with (65536 * 256).
  change (2 ^ 16) with (256 * 256). rewrite Z.div_1_r. split_and!.
  - by rewrite Z.mod_mod_divide by (by exists 256).
  - rewrite Z.rem_mul_r by lia. rewrite Z.mul_comm, Z.div_add by lia.
    rewrite (Z.div_small (w mod 256)) by (apply Z.mod_pos_bound; lia). lia.
  - done.
  - intros [Hw0 Hw]. change (2 ^ 32) with (65536 * 65536) in Hw. rewrite Z.div_div by lia.
    apply Z.mod_small. split; [apply Z.div_pos; lia|apply Z.div_lt_upper_bound; lia].
Qed.

Lemma word_cell ram p w i : in_ram p -> p mod 2 = 0 -> in_ram i -> in_u 32 w ->
  Buffer.cell (put_word ram p w) i =
  if past p i <? 4 then byte (past p i) w else Buffer.cell ram i.
Proof.
  intros Hp He Hi Hw. destruct (moved_ok p Hp He) as [Hm Hme].
  destruct (byte_values w) as (B0 & B1 & B2 & B3%(fun f => f Hw)).
  unfold put_word. rewrite !half_cell by done. pose proof (past_range p i) as Hr.
  pose proof (past_moved p i 2 ltac:(rewrite spu2_size_value; lia)) as Hpm.
  fold (moved p) in Hpm. rewrite Hpm. rewrite spu2_size_value in *.
  assert (past p i = 0 \/ past p i = 1 \/ past p i = 2 \/ past p i = 3 \/ 4 <= past p i)
    as Hcases by lia.
  set (l0 := w mod 2 ^ 16 mod 256) in *. set (l1 := w mod 2 ^ 16 / 256) in *.
  set (l2 := w / 2 ^ 16 mod 256) in *. set (l3 := w / 2 ^ 16 / 256) in *. clearbody l0 l1 l2 l3.
  destruct Hcases as [E|[E|[E|[E|E]]]]; [rewrite E; cbv -[byte]; congruence..|].
  rewrite (proj2 (Z.ltb_ge (past p i) 2)), (proj2 (Z.ltb_ge (past p i) 4)) by lia.
  rewrite (proj2 (Z.eqb_neq (past p i - 2) 0)), (proj2 (Z.eqb_neq (past p i - 2) 1)) by lia.
  by rewrite (proj2 (Z.eqb_neq (past p i) 0)), (proj2 (Z.eqb_neq (past p i) 1)) by lia.
Qed.

(** The word at [p]. *)
Definition get_word (ram : Buffer) (p : Z) : Z :=
  from_le [Buffer.cell ram p; Buffer.cell ram (p + 1)] .|
  Z.shiftl (from_le [Buffer.cell ram (moved p); Buffer.cell ram (moved p + 1)]) 16.

Lemma get_word_eq ram p w : in_ram p -> p mod 2 = 0 -> in_u 32 w ->
  (forall d, 0 <= d < 4 -> Buffer.cell ram ((p + d) mod SOUND_RAM_SIZE) = byte d w) ->
  get_word ram p = w.
Proof.
  intros Hp He Hw Hc. destruct (moved_ok p Hp He) as [Hm Hme].
  destruct (even_next p Hp He) as [Hn _]. destruct (even_next _ Hm Hme) as [Hmn _].
  destruct (byte_values w) as (B0 & B1 & B2 & B3%(fun f => f Hw)). unfold get_word.
  pose proof (Hc 0 ltac:(lia)) as C0. pose proof (Hc 1 ltac:(lia)) as C1.
  pose proof (Hc 2 ltac:(lia)) as C2. pose proof (Hc 3 ltac:(lia)) as C3.
  rewrite Z.add_0_r, Z.mod_small in C0 by lia. rewrite Z.mod_small in C1 by lia.
  fold (moved p) in C2.
  assert ((p + 3) mod SOUND_RAM_SIZE = moved p + 1) as E.
  { rewrite <- (Z.mod_small (moved p + 1) SOUND_RAM_SIZE) by lia. unfold moved.
    rewrite Z.add_mod_idemp_l by lia. f_equal; lia. }
  rewrite E in C3. rewrite C0, C1, C2, C3, B0, B1, B2, B3, !from_le_2.
  destruct Hw as [Hw0 Hw]. change (2 ^ 32) with 4294967296 in Hw. change (2 ^ 8) with 256.
  pose proof (Z.div_mod (w mod 2 ^ 16) 256 ltac:(lia)). pose proof (Z.div_mod (w / 2 ^ 16) 256 ltac:(lia)).
  pose proof (Z.div_mod w (2 ^ 16) ltac:(lia)).
  replace (w mod 2 ^ 16 mod 256 + w mod 2 ^ 16 / 256 * 256) with (w mod 2 ^ 16) by lia.
  replace (w / 2 ^ 16 mod 256 + w / 2 ^ 16 / 256 * 256) with (w / 2 ^ 16) by lia.
  rewrite Z.lor_comm, lor_shiftl_add by (lia || (apply Z.mod_pos_bound; lia)). lia.
Qed.

Lemma ready_ok c : core_ok c -> core_ok (Spu2.ready c) /\ port (Spu2.ready c) = port c.
Proof.
  intros Hc. split; [|done]. unfold Spu2.ready.
  assert (u16 (core_status c .| STATUS_DMA_READY)).
  { pose proof (core_halves_ok c Hc) as Hh. rewrite !Forall_cons in Hh.
    apply in_u_lor; [lia|tauto|by split]. }
  core_fields.
Qed.

(** The port after a word. *)
Definition stepped (c : Core) : Core := Spu2.ready (advanced (advanced c)).

Lemma stepped_ok c : core_ok c ->
  core_ok (stepped c) /\ port (stepped c) = (port c + 4) mod SOUND_RAM_SIZE.
Proof.
  intros Hc. destruct (advanced_ok c Hc) as (H1 & _ & E1). destruct (advanced_ok _ H1) as (H2 & _ & E2).
  destruct (ready_ok _ H2) as [H3 E3]. split; [done|]. unfold stepped. rewrite E3, E2, E1.
  unfold moved. rewrite Z.add_mod_idemp_l by (by rewrite spu2_size_value). f_equal; lia.
Qed.

Lemma core_index_lt c : (SoundDmaChannel.core c < 2)%nat.
Proof. destruct c; cbn; lia. Qed.

Lemma port_at s k core : cores s !! k = Some core -> port (cores s !!! k) = port core.
Proof. intros E. by rewrite (list_lookup_total_correct _ _ _ E). Qed.

(** A unit whose core [k] and RAM were replaced, with its interrupt bits refreshed. *)
Lemma replaced_ok s k core ram : spu2_ok s -> (k < 2)%nat -> core_ok core -> ram_ok ram ->
  let s' := Spu2.refresh_irq_info (s <| spu_ram := ram |> <| cores := <[k := core]> (cores s) |>) in
  spu2_ok s' /\ port (cores s' !!! k) = port core /\ spu_ram s' = ram.
Proof.
  intros Hs Hk Hc Hr s'. split_and!; [by apply refresh_ok, put_core_ok| |done].
  apply port_at. cbn. apply list_lookup_insert_eq. destruct (cores_ok s Hs) as [-> _]. exact Hk.
Qed.

Lemma spu2_write_word c w s : spu2_ok s -> in_u 32 w ->
  exists s', Spu2.write_word c w s = (Ok tt, s') /\ spu2_ok s' /\
    port_of c s' = (port_of c s + 4) mod SOUND_RAM_SIZE /\
    spu_ram s' = put_word (spu_ram s) (port_of c s) w.
Proof.
  intros Hs Hw. destruct (core_at s _ Hs (core_index_lt c)) as (core & E & Hc).
  pose proof (spu2_ram_ok s Hs) as Hr. rewrite (port_at _ _ _ E).
  assert (u16 (w mod 2 ^ 16)) as H1 by by apply Z.mod_pos_bound.
  assert (u16 (w / 2 ^ 16)) as H2.
  { destruct Hw as [Hw0 Hw]. split; [apply Z.div_pos; lia|]. by apply Z.div_lt_upper_bound. }
  destruct (advanced_ok core Hc) as (Hc1 & _ & E1).
  pose proof (put_half_ok (spu_ram s) (port core) _ Hr H1) as Hr1.
  unfold Spu2.write_word, Spu2.on_core. rewrite E.
  rewrite write_transfer_spec by done. cbn [fst snd].
  rewrite write_transfer_spec by done. cbn [fst snd].
  rewrite E1. fold (put_word (spu_ram s) (port core) w). fold (stepped core).
  destruct (stepped_ok core Hc) as [Hst Ep].
  destruct (replaced_ok s (SoundDmaChannel.core c) (stepped core) (put_word (spu_ram s) (port core) w)
    Hs (core_index_lt c) Hst ltac:(by apply put_half_ok)) as (Hok & Hp & Hram).
  eexists. split; [reflexivity|]. split; [exact Hok|]. by rewrite Hp.
Qed.

Lemma get_word_u32 ram p : ram_ok ram -> in_u 32 (get_word ram p).
Proof.
  intros Hr. apply in_u_lor; [lia|apply (in_u_mono 16); [lia|by apply read_half_u16]|].
  rewrite Z.shiftl_mul_pow2 by lia.
  pose proof (read_half_u16 ram (moved p) (moved p + 1) Hr) as [H0 H1]. unfold in_u.
  change (2 ^ 32) with (65536 * 65536). change (2 ^ 16) with 65536 in *. lia.
Qed.

Lemma spu2_read_word c s : spu2_ok s ->
  exists s', Spu2.read_word c s = (Ok (get_word (spu_ram s) (port_of c s)), s') /\ spu2_ok s' /\
    port_of c s' = (port_of c s + 4) mod SOUND_RAM_SIZE /\ spu_ram s' = spu_ram s.
Proof.
  intros Hs. destruct (core_at s _ Hs (core_index_lt c)) as (core & E & Hc).
  pose proof (spu2_ram_ok s Hs) as Hr. rewrite (port_at _ _ _ E).
  destruct (advanced_ok core Hc) as (Hc1 & _ & E1).
  unfold Spu2.read_word, Spu2.on_core. rewrite E.
  rewrite read_transfer_spec by done. cbn [fst snd].
  rewrite read_transfer_spec by done. cbn [fst snd].
  rewrite E1. fold (get_word (spu_ram s) (port core)). fold (stepped core).
  destruct (stepped_ok core Hc) as [Hst Ep].
  destruct (replaced_ok s (SoundDmaChannel.core c) (stepped core) (spu_ram s)
    Hs (core_index_lt c) Hst Hr) as (Hok & Hp & Hram).
  eexists. split; [reflexivity|]. split; [exact Hok|]. by rewrite Hp.
Qed.

(** ** The interfaces *)

#[export] Instance spu2_endpoint_laws : EndpointLaws Spu2 spu2_ok.
Proof.
  split.
  - intros c w s Hs Hw. destruct (spu2_write_word c w s Hs Hw) as (s' & E & Hs' & _).
    cbn. by rewrite E.
  - intros c s Hs. destruct (spu2_read_word c s Hs) as (s' & E & Hs' & _).
    cbn. rewrite E. split_and!; [done|done|]. intros w [= <-].
    apply get_word_u32. by apply spu2_ram_ok.
Qed.
#[export] Instance spu2_register_laws : RegisterLaws Spu2 spu2_ok.
Proof.
  split.
  - intros a s Hs.
    change (Ps2Dma.read_register a s) with (Spu2.endpoint (Spu2.read_register a s), s).
    cbn [fst snd]. split_and!; [|done|].
    + destruct (decide (valid_register a)) as [Ha|Ha].
      * by destruct (spu2_read_ok a s Hs Ha) as (v & -> & _).
      * by rewrite (proj1 (spu2_invalid a 0 s Ha)).
    + intros v. destruct (decide (valid_register a)) as [Ha|Ha].
      * destruct (spu2_read_ok a s Hs Ha) as (w & -> & Hw). by intros [= <-].
      * by rewrite (proj1 (spu2_invalid a 0 s Ha)).
  - intros a v s Hs Hv.
    change (Ps2Dma.write_register a v s) with
      (let (r, s') := Spu2.write_register a v s in (Spu2.endpoint r, s')).
    destruct (decide (valid_register a)) as [Ha|Ha].
    + by destruct (spu2_write_ok a v s Hs Hv Ha) as ([] & s' & -> & Hs').
    + by rewrite (proj2 (spu2_invalid a v s Ha)).
Qed.

(** ** Runs of words *)

Lemma send_spec c ws : forall s,
  spu2_ok s -> Forall (in_u 32) ws -> 4 * Z.of_nat (length ws) <= SOUND_RAM_SIZE ->
  exists s', send (Ps2Dma.write_word c) ws s = (Ok tt, s') /\ spu2_ok s' /\
    forall i, in_ram i -> Buffer.cell (spu_ram s') i =
      let d := past (port_of c s) i in
      if d <? 4 * Z.of_nat (length ws) then byte (d mod 4) (nth (Z.to_nat (d / 4)) ws 0)
      else Buffer.cell (spu_ram s) i.
Proof.
  induction ws as [|w ws IH]; intros s Hs Hws Hl.
  { exists s. split_and!; [done|done|]. intros i Hi. pose proof (past_range (port_of c s) i).
    cbn [length]. cbv zeta. by rewrite (proj2 (Z.ltb_ge _ _)) by lia. }
  apply Forall_cons in Hws as [Hw Hws]. cbn [length] in Hl |- *.
  destruct (spu2_write_word c w s Hs Hw) as (s1 & E & Hs1 & Hp & Hr).
  destruct (IH s1 Hs1 Hws ltac:(lia)) as (s2 & E2 & Hs2 & Hc). exists s2. split_and!; [|done|].
  { cbn [send]. change (Ps2Dma.write_word c w s) with (Spu2.write_word c w s). by rewrite E. }
  intros i Hi. rewrite (Hc i Hi), Hp, Hr. cbv zeta.
  pose proof (past_range (port_of c s) i) as Hd. set (p := port_of c s) in *.
  destruct (port_ok (cores s !!! SoundDmaChannel.core c)) as [Hpr Hpe].
  rewrite past_moved by (rewrite spu2_size_value; lia). rewrite word_cell by done.
  set (d := past p i) in *. destruct (Z.ltb_spec d 4) as [Hd4|Hd4].
  - rewrite (proj2 (Z.ltb_ge (d - 4 + SOUND_RAM_SIZE) _)) by lia.
    rewrite (proj2 (Z.ltb_lt d (4 * _))) by lia. rewrite Z.mod_small, Z.div_small by lia. done.
  - assert (0 <= (d - 4) / 4) by (apply Z.div_pos; lia).
    assert (d mod 4 = (d - 4) mod 4 /\ d / 4 = (d - 4) / 4 + 1) as [-> ->].
    { pose proof (Z.div_mod (d - 4) 4 ltac:(lia)). pose proof (Z.mod_pos_bound (d - 4) 4 ltac:(lia)).
      split; symmetry; [apply (Z.mod_unique_pos _ _ ((d - 4) / 4 + 1))|
        apply (Z.div_unique_pos _ _ _ ((d - 4) mod 4))]; lia. }
    replace (Z.to_nat ((d - 4) / 4 + 1)) with (S (Z.to_nat ((d - 4) / 4))) by lia. cbn [nth].
    destruct (Z.ltb_spec (d - 4) (4 * Z.of_nat (length ws))), (Z.ltb_spec d (4 * Z.of_nat (S (length ws))));
      try done; lia.
Qed.

Lemma receive_spec c n : forall s, spu2_ok s ->
  exists s', receive (Ps2Dma.read_word c) n s =
      ((fun k => get_word (spu_ram s) ((port_of c s + 4 * Z.of_nat k) mod SOUND_RAM_SIZE)) <$> seq 0 n,
       (Ok tt, s')) /\ spu2_ok s' /\ spu_ram s' = spu_ram s.
Proof.
  induction n as [|n IH]; intros s Hs; [by exists s|].
  destruct (spu2_read_word c s Hs) as (s1 & E & Hs1 & Hp & Hr).
  destruct (IH s1 Hs1) as (s2 & E2 & Hs2 & Hr2). exists s2. split_and!; [|done|congruence].
  cbn [receive]. change (Ps2Dma.read_word c s) with (Spu2.read_word c s). rewrite E, E2, Hr, Hp.
  f_equal. cbn [seq fmap list_fmap]. f_equal.
  - destruct (port_ok (cores s !!! SoundDmaChannel.core c)) as [Hpr _].
    f_equal. rewrite Z.add_0_r. by rewrite Z.mod_small.
  - rewrite <- seq_shift, <- list_fmap_compose. apply list_fmap_ext. intros _ k _. cbn.
    f_equal. rewrite Z.add_mod_idemp_l by by rewrite spu2_size_value. f_equal. lia.
Qed.

(** ** Setting the port *)

(** The two halves of the transfer address of core [c], written as the driver does. *)
Definition seek (c : SoundDmaChannel) (high low : Z) (s : Spu2) : Spu2 :=
  let base := SPU2_BASE + CORE_STRIDE * Z.of_nat (SoundDmaChannel.core c) in
  (Spu2.write_register (base + TSA_LOW) low (Spu2.write_register (base + TSA_HIGH) high s).2).2.

(** Evaluate the closed tests in front of the goal. *)
Ltac closed_tests :=
  repeat lazymatch goal with
  | |- context [if ?b then _ else _] =>
      let v := eval vm_compute in b in
      lazymatch v with
      | true => change b with true
      | false => change b with false
      end; cbv iota
  end.

Lemma write_tsa k local offset v s core h l :
  local = TSA_HIGH \/ local = TSA_LOW -> cores s !! k = Some core ->
  Spu2.decode_register_pair offset local s = Ok (decode_sound_address h l) ->
  Spu2.write_core_register k local offset v s =
  (Ok tt, s <| cores :=
     <[k := core <| transfer_address := decode_sound_address h l |>]> (cores s) |>).
Proof.
  intros Hlocal Ec Ed. unfold Spu2.write_core_register, Spu2.when. rewrite Ed.
  destruct Hlocal as [-> | ->]; closed_tests; cbn [omapok obind]; rewrite Ec; cbv zeta; closed_tests;
    unfold Spu2.write_plain_register; closed_tests; reflexivity.
Qed.

Lemma write_tsa_register k local v s :
  spu2_ok s -> (k < 2)%nat -> local = TSA_HIGH \/ local = TSA_LOW -> u16 v ->
  let offset := CORE_STRIDE * Z.of_nat k + local in
  let high := register_index (CORE_STRIDE * Z.of_nat k + TSA_HIGH) in
  let low := register_index (CORE_STRIDE * Z.of_nat k + TSA_LOW) in
  let regs := <[register_index offset := v]> (registers s) in
  exists core h l, cores s !! k = Some core /\ regs !! high = Some h /\ regs !! low = Some l /\
    Spu2.write_register (SPU2_BASE + CORE_STRIDE * Z.of_nat k + local) v s =
    (Ok tt, s <| registers := regs |>
              <| cores := <[k := core <| transfer_address := decode_sound_address h l |>]> (cores s) |>).
Proof.
  intros Hs Hk Hlocal Hv offset high low regs. destruct (core_at s k Hs Hk) as (core & E & _).
  destruct (registers_ok s Hs) as [Hlen Hall].
  assert (length regs = REGISTER_HALFWORDS) as Hlen' by (unfold regs; by rewrite length_insert).
  assert (k = 0%nat \/ k = 1%nat) as Hk2 by lia.
  assert (high < REGISTER_HALFWORDS /\ low < REGISTER_HALFWORDS /\
    register_index offset < REGISTER_HALFWORDS)%nat as (Hh & Hl & Ho).
  { unfold high, low, offset, lt. destruct Hk2 as [-> | ->], Hlocal as [-> | ->];
      repeat split; apply Nat.leb_le; by vm_compute. }
  destruct (lookup_lt_is_Some_2 regs high) as [h Eh]; [by rewrite Hlen'|].
  destruct (lookup_lt_is_Some_2 regs low) as [l El]; [by rewrite Hlen'|].
  destruct (lookup_lt_is_Some_2 (registers s) (register_index offset)) as [w Ew]; [by rewrite Hlen|].
  exists core, h, l. split_and!; [done..|].
  set (s1 := s <| registers := regs |>).
  assert (Spu2.decode_register_pair offset local s1 = Ok (decode_sound_address h l)) as Ed.
  { assert (register_index (if has_bits local 2 then offset - 2 else offset) = high /\
      register_index ((if has_bits local 2 then offset - 2 else offset) + 2) = low) as [Eh' El'].
    { unfold high, low, offset. destruct Hk2 as [-> | ->], Hlocal as [-> | ->]; by vm_compute. }
    unfold Spu2.decode_register_pair. change (registers s1) with regs. cbv zeta.
    rewrite Eh', El', Eh. cbn [expect obind]. by rewrite El. }
  pose proof (write_tsa k local offset v s1 core h l Hlocal E Ed) as Hw.
  change (cores s1) with (cores s) in Hw. rewrite <- Hw.
  unfold Spu2.write_register. replace (SPU2_BASE + CORE_STRIDE * Z.of_nat k + local)
    with (SPU2_BASE + offset) by (unfold offset; lia).
  assert (decode_register (SPU2_BASE + offset) = Ok offset) as ->.
  { unfold offset. by destruct Hk2 as [-> | ->], Hlocal as [-> | ->]. }
  rewrite Ew. fold regs. fold s1. cbv zeta.
  unfold offset. destruct Hk2 as [-> | ->], Hlocal as [-> | ->]; reflexivity.
Qed.

Lemma seek_spec c high low s : spu2_ok s -> u16 high -> u16 low ->
  spu2_ok (seek c high low s) /\ spu_ram (seek c high low s) = spu_ram s /\
  port_of c (seek c high low s) = normalize_ram_address (decode_sound_address high low).
Proof.
  intros Hs Hh Hl. pose proof (core_index_lt c) as Hk. unfold seek. cbv zeta.
  set (k := SoundDmaChannel.core c) in *.
  assert (valid_register (SPU2_BASE + CORE_STRIDE * Z.of_nat k + TSA_HIGH) /\
    valid_register (SPU2_BASE + CORE_STRIDE * Z.of_nat k + TSA_LOW)) as [V1 V2].
  { unfold valid_register. assert (k = 0%nat \/ k = 1%nat) as [-> | ->] by lia;
      repeat split; by vm_compute. }
  destruct (write_tsa_register k TSA_HIGH high s Hs Hk ltac:(by left) Hh)
    as (core & h & l & _ & _ & _ & E1).
  destruct (spu2_write_ok _ high s Hs Hh V1) as (? & s1 & E1' & Hs1).
  rewrite E1 in E1'. injection E1' as _ <-. rewrite E1. cbn [snd].
  set (s1 := s <| registers := _ |> <| cores := _ |>) in *.
  destruct (write_tsa_register k TSA_LOW low s1 Hs1 Hk ltac:(by right) Hl)
    as (core2 & h2 & l2 & Ec & Eh2 & El2 & E2).
  destruct (spu2_write_ok _ low s1 Hs1 Hl V2) as (? & s2 & E2' & Hs2).
  rewrite E2 in E2'. injection E2' as _ <-. rewrite E2. cbn [snd]. split_and!; [done|done|].
  destruct (registers_ok s Hs) as [Hlen _].
  assert (length (cores s1) = CORE_COUNT) as Hlc by apply (cores_ok s1 Hs1).
  assert (h2 = high /\ l2 = low) as [-> ->].
  { assert (k = 0%nat \/ k = 1%nat) as Hk2 by lia. split.
    - rewrite list_lookup_insert_ne in Eh2 by (destruct Hk2 as [-> | ->]; by vm_compute).
      unfold s1 in Eh2. cbn [modify registers] in Eh2.
      rewrite list_lookup_insert_eq in Eh2; [by injection Eh2|].
      rewrite Hlen. unfold lt. apply Nat.leb_le. by destruct Hk2 as [-> | ->]; vm_compute.
    - rewrite list_lookup_insert_eq in El2; [by injection El2|].
      destruct (registers_ok s1 Hs1) as [-> _]. unfold lt. apply Nat.leb_le.
      by destruct Hk2 as [-> | ->]; vm_compute. }
  rewrite (port_at _ k (core2 <| transfer_address := decode_sound_address high low |>)); [done|].
  cbn [modify cores]. apply list_lookup_insert_eq. rewrite Hlc. exact Hk.
Qed.

(** C12: Sound RAM gives back what DMA sent it: words written through a core's transfer
    port from an address the driver set are read back, in order, after the driver sets the
    same address again - from every address and core, across the end of sound RAM, for
    every number of words up to the whole RAM.  Neither direction fails, and no byte
    outside the run changes. *)
Theorem sound_ram_roundtrip c high low ws s :
  spu2_ok s -> u16 high -> u16 low -> Forall (in_u 32) ws ->
  4 * Z.of_nat (length ws) <= SOUND_RAM_SIZE ->
  let (sent, s1) := send (Ps2Dma.write_word c) ws (seek c high low s) in
  let '(received, (got, s2)) :=
    receive (Ps2Dma.read_word c) (length ws) (seek c high low s1) in
  sent = Ok tt /\ got = Ok tt /\ received = ws /\ spu2_ok s2 /\
  forall i, in_ram i ->
    4 * Z.of_nat (length ws) <= past (normalize_ram_address (decode_sound_address high low)) i ->
    Buffer.cell (spu_ram s2) i = Buffer.cell (spu_ram s) i.
Proof.
  intros Hs Hh Hl Hws Hlen. destruct (seek_spec c high low s Hs Hh Hl) as (Hs0 & Er0 & Ep0).
  destruct (send_spec c ws _ Hs0 Hws Hlen) as (s1 & -> & Hs1 & Hc). rewrite Ep0, Er0 in Hc.
  destruct (seek_spec c high low s1 Hs1 Hh Hl) as (Hs1' & Er1 & Ep1).
  destruct (receive_spec c (length ws) _ Hs1') as (s2 & -> & Hs2 & Er2). rewrite Er1, Ep1 in *.
  destruct (normalize_ok (decode_sound_address high low)) as [Hp Hpe].
  change (normalize_address _) with (normalize_ram_address (decode_sound_address high low)) in Hp, Hpe.
  set (p := normalize_ram_address _) in *. split_and!; [done|done| |done|].
  - apply list_eq_same_length with (n := length ws); [done|by rewrite length_fmap, length_seq|].
    intros k w w' Hk Ew Ew'. rewrite list_lookup_fmap, lookup_seq_lt in Ew by done.
    injection Ew as <-. assert (0 <= 4 * Z.of_nat k < SOUND_RAM_SIZE) as Hk4 by lia.
    pose proof (Forall_lookup_1 _ _ _ _ Hws Ew') as Hw'.
    assert (in_ram ((p + 4 * Z.of_nat k) mod SOUND_RAM_SIZE)) as Hin.
    { apply Z.mod_pos_bound. lia. }
    apply get_word_eq; [done| |done|].
    { rewrite spu2_size_value in *. apply mod_even_even; [done|lia|].
      replace (p + 4 * Z.of_nat k) with (p + 2 * Z.of_nat k * 2) by lia. by rewrite Z.mod_add. }
    intros d Hd. rewrite Z.add_mod_idemp_l by lia.
    replace (p + 4 * Z.of_nat k + d) with (p + (4 * Z.of_nat k + d)) by lia.
    rewrite Hc by (apply Z.mod_pos_bound; lia). cbv zeta. rewrite past_at by lia.
    rewrite (proj2 (Z.ltb_lt _ _)) by lia.
    replace (4 * Z.of_nat k + d) with (d + Z.of_nat k * 4) by lia.
    rewrite Z.mod_add, Z.div_add, Z.mod_small, Z.div_small by lia.
    rewrite Z.add_0_l, Nat2Z.id. by rewrite (nth_lookup_Some _ _ _ _ Ew').
  - intros i Hi Hpast. rewrite Er2, Hc by done. cbv zeta.
    by rewrite (proj2 (Z.ltb_ge _ _)) by lia.
Qed.

(** Four words up to the end of sound RAM and one past it. *)
Lemma sound_ram_roundtrip_witness :
  (receive (Ps2Dma.read_word Core1) 5
     (seek Core1 0xf 0xfff8 (send (Ps2Dma.write_word Core1) [1; 2; 3; 4; 0xdeadbeef]
        (seek Core1 0xf 0xfff8 Spu2.new)).2)).1 = [1; 2; 3; 4; 0xdeadbeef].
Proof.
  assert (u16 0xf /\ u16 0xfff8) as [H1 H2] by (split; by split).
  assert (Forall (in_u 32) [1; 2; 3; 4; 0xdeadbeef]) as Hw.
  { rewrite !Forall_cons, Forall_nil. unfold in_u. change (2 ^ 32) with 4294967296. lia. }
  pose proof (sound_ram_roundtrip Core1 0xf 0xfff8 [1; 2; 3; 4; 0xdeadbeef] Spu2.new
    spu2_new_ok H1 H2 Hw ltac:(by rewrite spu2_size_value)) as H.
  destruct (send _ _ _) as [sent s1]. cbn [snd]. change (length _) with 5%nat in H.
  destruct (receive _ _ _) as [received [got s2]]. cbn [fst].
  by destruct H as (_ & _ & Hr & _).
Defined.
